(* ===== verification/_CoqProject ===== *)
-Q . S2P
Prelude.v
Kmp.v
StringEval.v
LikeSpec.v
Like.v
LikeCompile.v
LikeMatch.v
LikeStep.v
LikeEval.v
Memory.v
Search.v
Vector.v
MarkIterator.v
Array.v
SortedArray.v
Stack.v
RecordNumber.v
Hash.v
TextType.v
SimpleStack.v
SimilarTo.v
SimilarSpec.v
SimilarRun.v
SimilarLang.v
SimilarParse.v
SimilarEval.v
SubstringSimilar.v
KeyTree.v
SparseBitmap.v
BitmapSet.v
BitmapWalk.v
BitmapLocate.v
BitmapOps.v
Outcome.v
StateMonad.v
Sqz.v
SqzPack.v
SqzCompress.v
SqzPart.v
SqzDiff.v
SqzDelta.v
BigRecord.v
BigStore.v
Btn.v
BtnNode.v
BtnJump.v
BtrFind.v
BtrKeys.v
BtrPage.v
BtrArea.v
BtrSearch.v
BtrChild.v
TimeStamp.v
CvtDateTime.v
CvtRoundtrip.v
CvtSafety.v
LockTable.v
LockQue.v
LockOps.v
LockInv.v
LockFrame.v
LockGrant.v
LockPost.v
LockRelease.v
LockSys.v
LockWait.v
LockConvert.v
LockEnqueue.v
LockOwner.v
LockSystem.v
LockManager.v
TraCache.v
TraOps.v
TraInventory.v
TraState.v
TraInv.v
TraStart.v
TraEnd.v
TraSystem.v
Transactions.v
