(* ===== verification/Prelude.v ===== *)
(** * Firebird core algorithms: a verification library

    Firebird is a relational database server written in C and C++. This library
    models self-contained algorithms of its engine, from the sources under
    [src/src/], and proves what makes them correct. A definition keeps the name of
    the function it models, and the condition of each of its branches; what is
    undefined behaviour in C (an access outside a block, a dangling pointer) is a
    [None] or an [Undefined] of the model, so that a theorem with a [Some] on its
    right-hand side also says that it does not happen.

    ** The parts and how they interact

    - The evaluation of string predicates. [evl_string.h] holds the evaluators of
      STARTING WITH, CONTAINING and LIKE, to which the engine hands the searched
      value in chunks; [SimilarToMatcher.h] the compiler of SIMILAR TO patterns and
      the machine that runs them, on which SUBSTRING ... SIMILAR is built.
    - The container classes of [common/classes/], on which all of the engine stands:
      vectors and arrays, plain and sorted, stacks, hash tables, and the sparse
      bitmaps that hold the record numbers an index scan has found.
    - Record numbers ([RecordNumber.h]): what a sparse bitmap holds, and how a number
      becomes a position on disk.
    - Index pages ([btn.h], [btn.cpp], [btr.cpp]): nodes whose keys share prefixes, and
      searching a page for a key, which yields a node of a leaf or the page below.
    - The storage of records: their compression and their differences ([sqz.cpp]),
      their distribution over data pages ([dpm.epp]), and how a reader puts a version
      together again ([vio.cpp]).
    - Dates: the calendar of time stamps ([NoThrowTimeStamp.cpp]) and the conversion
      of dates and times from and to text ([cvt.cpp]).
    - The lock manager ([lock.cpp]): the table, in a memory that processes share, of who
      holds which lock and who waits for it; granting in order, conversions, notices to
      those who block others, deadlocks; and the queues of the table, which survive the
      death of a process at any store.
    - Transactions ([tra.cpp], [tpc.cpp], [ods.cpp]): starting and ending them, with or
      without retaining the context, and waiting for them; the inventory pages, which hold
      their states, and the cache of these pages; the counters of the header page. They
      decide which version of a record a transaction sees and which versions may go. What
      they need of the lock manager is an exclusive lock on each number, with a datum.

    ** Files

    Shared: this file (arrays at signed indices, databases of rewriting lemmas,
    tactics, machine integers); Memory ([memcpy], [memmove], [memset], [memcmp] on
    blocks); Search (the binary search of [vector.h] and [array.h]; sortedness for a
    weak order); Outcome (results, [BUGCHECK], undefined behaviour); StateMonad (operations
    on a state that may fail, and their weakest preconditions).

    String predicates, [src/src/jrd/evl_string.h]:
    - Kmp: [preKmp], the jump table, and the loop that follows it.
    - StringEval: [StaticAllocator], [StartsEvaluator], [ContainsEvaluator]. The
      verdict is that of a plain prefix or substring test of the whole value, however
      the value is cut into chunks.
    - LikeSpec is the meaning of LIKE; Like the evaluator ([LikeEvaluator]: the two
      passes of its constructor, [processNextChunk], [result], [reset]). LikeCompile
      proves the constructor, LikeMatch and LikeStep the matching phase (invariants of
      the set of branches), LikeEval the evaluator as a whole: equivalence with
      LikeSpec, the error of an invalid escape, what the early [false] promises.

    SIMILAR TO, [src/src/jrd/SimilarToMatcher.h]:
    - TextType: what the matcher asks of a text type and a character set, as a record
      of operations with laws. SimpleStack: the stack of the machine.
    - SimilarTo: the parser and compiler ([parseExpr], [parseTerm], [parseFactor],
      [parsePrimary]) and the machine ([match]). SimilarSpec: regular expressions and
      the grammar. SimilarRun: what a piece of program does, as a relation between
      positions; SimilarLang: the relation of an expression; SimilarParse: an accepted
      pattern is of the grammar and its program implements its expression.
      SimilarEval: the evaluator as a whole, termination of the compiler, and the
      patterns where the code diverges from its intention. One instruction of the machine
      reads the frame below the top of its stack after a push that may have moved the stack: the
      model has the size of the stack's blocks, and a run that gets there is undefined. The
      theorems say that the answer is right or that the machine has got to that point.
    - SubstringSimilar: [SubstringSimilarMatcher].

    Containers, [src/src/common/classes/]:
    - Vector ([vector.h]: [Vector], [SortedVector]), MarkIterator (the same file's
      [MarkIterator], and [flushPages] of [src/src/jrd/cch.cpp], which writes pages in
      passes until none is left), Array and SortedArray ([array.h]), Stack
      ([stack.h]), Hash ([Hash.h]: chains linked through a store). Each has an
      abstract state (a list, a sorted list, a map) and a theorem that every sequence
      of operations on the concrete state is simulated by the abstract one.
    - KeyTree is the interface of a tree with unique keys ([tree.h]) as a class of
      operations and a class of laws; SparseBitmap is [sparse_bitmap.h] over that
      interface. BitmapSet proves that a bitmap is a finite set, BitmapWalk that an
      accessor visits it in order and to the end, BitmapLocate what [locate] finds,
      BitmapOps that [bit_or] and [bit_and] are union and intersection.
    - RecordNumber ([src/src/jrd/RecordNumber.h]): positions and numbers, and the
      layout of blob ids on machines of either byte order.

    Index pages:
    - Btn ([src/src/jrd/btn.h], [btn.cpp]: [IndexNode], [IndexJumpNode]). BtnNode proves
      that a node is read as it was written, from as many bytes as [getNodeSize] says;
      BtnJump the same for jump nodes, and what [computePrefix] and [keyEqual] compute.
    - BtrFind ([find_area_start_point], [find_node_start_point], [find_page] of
      [src/src/jrd/btr.cpp]). BtrKeys is the theory of keys that share prefixes; BtrPage
      says what a well-formed page is ([page_rep]: the nodes and jump nodes of a list of
      entries); BtrArea proves where the jump nodes lead, BtrSearch and BtrChild that the
      searches find what a walk through all entries would, in both orders, with and
      without record numbers.

    Storage of records:
    - Sqz ([src/src/jrd/sqz.cpp]: the class [Compressor]); SqzPack, SqzCompress and
      SqzPart prove it: packing and unpacking is the identity, unpacking bytes of any
      kind ends with a record, one of two errors or an access outside the bytes, and when it is
      which; a part that fits is packed right.
    - SqzDiff ([makeDiff], [makeNoDiff], [applyDiff]) and SqzDelta: applying the
      difference of two records to one of them gives the other one.
    - BigRecord ([store_big_record], [DPM_store], [fragment] of [src/src/jrd/dpm.epp];
      [VIO_data] of [src/src/jrd/vio.cpp]) and BigStore: what is stored, on however
      many pages, as a whole, after an update, or as a difference, is what is read.

    Dates:
    - TimeStamp ([src/src/common/classes/NoThrowTimeStamp.cpp]): dates and times as
      numbers, against a calendar defined by the lengths of its months and years.
    - CvtDateTime ([string_to_datetime] and [datetime_to_text] of
      [src/src/common/cvt.cpp]; an access outside the arrays of components is undefined).
      CvtRoundtrip proves that what is written is read again,
      CvtSafety that any text becomes a valid time stamp or an error, which fields are
      accepted, and what a year of two digits means.

    Lock manager, [src/src/lock/lock.cpp] and [lock_proto.h]:
    - LockTable (the blocks, a table as a state) and LockOps
      (every operation, statement by statement). LockQue: the queues as linked nodes, the
      stores of [insert_tail] and [remove_que] one by one, crashes and the recovery of
      [acquire_shmem]; rings are lists, and a crash leaves the list before or after. The
      recovery is done for an active owner at a positive offset alone: who dies as
      [DUMMY_OWNER] leaves the queue half changed, which is shown there.
    - LockInv: weakest preconditions of the primitives, and the invariant of a lock, its
      counters and its requests; LockFrame: changes that do not matter to it. LockGrant,
      LockPost and LockRelease: granting, the first of those who wait, and the end of a
      request. LockSys: the invariant of the table with the waits that have not ended;
      LockWait, LockConvert, LockEnqueue and LockOwner: every operation keeps it.
    - LockSystem: the search for deadlocks against the graph of waits; sequences of
      operations and the tables that they reach. LockManager: the
      promises. No two requests are granted in states that are not compatible, nobody
      waits who could go on, operations end, a victim of a deadlock is in a circle of waits,
      and what the operations answer.

    Transactions, [src/src/jrd/tra.cpp], [tra.h], [tpc.cpp], [ods.cpp]:
    - TraCache: states in the bits of a page ([TRA_state], [put_state]), the counters
      ([getNT], [writeNT] and so on), a database as a state (its inventory pages, its header
      page, their copies in memory, the locks), and the class [TipCache]. TraOps: the
      functions of [tra.cpp] on that state and on the block of a transaction;
      [transaction_start] is cut where it releases the header page, into [start_begin] and
      [start_end].
    - TraInventory: the cache is a view of the inventory pages without gaps; copies of the
      inventory. TraState: setting, finding and looking up states. TraInv: the next number,
      and the invariant of a database with the transactions that run: who is active, which
      locks they hold, what their snapshots say, below which number nobody sees anyone as
      active. TraStart, TraEnd: starts, ends and retained contexts keep it. TraSystem:
      sequences of such operations and the states that they reach; none fails; opening
      the database again ([PAG_header], [TRA_cleanup]).
    - Transactions: the promises. What a snapshot sees does not change, read committed sees
      the present, versions that garbage collection removes are needed by nobody, what is
      active in the inventory runs, a database that is opened again has lost what was active
      and nothing else (operations go on from there unless the last inventory page is full),
      and what starts, ends and waits answer, waits also when locks have been lost with the
      process that held them; and three situations in which the code does not keep them.

    ** Bounds and fuel

    A loop that is not structural is a [Fixpoint] on a [nat], the fuel, and running
    out of fuel is a result of its own. The fuel is computed from the data where the
    code's loop has a measure (the length of what is left to read, the distance of two
    indices, the number of entries in a chain), and the theorems are about the results
    with that fuel, so that they state termination as well. The machine of SIMILAR TO
    has a step function and a number of steps: its theorems state that there is a
    number of steps from which on the answer is the same. Characters, lengths and
    indices are [Z]. The walk through the graph of waits gets as much fuel as there are
    requests, since each call goes to one that was not seen; the loops of [purge_owner]
    get the lengths of the queues that they empty. The lock table counts its memory in
    blocks; [alloc] extends it when it is full, up to [sh_mem_limit], which is less than 65536 in
    these theorems, so that the counters of a lock, of 16 bits, do not wrap: that larger
    tables keep their counters is not claimed. A key of a lock has its length in 8 bits: one of
    256 bytes or more is stored with its length cut and never found again. The loops over transactions get the length of the range
    that is left, those over inventory pages the number of pages. An inventory page holds a
    multiple of four transactions, below 2^18, as the sizes of pages give; a start needs that the
    inventory has less than 2^31 pages and that less than 2^32 transactions are interesting
    ([room_to_start]), since positions in the vector have 32 bits. Wrap-around is written out where the code relies on it or where
    a theorem bounds it (hashes, record numbers, blob ids, counters of differences).

    ** Not modelled

    - [BePlusTree] itself: its inner pages, splits and merges. It is an interface
      here, with a sorted list as the instance; the theorems about bitmaps hold for
      every tree that keeps the interface's promises.
    - Memory pools and allocation failures: an allocation succeeds. Where objects are
      shared or dangling pointers are possible (Stack, Hash, SimpleStack) addresses
      are modelled.
    - Character sets and collations ([src/src/intl/], tables of third parties and
      generated code): what the matchers need of them is the record of TextType.
    - Where data pages are and who holds them: a page is the bytes of the record on
      it, and the buffer cache and careful write are not part of the model. Records have
      one author at a time.
    - Of index pages: insertion, deletion, splits, the merging of pages, the bulk load and
      the making of keys from values.
    - Of the lock manager: the history, the statistics, the mutex and the mapping of the
      memory, the events that wake threads (a wait is over at any time, which is more than
      they allow), the purge of processes that died, the making and the reuse of owners and
      processes, the consistency check of the table. An AST is run in a step of its own:
      where the code runs it within [signal_owner], for an owner of the same process, it
      lets others into the table first. The compiler is to keep the order of stores.
    - Of transactions: limbo and two-phase commit, deferred work, the undo log of
      savepoints (whether it succeeds is an argument), page flushes, triggers, relation locks,
      the options of the parameter block, the sweeper, and the counters of an attachment's
      temporary tables. The invariant is about one process with a database that may be
      written, and about starts whose two parts are not separated by other operations:
      Transactions shows what may happen otherwise. The lock [LCK_tra_pc] is always
      granted.
      What is on the pages when a process goes is what it has written: the order in which
      the buffer cache writes pages is not modelled here.
    - Blob data, the threads that collect garbage, the sort, the
      compiler and the nodes of DSQL, conversion of other data types, system tables, the
      remote protocol, the API, security and the utilities. These parts are mostly
      effects on devices, on the operating system and on each other; their pure
      kernels (the keys of indices, parameter blocks, the runs of the sort) are the candidates for an extension of this library. *)

From stdpp Require Export base numbers list option strings.
From Stdlib Require Export ZArith Lia.

#[global] Set Default Goal Selector "!".
#[global] Open Scope Z_scope.

(** ** Notation

    [l @ i] reads a C array at a signed index, [aset l i v] stores into it.
    Both are partial: an index outside the array is undefined behaviour in C
    and is the [None] of the model. *)

Declare Scope fb_scope.
Delimit Scope fb_scope with fb.
#[global] Open Scope fb_scope.

Section Arrays.
Context {A : Type}.

Definition aget (l : list A) (i : Z) : option A :=
  if decide (0 <= i) then l !! Z.to_nat i else None.

Definition aset (l : list A) (i : Z) (v : A) : option (list A) :=
  if decide (0 <= i < Z.of_nat (length l))
  then Some (<[Z.to_nat i := v]> l) else None.
End Arrays.

Notation "l @ i" := (aget l i) (at level 19, i at level 10, left associativity) : fb_scope.

(** ** Hint databases

    [fbarr] rewrites array reads and stores; [fblen] rewrites lengths. *)

Create Rewrite HintDb fbarr.
Create Rewrite HintDb fblen.

Section ArrayLemmas.
Context {A : Type}.
Implicit Types (l : list A) (i : Z) (n : nat) (v : A).

Lemma aget_nat l n : l @ (Z.of_nat n) = l !! n.
Proof. unfold aget. rewrite decide_True by lia. by rewrite Nat2Z.id. Qed.

Lemma aget_nonneg l i : 0 <= i -> l @ i = l !! Z.to_nat i.
Proof. intros. unfold aget. by rewrite decide_True by lia. Qed.

Lemma aget_Some l i v :
  l @ i = Some v <-> 0 <= i /\ l !! Z.to_nat i = Some v.
Proof.
  unfold aget. case_decide; split; intros; destruct_and?; try done.
Qed.

Lemma aget_is_Some l i :
  is_Some (l @ i) <-> 0 <= i < Z.of_nat (length l).
Proof.
  unfold aget. case_decide.
  - rewrite lookup_lt_is_Some. lia.
  - split; [by intros [? ?]|lia].
Qed.

Lemma aget_lt_Some l i v : l @ i = Some v -> 0 <= i < Z.of_nat (length l).
Proof. intros H. apply aget_is_Some. eauto. Qed.

Lemma aset_in l i v :
  0 <= i < Z.of_nat (length l) -> aset l i v = Some (<[Z.to_nat i := v]> l).
Proof. intros. unfold aset. by rewrite decide_True by lia. Qed.

Lemma aset_Some l i v l' :
  aset l i v = Some l' <->
  0 <= i < Z.of_nat (length l) /\ l' = <[Z.to_nat i := v]> l.
Proof.
  unfold aset. case_decide; split; intros; destruct_and?; simplify_eq; try done; lia.
Qed.

Lemma aset_length l i v l' : aset l i v = Some l' -> length l' = length l.
Proof. intros [? ->]%aset_Some. by rewrite length_insert. Qed.
End ArrayLemmas.

#[export] Hint Rewrite @aget_nat : fbarr.
#[export] Hint Rewrite @length_app @length_take @length_drop @length_insert
  @length_replicate @length_cons @length_nil @length_fmap @length_map @length_seq @length_reverse : fblen.

(** [len] reduces a goal about list lengths to arithmetic. *)
Ltac len := autorewrite with fblen in *; simpl in *; try lia.

(** [bind_inv] splits a hypothesis on a sequence of partial steps. *)
Ltac bind_inv :=
  repeat match goal with
  | H : (_ ≫= _) = Some _ |- _ =>
      apply bind_Some in H; destruct H as (? & ? & H)
  | H : Some _ = Some _ |- _ => injection H as H; subst
  | H : None = Some _ |- _ => discriminate H
  end.

(** ** Fixed-width integers

    An unsigned [w]-bit C integer is a [Z] in [0 .. 2^w - 1], a signed one a
    [Z] in [-2^(w-1) .. 2^(w-1) - 1]; [wrapU] and [wrapS] are the conversions
    the compiler performs. *)

Definition wrapU (w z : Z) : Z := z mod 2 ^ w.
Definition wrapS (w z : Z) : Z := (z + 2 ^ (w - 1)) mod 2 ^ w - 2 ^ (w - 1).

Definition inU (w z : Z) : Prop := 0 <= z < 2 ^ w.
Definition inS (w z : Z) : Prop := - 2 ^ (w - 1) <= z < 2 ^ (w - 1).

Lemma wrapU_range w z : 0 <= w -> inU w (wrapU w z).
Proof. intros. unfold inU, wrapU. apply Z.mod_pos_bound. lia. Qed.

Lemma wrapU_id w z : inU w z -> wrapU w z = z.
Proof. intros. unfold wrapU. by apply Z.mod_small. Qed.

Lemma pow2_split w : 0 < w -> 2 ^ w = 2 * 2 ^ (w - 1).
Proof. intros. replace w with (Z.succ (w - 1)) at 1 by lia. apply Z.pow_succ_r. lia. Qed.

Lemma wrapS_range w z : 0 < w -> inS w (wrapS w z).
Proof.
  intros. unfold inS, wrapS. pose proof (pow2_split w ltac:(lia)).
  pose proof (Z.mod_pos_bound (z + 2 ^ (w - 1)) (2 ^ w) ltac:(lia)). lia.
Qed.

Lemma wrapS_id w z : 0 < w -> inS w z -> wrapS w z = z.
Proof.
  intros Hw [? ?]. unfold wrapS. pose proof (pow2_split w ltac:(lia)).
  rewrite Z.mod_small by lia. lia.
Qed.

(** [lia32] is [lia] for goals about 32-bit bounds. *)
Ltac lia32 :=
  unfold inU, inS in *;
  change (2 ^ 31) with 2147483648 in *;
  change (2 ^ 32) with 4294967296 in *;
  lia.

(** ** List lemmas shared by the string components *)

Section ListLemmas.
Context {A : Type}.
Implicit Types (l k t p : list A).

Lemma suffix_of_app_cases l k t :
  l `suffix_of` t -> k `suffix_of` t -> (length k <= length l)%nat -> k `suffix_of` l.
Proof.
  intros [a ->] [b Hb] Hlen.
  exists (drop (length a) b).
  pose proof (f_equal (drop (length a)) Hb) as Hd.
  apply (f_equal length) in Hb. rewrite !length_app in Hb.
  rewrite drop_app_length in Hd. rewrite Hd.
  rewrite drop_app_le by lia. done.
Qed.

Lemma suffix_of_snoc l t (c d : A) :
  (l ++ [c]) `suffix_of` (t ++ [d]) <-> c = d /\ l `suffix_of` t.
Proof.
  split.
  - intros [k Hk]. rewrite app_assoc in Hk.
    apply app_inj_tail in Hk as [-> ->]. split; [done|]. by exists k.
  - intros [-> [k ->]]. exists k. by rewrite app_assoc.
Qed.

Lemma take_suffix_le p t n m :
  take n p `suffix_of` t -> (n <= length p)%nat ->
  (m <= n)%nat ->
  take m p `suffix_of` t <-> take m p `suffix_of` take n p.
Proof.
  intros Hn Hlen Hm. split.
  - intros Hs. eapply suffix_of_app_cases; [done..|]. len.
  - intros Hs. by etrans.
Qed.
End ListLemmas.

(** ** Refinement of operations

    [spec] is the abstract behaviour of the operations of a component ([None]
    where a call is not allowed), [run] the code's, [rep] relates their states.
    What holds of each operation holds of every sequence of them. *)

Section Refinement.
Context {Op Res A S : Type}.

Fixpoint exec_all (step : Op -> S -> option (S * Res)) (ops : list Op) (s : S)
    : option (S * list Res) :=
  match ops with
  | [] => Some (s, [])
  | op :: ops =>
      '(s, r) ← step op s;
      '(s, rs) ← exec_all step ops s;
      Some (s, r :: rs)
  end.
End Refinement.

Lemma exec_refines {Op Res A S : Type} (spec : Op -> A -> option (A * Res))
    (run : Op -> S -> option (S * Res)) (rep : S -> A -> Prop) :
  (forall op s a a' r, rep s a -> spec op a = Some (a', r) ->
     exists s', run op s = Some (s', r) /\ rep s' a') ->
  forall ops s a a' rs, rep s a -> exec_all spec ops a = Some (a', rs) ->
    exists s', exec_all run ops s = Some (s', rs) /\ rep s' a'.
Proof.
  intros Hstep ops. induction ops as [|op ops IH]; intros s a a' rs Hrep Hexec; simpl in *.
  { simplify_eq. by exists s. }
  destruct (spec op a) as [[a1 r]|] eqn:Hop; simpl in *; [|done].
  destruct (exec_all spec ops a1) as [[a2 rs2]|] eqn:Hops; simpl in *; [|done].
  simplify_eq. destruct (Hstep op s a a1 r Hrep Hop) as (s1 & -> & Hrep1). simpl.
  destruct (IH s1 a1 a' rs2 Hrep1 Hops) as (s2 & -> & Hrep2). simpl. by exists s2.
Qed.
