(* ===== verification/Kmp.v ===== *)
(** * The Knuth-Morris-Pratt kernel of [src/src/jrd/evl_string.h]

    [preKmp] builds the jump table of a pattern; [kmp_shift] is the inner
    [while] loop that every search over such a table runs. Characters are
    unsigned integers ([Z]); the jump table is an array of [SLONG], whose entry
    -1 means "no prefix left". *)

From S2P Require Import Prelude.

(** ** The code *)

(** [while (j > -1 && c != x[j]) j = kmpNext[j];], the loop of
    [ContainsEvaluator::processNextChunk] and of the search branch of
    [LikeEvaluator::processNextChunk]. *)
Fixpoint kmp_shift (fuel : nat) (x kmpNext : list Z) (c j : Z) : option Z :=
  match fuel with
  | O => None
  | S fuel =>
      if decide (-1 < j) then
        xj ← x @ j;
        if decide (xj = c) then Some j
        else j' ← kmpNext @ j; kmp_shift fuel x kmpNext c j'
      else Some j
  end.

(** The same loop as [preKmp] writes it: the character is [x[i]] and is read
    only when [j > -1]. *)
Fixpoint preKmp_shift (fuel : nat) (x kmpNext : list Z) (i j : Z) : option Z :=
  match fuel with
  | O => None
  | S fuel =>
      if decide (-1 < j) then
        xi ← x @ i;
        xj ← x @ j;
        if decide (xi = xj) then Some j
        else j' ← kmpNext @ j; preKmp_shift fuel x kmpNext i j'
      else Some j
  end.

(** [while (i < m - 1) { ... }] of [preKmp]. *)
Fixpoint preKmp_loop (fuel : nat) (x : list Z) (m i j : Z) (kmpNext : list Z)
    : option (Z * Z * list Z) :=
  match fuel with
  | O => None
  | S fuel' =>
      if decide (i < m - 1) then
        j ← preKmp_shift (Z.to_nat m + 2) x kmpNext i j;
        let i := i + 1 in
        let j := j + 1 in
        xi ← x @ i;
        xj ← x @ j;
        v ← (if decide (xi = xj) then kmpNext @ j else Some j);
        kmpNext ← aset kmpNext i v;
        preKmp_loop fuel' x m i j kmpNext
      else Some (i, j, kmpNext)
  end.

(** [preKmp(x, m, kmpNext)]: the argument [kmpNext] is the uninitialised block
    the caller allocated. *)
Definition preKmp (x : list Z) (m : Z) (kmpNext : list Z) : option (list Z) :=
  kmpNext ← aset kmpNext 0 (-1);
  '(i, j, kmpNext) ← preKmp_loop (Z.to_nat m + 1) x m 0 (-1) kmpNext;
  j ← preKmp_shift (Z.to_nat m + 2) x kmpNext i j;
  aset kmpNext (i + 1) (j + 1).

(** ** What a jump table means *)

(** The first [k] characters of [p] end the text [t]. *)
Definition psuf (p t : list Z) (k : nat) : Prop :=
  (k <= length p)%nat /\ take k p `suffix_of` t.

(** Entry [i < length p]: the longest border of [take i p] whose next character
    differs from [p !! i] (the table of the "strong" KMP automaton). *)
Definition fail_entry (p : list Z) (i : nat) (z : Z) : Prop :=
  -1 <= z < Z.of_nat i /\
  (0 <= z -> psuf p (take i p) (Z.to_nat z)) /\
  (forall c, p !! i = Some c ->
   forall k, (k < i)%nat -> z < Z.of_nat k -> psuf p (take i p) k -> p !! k = Some c).

(** Last entry: the longest proper border of the whole pattern. *)
Definition border_max (p : list Z) (z : Z) : Prop :=
  0 <= z < Z.of_nat (length p) /\ psuf p p (Z.to_nat z) /\
  forall k, (k < length p)%nat -> psuf p p k -> Z.of_nat k <= z.

Definition table_ok (p tbl : list Z) : Prop :=
  (forall i, (i < length p)%nat -> exists z, tbl !! i = Some z /\ fail_entry p i z) /\
  ((0 < length p)%nat -> exists z, tbl !! length p = Some z /\ border_max p z).

(** ** Prefix-suffix lemmas *)

Section PrefixSuffix.
Context (p : list Z).
Implicit Types (t : list Z) (k j : nat).

Lemma psuf_0 t : psuf p t 0.
Proof. split; [lia|]. rewrite take_0. apply suffix_nil. Qed.

Lemma psuf_nil k : psuf p [] k <-> k = 0%nat.
Proof.
  split; [intros [Hk [u Hu]]|intros ->; apply psuf_0].
  symmetry in Hu. apply app_eq_nil in Hu as [_ Hu].
  apply (f_equal length) in Hu. len.
Qed.

Lemma psuf_below t k j :
  psuf p t j -> (k < j)%nat -> psuf p t k <-> psuf p (take j p) k.
Proof.
  intros [Hj Ht] Hk. unfold psuf.
  pose proof (take_suffix_le p t j k Ht Hj ltac:(lia)) as ->. done.
Qed.

Lemma psuf_snoc t k c :
  (k < length p)%nat -> psuf p (t ++ [c]) (S k) <-> p !! k = Some c /\ psuf p t k.
Proof.
  intros Hk. destruct (lookup_lt_is_Some_2 p k Hk) as [d Hd]. unfold psuf.
  rewrite (take_S_r p k d Hd), suffix_of_snoc. rewrite Hd.
  split; intros; destruct_and?; simplify_eq; (repeat split); auto; lia.
Qed.

Lemma psuf_full t : psuf p t (length p) <-> p `suffix_of` t.
Proof. unfold psuf. rewrite firstn_all. split; [by intros [_ ?]|by split]. Qed.

(** A later text sees only the longest prefix-suffix of the earlier one. *)
Lemma suffix_restart t w j :
  psuf p t j -> (j < length p)%nat ->
  (forall k, (k < length p)%nat -> psuf p t k -> (k <= j)%nat) ->
  w <> [] ->
  p `suffix_of` (t ++ w) <-> p `suffix_of` (take j p ++ w).
Proof.
  intros [Hj Ht] Hjl Hmax Hw. split; [|intros Hs; etrans; [done|]; by apply suffix_app].
  intros Hs. destruct (decide (length p <= length w)%nat) as [Hle|Hgt].
  - transitivity w; [|by exists (take j p)].
    eapply suffix_of_app_cases; [by exists t|exact Hs|done].
  - assert (Hwp : w `suffix_of` p).
    { eapply suffix_of_app_cases; [exact Hs|by exists t|lia]. }
    destruct Hwp as [a Ha].
    assert (Hal : (length a < length p)%nat).
    { apply (f_equal length) in Ha. destruct w; [done|len]. }
    assert (Hta : take (length a) p = a) by (rewrite Ha; apply take_app_length).
    assert (Hsa : a `suffix_of` t).
    { destruct Hs as [u Hu]. rewrite Ha, app_assoc in Hu.
      apply app_inv_tail in Hu. by exists u. }
    assert ((length a <= j)%nat).
    { apply Hmax; [done|]. split; [lia|]. by rewrite Hta. }
    rewrite Ha at 1. apply suffix_app.
    eapply suffix_of_app_cases; [exact Ht|done|len].
Qed.
End PrefixSuffix.

(** ** Correctness of the shift loop *)

(** [cand k] says that the prefix of length [k] is still a candidate; the loop
    finds the longest candidate that [c] extends. *)
Section Shift.
Context (x p tbl : list Z) (cand : nat -> Prop).
Hypothesis x_p : forall k, (k < length p)%nat -> x !! k = p !! k.
Hypothesis cand_lt : forall k, cand k -> (k < length p)%nat.
Hypothesis cand_below : forall j k,
  cand j -> (k < j)%nat -> cand k <-> psuf p (take j p) k.

Lemma kmp_shift_spec c fuel j :
  -1 <= j -> (Z.to_nat (j + 1) < fuel)%nat ->
  (forall i, Z.of_nat i <= j -> exists z, tbl !! i = Some z /\ fail_entry p i z) ->
  (0 <= j -> cand (Z.to_nat j)) ->
  (forall k, cand k -> j < Z.of_nat k -> p !! k <> Some c) ->
  exists j', kmp_shift fuel x tbl c j = Some j' /\ -1 <= j' <= j /\
    (0 <= j' -> cand (Z.to_nat j') /\ p !! Z.to_nat j' = Some c) /\
    (forall k, cand k -> j' < Z.of_nat k -> p !! k <> Some c).
Proof.
  revert j. induction fuel as [|fuel IH]; intros j Hj Hfuel Htbl Hcand Hmax; [lia|].
  simpl. case_decide as Hd.
  2:{ exists j. split_and!; [done|lia|lia| |done]. lia. }
  specialize (Hcand ltac:(lia)). pose proof (cand_lt _ Hcand) as Hlt.
  destruct (lookup_lt_is_Some_2 p _ Hlt) as [d Hpd].
  rewrite (aget_nonneg x) by lia. rewrite x_p, Hpd by done. simpl.
  destruct (decide (d = c)) as [->|Hne].
  { exists j. split_and!; [done|lia|lia|by intros|done]. }
  destruct (Htbl (Z.to_nat j)) as (z & Hz & (Hzb & Hzs & Hzm)); [lia|].
  rewrite (aget_nonneg tbl) by lia. rewrite Hz. simpl.
  edestruct (IH z) as (j' & -> & ? & ? & ?).
  - lia.
  - lia.
  - intros i Hi. apply Htbl. lia.
  - intros Hz0. apply (cand_below (Z.to_nat j)); [done|lia|]. apply Hzs. lia.
  - intros k Hk Hzk Hpk. destruct (decide (j < Z.of_nat k)) as [|Hle].
    { by eapply Hmax. }
    destruct (decide (k = Z.to_nat j)) as [->|Hkj]; [congruence|].
    apply (cand_below (Z.to_nat j)) in Hk; [|done|lia].
    rewrite (Hzm d Hpd k) in Hpk; [congruence|lia|done|done].
  - exists j'. split_and!; [done|lia|lia|done|done].
Qed.
End Shift.

(** [preKmp]'s own copy of the loop is the same loop. *)
Lemma preKmp_shift_eq fuel x tbl i j c :
  x @ i = Some c -> preKmp_shift fuel x tbl i j = kmp_shift fuel x tbl c j.
Proof.
  intros Hc. revert j. induction fuel as [|fuel IH]; intros j; simpl; [done|].
  case_decide; [|done]. rewrite Hc. simpl.
  destruct (x @ j) as [xj|]; simpl; [|done].
  destruct (decide (c = xj)), (decide (xj = c)); try congruence.
  destruct (tbl @ j); simpl; [apply IH|done].
Qed.

(** ** Correctness of [preKmp] *)

(** [j] is the longest proper border of the first [i] characters (-1 when
    [i = 0]): the loop variable of [preKmp]. *)
Definition prop_border (p : list Z) (i : nat) (j : Z) : Prop :=
  -1 <= j < Z.of_nat i /\
  (0 <= j -> psuf p (take i p) (Z.to_nat j)) /\
  (forall k, (k < i)%nat -> psuf p (take i p) k -> Z.of_nat k <= j).

Section PreKmp.
Context (x p : list Z).
Hypothesis x_p : forall k, (k < length p)%nat -> x !! k = p !! k.

Definition entries_below (tbl : list Z) (n : nat) : Prop :=
  forall i, (i < n)%nat -> exists z, tbl !! i = Some z /\ fail_entry p i z.

Lemma prop_border_step tbl i j fuel :
  (i < length p)%nat -> prop_border p i j -> entries_below tbl i ->
  (i + 1 < fuel)%nat ->
  exists j', preKmp_shift fuel x tbl (Z.of_nat i) j = Some j' /\
    prop_border p (S i) (j' + 1).
Proof.
  intros Hi (Hj & Hb & Hmax) Htbl Hfuel.
  destruct (lookup_lt_is_Some_2 p i Hi) as [c Hc].
  rewrite (preKmp_shift_eq _ _ _ _ _ c) by (by rewrite aget_nat, x_p).
  set (cand := fun k => (k < i)%nat /\ psuf p (take i p) k).
  destruct (kmp_shift_spec x p tbl cand x_p) with (c := c) (fuel := fuel) (j := j)
    as (j' & -> & Hj' & Hfound & Hnone); subst cand; simpl in *.
  - intros k [? ?]. lia.
  - intros a k [? Ha] Hk. rewrite <- (psuf_below p (take i p) k a Ha Hk).
    split; [tauto|]. intros. split; [lia|done].
  - lia.
  - lia.
  - intros k Hk. apply Htbl. lia.
  - intros. split; [lia|]. by apply Hb.
  - intros k [Hk1 Hk2] Hk. specialize (Hmax k Hk1 Hk2). lia.
  - exists j'. split; [done|]. split_and!; [lia|lia| |].
    + intros _. rewrite (take_S_r p i c Hc).
      destruct (decide (0 <= j')) as [H0|H0].
      * destruct (Hfound H0) as [[? ?] Hpc].
        replace (Z.to_nat (j' + 1)) with (S (Z.to_nat j')) by lia.
        apply psuf_snoc; [lia|done].
      * replace (Z.to_nat (j' + 1)) with 0%nat by lia. apply psuf_0.
    + intros [|k] Hk; [lia|]. rewrite (take_S_r p i c Hc).
      rewrite psuf_snoc by lia. intros [Hpk Hps].
      destruct (decide (j' < Z.of_nat k)); [|lia].
      exfalso. eapply (Hnone k); [split; [lia|done]|lia|done].
Qed.

Lemma fail_entry_step tbl i j xi xj v :
  (0 < i)%nat -> prop_border p i j -> entries_below tbl i ->
  p !! i = Some xi -> p !! Z.to_nat j = Some xj ->
  (if decide (xi = xj) then tbl @ j else Some j) = Some v ->
  fail_entry p i v.
Proof.
  intros Hi (Hj & Hb & Hmax) Htbl Hxi Hxj Hv.
  assert (Hj0 : 0 <= j) by (apply (Hmax 0%nat); [lia|apply psuf_0]).
  specialize (Hb Hj0). destruct (decide (xi = xj)) as [<-|Hne]; simplify_eq.
  - rewrite aget_nonneg in Hv by done.
    destruct (Htbl (Z.to_nat j)) as (z & Hz & Hzb & Hzs & Hzm); [lia|].
    simplify_eq. split_and!; [lia|lia| |].
    + intros H0. apply (psuf_below p (take i p) _ (Z.to_nat j)); [done|lia|auto].
    + intros c ? k Hk Hvk Hps. simplify_eq.
      specialize (Hmax k Hk Hps).
      destruct (decide (k = Z.to_nat j)) as [->|]; [done|].
      apply Hzm; [done|lia|done|].
      apply (psuf_below p (take i p) k (Z.to_nat j)); [done|lia|done].
  - split_and!; [lia|lia|done|].
    intros c ? k Hk Hvk Hps. specialize (Hmax k Hk Hps). lia.
Qed.

Lemma entries_below_extend tbl i v :
  entries_below tbl i -> (i < length tbl)%nat -> fail_entry p i v ->
  entries_below (<[i := v]> tbl) (S i).
Proof.
  intros Htbl Hlen Hv k Hk. destruct (decide (k = i)) as [->|].
  - exists v. by rewrite list_lookup_insert_eq by done.
  - rewrite list_lookup_insert_ne by done. apply Htbl. lia.
Qed.

Lemma preKmp_loop_spec fuel tbl i j :
  (0 < length p)%nat -> (i < length p)%nat -> (length p <= length tbl)%nat ->
  prop_border p i j -> entries_below tbl (S i) ->
  (length p - i <= fuel)%nat ->
  exists j' tbl', preKmp_loop fuel x (Z.of_nat (length p)) (Z.of_nat i) j tbl =
      Some (Z.of_nat (length p - 1), j', tbl') /\
    prop_border p (length p - 1) j' /\ entries_below tbl' (length p) /\
    length tbl' = length tbl.
Proof.
  intros Hm. revert tbl i j. induction fuel as [|fuel IH];
    intros tbl i j Hi Hlen Hb Htbl Hfuel; [lia|]. simpl. case_decide as Hd.
  2:{ assert (i = length p - 1)%nat as -> by lia. exists j, tbl.
      split_and!; [done|done| |done]. intros k Hk. apply Htbl. lia. }
  destruct (prop_border_step tbl i j (Z.to_nat (Z.of_nat (length p)) + 2))
    as (j1 & -> & Hb1); [lia|done| |lia|].
  { intros k Hk. apply Htbl. lia. }
  simpl. pose proof Hb1 as (Hj1 & _ & Hmax1).
  assert (H01 : 0 <= j1 + 1) by (apply (Hmax1 0%nat); [lia|apply psuf_0]).
  replace (Z.of_nat i + 1) with (Z.of_nat (S i)) by lia.
  destruct (lookup_lt_is_Some_2 p (S i)) as [xi Hxi]; [lia|].
  destruct (lookup_lt_is_Some_2 p (Z.to_nat (j1 + 1))) as [xj Hxj]; [lia|].
  rewrite aget_nat, (aget_nonneg x) by done. rewrite !x_p by lia.
  rewrite Hxi, Hxj. simpl.
  assert (exists v, (if decide (xi = xj) then tbl @ (j1 + 1) else Some (j1 + 1)) = Some v)
    as [v Hv].
  { case_decide; [|by eexists]. apply aget_is_Some. lia. }
  rewrite Hv. simpl. rewrite aset_in by lia. simpl. rewrite Nat2Z.id.
  destruct (IH (<[S i := v]> tbl) (S i) (j1 + 1)) as (j' & tbl' & -> & ? & ? & ?).
  - lia.
  - by rewrite length_insert.
  - done.
  - apply entries_below_extend; [done|lia|].
    eapply fail_entry_step; eauto; lia.
  - lia.
  - exists j', tbl'. split_and!; [done|done|done|]. by rewrite length_insert in *.
Qed.
End PreKmp.

Lemma fail_entry_0 p : fail_entry p 0 (-1).
Proof. split_and!; [lia|lia|lia|]. intros. lia. Qed.

(** A pattern of length [m > 0] gets a correct table in any block of at least
    [m + 1] entries. *)
Lemma preKmp_spec x p tbl :
  (forall k, (k < length p)%nat -> x !! k = p !! k) ->
  (0 < length p < length tbl)%nat ->
  exists tbl', preKmp x (Z.of_nat (length p)) tbl = Some tbl' /\
    length tbl' = length tbl /\ table_ok p tbl'.
Proof.
  intros Hx Hlen. unfold preKmp. rewrite aset_in by lia. simpl.
  change (Z.to_nat 0) with 0%nat.
  destruct (preKmp_loop_spec x p Hx (Z.to_nat (Z.of_nat (length p)) + 1)
    (<[0%nat := -1]> tbl) 0 (-1)) as (j & tbl' & Heq & Hb & Htbl & Hl); [len..| | | |].
  { split_and!; [lia|lia|lia|]. intros. lia. }
  { apply entries_below_extend; [intros ? ?; lia|lia|apply fail_entry_0]. }
  { lia. }
  change (Z.of_nat 0) with 0 in Heq. rewrite Heq. simpl.
  destruct (prop_border_step x p Hx tbl' (length p - 1) j
    (Z.to_nat (Z.of_nat (length p)) + 2)) as (j' & -> & Hb'); [lia|done| |lia|].
  { intros k Hk. apply Htbl. lia. }
  simpl. rewrite length_insert in Hl.
  replace (Z.of_nat (length p - 1) + 1) with (Z.of_nat (length p)) by lia.
  rewrite aset_in by lia. rewrite Nat2Z.id.
  eexists. split; [done|]. split; [by rewrite length_insert|].
  replace (S (length p - 1)) with (length p) in Hb' by lia.
  destruct Hb' as (? & Hps & Hmax).
  assert (H0 : 0 <= j' + 1) by (apply (Hmax 0%nat); [lia|apply psuf_0]).
  rewrite firstn_all in *. split.
  - intros i Hi. rewrite list_lookup_insert_ne by lia. by apply Htbl.
  - intros _. exists (j' + 1). rewrite list_lookup_insert_eq by lia.
    split_and!; [done|]. split_and!; [lia|lia|by apply Hps|done].
Qed.

(** The empty pattern: [preKmp] still writes entries 0 and 1. *)
Lemma preKmp_empty x a b tbl : preKmp x 0 (a :: b :: tbl) = Some (-1 :: 0 :: tbl).
Proof. unfold preKmp. rewrite aset_in by (simpl; lia). simpl. by rewrite aset_in by (simpl; lia). Qed.

(** In a block of a single entry that write is out of bounds. *)
Lemma preKmp_empty_overrun x a : preKmp x 0 [a] = None.
Proof. reflexivity. Qed.

(** ** The step of a search

    [scan_state p t j]: after the text [t], [j] is the longest prefix of [p],
    shorter than [p], that ends [t]. *)
Definition scan_state (p t : list Z) (j : nat) : Prop :=
  psuf p t j /\ (j < length p)%nat /\
  forall k, (k < length p)%nat -> psuf p t k -> (k <= j)%nat.

Section Scan.
Context (x p tbl : list Z).
Hypothesis x_p : forall k, (k < length p)%nat -> x !! k = p !! k.
Hypothesis tbl_ok : table_ok p tbl.

Lemma scan_shift t j c fuel :
  scan_state p t j -> (j + 1 < fuel)%nat ->
  exists j' : nat, kmp_shift fuel x tbl c (Z.of_nat j) = Some (Z.of_nat j' - 1) /\
    psuf p (t ++ [c]) j' /\ (j' <= length p)%nat /\
    (forall k, psuf p (t ++ [c]) k -> (k <= j')%nat).
Proof.
  intros ([? Ht] & Hj & Hmax) Hfuel.
  destruct (kmp_shift_spec x p tbl (fun k => (k < length p)%nat /\ psuf p t k) x_p)
    with (c := c) (fuel := fuel) (j := Z.of_nat j)
    as (j' & -> & Hj' & Hfound & Hnone).
  - intros k [? _]. done.
  - intros a k [? Ha] Hk. rewrite <- (psuf_below p t k a Ha Hk).
    split; [tauto|]. intros. split; [lia|done].
  - lia.
  - lia.
  - intros i Hi. apply tbl_ok. lia.
  - intros _. rewrite Nat2Z.id. by split_and!.
  - intros k [Hk1 Hk2] Hk. specialize (Hmax k Hk1 Hk2). lia.
  - exists (Z.to_nat (j' + 1)). split; [f_equal; lia|]. split.
    { destruct (decide (0 <= j')) as [H0|H0].
      - destruct (Hfound H0) as [[? ?] Hpc].
        replace (Z.to_nat (j' + 1)) with (S (Z.to_nat j')) by lia.
        by apply psuf_snoc.
      - replace (Z.to_nat (j' + 1)) with 0%nat by lia. apply psuf_0. }
    split; [lia|]. intros [|k] Hk; [lia|].
    pose proof Hk as [Hlen _]. rewrite psuf_snoc in Hk by lia.
    destruct Hk as [Hpk Hps].
    destruct (decide (j' < Z.of_nat k)); [|lia].
    exfalso. eapply (Hnone k); [split; [lia|done]|lia|done].
Qed.

Lemma scan_state_nil : (0 < length p)%nat -> scan_state p [] 0.
Proof.
  intros Hm. split; [apply psuf_0|]. split; [done|].
  intros k _ Hk. apply psuf_nil in Hk. lia.
Qed.

(** No match: the longest prefix-suffix is the new state. *)
Lemma scan_miss t j :
  psuf p t j -> (j < length p)%nat -> (forall k, psuf p t k -> (k <= j)%nat) ->
  scan_state p t j /\ ~ p `suffix_of` t.
Proof.
  intros Hps Hj Hmax. split; [split; [done|split; [done|by auto]]|].
  intros Hs. apply psuf_full in Hs. apply Hmax in Hs. lia.
Qed.

(** After a match the last table entry is the state to go on from. *)
Lemma scan_hit t :
  (0 < length p)%nat -> p `suffix_of` t ->
  exists j : nat, tbl @ Z.of_nat (length p) = Some (Z.of_nat j) /\ scan_state p t j.
Proof.
  intros Hm Hs. destruct tbl_ok as [_ [z (Hz & Hzb & Hzp & Hzm)]%(fun f => f Hm)].
  exists (Z.to_nat z). rewrite aget_nat, Hz. split; [f_equal; lia|].
  assert (Hbelow : forall k, (k < length p)%nat -> psuf p t k <-> psuf p p k).
  { intros k Hk. rewrite (psuf_below p t k (length p)); [|by apply psuf_full|done].
    by rewrite firstn_all. }
  split; [apply Hbelow; [lia|done]|]. split; [lia|].
  intros k Hk Hps. apply Hbelow in Hps; [|done]. specialize (Hzm k Hk Hps). lia.
Qed.
End Scan.
