(* ===== verification/StringEval.v ===== *)
(** * STARTING WITH and CONTAINING: [src/src/jrd/evl_string.h]

    [StaticAllocator] (the arena every evaluator derives from),
    [StartsEvaluator] and [ContainsEvaluator], which consume the searched
    value chunk by chunk. The theorems at the end state that the verdict does
    not depend on how the value is cut into chunks. *)

From S2P Require Import Prelude Kmp.

(** ** Constants and the arena *)

Definition STATIC_PATTERN_ITEMS : Z := 16.
Definition STATIC_STATUS_ITEMS : Z := 16.
Definition STATIC_PATTERN_BUFFER : Z := 256.
Definition FB_ALIGNMENT : Z := 8.

(** [sizeof(SLONG)] *)
Definition SLONG_SIZE : Z := 4.

Definition ROUNDUP (n b : Z) : Z := Z.land (n + b - 1) (Z.lnot (b - 1)).

(** A block handed out by [alloc]: a slice of [allocBuffer], or a block of the
    pool (which holds at least the bytes asked for). *)
Inductive Block :=
  | InBuffer (start size : Z)
  | FromPool (size : Z).

Definition block_size (b : Block) : Z :=
  match b with InBuffer _ size => size | FromPool size => size end.

Record StaticAllocator := {
  chunksToFree : list Block;
  allocated : Z
}.

Definition StaticAllocator_new : StaticAllocator :=
  {| chunksToFree := []; allocated := 0 |}.

Definition alloc (count : Z) (a : StaticAllocator) : Block * StaticAllocator :=
  let localCount := ROUNDUP count FB_ALIGNMENT in
  if decide (allocated a + localCount <= STATIC_PATTERN_BUFFER) then
    (InBuffer (allocated a) localCount,
     {| chunksToFree := chunksToFree a; allocated := allocated a + localCount |})
  else
    let result := FromPool count in
    (result,
     {| chunksToFree := chunksToFree a ++ [result]; allocated := allocated a |}).

Fixpoint alloc_all (counts : list Z) (a : StaticAllocator)
    : list Block * StaticAllocator :=
  match counts with
  | [] => ([], a)
  | n :: ns =>
      let '(b, a) := alloc n a in
      let '(bs, a) := alloc_all ns a in
      (b :: bs, a)
  end.

(** An uninitialised [SLONG] array occupying a block: its contents are
    irrelevant, its length is what the block holds. *)
Definition slong_array (b : Block) : list Z :=
  replicate (Z.to_nat (block_size b / SLONG_SIZE)) 0.

(** ** StartsEvaluator *)

Record StartsEvaluator := {
  s_offset : Z;
  s_pattern_str : list Z;
  s_pattern_len : Z;
  s_result : bool
}.

Definition starts_reset (ev : StartsEvaluator) : StartsEvaluator :=
  {| s_offset := 0; s_pattern_str := s_pattern_str ev;
     s_pattern_len := s_pattern_len ev; s_result := true |}.

Definition StartsEvaluator_new (pattern_str : list Z) : StartsEvaluator :=
  starts_reset {| s_offset := 0; s_pattern_str := pattern_str;
                  s_pattern_len := Z.of_nat (length pattern_str); s_result := false |}.

Definition starts_getResult (ev : StartsEvaluator) : bool :=
  bool_decide (s_pattern_len ev <= s_offset ev) && s_result ev.

(** [memcmp(a, b, n * sizeof(CharType)) == 0] *)
Definition mem_equal (a b : list Z) (n : Z) : bool :=
  bool_decide (take (Z.to_nat n) a = take (Z.to_nat n) b).

Definition starts_processNextChunk (data : list Z) (ev : StartsEvaluator)
    : StartsEvaluator * bool :=
  let data_len := Z.of_nat (length data) in
  if negb (s_result ev) || bool_decide (s_pattern_len ev <= s_offset ev) then (ev, false)
  else
    let comp_length :=
      if decide (data_len < s_pattern_len ev - s_offset ev)
      then data_len else s_pattern_len ev - s_offset ev in
    if negb (mem_equal data (drop (Z.to_nat (s_offset ev)) (s_pattern_str ev)) comp_length)
    then ({| s_offset := s_offset ev; s_pattern_str := s_pattern_str ev;
             s_pattern_len := s_pattern_len ev; s_result := false |}, false)
    else
      let ev' := {| s_offset := s_offset ev + comp_length;
                    s_pattern_str := s_pattern_str ev;
                    s_pattern_len := s_pattern_len ev; s_result := s_result ev |} in
      (ev', bool_decide (s_offset ev' < s_pattern_len ev')).

(** Feeding a value chunk by chunk; the callers ignore nothing but the hint
    that no more data is needed. *)
Definition starts_feed (chunks : list (list Z)) (ev : StartsEvaluator) : StartsEvaluator :=
  fold_left (fun ev d => fst (starts_processNextChunk d ev)) chunks ev.

(** ** ContainsEvaluator *)

Record ContainsEvaluator := {
  c_pattern_str : list Z;
  c_pattern_len : Z;
  c_offset : Z;
  c_result : bool;
  c_kmpNext : list Z
}.

Definition contains_reset (ev : ContainsEvaluator) : ContainsEvaluator :=
  {| c_pattern_str := c_pattern_str ev; c_pattern_len := c_pattern_len ev;
     c_offset := 0; c_result := bool_decide (c_pattern_len ev = 0);
     c_kmpNext := c_kmpNext ev |}.

(** The constructor; [char_size] is [sizeof(CharType)]. *)
Definition ContainsEvaluator_new (char_size : Z) (pattern_str : list Z)
    : option ContainsEvaluator :=
  let pattern_len := Z.of_nat (length pattern_str) in
  let '(_, a) := alloc (pattern_len * char_size) StaticAllocator_new in
  let '(b, a) := alloc ((pattern_len + 1) * SLONG_SIZE) a in
  kmpNext ← preKmp pattern_str pattern_len (slong_array b);
  Some (contains_reset
    {| c_pattern_str := pattern_str; c_pattern_len := pattern_len;
       c_offset := 0; c_result := false; c_kmpNext := kmpNext |}).

Definition contains_getResult (ev : ContainsEvaluator) : bool := c_result ev.

Definition contains_set (ev : ContainsEvaluator) (offset : Z) (result : bool)
    : ContainsEvaluator :=
  {| c_pattern_str := c_pattern_str ev; c_pattern_len := c_pattern_len ev;
     c_offset := offset; c_result := result; c_kmpNext := c_kmpNext ev |}.

(** [while (data_pos < data_len) { ... }]: the recursion is on the data not yet
    consumed. *)
Fixpoint contains_loop (data : list Z) (ev : ContainsEvaluator)
    : option (ContainsEvaluator * bool) :=
  match data with
  | [] => Some (ev, true)
  | c :: data =>
      offset ← kmp_shift (Z.to_nat (c_pattern_len ev) + 2)
                 (c_pattern_str ev) (c_kmpNext ev) c (c_offset ev);
      let offset := offset + 1 in
      if decide (c_pattern_len ev <= offset) then Some (contains_set ev offset true, false)
      else contains_loop data (contains_set ev offset (c_result ev))
  end.

Definition contains_processNextChunk (data : list Z) (ev : ContainsEvaluator)
    : option (ContainsEvaluator * bool) :=
  if c_result ev then Some (ev, false) else contains_loop data ev.

Fixpoint contains_feed (chunks : list (list Z)) (ev : ContainsEvaluator)
    : option ContainsEvaluator :=
  match chunks with
  | [] => Some ev
  | d :: ds => '(ev, _) ← contains_processNextChunk d ev; contains_feed ds ev
  end.

(** ** The arena: blocks are large enough, aligned, inside the buffer, disjoint *)

Lemma land_lnot_7 x : Z.land x (Z.lnot 7) = x - x mod 8.
Proof.
  change 7 with (Z.ones 3). rewrite <- Z.ldiff_land, Z.ldiff_ones_r by lia.
  rewrite Z.shiftl_mul_pow2, Z.shiftr_div_pow2 by lia. change (2 ^ 3) with 8.
  pose proof (Z.div_mod x 8 ltac:(lia)). lia.
Qed.

Lemma ROUNDUP_8 n : n <= ROUNDUP n 8 < n + 8 /\ (ROUNDUP n 8) mod 8 = 0.
Proof.
  unfold ROUNDUP. change (8 - 1) with 7. rewrite land_lnot_7.
  pose proof (Z.mod_pos_bound (n + 8 - 1) 8 ltac:(lia)). split; [lia|].
  rewrite Zminus_mod_idemp_r, Z.sub_diag. done.
Qed.

Definition arena_ok (a : StaticAllocator) : Prop :=
  0 <= allocated a <= STATIC_PATTERN_BUFFER /\ allocated a mod FB_ALIGNMENT = 0.

(** A slice of the buffer that starts at or after [lo]. *)
Definition block_ok (lo : Z) (b : Block) : Prop :=
  match b with
  | InBuffer start size =>
      lo <= start /\ start mod FB_ALIGNMENT = 0 /\ 0 <= size /\
      start + size <= STATIC_PATTERN_BUFFER
  | FromPool _ => True
  end.

Definition blocks_disjoint (b1 b2 : Block) : Prop :=
  match b1, b2 with
  | InBuffer s1 n1, InBuffer s2 n2 => s1 + n1 <= s2 \/ s2 + n2 <= s1
  | _, _ => True
  end.

Lemma alloc_spec count a :
  0 <= count -> arena_ok a ->
  let '(b, a') := alloc count a in
  arena_ok a' /\ allocated a <= allocated a' /\ count <= block_size b /\
  block_ok (allocated a) b /\
  (forall b', block_ok (allocated a') b' -> blocks_disjoint b b').
Proof.
  intros Hc [[Ha1 Ha2] Ha3]. unfold alloc, arena_ok, FB_ALIGNMENT, STATIC_PATTERN_BUFFER in *.
  pose proof (ROUNDUP_8 count) as [Hr1 Hr2].
  case_decide; simpl; split_and!; try lia; try done.
  - rewrite <- Z.add_mod_idemp_r, Hr2, Z.add_0_r by lia. done.
  - intros [] ?; simpl in *; lia.
Qed.

Lemma block_ok_weaken lo lo' b : lo <= lo' -> block_ok lo' b -> block_ok lo b.
Proof. destruct b; simpl; [|done]. lia. Qed.

Lemma alloc_all_spec counts a :
  Forall (Z.le 0) counts -> arena_ok a ->
  let '(bs, a') := alloc_all counts a in
  arena_ok a' /\ Forall2 (fun n b => n <= block_size b) counts bs /\
  Forall (block_ok (allocated a)) bs /\
  ForallOrdPairs blocks_disjoint bs.
Proof.
  revert a. induction counts as [|n counts IH]; intros a Hc Ha; simpl.
  { split_and!; [done|constructor..]. }
  apply Forall_cons in Hc as [Hn Hc].
  pose proof (alloc_spec n a Hn Ha) as Hs. destruct (alloc n a) as [b a1].
  destruct Hs as (Ha1 & Hle & Hsize & Hok & Hdisj). specialize (IH a1 Hc Ha1).
  destruct (alloc_all counts a1) as [bs a2]. destruct IH as (? & ? & Hbs & ?).
  split_and!; [done|by constructor| |].
  - constructor; [done|]. eapply Forall_impl; [done|].
    intros ?. by apply block_ok_weaken.
  - constructor; [|done]. eapply Forall_impl; [done|]. auto.
Qed.

(** The arena behind every evaluator: any sequence of [alloc] requests gets
    blocks that are at least as large as asked for, aligned, inside
    [allocBuffer] when they come from it, and pairwise disjoint. *)
Theorem alloc_all_safe counts :
  Forall (Z.le 0) counts ->
  let '(bs, _) := alloc_all counts StaticAllocator_new in
  Forall2 (fun n b => n <= block_size b) counts bs /\
  Forall (block_ok 0) bs /\ ForallOrdPairs blocks_disjoint bs.
Proof.
  intros Hc. pose proof (alloc_all_spec counts StaticAllocator_new Hc) as H.
  destruct (alloc_all counts StaticAllocator_new) as [bs a].
  destruct H as (_ & ? & ? & ?); [by split; [done|reflexivity]|]. done.
Qed.

(** Requests that fill the buffer, overflow to the pool, and fit again. *)
Lemma alloc_all_safe_witness :
  Forall (Z.le 0) [3; 240; 100; 8; 1] /\
  let '(bs, _) := alloc_all [3; 240; 100; 8; 1] StaticAllocator_new in
  Forall2 (fun n b => n <= block_size b) [3; 240; 100; 8; 1] bs /\
  Forall (block_ok 0) bs /\ ForallOrdPairs blocks_disjoint bs.
Proof.
  assert (H : Forall (Z.le 0) [3; 240; 100; 8; 1]) by (repeat constructor; lia).
  split; [exact H|]. exact (alloc_all_safe [3; 240; 100; 8; 1] H).
Defined.

(** ** StartsEvaluator decides the prefix relation *)

Definition agree (p t : list Z) : Prop :=
  take (length t `min` length p) t = take (length t `min` length p) p.

#[export] Instance agree_dec p t : Decision (agree p t).
Proof. unfold agree. apply _. Defined.

Definition starts_inv (p t : list Z) (ev : StartsEvaluator) : Prop :=
  s_pattern_str ev = p /\ s_pattern_len ev = Z.of_nat (length p) /\
  s_result ev = bool_decide (agree p t) /\
  (agree p t -> s_offset ev = Z.of_nat (length t `min` length p)).

Lemma agree_app p t d : agree p (t ++ d) -> agree p t.
Proof.
  unfold agree. intros H. apply (f_equal (take (length t `min` length p))) in H.
  rewrite !take_take in H. len.
  rewrite !Nat.min_l in H by lia. rewrite take_app_le in H by lia. done.
Qed.

Lemma agree_prefix p t :
  agree p t /\ (length p <= length t)%nat <-> p `prefix_of` t.
Proof.
  unfold agree. split.
  - intros [H Hle]. rewrite Nat.min_r, firstn_all in H by lia.
    rewrite <- H. apply prefix_take.
  - intros [u ->]. rewrite length_app. split; [|lia].
    rewrite Nat.min_r by lia. by rewrite firstn_all, take_app_length.
Qed.

(** Extending an agreeing text: what the [memcmp] of the next chunk tells. *)
Lemma agree_extend p t d :
  agree p t ->
  let n := (length d `min` (length p - length t))%nat in
  agree p (t ++ d) <-> take n d = take n (drop (length t) p).
Proof.
  intros Hag n. unfold agree. rewrite length_app.
  destruct (decide (length t <= length p)%nat) as [Hle|Hgt].
  - replace ((length t + length d) `min` length p)%nat with (length t + n)%nat by lia.
    unfold agree in Hag. rewrite Nat.min_l, firstn_all in Hag by lia.
    rewrite take_app_add, <- (take_drop (length t) p) at 1.
    rewrite take_app_add' by (rewrite length_take; lia). rewrite <- Hag. split.
    + apply app_inv_head.
    + by intros ->.
  - subst n. replace (length p - length t)%nat with 0%nat by lia.
    rewrite Nat.min_0_r, !take_0. unfold agree in Hag.
    rewrite Nat.min_r in Hag by lia. rewrite Nat.min_r by lia.
    rewrite take_app_le by lia. done.
Qed.

Lemma starts_step p t d ev :
  starts_inv p t ev ->
  starts_inv p (t ++ d) (fst (starts_processNextChunk d ev)).
Proof.
  intros (Hp & Hl & Hr & Ho). unfold starts_processNextChunk.
  destruct (decide (agree p t)) as [Hag|Hna].
  2:{ rewrite bool_decide_eq_false_2 in Hr by done. rewrite Hr. simpl.
      assert (~ agree p (t ++ d)) by (intros ?%agree_app; done).
      split_and!; [done|done| |done]. by rewrite Hr, bool_decide_eq_false_2. }
  rewrite bool_decide_eq_true_2 in Hr by done. specialize (Ho Hag).
  rewrite Hr, Ho, Hl, Hp. simpl.
  pose proof (agree_extend p t d Hag) as Hext. simpl in Hext.
  case_bool_decide as Hfull; simpl.
  - assert (agree p (t ++ d)).
    { apply Hext. replace (length p - length t)%nat with 0%nat by lia.
      by rewrite Nat.min_0_r, !take_0. }
    split_and!; [done|done|by rewrite Hr, bool_decide_eq_true_2|].
    intros _. rewrite Ho, length_app. lia.
  - rewrite (Nat.min_l (length t)) in * by lia. rewrite Nat2Z.id.
    set (n := (length d `min` (length p - length t))%nat) in Hext.
    replace (if decide _ then _ else _) with (Z.of_nat n)
      by (subst n; case_decide; lia).
    unfold mem_equal. rewrite Nat2Z.id. case_bool_decide as Heq; simpl.
    + rewrite <- Hext in Heq.
      split_and!; simpl; [done|done|by rewrite bool_decide_eq_true_2|].
      intros _. rewrite length_app. lia.
    + rewrite <- Hext in Heq.
      split_and!; simpl; [done|done|by rewrite bool_decide_eq_false_2|done].
Qed.

Lemma starts_feed_inv p chunks t ev :
  starts_inv p t ev -> starts_inv p (t ++ concat chunks) (starts_feed chunks ev).
Proof.
  revert t ev. induction chunks as [|d chunks IH]; intros t ev Hinv; simpl.
  - by rewrite app_nil_r.
  - rewrite app_assoc. apply IH. by apply starts_step.
Qed.

Lemma starts_result p t ev :
  starts_inv p t ev -> starts_getResult ev = true <-> p `prefix_of` t.
Proof.
  intros (Hp & Hl & Hr & Ho). unfold starts_getResult.
  rewrite <- agree_prefix, Hl, Hr, andb_true_iff, !bool_decide_eq_true.
  split; intros [H1 H2].
  - split; [done|]. specialize (Ho H2). lia.
  - split; [|done]. specialize (Ho H1). lia.
Qed.

(** [StartsEvaluator]: fed any chunks after [reset], it answers whether the
    pattern is a prefix of the whole value. *)
Theorem starts_correct p chunks :
  starts_getResult (starts_feed chunks (StartsEvaluator_new p)) = true <->
  p `prefix_of` concat chunks.
Proof.
  apply starts_result. apply (starts_feed_inv p chunks []).
  split_and!; [done|done| |done].
  rewrite bool_decide_eq_true_2; [done|]. unfold agree. simpl. by rewrite !take_0.
Qed.

(** ** ContainsEvaluator decides the substring relation *)

Definition infix (p t : list Z) : Prop := exists a b, t = a ++ p ++ b.

Lemma infix_snoc p t c :
  p <> [] -> infix p (t ++ [c]) <-> infix p t \/ p `suffix_of` (t ++ [c]).
Proof.
  intros Hp. split.
  - intros (a & b & H). destruct b as [|b d _] using rev_ind.
    + right. exists a. by rewrite app_nil_r in H.
    + left. exists a, d. rewrite !app_assoc in H.
      apply app_inj_tail in H as [-> ->]. by rewrite <- app_assoc.
  - intros [(a & b & ->)|[a Ha]].
    + exists a, (b ++ [c]). by rewrite !app_assoc.
    + exists a, []. by rewrite app_nil_r.
Qed.

Lemma infix_app p t d : infix p t -> infix p (t ++ d).
Proof. intros (a & b & ->). exists a, (b ++ d). by rewrite !app_assoc. Qed.

Definition contains_inv (p t : list Z) (ev : ContainsEvaluator) : Prop :=
  c_pattern_str ev = p /\ c_pattern_len ev = Z.of_nat (length p) /\
  table_ok p (c_kmpNext ev) /\ (0 < length p)%nat /\
  (c_result ev = true /\ infix p t \/
   c_result ev = false /\ ~ infix p t /\
   exists j, c_offset ev = Z.of_nat j /\ scan_state p t j).

Lemma contains_loop_spec p t data ev :
  contains_inv p t ev -> c_result ev = false ->
  exists ev' more, contains_loop data ev = Some (ev', more) /\
    contains_inv p (t ++ data) ev'.
Proof.
  revert t ev. induction data as [|c data IH]; intros t ev Hinv Hf; simpl.
  { eexists _, _. split; [done|]. by rewrite app_nil_r. }
  destruct Hinv as (Hp & Hl & Htbl & Hm & [[? _]|(_ & Hni & j & Hj & Hs)]); [congruence|].
  rewrite Hp, Hl, Hj.
  assert (Hne : p <> []) by (destruct p; [simpl in Hm; lia|done]).
  destruct (scan_shift p p (c_kmpNext ev) ltac:(done) Htbl t j c
    (Z.to_nat (Z.of_nat (length p)) + 2) Hs) as (j' & -> & Hps & Hle & Hmax).
  { destruct Hs as (_ & ? & _). lia. }
  simpl. rewrite cons_middle, app_assoc.
  case_decide as Hd.
  - assert (j' = length p) as -> by lia. apply psuf_full in Hps.
    eexists _, _. split; [done|]. split_and!; simpl; [done|done|done|done|].
    left. split; [done|]. apply infix_app. by apply infix_snoc; [|right].
  - destruct (scan_miss p (t ++ [c]) j' Hps ltac:(lia) Hmax) as [Hs' Hns].
    apply IH; simpl; [|done]. split_and!; simpl; [done|done|done|done|].
    right. split_and!; [done|by rewrite infix_snoc; [intros []|]|].
    exists j'. split; [lia|done].
Qed.

Lemma contains_step p t d ev :
  contains_inv p t ev ->
  exists ev' more, contains_processNextChunk d ev = Some (ev', more) /\
    contains_inv p (t ++ d) ev'.
Proof.
  intros Hinv. unfold contains_processNextChunk. destruct (c_result ev) eqn:Hr.
  - eexists _, _. split; [done|].
    destruct Hinv as (? & ? & ? & ? & [[? ?]|[? _]]); [|congruence].
    split_and!; try done. left. split; [done|by apply infix_app].
  - by apply contains_loop_spec.
Qed.

Lemma contains_feed_inv p chunks t ev :
  contains_inv p t ev ->
  exists ev', contains_feed chunks ev = Some ev' /\
    contains_inv p (t ++ concat chunks) ev'.
Proof.
  revert t ev. induction chunks as [|d chunks IH]; intros t ev Hinv; simpl.
  - exists ev. by rewrite app_nil_r.
  - destruct (contains_step p t d ev Hinv) as (ev1 & more & -> & Hinv1). simpl.
    rewrite app_assoc. by apply IH.
Qed.

Lemma contains_feed_done chunks ev :
  c_result ev = true -> contains_feed chunks ev = Some ev.
Proof.
  intros Hr. induction chunks as [|d chunks IH]; simpl; [done|].
  unfold contains_processNextChunk. by rewrite Hr.
Qed.

Lemma slong_array_len b n :
  n * SLONG_SIZE <= block_size b -> n <= Z.of_nat (length (slong_array b)).
Proof.
  intros Hn. unfold slong_array, SLONG_SIZE in *. rewrite length_replicate.
  pose proof (Z.div_le_lower_bound (block_size b) 4 n). lia.
Qed.

(** The constructor never runs out of its blocks: for the empty pattern that
    needs the rounding of [alloc]. *)
Lemma ContainsEvaluator_new_spec char_size p :
  0 <= char_size ->
  exists ev, ContainsEvaluator_new char_size p = Some ev /\
    (p = [] /\ c_result ev = true \/ contains_inv p [] ev).
Proof.
  intros Hcs. unfold ContainsEvaluator_new.
  destruct (decide (p = [])) as [->|Hne].
  { change (alloc (Z.of_nat (length []) * char_size) StaticAllocator_new)
      with (InBuffer 0 0, StaticAllocator_new).
    eexists. split; [vm_compute; reflexivity|]. by left. }
  pose proof (alloc_spec (Z.of_nat (length p) * char_size) StaticAllocator_new ltac:(lia)
    ltac:(split; [done|reflexivity])) as H1.
  destruct (alloc _ StaticAllocator_new) as [b1 a1]. destruct H1 as (Ha1 & _).
  pose proof (alloc_spec ((Z.of_nat (length p) + 1) * SLONG_SIZE) a1
    ltac:(unfold SLONG_SIZE; lia) Ha1) as H2.
  destruct (alloc _ a1) as [b2 a2]. destruct H2 as (_ & _ & Hsize & _).
  apply slong_array_len in Hsize.
  assert (0 < length p)%nat by (destruct p; [done|simpl; lia]).
  destruct (preKmp_spec p p (slong_array b2) ltac:(done) ltac:(lia)) as (tbl & -> & _ & Htbl).
  eexists. split; [done|]. right. split_and!; simpl; [done|done|done|done|].
  right. split_and!; [apply bool_decide_eq_false_2; lia| |].
  - intros ([|] & b & Hab); destruct p; done.
  - exists 0%nat. split; [done|]. by apply scan_state_nil.
Qed.

(** [ContainsEvaluator]: for every pattern and every way of cutting the
    value into chunks the evaluator runs to the end without leaving its tables
    and answers whether the pattern occurs in the whole value. *)
Theorem contains_correct char_size p chunks :
  0 <= char_size ->
  exists ev0 ev, ContainsEvaluator_new char_size p = Some ev0 /\
    contains_feed chunks ev0 = Some ev /\
    (contains_getResult ev = true <-> infix p (concat chunks)).
Proof.
  intros Hcs. destruct (ContainsEvaluator_new_spec char_size p Hcs) as (ev0 & -> & H0).
  exists ev0. destruct H0 as [[-> Hr]|Hinv].
  - exists ev0. rewrite contains_feed_done by done. split_and!; [done|done|].
    unfold contains_getResult. rewrite Hr. split; [|done].
    intros _. by exists [], (concat chunks).
  - destruct (contains_feed_inv p chunks [] ev0 Hinv) as (ev & -> & _ & _ & _ & _ & Hres).
    exists ev. split_and!; [done|done|]. unfold contains_getResult.
    destruct Hres as [[-> ?]|(-> & ? & _)]; done.
Qed.

Lemma contains_correct_witness :
  exists ev0 ev, ContainsEvaluator_new 1 [97; 98; 97] = Some ev0 /\
    contains_feed [[98; 97]; [98]; [97; 99]] ev0 = Some ev /\
    (contains_getResult ev = true <-> infix [97; 98; 97] (concat [[98; 97]; [98]; [97; 99]])).
Proof. apply (contains_correct 1 [97; 98; 97] [[98; 97]; [98]; [97; 99]]). lia. Defined.
