(* ===== verification/LikeSpec.v ===== *)
(** * The LIKE predicate, as SQL describes it

    A reference definition independent of the evaluator: a pattern is a list of
    tokens, and [like_match] decides whether a value is in its language. The
    equivalence [tequiv] of token lists and its [Proper] instances let the
    compilation proof rewrite tokens. *)

From S2P Require Import Prelude.

Inductive tok := TChar (c : Z) | TOne | TAny.

Fixpoint like_match (ts : list tok) (s : list Z) : bool :=
  match ts with
  | [] => bool_decide (s = [])
  | TChar c :: ts =>
      match s with x :: s => bool_decide (x = c) && like_match ts s | [] => false end
  | TOne :: ts => match s with _ :: s => like_match ts s | [] => false end
  | TAny :: ts =>
      (fix go (s : list Z) : bool :=
         like_match ts s || match s with [] => false | _ :: s => go s end) s
  end.

Definition lang (ts : list tok) (s : list Z) : Prop := like_match ts s = true.

Definition tequiv (ts us : list tok) : Prop := forall s, lang ts s <-> lang us s.

Abbreviation chars cs := (map TChar cs).
Abbreviation ones n := (replicate n TOne).
(** [%] when the flag is set. *)
Definition any_tok (b : bool) : list tok := if b then [TAny] else [].

Section Language.
Implicit Types (ts us : list tok) (s v : list Z).

Lemma lang_nil s : lang [] s <-> s = [].
Proof. unfold lang. simpl. by rewrite bool_decide_eq_true. Qed.

Lemma lang_char c ts s : lang (TChar c :: ts) s <-> exists s', s = c :: s' /\ lang ts s'.
Proof.
  unfold lang. destruct s as [|x s]; simpl.
  - split; [done|]. by intros (? & ? & _).
  - rewrite andb_true_iff, bool_decide_eq_true. split.
    + intros [-> ?]. eauto.
    + intros (? & ? & ?). by simplify_eq.
Qed.

Lemma lang_one ts s : lang (TOne :: ts) s <-> exists x s', s = x :: s' /\ lang ts s'.
Proof.
  unfold lang. destruct s as [|x s]; simpl.
  - split; [done|]. by intros (? & ? & ? & _).
  - split; [eauto|]. intros (? & ? & ? & ?). by simplify_eq.
Qed.

Lemma lang_any ts s : lang (TAny :: ts) s <-> exists a b, s = a ++ b /\ lang ts b.
Proof.
  unfold lang. induction s as [|x s IH].
  - simpl. rewrite orb_false_r. split; [by exists [], []|].
    intros (a & b & H & ?). symmetry in H. apply app_nil in H as [-> ->]. done.
  - change (like_match (TAny :: ts) (x :: s))
      with (like_match ts (x :: s) || like_match (TAny :: ts) s).
    rewrite orb_true_iff, IH. split.
    + intros [?|(a & b & -> & ?)]; [by exists [], (x :: s)|by exists (x :: a), b].
    + intros ([|y a] & b & H & ?); simplify_eq/=; [by left|right; eauto].
Qed.

Lemma lang_any_nil s : lang [TAny] s.
Proof. apply lang_any. exists s, []. by rewrite app_nil_r. Qed.

Lemma lang_app ts us s :
  lang (ts ++ us) s <-> exists a b, s = a ++ b /\ lang ts a /\ lang us b.
Proof.
  revert s. induction ts as [|[c| |] ts IH]; intros s; simpl.
  - split; [intros; exists [], s; by rewrite lang_nil|].
    by intros (a & b & -> & ->%lang_nil & ?).
  - rewrite lang_char. setoid_rewrite IH. setoid_rewrite lang_char. split.
    + intros (? & -> & a & b & -> & ? & ?). exists (c :: a), b. eauto.
    + intros (? & b & -> & (a & -> & ?) & ?). eauto 10.
  - rewrite lang_one. setoid_rewrite IH. setoid_rewrite lang_one. split.
    + intros (x & ? & -> & a & b & -> & ? & ?). exists (x :: a), b. eauto 10.
    + intros (? & b & -> & (x & a & -> & ?) & ?). eauto 10.
  - rewrite lang_any. setoid_rewrite IH. setoid_rewrite lang_any. split.
    + intros (w & ? & -> & a & b & -> & ? & ?). exists (w ++ a), b.
      rewrite app_assoc. eauto 10.
    + intros (? & b & -> & (w & a & -> & ?) & ?). exists w, (a ++ b).
      rewrite app_assoc. eauto 10.
Qed.

Lemma lang_chars cs ts v :
  lang (chars cs ++ ts) v <-> exists v', v = cs ++ v' /\ lang ts v'.
Proof.
  revert v. induction cs as [|c cs IH]; intros v; simpl.
  - split; [eauto|]. by intros (? & -> & ?).
  - rewrite lang_char. setoid_rewrite IH. split.
    + intros (? & -> & v' & -> & ?). eauto.
    + intros (v' & -> & ?). eauto 10.
Qed.

(** [%] absorbs whatever precedes it. *)
Lemma lang_any_absorb ts us v : lang (ts ++ TAny :: us) v -> lang (TAny :: us) v.
Proof.
  rewrite lang_app, lang_any. intros (a & b & -> & _ & Hb).
  apply lang_any in Hb as (a' & b' & -> & ?). exists (a ++ a'), b'.
  by rewrite app_assoc.
Qed.

Lemma lang_any_extend ts a b : lang (TAny :: ts) b -> lang (TAny :: ts) (a ++ b).
Proof.
  rewrite !lang_any. intros (x & y & -> & ?). exists (a ++ x), y.
  by rewrite app_assoc.
Qed.
End Language.

(** ** Equivalence of token lists *)

#[export] Instance tequiv_equiv : Equivalence tequiv.
Proof.
  split.
  - by intros ts s.
  - by intros ts us H s.
  - intros ts us vs H1 H2 s. etrans; [apply H1|apply H2].
Qed.

#[export] Instance lang_proper : Proper (tequiv ==> eq ==> iff) lang.
Proof. intros ts us H s ? <-. apply H. Qed.

#[export] Instance tequiv_app_proper : Proper (tequiv ==> tequiv ==> tequiv) (@app tok).
Proof.
  intros ts ts' Ht us us' Hu s. rewrite !lang_app.
  by setoid_rewrite Ht; setoid_rewrite Hu.
Qed.

#[export] Instance tequiv_cons_proper t : Proper (tequiv ==> tequiv) (cons t).
Proof. intros us us' Hu. change (t :: ?l) with ([t] ++ l). by rewrite Hu. Qed.

Lemma tequiv_any_any ts : tequiv (TAny :: TAny :: ts) (TAny :: ts).
Proof.
  intros s. split.
  - intros H. apply (lang_any_absorb [TAny]). done.
  - intros H. apply lang_any. by exists [], s.
Qed.

Lemma tequiv_any_one ts : tequiv (TAny :: TOne :: ts) (TOne :: TAny :: ts).
Proof.
  intros s. rewrite lang_any, lang_one.
  setoid_rewrite lang_one. setoid_rewrite lang_any. split.
  - intros ([|y a] & ? & -> & x & b & -> & ?).
    + exists x, b. split; [done|]. by exists [], b.
    + exists y, (a ++ x :: b). split; [done|]. exists (a ++ [x]), b.
      by rewrite <- app_assoc.
  - intros (x & ? & -> & a & b & -> & ?).
    destruct a as [|y a _] using rev_ind.
    + exists [], (x :: b). split; [done|]. eauto.
    + exists (x :: a), (y :: b). split; [simpl; by rewrite <- app_assoc|]. eauto.
Qed.

Lemma tequiv_any_ones n ts : tequiv (TAny :: ones n ++ ts) (ones n ++ TAny :: ts).
Proof.
  induction n as [|n IH]; simpl; [done|]. by rewrite tequiv_any_one, IH.
Qed.

(** ** The tokens of a pattern *)

Section Tokens.
Context (escape_char : Z) (use_escape : bool) (sql_match_any sql_match_one : Z).

(** [None]: an escape character not followed by an escapable one. *)
Fixpoint like_tokens (pattern : list Z) : option (list tok) :=
  match pattern with
  | [] => Some []
  | c :: rest =>
      if use_escape && bool_decide (c = escape_char) then
        match rest with
        | c2 :: rest2 =>
            if bool_decide (c2 = escape_char)
               || bool_decide (sql_match_any <> 0 /\ c2 = sql_match_any)
               || bool_decide (sql_match_one <> 0 /\ c2 = sql_match_one)
            then cons (TChar c2) <$> like_tokens rest2 else None
        | [] => None
        end
      else if decide (sql_match_any <> 0 /\ c = sql_match_any) then
        cons TAny <$> like_tokens rest
      else if decide (sql_match_one <> 0 /\ c = sql_match_one) then
        cons TOne <$> like_tokens rest
      else cons (TChar c) <$> like_tokens rest
  end.
End Tokens.
