(* ===== verification/Like.v ===== *)
(** * LIKE: [LikeEvaluator] of [src/src/jrd/evl_string.h]

    The constructor parses the pattern into items ([like_parse], the code's
    PASS1) and compiles them ([like_compile], PASS2); the matching phase keeps a
    vector of branches, each a position inside one item, and consumes the value
    chunk by chunk. *)

From S2P Require Import Prelude Kmp.

(** ** Data *)

Inductive PatternItemType :=
  | piNone | piSearch | piSkipFixed | piDirectMatch | piEscapedString | piSkipMore.

#[export] Instance PatternItemType_eq_dec : EqDecision PatternItemType.
Proof. solve_decision. Defined.

Inductive MatchType := MATCH_NONE | MATCH_FIXED | MATCH_ANY.

#[export] Instance MatchType_eq_dec : EqDecision MatchType.
Proof. solve_decision. Defined.

(** [PatternItem]. The union overlays [skipCount] on [str.length], and the
    matching phase relies on it: both are [pi_length]. A pointer into the local
    copy of the pattern is the suffix of the pattern it points to. *)
Record PatternItem := {
  pi_type : PatternItemType;
  pi_length : Z;
  pi_data : list Z;
  pi_kmpNext : list Z;
  pi_match_any : bool
}.

(** An item added by [patternItems.grow]: all zeroes. *)
Definition PatternItem_zero : PatternItem :=
  {| pi_type := piNone; pi_length := 0; pi_data := []; pi_kmpNext := [];
     pi_match_any := false |}.

Definition pi_set_type (ty : PatternItemType) (it : PatternItem) : PatternItem :=
  {| pi_type := ty; pi_length := pi_length it; pi_data := pi_data it;
     pi_kmpNext := pi_kmpNext it; pi_match_any := pi_match_any it |}.
Definition pi_set_length (n : Z) (it : PatternItem) : PatternItem :=
  {| pi_type := pi_type it; pi_length := n; pi_data := pi_data it;
     pi_kmpNext := pi_kmpNext it; pi_match_any := pi_match_any it |}.
Definition pi_set_data (d : list Z) (it : PatternItem) : PatternItem :=
  {| pi_type := pi_type it; pi_length := pi_length it; pi_data := d;
     pi_kmpNext := pi_kmpNext it; pi_match_any := pi_match_any it |}.
Definition pi_set_kmpNext (k : list Z) (it : PatternItem) : PatternItem :=
  {| pi_type := pi_type it; pi_length := pi_length it; pi_data := pi_data it;
     pi_kmpNext := k; pi_match_any := pi_match_any it |}.
Definition pi_set_match_any (b : bool) (it : PatternItem) : PatternItem :=
  {| pi_type := pi_type it; pi_length := pi_length it; pi_data := pi_data it;
     pi_kmpNext := pi_kmpNext it; pi_match_any := b |}.

(** [BranchItem]: [pattern] is an index into [patternItems]. *)
Record BranchItem := { bi_pattern : nat; bi_offset : Z }.

Record LikeEvaluator := {
  le_patternItems : list PatternItem;
  le_branches : list BranchItem;
  le_match_type : MatchType
}.

Inductive LikeError := isc_escape_invalid.

(** ** PASS1: parsing *)

Section Parse.
(** [escape_char], [use_escape], [sql_match_any], [sql_match_one]; a zero
    [sql_match_any] or [sql_match_one] means "no such metacharacter". *)
Context (escape_char : Z) (use_escape : bool) (sql_match_any sql_match_one : Z).

Definition is_escape (c : Z) : bool := use_escape && bool_decide (c = escape_char).
Definition is_any (c : Z) : bool :=
  bool_decide (sql_match_any <> 0) && bool_decide (c = sql_match_any).
Definition is_one (c : Z) : bool :=
  bool_decide (sql_match_one <> 0) && bool_decide (c = sql_match_one).

(** The items before [item] (latest first) and [item], the last one. *)
Definition parse_state : Type := list PatternItem * PatternItem.

(** [patternItems.grow(getCount() + 1); item = patternItems.end() - 1;] *)
Definition grow_item (st : parse_state) : parse_state :=
  (snd st :: fst st, PatternItem_zero).

Definition start_string (ty : PatternItemType) (ptr : list Z) (st : parse_state)
    : parse_state :=
  (fst st, pi_set_length 1 (pi_set_data ptr (pi_set_type ty (snd st)))).

Definition inc_length (st : parse_state) : parse_state :=
  (fst st, pi_set_length (pi_length (snd st) + 1) (snd st)).

Definition with_type (ty : PatternItemType) (st : parse_state) : parse_state :=
  (fst st, pi_set_type ty (snd st)).

(** An escaped symbol; [ptr] is [pattern_str + pattern_pos - 2]. *)
Definition on_escaped (ptr : list Z) (st : parse_state) : parse_state :=
  match pi_type (snd st) with
  | piSkipFixed | piSkipMore => start_string piEscapedString ptr (grow_item st)
  | piNone => start_string piEscapedString ptr st
  | piSearch => inc_length (with_type piEscapedString st)
  | piEscapedString => inc_length st
  | piDirectMatch => st
  end.

(** The percent sign. *)
Definition on_any (st : parse_state) : parse_state :=
  match pi_type (snd st) with
  | piSearch | piEscapedString => with_type piSkipMore (grow_item st)
  | piSkipFixed | piNone => with_type piSkipMore st
  | piSkipMore | piDirectMatch => st
  end.

(** The underscore. *)
Definition on_one (st : parse_state) : parse_state :=
  match pi_type (snd st) with
  | piSearch | piEscapedString =>
      let st := with_type piSkipFixed (grow_item st) in
      (fst st, pi_set_length 1 (snd st))
  | piNone =>
      let st := with_type piSkipFixed st in
      (fst st, pi_set_length 1 (snd st))
  | piSkipFixed | piSkipMore => inc_length st
  | piDirectMatch => st
  end.

(** Anything else; [ptr] is [pattern_str + pattern_pos - 1]. *)
Definition on_char (ptr : list Z) (st : parse_state) : parse_state :=
  match pi_type (snd st) with
  | piSkipFixed | piSkipMore => start_string piSearch ptr (grow_item st)
  | piNone => start_string piSearch ptr st
  | piSearch | piEscapedString => inc_length st
  | piDirectMatch => st
  end.

(** The PASS1 loop; [pattern] is [pattern_str + pattern_pos]. *)
Fixpoint like_parse_loop (pattern : list Z) (st : parse_state)
    : LikeError + parse_state :=
  match pattern with
  | [] => inr st
  | c :: pattern1 =>
      if is_escape c then
        match pattern1 with
        | [] => inl isc_escape_invalid
        | c2 :: pattern2 =>
            if bool_decide (c2 = escape_char) || is_any c2 || is_one c2
            then like_parse_loop pattern2 (on_escaped pattern st)
            else inl isc_escape_invalid
        end
      else if is_any c then like_parse_loop pattern1 (on_any st)
      else if is_one c then like_parse_loop pattern1 (on_one st)
      else like_parse_loop pattern1 (on_char pattern st)
  end.

Definition like_parse (pattern : list Z) : LikeError + list PatternItem :=
  match like_parse_loop pattern ([], PatternItem_zero) with
  | inl e => inl e
  | inr st => inr (rev (snd st :: fst st))
  end.

(** *** PASS2: compilation *)

(** [for (SLONG j = 0; j < length; j++) { if (use_escape && *curPos ==
    escape_char) curPos++; data[j] = *curPos++; }] *)
Fixpoint unescape (n : nat) (curPos : list Z) : option (list Z) :=
  match n with
  | O => Some []
  | S n =>
      c ← head curPos;
      let curPos := if is_escape c then tail curPos else curPos in
      c ← head curPos;
      rest ← unescape n (tail curPos);
      Some (c :: rest)
  end.

(** An uninitialised [kmpNext] array of the size the code asks for. *)
Definition kmp_array (n : Z) : list Z := replicate (Z.to_nat n) 0.

(** The [case piSearch] body. *)
Definition compile_search (directMatch : bool) (it : PatternItem)
    : option (PatternItem * bool) :=
  if directMatch then Some (pi_set_type piDirectMatch it, directMatch)
  else
    kmpNext ← preKmp (pi_data it) (pi_length it) (kmp_array (pi_length it + 1));
    Some (pi_set_kmpNext kmpNext it, true).

(** The PASS2 loop over [i]; [None] is an out-of-bounds access or fuel
    running out, which the theorems exclude. *)
Fixpoint like_compile_loop (fuel : nat) (i : nat) (items : list PatternItem)
    (directMatch : bool) : option (list PatternItem) :=
  match fuel with
  | O => None
  | S fuel =>
      match items !! i with
      | None => Some items
      | Some it =>
          match pi_type it with
          | piEscapedString =>
              data ← unescape (Z.to_nat (pi_length it)) (pi_data it);
              let it := pi_set_type piSearch (pi_set_data data it) in
              '(it, directMatch) ← compile_search directMatch it;
              like_compile_loop fuel (S i) (<[i := it]> items) directMatch
          | piSearch =>
              '(it, directMatch) ← compile_search directMatch it;
              like_compile_loop fuel (S i) (<[i := it]> items) directMatch
          | piSkipMore =>
              let directMatch := false in
              if decide (pi_length it <> 0) then
                let it := pi_set_match_any true (pi_set_type piSkipFixed it) in
                like_compile_loop fuel (S i) (<[i := it]> items) directMatch
              else if decide (0 < i)%nat then
                prev ← items !! (i - 1)%nat;
                let items := <[(i - 1)%nat := pi_set_match_any true prev]> items in
                like_compile_loop fuel i (delete i items) directMatch
              else if decide (length items <> 1%nat) then
                like_compile_loop fuel i (delete i items) directMatch
              else
                let it := pi_set_match_any true (pi_set_type piNone it) in
                like_compile_loop fuel (S i) (<[i := it]> items) directMatch
          | piNone | piSkipFixed | piDirectMatch =>
              like_compile_loop fuel (S i) items directMatch
          end
      end
  end.

Definition like_compile (items : list PatternItem) : option (list PatternItem) :=
  like_compile_loop (S (length items)) 0 items true.
End Parse.

(** ** Construction and [reset] *)

Definition like_reset (items : list PatternItem) : option LikeEvaluator :=
  it ← items !! 0%nat;
  if decide (pi_type it = piNone) then
    Some {| le_patternItems := items; le_branches := [];
            le_match_type := if pi_match_any it then MATCH_ANY else MATCH_FIXED |}
  else
    Some {| le_patternItems := items;
            le_branches := [{| bi_pattern := 0; bi_offset := 0 |}];
            le_match_type := MATCH_NONE |}.

(** The constructor: an error value where the code raises [isc_escape_invalid]. *)
Definition LikeEvaluator_new (escape_char : Z) (use_escape : bool)
    (sql_match_any sql_match_one : Z) (pattern : list Z)
    : option (LikeError + LikeEvaluator) :=
  match like_parse escape_char use_escape sql_match_any sql_match_one pattern with
  | inl e => Some (inl e)
  | inr items =>
      items ← like_compile escape_char use_escape items;
      ev ← like_reset items;
      Some (inr ev)
  end.

Definition like_getResult (ev : LikeEvaluator) : bool :=
  bool_decide (le_match_type ev <> MATCH_NONE).

(** ** Matching *)

(** What one pass over the branches for one character ends in: a [return] from
    [processNextChunk] with the given [branches] and [match_type] ([None]: left
    unchanged), or the end of the inner loop. *)
Inductive BranchResult :=
  | BrReturn (branches : list BranchItem) (match_type : option MatchType) (more : bool)
  | BrDone (branches : list BranchItem) (finishCandidate : Z).

Section Match.
Context (patternItems : list PatternItem) (data_len : Z).

(** What the switch does to the loop: [return], [continue] with the given
    [branch_number], or fall out of the switch and go on from there. *)
Inductive SwitchResult :=
  | SwReturn (branches : list BranchItem) (match_type : option MatchType) (more : bool)
  | SwGo (branch_number : nat) (branches : list BranchItem) (finishCandidate : Z).

(** [case piSkipFixed], also reached from [case piDirectMatch]. *)
Definition step_skip (data_pos : Z) (branch_number : nat) (branches : list BranchItem)
    (finishCandidate : Z) (b : BranchItem) (it : PatternItem) : SwitchResult :=
  let offset := bi_offset b + 1 in
  if decide (pi_length it <= offset) then
    let current_pattern := S (bi_pattern b) in
    if pi_match_any it then
      if decide (length patternItems <= current_pattern)%nat then
        SwReturn [] (Some MATCH_ANY) false
      else
        SwGo 1 [{| bi_pattern := current_pattern; bi_offset := 0 |}] finishCandidate
    else if decide (length patternItems <= current_pattern)%nat then
      let branches := delete branch_number branches in
      if decide (length branches = 0%nat) then
        if decide (data_pos = data_len - 1) then SwReturn branches (Some MATCH_FIXED) true
        else SwReturn branches None false
      else SwGo branch_number branches data_pos
    else
      SwGo (S branch_number)
        (<[branch_number := {| bi_pattern := current_pattern; bi_offset := 0 |}]> branches)
        finishCandidate
  else
    SwGo (S branch_number)
      (<[branch_number := {| bi_pattern := bi_pattern b; bi_offset := offset |}]> branches)
      finishCandidate.

(** [case piDirectMatch]. *)
Definition step_direct (c data_pos : Z) (branch_number : nat)
    (branches : list BranchItem) (finishCandidate : Z) (b : BranchItem)
    (it : PatternItem) : option SwitchResult :=
  d ← pi_data it @ bi_offset b;
  if decide (c <> d) then
    let branches := delete branch_number branches in
    if decide (length branches = 0%nat) then Some (SwReturn branches None false)
    else Some (SwGo branch_number branches finishCandidate)
  else Some (step_skip data_pos branch_number branches finishCandidate b it).

(** [case piSearch]. *)
Definition step_search (c data_pos : Z) (branch_number : nat)
    (branches : list BranchItem) (finishCandidate : Z) (b : BranchItem)
    (it : PatternItem) : option SwitchResult :=
  offset ← kmp_shift (Z.to_nat (pi_length it) + 2) (pi_data it) (pi_kmpNext it)
             c (bi_offset b);
  let offset := offset + 1 in
  if decide (pi_length it <= offset) then
    let next_pattern := S (bi_pattern b) in
    match patternItems !! next_pattern with
    | None =>
        if pi_match_any it then Some (SwReturn [] (Some MATCH_ANY) false)
        else
          offset ← pi_kmpNext it @ offset;
          Some (SwGo (S branch_number)
            (<[branch_number := {| bi_pattern := bi_pattern b; bi_offset := offset |}]>
               branches) data_pos)
    | Some next =>
        if decide (pi_type next = piSearch) then
          Some (SwGo (S branch_number)
            (<[branch_number := {| bi_pattern := next_pattern; bi_offset := 0 |}]>
               branches) finishCandidate)
        else
          offset ← pi_kmpNext it @ offset;
          let branches :=
            <[branch_number := {| bi_pattern := bi_pattern b; bi_offset := offset |}]>
              branches in
          let temp := {| bi_pattern := next_pattern; bi_offset := 0 |} in
          Some (SwGo (S (S branch_number))
            (take (S branch_number) branches ++ temp :: drop (S branch_number) branches)
            finishCandidate)
    end
  else
    Some (SwGo (S branch_number)
      (<[branch_number := {| bi_pattern := bi_pattern b; bi_offset := offset |}]> branches)
      finishCandidate).

(** The switch. *)
Definition step_branch (c data_pos : Z) (branch_number : nat)
    (branches : list BranchItem) (finishCandidate : Z) : option SwitchResult :=
  b ← branches !! branch_number;
  it ← patternItems !! bi_pattern b;
  match pi_type it with
  | piDirectMatch => step_direct c data_pos branch_number branches finishCandidate b it
  | piSkipFixed => Some (step_skip data_pos branch_number branches finishCandidate b it)
  | piSearch => step_search c data_pos branch_number branches finishCandidate b it
  | piNone | piEscapedString | piSkipMore =>
      Some (SwGo (S branch_number) branches finishCandidate)
  end.

(** [while (branch_number < branches.getCount()) { ... }]; every round lowers
    [getCount() - branch_number]. *)
Fixpoint branch_loop (fuel : nat) (c data_pos : Z) (branch_number : nat)
    (branches : list BranchItem) (finishCandidate : Z) : option BranchResult :=
  match fuel with
  | O => None
  | S fuel =>
      if decide (branch_number < length branches)%nat then
        r ← step_branch c data_pos branch_number branches finishCandidate;
        match r with
        | SwReturn branches mt more => Some (BrReturn branches mt more)
        | SwGo n branches fc => branch_loop fuel c data_pos n branches fc
        end
      else Some (BrDone branches finishCandidate)
  end.

(** [while (data_pos < data_len) { ... }] with the final assignment. *)
Fixpoint data_loop (data : list Z) (data_pos : Z) (branches : list BranchItem)
    (finishCandidate : Z) (match_type : MatchType)
    : option (list BranchItem * MatchType * bool) :=
  match data with
  | [] =>
      Some (branches,
            (if decide (finishCandidate = data_len - 1) then MATCH_FIXED else match_type),
            true)
  | c :: data =>
      r ← branch_loop (S (length branches)) c data_pos 0 branches finishCandidate;
      match r with
      | BrReturn branches mt more =>
          Some (branches, default match_type mt, more)
      | BrDone branches fc =>
          data_loop data (data_pos + 1) branches fc match_type
      end
  end.
End Match.

Definition like_processNextChunk (data : list Z) (ev : LikeEvaluator)
    : option (LikeEvaluator * bool) :=
  let items := le_patternItems ev in
  if decide (data = []) then
    Some (ev, bool_decide (length (le_branches ev) <> 0%nat) ||
              bool_decide (le_match_type ev = MATCH_FIXED))
  else
    let match_type :=
      if decide (le_match_type ev = MATCH_FIXED) then MATCH_NONE else le_match_type ev in
    if decide (length (le_branches ev) = 0%nat) then
      Some ({| le_patternItems := items; le_branches := le_branches ev;
               le_match_type := match_type |}, false)
    else
      '(branches, mt, more) ←
        data_loop items (Z.of_nat (length data)) data 0 (le_branches ev) (-1) match_type;
      Some ({| le_patternItems := items; le_branches := branches;
               le_match_type := mt |}, more).

Fixpoint like_feed (chunks : list (list Z)) (ev : LikeEvaluator) : option LikeEvaluator :=
  match chunks with
  | [] => Some ev
  | d :: ds => '(ev, _) ← like_processNextChunk d ev; like_feed ds ev
  end.
