(* ===== verification/LikeCompile.v ===== *)
(** * LIKE: the constructor compiles the pattern's language

    PASS1 and PASS2 of [LikeEvaluator]'s constructor against [LikeSpec]: the
    compiled items describe the same language as the tokens of the pattern, and
    satisfy the layout ([citems_wf]) on which the matching phase relies. *)

From S2P Require Import Prelude Kmp LikeSpec Like.

(** ** Items as PASS1 leaves them *)

(** A string, or a run of [n] underscores with or without a percent sign. *)
Inductive aitem := AStr (cs : list Z) | ASkip (n : nat) (more : bool).

#[export] Instance aitem_eq_dec : EqDecision aitem.
Proof. solve_decision. Defined.

Definition atoks (a : aitem) : list tok :=
  match a with AStr cs => chars cs | ASkip n more => ones n ++ any_tok more end.

(** Strings and runs alternate. *)
Definition akind (a : aitem) : bool :=
  match a with AStr _ => true | ASkip _ _ => false end.

Fixpoint alternating (l : list aitem) : Prop :=
  match l with
  | a :: (b :: _) as l' => akind a <> akind b /\ alternating l'
  | _ => True
  end.

Section Compile.
Context (escape_char : Z) (use_escape : bool) (sql_match_any sql_match_one : Z).

Local Abbreviation is_escape := (is_escape escape_char use_escape).
Local Abbreviation like_parse_loop :=
  (like_parse_loop escape_char use_escape sql_match_any sql_match_one).
Local Abbreviation like_tokens :=
  (like_tokens escape_char use_escape sql_match_any sql_match_one).

(** [raw w cs]: the pattern text [w] spells the characters [cs]. *)
Inductive raw : list Z -> list Z -> Prop :=
  | raw_nil : raw [] []
  | raw_plain c w cs : is_escape c = false -> raw w cs -> raw (c :: w) (c :: cs)
  | raw_escaped e c w cs : is_escape e = true -> raw w cs -> raw (e :: c :: w) (c :: cs).

Lemma raw_app w1 cs1 w2 cs2 : raw w1 cs1 -> raw w2 cs2 -> raw (w1 ++ w2) (cs1 ++ cs2).
Proof. induction 1; intros; simpl; [done|by constructor; auto..]. Qed.

Lemma unescape_raw w cs rest :
  raw w cs -> unescape escape_char use_escape (length cs) (w ++ rest) = Some cs.
Proof.
  induction 1 as [|c w cs Hc Hr IH|e c w cs He Hr IH]; simpl; [done| |].
  - rewrite Hc. simpl. by rewrite IH.
  - rewrite He. simpl. by rewrite IH.
Qed.

(** A string item whose text ends where [rest] begins. *)
Definition str_item (it : PatternItem) (cs rest : list Z) : Prop :=
  cs <> [] /\ pi_length it = Z.of_nat (length cs) /\ pi_match_any it = false /\
  exists w, pi_data it = w ++ rest /\ raw w cs /\
    (pi_type it = piSearch /\ w = cs \/ pi_type it = piEscapedString).

Definition skip_item (it : PatternItem) (n : nat) (more : bool) : Prop :=
  pi_length it = Z.of_nat n /\ pi_match_any it = false /\
  pi_type it = (if more then piSkipMore else piSkipFixed) /\
  (more = false -> (0 < n)%nat).

(** [item_is rest it a]: [it] represents [a], and if it is a string, the
    pattern goes on with [rest] after it. *)
Definition item_is (rest : list Z) (it : PatternItem) (a : aitem) : Prop :=
  match a with
  | AStr cs => str_item it cs rest
  | ASkip n more => skip_item it n more
  end.

Definition old_item (it : PatternItem) (a : aitem) : Prop :=
  exists rest, item_is rest it a.

(** The parser state after some text whose tokens are [ts] (latest item
    first in both lists). *)
Inductive parse_inv (rest : list Z) : parse_state -> list tok -> Prop :=
  | parse_inv_start : parse_inv rest ([], PatternItem_zero) []
  | parse_inv_item its it al a ts :
      Forall2 old_item its al -> item_is rest it a ->
      alternating (rev (a :: al)) ->
      tequiv (concat (map atoks (rev (a :: al)))) ts ->
      parse_inv rest (its, it) ts.

Lemma alternating_app l a b :
  alternating (l ++ [a]) -> akind a <> akind b -> alternating (l ++ [a; b]).
Proof.
  induction l as [|x l IH]; [done|]. destruct l as [|y l]; simpl.
  - by intros [? _] ?.
  - intros [? Hl] Hab. split; [done|]. by apply IH.
Qed.

Lemma alternating_last l a b :
  alternating (l ++ [a]) -> akind a = akind b -> alternating (l ++ [b]).
Proof.
  induction l as [|x l IH]; [done|]. destruct l as [|y l]; simpl.
  - intros [? _] ?. split; [congruence|done].
  - intros [? Hl] Hab. split; [done|]. by apply IH.
Qed.

(** Adding an item. *)
Lemma parse_inv_grow its it al a b rest0 rest it' ts ts' :
  Forall2 old_item its al -> item_is rest0 it a -> alternating (rev (a :: al)) ->
  tequiv (concat (map atoks (rev (a :: al)))) ts ->
  akind a <> akind b -> item_is rest it' b -> tequiv (ts ++ atoks b) ts' ->
  parse_inv rest (it :: its, it') ts'.
Proof.
  intros Hits Hit Halt Hts Hk Hb Hts'.
  apply (parse_inv_item rest (it :: its) it' (a :: al) b).
  - constructor; [by exists rest0|done].
  - done.
  - simpl in *. rewrite <- app_assoc. by apply alternating_app.
  - rewrite <- Hts', <- Hts. simpl. rewrite !map_app, !concat_app. simpl.
    by rewrite !app_nil_r.
Qed.

(** Extending the last item. *)
Lemma parse_inv_extend its al a b rest it' ts ts' us :
  Forall2 old_item its al -> alternating (rev (a :: al)) ->
  tequiv (concat (map atoks (rev (a :: al)))) ts ->
  akind a = akind b -> item_is rest it' b ->
  tequiv (atoks a ++ us) (atoks b) -> tequiv (ts ++ us) ts' ->
  parse_inv rest (its, it') ts'.
Proof.
  intros Hits Halt Hts Hk Hb Hab Hts'.
  apply (parse_inv_item rest its it' al b); [done|done| |].
  - simpl in *. by eapply alternating_last.
  - rewrite <- Hts', <- Hts. simpl. rewrite !map_app, !concat_app. simpl.
    rewrite !app_nil_r, <- Hab. by rewrite app_assoc.
Qed.

Lemma str_item_start rest w c :
  raw w [c] -> forall ty, ty = piSearch /\ w = [c] \/ ty = piEscapedString ->
  str_item (pi_set_length 1 (pi_set_data (w ++ rest)
             (pi_set_type ty PatternItem_zero))) [c] rest.
Proof. intros Hw ty Hty. split_and!; [done..|]. exists w. done. Qed.

(** One more character of a string item. *)
Lemma str_item_extend it cs w rest c ty :
  str_item it cs (w ++ rest) -> raw w [c] ->
  ty = pi_type it /\ w = [c] \/ ty = piEscapedString ->
  str_item (pi_set_length (pi_length it + 1) (pi_set_type ty it)) (cs ++ [c]) rest.
Proof.
  intros (Hne & Hlen & Hany & w0 & Hdata & Hraw & Hty) Hw Hty'.
  split_and!; simpl; [by destruct cs|rewrite Hlen, length_app; simpl; lia|done|].
  exists (w0 ++ w). rewrite Hdata, app_assoc. split_and!; [done|by apply raw_app|].
  destruct Hty' as [[-> ->]| ->]; [|by right].
  destruct Hty as [[-> ->]|?]; [by left|by right].
Qed.

Lemma tequiv_nil_r ts : tequiv (ts ++ []) ts.
Proof. by rewrite app_nil_r. Qed.

(** One more literal character, spelt [w] in the pattern. *)
Lemma on_string_inv w c rest st ts ty :
  raw w [c] -> ty = piSearch /\ w = [c] \/ ty = piEscapedString ->
  parse_inv (w ++ rest) st ts ->
  parse_inv rest
    (match pi_type (snd st) with
     | piSkipFixed | piSkipMore => start_string ty (w ++ rest) (grow_item st)
     | piNone => start_string ty (w ++ rest) st
     | piSearch => inc_length (with_type ty st)
     | piEscapedString => inc_length st
     | piDirectMatch => st
     end) (ts ++ [TChar c]).
Proof.
  intros Hw Hty Hinv. destruct Hinv as [|its it al a ts Hits Hit Halt Hts]; simpl.
  { apply (parse_inv_item rest [] _ [] (AStr [c])); [constructor| |done|done].
    by apply str_item_start. }
  destruct a as [cs|n more].
  - assert (Hext : forall ty', ty' = pi_type it /\ w = [c] \/ ty' = piEscapedString ->
      parse_inv rest (its, pi_set_length (pi_length it + 1) (pi_set_type ty' it))
        (ts ++ [TChar c])).
    { intros ty' Hty'. eapply (parse_inv_extend its al (AStr cs) (AStr (cs ++ [c])));
        [done..| | |reflexivity]; [by eapply str_item_extend|].
      simpl. by rewrite map_app. }
    pose proof Hit as (_ & _ & _ & w0 & _ & _ & Htyp).
    destruct Htyp as [[Ht ->]|Ht]; rewrite Ht.
    + apply Hext. rewrite Ht. destruct Hty as [[-> ?]|?]; [by left|by right].
    + replace (inc_length (its, it))
        with (its, pi_set_length (pi_length it + 1) (pi_set_type piEscapedString it))
        by (unfold inc_length; simpl; rewrite <- Ht; by destruct it).
      apply Hext. by right.
  - pose proof Hit as (_ & _ & Ht & _).
    assert (parse_inv rest (start_string ty (w ++ rest) (grow_item (its, it)))
      (ts ++ [TChar c])) as Hinv.
    { eapply (parse_inv_grow its it al (ASkip n more) (AStr [c])); try done.
      by apply str_item_start. }
    rewrite Ht. by destruct more.
Qed.

Lemma on_escaped_inv e c rest st ts :
  is_escape e = true -> parse_inv (e :: c :: rest) st ts ->
  parse_inv rest (on_escaped (e :: c :: rest) st) (ts ++ [TChar c]).
Proof.
  intros He. apply (on_string_inv [e; c] c); [|by right].
  by apply raw_escaped, raw_nil.
Qed.

Lemma on_char_inv c rest st ts :
  is_escape c = false -> parse_inv (c :: rest) st ts ->
  parse_inv rest (on_char (c :: rest) st) (ts ++ [TChar c]).
Proof.
  intros Hc Hinv. pose proof (on_string_inv [c] c rest st ts piSearch) as H.
  assert (Heq : on_char (c :: rest) st =
    match pi_type (snd st) with
     | piSkipFixed | piSkipMore => start_string piSearch ([c] ++ rest) (grow_item st)
     | piNone => start_string piSearch ([c] ++ rest) st
     | piSearch => inc_length (with_type piSearch st)
     | piEscapedString => inc_length st
     | piDirectMatch => st
     end).
  { unfold on_char. destruct st as [its [ty ? ? ? ?]]. by destruct ty. }
  rewrite Heq. apply H; [by apply raw_plain, raw_nil|by left|done].
Qed.

Lemma on_any_inv c rest st ts :
  parse_inv (c :: rest) st ts -> parse_inv rest (on_any st) (ts ++ [TAny]).
Proof.
  intros [|its it al a ts' Hits Hit Halt Hts]; unfold on_any; simpl.
  { apply (parse_inv_item rest [] _ [] (ASkip 0 true)); [constructor|by split_and!|done|done]. }
  destruct a as [cs|n more].
  - assert (parse_inv rest (with_type piSkipMore (grow_item (its, it))) (ts' ++ [TAny])) as H.
    { eapply (parse_inv_grow its it al (AStr cs) (ASkip 0 true)); try done. }
    pose proof Hit as (_ & _ & _ & w0 & _ & _ & Htyp).
    destruct Htyp as [[-> _]| ->]; done.
  - destruct Hit as (Hlen & Hany & Ht & Hn).
    assert (parse_inv rest (its, pi_set_type piSkipMore it) (ts' ++ [TAny])) as H.
    { eapply (parse_inv_extend its al (ASkip n more) (ASkip n true) _ _ _ _ [TAny]);
        [done..|by split_and!| |reflexivity].
      simpl. rewrite <- app_assoc. destruct more; simpl; [|done].
      by rewrite (tequiv_any_any []). }
    rewrite Ht. destruct more; [|done].
    replace it with (pi_set_type piSkipMore it) at 1; [done|].
    rewrite <- Ht. by destruct it.
Qed.

Lemma on_one_inv c rest st ts :
  parse_inv (c :: rest) st ts -> parse_inv rest (on_one st) (ts ++ [TOne]).
Proof.
  intros [|its it al a ts' Hits Hit Halt Hts]; unfold on_one; simpl.
  { apply (parse_inv_item rest [] _ [] (ASkip 1 false)); [constructor| |done|done].
    split_and!; [done..|lia]. }
  destruct a as [cs|n more].
  - assert (parse_inv rest (its ++ [], it) ts' -> True) by done.
    assert (parse_inv rest
      (it :: its, pi_set_length 1 (pi_set_type piSkipFixed PatternItem_zero))
      (ts' ++ [TOne])) as H'.
    { eapply (parse_inv_grow its it al (AStr cs) (ASkip 1 false)); try done.
      split_and!; [done..|lia]. }
    pose proof Hit as (_ & _ & _ & w0 & _ & _ & Htyp).
    destruct Htyp as [[-> _]| ->]; done.
  - destruct Hit as (Hlen & Hany & Ht & Hn).
    assert (parse_inv rest (its, pi_set_length (pi_length it + 1) it) (ts' ++ [TOne])) as H.
    { eapply (parse_inv_extend its al (ASkip n more) (ASkip (S n) more) _ _ _ _ [TOne]);
        [done..| | |reflexivity].
      - split_and!; simpl; [lia|done|done|lia].
      - simpl. rewrite <- app_assoc. change (TOne :: ones n ++ any_tok more)
          with ((ones 1 ++ ones n) ++ any_tok more).
        rewrite <- replicate_add, Nat.add_comm, replicate_add, <- app_assoc.
        destruct more; simpl; [|done]. by rewrite (tequiv_any_one []). }
    rewrite Ht. by destruct more.
Qed.

Lemma like_parse_loop_spec pattern st ts :
  parse_inv pattern st ts ->
  match like_tokens pattern with
  | Some us => exists st', like_parse_loop pattern st = inr st' /\
                 parse_inv [] st' (ts ++ us)
  | None => like_parse_loop pattern st = inl isc_escape_invalid
  end.
Proof.
  remember (length pattern) as len eqn:Hlen. revert pattern Hlen st ts.
  induction len as [len IH] using lt_wf_ind. intros pattern -> st ts Hinv.
  assert (Hgo : forall t rest st', (length rest < length pattern)%nat ->
    parse_inv rest st' (ts ++ [t]) ->
    match cons t <$> like_tokens rest with
    | Some us => exists st'', like_parse_loop rest st' = inr st'' /\
                   parse_inv [] st'' (ts ++ us)
    | None => like_parse_loop rest st' = inl isc_escape_invalid
    end).
  { intros t rest st' Hl Hinv'. specialize (IH _ Hl rest eq_refl st' _ Hinv').
    destruct (like_tokens rest); simpl; [|done]. by rewrite <- app_assoc in IH. }
  destruct pattern as [|c rest]; simpl in *.
  { exists st. by rewrite app_nil_r. }
  unfold Like.is_escape in *. destruct (use_escape && bool_decide (c = escape_char)) eqn:He.
  - destruct rest as [|c2 rest2]; [done|].
    unfold is_any, is_one. rewrite <- !bool_decide_and.
    match goal with |- context [if ?b then _ else _] => destruct b end; [|reflexivity].
    apply Hgo; [simpl; lia|]. by apply on_escaped_inv.
  - unfold is_any, is_one. rewrite <- !bool_decide_and.
    destruct (decide (sql_match_any <> 0 /\ c = sql_match_any)) as [Hany|Hany].
    { rewrite bool_decide_eq_true_2 by done. apply Hgo; [lia|].
      by eapply on_any_inv. }
    rewrite bool_decide_eq_false_2 by done.
    destruct (decide (sql_match_one <> 0 /\ c = sql_match_one)) as [Hone|Hone].
    { rewrite bool_decide_eq_true_2 by done. apply Hgo; [lia|].
      by eapply on_one_inv. }
    rewrite bool_decide_eq_false_2 by done. apply Hgo; [lia|]. by apply on_char_inv.
Qed.

(** ** Items as PASS2 leaves them *)

Inductive ckind := KDirect (cs : list Z) | KSearch (cs : list Z) | KSkip (n : nat).

Record citem := { ck : ckind; cany : bool }.

Definition cbody (c : citem) : list tok :=
  match ck c with KDirect cs | KSearch cs => chars cs | KSkip n => ones n end.

Definition ctoks (c : citem) : list tok := cbody c ++ any_tok (cany c).

Definition is_search (c : citem) : bool :=
  match ck c with KSearch _ => true | _ => false end.

Definition str_data (it : PatternItem) (cs : list Z) : Prop :=
  cs <> [] /\ pi_length it = Z.of_nat (length cs) /\
  exists rest, pi_data it = cs ++ rest.

Definition compiled_item (it : PatternItem) (c : citem) : Prop :=
  pi_match_any it = cany c /\
  match ck c with
  | KDirect cs => pi_type it = piDirectMatch /\ str_data it cs
  | KSearch cs => pi_type it = piSearch /\ str_data it cs /\ table_ok cs (pi_kmpNext it)
  | KSkip n => pi_type it = piSkipFixed /\ pi_length it = Z.of_nat n /\ (0 < n)%nat
  end.

(** An item is a search exactly when a percent sign precedes it. *)
Fixpoint cwf (l : list citem) : Prop :=
  match l with
  | a :: (b :: _) as l' => cany a = is_search b /\ cwf l'
  | _ => True
  end.

Definition cmark (c : citem) : citem := {| ck := ck c; cany := true |}.

Fixpoint mark_last (l : list citem) : list citem :=
  match l with
  | [] => []
  | [c] => [cmark c]
  | c :: l => c :: mark_last l
  end.

(** PASS2 as a function on abstract items; [lead]: a percent sign is pending
    (the code's [!directMatch]). *)
Fixpoint cacc (acc : list citem) (lead : bool) (al : list aitem) : list citem :=
  match al with
  | [] => acc
  | AStr cs :: al =>
      cacc (acc ++ [{| ck := if lead then KSearch cs else KDirect cs; cany := false |}])
        false al
  | ASkip O true :: al => cacc (mark_last acc) true al
  | ASkip n true :: al => cacc (acc ++ [{| ck := KSkip n; cany := true |}]) true al
  | ASkip n false :: al => cacc (acc ++ [{| ck := KSkip n; cany := false |}]) lead al
  end.

Lemma mark_last_snoc l c : mark_last (l ++ [c]) = l ++ [cmark c].
Proof. induction l as [|x [|y l] IH]; [done..|]. simpl in *. by rewrite IH. Qed.

Lemma list_insert_middle {A} (l k : list A) x y :
  <[length l := y]> (l ++ x :: k) = l ++ y :: k.
Proof. rewrite insert_app_r_alt by done. by rewrite Nat.sub_diag. Qed.

(** Both [case piSearch] branches. *)
Lemma compile_search_spec (lead : bool) it cs :
  pi_type it = piSearch -> str_data it cs -> pi_match_any it = false ->
  exists it', compile_search (negb lead) it = Some (it', true) /\
    compiled_item it' {| ck := if lead then KSearch cs else KDirect cs; cany := false |}.
Proof.
  intros Ht (Hne & Hlen & rest & Hdata) Hany. unfold compile_search.
  destruct lead; simpl.
  - assert (0 < length cs)%nat by (destruct cs; [done|simpl; lia]).
    destruct (preKmp_spec (pi_data it) cs (kmp_array (pi_length it + 1)))
      as (tbl & Hpre & _ & Htbl).
    + intros k Hk. rewrite Hdata. by apply lookup_app_l.
    + unfold kmp_array. rewrite length_replicate. lia.
    + rewrite Hlen in *. rewrite Hpre. simpl. eexists. split; [done|].
      split; [done|]. simpl. split_and!; [done| |done]. split_and!; [done|done|by exists rest].
  - eexists. split; [done|]. split; [done|]. simpl.
    split; [done|]. split_and!; [done|done|by exists rest].
Qed.

Local Abbreviation like_compile_loop := (like_compile_loop escape_char use_escape).

Lemma compile_loop_str (lead : bool) pre it suf cs fuel :
  old_item it (AStr cs) ->
  exists it', compiled_item it'
      {| ck := if lead then KSearch cs else KDirect cs; cany := false |} /\
    like_compile_loop (S fuel) (length pre) (pre ++ it :: suf) (negb lead) =
    like_compile_loop fuel (length (pre ++ [it'])) ((pre ++ [it']) ++ suf) true.
Proof.
  intros (rest & Hne & Hlen & Hany & w & Hdata & Hraw & Hty). simpl.
  rewrite list_lookup_middle by done. destruct Hty as [[Ht ->]|Ht]; rewrite Ht.
  - destruct (compile_search_spec lead it cs) as (it' & -> & Hc).
    + done.
    + split_and!; [done|done|by exists rest].
    + done.
    + exists it'. split; [done|]. simpl. rewrite list_insert_middle, <- app_assoc, length_app.
      by rewrite Nat.add_1_r.
  - rewrite Hlen, Nat2Z.id, Hdata, unescape_raw by done. simpl.
    destruct (compile_search_spec lead (pi_set_type piSearch (pi_set_data cs it)) cs)
      as (it' & -> & Hc); simpl.
    + done.
    + split_and!; [done|done|exists []; by rewrite app_nil_r].
    + done.
    + exists it'. split; [done|]. simpl. rewrite list_insert_middle, <- app_assoc, length_app.
      by rewrite Nat.add_1_r.
Qed.

Lemma compile_loop_spec fuel pre suf acc lead al :
  Forall2 compiled_item pre acc -> Forall2 old_item suf al -> alternating al ->
  (acc = [] -> al <> [ASkip 0 true]) -> (length al < fuel)%nat ->
  exists items, like_compile_loop fuel (length pre) (pre ++ suf) (negb lead) = Some items /\
    Forall2 compiled_item items (cacc acc lead al).
Proof.
  revert pre suf acc lead al. induction fuel as [|fuel IH];
    intros pre suf acc lead al Hpre Hsuf Halt Hsole Hfuel; [lia|].
  destruct Hsuf as [|it a suf al Hit Hsuf].
  { exists pre. simpl. rewrite app_nil_r. by rewrite lookup_ge_None_2 by lia. }
  assert (Halt' : alternating al) by (destruct al; [done|apply Halt]).
  assert (Hnext : forall acc' : list citem, akind a = false -> acc' = [] -> al <> [ASkip 0 true]).
  { intros acc' Ha _ ->. simpl in Halt. rewrite Ha in Halt. by destruct Halt. }
  simpl in Hfuel. destruct a as [cs|n more].
  { destruct (compile_loop_str lead pre it suf cs fuel Hit) as (it' & Hc & ->).
    apply (IH (pre ++ [it']) suf _ false); [|done|done| |lia].
    - apply Forall2_app; [done|by constructor].
    - intros Hnil. by apply app_nil in Hnil as [_ ?]. }
  destruct Hit as (rest & Hlen & Hany & Hty & Hn). simpl.
  rewrite list_lookup_middle by done. rewrite Hty, Hlen. destruct more.
  2:{ specialize (Hn eq_refl).
    destruct (IH (pre ++ [it]) suf (acc ++ [{| ck := KSkip n; cany := false |}]) lead al)
      as (items & Hgo & Hres); [|done|done| |lia|].
    - apply Forall2_app; [done|]. by repeat constructor.
    - intros Hnil. by apply app_nil in Hnil as [_ ?].
    - rewrite length_app, Nat.add_1_r, <- app_assoc in Hgo. exists items.
      split; [exact Hgo|]. by destruct n. }
  destruct n as [|n].
  - rewrite decide_False by lia. destruct acc as [|c acc _] using rev_ind.
    + apply Forall2_nil_inv_r in Hpre as ->. simpl.
      destruct al as [|a' al]; [by specialize (Hsole eq_refl)|].
      apply Forall2_length in Hsuf as Hls. simpl in Hls. rewrite decide_True by lia.
      by apply (IH [] suf [] true); [|done|done|apply Hnext|simpl in *; lia].
    + apply Forall2_app_inv_r in Hpre as (pre0 & pl & Hpre0 & Hpl & ->).
      apply Forall2_cons_inv_r in Hpl as (itl & [|] & Hitl & Hnil & ->); [|by inversion Hnil].
      rewrite length_app, Nat.add_1_r, decide_True by lia. simpl. rewrite Nat.sub_0_r.
      rewrite <- app_assoc. simpl. rewrite list_lookup_middle by done. simpl.
      rewrite list_insert_middle, mark_last_snoc.
      replace (delete _ _) with ((pre0 ++ [pi_set_match_any true itl]) ++ suf).
      2:{ rewrite <- (list.delete_middle (pre0 ++ [pi_set_match_any true itl]) suf it).
          rewrite length_app, Nat.add_1_r. by rewrite <- app_assoc. }
      replace (S (length pre0)) with (length (pre0 ++ [pi_set_match_any true itl]))
        by (rewrite length_app, Nat.add_1_r; done).
      apply (IH _ suf _ true); [|done|done| |lia].
      * apply Forall2_app; [done|]. constructor; [|done].
        destruct Hitl as [? Hk]. split; [done|]. destruct c as [[] ?]; exact Hk.
      * by apply Hnext.
  - rewrite decide_True by lia. rewrite list_insert_middle.
    destruct (IH (pre ++ [pi_set_match_any true (pi_set_type piSkipFixed it)]) suf
      (acc ++ [{| ck := KSkip (S n); cany := true |}]) true al)
      as (items & Hgo & Hres); [|done|done|by apply Hnext|lia|].
    + apply Forall2_app; [done|]. constructor; [|done]. split; [done|]. simpl.
      split_and!; [done|done|lia].
    + rewrite length_app, Nat.add_1_r, <- app_assoc in Hgo. by exists items.
Qed.

(** *** The language is kept *)

(** All tokens of compiled items; the search that opens a list stands for a
    leading percent sign. *)
Definition lead_toks (lead : bool) (acc : list citem) : list tok :=
  match acc with [] => any_tok lead | c :: _ => any_tok (is_search c) end.

Definition ctokens (lead : bool) (acc : list citem) : list tok :=
  lead_toks lead acc ++ concat (map ctoks acc).

Definition skip_first (al : list aitem) : Prop :=
  match al with ASkip _ _ :: _ => True | _ => False end.

Definition cacc_inv (acc : list citem) (lead : bool) (al : list aitem) : Prop :=
  cwf acc /\ (forall acc' c, acc = acc' ++ [c] -> cany c = lead) /\
  (lead = true -> ~ skip_first al) /\
  (acc = [] -> al <> [] /\ al <> [ASkip 0 true]) /\ alternating al.

Lemma cwf_snoc acc c :
  cwf acc -> (forall acc' d, acc = acc' ++ [d] -> cany d = is_search c) ->
  cwf (acc ++ [c]).
Proof.
  induction acc as [|a acc IH]; intros Hwf Hlast; [done|].
  destruct acc as [|b acc]; simpl in *.
  - split; [by apply (Hlast [])|done].
  - destruct Hwf as [? Hwf]. split; [done|]. apply IH; [done|].
    intros acc' d Heq. apply (Hlast (a :: acc')). by rewrite Heq.
Qed.

Lemma cwf_mark_last acc : cwf acc -> cwf (mark_last acc).
Proof.
  induction acc as [|a acc IH]; [done|]. destruct acc as [|b acc]; [done|].
  simpl. intros [Hab Hwf]. specialize (IH Hwf).
  destruct acc; simpl in *; done.
Qed.

Lemma ctokens_snoc lead acc c :
  (acc = [] -> is_search c = lead) ->
  ctokens lead (acc ++ [c]) = ctokens lead acc ++ ctoks c.
Proof.
  intros Hc. unfold ctokens. rewrite map_app, concat_app. simpl.
  rewrite app_nil_r, <- app_assoc. f_equal.
  destruct acc; simpl; [by rewrite Hc|done].
Qed.

Lemma cacc_step acc lead a al :
  cacc_inv acc lead (a :: al) ->
  exists acc' lead', cacc acc lead (a :: al) = cacc acc' lead' al /\
    (al <> [] \/ acc' <> [] -> cacc_inv acc' lead' al) /\ (al = [] -> acc' <> []) /\
    tequiv (ctokens lead acc ++ atoks a) (ctokens lead' acc').
Proof.
  intros (Hwf & Hlast & Hskip & Hne & Halt).
  assert (Halt' : alternating al) by (destruct al; [done|apply Halt]).
  assert (Hns : akind a = false -> ~ skip_first al).
  { intros Ha. destruct al as [|[cs|k b] al]; simpl in *; [tauto|tauto|].
    rewrite Ha in Halt. by destruct Halt. }
  assert (Hsnoc : forall c lead', cany c = lead' -> is_search c = lead ->
    (lead' = true -> ~ skip_first al) -> cacc_inv (acc ++ [c]) lead' al).
  { intros c lead' Hc Hs Hl. split_and!.
    - apply cwf_snoc; [done|]. intros acc' d Heq. rewrite Hs. by eapply Hlast.
    - intros acc' c' Heq. by apply app_inj_tail in Heq as [_ <-].
    - done.
    - by intros [_ ?]%app_nil.
    - done. }
  assert (Hne' : forall c, acc ++ [c] <> []) by (by intros c [_ ?]%app_nil).
  destruct a as [cs|[|n] [|]].
  - exists (acc ++ [{| ck := if lead then KSearch cs else KDirect cs; cany := false |}]), false.
    split_and!; [done|intros _; apply Hsnoc; [done| |done]|by intros|].
    { destruct lead; reflexivity. }
    assert (ctokens false (acc ++
      [{| ck := if lead then KSearch cs else KDirect cs; cany := false |}]) =
      ctokens lead acc ++ chars cs) as ->; [|done].
    unfold ctokens. rewrite map_app, concat_app. simpl. rewrite app_nil_r.
    unfold ctoks. simpl. rewrite app_nil_r.
    destruct acc as [|c acc]; simpl; by destruct lead; rewrite <- ?app_assoc.
  - destruct acc as [|c acc _] using rev_ind.
    + exists [], true. simpl. destruct (Hne eq_refl) as [_ Hne2].
      assert (al <> []) by (by intros ->).
      split_and!; [done| |done|].
      * intros _. split_and!; [done|intros acc' ? ?; by destruct acc'|by auto| |done].
        intros _. split; [done|]. intros ->. simpl in Halt. by destruct Halt.
      * unfold ctokens. simpl. rewrite app_nil_r. destruct lead; simpl; [|done].
        apply (tequiv_any_any []).
    + exists (acc ++ [cmark c]), true. simpl. rewrite mark_last_snoc.
      split_and!; [done| |by intros _ [_ ?]%app_nil|].
      * intros _. split_and!.
        -- rewrite <- mark_last_snoc. by apply cwf_mark_last.
        -- intros acc' c' Heq. by apply app_inj_tail in Heq as [_ <-].
        -- by auto.
        -- by intros [_ ?]%app_nil.
        -- done.
      * unfold ctokens. rewrite !map_app, !concat_app. simpl. rewrite !app_nil_r.
        unfold ctoks, cbody. simpl.
        replace (lead_toks true (acc ++ [cmark c])) with (lead_toks lead (acc ++ [c]))
          by (destruct acc; done).
        rewrite <- !app_assoc. destruct (cany c); simpl; [|done].
        by rewrite (tequiv_any_any []).
  - exists (acc ++ [{| ck := KSkip 0; cany := false |}]), lead.
    destruct lead; [by destruct (Hskip eq_refl)|].
    split_and!; [done|intros _; by apply Hsnoc|by intros|].
    by rewrite ctokens_snoc.
  - exists (acc ++ [{| ck := KSkip (S n); cany := true |}]), true.
    destruct lead; [by destruct (Hskip eq_refl)|].
    split_and!; [done|intros _; apply Hsnoc; auto|by intros|].
    assert (ctokens true (acc ++ [{| ck := KSkip (S n); cany := true |}]) =
      ctokens false (acc ++ [{| ck := KSkip (S n); cany := true |}])) as ->
      by (by destruct acc).
    by rewrite ctokens_snoc.
  - exists (acc ++ [{| ck := KSkip (S n); cany := false |}]), false.
    destruct lead; [by destruct (Hskip eq_refl)|].
    split_and!; [done|intros _; by apply Hsnoc|by intros|].
    by rewrite ctokens_snoc.
Qed.

Lemma cacc_spec acc lead al :
  cacc_inv acc lead al ->
  cacc acc lead al <> [] /\ cwf (cacc acc lead al) /\
  tequiv (ctokens lead acc ++ concat (map atoks al)) (ctokens false (cacc acc lead al)).
Proof.
  revert acc lead. induction al as [|a al IH]; intros acc lead Hinv.
  { destruct Hinv as (Hwf & _ & _ & Hne & _). simpl.
    assert (acc <> []) by (intros ->; by destruct (Hne eq_refl)).
    split_and!; [done|done|]. rewrite app_nil_r. by destruct acc. }
  destruct (cacc_step acc lead a al Hinv) as (acc' & lead' & -> & Hinv' & Hnil & Heq).
  destruct (IH acc' lead') as (? & ? & Heq').
  { apply Hinv'. destruct al; [right; by apply Hnil|by left]. }
  split_and!; [done|done|]. simpl. by rewrite app_assoc, Heq.
Qed.

(** ** The constructor *)

(** What the constructor leaves, for a pattern of tokens [ts]: no branch for an
    empty pattern and for a sole percent sign, whose result [reset] already
    knows, and otherwise one branch at the first compiled item. *)
Inductive compiled (ts : list tok) : LikeEvaluator -> Prop :=
  | compiled_empty items :
      tequiv ts [] ->
      compiled ts {| le_patternItems := items; le_branches := [];
                     le_match_type := MATCH_FIXED |}
  | compiled_any items :
      tequiv ts [TAny] ->
      compiled ts {| le_patternItems := items; le_branches := [];
                     le_match_type := MATCH_ANY |}
  | compiled_items items cl :
      cl <> [] -> Forall2 compiled_item items cl -> cwf cl ->
      tequiv ts (ctokens false cl) ->
      compiled ts {| le_patternItems := items;
                     le_branches := [{| bi_pattern := 0; bi_offset := 0 |}];
                     le_match_type := MATCH_NONE |}.

Lemma compiled_item_type it c : compiled_item it c -> pi_type it <> piNone.
Proof. intros [_ H]. by destruct (ck c); destruct H as [-> _]. Qed.

Lemma like_compile_spec items al ts :
  Forall2 old_item items al -> al <> [] -> alternating al ->
  tequiv (concat (map atoks al)) ts ->
  exists items' ev, like_compile escape_char use_escape items = Some items' /\
    like_reset items' = Some ev /\ compiled ts ev.
Proof.
  intros Hits Hne Halt Hts. unfold like_compile.
  destruct (decide (al = [ASkip 0 true])) as [->|Hsole].
  { apply Forall2_cons_inv_r in Hits as (it & its & Hit & Hnil & ->).
    apply Forall2_nil_inv_r in Hnil as ->.
    destruct Hit as (rest & Hlen & Hany & Hty & _). simpl. rewrite Hty, Hlen. simpl.
    eexists _, _. split_and!; [done|done|]. simpl.
    apply compiled_any. by rewrite <- Hts. }
  destruct (compile_loop_spec (S (length items)) [] items [] false al)
    as (items' & Hgo & Hres); [done|done|done|done| |].
  { apply Forall2_length in Hits. lia. }
  destruct (cacc_spec [] false al) as (Hcl & Hwf & Heq).
  { split_and!; [done|intros acc' ? ?; by destruct acc'|done|done|done]. }
  assert (exists it its, items' = it :: its /\ pi_type it <> piNone) as (it & its & -> & Hty).
  { destruct Hres as [|it c its cl Hit _]; [done|]. eexists _, _. split; [done|].
    by eapply compiled_item_type. }
  eexists _, _. split_and!; [exact Hgo| |].
  - unfold like_reset. simpl. by rewrite decide_False by done.
  - eapply compiled_items; [exact Hcl|exact Hres|exact Hwf|].
    by rewrite <- Hts.
Qed.

Lemma LikeEvaluator_new_spec pattern :
  match like_tokens pattern with
  | None => LikeEvaluator_new escape_char use_escape sql_match_any sql_match_one pattern
              = Some (inl isc_escape_invalid)
  | Some ts =>
      exists ev, LikeEvaluator_new escape_char use_escape sql_match_any sql_match_one pattern
                   = Some (inr ev) /\ compiled ts ev
  end.
Proof.
  unfold LikeEvaluator_new, like_parse.
  pose proof (like_parse_loop_spec pattern _ _ (parse_inv_start pattern)) as H.
  destruct (like_tokens pattern) as [ts|]; [|by rewrite H].
  destruct H as (st & -> & Hinv). simpl in Hinv.
  destruct Hinv as [|its it al a ts Hits Hit Halt Hts].
  { eexists. split; [reflexivity|]. by apply compiled_empty. }
  destruct (like_compile_spec (rev (it :: its)) (rev (a :: al)) ts)
    as (items' & ev & Hc & Hr & Hev); [| |done|done|].
  - simpl. apply Forall2_app; [rewrite !rev_alt; by apply Forall2_reverse|]. constructor; [by exists []|done].
  - simpl. by intros [_ ?]%app_nil.
  - simpl in *. rewrite Hc. simpl. rewrite Hr. simpl. by exists ev.
Qed.
End Compile.
