(* ===== verification/LikeMatch.v ===== *)
(** * LIKE: the matching phase decides the pattern's language

    A branch stands for the language of values it still accepts; one character
    takes the branches to the derivative of their union. The invariants are the
    ones the code relies on: all branches lie in one segment of the pattern (the
    items between two percent signs), only the first of them may be a search,
    and without a search there is only one. *)

From S2P Require Import Prelude Kmp LikeSpec Like LikeCompile.

(** A position is always a possible state of its search. *)
Lemma scan_state_take p j : (j < length p)%nat -> scan_state p (take j p) j.
Proof.
  intros Hj. split; [|split; [done|]].
  - by split; [lia|].
  - intros k Hk [_ Hs]. apply suffix_length in Hs. len.
Qed.

(** ** The language of a branch *)

Section Branches.
Context (cl : list citem).
Implicit Types (c : citem) (b : BranchItem) (k o : nat) (v : list Z).

(** What item [c] still has to consume from offset [o] on. *)
Definition piece c o v : Prop :=
  match ck c with
  | KSkip n => length v = (n - o)%nat
  | KDirect cs => v = drop o cs
  | KSearch cs => v <> [] /\ cs `suffix_of` (take o cs ++ v)
  end.

Definition csize c : nat :=
  match ck c with KSkip n => n | KDirect cs | KSearch cs => length cs end.

Definition toks_from k : list tok := concat (map ctoks (drop k cl)).

(** The pattern after item [k]. *)
Definition toks_after k : list tok :=
  match cl !! k with Some c => any_tok (cany c) | None => [] end ++ toks_from (S k).

Definition BL b v : Prop :=
  exists c v1 v2, cl !! bi_pattern b = Some c /\ v = v1 ++ v2 /\
    piece c (Z.to_nat (bi_offset b)) v1 /\ lang (toks_after (bi_pattern b)) v2.

Definition BLs (bs : list BranchItem) v : Prop := Exists (fun b => BL b v) bs.

Definition bwf b : Prop :=
  exists c, cl !! bi_pattern b = Some c /\ 0 <= bi_offset b < Z.of_nat (csize c).

Definition srch b : bool :=
  match cl !! bi_pattern b with Some c => is_search c | None => false end.

(** Items [i .. j-1] are not followed by a percent sign. *)
Definition no_any (i j : nat) : Prop :=
  forall m, (i <= m < j)%nat -> exists c, cl !! m = Some c /\ cany c = false.

Definition in_segment (s : nat) b : Prop :=
  (s <= bi_pattern b)%nat /\ no_any s (bi_pattern b).

Definition layout (bs : list BranchItem) : Prop :=
  match bs with
  | [] => True
  | b :: bs => Forall (fun b' => srch b' = false) bs /\ (srch b = false -> bs = [])
  end.

Definition branches_wf (bs : list BranchItem) : Prop :=
  Forall bwf bs /\ layout bs /\ exists s, Forall (in_segment s) bs.

Hypothesis cl_wf : cwf cl.
Hypothesis cl_pos : Forall (fun c => (0 < csize c)%nat) cl.

Lemma cwf_lookup l k (a b : citem) :
  cwf l -> l !! k = Some a -> l !! S k = Some b -> cany a = is_search b.
Proof.
  revert k. induction l as [|x l IH]; intros k Hwf Ha Hb; [done|].
  destruct l as [|y l]; [by destruct k|]. destruct Hwf as [? Hwf].
  destruct k as [|k]; simpl in *; [by simplify_eq|by eapply IH].
Qed.

Lemma toks_from_lookup k c : cl !! k = Some c -> toks_from k = cbody c ++ toks_after k.
Proof.
  intros Hc. unfold toks_from, toks_after. rewrite Hc.
  rewrite (drop_S cl c k Hc). simpl. unfold ctoks at 1. by rewrite <- app_assoc.
Qed.

Lemma toks_from_end k : cl !! k = None -> toks_from k = [].
Proof. intros Hk%lookup_ge_None. unfold toks_from. by rewrite drop_ge. Qed.

Lemma piece_nonempty c o v : (o < csize c)%nat -> piece c o v -> v <> [].
Proof.
  unfold piece, csize. destruct (ck c) as [cs|cs|n]; intros Ho.
  - intros ->. intros H%(f_equal length). len.
  - by intros [? _].
  - intros H ->. simpl in H. lia.
Qed.

Lemma BL_nil b : bwf b -> ~ BL b [].
Proof.
  intros (c & Hc & Ho) (c' & v1 & v2 & ? & Heq & Hp & _). simplify_eq.
  symmetry in Heq. apply app_nil in Heq as [-> _].
  eapply piece_nonempty in Hp; [done|lia].
Qed.

Lemma bwf_start k c : cl !! k = Some c -> bwf {| bi_pattern := k; bi_offset := 0 |}.
Proof.
  intros Hc. exists c. simpl. split; [done|].
  apply (Forall_lookup_1 _ _ _ _ cl_pos) in Hc. lia.
Qed.

(** [% cs rest] as a search. *)
Lemma lang_search cs us v :
  cs <> [] -> lang (TAny :: chars cs ++ us) v <->
  exists v1 v2, v = v1 ++ v2 /\ (v1 <> [] /\ cs `suffix_of` v1) /\ lang us v2.
Proof.
  intros Hcs. rewrite lang_any. setoid_rewrite lang_chars. split.
  - intros (a & ? & -> & v2 & -> & H). exists (a ++ cs), v2.
    rewrite app_assoc. split_and!; [done|by intros [_ ?]%app_nil|by exists a|done].
  - intros (v1 & v2 & -> & (_ & a & ->) & H). exists a, (cs ++ v2).
    rewrite app_assoc. split; [done|]. by exists v2.
Qed.

Lemma lang_ones n us v :
  lang (ones n ++ us) v <-> exists v1 v2, v = v1 ++ v2 /\ length v1 = n /\ lang us v2.
Proof.
  revert v. induction n as [|n IH]; intros v; simpl.
  - split; [by exists [], v|]. by intros ([] & v2 & -> & ? & ?).
  - rewrite lang_one. setoid_rewrite IH. split.
    + intros (x & ? & -> & v1 & v2 & -> & <- & ?). by exists (x :: v1), v2.
    + intros ([|x v1] & v2 & -> & ? & ?); simplify_eq/=. eauto 10.
Qed.

(** Entering an item: a search stands for the percent sign before it. *)
Lemma BL_start k c v :
  cl !! k = Some c ->
  BL {| bi_pattern := k; bi_offset := 0 |} v <->
  lang (any_tok (is_search c) ++ toks_from k) v.
Proof.
  intros Hc. rewrite (toks_from_lookup k c Hc).
  trans (exists v1 v2, v = v1 ++ v2 /\ piece c 0 v1 /\ lang (toks_after k) v2).
  { unfold BL. simpl. split.
    - intros (c' & v1 & v2 & ? & ? & ? & ?). simplify_eq. eauto.
    - intros (v1 & v2 & ? & ? & ?). eauto 10. }
  unfold piece, is_search, cbody.
  apply (Forall_lookup_1 _ _ _ _ cl_pos) in Hc. unfold csize in Hc.
  destruct (ck c) as [cs|cs|n]; simpl.
  - rewrite lang_chars, drop_0. split.
    + intros (v1 & v2 & -> & -> & ?). eauto.
    + intros (v2 & -> & ?). eauto.
  - rewrite lang_search by (intros ->; simpl in Hc; lia). done.
  - rewrite lang_ones, Nat.sub_0_r. done.
Qed.

(** Leaving item [k] for the next one. *)
Lemma lang_after_next k c c' v :
  cl !! k = Some c -> cl !! S k = Some c' ->
  lang (toks_after k) v <-> BL {| bi_pattern := S k; bi_offset := 0 |} v.
Proof.
  intros Hc Hc'. rewrite (BL_start _ c') by done.
  unfold toks_after. rewrite Hc. by rewrite (cwf_lookup cl k c c').
Qed.

Lemma lang_after_end k c v :
  cl !! k = Some c -> cl !! S k = None ->
  lang (toks_after k) v <-> (cany c = false -> v = []).
Proof.
  intros Hc Hk. unfold toks_after. rewrite Hc, toks_from_end, app_nil_r by done.
  destruct (cany c); simpl.
  - split; [done|]. intros _. apply lang_any_nil.
  - rewrite lang_nil. tauto.
Qed.

(** A later item's tail ends an earlier one's. *)
Lemma toks_after_le k k' :
  (k' <= k)%nat -> is_Some (cl !! k) -> exists ts, toks_after k' = ts ++ toks_after k.
Proof.
  intros Hle [c Hc]. remember (k - k')%nat as d eqn:Hd.
  revert k' Hle Hd. induction d as [|d IH]; intros k' Hle Hd.
  { exists []. by replace k' with k by lia. }
  destruct (IH (S k')) as [ts Hts]; [lia|lia|].
  destruct (lookup_lt_is_Some_2 cl (S k')) as [c' Hc'].
  { apply lookup_lt_Some in Hc. lia. }
  unfold toks_after at 1. rewrite (toks_from_lookup _ c') by done. rewrite Hts.
  eexists. by rewrite !app_assoc.
Qed.

(** Everything a branch accepts, minus its next character, is accepted after
    the percent sign that ends its segment. *)
Lemma BL_absorb b k c x v :
  bwf b -> (bi_pattern b <= k)%nat -> cl !! k = Some c -> cany c = true ->
  BL b (x :: v) \/ BL b v -> lang (toks_after k) v.
Proof.
  intros (cb & Hcb & Ho) Hle Hc Hany Hv.
  destruct (toks_after_le _ _ Hle) as [ts Hts]; [by eexists|].
  assert (Hsub : forall v2, lang (toks_after (bi_pattern b)) v2 ->
    lang (TAny :: toks_from (S k)) v2).
  { intros v2. rewrite Hts. unfold toks_after. rewrite Hc, Hany. apply lang_any_absorb. }
  unfold toks_after. rewrite Hc, Hany. simpl.
  destruct Hv as [Hv|Hv]; destruct Hv as (c' & v1 & v2 & ? & Heq & Hp & Hl%Hsub);
    simplify_eq.
  - apply piece_nonempty in Hp; [|lia]. destruct v1; simplify_eq/=. by apply lang_any_extend.
  - by apply lang_any_extend.
Qed.

Lemma in_segment_le s b b' c :
  in_segment s b -> in_segment s b' -> cl !! bi_pattern b = Some c -> cany c = true ->
  (bi_pattern b' <= bi_pattern b)%nat.
Proof.
  intros [Hs _] [_ Hno] Hc Hany.
  destruct (decide (bi_pattern b' <= bi_pattern b)%nat) as [|Hgt]; [done|].
  destruct (Hno (bi_pattern b)) as (c' & ? & ?); [lia|]. congruence.
Qed.

(** A search opens its segment. *)
Lemma in_segment_search s b : in_segment s b -> srch b = true -> bi_pattern b = s.
Proof.
  intros [Hs Hno] Hb. destruct (decide (bi_pattern b = s)) as [|Hne]; [done|].
  destruct (Hno (bi_pattern b - 1)%nat) as (c & Hc & Hany); [lia|].
  unfold srch in Hb. destruct (cl !! bi_pattern b) as [c'|] eqn:Hc'; [|done].
  rewrite <- (cwf_lookup cl (bi_pattern b - 1) c c') in Hb; [congruence|done..|].
  by replace (S (bi_pattern b - 1)) with (bi_pattern b) by lia.
Qed.

(** *** Replacing the branch being stepped *)

Lemma layout_replace pre b post news :
  layout (pre ++ b :: post) ->
  match news with
  | [] => srch b = false /\ pre <> []
  | b' :: news => srch b' = srch b /\ Forall (fun b => srch b = false) news /\
                  (srch b = false -> news = [])
  end -> layout (pre ++ news ++ post).
Proof.
  destruct pre as [|p pre]; simpl.
  - intros [Hp Hb]. destruct news as [|b' news]; [tauto|].
    intros (Hs & Hn & Hsn). simpl. rewrite Hs. split; [by apply Forall_app|].
    intros Hf. rewrite Hsn, Hb by done. done.
  - intros [Hall Hnil]. apply Forall_app in Hall as [Hpre [Hb Hpost]%Forall_cons].
    intros Hn. split.
    + apply Forall_app; split; [done|]. apply Forall_app; split; [|done].
      destruct news as [|b' news]; [done|]. destruct Hn as (? & ? & ?).
      constructor; [congruence|done].
    + intros Hf. specialize (Hnil Hf). by destruct pre.
Qed.

Definition follows b b' : Prop :=
  (bi_pattern b <= bi_pattern b')%nat /\ no_any (bi_pattern b) (bi_pattern b').

Lemma in_segment_follows s b b' : in_segment s b -> follows b b' -> in_segment s b'.
Proof.
  intros [Hs Hno] [Hle Hno']. split; [lia|]. intros m Hm.
  destruct (decide (m < bi_pattern b)%nat); [apply Hno|apply Hno']; lia.
Qed.

Lemma branches_wf_replace pre b post news :
  branches_wf (pre ++ b :: post) -> Forall bwf news -> Forall (follows b) news ->
  layout (pre ++ news ++ post) -> branches_wf (pre ++ news ++ post).
Proof.
  intros (Hwf & _ & s & Hs) Hnew Hfol Hlay.
  apply Forall_app in Hwf as [? [? ?]%Forall_cons].
  apply Forall_app in Hs as [? [Hb ?]%Forall_cons].
  split_and!; [by repeat (apply Forall_app; split)|done|].
  exists s. repeat (apply Forall_app; split); try done.
  eapply Forall_impl; [done|]. intros b'. by apply in_segment_follows.
Qed.

Lemma branches_wf_single b : bwf b -> branches_wf [b].
Proof.
  intros Hb. split_and!; [by repeat constructor|by split|].
  exists (bi_pattern b). repeat constructor. intros m Hm. lia.
Qed.

(** ** Derivatives *)

(** Item [c] accepts character [x] at offset [o]. *)
Definition reads c o (x : Z) : Prop :=
  match ck c with KDirect cs => cs !! o = Some x | _ => True end.

Lemma piece_cons c o x v :
  is_search c = false -> (o < csize c)%nat ->
  piece c o (x :: v) <->
  reads c o x /\ if decide (S o < csize c)%nat then piece c (S o) v else v = [].
Proof.
  unfold piece, csize, is_search, reads. destruct (ck c) as [cs|cs|n]; intros Hs Ho; [|done|].
  - destruct (lookup_lt_is_Some_2 cs o Ho) as [d Hd]. rewrite (drop_S cs d o Hd), Hd.
    destruct (decide (S o < length cs)%nat).
    + split; [by intros [= -> ->]|]. by intros [[= ->] ->].
    + rewrite drop_ge by lia. split; [by intros [= -> ->]|]. by intros [[= ->] ->].
  - simpl. destruct (decide (S o < n)%nat).
    + split; [split; [done|lia]|intros [_ ?]; lia].
    + split; [split; [done|]|intros [_ ->]; simpl; lia]. destruct v; [done|simpl in *; lia].
Qed.

(** One character of a string or of underscores. *)
Lemma BL_step_fixed k c o x v :
  cl !! k = Some c -> is_search c = false -> (o < csize c)%nat ->
  BL {| bi_pattern := k; bi_offset := Z.of_nat o |} (x :: v) <->
  reads c o x /\ if decide (S o < csize c)%nat
                 then BL {| bi_pattern := k; bi_offset := Z.of_nat (S o) |} v
                 else lang (toks_after k) v.
Proof.
  intros Hc Hs Ho. unfold BL. simpl. rewrite !Nat2Z.id. split.
  - intros (c' & v1 & v2 & ? & Heq & Hp & Hl). simplify_eq.
    destruct v1 as [|y v1]; [by apply piece_nonempty in Hp|].
    simplify_eq/=. apply piece_cons in Hp as [Hr Hp]; [|done|done].
    split; [done|]. case_decide; [|by subst]. eauto 10.
  - intros [Hr Hv]. case_decide.
    + destruct Hv as (c' & v1 & v2 & ? & -> & Hp & Hl). simplify_eq.
      exists c, (x :: v1), v2. split_and!; [done|done| |done].
      apply piece_cons; [done|done|]. by rewrite decide_True.
    + exists c, [x], v. split_and!; [done|done| |done].
      apply piece_cons; [done|done|]. by rewrite decide_False.
Qed.

(** One character of a search: either it is found here, or the search goes on
    from the longest prefix that ends the text. *)
Lemma BL_step_search k c cs o j x v :
  cl !! k = Some c -> ck c = KSearch cs -> (o < length cs)%nat ->
  scan_state cs (take o cs ++ [x]) j ->
  BL {| bi_pattern := k; bi_offset := Z.of_nat o |} (x :: v) <->
  cs `suffix_of` (take o cs ++ [x]) /\ lang (toks_after k) v \/
  BL {| bi_pattern := k; bi_offset := Z.of_nat j |} v.
Proof.
  intros Hc Hk Ho (Hps & Hj & Hmax).
  assert (Hre : forall w, w <> [] -> cs `suffix_of` (take o cs ++ x :: w) <->
                                     cs `suffix_of` (take j cs ++ w)).
  { intros w Hw. rewrite <- (suffix_restart cs (take o cs ++ [x]) w j); [|done..].
    by rewrite <- app_assoc. }
  unfold BL. simpl. rewrite !Nat2Z.id. split.
  - intros (c' & v1 & v2 & ? & Heq & Hp & Hl). simplify_eq.
    unfold piece in Hp. rewrite Hk in Hp. destruct Hp as [Hne Hs].
    destruct v1 as [|y v1]; [done|]. simplify_eq/=.
    destruct (decide (v1 = [])) as [->|Hv1]; [by left|right].
    exists c, v1, v2. unfold piece. rewrite Hk. split_and!; [done|done|done| |done].
    by apply Hre.
  - intros [[Hs Hl]|(c' & v1 & v2 & ? & -> & Hp & Hl)].
    + exists c, [x], v. unfold piece. by rewrite Hk.
    + simplify_eq. unfold piece in Hp. rewrite Hk in Hp. destruct Hp as [Hne Hs].
      exists c, (x :: v1), v2. unfold piece. rewrite Hk. split_and!; [done|done|done| |done].
      by apply Hre.
Qed.
End Branches.
