(* ===== verification/LikeStep.v ===== *)
(** * LIKE: one character through the branches

    The round invariant [RInv] of the [while (branch_number < ...)] loop and the
    proof that every case of the switch keeps it. *)

From S2P Require Import Prelude Kmp LikeSpec Like LikeCompile LikeMatch.

Lemma compiled_item_pos it c : compiled_item it c -> (0 < csize c)%nat.
Proof.
  intros [_ H]. unfold csize. destruct (ck c) as [cs|cs|n].
  - destruct H as [_ [Hne _]]. destruct cs; [done|simpl; lia].
  - destruct H as (_ & [Hne _] & _). destruct cs; [done|simpl; lia].
  - by destruct H as (_ & _ & ?).
Qed.

Section Round.
Context (items : list PatternItem) (cl : list citem).
Hypothesis items_cl : Forall2 compiled_item items cl.
Hypothesis cl_wf : cwf cl.

(** The character [c] at [data_pos] of a chunk of [data_len]; [target v]: the
    branches at the start of the round accept [c :: v]. *)
Context (data_len c data_pos : Z) (target : list Z -> Prop).

Local Abbreviation BL := (BL cl).
Local Abbreviation BLs := (BLs cl).
Local Abbreviation bwf := (bwf cl).
Local Abbreviation srch := (srch cl).
Local Abbreviation no_any := (no_any cl).
Local Abbreviation layout := (layout cl).
Local Abbreviation branches_wf := (branches_wf cl).
Local Abbreviation follows := (follows cl).
Local Abbreviation toks_after := (toks_after cl).

Lemma cl_pos : Forall (fun c => (0 < csize c)%nat) cl.
Proof.
  clear cl_wf. revert items_cl. induction 1; constructor; [by eapply compiled_item_pos|done].
Qed.

(** Branches before [n] have consumed [c], the others have not. *)
Definition RInv (n : nat) (bs : list BranchItem) (fc : Z) : Prop :=
  branches_wf bs /\ (n <= length bs)%nat /\
  (forall v, target v <->
     BLs (take n bs) v \/ BLs (drop n bs) (c :: v) \/ v = [] /\ fc = data_pos) /\
  fc <= data_pos /\
  (fc = data_pos -> n <> 0%nat /\
     Forall (fun b => no_any (bi_pattern b) (length cl)) bs).

Definition ret_ok (bs : list BranchItem) (mt : option MatchType) (more : bool) : Prop :=
  bs = [] /\
  match mt with
  | Some MATCH_ANY => more = false /\ forall v, target v
  | Some MATCH_FIXED => more = true /\ data_pos = data_len - 1 /\
                        forall v, target v <-> v = []
  | Some MATCH_NONE => False
  | None => more = false /\ forall v, target v -> v = [] /\ data_pos <> data_len - 1
  end.

Definition step_ok (n : nat) (bs : list BranchItem) (r : SwitchResult) : Prop :=
  match r with
  | SwReturn bs mt more => ret_ok bs mt more
  | SwGo n' bs' fc => RInv n' bs' fc /\ (length bs' - n' < length bs - n)%nat
  end.

Lemma RInv_target pre b post fc :
  RInv (length pre) (pre ++ b :: post) fc ->
  forall v, target v <->
    BLs pre v \/ BL b (c :: v) \/ BLs post (c :: v) \/ v = [] /\ fc = data_pos.
Proof.
  intros (_ & _ & Ht & _ & _) v. rewrite Ht, take_app_length, drop_app_length.
  unfold BLs. rewrite Exists_cons. tauto.
Qed.

(** The branch becomes [news], which consumed [c]; [fin]: it accepted. *)
Lemma RInv_replace pre b post news fc (fin : bool) :
  RInv (length pre) (pre ++ b :: post) fc ->
  Forall bwf news -> Forall (follows b) news ->
  match news with
  | [] => srch b = false /\ pre <> []
  | b' :: news => srch b' = srch b /\ Forall (fun b => srch b = false) news /\
                  (srch b = false -> news = [])
  end ->
  (forall v, BL b (c :: v) <-> BLs news v \/ v = [] /\ fin = true) ->
  (fin = true -> no_any (bi_pattern b) (length cl)) ->
  RInv (length pre + length news) (pre ++ news ++ post) (if fin then data_pos else fc).
Proof.
  intros HR Hnew Hfol Hshape HL Hfin. pose proof (RInv_target _ _ _ _ HR) as Ht.
  destruct HR as (Hwf & _ & _ & Hle & Hany).
  assert (Hwf' : branches_wf (pre ++ news ++ post)).
  { eapply branches_wf_replace; [done..|]. eapply layout_replace; [apply Hwf|done]. }
  split_and!; [done|rewrite !length_app; lia| |destruct fin; lia|].
  - intros v. rewrite Ht, HL, app_assoc, <- length_app, take_app_length, drop_app_length.
    unfold BLs. rewrite Exists_app. destruct fin; intuition (try discriminate; auto).
  - intros Hfc. split.
    { destruct news, pre; simpl; [tauto|lia..]. }
    destruct Hwf' as (_ & _ & s & Hs). destruct Hwf as (_ & _ & s0 & Hs0).
    assert (Hb : no_any (bi_pattern b) (length cl)).
    { destruct fin; [by apply Hfin|]. apply Hany in Hfc as [_ Hall].
      by apply Forall_app in Hall as [_ [? _]%Forall_cons]. }
    assert (Hs0b : Forall (in_segment cl s0) (pre ++ news ++ post)).
    { apply Forall_app in Hs0 as [? [Hb0 ?]%Forall_cons].
      repeat (apply Forall_app; split); try done.
      eapply Forall_impl; [exact Hfol|]. intros b'. by apply in_segment_follows. }
    apply Forall_app in Hs0 as [_ [[Hsb Hsb'] _]%Forall_cons].
    eapply Forall_impl; [exact Hs0b|]. intros b' [Hle' Hno'] m Hm.
    destruct (decide (m < bi_pattern b)%nat); [apply Hsb'; lia|apply Hb; lia].
Qed.

(** A sole branch that is neither a search nor alive after [c]. *)
Lemma RInv_sole pre b post fc :
  RInv (length pre) (pre ++ b :: post) fc -> pre ++ post = [] ->
  forall v, target v <-> BL b (c :: v).
Proof.
  intros HR [-> ->]%app_nil v. rewrite (RInv_target [] b [] fc HR v).
  destruct HR as (_ & _ & _ & _ & Hfc). unfold BLs. rewrite !Exists_nil.
  intuition; exfalso; by apply Hfc.
Qed.

(** Without a search, other branches only come before. *)
Lemma RInv_delete pre b post fc (fin : bool) :
  RInv (length pre) (pre ++ b :: post) fc -> pre ++ post <> [] ->
  srch b = false ->
  (forall v, BL b (c :: v) <-> v = [] /\ fin = true) ->
  (fin = true -> no_any (bi_pattern b) (length cl)) ->
  RInv (length pre) (pre ++ post) (if fin then data_pos else fc).
Proof.
  intros HR Hne Hs HL Hfin.
  pose proof (RInv_replace pre b post [] fc fin HR) as H. simpl in H.
  rewrite Nat.add_0_r in H. apply H; [done|done| | |done].
  - split; [done|]. intros ->. destruct HR as ((_ & [_ Hl] & _) & _).
    simpl in *. by rewrite Hl in Hne.
  - intros v. rewrite HL. unfold BLs. rewrite Exists_nil. tauto.
Qed.

Lemma RInv_bwf pre b post fc : RInv (length pre) (pre ++ b :: post) fc -> bwf b.
Proof. by intros ((Hwf & _) & _); apply Forall_app in Hwf as [_ [? _]%Forall_cons]. Qed.

(** The item before a percent sign is complete: the other branches add
    nothing, and none has accepted. *)
Lemma RInv_commit pre b post fc ci :
  RInv (length pre) (pre ++ b :: post) fc ->
  cl !! bi_pattern b = Some ci -> cany ci = true ->
  (forall v, lang (toks_after (bi_pattern b)) v -> BL b (c :: v)) ->
  fc <> data_pos /\ forall v, target v <-> lang (toks_after (bi_pattern b)) v.
Proof.
  intros HR Hci Hany HL. pose proof (RInv_target _ _ _ _ HR) as Ht.
  destruct HR as ((Hwf & _ & s & Hs) & _ & _ & _ & Hfc).
  assert (Hne : fc <> data_pos).
  { intros [_ Hall]%Hfc. apply Forall_app in Hall as [_ [Hb _]%Forall_cons].
    destruct (Hb (bi_pattern b)) as (c' & ? & ?).
    - split; [lia|]. by eapply lookup_lt_Some.
    - congruence. }
  split; [done|]. intros v. rewrite Ht. split; [|by auto].
  apply Forall_app in Hwf as [Hwf1 [Hwfb Hwf2]%Forall_cons].
  apply Forall_app in Hs as [Hs1 [Hsb Hs2]%Forall_cons].
  assert (Habs : forall l, Forall bwf l -> Forall (in_segment cl s) l ->
    BLs l (c :: v) \/ BLs l v -> lang (toks_after (bi_pattern b)) v).
  { intros l Hl1 Hl2 H.
    assert (exists b', b' ∈ l /\ (BL b' (c :: v) \/ BL b' v)) as (b' & Hin & Hb').
    { destruct H as [H|H]; apply Exists_exists in H as (b' & ? & ?); eauto. }
    eapply Forall_forall in Hl1; [|exact Hin]. eapply Forall_forall in Hl2; [|exact Hin].
    apply (BL_absorb cl b' _ ci c); [done| |done|done|done].
    by eapply in_segment_le. }
  intros [H|[H|[H|[_ H]]]]; [|  | |done].
  - by eapply (Habs pre); [..|right].
  - eapply (Habs [b]); [by constructor|by constructor|left; by constructor].
  - by eapply (Habs post); [..|left].
Qed.

(** ** The cases of the switch *)

Lemma srch_at k o ci : cl !! k = Some ci ->
  srch {| bi_pattern := k; bi_offset := o |} = is_search ci.
Proof. intros Hk. unfold LikeMatch.srch. simpl. by rewrite Hk. Qed.

Lemma items_length : length items = length cl.
Proof. by eapply Forall2_length. Qed.

Lemma no_any_one k ci : cl !! k = Some ci -> cany ci = false -> no_any k (S k).
Proof. intros Hk Hany m Hm. exists ci. by replace m with k by lia. Qed.

(** Both ways of leaving an item that a percent sign follows. *)
Lemma commit_ok pre b post fc ci :
  RInv (length pre) (pre ++ b :: post) fc ->
  cl !! bi_pattern b = Some ci -> cany ci = true ->
  (forall v, lang (toks_after (bi_pattern b)) v -> BL b (c :: v)) ->
  step_ok (length pre) (pre ++ b :: post)
    (if decide (length items <= S (bi_pattern b))%nat
     then SwReturn [] (Some MATCH_ANY) false
     else SwGo 1 [{| bi_pattern := S (bi_pattern b); bi_offset := 0 |}] fc).
Proof.
  intros HR Hci Hany HL. destruct (RInv_commit _ _ _ _ _ HR Hci Hany HL) as [Hfc Ht].
  rewrite items_length. case_decide as Hlen; simpl.
  - split_and!; [done..|]. intros v. apply Ht.
    apply (lang_after_end cl _ ci); [done|by apply lookup_ge_None_2|congruence].
  - destruct (lookup_lt_is_Some_2 cl (S (bi_pattern b))) as [c' Hc']; [lia|].
    split; [|rewrite length_app; simpl; lia].
    split_and!; [|simpl; lia| |apply HR|done].
    + eapply branches_wf_single, bwf_start; [apply cl_pos|done].
    + intros v. rewrite Ht, (lang_after_next cl cl_wf cl_pos _ ci c') by done.
      simpl. unfold BLs. rewrite Exists_cons, !Exists_nil. tauto.
Qed.

Lemma step_skip_ok pre b post fc it ci o :
  RInv (length pre) (pre ++ b :: post) fc ->
  cl !! bi_pattern b = Some ci -> is_search ci = false ->
  bi_offset b = Z.of_nat o -> (o < csize ci)%nat -> reads ci o c ->
  pi_length it = Z.of_nat (csize ci) -> pi_match_any it = cany ci ->
  step_ok (length pre) (pre ++ b :: post)
    (step_skip items data_len data_pos (length pre) (pre ++ b :: post) fc b it).
Proof.
  intros HR Hci Hs Ho Hlt Hr Hlen Hany. destruct b as [k bo]. simpl in *. subst bo.
  pose proof (fun v => BL_step_fixed cl k ci o c v Hci Hs Hlt) as HL.
  unfold step_skip. simpl. rewrite Hlen, Hany.
  destruct (decide (S o < csize ci)%nat) as [Hin|Hout].
  { rewrite decide_False by lia. rewrite list_insert_middle.
    replace (Z.of_nat o + 1) with (Z.of_nat (S o)) by lia.
    split; [|rewrite !length_app; simpl; lia]. rewrite <- Nat.add_1_r.
    eapply (RInv_replace _ _ _ [_] fc false HR); [| |split_and!; [|done|done]| |done].
    - constructor; [|done]. exists ci. split; [done|]. simpl. lia.
    - constructor; [|done]. split; [simpl; lia|]. intros m Hm. simpl in Hm. lia.
    - by rewrite !(srch_at k _ ci).
    - intros v. rewrite HL. unfold BLs. rewrite Exists_cons, Exists_nil. intuition congruence. }
  rewrite decide_True by lia. destruct (cany ci) eqn:Hca.
  { apply (commit_ok _ _ _ _ ci HR Hci Hca). intros v Hv. by apply HL. }
  rewrite items_length, list.delete_middle.
  case_decide as Hend.
  - assert (Hk : cl !! S k = None) by (apply lookup_ge_None; lia).
    assert (HL' : forall v, BL {| bi_pattern := k; bi_offset := Z.of_nat o |} (c :: v) <-> v = []).
    { intros v. rewrite HL, (lang_after_end cl _ ci) by done. tauto. }
    destruct (decide (length (pre ++ post) = 0%nat)) as [Hnil|Hne].
    + apply nil_length_inv in Hnil.
      pose proof (RInv_sole _ _ _ _ HR Hnil) as Ht. setoid_rewrite HL' in Ht.
      rewrite Hnil. case_decide; simpl; [by split_and!|]. split_and!; [done..|].
      intros v Hv. split; [by apply Ht|done].
    + split; [|rewrite !length_app in *; simpl; lia].
      apply (RInv_delete _ _ _ _ true HR).
      * intros Hnil. by rewrite Hnil in Hne.
      * by rewrite (srch_at k _ ci).
      * intros v. rewrite HL'. tauto.
      * intros _. simpl. replace (length cl) with (S k); [by eapply no_any_one|].
        apply lookup_lt_Some in Hci. lia.
  - rewrite list_insert_middle. split; [|rewrite !length_app; simpl; lia].
    destruct (lookup_lt_is_Some_2 cl (S k)) as [c' Hc']; [lia|].
    rewrite <- Nat.add_1_r.
    eapply (RInv_replace _ _ _ [_] fc false HR); [| |split_and!; [|done|done]| |done].
    + constructor; [|done]. eapply bwf_start; [apply cl_pos|done].
    + constructor; [|done]. split; [simpl; lia|]. by eapply no_any_one.
    + rewrite (srch_at k _ ci), (srch_at (S k) _ c') by done.
      by rewrite Hs, <- (cwf_lookup cl k ci c').
    + intros v. rewrite HL, (lang_after_next cl cl_wf cl_pos _ ci c') by done.
      unfold BLs. rewrite Exists_cons, Exists_nil. intuition congruence.
Qed.

Lemma step_direct_ok pre b post fc it ci cs o :
  RInv (length pre) (pre ++ b :: post) fc ->
  cl !! bi_pattern b = Some ci -> ck ci = KDirect cs ->
  bi_offset b = Z.of_nat o -> (o < length cs)%nat ->
  str_data it cs -> pi_match_any it = cany ci ->
  exists r, step_direct items data_len c data_pos (length pre) (pre ++ b :: post) fc b it
              = Some r /\ step_ok (length pre) (pre ++ b :: post) r.
Proof.
  intros HR Hci Hck Ho Hlt (_ & Hlen & rest & Hdata) Hany.
  assert (Hs : is_search ci = false) by (unfold is_search; by rewrite Hck).
  assert (Hsz : csize ci = length cs) by (unfold csize; by rewrite Hck).
  destruct (lookup_lt_is_Some_2 cs o Hlt) as [d Hd].
  unfold step_direct. rewrite Ho, aget_nat, Hdata, lookup_app_l, Hd by done. simpl.
  destruct (decide (c <> d)) as [Hne|Heq].
  2:{ eexists. split; [done|].
      assert (d = c) by (destruct (decide (c = d)); [done|tauto]). subst d.
      apply (step_skip_ok _ _ _ _ _ ci o); try done.
      - by rewrite Hsz.
      - unfold reads. by rewrite Hck.
      - by rewrite Hsz. }
  assert (HL : forall v, ~ BL b (c :: v)).
  { intros v. destruct b as [k bo]. simpl in *. subst bo.
    rewrite (BL_step_fixed cl k ci o c v Hci Hs) by lia.
    unfold reads. rewrite Hck. intros [? _]. congruence. }
  rewrite list.delete_middle. case_decide as Hl.
  - eexists. split; [done|]. apply nil_length_inv in Hl.
    split_and!; [done..|]. intros v Hv.
    by apply (RInv_sole _ _ _ _ HR Hl), HL in Hv.
  - eexists. split; [done|]. split; [|rewrite !length_app in *; simpl; lia].
    apply (RInv_delete pre b post fc false HR).
    + intros Hnil. by rewrite Hnil in Hl.
    + destruct b as [k bo]. by rewrite (srch_at k _ ci).
    + intros v. specialize (HL v). intuition congruence.
    + done.
Qed.

Lemma RInv_search pre b post fc :
  RInv (length pre) (pre ++ b :: post) fc -> srch b = true -> pre = [].
Proof.
  intros ((_ & Hl & _) & _) Hb. destruct pre as [|p pre]; [done|]. simpl in Hl.
  destruct Hl as [[_ [? _]%Forall_cons]%Forall_app _]. congruence.
Qed.

(** A search before a percent sign is alone. *)
Lemma RInv_search_any b post fc ci :
  RInv 0 (b :: post) fc -> srch b = true ->
  cl !! bi_pattern b = Some ci -> cany ci = true -> post = [].
Proof.
  intros ((_ & Hl & s & Hs) & _) Hb Hci Hany. destruct post as [|b' post]; [done|].
  exfalso. apply Forall_cons in Hs as [Hsb [Hsb' _]%Forall_cons].
  destruct Hl as [[Hb' _]%Forall_cons _].
  pose proof (in_segment_le cl s b b' ci Hsb Hsb' Hci Hany) as Hle.
  pose proof (in_segment_search cl cl_wf s b Hsb Hb) as Hk.
  destruct Hsb' as [Hge _]. assert (bi_pattern b' = bi_pattern b) as Heq by lia.
  unfold LikeMatch.srch in *. rewrite Heq in Hb'. by rewrite Hb in Hb'.
Qed.

Lemma next_is_search k ci it' :
  cl !! k = Some ci -> items !! S k = Some it' -> pi_type it' = piSearch <-> cany ci = true.
Proof.
  intros Hci Hit. destruct (Forall2_lookup_l _ _ _ _ _ items_cl Hit) as (c' & Hc' & _ & Hty).
  rewrite (cwf_lookup cl k ci c' cl_wf Hci Hc'). unfold is_search.
  destruct (ck c'); destruct Hty as [-> _]; done.
Qed.

(** The search goes on, and may spawn a branch at the next item. *)
Lemma search_replace k o j post spawn fc ci cs (fin : bool) :
  RInv 0 ({| bi_pattern := k; bi_offset := Z.of_nat o |} :: post) fc ->
  cl !! k = Some ci -> ck ci = KSearch cs -> (o < length cs)%nat -> (j < length cs)%nat ->
  match spawn with
  | [] => True
  | [b'] => cany ci = false /\ b' = {| bi_pattern := S k; bi_offset := 0 |} /\
            is_Some (cl !! S k)
  | _ => False
  end ->
  (forall v, BL {| bi_pattern := k; bi_offset := Z.of_nat o |} (c :: v) <->
             BL {| bi_pattern := k; bi_offset := Z.of_nat j |} v \/ BLs spawn v \/
             v = [] /\ fin = true) ->
  (fin = true -> no_any k (length cl)) ->
  RInv (S (length spawn))
    ({| bi_pattern := k; bi_offset := Z.of_nat j |} :: spawn ++ post)
    (if fin then data_pos else fc).
Proof.
  intros HR Hci Hck Ho Hj Hsp HL Hfin.
  apply (RInv_replace [] _ post ({| bi_pattern := k; bi_offset := Z.of_nat j |} :: spawn)
           fc fin HR); [| | | |done].
  - constructor.
    + exists ci. split; [done|]. unfold csize. rewrite Hck. simpl. lia.
    + destruct spawn as [|b' [|]]; [done| |done]. destruct Hsp as (_ & -> & c' & Hc').
      constructor; [|done]. eapply bwf_start; [apply cl_pos|done].
  - constructor; [split; [done|intros m Hm; simpl in Hm; lia]|].
    destruct spawn as [|b' [|]]; [done| |done]. destruct Hsp as (Hany & -> & _).
    constructor; [|done]. split; [simpl; lia|]. by eapply no_any_one.
  - rewrite !(srch_at k _ ci) by done. unfold is_search. rewrite Hck.
    split_and!; [done| |done]. destruct spawn as [|b' [|]]; [done| |done].
    destruct Hsp as (Hany & -> & c' & Hc'). constructor; [|done].
    by rewrite (srch_at _ _ c'), <- (cwf_lookup cl k ci c' cl_wf).
  - intros v. rewrite HL. unfold BLs. rewrite Exists_cons. tauto.
Qed.

Lemma step_search_ok b post fc it ci cs o :
  RInv 0 (b :: post) fc ->
  cl !! bi_pattern b = Some ci -> ck ci = KSearch cs ->
  bi_offset b = Z.of_nat o -> (o < length cs)%nat ->
  str_data it cs -> table_ok cs (pi_kmpNext it) -> pi_match_any it = cany ci ->
  exists r, step_search items c data_pos 0 (b :: post) fc b it = Some r /\
    step_ok 0 (b :: post) r.
Proof.
  intros HR Hci Hck Ho Hlt (_ & Hlen & rest & Hdata) Htbl Hany.
  destruct b as [k bo]. simpl in *. subst bo.
  assert (Hx : forall i, (i < length cs)%nat -> pi_data it !! i = cs !! i).
  { intros i Hi. rewrite Hdata. by apply lookup_app_l. }
  destruct (scan_shift _ _ _ Hx Htbl (take o cs) o c (Z.to_nat (pi_length it) + 2))
    as (j & Hj & Hps & Hjl & Hmax); [by apply scan_state_take|lia|].
  pose proof (fun j' v => BL_step_search cl k ci cs o j' c v Hci Hck Hlt) as HL.
  unfold step_search. simpl. rewrite Hj. simpl. rewrite Z.sub_add.
  destruct (decide (j < length cs)%nat) as [Hmiss|Hfull].
  { rewrite decide_False by lia. eexists. split; [done|].
    destruct (scan_miss cs _ _ Hps Hmiss Hmax) as [Hst Hno].
    split; [|simpl; lia].
    apply (search_replace k o j post [] fc ci cs false); try done.
    intros v. rewrite (HL j v Hst). unfold LikeMatch.BLs. rewrite Exists_nil.
    intuition congruence. }
  assert (j = length cs) as -> by lia. apply psuf_full in Hps.
  destruct (scan_hit cs _ Htbl _ ltac:(lia) Hps) as (j2 & Hj2 & Hst).
  pose proof (fun v => HL j2 v Hst) as HL2. destruct Hst as (_ & Hj2l & _).
  rewrite decide_True by lia. destruct (items !! S k) as [next|] eqn:Hnext.
  - pose proof (next_is_search k ci next Hci Hnext) as Hns.
    destruct (Forall2_lookup_l _ _ _ _ _ items_cl Hnext) as (c' & Hc' & _).
    destruct (decide (pi_type next = piSearch)) as [Hse|Hse].
    + apply Hns in Hse. eexists. split; [done|].
      assert (post = []) as ->.
      { eapply RInv_search_any; [exact HR| |done|done].
        rewrite (srch_at k _ ci) by done. unfold is_search. by rewrite Hck. }
      pose proof (commit_ok [] _ [] fc ci HR Hci Hse) as Hok. simpl in Hok.
      rewrite decide_False in Hok; [apply Hok|].
      * intros v Hv. apply HL2. by left.
      * apply lookup_lt_Some in Hnext. lia.
    + assert (Hca : cany ci = false) by (destruct (cany ci); [by destruct Hse; apply Hns|done]).
      rewrite Hj2. simpl. rewrite drop_0.
      eexists. split; [done|]. split; [|simpl; lia].
      eapply (search_replace k o j2 post [_] fc ci cs false); try done.
      * intros v. rewrite HL2, (lang_after_next cl cl_wf cl_pos _ ci c') by done.
        unfold LikeMatch.BLs. rewrite Exists_cons, Exists_nil. intuition congruence.
  - assert (Hk : cl !! S k = None).
    { apply lookup_ge_None. apply lookup_ge_None in Hnext. by rewrite <- items_length. }
    assert (Hlast : length cl = S k).
    { apply lookup_lt_Some in Hci. apply lookup_ge_None in Hk. lia. }
    rewrite Hany. destruct (cany ci) eqn:Hca.
    + eexists. split; [done|].
      pose proof (commit_ok [] _ post fc ci HR Hci Hca) as Hok. simpl in Hok.
      rewrite decide_True in Hok; [apply Hok|rewrite items_length; lia].
      intros v Hv. apply HL2. by left.
    + rewrite Hj2. simpl. eexists. split; [done|]. split; [|simpl; lia].
      apply (search_replace k o j2 post [] fc ci cs true); try done.
      * intros v. rewrite HL2, (lang_after_end cl _ ci) by done.
        unfold LikeMatch.BLs. rewrite Exists_nil. intuition.
      * intros _. rewrite Hlast. by eapply no_any_one.
Qed.

(** ** The switch and the loop *)

Lemma step_branch_ok n bs fc :
  RInv n bs fc -> (n < length bs)%nat ->
  exists r, step_branch items data_len c data_pos n bs fc = Some r /\ step_ok n bs r.
Proof.
  intros HR Hn. destruct (lookup_lt_is_Some_2 bs n Hn) as [b Hb].
  unfold step_branch. rewrite Hb. simpl.
  pose proof Hb as Hsplit. apply list_elem_of_split_length in Hsplit as (pre & post & -> & ->).
  destruct (RInv_bwf _ _ _ _ HR) as (ci & Hci & Hoff).
  destruct (Forall2_lookup_r _ _ _ _ _ items_cl Hci) as (it & Hit & Hany & Hk).
  rewrite Hit. simpl. destruct (Z_of_nat_complete (bi_offset b)) as [o Ho]; [lia|].
  assert (Hol : (o < csize ci)%nat) by lia. unfold csize in Hol.
  destruct (ck ci) as [cs|cs|m] eqn:Hck.
  - destruct Hk as [-> Hd]. by eapply step_direct_ok.
  - destruct Hk as (-> & Hd & Htbl).
    assert (Hs : srch b = true).
    { destruct b as [k bo]. rewrite (srch_at k _ ci) by done. unfold is_search. by rewrite Hck. }
    pose proof (RInv_search _ _ _ _ HR Hs) as ->. by eapply step_search_ok.
  - destruct Hk as (-> & Hlen & Hm). eexists. split; [done|].
    apply (step_skip_ok _ _ _ _ _ ci o); try done.
    + unfold is_search. by rewrite Hck.
    + unfold csize. by rewrite Hck.
    + unfold reads. by rewrite Hck.
    + unfold csize. by rewrite Hck.
Qed.

Lemma branch_loop_ok fuel n bs fc :
  RInv n bs fc -> (length bs - n < fuel)%nat ->
  exists r, branch_loop items data_len fuel c data_pos n bs fc = Some r /\
    match r with
    | BrReturn bs mt more => ret_ok bs mt more
    | BrDone bs fc =>
        branches_wf bs /\ fc <= data_pos /\
        forall v, target v <-> BLs bs v \/ v = [] /\ fc = data_pos
    end.
Proof.
  revert n bs fc. induction fuel as [|fuel IH]; intros n bs fc HR Hfuel; [lia|]. simpl.
  case_decide as Hn.
  - destruct (step_branch_ok n bs fc HR Hn) as (r & -> & Hr). simpl.
    destruct r as [bs' mt more|n' bs' fc']; [by eexists|].
    destruct Hr as [HR' Hlt]. apply IH; [done|lia].
  - eexists. split; [done|]. destruct HR as (Hwf & Hle & Ht & Hfc & _).
    split_and!; [done|done|]. intros v. rewrite Ht, take_ge, drop_ge by lia.
    unfold BLs. rewrite Exists_nil. tauto.
Qed.
End Round.
