(* ===== verification/LikeEval.v ===== *)
(** * LIKE: chunks, and the correctness of the evaluator

    From the round invariant to [processNextChunk], and from there to whole
    values fed in any number of chunks of any sizes. *)

From S2P Require Import Prelude Kmp LikeSpec Like LikeCompile LikeMatch LikeStep.

(** ** One chunk *)

Section Chunk.
Context (items : list PatternItem) (cl : list citem).
Hypothesis items_cl : Forall2 compiled_item items cl.
Hypothesis cl_wf : cwf cl.
Context (data_len : Z).

(** What a chunk leaves, when the branches before it accept [A]. *)
Definition chunk_ok (A : list Z -> Prop) (data : list Z)
    (r : list BranchItem * MatchType * bool) : Prop :=
  let '(bs, mt, more) := r in
  branches_wf cl bs /\ (more = false -> bs = [] /\ mt <> MATCH_FIXED) /\
  match mt with
  | MATCH_ANY => bs = [] /\ forall v, A (data ++ v)
  | _ => (A data <-> mt = MATCH_FIXED) /\
         forall v, v <> [] -> A (data ++ v) <-> BLs cl bs v
  end.

Lemma chunk_ok_cons (A A' : list Z -> Prop) c data r :
  (forall v, A (c :: v) <-> A' v) -> chunk_ok A' data r -> chunk_ok A (c :: data) r.
Proof.
  intros HA. destruct r as [[bs mt] more]. intros (Hwf & Hm & Hmt).
  split_and!; [done|done|]. simpl. destruct mt.
  - destruct Hmt as [H1 H2]. split; [by rewrite HA|]. intros v Hv. rewrite HA. by apply H2.
  - destruct Hmt as [H1 H2]. split; [by rewrite HA|]. intros v Hv. rewrite HA. by apply H2.
  - destruct Hmt as [H1 H2]. split; [done|]. intros v. by apply HA.
Qed.

Lemma branches_wf_nil : branches_wf cl [].
Proof. split_and!; [done|done|]. by exists 0%nat. Qed.

Lemma BLs_not_nil bs : branches_wf cl bs -> ~ BLs cl bs [].
Proof.
  intros (Hwf & _) H. apply Exists_exists in H as (b & Hin & Hb).
  eapply Forall_forall in Hwf; [|exact Hin]. by eapply BL_nil in Hb.
Qed.

Lemma ret_ok_chunk (A target : list Z -> Prop) c data data_pos bs mt more :
  (forall v, A (c :: v) <-> target v) -> data_len = data_pos + Z.of_nat (S (length data)) ->
  ret_ok data_len data_pos target bs mt more ->
  chunk_ok A (c :: data) (bs, default MATCH_NONE mt, more).
Proof.
  intros HA Hlen [-> Hret]. split; [apply branches_wf_nil|].
  assert (Hno : forall v, BLs cl [] v <-> False) by (intros v; apply Exists_nil).
  simpl. destruct mt as [[| |]|]; simpl in *; [done| | |].
  - destruct Hret as (-> & Hp & Ht). assert (data = []) as -> by (apply nil_length_inv; lia).
    split; [done|]. split; [rewrite HA, Ht; done|]. intros v Hv. rewrite HA, Ht, Hno. done.
  - destruct Hret as (-> & Ht). split; [done|]. split; [done|]. intros v. by apply HA.
  - destruct Hret as (-> & Ht). split; [done|]. split.
    + rewrite HA. split; [|done]. intros H. exfalso. apply Ht in H as [-> Hp]. simpl in *. lia.
    + intros v Hv. rewrite HA, Hno. split; [|done]. intros H. apply Ht in H as [H _].
      by apply app_nil in H as [_ ?].
Qed.

Lemma data_loop_ok data data_pos bs fc :
  branches_wf cl bs -> fc < data_pos -> data_len = data_pos + Z.of_nat (length data) ->
  exists r, data_loop items data_len data data_pos bs fc MATCH_NONE = Some r /\
    chunk_ok (fun v => BLs cl bs v \/ v = [] /\ fc = data_pos - 1) data r.
Proof.
  revert data_pos bs fc. induction data as [|c data IH];
    intros data_pos bs fc Hwf Hfc Hlen; cbn [data_loop].
  { pose proof (BLs_not_nil bs Hwf). rewrite Z.add_0_r in Hlen. subst data_len.
    eexists. split; [done|]. split; [done|]. split; [done|]. case_decide; simpl.
    - split; [tauto|]. intros v Hv. tauto.
    - split; [|intros v Hv; tauto]. split; [tauto|done]. }
  set (target := fun v => BLs cl bs (c :: v)).
  assert (HA : forall v, (BLs cl bs (c :: v) \/ c :: v = [] /\ fc = data_pos - 1) <-> target v).
  { intros v. unfold target. intuition congruence. }
  destruct (branch_loop_ok items cl items_cl cl_wf data_len c data_pos target
    (S (length bs)) 0 bs fc) as (r & -> & Hr).
  { split_and!; [done|lia| |lia|lia]. intros v. rewrite drop_0. unfold target, BLs.
    rewrite Exists_nil. intuition lia. }
  { lia. }
  simpl. destruct r as [bs' mt more|bs' fc'].
  { eexists. split; [done|]. by eapply ret_ok_chunk. }
  destruct Hr as (Hwf' & Hfc' & Ht).
  destruct (IH (data_pos + 1) bs' fc') as (r & -> & Hr); [done|lia|simpl in Hlen; lia|].
  eexists. split; [done|]. eapply chunk_ok_cons; [|exact Hr].
  intros v. rewrite HA, Ht. by rewrite Z.add_simpl_r.
Qed.
End Chunk.

(** ** The evaluator's invariant

    [like_inv ts t ev]: [ev] was built for the tokens [ts] and has consumed [t]. *)
Definition like_inv (ts : list tok) (t : list Z) (ev : LikeEvaluator) : Prop :=
  exists cl,
    (le_branches ev <> [] -> Forall2 compiled_item (le_patternItems ev) cl /\ cwf cl) /\
    branches_wf cl (le_branches ev) /\
    match le_match_type ev with
    | MATCH_ANY => le_branches ev = [] /\ forall v, lang ts (t ++ v)
    | mt => (lang ts t <-> mt = MATCH_FIXED) /\
            forall v, v <> [] -> lang ts (t ++ v) <-> BLs cl (le_branches ev) v
    end.

Lemma like_inv_result ts t ev :
  like_inv ts t ev -> like_getResult ev = true <-> lang ts t.
Proof.
  intros (cl & _ & _ & H). unfold like_getResult. rewrite bool_decide_eq_true.
  destruct (le_match_type ev).
  - destruct H as [-> _]. done.
  - destruct H as [-> _]. done.
  - destruct H as [_ H]. specialize (H []). rewrite app_nil_r in H. done.
Qed.

Lemma like_inv_new ts ev : compiled ts ev -> like_inv ts [] ev.
Proof.
  destruct 1 as [items Hts|items Hts|items cl Hne Hc Hwf Hts].
  - exists []. split; [done|]. split; [apply branches_wf_nil|]. simpl. rewrite (Hts []).
    split; [done|]. intros v Hv. rewrite (Hts v), lang_nil. unfold BLs.
    rewrite Exists_nil. done.
  - exists []. split; [done|]. split; [apply branches_wf_nil|]. simpl. split; [done|].
    intros v. rewrite (Hts v). apply lang_any_nil.
  - exists cl. simpl.
    assert (exists c0 cl0, cl = c0 :: cl0) as (c0 & cl0 & Hcl) by (destruct cl; [done|eauto]).
    assert (Hc0 : cl !! 0%nat = Some c0) by (by rewrite Hcl).
    pose proof (cl_pos items cl Hc) as Hpos.
    assert (Hall : forall v, lang ts v <-> BL cl {| bi_pattern := 0; bi_offset := 0 |} v).
    { intros v. rewrite (Hts v), (BL_start cl Hpos 0 c0) by done.
      unfold ctokens, toks_from. by rewrite Hcl. }
    assert (Hb : bwf cl {| bi_pattern := 0; bi_offset := 0 |}) by (by eapply bwf_start).
    split_and!; [done|by apply branches_wf_single| |].
    + rewrite (Hall []). split; [|done]. intros H. by apply BL_nil in H.
    + intros v _. simpl. rewrite Hall. unfold BLs. rewrite Exists_cons, Exists_nil. tauto.
Qed.

(** One chunk; the returned flag is false only when nothing can change the
    result any more. *)
Lemma like_inv_chunk ts t ev data :
  like_inv ts t ev ->
  exists ev' more, like_processNextChunk data ev = Some (ev', more) /\
    like_inv ts (t ++ data) ev' /\
    (more = false -> le_branches ev' = [] /\ le_match_type ev' <> MATCH_FIXED).
Proof.
  intros (cl & Hcl & Hwf & Hmt). unfold like_processNextChunk.
  destruct (decide (data = [])) as [->|Hd].
  { eexists _, _. split; [done|]. rewrite app_nil_r. split; [by exists cl|].
    rewrite orb_false_iff, !bool_decide_eq_false. intros [H1 H2]. split; [|done].
    destruct (le_branches ev); [done|]. by destruct H1. }
  destruct (decide (length (le_branches ev) = 0%nat)) as [Hnil|Hne].
  { apply nil_length_inv in Hnil. eexists _, _. split; [done|]. simpl. split.
    - exists cl. simpl. split; [done|]. split; [done|]. rewrite Hnil in *.
      destruct (le_match_type ev); simpl.
      + destruct Hmt as [_ Hmt]. unfold BLs in *. split.
        * rewrite Hmt, Exists_nil by done. done.
        * intros v Hv. rewrite <- app_assoc, Hmt, !Exists_nil by (by intros [_ ?]%app_nil). done.
      + destruct Hmt as [_ Hmt]. unfold BLs in *. split.
        * rewrite Hmt, Exists_nil by done. done.
        * intros v Hv. rewrite <- app_assoc, Hmt, !Exists_nil by (by intros [_ ?]%app_nil). done.
      + split; [done|]. intros v. rewrite <- app_assoc. apply Hmt.
    - intros _. split; [done|]. by case_decide. }
  destruct Hcl as [Hits Hcwf]; [by intros H; rewrite H in Hne|].
  destruct (decide (le_match_type ev = MATCH_ANY)) as [Hany|Hany].
  { rewrite Hany in Hmt. destruct Hmt as [H _]. by rewrite H in Hne. }
  replace (if decide (le_match_type ev = MATCH_FIXED) then MATCH_NONE else le_match_type ev)
    with MATCH_NONE by (destruct (le_match_type ev); by case_decide).
  assert (Hlang : forall v, v <> [] -> lang ts (t ++ v) <-> BLs cl (le_branches ev) v).
  { destruct (le_match_type ev); [apply Hmt|apply Hmt|done]. }
  destruct (data_loop_ok (le_patternItems ev) cl Hits Hcwf (Z.of_nat (length data))
    data 0 (le_branches ev) (-1)) as ([[bs mt] more] & -> & Hwf' & Hmore & Hres);
    [done|lia|lia|].
  simpl. eexists _, _. split; [done|]. split; [|done]. exists cl. simpl.
  split; [done|]. split; [done|].
  assert (HA : forall v, lang ts (t ++ data ++ v) <->
    BLs cl (le_branches ev) (data ++ v) \/ data ++ v = [] /\ -1 = 0 - 1).
  { intros v. rewrite Hlang by (by intros [? _]%app_nil).
    split; [by left|]. intros [?|[[? _]%app_nil _]]; done. }
  assert (HA0 : lang ts (t ++ data) <->
    BLs cl (le_branches ev) data \/ data = [] /\ -1 = 0 - 1).
  { pose proof (HA []) as H. by rewrite app_nil_r in H. }
  assert (Hnext : forall v, v <> [] ->
    (BLs cl (le_branches ev) (data ++ v) \/ data ++ v = [] /\ -1 = 0 - 1 <-> BLs cl bs v) ->
    lang ts ((t ++ data) ++ v) <-> BLs cl bs v).
  { intros v _ H. by rewrite <- app_assoc, HA. }
  destruct mt; destruct Hres as [H1 H2].
  - split; [by rewrite HA0|]. intros v Hv. apply Hnext; auto.
  - split; [by rewrite HA0|]. intros v Hv. apply Hnext; auto.
  - split; [done|]. intros v. rewrite <- app_assoc. by apply HA, H2.
Qed.

Lemma like_feed_ok ts t ev chunks :
  like_inv ts t ev ->
  exists ev', like_feed chunks ev = Some ev' /\ like_inv ts (t ++ concat chunks) ev'.
Proof.
  revert t ev. induction chunks as [|d ds IH]; intros t ev Hinv; simpl.
  { exists ev. by rewrite app_nil_r. }
  destruct (like_inv_chunk ts t ev d Hinv) as (ev1 & more & -> & Hinv1 & _). simpl.
  rewrite app_assoc. by apply IH.
Qed.

(** An evaluator without branches keeps its result. *)
Lemma like_feed_stuck ev chunks :
  le_branches ev = [] -> le_match_type ev <> MATCH_FIXED ->
  like_feed chunks ev = Some ev.
Proof.
  intros Hb Hm. induction chunks as [|d ds IH]; simpl; [done|].
  unfold like_processNextChunk. rewrite Hb. simpl. destruct ev as [items bs mt]; simpl in *.
  rewrite (decide_False (P := mt = MATCH_FIXED)) by done. subst bs.
  destruct (decide (d = [])); simpl; apply IH.
Qed.

(** ** The theorems *)

(** C38. Correctness of LIKE: for every pattern without a bad escape the
    constructor succeeds, and after a value was fed in any division into chunks
    [getResult] is exactly the LIKE predicate of SQL; no read is ever out of
    bounds and every loop ends (the model would return [None]). *)
Theorem like_correct escape_char use_escape sql_match_any sql_match_one pattern ts chunks :
  like_tokens escape_char use_escape sql_match_any sql_match_one pattern = Some ts ->
  exists ev ev',
    LikeEvaluator_new escape_char use_escape sql_match_any sql_match_one pattern
      = Some (inr ev) /\
    like_feed chunks ev = Some ev' /\
    like_getResult ev' = like_match ts (concat chunks).
Proof.
  intros Hts. pose proof (LikeEvaluator_new_spec escape_char use_escape
    sql_match_any sql_match_one pattern) as H.
  rewrite Hts in H. destruct H as (ev & Hnew & Hc).
  destruct (like_feed_ok ts [] ev chunks (like_inv_new ts ev Hc)) as (ev' & Hf & Hinv).
  exists ev, ev'. split_and!; [done|done|].
  apply like_inv_result in Hinv. unfold lang in Hinv. simpl in Hinv.
  destruct (like_getResult ev'), (like_match ts (concat chunks)); intuition.
Qed.

(** The constructor raises [isc_escape_invalid] for exactly the patterns
    in which an escape character is not followed by an escapable one. *)
Theorem like_escape_error escape_char use_escape sql_match_any sql_match_one pattern :
  LikeEvaluator_new escape_char use_escape sql_match_any sql_match_one pattern
    = Some (inl isc_escape_invalid) <->
  like_tokens escape_char use_escape sql_match_any sql_match_one pattern = None.
Proof.
  pose proof (LikeEvaluator_new_spec escape_char use_escape
    sql_match_any sql_match_one pattern) as H.
  destruct (like_tokens escape_char use_escape sql_match_any sql_match_one pattern) as [ts|]; [|done].
  destruct H as (ev & -> & _). done.
Qed.

(** When [processNextChunk] returns false the caller may stop: no further
    chunk changes the result. *)
Theorem like_more_false escape_char use_escape sql_match_any sql_match_one pattern
    ev chunks ev1 data ev2 rest :
  LikeEvaluator_new escape_char use_escape sql_match_any sql_match_one pattern
    = Some (inr ev) -> like_feed chunks ev = Some ev1 ->
  like_processNextChunk data ev1 = Some (ev2, false) ->
  exists ev3, like_feed rest ev2 = Some ev3 /\ like_getResult ev3 = like_getResult ev2.
Proof.
  intros Hnew Hf Hp. pose proof (LikeEvaluator_new_spec escape_char use_escape
    sql_match_any sql_match_one pattern) as H.
  destruct (like_tokens escape_char use_escape sql_match_any sql_match_one pattern) as [ts|]; [|congruence].
  destruct H as (ev0 & Hnew' & Hc). assert (ev0 = ev) as -> by congruence.
  destruct (like_feed_ok ts [] ev chunks (like_inv_new ts ev Hc)) as (ev1' & Hf' & Hinv).
  assert (ev1' = ev1) as -> by congruence.
  destruct (like_inv_chunk ts _ ev1 data Hinv) as (ev2' & more & Hp' & _ & Hmore).
  assert (ev2' = ev2 /\ more = false) as [-> ->] by (split; congruence).
  exists ev2. split; [|done]. by apply like_feed_stuck; apply Hmore.
Qed.

(** [LIKE 'a\%%_b' ESCAPE '\'] on ["a%cc" "xb"]. *)
Lemma like_correct_witness :
  like_tokens 92 true 37 95 [97; 92; 37; 37; 95; 98] =
    Some [TChar 97; TChar 37; TAny; TOne; TChar 98] /\
  exists ev ev', LikeEvaluator_new 92 true 37 95 [97; 92; 37; 37; 95; 98] = Some (inr ev) /\
    like_feed [[97; 37; 99; 99]; [120; 98]] ev = Some ev' /\
    like_getResult ev' = like_match [TChar 97; TChar 37; TAny; TOne; TChar 98]
                           (concat [[97; 37; 99; 99]; [120; 98]]).
Proof.
  split; [vm_compute; reflexivity|].
  apply (like_correct 92 true 37 95 [97; 92; 37; 37; 95; 98]). vm_compute. reflexivity.
Defined.

(** [LIKE 'a%'] after ["ab"]: the evaluator asks to stop. *)
Lemma like_more_false_witness :
  exists ev1 ev2 ev3,
    like_processNextChunk [97; 98] ev1 = Some (ev2, false) /\
    like_feed [[99]] ev2 = Some ev3 /\ like_getResult ev3 = like_getResult ev2.
Proof.
  destruct (LikeEvaluator_new 0 false 37 95 [97; 37]) as [[|ev]|] eqn:Hnew;
    [discriminate|vm_compute in Hnew|discriminate].
  destruct (like_processNextChunk [97; 98] ev) as [[ev2 [|]]|] eqn:Hp;
    [injection Hnew as <-; vm_compute in Hp; discriminate| |
     injection Hnew as <-; vm_compute in Hp; discriminate].
  exists ev, ev2.
  destruct (like_more_false 0 false 37 95 [97; 37] ev [] ev [97; 98] ev2 [[99]])
    as (ev3 & Hf & Hr); [exact Hnew|reflexivity|exact Hp|].
  exists ev3. split; [exact Hp|]. split; [exact Hf|exact Hr].
Defined.
