(* ===== verification/Memory.v ===== *)
(** * Blocks of bytes

    [memcpy], [memmove], [memset] and [memcmp] on a block, a list of bytes. The
    containers keep elements of [sz] bytes each; an element is its byte string.
    An access outside the block is [None]. *)

From S2P Require Import Prelude.

(** ** The library functions *)

Definition mem_read (m : list Z) (off n : Z) : option (list Z) :=
  if decide (0 <= off /\ 0 <= n /\ off + n <= Z.of_nat (length m))
  then Some (take (Z.to_nat n) (drop (Z.to_nat off) m)) else None.

Definition mem_write (m : list Z) (off : Z) (bs : list Z) : option (list Z) :=
  if decide (0 <= off /\ off + Z.of_nat (length bs) <= Z.of_nat (length m))
  then Some (take (Z.to_nat off) m ++ bs ++ drop (Z.to_nat off + length bs) m) else None.

(** [memmove(m + dst, m + src, n)] *)
Definition memmove (m : list Z) (dst src n : Z) : option (list Z) :=
  bs ← mem_read m src n; mem_write m dst bs.

(** [memcpy(m + dst, from, n)], [from] being another block. *)
Definition memcpy (m : list Z) (dst : Z) (from : list Z) (n : Z) : option (list Z) :=
  bs ← mem_read from 0 n; mem_write m dst bs.

Definition memset (m : list Z) (dst c n : Z) : option (list Z) :=
  if decide (0 <= n) then mem_write m dst (replicate (Z.to_nat n) c) else None.

(** [memcmp(a, b, n) == 0] *)
Definition memcmp_eq (a b : list Z) (n : Z) : option bool :=
  xs ← mem_read a 0 n; ys ← mem_read b 0 n; Some (bool_decide (xs = ys)).

(** ** Reading and writing by position *)

Lemma mem_read_mid a b c off n :
  off = Z.of_nat (length a) -> n = Z.of_nat (length b) ->
  mem_read (a ++ b ++ c) off n = Some b.
Proof.
  intros -> ->. unfold mem_read. rewrite decide_True by (rewrite !length_app; lia).
  rewrite !Nat2Z.id, drop_app_length. by rewrite take_app_length.
Qed.

Lemma mem_write_mid a b x off :
  off = Z.of_nat (length a) -> (length x <= length b)%nat ->
  mem_write (a ++ b) off x = Some (a ++ x ++ drop (length x) b).
Proof.
  intros -> Hx. unfold mem_write. rewrite decide_True by (rewrite length_app; lia).
  rewrite Nat2Z.id, take_app_length. by rewrite drop_app_add.
Qed.

Lemma memmove_mid a b c dst src n d e :
  a ++ b ++ c = d ++ e -> src = Z.of_nat (length a) -> n = Z.of_nat (length b) ->
  dst = Z.of_nat (length d) -> (length b <= length e)%nat ->
  memmove (a ++ b ++ c) dst src n = Some (d ++ b ++ drop (length b) e).
Proof.
  intros Heq Hs Hn Hd Hl. unfold memmove. rewrite (mem_read_mid a b c) by done. simpl.
  rewrite Heq. by apply mem_write_mid.
Qed.

Lemma memcpy_mid a b from dst n rest x :
  from = x ++ rest -> n = Z.of_nat (length x) -> dst = Z.of_nat (length a) ->
  (length x <= length b)%nat ->
  memcpy (a ++ b) dst from n = Some (a ++ x ++ drop (length x) b).
Proof.
  intros -> Hn Hd Hl. unfold memcpy. rewrite (mem_read_mid [] x rest) by done. simpl.
  by apply mem_write_mid.
Qed.

(** [nlen] proves equations and bounds between byte counts. *)
Ltac nlen := autorewrite with fblen in *; first [lia | nia].

(** ** Cells of [sz] bytes *)

Section Cells.
Context (sz : nat).

Definition sized (l : list (list Z)) : Prop := Forall (fun x => length x = sz) l.

Lemma sized_app l k : sized (l ++ k) <-> sized l /\ sized k.
Proof. apply Forall_app. Qed.

Lemma sized_cons x l : sized (x :: l) <-> length x = sz /\ sized l.
Proof. unfold sized. by rewrite Forall_cons. Qed.

Lemma sized_one x : length x = sz -> sized [x].
Proof. intros Hx. apply sized_cons. split; [done|constructor]. Qed.

Lemma sized_take n l : sized l -> sized (take n l).
Proof. apply Forall_take. Qed.

Lemma sized_drop n l : sized l -> sized (drop n l).
Proof. apply Forall_drop. Qed.

Lemma sized_lookup l i x : sized l -> l !! i = Some x -> length x = sz.
Proof. intros Hl Hi. exact (Forall_lookup_1 _ _ _ _ Hl Hi). Qed.

Lemma concat_length l : sized l -> length (concat l) = (sz * length l)%nat.
Proof.
  induction 1 as [|x l Hx _ IH]; simpl; [lia|]. rewrite length_app, Hx, IH. lia.
Qed.

Lemma concat_inj l k : (0 < sz)%nat -> sized l -> sized k -> concat l = concat k -> l = k.
Proof.
  intros Hsz Hl. revert k. induction Hl as [|x l Hx _ IH]; intros k Hk Heq;
    destruct Hk as [|y k Hy Hk]; simpl in *; [done| | |].
  - apply (f_equal length) in Heq. rewrite length_app in Heq. simpl in Heq. lia.
  - apply (f_equal length) in Heq. rewrite length_app in Heq. simpl in Heq. lia.
  - apply app_inj_1 in Heq as [-> Heq]; [|lia]. by rewrite (IH k).
Qed.

(** [data[i]] *)
Definition cell_at (m : list Z) (i : Z) : option (list Z) :=
  mem_read m (Z.of_nat sz * i) (Z.of_nat sz).

Lemma cell_at_concat l rest i x :
  sized l -> l !! i = Some x -> cell_at (concat l ++ rest) (Z.of_nat i) = Some x.
Proof.
  intros Hl Hi. unfold cell_at.
  pose proof (take_drop_middle l i x Hi) as Heq. rewrite <- Heq, concat_app. simpl.
  pose proof (sized_lookup l i x Hl Hi). rewrite <- !app_assoc.
  apply mem_read_mid; [|lia]. rewrite concat_length by by apply sized_take.
  rewrite length_take_le; [lia|]. apply lookup_lt_Some in Hi. lia.
Qed.

(** *** Insertion, removal and appending of whole cells *)

Lemma mem_write_after m a b x y off :
  m = a ++ b -> off = Z.of_nat (length a) -> (length x + length y <= length b)%nat ->
  (mem_write m (off + Z.of_nat (length x)) y ≫= fun m' => mem_write m' off x) =
  Some (a ++ x ++ y ++ drop (length x + length y) b).
Proof.
  intros -> -> Hl.
  replace (a ++ b) with ((a ++ take (length x) b) ++ drop (length x) b)
    by (rewrite <- app_assoc; by rewrite take_drop).
  rewrite mem_write_mid; [|rewrite length_app, length_take; lia|rewrite length_drop; lia].
  simpl. rewrite <- app_assoc, mem_write_mid; [|done|].
  2:{ rewrite length_app, length_take. lia. }
  rewrite drop_app_length' by (rewrite length_take; lia). by rewrite drop_drop.
Qed.

Lemma insert_cells l k spare i dst src n :
  sized l -> sized k -> (i <= length l)%nat -> (sz * length k <= length spare)%nat ->
  src = Z.of_nat (sz * i) -> dst = Z.of_nat (sz * (i + length k)) ->
  n = Z.of_nat (sz * (length l - i)) ->
  (memmove (concat l ++ spare) dst src n ≫= fun m => mem_write m src (concat k)) =
  Some (concat (take i l ++ k ++ drop i l) ++ drop (sz * length k) spare).
Proof.
  intros Hl Hk Hi Hsp -> -> ->.
  pose proof (concat_length (take i l) (sized_take i l Hl)) as Ht.
  pose proof (concat_length (drop i l) (sized_drop i l Hl)) as Hd.
  pose proof (concat_length k Hk) as Hkl.
  rewrite length_take_le in Ht by done. rewrite length_drop in Hd.
  assert (Heq : concat l ++ spare = concat (take i l) ++ concat (drop i l) ++ spare).
  { rewrite app_assoc, <- concat_app. by rewrite take_drop. }
  unfold memmove. rewrite Heq, mem_read_mid by lia. simpl.
  replace (Z.of_nat (sz * (i + length k))) with
    (Z.of_nat (sz * i) + Z.of_nat (length (concat k))) by lia.
  rewrite (mem_write_after _ (concat (take i l)) (concat (drop i l) ++ spare)).
  - rewrite !concat_app, <- !app_assoc. do 3 f_equal. f_equal.
    rewrite (Nat.add_comm (length (concat k))), <- drop_drop, drop_app_length. by rewrite Hkl.
  - done.
  - lia.
  - rewrite length_app. lia.
Qed.

(** The same with the rest of the operation. *)
Lemma insert_cells_bind {B} (f : list Z -> option B) l k spare i dst src n x :
  sized l -> sized k -> (i <= length l)%nat -> (sz * length k <= length spare)%nat ->
  src = Z.of_nat (sz * i) -> dst = Z.of_nat (sz * (i + length k)) ->
  n = Z.of_nat (sz * (length l - i)) -> x = concat k ->
  (memmove (concat l ++ spare) dst src n ≫= fun m => mem_write m src x ≫= f) =
  f (concat (take i l ++ k ++ drop i l) ++ drop (sz * length k) spare).
Proof.
  intros Hl Hk Hi Hsp Hsrc Hdst Hn ->.
  pose proof (insert_cells l k spare i dst src n Hl Hk Hi Hsp Hsrc Hdst Hn) as H.
  destruct (memmove _ _ _ _); simpl in *; [by rewrite H|done].
Qed.

Lemma remove_cells l spare i n dst src cnt :
  sized l -> (i + n <= length l)%nat ->
  dst = Z.of_nat (sz * i) -> src = Z.of_nat (sz * (i + n)) ->
  cnt = Z.of_nat (sz * (length l - (i + n))) ->
  exists spare', memmove (concat l ++ spare) dst src cnt =
    Some (concat (take i l ++ drop (i + n) l) ++ spare') /\
    length spare' = (length spare + sz * n)%nat.
Proof.
  intros Hl Hi -> -> ->.
  pose proof (concat_length (take i l) (sized_take i l Hl)) as Ht.
  pose proof (concat_length (take (i + n) l) (sized_take _ l Hl)) as Ht2.
  pose proof (concat_length (drop i l) (sized_drop _ l Hl)) as Hd1.
  pose proof (concat_length (drop (i + n) l) (sized_drop _ l Hl)) as Hd.
  rewrite length_take_le in Ht, Ht2 by lia. rewrite length_drop in Hd, Hd1.
  exists (drop (length (concat (drop (i + n) l))) (concat (drop i l) ++ spare)).
  split; [|rewrite length_drop, length_app; nia].
  assert (Heq : concat l ++ spare =
    concat (take (i + n) l) ++ concat (drop (i + n) l) ++ spare).
  { rewrite app_assoc, <- concat_app. by rewrite take_drop. }
  assert (Heq' : concat l ++ spare = concat (take i l) ++ (concat (drop i l) ++ spare)).
  { rewrite app_assoc, <- concat_app. by rewrite take_drop. }
  rewrite Heq. rewrite (memmove_mid _ _ _ _ _ _ (concat (take i l))
    (concat (drop i l) ++ spare)); [|congruence|lia|lia|lia|].
  - by rewrite concat_app, <- app_assoc.
  - rewrite length_app. nia.
Qed.

Lemma append_cells l k spare from rest dst n :
  sized l -> sized k -> (sz * length k <= length spare)%nat ->
  from = concat k ++ rest -> dst = Z.of_nat (sz * length l) ->
  n = Z.of_nat (sz * length k) ->
  memcpy (concat l ++ spare) dst from n =
  Some (concat (l ++ k) ++ drop (sz * length k) spare).
Proof.
  intros Hl Hk Hsp -> -> ->. pose proof (concat_length k Hk) as Hkl.
  rewrite (memcpy_mid _ _ _ _ _ rest (concat k)); [|done|lia| |lia].
  - by rewrite concat_app, <- app_assoc, Hkl.
  - by rewrite concat_length.
Qed.

(** [data[i] = x] *)
Lemma set_cell l spare i x dst :
  sized l -> length x = sz -> (i <= length l)%nat ->
  (i = length l -> (sz <= length spare)%nat) -> dst = Z.of_nat (sz * i) ->
  exists spare', mem_write (concat l ++ spare) dst x =
    Some (concat (take i l ++ x :: drop (S i) l) ++ spare') /\
    length spare' = (length spare - (if decide (i = length l) then sz else 0))%nat.
Proof.
  intros Hl Hx Hi Hsp ->.
  pose proof (concat_length (take i l) (sized_take i l Hl)) as Ht.
  rewrite length_take_le in Ht by done.
  assert (Heq : concat l ++ spare = concat (take i l) ++ (concat (drop i l) ++ spare)).
  { rewrite app_assoc, <- concat_app. by rewrite take_drop. }
  exists (drop (if decide (i = length l) then sz else 0%nat) spare).
  rewrite Heq, mem_write_mid; [|lia|].
  - split; [|by rewrite length_drop]. rewrite concat_app. simpl. rewrite <- !app_assoc.
    do 3 f_equal. destruct (decide (i = length l)) as [->|Hne].
    + rewrite (drop_ge l (length l)), (drop_ge l (S (length l))) by lia. simpl. by rewrite Hx.
    + destruct (lookup_lt_is_Some_2 l i) as [y Hy]; [lia|].
      rewrite (drop_S l y i Hy). simpl. rewrite <- app_assoc.
      rewrite drop_app_length' by (rewrite (sized_lookup l i y Hl Hy); done). by rewrite drop_0.
  - rewrite length_app, (concat_length (drop i l)), length_drop by by apply sized_drop.
    destruct (decide (i = length l)); [specialize (Hsp ltac:(done)); nia|].
    assert (1 <= length l - i)%nat by lia. nia.
Qed.
End Cells.
