(* ===== verification/Search.v ===== *)
(** * Binary search in sorted arrays

    The loop shared by [SortedVector::find] ([common/classes/vector.h]) and
    [SortedArray::find] ([common/classes/array.h]), over any way of reading an
    element, and the theory of sortedness for a comparator that is only a strict
    weak order. *)

From S2P Require Import Prelude.

(** ** The code *)

Section Loop.
Context {Value Key : Type} (greaterThan : Key -> Key -> bool) (KeyOfValue : Value -> Key).

(** [while (highBound > lowBound) ...] for 32-bit bounds; [read i] is
    [data[i]]. *)
Fixpoint find_loop (fuel : nat) (read : Z -> option Value) (item : Key)
    (highBound lowBound : Z) : option (Z * Z) :=
  match fuel with
  | O => None
  | S fuel =>
      if decide (highBound > lowBound) then
        let temp := Z.shiftr (wrapU 32 (highBound + lowBound)) 1 in
        v ← read temp;
        if greaterThan item (KeyOfValue v)
        then find_loop fuel read item highBound (wrapU 32 (temp + 1))
        else find_loop fuel read item temp lowBound
      else Some (highBound, lowBound)
  end.

(** The whole [find]: the position and whether the item is there. *)
Definition find_sorted (read : Z -> option Value) (count : Z) (item : Key)
    : option (Z * bool) :=
  '(highBound, lowBound) ← find_loop (S (Z.to_nat count)) read item count 0;
  if decide (highBound <> count) then
    v ← read lowBound;
    Some (lowBound, negb (greaterThan (KeyOfValue v) item))
  else Some (lowBound, false).
End Loop.

(** ** Comparators

    What the containers require of [Cmp::greaterThan]. *)

Class StrictWeakOrder {Key : Type} (gt : Key -> Key -> bool) : Prop := {
  swo_irrefl k : gt k k = false;
  swo_trans a b c : gt a b = true -> gt b c = true -> gt a c = true;
  swo_negtrans a b c : gt a b = false -> gt b c = false -> gt a c = false
}.

#[export] Instance Z_gtb_swo : StrictWeakOrder Z.gtb.
Proof.
  split; intros *.
  - rewrite Z.gtb_ltb. apply Z.ltb_irrefl.
  - rewrite !Z.gtb_ltb, !Z.ltb_lt. lia.
  - rewrite !Z.gtb_ltb, !Z.ltb_ge. lia.
Qed.

Section Sorted.
Context {Value Key : Type} (gt : Key -> Key -> bool) (key : Value -> Key).
Context `{!StrictWeakOrder gt}.

(** No element is greater than a later one. *)
Definition sorted (l : list Value) : Prop :=
  forall i j x y, (i < j)%nat -> l !! i = Some x -> l !! j = Some y ->
    gt (key x) (key y) = false.

(** The position [find] looks for. *)
Definition lower_bound (l : list Value) (item : Key) (pos : nat) : Prop :=
  (pos <= length l)%nat /\
  (forall i x, (i < pos)%nat -> l !! i = Some x -> gt item (key x) = true) /\
  (forall i x, (pos <= i)%nat -> l !! i = Some x -> gt item (key x) = false).

(** An element equivalent to the item. *)
Definition matches (item : Key) (x : Value) : Prop :=
  gt item (key x) = false /\ gt (key x) item = false.

Lemma swo_asym a b : gt a b = true -> gt b a = false.
Proof.
  intros H. destruct (gt b a) eqn:Hb; [|done].
  pose proof (swo_trans _ _ _ H Hb) as Haa. by rewrite swo_irrefl in Haa.
Qed.

Lemma find_loop_spec read l item fuel lo hi :
  sorted l ->
  (forall i x, l !! i = Some x -> read (Z.of_nat i) = Some x) ->
  (Z.of_nat (length l) < 2 ^ 31) ->
  (lo <= hi <= length l)%nat -> (hi - lo < fuel)%nat ->
  (forall i x, (i < lo)%nat -> l !! i = Some x -> gt item (key x) = true) ->
  (forall i x, (hi <= i)%nat -> l !! i = Some x -> gt item (key x) = false) ->
  exists pos, find_loop gt key fuel read item (Z.of_nat hi) (Z.of_nat lo)
                = Some (Z.of_nat pos, Z.of_nat pos) /\ lower_bound l item pos.
Proof.
  intros Hs Hread Hlen. revert lo hi. induction fuel as [|fuel IH];
    intros lo hi Hb Hf Hlo Hhi; [lia|]. simpl.
  destruct (decide (Z.of_nat hi > Z.of_nat lo)) as [Hgt|Hle].
  2:{ exists lo. assert (hi = lo) as -> by lia. split; [done|]. split_and!; [lia|done|done]. }
  rewrite (wrapU_id 32 (Z.of_nat hi + Z.of_nat lo)) by lia32.
  rewrite Z.shiftr_div_pow2 by lia. change (2 ^ 1) with 2.
  set (mid := ((hi + lo) / 2)%nat).
  replace ((Z.of_nat hi + Z.of_nat lo) / 2) with (Z.of_nat mid)
    by (unfold mid; rewrite Nat2Z.inj_div, Nat2Z.inj_add; done).
  assert (Hmid : (lo <= mid < hi)%nat).
  { unfold mid. split; [apply Nat.div_le_lower_bound|apply Nat.Div0.div_lt_upper_bound]; lia. }
  destruct (lookup_lt_is_Some_2 l mid) as [x Hx]; [lia|].
  rewrite (Hread _ _ Hx). simpl.
  destruct (gt item (key x)) eqn:Hc.
  - rewrite wrapU_id by lia32.
    replace (Z.of_nat mid + 1) with (Z.of_nat (S mid)) by lia.
    apply IH; [lia|lia| |done]. intros i y Hi Hy.
    destruct (decide (i = mid)) as [->|Hne]; [congruence|].
    destruct (gt item (key y)) eqn:Hcy; [done|].
    pose proof (Hs i mid y x ltac:(lia) Hy Hx) as Hyx.
    by rewrite (swo_negtrans _ _ _ Hcy Hyx) in Hc.
  - apply IH; [lia|lia|done|]. intros i y Hi Hy.
    destruct (decide (i = mid)) as [->|Hne]; [congruence|].
    eapply swo_negtrans; [exact Hc|]. by apply (Hs mid i); [lia|..].
Qed.

(** [find] on a sorted array: the lower bound, and whether the item occurs. *)
Lemma find_sorted_spec read l item :
  sorted l ->
  (forall i x, l !! i = Some x -> read (Z.of_nat i) = Some x) ->
  (Z.of_nat (length l) < 2 ^ 31) ->
  exists pos found,
    find_sorted gt key read (Z.of_nat (length l)) item = Some (Z.of_nat pos, found) /\
    lower_bound l item pos /\ (found = true <-> Exists (matches item) l).
Proof.
  intros Hs Hread Hlen. unfold find_sorted.
  destruct (find_loop_spec read l item (S (Z.to_nat (Z.of_nat (length l)))) 0 (length l))
    as (pos & Hfind & Hlb); [done|done|done|lia|lia|intros; lia| |].
  { intros i x Hi Hx. apply lookup_lt_Some in Hx. lia. }
  change (Z.of_nat 0) with 0 in Hfind. rewrite Hfind. simpl.
  pose proof Hlb as (Hpos & Hbelow & Habove).
  destruct (decide (Z.of_nat pos <> Z.of_nat (length l))) as [Hne|Heq].
  - destruct (lookup_lt_is_Some_2 l pos) as [x Hx]; [lia|].
    rewrite (Hread _ _ Hx). simpl. eexists _, _. split_and!; [done|done|].
    rewrite negb_true_iff. split.
    + intros Hgt. apply Exists_exists. exists x.
      split; [by eapply list_elem_of_lookup_2|]. split; [by apply (Habove pos x)|done].
    + intros (y & Hy & Hm1 & Hm2)%Exists_exists.
      apply list_elem_of_lookup_1 in Hy as [j Hj].
      destruct (decide (j < pos)%nat) as [Hjp|Hjp].
      { by rewrite (Hbelow j y) in Hm1. }
      destruct (decide (j = pos)) as [->|Hne2]; [by simplify_eq|].
      eapply swo_negtrans; [|exact Hm2]. by apply (Hs pos j); [lia|..].
  - eexists _, _. split_and!; [done|done|]. split; [done|].
    intros (y & Hy & Hm1 & Hm2)%Exists_exists. apply list_elem_of_lookup_1 in Hy as [j Hj].
    pose proof (lookup_lt_Some _ _ _ Hj). rewrite (Hbelow j y) in Hm1; [done|lia|done].
Qed.

(** Inserting at the lower bound keeps the order. *)
Lemma sorted_insert l pos x :
  sorted l -> lower_bound l (key x) pos -> sorted (take pos l ++ x :: drop pos l).
Proof.
  intros Hs (Hpos & Hbelow & Habove) i j a b Hij Ha Hb.
  assert (Htl : length (take pos l) = pos) by (rewrite length_take; lia).
  assert (Hat : forall n y, (take pos l ++ x :: drop pos l) !! n = Some y ->
    (n < pos)%nat /\ l !! n = Some y \/ n = pos /\ y = x \/
    (pos < n)%nat /\ l !! (n - 1)%nat = Some y).
  { intros n y Hn. destruct (decide (n < pos)%nat) as [Hlt|Hge].
    - rewrite lookup_app_l, lookup_take_lt in Hn by lia. auto.
    - rewrite lookup_app_r, Htl in Hn by lia. destruct (n - pos)%nat as [|m] eqn:Hm.
      + simpl in Hn. simplify_eq. right. left. split; [lia|done].
      + simpl in Hn. rewrite lookup_drop in Hn. right. right. split; [lia|].
        by replace (n - 1)%nat with (pos + m)%nat by lia. }
  destruct (Hat i a Ha) as [[Hi Hia]|[[-> ->]|[Hi Hia]]];
    destruct (Hat j b Hb) as [[Hj Hjb]|[[-> ->]|[Hj Hjb]]]; try lia.
  - by eapply (Hs i j).
  - by apply swo_asym, (Hbelow i).
  - by apply (Hs i (j - 1)%nat); [lia|..].
  - by apply (Habove (j - 1)%nat); [lia|].
  - by apply (Hs (i - 1)%nat (j - 1)%nat); [lia|..].
Qed.

Lemma sorted_nil : sorted [].
Proof. by intros i j x y _ Hx. Qed.
End Sorted.

(** The overflow of [highBound + lowBound] in an array of more than 2^31
    elements sends the probe far below [lowBound]. *)
Lemma find_loop_overflow :
  Z.shiftr (wrapU 32 (2 ^ 31 + 2 ^ 31)) 1 = 0.
Proof. reflexivity. Qed.
