(* ===== verification/Vector.v ===== *)
(** * [Vector] and [SortedVector]: [src/src/common/classes/vector.h]

    A vector is a counter and a block of [Capacity] cells of [sz] bytes; its
    operations are the code's [memmove] and [memcpy] calls. The abstract vector
    is the list of the cells below the counter. *)

From S2P Require Import Prelude Memory Search.

(** ** Vector *)

Record Vector := { v_count : Z; v_data : list Z }.

(** The result of an operation: nothing, a number, or an element. *)
Inductive OpResult := RUnit | RNum (n : Z) | RElem (x : list Z).

Section VectorOps.
Context (sz : nat).

Local Abbreviation SZ := (Z.of_nat sz).

(** [Vector()]; [data] is the uninitialised storage. *)
Definition vector_new (data : list Z) : Vector := {| v_count := 0; v_data := data |}.

Definition vector_at (index : Z) (v : Vector) : option (list Z) := cell_at sz (v_data v) index.

Definition vector_hasData (v : Vector) : bool := bool_decide (v_count v <> 0).

Definition vector_clear (v : Vector) : Vector := {| v_count := 0; v_data := v_data v |}.

Definition vector_insert (index : Z) (item : list Z) (v : Vector) : option Vector :=
  data ← memmove (v_data v) (SZ * (index + 1)) (SZ * index)
           (SZ * wrapU 32 (v_count v - index));
  data ← mem_write data (SZ * index) item;
  Some {| v_count := wrapU 32 (v_count v + 1); v_data := data |}.

Definition vector_add (item : list Z) (v : Vector) : option (Vector * Z) :=
  data ← mem_write (v_data v) (SZ * v_count v) item;
  let count := wrapU 32 (v_count v + 1) in
  Some ({| v_count := count; v_data := data |}, count).

Definition vector_remove (index : Z) (v : Vector) : option Vector :=
  let count := wrapU 32 (v_count v - 1) in
  data ← memmove (v_data v) (SZ * index) (SZ * (index + 1)) (SZ * wrapU 32 (count - index));
  Some {| v_count := count; v_data := data |}.

Definition vector_removeCount (index n : Z) (v : Vector) : option Vector :=
  data ← memmove (v_data v) (SZ * index) (SZ * (index + n))
           (SZ * wrapU 32 (v_count v - index - n));
  Some {| v_count := wrapU 32 (v_count v - n); v_data := data |}.

Definition vector_shrink (newCount : Z) (v : Vector) : Vector :=
  {| v_count := newCount; v_data := v_data v |}.

Definition vector_join (L v : Vector) : option Vector :=
  data ← memcpy (v_data v) (SZ * v_count v) (v_data L) (SZ * v_count L);
  Some {| v_count := wrapU 32 (v_count v + v_count L); v_data := data |}.

Definition vector_getBuffer (capacityL : Z) (v : Vector) : Vector :=
  {| v_count := capacityL; v_data := v_data v |}.

Definition vector_push (item : list Z) (v : Vector) : option Vector :=
  '(v, _) ← vector_add item v; Some v.

Definition vector_pop (v : Vector) : option (Vector * list Z) :=
  let count := wrapU 32 (v_count v - 1) in
  x ← cell_at sz (v_data v) count;
  Some ({| v_count := count; v_data := v_data v |}, x).

(** [push(const T* items, itemsCount)]. *)
Definition vector_push_items (items : list Z) (itemsCount : Z) (v : Vector) : option Vector :=
  data ← memcpy (v_data v) (SZ * v_count v) items (SZ * itemsCount);
  Some {| v_count := wrapU 32 (v_count v + itemsCount); v_data := data |}.

Definition vector_append (items : list Z) (itemsCount : Z) (v : Vector) : option Vector :=
  vector_push_items items itemsCount v.

(** [for (i = 0; i < count; i++) if (data[i] == item) ...], for an element type
    compared bytewise; [n] elements are left from [i] on. *)
Fixpoint linear_find (n : nat) (data : list Z) (item : list Z) (i : Z) : option (option Z) :=
  match n with
  | O => Some None
  | S n =>
      x ← cell_at sz data i;
      if decide (x = item) then Some (Some i) else linear_find n data item (i + 1)
  end.

Definition vector_find (item : list Z) (v : Vector) : option (option Z) :=
  linear_find (Z.to_nat (v_count v)) (v_data v) item 0.
End VectorOps.

(** *** The abstract vector *)

Inductive VecOp :=
  | VInsert (index : nat) (item : list Z)
  | VAdd (item : list Z)
  | VRemove (index : nat)
  | VRemoveCount (index n : nat)
  | VShrink (newCount : nat)
  | VJoin (items : list (list Z))
  | VPush (item : list Z)
  | VPop
  | VPushItems (items : list (list Z))
  | VClear
  | VAt (index : nat).

Section Refinement.
Context (sz : nat) (Capacity : nat).
Hypothesis sz_pos : (0 < sz)%nat.
Hypothesis Capacity_small : Z.of_nat Capacity < 2 ^ 32.

Local Abbreviation SZ := (Z.of_nat sz).

Definition cell_ok (x : list Z) : bool := bool_decide (length x = sz).

(** What an operation does to the list of elements; [None] where the code's
    assertions forbid the call. *)
Definition vec_spec (op : VecOp) (l : list (list Z)) : option (list (list Z) * OpResult) :=
  match op with
  | VInsert i x =>
      guard (i <= length l)%nat;; guard (length l < Capacity)%nat;; guard (cell_ok x);;
      Some (take i l ++ x :: drop i l, RUnit)
  | VAdd x =>
      guard (length l < Capacity)%nat;; guard (cell_ok x);;
      Some (l ++ [x], RNum (Z.of_nat (S (length l))))
  | VRemove i => guard (i < length l)%nat;; Some (take i l ++ drop (S i) l, RUnit)
  | VRemoveCount i n =>
      guard (i + n <= length l)%nat;; Some (take i l ++ drop (i + n) l, RUnit)
  | VShrink n => guard (n <= length l)%nat;; Some (take n l, RUnit)
  | VJoin k | VPushItems k =>
      guard (length l + length k <= Capacity)%nat;; guard (forallb cell_ok k);;
      Some (l ++ k, RUnit)
  | VPush x =>
      guard (length l < Capacity)%nat;; guard (cell_ok x);; Some (l ++ [x], RUnit)
  | VPop => x ← last l; Some (take (length l - 1) l, RElem x)
  | VClear => Some ([], RUnit)
  | VAt i => x ← l !! i; Some (l, RElem x)
  end.

(** The code. The source of a [join] is a vector, that of a [push] a buffer. *)
Definition vec_run (op : VecOp) (v : Vector) : option (Vector * OpResult) :=
  match op with
  | VInsert i x => v ← vector_insert sz (Z.of_nat i) x v; Some (v, RUnit)
  | VAdd x => '(v, n) ← vector_add sz x v; Some (v, RNum n)
  | VRemove i => v ← vector_remove sz (Z.of_nat i) v; Some (v, RUnit)
  | VRemoveCount i n => v ← vector_removeCount sz (Z.of_nat i) (Z.of_nat n) v; Some (v, RUnit)
  | VShrink n => Some (vector_shrink (Z.of_nat n) v, RUnit)
  | VJoin k =>
      v ← vector_join sz {| v_count := Z.of_nat (length k); v_data := concat k |} v;
      Some (v, RUnit)
  | VPush x => v ← vector_push sz x v; Some (v, RUnit)
  | VPushItems k => v ← vector_append sz (concat k) (Z.of_nat (length k)) v; Some (v, RUnit)
  | VPop => '(v, x) ← vector_pop sz v; Some (v, RElem x)
  | VClear => Some (vector_clear v, RUnit)
  | VAt i => x ← vector_at sz (Z.of_nat i) v; Some (v, RElem x)
  end.

(** The representation: the first [count] cells of a block of [Capacity]. *)
Definition vec_rep (v : Vector) (l : list (list Z)) : Prop :=
  sized sz l /\ v_count v = Z.of_nat (length l) /\
  exists spare, v_data v = concat l ++ spare /\
    (sz * length l + length spare = sz * Capacity)%nat.

Lemma vec_rep_le v l : vec_rep v l -> (length l <= Capacity)%nat.
Proof. intros (_ & _ & spare & _ & H). nia. Qed.

Lemma cell_ok_spec x : cell_ok x = true <-> length x = sz.
Proof. apply bool_decide_eq_true. Qed.

Lemma cells_ok_spec k : forallb cell_ok k = true <-> sized sz k.
Proof.
  unfold sized. rewrite forallb_forall, Forall_forall.
  split; intros H x Hx; apply cell_ok_spec, H; by apply list_elem_of_In.
Qed.

(** Closing a step: the new block holds the new cells. *)
Lemma vec_rep_intro l spare n data :
  sized sz l -> n = Z.of_nat (length l) -> data = concat l ++ spare ->
  (sz * length l + length spare = sz * Capacity)%nat ->
  vec_rep {| v_count := n; v_data := data |} l.
Proof. intros Hl -> -> Hs. split_and!; [done|done|by exists spare]. Qed.

Lemma vector_insert_spec v l i x :
  vec_rep v l -> (i <= length l < Capacity)%nat -> length x = sz ->
  exists v', vector_insert sz (Z.of_nat i) x v = Some v' /\
    vec_rep v' (take i l ++ x :: drop i l).
Proof.
  intros (Hl & Hc & spare & Hd & Hs) Hi Hx. unfold vector_insert. rewrite Hd, Hc.
  rewrite !wrapU_id by lia32.
  rewrite (insert_cells_bind sz _ l [x] spare i);
    [|done|by apply sized_one|lia|nlen|nlen|nlen|nlen|simpl; by rewrite app_nil_r].
  eexists. split; [done|]. eapply vec_rep_intro; [|nlen|reflexivity|].
  - apply sized_app. split; [by apply sized_take|]. apply sized_cons.
    split; [done|by apply sized_drop].
  - nlen.
Qed.

Lemma vector_add_spec v l x :
  vec_rep v l -> (length l < Capacity)%nat -> length x = sz ->
  exists v', vector_add sz x v = Some (v', Z.of_nat (S (length l))) /\ vec_rep v' (l ++ [x]).
Proof.
  intros (Hl & Hc & spare & Hd & Hs) Hi Hx. unfold vector_add. rewrite Hd, Hc.
  rewrite wrapU_id by lia32.
  destruct (set_cell sz l spare (length l) x (SZ * Z.of_nat (length l)))
    as (spare' & -> & Hsp); [done|done|lia|nlen|lia|].
  rewrite decide_True in Hsp by done. simpl.
  replace (Z.of_nat (length l) + 1) with (Z.of_nat (S (length l))) by lia.
  eexists. split; [done|]. eapply vec_rep_intro; [|nlen| |].
  - apply sized_app. split; [done|by apply sized_one].
  - rewrite firstn_all, drop_ge by lia. reflexivity.
  - nlen.
Qed.

Lemma vector_remove_spec v l i n cnt :
  vec_rep v l -> (i + n <= length l)%nat -> cnt = Z.of_nat (length l - n) ->
  exists data, memmove (v_data v) (SZ * Z.of_nat i) (SZ * (Z.of_nat i + Z.of_nat n))
      (SZ * (Z.of_nat (length l - (i + n)))) = Some data /\
    vec_rep {| v_count := cnt; v_data := data |} (take i l ++ drop (i + n) l).
Proof.
  intros (Hl & Hc & spare & Hd & Hs) Hi ->. rewrite Hd.
  destruct (remove_cells sz l spare i n (SZ * Z.of_nat i) (SZ * (Z.of_nat i + Z.of_nat n))
    (SZ * (Z.of_nat (length l - (i + n))))) as (spare' & -> & Hsp); [done|lia|lia|nlen|nlen|].
  eexists. split; [done|]. eapply vec_rep_intro; [|nlen|reflexivity|nlen].
  apply sized_app. split; [by apply sized_take|by apply sized_drop].
Qed.

Lemma vector_push_items_spec v l k from rest :
  vec_rep v l -> (length l + length k <= Capacity)%nat -> sized sz k ->
  from = concat k ++ rest ->
  exists v', vector_push_items sz from (Z.of_nat (length k)) v = Some v' /\
    vec_rep v' (l ++ k).
Proof.
  intros (Hl & Hc & spare & Hd & Hs) Hi Hk ->. unfold vector_push_items. rewrite Hd, Hc.
  rewrite wrapU_id by lia32.
  rewrite (append_cells sz l k spare _ rest); [|done|done|nlen|done|lia|lia]. simpl.
  eexists. split; [done|]. eapply vec_rep_intro; [|nlen|reflexivity|nlen].
  by apply sized_app.
Qed.

Lemma vector_at_spec v l i x :
  vec_rep v l -> l !! i = Some x -> vector_at sz (Z.of_nat i) v = Some x.
Proof.
  intros (Hl & Hc & spare & Hd & Hs) Hi. unfold vector_at. rewrite Hd.
  by apply cell_at_concat.
Qed.

Lemma vec_rep_shrink v l n :
  vec_rep v l -> (n <= length l)%nat -> vec_rep (vector_shrink (Z.of_nat n) v) (take n l).
Proof.
  intros (Hl & Hc & spare & Hd & Hs) Hn.
  eapply (vec_rep_intro _ (concat (drop n l) ++ spare)).
  - by apply sized_take.
  - nlen.
  - by rewrite Hd, app_assoc, <- concat_app, take_drop.
  - rewrite length_app, (concat_length sz) by by apply sized_drop. nlen.
Qed.

(** One operation of the code implements the operation on lists. *)
Lemma vec_run_refines op v l l' r :
  vec_rep v l -> vec_spec op l = Some (l', r) ->
  exists v', vec_run op v = Some (v', r) /\ vec_rep v' l'.
Proof.
  intros Hv Hop. pose proof (vec_rep_le v l Hv) as Hle. pose proof Hv as (Hl & Hc & _).
  destruct op as [i x|x|i|i n|n|k|x| |k| |i]; simpl in *; simplify_option_eq;
    repeat match goal with
    | H : Is_true (cell_ok _) |- _ => apply Is_true_true, cell_ok_spec in H
    | H : Is_true (forallb cell_ok _) |- _ => apply Is_true_true, cells_ok_spec in H
    end.
  - destruct (vector_insert_spec v l i x) as (v' & -> & ?); [done|lia|done|]. by exists v'.
  - destruct (vector_add_spec v l x) as (v' & -> & ?); [done|lia|done|]. by exists v'.
  - unfold vector_remove. rewrite Hc, !wrapU_id by lia32.
    destruct (vector_remove_spec v l i 1 (Z.of_nat (length l) - 1)) as (data & Hm & ?);
      [done|lia|lia|].
    replace (Z.of_nat (length l) - 1 - Z.of_nat i) with (Z.of_nat (length l - (i + 1))) by lia.
    change (Z.of_nat 1) with 1 in Hm. rewrite Hm. simpl. rewrite Nat.add_1_r in *.
    by eexists.
  - unfold vector_removeCount. rewrite Hc, !wrapU_id by lia32.
    destruct (vector_remove_spec v l i n (Z.of_nat (length l) - Z.of_nat n))
      as (data & Hm & ?); [done|lia|lia|].
    replace (Z.of_nat (length l) - Z.of_nat i - Z.of_nat n)
      with (Z.of_nat (length l - (i + n))) by lia.
    rewrite Hm. by eexists.
  - eexists. split; [done|]. by apply vec_rep_shrink.
  - destruct (vector_push_items_spec v l k (concat k) []) as (v' & Hp & ?);
      [done|lia|done|by rewrite app_nil_r|].
    unfold vector_join. unfold vector_push_items in Hp. simpl in *. rewrite Hp. by exists v'.
  - unfold vector_push. destruct (vector_add_spec v l x) as (v' & -> & ?); [done|lia|done|].
    by exists v'.
  - unfold vector_pop. apply last_Some in Heqo as [l0 ->]. rewrite Hc.
    rewrite length_app in *. simpl in *. rewrite wrapU_id by lia32.
    replace (Z.of_nat (length l0 + 1) - 1) with (Z.of_nat (length l0)) by lia.
    pose proof (vector_at_spec v (l0 ++ [H]) (length l0) H Hv) as Hat.
    unfold vector_at in Hat. rewrite Hat by by apply list_lookup_middle. simpl.
    eexists. split; [done|]. rewrite Nat.add_sub.
    apply (vec_rep_shrink _ _ (length l0) Hv). len.
  - destruct (vector_push_items_spec v l k (concat k) []) as (v' & Hp & ?);
      [done|lia|done|by rewrite app_nil_r|].
    unfold vector_append. rewrite Hp. by exists v'.
  - eexists. split; [done|]. by apply (vec_rep_shrink v l 0); [|lia].
  - erewrite (vector_at_spec v l' i) by done. by exists v.
Qed.

(** [Vector]: every sequence of operations that respects the assertions of
    the code has the results of the same operations on lists, stays inside the
    block, and leaves a block that represents the final list. *)
Theorem vector_refines ops v l l' rs :
  vec_rep v l -> exec_all vec_spec ops l = Some (l', rs) ->
  exists v', exec_all vec_run ops v = Some (v', rs) /\ vec_rep v' l'.
Proof. apply exec_refines. intros op s a a' r. apply vec_run_refines. Qed.

Lemma vec_rep_new data :
  length data = (sz * Capacity)%nat -> vec_rep (vector_new data) [].
Proof. intros H. split_and!; [constructor|done|exists data; split; [done|len]]. Qed.
End Refinement.

(** *** [find] *)

Lemma linear_find_spec (sz : nat) l spare item i n :
  sized sz l -> (n + i = length l)%nat ->
  exists r, linear_find sz n (concat l ++ spare) item (Z.of_nat i) = Some r /\
    match r with
    | Some pos => exists p, pos = Z.of_nat p /\ (i <= p)%nat /\ l !! p = Some item /\
                  forall j, (i <= j < p)%nat -> l !! j <> Some item
    | None => forall j, (i <= j)%nat -> l !! j <> Some item
    end.
Proof.
  intros Hl. revert i. induction n as [|n IH]; intros i Hn; simpl.
  { eexists. split; [done|]. intros j Hj H. apply lookup_lt_Some in H. lia. }
  destruct (lookup_lt_is_Some_2 l i) as [x Hx]; [lia|].
  rewrite (cell_at_concat sz l spare i x) by done. simpl.
  destruct (decide (x = item)) as [->|Hne].
  { eexists. split; [done|]. exists i. split_and!; [done|done|done|]. intros j Hj. lia. }
  replace (Z.of_nat i + 1) with (Z.of_nat (S i)) by lia.
  destruct (IH (S i)) as (r & -> & Hr); [lia|]. eexists. split; [done|].
  destruct r as [pos|].
  - destruct Hr as (p & -> & Hp & Hlp & Hmin). exists p. split_and!; [done|lia|done|].
    intros j Hj. destruct (decide (j = i)) as [->|]; [congruence|]. apply Hmin. lia.
  - intros j Hj. destruct (decide (j = i)) as [->|]; [congruence|]. apply Hr. lia.
Qed.


(** ** SortedVector *)

Section SortedVector.
Context (sz : nat) {Key : Type} (greaterThan : Key -> Key -> bool) (KeyOfValue : list Z -> Key).

Definition sorted_vector_find (item : Key) (v : Vector) : option (Z * bool) :=
  find_sorted greaterThan KeyOfValue (cell_at sz (v_data v)) (v_count v) item.

Definition sorted_vector_add (item : list Z) (v : Vector) : option (Vector * Z) :=
  '(pos, _) ← sorted_vector_find (KeyOfValue item) v;
  v ← vector_insert sz pos item v;
  Some (v, pos).
End SortedVector.

(** [SortedVector]: in a sorted vector of at most 2^31 elements [find] returns
    the first position not below the key and whether an element matches, and
    [add] inserts there and keeps the vector sorted. *)
Theorem sorted_vector_correct (sz Capacity : nat) {Key : Type} (gt : Key -> Key -> bool)
    (key : list Z -> Key) `{!StrictWeakOrder gt} v l item :
  (0 < sz)%nat -> Z.of_nat Capacity < 2 ^ 31 ->
  vec_rep sz Capacity v l -> sorted gt key l ->
  (exists pos found, sorted_vector_find sz gt key (key item) v = Some (Z.of_nat pos, found) /\
     lower_bound gt key l (key item) pos /\
     (found = true <-> Exists (matches gt key (key item)) l)) /\
  ((length l < Capacity)%nat -> length item = sz ->
   exists pos v', sorted_vector_add sz gt key item v = Some (v', Z.of_nat pos) /\
     let l' := take pos l ++ item :: drop pos l in
     vec_rep sz Capacity v' l' /\ sorted gt key l').
Proof.
  intros Hsz Hcap Hv Hs. pose proof (vec_rep_le sz Capacity Hsz v l Hv) as Hle.
  pose proof Hv as (Hl & Hc & spare & Hd & Hsp).
  destruct (find_sorted_spec gt key (cell_at sz (v_data v)) l (key item) Hs)
    as (pos & found & Hf & Hlb & Hfound).
  { intros i x Hx. rewrite Hd. by apply cell_at_concat. }
  { lia. }
  rewrite <- Hc in Hf. split.
  - exists pos, found. done.
  - intros Hlt Hx. unfold sorted_vector_add, sorted_vector_find. rewrite Hf. simpl.
    pose proof Hlb as [Hpos _].
    destruct (vector_insert_spec sz Capacity Hsz ltac:(lia32) v l pos item)
      as (v' & -> & Hv'); [done|lia|done|].
    exists pos, v'. split_and!; [done|done|]. by apply sorted_insert.
Qed.

(** Two-byte elements in a vector of four. *)
Lemma vector_refines_witness :
  vec_rep 2 4 (vector_new [9; 9; 9; 9; 9; 9; 9; 9]) [] /\
  exists v', exec_all (vec_run 2)
      [VAdd [1; 0]; VInsert 0 [2; 0]; VJoin [[3; 0]; [4; 0]]; VRemove 1; VPop; VAt 1]
      (vector_new [9; 9; 9; 9; 9; 9; 9; 9]) =
    Some (v', [RNum 1; RUnit; RUnit; RUnit; RElem [4; 0]; RElem [3; 0]]) /\
    vec_rep 2 4 v' [[2; 0]; [3; 0]].
Proof.
  assert (H : vec_rep 2 4 (vector_new [9; 9; 9; 9; 9; 9; 9; 9]) [])
    by (apply vec_rep_new; lia || reflexivity).
  split; [exact H|]. apply (vector_refines 2 4 ltac:(lia) ltac:(lia32) _ _ _ _ _ H).
  reflexivity.
Defined.

(** One-byte elements ordered by value. *)
Lemma sorted_vector_correct_witness :
  vec_rep 1 4 {| v_count := 2; v_data := [3; 7; 0; 0] |} [[3]; [7]] /\
  exists pos v', sorted_vector_add 1 Z.gtb (hd 0) [5] {| v_count := 2; v_data := [3; 7; 0; 0] |}
      = Some (v', Z.of_nat pos) /\
    let l' := take pos [[3]; [7]] ++ [5] :: drop pos [[3]; [7]] in
    vec_rep 1 4 v' l' /\ sorted Z.gtb (hd 0) l'.
Proof.
  assert (H : vec_rep 1 4 {| v_count := 2; v_data := [3; 7; 0; 0] |} [[3]; [7]]).
  { split_and!; [by repeat constructor|done|]. by exists [0; 0]. }
  assert (Hs : sorted Z.gtb (hd 0) [[3]; [7]]).
  { intros [|[|]] [|[|]] x y Hij Hx Hy; simpl in *; simplify_eq; done || lia. }
  split; [exact H|].
  apply (proj2 (sorted_vector_correct 1 4 Z.gtb (hd 0) _ _ [5] ltac:(lia) ltac:(lia32) H Hs));
    [simpl; lia|reflexivity].
Defined.
