(* ===== verification/MarkIterator.v ===== *)
(** * [MarkIterator]: [src/src/common/classes/vector.h], and its client
    [flushPages] of [src/src/jrd/cch.cpp]

    The iterator walks an array of items, lets the caller mark the processed
    ones, and narrows the array from both ends for the next pass. The items are
    non-zero scalars (the client's are pointers) and the mark is zero. *)

From S2P Require Import Prelude.

(** ** The code *)

(** [DefaultMarkValue<T>::getMarkValue()] *)
Definition getMarkValue : Z := 0.

Definition isMarked (x : Z) : bool := bool_decide (x = getMarkValue).

(** The pointers, as indices into the array. *)
Record MarkIterator := { m_begin : Z; m_end : Z; m_curr : Z; m_last : Z }.

Definition mark_new (begin count : Z) : MarkIterator :=
  {| m_begin := begin; m_end := begin + count; m_curr := begin; m_last := begin |}.

Definition mark_mark (it : MarkIterator) (arr : list Z) : option (MarkIterator * list Z) :=
  arr ← aset arr (m_curr it) getMarkValue;
  Some (if decide (m_last it = m_curr it)
        then {| m_begin := m_begin it; m_end := m_end it; m_curr := m_curr it;
                m_last := m_last it - 1 |}
        else it, arr).

Definition mark_rewind (it : MarkIterator) : MarkIterator :=
  {| m_begin := m_begin it; m_end := m_last it + 1; m_curr := m_begin it;
     m_last := m_begin it |}.

Definition mark_deref (it : MarkIterator) (arr : list Z) : option Z := arr @ (m_curr it).

(** [while (m_curr < m_end && Marker::isMarked(m_curr)) m_curr++;] *)
Fixpoint mark_skip (fuel : nat) (arr : list Z) (curr end_ : Z) : option Z :=
  match fuel with
  | O => None
  | S fuel =>
      if decide (curr < end_) then
        x ← arr @ curr;
        if isMarked x then mark_skip fuel arr (curr + 1) end_ else Some curr
      else Some curr
  end.

(** [operator++] *)
Definition mark_next (it : MarkIterator) (arr : list Z) : option (MarkIterator * list Z) :=
  let at_begin := bool_decide (m_begin it = m_curr it) in
  curr ← mark_skip (S (Z.to_nat (m_end it - m_curr it))) arr (m_curr it + 1) (m_end it);
  let it := {| m_begin := m_begin it; m_end := m_end it; m_curr := curr;
               m_last := m_last it |} in
  if decide (curr = m_end it) then Some (it, arr)
  else
    '(begin, arr) ←
      (if at_begin then
         b ← arr @ (m_begin it);
         if isMarked b then Some (curr, arr)
         else if decide (m_begin it <> curr - 1) then
           arr ← aset arr (curr - 1) b; Some (curr - 1, arr)
         else Some (m_begin it, arr)
       else Some (m_begin it, arr));
    x ← arr @ curr;
    Some ({| m_begin := begin; m_end := m_end it; m_curr := curr;
             m_last := if isMarked x then m_last it else curr |}, arr).

Definition mark_isEof (it : MarkIterator) : bool := bool_decide (m_end it <= m_curr it).
Definition mark_isEmpty (it : MarkIterator) : bool := bool_decide (m_end it <= m_begin it).

(** *** The loops of [flushPages]

    [can_write k] decides whether the [k]-th page of the pass is written
    ([writeAll || QUE_EMPTY(bdb->bdb_higher)]); the pages written are collected,
    latest last, and a null entry is skipped. *)
Fixpoint flush_pass (fuel : nat) (can_write : nat -> bool) (k : nat)
    (it : MarkIterator) (arr : list Z)
    : option (MarkIterator * list Z * list Z) :=
  match fuel with
  | O => None
  | S fuel =>
      if mark_isEof it then Some (it, arr, [])
      else
        bdb ← mark_deref it arr;
        if decide (bdb = 0) then
          '(it, arr) ← mark_next it arr;
          flush_pass fuel can_write (S k) it arr
        else if can_write k then
          '(it, arr) ← mark_mark it arr;
          '(it, arr) ← mark_next it arr;
          '(it, arr, written) ← flush_pass fuel can_write (S k) it arr;
          Some (it, arr, bdb :: written)
        else
          '(it, arr) ← mark_next it arr;
          flush_pass fuel can_write (S k) it arr
  end.

(** [while (!iter.isEmpty()) { ...; if (!found) writeAll = true; iter.rewind(); }];
    [can_write p] are the decisions of pass [p]. *)
Fixpoint flush_loop (fuel : nat) (can_write : nat -> nat -> bool) (p : nat)
    (writeAll : bool) (it : MarkIterator) (arr : list Z) : option (list Z) :=
  match fuel with
  | O => None
  | S fuel =>
      if mark_isEmpty it then Some []
      else
        '(it, arr, written) ←
          flush_pass (S (length arr)) (fun k => writeAll || can_write p k) 0 it arr;
        let writeAll := writeAll || bool_decide (written = []) in
        rest ← flush_loop fuel can_write (S p) writeAll (mark_rewind it) arr;
        Some (written ++ rest)
  end.

Definition flushPages (can_write : nat -> nat -> bool) (pages : list Z) : option (list Z) :=
  flush_loop (S (S (length pages))) can_write 0 false
    (mark_new 0 (Z.of_nat (length pages))) pages.

(** ** Live items *)

Abbreviation live := (filter (fun x : Z => x <> 0)).

(** The cells [i .. j-1]. *)
Definition seg (arr : list Z) (i j : Z) : list Z :=
  take (Z.to_nat (j - i)) (drop (Z.to_nat i) arr).

Section Seg.
Implicit Types (arr : list Z) (i j k : Z).

Lemma seg_nil arr i j : j <= i -> seg arr i j = [].
Proof. intros. unfold seg. by replace (Z.to_nat (j - i)) with 0%nat by lia. Qed.

Lemma seg_app arr i j k : 0 <= i <= j -> j <= k -> seg arr i k = seg arr i j ++ seg arr j k.
Proof.
  intros Hij Hjk. unfold seg.
  replace (Z.to_nat (k - i)) with (Z.to_nat (j - i) + Z.to_nat (k - j))%nat by lia.
  rewrite <- take_take_drop, drop_drop.
  by replace (Z.to_nat i + Z.to_nat (j - i))%nat with (Z.to_nat j) by lia.
Qed.

Lemma seg_one arr i x : arr @ i = Some x -> seg arr i (i + 1) = [x].
Proof.
  intros [Hi Hx]%aget_Some. unfold seg. replace (Z.to_nat (i + 1 - i)) with 1%nat by lia.
  by rewrite (drop_S _ _ _ Hx).
Qed.

Lemma seg_insert arr i j p x :
  0 <= i -> 0 <= p -> p < i \/ j <= p -> seg (<[Z.to_nat p := x]> arr) i j = seg arr i j.
Proof.
  intros Hi Hp Hout. unfold seg. destruct (decide (p < i)) as [Hlt|Hge].
  - by rewrite drop_insert_lt by lia.
  - destruct (decide (j <= i)) as [Hle|Hgt].
    { by replace (Z.to_nat (j - i)) with 0%nat by lia. }
    rewrite drop_insert_ge by lia. by rewrite take_insert_ge by lia.
Qed.

Lemma seg_all arr : seg arr 0 (Z.of_nat (length arr)) = arr.
Proof. unfold seg. rewrite Z.sub_0_r, Nat2Z.id. by rewrite drop_0, firstn_all. Qed.
End Seg.

(** ** One pass *)

(** Before a pass: the live items of the narrowed array are [l]. *)
Definition pass_start (it : MarkIterator) (arr : list Z) (l : list Z) : Prop :=
  m_curr it = m_begin it /\ m_last it = m_begin it /\
  0 <= m_begin it <= m_end it /\ m_end it <= Z.of_nat (length arr) /\
  (m_begin it < m_end it -> exists x, arr @ (m_begin it) = Some x /\ x <> 0) /\
  live (seg arr (m_begin it) (m_end it)) = l.

(** During a pass: [kept] were passed over and [rest] are still to come. *)
Definition pass_inv (it : MarkIterator) (arr : list Z) (kept rest : list Z) : Prop :=
  0 <= m_begin it <= m_curr it /\ m_curr it <= m_end it <= Z.of_nat (length arr) /\
  live (seg arr (m_begin it) (m_curr it)) = kept /\
  live (seg arr (m_curr it) (m_end it)) = rest /\
  if decide (m_curr it < m_end it) then
    m_last it = m_curr it /\
    (exists x, arr @ (m_curr it) = Some x /\ x <> 0) /\
    (exists x, arr @ (m_begin it) = Some x /\ x <> 0)
  else
    m_begin it - 1 <= m_last it < m_end it /\
    live (seg arr (m_last it + 1) (m_end it)) = [] /\
    (m_begin it <= m_last it -> exists x, arr @ (m_begin it) = Some x /\ x <> 0).

Lemma mark_skip_spec fuel arr c e :
  0 <= c <= e -> e <= Z.of_nat (length arr) -> (Z.to_nat (e - c) < fuel)%nat ->
  exists c', mark_skip fuel arr c e = Some c' /\ c <= c' <= e /\
    live (seg arr c c') = [] /\
    (c' < e -> exists x, arr @ c' = Some x /\ x <> 0).
Proof.
  revert c. induction fuel as [|fuel IH]; intros c Hc He Hf; [lia|]. simpl.
  destruct (decide (c < e)) as [Hlt|Hge].
  2:{ exists c. rewrite seg_nil by lia. split_and!; [done|lia|lia|done|lia]. }
  destruct (proj2 (aget_is_Some arr c)) as [x Hx]; [lia|]. rewrite Hx. simpl.
  unfold isMarked, getMarkValue. destruct (decide (x = 0)) as [->|Hne].
  - rewrite bool_decide_eq_true_2 by done.
    destruct (IH (c + 1)) as (c' & -> & Hc' & Hseg & Hx'); [lia|lia|lia|].
    exists c'. split_and!; [done|lia|lia| |done].
    rewrite (seg_app _ _ (c + 1)), (seg_one _ _ 0), filter_app, Hseg by (done || lia). done.
  - rewrite bool_decide_eq_false_2 by done. exists c.
    rewrite seg_nil by lia. split_and!; [done|lia|lia|done|]. intros _. by exists x.
Qed.

(** [operator++], after the current item was marked or not. *)
Lemma mark_next_spec it arr x kept rest :
  0 <= m_begin it <= m_curr it -> m_curr it < m_end it <= Z.of_nat (length arr) ->
  arr @ (m_curr it) = Some x ->
  m_last it = (if isMarked x then m_curr it - 1 else m_curr it) ->
  (m_begin it < m_curr it -> exists y, arr @ (m_begin it) = Some y /\ y <> 0) ->
  live (seg arr (m_begin it) (m_curr it + 1)) = kept ->
  live (seg arr (m_curr it + 1) (m_end it)) = rest ->
  exists it' arr', mark_next it arr = Some (it', arr') /\ length arr' = length arr /\
    pass_inv it' arr' kept rest.
Proof.
  destruct it as [b e c la]. simpl. intros Hbc Hce Hx Hla Hb Hkept Hrest.
  unfold mark_next. cbn [m_begin m_end m_curr m_last].
  destruct (mark_skip_spec (S (Z.to_nat (e - c))) arr (c + 1) e)
    as (c' & -> & Hc' & Hskip & Hx'); [lia|lia|lia|]. simpl.
  assert (Hbx : isMarked x = false -> exists y, arr @ b = Some y /\ y <> 0).
  { intros Hm. apply bool_decide_eq_false in Hm.
    destruct (decide (b = c)) as [->|]; [by exists x|]. apply Hb. lia. }
  assert (Hkept' : live (seg arr b c') = kept).
  { rewrite (seg_app _ _ (c + 1)), filter_app, Hskip, app_nil_r by lia. done. }
  assert (Hrest' : live (seg arr c' e) = rest).
  { rewrite <- Hrest, (seg_app _ (c + 1) c' e), filter_app, Hskip by lia. done. }
  destruct (decide (c' = e)) as [->|Hne].
  { eexists _, _. split; [done|]. split; [done|]. unfold pass_inv. simpl.
    rewrite decide_False by lia. split_and!; try done; try lia.
    - destruct (isMarked x); lia.
    - destruct (isMarked x); lia.
    - rewrite Hla. destruct (isMarked x) eqn:Hm; [|done].
      apply bool_decide_eq_true in Hm. rewrite Z.sub_add.
      rewrite (seg_app _ _ (c + 1)), (seg_one _ _ x), filter_app, Hskip, Hm by (done || lia).
      done.
    - intros Hle. destruct (isMarked x); [apply Hb; lia|by apply Hbx]. }
  destruct (Hx' ltac:(lia)) as (y & Hy & Hy0).
  assert (Hym : isMarked y = false) by by apply bool_decide_eq_false_2.
  destruct (decide (b = c)) as [->|Hbne].
  - rewrite bool_decide_eq_true_2, Hx by done. simpl. destruct (isMarked x) eqn:Hm.
    { apply bool_decide_eq_true in Hm. subst x. simpl. rewrite Hy. simpl. rewrite Hym.
      eexists _, _. split; [done|]. split; [done|]. unfold pass_inv. simpl.
      rewrite decide_True by lia. rewrite seg_nil by lia.
      assert (kept = []) as ->.
      { rewrite <- Hkept, (seg_one _ _ 0) by done. done. }
      split_and!; try done; try lia; by exists y. }
    apply bool_decide_eq_false in Hm.
    assert (kept = [x]) as Hk.
    { rewrite <- Hkept, (seg_one _ _ x) by done. by rewrite filter_cons_True. }
    destruct (decide (c <> c' - 1)) as [Hmove|Hstay].
    + rewrite aset_in by lia. simpl.
      assert (Hy2 : <[Z.to_nat (c' - 1) := x]> arr @ c' = Some y).
      { apply aget_Some in Hy as [? Hy]. apply aget_Some.
        rewrite list_lookup_insert_ne by lia. done. }
      assert (Hx2 : <[Z.to_nat (c' - 1) := x]> arr @ (c' - 1) = Some x).
      { apply aget_Some. split; [lia|]. apply list_lookup_insert_eq. lia. }
      rewrite Hy2. simpl. rewrite Hym. eexists _, _. split; [done|].
      split; [by rewrite length_insert|]. unfold pass_inv. simpl.
      rewrite length_insert, decide_True by lia.
      rewrite (seg_insert _ c' e) by lia.
      pose proof (seg_one _ _ _ Hx2) as Hone. rewrite Z.sub_add in Hone.
      rewrite Hone, filter_cons_True, filter_nil by done.
      split_and!; try done; try lia; [by exists y|by exists x].
    + simpl. rewrite Hy. simpl. rewrite Hym. eexists _, _. split; [done|]. split; [done|].
      unfold pass_inv. simpl. rewrite decide_True by lia.
      split_and!; try done; try lia; [by exists y|by exists x].
  - rewrite bool_decide_eq_false_2 by lia. simpl. rewrite Hy. simpl. rewrite Hym.
    eexists _, _. split; [done|]. split; [done|].
    unfold pass_inv. simpl. rewrite decide_True by lia.
    split_and!; try done; try lia; [by exists y|apply Hb; lia].
Qed.

(** The items at the positions chosen by [f], the first position being [k]. *)
Fixpoint picked (f : nat -> bool) (k : nat) (l : list Z) : list Z :=
  match l with
  | [] => []
  | x :: l => if f k then x :: picked f (S k) l else picked f (S k) l
  end.

Lemma picked_perm f k l : picked f k l ++ picked (fun k => negb (f k)) k l ≡ₚ l.
Proof.
  revert k. induction l as [|x l IH]; intros k; simpl; [done|].
  destruct (f k); simpl; [by rewrite IH|]. by rewrite <- Permutation_middle, IH.
Qed.

Lemma picked_all k l : picked (fun _ => true) k l = l.
Proof. revert k. induction l as [|x l IH]; intros k; simpl; [done|by rewrite IH]. Qed.

Lemma picked_none f k l : picked f k l = [] -> picked (fun k => negb (f k)) k l = l.
Proof.
  revert k. induction l as [|x l IH]; intros k; simpl; [done|].
  destruct (f k); simpl; [done|]. intros H. by rewrite IH.
Qed.

Lemma pass_inv_eof it arr kept rest :
  pass_inv it arr kept rest -> mark_isEof it = true -> rest = [].
Proof.
  intros (_ & Hce & _ & Hrest & _) Heof%bool_decide_eq_true.
  by rewrite <- Hrest, seg_nil by lia.
Qed.

(** One step of the pass: the current item is marked or passed over. *)
Lemma flush_step (w : bool) it arr kept rest :
  pass_inv it arr kept rest -> mark_isEof it = false ->
  exists x rest', mark_deref it arr = Some x /\ x <> 0 /\ rest = x :: rest' /\
    exists it' arr', ('(it, arr) ← (if w then mark_mark it arr else Some (it, arr));
                      mark_next it arr) = Some (it', arr') /\
      length arr' = length arr /\
      pass_inv it' arr' (if w then kept else kept ++ [x]) rest'.
Proof.
  intros (Hbc & Hce & Hkept & Hrest & Hmode) Heof%bool_decide_eq_false.
  rewrite decide_True in Hmode by lia. destruct Hmode as (Hla & (x & Hx & Hx0) & (y & Hy & Hy0)).
  exists x, (live (seg arr (m_curr it + 1) (m_end it))). split_and!; [done|done| |].
  { rewrite <- Hrest, (seg_app _ _ (m_curr it + 1)), (seg_one _ _ x) by (done || lia).
    simpl. by rewrite filter_cons_True. }
  assert (Hxm : isMarked x = false) by by apply bool_decide_eq_false_2.
  destruct w; simpl.
  - unfold mark_mark. rewrite aset_in by lia. simpl. rewrite decide_True by done.
    assert (Hx' : <[Z.to_nat (m_curr it) := 0]> arr @ (m_curr it) = Some 0).
    { apply aget_Some. split; [lia|]. apply list_lookup_insert_eq. lia. }
    destruct (mark_next_spec {| m_begin := m_begin it; m_end := m_end it;
        m_curr := m_curr it; m_last := m_last it - 1 |} (<[Z.to_nat (m_curr it) := 0]> arr)
        0 kept (live (seg arr (m_curr it + 1) (m_end it))))
      as (it' & arr' & Hn & Hlen & Hinv); simpl; try done; try lia.
    + rewrite length_insert. lia.
    + intros Hlt. exists y. apply aget_Some in Hy as [? Hy]. split; [|done].
      apply aget_Some. rewrite list_lookup_insert_ne by lia. done.
    + rewrite (seg_app _ _ (m_curr it)), (seg_one _ _ 0), filter_app by (done || lia).
      rewrite seg_insert, Hkept by lia. simpl. by rewrite app_nil_r.
    + by rewrite seg_insert by lia.
    + exists it', arr'. rewrite length_insert in Hlen. done.
  - destruct (mark_next_spec it arr x (kept ++ [x]) (live (seg arr (m_curr it + 1) (m_end it))))
      as (it' & arr' & Hn & Hlen & Hinv); try done; try lia.
    + by rewrite Hxm.
    + intros _. by exists y.
    + rewrite (seg_app _ _ (m_curr it)), (seg_one _ _ x), filter_app, Hkept by (done || lia).
      by rewrite filter_cons_True.
    + by exists it', arr'.
Qed.

Lemma flush_pass_spec fuel f k it arr kept rest :
  pass_inv it arr kept rest -> (length rest < fuel)%nat ->
  exists it' arr', flush_pass fuel f k it arr = Some (it', arr', picked f k rest) /\
    length arr' = length arr /\ mark_isEof it' = true /\
    pass_inv it' arr' (kept ++ picked (fun k => negb (f k)) k rest) [].
Proof.
  revert k it arr kept rest. induction fuel as [|fuel IH];
    intros k it arr kept rest Hinv Hfuel; [lia|]. simpl.
  destruct (mark_isEof it) eqn:Heof.
  { pose proof (pass_inv_eof _ _ _ _ Hinv Heof) as ->. exists it, arr. simpl.
    rewrite app_nil_r. done. }
  destruct (flush_step (f k) it arr kept rest Hinv Heof)
    as (x & rest' & Hd & Hx & -> & it1 & arr1 & Hstep & Hlen & Hinv1).
  rewrite Hd. simpl. rewrite decide_False by done.
  destruct (IH (S k) it1 arr1 _ rest' Hinv1) as (it2 & arr2 & Hp & Hlen2 & Heof2 & Hinv2);
    [simpl in Hfuel; lia|].
  exists it2, arr2. rewrite Hlen in Hlen2. destruct (f k); simpl in *.
  - destruct (mark_mark it arr) as [[itm arrm]|]; simpl in *; [|done].
    rewrite Hstep. simpl. rewrite Hp. done.
  - rewrite Hstep. simpl. rewrite Hp. split_and!; [done..|]. by rewrite <- app_assoc in Hinv2.
Qed.

Lemma pass_start_inv it arr l :
  pass_start it arr l -> mark_isEmpty it = false -> pass_inv it arr [] l.
Proof.
  intros (Hc & Hla & Hbe & Hlen & Hb & Hl) Hne%bool_decide_eq_false.
  unfold pass_inv. rewrite Hc, Hla, decide_True by lia.
  specialize (Hb ltac:(lia)). rewrite (seg_nil arr (m_begin it) (m_begin it)) by lia.
  split_and!; try done; lia.
Qed.

Lemma mark_rewind_spec it arr kept :
  pass_inv it arr kept [] -> mark_isEof it = true -> pass_start (mark_rewind it) arr kept.
Proof.
  intros (Hbc & Hce & Hkept & _ & Hmode) Heof%bool_decide_eq_true.
  rewrite decide_False in Hmode by lia. destruct Hmode as (Hla & Hend & Hb).
  unfold pass_start, mark_rewind. simpl. split_and!; try done; try lia.
  - intros Hlt. apply Hb. lia.
  - assert (m_curr it = m_end it) as Heq by lia. rewrite Heq in Hkept.
    rewrite (seg_app _ _ (m_last it + 1)), filter_app, Hend, app_nil_r in Hkept by lia. done.
Qed.

(** One pass of [MarkIterator] ([for (; !isEof(); ++iter)] with some items
    marked) visits exactly the live items, each once and in order, and after
    [rewind] the iterator ranges over exactly the items that were not marked. *)
Theorem mark_pass_correct f it arr l :
  pass_start it arr l -> mark_isEmpty it = false ->
  exists it' arr', flush_pass (S (length arr)) f 0 it arr = Some (it', arr', picked f 0 l) /\
    length arr' = length arr /\
    pass_start (mark_rewind it') arr' (picked (fun k => negb (f k)) 0 l).
Proof.
  intros Hs Hne. pose proof Hs as (_ & _ & Hbe & Hlen & _ & Hl).
  pose proof (pass_start_inv _ _ _ Hs Hne) as Hinv.
  assert (length l <= length arr)%nat.
  { rewrite <- Hl. etrans; [apply length_filter|]. unfold seg. len. }
  destruct (flush_pass_spec (S (length arr)) f 0 it arr [] l Hinv)
    as (it' & arr' & Hp & Hlen' & Heof & Hinv'); [lia|].
  exists it', arr'. split_and!; [done|done|]. by apply mark_rewind_spec.
Qed.

Lemma mark_new_start pages :
  Forall (fun x => x <> 0) pages ->
  pass_start (mark_new 0 (Z.of_nat (length pages))) pages pages.
Proof.
  intros Hnz. unfold pass_start, mark_new. simpl. split_and!; try done; try lia.
  - intros Hlt. destruct pages as [|x pages]; [simpl in Hlt; lia|]. exists x.
    split; [done|]. by apply Forall_cons in Hnz as [? _].
  - rewrite seg_all. clear -Hnz. induction Hnz as [|x l Hx _ IH]; [done|].
    rewrite filter_cons_True by done. by rewrite IH.
Qed.

Lemma flush_loop_spec fuel cw p (wa : bool) it arr l :
  pass_start it arr l -> (length l + (if wa then 0 else 1) < fuel)%nat ->
  exists w, flush_loop fuel cw p wa it arr = Some w /\ w ≡ₚ l.
Proof.
  revert p wa it arr l. induction fuel as [|fuel IH]; intros p wa it arr l Hs Hf; [lia|].
  cbn [flush_loop]. destruct (mark_isEmpty it) eqn:Hem.
  { exists []. split; [done|]. destruct Hs as (_ & _ & Hbe & _ & _ & <-).
    apply bool_decide_eq_true in Hem. by rewrite seg_nil by lia. }
  set (f := fun k => wa || cw p k).
  destruct (mark_pass_correct f it arr l Hs Hem) as (it' & arr' & Hp & Hlen & Hs').
  rewrite Hp. simpl. set (rest := picked (fun k => negb (f k)) 0 l) in *.
  pose proof (picked_perm f 0 l) as Hperm. fold rest in Hperm.
  assert (Hnel : wa = true -> rest = []).
  { intros ->. unfold rest, f. clear. generalize 0%nat. induction l; intros k; simpl; auto. }
  assert (Hl0 : l <> []).
  { intros ->. destruct Hs as (_ & _ & Hbe & _ & Hb & Hl).
    apply bool_decide_eq_false in Hem. destruct Hb as (x & Hx & Hx0); [lia|].
    rewrite (seg_app _ _ (m_begin it + 1)), (seg_one _ _ x), filter_app in Hl by (done || lia).
    by rewrite filter_cons_True in Hl. }
  assert (Hmeas : (length rest + (if wa || bool_decide (picked f 0 l = []) then 0 else 1)
                   < fuel)%nat).
  { apply Permutation_length in Hperm. rewrite length_app in Hperm.
    assert (length l <> 0)%nat by (by intros ?%nil_length_inv).
    destruct wa; simpl.
    - rewrite (Hnel eq_refl) in *. simpl. lia.
    - destruct (bool_decide_reflect (picked f 0 l = [])) as [Hnil|Hne]; [lia|].
      assert (length (picked f 0 l) <> 0)%nat by (by intros ?%nil_length_inv). lia. }
  destruct (IH (S p) _ _ _ _ Hs' Hmeas) as (w & -> & Hw). simpl.
  eexists. split; [done|]. by rewrite Hw.
Qed.

(** [flushPages] ends, whatever pages the precedence graph holds back in each
    pass, and writes every page exactly once. *)
Theorem flushPages_correct can_write pages :
  Forall (fun x => x <> 0) pages ->
  exists written, flushPages can_write pages = Some written /\ written ≡ₚ pages.
Proof.
  intros Hnz. apply flush_loop_spec; [by apply mark_new_start|]. simpl. lia.
Qed.

(** Page 2 waits for a later pass, pages 3 and 4 are held back for good. *)
Lemma flushPages_correct_witness :
  Forall (fun x => x <> 0) [1; 2; 3; 4; 5] /\
  exists written,
    flushPages (fun p k => match p, k with
                           | O, O | O, 4%nat => true
                           | 1%nat, O => true
                           | _, _ => false
                           end) [1; 2; 3; 4; 5] = Some written /\
    written ≡ₚ [1; 2; 3; 4; 5].
Proof.
  assert (H : Forall (fun x => x <> 0) [1; 2; 3; 4; 5]) by (repeat constructor; lia).
  split; [exact H|]. exact (flushPages_correct _ _ H).
Defined.

(** The first and the third of four items are marked. *)
Lemma mark_pass_correct_witness :
  pass_start (mark_new 0 4) [7; 8; 9; 4] [7; 8; 9; 4] /\
  exists it' arr', flush_pass 5 Nat.even 0 (mark_new 0 4) [7; 8; 9; 4]
      = Some (it', arr', picked Nat.even 0 [7; 8; 9; 4]) /\
    length arr' = 4%nat /\
    pass_start (mark_rewind it') arr' (picked (fun k => negb (Nat.even k)) 0 [7; 8; 9; 4]).
Proof.
  assert (H : pass_start (mark_new 0 4) [7; 8; 9; 4] [7; 8; 9; 4]).
  { apply (mark_new_start [7; 8; 9; 4]). repeat constructor; lia. }
  split; [exact H|]. exact (mark_pass_correct Nat.even _ _ _ H eq_refl).
Defined.
