(* ===== verification/Array.v ===== *)
(** * [Array] and [SortedArray]: [src/src/common/classes/array.h]

    An array owns a block of the memory pool, or uses the inline storage of its
    base class until that is too small. The abstract array is the list of its
    elements; [array_refines] covers the operations that treat elements as whole
    cells, and the theorems after it the two that do not ([insert] of an array
    and [operator==], which pass a count of elements where a count of bytes is
    due). *)

From S2P Require Import Prelude Memory Search Vector.

(** The memory pool: a fresh block of the requested size, of any contents. *)
Class MemoryPool := {
  pool_allocate : Z -> list Z;
  pool_allocate_length n : 0 <= n -> Z.of_nat (length (pool_allocate n)) = n
}.

Definition FB_MAX_SIZEOF : Z := 2 ^ 32 - 1.

(** ** The code *)

(** [data] points to [a_inline] when there is no [a_block]. *)
Record Array := {
  a_count : Z;
  a_capacity : Z;
  a_inline : list Z;
  a_block : option (list Z)
}.

Definition a_data (a : Array) : list Z := default (a_inline a) (a_block a).

Section ArrayOps.
Context (sz : nat) (StorageSize : Z) `{pool : !MemoryPool}.

Local Abbreviation SZ := (Z.of_nat sz).

(** [Array(MemoryPool& p)]; [storage] is the uninitialised inline storage. *)
Definition array_new (storage : list Z) : Array :=
  {| a_count := 0; a_capacity := StorageSize; a_inline := storage; a_block := None |}.

(** The array after a store to [*data] and to [count]. *)
Definition array_set (a : Array) (data : list Z) (count : Z) : Array :=
  match a_block a with
  | Some _ => {| a_count := count; a_capacity := a_capacity a; a_inline := a_inline a;
                 a_block := Some data |}
  | None => {| a_count := count; a_capacity := a_capacity a; a_inline := data;
               a_block := None |}
  end.

Definition array_set_count (a : Array) (count : Z) : Array := array_set a (a_data a) count.

Definition array_ensureCapacity (newcapacity : Z) (preserve : bool) (a : Array)
    : option Array :=
  if decide (newcapacity > a_capacity a) then
    let newcapacity :=
      if decide (a_capacity a <= FB_MAX_SIZEOF / 2) then
        if decide (newcapacity < wrapU 32 (a_capacity a * 2))
        then wrapU 32 (a_capacity a * 2) else newcapacity
      else FB_MAX_SIZEOF in
    let newdata := pool_allocate (SZ * newcapacity) in
    newdata ← (if preserve then memcpy newdata 0 (a_data a) (SZ * a_count a)
               else Some newdata);
    Some {| a_count := a_count a; a_capacity := newcapacity; a_inline := a_inline a;
            a_block := Some newdata |}
  else Some a.

Definition array_clear (a : Array) : Array := array_set_count a 0.

Definition array_getElement (index : Z) (a : Array) : option (list Z) :=
  cell_at sz (a_data a) index.

Definition array_front (a : Array) : option (list Z) := cell_at sz (a_data a) 0.
Definition array_back (a : Array) : option (list Z) := cell_at sz (a_data a) (a_count a - 1).

Definition array_copyFrom (source a : Array) : option Array :=
  a ← array_ensureCapacity (a_count source) false a;
  data ← memcpy (a_data a) 0 (a_data source) (SZ * a_count source);
  Some (array_set a data (a_count source)).

Definition array_insert (index : Z) (item : list Z) (a : Array) : option Array :=
  a ← array_ensureCapacity (wrapU 32 (a_count a + 1)) true a;
  data ← memmove (a_data a) (SZ * (index + 1)) (SZ * index)
           (SZ * wrapU 32 (a_count a - index));
  data ← mem_write data (SZ * index) item;
  Some (array_set a data (wrapU 32 (a_count a + 1))).

(** [insert(index, const Array<T, Storage>& items)]: the [memcpy] is of
    [items.count] bytes. *)
Definition array_insert_array (index : Z) (items a : Array) : option Array :=
  a ← array_ensureCapacity (wrapU 32 (a_count a + a_count items)) true a;
  data ← memmove (a_data a) (SZ * (index + a_count items)) (SZ * index)
           (SZ * wrapU 32 (a_count a - index));
  data ← memcpy data (SZ * index) (a_data items) (a_count items);
  Some (array_set a data (wrapU 32 (a_count a + a_count items))).

(** [insert(index, const T* items, itemsCount)] *)
Definition array_insert_items (index : Z) (items : list Z) (itemsCount : Z) (a : Array)
    : option Array :=
  a ← array_ensureCapacity (wrapU 32 (a_count a + itemsCount)) true a;
  data ← memmove (a_data a) (SZ * (index + itemsCount)) (SZ * index)
           (SZ * wrapU 32 (a_count a - index));
  data ← memcpy data (SZ * index) items (SZ * itemsCount);
  Some (array_set a data (wrapU 32 (a_count a + itemsCount))).

Definition array_add (item : list Z) (a : Array) : option (Array * Z) :=
  a ← array_ensureCapacity (wrapU 32 (a_count a + 1)) true a;
  data ← mem_write (a_data a) (SZ * a_count a) item;
  Some (array_set a data (wrapU 32 (a_count a + 1)), a_count a).

(** [add(const T* items, itemsCount)], [push(const T* items, itemsSize)] and
    [append]; [join(L)] is the same with [L]'s data. *)
Definition array_push_items (items : list Z) (itemsCount : Z) (a : Array) : option Array :=
  a ← array_ensureCapacity (wrapU 32 (a_count a + itemsCount)) true a;
  data ← memcpy (a_data a) (SZ * a_count a) items (SZ * itemsCount);
  Some (array_set a data (wrapU 32 (a_count a + itemsCount))).

Definition array_join (L a : Array) : option Array :=
  array_push_items (a_data L) (a_count L) a.

Definition array_remove (index : Z) (a : Array) : option Array :=
  let count := wrapU 32 (a_count a - 1) in
  data ← memmove (a_data a) (SZ * index) (SZ * (index + 1)) (SZ * wrapU 32 (count - index));
  Some (array_set a data count).

Definition array_removeRange (from to : Z) (a : Array) : option Array :=
  data ← memmove (a_data a) (SZ * from) (SZ * to) (SZ * wrapU 32 (a_count a - to));
  Some (array_set a data (wrapU 32 (a_count a - wrapU 32 (to - from)))).

Definition array_removeCount (index n : Z) (a : Array) : option Array :=
  data ← memmove (a_data a) (SZ * index) (SZ * (index + n))
           (SZ * wrapU 32 (a_count a - index - n));
  Some (array_set a data (wrapU 32 (a_count a - n))).

Definition array_shrink (newCount : Z) (a : Array) : Array := array_set_count a newCount.

Definition array_grow (newCount : Z) (a : Array) : option Array :=
  a ← array_ensureCapacity newCount true a;
  data ← memset (a_data a) (SZ * a_count a) 0 (SZ * wrapU 32 (newCount - a_count a));
  Some (array_set a data newCount).

(** [while (count < newCount) data[count++] = val;] *)
Fixpoint array_fill (n : nat) (val : list Z) (a : Array) : option Array :=
  match n with
  | O => Some a
  | S n =>
      data ← mem_write (a_data a) (SZ * a_count a) val;
      array_fill n val (array_set a data (wrapU 32 (a_count a + 1)))
  end.

Definition array_resize_val (newCount : Z) (val : list Z) (a : Array) : option Array :=
  if decide (newCount > a_count a) then
    a ← array_ensureCapacity newCount true a;
    array_fill (Z.to_nat (newCount - a_count a)) val a
  else Some (array_set_count a newCount).

Definition array_resize (newCount : Z) (a : Array) : option Array :=
  if decide (newCount > a_count a) then array_grow newCount a
  else Some (array_set_count a newCount).

(** [assign(const T* items, itemsCount)] *)
Definition array_assign (items : list Z) (itemsCount : Z) (a : Array) : option Array :=
  a ← array_resize itemsCount a;
  data ← memcpy (a_data a) 0 items (SZ * a_count a);
  Some (array_set a data (a_count a)).

Definition array_pop (a : Array) : option (Array * list Z) :=
  let count := wrapU 32 (a_count a - 1) in
  x ← cell_at sz (a_data a) count;
  Some (array_set_count a count, x).

Definition array_getBuffer (capacityL : Z) (preserve : bool) (a : Array) : option Array :=
  a ← array_ensureCapacity capacityL preserve a;
  Some (array_set_count a capacityL).

Definition array_free (a : Array) : Array :=
  {| a_count := 0; a_capacity := StorageSize; a_inline := a_inline a; a_block := None |}.

Definition array_find (item : list Z) (a : Array) : option (option Z) :=
  linear_find sz (Z.to_nat (a_count a)) (a_data a) item 0.

Definition array_exist (item : list Z) (a : Array) : option bool :=
  r ← array_find item a; Some (bool_decide (r <> None)).

(** [operator==]: the [memcmp] is of [count] bytes. *)
Definition array_eq (a op : Array) : option bool :=
  if decide (a_count a <> a_count op) then Some false
  else memcmp_eq (a_data a) (a_data op) (a_count a).

(** The loop of [swapElems]: [n] iterations are left from [i] on. *)
Fixpoint array_swap_loop (n : nat) (i : Z) (a : Array) : option Array :=
  match n with
  | O => Some a
  | S n =>
      temp ← cell_at sz (a_data a) i;
      x ← cell_at sz (a_data a) (a_count a - 1 - i);
      data ← mem_write (a_data a) (SZ * i) x;
      data ← mem_write data (SZ * (a_count a - 1 - i)) temp;
      array_swap_loop n (i + 1) (array_set a data (a_count a))
  end.

Definition array_swapElems (a : Array) : option Array :=
  array_swap_loop (Z.to_nat (a_count a / 2)) 0 a.
End ArrayOps.

(** ** The abstract array *)

Inductive ArrOp :=
  | AInsert (index : nat) (item : list Z)
  | AInsertItems (index : nat) (items : list (list Z))
  | AAdd (item : list Z)
  | APushItems (items : list (list Z))
  | AJoin (items : list (list Z))
  | ARemove (index : nat)
  | ARemoveRange (from to : nat)
  | ARemoveCount (index n : nat)
  | AShrink (newCount : nat)
  | AGrow (newCount : nat)
  | AResizeVal (newCount : nat) (val : list Z)
  | AResize (newCount : nat)
  | AAssign (items : list (list Z))
  | APop
  | AClear
  | AFree
  | AAt (index : nat)
  | ABack
  | ASwapElems.

Section Refinement.
Context (sz : nat) (StorageSize : Z) `{pool : !MemoryPool}.
Hypothesis sz_pos : (0 < sz)%nat.
Hypothesis StorageSize_range : 0 <= StorageSize < 2 ^ 32.

Local Abbreviation SZ := (Z.of_nat sz).
Local Abbreviation zero_cell := (replicate sz 0).
Local Abbreviation fits n := (Z.of_nat n < 2 ^ 32).

Definition arr_cells (k : list (list Z)) : bool := forallb (cell_ok sz) k.

(** [grow] and [resize]: the new elements are zero bytes. *)
Definition resized (n : nat) (x : list Z) (l : list (list Z)) : list (list Z) :=
  take n l ++ replicate (n - length l) x.

(** [None] where the assertions of the code forbid the call. *)
Definition arr_spec (op : ArrOp) (l : list (list Z)) : option (list (list Z) * OpResult) :=
  match op with
  | AInsert i x =>
      guard (i <= length l)%nat;; guard (fits (length l + 1));; guard (cell_ok sz x);;
      Some (take i l ++ x :: drop i l, RUnit)
  | AInsertItems i k =>
      guard (i <= length l)%nat;; guard (fits (length l + length k));; guard (arr_cells k);;
      Some (take i l ++ k ++ drop i l, RUnit)
  | AAdd x =>
      guard (fits (length l + 1));; guard (cell_ok sz x);;
      Some (l ++ [x], RNum (Z.of_nat (length l)))
  | APushItems k | AJoin k =>
      guard (fits (length l + length k));; guard (arr_cells k);; Some (l ++ k, RUnit)
  | ARemove i => guard (i < length l)%nat;; Some (take i l ++ drop (S i) l, RUnit)
  | ARemoveRange i j =>
      guard (i <= j)%nat;; guard (j <= length l)%nat;; Some (take i l ++ drop j l, RUnit)
  | ARemoveCount i n =>
      guard (i + n <= length l)%nat;; Some (take i l ++ drop (i + n) l, RUnit)
  | AShrink n => guard (n <= length l)%nat;; Some (take n l, RUnit)
  | AGrow n =>
      guard (length l <= n)%nat;; guard (fits n);; Some (resized n zero_cell l, RUnit)
  | AResizeVal n x => guard (fits n);; guard (cell_ok sz x);; Some (resized n x l, RUnit)
  | AResize n => guard (fits n);; Some (resized n zero_cell l, RUnit)
  | AAssign k => guard (fits (length k));; guard (arr_cells k);; Some (k, RUnit)
  | APop => x ← last l; Some (take (length l - 1) l, RElem x)
  | AClear | AFree => Some ([], RUnit)
  | AAt i => x ← l !! i; Some (l, RElem x)
  | ABack => x ← last l; Some (l, RElem x)
  | ASwapElems => Some (reverse l, RUnit)
  end.

(** The code; the source of a [join] is an array without spare room. *)
Definition arr_run (op : ArrOp) (a : Array) : option (Array * OpResult) :=
  match op with
  | AInsert i x => a ← array_insert sz (Z.of_nat i) x a; Some (a, RUnit)
  | AInsertItems i k =>
      a ← array_insert_items sz (Z.of_nat i) (concat k) (Z.of_nat (length k)) a;
      Some (a, RUnit)
  | AAdd x => '(a, n) ← array_add sz x a; Some (a, RNum n)
  | APushItems k =>
      a ← array_push_items sz (concat k) (Z.of_nat (length k)) a; Some (a, RUnit)
  | AJoin k =>
      a ← array_join sz {| a_count := Z.of_nat (length k);
             a_capacity := Z.of_nat (length k); a_inline := []; a_block := Some (concat k) |} a;
      Some (a, RUnit)
  | ARemove i => a ← array_remove sz (Z.of_nat i) a; Some (a, RUnit)
  | ARemoveRange i j => a ← array_removeRange sz (Z.of_nat i) (Z.of_nat j) a; Some (a, RUnit)
  | ARemoveCount i n => a ← array_removeCount sz (Z.of_nat i) (Z.of_nat n) a; Some (a, RUnit)
  | AShrink n => Some (array_shrink (Z.of_nat n) a, RUnit)
  | AGrow n => a ← array_grow sz (Z.of_nat n) a; Some (a, RUnit)
  | AResizeVal n x => a ← array_resize_val sz (Z.of_nat n) x a; Some (a, RUnit)
  | AResize n => a ← array_resize sz (Z.of_nat n) a; Some (a, RUnit)
  | AAssign k => a ← array_assign sz (concat k) (Z.of_nat (length k)) a; Some (a, RUnit)
  | APop => '(a, x) ← array_pop sz a; Some (a, RElem x)
  | AClear => Some (array_clear a, RUnit)
  | AFree => Some (array_free StorageSize a, RUnit)
  | AAt i => x ← array_getElement sz (Z.of_nat i) a; Some (a, RElem x)
  | ABack => x ← array_back sz a; Some (a, RElem x)
  | ASwapElems => a ← array_swapElems sz a; Some (a, RUnit)
  end.

(** The block has [capacity] cells, and the first [count] are the elements. *)
Definition arr_shape (a : Array) : Prop :=
  0 <= a_capacity a < 2 ^ 32 /\
  Z.of_nat (length (a_data a)) = SZ * a_capacity a /\
  Z.of_nat (length (a_inline a)) = SZ * StorageSize.

Definition arr_rep (a : Array) (l : list (list Z)) : Prop :=
  arr_shape a /\ sized sz l /\ a_count a = Z.of_nat (length l) /\
  exists spare, a_data a = concat l ++ spare.

(** Room for [n] elements. *)
Definition arr_room (a : Array) (l : list (list Z)) (n : nat) : Prop :=
  arr_shape a /\ sized sz l /\ a_count a = Z.of_nat (length l) /\
  exists spare, a_data a = concat l ++ spare /\ (sz * n <= sz * length l + length spare)%nat.

Lemma array_set_data a data count : a_data (array_set a data count) = data.
Proof. unfold array_set, a_data. by destruct a as [? ? ? []]. Qed.

Lemma array_set_inv a data count :
  a_count (array_set a data count) = count /\
  a_capacity (array_set a data count) = a_capacity a.
Proof. unfold array_set. by destruct a as [? ? ? []]. Qed.

(** Storing a block of the same size. *)
Lemma array_set_shape a data count :
  arr_shape a -> length data = length (a_data a) -> arr_shape (array_set a data count).
Proof.
  intros (Hc & Hd & Hi) Hlen. unfold arr_shape.
  rewrite array_set_data, (proj2 (array_set_inv a data count)), Hlen.
  split_and!; [lia|lia|done|]. unfold array_set, a_data in *.
  destruct a as [? ? ? []]; simpl in *; lia.
Qed.

Lemma arr_rep_set a l data count spare :
  arr_shape a -> sized sz l -> count = Z.of_nat (length l) -> data = concat l ++ spare ->
  length data = length (a_data a) -> arr_rep (array_set a data count) l.
Proof.
  intros Hs Hl Hc Hd Hlen. split; [by apply array_set_shape|]. split; [done|].
  rewrite array_set_data, (proj1 (array_set_inv a data count)). split; [done|by exists spare].
Qed.

Lemma array_new_rep storage :
  Z.of_nat (length storage) = SZ * StorageSize -> arr_rep (array_new StorageSize storage) [].
Proof.
  intros H. split; [split_and!; simpl; (lia || done)|]. split_and!; [constructor|done|by exists storage].
Qed.

Lemma arr_rep_count a l : arr_rep a l -> Z.of_nat (length l) <= a_capacity a.
Proof.
  intros ((Hc & Hd & _) & Hl & _ & spare & Heq). rewrite Heq in Hd.
  rewrite length_app, (concat_length sz) in Hd by done. nia.
Qed.

Lemma arr_rep_fits a l : arr_rep a l -> fits (length l).
Proof. intros Ha. pose proof (arr_rep_count a l Ha). destruct Ha as ((Hc & _) & _). lia. Qed.

(** [ensureCapacity] keeps the elements and makes room. *)
Lemma array_ensureCapacity_spec a l n :
  arr_rep a l -> fits n ->
  exists a', array_ensureCapacity sz (Z.of_nat n) true a = Some a' /\ arr_rep a' l /\
    arr_room a' l n /\ Z.of_nat n <= a_capacity a'.
Proof.
  intros Ha Hn. pose proof (arr_rep_count a l Ha) as Hcnt.
  pose proof Ha as ((Hc & Hd & Hi) & Hl & Hcount & spare & Heq).
  unfold array_ensureCapacity. case_decide as Hgt.
  2:{ exists a. split_and!; [done|done| |lia]. split_and!; [done..|]. exists spare.
      split; [done|]. rewrite Heq, length_app, (concat_length sz) in Hd by done. nia. }
  set (cap := if decide (a_capacity a <= FB_MAX_SIZEOF / 2) then _ else _).
  assert (Hcap : Z.of_nat n <= cap < 2 ^ 32).
  { unfold cap, FB_MAX_SIZEOF. case_decide as H1; [|lia32].
    change ((2 ^ 32 - 1) / 2) with 2147483647 in H1.
    rewrite wrapU_id by lia32. case_decide; lia32. }
  clearbody cap. pose proof (pool_allocate_length (SZ * cap) ltac:(nia)) as Hlen.
  pose proof (append_cells sz [] l (pool_allocate (SZ * cap)) (a_data a) spare 0
    (SZ * Z.of_nat (length l))) as Hcpy.
  simpl in Hcpy. rewrite Hcount, Hcpy; [|constructor|done|nia|done|lia|lia]. simpl.
  eexists. split; [done|].
  assert (Hs : arr_shape {| a_count := Z.of_nat (length l); a_capacity := cap;
    a_inline := a_inline a;
    a_block := Some (concat l ++ drop (sz * length l) (pool_allocate (SZ * cap))) |}).
  { split; [simpl; lia|]. split; [|done]. unfold a_data. simpl.
    rewrite length_app, (concat_length sz), length_drop by done. nia. }
  split_and!; [|  |simpl; lia].
  - split_and!; [done..|]. by eexists.
  - split_and!; [done..|]. eexists. split; [done|]. rewrite length_drop. nia.
Qed.

Lemma read_cells k rest n :
  sized sz k -> n = SZ * Z.of_nat (length k) -> mem_read (concat k ++ rest) 0 n = Some (concat k).
Proof.
  intros Hk ->. apply (mem_read_mid [] (concat k) rest); [done|].
  rewrite (concat_length sz) by done. lia.
Qed.

(** Inserting cells once there is room for them. *)
Lemma insert_room {B} (f : list Z -> option B) a l k i x dst n :
  arr_room a l (length l + length k) -> sized sz k -> (i <= length l)%nat ->
  dst = SZ * (Z.of_nat i + Z.of_nat (length k)) ->
  n = SZ * (Z.of_nat (length l) - Z.of_nat i) -> x = concat k ->
  exists data, (memmove (a_data a) dst (SZ * Z.of_nat i) n ≫=
                  fun m => mem_write m (SZ * Z.of_nat i) x ≫= f) = f data /\
    forall count, count = Z.of_nat (length l + length k) ->
      arr_rep (array_set a data count) (take i l ++ k ++ drop i l).
Proof.
  intros (Hs & Hl & Hc & spare & Hd & Hr) Hk Hi -> -> ->. rewrite Hd.
  rewrite (insert_cells_bind sz f l k spare i); [|done|done|done|nia|lia|lia|nia|done].
  eexists. split; [done|]. intros count ->. eapply arr_rep_set; [done| |nlen|done|].
  - apply sized_app. split; [by apply sized_take|]. apply sized_app.
    split; [done|by apply sized_drop].
  - rewrite Hd, !length_app, !(concat_length sz); [|done|].
    + rewrite length_drop, !length_app, length_take, length_drop. nia.
    + apply sized_app. split; [by apply sized_take|]. apply sized_app.
      split; [done|by apply sized_drop].
Qed.

Lemma array_insert_items_spec a l k i from rest :
  arr_rep a l -> (i <= length l)%nat -> fits (length l + length k) -> sized sz k ->
  from = concat k ++ rest ->
  exists a', array_insert_items sz (Z.of_nat i) from (Z.of_nat (length k)) a = Some a' /\
    arr_rep a' (take i l ++ k ++ drop i l).
Proof.
  intros Ha Hi Hf Hk ->. unfold array_insert_items.
  pose proof Ha as (_ & _ & Hc & _). rewrite Hc, wrapU_id by lia32.
  rewrite <- (Nat2Z.inj_add (length l) (length k)).
  destruct (array_ensureCapacity_spec a l _ Ha Hf) as (a1 & -> & Ha1 & Hroom & _). simpl.
  pose proof Ha1 as (_ & _ & Hc1 & _). rewrite Hc1, !wrapU_id by lia32.
  unfold memcpy. rewrite read_cells by done. simpl.
  destruct (insert_room (fun data => Some (array_set a1 data
      (Z.of_nat (length l) + Z.of_nat (length k)))) a1 l k i (concat k)
    (SZ * (Z.of_nat i + Z.of_nat (length k)))
    (SZ * (Z.of_nat (length l) - Z.of_nat i))) as (data & Heq & Hrep); try done.
  rewrite Heq. eexists. split; [done|]. apply Hrep. lia.
Qed.

Lemma array_insert_spec a l i x :
  arr_rep a l -> (i <= length l)%nat -> fits (length l + 1) -> length x = sz ->
  exists a', array_insert sz (Z.of_nat i) x a = Some a' /\
    arr_rep a' (take i l ++ x :: drop i l).
Proof.
  intros Ha Hi Hf Hx. unfold array_insert.
  pose proof Ha as (_ & _ & Hc & _). rewrite Hc, wrapU_id by lia32.
  change (Z.of_nat (length l) + 1) with (Z.of_nat (length l) + Z.of_nat 1).
  rewrite <- (Nat2Z.inj_add (length l) 1).
  destruct (array_ensureCapacity_spec a l _ Ha Hf) as (a1 & -> & Ha1 & Hroom & _). simpl.
  pose proof Ha1 as (_ & _ & Hc1 & _). rewrite Hc1, !wrapU_id by lia32.
  destruct (insert_room (fun data => Some (array_set a1 data (Z.of_nat (length l) + Z.of_nat 1)))
    a1 l [x] i x (SZ * (Z.of_nat i + Z.of_nat 1))
    (SZ * (Z.of_nat (length l) - Z.of_nat i))) as (data & Heq & Hrep); try done.
  - by apply sized_one.
  - simpl. by rewrite app_nil_r.
  - change (Z.of_nat 1) with 1 in *. rewrite Heq. eexists. split; [done|].
    apply Hrep. simpl. lia.
Qed.

Lemma array_push_items_spec a l k from rest :
  arr_rep a l -> fits (length l + length k) -> sized sz k -> from = concat k ++ rest ->
  exists a', array_push_items sz from (Z.of_nat (length k)) a = Some a' /\ arr_rep a' (l ++ k).
Proof.
  intros Ha Hf Hk Hfrom. unfold array_push_items.
  pose proof Ha as (_ & _ & Hc & _). rewrite Hc, wrapU_id by lia32.
  rewrite <- (Nat2Z.inj_add (length l) (length k)).
  destruct (array_ensureCapacity_spec a l _ Ha Hf) as (a1 & -> & _ & Hroom & _). simpl.
  destruct Hroom as (Hs & Hl & Hc1 & spare & Hd & Hr). rewrite Hc1, Hd, !wrapU_id by lia32.
  rewrite (append_cells sz l k spare _ rest); [|done|done|nia|done|lia|lia]. simpl.
  eexists. split; [done|]. eapply arr_rep_set; [done|by apply sized_app|nlen|done|].
  rewrite Hd, !length_app, !(concat_length sz), length_drop, length_app;
    [nia|done|by apply sized_app].
Qed.

Lemma array_add_spec a l x :
  arr_rep a l -> fits (length l + 1) -> length x = sz ->
  exists a', array_add sz x a = Some (a', Z.of_nat (length l)) /\ arr_rep a' (l ++ [x]).
Proof.
  intros Ha Hf Hx. pose proof (array_push_items_spec a l [x] x [] Ha Hf) as H.
  unfold array_push_items in H. unfold array_add. simpl in H.
  destruct H as (a' & Hp & Hrep); [by apply sized_one|by rewrite !app_nil_r|].
  destruct (array_ensureCapacity_spec a l _ Ha Hf) as (a1 & Hen & (_ & _ & Hc1 & _) & _).
  pose proof Ha as (_ & _ & Hc & _). change (Z.of_nat 1) with 1 in Hp.
  rewrite Hc in *. rewrite wrapU_id in * by lia32.
  rewrite Nat2Z.inj_add in Hen. change (Z.of_nat 1) with 1 in Hen. rewrite Hen in *. simpl in *.
  unfold memcpy in Hp. pose proof (read_cells [x] [] (SZ * 1)) as Hrd. simpl in Hrd.
  rewrite !app_nil_r in Hrd. rewrite Hrd in Hp; [|by apply sized_one|done]. simpl in Hp.
  destruct (mem_write _ _ _); simpl in *; [|done]. simplify_eq.
  eexists. split; [|done]. by rewrite Hc1.
Qed.

Lemma array_removeCount_spec a l i n count :
  arr_rep a l -> (i + n <= length l)%nat -> count = Z.of_nat (length l - n) ->
  exists data, memmove (a_data a) (SZ * Z.of_nat i) (SZ * (Z.of_nat i + Z.of_nat n))
      (SZ * Z.of_nat (length l - (i + n))) = Some data /\
    arr_rep (array_set a data count) (take i l ++ drop (i + n) l).
Proof.
  intros (Hs & Hl & Hc & spare & Hd) Hi ->. rewrite Hd.
  destruct (remove_cells sz l spare i n (SZ * Z.of_nat i) (SZ * (Z.of_nat i + Z.of_nat n))
    (SZ * (Z.of_nat (length l - (i + n))))) as (spare' & -> & Hsp); [done|lia|lia|nlen|nlen|].
  eexists. split; [done|]. eapply arr_rep_set; [done| |nlen|done|].
  - apply sized_app. split; [by apply sized_take|by apply sized_drop].
  - rewrite Hd, !length_app, !(concat_length sz), Hsp, length_app, length_take, length_drop;
      [nia|done|]. apply sized_app. split; [by apply sized_take|by apply sized_drop].
Qed.

Lemma array_shrink_spec a l n :
  arr_rep a l -> (n <= length l)%nat -> arr_rep (array_set_count a (Z.of_nat n)) (take n l).
Proof.
  intros (Hs & Hl & Hc & spare & Hd) Hn. unfold array_set_count.
  eapply (arr_rep_set _ _ _ _ (concat (drop n l) ++ spare)); [done|by apply sized_take| | |done].
  - nlen.
  - by rewrite Hd, app_assoc, <- concat_app, take_drop.
Qed.

Lemma array_at_spec a l i x :
  arr_rep a l -> l !! i = Some x -> cell_at sz (a_data a) (Z.of_nat i) = Some x.
Proof. intros (Hs & Hl & Hc & spare & Hd) Hi. rewrite Hd. by apply cell_at_concat. Qed.

Lemma concat_replicate_cell m : concat (replicate m zero_cell) = replicate (sz * m) 0.
Proof.
  induction m as [|m IH]; [by rewrite Nat.mul_0_r|]. simpl. rewrite IH.
  rewrite Nat.mul_succ_r, Nat.add_comm. by rewrite replicate_add.
Qed.

Lemma sized_replicate m x : length x = sz -> sized sz (replicate m x).
Proof. intros Hx. by apply Forall_replicate. Qed.

Lemma resized_grow n x l : (length l <= n)%nat -> resized n x l = l ++ replicate (n - length l) x.
Proof. intros H. unfold resized. by rewrite take_ge. Qed.

Lemma resized_shrink n x l : (n <= length l)%nat -> resized n x l = take n l.
Proof.
  intros H. unfold resized. replace (n - length l)%nat with 0%nat by lia. apply app_nil_r.
Qed.

Lemma array_grow_spec a l n :
  arr_rep a l -> (length l <= n)%nat -> fits n ->
  exists a', array_grow sz (Z.of_nat n) a = Some a' /\
    arr_rep a' (l ++ replicate (n - length l) zero_cell).
Proof.
  intros Ha Hn Hf. unfold array_grow.
  destruct (array_ensureCapacity_spec a l _ Ha Hf) as (a1 & -> & _ & Hroom & _). simpl.
  destruct Hroom as (Hs & Hl & Hc1 & spare & Hd & Hr). rewrite Hc1, Hd, wrapU_id by lia32.
  unfold memset. rewrite decide_True by nia.
  replace (Z.to_nat (SZ * (Z.of_nat n - Z.of_nat (length l)))) with (sz * (n - length l))%nat
    by nia.
  rewrite <- concat_replicate_cell.
  assert (Hz : sized sz (replicate (n - length l) zero_cell))
    by by apply sized_replicate, length_replicate.
  rewrite mem_write_mid; [|rewrite (concat_length sz) by done; lia|].
  2:{ rewrite (concat_length sz), length_replicate by done. nia. }
  simpl. eexists. split; [done|].
  eapply arr_rep_set; [done|by apply sized_app| | |].
  - nlen.
  - by rewrite concat_app, <- app_assoc.
  - rewrite Hd, !length_app, length_drop, !(concat_length sz), length_replicate by done. nia.
Qed.

Lemma array_fill_spec n a l x :
  arr_room a l (length l + n) -> length x = sz -> fits (length l + n) ->
  exists a', array_fill sz n x a = Some a' /\ arr_rep a' (l ++ replicate n x).
Proof.
  revert a l. induction n as [|n IH]; intros a l (Hs & Hl & Hc & spare & Hd & Hr) Hx Hf; simpl.
  { exists a. rewrite app_nil_r. split; [done|]. split_and!; [done..|by exists spare]. }
  rewrite Hc, Hd. pose proof (concat_length sz l Hl) as Hcl.
  rewrite mem_write_mid by nia. simpl. rewrite wrapU_id by lia32.
  destruct (IH (array_set a (concat l ++ x ++ drop (length x) spare) (Z.of_nat (length l) + 1))
    (l ++ [x])) as (a' & Hfill & Hrep); [|done|len|].
  - split; [apply array_set_shape; [done|]|].
    { rewrite Hd, !length_app, length_drop. nia. }
    split; [apply sized_app; split; [done|by apply sized_one]|].
    rewrite array_set_data, (proj1 (array_set_inv _ _ _)). split; [nlen|].
    exists (drop (length x) spare). split.
    + rewrite concat_app. simpl. by rewrite app_nil_r, <- app_assoc.
    + rewrite length_app, length_drop. simpl. nia.
  - exists a'. split; [done|]. by rewrite <- app_assoc in Hrep.
Qed.

Lemma array_resize_val_spec a l n x :
  arr_rep a l -> fits n -> length x = sz ->
  exists a', array_resize_val sz (Z.of_nat n) x a = Some a' /\ arr_rep a' (resized n x l).
Proof.
  intros Ha Hf Hx. unfold array_resize_val. pose proof Ha as (_ & _ & Hc & _). rewrite Hc.
  case_decide as Hgt.
  - destruct (array_ensureCapacity_spec a l _ Ha Hf) as (a1 & -> & (_ & _ & Hc1 & _) & Hroom & _).
    simpl. rewrite Hc1. replace (Z.to_nat (Z.of_nat n - Z.of_nat (length l))) with (n - length l)%nat by lia.
    rewrite resized_grow by lia. apply array_fill_spec; [|done|].
    + by replace (length l + (n - length l))%nat with n by lia.
    + by replace (length l + (n - length l))%nat with n by lia.
  - eexists. split; [done|]. rewrite resized_shrink by lia. apply array_shrink_spec; [done|lia].
Qed.

Lemma array_resize_spec a l n :
  arr_rep a l -> fits n ->
  exists a', array_resize sz (Z.of_nat n) a = Some a' /\ arr_rep a' (resized n zero_cell l).
Proof.
  intros Ha Hf. unfold array_resize. pose proof Ha as (_ & _ & Hc & _). rewrite Hc.
  case_decide as Hgt.
  - rewrite resized_grow by lia. apply array_grow_spec; [done|lia|done].
  - eexists. split; [done|]. rewrite resized_shrink by lia. apply array_shrink_spec; [done|lia].
Qed.

Lemma resized_length n x l : length (resized n x l) = n.
Proof. unfold resized. rewrite length_app, length_take, length_replicate. lia. Qed.

Lemma array_assign_spec a l k :
  arr_rep a l -> fits (length k) -> sized sz k ->
  exists a', array_assign sz (concat k) (Z.of_nat (length k)) a = Some a' /\ arr_rep a' k.
Proof.
  intros Ha Hf Hk. unfold array_assign.
  destruct (array_resize_spec a l (length k) Ha Hf) as (a1 & -> & Ha1). simpl.
  pose proof Ha1 as (Hs1 & Hl1 & Hc1 & spare & Hd1). rewrite resized_length in Hc1.
  pose proof (append_cells sz [] k (a_data a1) (concat k) [] 0 (SZ * a_count a1)) as Hcpy.
  simpl in Hcpy. rewrite app_nil_r, Hc1 in Hcpy. rewrite Hc1.
  assert (Hlen : (sz * length k <= length (a_data a1))%nat).
  { rewrite Hd1, length_app, (concat_length sz), resized_length by done. lia. }
  rewrite Hcpy; [|constructor|done|done|done|lia|lia]. simpl. eexists. split; [done|].
  eapply arr_rep_set; [done|done|done|done|].
  rewrite length_app, length_drop, (concat_length sz) by done. lia.
Qed.

(** *** [swapElems] *)

Lemma array_set_cell a l i x :
  arr_rep a l -> (i < length l)%nat -> length x = sz ->
  exists data, mem_write (a_data a) (SZ * Z.of_nat i) x = Some data /\
    arr_rep (array_set a data (a_count a)) (<[i := x]> l).
Proof.
  intros (Hs & Hl & Hc & spare & Hd) Hi Hx.
  destruct (set_cell sz l spare i x (SZ * Z.of_nat i)) as (spare' & Hw & Hsp);
    [done|done|lia|lia|lia|].
  rewrite decide_False in Hsp by lia. rewrite Hd, Hw. eexists. split; [done|].
  rewrite (insert_take_drop _ _ _ Hi). eapply arr_rep_set; [done| | |done|].
  - apply sized_app. split; [by apply sized_take|]. apply sized_cons.
    split; [done|by apply sized_drop].
  - rewrite Hc. nlen.
  - rewrite Hd, !length_app, !(concat_length sz), Hsp; [|done|].
    + rewrite length_app, length_take. simpl. rewrite length_drop. nia.
    + apply sized_app. split; [by apply sized_take|]. apply sized_cons.
      split; [done|by apply sized_drop].
Qed.

Lemma array_set_twice a d1 d2 c1 c2 :
  array_set (array_set a d1 c1) d2 c2 = array_set a d2 c2.
Proof. unfold array_set. by destruct a as [? ? ? []]. Qed.

(** After [i] rounds the outer [i] elements on either side are exchanged. *)
Definition swapped (l cur : list (list Z)) (i : nat) : Prop :=
  length cur = length l /\
  forall j, (j < length l)%nat ->
    cur !! j = if decide (j < i \/ length l <= j + i)%nat then l !! (length l - 1 - j)%nat
               else l !! j.

Lemma array_swap_loop_spec n i a l cur :
  arr_rep a cur -> swapped l cur i -> (2 * (n + i) <= length l)%nat ->
  exists a' cur', array_swap_loop sz n (Z.of_nat i) a = Some a' /\ arr_rep a' cur' /\
    swapped l cur' (n + i).
Proof.
  revert i a cur. induction n as [|n IH]; intros i a cur Ha Hsw Hn; [by exists a, cur|].
  simpl. pose proof Hsw as [Hlen Hat]. pose proof Ha as (_ & Hsz & Hc & _).
  pose proof (arr_rep_fits a cur Ha) as Hfit. rewrite Hc.
  destruct (lookup_lt_is_Some_2 cur i) as [x Hx]; [lia|].
  destruct (lookup_lt_is_Some_2 cur (length l - 1 - i)) as [y Hy]; [lia|].
  rewrite (array_at_spec a cur i x) by done. simpl.
  replace (Z.of_nat (length cur) - 1 - Z.of_nat i) with (Z.of_nat (length l - 1 - i)) by lia.
  rewrite (array_at_spec a cur (length l - 1 - i) y) by done. simpl.
  pose proof (sized_lookup sz cur _ _ Hsz Hx) as Hxs.
  pose proof (sized_lookup sz cur _ _ Hsz Hy) as Hys.
  destruct (array_set_cell a cur i y) as (d1 & -> & Hr1); [done|lia|done|]. simpl.
  destruct (array_set_cell _ _ (length l - 1 - i) x Hr1) as (d2 & Hw2 & Hr2);
    [rewrite length_insert; lia|done|].
  rewrite array_set_data in Hw2. rewrite Hw2. simpl.
  rewrite array_set_twice, (proj1 (array_set_inv _ _ _)), Hc in Hr2.
  replace (Z.of_nat i + 1) with (Z.of_nat (S i)) by lia.
  destruct (IH (S i) _ _ Hr2) as (a' & cur' & Hgo & Ha' & Hsw'); [|lia|].
  2:{ exists a', cur'. split_and!; [done|done|].
      by rewrite Nat.add_succ_r in Hsw'. }
  split; [by rewrite !length_insert|]. intros j Hj.
  destruct (decide (j = length l - 1 - i)%nat) as [->|Hj1].
  - rewrite list_lookup_insert_eq by (rewrite length_insert; lia).
    rewrite decide_True by lia. rewrite <- Hx, Hat, decide_False by lia. f_equal. lia.
  - rewrite list_lookup_insert_ne by done. destruct (decide (j = i)) as [->|Hj2].
    + rewrite list_lookup_insert_eq by lia. rewrite decide_True by lia.
      rewrite <- Hy, Hat, decide_False by lia. done.
    + rewrite list_lookup_insert_ne, Hat by done.
      repeat case_decide; try lia; done.
Qed.

Lemma array_swapElems_spec a l :
  arr_rep a l -> exists a', array_swapElems sz a = Some a' /\ arr_rep a' (reverse l).
Proof.
  intros Ha. unfold array_swapElems. pose proof Ha as (_ & _ & Hc & _). rewrite Hc.
  change 2 with (Z.of_nat 2). rewrite <- Nat2Z.inj_div, Nat2Z.id.
  change 0 with (Z.of_nat 0).
  pose proof (Nat.div_mod (length l) 2 ltac:(lia)) as Hdm.
  pose proof (Nat.mod_upper_bound (length l) 2 ltac:(lia)) as Hmb.
  destruct (array_swap_loop_spec (length l / 2) 0 a l l Ha) as (a' & cur & -> & Ha' & Hlen & Hat);
    [|lia|].
  - split; [done|]. intros j Hj. rewrite decide_False by lia. done.
  - exists a'. split; [done|]. assert (cur = reverse l) as ->; [|done].
    apply list_eq. intros j. destruct (decide (j < length l)%nat) as [Hj|Hj].
    + rewrite Hat by done. rewrite reverse_lookup by done.
      replace (length l - S j)%nat with (length l - 1 - j)%nat by lia.
      case_decide; [done|]. f_equal. lia.
    + rewrite (lookup_ge_None_2 cur) by lia.
      by rewrite (lookup_ge_None_2 (reverse l)) by (rewrite length_reverse; lia).
Qed.

(** ** The refinement *)

Lemma array_free_rep a l : arr_rep a l -> arr_rep (array_free StorageSize a) [].
Proof.
  intros ((_ & _ & Hi) & _). split; [split_and!; simpl; (lia || done)|].
  split_and!; [constructor|done|by eexists].
Qed.

Lemma array_pop_spec a l x :
  arr_rep a (l ++ [x]) ->
  exists a', array_pop sz a = Some (a', x) /\ arr_rep a' l.
Proof.
  intros Ha. pose proof (arr_rep_fits _ _ Ha) as Hf. pose proof Ha as (_ & _ & Hc & _).
  unfold array_pop. rewrite length_app in *. simpl in *. rewrite Hc, wrapU_id by lia32.
  replace (Z.of_nat (length l + 1) - 1) with (Z.of_nat (length l)) by lia.
  rewrite (array_at_spec a _ _ x Ha) by by apply list_lookup_middle. simpl.
  eexists. split; [done|]. pose proof (array_shrink_spec _ _ (length l) Ha) as H.
  rewrite take_app_length in H. apply H. len.
Qed.

Lemma arr_run_refines op a l l' r :
  arr_rep a l -> arr_spec op l = Some (l', r) ->
  exists a', arr_run op a = Some (a', r) /\ arr_rep a' l'.
Proof.
  intros Ha Hop. pose proof (arr_rep_fits a l Ha) as Hfit. pose proof Ha as (_ & Hl & Hc & _).
  destruct op as [i x|i k|x|k|k|i|i j|i n|n|n|n x|n|k| | | |i| |]; simpl in *;
    simplify_option_eq; repeat match goal with
    | H : Is_true (cell_ok _ _) |- _ => apply Is_true_true, cell_ok_spec in H
    | H : Is_true (arr_cells _) |- _ => apply Is_true_true, cells_ok_spec in H
    end.
  - destruct (array_insert_spec a l i x) as (a' & -> & ?); [done..|]. by exists a'.
  - destruct (array_insert_items_spec a l k i (concat k) []) as (a' & -> & ?);
      [done..|by rewrite app_nil_r|]. by exists a'.
  - destruct (array_add_spec a l x) as (a' & -> & ?); [done..|]. by exists a'.
  - destruct (array_push_items_spec a l k (concat k) []) as (a' & -> & ?);
      [done..|by rewrite app_nil_r|]. by exists a'.
  - destruct (array_push_items_spec a l k (concat k) []) as (a' & Hp & ?);
      [done..|by rewrite app_nil_r|].
    unfold array_join, a_data at 1. simpl. rewrite Hp. by exists a'.
  - unfold array_remove. rewrite Hc, !wrapU_id by lia32.
    destruct (array_removeCount_spec a l i 1 (Z.of_nat (length l) - 1)) as (data & Hm & ?);
      [done|lia|lia|].
    replace (Z.of_nat (length l) - 1 - Z.of_nat i) with (Z.of_nat (length l - (i + 1))) by lia.
    change (Z.of_nat 1) with 1 in Hm. rewrite Hm. simpl. rewrite Nat.add_1_r in *.
    by eexists.
  - unfold array_removeRange.
    rewrite Hc, (wrapU_id 32 (Z.of_nat j - Z.of_nat i)), !wrapU_id by lia32.
    destruct (array_removeCount_spec a l i (j - i)
      (Z.of_nat (length l) - (Z.of_nat j - Z.of_nat i))) as (data & Hm & Hrep); [done|lia|lia|].
    replace (i + (j - i))%nat with j in * by lia.
    replace (Z.of_nat i + Z.of_nat (j - i)) with (Z.of_nat j) in Hm by lia.
    replace (Z.of_nat (length l) - Z.of_nat j) with (Z.of_nat (length l - j)) by lia.
    rewrite Hm. by eexists.
  - unfold array_removeCount. rewrite Hc, !wrapU_id by lia32.
    destruct (array_removeCount_spec a l i n (Z.of_nat (length l) - Z.of_nat n))
      as (data & Hm & ?); [done|lia|lia|].
    replace (Z.of_nat (length l) - Z.of_nat i - Z.of_nat n)
      with (Z.of_nat (length l - (i + n))) by lia.
    rewrite Hm. by eexists.
  - eexists. split; [done|]. by apply array_shrink_spec.
  - destruct (array_grow_spec a l n) as (a' & -> & ?); [done..|].
    rewrite resized_grow by done. by exists a'.
  - destruct (array_resize_val_spec a l n x) as (a' & -> & ?); [done..|]. by exists a'.
  - destruct (array_resize_spec a l n) as (a' & -> & ?); [done..|]. by exists a'.
  - destruct (array_assign_spec a l l') as (a' & -> & ?); [done..|]. by exists a'.
  - apply last_Some in Heqo as [l0 ->].
    destruct (array_pop_spec _ _ _ Ha) as (a' & -> & Ha'). exists a'. split; [done|].
    rewrite length_app. simpl. rewrite Nat.add_sub, take_app_length. done.
  - eexists. split; [done|]. by apply (array_shrink_spec a l 0); [|lia].
  - eexists. split; [done|]. by eapply array_free_rep.
  - unfold array_getElement. erewrite (array_at_spec a l') by done. by exists a.
  - apply last_Some in Heqo as [l0 ->]. unfold array_back. rewrite Hc, length_app. simpl.
    replace (Z.of_nat (length l0 + 1) - 1) with (Z.of_nat (length l0)) by lia.
    erewrite array_at_spec; [by exists a|done|by apply list_lookup_middle].
  - destruct (array_swapElems_spec a l) as (a' & -> & ?); [done|]. by exists a'.
Qed.

(** [Array]: every sequence of operations that respects the assertions of the
    code, starting from any array and whatever fresh blocks contain, has the
    results of the same operations on lists; growing moves the elements to a
    larger block, from the inline storage to the pool, without losing one. *)
Theorem array_refines ops a l l' rs :
  arr_rep a l -> exec_all arr_spec ops l = Some (l', rs) ->
  exists a', exec_all arr_run ops a = Some (a', rs) /\ arr_rep a' l'.
Proof. apply exec_refines. intros op s x x' r. apply arr_run_refines. Qed.

(** [find] returns the first position of the item, and [exist] whether there
    is one. *)
Theorem array_find_correct a l item :
  arr_rep a l ->
  exists r, array_find sz item a = Some r /\
    array_exist sz item a = Some (bool_decide (item ∈ l)) /\
    match r with
    | Some pos => exists p, pos = Z.of_nat p /\ l !! p = Some item /\
                    forall j, (j < p)%nat -> l !! j <> Some item
    | None => item ∉ l
    end.
Proof.
  intros (_ & Hl & Hc & spare & Hd). unfold array_exist, array_find.
  rewrite Hc, Hd, Nat2Z.id. change 0 with (Z.of_nat 0).
  destruct (linear_find_spec sz l spare item 0 (length l)) as (r & -> & Hr); [done|lia|].
  exists r. split; [done|]. simpl. destruct r as [pos|].
  - destruct Hr as (p & -> & _ & Hp & Hmin). split.
    + rewrite (bool_decide_eq_true_2 (item ∈ l)) by by eapply list_elem_of_lookup_2.
      by rewrite bool_decide_eq_true_2.
    + exists p. split_and!; [done|done|]. intros j Hj. apply Hmin. lia.
  - assert (Hno : item ∉ l).
    { intros [j Hj]%list_elem_of_lookup_1. apply (Hr j); [lia|done]. }
    split; [|done]. rewrite (bool_decide_eq_false_2 (item ∈ l)) by done.
    rewrite bool_decide_eq_false_2; [done|]. tauto.
Qed.

(** *** The operations that count bytes as elements *)

(** For one-byte elements [operator==] compares the arrays. *)
Lemma array_eq_bytes a l b k :
  sz = 1%nat -> arr_rep a l -> arr_rep b k -> array_eq a b = Some (bool_decide (l = k)).
Proof.
  intros H1 (_ & Hl & Hca & spare & Hd) (_ & Hk & Hcb & spare' & Hd').
  unfold array_eq. rewrite Hca, Hcb. case_decide as Hne.
  - rewrite bool_decide_eq_false_2; [done|]. intros ->. done.
  - unfold memcmp_eq. rewrite Hd, Hd'.
    rewrite (read_cells l), (read_cells k); [|done|rewrite H1; lia|done|rewrite H1; lia].
    simpl. f_equal. apply bool_decide_ext. split; [|by intros ->].
    by apply (concat_inj sz).
Qed.
End Refinement.

(** A pool whose fresh blocks are filled with a byte. *)
Definition filled_pool (byte : Z) : MemoryPool.
Proof.
  refine {| pool_allocate n := replicate (Z.to_nat n) byte |}.
  intros n Hn. rewrite length_replicate. lia.
Defined.

(** Four-byte elements: [operator==] takes arrays that differ in the second byte
    of their only element for equal. *)
Lemma array_eq_wrong :
  array_eq {| a_count := 1; a_capacity := 1; a_inline := []; a_block := Some [1; 0; 0; 0] |}
           {| a_count := 1; a_capacity := 1; a_inline := []; a_block := Some [1; 7; 0; 0] |}
  = Some true.
Proof. reflexivity. Qed.

(** Four-byte elements: [insert] of an array of two copies two bytes of it and
    leaves the rest of the gap as the shift left it. *)
Lemma array_insert_array_wrong :
  let a := {| a_count := 0; a_capacity := 2; a_inline := [];
              a_block := Some [9; 9; 9; 9; 9; 9; 9; 9] |} in
  let items := {| a_count := 2; a_capacity := 2; a_inline := [];
                  a_block := Some [1; 2; 3; 4; 5; 6; 7; 8] |} in
  (a' ← @array_insert_array 4 (filled_pool 0) 0 items a; a_block a')
  = Some [1; 2; 9; 9; 9; 9; 9; 9].
Proof. reflexivity. Qed.

(** Two-byte elements in an array with inline storage for one: the third
    addition moves it to a block of the pool. *)
Lemma array_refines_witness :
  arr_rep 2 1 (array_new 1 [9; 9]) [] /\
  exists a', exec_all (@arr_run 2 1 (filled_pool 255))
      [AAdd [1; 0]; AAdd [2; 0]; APushItems [[3; 0]; [4; 0]]; ARemoveRange 1 3; AGrow 3;
       ASwapElems; APop] (array_new 1 [9; 9]) =
    Some (a', [RNum 0; RNum 1; RUnit; RUnit; RUnit; RUnit; RElem [1; 0]]) /\
    arr_rep 2 1 a' [[0; 0]; [4; 0]].
Proof.
  assert (Hr : 0 <= 1 < 2 ^ 32) by lia32.
  assert (H : arr_rep 2 1 (array_new 1 [9; 9]) []) by (apply array_new_rep; lia || reflexivity).
  split; [exact H|].
  apply (@array_refines 2 1 (filled_pool 255) ltac:(lia) Hr _ _ _ _ _ H).
  vm_compute. reflexivity.
Defined.

Lemma array_find_correct_witness :
  let a := {| a_count := 2; a_capacity := 2; a_inline := []; a_block := Some [1; 0; 2; 0] |} in
  arr_rep 2 0 a [[1; 0]; [2; 0]] /\
  exists r, array_find 2 [2; 0] a = Some r /\
    array_exist 2 [2; 0] a = Some (bool_decide ([2; 0] ∈ [[1; 0]; [2; 0]])) /\
    match r with
    | Some pos => exists p, pos = Z.of_nat p /\ [[1; 0]; [2; 0]] !! p = Some [2; 0] /\
                    forall j, (j < p)%nat -> [[1; 0]; [2; 0]] !! j <> Some [2; 0]
    | None => [2; 0] ∉ [[1; 0]; [2; 0]]
    end.
Proof.
  intros a. assert (H : arr_rep 2 0 a [[1; 0]; [2; 0]]).
  { split; [split_and!; [simpl; lia|simpl; lia32|reflexivity|reflexivity]|].
    split; [repeat (apply Forall_cons; split; [reflexivity|]); apply Forall_nil_2|].
    split; [reflexivity|]. exists []. reflexivity. }
  split; [exact H|]. exact (array_find_correct 2 0 ltac:(lia) ltac:(lia32) a _ [2; 0] H).
Defined.
