(* ===== verification/SortedArray.v ===== *)
(** * [SortedArray]: [src/src/common/classes/array.h]

    An array that keeps itself sorted on every [add], or is sorted on demand
    with the C library's [qsort]. *)

From stdpp Require Import sorting.
From S2P Require Import Prelude Memory Search Vector Array.

(** The C library's [qsort]: for a consistent comparison the result is a sorted
    permutation. *)
Class Qsort := {
  qsort : (list Z -> list Z -> Z) -> list (list Z) -> list (list Z);
  qsort_perm cmp l : qsort cmp l ≡ₚ l;
  qsort_ordered cmp l :
    (forall a b, cmp a b <= 0 \/ cmp b a <= 0) ->
    (forall a b c, cmp a b <= 0 -> cmp b c <= 0 -> cmp a c <= 0) ->
    forall i j x y, (i < j)%nat -> qsort cmp l !! i = Some x -> qsort cmp l !! j = Some y ->
      cmp x y <= 0
}.

(** ** The code *)

Definition FB_ARRAY_SORT_MANUAL : Z := 0.
Definition FB_ARRAY_SORT_WHEN_ADD : Z := 1.

Record SortedArray := { sa_array : Array; sa_sortMode : Z; sa_sorted : bool }.

Section Ops.
Context (sz : nat) {Key : Type} (greaterThan : Key -> Key -> bool) (KeyOfValue : list Z -> Key).
Context `{pool : !MemoryPool} `{libc : !Qsort}.

(** [SortedArray()] *)
Definition sorted_array_new (a : Array) : SortedArray :=
  {| sa_array := a; sa_sortMode := FB_ARRAY_SORT_WHEN_ADD; sa_sorted := true |}.

Definition sorted_array_find (item : Key) (s : SortedArray) : option (Z * bool) :=
  find_sorted greaterThan KeyOfValue (cell_at sz (a_data (sa_array s)))
    (a_count (sa_array s)) item.

Definition sorted_array_exist (item : Key) (s : SortedArray) : option bool :=
  '(_, found) ← sorted_array_find item s; Some found.

Definition sorted_array_add (item : list Z) (s : SortedArray) : option (SortedArray * Z) :=
  '(pos, sorted) ←
    (if decide (sa_sortMode s = FB_ARRAY_SORT_WHEN_ADD) then
       '(pos, _) ← sorted_array_find (KeyOfValue item) s; Some (pos, sa_sorted s)
     else Some (a_count (sa_array s), false));
  a ← array_insert sz pos item (sa_array s);
  Some ({| sa_array := a; sa_sortMode := sa_sortMode s; sa_sorted := sorted |}, pos).

(** The lambda of [sort]. *)
Definition sort_compare (a b : list Z) : Z :=
  let first := KeyOfValue a in
  let second := KeyOfValue b in
  if greaterThan first second then 1
  else if greaterThan second first then -1
  else 0.

(** The elements [qsort] sees: [n] cells from [data] on. *)
Fixpoint cells_of (n : nat) (data : list Z) : list (list Z) :=
  match n with
  | O => []
  | S n => take sz data :: cells_of n (drop sz data)
  end.

Definition sorted_array_sort (s : SortedArray) : option SortedArray :=
  if sa_sorted s then Some s
  else
    let a := sa_array s in
    data ← mem_write (a_data a) 0
             (concat (qsort sort_compare (cells_of (Z.to_nat (a_count a)) (a_data a))));
    Some {| sa_array := array_set a data (a_count a); sa_sortMode := sa_sortMode s;
            sa_sorted := true |}.

Definition sorted_array_setSortMode (sm : Z) (s : SortedArray) : option SortedArray :=
  s ← (if decide (sa_sortMode s <> FB_ARRAY_SORT_WHEN_ADD /\ sm = FB_ARRAY_SORT_WHEN_ADD /\
                  sa_sorted s = false)
       then sorted_array_sort s else Some s);
  Some {| sa_array := sa_array s; sa_sortMode := sm; sa_sorted := sa_sorted s |}.
End Ops.

(** ** The invariant *)

Section Invariant.
Context (sz : nat) {Key : Type} (gt : Key -> Key -> bool) (key : list Z -> Key).
Context `{swo : !StrictWeakOrder gt} (StorageSize : Z).
Context `{pool : !MemoryPool} `{libc : !Qsort}.
Hypothesis sz_pos : (0 < sz)%nat.
Hypothesis StorageSize_range : 0 <= StorageSize < 2 ^ 32.

(** The elements are [l]; the flag [sorted] is true only of a sorted array, and
    always in the mode that sorts on every [add]. *)
Definition sa_rep (s : SortedArray) (l : list (list Z)) : Prop :=
  arr_rep sz StorageSize (sa_array s) l /\
  (sa_sorted s = true -> sorted gt key l) /\
  (sa_sortMode s = FB_ARRAY_SORT_WHEN_ADD -> sa_sorted s = true).

Lemma cells_of_concat l rest : sized sz l -> cells_of sz (length l) (concat l ++ rest) = l.
Proof.
  induction 1 as [|x l Hx _ IH]; simpl; [done|].
  rewrite <- app_assoc, take_app_length', drop_app_length' by done. by rewrite IH.
Qed.

Lemma sort_compare_le a b : sort_compare gt key a b <= 0 <-> gt (key a) (key b) = false.
Proof.
  unfold sort_compare. destruct (gt (key a) (key b)).
  - split; [lia|done].
  - destruct (gt (key b) (key a)); split; (done || lia).
Qed.

Lemma qsort_sorted l : sorted gt key (qsort (sort_compare gt key) l).
Proof.
  intros i j x y Hij Hx Hy. apply sort_compare_le.
  eapply qsort_ordered; [| |exact Hij|exact Hx|exact Hy].
  - intros a b. rewrite !sort_compare_le. destruct (gt (key a) (key b)) eqn:H; [|by left].
    right. by apply swo_asym.
  - intros a b c. rewrite !sort_compare_le. apply swo_negtrans.
Qed.

Lemma sorted_array_sort_spec s l :
  sa_rep s l ->
  exists s' l', sorted_array_sort sz gt key s = Some s' /\ sa_rep s' l' /\
    l' ≡ₚ l /\ sa_sorted s' = true.
Proof.
  intros (Ha & Hs & Hm). unfold sorted_array_sort. destruct (sa_sorted s) eqn:Hsd.
  { exists s, l. split_and!; [done|split_and!; [done|by rewrite Hsd|by rewrite Hsd]|done|done]. }
  pose proof Ha as (Hshape & Hl & Hc & spare & Hd).
  rewrite Hc, Nat2Z.id, Hd, cells_of_concat by done.
  set (l' := qsort (sort_compare gt key) l).
  assert (Hp : l' ≡ₚ l) by apply qsort_perm.
  assert (Hl' : sized sz l') by (unfold sized; by rewrite Hp).
  pose proof (concat_length sz l Hl) as Hcl. pose proof (concat_length sz l' Hl') as Hcl'.
  rewrite (Permutation_length Hp) in Hcl'.
  rewrite (mem_write_mid [] (concat l ++ spare) (concat l')); [|done|rewrite length_app; lia].
  simpl. eexists _, l'. split; [done|]. split; [|done]. split; [|simpl; split; [|done]].
  - simpl. eapply arr_rep_set; [done|done|exact Hl'| |reflexivity|].
    { apply Permutation_length in Hp. lia. }
    rewrite Hd, length_app, length_drop, !length_app. lia.
  - intros _. apply qsort_sorted.
Qed.

Lemma sorted_array_find_spec s l item :
  sa_rep s l -> sa_sorted s = true -> Z.of_nat (length l) < 2 ^ 31 ->
  exists pos found, sorted_array_find sz gt key item s = Some (Z.of_nat pos, found) /\
    lower_bound gt key l item pos /\ (found = true <-> Exists (matches gt key item) l).
Proof.
  intros (Ha & Hs & _) Hsd Hlen. pose proof Ha as (_ & Hl & Hc & spare & Hd).
  unfold sorted_array_find. rewrite Hc. apply find_sorted_spec; [done|by apply Hs| |done].
  intros i x Hx. rewrite Hd. by apply cell_at_concat.
Qed.

Lemma sorted_array_add_spec s l x :
  sa_rep s l -> Z.of_nat (length l) < 2 ^ 31 -> length x = sz ->
  exists s' pos, sorted_array_add sz gt key x s = Some (s', Z.of_nat pos) /\
    (pos <= length l)%nat /\ sa_rep s' (take pos l ++ x :: drop pos l).
Proof.
  intros Hrep Hlen Hx. pose proof Hrep as (Ha & Hs & Hm). unfold sorted_array_add.
  assert (Hins : forall pos, (pos <= length l)%nat -> exists a',
    array_insert sz (Z.of_nat pos) x (sa_array s) = Some a' /\
    arr_rep sz StorageSize a' (take pos l ++ x :: drop pos l)).
  { intros pos Hpos. apply array_insert_spec; first [done|lia32]. }
  case_decide as Hmode.
  - destruct (sorted_array_find_spec s l (key x) Hrep (Hm Hmode) Hlen)
      as (pos & found & -> & Hlb & _). simpl.
    pose proof Hlb as [Hpos _]. destruct (Hins pos Hpos) as (a' & -> & Ha'). simpl.
    eexists _, pos. split; [done|]. split; [done|]. split; [done|]. simpl. split; [|by auto].
    intros _. apply sorted_insert; [done| |done]. apply Hs, Hm, Hmode.
  - pose proof Ha as (_ & _ & Hc & _). simpl. rewrite Hc.
    destruct (Hins (length l) ltac:(lia)) as (a' & -> & Ha'). simpl.
    eexists _, (length l). split; [done|]. split; [done|]. split; [done|]. simpl.
    split; [done|]. by intros ?.
Qed.

Lemma sorted_array_setSortMode_spec s l sm :
  sa_rep s l -> (sm = FB_ARRAY_SORT_MANUAL \/ sm = FB_ARRAY_SORT_WHEN_ADD) ->
  exists s' l', sorted_array_setSortMode sz gt key sm s = Some s' /\ sa_rep s' l' /\
    l' ≡ₚ l /\ (sm = FB_ARRAY_SORT_WHEN_ADD -> sa_sorted s' = true).
Proof.
  intros Hrep Hsm. unfold sorted_array_setSortMode. case_decide as Hc.
  - destruct (sorted_array_sort_spec s l Hrep) as (s' & l' & -> & (Ha & Hs & Hm) & Hp & Hsd).
    simpl. eexists _, l'. split; [done|]. simpl. split; [|by split].
    split; [done|]. simpl. split; [exact Hs|by intros _].
  - pose proof Hrep as (Ha & Hs & Hm). simpl. eexists _, l. split; [done|].
    assert (Hwhen : sm = FB_ARRAY_SORT_WHEN_ADD -> sa_sorted s = true).
    { intros ->. destruct (decide (sa_sortMode s = FB_ARRAY_SORT_WHEN_ADD)); [by auto|].
      destruct (sa_sorted s) eqn:Hsd; [done|]. by destruct Hc. }
    split; [|done]. split; [done|]. split; done.
Qed.
End Invariant.

(** ** Sequences of operations *)

Inductive SortedOp :=
  | SAdd (item : list Z)
  | SSetMode (sm : Z)
  | SSort.

Definition sorted_run (sz : nat) {Key} (gt : Key -> Key -> bool) (key : list Z -> Key)
    `{!MemoryPool} `{!Qsort} (op : SortedOp) (s : SortedArray) : option SortedArray :=
  match op with
  | SAdd x => '(s, _) ← sorted_array_add sz gt key x s; Some s
  | SSetMode sm => sorted_array_setSortMode sz gt key sm s
  | SSort => sorted_array_sort sz gt key s
  end.

Fixpoint sorted_run_all (sz : nat) {Key} (gt : Key -> Key -> bool) (key : list Z -> Key)
    `{!MemoryPool} `{!Qsort} (ops : list SortedOp) (s : SortedArray) : option SortedArray :=
  match ops with
  | [] => Some s
  | op :: ops => s ← sorted_run sz gt key op s; sorted_run_all sz gt key ops s
  end.

(** The items added. *)
Definition added (ops : list SortedOp) : list (list Z) :=
  omap (fun op => match op with SAdd x => Some x | _ => None end) ops.

Definition sorted_op_ok (sz : nat) (op : SortedOp) : Prop :=
  match op with
  | SAdd x => length x = sz
  | SSetMode sm => sm = FB_ARRAY_SORT_MANUAL \/ sm = FB_ARRAY_SORT_WHEN_ADD
  | SSort => True
  end.

(** [SortedArray]: after any additions, sorts and changes of mode the array
    holds exactly the items added; whenever its [sorted] flag is set, and always
    in the mode that sorts on [add], it is sorted and [find] returns the first
    position not below the key and whether an element matches. *)
Theorem sorted_array_correct (sz : nat) {Key} (gt : Key -> Key -> bool) (key : list Z -> Key)
    (StorageSize : Z) `{swo : !StrictWeakOrder gt} `{pool : !MemoryPool} `{libc : !Qsort}
    storage ops item :
  (0 < sz)%nat -> 0 <= StorageSize < 2 ^ 32 ->
  Z.of_nat (length storage) = Z.of_nat sz * StorageSize ->
  Forall (sorted_op_ok sz) ops -> Z.of_nat (length ops) < 2 ^ 31 ->
  exists s l, sorted_run_all sz gt key ops (sorted_array_new (array_new StorageSize storage))
      = Some s /\
    sa_rep sz gt key StorageSize s l /\ l ≡ₚ added ops /\
    (sa_sorted s = true ->
     exists pos found, sorted_array_find sz gt key item s = Some (Z.of_nat pos, found) /\
       lower_bound gt key l item pos /\ (found = true <-> Exists (matches gt key item) l)).
Proof.
  intros Hsz Hss Hst Hops Hlen.
  assert (Hgen : forall ops s l, Forall (sorted_op_ok sz) ops -> sa_rep sz gt key StorageSize s l ->
    Z.of_nat (length l + length ops) < 2 ^ 31 ->
    exists s' l', sorted_run_all sz gt key ops s = Some s' /\
      sa_rep sz gt key StorageSize s' l' /\ l' ≡ₚ l ++ added ops /\
      Z.of_nat (length l') < 2 ^ 31).
  { clear -swo Hsz Hss. intros ops. induction ops as [|op ops IH]; intros s l Hok Hrep Hlen; simpl.
    { exists s, l. rewrite app_nil_r. split_and!; [done|done|done|simpl in Hlen; lia]. }
    apply Forall_cons in Hok as [Hop Hok].
    assert (exists s1 l1, sorted_run sz gt key op s = Some s1 /\
      sa_rep sz gt key StorageSize s1 l1 /\ l1 ++ added ops ≡ₚ l ++ added (op :: ops) /\
      (length l1 + length ops <= length l + S (length ops))%nat)
      as (s1 & l1 & -> & Hrep1 & Hp1 & Hl1).
    { destruct op as [x|sm|]; simpl in *.
      - destruct (sorted_array_add_spec sz gt key StorageSize Hsz s l x)
          as (s1 & pos & -> & Hpos & Hrep1); [done|lia|done|].
        simpl. eexists _, _. split; [done|]. split; [done|]. split; [|len].
        rewrite <- (take_drop pos l) at 3. rewrite <- !app_assoc. simpl.
        apply Permutation_app_head. by rewrite <- Permutation_middle.
      - destruct (sorted_array_setSortMode_spec sz gt key StorageSize Hsz s l sm)
          as (s1 & l1 & -> & Hrep1 & Hp & _); [done|done|].
        eexists _, l1. split; [done|]. split; [done|]. split; [by rewrite Hp|].
        apply Permutation_length in Hp. lia.
      - destruct (sorted_array_sort_spec sz gt key StorageSize Hsz s l)
          as (s1 & l1 & -> & Hrep1 & Hp & _); [done|].
        eexists _, l1. split; [done|]. split; [done|]. split; [by rewrite Hp|].
        apply Permutation_length in Hp. lia. }
    simpl. destruct (IH s1 l1 Hok Hrep1) as (s' & l' & -> & Hrep' & Hp' & Hl'); [simpl in Hlen; lia|].
    exists s', l'. split_and!; [done|done|by rewrite Hp'|done]. }
  destruct (Hgen ops (sorted_array_new (array_new StorageSize storage)) [])
    as (s & l & Hrun & Hrep & Hp & Hl).
  { done. }
  { split; [by apply array_new_rep|]. split; [intros _; apply sorted_nil|done]. }
  { simpl. lia. }
  exists s, l. split_and!; [done|done|done|]. intros Hsd.
  by eapply sorted_array_find_spec.
Qed.

(** *** A concrete [qsort] *)

Lemma StronglySorted_lookup {A} (R : relation A) l :
  StronglySorted R l ->
  forall i j x y, (i < j)%nat -> l !! i = Some x -> l !! j = Some y -> R x y.
Proof.
  induction 1 as [|a l _ IH Ha]; intros i j x y Hij Hi Hj; [done|].
  destruct j as [|j]; [lia|]. destruct i as [|i]; simpl in *.
  - simplify_eq. by eapply Forall_lookup_1 in Ha.
  - eapply IH; [|done|done]. lia.
Qed.

Definition cmp_le (cmp : list Z -> list Z -> Z) : relation (list Z) := fun a b => cmp a b <= 0.

#[export] Instance cmp_le_dec cmp a b : Decision (cmp_le cmp a b).
Proof. unfold cmp_le. apply _. Defined.

Definition merge_qsort : Qsort := {|
  qsort cmp l := merge_sort (cmp_le cmp) l;
  qsort_perm cmp l := merge_sort_Permutation (cmp_le cmp) l;
  qsort_ordered cmp l Htot Htrans :=
    StronglySorted_lookup (cmp_le cmp) _
      (@StronglySorted_merge_sort _ (cmp_le cmp) _ Htrans Htot l)
|}.

(** Two-byte elements ordered by their first byte: sorted on [add], then in
    manual mode, then sorted again. *)
Lemma sorted_array_correct_witness :
  let ops := [SAdd [5; 0]; SAdd [3; 1]; SSetMode 0; SAdd [4; 2]; SAdd [1; 3]; SSetMode 1] in
  exists s l, @sorted_run_all 2 Z Z.gtb (hd 0) (filled_pool 0) merge_qsort ops
      (sorted_array_new (array_new 0 [])) = Some s /\
    sa_rep 2 Z.gtb (hd 0) 0 s l /\ l ≡ₚ added ops /\
    (sa_sorted s = true ->
     exists pos found, sorted_array_find 2 Z.gtb (hd 0) 4 s = Some (Z.of_nat pos, found) /\
       lower_bound Z.gtb (hd 0) l 4 pos /\
       (found = true <-> Exists (matches Z.gtb (hd 0) 4) l)).
Proof.
  apply (@sorted_array_correct 2 Z Z.gtb (hd 0) 0 _ (filled_pool 0) merge_qsort [] _ 4);
    [lia|lia32|reflexivity| |simpl; lia32].
  repeat (apply Forall_cons; split; [simpl; (reflexivity || (by left) || (by right))|]).
  apply Forall_nil_2.
Defined.
