(* ===== verification/Stack.v ===== *)
(** * [Stack]: [src/src/common/classes/stack.h]

    A chain of entries, each a vector of at most [Capacity] objects; the top of
    the stack is the last object of the first entry. An entry owns the next one,
    so a chain is a list of entries; the address of an entry, which iterators
    remember and compare, is its number, given by an allocator that never reuses
    one. The abstract stack is the list of its objects, top first. *)

From S2P Require Import Prelude.

(** ** Data *)

Record Entry (Object : Type) := { e_addr : nat; e_data : list Object }.
Arguments e_addr {_}.
Arguments e_data {_}.
Arguments Build_Entry {_}.

Record Stack (Object : Type) := { stk : list (Entry Object); stk_cache : option (Entry Object) }.
Arguments stk {_}.
Arguments stk_cache {_}.
Arguments Build_Stack {_}.

(** [iterator] and [const_iterator]: the address of an entry and a position. *)
Record StackIterator := { it_stk : option nat; it_elem : nat }.

#[export] Instance StackIterator_eq_dec : EqDecision StackIterator.
Proof. solve_decision. Defined.

Section Code.
Context {Object : Type} (Capacity : nat).
Implicit Types (e : Entry Object) (s : Stack Object) (chain : list (Entry Object)).

(** *** Entry *)

Definition entry_count e : nat := length (e_data e).

(** [Entry::push]; [alloc] is the next address. *)
Definition entry_push (x : Object) chain (alloc : nat) : list (Entry Object) * nat :=
  match chain with
  | e :: next =>
      if decide (entry_count e < Capacity)%nat
      then ({| e_addr := e_addr e; e_data := e_data e ++ [x] |} :: next, alloc)
      else ({| e_addr := alloc; e_data := [x] |} :: chain, S alloc)
  | [] => ({| e_addr := alloc; e_data := [x] |} :: [], S alloc)
  end.

(** [data[--count]] *)
Definition entry_pop e : option (Entry Object * Object) :=
  x ← last (e_data e);
  Some ({| e_addr := e_addr e; e_data := take (entry_count e - 1) (e_data e) |}, x).

Definition entry_getObject (pos : nat) e : option Object := e_data e !! pos.

(** [split(elem, target)]: what stays in the entry, and the target's data. *)
Definition entry_split (elem : nat) e : Entry Object * list Object :=
  ({| e_addr := e_addr e; e_data := take elem (e_data e) |}, drop elem (e_data e)).

(** [dup]: the deepest entry is allocated first. *)
Fixpoint entry_dup chain (alloc : nat) : list (Entry Object) * nat :=
  match chain with
  | [] => ([], alloc)
  | e :: next =>
      let '(next, alloc) := entry_dup next alloc in
      ({| e_addr := alloc; e_data := e_data e |} :: next, S alloc)
  end.

Fixpoint entry_hasMore chain (value : nat) : bool :=
  match chain with
  | [] => false
  | e :: next =>
      if decide (value < entry_count e)%nat then true
      else entry_hasMore next (value - entry_count e)
  end.

(** *** Stack *)

Definition stack_new : Stack Object := {| stk := []; stk_cache := None |}.

Definition stack_push (x : Object) s (alloc : nat) : Stack Object * nat :=
  let s :=
    match stk s, stk_cache s with
    | [], Some c => {| stk := [c]; stk_cache := None |}
    | _, _ => s
    end in
  let '(chain, alloc) := entry_push x (stk s) alloc in
  ({| stk := chain; stk_cache := stk_cache s |}, alloc).

Definition stack_pop s : option (Stack Object * Object) :=
  match stk s with
  | [] => None
  | e :: next =>
      '(e, x) ← entry_pop e;
      Some (if decide (entry_count e = 0%nat) then
              match next with
              | [] => {| stk := []; stk_cache := Some e |}
              | _ => {| stk := next; stk_cache := None |}
              end
            else {| stk := e :: next; stk_cache := stk_cache s |}, x)
  end.

(** [if (stk) { delete stk_cache; stk_cache = 0; }] *)
Definition drop_cache s : Stack Object :=
  match stk s with [] => s | _ => {| stk := stk s; stk_cache := None |} end.

(** [takeOwnership(s)]: this stack and [s] afterwards. *)
Definition stack_takeOwnership (from this : Stack Object) : Stack Object * Stack Object :=
  (drop_cache {| stk := stk from; stk_cache := stk_cache this |},
   {| stk := []; stk_cache := stk_cache from |}).

Definition stack_getCount s : nat := fold_left (fun rc e => (rc + entry_count e)%nat) (stk s) 0%nat.

Definition stack_hasMore (value : nat) s : bool := entry_hasMore (stk s) value.

Definition stack_object s : option Object :=
  e ← head (stk s); entry_getObject (entry_count e - 1) e.

Definition stack_hasData s : bool := match stk s with [] => false | _ => true end.
Definition stack_isEmpty s : bool := negb (stack_hasData s).

Definition stack_assign (v this : Stack Object) (alloc : nat) : Stack Object * nat :=
  let '(chain, alloc) := entry_dup (stk v) alloc in
  (drop_cache {| stk := chain; stk_cache := stk_cache this |}, alloc).

Definition stack_clear s : Stack Object := {| stk := []; stk_cache := stk_cache s |}.

(** [~AutoRestore()]: [while (currentCount-- > count) stack.pop();] *)
Fixpoint restore_loop (n : nat) s : option (Stack Object) :=
  match n with
  | O => Some s
  | S n => '(s, _) ← stack_pop s; restore_loop n s
  end.

Definition stack_restore (count : nat) s : option (Stack Object) :=
  restore_loop (stack_getCount s - count) s.

(** *** Iterators *)

Definition chain_iterator chain : StackIterator :=
  match chain with
  | [] => {| it_stk := None; it_elem := 0 |}
  | e :: _ => {| it_stk := Some (e_addr e); it_elem := entry_count e |}
  end.

Definition iterator_new s : StackIterator := chain_iterator (stk s).

(** The chain from the entry an iterator points to. *)
Fixpoint chain_at (addr : nat) chain : option (list (Entry Object)) :=
  match chain with
  | [] => None
  | e :: next => if decide (e_addr e = addr) then Some chain else chain_at addr next
  end.

Definition iterator_chain s (it : StackIterator) : option (list (Entry Object)) :=
  addr ← it_stk it; chain_at addr (stk s).

Definition iterator_next s (it : StackIterator) : option StackIterator :=
  let elem := (it_elem it - 1)%nat in
  if decide (elem = 0%nat) then
    chain ← iterator_chain s it;
    Some (chain_iterator (tail chain))
  else Some {| it_stk := it_stk it; it_elem := elem |}.

Definition iterator_hasData (it : StackIterator) : bool := bool_decide (it_stk it <> None).

Definition iterator_object s (it : StackIterator) : option Object :=
  chain ← iterator_chain s it;
  e ← head chain;
  entry_getObject (it_elem it - 1) e.

(** [hasMore(value)] *)
Definition iterator_hasMore s (it : StackIterator) (value : nat) : option bool :=
  if decide (it_elem it <> 0%nat /\ (value < it_elem it)%nat) then Some true
  else
    let value := (value - it_elem it)%nat in
    match it_stk it with
    | None => Some false
    | Some _ => chain ← iterator_chain s it; Some (entry_hasMore (tail chain) value)
    end.

(** [operator==] of an iterator and a stack. *)
Definition iterator_is_top s (it : StackIterator) : bool :=
  bool_decide (it_stk it = it_stk (iterator_new s)) &&
  match stk s with [] => true | e :: _ => bool_decide (it_elem it = entry_count e) end.

(** [for (iterator i(s); i.hasData(); ++i) ... i.object() ...] *)
Fixpoint iterate (fuel : nat) s (it : StackIterator) : option (list Object) :=
  match fuel with
  | O => None
  | S fuel =>
      if iterator_hasData it then
        x ← iterator_object s it;
        it ← iterator_next s it;
        xs ← iterate fuel s it;
        Some (x :: xs)
      else Some []
  end.

(** *** Merging, splitting and clearing to a mark *)

(** [merge(s)]: this stack, [s], and the mark. *)
Definition stack_merge (from this : Stack Object) : Stack Object * Stack Object * StackIterator :=
  (drop_cache {| stk := stk this ++ stk from; stk_cache := stk_cache this |},
   {| stk := []; stk_cache := stk_cache from |},
   iterator_new from).

(** The chain before the entry at [addr], and from it on. *)
Fixpoint chain_split (addr : nat) chain : option (list (Entry Object) * list (Entry Object)) :=
  match chain with
  | [] => None
  | e :: next =>
      if decide (e_addr e = addr) then Some ([], chain)
      else '(before, from) ← chain_split addr next; Some (e :: before, from)
  end.

(** [split(mark, s)]: this stack, [s], and the next address. *)
Definition stack_split (mark : StackIterator) (to this : Stack Object) (alloc : nat)
    : option (Stack Object * Stack Object * nat) :=
  match it_stk mark with
  | None => Some (this, to, alloc)
  | Some addr =>
      '(before, from) ← chain_split addr (stk this);
      e ← head from;
      if decide (entry_count e = it_elem mark) then
        Some ({| stk := before; stk_cache := stk_cache this |},
              drop_cache {| stk := from; stk_cache := stk_cache to |}, alloc)
      else
        let '(e, rest) := entry_split (it_elem mark) e in
        Some ({| stk := before ++ [{| e_addr := alloc; e_data := rest |}];
                 stk_cache := stk_cache this |},
              drop_cache {| stk := e :: tail from; stk_cache := stk_cache to |}, S alloc)
  end.

(** [while (stk != mark.stk) { if (!stk) return; ... }] *)
Fixpoint clear_loop (addr : nat) chain : list (Entry Object) :=
  match chain with
  | [] => []
  | e :: next => if decide (e_addr e = addr) then chain else clear_loop addr next
  end.

Definition stack_clear_to (mark : StackIterator) s : Stack Object :=
  match it_stk mark with
  | None => stack_clear s
  | Some addr =>
      match clear_loop addr (stk s) with
      | [] => {| stk := []; stk_cache := stk_cache s |}
      | e :: next =>
          {| stk := if decide (it_elem mark = 0%nat) then next
                    else {| e_addr := e_addr e; e_data := take (it_elem mark) (e_data e) |}
                           :: next;
             stk_cache := stk_cache s |}
      end
  end.
End Code.

(** ** The abstract stack *)

Section Abstract.
Context {Object : Type} (Capacity : nat).
Hypothesis Capacity_pos : (0 < Capacity)%nat.
Implicit Types (e : Entry Object) (s : Stack Object) (chain : list (Entry Object)).
Implicit Types (l : list Object).

(** The objects of a chain, top first. *)
Definition content chain : list Object := concat (map (fun e => rev (e_data e)) chain).

Definition entry_wf e : Prop := (0 < entry_count e <= Capacity)%nat.

Definition chain_wf chain (alloc : nat) : Prop :=
  Forall entry_wf chain /\ NoDup (map e_addr chain) /\
  Forall (fun e => (e_addr e < alloc)%nat) chain.

(** The cache is an empty entry kept while the stack has none. *)
Definition stack_rep s l (alloc : nat) : Prop :=
  chain_wf (stk s) alloc /\ content (stk s) = l /\
  forall c, stk_cache s = Some c ->
    e_data c = [] /\ (e_addr c < alloc)%nat /\ stk s = [].

Inductive StackOp := OPush (x : Object) | OPop | OCount | OHasMore (n : nat) | OObject | OHasData.
Inductive StackRes := SUnit | SObj (x : Object) | SNum (n : nat) | SBool (b : bool).

(** Stack operations that leave the lowest [floor] objects alone. *)
Definition stack_spec (floor : nat) (op : StackOp) l : option (list Object * StackRes) :=
  match op with
  | OPush x => Some (x :: l, SUnit)
  | OPop => guard (floor < length l)%nat;; x ← head l; Some (tail l, SObj x)
  | OCount => Some (l, SNum (length l))
  | OHasMore n => Some (l, SBool (bool_decide (n < length l)%nat))
  | OObject => x ← head l; Some (l, SObj x)
  | OHasData => Some (l, SBool (bool_decide (l <> [])))
  end.

Definition stack_run (op : StackOp) (st : Stack Object * nat)
    : option (Stack Object * nat * StackRes) :=
  let '(s, alloc) := st in
  match op with
  | OPush x => Some (stack_push Capacity x s alloc, SUnit)
  | OPop => '(s, x) ← stack_pop s; Some (s, alloc, SObj x)
  | OCount => Some (s, alloc, SNum (stack_getCount s))
  | OHasMore n => Some (s, alloc, SBool (stack_hasMore n s))
  | OObject => x ← stack_object s; Some (s, alloc, SObj x)
  | OHasData => Some (s, alloc, SBool (stack_hasData s))
  end.

Lemma content_cons e chain : content (e :: chain) = rev (e_data e) ++ content chain.
Proof. done. Qed.

Lemma content_app c1 c2 : content (c1 ++ c2) = content c1 ++ content c2.
Proof. unfold content. by rewrite map_app, concat_app. Qed.

Lemma chain_wf_cons e chain alloc :
  chain_wf (e :: chain) alloc <->
  entry_wf e /\ (e_addr e ∉ map e_addr chain) /\ (e_addr e < alloc)%nat /\ chain_wf chain alloc.
Proof.
  unfold chain_wf. simpl. rewrite !Forall_cons, NoDup_cons. tauto.
Qed.

Lemma content_nil chain alloc : chain_wf chain alloc -> content chain = [] -> chain = [].
Proof.
  intros (Hwf & _) Hc. destruct chain as [|e chain]; [done|].
  apply Forall_cons in Hwf as [[Hpos _] _]. rewrite content_cons in Hc.
  apply app_nil in Hc as [Hr _]. apply (f_equal length) in Hr.
  rewrite length_rev in Hr. unfold entry_count in Hpos. simpl in Hr. lia.
Qed.

Lemma chain_wf_mono chain a a' : chain_wf chain a -> (a <= a')%nat -> chain_wf chain a'.
Proof.
  intros (H1 & H2 & H3) Hle. split_and!; [done|done|].
  eapply Forall_impl; [exact H3|]. simpl. lia.
Qed.

Lemma addr_fresh chain alloc : chain_wf chain alloc -> alloc ∉ map e_addr chain.
Proof.
  intros (_ & _ & Hlt) [e [He Hin]]%list_elem_of_fmap.
  eapply Forall_forall in Hlt; [|exact Hin]. simpl in Hlt. lia.
Qed.

Lemma entry_wf_one a x : entry_wf {| e_addr := a; e_data := [x] |}.
Proof. unfold entry_wf, entry_count. simpl. lia. Qed.

(** A new first entry. *)
Lemma chain_wf_new x chain alloc :
  chain_wf chain alloc -> chain_wf ({| e_addr := alloc; e_data := [x] |} :: chain) (S alloc).
Proof.
  intros Hwf. apply chain_wf_cons. split; [apply entry_wf_one|]. simpl.
  split; [by apply addr_fresh|]. split; [lia|]. eapply chain_wf_mono; [done|lia].
Qed.

Lemma chain_wf_nil alloc : chain_wf [] alloc.
Proof. split_and!; constructor. Qed.

(** *** [push] and [pop] *)

Lemma entry_push_spec x chain alloc :
  chain_wf chain alloc ->
  let '(chain', alloc') := entry_push Capacity x chain alloc in
  chain_wf chain' alloc' /\ content chain' = x :: content chain /\ (alloc <= alloc')%nat.
Proof.
  intros Hwf. destruct chain as [|e chain]; simpl.
  - split; [by apply chain_wf_new|]. split; [done|lia].
  - destruct (decide (entry_count e < Capacity)%nat) as [Hlt|Hge].
    + apply chain_wf_cons in Hwf as ([? ?] & ? & ? & ?). split; [|split; [|lia]].
      * apply chain_wf_cons. split; [|done]. unfold entry_wf, entry_count in *. simpl. len.
      * rewrite !content_cons. simpl. by rewrite rev_app_distr.
    + split; [by apply chain_wf_new|]. split; [done|lia].
Qed.

Lemma stack_push_spec x s l alloc :
  stack_rep s l alloc ->
  let '(s', alloc') := stack_push Capacity x s alloc in stack_rep s' (x :: l) alloc'.
Proof.
  intros (Hwf & Hc & Hcache). unfold stack_push.
  destruct (stk s) as [|e chain] eqn:Hstk.
  - destruct (stk_cache s) as [c|] eqn:Hca; simpl.
    + destruct (Hcache c eq_refl) as (Hd & Hlt & _). unfold entry_count. rewrite Hd. simpl.
      rewrite decide_True by lia. simpl. split; [|split; [by rewrite <- Hc|done]].
      apply chain_wf_cons. split; [apply entry_wf_one|]. simpl.
      split; [apply not_elem_of_nil|]. split; [done|apply chain_wf_nil].
    + rewrite Hstk. simpl. split; [by apply chain_wf_new|].
      split; [by rewrite <- Hc|simpl; by rewrite Hca].
  - rewrite Hstk. pose proof (entry_push_spec x _ _ Hwf) as H.
    destruct (entry_push Capacity x (e :: chain) alloc) as [chain' alloc'].
    destruct H as (Hwf' & Hc' & _). split; [done|]. simpl. split; [by rewrite Hc', Hc|].
    intros c Hca. by destruct (Hcache c Hca) as (_ & _ & ?).
Qed.

(** The entries below the first one are not touched by [pop]. *)
Lemma stack_pop_spec s x l alloc :
  stack_rep s (x :: l) alloc ->
  exists s', stack_pop s = Some (s', x) /\ stack_rep s' l alloc.
Proof.
  intros (Hwf & Hc & Hcache). unfold stack_pop.
  destruct (stk s) as [|e chain] eqn:Hstk; [done|].
  apply chain_wf_cons in Hwf as ([Hpos Hcap] & Hnin & Hlt & Hwf).
  assert (exists d, e_data e = d ++ [x] /\ rev d ++ content chain = l) as (d & Hd & Hl).
  { destruct (e_data e) as [|y d _] eqn:Hd using rev_ind.
    - unfold entry_count in Hpos. rewrite Hd in Hpos. simpl in Hpos. lia.
    - rewrite content_cons, Hd, rev_app_distr in Hc. simpl in Hc. simplify_eq. by exists d. }
  unfold entry_pop, entry_count. rewrite Hd, last_snoc, length_app. simpl.
  rewrite Nat.add_sub, take_app_length. unfold entry_count in *. rewrite Hd in Hcap. simpl.
  assert (Hca : stk_cache s = None).
  { destruct (stk_cache s) as [c|]; [|done]. by destruct (Hcache c eq_refl) as (_ & _ & ?). }
  case_decide as Hz.
  - apply nil_length_inv in Hz. subst d. destruct chain as [|e' chain]; eexists; (split; [done|]).
    + split; [apply chain_wf_nil|]. split; [done|]. simpl. intros c [= <-]. done.
    + split_and!; [done|done|done].
  - eexists. split; [done|]. split_and!; [|done|simpl; by rewrite Hca].
    apply chain_wf_cons. split; [|done]. unfold entry_wf, entry_count. simpl. len.
Qed.

Lemma fold_count chain n :
  fold_left (fun rc e => (rc + entry_count e)%nat) chain n = (n + length (content chain))%nat.
Proof.
  revert n. induction chain as [|e chain IH]; intros n; cbn [fold_left]; [simpl; lia|].
  rewrite IH, content_cons, length_app, length_rev. unfold entry_count. lia.
Qed.

Lemma stack_getCount_spec s l alloc : stack_rep s l alloc -> stack_getCount s = length l.
Proof. intros (_ & <- & _). unfold stack_getCount. by rewrite fold_count. Qed.

Lemma entry_hasMore_spec chain n :
  entry_hasMore chain n = bool_decide (n < length (content chain))%nat.
Proof.
  revert n. induction chain as [|e chain IH]; intros n; cbn [entry_hasMore].
  { by rewrite bool_decide_eq_false_2 by (simpl; lia). }
  rewrite content_cons, length_app, length_rev. unfold entry_count, content in *. case_decide.
  - by rewrite bool_decide_eq_true_2 by lia.
  - rewrite IH. apply bool_decide_ext. lia.
Qed.

Lemma chain_top e chain alloc :
  chain_wf (e :: chain) alloc ->
  exists x, entry_getObject (entry_count e - 1) e = Some x /\
    head (content (e :: chain)) = Some x.
Proof.
  intros ([[Hpos _] _]%Forall_cons & _). unfold entry_getObject, entry_count in *.
  destruct (e_data e) as [|x d _] eqn:Hd using rev_ind; [simpl in Hpos; lia|].
  exists x. rewrite content_cons, Hd, rev_app_distr, length_app. simpl. split; [|done].
  rewrite Nat.add_sub. by apply list_lookup_middle.
Qed.

Lemma stack_object_spec s x l alloc : stack_rep s (x :: l) alloc -> stack_object s = Some x.
Proof.
  intros (Hwf & Hc & _). unfold stack_object. destruct (stk s) as [|e chain]; [done|].
  destruct (chain_top e chain alloc Hwf) as (y & Hy & Hh). simpl. rewrite Hy.
  rewrite Hc in Hh. by simplify_eq/=.
Qed.

Lemma stack_hasData_spec s l alloc :
  stack_rep s l alloc -> stack_hasData s = bool_decide (l <> []).
Proof.
  intros (Hwf & Hc & _). unfold stack_hasData. destruct (stk s) as [|e chain] eqn:Hs.
  - rewrite bool_decide_eq_false_2; [done|]. simpl in Hc. rewrite <- Hc. tauto.
  - rewrite bool_decide_eq_true_2; [done|]. intros ->. by eapply content_nil in Hc.
Qed.

(** The three ways of looking for the entry at an address. *)
Lemma chain_find_spec pre e post addr alloc :
  chain_wf (pre ++ e :: post) alloc -> e_addr e = addr ->
  chain_at addr (pre ++ e :: post) = Some (e :: post) /\
  chain_split addr (pre ++ e :: post) = Some (pre, e :: post) /\
  clear_loop addr (pre ++ e :: post) = e :: post.
Proof.
  intros Hwf He. induction pre as [|p pre IH]; simpl.
  - by rewrite !decide_True.
  - apply chain_wf_cons in Hwf as (_ & Hp & _ & Hwf).
    destruct (decide (e_addr p = addr)) as [Heq|_].
    + exfalso. apply Hp. rewrite map_app, elem_of_app. right.
      apply elem_of_cons. left. congruence.
    + by destruct (IH Hwf) as (-> & -> & ->).
Qed.

Lemma chain_wf_app c1 c2 alloc :
  chain_wf (c1 ++ c2) alloc <->
  chain_wf c1 alloc /\ chain_wf c2 alloc /\
  (forall a, a ∈ map e_addr c1 -> a ∉ map e_addr c2).
Proof.
  unfold chain_wf. rewrite map_app, !Forall_app, NoDup_app. tauto.
Qed.

(** *** Marks

    A mark holds the part [low] of the stack: its entry is still in the chain,
    with at least the objects it had when the mark was set. *)
Definition mark_ok (mark : StackIterator) chain (low : list Object) : Prop :=
  match it_stk mark with
  | None => low = []
  | Some addr => exists pre e post,
      chain = pre ++ e :: post /\ e_addr e = addr /\
      (0 < it_elem mark <= entry_count e)%nat /\
      low = rev (take (it_elem mark) (e_data e)) ++ content post
  end.

Lemma mark_ok_new s l alloc : stack_rep s l alloc -> mark_ok (iterator_new s) (stk s) l.
Proof.
  intros ((Hwf & _) & Hc & _). unfold mark_ok, iterator_new.
  destruct (stk s) as [|e chain]; simpl; [by rewrite <- Hc|].
  apply Forall_cons in Hwf as [[? ?] _]. exists [], e, chain. unfold entry_count in *.
  rewrite firstn_all. by split_and!.
Qed.

Lemma mark_ok_push mark low x chain alloc :
  mark_ok mark chain low -> mark_ok mark (fst (entry_push Capacity x chain alloc)) low.
Proof.
  unfold mark_ok. destruct (it_stk mark) as [addr|]; [|done].
  intros (pre & e & post & -> & He & Hel & Hlow). unfold entry_push.
  destruct pre as [|p pre]; simpl; case_decide as Hc.
  - exists [], {| e_addr := e_addr e; e_data := e_data e ++ [x] |}, post.
    unfold entry_count in *. simpl. rewrite length_app, take_app_le by lia. simpl.
    split_and!; (done || lia).
  - exists [{| e_addr := alloc; e_data := [x] |}], e, post. split_and!; (done || lia).
  - exists ({| e_addr := e_addr p; e_data := e_data p ++ [x] |} :: pre), e, post. split_and!; (done || lia).
  - exists ({| e_addr := alloc; e_data := [x] |} :: p :: pre), e, post. split_and!; (done || lia).
Qed.

Lemma mark_ok_pop mark low s s' x :
  stack_pop s = Some (s', x) -> mark_ok mark (stk s) low ->
  (length low < length (content (stk s)))%nat -> mark_ok mark (stk s') low.
Proof.
  unfold mark_ok, stack_pop. destruct (it_stk mark) as [addr|]; [|done].
  intros Hpop (pre & e & post & Hs & He & Hel & ->) Hlen. rewrite Hs in *.
  destruct pre as [|p pre]; simpl in Hpop; unfold entry_pop in Hpop.
  - destruct (last (e_data e)) as [y|] eqn:Hy; simpl in Hpop; [|done].
    apply last_Some in Hy as [d Hd]. rewrite app_nil_l, content_cons in Hlen.
    rewrite !length_app, !length_rev, length_take in Hlen. unfold entry_count in *.
    rewrite Hd in *. rewrite length_app in *. simpl in *.
    rewrite Nat.add_sub, take_app_length in Hpop. rewrite decide_False in Hpop by lia.
    simplify_eq. simpl. exists [], {| e_addr := e_addr e; e_data := d |}, post. simpl.
    rewrite take_app_le by lia. split_and!; (done || lia).
  - destruct (last (e_data p)) as [y|] eqn:Hy; simpl in Hpop; [|done]. simplify_eq.
    case_decide.
    + destruct pre as [|p' pre]; simpl.
      * exists [], e, post. split_and!; (done || lia).
      * exists (p' :: pre), e, post. split_and!; (done || lia).
    + exists ({| e_addr := e_addr p; e_data := take (entry_count p - 1) (e_data p) |} :: pre),
        e, post. split_and!; (done || lia).
Qed.

(** *** The operations *)

(** Each operation implements the list operation and keeps every mark whose part
    of the stack it does not reach. *)
Lemma stack_run_refines mark low op s alloc l l' r :
  stack_rep s l alloc /\ mark_ok mark (stk s) low ->
  stack_spec (length low) op l = Some (l', r) ->
  exists s' alloc', stack_run op (s, alloc) = Some (s', alloc', r) /\
    stack_rep s' l' alloc' /\ mark_ok mark (stk s') low.
Proof.
  intros [Hs Hm] Hop. destruct op as [x| | |n| |]; simpl in *.
  - simplify_eq. pose proof (stack_push_spec x s l alloc Hs) as Hp.
    destruct (stack_push Capacity x s alloc) as [s' alloc'] eqn:Hpush.
    exists s', alloc'. split_and!; [done|done|].
    unfold stack_push in Hpush. pose proof Hs as (_ & Hc & Hca).
    destruct (stk s) as [|e chain] eqn:Hst.
    + assert (low = []) as ->.
      { unfold mark_ok in Hm. destruct (it_stk mark); [|done].
        by destruct Hm as ([] & ? & ? & ? & _). }
      unfold mark_ok in *. destruct (it_stk mark); [|done].
      by destruct Hm as ([] & ? & ? & ? & _).
    + rewrite Hst in Hpush. pose proof (mark_ok_push mark low x _ alloc Hm) as Hm'.
      destruct (entry_push Capacity x (e :: chain) alloc) as [chain' a']. by simplify_eq.
  - simplify_option_eq. destruct l as [|y l]; [done|]. simplify_eq/=.
    destruct (stack_pop_spec s _ l alloc Hs) as (s' & Hp & Hs'). rewrite Hp. simpl.
    eexists s', alloc. split_and!; [done|done|]. eapply mark_ok_pop; [done|done|].
    by rewrite (proj1 (proj2 Hs)).
  - simplify_eq. exists s, alloc. rewrite (stack_getCount_spec s l' alloc Hs). done.
  - simplify_eq. exists s, alloc. unfold stack_hasMore. rewrite entry_hasMore_spec.
    by rewrite (proj1 (proj2 Hs)).
  - destruct l as [|y l]; [done|]. simplify_eq/=.
    rewrite (stack_object_spec s _ l alloc Hs). by exists s, alloc.
  - simplify_eq. exists s, alloc. by rewrite (stack_hasData_spec s l' alloc Hs).
Qed.

Lemma stack_exec_refines mark low ops s alloc l l' rs :
  stack_rep s l alloc -> mark_ok mark (stk s) low ->
  exec_all (stack_spec (length low)) ops l = Some (l', rs) ->
  exists s' alloc', exec_all stack_run ops (s, alloc) = Some (s', alloc', rs) /\
    stack_rep s' l' alloc' /\ mark_ok mark (stk s') low.
Proof.
  intros Hs Hm Hex.
  destruct (exec_refines (stack_spec (length low)) stack_run
    (fun st l => stack_rep (fst st) l (snd st) /\ mark_ok mark (stk (fst st)) low))
    with (ops := ops) (s := (s, alloc)) (a := l) (a' := l') (rs := rs)
    as ([s' alloc'] & Hrun & Hs' & Hm'); [|done|done|].
  - intros op [s1 a1] l1 l1' r Hrep Hop.
    destruct (stack_run_refines mark low op s1 a1 l1 l1' r Hrep Hop)
      as (s2 & a2 & Hr & Hs2 & Hm2). by exists (s2, a2).
  - by exists s', alloc'.
Qed.

(** [Stack]: every sequence of operations has the results of the same
    operations on a last-in first-out list, across entry boundaries and with the
    cached entry. *)
Theorem stack_refines ops s alloc l l' rs :
  stack_rep s l alloc -> exec_all (stack_spec 0) ops l = Some (l', rs) ->
  exists s' alloc', exec_all stack_run ops (s, alloc) = Some (s', alloc', rs) /\
    stack_rep s' l' alloc'.
Proof.
  intros Hs Hex.
  destruct (stack_exec_refines {| it_stk := None; it_elem := 0 |} [] ops s alloc l l' rs)
    as (s' & alloc' & Hrun & Hs' & _); [done|done|done|]. by exists s', alloc'.
Qed.

Lemma stack_rep_new alloc : stack_rep stack_new [] alloc.
Proof. split; [apply chain_wf_nil|]. by split. Qed.

(** Clearing to a mark undoes everything pushed since it was set, provided
    the objects below it were not popped meanwhile. *)
Theorem stack_clear_restores ops s alloc low l' rs :
  stack_rep s low alloc -> exec_all (stack_spec (length low)) ops low = Some (l', rs) ->
  exists s' alloc', exec_all stack_run ops (s, alloc) = Some (s', alloc', rs) /\
    stack_rep (stack_clear_to (iterator_new s) s') low alloc'.
Proof.
  intros Hs Hex.
  destruct (stack_exec_refines (iterator_new s) low ops s alloc low l' rs)
    as (s' & alloc' & Hrun & Hs' & Hm); [done|by eapply mark_ok_new|done|].
  exists s', alloc'. split; [done|]. unfold stack_clear_to, mark_ok in *.
  destruct Hs' as (Hwf & Hc & Hca). destruct (it_stk (iterator_new s)) as [addr|] eqn:Hi.
  2:{ subst low. split; [apply chain_wf_nil|]. split; [done|]. simpl. intros c Hcc.
      destruct (Hca c Hcc) as (? & ? & _). done. }
  destruct Hm as (pre & e & post & Hst & He & Hel & ->). rewrite Hst in *.
  pose proof (chain_find_spec pre e post addr alloc' Hwf He) as (_ & _ & Hloop).
  rewrite Hloop. rewrite decide_False by lia.
  apply chain_wf_app in Hwf as (_ & Hwf' & _).
  apply chain_wf_cons in Hwf' as ([? ?] & ? & ? & ?). split.
  - apply chain_wf_cons. split; [|done]. unfold entry_wf, entry_count in *. simpl.
    rewrite length_take. lia.
  - split; [done|]. simpl. intros c Hcc. destruct (Hca c Hcc) as (_ & _ & ?). by destruct pre.
Qed.

(** *** Iteration *)

Lemma iterate_from fuel s pre e post k alloc :
  stk s = pre ++ e :: post -> chain_wf (stk s) alloc -> (0 < k <= entry_count e)%nat ->
  (length (rev (take k (e_data e)) ++ content post) < fuel)%nat ->
  iterate fuel s {| it_stk := Some (e_addr e); it_elem := k |} =
  Some (rev (take k (e_data e)) ++ content post).
Proof.
  revert pre e post k. induction fuel as [|fuel IH]; intros pre e post k Hs Hwf Hk Hf; [lia|].
  cbn [iterate]. unfold iterator_hasData. cbn [it_stk].
  rewrite bool_decide_eq_true_2 by done.
  rewrite Hs in Hwf. destruct (chain_find_spec pre e post _ alloc Hwf eq_refl) as (Hat & _ & _).
  rewrite <- Hs in Hwf.
  unfold iterator_object, iterator_next, iterator_chain. cbn [it_stk it_elem mbind option_bind].
  rewrite Hs, Hat. simpl.
  destruct (lookup_lt_is_Some_2 (e_data e) (k - 1)) as [x Hx]; [unfold entry_count in Hk; lia|].
  unfold entry_getObject. rewrite Hx. simpl.
  assert (Htake : rev (take k (e_data e)) = x :: rev (take (k - 1) (e_data e))).
  { replace k with (S (k - 1)) at 1 by lia. rewrite (take_S_r _ _ _ Hx).
    by rewrite rev_app_distr. }
  rewrite Htake in *. simpl in Hf. case_decide as Hk1.
  - rewrite Hk1. simpl. destruct post as [|e' post]; simpl.
    + destruct fuel; [simpl in Hf; rewrite Hk1 in Hf; simpl in Hf; lia|done].
    + assert (Hwf2 : entry_wf e').
      { rewrite Hs in Hwf. apply chain_wf_app in Hwf as (_ & Hwf & _).
        apply chain_wf_cons in Hwf as (_ & _ & _ & Hwf). by apply chain_wf_cons in Hwf as [? _]. }
      rewrite (IH (pre ++ [e]) e' post); [|by rewrite <- app_assoc|done|destruct Hwf2; lia|].
      * simpl. unfold entry_count. by rewrite firstn_all.
      * rewrite Hk1, content_cons in Hf. simpl in Hf. unfold entry_count. rewrite firstn_all. lia.
  - simpl. rewrite (IH pre e post); [done|done|done|lia|lia].
Qed.

(** Iterating over a stack yields its objects, top first. *)
Theorem iterate_correct s l alloc :
  stack_rep s l alloc -> iterate (S (length l)) s (iterator_new s) = Some l.
Proof.
  intros (Hwf & <- & _). unfold iterator_new. destruct (stk s) as [|e chain] eqn:Hs; [done|].
  pose proof Hwf as [[? _]%Forall_cons _]. cbn [chain_iterator].
  rewrite (iterate_from _ s [] e chain _ alloc).
  - unfold entry_count. by rewrite firstn_all, content_cons.
  - done.
  - by rewrite Hs.
  - unfold entry_wf in *. lia.
  - unfold entry_count. rewrite firstn_all, content_cons. lia.
Qed.

(** *** [merge] and [split] *)

Definition disjoint_chains (c1 c2 : list (Entry Object)) : Prop :=
  forall a, a ∈ map e_addr c1 -> a ∉ map e_addr c2.

Lemma drop_cache_rep chain cache l alloc :
  chain_wf chain alloc -> content chain = l ->
  (forall c, cache = Some c -> e_data c = [] /\ (e_addr c < alloc)%nat) ->
  stack_rep (drop_cache {| stk := chain; stk_cache := cache |}) l alloc.
Proof.
  intros Hwf Hc Hca. unfold drop_cache. simpl. destruct chain; [|by split_and!].
  split; [done|]. split; [done|]. simpl. intros c Hcc. by destruct (Hca c Hcc).
Qed.

Lemma stack_rep_cache s l alloc c :
  stack_rep s l alloc -> stk_cache s = Some c -> e_data c = [] /\ (e_addr c < alloc)%nat.
Proof. intros (_ & _ & Hca) Hc. by destruct (Hca c Hc) as (? & ? & _). Qed.

Lemma stack_merge_spec from this l1 l2 alloc :
  stack_rep this l1 alloc -> stack_rep from l2 alloc -> disjoint_chains (stk this) (stk from) ->
  let '(this', from', mark) := stack_merge from this in
  stack_rep this' (l1 ++ l2) alloc /\ stack_rep from' [] alloc /\
  mark_ok mark (stk this') l2.
Proof.
  intros Ht Hf Hdis. unfold stack_merge. split; [|split].
  - apply drop_cache_rep.
    + apply chain_wf_app. split_and!; [apply Ht|apply Hf|done].
    + rewrite content_app. by rewrite (proj1 (proj2 Ht)), (proj1 (proj2 Hf)).
    + intros c. by eapply stack_rep_cache.
  - split; [apply chain_wf_nil|]. split; [done|]. simpl. intros c Hc.
    by destruct (stack_rep_cache _ _ _ _ Hf Hc).
  - pose proof (mark_ok_new from l2 alloc Hf) as Hm. unfold mark_ok in *.
    destruct (it_stk (iterator_new from)); [|done].
    destruct Hm as (pre & e & post & Hs & He & Hel & Hl).
    exists (stk this ++ pre), e, post. rewrite <- app_assoc, <- Hs.
    split; [|done]. unfold drop_cache. simpl. by destruct (stk this ++ stk from).
Qed.

Lemma stack_split_spec mark to this high low alloc :
  stack_rep this (high ++ low) alloc -> stack_rep to [] alloc -> mark_ok mark (stk this) low ->
  exists this' to' alloc', stack_split mark to this alloc = Some (this', to', alloc') /\
    stack_rep this' high alloc' /\ stack_rep to' low alloc' /\
    disjoint_chains (stk this') (stk to').
Proof.
  intros Ht Hto Hm. unfold stack_split, mark_ok in *.
  destruct (it_stk mark) as [addr|].
  2:{ subst low. rewrite app_nil_r in Ht. exists this, to, alloc. split_and!; [done..|].
      destruct Hto as (Hwf & Hc & _). apply (content_nil _ alloc) in Hc; [|done].
      rewrite Hc. intros a _. apply not_elem_of_nil. }
  destruct Hm as (pre & e & post & Hs & He & Hel & ->).
  pose proof Ht as (Hwf & Hc & Hca). rewrite Hs in Hwf, Hc.
  assert (Hnc : stk_cache this = None).
  { destruct (stk_cache this) as [c|]; [|done].
    destruct (Hca c eq_refl) as (_ & _ & Hn). rewrite Hs in Hn. by destruct pre. }
  destruct (chain_find_spec pre e post addr alloc Hwf He) as (_ & Hsp & _).
  rewrite Hs, Hsp, Hnc. simpl.
  pose proof Hwf as (Hpre & Hep & Hdis)%chain_wf_app.
  rewrite content_app, content_cons in Hc.
  rewrite <- (take_drop (it_elem mark) (e_data e)), rev_app_distr, <- app_assoc in Hc at 1.
  rewrite app_assoc in Hc. apply app_inv_tail in Hc.
  case_decide as Hcnt.
  - eexists _, _, alloc. split; [done|]. split; [|split].
    + split; [done|]. split; [|done]. simpl.
      rewrite <- Hc, drop_ge by (unfold entry_count in Hcnt; lia). by rewrite app_nil_r.
    + apply drop_cache_rep; [done| |intros c; by eapply stack_rep_cache].
      rewrite content_cons, take_ge; [done|]. unfold entry_count in Hcnt. lia.
    + simpl. unfold drop_cache. simpl. by intros a Ha; apply Hdis.
  - eexists _, _, (S alloc). split; [done|].
    pose proof (addr_fresh _ _ Hwf) as Hfresh. rewrite map_app, not_elem_of_app in Hfresh.
    destruct Hfresh as [Hf1 Hf2]. pose proof Hep as (_ & Hnin & Hlt & Hpost)%chain_wf_cons.
    unfold entry_split, entry_count in *.
    assert (Hstk : stk (drop_cache {|
      stk := {| e_addr := e_addr e; e_data := take (it_elem mark) (e_data e) |} :: post;
      stk_cache := stk_cache to |}) =
      {| e_addr := e_addr e; e_data := take (it_elem mark) (e_data e) |} :: post) by done.
    split; [split; [|split; [|done]]|split].
    + simpl. apply chain_wf_app. split; [|split].
      * eapply chain_wf_mono; [exact Hpre|lia].
      * apply chain_wf_cons. split; [|split; [apply not_elem_of_nil|split; [simpl; lia|apply chain_wf_nil]]].
        unfold entry_wf, entry_count. simpl. rewrite length_drop.
        apply chain_wf_cons in Hep as ([? ?] & _). unfold entry_count in *. lia.
      * intros a Ha. simpl. intros [->|Hn]%elem_of_cons; [done|by apply not_elem_of_nil in Hn].
    + simpl. rewrite content_app, content_cons. simpl. by rewrite app_nil_r.
    + apply drop_cache_rep; [| |].
      * apply chain_wf_cons. split.
        { unfold entry_wf, entry_count. simpl. rewrite length_take.
          apply chain_wf_cons in Hep as ([? ?] & _). unfold entry_count in *. lia. }
        split; [done|]. split; [simpl; lia|]. eapply chain_wf_mono; [done|lia].
      * done.
      * intros c Hcc. destruct (stack_rep_cache _ _ _ _ Hto Hcc). split; [done|lia].
    + rewrite Hstk. simpl. intros a Ha. rewrite map_app in Ha. simpl in *.
      apply elem_of_app in Ha as [Ha|Ha]; [by apply Hdis|].
      apply elem_of_cons in Ha as [->|Ha]; [done|by apply not_elem_of_nil in Ha].
Qed.

(** Addresses only grow. *)
Lemma stack_run_mono op t al t1 a1 r :
  stack_run op (t, al) = Some (t1, a1, r) -> (al <= a1)%nat.
Proof.
  destruct op; cbn [stack_run]; intros Hop.
  - injection Hop as Hop _. unfold stack_push in Hop.
    match type of Hop with context [entry_push _ _ ?c _] =>
      destruct (entry_push Capacity x c al) as [ch a'] eqn:Hp end.
    simplify_eq. unfold entry_push in Hp. repeat case_match; simplify_eq; lia.
  - destruct (stack_pop t) as [[? ?]|]; simpl in Hop; [|done]. simplify_eq. lia.
  - simplify_eq. lia.
  - simplify_eq. lia.
  - destruct (stack_object t); simpl in Hop; [|done]. simplify_eq. lia.
  - simplify_eq. lia.
Qed.

Lemma stack_exec_mono ops t al t1 a1 rs :
  exec_all stack_run ops (t, al) = Some (t1, a1, rs) -> (al <= a1)%nat.
Proof.
  revert t al rs. induction ops as [|op ops IH]; intros t al rs Hrun; cbn [exec_all] in Hrun.
  { simplify_eq. lia. }
  destruct (stack_run op (t, al)) as [[[t2 a2] r]|] eqn:Hop; simpl in Hrun; [|done].
  destruct (exec_all stack_run ops (t2, a2)) as [[[t3 a3] rs3]|] eqn:Hops; simpl in Hrun; [|done].
  simplify_eq. apply IH in Hops. apply stack_run_mono in Hop. lia.
Qed.

(** [merge] followed by [split] at its mark: whatever was pushed and popped on
    the merged stack in between (without reaching the merged part), the merged
    stack gets its objects back and the rest stays, even where new objects had
    filled up an entry of the merged stack. *)
Theorem stack_merge_split ops from this l1 l2 alloc high rs :
  stack_rep this l1 alloc -> stack_rep from l2 alloc -> disjoint_chains (stk this) (stk from) ->
  exec_all (stack_spec (length l2)) ops (l1 ++ l2) = Some (high ++ l2, rs) ->
  let '(this', from', mark) := stack_merge from this in
  exists s alloc' this'' from'' alloc'',
    exec_all stack_run ops (this', alloc) = Some (s, alloc', rs) /\
    stack_split mark from' s alloc' = Some (this'', from'', alloc'') /\
    stack_rep this'' high alloc'' /\ stack_rep from'' l2 alloc''.
Proof.
  intros Ht Hf Hdis Hex. pose proof (stack_merge_spec from this l1 l2 alloc Ht Hf Hdis) as H.
  destruct (stack_merge from this) as [[this' from'] mark]. destruct H as (Ht' & Hf' & Hm).
  destruct (stack_exec_refines mark l2 ops this' alloc _ _ rs Ht' Hm Hex)
    as (s & alloc' & Hrun & Hs & Hm').
  pose proof (stack_exec_mono ops _ _ _ _ _ Hrun) as Hmono.
  destruct (stack_split_spec mark from' s high l2 alloc') as (t & f & a & Hsp & Hrt & Hrf & _).
  - done.
  - destruct Hf' as (Hwf & Hc & Hca). split; [by eapply chain_wf_mono|]. split; [done|].
    intros c Hcc. destruct (Hca c Hcc) as (? & ? & ?). split_and!; [done|lia|done].
  - done.
  - by exists s, alloc', t, f, a.
Qed.

(** *** Copying, moving and restoring *)

Lemma entry_dup_spec chain alloc a0 :
  chain_wf chain a0 ->
  let '(chain', alloc') := entry_dup chain alloc in
  chain_wf chain' alloc' /\ content chain' = content chain /\ (alloc <= alloc')%nat /\
  Forall (fun e => (alloc <= e_addr e)%nat) chain'.
Proof.
  revert alloc. induction chain as [|e chain IH]; intros alloc Hwf; simpl.
  { split; [apply chain_wf_nil|]. split; [done|]. split; [lia|constructor]. }
  apply chain_wf_cons in Hwf as (He & _ & _ & Hwf). specialize (IH alloc Hwf).
  destruct (entry_dup chain alloc) as [next al]. destruct IH as (Hn & Hc & Hle & Hall).
  split; [|split; [by rewrite !content_cons, Hc|split; [lia|]]].
  - apply chain_wf_cons. split; [done|]. simpl. split; [by apply addr_fresh|].
    split; [lia|]. eapply chain_wf_mono; [done|lia].
  - constructor; [simpl; lia|done].
Qed.

(** [assign] copies a stack entry by entry: the copy has the same objects, the
    original is unchanged, and the two share no entry. *)
Theorem stack_assign_correct v this l k alloc :
  stack_rep v l alloc -> stack_rep this k alloc ->
  let '(this', alloc') := stack_assign v this alloc in
  stack_rep this' l alloc' /\ stack_rep v l alloc' /\ disjoint_chains (stk this') (stk v).
Proof.
  intros Hv Ht. unfold stack_assign. pose proof Hv as (Hwf & Hc & Hca).
  pose proof (entry_dup_spec (stk v) alloc alloc Hwf) as H.
  destruct (entry_dup (stk v) alloc) as [chain al]. destruct H as (Hwf' & Hc' & Hle & Hall).
  split; [|split].
  - apply drop_cache_rep; [done|by rewrite Hc'|]. intros c Hcc.
    destruct (stack_rep_cache _ _ _ _ Ht Hcc). split; [done|lia].
  - split; [by eapply chain_wf_mono|]. split; [done|]. intros c Hcc.
    destruct (Hca c Hcc) as (? & ? & ?). split; [done|]. split; [lia|done].
  - intros a Ha Hin. assert (Hstk : stk (drop_cache {| stk := chain; stk_cache := stk_cache this |})
      = chain) by (by destruct chain). rewrite Hstk in Ha.
    apply list_elem_of_fmap in Ha as (e & -> & He).
    eapply Forall_forall in Hall; [|exact He]. apply list_elem_of_fmap in Hin as (e' & Heq & He').
    destruct Hwf as (_ & _ & Hlt). eapply Forall_forall in Hlt; [|exact He']. simpl in *. lia.
Qed.

Lemma stack_takeOwnership_spec from this l k alloc :
  stack_rep from l alloc -> stack_rep this k alloc ->
  let '(this', from') := stack_takeOwnership from this in
  stack_rep this' l alloc /\ stack_rep from' [] alloc.
Proof.
  intros Hf Ht. unfold stack_takeOwnership. split.
  - apply drop_cache_rep; [apply Hf|apply Hf|]. intros c. by eapply stack_rep_cache.
  - split; [apply chain_wf_nil|]. split; [done|]. simpl. intros c Hc.
    by destruct (stack_rep_cache _ _ _ _ Hf Hc).
Qed.

Lemma restore_loop_spec n s l alloc :
  stack_rep s l alloc -> (n <= length l)%nat ->
  exists s', restore_loop n s = Some s' /\ stack_rep s' (drop n l) alloc.
Proof.
  revert s l. induction n as [|n IH]; intros s l Hs Hn; simpl; [by exists s|].
  destruct l as [|x l]; [simpl in Hn; lia|].
  destruct (stack_pop_spec s x l alloc Hs) as (s' & -> & Hs'). simpl. apply IH; [done|].
  simpl in Hn. lia.
Qed.

(** [AutoRestore]: leaving the scope pops exactly what was pushed above the
    remembered count. *)
Theorem stack_restore_correct s high low alloc :
  stack_rep s (high ++ low) alloc ->
  exists s', stack_restore (length low) s = Some s' /\ stack_rep s' low alloc.
Proof.
  intros Hs. unfold stack_restore. rewrite (stack_getCount_spec _ _ _ Hs), length_app.
  rewrite Nat.add_sub.
  destruct (restore_loop_spec (length high) s (high ++ low) alloc Hs) as (s' & -> & Hs');
    [rewrite length_app; lia|].
  exists s'. by rewrite drop_app_length in Hs'.
Qed.
End Abstract.

(** ** Witnesses *)

(** Entries of two objects: three pushes need two entries, and the cached one is
    used again. *)
Definition sample_ops : list (@StackOp Z) :=
  [OPush 1; OPush 2; OPush 3; OCount; OPop; OPop; OPop; OHasData; OPush 4; OHasMore 0; OObject].

Lemma stack_refines_witness :
  stack_rep 2 (@stack_new Z) [] 0 /\
  exists s' alloc', exec_all (stack_run 2) sample_ops (stack_new, 0%nat) =
      Some (s', alloc', [SUnit; SUnit; SUnit; SNum 3; SObj 3; SObj 2; SObj 1; SBool false;
                         SUnit; SBool true; SObj 4]) /\
    stack_rep 2 s' [4] alloc'.
Proof.
  assert (H : stack_rep 2 (@stack_new Z) [] 0) by apply stack_rep_new.
  split; [exact H|].
  apply (stack_refines 2 ltac:(lia) sample_ops _ _ _ _ _ H). reflexivity.
Defined.

Definition sample_stack (a : nat) : Stack Z :=
  {| stk := [{| e_addr := a; e_data := [1] |}]; stk_cache := None |}.

Lemma sample_stack_rep a : stack_rep 2 (sample_stack a) [1] (S a).
Proof.
  split; [|by split]. apply chain_wf_cons. split; [unfold entry_wf, entry_count; simpl; lia|].
  split; [apply not_elem_of_nil|]. split; [simpl; lia|apply chain_wf_nil].
Qed.

Lemma stack_clear_restores_witness :
  exists s' alloc', exec_all (stack_run 2) [OPush 2; OPush 3; OPop] (sample_stack 0, 1%nat) =
      Some (s', alloc', [SUnit; SUnit; SObj 3]) /\
    stack_rep 2 (stack_clear_to (iterator_new (sample_stack 0)) s') [1] alloc'.
Proof.
  apply (stack_clear_restores 2 ltac:(lia) [OPush 2; OPush 3; OPop] (sample_stack 0) 1 [1] [2; 1]).
  - apply sample_stack_rep.
  - reflexivity.
Defined.

Lemma iterate_correct_witness :
  iterate 2 (sample_stack 0) (iterator_new (sample_stack 0)) = Some [1].
Proof. apply (iterate_correct 2 ltac:(lia) (sample_stack 0) [1] 1), sample_stack_rep. Defined.

(** The object 5 is pushed into the entry of the merged stack. *)
Lemma stack_merge_split_witness :
  let '(this', from', mark) := stack_merge (sample_stack 0) (@stack_new Z) in
  exists s alloc' this'' from'' alloc'',
    exec_all (stack_run 2) [OPush 5; OPush 6] (this', 1%nat) = Some (s, alloc', [SUnit; SUnit]) /\
    stack_split mark from' s alloc' = Some (this'', from'', alloc'') /\
    stack_rep 2 this'' [6; 5] alloc'' /\ stack_rep 2 from'' [1] alloc''.
Proof.
  apply (stack_merge_split 2 ltac:(lia) [OPush 5; OPush 6] (sample_stack 0) stack_new [] [1] 1
    [6; 5] [SUnit; SUnit]).
  - apply stack_rep_new.
  - apply sample_stack_rep.
  - intros a Ha. by apply not_elem_of_nil in Ha.
  - reflexivity.
Defined.

Lemma stack_assign_correct_witness :
  stack_rep 2 (sample_stack 0) [1] 1 /\
  let '(this', alloc') := stack_assign (sample_stack 0) (@stack_new Z) 1 in
  stack_rep 2 this' [1] alloc' /\ stack_rep 2 (sample_stack 0) [1] alloc' /\
  disjoint_chains (stk this') (stk (sample_stack 0)).
Proof.
  pose proof (sample_stack_rep 0) as H. split; [exact H|].
  apply (stack_assign_correct 2 ltac:(lia) (sample_stack 0) stack_new [1] [] 1 H).
  apply stack_rep_new.
Defined.

Lemma stack_restore_correct_witness :
  exists s', stack_restore 0 (sample_stack 0) = Some s' /\ stack_rep 2 s' [] 1.
Proof.
  apply (stack_restore_correct 2 ltac:(lia) (sample_stack 0) [1] [] 1), sample_stack_rep.
Defined.
