(* ===== verification/RecordNumber.v ===== *)
(** * [RecordNumber] and [bid]: [src/src/jrd/RecordNumber.h]

    A record number is a signed 64-bit integer; [decompose] and [compose] convert
    it to a position (pointer page, slot, line), and a blob or record id packs its
    lower 40 bits together with a relation id into eight bytes, whose layout
    depends on the byte order of the machine. *)

From S2P Require Import Prelude.

(** ** Bytes *)

Inductive ByteOrder := LittleEndian | BigEndian.

(** The [n] bytes of an unsigned integer, lowest first. *)
Fixpoint le_bytes (n : nat) (v : Z) : list Z :=
  match n with
  | O => []
  | S n => wrapU 8 v :: le_bytes n (Z.shiftr v 8)
  end.

Fixpoint le_value (bs : list Z) : Z :=
  match bs with
  | [] => 0
  | b :: bs => b + Z.shiftl (le_value bs) 8
  end.

Definition int_bytes (order : ByteOrder) (n : nat) (v : Z) : list Z :=
  match order with LittleEndian => le_bytes n v | BigEndian => rev (le_bytes n v) end.

Definition int_value (order : ByteOrder) (bs : list Z) : Z :=
  match order with LittleEndian => le_value bs | BigEndian => le_value (rev bs) end.

(** ** RecordNumber *)

Definition BOF_NUMBER : Z := -1.

Record RecordNumber := { rn_value : Z; rn_valid : bool }.

Definition RecordNumber_default : RecordNumber := {| rn_value := 0; rn_valid := false |}.
Definition RecordNumber_new (number : Z) : RecordNumber :=
  {| rn_value := number; rn_valid := true |}.

Definition rn_eq (a b : RecordNumber) : bool := bool_decide (rn_value a = rn_value b).
Definition rn_ne (a b : RecordNumber) : bool := bool_decide (rn_value a <> rn_value b).
Definition rn_gt (a b : RecordNumber) : bool := bool_decide (rn_value a > rn_value b).
Definition rn_lt (a b : RecordNumber) : bool := bool_decide (rn_value a < rn_value b).
Definition rn_ge (a b : RecordNumber) : bool := bool_decide (rn_value a >= rn_value b).
Definition rn_le (a b : RecordNumber) : bool := bool_decide (rn_value a <= rn_value b).

Definition rn_setValue (v : Z) (r : RecordNumber) : RecordNumber :=
  {| rn_value := v; rn_valid := rn_valid r |}.
Definition rn_setValid (b : bool) (r : RecordNumber) : RecordNumber :=
  {| rn_value := rn_value r; rn_valid := b |}.
Definition rn_decrement (r : RecordNumber) : RecordNumber :=
  rn_setValue (wrapS 64 (rn_value r - 1)) r.
Definition rn_increment (r : RecordNumber) : RecordNumber :=
  rn_setValue (wrapS 64 (rn_value r + 1)) r.
Definition rn_isBof (r : RecordNumber) : bool := bool_decide (rn_value r = BOF_NUMBER).

(** [line], [slot] and [pp_sequence]; [None] is the division by zero. *)
Definition rn_decompose (records_per_page data_pages_per_pointer_page : Z) (r : RecordNumber)
    : option (Z * Z * Z) :=
  if decide (records_per_page = 0 \/ data_pages_per_pointer_page = 0) then None
  else
    let line := wrapU 16 (Z.rem (rn_value r) records_per_page) in
    let sequence := wrapU 32 (Z.quot (rn_value r) records_per_page) in
    let slot := wrapU 16 (sequence mod data_pages_per_pointer_page) in
    let pp_sequence := sequence / data_pages_per_pointer_page in
    Some (line, slot, pp_sequence).

Definition rn_compose (records_per_page data_pages_per_pointer_page line slot pp_sequence : Z)
    (r : RecordNumber) : RecordNumber :=
  rn_setValue (wrapS 64 (wrapS 64 (wrapS 64 (pp_sequence * data_pages_per_pointer_page + slot)
                                     * records_per_page) + line)) r.

(** ** Packed and bid *)

(** The eight bytes, by the fields of [Packed]. *)
Record Packed := {
  bid_relation_id : Z;
  bid_reserved_for_relation : Z;
  bid_number_up : Z;
  bid_number : Z
}.

Definition packed_wf (p : Packed) : Prop :=
  inU 16 (bid_relation_id p) /\ inU 8 (bid_reserved_for_relation p) /\
  inU 8 (bid_number_up p) /\ inU 32 (bid_number p).

(** The member order of the two variants of the declaration. *)
Definition packed_bytes (order : ByteOrder) (p : Packed) : list Z :=
  match order with
  | LittleEndian =>
      int_bytes order 2 (bid_relation_id p) ++ [bid_reserved_for_relation p] ++
      [bid_number_up p] ++ int_bytes order 4 (bid_number p)
  | BigEndian =>
      [bid_number_up p] ++ [bid_reserved_for_relation p] ++
      int_bytes order 2 (bid_relation_id p) ++ int_bytes order 4 (bid_number p)
  end.

Definition packed_encode (value : Z) (p : Packed) : Packed :=
  {| bid_relation_id := bid_relation_id p;
     bid_reserved_for_relation := bid_reserved_for_relation p;
     bid_number_up := wrapU 8 (Z.shiftr value 32);
     bid_number := wrapU 32 value |}.

Definition packed_decode (p : Packed) : Z :=
  wrapS 64 (wrapU 64 (bid_number p + Z.shiftl (bid_number_up p) 32)).

Definition rn_bid_encode (r : RecordNumber) (p : Packed) : Packed := packed_encode (rn_value r) p.
Definition rn_bid_decode (p : Packed) (r : RecordNumber) : RecordNumber :=
  rn_setValue (packed_decode p) r.

(** The other view of the union. *)
Definition bid_quad_high (order : ByteOrder) (p : Packed) : Z :=
  int_value order (take 4 (packed_bytes order p)).
Definition bid_quad_low (order : ByteOrder) (p : Packed) : Z :=
  int_value order (drop 4 (packed_bytes order p)).

Definition bid_temp_id (p : Packed) : Z := bid_number p.

Definition bid_isEmpty (order : ByteOrder) (p : Packed) : bool :=
  bool_decide (bid_quad_high order p = 0) && bool_decide (bid_quad_low order p = 0).

(** [bid_quad_high = bid_quad_low = 0] clears all eight bytes. *)
Definition bid_clear : Packed :=
  {| bid_relation_id := 0; bid_reserved_for_relation := 0; bid_number_up := 0; bid_number := 0 |}.

Definition bid_set_temporary (temp_id : Z) : Packed :=
  {| bid_relation_id := bid_relation_id bid_clear;
     bid_reserved_for_relation := bid_reserved_for_relation bid_clear;
     bid_number_up := bid_number_up bid_clear; bid_number := temp_id |}.

Definition bid_set_permanent (relation_id : Z) (num : RecordNumber) : Packed :=
  rn_bid_encode num
    {| bid_relation_id := relation_id;
       bid_reserved_for_relation := bid_reserved_for_relation bid_clear;
       bid_number_up := bid_number_up bid_clear; bid_number := bid_number bid_clear |}.

Definition bid_get_permanent_number (p : Packed) : RecordNumber :=
  rn_bid_decode p RecordNumber_default.

Definition bid_eq (order : ByteOrder) (p q : Packed) : bool :=
  bool_decide (bid_quad_high order p = bid_quad_high order q) &&
  bool_decide (bid_quad_low order p = bid_quad_low order q).

(** ** Positions *)

(** A non-negative record number whose page sequence fits 32 bits is recovered
    from its position, and the position is within its page. *)
Theorem decompose_compose rpp dpp r :
  0 < rpp < 2 ^ 16 -> 0 < dpp < 2 ^ 16 -> 0 <= rn_value r < 2 ^ 32 * rpp ->
  exists line slot pp, rn_decompose rpp dpp r = Some (line, slot, pp) /\
    0 <= line < rpp /\ 0 <= slot < dpp /\ 0 <= pp < 2 ^ 32 /\
    rn_compose rpp dpp line slot pp r = r.
Proof.
  intros Hr Hd Hv. change (2 ^ 16) with 65536 in *. change (2 ^ 32) with 4294967296 in *.
  unfold rn_decompose. rewrite decide_False by lia.
  rewrite Z.rem_mod_nonneg, Z.quot_div_nonneg by lia.
  set (v := rn_value r) in *.
  pose proof (Z.mod_pos_bound v rpp ltac:(lia)) as Hm.
  pose proof (Z.div_mod v rpp ltac:(lia)) as Hdm.
  assert (Hq : 0 <= v / rpp < 4294967296).
  { split; [apply Z.div_pos; lia|apply Z.div_lt_upper_bound; lia]. }
  rewrite (wrapU_id 16 (v mod rpp)) by (unfold inU; change (2 ^ 16) with 65536; lia).
  rewrite (wrapU_id 32) by (unfold inU; change (2 ^ 32) with 4294967296; lia).
  set (q := v / rpp) in *.
  pose proof (Z.mod_pos_bound q dpp ltac:(lia)) as Hm2.
  pose proof (Z.div_mod q dpp ltac:(lia)) as Hdm2.
  assert (Hq2 : 0 <= q / dpp <= q).
  { split; [apply Z.div_pos; lia|]. apply Z.div_le_upper_bound; nia. }
  rewrite (wrapU_id 16) by (unfold inU; change (2 ^ 16) with 65536; lia).
  eexists _, _, _. split; [done|]. split; [lia|]. split; [lia|]. split; [lia|].
  unfold rn_compose. replace (q / dpp * dpp + q mod dpp) with q by lia.
  assert (Hin : forall z, 0 <= z < 9223372036854775808 -> wrapS 64 z = z).
  { intros z Hz. apply wrapS_id; [lia|]. unfold inS.
    change (2 ^ (64 - 1)) with 9223372036854775808. lia. }
  rewrite (Hin q), (Hin (q * rpp)), (Hin (q * rpp + _)) by nia.
  replace (q * rpp + v mod rpp) with v by lia.
  unfold rn_setValue, v. by destruct r.
Qed.

(** A position within its page is recovered from the record number composed of
    it, as long as the page sequence fits 32 bits. *)
Theorem compose_decompose rpp dpp line slot pp r :
  0 < rpp < 2 ^ 16 -> 0 < dpp < 2 ^ 16 -> 0 <= line < rpp -> 0 <= slot < dpp -> 0 <= pp ->
  pp * dpp + slot < 2 ^ 32 ->
  rn_decompose rpp dpp (rn_compose rpp dpp line slot pp r) = Some (line, slot, pp).
Proof.
  intros Hr Hd Hl Hs Hp Hq. change (2 ^ 16) with 65536 in *. change (2 ^ 32) with 4294967296 in *.
  assert (Hin : forall z, 0 <= z < 9223372036854775808 -> wrapS 64 z = z).
  { intros z Hz. apply wrapS_id; [lia|]. unfold inS.
    change (2 ^ (64 - 1)) with 9223372036854775808. lia. }
  unfold rn_compose, rn_decompose. cbn [rn_value rn_setValue].
  rewrite decide_False by lia.
  set (q := pp * dpp + slot) in *. assert (0 <= q) by (unfold q; nia).
  rewrite (Hin q), (Hin (q * rpp)), (Hin (q * rpp + line)) by nia.
  rewrite Z.rem_mod_nonneg, Z.quot_div_nonneg by nia.
  assert (Hqe : q = (q * rpp + line) / rpp) by (apply (Z.div_unique _ _ _ line); lia).
  assert (Hme : line = (q * rpp + line) mod rpp) by (apply (Z.mod_unique _ _ q); lia).
  rewrite <- Hqe, <- Hme.
  assert (Hse : slot = q mod dpp) by (apply (Z.mod_unique _ _ pp); unfold q; lia).
  assert (Hpe : pp = q / dpp) by (apply (Z.div_unique _ _ _ slot); unfold q; lia).
  rewrite (wrapU_id 16 line) by (unfold inU; change (2 ^ 16) with 65536; lia).
  rewrite (wrapU_id 32 q) by (unfold inU; change (2 ^ 32) with 4294967296; lia).
  rewrite <- Hse, <- Hpe.
  by rewrite (wrapU_id 16 slot) by (unfold inU; change (2 ^ 16) with 65536; lia).
Qed.

(** Beyond that the sequence is truncated and another record is addressed. *)
Lemma decompose_truncates :
  rn_decompose 1 1 (RecordNumber_new (2 ^ 32 + 5)) = rn_decompose 1 1 (RecordNumber_new 5).
Proof. reflexivity. Qed.

(** ** Ids *)

Lemma packed_decode_encode v p :
  packed_decode (packed_encode v p) = v mod 2 ^ 40.
Proof.
  unfold packed_decode, packed_encode, wrapU. simpl.
  rewrite Z.shiftl_mul_pow2, Z.shiftr_div_pow2 by lia.
  assert (H40 : v mod 2 ^ 32 + (v / 2 ^ 32) mod 2 ^ 8 * 2 ^ 32 = v mod 2 ^ 40).
  { change (2 ^ 40) with (2 ^ 32 * 2 ^ 8). rewrite Z.rem_mul_r by lia. lia. }
  rewrite H40. pose proof (Z.mod_pos_bound v (2 ^ 40) ltac:(lia)) as Hb.
  change (2 ^ 40) with 1099511627776 in *. change (2 ^ 64) with 18446744073709551616.
  rewrite (Z.mod_small _ 18446744073709551616) by lia. apply wrapS_id; [lia|].
  unfold inS. change (2 ^ (64 - 1)) with 9223372036854775808. lia.
Qed.

(** A permanent blob id gives back the relation and the record number, for
    every record number of 40 bits; a negative one (a flag such as [BOF_NUMBER])
    is not recovered. *)
Theorem bid_permanent_roundtrip relation_id num :
  bid_relation_id (bid_set_permanent relation_id num) = relation_id /\
  (rn_value (bid_get_permanent_number (bid_set_permanent relation_id num)) = rn_value num
   <-> 0 <= rn_value num < 2 ^ 40).
Proof.
  split; [done|]. unfold bid_get_permanent_number, bid_set_permanent, rn_bid_decode, rn_bid_encode.
  simpl. rewrite packed_decode_encode. split.
  - intros <-. apply Z.mod_pos_bound. lia.
  - apply Z.mod_small.
Qed.

Lemma le_value_bytes n v : 0 <= v < 2 ^ (8 * Z.of_nat n) -> le_value (le_bytes n v) = v.
Proof.
  revert v. induction n as [|n IH]; intros v Hv; cbn [le_bytes le_value].
  { change (2 ^ (8 * Z.of_nat 0)) with 1 in Hv. lia. }
  replace (8 * Z.of_nat (S n)) with (8 * Z.of_nat n + 8) in Hv by lia.
  rewrite Z.pow_add_r in Hv by lia. change (2 ^ 8) with 256 in *.
  rewrite Z.shiftr_div_pow2 by lia. change (2 ^ 8) with 256.
  rewrite IH.
  - rewrite Z.shiftl_mul_pow2 by lia. unfold wrapU. change (2 ^ 8) with 256.
    pose proof (Z.div_mod v 256 ltac:(lia)). lia.
  - split; [apply Z.div_pos; lia|apply Z.div_lt_upper_bound; lia].
Qed.

Lemma int_value_bytes order n v :
  0 <= v < 2 ^ (8 * Z.of_nat n) -> int_value order (int_bytes order n v) = v.
Proof.
  intros Hv. destruct order; simpl; [by apply le_value_bytes|].
  rewrite rev_involutive. by apply le_value_bytes.
Qed.

Lemma bid_quad_low_number order p : packed_wf p -> bid_quad_low order p = bid_number p.
Proof.
  intros (_ & _ & _ & Hn). unfold bid_quad_low.
  transitivity (int_value order (int_bytes order 4 (bid_number p))).
  - by destruct order.
  - apply int_value_bytes. exact Hn.
Qed.

(** The high word determines the relation id, the reserved byte and the upper
    byte of the number. *)
Lemma bid_quad_high_value order p :
  packed_wf p -> bid_quad_high order p =
  match order with
  | LittleEndian => bid_relation_id p + 2 ^ 16 * bid_reserved_for_relation p + 2 ^ 24 * bid_number_up p
  | BigEndian => bid_relation_id p + 2 ^ 16 * bid_reserved_for_relation p + 2 ^ 24 * bid_number_up p
  end.
Proof.
  intros (Hr & _ & _ & _). unfold bid_quad_high.
  pose proof (le_value_bytes 2 (bid_relation_id p) Hr) as H2.
  destruct order; unfold int_value, packed_bytes, int_bytes in *; simpl in *;
    rewrite !Z.shiftl_mul_pow2 in * by lia; lia.
Qed.

(** [operator==] of blob ids, which compares the two words of the public view,
    is equality of all the fields, on machines of either byte order; and a
    temporary id never equals a permanent one of a relation. *)
Theorem bid_eq_correct order p q :
  packed_wf p -> packed_wf q ->
  (bid_eq order p q = true <-> p = q) /\
  (forall temp_id relation_id num, relation_id <> 0 ->
     p = bid_set_temporary temp_id -> q = bid_set_permanent relation_id num ->
     bid_eq order p q = false).
Proof.
  intros Hp Hq.
  assert (Heq : bid_eq order p q = true <-> p = q).
  { unfold bid_eq. rewrite andb_true_iff, !bool_decide_eq_true.
    rewrite !bid_quad_low_number, !bid_quad_high_value by done.
    split; [|by intros ->]. intros [Hh Hl].
    destruct Hp as (Hp1 & Hp2 & Hp3 & _), Hq as (Hq1 & Hq2 & Hq3 & _).
    unfold inU in *. change (2 ^ 16) with 65536 in *. change (2 ^ 24) with 16777216 in *.
    change (2 ^ 8) with 256 in *. destruct p as [r v u n], q as [r' v' u' n']; simpl in *.
    assert (u = u') by (destruct order; lia). assert (v = v') by (destruct order; lia).
    assert (r = r') by (destruct order; lia). by subst. }
  split; [exact Heq|]. intros temp_id rel num Hrel -> ->.
  apply not_true_iff_false. intros He%Heq. injection He as Hr _ _. congruence.
Qed.

(** ** Witnesses *)

Lemma decompose_compose_witness :
  exists line slot pp, rn_decompose 400 2000 (RecordNumber_new 123456789) = Some (line, slot, pp) /\
    0 <= line < 400 /\ 0 <= slot < 2000 /\ 0 <= pp < 2 ^ 32 /\
    rn_compose 400 2000 line slot pp (RecordNumber_new 123456789) = RecordNumber_new 123456789.
Proof. apply decompose_compose; simpl; lia32. Defined.

Lemma compose_decompose_witness :
  rn_decompose 400 2000 (rn_compose 400 2000 39 1641 154 RecordNumber_default)
  = Some (39, 1641, 154).
Proof. apply compose_decompose; lia32. Defined.

Lemma bid_eq_correct_witness :
  bid_eq LittleEndian (bid_set_temporary 7) (bid_set_permanent 130 (RecordNumber_new (2 ^ 33 + 7)))
  = false.
Proof.
  apply (proj2 (bid_eq_correct LittleEndian (bid_set_temporary 7)
    (bid_set_permanent 130 (RecordNumber_new (2 ^ 33 + 7)))
    ltac:(split_and!; vm_compute; (done || congruence))
    ltac:(split_and!; vm_compute; (done || congruence))) 7 130 (RecordNumber_new (2 ^ 33 + 7)));
    [lia|reflexivity|reflexivity].
Defined.
