(* ===== verification/Hash.v ===== *)
(** * [DefaultHash] and [HashTable]: [src/src/common/classes/Hash.h]

    A table is an array of buckets, each the head of a doubly linked chain in
    which an entry points back not to its predecessor but to the pointer that
    points to it: the bucket or the [nextElement] of another entry. The entries
    live in a store, and chains are followed and relinked through it. *)

From stdpp Require Import gmap.
From S2P Require Import Prelude.

(** ** DefaultHash *)

(** [sum += val]: the value of eight bytes of a little-endian machine. *)
Fixpoint bytes_value (bs : list Z) : Z :=
  match bs with [] => 0 | b :: bs => b + 256 * bytes_value bs end.

(** [while (length >= sizeof(size_t)) ... if (length) ...]: a short tail is padded
    with zeroes. *)
Fixpoint hash_sum (fuel : nat) (data : list Z) (sum : Z) : Z :=
  match fuel with
  | O => sum
  | S fuel =>
      if decide (8 <= length data)%nat then
        hash_sum fuel (drop 8 data) (wrapU 64 (sum + bytes_value (take 8 data)))
      else if decide (data = []) then sum
      else wrapU 64 (sum + bytes_value data)
  end.

(** [while (sum) { rc += (sum % hashSize); sum /= hashSize; }]; [None]: the loop
    does not end within the fuel, or divides by zero. *)
Fixpoint hash_digits (fuel : nat) (sum hashSize rc : Z) : option Z :=
  if decide (sum = 0) then Some rc
  else
    match fuel with
    | O => None
    | S fuel =>
        if decide (hashSize = 0) then None
        else hash_digits fuel (sum / hashSize) hashSize (wrapU 64 (rc + sum mod hashSize))
    end.

Definition DefaultHash_hash (value : list Z) (hashSize : Z) : option Z :=
  rc ← hash_digits 64 (hash_sum (S (length value)) value 0) hashSize 0;
  Some (wrapU 32 (rc mod hashSize)).

Lemma hash_digits_ok fuel sum hashSize rc :
  2 <= hashSize < 2 ^ 32 -> 0 <= sum < 2 ^ Z.of_nat fuel -> 0 <= rc ->
  rc + Z.of_nat fuel * 2 ^ 32 < 2 ^ 64 ->
  exists r, hash_digits fuel sum hashSize rc = Some r /\ 0 <= r.
Proof.
  revert sum rc. induction fuel as [|fuel IH]; intros sum rc Hh Hs Hr Hrc.
  { change (2 ^ Z.of_nat 0) with 1 in Hs. cbn [hash_digits]. rewrite decide_True by lia. eauto. }
  cbn [hash_digits]. case_decide; [by eauto|]. rewrite decide_False by lia.
  pose proof (Z.mod_pos_bound sum hashSize ltac:(lia)) as Hm.
  change (2 ^ 64) with 18446744073709551616 in *. change (2 ^ 32) with 4294967296 in *.
  rewrite wrapU_id.
  2:{ unfold inU. change (2 ^ 64) with 18446744073709551616. lia. }
  apply IH; [lia| |lia|lia]. split; [apply Z.div_pos; lia|].
  apply Z.div_lt_upper_bound; [lia|].
  rewrite Nat2Z.inj_succ, Z.pow_succ_r in Hs by lia. nia.
Qed.

Lemma hash_sum_range fuel data sum :
  0 <= sum < 2 ^ 64 -> 0 <= hash_sum fuel data sum < 2 ^ 64.
Proof.
  revert data sum. induction fuel as [|fuel IH]; intros data sum Hs; simpl; [done|].
  repeat case_decide; [apply IH|done|]; apply (wrapU_range 64); lia.
Qed.

(** The default hash function ends and stays below the table size, for every
    key and every table size of at least two. *)
Theorem DefaultHash_in_range value hashSize :
  2 <= hashSize < 2 ^ 32 ->
  exists h, DefaultHash_hash value hashSize = Some h /\ 0 <= h < hashSize.
Proof.
  intros Hh. unfold DefaultHash_hash.
  destruct (hash_digits_ok 64 (hash_sum (S (length value)) value 0) hashSize 0)
    as (r & -> & Hr); [done| |lia|reflexivity|].
  { apply hash_sum_range. lia. }
  simpl. eexists. split; [done|].
  pose proof (Z.mod_pos_bound r hashSize ltac:(lia)). rewrite wrapU_id by (unfold inU; lia). lia.
Qed.

Lemma DefaultHash_in_range_witness :
  exists h, DefaultHash_hash [97; 98; 99; 100; 101; 102; 103; 104; 105] 97 = Some h /\
    0 <= h < 97.
Proof. apply DefaultHash_in_range. lia. Defined.

(** With a table of one bucket the loop never ends, whatever the fuel. *)
Lemma hash_digits_diverges fuel sum rc : sum <> 0 -> hash_digits fuel sum 1 rc = None.
Proof.
  revert rc. induction fuel as [|fuel IH]; intros rc Hs; cbn [hash_digits];
    rewrite decide_False by done; [done|].
  rewrite decide_False by lia. rewrite Z.div_1_r. by apply IH.
Qed.

(** ** HashTable *)

(** [Entry**]: where a pointer to an entry is stored. *)
Inductive Slot := SBucket (n : nat) | SNext (a : nat).

#[export] Instance Slot_eq_dec : EqDecision Slot.
Proof. solve_decision. Defined.

(** An entry; [n_key] stands for the object derived from it, whose key
    [isEqual] compares and [KeyOfValue] returns. *)
Record Node (K : Type) := { n_prev : option Slot; n_next : option nat; n_key : K }.
Arguments n_prev {_}.
Arguments n_next {_}.
Arguments n_key {_}.
Arguments Build_Node {_}.

Record HashTable (K : Type) := {
  ht_data : list (option nat);
  ht_heap : gmap nat (Node K);
  ht_duplicates : bool
}.
Arguments ht_data {_}.
Arguments ht_heap {_}.
Arguments ht_duplicates {_}.
Arguments Build_HashTable {_}.

Section Code.
Context {K : Type} `{EqDecision K} (HASHSIZE : nat) (hash : K -> nat).
Implicit Types (ht : HashTable K) (slot : Slot) (a : nat).

Definition set_data ht (n : nat) (p : option nat) : HashTable K :=
  {| ht_data := <[n := p]> (ht_data ht); ht_heap := ht_heap ht;
     ht_duplicates := ht_duplicates ht |}.

Definition set_node ht a (e : Node K) : HashTable K :=
  {| ht_data := ht_data ht; ht_heap := <[a := e]> (ht_heap ht);
     ht_duplicates := ht_duplicates ht |}.

Definition set_prev ht a (p : option Slot) : option (HashTable K) :=
  e ← ht_heap ht !! a; Some (set_node ht a {| n_prev := p; n_next := n_next e; n_key := n_key e |}).

Definition set_next ht a (p : option nat) : option (HashTable K) :=
  e ← ht_heap ht !! a; Some (set_node ht a {| n_prev := n_prev e; n_next := p; n_key := n_key e |}).

(** [*slot] and [*slot = p] *)
Definition slot_get ht slot : option (option nat) :=
  match slot with
  | SBucket n => ht_data ht !! n
  | SNext a => e ← ht_heap ht !! a; Some (n_next e)
  end.

Definition slot_set ht slot (p : option nat) : option (HashTable K) :=
  match slot with
  | SBucket n => if decide (n < length (ht_data ht))%nat then Some (set_data ht n p) else None
  | SNext a => set_next ht a p
  end.

(** [Entry::unLink] *)
Definition entry_unLink a ht : option (HashTable K) :=
  e ← ht_heap ht !! a;
  match n_prev e with
  | None => Some ht
  | Some prev =>
      ht ← (match n_next e with Some next => set_prev ht next (Some prev) | None => Some ht end);
      ht ← slot_set ht prev (n_next e);
      set_prev ht a None
  end.

(** [Entry::link] *)
Definition entry_link a (where_ : Slot) ht : option (HashTable K) :=
  ht ← entry_unLink a ht;
  ht ← set_prev ht a (Some where_);
  next ← slot_get ht where_;
  ht ← set_next ht a next;
  ht ← (match next with Some b => set_prev ht b (Some (SNext a)) | None => Some ht end);
  slot_set ht where_ (Some a).

Definition entry_isEqual ht a (key : K) : option bool :=
  e ← ht_heap ht !! a; Some (bool_decide (n_key e = key)).

(** [Entry::next(key)] *)
Definition entry_next_key a (key : K) ht : option (option nat) :=
  e ← ht_heap ht !! a;
  match n_next e with
  | None => Some None
  | Some b => eq ← entry_isEqual ht b key; Some (if eq : bool then Some b else None)
  end.

Definition hash_new : HashTable K :=
  {| ht_data := replicate HASHSIZE None; ht_heap := ∅; ht_duplicates := false |}.

Definition hash_enableDuplicates ht : HashTable K :=
  {| ht_data := ht_data ht; ht_heap := ht_heap ht; ht_duplicates := true |}.

(** [locate(key, h)] *)
Fixpoint locate_loop (fuel : nat) ht (key : K) (pointer : Slot) : option Slot :=
  match fuel with
  | O => None
  | S fuel =>
      p ← slot_get ht pointer;
      match p with
      | None => Some pointer
      | Some a =>
          eq ← entry_isEqual ht a key;
          if eq : bool then Some pointer else locate_loop fuel ht key (SNext a)
      end
  end.

Definition hash_locate ht (key : K) : option Slot :=
  locate_loop (S (size (ht_heap ht))) ht key (SBucket (hash key mod HASHSIZE)%nat).

Definition hash_add a ht : option (HashTable K * bool) :=
  v ← ht_heap ht !! a;
  e ← hash_locate ht (n_key v);
  p ← slot_get ht e;
  if negb (ht_duplicates ht) && bool_decide (p <> None) then Some (ht, false)
  else ht ← entry_link a e ht; Some (ht, true).

Definition hash_lookup (key : K) ht : option (option nat) :=
  e ← hash_locate ht key; slot_get ht e.

Definition hash_remove (key : K) ht : option (HashTable K * option nat) :=
  e ← hash_locate ht key;
  p ← slot_get ht e;
  match p with
  | Some entry => ht ← entry_unLink entry ht; Some (ht, Some entry)
  | None => Some (ht, None)
  end.

(** [while (data[n]) { ... }] of [cleanup]: the entries handed to the routine. *)
Fixpoint cleanup_bucket (fuel : nat) (n : nat) ht : option (HashTable K * list nat) :=
  match fuel with
  | O => None
  | S fuel =>
      p ← ht_data ht !! n;
      match p with
      | None => Some (ht, [])
      | Some entry =>
          ht ← entry_unLink entry ht;
          '(ht, rest) ← cleanup_bucket fuel n ht;
          Some (ht, entry :: rest)
      end
  end.

Fixpoint cleanup_from (k : nat) (n : nat) ht : option (HashTable K * list nat) :=
  match k with
  | O => Some (ht, [])
  | S k =>
      '(ht, l1) ← cleanup_bucket (S (size (ht_heap ht))) n ht;
      '(ht, l2) ← cleanup_from k (S n) ht;
      Some (ht, l1 ++ l2)
  end.

Definition hash_cleanup ht : option (HashTable K * list nat) := cleanup_from HASHSIZE 0 ht.

(** *** Iteration *)

Record HashIterator := { hi_elem : nat; hi_current : option nat }.

(** [next()]: [fuel] buckets are left. *)
Fixpoint hash_iter_skip (fuel : nat) ht (elem : nat) (current : option nat)
    : option HashIterator :=
  match current with
  | Some a => Some {| hi_elem := elem; hi_current := Some a |}
  | None =>
      match fuel with
      | O => None
      | S fuel =>
          let elem := S elem in
          if decide (HASHSIZE <= elem)%nat then Some {| hi_elem := elem; hi_current := None |}
          else p ← ht_data ht !! elem; hash_iter_skip fuel ht elem p
      end
  end.

Definition hash_iter_new ht : option HashIterator :=
  p ← ht_data ht !! 0%nat; hash_iter_skip (S HASHSIZE) ht 0 p.

Definition hash_iter_next ht (it : HashIterator) : option HashIterator :=
  match hi_current it with
  | None => Some it
  | Some a => e ← ht_heap ht !! a; hash_iter_skip (S HASHSIZE) ht (hi_elem it) (n_next e)
  end.

(** [for (iterator i(h); i.hasData(); ++i)] *)
Fixpoint hash_iterate (fuel : nat) ht (it : HashIterator) : option (list nat) :=
  match fuel with
  | O => None
  | S fuel =>
      match hi_current it with
      | None => Some []
      | Some a => it ← hash_iter_next ht it; rest ← hash_iterate fuel ht it; Some (a :: rest)
      end
  end.
End Code.

(** ** The chains of a table *)

(** A chain only depends on what the pointers hold ([g]) and on what the back
    pointers of the entries are ([pv]). *)
Section Chains.
Implicit Types (g : Slot -> option (option nat)) (pv : nat -> option (option Slot)) (l : list nat).

Fixpoint chain g pv (p : Slot) l : Prop :=
  match l with
  | [] => g p = Some None
  | a :: l => g p = Some (Some a) /\ pv a = Some (Some p) /\ chain g pv (SNext a) l
  end.

(** The pointer after the entries [l] of a chain that starts at [p]. *)
Fixpoint last_slot (p : Slot) l : Slot :=
  match l with [] => p | a :: l => last_slot (SNext a) l end.

Lemma chain_head g pv p l : chain g pv p l -> g p = Some (head l).
Proof. by destruct l as [|a l]; [|intros (? & _)]. Qed.

Lemma chain_skip g pv p l1 l2 :
  chain g pv p (l1 ++ l2) -> chain g pv (last_slot p l1) l2.
Proof. revert p. induction l1 as [|a l1 IH]; intros p H; [done|]. apply IH, H. Qed.

Lemma chain_prev g pv p l a : chain g pv p l -> a ∈ l -> exists s, pv a = Some (Some s).
Proof.
  revert p. induction l as [|b l IH]; intros p; [by intros _ ?%elem_of_nil|].
  intros (_ & Hb & Hl) [->|Ha]%elem_of_cons; [eauto|]. by eapply IH.
Qed.

Lemma last_slot_cases p l :
  (l = [] /\ last_slot p l = p) \/ exists a, a ∈ l /\ last_slot p l = SNext a.
Proof.
  revert p. induction l as [|a l IH]; intros p; [by left|right]. simpl.
  destruct (IH (SNext a)) as [[-> ->]|(b & Hb & ->)].
  - exists a. split; [left|done].
  - exists b. split; [by right|done].
Qed.

Lemma chain_ext g pv g' pv' p l :
  chain g pv p l -> g' p = g p ->
  (forall a, a ∈ l -> g' (SNext a) = g (SNext a) /\ pv' a = pv a) ->
  chain g' pv' p l.
Proof.
  revert p. induction l as [|a l IH]; intros p; simpl.
  { intros ? ->. done. }
  intros (H1 & H2 & H3) -> Hf. destruct (Hf a ltac:(left)) as [Hn Hp].
  split; [done|]. split; [by rewrite Hp|]. apply IH; [done..|].
  intros b Hb. apply Hf. by right.
Qed.

(** Taking an entry out of a chain, in terms of the three stores it takes. *)
Lemma chain_unlink g pv g' pv' a l2 l1 p :
  chain g pv p (l1 ++ a :: l2) -> NoDup (l1 ++ a :: l2) ->
  (forall b, p = SNext b -> b ∉ l1 ++ a :: l2) ->
  g' (last_slot p l1) = Some (head l2) ->
  (forall s, s <> last_slot p l1 -> g' s = g s) ->
  (forall b, b <> a -> pv' b = if decide (head l2 = Some b) then Some (Some (last_slot p l1)) else pv b) ->
  chain g' pv' p (l1 ++ l2).
Proof.
  revert p. induction l1 as [|x l1 IH]; intros p Hc Hnd Hp Hg Hgf Hpv.
  - simpl in *. destruct Hc as (Ha & Hpa & Hc). destruct l2 as [|b l2]; [done|].
    simpl in *. destruct Hc as (Hb & Hpb & Hc).
    apply NoDup_cons in Hnd as [Hna [Hnb Hnd]%NoDup_cons].
    assert (Hpn : forall c, c ∈ a :: b :: l2 -> SNext c <> p) by (intros c Hc' <-; by apply (Hp c)).
    split; [done|]. split.
    { rewrite Hpv; [by rewrite decide_True|]. intros ->. apply Hna. left. }
    apply (chain_ext g pv); [done| |].
    { apply Hgf, Hpn. right. left. }
    intros c Hc'. split.
    { apply Hgf, Hpn. by do 2 right. }
    rewrite Hpv by (intros ->; apply Hna; by right).
    apply decide_False. intros [= ->]. done.
  - simpl in *. destruct Hc as (Hx & Hpx & Hc). apply NoDup_cons in Hnd as [Hnx Hnd].
    assert (Hs : p <> last_slot (SNext x) l1).
    { intros ->. destruct (last_slot_cases (SNext x) l1) as [[_ E]|(b & Hb & E)]; apply (Hp _ E).
      - left.
      - right. apply elem_of_app. by left. }
    split; [by rewrite Hgf|]. split.
    { rewrite Hpv.
      - rewrite decide_False; [done|]. intros Hh. apply Hnx, elem_of_app. right. right.
        by destruct l2; simplify_eq/=; left.
      - intros ->. apply Hnx, elem_of_app. right. left. }
    apply IH; try done. intros b [= ->]. done.
Qed.

(** Putting an entry into a chain. *)
Lemma chain_link g pv g' pv' a l2 l1 p :
  chain g pv p (l1 ++ l2) -> NoDup (l1 ++ l2) -> a ∉ l1 ++ l2 ->
  (forall b, p = SNext b -> b <> a /\ b ∉ l1 ++ l2) ->
  g' (last_slot p l1) = Some (Some a) ->
  g' (SNext a) = Some (head l2) ->
  (forall s, s <> last_slot p l1 -> s <> SNext a -> g' s = g s) ->
  pv' a = Some (Some (last_slot p l1)) ->
  (forall b, b <> a -> pv' b = if decide (head l2 = Some b) then Some (Some (SNext a)) else pv b) ->
  chain g' pv' p (l1 ++ a :: l2).
Proof.
  revert p. induction l1 as [|x l1 IH]; intros p Hc Hnd Ha Hp Hg Hga Hgf Hpa Hpv.
  - simpl in *. split; [done|]. split; [done|]. destruct l2 as [|b l2]; [done|].
    simpl in *. destruct Hc as (Hb & Hpb & Hc). apply NoDup_cons in Hnd as [Hnb Hnd].
    apply not_elem_of_cons in Ha as [Hab Ha]. split; [done|]. split.
    { rewrite Hpv by done. by apply decide_True. }
    assert (Hpn : forall c, c ∈ b :: l2 -> SNext c <> p)
      by (intros c Hc' <-; by apply (Hp c)).
    apply (chain_ext g pv); [done| |].
    { apply Hgf; [apply Hpn; left|congruence]. }
    intros c Hc'. split.
    { apply Hgf; [apply Hpn; by right|intros [= ->]; done]. }
    rewrite Hpv by (intros ->; done). apply decide_False. intros [= ->]. done.
  - simpl in *. destruct Hc as (Hx & Hpx & Hc). apply NoDup_cons in Hnd as [Hnx Hnd].
    apply not_elem_of_cons in Ha as [Hax Ha].
    assert (Hs : p <> last_slot (SNext x) l1).
    { intros ->. destruct (last_slot_cases (SNext x) l1) as [[_ E]|(b & Hb & E)];
        apply (proj2 (Hp _ E)).
      - left.
      - right. apply elem_of_app. by left. }
    split; [rewrite Hgf; [done..|]|]. { intros ->. by destruct (Hp a eq_refl). }
    split.
    { rewrite Hpv by done. rewrite decide_False; [done|]. intros Hh. apply Hnx, elem_of_app.
      right. by destruct l2; simplify_eq/=; left. }
    apply IH; try done. intros b [= ->]. done.
Qed.
End Chains.

(** ** What the stores of the code do to pointers and back pointers *)

Section Views.
Context {K : Type} `{EqDecision K}.
Implicit Types (ht : HashTable K) (s : Slot) (a : nat).

Definition pview ht a : option (option Slot) := n_prev <$> ht_heap ht !! a.
Definition kview ht a : option K := n_key <$> ht_heap ht !! a.

(** [ht'] has the entries, the keys and the buckets of [ht]. *)
Record same_frame ht ht' : Prop := {
  sf_keys : forall a, kview ht' a = kview ht a;
  sf_dup : ht_duplicates ht' = ht_duplicates ht;
  sf_len : length (ht_data ht') = length (ht_data ht);
  sf_size : size (ht_heap ht') = size (ht_heap ht)
}.

#[export] Instance same_frame_refl : Reflexive same_frame.
Proof. done. Qed.

#[export] Instance same_frame_trans : Transitive same_frame.
Proof. intros a b c [H1 H2 H3 H4] [I1 I2 I3 I4]. split; intros; etrans; eauto. Qed.

Lemma pview_is_Some ht a : is_Some (pview ht a) <-> is_Some (kview ht a).
Proof. unfold pview, kview. by rewrite !fmap_is_Some. Qed.

Lemma slot_is_Some ht a : is_Some (slot_get ht (SNext a)) <-> is_Some (kview ht a).
Proof. unfold kview. simpl. destruct (ht_heap ht !! a); simpl; split; intros [? ?]; simplify_eq; eauto. Qed.

Lemma set_prev_view ht a p :
  is_Some (kview ht a) ->
  exists ht', set_prev ht a p = Some ht' /\ same_frame ht ht' /\
    (forall s, slot_get ht' s = slot_get ht s) /\
    (forall b, pview ht' b = if decide (b = a) then Some p else pview ht b).
Proof.
  unfold kview, pview, set_prev, set_node. intros [k Hk].
  destruct (ht_heap ht !! a) as [e|] eqn:He; [|done]. simpl. eexists. split; [done|].
  split.
  { split; simpl; [|done..|].
    - intros b. unfold kview. simpl. destruct (decide (b = a)) as [->|Hn].
      + by rewrite lookup_insert_eq, He.
      + by rewrite lookup_insert_ne.
    - rewrite map_size_insert, He. done. }
  split.
  - intros [n|b]; simpl; [done|]. destruct (decide (b = a)) as [->|Hn].
    + by rewrite lookup_insert_eq, He.
    + by rewrite lookup_insert_ne.
  - intros b. simpl. case_decide as Hb; [subst; by rewrite lookup_insert_eq|].
    by rewrite lookup_insert_ne.
Qed.

Lemma slot_set_view ht s p :
  is_Some (slot_get ht s) ->
  exists ht', slot_set ht s p = Some ht' /\ same_frame ht ht' /\
    (forall s', slot_get ht' s' = if decide (s' = s) then Some p else slot_get ht s') /\
    (forall b, pview ht' b = pview ht b).
Proof.
  intros Hs. destruct s as [n|a]; simpl in *.
  - apply lookup_lt_is_Some in Hs. rewrite decide_True by done. eexists. split; [done|].
    split; [split; simpl; by rewrite ?length_insert|]. split; [|done].
    intros [m|b]; simpl; [|done]. destruct (decide (m = n)) as [->|Hn].
    + rewrite list_lookup_insert_eq by done. by rewrite decide_True.
    + rewrite list_lookup_insert_ne by done. rewrite decide_False by congruence. done.
  - unfold set_next, set_node. destruct (ht_heap ht !! a) as [e|] eqn:He; [|by destruct Hs].
    simpl. eexists. split; [done|]. split.
    { split; simpl; [|done..|].
      - intros b. unfold kview. simpl. destruct (decide (b = a)) as [->|Hn].
        + by rewrite lookup_insert_eq, He.
        + by rewrite lookup_insert_ne.
      - rewrite map_size_insert, He. done. }
    split.
    + intros [n|b]; simpl; [done|]. destruct (decide (b = a)) as [->|Hn].
      * rewrite lookup_insert_eq. simpl. by rewrite decide_True.
      * rewrite lookup_insert_ne by done. rewrite decide_False by congruence. done.
    + intros b. unfold pview. simpl. destruct (decide (b = a)) as [->|Hn].
      * by rewrite lookup_insert_eq, He.
      * by rewrite lookup_insert_ne.
Qed.

(** The entry that starts a list of entries gets the back pointer [p]. *)
Lemma set_prev_head_view ht l p :
  (forall b, head l = Some b -> is_Some (kview ht b)) ->
  exists ht', (match head l with Some b => set_prev ht b p | None => Some ht end) = Some ht' /\
    same_frame ht ht' /\ (forall s, slot_get ht' s = slot_get ht s) /\
    (forall b, pview ht' b = if decide (head l = Some b) then Some p else pview ht b).
Proof.
  intros Hl. destruct (head l) as [b|] eqn:Hb; [|by exists ht].
  destruct (set_prev_view ht b p) as (ht' & -> & Hf & Hs & Hp); [by apply Hl|].
  exists ht'. split; [done|]. split; [done|]. split; [done|]. intros c. rewrite Hp.
  destruct (decide (c = b)) as [->|]; [by rewrite decide_True|].
  rewrite decide_False by congruence. done.
Qed.

Lemma unLink_view ht a s l :
  pview ht a = Some (Some s) -> is_Some (slot_get ht s) ->
  slot_get ht (SNext a) = Some (head l) -> head l <> Some a ->
  (forall b, head l = Some b -> is_Some (kview ht b)) ->
  exists ht', entry_unLink a ht = Some ht' /\ same_frame ht ht' /\
    (forall s', slot_get ht' s' = if decide (s' = s) then Some (head l) else slot_get ht s') /\
    (forall b, pview ht' b = if decide (b = a) then Some None
       else if decide (head l = Some b) then Some (Some s) else pview ht b).
Proof.
  intros Hp Hs Hn Hla Hl. unfold entry_unLink. unfold pview in Hp. simpl in Hn.
  destruct (ht_heap ht !! a) as [e|] eqn:He; [|done]. simplify_eq/=. rewrite Hp, Hn.
  destruct (set_prev_head_view ht l (Some s) Hl) as (h1 & -> & F1 & S1 & P1). simpl.
  destruct (slot_set_view h1 s (head l)) as (h2 & -> & F2 & S2 & P2); [by rewrite S1|]. simpl.
  destruct (set_prev_view h2 a None) as (h3 & -> & F3 & S3 & P3).
  { rewrite (sf_keys _ _ F2), (sf_keys _ _ F1). unfold kview. by rewrite He. }
  exists h3. split; [done|]. split; [by do 2 (etrans; [done|])|]. split.
  - intros s'. rewrite S3, S2. by rewrite S1.
  - intros b. rewrite P3. case_decide; [done|]. by rewrite P2, P1.
Qed.

Lemma link_view ht a s l :
  pview ht a = Some None -> slot_get ht s = Some (head l) -> s <> SNext a ->
  head l <> Some a -> (forall b, head l = Some b -> is_Some (kview ht b)) ->
  exists ht', entry_link a s ht = Some ht' /\ same_frame ht ht' /\
    (forall s', slot_get ht' s' =
       if decide (s' = s) then Some (Some a) else
       if decide (s' = SNext a) then Some (head l) else slot_get ht s') /\
    (forall b, pview ht' b = if decide (b = a) then Some (Some s)
       else if decide (head l = Some b) then Some (Some (SNext a)) else pview ht b).
Proof.
  intros Hp Hs Hsa Hla Hl. unfold entry_link, entry_unLink. pose proof Hp as Hk.
  apply mk_is_Some, pview_is_Some in Hk. unfold pview in Hp.
  destruct (ht_heap ht !! a) as [e|] eqn:He; [|done]. simplify_eq/=. rewrite Hp. simpl.
  destruct (set_prev_view ht a (Some s)) as (h1 & -> & F1 & S1 & P1); [done|]. simpl.
  rewrite S1, Hs. simpl. change (set_next h1 a (head l)) with (slot_set h1 (SNext a) (head l)).
  destruct (slot_set_view h1 (SNext a) (head l)) as (h2 & -> & F2 & S2 & P2).
  { rewrite S1. by apply slot_is_Some. }
  simpl. destruct (set_prev_head_view h2 l (Some (SNext a))) as (h3 & -> & F3 & S3 & P3).
  { intros b Hb. rewrite (sf_keys _ _ F2), (sf_keys _ _ F1). by apply Hl. }
  simpl. destruct (slot_set_view h3 s (Some a)) as (h4 & -> & F4 & S4 & P4).
  { rewrite S3, S2. rewrite decide_False by done. by rewrite S1, Hs. }
  exists h4. split; [done|]. split; [by do 3 (etrans; [done|])|]. split.
  - intros s'. rewrite S4, S3, S2, S1. done.
  - intros b. rewrite P4, P3, P2, P1. destruct (decide (b = a)) as [->|]; [|done].
    by rewrite decide_False.
Qed.
End Views.

(** ** The table as a multimap *)

Section Table.
Context {K : Type} `{EqDecision K} (HASHSIZE : nat) (hash : K -> nat).
Context (HSpos : (0 < HASHSIZE)%nat) (keys : gmap nat K).
Implicit Types (ht : HashTable K) (C : list (list nat)) (M : K -> list nat).

Definition bucket (k : K) : nat := (hash k mod HASHSIZE)%nat.

(** [C] holds the entries of every bucket, in the order of the chain. *)
Record chains ht C : Prop := {
  c_keys : forall a, kview ht a = keys !! a;
  c_size : size (ht_heap ht) = size keys;
  c_len : length (ht_data ht) = HASHSIZE;
  c_lenC : length C = HASHSIZE;
  c_nodup : NoDup (mjoin C);
  c_chain : forall n l, C !! n = Some l -> chain (slot_get ht) (pview ht) (SBucket n) l;
  c_bucket : forall n l a k, C !! n = Some l -> a ∈ l -> keys !! a = Some k -> bucket k = n;
  c_unlinked : forall a, is_Some (keys !! a) -> a ∉ mjoin C -> pview ht a = Some None
}.

Definition has_key (k : K) (a : nat) : Prop := keys !! a = Some k.

#[export] Instance has_key_dec k a : Decision (has_key k a).
Proof. unfold has_key. apply _. Defined.

(** The entries of key [k], the first one found first. *)
Definition entries C (k : K) : list nat := filter (has_key k) (mjoin C).

Lemma mjoin_replace C n l l' :
  C !! n = Some l ->
  mjoin C = mjoin (take n C) ++ l ++ mjoin (drop (S n) C) /\
  mjoin (<[n := l']> C) = mjoin (take n C) ++ l' ++ mjoin (drop (S n) C).
Proof.
  intros Hl. split.
  - rewrite <- (take_drop_middle C n l Hl) at 1. by rewrite join_app.
  - rewrite insert_take_drop by (by eapply lookup_lt_Some). by rewrite join_app.
Qed.

Lemma elem_of_mjoin C a : a ∈ mjoin C <-> exists n l, C !! n = Some l /\ a ∈ l.
Proof.
  rewrite list_elem_of_join. split.
  - intros (l & Ha & [n Hn]%list_elem_of_lookup). eauto.
  - intros (n & l & Hn & Ha). exists l. split; [done|]. by eapply list_elem_of_lookup_2.
Qed.

Lemma chain_keys ht C n l a : chains ht C -> C !! n = Some l -> a ∈ l -> is_Some (keys !! a).
Proof.
  intros HC Hl Ha. destruct (chain_prev _ _ _ _ a (c_chain _ _ HC n l Hl) Ha) as [s Hs].
  rewrite <- (c_keys _ _ HC). apply pview_is_Some. eauto.
Qed.

Lemma chain_other ht C n m l l' a :
  chains ht C -> C !! n = Some l -> C !! m = Some l' -> n <> m -> a ∈ l -> a ∉ l'.
Proof.
  intros HC Hl Hl' Hn Ha Ha'. destruct (chain_keys _ _ _ _ _ HC Hl Ha) as [k Hk].
  apply Hn. rewrite <- (c_bucket _ _ HC n l a k) by done. by apply (c_bucket _ _ HC m l' a k).
Qed.

Lemma bucket_lookup ht C k : chains ht C -> exists l, C !! bucket k = Some l.
Proof.
  intros HC. apply lookup_lt_is_Some. rewrite (c_lenC _ _ HC).
  apply Nat.mod_upper_bound. lia.
Qed.

Lemma filter_none (k : K) l : (forall a, a ∈ l -> ~ has_key k a) -> filter (has_key k) l = [].
Proof.
  induction l as [|a l IH]; intros Hl; [done|]. rewrite filter_cons_False by (apply Hl; left).
  apply IH. intros b Hb. apply Hl. by right.
Qed.

(** The entries of a key are all in its bucket. *)
Lemma entries_bucket ht C k l :
  chains ht C -> C !! bucket k = Some l -> entries C k = filter (has_key k) l.
Proof.
  intros HC Hl. unfold entries.
  destruct (mjoin_replace C _ l [] Hl) as [-> _]. rewrite !filter_app.
  assert (Hno : forall L, (forall m l', L !! m = Some l' -> exists m', m' <> bucket k /\ C !! m' = Some l') ->
                 filter (has_key k) (mjoin L) = []).
  { intros L HL. apply filter_none. intros a Ha Hk.
    apply elem_of_mjoin in Ha as (m & l' & Hm & Ha). destruct (HL m l' Hm) as (m' & Hn & Hm').
    apply Hn. symmetry. by apply (c_bucket _ _ HC m' l' a k). }
  rewrite (Hno (take _ _)), (Hno (drop _ _)).
  - by rewrite app_nil_r.
  - intros m l'. rewrite lookup_drop. intros Hm. eexists. split; [|done]. lia.
  - intros m l' Hm. pose proof (lookup_lt_Some _ _ _ Hm) as Hlt. rewrite length_take in Hlt.
    rewrite lookup_take_lt in Hm by lia. exists m. split; [lia|done].
Qed.

Lemma chain_length ht C n l : chains ht C -> C !! n = Some l -> (length l <= size keys)%nat.
Proof.
  intros HC Hl. assert (Hnd : NoDup l).
  { pose proof (c_nodup _ _ HC) as Hnd. destruct (mjoin_replace C n l [] Hl) as [E _].
    rewrite E in Hnd. apply NoDup_app in Hnd as (_ & _ & Hnd). by apply NoDup_app in Hnd as [? _]. }
  rewrite <- (size_list_to_set (C := gset nat) l Hnd), <- (size_dom (D := gset nat)).
  apply subseteq_size. intros a Ha%elem_of_list_to_set. apply elem_of_dom.
  by eapply chain_keys.
Qed.

(** A bucket's list is replaced, all else is kept. *)
Lemma chains_update ht ht' C n l l' :
  chains ht C -> C !! n = Some l -> same_frame ht ht' -> NoDup l' ->
  (forall b, b ∈ l' -> b ∈ l \/ ((b ∉ mjoin C) /\ exists k, keys !! b = Some k /\ bucket k = n)) ->
  chain (slot_get ht') (pview ht') (SBucket n) l' ->
  (forall m, m <> n -> slot_get ht' (SBucket m) = slot_get ht (SBucket m)) ->
  (forall b, b ∉ l -> b ∉ l' ->
     slot_get ht' (SNext b) = slot_get ht (SNext b) /\ pview ht' b = pview ht b) ->
  (forall b, b ∈ l -> b ∉ l' -> pview ht' b = Some None) ->
  chains ht' (<[n := l']> C).
Proof.
  intros HC Hl [F1 F2 F3 F4] Hnd Hin Hchain Hb Hs Hun.
  destruct (mjoin_replace C n l l' Hl) as [E E'].
  pose proof (c_nodup _ _ HC) as HndC. rewrite E in HndC.
  apply NoDup_app in HndC as (N1 & N2 & (N3 & N4 & N5)%NoDup_app).
  assert (Hold : forall m l2, (<[n := l']> C) !! m = Some l2 ->
                   (m = n /\ l2 = l') \/ (m <> n /\ C !! m = Some l2)).
  { intros m l2. destruct (decide (m = n)) as [->|Hm].
    - rewrite list_lookup_insert_eq by (by eapply lookup_lt_Some). intros [= ->]. by left.
    - rewrite list_lookup_insert_ne by done. by right. }
  assert (Hcl : forall m l2 b, m <> n -> C !! m = Some l2 -> b ∈ l2 -> (b ∉ l) /\ (b ∉ l')).
  { intros m l2 b Hm Hl2 Hb2. assert (b ∉ l) by (by eapply (chain_other _ _ m n); eauto).
    split; [done|]. intros Hb3. destruct (Hin b Hb3) as [?|[Hno _]]; [done|].
    apply Hno, elem_of_mjoin. eauto. }
  split.
  - intros a. rewrite F1. apply (c_keys _ _ HC).
  - rewrite F4. apply (c_size _ _ HC).
  - rewrite F3. apply (c_len _ _ HC).
  - rewrite length_insert. apply (c_lenC _ _ HC).
  - rewrite E'. apply NoDup_app. split; [done|]. split.
    { intros b Hb1 [Hb2|Hb2]%elem_of_app.
      - destruct (Hin b Hb2) as [Hb3|[Hb3 _]].
        + apply (N2 b Hb1), elem_of_app. by left.
        + apply Hb3. rewrite E. apply elem_of_app. by left.
      - apply (N2 b Hb1), elem_of_app. by right. }
    apply NoDup_app. split; [done|]. split; [|done]. intros b Hb1 Hb2.
    destruct (Hin b Hb1) as [Hb3|[Hb3 _]]; [by apply (N4 b)|].
    apply Hb3. rewrite E. apply elem_of_app. right. apply elem_of_app. by right.
  - intros m l2 [[-> ->]|[Hm Hl2]]%Hold; [done|].
    apply (chain_ext (slot_get ht) (pview ht)); [by apply (c_chain _ _ HC)|by apply Hb|].
    intros b Hb2. destruct (Hcl m l2 b) as [? ?]; [done..|]. by apply Hs.
  - intros m l2 a k [[-> ->]|[Hm Hl2]]%Hold Ha Hk; [|by apply (c_bucket _ _ HC m l2 a k)].
    destruct (Hin a Ha) as [Ha'|(_ & k' & Hk' & <-)]; [by apply (c_bucket _ _ HC n l a k)|].
    by simplify_eq.
  - intros a Hk Ha. rewrite E' in Ha.
    assert (Hal' : a ∉ l') by (intros ?; apply Ha, elem_of_app; right; apply elem_of_app; by left).
    destruct (decide (a ∈ l)) as [Hal|Hal]; [by apply Hun|]. destruct (Hs a Hal Hal') as [_ ->].
    apply (c_unlinked _ _ HC); [done|]. rewrite E. intros [?|[?|?]%elem_of_app]%elem_of_app; [|done|];
      apply Ha, elem_of_app; [by left|right; apply elem_of_app; by right].
Qed.

Lemma head_keys ht C n l l2 b :
  chains ht C -> C !! n = Some (l ++ l2) -> head l2 = Some b -> is_Some (kview ht b) /\ b ∈ l ++ l2.
Proof.
  intros HC Hl Hb. assert (b ∈ l ++ l2) by (apply elem_of_app; right; destruct l2; simplify_eq/=; left).
  split; [|done]. rewrite (c_keys _ _ HC). by eapply chain_keys.
Qed.

Lemma bucket_nodup ht C n l : chains ht C -> C !! n = Some l -> NoDup l.
Proof.
  intros HC Hl. pose proof (c_nodup _ _ HC) as Hnd. destruct (mjoin_replace C n l [] Hl) as [E _].
  rewrite E in Hnd. apply NoDup_app in Hnd as (_ & _ & Hnd). by apply NoDup_app in Hnd as [? _].
Qed.

Lemma unLink_chains ht C n l1 a l2 :
  chains ht C -> C !! n = Some (l1 ++ a :: l2) ->
  exists ht', entry_unLink a ht = Some ht' /\ same_frame ht ht' /\
    chains ht' (<[n := l1 ++ l2]> C).
Proof.
  intros HC Hl. pose proof (bucket_nodup _ _ _ _ HC Hl) as Hnd.
  pose proof (c_chain _ _ HC n _ Hl) as Hc.
  pose proof (chain_skip _ _ _ _ _ Hc) as (Hs & Hp & Hc2).
  pose proof (chain_head _ _ _ _ Hc2) as Hn.
  apply NoDup_app in Hnd as Hnd'. destruct Hnd' as (Hn1 & Hdis & [Hna Hn2]%NoDup_cons).
  destruct (unLink_view ht a (last_slot (SBucket n) l1) l2) as (ht' & -> & F & S & P); try done.
  { destruct l2; [done|]. intros [= ->]. apply Hna. left. }
  { intros b Hb. eapply (head_keys ht C n (l1 ++ [a]) l2); [done| |done].
    by rewrite <- app_assoc. }
  exists ht'. split; [done|]. split; [done|]. apply (chains_update ht _ _ _ (l1 ++ a :: l2)); try done.
  - apply NoDup_app. split; [done|]. split; [|done]. intros b Hb1 Hb2. apply (Hdis b Hb1). by right.
  - intros b [Hb|Hb]%elem_of_app; left; apply elem_of_app; [by left|right; by right].
  - apply (chain_unlink (slot_get ht) (pview ht) _ _ a); try done.
    + rewrite S. by rewrite decide_True.
    + intros s Hs'. rewrite S. by rewrite decide_False.
    + intros b Hb. rewrite P. by rewrite decide_False.
  - intros m Hm. rewrite S. rewrite decide_False; [done|]. intros E.
    destruct (last_slot_cases (SBucket n) l1) as [[_ E']|(b & _ & E')]; congruence.
  - intros b Hb _. rewrite S, P. rewrite elem_of_app, elem_of_cons in Hb. rewrite !decide_False; [done|..].
    + intros Hh. apply Hb. right. right. destruct l2; simplify_eq/=; left.
    + intros ->. apply Hb. right. by left.
    + intros E. destruct (last_slot_cases (SBucket n) l1) as [[_ E']|(c & Hc' & E')]; [congruence|].
      rewrite E' in E. simplify_eq. apply Hb. by left.
  - intros b Hb1 Hb2. rewrite P. rewrite decide_True; [done|].
    apply elem_of_app in Hb1 as [?|[?|?]%elem_of_cons]; [|done|]; exfalso; apply Hb2, elem_of_app; auto.
Qed.

Lemma unLink_unlinked ht C a :
  chains ht C -> is_Some (keys !! a) -> a ∉ mjoin C -> entry_unLink a ht = Some ht.
Proof.
  intros HC Hk Ha. pose proof (c_unlinked _ _ HC a Hk Ha) as Hp. unfold pview in Hp.
  unfold entry_unLink. destruct (ht_heap ht !! a) as [e|]; [|done]. simplify_eq/=. by rewrite Hp.
Qed.

Lemma link_chains ht C n l1 a l2 k :
  chains ht C -> C !! n = Some (l1 ++ l2) -> a ∉ mjoin C -> keys !! a = Some k -> bucket k = n ->
  exists ht', entry_link a (last_slot (SBucket n) l1) ht = Some ht' /\ same_frame ht ht' /\
    chains ht' (<[n := l1 ++ a :: l2]> C).
Proof.
  intros HC Hl Ha Hk Hbk. pose proof (bucket_nodup _ _ _ _ HC Hl) as Hnd.
  pose proof (c_chain _ _ HC n _ Hl) as Hc.
  pose proof (chain_head _ _ _ _ (chain_skip _ _ _ _ _ Hc)) as Hs.
  assert (Hal : a ∉ l1 ++ l2) by (intros ?; apply Ha, elem_of_mjoin; eauto).
  assert (Hsl : last_slot (SBucket n) l1 <> SNext a).
  { intros E. destruct (last_slot_cases (SBucket n) l1) as [[_ E']|(b & Hb & E')]; [congruence|].
    apply Hal, elem_of_app. left. congruence. }
  destruct (link_view ht a (last_slot (SBucket n) l1) l2) as (ht' & -> & F & S & P); try done.
  { apply (c_unlinked _ _ HC); eauto. }
  { intros Hh. by apply (head_keys ht C n l1 l2 a HC) in Hh as [_ ?]. }
  { intros b Hb. by eapply (head_keys ht C n l1 l2). }
  exists ht'. split; [done|]. split; [done|]. apply (chains_update ht _ _ _ (l1 ++ l2)); try done.
  - apply NoDup_app in Hnd as (? & Hdis & ?). rewrite elem_of_app in Hal.
    apply NoDup_app. split; [done|]. split; [|apply NoDup_cons; auto].
    intros b Hb [->|Hb2]%elem_of_cons; [auto|by apply (Hdis b)].
  - intros b [Hb|[->|Hb]%elem_of_cons]%elem_of_app; [left; apply elem_of_app; auto|eauto|].
    left. apply elem_of_app. auto.
  - apply (chain_link (slot_get ht) (pview ht)); try done.
    + rewrite S. by rewrite decide_True.
    + rewrite S. rewrite decide_False by done. by rewrite decide_True.
    + intros s Hs1 Hs2. rewrite S. by rewrite !decide_False.
    + rewrite P. by rewrite decide_True.
    + intros b Hb. rewrite P. by rewrite decide_False.
  - intros m Hm. rewrite S. rewrite !decide_False; [done..|]. intros E.
    destruct (last_slot_cases (SBucket n) l1) as [[_ E']|(b & _ & E')]; congruence.
  - intros b Hb Hb'. rewrite S, P. rewrite elem_of_app, elem_of_cons in Hb'.
    rewrite !decide_False; [done|..].
    + intros Hh. apply (head_keys ht C n l1 l2 b HC) in Hh as [_ ?]; done.
    + intros ->. apply Hb'. right. by left.
    + intros [= ->]. apply Hb'. right. by left.
    + intros E. destruct (last_slot_cases (SBucket n) l1) as [[_ E']|(c & Hc' & E')]; [congruence|].
      rewrite E' in E. simplify_eq. apply Hb'. by left.
  - intros b Hb Hb'. exfalso. apply Hb'. rewrite elem_of_app, elem_of_cons.
    apply elem_of_app in Hb as [?|?]; auto.
Qed.

(** *** The operations *)

Lemma locate_loop_spec ht C k l l1 l2 fuel :
  chains ht C -> C !! bucket k = Some l -> l = l1 ++ l2 -> (length l2 < fuel)%nat ->
  exists m1 m2, l2 = m1 ++ m2 /\ (forall a, a ∈ m1 -> ~ has_key k a) /\
    (forall a, head m2 = Some a -> has_key k a) /\
    locate_loop fuel ht k (last_slot (SBucket (bucket k)) l1) =
      Some (last_slot (SBucket (bucket k)) (l1 ++ m1)).
Proof.
  intros HC Hl. revert l1 l2. induction fuel as [|fuel IH]; intros l1 l2 E Hf; [lia|].
  pose proof (c_chain _ _ HC _ _ Hl) as Hc. rewrite E in Hc. apply chain_skip in Hc.
  cbn [locate_loop]. rewrite (chain_head _ _ _ _ Hc). destruct l2 as [|a l2]; simpl.
  { exists [], []. rewrite !app_nil_r. split; [done|]. split; [by intros ? ?%elem_of_nil|].
    split; [intros ? [=]|done]. }
  assert (Hk : is_Some (keys !! a)).
  { apply (chain_keys ht C (bucket k) l); [done..|]. rewrite E. apply elem_of_app. right. left. }
  destruct Hk as [k' Hk]. pose proof (c_keys _ _ HC a) as Hkv. rewrite Hk in Hkv.
  unfold entry_isEqual. unfold kview in Hkv. destruct (ht_heap ht !! a) as [e|]; [|done].
  simplify_eq/=. case_bool_decide as Heq.
  - exists [], (a :: l2). rewrite app_nil_r. split; [done|]. split; [by intros ? ?%elem_of_nil|].
    split; [|done]. intros ? [= <-]. unfold has_key. congruence.
  - replace (SNext a) with (last_slot (SBucket (bucket k)) (l1 ++ [a])).
    2:{ clear. generalize (SBucket (bucket k)). induction l1; intros s; simpl; auto. }
    destruct (IH (l1 ++ [a]) l2) as (m1 & m2 & -> & Hm1 & Hm2 & ->); [by rewrite <- app_assoc|simpl in *; lia|].
    exists (a :: m1), m2. split; [done|]. split.
    { intros b [->|Hb]%elem_of_cons; [|by apply Hm1]. unfold has_key. rewrite Hk. congruence. }
    split; [done|]. by rewrite <- app_assoc.
Qed.

Lemma hash_locate_spec ht C k :
  chains ht C ->
  exists l1 l2, C !! bucket k = Some (l1 ++ l2) /\ (forall a, a ∈ l1 -> ~ has_key k a) /\
    (forall a, head l2 = Some a -> has_key k a) /\
    hash_locate HASHSIZE hash ht k = Some (last_slot (SBucket (bucket k)) l1) /\
    slot_get ht (last_slot (SBucket (bucket k)) l1) = Some (head l2) /\
    entries C k = filter (has_key k) l2 /\ head (entries C k) = head l2.
Proof.
  intros HC. destruct (bucket_lookup ht C k HC) as [l Hl].
  destruct (locate_loop_spec ht C k l [] l (S (size (ht_heap ht))) HC Hl) as (l1 & l2 & -> & H1 & H2 & H3).
  { done. }
  { rewrite (c_size _ _ HC). pose proof (chain_length _ _ _ _ HC Hl). lia. }
  exists l1, l2. split; [done|]. split; [done|]. split; [done|]. split; [done|].
  split. { eapply chain_head, chain_skip, (c_chain _ _ HC), Hl. }
  assert (E : entries C k = filter (has_key k) l2).
  { rewrite (entries_bucket ht C k _ HC Hl), filter_app, (filter_none k l1 H1). done. }
  split; [done|]. rewrite E. destruct l2 as [|a l2]; [done|].
  rewrite filter_cons_True; [done|]. by apply H2.
Qed.

(** A multimap: the entries of every key, the latest first. *)
Inductive HashOp := HAdd (a : nat) | HLookup (k : K) | HRemove (k : K) | HUnlink (a : nat).
Inductive HashRes := HFlag (b : bool) | HEntry (p : option nat) | HVoid.

Definition set_entries M (k : K) (l : list nat) : K -> list nat :=
  fun k' => if decide (k' = k) then l else M k'.

(** An entry may be added that is in no table. *)
Definition hash_spec (dup : bool) (op : HashOp) M : option ((K -> list nat) * HashRes) :=
  match op with
  | HAdd a =>
      k ← keys !! a;
      if decide (a ∈ M k) then None
      else if negb dup && bool_decide (M k <> []) then Some (M, HFlag false)
      else Some (set_entries M k (a :: M k), HFlag true)
  | HLookup k => Some (M, HEntry (head (M k)))
  | HRemove k => Some (set_entries M k (tail (M k)), HEntry (head (M k)))
  | HUnlink a => k ← keys !! a; Some (set_entries M k (filter (.≠ a) (M k)), HVoid)
  end.

Definition hash_run (op : HashOp) ht : option (HashTable K * HashRes) :=
  match op with
  | HAdd a => '(ht, b) ← hash_add HASHSIZE hash a ht; Some (ht, HFlag b)
  | HLookup k => p ← hash_lookup HASHSIZE hash k ht; Some (ht, HEntry p)
  | HRemove k => '(ht, p) ← hash_remove HASHSIZE hash k ht; Some (ht, HEntry p)
  | HUnlink a => ht ← entry_unLink a ht; Some (ht, HVoid)
  end.

Definition hash_rep (dup : bool) ht M : Prop :=
  exists C, chains ht C /\ ht_duplicates ht = dup /\ forall k, M k = entries C k.

(** Changing the bucket of [k] in its entries of key [k] only. *)
Lemma rep_update dup ht ht' C M k l l' lk :
  chains ht C -> (forall k, M k = entries C k) -> C !! bucket k = Some l ->
  same_frame ht ht' -> ht_duplicates ht = dup -> chains ht' (<[bucket k := l']> C) ->
  filter (has_key k) l' = lk ->
  (forall k', k' <> k -> filter (has_key k') l' = filter (has_key k') l) ->
  hash_rep dup ht' (set_entries M k lk).
Proof.
  intros HC HM Hl F Hd HC' Hk Hk'. exists (<[bucket k := l']> C). split; [done|].
  split; [by rewrite (sf_dup _ _ F)|]. intros k'. unfold set_entries.
  pose proof (lookup_lt_Some _ _ _ Hl) as Hlt.
  destruct (decide (k' = k)) as [->|Hn].
  { rewrite (entries_bucket ht' _ k l'); [done..|]. by rewrite list_lookup_insert_eq. }
  rewrite HM. destruct (decide (bucket k' = bucket k)) as [E|E].
  - rewrite (entries_bucket ht C k' l HC) by (by rewrite E).
    rewrite (entries_bucket ht' _ k' l' HC'); [by rewrite Hk'|].
    by rewrite E, list_lookup_insert_eq.
  - destruct (bucket_lookup ht C k' HC) as [l2 Hl2]. rewrite (entries_bucket ht C k' l2 HC Hl2).
    rewrite (entries_bucket ht' _ k' l2 HC'); [done|]. by rewrite list_lookup_insert_ne.
Qed.

Lemma filter_swap k' l1 l2 a :
  ~ has_key k' a -> filter (has_key k') (l1 ++ a :: l2) = filter (has_key k') (l1 ++ l2).
Proof. intros Hn. by rewrite !filter_app, filter_cons_False. Qed.

Lemma elem_of_entries C k a : a ∈ entries C k <-> has_key k a /\ a ∈ mjoin C.
Proof. apply list_elem_of_filter. Qed.

Lemma filter_ne_self (a : nat) (l : list nat) : a ∉ l -> filter (.≠ a) l = l.
Proof.
  induction l as [|b l IH]; intros Hl; [done|]. apply not_elem_of_cons in Hl as [? ?].
  rewrite filter_cons_True by done. by rewrite IH.
Qed.

Lemma add_refines a dup ht M M' r :
  hash_rep dup ht M -> hash_spec dup (HAdd a) M = Some (M', r) ->
  exists ht', hash_run (HAdd a) ht = Some (ht', r) /\ hash_rep dup ht' M'.
Proof.
  intros (C & HC & Hd & HM) Hop. simpl in *.
  destruct (keys !! a) as [k|] eqn:Hk; simplify_eq/=. case_decide as Ha; [done|].
  rewrite HM in Hop, Ha. assert (Ha' : a ∉ mjoin C) by (intros ?; by apply Ha, elem_of_entries).
  destruct (hash_locate_spec ht C k HC) as (l1 & l2 & Hl & H1 & H2 & Hloc & Hget & HE & Hhd).
  pose proof (c_keys _ _ HC a) as Hkv. rewrite Hk in Hkv. unfold kview in Hkv.
  unfold hash_add. destruct (ht_heap ht !! a) as [e|]; simplify_eq/=.
  rewrite Hloc. simpl. rewrite Hget. simpl. rewrite <- Hhd.
  rewrite (bool_decide_ext (head (entries C (n_key e)) <> None) (entries C (n_key e) <> [])).
  2:{ by destruct (entries C (n_key e)). }
  destruct (negb (ht_duplicates ht) && _); simplify_eq.
  { exists ht. split; [done|]. by exists C. }
  destruct (link_chains ht C _ l1 a l2 (n_key e) HC Hl Ha' Hk eq_refl) as (ht' & -> & F & HC').
  simpl. exists ht'. split; [done|].
  apply (rep_update _ ht _ C _ _ (l1 ++ l2) (l1 ++ a :: l2)); try done.
  + rewrite filter_app, (filter_none _ l1 H1), filter_cons_True by done. simpl. by rewrite HE.
  + intros k' Hk'. apply filter_swap. unfold has_key. congruence.
Qed.

Lemma lookup_refines k dup ht M M' r :
  hash_rep dup ht M -> hash_spec dup (HLookup k) M = Some (M', r) ->
  exists ht', hash_run (HLookup k) ht = Some (ht', r) /\ hash_rep dup ht' M'.
Proof.
  intros (C & HC & Hd & HM) Hop. simpl in *.
  simplify_eq. destruct (hash_locate_spec ht C k HC) as (l1 & l2 & Hl & H1 & H2 & Hloc & Hget & HE & Hhd).
  unfold hash_lookup. rewrite Hloc. simpl. rewrite Hget. simpl. rewrite HM, Hhd.
  exists ht. split; [done|]. by exists C.
Qed.

Lemma remove_refines k dup ht M M' r :
  hash_rep dup ht M -> hash_spec dup (HRemove k) M = Some (M', r) ->
  exists ht', hash_run (HRemove k) ht = Some (ht', r) /\ hash_rep dup ht' M'.
Proof.
  intros (C & HC & Hd & HM) Hop. simpl in *.
  simplify_eq. destruct (hash_locate_spec ht C k HC) as (l1 & l2 & Hl & H1 & H2 & Hloc & Hget & HE & Hhd).
  unfold hash_remove. rewrite Hloc. simpl. rewrite Hget. simpl. rewrite HM, Hhd.
  destruct l2 as [|a l2]; simpl.
  { exists ht. split; [done|]. exists C. split; [done|]. split; [done|]. intros k'.
    unfold set_entries. case_decide; [|done]. subst. by rewrite HE. }
  destruct (unLink_chains ht C _ l1 a l2 HC Hl) as (ht' & -> & F & HC'). simpl.
  exists ht'. split; [done|].
  assert (Hak : has_key k a) by (by apply H2).
  apply (rep_update _ ht _ C _ _ (l1 ++ a :: l2) (l1 ++ l2)); try done.
  + by rewrite HE, filter_app, (filter_none _ l1 H1), filter_cons_True.
  + intros k' Hk'. symmetry. apply filter_swap. unfold has_key in *. congruence.
Qed.

Lemma unlink_refines a dup ht M M' r :
  hash_rep dup ht M -> hash_spec dup (HUnlink a) M = Some (M', r) ->
  exists ht', hash_run (HUnlink a) ht = Some (ht', r) /\ hash_rep dup ht' M'.
Proof.
  intros (C & HC & Hd & HM) Hop. simpl in *.
  destruct (keys !! a) as [k|] eqn:Hk; simplify_eq/=.
  destruct (decide (a ∈ mjoin C)) as [Ha|Ha].
  + apply elem_of_mjoin in Ha as (n & l & Hl & Ha).
    pose proof (c_bucket _ _ HC n l a k Hl Ha Hk) as <-.
    apply list_elem_of_split in Ha as (l1 & l2 & ->).
    destruct (unLink_chains ht C _ l1 a l2 HC Hl) as (ht' & -> & F & HC'). simpl.
    exists ht'. split; [done|].
    apply (rep_update _ ht _ C _ _ (l1 ++ a :: l2) (l1 ++ l2)); try done.
    * rewrite HM, (entries_bucket ht C k _ HC Hl).
      pose proof (bucket_nodup _ _ _ _ HC Hl) as (_ & Hd1 & [Hd2 _]%NoDup_cons)%NoDup_app.
      rewrite !filter_app, filter_cons_True by done.
      rewrite (filter_cons_False (.≠ a)) by (intros Hx; by apply Hx).
      rewrite !filter_ne_self; [done|..].
      { intros [_ ?]%list_elem_of_filter. done. }
      { intros [_ Hx]%list_elem_of_filter. apply (Hd1 a Hx). left. }
    * intros k' Hk'. symmetry. apply filter_swap. unfold has_key. congruence.
  + rewrite (unLink_unlinked ht C a HC) by eauto. simpl. exists ht. split; [done|].
    exists C. split; [done|]. split; [done|]. intros k'. unfold set_entries.
    case_decide; [|done]. subst. rewrite HM. apply filter_ne_self.
    intros [_ ?]%elem_of_entries. done.
Qed.

Lemma op_refines op dup ht M M' r :
  hash_rep dup ht M -> hash_spec dup op M = Some (M', r) ->
  exists ht', hash_run op ht = Some (ht', r) /\ hash_rep dup ht' M'.
Proof.
  destruct op; [apply add_refines|apply lookup_refines|apply remove_refines|apply unlink_refines].
Qed.

(** A hash table is a multimap. Adding an entry that is in no table puts it
    before the others of its key, or refuses it when duplicates are not enabled
    and the key is there; looking up finds the latest entry of the key, removing
    takes it out, unlinking any entry takes out that one, and no operation
    disturbs the entries of other keys, whatever the hash function. *)
Theorem hash_refines dup ops ht M M' rs :
  hash_rep dup ht M -> exec_all (hash_spec dup) ops M = Some (M', rs) ->
  exists ht', exec_all hash_run ops ht = Some (ht', rs) /\ hash_rep dup ht' M'.
Proof.
  apply (exec_refines (hash_spec dup) hash_run (hash_rep dup)).
  intros op ht0 M0 M1 r. apply op_refines.
Qed.

(** *** Cleaning and iterating *)

Lemma cleanup_bucket_spec fuel ht C n l :
  chains ht C -> C !! n = Some l -> (length l < fuel)%nat ->
  exists ht', cleanup_bucket fuel n ht = Some (ht', l) /\ same_frame ht ht' /\
    chains ht' (<[n := []]> C).
Proof.
  revert ht C l. induction fuel as [|fuel IH]; intros ht C l HC Hl Hf; [lia|].
  cbn [cleanup_bucket]. pose proof (chain_head _ _ _ _ (c_chain _ _ HC n l Hl)) as Hh.
  simpl in Hh. rewrite Hh. destruct l as [|a l]; simpl.
  { exists ht. split; [done|]. split; [done|]. by rewrite list_insert_id. }
  destruct (unLink_chains ht C n [] a l HC Hl) as (h1 & -> & F1 & HC1). simpl in HC1. simpl.
  destruct (IH h1 _ l HC1) as (h2 & -> & F2 & HC2); [|simpl in *; lia|].
  { rewrite list_lookup_insert_eq; [done|]. by eapply lookup_lt_Some. }
  simpl. exists h2. split; [done|]. split; [by etrans|]. by rewrite list_insert_insert_eq in HC2.
Qed.

Lemma cleanup_from_spec k ht C n :
  chains ht C -> (n + k = HASHSIZE)%nat ->
  exists ht', cleanup_from k n ht = Some (ht', mjoin (drop n C)) /\ same_frame ht ht' /\
    chains ht' (take n C ++ replicate k []).
Proof.
  revert ht C n. induction k as [|k IH]; intros ht C n HC Hn; cbn [cleanup_from].
  { pose proof (c_lenC _ _ HC). rewrite drop_ge, take_ge, app_nil_r by lia. by exists ht. }
  destruct (lookup_lt_is_Some_2 C n) as [l Hl]; [rewrite (c_lenC _ _ HC); lia|].
  destruct (cleanup_bucket_spec (S (size (ht_heap ht))) ht C n l HC Hl) as (h1 & -> & F1 & HC1).
  { rewrite (c_size _ _ HC). pose proof (chain_length _ _ _ _ HC Hl). lia. }
  simpl. destruct (IH h1 _ (S n) HC1) as (h2 & -> & F2 & HC2); [lia|]. simpl.
  exists h2. rewrite drop_insert_lt by lia. rewrite (drop_S C l n) by done. simpl.
  split; [done|]. split; [by etrans|].
  rewrite (take_S_r _ _ []) in HC2 by (apply list_lookup_insert_eq; by eapply lookup_lt_Some).
  rewrite take_insert_ge in HC2 by lia. by rewrite <- app_assoc in HC2.
Qed.

Lemma mjoin_nil k : mjoin (replicate k ([] : list nat)) = [].
Proof. by induction k. Qed.

(** The members of a table. *)
Definition member M a : Prop := exists k, a ∈ M k.

Lemma member_mjoin ht C M a :
  chains ht C -> (forall k, M k = entries C k) -> member M a <-> a ∈ mjoin C.
Proof.
  intros HC HM. split.
  - intros [k Hk]. rewrite HM in Hk. by apply elem_of_entries in Hk as [_ ?].
  - intros Ha. pose proof Ha as (n & l & Hl & Hal)%elem_of_mjoin.
    destruct (chain_keys _ _ _ _ _ HC Hl Hal) as [k Hk]. exists k. rewrite HM.
    by apply elem_of_entries.
Qed.

(** [cleanup] ends, hands every entry of the table to the routine exactly once,
    and leaves an empty table of unlinked entries. *)
Theorem hash_cleanup_correct dup ht M :
  hash_rep dup ht M ->
  exists ht' l, hash_cleanup HASHSIZE ht = Some (ht', l) /\ NoDup l /\
    (forall a, a ∈ l <-> member M a) /\ hash_rep dup ht' (fun _ => []) /\
    (forall a, is_Some (keys !! a) -> pview ht' a = Some None).
Proof.
  intros (C & HC & Hd & HM).
  destruct (cleanup_from_spec HASHSIZE ht C 0 HC eq_refl) as (ht' & Hcl & F & HC').
  unfold hash_cleanup. rewrite drop_0 in Hcl. simpl in HC'. exists ht', (mjoin C).
  split; [done|]. split; [apply (c_nodup _ _ HC)|].
  split; [intros a; symmetry; by apply (member_mjoin ht)|]. split.
  - exists (replicate HASHSIZE []). split; [done|]. split; [by rewrite (sf_dup _ _ F)|].
    intros k. unfold entries. by rewrite mjoin_nil.
  - intros a Ha. apply (c_unlinked _ _ HC' a Ha). rewrite mjoin_nil. by intros ?%elem_of_nil.
Qed.

(** The iterator stands at an entry of bucket [hi_elem], [todo] is to come. *)
Inductive hash_iter_at C : HashIterator -> list nat -> Prop :=
  | iter_end n : hash_iter_at C {| hi_elem := n; hi_current := None |} []
  | iter_mid n l1 a l2 :
      C !! n = Some (l1 ++ a :: l2) ->
      hash_iter_at C {| hi_elem := n; hi_current := Some a |} (a :: l2 ++ mjoin (drop (S n) C)).

Lemma iter_skip_spec fuel ht C n l1 l2 :
  chains ht C -> C !! n = Some (l1 ++ l2) -> (HASHSIZE - n <= fuel)%nat ->
  exists it, hash_iter_skip HASHSIZE fuel ht n (head l2) = Some it /\
    hash_iter_at C it (l2 ++ mjoin (drop (S n) C)).
Proof.
  revert n l1 l2. induction fuel as [|fuel IH]; intros n l1 l2 HC Hl Hf.
  { pose proof (lookup_lt_Some _ _ _ Hl). rewrite (c_lenC _ _ HC) in *. lia. }
  destruct l2 as [|a l2]; cbn [hash_iter_skip head app].
  2:{ eexists. split; [done|]. by apply (iter_mid C n l1). }
  case_decide as Hn.
  - eexists. split; [done|]. rewrite drop_ge by (rewrite (c_lenC _ _ HC); lia). constructor.
  - destruct (lookup_lt_is_Some_2 C (S n)) as [l Hl']; [rewrite (c_lenC _ _ HC); lia|].
    pose proof (chain_head _ _ _ _ (c_chain _ _ HC (S n) l Hl')) as Hh. simpl in Hh.
    rewrite Hh. cbn [mbind option_bind]. destruct (IH (S n) [] l HC Hl') as (it & -> & Hit); [lia|].
    exists it. split; [done|]. by rewrite (drop_S C l (S n)).
Qed.

Lemma iterate_spec ht C fuel it todo :
  chains ht C -> hash_iter_at C it todo -> (length todo < fuel)%nat ->
  hash_iterate HASHSIZE fuel ht it = Some todo.
Proof.
  revert it todo. induction fuel as [|fuel IH]; intros it todo HC Hit Hf; [lia|].
  destruct Hit as [n|n l1 a l2 Hl]; [done|]. cbn [hash_iterate hi_current].
  unfold hash_iter_next. cbn [hi_current].
  pose proof (c_chain _ _ HC n _ Hl) as (_ & _ & Hc)%chain_skip.
  apply chain_head in Hc. simpl in Hc.
  destruct (ht_heap ht !! a) as [e|]; [|done]. cbn [mbind option_bind hi_elem] in *.
  injection Hc as Hc. rewrite Hc.
  destruct (iter_skip_spec (S HASHSIZE) ht C n (l1 ++ [a]) l2 HC) as (it & -> & Hit); [|lia|].
  { by rewrite <- app_assoc. }
  simpl. rewrite (IH it (l2 ++ mjoin (drop (S n) C)) HC Hit); [done|]. simpl in *. lia.
Qed.

(** Iterating over an unchanged table ends and visits every entry exactly once. *)
Theorem hash_iterate_correct dup ht M :
  hash_rep dup ht M ->
  exists it l, hash_iter_new HASHSIZE ht = Some it /\
    hash_iterate HASHSIZE (S (size keys)) ht it = Some l /\ NoDup l /\
    (forall a, a ∈ l <-> member M a).
Proof.
  intros (C & HC & Hd & HM).
  destruct (lookup_lt_is_Some_2 C 0) as [l Hl]; [rewrite (c_lenC _ _ HC); lia|].
  pose proof (chain_head _ _ _ _ (c_chain _ _ HC 0%nat l Hl)) as Hh. simpl in Hh.
  destruct (iter_skip_spec (S HASHSIZE) ht C 0 [] l HC Hl) as (it & Hit & Hat); [lia|].
  assert (E : l ++ mjoin (drop 1 C) = mjoin C) by (rewrite <- (drop_0 C) at 2; by rewrite (drop_S C l 0)).
  exists it, (mjoin C). unfold hash_iter_new. rewrite Hh. split; [done|]. rewrite E in Hat.
  split; [|split; [apply (c_nodup _ _ HC)|intros a; symmetry; by apply (member_mjoin ht)]].
  apply (iterate_spec ht C); [done..|].
  rewrite <- (size_list_to_set (C := gset nat) _ (c_nodup _ _ HC)), <- (size_dom (D := gset nat)).
  apply Nat.lt_succ_r, subseteq_size. intros a (n & l' & Hl' & Ha)%elem_of_list_to_set%elem_of_mjoin.
  apply elem_of_dom. by eapply chain_keys.
Qed.

(** A new table over entries that are in no table is empty. *)
Lemma hash_new_rep (heap : gmap nat (Node K)) :
  n_key <$> heap = keys -> map_Forall (fun _ e => n_prev e = None) heap ->
  hash_rep false {| ht_data := ht_data (hash_new (K := K) HASHSIZE); ht_heap := heap; ht_duplicates := false |}
    (fun _ => []).
Proof.
  intros Hk Hp. exists (replicate HASHSIZE []). split; [|split; [done|]].
  - split; simpl.
    + intros a. unfold kview. simpl. by rewrite <- Hk, lookup_fmap.
    + by rewrite <- Hk, map_size_fmap.
    + apply length_replicate.
    + apply length_replicate.
    + rewrite mjoin_nil. constructor.
    + intros n l [-> Hn]%lookup_replicate. simpl. by rewrite lookup_replicate_2.
    + intros n l a k [-> _]%lookup_replicate. by intros ?%elem_of_nil.
    + intros a Ha _. unfold pview. simpl. rewrite <- Hk, lookup_fmap in Ha.
      destruct (heap !! a) as [e|] eqn:He; [|by destruct Ha]. simpl. by rewrite (Hp a e He).
  - intros k. unfold entries. by rewrite mjoin_nil.
Qed.
End Table.

(** ** A concrete table *)

(** Five entries over two keys in a table of two buckets. *)
Definition hx_heap : gmap nat (Node Z) :=
  list_to_map (imap (fun i k => (i, Build_Node None None k)) [5; 7; 5; 5; 9]).

Definition hx_keys : gmap nat Z := n_key <$> hx_heap.

Definition hx_table : HashTable Z :=
  {| ht_data := replicate 2 None; ht_heap := hx_heap; ht_duplicates := false |}.

Lemma hx_rep : hash_rep 2 Z.to_nat hx_keys false hx_table (fun _ => []).
Proof.
  apply (hash_new_rep 2 Z.to_nat hx_keys hx_heap); [done|].
  refine (bool_decide_unpack (map_Forall _ hx_heap) _). vm_compute. done.
Qed.

Lemma hash_refines_witness :
  exists ht', exec_all (hash_run 2 Z.to_nat)
    [HAdd 0; HAdd 1; HAdd 2; HLookup 5; HAdd 4; HUnlink 1; HRemove 5; HLookup 5; HLookup 9] hx_table =
    Some (ht', [HFlag true; HFlag true; HFlag false; HEntry (Some 0%nat); HFlag true; HVoid;
                HEntry (Some 0%nat); HEntry None; HEntry (Some 4%nat)]) /\
    exists M, hash_rep 2 Z.to_nat hx_keys false ht' M /\ M 9 = [4%nat].
Proof.
  edestruct (hash_refines 2 Z.to_nat ltac:(lia) hx_keys false
    [HAdd 0; HAdd 1; HAdd 2; HLookup 5; HAdd 4; HUnlink 1; HRemove 5; HLookup 5; HLookup 9])
    as (ht' & H1 & H2); [exact hx_rep|reflexivity|].
  exists ht'. split; [exact H1|]. eexists. split; [exact H2|reflexivity].
Defined.

Lemma hx_full : exists ht M,
  exec_all (hash_run 2 Z.to_nat) [HAdd 0; HAdd 1; HAdd 4] hx_table =
    Some (ht, [HFlag true; HFlag true; HFlag true]) /\
  hash_rep 2 Z.to_nat hx_keys false ht M /\ M 9 = [4%nat].
Proof.
  edestruct (exec_refines (hash_spec hx_keys false) (hash_run 2 Z.to_nat)
    (hash_rep 2 Z.to_nat hx_keys false)) with (ops := [HAdd 0; HAdd 1; HAdd 4] : list (HashOp (K := Z)))
    as (ht & H1 & H2); [|exact hx_rep|reflexivity|].
  - intros op ht M M' r. apply op_refines. lia.
  - exists ht. eexists. split; [exact H1|]. split; [exact H2|reflexivity].
Qed.

Lemma hash_cleanup_correct_witness : exists ht ht' l,
  exec_all (hash_run 2 Z.to_nat) [HAdd 0; HAdd 1; HAdd 4] hx_table =
    Some (ht, [HFlag true; HFlag true; HFlag true]) /\
  hash_cleanup 2 ht = Some (ht', l) /\ NoDup l /\ 4%nat ∈ l.
Proof.
  destruct hx_full as (ht & M & Hex & Hrep & HM).
  destruct (hash_cleanup_correct 2 Z.to_nat ltac:(lia) hx_keys false ht M Hrep)
    as (ht' & l & Hc & Hn & Hin & _).
  exists ht, ht', l. split; [exact Hex|]. split; [exact Hc|]. split; [exact Hn|].
  apply Hin. exists 9. rewrite HM. left.
Defined.

Lemma hash_iterate_correct_witness : exists ht it l,
  exec_all (hash_run 2 Z.to_nat) [HAdd 0; HAdd 1; HAdd 4] hx_table =
    Some (ht, [HFlag true; HFlag true; HFlag true]) /\
  hash_iter_new 2 ht = Some it /\ hash_iterate 2 6 ht it = Some l /\ NoDup l /\ 4%nat ∈ l.
Proof.
  destruct hx_full as (ht & M & Hex & Hrep & HM).
  destruct (hash_iterate_correct 2 Z.to_nat ltac:(lia) hx_keys false ht M Hrep)
    as (it & l & Hi & Hc & Hn & Hin).
  exists ht, it, l. split; [exact Hex|]. split; [exact Hi|]. split; [exact Hc|].
  split; [exact Hn|]. apply Hin. exists 9. rewrite HM. left.
Defined.
