(* ===== verification/TextType.v ===== *)
(** * What the SIMILAR TO matcher requires of a text type

    [TextType] ([src/src/common/TextType.h]) and [CharSet] give the canonical form of
    strings, in which characters have one width, the canonical codes of the
    characters with a meaning in patterns, substrings by character position, and
    comparison. Strings are lists of bytes, canonical strings lists of
    characters. *)

From S2P Require Import Prelude.

(** [TextType::CHAR_...] *)
Inductive CharCode :=
  | CHAR_ASTERISK | CHAR_AT | CHAR_CIRCUMFLEX | CHAR_COLON | CHAR_COMMA | CHAR_EQUAL | CHAR_MINUS
  | CHAR_PERCENT | CHAR_PLUS | CHAR_QUESTION_MARK | CHAR_SPACE | CHAR_TILDE | CHAR_UNDERLINE
  | CHAR_VERTICAL_BAR | CHAR_DOUBLE_QUOTE | CHAR_OPEN_BRACE | CHAR_CLOSE_BRACE
  | CHAR_OPEN_BRACKET | CHAR_CLOSE_BRACKET | CHAR_OPEN_PAREN | CHAR_CLOSE_PAREN
  | CHAR_LOWER_S | CHAR_UPPER_S.

(** The operations; [substring src start len] is what [CharSet::substring] writes
    when the destination is large enough. *)
Class TextType := {
  canonicalChar : CharCode -> Z;
  canonical : list Z -> list Z;
  substring : list Z -> Z -> Z -> list Z;
  (** [CharSet::length(s, true)], in characters *)
  charLength : list Z -> Z;
  compare : list Z -> list Z -> Z;
  canonicalUpperLetters : list Z;
  canonicalLowerLetters : list Z;
  canonicalNumbers : list Z;
  canonicalSpace : list Z;
  canonicalWhiteSpaces : list Z;
  (** [getConvToUnicode().convert] of one character into a [ULONG] *)
  unicode_char : list Z -> Z;
  (** conversion to UTF-16, and [UnicodeUtil::utf16UpperCase] of it *)
  utf16_upper : list Z -> list Z
}.

(** ** The segmentation of strings into characters

    [split_chars s] are the characters of [s], each as its bytes; the canonical
    form has one element for each, and a character has at most [sizeof(ULONG)] bytes. *)
Class TextTypeLaws (T : TextType) (split_chars : list Z -> list (list Z)) : Prop := {
  split_concat s : mjoin (split_chars s) = s;
  split_size s : Forall (fun c => 0 < length c <= 4)%nat (split_chars s);
  split_cut s n m : (n <= m)%nat ->
    split_chars (mjoin (take n (split_chars s)) ++ mjoin (drop m (split_chars s))) =
      take n (split_chars s) ++ drop m (split_chars s);
  charLength_split s : charLength s = Z.of_nat (length (split_chars s));
  canonical_length s : length (canonical s) = length (split_chars s);
  substring_chars s (start len : nat) :
    (start <= length (split_chars s))%nat ->
    substring s (Z.of_nat start) (Z.of_nat len) = mjoin (take len (drop start (split_chars s)))
}.

(** A character and the bytes it was made of. *)
Abbreviation Sym := (Z * list Z)%type.

Section Symbols.
Context `{T : TextType} (split_chars : list Z -> list (list Z)) `{!TextTypeLaws T split_chars}.

Lemma split_drop s n : split_chars (mjoin (drop n (split_chars s))) = drop n (split_chars s).
Proof. apply (split_cut s 0 n). lia. Qed.

Lemma split_take s n : split_chars (mjoin (take n (split_chars s))) = take n (split_chars s).
Proof.
  pose proof (split_cut s n (n `max` length (split_chars s)) ltac:(lia)) as H.
  rewrite (drop_ge _ (_ `max` _)), !app_nil_r in H by lia. exact H.
Qed.

Definition symbols (s : list Z) : list Sym := zip (canonical s) (split_chars s).

Lemma symbols_fst s : (symbols s).*1 = canonical s.
Proof. apply fst_zip. by rewrite (canonical_length s). Qed.

Lemma length_symbols s : length (symbols s) = length (canonical s).
Proof. by rewrite <- symbols_fst, length_fmap. Qed.

Lemma symbols_snd s : (symbols s).*2 = split_chars s.
Proof. apply snd_zip. by rewrite (canonical_length s). Qed.

Lemma symbols_canonical s i c b : symbols s !! i = Some (c, b) -> canonical s !! i = Some c.
Proof.
  intros H. apply (f_equal (fmap fst)) in H. by rewrite <- list_lookup_fmap, symbols_fst in H.
Qed.

(** One character, by its position. *)
Lemma substring_one s i c b :
  symbols s !! i = Some (c, b) -> substring s (Z.of_nat i) 1 = b.
Proof.
  intros Hb. apply (f_equal (fmap snd)) in Hb.
  rewrite <- list_lookup_fmap, symbols_snd in Hb. simpl in Hb.
  change 1 with (Z.of_nat 1). rewrite (substring_chars s i 1).
  2:{ apply lookup_lt_Some in Hb. lia. }
  rewrite (drop_S _ b) by done. simpl. apply app_nil_r.
Qed.

Lemma substring_syms s (i len : nat) :
  (i <= length (symbols s))%nat ->
  substring s (Z.of_nat i) (Z.of_nat len) = mjoin (take len (drop i (symbols s))).*2.
Proof.
  intros Hi. rewrite (substring_chars s i len).
  2:{ rewrite <- symbols_snd, length_fmap. done. }
  by rewrite fmap_take, fmap_drop, symbols_snd.
Qed.
End Symbols.

(** ** Two concrete text types

    A single-byte character set, and UTF-8. *)

Definition ascii_char (c : CharCode) : Z :=
  match c with
  | CHAR_AT => 64 | CHAR_EQUAL => 61 | CHAR_TILDE => 126 | CHAR_LOWER_S => 115 | CHAR_UPPER_S => 83
  | CHAR_ASTERISK => 42 | CHAR_CIRCUMFLEX => 94 | CHAR_COLON => 58 | CHAR_COMMA => 44
  | CHAR_MINUS => 45 | CHAR_PERCENT => 37 | CHAR_PLUS => 43 | CHAR_QUESTION_MARK => 63
  | CHAR_SPACE => 32 | CHAR_UNDERLINE => 95 | CHAR_VERTICAL_BAR => 124
  | CHAR_DOUBLE_QUOTE => 34 | CHAR_OPEN_BRACE => 123 | CHAR_CLOSE_BRACE => 125
  | CHAR_OPEN_BRACKET => 91 | CHAR_CLOSE_BRACKET => 93 | CHAR_OPEN_PAREN => 40
  | CHAR_CLOSE_PAREN => 41
  end.

Fixpoint bytes_compare (a b : list Z) : Z :=
  match a, b with
  | [], [] => 0
  | [], _ => -1
  | _, [] => 1
  | x :: a, y :: b => if decide (x < y) then -1 else if decide (y < x) then 1 else bytes_compare a b
  end.

Definition ascii_upper (c : Z) : Z := if decide (97 <= c <= 122) then c - 32 else c.

(** A text type over a way of splitting strings into characters. *)
Definition segmented_text (split_chars : list Z -> list (list Z)) (code : list Z -> Z) : TextType := {|
  canonicalChar := ascii_char;
  canonical s := code <$> split_chars s;
  substring s start len := mjoin (take (Z.to_nat len) (drop (Z.to_nat start) (split_chars s)));
  charLength s := Z.of_nat (length (split_chars s));
  compare := bytes_compare;
  canonicalUpperLetters := seqZ 65 26;
  canonicalLowerLetters := seqZ 97 26;
  canonicalNumbers := seqZ 48 10;
  canonicalSpace := [32];
  canonicalWhiteSpaces := [9; 10; 11; 12; 13; 32];
  unicode_char := code;
  utf16_upper s := ascii_upper <$> s
|}.

Definition single_bytes (s : list Z) : list (list Z) := (fun b => [b]) <$> s.
Definition single_code (c : list Z) : Z := default 0 (head c).
Definition latin_text : TextType := segmented_text single_bytes single_code.

(** The length of a UTF-8 character, by its lead byte. *)
Definition utf8_len (b : Z) : nat :=
  if decide (240 <= b) then 4 else if decide (224 <= b) then 3 else if decide (192 <= b) then 2 else 1.

Fixpoint utf8_split (fuel : nat) (s : list Z) : list (list Z) :=
  match fuel, s with
  | S fuel, b :: s => (b :: take (utf8_len b - 1) s) :: utf8_split fuel (drop (utf8_len b - 1) s)
  | _, _ => []
  end.

Definition utf8_chars (s : list Z) : list (list Z) := utf8_split (length s) s.
Definition utf8_code (c : list Z) : Z := foldl (fun v b => 256 * v + b) 0 c.
Definition utf8_text : TextType := segmented_text utf8_chars utf8_code.

Lemma segmented_laws split_chars code :
  (forall s, mjoin (split_chars s) = s) ->
  (forall s, Forall (fun c => 0 < length c <= 4)%nat (split_chars s)) ->
  (forall s n m, (n <= m)%nat ->
    split_chars (mjoin (take n (split_chars s)) ++ mjoin (drop m (split_chars s))) =
      take n (split_chars s) ++ drop m (split_chars s)) ->
  TextTypeLaws (segmented_text split_chars code) split_chars.
Proof.
  intros H1 H2 H3. split; [done..| |].
  - intros s. apply length_fmap.
  - intros s start len Hs. cbn [substring segmented_text]. by rewrite !Nat2Z.id.
Qed.

Lemma single_bytes_join s : single_bytes (mjoin (single_bytes s)) = single_bytes s.
Proof. unfold single_bytes. f_equal. induction s as [|b s IH]; [done|]. simpl. f_equal. exact IH. Qed.

Lemma latin_laws : TextTypeLaws latin_text single_bytes.
Proof.
  apply segmented_laws.
  - intros s. induction s as [|b s IH]; [done|]. simpl. f_equal. exact IH.
  - intros s. induction s; simpl; constructor; [simpl; lia|done].
  - intros s n m _. unfold single_bytes at 2 3 4 5. rewrite <- fmap_drop, <- fmap_take, <- join_app, <- fmap_app.
    apply single_bytes_join.
Qed.

Lemma utf8_split_concat fuel s : (length s <= fuel)%nat -> mjoin (utf8_split fuel s) = s.
Proof.
  revert s. induction fuel as [|fuel IH]; intros [|b s] Hf; simpl in *; try done; [lia|].
  rewrite IH by (rewrite length_drop; lia). by rewrite take_drop.
Qed.

Lemma utf8_split_fuel fuel fuel' s :
  (length s <= fuel)%nat -> (length s <= fuel')%nat -> utf8_split fuel s = utf8_split fuel' s.
Proof.
  revert fuel' s. induction fuel as [|fuel IH]; intros [|fuel'] [|b s] H H'; simpl in *; try done; try lia.
  f_equal. apply IH; rewrite length_drop; lia.
Qed.

Lemma utf8_split_drop fuel s n :
  (length s <= fuel)%nat ->
  utf8_chars (mjoin (drop n (utf8_split fuel s))) = drop n (utf8_split fuel s).
Proof.
  revert fuel s. induction n as [|n IH]; intros fuel s Hf; unfold utf8_chars.
  - rewrite drop_0, utf8_split_concat by done. by apply utf8_split_fuel.
  - destruct fuel as [|fuel], s as [|b s]; simpl in *; try done.
    apply IH. rewrite length_drop. lia.
Qed.

Lemma utf8_split_cut fuel s n m :
  (length s <= fuel)%nat -> (n <= m)%nat ->
  utf8_chars (mjoin (take n (utf8_split fuel s)) ++ mjoin (drop m (utf8_split fuel s))) =
    take n (utf8_split fuel s) ++ drop m (utf8_split fuel s).
Proof.
  revert fuel s m. induction n as [|n IH]; intros fuel s m Hf Hnm; [by apply utf8_split_drop|].
  destruct fuel as [|fuel], s as [|b s], m as [|m]; simpl in *; try done; try lia.
  set (k := (utf8_len b - 1)%nat). specialize (IH fuel (drop k s) m).
  rewrite <- app_assoc.
  set (t := mjoin (take n (utf8_split fuel (drop k s))) ++ mjoin (drop m (utf8_split fuel (drop k s)))) in *.
  assert (Hk : take k (take k s ++ t) = take k s /\ drop k (take k s ++ t) = t).
  { destruct (decide (k <= length s)%nat) as [Hl|Hl].
    - assert (Hlt : length (take k s) = k) by (rewrite length_take; lia).
      by rewrite take_app_length', drop_app_length'.
    - assert (t = []) as ->.
      { unfold t. rewrite drop_ge by lia. by destruct fuel, n, m. }
      rewrite app_nil_r, take_take, Nat.min_id. by rewrite drop_ge by (rewrite length_take; lia). }
  unfold utf8_chars. simpl. fold k. rewrite (proj1 Hk), (proj2 Hk). f_equal.
  rewrite <- IH by (rewrite ?length_drop; lia). apply utf8_split_fuel; [|done].
  rewrite length_app. lia.
Qed.

Lemma utf8_laws : TextTypeLaws utf8_text utf8_chars.
Proof.
  apply segmented_laws.
  - intros s. by apply utf8_split_concat.
  - intros s. unfold utf8_chars. generalize (length s). intros fuel. revert s.
    induction fuel as [|fuel IH]; intros [|b s]; simpl; constructor; [|apply IH].
    simpl. rewrite length_take. unfold utf8_len. repeat case_decide; lia.
  - intros s n m Hnm. by apply utf8_split_cut.
Qed.
