(* ===== verification/SimpleStack.v ===== *)
(** * [SimilarToMatcher::Evaluator::SimpleStack]: [src/src/jrd/SimilarToMatcher.h]

    The stack of the matching machine: a block that is replaced by a larger one
    when it is full. The machine of SimilarTo uses lists and the size of the block;
    [simple_stack_refines] is why it may. A pointer to an element names the block it was in, so that
    one kept over a reallocation is seen to dangle. *)

From S2P Require Import Prelude.

Section SimpleStack.
Context {A : Type}.

Definition INCREASE_FACTOR : Z := 50.

(** [data] as the number of the block and its cells, the index of [back] in it,
    and [size]; [end] is at index [size]. Blocks from [sk_next] on are not
    allocated yet. *)
Record SimpleStack := {
  sk_block : nat;
  sk_data : list (option A);
  sk_back : Z;
  sk_size : Z;
  sk_next : nat
}.

(** The constructor; [back] starts before the first element. *)
Definition simple_new (block : nat) : SimpleStack :=
  {| sk_block := block; sk_data := replicate (Z.to_nat INCREASE_FACTOR) None;
     sk_back := -1; sk_size := INCREASE_FACTOR; sk_next := S block |}.

(** [*back = node] after the resize. *)
Definition simple_store (a : A) (s : SimpleStack) : option SimpleStack :=
  data ← aset (sk_data s) (sk_back s) (Some a);
  Some {| sk_block := sk_block s; sk_data := data; sk_back := sk_back s; sk_size := sk_size s;
          sk_next := sk_next s |}.

(** The resize: [memcpy(p, end - size, size * sizeof(T))] into a new block. *)
Definition simple_grow (s : SimpleStack) : SimpleStack :=
  let newSize := sk_size s + INCREASE_FACTOR in
  {| sk_block := sk_next s;
     sk_data := take (Z.to_nat (sk_size s)) (sk_data s) ++ replicate (Z.to_nat INCREASE_FACTOR) None;
     sk_back := sk_size s; sk_size := newSize; sk_next := S (sk_next s) |}.

Definition simple_push (a : A) (s : SimpleStack) : option SimpleStack :=
  let back := sk_back s + 1 in
  if decide (back = sk_size s) then simple_store a (simple_grow s)
  else simple_store a {| sk_block := sk_block s; sk_data := sk_data s; sk_back := back;
                         sk_size := sk_size s; sk_next := sk_next s |}.

Definition simple_getCount (s : SimpleStack) : Z := sk_back s + 1.

(** [*back--] *)
Definition simple_pop (s : SimpleStack) : option (A * SimpleStack) :=
  c ← sk_data s @ sk_back s;
  a ← c;
  Some (a, {| sk_block := sk_block s; sk_data := sk_data s; sk_back := sk_back s - 1;
              sk_size := sk_size s; sk_next := sk_next s |}).

(** The pointer [back], and the element a pointer refers to; a block that is not
    the current one was freed. *)
Definition simple_back (s : SimpleStack) : nat * Z := (sk_block s, sk_back s).

Definition simple_deref (s : SimpleStack) (p : nat * Z) : option A :=
  if decide (p.1 = sk_block s) then c ← sk_data s @ p.2; c else None.

(** ** Refinement: a list whose head is the top *)

Record simple_rep (s : SimpleStack) (l : list A) : Prop := {
  simple_rep_size : 0 < sk_size s;
  simple_rep_len : length (sk_data s) = Z.to_nat (sk_size s);
  simple_rep_back : sk_back s = Z.of_nat (length l) - 1;
  simple_rep_cap : Z.of_nat (length l) <= sk_size s;
  simple_rep_data : take (length l) (sk_data s) = Some <$> reverse l;
  simple_rep_next : (sk_block s < sk_next s)%nat
}.

Lemma simple_new_rep block : simple_rep (simple_new block) [].
Proof. split; unfold simple_new, INCREASE_FACTOR; simpl; done || lia. Qed.

Lemma simple_store_rep s l a :
  0 < sk_size s -> length (sk_data s) = Z.to_nat (sk_size s) ->
  sk_back s = Z.of_nat (length l) -> Z.of_nat (length l) < sk_size s ->
  take (length l) (sk_data s) = Some <$> reverse l -> (sk_block s < sk_next s)%nat ->
  exists s', simple_store a s = Some s' /\ simple_rep s' (a :: l).
Proof.
  intros Hs Hl Hb Hc Hd Hn. unfold simple_store. rewrite aset_in by lia. simpl.
  eexists. split; [done|]. split; simpl; [done|by rewrite length_insert|lia|lia| |done].
  rewrite Hb, Nat2Z.id, reverse_cons, fmap_app. simpl. rewrite <- Hd.
  rewrite (take_S_r _ _ (Some a)) by (apply list_lookup_insert_eq; lia). f_equal.
  by rewrite take_insert_ge.
Qed.

Lemma simple_push_rep s l a :
  simple_rep s l -> exists s', simple_push a s = Some s' /\ simple_rep s' (a :: l).
Proof.
  intros [Hs Hl Hb Hc Hd Hn]. unfold simple_push. case_decide.
  - apply simple_store_rep; simpl; unfold INCREASE_FACTOR; [lia| |lia|lia| |lia].
    + rewrite length_app, length_take. simpl. lia.
    + rewrite <- Hd, take_app_le by (rewrite length_take; lia). by rewrite take_take, Nat.min_l by lia.
  - apply simple_store_rep; simpl; [done|done|lia|lia|done|done].
Qed.

Lemma simple_pop_rep s l a :
  simple_rep s (a :: l) -> exists s', simple_pop s = Some (a, s') /\ simple_rep s' l.
Proof.
  intros [Hs Hl Hb Hc Hd Hn]. unfold simple_pop. simpl in *. rewrite Hb, aget_nonneg by lia.
  rewrite reverse_cons, fmap_app in Hd. simpl in Hd.
  assert (sk_data s !! length l = Some (Some a)) as Ha.
  { rewrite <- (lookup_take_lt _ (S (length l))) by lia. rewrite Hd.
    apply list_lookup_middle. by rewrite length_fmap, length_reverse. }
  replace (Z.to_nat (Z.of_nat (S (length l)) - 1)) with (length l) by lia. rewrite Ha. simpl.
  eexists. split; [done|]. split; simpl; [done|done|lia|lia| |done].
  apply (f_equal (take (length l))) in Hd. rewrite take_take, Nat.min_l in Hd by lia.
  rewrite Hd. apply take_app_length'. by rewrite length_fmap, length_reverse.
Qed.

(** *** Sequences of operations *)

Inductive SimpleOp := SPush (a : A) | SPop | SGetCount | SBack.
Inductive SimpleRes := SNothing | SItem (a : A) | SCount (n : Z).

Definition simple_spec (op : SimpleOp) (l : list A) : option (list A * SimpleRes) :=
  match op with
  | SPush a => Some (a :: l, SNothing)
  | SPop => match l with a :: l => Some (l, SItem a) | [] => None end
  | SGetCount => Some (l, SCount (Z.of_nat (length l)))
  | SBack => match l with a :: _ => Some (l, SItem a) | [] => None end
  end.

Definition simple_run (op : SimpleOp) (s : SimpleStack) : option (SimpleStack * SimpleRes) :=
  match op with
  | SPush a => s ← simple_push a s; Some (s, SNothing)
  | SPop => '(a, s) ← simple_pop s; Some (s, SItem a)
  | SGetCount => Some (s, SCount (simple_getCount s))
  | SBack => a ← simple_deref s (simple_back s); Some (s, SItem a)
  end.

Lemma simple_back_rep s a l : simple_rep s (a :: l) -> simple_deref s (simple_back s) = Some a.
Proof.
  intros Hr. destruct (simple_pop_rep s l a Hr) as (s' & Hp & _). unfold simple_pop in Hp.
  unfold simple_deref, simple_back. rewrite decide_True by done. cbn [snd].
  destruct (sk_data s @ sk_back s) as [[b|]|]; simpl in *; [|done..]. by simplify_eq.
Qed.

Lemma simple_run_refines op s l l' r :
  simple_rep s l -> simple_spec op l = Some (l', r) ->
  exists s', simple_run op s = Some (s', r) /\ simple_rep s' l'.
Proof.
  intros Hr Hs. destruct op as [a| | |]; simpl in *.
  - simplify_eq. destruct (simple_push_rep s l a Hr) as (s' & -> & Hr'). by exists s'.
  - destruct l as [|a l]; simplify_eq. destruct (simple_pop_rep s l' a Hr) as (s' & -> & Hr'). by exists s'.
  - simplify_eq. exists s. split; [|done]. unfold simple_getCount. rewrite (simple_rep_back _ _ Hr).
    do 3 f_equal. lia.
  - destruct l as [|a l]; simplify_eq. rewrite (simple_back_rep s a l Hr). by exists s.
Qed.

(** [SimpleStack]: every sequence of pushes, pops and reads of the top, through
    every reallocation, has the results of a stack that is a list. *)
Theorem simple_stack_refines ops block l rs :
  exec_all simple_spec ops [] = Some (l, rs) ->
  exists s, exec_all simple_run ops (simple_new block) = Some (s, rs) /\ simple_rep s l.
Proof.
  apply exec_refines.
  - intros op s a a' r. apply simple_run_refines.
  - apply simple_new_rep.
Qed.

(** A pointer to the top survives a push exactly when the block is not full. *)
Lemma simple_push_dangles s l a b s' :
  simple_rep s (b :: l) -> simple_push a s = Some s' ->
  simple_deref s' (simple_back s) =
    if decide (Z.of_nat (length (b :: l)) = sk_size s) then None else Some b.
Proof.
  intros Hr Hp. pose proof (simple_back_rep s b l Hr) as Hb. destruct Hr as [Hs Hl Hbk Hc Hd Hn].
  unfold simple_push in Hp. unfold simple_deref, simple_back in *. cbn [fst snd] in *.
  rewrite decide_True in Hb by done.
  destruct (decide (Z.of_nat (length (b :: l)) = sk_size s)) as [Hf|Hf];
    [rewrite decide_True in Hp by lia|rewrite decide_False in Hp by lia]; unfold simple_store in Hp; simpl in Hp;
    destruct (aset _ _ _) as [data|] eqn:E; simpl in Hp; [|done| |done]; injection Hp as <-; simpl.
  - by rewrite decide_False by lia.
  - rewrite decide_True by done. apply aset_Some in E as [_ ->].
    rewrite aget_nonneg in Hb |- * by (simpl in *; lia). rewrite list_lookup_insert_ne by (simpl in *; lia). done.
Qed.

Lemma simple_push_size s l a s' : simple_rep s l -> simple_push a s = Some s' ->
  sk_size s' = if decide (Z.of_nat (length (a :: l)) > sk_size s) then sk_size s + INCREASE_FACTOR else sk_size s.
Proof.
  intros [Hs Hl Hbk Hc Hd Hn] Hp. unfold simple_push, simple_store in Hp. cbn [length].
  destruct (decide (sk_back s + 1 = sk_size s)); [rewrite decide_True by lia|rewrite decide_False by lia];
    destruct (aset _ _ _); by simplify_eq/=.
Qed.
End SimpleStack.

Arguments SimpleStack : clear implicits.
Arguments SimpleOp : clear implicits.

(** 52 elements, so that the block is replaced once *)
Lemma simple_stack_refines_witness :
  exec_all simple_spec ((SPush <$> seq 0 52) ++ [SPop; SGetCount; SBack]) [] =
    Some (reverse (seq 0 51), replicate 52 SNothing ++ [SItem 51%nat; SCount 51; SItem 50%nat]) /\
  exists s, exec_all simple_run ((SPush <$> seq 0 52) ++ [SPop; SGetCount; SBack]) (simple_new 0) =
    Some (s, replicate 52 SNothing ++ [SItem 51%nat; SCount 51; SItem 50%nat]) /\
    simple_rep s (reverse (seq 0 51)).
Proof.
  assert (H : exec_all simple_spec ((SPush <$> seq 0 52) ++ [SPop; SGetCount; SBack]) [] =
    Some (reverse (seq 0 51), replicate 52 SNothing ++ [SItem 51%nat; SCount 51; SItem 50%nat])).
  { vm_compute. reflexivity. }
  split; [exact H|]. exact (simple_stack_refines _ 0 _ _ H).
Defined.
