(* ===== verification/SimilarTo.v ===== *)
(** * [SimilarToMatcher::Evaluator]: [src/src/jrd/SimilarToMatcher.h]

    The compiler of SIMILAR TO patterns into a program of nodes, and the machine
    that runs the program on a value, with its stack of scopes and its stack of
    repeat counters. A pointer into the pattern is the list of the characters
    from there on. *)

From S2P Require Import Prelude TextType SimpleStack.

(** ** Nodes *)

Inductive Op :=
  | opBranch | opStart | opEnd | opRef | opRepeatingRefStart | opRepeatingRefEnd | opNothing
  | opAny | opAnyOf | opExactly | opExactlyOne | opRet | opRepeatingRestore.

#[export] Instance Op_eq_dec : EqDecision Op.
Proof. solve_decision. Defined.

Record Node := {
  n_op : Op;
  n_str : list Z; n_len : Z;
  n_str2 : list Z; n_len2 : Z;
  n_str3 : list Z; n_len3 : Z;
  n_str4 : list Z; n_len4 : Z;
  n_ref : Z;
  n_branchNum : Z
}.

Definition Node_str (op : Op) (str : list Z) (len : Z) : Node :=
  {| n_op := op; n_str := str; n_len := len; n_str2 := []; n_len2 := 0; n_str3 := str;
     n_len3 := len; n_str4 := []; n_len4 := 0; n_ref := 0; n_branchNum := -1 |}.

Definition Node_rep (op : Op) (len1 len2 ref : Z) : Node :=
  {| n_op := op; n_str := []; n_len := len1; n_str2 := []; n_len2 := len2; n_str3 := [];
     n_len3 := 0; n_str4 := []; n_len4 := 0; n_ref := ref; n_branchNum := -1 |}.

Definition Node_ref (op : Op) (ref : Z) : Node :=
  {| n_op := op; n_str := []; n_len := 0; n_str2 := []; n_len2 := 0; n_str3 := [];
     n_len3 := 0; n_str4 := []; n_len4 := 0; n_ref := ref; n_branchNum := -1 |}.

Definition Node_op (op : Op) : Node := Node_str op [] 0.

Definition set_ref (n : Node) (ref : Z) : Node :=
  {| n_op := n_op n; n_str := n_str n; n_len := n_len n; n_str2 := n_str2 n; n_len2 := n_len2 n;
     n_str3 := n_str3 n; n_len3 := n_len3 n; n_str4 := n_str4 n; n_len4 := n_len4 n;
     n_ref := ref; n_branchNum := n_branchNum n |}.

Definition set_branchNum (n : Node) (b : Z) : Node :=
  {| n_op := n_op n; n_str := n_str n; n_len := n_len n; n_str2 := n_str2 n; n_len2 := n_len2 n;
     n_str3 := n_str3 n; n_len3 := n_len3 n; n_str4 := n_str4 n; n_len4 := n_len4 n;
     n_ref := n_ref n; n_branchNum := b |}.

(** [op], [str] and [len] of a copy. *)
Definition set_str (n : Node) (op : Op) (str : list Z) (len : Z) : Node :=
  {| n_op := op; n_str := str; n_len := len; n_str2 := n_str2 n; n_len2 := n_len2 n;
     n_str3 := n_str3 n; n_len3 := n_len3 n; n_str4 := n_str4 n; n_len4 := n_len4 n;
     n_ref := n_ref n; n_branchNum := n_branchNum n |}.

(** [*nodeChars], [*nodeCharsLen], [*nodeRange] and [*nodeRangeLen]: the included
    characters and ranges, or after a circumflex the excluded ones. *)
Definition store_set (but : bool) (chars ranges : list Z) (n : Node) : Node :=
  let lc := Z.of_nat (length chars) in
  let lr := Z.of_nat (length ranges) in
  if but then
    {| n_op := n_op n; n_str := n_str n; n_len := n_len n; n_str2 := n_str2 n; n_len2 := n_len2 n;
       n_str3 := chars; n_len3 := lc; n_str4 := ranges; n_len4 := lr;
       n_ref := n_ref n; n_branchNum := n_branchNum n |}
  else
    {| n_op := n_op n; n_str := chars; n_len := lc; n_str2 := ranges; n_len2 := lr;
       n_str3 := n_str3 n; n_len3 := n_len3 n; n_str4 := n_str4 n; n_len4 := n_len4 n;
       n_ref := n_ref n; n_branchNum := n_branchNum n |}.

(** [notInSet]: the number of characters up to the first one in the set. *)
Fixpoint notInSet (str set : list Z) : Z :=
  match str with
  | [] => 0
  | c :: str => if decide (c ∈ set) then 0 else 1 + notInSet str set
  end.

(** ** Results of the compiler

    It raises an error, or reads outside the pattern, or runs out of the model's
    fuel. *)

Inductive GdsCode := isc_invalid_similar_pattern | isc_escape_invalid.

Inductive PRes (A : Type) :=
  | Done (a : A) | Raise (c : GdsCode) | OutOfBounds | NoFuel.
Arguments Done {_}.
Arguments Raise {_}.
Arguments OutOfBounds {_}.
Arguments NoFuel {_}.

#[export] Instance PRes_bind : MBind PRes := fun A B f m =>
  match m with
  | Done a => f a
  | Raise c => Raise c
  | OutOfBounds => OutOfBounds
  | NoFuel => NoFuel
  end.

Lemma PRes_bind_Done {A B} (f : A -> PRes B) m b :
  m ≫= f = Done b <-> exists a, m = Done a /\ f a = Done b.
Proof.
  split; [|by intros (a & -> & ?)]. destruct m; [|done..]. intros H. eauto.
Qed.

Definition FLAG_NOT_EMPTY : Z := 1.
Definition FLAG_EXACTLY : Z := 2.
Definition INT_MAX : Z := 2147483647.

(** Fields of the compiler that change. *)
Record Parser := { p_pos : Z; p_nodes : list Node; p_branchNum : Z }.

Definition set_pos (st : Parser) (pos : Z) : Parser :=
  {| p_pos := pos; p_nodes := p_nodes st; p_branchNum := p_branchNum st |}.
Definition set_nodes (st : Parser) (nodes : list Node) : Parser :=
  {| p_pos := p_pos st; p_nodes := nodes; p_branchNum := p_branchNum st |}.
Definition push_nodes (st : Parser) (nodes : list Node) : Parser :=
  set_nodes st (p_nodes st ++ nodes).

(** [nodes.insert(pos, node)] *)
Definition insert_node (pos : nat) (n : Node) (nodes : list Node) : list Node :=
  take pos nodes ++ n :: drop pos nodes.

(** ** The programs of the quantifiers

    [atom] is the position of the quantified nodes, the last of [nodes]. *)

Definition star_nodes (atom : nat) (nodes : list Node) : list Node :=
  let a := Z.of_nat atom in
  let nodes := insert_node atom
    (Node_ref opBranch (Z.of_nat (length nodes) - a + 2)) nodes in
  let nodes := nodes ++ [Node_ref opRef (a - Z.of_nat (length nodes))] in
  nodes ++ [Node_op opBranch].

Definition plus_nodes (atom : nat) (nodes : list Node) : list Node :=
  let nodes := nodes ++ [Node_ref opBranch 2] in
  let nodes := nodes ++ [Node_ref opRef (Z.of_nat atom - Z.of_nat (length nodes))] in
  nodes ++ [Node_op opBranch].

Definition question_nodes (atom : nat) (nodes : list Node) : list Node :=
  let nodes := insert_node atom
    (Node_ref opBranch (Z.of_nat (length nodes) - Z.of_nat atom + 1)) nodes in
  nodes ++ [Node_op opBranch].

(** [x{n1,n2}] *)
Definition brace_nodes (atom : nat) (n1 n2 : Z) (nodes : list Node) : list Node :=
  let a := Z.of_nat atom in
  if decide (n1 = 0 /\ n2 = INT_MAX) then star_nodes atom nodes
  else
    let nodes := if decide (n1 = 0) then question_nodes atom nodes else nodes in
    let exprPos := S atom in
    let exprSize := (length nodes - atom)%nat in
    let es := Z.of_nat exprSize in
    let nodes := insert_node atom
      (Node_rep opRepeatingRefStart (if decide (n1 = 0) then n2 else n1) 0
         (Z.of_nat (length nodes) - a + 1)) nodes in
    let nodes := nodes ++ [Node_ref opRepeatingRefEnd (a - Z.of_nat (length nodes))] in
    let expr := take exprSize (drop exprPos nodes) in
    if decide (n2 <> n1 /\ n1 <> 0) then
      if decide (n2 = INT_MAX) then
        nodes ++ [Node_ref opBranch (es + 2)] ++ expr ++
          [Node_ref opRef (- es - 1); Node_op opBranch]
      else
        nodes ++ [Node_rep opRepeatingRefStart (n2 - n1) 0 (es + 3); Node_ref opBranch (es + 1)] ++
          expr ++ [Node_op opBranch; Node_ref opRepeatingRefEnd (- es - 3)]
    else nodes.

(** [atoi] of a string of digits. *)
Definition atoi (s : list Z) : Z := foldl (fun n c => 10 * n + (c - 48)) 0 s.

(** ** The compiler *)

Section Compiler.
Context `{T : TextType} (escapeChar : Z) (useEscape : bool).
(** [originalPatternStr], and the pattern in canonical form. *)
Context (original : list Z).

Definition pattern : list Z := canonical original.
Definition patternEnd : Z := Z.of_nat (length pattern).

(** [*pos] *)
Definition char_at (pos : Z) : PRes Z :=
  match pattern @ pos with Some c => Done c | None => OutOfBounds end.

(** A pointer into the pattern *)
Definition from (pos : Z) : list Z := drop (Z.to_nat pos) pattern.

Definition metaCharacters : list Z :=
  [canonicalChar CHAR_CIRCUMFLEX; canonicalChar CHAR_MINUS; canonicalChar CHAR_UNDERLINE;
   canonicalChar CHAR_PERCENT; canonicalChar CHAR_OPEN_BRACKET; canonicalChar CHAR_CLOSE_BRACKET;
   canonicalChar CHAR_OPEN_PAREN; canonicalChar CHAR_CLOSE_PAREN; canonicalChar CHAR_OPEN_BRACE;
   canonicalChar CHAR_CLOSE_BRACE; canonicalChar CHAR_VERTICAL_BAR; canonicalChar CHAR_QUESTION_MARK;
   canonicalChar CHAR_PLUS; canonicalChar CHAR_ASTERISK;
   if useEscape then escapeChar else canonicalChar CHAR_ASTERISK].

Definition isRep (c : Z) : bool :=
  bool_decide (c = canonicalChar CHAR_ASTERISK) || bool_decide (c = canonicalChar CHAR_PLUS) ||
  bool_decide (c = canonicalChar CHAR_QUESTION_MARK) || bool_decide (c = canonicalChar CHAR_OPEN_BRACE).

(** *** [parsePrimary]: the escaped characters, and sets *)

(** The check of the character at [pos], after the escape character. *)
Definition check_escaped (pos : Z) : PRes unit :=
  if decide (patternEnd <= pos) then Raise isc_escape_invalid
  else
    c ← char_at pos;
    if decide (c <> escapeChar /\ notInSet [c] metaCharacters <> 0)
    then Raise isc_escape_invalid else Done ().

(** [patternPos + 1 < patternEnd] and the next character is a minus. *)
Definition range_follows (pos : Z) : PRes bool :=
  if decide (pos + 1 < patternEnd) then
    c ← char_at (pos + 1); Done (bool_decide (c = canonicalChar CHAR_MINUS))
  else Done false.

Record SetState := {
  ss_pos : Z;
  ss_chars : list Z;
  ss_ranges : list Z;
  ss_but : bool;
  ss_node : Node
}.

(** [rangeBuffer.push(len); memcpy(..., &c, len)] for the character at [pos]. *)
Definition push_range (pos : Z) (ranges : list Z) : list Z :=
  let c := substring original pos 1 in
  ranges ++ wrapU 8 (Z.of_nat (length c)) :: c.

(** A character of a set, and the end of its range. *)
Definition set_char (pos : Z) (range : bool) (st : SetState) : PRes SetState :=
  c ← char_at pos;
  let chars := ss_chars st ++ [c] in
  if range then
    let ranges := push_range pos (ss_ranges st) in
    let pos := pos + 2 in
    if decide (patternEnd <= pos) then Raise isc_invalid_similar_pattern
    else
      c ← char_at pos;
      pos ← (if decide (useEscape = true /\ c = escapeChar)
             then _ ← check_escaped (pos + 1); Done (pos + 1) else Done pos);
      c ← char_at pos;
      Done {| ss_pos := pos + 1; ss_chars := chars ++ [c]; ss_ranges := push_range pos ranges;
              ss_but := ss_but st; ss_node := ss_node st |}
  else
    Done {| ss_pos := pos + 1; ss_chars := chars; ss_ranges := ss_ranges st;
            ss_but := ss_but st; ss_node := ss_node st |}.

(** The predefined classes, by their names in UTF-16. *)
Definition classes : list (list Z * list Z) :=
  [([65; 76; 78; 85; 77], canonicalUpperLetters ++ canonicalLowerLetters ++ canonicalNumbers);
   ([65; 76; 80; 72; 65], canonicalUpperLetters ++ canonicalLowerLetters);
   ([68; 73; 71; 73; 84], canonicalNumbers);
   ([76; 79; 87; 69; 82], canonicalLowerLetters);
   ([83; 80; 65; 67; 69], canonicalSpace);
   ([85; 80; 80; 69; 82], canonicalUpperLetters);
   ([87; 72; 73; 84; 69; 83; 80; 65; 67; 69], canonicalWhiteSpaces)].

Fixpoint find_class (name : list Z) (cs : list (list Z * list Z)) : option (list Z) :=
  match cs with
  | [] => None
  | (n, chars) :: cs => if decide (name = n) then Some chars else find_class name cs
  end.

(** [while (patternPos < patternEnd && *patternPos != ':') ++patternPos;] *)
Fixpoint skip_to_colon (fuel : nat) (pos : Z) : PRes Z :=
  match fuel with
  | O => NoFuel
  | S fuel =>
      if decide (pos < patternEnd) then
        c ← char_at pos;
        if decide (c <> canonicalChar CHAR_COLON) then skip_to_colon fuel (pos + 1) else Done pos
      else Done pos
  end.

(** The class whose open bracket is at [pos]. *)
Definition set_class (pos : Z) (st : SetState) : PRes SetState :=
  let pos := pos + 1 in
  if decide (patternEnd <= pos) then Raise isc_invalid_similar_pattern
  else
    c ← char_at pos;
    if decide (c <> canonicalChar CHAR_COLON) then Raise isc_invalid_similar_pattern
    else
      let start := pos + 1 in
      pos ← skip_to_colon (S (length pattern)) start;
      let len := pos - start in
      let pos := pos + 1 in
      if decide (patternEnd <= pos) then Raise isc_invalid_similar_pattern
      else
        c ← char_at pos;
        if decide (c <> canonicalChar CHAR_CLOSE_BRACKET) then Raise isc_invalid_similar_pattern
        else
          match find_class (utf16_upper (substring original start len)) classes with
          | None => Raise isc_invalid_similar_pattern
          | Some chars =>
              Done {| ss_pos := pos + 1; ss_chars := ss_chars st ++ chars;
                      ss_ranges := ss_ranges st; ss_but := ss_but st; ss_node := ss_node st |}
          end.

(** [if (patternPos >= patternEnd) raise] at the end of the loop's body. *)
Definition set_check_end (st : SetState) : PRes SetState :=
  if decide (patternEnd <= ss_pos st) then Raise isc_invalid_similar_pattern else Done st.

(** The body of the [do] loop; a circumflex continues without the last check. *)
Definition set_body (st : SetState) : PRes SetState :=
  let pos := ss_pos st in
  if decide (patternEnd <= pos) then Raise isc_invalid_similar_pattern
  else
    c ← char_at pos;
    if decide (useEscape = true /\ c = escapeChar) then
      let pos := pos + 1 in
      _ ← check_escaped pos;
      range ← range_follows pos;
      st ← set_char pos range st;
      set_check_end st
    else if decide (c = canonicalChar CHAR_OPEN_BRACKET) then
      st ← set_class pos st;
      set_check_end st
    else if decide (c = canonicalChar CHAR_CIRCUMFLEX) then
      if ss_but st then Raise isc_invalid_similar_pattern
      else Done {| ss_pos := pos + 1; ss_chars := []; ss_ranges := []; ss_but := true;
                   ss_node := store_set false (ss_chars st) (ss_ranges st) (ss_node st) |}
    else
      range ← range_follows pos;
      st ← set_char pos range st;
      set_check_end st.

Fixpoint set_loop (fuel : nat) (st : SetState) : PRes SetState :=
  match fuel with
  | O => NoFuel
  | S fuel =>
      st ← set_body st;
      c ← char_at (ss_pos st);
      if decide (c <> canonicalChar CHAR_CLOSE_BRACKET) then set_loop fuel st else Done st
  end.

(** The set whose open bracket is before [pos]: its node and the position after
    its end. *)
Definition parseSet (pos : Z) : PRes (Node * Z) :=
  st ← set_loop (S (length pattern))
         {| ss_pos := pos; ss_chars := []; ss_ranges := []; ss_but := false;
            ss_node := Node_op opAnyOf |};
  Done (store_set (ss_but st) (ss_chars st) (ss_ranges st) (ss_node st), ss_pos st + 1).

(** *** [parseFactor]: the braces *)

(** [p] is the rest of the original pattern, [size] what [readOneChar] advances
    by. [None] when it is at the end, [Some] with the two numbers read. *)
Fixpoint brace_loop (fuel : nat) (p : list Z) (size : nat) (pos : Z) (comma : bool)
    (s1 s2 : list Z) : PRes (option (Z * bool * list Z * list Z)) :=
  match fuel with
  | O => NoFuel
  | S fuel =>
      let p := drop size p in
      if decide (p = []) then Done None
      else
        let size := length (substring p 0 1) in
        c ← char_at pos;
        if decide (c = canonicalChar CHAR_CLOSE_BRACE) then
          if decide (s1 = []) then Raise isc_invalid_similar_pattern
          else Done (Some (pos, comma, s1, s2))
        else if decide (c = canonicalChar CHAR_COMMA) then
          if comma then Raise isc_invalid_similar_pattern
          else brace_loop fuel p size (pos + 1) true s1 s2
        else
          let ch := unicode_char (take size p) in
          if decide (48 <= ch <= 57) then
            if comma then brace_loop fuel p size (pos + 1) comma s1 (s2 ++ [ch])
            else brace_loop fuel p size (pos + 1) comma (s1 ++ [ch]) s2
          else Raise isc_invalid_similar_pattern
  end.

(** The numbers after the open brace that is before [pos], and the position of
    the close brace. *)
Definition parseBrace (pos : Z) : PRes (Z * Z * Z) :=
  let p := drop (length (substring original 1 pos)) original in
  r ← brace_loop (S (length pattern)) p 0 pos false [] [];
  match r with
  | None => Raise isc_invalid_similar_pattern
  | Some (pos, comma, s1, s2) =>
      if decide (9 < length s1 \/ 9 < length s2)%nat then Raise isc_invalid_similar_pattern
      else
        let n1 := atoi s1 in
        let n2 := if decide (s2 = []) then (if comma : bool then INT_MAX else n1) else atoi s2 in
        if decide (n2 < n1) then Raise isc_invalid_similar_pattern
        else Done (pos, n1, n2)
  end.

(** If the last primary is a string, its last character is split off; the position
    of what is quantified, and the nodes. *)
Definition split_exactly (flags : Z) (atom : nat) (nodes : list Node) : PRes (nat * list Node) :=
  if decide (Z.land flags FLAG_EXACTLY <> 0) then
    match last nodes with
    | None => OutOfBounds
    | Some back =>
        if decide (n_op back = opExactly /\ 1 < n_len back) then
          let nodes := take (length nodes - 1) nodes ++
            [set_str back (n_op back) (n_str back) (n_len back - 1)] in
          let last := set_str back opExactlyOne (drop (Z.to_nat (n_len back - 1)) (n_str back)) 1 in
          Done (length nodes, nodes ++ [last])
        else Done (atom, nodes)
    end
  else Done (atom, nodes).

(** The quantifier [op] applied to the nodes from [atom] on; the flags. *)
Definition quantify (op : Z) (atom : nat) (st : Parser) : PRes (Parser * Z) :=
  if decide (op = canonicalChar CHAR_ASTERISK) then
    Done (set_nodes st (star_nodes atom (p_nodes st)), 0)
  else if decide (op = canonicalChar CHAR_PLUS) then
    Done (set_nodes st (plus_nodes atom (p_nodes st)), FLAG_NOT_EMPTY)
  else if decide (op = canonicalChar CHAR_QUESTION_MARK) then
    Done (set_nodes st (question_nodes atom (p_nodes st)), 0)
  else
    '(pos, n1, n2) ← parseBrace (p_pos st + 1);
    Done (set_pos (set_nodes st (brace_nodes atom n1 n2 (p_nodes st))) pos,
          if decide (n1 = 0) then 0 else FLAG_NOT_EMPTY).

(** [parseFactor] after [parsePrimary]. *)
Definition factor_rep (atom : nat) (flags : Z) (st : Parser) : PRes (Parser * Z) :=
  if decide (patternEnd <= p_pos st) then Done (st, flags)
  else
    op ← char_at (p_pos st);
    if negb (isRep op) then Done (st, flags)
    else if decide (Z.land flags FLAG_NOT_EMPTY = 0 /\ op <> canonicalChar CHAR_QUESTION_MARK)
    then Raise isc_invalid_similar_pattern
    else
      '(atom, nodes) ← split_exactly flags atom (p_nodes st);
      '(st, flags) ← quantify op atom (set_nodes st nodes);
      let st := set_pos st (p_pos st + 1) in
      if decide (p_pos st < patternEnd) then
        c ← char_at (p_pos st);
        if isRep c then Raise isc_invalid_similar_pattern else Done (st, flags)
      else Done (st, flags).

(** *** The recursive descent *)

(** [nodes[i].ref = ref] *)
Definition set_ref_at (i : nat) (ref : Z) (nodes : list Node) : list Node :=
  alter (fun n => set_ref n ref) i nodes.

(** [nodes[start].ref = 0; for (...) nodes[*i].ref = nodes.getCount() - *i;] *)
Definition close_refs (start : nat) (refs : list nat) (nodes : list Node) : list Node :=
  foldl (fun nodes i => set_ref_at i (Z.of_nat (length nodes) - Z.of_nat i) nodes)
    (set_ref_at start 0 nodes) refs.

(** [parsePrimary] after the escape character, and of a run of characters without
    a meaning; the first character is before [p_pos]. *)
Definition primary_escaped (st : Parser) : PRes (Parser * Z) :=
  _ ← check_escaped (p_pos st);
  Done (set_pos (push_nodes st [Node_str opExactlyOne (from (p_pos st)) 1]) (p_pos st + 1),
        FLAG_NOT_EMPTY).

Definition primary_exactly (st : Parser) : PRes (Parser * Z) :=
  let pos := p_pos st - 1 in
  let len := notInSet (from pos) metaCharacters in
  if decide (len = 0) then Raise isc_invalid_similar_pattern
  else
    Done (set_pos (push_nodes st
            [Node_str (if decide (len = 1) then opExactlyOne else opExactly) (from pos) len])
            (pos + len),
          Z.lor FLAG_NOT_EMPTY FLAG_EXACTLY).

Fixpoint parseExpr (fuel : nat) (first : bool) (flagp : Z) (refs : list nat) (start : nat)
    (st : Parser) : PRes (Parser * Z) :=
  match fuel with
  | O => NoFuel
  | S fuel =>
      more ← (if first then Done true
              else if decide (p_pos st < patternEnd) then
                c ← char_at (p_pos st); Done (bool_decide (c = canonicalChar CHAR_VERTICAL_BAR))
              else Done false);
      if more : bool then
        let st := if first then st else set_pos st (p_pos st + 1) in
        let thisBranchNum := p_branchNum st in
        let start := length (p_nodes st) in
        let st := push_nodes st [set_branchNum (Node_op opBranch) thisBranchNum] in
        '(st, flags) ← parseTerm fuel true 0 st;
        let flagp := Z.lor (Z.land flagp (Z.lnot (Z.land (Z.lnot flags) FLAG_NOT_EMPTY))) flags in
        let refs := refs ++ [length (p_nodes st)] in
        let st := push_nodes st [set_branchNum (Node_op opRef) thisBranchNum] in
        let st := set_nodes st (set_ref_at start
                    (Z.of_nat (length (p_nodes st)) - Z.of_nat start) (p_nodes st)) in
        parseExpr fuel false flagp refs start st
      else Done (set_nodes st (close_refs start refs (p_nodes st)), flagp)
  end
with parseTerm (fuel : nat) (first : bool) (flagp : Z) (st : Parser) : PRes (Parser * Z) :=
  match fuel with
  | O => NoFuel
  | S fuel =>
      more ← (if decide (p_pos st < patternEnd) then
                c ← char_at (p_pos st);
                Done (bool_decide (c <> canonicalChar CHAR_VERTICAL_BAR /\
                                   c <> canonicalChar CHAR_CLOSE_PAREN))
              else Done false);
      if more : bool then
        '(st, flags) ← parseFactor fuel st;
        let flagp := Z.lor flagp (Z.land flags FLAG_NOT_EMPTY) in
        let flagp := if first then Z.lor flagp flags else flagp in
        parseTerm fuel false flagp st
      else Done (if first then push_nodes st [Node_op opNothing] else st, flagp)
  end
with parseFactor (fuel : nat) (st : Parser) : PRes (Parser * Z) :=
  match fuel with
  | O => NoFuel
  | S fuel =>
      let atom := length (p_nodes st) in
      '(st, flags) ← parsePrimary fuel st;
      factor_rep atom flags st
  end
with parsePrimary (fuel : nat) (st : Parser) : PRes (Parser * Z) :=
  match fuel with
  | O => NoFuel
  | S fuel =>
      op ← char_at (p_pos st);
      let st := set_pos st (p_pos st + 1) in
      if decide (op = canonicalChar CHAR_UNDERLINE) then
        Done (push_nodes st [Node_op opAny], FLAG_NOT_EMPTY)
      else if decide (op = canonicalChar CHAR_PERCENT) then
        Done (push_nodes st
                [Node_ref opBranch 3; Node_op opAny; Node_ref opRef (-2); Node_op opBranch], 0)
      else if decide (op = canonicalChar CHAR_OPEN_BRACKET) then
        '(node, pos) ← parseSet (p_pos st);
        Done (set_pos (push_nodes st [node]) pos, FLAG_NOT_EMPTY)
      else if decide (op = canonicalChar CHAR_OPEN_PAREN) then
        '(st, flags) ← parseExpr fuel true FLAG_NOT_EMPTY [] 0 st;
        let st := {| p_pos := p_pos st; p_nodes := p_nodes st; p_branchNum := p_branchNum st + 1 |} in
        if decide (patternEnd <= p_pos st) then Raise isc_invalid_similar_pattern
        else
          c ← char_at (p_pos st);
          if decide (c <> canonicalChar CHAR_CLOSE_PAREN) then Raise isc_invalid_similar_pattern
          else Done (set_pos st (p_pos st + 1), Z.land flags FLAG_NOT_EMPTY)
      else if decide (useEscape = true /\ op = escapeChar) then primary_escaped st
      else primary_exactly st
  end.

(** The constructor; [branches] has one more element than [branchNum]. *)
Record Evaluator := { ev_nodes : list Node; ev_branchNum : Z }.

Definition Evaluator_new : PRes Evaluator :=
  '(st, _) ← parseExpr (4 * length pattern + 8) true FLAG_NOT_EMPTY [] 0
               {| p_pos := 0; p_nodes := [Node_op opStart]; p_branchNum := 0 |};
  let st := push_nodes st [Node_op opEnd] in
  if decide (p_pos st < patternEnd) then Raise isc_invalid_similar_pattern
  else Done {| ev_nodes := p_nodes st; ev_branchNum := p_branchNum st |}.
End Compiler.

(** ** The machine *)

(** [const Node*]: a node of the program or one of the two special nodes. *)
Inductive NodePtr := PNode (i : Z) | PRet | PRepeatingRestore.

#[export] Instance NodePtr_eq_dec : EqDecision NodePtr.
Proof. solve_decision. Defined.

Inductive MatchState := msIterating | msReturningFalse | msReturningTrue.

#[export] Instance MatchState_eq_dec : EqDecision MatchState.
Proof. solve_decision. Defined.

(** A scope: the node, and the saved position or [NULL]. The top is first. *)
Record Machine := {
  m_scopes : list (NodePtr * option Z);
  m_state : MatchState;
  m_pos : Z;
  m_repeatStack : list Z;
  m_repeatCount : Z;
  m_branches : list (Z * Z)
}.

Section Match.
Context `{T : TextType} (nodes : list Node).
(** The bytes of the value, and its canonical form. *)
Context (bytes : list Z).

Definition buffer : list Z := canonical bytes.
Definition bufferEnd : Z := Z.of_nat (length buffer).

Definition deref (p : NodePtr) : option Node :=
  match p with
  | PNode i => nodes @ i
  | PRet => Some (Node_op opRet)
  | PRepeatingRestore => Some (Node_op opRepeatingRestore)
  end.

Definition ptr_add (p : NodePtr) (k : Z) : option NodePtr :=
  match p with PNode i => Some (PNode (i + k)) | _ => None end.

(** [while (p < end) { if (compare(c, low) >= 0 && compare(c, high) <= 0) break; ... }] *)
Fixpoint in_ranges (fuel : nat) (c : list Z) (p : list Z) : option bool :=
  match fuel with
  | O => None
  | S fuel =>
      match p with
      | [] => Some false
      | l1 :: q =>
          let low := take (Z.to_nat l1) q in
          match drop (Z.to_nat l1) q with
          | [] => None
          | l2 :: r =>
              let high := take (Z.to_nat l2) r in
              if decide (compare c low >= 0 /\ compare c high <= 0) then Some true
              else in_ranges fuel c (drop (Z.to_nat l2) r)
          end
      end
  end.

(** [opAnyOf] on the character at [pos]. *)
Definition any_of (n : Node) (pos : Z) : option bool :=
  ch ← buffer @ pos;
  let c := substring bytes pos 1 in
  included ←
    (if decide (notInSet [ch] (take (Z.to_nat (n_len n)) (n_str n)) <> 0) then
       found ← in_ranges (S (length (n_str2 n))) c (take (Z.to_nat (n_len2 n)) (n_str2 n));
       Some (negb (bool_decide (n_len n + n_len2 n <> 0) && negb found))
     else Some true);
  if included : bool then
    if decide (notInSet [ch] (take (Z.to_nat (n_len3 n)) (n_str3 n)) = 0) then Some false
    else
      found ← in_ranges (S (length (n_str4 n))) c (take (Z.to_nat (n_len4 n)) (n_str4 n));
      Some (negb found)
  else Some false.

(** [opExactly]: the rest is long enough and starts with the string. *)
Definition exactly (n : Node) (pos : Z) : bool :=
  bool_decide (bufferEnd - pos >= n_len n) &&
  bool_decide (take (Z.to_nat (n_len n)) (drop (Z.to_nat pos) buffer) =
               take (Z.to_nat (n_len n)) (n_str n)).

Definition set_branch_start (b : Z) (start : Z) (br : list (Z * Z)) : option (list (Z * Z)) :=
  if decide (b = -1) then Some br else p ← br @ b; aset br b (start, p.2).

Definition set_branch_length (b : Z) (pos : Z) (br : list (Z * Z)) : option (list (Z * Z)) :=
  if decide (b = -1) then Some br else p ← br @ b; aset br b (p.1, pos - p.1).

(** What an [Op] does in a state: the switch. [SwContinue] is the [continue] of
    the loop, [SwBreak] the [break] of the switch, [SwReturn] the end. *)
Inductive Switch := SwContinue (m : Machine) | SwBreak (m : Machine) | SwReturn (b : bool).

Definition mk_machine := Build_Machine.

(** The next node in the same scope, or its removal. *)
Definition after_switch (m : Machine) : option Machine :=
  match m_scopes m with
  | [] => None
  | (i, save) :: rest =>
      match m_state m with
      | msIterating =>
          i ← ptr_add i 1;
          Some (mk_machine ((i, save) :: rest) msIterating (m_pos m) (m_repeatStack m)
                  (m_repeatCount m) (m_branches m))
      | st => Some (mk_machine rest st (m_pos m) (m_repeatStack m) (m_repeatCount m) (m_branches m))
      end
  end.

(** [opBranch] *)
Definition sw_branch (n : Node) (i : NodePtr) (save : option Z) (rest : list (NodePtr * option Z))
    (m : Machine) : option Switch :=
  match m_state m with
  | msIterating =>
      br ← set_branch_start (n_branchNum n) (m_pos m) (m_branches m);
      next ← ptr_add i 1;
      Some (SwContinue (mk_machine ((next, None) :: (i, Some (m_pos m)) :: rest) msIterating
              (m_pos m) (m_repeatStack m) (m_repeatCount m) br))
  | msReturningFalse =>
      pos ← save;
      if decide (n_ref n <> 0) then
        j ← ptr_add i (n_ref n);
        target ← deref j;
        if decide (n_ref target <> 0) then
          next ← ptr_add j 1;
          Some (SwContinue (mk_machine ((next, None) :: (j, Some pos) :: rest) msIterating pos
                  (m_repeatStack m) (m_repeatCount m) (m_branches m)))
        else
          Some (SwBreak (mk_machine ((j, save) :: rest) msIterating pos
                  (m_repeatStack m) (m_repeatCount m) (m_branches m)))
      else
        Some (SwBreak (mk_machine ((i, save) :: rest) msReturningFalse pos
                (m_repeatStack m) (m_repeatCount m) (m_branches m)))
  | msReturningTrue => Some (SwBreak m)
  end.

(** [opRef] *)
Definition sw_ref (n : Node) (i : NodePtr) (rest : list (NodePtr * option Z)) (m : Machine)
    : option Switch :=
  match m_state m with
  | msIterating =>
      br ← set_branch_length (n_branchNum n) (m_pos m) (m_branches m);
      i ← ptr_add i (n_ref n);
      Some (SwContinue (mk_machine ((i, None) :: rest) msIterating (m_pos m) (m_repeatStack m)
              (m_repeatCount m) br))
  | _ => Some (SwBreak m)
  end.

(** [repeatCount = repeatStack.pop()] *)
Definition pop_repeat (m : Machine) : option Machine :=
  match m_repeatStack m with
  | [] => None
  | c :: rs => Some (mk_machine (m_scopes m) (m_state m) (m_pos m) rs c (m_branches m))
  end.

(** [opRepeatingRefStart] *)
Definition sw_repeat_start (n : Node) (i : NodePtr) (m : Machine) : option Switch :=
  match m_state m with
  | msIterating =>
      next ← ptr_add i (n_ref n);
      Some (SwContinue (mk_machine ((next, None) :: m_scopes m) msIterating (m_pos m)
              (m_repeatCount m :: m_repeatStack m) (n_len n) (m_branches m)))
  | _ => m ← pop_repeat m; Some (SwBreak m)
  end.

(** [opRepeatingRefEnd]. The second push reads [scope->i]: if the stack was full, the first one has moved
    it to another block, and [scope] points into the block that was freed. *)
Definition sw_repeat_end (full : bool) (n : Node) (i : NodePtr) (m : Machine) : option Switch :=
  match m_state m with
  | msIterating =>
      if decide (m_repeatCount m > 0) then
        next ← ptr_add i (n_ref n + 1);
        Some (SwContinue (mk_machine ((next, None) :: m_scopes m) msIterating (m_pos m)
                (m_repeatStack m) (m_repeatCount m - 1) (m_branches m)))
      else
        m ← pop_repeat m;
        next ← (if full then None else ptr_add i 1);
        Some (SwContinue (mk_machine ((next, None) :: (PRepeatingRestore, None) :: m_scopes m)
                msIterating (m_pos m) (m_repeatStack m) (m_repeatCount m) (m_branches m)))
  | msReturningFalse =>
      Some (SwBreak (mk_machine (m_scopes m) msReturningFalse (m_pos m) (m_repeatStack m)
              (m_repeatCount m + 1) (m_branches m)))
  | msReturningTrue => Some (SwBreak m)
  end.

(** An operation that goes on at [pos], or fails. *)
Definition sw_test (next : option Z) (m : Machine) : Switch :=
  match next with
  | Some pos => SwBreak (mk_machine (m_scopes m) msIterating pos (m_repeatStack m)
                  (m_repeatCount m) (m_branches m))
  | None => SwBreak (mk_machine (m_scopes m) msReturningFalse (m_pos m) (m_repeatStack m)
              (m_repeatCount m) (m_branches m))
  end.

Definition sw_return (b : bool) (m : Machine) : Switch :=
  SwBreak (mk_machine (m_scopes m) (if b then msReturningTrue else msReturningFalse) (m_pos m)
             (m_repeatStack m) (m_repeatCount m) (m_branches m)).

(** [switch (ENCODE_OP_STATE(node->op, state))] *)
Definition match_switch (full : bool) (n : Node) (i : NodePtr) (save : option Z)
    (rest : list (NodePtr * option Z)) (m : Machine) : option Switch :=
  let pos := m_pos m in
  match n_op n, m_state m with
  | opBranch, _ => sw_branch n i save rest m
  | opStart, msIterating => Some (sw_test (if decide (pos <> 0) then None else Some pos) m)
  | opEnd, msIterating => Some (sw_return (bool_decide (pos = bufferEnd)) m)
  | opRef, _ => sw_ref n i rest m
  | opRepeatingRefStart, _ => sw_repeat_start n i m
  | opRepeatingRefEnd, _ => sw_repeat_end full n i m
  | opRepeatingRestore, (msReturningFalse | msReturningTrue) =>
      Some (SwBreak (mk_machine (m_scopes m) (m_state m) pos
              (m_repeatCount m :: m_repeatStack m) (-1) (m_branches m)))
  | opNothing, _ => Some (SwBreak m)
  | opAny, msIterating => Some (sw_test (if decide (pos >= bufferEnd) then None else Some (pos + 1)) m)
  | opAnyOf, msIterating =>
      if decide (pos >= bufferEnd) then Some (sw_test None m)
      else b ← any_of n pos; Some (sw_test (if b : bool then Some (pos + 1) else None) m)
  | opExactly, msIterating =>
      Some (sw_test (if exactly n pos then Some (pos + n_len n) else None) m)
  | opExactlyOne, msIterating =>
      if decide (bufferEnd - pos >= 1) then
        c ← head (n_str n); ch ← buffer @ pos;
        Some (sw_test (if decide (c = ch) then Some (pos + 1) else None) m)
      else Some (sw_test None m)
  | opRet, (msReturningFalse | msReturningTrue) =>
      Some (SwReturn (bool_decide (m_state m = msReturningTrue)))
  | _, _ => Some (SwReturn false)
  end.

(** One iteration of [while (true)]; [full]: the block of [scopeStack] is. *)
Definition match_step (full : bool) (m : Machine) : option (Machine + bool) :=
  match m_scopes m with
  | [] => None
  | (i, save) :: rest =>
      n ← deref i;
      sw ← match_switch full n i save rest m;
      match sw with
      | SwContinue m => Some (inl m)
      | SwBreak m => m ← after_switch m; Some (inl m)
      | SwReturn b => Some (inr b)
      end
  end.

(** The size of the block of [scopeStack]: a push on a full one makes a larger one, which stays. *)
Definition stack_full (size : Z) (m : Machine) : bool := bool_decide (Z.of_nat (length (m_scopes m)) = size).
Definition stack_size (size : Z) (m : Machine) : Z :=
  if decide (Z.of_nat (length (m_scopes m)) > size) then size + INCREASE_FACTOR else size.

(** [None]: a read outside an array or in a block that was freed; [Some None]: out of fuel. *)
Fixpoint match_run (fuel : nat) (size : Z) (m : Machine) : option (option (bool * list (Z * Z))) :=
  match fuel with
  | O => Some None
  | S fuel =>
      r ← match_step (stack_full size m) m;
      match r with
      | inl m => match_run fuel (stack_size size m) m
      | inr b => Some (Some (b, m_branches m))
      end
  end.

Definition match_init (branches : list (Z * Z)) : Machine :=
  mk_machine [(PNode 0, None); (PRet, None)] msIterating 0 [] 0 branches.
End Match.

(** ** The evaluator *)

(** [buffer] and [branches] of the evaluator. *)
Record EvaluatorState := { es_buffer : list Z; es_branches : list (Z * Z) }.

Definition similar_reset (ev : Evaluator) : EvaluatorState :=
  {| es_buffer := []; es_branches := replicate (Z.to_nat (ev_branchNum ev + 1)) (0, 0) |}.

Definition similar_processNextChunk (data : list Z) (s : EvaluatorState) : EvaluatorState :=
  {| es_buffer := es_buffer s ++ data; es_branches := es_branches s |}.

Definition similar_getResult `{T : TextType} (fuel : nat) (ev : Evaluator) (s : EvaluatorState)
    : option (option (bool * EvaluatorState)) :=
  r ← match_run (ev_nodes ev) (es_buffer s) fuel INCREASE_FACTOR (match_init (es_branches s));
  match r with
  | None => Some None
  | Some (b, br) => Some (Some (b, {| es_buffer := es_buffer s; es_branches := br |}))
  end.

(** [SimilarToMatcher::evaluate] *)
Definition similar_evaluate `{T : TextType} (fuel : nat) (escapeChar : Z) (useEscape : bool)
    (p s : list Z) : PRes (option (option bool)) :=
  ev ← Evaluator_new escapeChar useEscape p;
  Done (match similar_getResult fuel ev (similar_processNextChunk s (similar_reset ev)) with
        | Some r => Some (fst <$> r)
        | None => None
        end).
