(* ===== verification/SimilarSpec.v ===== *)
(** * SIMILAR TO: regular expressions and their patterns

    The language of a regular expression over the characters of a value, and the
    grammar of SIMILAR TO patterns, which relates the text of a pattern to its
    expression. *)

From S2P Require Import Prelude TextType SimilarTo.

(** ** Regular expressions *)

(** A bracket expression: included and excluded characters and ranges. *)
Record CharSet := {
  cs_inc : list Z;
  cs_inc_ranges : list (list Z * list Z);
  cs_exc : list Z;
  cs_exc_ranges : list (list Z * list Z)
}.

Inductive regex :=
  | REps
  | RAny
  | RChar (c : Z)
  | RSet (cs : CharSet)
  | RSeq (r1 r2 : regex)
  | RAlt (r1 r2 : regex)
  | RRep (r : regex) (lo : Z) (hi : option Z).

Section Language.
Context `{T : TextType}.

Definition in_range (b : list Z) (range : list Z * list Z) : Prop :=
  compare b range.1 >= 0 /\ compare b range.2 <= 0.

Definition listed (chars : list Z) (ranges : list (list Z * list Z)) (x : Sym) : Prop :=
  x.1 ∈ chars \/ Exists (in_range x.2) ranges.

(** No inclusion includes all. *)
Definition set_mem (cs : CharSet) (x : Sym) : Prop :=
  ((cs_inc cs = [] /\ cs_inc_ranges cs = []) \/ listed (cs_inc cs) (cs_inc_ranges cs) x) /\
  ~ listed (cs_exc cs) (cs_exc_ranges cs) x.

Definition in_bounds (lo : Z) (hi : option Z) (n : nat) : Prop :=
  lo <= Z.of_nat n /\ match hi with Some h => Z.of_nat n <= h | None => True end.

Fixpoint lang (r : regex) (s : list Sym) : Prop :=
  match r with
  | REps => s = []
  | RAny => exists x, s = [x]
  | RChar c => exists b, s = [(c, b)]
  | RSet cs => exists x, s = [x] /\ set_mem cs x
  | RSeq r1 r2 => exists s1 s2, s = s1 ++ s2 /\ lang r1 s1 /\ lang r2 s2
  | RAlt r1 r2 => lang r1 s \/ lang r2 s
  | RRep r lo hi => exists ss, s = mjoin ss /\ Forall (lang r) ss /\ in_bounds lo hi (length ss)
  end.

(** Whether the empty string is in the language. *)
Fixpoint nullable (r : regex) : bool :=
  match r with
  | REps => true
  | RAny | RChar _ | RSet _ => false
  | RSeq r1 r2 => nullable r1 && nullable r2
  | RAlt r1 r2 => nullable r1 || nullable r2
  | RRep r lo hi =>
      match hi with Some h => bool_decide (lo <= h /\ 0 <= h) | None => true end &&
      (bool_decide (lo <= 0) || nullable r)
  end.

(** Nothing that can be empty is repeated without bound. *)
Fixpoint loops_ok (r : regex) : bool :=
  match r with
  | RSeq r1 r2 | RAlt r1 r2 => loops_ok r1 && loops_ok r2
  | RRep r lo hi => loops_ok r && match hi with None => negb (nullable r) | Some _ => true end
  | _ => true
  end.

Lemma lang_on_nil r : lang r [] <-> nullable r = true.
Proof.
  induction r as [| | | |r1 IH1 r2 IH2|r1 IH1 r2 IH2|r IH lo hi]; simpl.
  - done.
  - by split; [intros [x ?]|].
  - by split; [intros [x ?]|].
  - by split; [intros (x & ? & _)|].
  - rewrite andb_true_iff, <- IH1, <- IH2. split.
    + intros (s1 & s2 & H & H1 & H2). symmetry in H. by apply app_eq_nil in H as [-> ->].
    + intros [H1 H2]. by exists [], [].
  - by rewrite orb_true_iff, IH1, IH2.
  - rewrite andb_true_iff, orb_true_iff, bool_decide_eq_true, <- IH. unfold in_bounds. split.
    + intros (ss & H & Hss & Hb). destruct ss as [|s ss].
      { simpl in Hb. destruct hi; [|split; [done|left; lia]]. rewrite bool_decide_eq_true.
        split; [lia|left; lia]. }
      simpl in H. symmetry in H. apply app_eq_nil in H as [-> _]. apply Forall_cons in Hss as [Hs _].
      split; [|by right]. destruct hi; [|done]. rewrite bool_decide_eq_true. lia.
    + intros [Hh [Hlo|Hr]].
      { exists []. split; [done|]. split; [constructor|]. simpl. destruct hi; [|lia].
        rewrite bool_decide_eq_true in Hh. lia. }
      exists (replicate (Z.to_nat lo) []). split; [by induction (Z.to_nat lo)|].
      split; [by apply Forall_replicate|]. rewrite length_replicate. destruct hi; [|lia].
      rewrite bool_decide_eq_true in Hh. lia.
Qed.
End Language.

(** ** The grammar

    The relations take the text and what is left of it. *)

Section Grammar.
Context `{T : TextType} (escapeChar : Z) (useEscape : bool).
Implicit Types (t : list Sym) (c : Z) (b : list Z).

(** No character [cc] follows. *)
Definition not_next (cc : CharCode) t : Prop :=
  match t with (c, _) :: _ => c <> canonicalChar cc | [] => True end.

Definition no_rep t : Prop :=
  match t with (c, _) :: _ => isRep c = false | [] => True end.

Definition is_escape c : Prop := useEscape = true /\ c = escapeChar.
Definition escapable c : Prop := c = escapeChar \/ c ∈ metaCharacters escapeChar useEscape.

(** *** Bracket expressions *)

(** A character, escaped or with [plain]. *)
Inductive gchar (plain : Z -> Prop) : list Sym -> Sym -> list Sym -> Prop :=
  | gchar_plain c b t : ~ is_escape c -> plain c -> gchar plain ((c, b) :: t) (c, b) t
  | gchar_escaped e be c b t :
      is_escape e -> escapable c -> gchar plain ((e, be) :: (c, b) :: t) (c, b) t.

Definition plain_first c : Prop :=
  c <> canonicalChar CHAR_OPEN_BRACKET /\ c <> canonicalChar CHAR_CIRCUMFLEX.

(** An item, with its characters and ranges. *)
Inductive gitem : list Sym -> list Z -> list (list Z * list Z) -> list Sym -> Prop :=
  | gitem_char t c b t' :
      gchar plain_first t (c, b) t' -> not_next CHAR_MINUS t' -> gitem t [c] [] t'
  | gitem_range t c b m bm t1 c' b' t' :
      gchar plain_first t (c, b) ((m, bm) :: t1) -> m = canonicalChar CHAR_MINUS ->
      gchar (fun _ => True) t1 (c', b') t' -> gitem t [c; c'] [(b, b')] t'
  | gitem_class o bo k bk name k' bk' e be t' chars :
      ~ is_escape o -> o = canonicalChar CHAR_OPEN_BRACKET -> k = canonicalChar CHAR_COLON ->
      Forall (fun x => x.1 <> canonicalChar CHAR_COLON) name ->
      k' = canonicalChar CHAR_COLON -> e = canonicalChar CHAR_CLOSE_BRACKET ->
      find_class (utf16_upper (mjoin name.*2)) classes = Some chars ->
      gitem ((o, bo) :: (k, bk) :: name ++ (k', bk') :: (e, be) :: t') chars [] t'.

Definition add_items (but : bool) (chars : list Z) (ranges : list (list Z * list Z)) (cs : CharSet)
    : CharSet :=
  if but then
    {| cs_inc := cs_inc cs; cs_inc_ranges := cs_inc_ranges cs;
       cs_exc := cs_exc cs ++ chars; cs_exc_ranges := cs_exc_ranges cs ++ ranges |}
  else
    {| cs_inc := cs_inc cs ++ chars; cs_inc_ranges := cs_inc_ranges cs ++ ranges;
       cs_exc := cs_exc cs; cs_exc_ranges := cs_exc_ranges cs |}.

(** One item, or the circumflex, of which there is at most one. *)
Inductive gelem : bool -> CharSet -> list Sym -> bool -> CharSet -> list Sym -> Prop :=
  | gelem_item but cs t chars ranges t' :
      gitem t chars ranges t' -> t' <> [] -> gelem but cs t but (add_items but chars ranges cs) t'
  | gelem_but cs c b t :
      ~ is_escape c -> c = canonicalChar CHAR_CIRCUMFLEX -> gelem false cs ((c, b) :: t) true cs t.

(** At least one element, then elements up to the close bracket. *)
Inductive gelems : bool -> CharSet -> list Sym -> CharSet -> list Sym -> Prop :=
  | gelems_last but cs t but' cs' e be t' :
      gelem but cs t but' cs' ((e, be) :: t') -> e = canonicalChar CHAR_CLOSE_BRACKET ->
      gelems but cs t cs' t'
  | gelems_more but cs t but1 cs1 t1 cs' t' :
      gelem but cs t but1 cs1 t1 -> not_next CHAR_CLOSE_BRACKET t1 ->
      gelems but1 cs1 t1 cs' t' -> gelems but cs t cs' t'.

Definition empty_set : CharSet :=
  {| cs_inc := []; cs_inc_ranges := []; cs_exc := []; cs_exc_ranges := [] |}.

(** *** Quantifiers *)

Definition gdigit (x : Sym) (d : Z) : Prop :=
  x.1 <> canonicalChar CHAR_CLOSE_BRACE /\ x.1 <> canonicalChar CHAR_COMMA /\
  d = unicode_char x.2 /\ 48 <= d <= 57.

(** A number of at most nine digits. *)
Definition gnumber (ds : list Sym) (n : Z) : Prop :=
  exists s, Forall2 gdigit ds s /\ ds <> [] /\ (length ds <= 9)%nat /\ n = atoi s.

(** What follows the open brace. *)
Inductive gbrace : list Sym -> Z -> option Z -> list Sym -> Prop :=
  | gbrace_exact ds n e be t :
      gnumber ds n -> e = canonicalChar CHAR_CLOSE_BRACE ->
      gbrace (ds ++ (e, be) :: t) n (Some n) t
  | gbrace_min ds n k bk e be t :
      gnumber ds n -> k = canonicalChar CHAR_COMMA -> e = canonicalChar CHAR_CLOSE_BRACE ->
      gbrace (ds ++ (k, bk) :: (e, be) :: t) n None t
  | gbrace_range ds n k bk ds' n' e be t :
      gnumber ds n -> k = canonicalChar CHAR_COMMA -> gnumber ds' n' -> n <= n' ->
      e = canonicalChar CHAR_CLOSE_BRACE ->
      gbrace (ds ++ (k, bk) :: ds' ++ (e, be) :: t) n (Some n') t.

Inductive gquantifier : list Sym -> Z -> option Z -> list Sym -> Prop :=
  | gq_star c b t : c = canonicalChar CHAR_ASTERISK -> gquantifier ((c, b) :: t) 0 None t
  | gq_plus c b t : c = canonicalChar CHAR_PLUS -> gquantifier ((c, b) :: t) 1 None t
  | gq_question c b t :
      c = canonicalChar CHAR_QUESTION_MARK -> gquantifier ((c, b) :: t) 0 (Some 1) t
  | gq_brace c b t lo hi t' :
      c = canonicalChar CHAR_OPEN_BRACE -> gbrace t lo hi t' -> gquantifier ((c, b) :: t) lo hi t'.

(** *** Expressions *)

Definition term_end t : Prop :=
  match t with
  | (c, _) :: _ => c = canonicalChar CHAR_VERTICAL_BAR \/ c = canonicalChar CHAR_CLOSE_PAREN
  | [] => True
  end.

Inductive gexpr : list Sym -> regex -> list Sym -> Prop :=
  | gexpr_term t r t' : gterm t r t' -> not_next CHAR_VERTICAL_BAR t' -> gexpr t r t'
  | gexpr_alt t r1 c b t1 r2 t' :
      gterm t r1 ((c, b) :: t1) -> c = canonicalChar CHAR_VERTICAL_BAR -> gexpr t1 r2 t' ->
      gexpr t (RAlt r1 r2) t'
with gterm : list Sym -> regex -> list Sym -> Prop :=
  | gterm_end t : term_end t -> gterm t REps t
  | gterm_factor t r1 t1 r2 t' :
      ~ term_end t -> gfactor t r1 t1 -> gterm t1 r2 t' -> gterm t (RSeq r1 r2) t'
with gfactor : list Sym -> regex -> list Sym -> Prop :=
  | gfactor_primary t r t' : gprimary t r t' -> no_rep t' -> gfactor t r t'
  | gfactor_quantified t r t1 lo hi t' :
      gprimary t r t1 -> gquantifier t1 lo hi t' -> no_rep t' -> gfactor t (RRep r lo hi) t'
with gprimary : list Sym -> regex -> list Sym -> Prop :=
  | gprimary_any c b t : c = canonicalChar CHAR_UNDERLINE -> gprimary ((c, b) :: t) RAny t
  | gprimary_string c b t :
      c = canonicalChar CHAR_PERCENT -> gprimary ((c, b) :: t) (RRep RAny 0 None) t
  | gprimary_set c b t cs t' :
      c = canonicalChar CHAR_OPEN_BRACKET -> gelems false empty_set t cs t' ->
      gprimary ((c, b) :: t) (RSet cs) t'
  | gprimary_paren c b t r e be t' :
      c = canonicalChar CHAR_OPEN_PAREN -> gexpr t r ((e, be) :: t') ->
      e = canonicalChar CHAR_CLOSE_PAREN -> gprimary ((c, b) :: t) r t'
  | gprimary_escaped e be c b t :
      is_escape e -> escapable c -> gprimary ((e, be) :: (c, b) :: t) (RChar c) t
  | gprimary_char c b t :
      c ∉ metaCharacters escapeChar useEscape -> gprimary ((c, b) :: t) (RChar c) t.
End Grammar.
