(* ===== verification/SimilarRun.v ===== *)
(** * SIMILAR TO: what the machine does with a program

    A piece of program implements a relation between positions of the value: run
    from a position, it tries what follows it at the positions the relation
    allows, and fails, all counters restored, when none of them leads to a match.
    The layouts the compiler produces implement the operations of regular
    expressions. *)

From stdpp Require Import relations.
From S2P Require Import Prelude TextType SimilarTo SimilarSpec.

Section Run.
Context `{T : TextType} (bytes : list Z).

Abbreviation size := (bufferEnd bytes).

(** ** Evaluation of a node *)

Section Eval.
Context (nodes : list Node) (nb : nat).
Implicit Types (i j : nat) (p : Z) (rs : list Z) (rc : Z) (Q : Prop).

Definition steps : Machine -> Machine -> Prop :=
  rtc (fun m m' => match_step nodes bytes false m = Some (inl m')).

Definition state_of (b : bool) : MatchState := if b then msReturningTrue else msReturningFalse.

(** [m] comes to remove its top scope with the answer [b]. The counters are
    restored after a failure. *)
Definition returns (m : Machine) (S : list (NodePtr * option Z)) (b : bool) rs rc : Prop :=
  exists pos' rs' rc' br', steps m (mk_machine S (state_of b) pos' rs' rc' br') /\
    length br' = nb /\ length rs' = length rs /\ (b = false -> rs' = rs /\ rc' = rc).

(** Running from node [i] at position [p] ends, and succeeds exactly when [Q]. *)
Definition evalP i p rs rc Q : Prop :=
  exists b, (b = true <-> Q) /\
    forall sv S br, length br = nb ->
      returns (mk_machine ((PNode (Z.of_nat i), sv) :: S) msIterating p rs rc br) S b rs rc.

(** The same in the middle of an [opBranch], its first alternative about to run. *)
Definition evalB i p rs rc Q : Prop :=
  exists b, (b = true <-> Q) /\
    forall S br, length br = nb ->
      returns (mk_machine ((PNode (Z.of_nat (Datatypes.S i)), None) :: (PNode (Z.of_nat i), Some p) :: S)
                 msIterating p rs rc br) S b rs rc.

Definition code_at i (seg : list Node) : Prop :=
  exists pre post, nodes = pre ++ seg ++ post /\ length pre = i.

(** The branch numbers of a program have a place in [branches]. *)
Definition branch_ok (n : Node) : Prop := -1 <= n_branchNum n < Z.of_nat nb.

Lemma code_at_cons i n seg : code_at i (n :: seg) -> nodes @ (Z.of_nat i) = Some n /\ code_at (S i) seg.
Proof.
  intros (pre & post & E & <-). split.
  - rewrite aget_nat, E, lookup_app_r by lia. by rewrite Nat.sub_diag.
  - exists (pre ++ [n]), post. rewrite <- app_assoc. split; [done|]. len.
Qed.

Lemma code_at_app i s1 s2 : code_at i (s1 ++ s2) -> code_at i s1 /\ code_at (i + length s1) s2.
Proof.
  intros (pre & post & E & <-). rewrite <- app_assoc in E. split.
  - by exists pre, (s2 ++ post).
  - exists (pre ++ s1), post. rewrite <- !app_assoc. split; [done|]. len.
Qed.

Lemma evalP_iff i p rs rc Q Q' : (Q <-> Q') -> evalP i p rs rc Q -> evalP i p rs rc Q'.
Proof. intros HQ (b & Hb & H). exists b. split; [by rewrite <- HQ|done]. Qed.

Lemma evalB_iff i p rs rc Q Q' : (Q <-> Q') -> evalB i p rs rc Q -> evalB i p rs rc Q'.
Proof. intros HQ (b & Hb & H). exists b. split; [by rewrite <- HQ|done]. Qed.

Lemma returns_steps m m' S b rs rc : steps m m' -> returns m' S b rs rc -> returns m S b rs rc.
Proof.
  intros H (pos' & rs' & rc' & br' & H' & ?). exists pos', rs', rc', br'. split; [|done]. by etrans.
Qed.

Lemma returns_step m m' S b rs rc :
  match_step nodes bytes false m = Some (inl m') -> returns m' S b rs rc -> returns m S b rs rc.
Proof. intros H. apply returns_steps. by apply rtc_once. Qed.

Lemma returns_now S b pos rs rs' rc' br :
  length br = nb -> length rs' = length rs -> forall rc, (b = false -> rs' = rs /\ rc' = rc) ->
  returns (mk_machine S (state_of b) pos rs' rc' br) S b rs rc.
Proof. intros Hb Hl rc H. exists pos, rs', rc', br. by split; [apply rtc_refl|]. Qed.

(** A node that goes on at [test], or fails. *)
Lemma eval_test i p rs rc (test : option Z) Q Q' :
  (forall sv S br, match_step nodes bytes false (mk_machine ((PNode (Z.of_nat i), sv) :: S) msIterating p rs rc br) =
     Some (inl (match test with
                | Some p' => mk_machine ((PNode (Z.of_nat i + 1), sv) :: S) msIterating p' rs rc br
                | None => mk_machine S msReturningFalse p rs rc br end))) ->
  match test with Some p' => evalP (S i) p' rs rc Q' | None => ~ Q' end -> (Q <-> Q') ->
  evalP i p rs rc Q.
Proof.
  intros Hstep Ht HQ. apply (evalP_iff _ _ _ _ Q'); [done|]. destruct test as [p'|].
  - destruct Ht as (b & Hb & H). exists b. split; [done|]. intros sv S br Hbr.
    eapply returns_step; [apply Hstep|]. replace (Z.of_nat i + 1) with (Z.of_nat (Datatypes.S i)) by lia.
    by apply H.
  - exists false. split; [done|]. intros sv S br Hbr. eapply returns_step; [apply Hstep|].
    by apply (returns_now S false).
Qed.

(** ** The nodes *)

#[local] Ltac run_step H :=
  unfold match_step, mk_machine; cbn [m_scopes deref mbind option_bind]; rewrite H;
  cbn [mbind option_bind match_switch n_op Node_op Node_str Node_ref Node_rep m_state m_pos].

#[local] Ltac run_step_op H Hop :=
  run_step H; unfold match_switch; rewrite Hop; cbn [m_state m_pos mbind option_bind].

Lemma eval_nothing i p rs rc Q :
  nodes @ (Z.of_nat i) = Some (Node_op opNothing) -> evalP (S i) p rs rc Q -> evalP i p rs rc Q.
Proof.
  intros Hn HQ. apply (eval_test i p rs rc (Some p) Q Q); [|done..]. intros sv S br. by run_step Hn.
Qed.

Lemma eval_any i p rs rc Q :
  nodes @ (Z.of_nat i) = Some (Node_op opAny) ->
  (p < size -> evalP (S i) (p + 1) rs rc Q) -> evalP i p rs rc (p < size /\ Q).
Proof.
  intros Hn HQ.
  apply (eval_test i p rs rc (if decide (p >= size) then None else Some (p + 1)) _ (p < size /\ Q)).
  - intros sv S br. run_step Hn. by case_decide.
  - case_decide; [lia|]. apply (evalP_iff _ _ _ _ Q); [|apply HQ; lia]. split; [|tauto]. split; [lia|done].
  - done.
Qed.

Lemma eval_anyof n i p rs rc (m : bool) Q :
  nodes @ (Z.of_nat i) = Some n -> n_op n = opAnyOf -> (p < size -> any_of bytes n p = Some m) ->
  (p < size -> m = true -> evalP (S i) (p + 1) rs rc Q) ->
  evalP i p rs rc (p < size /\ m = true /\ Q).
Proof.
  intros Hn Hop Hm HQ.
  apply (eval_test i p rs rc (if decide (p >= size) then None else if m then Some (p + 1) else None)
           _ (p < size /\ m = true /\ Q)).
  - intros sv S br. run_step_op Hn Hop. case_decide; [done|]. rewrite Hm by lia. by destruct m.
  - case_decide; [lia|]. destruct m; [|by intros (_ & ? & _)].
    apply (evalP_iff _ _ _ _ Q); [|apply HQ; [lia|done]]. split; [|tauto]. split; [lia|done].
  - done.
Qed.

Lemma eval_exactly n i p rs rc Q :
  nodes @ (Z.of_nat i) = Some n -> n_op n = opExactly ->
  (exactly bytes n p = true -> evalP (S i) (p + n_len n) rs rc Q) ->
  evalP i p rs rc (exactly bytes n p = true /\ Q).
Proof.
  intros Hn Hop HQ. set (t := exactly bytes n p) in *.
  apply (eval_test i p rs rc (if t then Some (p + n_len n) else None) _ (t = true /\ Q)).
  - intros sv S br. run_step_op Hn Hop. fold t. by destruct t.
  - destruct t; [|by intros [? _]]. apply (evalP_iff _ _ _ _ Q); [|by apply HQ]. tauto.
  - done.
Qed.

Lemma eval_exactly_one n c str i p rs rc Q :
  nodes @ (Z.of_nat i) = Some n -> n_op n = opExactlyOne -> n_str n = c :: str -> 0 <= p ->
  (buffer bytes @ p = Some c -> evalP (S i) (p + 1) rs rc Q) ->
  evalP i p rs rc (buffer bytes @ p = Some c /\ Q).
Proof.
  intros Hn Hop Hstr Hp HQ.
  apply (eval_test i p rs rc (if decide (buffer bytes @ p = Some c) then Some (p + 1) else None)
           _ (buffer bytes @ p = Some c /\ Q)).
  - intros sv S br. run_step_op Hn Hop. rewrite Hstr. cbn [head mbind option_bind].
    destruct (decide (size - p >= 1)) as [Hs|Hs].
    + destruct (buffer bytes @ p) as [ch|] eqn:Hch; cbn [mbind option_bind].
      * destruct (decide (c = ch)) as [->|Hc]; [by rewrite decide_True|].
        rewrite decide_False by congruence. done.
      * exfalso. assert (Hi : is_Some (buffer bytes @ p)) by (apply aget_is_Some; unfold bufferEnd in Hs; lia).
        rewrite Hch in Hi. by destruct Hi.
    + rewrite decide_False; [done|]. intros Hch%aget_lt_Some. unfold bufferEnd in Hs. lia.
  - case_decide as Hc; [|tauto]. apply (evalP_iff _ _ _ _ Q); [tauto|by apply HQ].
  - done.
Qed.

Lemma eval_start i p rs rc Q :
  nodes @ (Z.of_nat i) = Some (Node_op opStart) ->
  (p = 0 -> evalP (S i) p rs rc Q) -> evalP i p rs rc (p = 0 /\ Q).
Proof.
  intros Hn HQ.
  apply (eval_test i p rs rc (if decide (p <> 0) then None else Some p) _ (p = 0 /\ Q)).
  - intros sv S br. run_step Hn. by case_decide.
  - case_decide; [tauto|]. apply (evalP_iff _ _ _ _ Q); [tauto|]. apply HQ. lia.
  - done.
Qed.

Lemma eval_end i p rs rc :
  nodes @ (Z.of_nat i) = Some (Node_op opEnd) -> evalP i p rs rc (p = size).
Proof.
  intros Hn. exists (bool_decide (p = size)). split; [apply bool_decide_eq_true|].
  intros sv S br Hbr. eapply returns_step; [|by apply returns_now].
  run_step Hn. unfold sw_return. cbn. by case_bool_decide.
Qed.

(** *** References and branches *)

Lemma set_branch_ok (b : Z) (v : Z * Z -> Z * Z) (br : list (Z * Z)) :
  -1 <= b < Z.of_nat nb -> length br = nb ->
  exists br', length br' = nb /\ (if decide (b = -1) then Some br else x ← br @ b; aset br b (v x)) = Some br'.
Proof.
  intros Hb Hl. case_decide; [by exists br|].
  destruct (proj2 (aget_is_Some br b)) as [x Hx]; [lia|]. rewrite Hx. cbn [mbind option_bind].
  rewrite aset_in by lia. eexists. split; [|done]. by rewrite length_insert.
Qed.

Lemma eval_ref n i j p rs rc Q :
  nodes @ (Z.of_nat i) = Some n -> n_op n = opRef -> branch_ok n ->
  Z.of_nat i + n_ref n = Z.of_nat j -> evalP j p rs rc Q -> evalP i p rs rc Q.
Proof.
  intros Hn Hop Hb Hj (b & HbQ & H). exists b. split; [done|]. intros sv S br Hbr.
  destruct (set_branch_ok (n_branchNum n) (fun x => (x.1, p - x.1)) br Hb Hbr) as (br' & Hl & Hbr').
  eapply returns_step; [|by apply H]. run_step_op Hn Hop. unfold sw_ref. cbn [m_state m_pos m_branches].
  unfold set_branch_length. rewrite Hbr'. cbn [mbind option_bind ptr_add]. by rewrite Hj.
Qed.

Lemma eval_branch n i p rs rc Q :
  nodes @ (Z.of_nat i) = Some n -> n_op n = opBranch -> branch_ok n ->
  evalB i p rs rc Q -> evalP i p rs rc Q.
Proof.
  intros Hn Hop Hb (b & HbQ & H). exists b. split; [done|]. intros sv S br Hbr.
  destruct (set_branch_ok (n_branchNum n) (fun x => (p, x.2)) br Hb Hbr) as (br' & Hl & Hbr').
  eapply returns_step; [|by apply H]. run_step_op Hn Hop. unfold sw_branch. cbn [m_state m_pos m_branches].
  unfold set_branch_start. rewrite Hbr'. cbn [mbind option_bind ptr_add].
  by replace (Z.of_nat i + 1) with (Z.of_nat (Datatypes.S i)) by lia.
Qed.

(** What happens after the first alternative of a branch at [i] failed. *)
Lemma evalB_intro n i p rs rc Q1 Q2 :
  nodes @ (Z.of_nat i) = Some n -> n_op n = opBranch -> evalP (S i) p rs rc Q1 ->
  (exists b2, (b2 = true <-> Q2) /\ forall S br, length br = nb ->
     returns (mk_machine ((PNode (Z.of_nat i), Some p) :: S) msReturningFalse p rs rc br) S b2 rs rc) ->
  evalB i p rs rc (Q1 \/ Q2).
Proof.
  intros Hn Hop (b1 & Hb1 & H1) (b2 & Hb2 & H2). exists (b1 || b2).
  split; [rewrite orb_true_iff; tauto|]. intros S br Hbr.
  destruct (H1 None ((PNode (Z.of_nat i), Some p) :: S) br Hbr) as (p1 & rs1 & rc1 & br1 & Hst & Hl1 & Hr1 & Hf1).
  eapply returns_steps; [exact Hst|]. destruct b1.
  - eapply returns_step; [|by apply (returns_now S true)].
    run_step_op Hn Hop. unfold sw_branch. cbn. done.
  - destruct (Hf1 eq_refl) as [-> ->]. destruct (H2 S br1 Hl1) as (p2 & rs2 & rc2 & br2 & Hst2 & H3).
    exists p2, rs2, rc2, br2. split; [|exact H3].
    (* the position is reset before it is used *)
    apply rtc_inv in Hst2 as [Heq|(m2 & Hm2 & Hst2)].
    + exfalso. apply (f_equal (length ∘ m_scopes)) in Heq. simpl in Heq. lia.
    + eapply rtc_l; [|exact Hst2]. rewrite <- Hm2. run_step_op Hn Hop. done.
Qed.

Lemma evalB_last n i p rs rc Q :
  nodes @ (Z.of_nat i) = Some n -> n_op n = opBranch -> n_ref n = 0 ->
  evalP (S i) p rs rc Q -> evalB i p rs rc Q.
Proof.
  intros Hn Hop Href HQ. destruct (evalB_intro n i p rs rc Q False Hn Hop HQ) as (b & Hb & H).
  - exists false. split; [done|]. intros S br Hbr. eapply returns_step; [|by apply (returns_now S false)].
    run_step_op Hn Hop. unfold sw_branch. cbn. by rewrite Href.
  - exists b. split; [rewrite Hb; tauto|done].
Qed.

(** The next alternative is the last: it runs in the scope of the branch. *)
Lemma evalB_next_last n i j n2 p rs rc Q1 Q2 :
  nodes @ (Z.of_nat i) = Some n -> n_op n = opBranch -> n_ref n <> 0 ->
  Z.of_nat i + n_ref n = Z.of_nat j -> nodes @ (Z.of_nat j) = Some n2 -> n_ref n2 = 0 ->
  evalP (S i) p rs rc Q1 -> evalP (S j) p rs rc Q2 -> evalB i p rs rc (Q1 \/ Q2).
Proof.
  intros Hn Hop Href Hj Hn2 Href2 H1 (b2 & Hb2 & H2).
  apply (evalB_intro n); [done..|]. exists b2. split; [done|]. intros S br Hbr.
  eapply returns_step; [|by apply (H2 (Some p))].
  run_step_op Hn Hop. unfold sw_branch. cbn [m_state mbind option_bind].
  rewrite decide_True by done. cbn [ptr_add mbind option_bind deref]. rewrite Hj, Hn2.
  cbn [mbind option_bind]. rewrite decide_False by lia. cbn.
  by replace (Z.of_nat j + 1) with (Z.of_nat (Datatypes.S j)) by lia.
Qed.

Lemma evalB_next n i j n2 p rs rc Q1 Q2 :
  nodes @ (Z.of_nat i) = Some n -> n_op n = opBranch -> n_ref n <> 0 ->
  Z.of_nat i + n_ref n = Z.of_nat j -> nodes @ (Z.of_nat j) = Some n2 -> n_ref n2 <> 0 ->
  evalP (S i) p rs rc Q1 -> evalB j p rs rc Q2 -> evalB i p rs rc (Q1 \/ Q2).
Proof.
  intros Hn Hop Href Hj Hn2 Href2 H1 (b2 & Hb2 & H2).
  apply (evalB_intro n); [done..|]. exists b2. split; [done|]. intros S br Hbr.
  eapply returns_step; [|by apply H2].
  run_step_op Hn Hop. unfold sw_branch. cbn [m_state mbind option_bind].
  rewrite decide_True by done. cbn [ptr_add mbind option_bind deref]. rewrite Hj, Hn2.
  cbn [mbind option_bind]. rewrite decide_True by done. cbn [ptr_add mbind option_bind].
  by replace (Z.of_nat j + 1) with (Z.of_nat (Datatypes.S j)) by lia.
Qed.
(** *** Repetition with a counter *)

Fixpoint iter_rel (c : nat) (R : Z -> Z -> Prop) (p p' : Z) : Prop :=
  match c with
  | O => p' = p
  | S c => exists m, R p m /\ iter_rel c R m p'
  end.

Lemma eval_repeat_end n i e rc0 rs K (R : Z -> Z -> Prop) :
  nodes @ (Z.of_nat e) = Some n -> n_op n = opRepeatingRefEnd ->
  Z.of_nat e + (n_ref n + 1) = Z.of_nat (S i) ->
  (forall p c (K : Z -> Prop), 0 <= p <= size ->
     (forall p', R p p' -> evalP e p' (rc0 :: rs) c (K p')) ->
     evalP (S i) p (rc0 :: rs) c (exists p', R p p' /\ K p')) ->
  (forall p p', 0 <= p <= size -> R p p' -> p <= p' <= size) ->
  forall c p, 0 <= p <= size ->
  (forall p', iter_rel c R p p' -> evalP (S e) p' rs rc0 (K p')) ->
  evalP e p (rc0 :: rs) (Z.of_nat c) (exists p', iter_rel c R p p' /\ K p').
Proof.
  intros Hn Hop Hj Hbody HR. induction c as [|c IH]; intros p Hp HK.
  - destruct (HK p eq_refl) as (b & Hb & H). exists b. split.
    { rewrite Hb. split; [by exists p|by intros (? & -> & ?)]. }
    intros sv S br Hbr.
    destruct (H None ((PRepeatingRestore, None) :: (PNode (Z.of_nat e), sv) :: S) br Hbr)
      as (p1 & rs1 & rc1 & br1 & Hst & Hl & Hr & Hf).
    apply (returns_step _ (mk_machine ((PNode (Z.of_nat (Datatypes.S e)), None) ::
      (PRepeatingRestore, None) :: (PNode (Z.of_nat e), sv) :: S) msIterating p rs rc0 br)).
    { run_step_op Hn Hop. unfold sw_repeat_end. cbn.
      by replace (Z.of_nat e + 1) with (Z.of_nat (Datatypes.S e)) by lia. }
    eapply returns_steps; [exact Hst|].
    apply (returns_step _ (mk_machine ((PNode (Z.of_nat e), sv) :: S) (state_of b) p1 (rc1 :: rs1) (-1) br1)).
    { by destruct b. }
    apply (returns_step _ (mk_machine S (state_of b) p1 (rc1 :: rs1) (if b then -1 else 0) br1)).
    { run_step_op Hn Hop. unfold sw_repeat_end. by destruct b. }
    apply returns_now; [done|simpl; lia|]. intros ->. by destruct (Hf eq_refl) as [-> ->].
  - destruct (Hbody p (Z.of_nat c) (fun m => exists p', iter_rel c R m p' /\ K p')) as (b & Hb & H); [done|..].
    { intros m Hm. apply IH; [specialize (HR p m Hp Hm); lia|]. intros p' Hp'. apply HK. by exists m. }
    exists b. split.
    { rewrite Hb. simpl. split.
      - intros (m & Hm & p' & Hp' & Hk). exists p'. eauto.
      - intros (p' & (m & Hm & Hp') & Hk). eauto. }
    intros sv S br Hbr.
    destruct (H None ((PNode (Z.of_nat e), sv) :: S) br Hbr) as (p1 & rs1 & rc1 & br1 & Hst & Hl & Hr & Hf).
    apply (returns_step _ (mk_machine ((PNode (Z.of_nat (Datatypes.S i)), None) ::
      (PNode (Z.of_nat e), sv) :: S) msIterating p (rc0 :: rs) (Z.of_nat c) br)).
    { run_step_op Hn Hop. unfold sw_repeat_end. cbn [m_state m_repeatCount].
      rewrite decide_True by lia. cbn [ptr_add mbind option_bind]. rewrite Hj. unfold mk_machine.
      cbn [m_scopes m_pos m_repeatStack m_branches].
      by replace (Z.of_nat (Datatypes.S c) - 1) with (Z.of_nat c) by lia. }
    eapply returns_steps; [exact Hst|].
    apply (returns_step _ (mk_machine S (state_of b) p1 rs1 (if b then rc1 else rc1 + 1) br1)).
    { run_step_op Hn Hop. unfold sw_repeat_end. by destruct b. }
    apply returns_now; [done|done|]. intros ->. destruct (Hf eq_refl) as [-> ->]. split; [done|lia].
Qed.

Lemma eval_repeat_start n i e p rs rc Q :
  nodes @ (Z.of_nat i) = Some n -> n_op n = opRepeatingRefStart ->
  Z.of_nat i + n_ref n = Z.of_nat e ->
  evalP e p (rc :: rs) (n_len n) Q -> evalP i p rs rc Q.
Proof.
  intros Hn Hop Hj (b & Hb & H). exists b. split; [done|]. intros sv S br Hbr.
  destruct (H None ((PNode (Z.of_nat i), sv) :: S) br Hbr) as (p1 & rs1 & rc1 & br1 & Hst & Hl & Hr & Hf).
  eapply returns_step.
  { run_step_op Hn Hop. unfold sw_repeat_start. cbn [m_state ptr_add mbind option_bind]. rewrite Hj. done. }
  eapply returns_steps; [exact Hst|]. destruct rs1 as [|r rs1]; [done|].
  apply (returns_step _ (mk_machine S (state_of b) p1 rs1 r br1)).
  { run_step_op Hn Hop. unfold sw_repeat_start. by destruct b. }
  apply returns_now; [done|simpl in *; lia|]. intros ->. destruct (Hf eq_refl) as [E _]. by simplify_eq.
Qed.
End Eval.

(** ** Pieces of program *)

Definition posrel (R : Z -> Z -> Prop) : Prop :=
  forall p p', 0 <= p <= size -> R p p' -> p <= p' <= size.

Definition implements (seg : list Node) (R : Z -> Z -> Prop) : Prop :=
  forall nodes nb i p rs rc K,
    code_at nodes i seg -> Forall (branch_ok nb) seg -> 0 <= p <= size ->
    (forall p', R p p' -> evalP nodes nb (i + length seg) p' rs rc (K p')) ->
    evalP nodes nb i p rs rc (exists p', R p p' /\ K p').

Definition seq_rel (R1 R2 : Z -> Z -> Prop) (p p' : Z) : Prop := exists m, R1 p m /\ R2 m p'.
Definition or_rel (R1 R2 : Z -> Z -> Prop) (p p' : Z) : Prop := R1 p p' \/ R2 p p'.

Lemma implements_iff seg R R' :
  (forall p p', 0 <= p <= size -> R p p' <-> R' p p') -> implements seg R -> implements seg R'.
Proof.
  intros HR H nodes nb i p rs rc K Hc Hb Hp HK. apply (evalP_iff _ _ _ _ _ _ (exists p', R p p' /\ K p')).
  - split; intros (p' & ? & ?); exists p'; by rewrite ?HR, <- ?HR in *.
  - apply H; [done..|]. intros p' Hp'. apply HK. by apply HR.
Qed.

Lemma implements_nil : implements [] (fun p p' => p' = p).
Proof.
  intros nodes nb i p rs rc K Hc Hb Hp HK. apply (evalP_iff _ _ _ _ _ _ (K p)).
  - split; [by exists p|by intros (? & -> & ?)].
  - specialize (HK p eq_refl). simpl in HK. by rewrite Nat.add_0_r in HK.
Qed.

Lemma implements_app s1 s2 R1 R2 :
  posrel R1 -> implements s1 R1 -> implements s2 R2 -> implements (s1 ++ s2) (seq_rel R1 R2).
Proof.
  intros HR H1 H2 nodes nb i p rs rc K [Hc1 Hc2]%code_at_app [Hb1 Hb2]%Forall_app Hp HK.
  eapply evalP_iff; [|apply (H1 nodes nb i p rs rc (fun m => exists p', R2 m p' /\ K p')); [done..|]].
  - split.
    + intros (m & ? & p' & ? & ?). exists p'. split; [by exists m|done].
    + intros (p' & (m & ? & ?) & ?). eauto.
  - intros m Hm. apply H2; [done..|specialize (HR _ _ Hp Hm); lia|]. intros p' Hp'.
    specialize (HK p' ltac:(by exists m)). by rewrite length_app, Nat.add_assoc in HK.
Qed.

(** *** Quantifiers *)

Definition star_code (body : list Node) : list Node :=
  Node_ref opBranch (Z.of_nat (length body) + 2) ::
    body ++ [Node_ref opRef (- Z.of_nat (length body) - 1); Node_op opBranch].

Definition plus_code (body : list Node) : list Node :=
  body ++ [Node_ref opBranch 2; Node_ref opRef (- Z.of_nat (length body) - 1); Node_op opBranch].

Definition question_code (body : list Node) : list Node :=
  Node_ref opBranch (Z.of_nat (length body) + 1) :: body ++ [Node_op opBranch].

Definition rep_code (c : Z) (body : list Node) : list Node :=
  Node_rep opRepeatingRefStart c 0 (Z.of_nat (length body) + 1) ::
    body ++ [Node_ref opRepeatingRefEnd (- Z.of_nat (length body) - 1)].

Definition iters (lo : nat) (R : Z -> Z -> Prop) (p p' : Z) : Prop :=
  exists c, (lo <= c)%nat /\ iter_rel c R p p'.

Lemma branch_ok_minus nb n : n_branchNum n = -1 -> branch_ok nb n.
Proof. unfold branch_ok. lia. Qed.

#[local] Hint Resolve branch_ok_minus : core.

Lemma iters_step R p p' : iters 0 R p p' <-> p' = p \/ exists m, R p m /\ iters 0 R m p'.
Proof.
  split.
  - intros ([|c] & _ & H); [by left|]. destruct H as (m & Hm & H). right. exists m. split; [done|].
    exists c. split; [lia|done].
  - intros [->|(m & Hm & c & _ & H)]; [by exists 0%nat|]. exists (S c). split; [lia|]. by exists m.
Qed.

Lemma implements_star body R :
  posrel R -> (forall p, 0 <= p <= size -> ~ R p p) -> implements body R ->
  implements (star_code body) (iters 0 R).
Proof.
  intros HR Hne Hbody nodes nb i p rs rc K Hc Hb Hp HK.
  pose proof (code_at_cons _ _ _ _ Hc) as [Hn1 Hc'].
  apply code_at_app in Hc' as [Hcb [Hn2 [Hn3 _]%code_at_cons]%code_at_cons].
  apply Forall_cons in Hb as [_ [Hbb _]%Forall_app].
  remember (Z.to_nat (size - p)) as fuel eqn:Hf. revert p Hp HK Hf.
  induction fuel as [fuel IH] using lt_wf_ind. intros p Hp HK ->.
  apply (evalP_iff _ _ _ _ _ _ ((exists m, R p m /\ exists p', iters 0 R m p' /\ K p') \/ K p)).
  { split.
    - intros [(m & Hm & p' & Hp' & Hk)|Hk]; [|exists p; split; [by apply iters_step; left|done]].
      exists p'. split; [|done]. apply iters_step. right. eauto.
    - intros (p' & [->|(m & ? & ?)]%iters_step & Hk); [by right|left; eauto]. }
  eapply eval_branch; [exact Hn1|done|by apply branch_ok_minus|].
  eapply evalB_next_last with (j := S (S i + length body)); [exact Hn1|done|simpl; lia|simpl; lia|exact Hn3|done|..].
  - apply (Hbody nodes nb (S i) p rs rc (fun m => exists p', iters 0 R m p' /\ K p')); [done..|].
    intros m Hm. eapply eval_ref with (j := i); [exact Hn2|done|by apply branch_ok_minus|simpl; lia|].
    pose proof (HR _ _ Hp Hm). assert (m <> p) by (intros ->; by apply (Hne p)).
    eapply IH; [|lia| |reflexivity].
    { lia. }
    intros p' Hp'. apply HK. apply iters_step. right. eauto.
  - specialize (HK p). unfold star_code in HK.
    replace (i + length _)%nat with (S (S (S i + length body))) in HK by (rewrite length_cons, length_app; simpl; lia).
    apply HK. by apply iters_step; left.
Qed.

Lemma implements_plus body R :
  posrel R -> (forall p, 0 <= p <= size -> ~ R p p) -> implements body R ->
  implements (plus_code body) (iters 1 R).
Proof.
  intros HR Hne Hbody nodes nb i p rs rc K Hc Hb Hp HK.
  pose proof (code_at_app _ _ _ _ Hc) as [Hcb [Hn1 [Hn2 [Hn3 _]%code_at_cons]%code_at_cons]%code_at_cons].
  apply Forall_app in Hb as [Hbb _].
  assert (Hsteps : forall p p', iters 1 R p p' <-> exists m, R p m /\ iters 0 R m p').
  { intros q q'. split.
    - intros ([|c] & ? & H); [lia|]. destruct H as (m & Hm & H). exists m. split; [done|].
      exists c. split; [lia|done].
    - intros (m & Hm & c & _ & H). exists (S c). split; [lia|]. by exists m. }
  remember (Z.to_nat (size - p)) as fuel eqn:Hf. revert p Hp HK Hf.
  induction fuel as [fuel IH] using lt_wf_ind. intros p Hp HK ->.
  apply (evalP_iff _ _ _ _ _ _ (exists m, R p m /\ ((exists p', iters 1 R m p' /\ K p') \/ K m))).
  { split.
    - intros (m & Hm & [(p' & Hp' & Hk)|Hk]).
      + exists p'. split; [|done]. apply Hsteps. exists m. split; [done|].
        apply iters_step. right. by apply Hsteps.
      + exists m. split; [|done]. apply Hsteps. exists m. split; [done|]. by apply iters_step; left.
    - intros (p' & (m & Hm & [->|Hp']%iters_step)%Hsteps & Hk); [eauto|]. exists m. split; [done|].
      left. exists p'. split; [by apply Hsteps|done]. }
  apply Hbody; [done..|]. intros m Hm. pose proof (HR _ _ Hp Hm).
  assert (m <> p) by (intros ->; by apply (Hne p)).
  eapply eval_branch; [exact Hn1|done|by apply branch_ok_minus|].
  eapply evalB_next_last with (j := S (S (i + length body))); [exact Hn1|done|simpl; lia|simpl; lia|exact Hn3|done|..].
  - eapply eval_ref with (j := i); [exact Hn2|done|by apply branch_ok_minus|simpl; lia|].
    eapply IH; [|lia| |reflexivity].
    { lia. }
    intros p' Hp'. apply HK. apply Hsteps. exists m. split; [done|]. apply iters_step. right. by apply Hsteps.
  - specialize (HK m). unfold plus_code in HK.
    replace (i + length _)%nat with (S (S (S (i + length body)))) in HK by (rewrite length_app; simpl; lia).
    apply HK. apply Hsteps. exists m. split; [done|]. by apply iters_step; left.
Qed.

Lemma implements_question body R :
  implements body R -> implements (question_code body) (fun p p' => R p p' \/ p' = p).
Proof.
  intros Hbody nodes nb i p rs rc K Hc Hb Hp HK.
  pose proof (code_at_cons _ _ _ _ Hc) as [Hn1 Hc'].
  apply code_at_app in Hc' as [Hcb [Hn2 _]%code_at_cons].
  apply Forall_cons in Hb as [_ [Hbb _]%Forall_app].
  unfold question_code in HK.
  replace (i + length _)%nat with (S (S i + length body)) in HK by (rewrite length_cons, length_app; simpl; lia).
  apply (evalP_iff _ _ _ _ _ _ ((exists m, R p m /\ K m) \/ K p)).
  { split.
    - intros [(m & Hm & Hk)|Hk]; [exists m; split; [by left|done]|exists p; split; [by right|done]].
    - intros (m & [Hm| ->] & Hk); [left; eauto|by right]. }
  eapply eval_branch; [exact Hn1|done|by apply branch_ok_minus|].
  eapply evalB_next_last with (j := (S i + length body)%nat); [exact Hn1|done|simpl; lia|simpl; lia|exact Hn2|done|..].
  - apply Hbody; [done..|]. intros m Hm. eapply eval_branch; [exact Hn2|done|by apply branch_ok_minus|].
    eapply evalB_last; [exact Hn2|done|done|]. apply HK. by left.
  - apply HK. by right.
Qed.

Lemma implements_rep c body R :
  posrel R -> implements body R -> implements (rep_code (Z.of_nat c) body) (iter_rel c R).
Proof.
  intros HR Hbody nodes nb i p rs rc K Hc Hb Hp HK.
  pose proof (code_at_cons _ _ _ _ Hc) as [Hn1 Hc'].
  apply code_at_app in Hc' as [Hcb [Hn2 _]%code_at_cons].
  apply Forall_cons in Hb as [_ [Hbb _]%Forall_app].
  unfold rep_code in HK.
  replace (i + length _)%nat with (S (S i + length body)) in HK by (rewrite length_cons, length_app; simpl; lia).
  eapply eval_repeat_start with (e := (S i + length body)%nat); [exact Hn1|done|simpl; lia|].
  eapply eval_repeat_end with (i := i); [exact Hn2|done|simpl; lia| |exact HR|done|exact HK].
  intros q c' K' Hq HK'. by apply Hbody.
Qed.

(** *** Single nodes *)

Lemma implements_nothing : implements [Node_op opNothing] (fun p p' => p' = p).
Proof.
  intros nodes nb i p rs rc K [Hn _]%code_at_cons Hb Hp HK.
  apply (evalP_iff _ _ _ _ _ _ (K p)); [split; [by exists p|by intros (? & -> & ?)]|].
  apply eval_nothing; [done|]. specialize (HK p eq_refl). simpl in HK. by rewrite Nat.add_1_r in HK.
Qed.

Lemma implements_any : implements [Node_op opAny] (fun p p' => p < size /\ p' = p + 1).
Proof.
  intros nodes nb i p rs rc K [Hn _]%code_at_cons Hb Hp HK. simpl in HK. rewrite Nat.add_1_r in HK.
  apply (evalP_iff _ _ _ _ _ _ (p < size /\ K (p + 1))).
  { split; [intros [? ?]; eauto|by intros (? & [? ->] & ?)]. }
  apply eval_any; [done|]. intros Hlt. by apply HK.
Qed.

Lemma implements_anyof n (mem : Z -> bool) :
  n_op n = opAnyOf -> (forall p, 0 <= p < size -> any_of bytes n p = Some (mem p)) ->
  implements [n] (fun p p' => p < size /\ mem p = true /\ p' = p + 1).
Proof.
  intros Hop Hm nodes nb i p rs rc K [Hn _]%code_at_cons Hb Hp HK. simpl in HK. rewrite Nat.add_1_r in HK.
  apply (evalP_iff _ _ _ _ _ _ (p < size /\ mem p = true /\ K (p + 1))).
  { split; [intros (? & ? & ?); eauto|intros (? & (? & ? & ->) & ?); done]. }
  eapply eval_anyof; [done|done|intros ?; apply Hm; lia|]. intros Hlt Ht. by apply HK.
Qed.

Lemma implements_exactly n :
  n_op n = opExactly ->
  implements [n] (fun p p' => exactly bytes n p = true /\ p' = p + n_len n).
Proof.
  intros Hop nodes nb i p rs rc K [Hn _]%code_at_cons Hb Hp HK. simpl in HK. rewrite Nat.add_1_r in HK.
  apply (evalP_iff _ _ _ _ _ _ (exactly bytes n p = true /\ K (p + n_len n))).
  { split; [intros (? & ?); eauto|intros (? & (? & ->) & ?); done]. }
  eapply eval_exactly; [done..|]. intros He. by apply HK.
Qed.

Lemma implements_exactly_one n c str :
  n_op n = opExactlyOne -> n_str n = c :: str ->
  implements [n] (fun p p' => buffer bytes @ p = Some c /\ p' = p + 1).
Proof.
  intros Hop Hstr nodes nb i p rs rc K [Hn _]%code_at_cons Hb Hp HK. simpl in HK. rewrite Nat.add_1_r in HK.
  apply (evalP_iff _ _ _ _ _ _ (buffer bytes @ p = Some c /\ K (p + 1))).
  { split; [intros (? & ?); eauto|intros (? & (? & ->) & ?); done]. }
  eapply eval_exactly_one; [done..|lia|]. intros He. by apply HK.
Qed.

(** *** Alternatives *)

Definition alt_branch (bn ref : Z) : Node := set_ref (set_branchNum (Node_op opBranch) bn) ref.
Definition alt_ref (bn ref : Z) : Node := set_ref (set_branchNum (Node_op opRef) bn) ref.

Fixpoint alts_code (alts : list (Z * list Node)) : list Node :=
  match alts with
  | [] => []
  | (bn, s) :: rest =>
      alt_branch bn (match rest with [] => 0 | _ => Z.of_nat (length s) + 2 end) ::
        s ++ alt_ref bn (Z.of_nat (length (alts_code rest)) + 1) :: alts_code rest
  end.

(** One alternative, up to the end of all. *)
Lemma eval_alternative nodes nb i e k bn s R p rs rc K :
  implements s R -> code_at nodes i (s ++ [alt_ref bn k]) ->
  Forall (branch_ok nb) (s ++ [alt_ref bn k]) -> 0 <= p <= size ->
  Z.of_nat (i + length s) + k = Z.of_nat e ->
  (forall p', R p p' -> evalP nodes nb e p' rs rc (K p')) ->
  evalP nodes nb i p rs rc (exists p', R p p' /\ K p').
Proof.
  intros Hs [Hc [Hn _]%code_at_cons]%code_at_app [Hb1 [Hb2 _]%Forall_cons]%Forall_app Hp He HK.
  apply Hs; [done..|]. intros m Hm. eapply eval_ref with (j := e); [exact Hn|done|done|simpl; lia|]. by apply HK.
Qed.

Lemma ex_next (R : Z -> Z -> Prop) Rs (K : Z -> Prop) p :
  (exists p', R p p' /\ K p') \/
    (exists p', Exists (fun R : Z -> Z -> Prop => R p p') Rs /\ K p') <->
  exists p', Exists (fun R : Z -> Z -> Prop => R p p') (R :: Rs) /\ K p'.
Proof.
  split.
  - intros [(p' & H & Hk)|(p' & H & Hk)]; exists p'; (split; [|done]); [by left|by right].
  - intros (p' & [H|H]%Exists_cons & Hk); [left|right]; by exists p'.
Qed.

Lemma ex_last (R : Z -> Z -> Prop) (K : Z -> Prop) p :
  (exists p', R p p' /\ K p') <->
  exists p', Exists (fun R : Z -> Z -> Prop => R p p') [R] /\ K p'.
Proof.
  rewrite <- ex_next. split; [by left|]. intros [?|(p' & H & _)]; [done|].
  by apply Exists_nil in H.
Qed.

Lemma eval_alternatives nodes nb alts Rs i p rs rc K :
  Forall2 (fun a R => implements a.2 R) alts Rs -> alts <> [] ->
  code_at nodes i (alts_code alts) -> Forall (branch_ok nb) (alts_code alts) -> 0 <= p <= size ->
  (forall p', Exists (fun R => R p p') Rs -> evalP nodes nb (i + length (alts_code alts)) p' rs rc (K p')) ->
  evalB nodes nb i p rs rc (exists p', Exists (fun R : Z -> Z -> Prop => R p p') Rs /\ K p').
Proof.
  intros Himp. revert i K. induction Himp as [|[bn s] R alts Rs Hs Himp IH]; intros i K Hne Hc Hb Hp HK; [done|].
  simpl in Hs. cbn [alts_code] in Hc, Hb, HK.
  pose proof (code_at_cons _ _ _ _ Hc) as [Hn Hc']. apply Forall_cons in Hb as [_ Hb].
  rewrite cons_middle, app_assoc in Hc', Hb. pose proof (code_at_app _ _ _ _ Hc') as [Hc1 Hc2].
  pose proof Hb as [Hb1 Hb2]%Forall_app.
  rewrite length_cons, length_app, length_cons in HK.
  assert (H1 : evalP nodes nb (S i) p rs rc (exists p', R p p' /\ K p')).
  { eapply eval_alternative; [exact Hs|done|done|done| |intros p' Hp'; apply HK; by left]. lia. }
  destruct Himp as [|[bn2 s2] R2 alts Rs Hs2 Himp].
  - apply (evalB_iff _ _ _ _ _ _ (exists p', R p p' /\ K p')).
    { apply ex_last. }
    eapply evalB_last; [exact Hn|done|done|done].
  - apply (evalB_iff _ _ _ _ _ _ ((exists p', R p p' /\ K p') \/
      (exists p', Exists (fun R : Z -> Z -> Prop => R p p') (R2 :: Rs) /\ K p'))).
    { apply ex_next. }
    rewrite length_app in Hc2. cbn [length] in Hc2.
    pose proof Hc2 as [Hn2 Hc3]%code_at_cons.
    assert (Hj : Z.of_nat i + (Z.of_nat (length s) + 2) = Z.of_nat (S i + (length s + 1))) by lia.
    assert (HK2 : forall p', Exists (fun R : Z -> Z -> Prop => R p p') (R2 :: Rs) ->
      evalP nodes nb (S i + (length s + 1) + length (alts_code ((bn2, s2) :: alts))) p' rs rc (K p')).
    { intros p' Hp'. specialize (HK p' ltac:(by right)).
      replace (S i + (length s + 1) + _)%nat with (i + S (length s + S (length (alts_code ((bn2, s2) :: alts)))))%nat by lia.
      done. }
    destruct alts as [|a3 alts].
    + eapply evalB_next_last with (j := (S i + (length s + 1))%nat);
        [exact Hn|done|simpl; lia|exact Hj|exact Hn2|done|done|].
      apply Forall_cons in Hb2 as [_ Hb2]. cbn [alts_code] in *.
      inversion Himp; subst.
      apply (evalP_iff _ _ _ _ _ _ (exists p', R2 p p' /\ K p')).
      { apply ex_last. }
      eapply (eval_alternative _ _ _ (S (S i + (length s + 1)) + S (length s2))); [exact Hs2|done..|simpl; lia|].
      intros p' Hp'. specialize (HK2 p' ltac:(by left)). rewrite length_cons, length_app in HK2. simpl in HK2.
      replace (S (S i + (length s + 1)) + S (length s2))%nat with (S (i + (length s + 1) + S (length s2 + 1)))%nat by lia.
      done.
    + eapply evalB_next with (j := (S i + (length s + 1))%nat);
        [exact Hn|done|simpl; lia|exact Hj|exact Hn2|simpl; lia|done|]. by apply IH.
Qed.

Lemma implements_alts alts Rs :
  Forall2 (fun a R => implements a.2 R) alts Rs -> alts <> [] ->
  implements (alts_code alts) (fun p p' => Exists (fun R : Z -> Z -> Prop => R p p') Rs).
Proof.
  intros H Hne nodes nb i p rs rc K Hc Hb Hp HK. destruct alts as [|[bn s] alts]; [done|].
  eapply eval_branch; [by apply (code_at_cons _ _ _ _ Hc)|done|by apply Forall_cons in Hb as [? _]|].
  by eapply eval_alternatives.
Qed.
End Run.
