(* ===== verification/SimilarLang.v ===== *)
(** * SIMILAR TO: positions of the value and languages

    The relation between positions that a regular expression stands for, its
    rules for the operations, and the programs of single characters and sets. *)

From S2P Require Import Prelude TextType SimilarTo SimilarSpec SimilarRun.

Section Lang.
Context `{T : TextType} (split_chars : list Z -> list (list Z)) `{!TextTypeLaws T split_chars}.
Context (bytes : list Z).

Abbreviation size := (bufferEnd bytes).

Definition syms : list Sym := symbols split_chars bytes.

Lemma length_syms : Z.of_nat (length syms) = size.
Proof. unfold syms, bufferEnd, buffer. by rewrite length_symbols. Qed.

(** The characters between two positions. *)
Definition slice (p q : Z) : list Sym := take (Z.to_nat (q - p)) (drop (Z.to_nat p) syms).

Definition lang_rel (r : regex) (p q : Z) : Prop := p <= q <= size /\ lang r (slice p q).

Lemma slice_nil p : slice p p = [].
Proof. unfold slice. by rewrite Z.sub_diag. Qed.

Lemma slice_app p m q : 0 <= p <= m -> m <= q -> slice p q = slice p m ++ slice m q.
Proof.
  intros Hp Hm. unfold slice. replace (Z.to_nat (q - p)) with (Z.to_nat (m - p) + Z.to_nat (q - m))%nat by lia.
  rewrite <- take_take_drop. f_equal. rewrite drop_drop.
  by replace (Z.to_nat p + Z.to_nat (m - p))%nat with (Z.to_nat m) by lia.
Qed.

Lemma length_slice p q : 0 <= p <= q -> q <= size -> Z.of_nat (length (slice p q)) = q - p.
Proof.
  intros Hp Hq. pose proof length_syms. unfold slice. rewrite length_take, length_drop. lia.
Qed.

Lemma slice_all : slice 0 size = syms.
Proof. unfold slice. rewrite drop_0. apply take_ge. pose proof length_syms. lia. Qed.

(** Splitting the characters splits the positions. *)
Lemma slice_split p q s1 s2 :
  0 <= p <= q -> q <= size -> slice p q = s1 ++ s2 ->
  exists m, p <= m <= q /\ s1 = slice p m /\ s2 = slice m q.
Proof.
  intros Hp Hq E. pose proof (length_slice p q Hp Hq) as Hl. rewrite E, length_app in Hl.
  exists (p + Z.of_nat (length s1)). split; [lia|].
  rewrite (slice_app p (p + Z.of_nat (length s1)) q) in E by lia.
  apply app_inj_1 in E as [-> ->]; [done|].
  pose proof (length_slice p (p + Z.of_nat (length s1)) ltac:(lia) ltac:(lia)). lia.
Qed.

Lemma slice_one p x :
  0 <= p -> syms !! Z.to_nat p = Some x -> slice p (p + 1) = [x].
Proof.
  intros Hp Hx. unfold slice. rewrite (drop_S _ x) by done.
  by replace (Z.to_nat (p + 1 - p)) with 1%nat by lia.
Qed.

Lemma syms_lookup p : 0 <= p < size -> exists c b, syms !! Z.to_nat p = Some ((c, b) : Sym) /\
  buffer bytes @ p = Some c /\ substring bytes p 1 = b.
Proof.
  intros Hp. pose proof length_syms. destruct (lookup_lt_is_Some_2 syms (Z.to_nat p)) as [[c b] Hx]; [lia|].
  exists c, b. split; [done|]. split.
  - rewrite aget_nonneg by lia. by apply (symbols_canonical split_chars bytes _ c b).
  - pose proof (substring_one split_chars bytes (Z.to_nat p) c b Hx) as Hs. by rewrite Z2Nat.id in Hs by lia.
Qed.

(** One character is between two positions. *)
Lemma slice_single p q x :
  0 <= p -> p <= q <= size -> slice p q = [x] <-> q = p + 1 /\ syms !! Z.to_nat p = Some x.
Proof.
  intros Hp Hq. split.
  - intros E. pose proof (length_slice p q ltac:(lia) ltac:(lia)) as Hl. rewrite E in Hl. simpl in Hl.
    assert (q = p + 1) as -> by lia. split; [done|]. destruct (syms_lookup p ltac:(lia)) as (c & b & Hx & _).
    rewrite (slice_one p (c, b)) in E by done. by simplify_eq.
  - intros [-> Hx]. by apply slice_one.
Qed.

Lemma posrel_lang r : posrel bytes (lang_rel r).
Proof. intros p p' Hp [? _]. done. Qed.

(** ** The operations *)

Lemma lang_rel_eps p q : 0 <= p <= size -> lang_rel REps p q <-> q = p.
Proof.
  intros Hp. unfold lang_rel. simpl. split.
  - intros [Hq E]. pose proof (length_slice p q ltac:(lia) ltac:(lia)) as Hl. rewrite E in Hl. simpl in Hl. lia.
  - intros ->. split; [lia|apply slice_nil].
Qed.

Lemma lang_rel_seq r1 r2 p q :
  0 <= p <= size -> lang_rel (RSeq r1 r2) p q <-> seq_rel (lang_rel r1) (lang_rel r2) p q.
Proof.
  intros Hp. split.
  - intros (Hq & s1 & s2 & E & H1 & H2). apply slice_split in E as (m & Hm & -> & ->); [|lia..].
    exists m. by split; (split; [lia|]).
  - intros (m & [Hm H1] & [Hq H2]). split; [lia|]. exists (slice p m), (slice m q).
    split; [apply slice_app; lia|done].
Qed.

Lemma lang_rel_alt r1 r2 p q : lang_rel (RAlt r1 r2) p q <-> lang_rel r1 p q \/ lang_rel r2 p q.
Proof. unfold lang_rel. simpl. tauto. Qed.

Lemma lang_rel_iter r c p q :
  0 <= p <= size ->
  iter_rel c (lang_rel r) p q <->
  p <= q <= size /\ exists ss, slice p q = mjoin ss /\ Forall (lang r) ss /\ length ss = c.
Proof.
  revert p. induction c as [|c IH]; intros p Hp; simpl.
  - split.
    + intros ->. split; [lia|]. exists []. by rewrite slice_nil.
    + intros (Hq & ss & E & _ & ->%nil_length_inv). by apply lang_rel_eps.
  - split.
    + intros (m & [Hm Hs] & (Hq & ss & E & Hss & <-)%IH); [|lia]. split; [lia|]. exists (slice p m :: ss).
      rewrite (slice_app p m q), E by lia. split; [done|]. by split; [constructor|].
    + intros (Hq & ss & E & Hss & Hl). destruct ss as [|s ss]; [done|]. simpl in E, Hl.
      apply slice_split in E as (m & Hm & -> & E); [|lia..]. apply Forall_cons in Hss as [Hs Hss].
      exists m. split; [by split; [lia|]|]. apply IH; [lia|]. split; [lia|]. exists ss.
      split; [done|]. split; [done|lia].
Qed.

Lemma lang_rel_rep r lo hi p q :
  0 <= p <= size ->
  lang_rel (RRep r lo hi) p q <-> exists c, in_bounds lo hi c /\ iter_rel c (lang_rel r) p q.
Proof.
  intros Hp. split.
  - intros (Hq & ss & E & Hss & Hb). exists (length ss). split; [done|]. apply lang_rel_iter; [done|]. eauto.
  - intros (c & Hb & (Hq & ss & E & Hss & <-)%lang_rel_iter); [|done]. split; [done|]. exists ss. done.
Qed.

(** Iterations in two parts *)
Lemma iter_rel_app r a b p q :
  iter_rel (a + b) (lang_rel r) p q <->
  seq_rel (iter_rel a (lang_rel r)) (iter_rel b (lang_rel r)) p q.
Proof.
  revert p. induction a as [|a IH]; intros p; simpl.
  - split; [intros H; by exists p|by intros (m & -> & ?)].
  - split.
    + intros (m & Hm & (m' & ? & ?)%IH). exists m'. split; [|done]. by exists m.
    + intros (m' & (m & Hm & ?) & ?). exists m. split; [done|]. apply IH. by exists m'.
Qed.

(** At most [c] iterations *)
Lemma iter_rel_optional (R : Z -> Z -> Prop) c p q :
  iter_rel c (fun p p' => R p p' \/ p' = p) p q <-> exists d, (d <= c)%nat /\ iter_rel d R p q.
Proof.
  revert p. induction c as [|c IH]; intros p; simpl.
  - split; [intros ->; by exists 0%nat|]. by intros ([|d] & ? & H); [|lia].
  - split.
    + intros (m & [Hm| ->] & (d & Hd & H)%IH).
      * exists (S d). split; [lia|]. by exists m.
      * exists d. split; [lia|done].
    + intros ([|d] & Hd & H).
      * simpl in H. subst. exists p. split; [by right|]. apply IH. exists 0%nat. split; [lia|done].
      * destruct H as (m & Hm & H). exists m. split; [by left|]. apply IH. exists d. split; [lia|done].
Qed.

(** ** Single characters *)

Lemma implements_lang_any : implements bytes [Node_op opAny] (lang_rel RAny).
Proof.
  apply (implements_iff bytes _ (fun p p' => p < size /\ p' = p + 1)); [|apply implements_any].
  intros p q Hp. split.
  - intros [Hlt ->]. split; [lia|]. destruct (syms_lookup p ltac:(lia)) as (c & b & Hx & _).
    exists (c, b). by apply slice_one; [lia|].
  - intros [Hq [x E]]. apply slice_single in E as [-> _]; [lia..|done].
Qed.

Lemma lang_rel_char c p q :
  0 <= p <= size -> lang_rel (RChar c) p q <-> buffer bytes @ p = Some c /\ q = p + 1.
Proof.
  intros Hp. split.
  - intros [Hq [b E]]. apply slice_single in E as [-> Hx]; [|lia..]. split; [|done].
    destruct (syms_lookup p ltac:(lia)) as (c' & b' & Hx' & Hc & _). rewrite Hx in Hx'. by injection Hx' as <- <-.
  - intros [Hc ->]. pose proof (aget_lt_Some _ _ _ Hc) as Hlt. change (Z.of_nat _) with size in Hlt.
    destruct (syms_lookup p ltac:(lia)) as (c' & b' & Hx' & Hc' & _). rewrite Hc in Hc'. injection Hc' as <-.
    split; [lia|]. exists b'. by apply slice_one; [lia|].
Qed.

Lemma implements_lang_char n c str :
  n_op n = opExactlyOne -> n_str n = c :: str -> implements bytes [n] (lang_rel (RChar c)).
Proof.
  intros Hop Hstr. eapply implements_iff; [|by eapply implements_exactly_one].
  intros p q Hp. symmetry. by apply lang_rel_char.
Qed.

(** A run of characters *)
Fixpoint literal (cs : list Z) : regex :=
  match cs with [] => REps | c :: cs => RSeq (RChar c) (literal cs) end.

Lemma lang_rel_literal cs p q :
  0 <= p <= size ->
  lang_rel (literal cs) p q <->
  take (length cs) (drop (Z.to_nat p) (buffer bytes)) = cs /\ q = p + Z.of_nat (length cs).
Proof.
  revert p. induction cs as [|c cs IH]; intros p Hp; simpl literal.
  - rewrite lang_rel_eps by done. simpl. split; [intros ->; split; [done|lia]|intros [_ ->]; lia].
  - rewrite lang_rel_seq by done. split.
    + intros (m & [Hc ->]%lang_rel_char & H); [|done]. pose proof (aget_lt_Some _ _ _ Hc) as Hlt.
      change (Z.of_nat _) with size in Hlt. apply IH in H as [E ->]; [|lia].
      rewrite aget_nonneg in Hc by lia. rewrite (drop_S _ c) by done. simpl.
      replace (Z.to_nat (p + 1)) with (S (Z.to_nat p)) in E by lia. rewrite E. split; [done|]. simpl. lia.
    + intros [E ->]. destruct (buffer bytes !! Z.to_nat p) as [c'|] eqn:Hc.
      2:{ apply lookup_ge_None in Hc. rewrite drop_ge in E by done. done. }
      rewrite (drop_S _ c') in E by done. simpl in E. injection E as -> E.
      pose proof (lookup_lt_Some _ _ _ Hc) as Hlt. exists (p + 1). split.
      * apply lang_rel_char; [done|]. split; [|done]. by rewrite aget_nonneg by lia.
      * apply IH; [unfold bufferEnd; lia|]. replace (Z.to_nat (p + 1)) with (S (Z.to_nat p)) by lia.
        split; [done|]. simpl. lia.
Qed.

Lemma implements_lang_exactly n :
  n_op n = opExactly -> 0 <= n_len n <= Z.of_nat (length (n_str n)) ->
  implements bytes [n] (lang_rel (literal (take (Z.to_nat (n_len n)) (n_str n)))).
Proof.
  intros Hop Hl. eapply implements_iff; [|by apply implements_exactly]. intros p q Hp.
  rewrite lang_rel_literal by done. unfold exactly.
  rewrite length_take. replace (Z.to_nat (n_len n) `min` length (n_str n))%nat with (Z.to_nat (n_len n)) by lia.
  rewrite Z2Nat.id by lia. rewrite andb_true_iff, !bool_decide_eq_true. split.
  - by intros [[_ ?] ?].
  - intros [E ?]. split; [|done]. split; [|done]. apply (f_equal length) in E.
    rewrite !length_take, length_drop in E. unfold bufferEnd in *. lia.
Qed.

(** Sequences of expressions *)
Abbreviation seqs := (foldr RSeq REps).

Lemma literal_seqs cs : literal cs = seqs (RChar <$> cs).
Proof. induction cs as [|c cs IH]; [done|]. simpl. by rewrite IH. Qed.

Lemma lang_rel_seq_eps r p q : 0 <= p <= size -> lang_rel (RSeq r REps) p q <-> lang_rel r p q.
Proof.
  intros Hp. rewrite lang_rel_seq by done. split.
  - intros (m & Hm & Hq). pose proof (posrel_lang r p m Hp Hm). by apply lang_rel_eps in Hq as ->; [|lia].
  - intros H. exists q. split; [done|]. pose proof (posrel_lang r p q Hp H). by apply lang_rel_eps; [lia|].
Qed.

Lemma lang_rel_seqs_app a b p q :
  0 <= p <= size -> lang_rel (seqs (a ++ b)) p q <-> seq_rel (lang_rel (seqs a)) (lang_rel (seqs b)) p q.
Proof.
  revert p. induction a as [|r a IH]; intros p Hp; simpl.
  - split; [intros H; exists p; split; [by apply lang_rel_eps|done]|].
    intros (m & Hm & H). by apply lang_rel_eps in Hm as ->.
  - rewrite lang_rel_seq by done. split.
    + intros (m & Hm & H). pose proof (posrel_lang r p m Hp Hm). apply IH in H as (k & Hk & H); [|lia].
      exists k. split; [|done]. apply lang_rel_seq; [done|]. by exists m.
    + intros (k & (m & Hm & Hk)%lang_rel_seq & H); [|done]. pose proof (posrel_lang r p m Hp Hm).
      exists m. split; [done|]. apply IH; [lia|]. by exists k.
Qed.

(** ** Sets *)

#[export] Instance in_range_dec b range : Decision (in_range b range).
Proof. unfold in_range. apply _. Defined.

#[export] Instance listed_dec chars ranges x : Decision (listed chars ranges x).
Proof. unfold listed. apply _. Defined.

#[export] Instance set_mem_dec cs x : Decision (set_mem cs x).
Proof. unfold set_mem. apply _. Defined.

(** The bytes of [rangeBuffer]. *)
Definition encode_ranges (ranges : list (list Z * list Z)) : list Z :=
  mjoin ((fun r : list Z * list Z =>
    Z.of_nat (length r.1) :: r.1 ++ Z.of_nat (length r.2) :: r.2) <$> ranges).

Lemma encode_ranges_cons lo hi ranges :
  encode_ranges ((lo, hi) :: ranges) =
  Z.of_nat (length lo) :: lo ++ Z.of_nat (length hi) :: hi ++ encode_ranges ranges.
Proof. unfold encode_ranges. simpl. by rewrite <- app_assoc. Qed.

Lemma in_ranges_spec fuel c ranges :
  (length ranges < fuel)%nat ->
  in_ranges fuel c (encode_ranges ranges) = Some (bool_decide (Exists (in_range c) ranges)).
Proof.
  revert ranges. induction fuel as [|fuel IH]; intros ranges Hf; [lia|].
  destruct ranges as [|[lo hi] ranges]; [done|]. rewrite encode_ranges_cons. cbn [in_ranges].
  rewrite !Nat2Z.id, drop_app_length. cbn [app]. rewrite !Nat2Z.id, !take_app_length, drop_app_length.
  case_decide as Hr.
  - rewrite bool_decide_eq_true_2; [done|]. by left.
  - rewrite IH by (simpl in Hf; lia). f_equal. apply bool_decide_ext. rewrite Exists_cons.
    split; [by right|]. by intros [?|?].
Qed.

Lemma length_encode_ranges ranges : (length ranges <= length (encode_ranges ranges))%nat.
Proof.
  induction ranges as [|[lo hi] ranges IH]; [done|]. rewrite encode_ranges_cons.
  rewrite !length_cons, length_app, length_cons, length_app. lia.
Qed.

Lemma notInSet_one c set : notInSet [c] set = 0 <-> c ∈ set.
Proof. cbn [notInSet]. case_decide; [done|]. split; [lia|done]. Qed.

(** What the compiler leaves in a node for a set. *)
Record set_node (n : Node) (cs : CharSet) : Prop := {
  sn_op : n_op n = opAnyOf;
  sn_str : n_str n = cs_inc cs;
  sn_len : n_len n = Z.of_nat (length (cs_inc cs));
  sn_str2 : n_str2 n = encode_ranges (cs_inc_ranges cs);
  sn_len2 : n_len2 n = Z.of_nat (length (encode_ranges (cs_inc_ranges cs)));
  sn_str3 : n_str3 n = cs_exc cs;
  sn_len3 : n_len3 n = Z.of_nat (length (cs_exc cs));
  sn_str4 : n_str4 n = encode_ranges (cs_exc_ranges cs);
  sn_len4 : n_len4 n = Z.of_nat (length (encode_ranges (cs_exc_ranges cs)));
  sn_branch : n_branchNum n = -1
}.

Lemma any_of_spec n cs p c b :
  set_node n cs -> 0 <= p -> syms !! Z.to_nat p = Some ((c, b) : Sym) ->
  any_of bytes n p = Some (bool_decide (set_mem cs (c, b))).
Proof.
  intros [_ S1 L1 S2 L2 S3 L3 S4 L4 _] Hp Hx.
  assert (Hlt : 0 <= p < size) by (apply lookup_lt_Some in Hx; pose proof length_syms; lia).
  destruct (syms_lookup p Hlt) as (c' & b' & Hx' & Hc & Hb). rewrite Hx in Hx'. injection Hx' as <- <-.
  unfold any_of. rewrite Hc, Hb. cbn [mbind option_bind].
  rewrite S1, S2, S3, S4, L1, L2, L3, L4, !Nat2Z.id, !take_ge by lia.
  rewrite !in_ranges_spec by (rewrite Nat.lt_succ_r; apply length_encode_ranges).
  cbn [mbind option_bind].
  set (I := Exists (in_range b) (cs_inc_ranges cs)). set (X := Exists (in_range b) (cs_exc_ranges cs)).
  assert (Hempty : Z.of_nat (length (cs_inc cs)) + Z.of_nat (length (encode_ranges (cs_inc_ranges cs))) = 0 <->
                   cs_inc cs = [] /\ cs_inc_ranges cs = []).
  { pose proof (length_encode_ranges (cs_inc_ranges cs)). split.
    - intros E. split; apply nil_length_inv; lia.
    - intros [-> ->]. done. }
  assert (Hm : set_mem cs (c, b) <->
    (Z.of_nat (length (cs_inc cs)) + Z.of_nat (length (encode_ranges (cs_inc_ranges cs))) = 0 \/
      c ∈ cs_inc cs \/ I) /\ ~ (c ∈ cs_exc cs \/ X)) by (by rewrite Hempty).
  rewrite (bool_decide_ext _ _ Hm).
  pose proof (notInSet_one c (cs_inc cs)) as Hinc. pose proof (notInSet_one c (cs_exc cs)).
  destruct (decide (notInSet [c] (cs_inc cs) <> 0)) as [Hi|Hi]; cbn [mbind option_bind].
  - destruct (decide (Z.of_nat (length (cs_inc cs)) + Z.of_nat (length (encode_ranges (cs_inc_ranges cs))) = 0)) as [E|E].
    + rewrite (bool_decide_eq_false_2 (_ <> 0)) by lia. cbn [andb negb].
      destruct (decide (notInSet [c] (cs_exc cs) = 0)); symmetry; f_equal.
      * apply bool_decide_eq_false. tauto.
      * rewrite <- bool_decide_not. apply bool_decide_ext. tauto.
    + rewrite (bool_decide_eq_true_2 (_ <> 0)) by done. cbn [andb]. rewrite negb_involutive.
      destruct (bool_decide_reflect I) as [HI|HI].
      * destruct (decide (notInSet [c] (cs_exc cs) = 0)); symmetry; f_equal.
        -- apply bool_decide_eq_false. tauto.
        -- rewrite <- bool_decide_not. apply bool_decide_ext. tauto.
      * symmetry. f_equal. apply bool_decide_eq_false. tauto.
  - assert (c ∈ cs_inc cs) by (apply Hinc; lia).
    destruct (decide (notInSet [c] (cs_exc cs) = 0)); symmetry; f_equal.
    + apply bool_decide_eq_false. tauto.
    + rewrite <- bool_decide_not. apply bool_decide_ext. tauto.
Qed.

Lemma implements_lang_set n cs : set_node n cs -> implements bytes [n] (lang_rel (RSet cs)).
Proof.
  intros Hn. set (mem p := match syms !! Z.to_nat p with Some x => bool_decide (set_mem cs x) | None => false end).
  eapply implements_iff; [|apply (implements_anyof bytes n mem); [by apply sn_op in Hn|]].
  - intros p q Hp. unfold mem. split.
    + intros (Hlt & Hm & ->). split; [lia|]. destruct (syms_lookup p ltac:(lia)) as (c & b & Hx & _).
      rewrite Hx in Hm. exists (c, b). split; [by apply slice_one; [lia|]|]. by apply bool_decide_eq_true in Hm.
    + intros [Hq (x & E & Hm)]. apply slice_single in E as [-> Hx]; [|lia..]. rewrite Hx.
      split; [lia|]. split; [by apply bool_decide_eq_true|done].
  - intros p Hp. destruct (syms_lookup p Hp) as (c & b & Hx & _). unfold mem. rewrite Hx.
    apply any_of_spec; [done|lia|done].
Qed.
End Lang.
