(* ===== verification/SimilarParse.v ===== *)
(** * SIMILAR TO: what the compiler accepts and produces

    A pattern the compiler accepts is a text of the grammar, and the program it
    produces implements the language of its expression. *)

From S2P Require Import Prelude TextType SimilarTo SimilarSpec SimilarRun SimilarLang.

(** ** The programs of the quantifiers *)

(** [x{n1,n2}] *)
Definition brace_code (n1 : Z) (hi : option Z) (body : list Node) : list Node :=
  match hi with
  | None => if decide (n1 = 0) then star_code body else rep_code n1 body ++ star_code body
  | Some h =>
      if decide (n1 = 0) then rep_code h (question_code body)
      else if decide (h = n1) then rep_code n1 body
      else rep_code n1 body ++ rep_code (h - n1) (question_code body)
  end.

(** The bound of a quantifier, as the code keeps it. *)
Definition bound_of (hi : option Z) : Z := default INT_MAX hi.

Section QuantifierNodes.
Implicit Types (pre body : list Node).

(** Programs that differ in how positions are written. *)
#[local] Ltac nodes_eq := repeat (first [reflexivity | lia | f_equal]).

Lemma insert_node_code pre body n : insert_node (length pre) n (pre ++ body) = pre ++ n :: body.
Proof. unfold insert_node. by rewrite take_app_length, drop_app_length. Qed.

Lemma star_nodes_code pre body : star_nodes (length pre) (pre ++ body) = pre ++ star_code body.
Proof.
  unfold star_nodes, star_code. rewrite insert_node_code, <- !app_assoc. cbn [app].
  rewrite !length_app, !length_cons. nodes_eq.
Qed.

Lemma plus_nodes_code pre body : plus_nodes (length pre) (pre ++ body) = pre ++ plus_code body.
Proof.
  unfold plus_nodes, plus_code. rewrite <- !app_assoc. cbn [app].
  rewrite !length_app. cbn [length]. nodes_eq.
Qed.

Lemma question_nodes_code pre body : question_nodes (length pre) (pre ++ body) = pre ++ question_code body.
Proof.
  unfold question_nodes, question_code. rewrite insert_node_code, <- !app_assoc. cbn [app].
  rewrite !length_app. nodes_eq.
Qed.

Lemma rep_nodes_code pre body c :
  let nodes := insert_node (length pre)
    (Node_rep opRepeatingRefStart c 0 (Z.of_nat (length (pre ++ body)) - Z.of_nat (length pre) + 1)) (pre ++ body) in
  nodes ++ [Node_ref opRepeatingRefEnd (Z.of_nat (length pre) - Z.of_nat (length nodes))] =
  pre ++ rep_code c body.
Proof.
  cbn zeta. unfold rep_code. rewrite insert_node_code, <- !app_assoc. cbn [app].
  rewrite !length_app, !length_cons. nodes_eq.
Qed.

Lemma brace_nodes_code pre body n1 hi :
  0 <= n1 < INT_MAX -> (forall h, hi = Some h -> n1 <= h < INT_MAX) ->
  brace_nodes (length pre) n1 (bound_of hi) (pre ++ body) = pre ++ brace_code n1 hi body.
Proof.
  intros Hn Hhi. unfold brace_nodes, brace_code.
  assert (Hstar : n1 = 0 /\ bound_of hi = INT_MAX <-> n1 = 0 /\ hi = None).
  { destruct hi as [h|]; simpl; [|tauto]. specialize (Hhi h eq_refl). split; [lia|by intros [_ ?]]. }
  destruct (decide (n1 = 0 /\ bound_of hi = INT_MAX)) as [[-> Hb]|Hb].
  { destruct Hstar as [Hs _]. destruct Hs as [_ ->]; [done|]. rewrite decide_True by done.
    apply star_nodes_code. }
  destruct (decide (n1 = 0)) as [->|Hn0].
  - destruct hi as [h|]; [|exfalso; apply Hb; done]. simpl bound_of. rewrite question_nodes_code.
    rewrite rep_nodes_code. rewrite decide_False by tauto. done.
  - rewrite rep_nodes_code.
    replace (length (pre ++ body) - length pre)%nat with (length body) by len.
    assert (Hexpr : take (length body) (drop (S (length pre)) (pre ++ rep_code n1 body)) = body).
    { unfold rep_code. rewrite cons_middle, app_assoc, drop_app_ge by len.
      rewrite length_app. simpl length. replace (S (length pre) - (length pre + 1))%nat with 0%nat by lia.
      rewrite drop_0. apply take_app_length. }
    rewrite Hexpr. destruct hi as [h|]; simpl bound_of in *.
    + specialize (Hhi h eq_refl). destruct (decide (h = n1)) as [->|Hne].
      * rewrite decide_False by lia. done.
      * rewrite decide_True by lia. rewrite decide_False by lia. rewrite <- app_assoc. f_equal. f_equal.
        unfold rep_code, question_code. cbn [app]. rewrite <- app_assoc. cbn [app length].
        rewrite length_app. cbn [length]. nodes_eq.
    + rewrite decide_True by lia. rewrite decide_True by done. rewrite <- app_assoc. unfold star_code. nodes_eq.
Qed.
End QuantifierNodes.

(** *** What they implement *)

Section QuantifierLang.
Context `{T : TextType} (split_chars : list Z -> list (list Z)) `{!TextTypeLaws T split_chars}.
Context (bytes : list Z).

Abbreviation lang_rel := (lang_rel split_chars bytes).
Abbreviation implements := (implements bytes).
Abbreviation size := (bufferEnd bytes).

Lemma posrel_iter c R : posrel bytes R -> posrel bytes (iter_rel c R).
Proof.
  intros HR. induction c as [|c IH]; intros p q Hp; simpl; [intros ->; lia|].
  intros (m & Hm & Hq). pose proof (HR _ _ Hp Hm). pose proof (IH m q ltac:(lia) Hq). lia.
Qed.

Lemma posrel_optional R : posrel bytes R -> posrel bytes (fun p q => R p q \/ q = p).
Proof. intros HR p q Hp [H| ->]; [by apply HR|lia]. Qed.

Lemma lang_rel_rep_none r lo p q :
  0 <= p <= size -> iters lo (lang_rel r) p q <-> lang_rel (RRep r (Z.of_nat lo) None) p q.
Proof.
  intros Hp. rewrite lang_rel_rep by done. unfold iters, in_bounds.
  split; intros (c & Hc & ?); exists c; (split; [lia|done]).
Qed.

Lemma nullable_loop r p : nullable r = false -> 0 <= p <= size -> ~ lang_rel r p p.
Proof.
  intros Hn Hp [_ H]. rewrite slice_nil in H. apply lang_on_nil in H. congruence.
Qed.

Lemma implements_rep_z c body R :
  0 <= c -> posrel bytes R -> implements body R ->
  implements (rep_code c body) (iter_rel (Z.to_nat c) R).
Proof.
  intros Hc HR Hb. pose proof (implements_rep bytes (Z.to_nat c) body R HR Hb) as H.
  by rewrite Z2Nat.id in H.
Qed.

Lemma implements_brace n1 hi body r :
  0 <= n1 -> (forall h, hi = Some h -> n1 <= h) -> loops_ok (RRep r n1 hi) = true ->
  implements body (lang_rel r) -> implements (brace_code n1 hi body) (lang_rel (RRep r n1 hi)).
Proof.
  intros Hn Hhi Hok Hbody. simpl in Hok. apply andb_true_iff in Hok as [_ Hok].
  pose proof (posrel_lang split_chars bytes r) as HR. unfold brace_code. destruct hi as [h|].
  - specialize (Hhi h eq_refl). destruct (decide (n1 = 0)) as [->|Hn0].
    + eapply implements_iff; [|apply implements_rep_z; [lia|by apply posrel_optional|by apply implements_question]].
      intros p q Hp. rewrite iter_rel_optional, lang_rel_rep by done. unfold in_bounds.
      split; intros (c & Hc & ?); exists c; (split; [lia|done]).
    + destruct (decide (h = n1)) as [->|Hne].
      * eapply implements_iff; [|by apply implements_rep_z].
        intros p q Hp. rewrite lang_rel_rep by done. unfold in_bounds. split.
        -- intros H. exists (Z.to_nat n1). split; [lia|done].
        -- intros (c & Hc & H). by replace (Z.to_nat n1) with c by lia.
      * eapply implements_iff; [|apply implements_app;
          [|by apply implements_rep_z|
            apply implements_rep_z; [lia|by apply posrel_optional|by apply implements_question]]]; [|by apply posrel_iter].
        intros p q Hp. rewrite lang_rel_rep by done. unfold in_bounds, seq_rel.
        setoid_rewrite iter_rel_optional. split.
        -- intros (m & Hm & d & Hd & Hq). exists (Z.to_nat n1 + d)%nat. split; [lia|].
           apply iter_rel_app. by exists m.
        -- intros (c & Hc & H). replace c with (Z.to_nat n1 + (c - Z.to_nat n1))%nat in H by lia.
           apply iter_rel_app in H as (m & Hm & Hq). exists m. split; [done|].
           exists (c - Z.to_nat n1)%nat. split; [lia|done].
  - apply negb_true_iff in Hok.
    assert (Hstar : implements (star_code body) (iters 0 (lang_rel r))).
    { apply implements_star; [done| |done]. intros p. by apply nullable_loop. }
    destruct (decide (n1 = 0)) as [->|Hn0].
    + eapply implements_iff; [|exact Hstar]. intros p q Hp. by apply lang_rel_rep_none.
    + eapply implements_iff; [|apply implements_app;
        [|by apply implements_rep_z|exact Hstar]]; [|by apply posrel_iter].
      intros p q Hp. rewrite <- (Z2Nat.id n1) at 2 by lia. rewrite <- lang_rel_rep_none by done.
      unfold seq_rel, iters. split.
      * intros (m & Hm & c & _ & Hq). exists (Z.to_nat n1 + c)%nat. split; [lia|].
        apply iter_rel_app. by exists m.
      * intros (c & Hc & H). replace c with (Z.to_nat n1 + (c - Z.to_nat n1))%nat in H by lia.
        apply iter_rel_app in H as (m & Hm & Hq). exists m. split; [done|].
        exists (c - Z.to_nat n1)%nat. split; [lia|done].
Qed.
End QuantifierLang.

(** ** The program of alternatives

    While an expression is read, the references of its alternatives are open: they
    are set when its end is known. *)

Section AltNodes.
Implicit Types (pre s : list Node) (alts : list (Z * list Node)).

Definition alt_open (a : Z * list Node) : list Node :=
  alt_branch a.1 (Z.of_nat (length a.2) + 2) :: a.2 ++ [alt_ref a.1 0].

Definition open_code alts : list Node := mjoin (alt_open <$> alts).

(** [refs] and [start] *)
Fixpoint open_refs (base : nat) alts : list nat :=
  match alts with
  | [] => []
  | a :: alts => (base + S (length a.2))%nat :: open_refs (base + length (alt_open a)) alts
  end.

Fixpoint open_start (base : nat) alts : nat :=
  match alts with
  | [] | [_] => base
  | a :: alts => open_start (base + length (alt_open a)) alts
  end.

Lemma open_code_app a b : open_code (a ++ b) = open_code a ++ open_code b.
Proof. unfold open_code. by rewrite fmap_app, join_app. Qed.

Lemma open_code_one a : open_code [a] = alt_open a.
Proof. apply (app_nil_r (alt_open a)). Qed.

Lemma open_refs_snoc base alts a :
  open_refs base (alts ++ [a]) = open_refs base alts ++ [(base + length (open_code alts) + S (length a.2))%nat].
Proof.
  revert base. induction alts as [|b alts IH]; intros base; cbn [app open_refs].
  - cbn. by rewrite Nat.add_0_r.
  - rewrite IH. cbn [app]. do 3 f_equal. change (b :: alts) with ([b] ++ alts).
    rewrite open_code_app, open_code_one, length_app. lia.
Qed.

Lemma open_start_snoc base alts a : open_start base (alts ++ [a]) = (base + length (open_code alts))%nat.
Proof.
  revert base. induction alts as [|b alts IH]; intros base; [cbn; lia|].
  cbn [app]. replace (open_start base (b :: alts ++ [a])) with (open_start (base + length (alt_open b)) (alts ++ [a]))
    by (by destruct alts).
  rewrite IH. change (b :: alts) with ([b] ++ alts). rewrite open_code_app, open_code_one, length_app. lia.
Qed.

Lemma set_ref_at_middle l1 n l2 v : set_ref_at (length l1) v (l1 ++ n :: l2) = l1 ++ set_ref n v :: l2.
Proof. unfold set_ref_at. induction l1 as [|x l1 IH]; [done|]. cbn. f_equal. exact IH. Qed.

(** The reference of the branch when the alternative has been read *)
Lemma open_code_snoc pre alts bn s :
  set_ref_at (length (pre ++ open_code alts))
    (Z.of_nat (length (((pre ++ open_code alts) ++ [alt_branch bn 0]) ++ s ++ [alt_ref bn 0])) -
     Z.of_nat (length (pre ++ open_code alts)))
    (((pre ++ open_code alts) ++ [alt_branch bn 0]) ++ s ++ [alt_ref bn 0]) =
  pre ++ open_code (alts ++ [(bn, s)]).
Proof.
  rewrite <- (app_assoc (pre ++ open_code alts)). cbn [app]. rewrite set_ref_at_middle.
  rewrite open_code_app, open_code_one, <- app_assoc. do 2 f_equal. unfold alt_open. cbn [fst snd].
  f_equal. unfold alt_branch, set_ref. cbn. f_equal. rewrite !length_app, !length_cons, !length_app. simpl. lia.
Qed.

(** After [nodes[start].ref = 0] *)
Fixpoint mid_code alts : list Node :=
  match alts with
  | [] => []
  | (bn, s) :: rest =>
      alt_branch bn (match rest with [] => 0 | _ => Z.of_nat (length s) + 2 end) ::
        s ++ alt_ref bn 0 :: mid_code rest
  end.

Lemma length_mid_code alts : length (mid_code alts) = length (alts_code alts).
Proof.
  induction alts as [|[bn s] alts IH]; [done|]. simpl. rewrite !length_app. simpl. by rewrite IH.
Qed.

Lemma close_start pre alts :
  alts <> [] ->
  set_ref_at (open_start (length pre) alts) 0 (pre ++ open_code alts) = pre ++ mid_code alts.
Proof.
  revert pre. induction alts as [|[bn s] alts IH]; intros pre Hne; [done|].
  destruct alts as [|b alts].
  - rewrite open_code_one. cbn [open_start]. unfold alt_open. rewrite set_ref_at_middle. done.
  - change ((bn, s) :: b :: alts) with ([(bn, s)] ++ b :: alts).
    rewrite open_code_app, open_code_one, app_assoc.
    change (open_start (length pre) ([(bn, s)] ++ b :: alts)) with
      (open_start (length pre + length (alt_open (bn, s))) (b :: alts)).
    rewrite <- length_app, IH by done. rewrite <- app_assoc. f_equal.
    unfold alt_open. cbn [app fst snd]. by rewrite <- app_assoc.
Qed.

Lemma close_refs_mid pre alts :
  foldl (fun nodes i => set_ref_at i (Z.of_nat (length nodes) - Z.of_nat i) nodes)
    (pre ++ mid_code alts) (open_refs (length pre) alts) = pre ++ alts_code alts.
Proof.
  revert pre. induction alts as [|[bn s] alts IH]; intros pre; [done|].
  cbn [open_refs foldl fst snd]. cbn [mid_code].
  set (br := alt_branch bn _). rewrite app_comm_cons, app_assoc.
  replace (length pre + S (length s))%nat with (length (pre ++ br :: s)) by (rewrite length_app; done).
  rewrite set_ref_at_middle.
  change (set_ref (alt_ref bn 0) ?v) with (alt_ref bn v).
  match goal with |- context [alt_ref bn (?u - ?w)] =>
    replace (u - w) with (Z.of_nat (length (alts_code alts)) + 1)
      by (rewrite !length_app, <- length_mid_code; simpl; lia) end.
  rewrite cons_middle, app_assoc.
  replace (length pre + length (alt_open (bn, s)))%nat
    with (length ((pre ++ br :: s) ++ [alt_ref bn (Z.of_nat (length (alts_code alts)) + 1)]))
    by (unfold alt_open; rewrite !length_app; simpl; rewrite length_app; simpl; lia).
  rewrite IH. rewrite <- !app_assoc. done.
Qed.

Lemma close_refs_code pre alts :
  alts <> [] ->
  close_refs (open_start (length pre) alts) (open_refs (length pre) alts) (pre ++ open_code alts) =
  pre ++ alts_code alts.
Proof. intros Hne. unfold close_refs. by rewrite close_start, close_refs_mid. Qed.
End AltNodes.

Section Parse.
Context `{T : TextType} (split_chars : list Z -> list (list Z)) `{!TextTypeLaws T split_chars}.
Context (escapeChar : Z) (useEscape : bool) (original : list Z).

Abbreviation char_at := (char_at original).
Abbreviation patternEnd := (patternEnd original).
Abbreviation gchar := (gchar escapeChar useEscape).
Abbreviation gitem := (gitem escapeChar useEscape).
Abbreviation gelem := (gelem escapeChar useEscape).
Abbreviation gelems := (gelems escapeChar useEscape).
Abbreviation gprimary := (gprimary escapeChar useEscape).
Abbreviation gterm := (gterm escapeChar useEscape).
Abbreviation gexpr := (gexpr escapeChar useEscape).
Abbreviation escapable := (escapable escapeChar useEscape).
Abbreviation is_escape := (is_escape escapeChar useEscape).

(** ** Positions and texts *)

(** The text from a position on. *)
Definition rest (pos : Z) : list Sym := drop (Z.to_nat pos) (symbols split_chars original).

Lemma patternEnd_syms : patternEnd = Z.of_nat (length (symbols split_chars original)).
Proof. unfold patternEnd, pattern. by rewrite length_symbols. Qed.

Lemma rest_end pos : patternEnd <= pos -> rest pos = [].
Proof. intros H. rewrite patternEnd_syms in H. unfold rest. apply drop_ge. lia. Qed.

Lemma rest_lt pos : 0 <= pos < patternEnd -> exists c b,
  rest pos = (c, b) :: rest (pos + 1) /\ char_at pos = Done c /\ substring original pos 1 = b.
Proof.
  intros H. pose proof patternEnd_syms as E.
  destruct (lookup_lt_is_Some_2 (symbols split_chars original) (Z.to_nat pos)) as [[c b] Hx]; [lia|].
  exists c, b. split; [|split].
  - unfold rest. rewrite (drop_S _ ((c, b) : Sym)) by done. by replace (Z.to_nat (pos + 1)) with (S (Z.to_nat pos)) by lia.
  - unfold char_at, pattern. rewrite aget_nonneg by lia.
    by rewrite (symbols_canonical split_chars original _ c b).
  - pose proof (substring_one split_chars original (Z.to_nat pos) c b Hx) as Hs. by rewrite Z2Nat.id in Hs by lia.
Qed.

Lemma char_at_Done pos c :
  0 <= pos -> char_at pos = Done c ->
  pos < patternEnd /\ exists b, rest pos = (c, b) :: rest (pos + 1) /\ substring original pos 1 = b.
Proof.
  intros Hp Hc. assert (Hlt : pos < patternEnd).
  { unfold char_at in Hc. destruct (pattern original @ pos) as [c'|] eqn:E; [|done].
    apply aget_lt_Some in E. unfold patternEnd. lia. }
  split; [done|]. destruct (rest_lt pos) as (c' & b & E & Hc' & Hs); [lia|].
  rewrite Hc in Hc'. injection Hc' as <-. eauto.
Qed.

Lemma Done_inj {A} (a b : A) : Done a = Done b -> a = b.
Proof. by injection 1. Qed.

(** Splits a successful run of the compiler at a read or an intermediate result. *)
Ltac done_inv :=
  repeat match goal with
  | H : (_ ≫= _) = Done _ |- _ => apply PRes_bind_Done in H; destruct H as (? & ? & H)
  | H : Done ?a = Done ?b |- _ => apply Done_inj in H; try subst a; try subst b
  | H : Raise _ = Done _ |- _ => discriminate H
  | H : NoFuel = Done _ |- _ => discriminate H
  | H : OutOfBounds = Done _ |- _ => discriminate H
  | H : (if decide _ then _ else _) = Done _ |- _ => case_decide
  end.

(** ** Sets *)

Lemma check_escaped_sound pos u :
  0 <= pos -> check_escaped escapeChar useEscape original pos = Done u ->
  exists c b, rest pos = (c, b) :: rest (pos + 1) /\ escapable c /\ char_at pos = Done c.
Proof.
  intros Hp H. unfold check_escaped in H. done_inv.
  destruct (char_at_Done pos x Hp) as (_ & b & E & _); [done|]. exists x, b. split; [done|].
  split; [|done]. unfold escapable. destruct (decide (x = escapeChar)) as [|Hne]; [by left|right].
  apply notInSet_one. lia.
Qed.

Lemma range_follows_sound pos r :
  0 <= pos -> range_follows original pos = Done r ->
  if r then exists bm, rest (pos + 1) = (canonicalChar CHAR_MINUS, bm) :: rest (pos + 2)
  else not_next CHAR_MINUS (rest (pos + 1)).
Proof.
  intros Hp H. unfold range_follows in H. done_inv.
  - destruct (char_at_Done (pos + 1) x) as (_ & b & E & _); [lia|done|].
    replace (pos + 1 + 1) with (pos + 2) in E by lia. rewrite E. case_bool_decide; [|done]. subst. eauto.
  - rewrite rest_end by lia. done.
Qed.

Lemma char_size pos c b : 0 <= pos -> rest pos = (c, b) :: rest (pos + 1) -> (length b <= 4)%nat.
Proof.
  intros Hp E. pose proof (split_size original) as Hs. rewrite Forall_forall in Hs.
  apply Hs. rewrite <- (symbols_snd split_chars original). apply list_elem_of_fmap. exists (c, b).
  split; [done|]. rewrite <- (take_drop (Z.to_nat pos) (symbols split_chars original)).
  apply elem_of_app. right. unfold rest in E. rewrite E. left.
Qed.

Lemma push_range_spec pos c b ranges :
  0 <= pos -> rest pos = (c, b) :: rest (pos + 1) -> substring original pos 1 = b ->
  push_range original pos ranges = ranges ++ Z.of_nat (length b) :: b.
Proof.
  intros Hp E Hs. pose proof (char_size pos c b Hp E). unfold push_range. rewrite Hs.
  rewrite wrapU_id; [done|]. unfold inU. lia.
Qed.

(** Where the loop over a set stands. *)
Record set_rel (st : SetState) (cs : CharSet) : Prop := {
  sr_pos : 0 <= ss_pos st;
  sr_chars : ss_chars st = if ss_but st then cs_exc cs else cs_inc cs;
  sr_ranges : ss_ranges st = encode_ranges (if ss_but st then cs_exc_ranges cs else cs_inc_ranges cs);
  sr_node : ss_node st = if ss_but st
    then store_set false (cs_inc cs) (encode_ranges (cs_inc_ranges cs)) (Node_op opAnyOf)
    else Node_op opAnyOf;
  sr_exc : ss_but st = false -> cs_exc cs = [] /\ cs_exc_ranges cs = []
}.

Lemma encode_ranges_app a b : encode_ranges (a ++ b) = encode_ranges a ++ encode_ranges b.
Proof. unfold encode_ranges. by rewrite fmap_app, join_app. Qed.

(** New characters and ranges. *)
Lemma set_rel_add st cs chars ranges pos :
  set_rel st cs -> 0 <= pos ->
  set_rel {| ss_pos := pos; ss_chars := ss_chars st ++ chars;
             ss_ranges := ss_ranges st ++ encode_ranges ranges; ss_but := ss_but st;
             ss_node := ss_node st |} (add_items (ss_but st) chars ranges cs).
Proof.
  intros [H1 H2 H3 H4 H5] Hp. destruct st as [p ch ra but nd]. simpl in *.
  split; simpl; [done|..]; destruct but; simpl in *; subst; rewrite ?encode_ranges_app; try done.
Qed.

Lemma set_char_sound t pos range st cs st' c b :
  set_rel st cs -> 0 <= pos -> gchar plain_first t (c, b) (rest (pos + 1)) ->
  rest pos = (c, b) :: rest (pos + 1) -> range_follows original pos = Done range ->
  set_char escapeChar useEscape original pos range st = Done st' ->
  pos < ss_pos st' /\ ss_but st' = ss_but st /\ exists chars ranges,
    gitem t chars ranges (rest (ss_pos st')) /\ set_rel st' (add_items (ss_but st) chars ranges cs).
Proof.
  intros Hst Hp Hg Hrest Hrange H. apply range_follows_sound in Hrange; [|done].
  unfold set_char in H. apply PRes_bind_Done in H as (x & Hx & H).
  destruct (char_at_Done pos x Hp Hx) as (_ & b' & E & Hs). rewrite Hrest in E.
  injection E as Ex Eb. subst x b'. destruct range.
  - destruct Hrange as [bm Hm]. rewrite (push_range_spec pos c b) in H by done. case_decide; [done|].
    apply PRes_bind_Done in H as (c1 & Hc1 & H). apply PRes_bind_Done in H as (q & Hq & H).
    apply PRes_bind_Done in H as (c2 & Hc2 & H). apply Done_inj in H as <-.
    destruct (char_at_Done (pos + 2) c1) as (_ & b1 & E1 & Hs1); [lia|done|].
    assert (Hend : exists b2, gchar (fun _ => True) (rest (pos + 2)) (c2, b2) (rest (q + 1)) /\
              rest q = (c2, b2) :: rest (q + 1) /\ pos + 2 <= q /\ substring original q 1 = b2).
    { case_decide as He.
      - apply PRes_bind_Done in Hq as (u & Hu & <-%Done_inj).
        apply check_escaped_sound in Hu as (c2' & b2 & E2 & Hesc & Hc2'); [|lia].
        rewrite Hc2 in Hc2'. apply Done_inj in Hc2' as <-.
        destruct (char_at_Done (pos + 2 + 1) c2) as (_ & b2' & E2' & Hs2); [lia|done|].
        exists b2. rewrite E1, E2. split; [by apply gchar_escaped|]. split; [done|].
        split; [lia|]. rewrite E2 in E2'. by injection E2' as ->.
      - apply Done_inj in Hq as <-. rewrite Hc1 in Hc2. apply Done_inj in Hc2 as <-.
        exists b1. rewrite E1. split; [by apply gchar_plain|]. split; [done|]. by split; [lia|]. }
    destruct Hend as (b2 & Hg2 & E2 & Hle & Hs2).
    simpl. split; [lia|]. split; [done|]. exists [c; c2], [(b, b2)]. split.
    + rewrite Hm in Hg. by eapply gitem_range.
    + rewrite (push_range_spec q c2 b2) by (done || lia). rewrite <- !app_assoc.
      replace ((Z.of_nat (length b) :: b) ++ Z.of_nat (length b2) :: b2) with (encode_ranges [(b, b2)])
        by (rewrite encode_ranges_cons; cbn; by rewrite app_nil_r).
      apply (set_rel_add st cs [c; c2]); [done|lia].
  - apply Done_inj in H as <-. simpl. split; [lia|]. split; [done|]. exists [c], [].
    split; [by apply gitem_char with b|].
    rewrite <- (app_nil_r (ss_ranges st)). apply (set_rel_add st cs [c] []); [done|lia].
Qed.

Lemma skip_to_colon_sound fuel pos q :
  0 <= pos -> skip_to_colon original fuel pos = Done q ->
  pos <= q /\ (exists name, rest pos = name ++ rest q /\ Z.of_nat (length name) = q - pos /\
    Forall (fun x => x.1 <> canonicalChar CHAR_COLON) name) /\
  (q < patternEnd -> exists b, rest q = (canonicalChar CHAR_COLON, b) :: rest (q + 1)).
Proof.
  revert pos. induction fuel as [|fuel IH]; intros pos Hp H; [done|]. cbn [skip_to_colon] in H.
  case_decide as Hlt.
  - apply PRes_bind_Done in H as (c & Hc & H). destruct (char_at_Done pos c Hp Hc) as (_ & b & E & _).
    case_decide as Hcol.
    + apply IH in H as (Hle & (name & En & Hl & Hf) & Hq); [|lia]. split; [lia|]. split; [|done].
      exists ((c, b) :: name). rewrite E, En. split; [done|]. split; [simpl; lia|by constructor].
    + apply Done_inj in H as <-. split; [lia|]. split.
      * exists []. split; [done|]. split; [simpl; lia|constructor].
      * intros _. exists b. by rewrite E, Hcol.
  - apply Done_inj in H as <-. split; [lia|]. split; [|lia].
    exists []. split; [done|]. split; [simpl; lia|constructor].
Qed.

Lemma set_class_sound pos st cs st' b :
  set_rel st cs -> 0 <= pos -> ~ is_escape (canonicalChar CHAR_OPEN_BRACKET) ->
  rest pos = (canonicalChar CHAR_OPEN_BRACKET, b) :: rest (pos + 1) ->
  set_class original pos st = Done st' ->
  pos < ss_pos st' /\ ss_but st' = ss_but st /\ exists chars ranges,
    gitem (rest pos) chars ranges (rest (ss_pos st')) /\ set_rel st' (add_items (ss_but st) chars ranges cs).
Proof.
  intros Hst Hp Hesc E H. unfold set_class in H. case_decide; [done|].
  apply PRes_bind_Done in H as (c1 & Hc1 & H). destruct (char_at_Done (pos + 1) c1) as (_ & b1 & E1 & _); [lia|done|].
  case_decide as Hk; [done|].
  apply PRes_bind_Done in H as (q & Hq & H).
  apply skip_to_colon_sound in Hq as (Hle & (name & En & Hl & Hf) & Hcol); [|lia].
  case_decide as Hq1; [done|]. destruct Hcol as [b2 E2]; [lia|].
  apply PRes_bind_Done in H as (c3 & Hc3 & H). destruct (char_at_Done (q + 1) c3) as (_ & b3 & E3 & _); [lia|done|].
  case_decide as Hcl; [done|].
  destruct (find_class _ classes) as [chars|] eqn:Hfind; [|done]. apply Done_inj in H as <-.
  simpl. split; [lia|]. split; [done|]. exists chars, []. split.
  - rewrite E, E1, En, E2, E3, Hk, Hcl. apply gitem_class; try done.
    rewrite <- Hfind. f_equal. f_equal.
    assert (Hsub := substring_syms split_chars original (Z.to_nat (pos + 1 + 1)) (length name)).
    rewrite Z2Nat.id, Hl in Hsub by lia. rewrite Hsub.
    + unfold rest in En. rewrite En. by rewrite take_app_length.
    + pose proof patternEnd_syms. lia.
  - rewrite <- (app_nil_r (ss_ranges st)). apply (set_rel_add st cs chars []); [done|lia].
Qed.

Lemma set_check_end_sound st st' :
  set_check_end original st = Done st' -> st' = st /\ ss_pos st < patternEnd.
Proof. unfold set_check_end. case_decide; [done|]. intros <-%Done_inj. split; [done|lia]. Qed.

(** An item was read. *)
Lemma set_item_sound st cs st1 st' t :
  set_check_end original st1 = Done st' ->
  (ss_pos st < ss_pos st1 /\ ss_but st1 = ss_but st /\ exists chars ranges,
    gitem t chars ranges (rest (ss_pos st1)) /\ set_rel st1 (add_items (ss_but st) chars ranges cs)) ->
  ss_pos st < ss_pos st' /\ exists cs', gelem (ss_but st) cs t (ss_but st') cs' (rest (ss_pos st')) /\ set_rel st' cs'.
Proof.
  intros [-> Hlt]%set_check_end_sound (Hpos & Hb & chars & ranges & Hg & Hr). split; [done|].
  exists (add_items (ss_but st) chars ranges cs). split; [|done]. rewrite Hb. constructor; [done|].
  destruct (rest_lt (ss_pos st1)) as (c & b & -> & _); [|done]. pose proof (sr_pos _ _ Hr). lia.
Qed.

Lemma set_body_sound st cs st' :
  set_rel st cs -> set_body escapeChar useEscape original st = Done st' ->
  ss_pos st < ss_pos st' /\ exists cs',
    gelem (ss_but st) cs (rest (ss_pos st)) (ss_but st') cs' (rest (ss_pos st')) /\ set_rel st' cs'.
Proof.
  intros Hst H. pose proof (sr_pos _ _ Hst) as Hp. unfold set_body in H. case_decide; [done|].
  apply PRes_bind_Done in H as (c & Hc & H). destruct (char_at_Done _ c Hp Hc) as (_ & b & E & _).
  case_decide as Hesc.
  { apply PRes_bind_Done in H as (u & Hu & H). apply PRes_bind_Done in H as (range & Hr & H).
    apply PRes_bind_Done in H as (st1 & Hst1 & H). apply check_escaped_sound in Hu as (c2 & b2 & E2 & Hok & Hc2); [|lia].
    eapply set_item_sound; [exact H|].
    destruct (set_char_sound (rest (ss_pos st)) (ss_pos st + 1) range st cs st1 c2 b2) as (? & ? & ?); try done; [lia| |].
    { rewrite E, E2. by apply gchar_escaped. }
    split; [lia|done]. }
  case_decide as Hob.
  { apply PRes_bind_Done in H as (st1 & Hst1 & H). eapply set_item_sound; [exact H|].
    rewrite Hob in *. apply (set_class_sound _ _ cs _ b) in Hst1; done. }
  case_decide as Hcf.
  { destruct (ss_but st) eqn:Hbut; [done|]. apply Done_inj in H as <-. simpl. split; [lia|].
    exists cs. split; [rewrite E; by constructor|]. destruct Hst as [S1 S2 S3 S4 S5]. rewrite Hbut in *.
    destruct (S5 eq_refl) as [E1 E2]. rewrite S2, S3, S4. split; simpl; rewrite ?E1, ?E2; done || lia. }
  apply PRes_bind_Done in H as (range & Hr & H). apply PRes_bind_Done in H as (st1 & Hst1 & H).
  eapply set_item_sound; [exact H|].
  apply (set_char_sound (rest (ss_pos st)) _ range st cs st1 c b) in Hst1; try done.
  rewrite E. by apply gchar_plain.
Qed.

Lemma set_loop_sound fuel st cs st' :
  set_rel st cs -> set_loop escapeChar useEscape original fuel st = Done st' ->
  ss_pos st < ss_pos st' /\ exists cs',
    gelems (ss_but st) cs (rest (ss_pos st)) cs' (rest (ss_pos st' + 1)) /\ set_rel st' cs'.
Proof.
  revert st cs. induction fuel as [|fuel IH]; intros st cs Hst H; [done|]. cbn [set_loop] in H.
  apply PRes_bind_Done in H as (st1 & H1 & H). apply (set_body_sound _ cs) in H1 as (Hpos & cs1 & Hg & Hst1); [|done].
  apply PRes_bind_Done in H as (c & Hc & H).
  destruct (char_at_Done _ c (sr_pos _ _ Hst1) Hc) as (_ & b & E & _).
  case_decide as Hcl.
  - destruct (IH st1 cs1 Hst1 H) as (Hpos' & cs' & Hg' & Hst'). split; [lia|]. exists cs'. split; [|done].
    eapply gelems_more; [done| |done]. rewrite E. done.
  - apply Done_inj in H as <-. split; [done|]. exists cs1. split; [|done].
    eapply gelems_last; [|exact Hcl]. rewrite E in Hg. done.
Qed.

Lemma parseSet_sound pos n pos' :
  0 <= pos -> parseSet escapeChar useEscape original pos = Done (n, pos') ->
  pos < pos' /\ exists cs, gelems false empty_set (rest pos) cs (rest pos') /\ set_node n cs.
Proof.
  intros Hp H. unfold parseSet in H. apply PRes_bind_Done in H as (st & Hst & H). apply Done_inj in H.
  injection H as <- <-. apply (set_loop_sound _ _ empty_set) in Hst as (Hpos & cs & Hg & Hr); [|by split].
  simpl in Hpos. split; [lia|]. exists cs. split; [done|]. destruct Hr as [S1 S2 S3 S4 S5].
  rewrite S2, S3, S4. destruct (ss_but st); [done|]. destruct (S5 eq_refl) as [E1 E2].
  split; simpl; rewrite ?E1, ?E2; done.
Qed.

(** ** Braces

    The bytes of a number are found by its position only when all characters of
    the pattern have one width. *)

Definition fixed_width (s : list Z) : Prop :=
  exists w, Forall (fun c => length c = w) (split_chars s).

Lemma rest_snd pos : (rest pos).*2 = drop (Z.to_nat pos) (split_chars original).
Proof. unfold rest. by rewrite fmap_drop, symbols_snd. Qed.

Lemma length_mjoin_width w (l : list (list Z)) :
  Forall (fun c => length c = w) l -> length (mjoin l) = (w * length l)%nat.
Proof.
  induction 1 as [|c l Hc Hl IH]; [simpl; lia|]. change (mjoin (c :: l)) with (c ++ mjoin l).
  rewrite length_app, IH, Hc. simpl. lia.
Qed.

Lemma brace_start pos :
  fixed_width original -> 1 <= pos < patternEnd ->
  drop (length (substring original 1 pos)) original = mjoin (rest pos).*2.
Proof.
  intros [w Hw] Hp. rewrite patternEnd_syms in Hp.
  assert (Hn : length (split_chars original) = length (symbols split_chars original))
    by (by rewrite <- (symbols_snd split_chars original), length_fmap).
  pose proof (substring_chars original 1 (Z.to_nat pos)) as Hs. rewrite Z2Nat.id in Hs by lia.
  change (Z.of_nat 1) with 1 in Hs. rewrite Hs by lia. rewrite rest_snd.
  rewrite (length_mjoin_width w) by (by apply Forall_take, Forall_drop).
  rewrite length_take, length_drop, Nat.min_l by lia.
  rewrite <- (split_concat original) at 1. rewrite <- (take_drop (Z.to_nat pos) (split_chars original)) at 1.
  assert (Hlen : length (mjoin (take (Z.to_nat pos) (split_chars original))) = (w * Z.to_nat pos)%nat).
  { rewrite (length_mjoin_width w) by (by apply Forall_take). by rewrite length_take, Nat.min_l by lia. }
  by rewrite join_app, <- Hlen, drop_app_length.
Qed.

Lemma brace_char p pos c b :
  p = mjoin (rest pos).*2 -> rest pos = (c, b) :: rest (pos + 1) -> 0 <= pos ->
  substring p 0 1 = b /\ take (length b) p = b /\ drop (length b) p = mjoin (rest (pos + 1)).*2.
Proof.
  intros Hp E Hpos. split.
  - pose proof (substring_chars p 0 1 ltac:(lia)) as Hs. change (Z.of_nat 0) with 0 in Hs.
    change (Z.of_nat 1) with 1 in Hs. rewrite Hs, Hp, rest_snd, (split_drop split_chars), <- rest_snd, E.
    cbn. apply app_nil_r.
  - rewrite E in Hp. cbn in Hp. subst p. split; [by rewrite take_app_length|by rewrite drop_app_length].
Qed.

(** A read of the loop *)
Lemma brace_step p size pos (c : Z) :
  0 <= pos -> drop size p = mjoin (rest pos).*2 -> char_at pos = Done c ->
  exists b, rest pos = (c, b) :: rest (pos + 1) /\ substring (drop size p) 0 1 = b /\
    take (length b) (drop size p) = b /\ drop (length b) (drop size p) = mjoin (rest (pos + 1)).*2.
Proof.
  intros Hp Hd Hc. destruct (char_at_Done pos c Hp Hc) as (_ & b & E & _). exists b. split; [done|].
  by apply (brace_char _ _ c).
Qed.

(** After the comma only the second number is read. *)
Lemma brace_loop_comma fuel p size pos s1 s2 pos' comma s1' s2' :
  0 <= pos -> drop size p = mjoin (rest pos).*2 ->
  brace_loop original fuel p size pos true s1 s2 = Done (Some (pos', comma, s1', s2')) ->
  pos <= pos' /\ comma = true /\ s1' = s1 /\ s1 <> [] /\ exists ds be s,
    rest pos = ds ++ (canonicalChar CHAR_CLOSE_BRACE, be) :: rest (pos' + 1) /\
    Forall2 gdigit ds s /\ s2' = s2 ++ s.
Proof.
  revert p size pos s2. induction fuel as [|fuel IH]; intros p size pos s2 Hp Hd H; [done|].
  cbn [brace_loop] in H. case_decide; [done|]. apply PRes_bind_Done in H as (c & Hc & H).
  destruct (brace_step p size pos c Hp Hd Hc) as (b & E & Hs & Ht & Hdr).
  case_decide as Hcl.
  { case_decide as Hs1; [done|]. apply Done_inj in H. injection H as <- <- <- <-.
    do 4 (split; [done || lia|]). exists [], b, []. rewrite app_nil_r, E, Hcl. by split; [|split; [constructor|]]. }
  case_decide as Hco; [done|]. rewrite Hs, Ht in H. case_decide as Hdig; [|done].
  apply IH in H as (Hle & -> & -> & Hs1 & ds & be & s & E' & Hf & ->); [|lia|done].
  do 4 (split; [done || lia|]). exists ((c, b) :: ds), be, (unicode_char b :: s).
  rewrite E, E'. split; [done|]. split; [|by rewrite <- app_assoc]. by constructor.
Qed.

Lemma brace_loop_sound fuel p size pos s1 pos' comma s1' s2' :
  0 <= pos -> drop size p = mjoin (rest pos).*2 ->
  brace_loop original fuel p size pos false s1 [] = Done (Some (pos', comma, s1', s2')) ->
  pos <= pos' /\ s1' <> [] /\ exists ds s, Forall2 gdigit ds s /\ s1' = s1 ++ s /\
    if comma then exists bk ds' be, Forall2 gdigit ds' s2' /\
      rest pos = ds ++ (canonicalChar CHAR_COMMA, bk) :: ds' ++
        (canonicalChar CHAR_CLOSE_BRACE, be) :: rest (pos' + 1)
    else s2' = [] /\ exists be, rest pos = ds ++ (canonicalChar CHAR_CLOSE_BRACE, be) :: rest (pos' + 1).
Proof.
  revert p size pos s1. induction fuel as [|fuel IH]; intros p size pos s1 Hp Hd H; [done|].
  cbn [brace_loop] in H. case_decide; [done|]. apply PRes_bind_Done in H as (c & Hc & H).
  destruct (brace_step p size pos c Hp Hd Hc) as (b & E & Hs & Ht & Hdr).
  case_decide as Hcl.
  { case_decide as Hs1; [done|]. apply Done_inj in H. injection H as <- <- <- <-.
    do 2 (split; [done || lia|]). exists [], []. rewrite app_nil_r. split; [constructor|]. split; [done|].
    split; [done|]. exists b. by rewrite E, Hcl. }
  case_decide as Hco.
  { rewrite Hs in H. apply brace_loop_comma in H as (Hle & -> & -> & Hs1 & ds & be & s & E' & Hf & ->); [|lia|done].
    split; [lia|]. split; [done|]. exists [], []. rewrite app_nil_r. split; [constructor|]. split; [done|].
    exists b, ds, be. split; [done|]. by rewrite E, Hco, E'. }
  rewrite Hs, Ht in H. case_decide as Hdig; [|done].
  apply IH in H as (Hle & Hs1 & ds & s & Hf & -> & Hrest); [|lia|done].
  split; [lia|]. split; [done|]. exists ((c, b) :: ds), (unicode_char b :: s).
  split; [by constructor|]. split; [by rewrite <- app_assoc|]. rewrite E. destruct comma.
  - destruct Hrest as (bk & ds' & be & Hf' & E'). exists bk, ds', be. split; [done|]. by rewrite E'.
  - destruct Hrest as (-> & be & E'). split; [done|]. exists be. by rewrite E'.
Qed.

Lemma brace_loop_reads fuel p size pos comma s1 s2 r :
  0 <= pos -> brace_loop original fuel p size pos comma s1 s2 = Done (Some r) -> pos < patternEnd.
Proof.
  intros Hp H. destruct fuel as [|fuel]; [done|]. cbn [brace_loop] in H. case_decide; [done|].
  apply PRes_bind_Done in H as (c & Hc & _). by apply char_at_Done in Hc as [? _].
Qed.

Lemma atoi_app s c : atoi (s ++ [c]) = 10 * atoi s + (c - 48).
Proof. unfold atoi. by rewrite foldl_app. Qed.

Lemma atoi_bounds s : Forall (fun d => 48 <= d <= 57) s -> 0 <= atoi s < 10 ^ Z.of_nat (length s).
Proof.
  induction s as [|c s IH] using rev_ind; intros Hf; [done|]. apply Forall_app in Hf as [Hs [Hc _]%Forall_cons].
  rewrite atoi_app, length_app. specialize (IH Hs). simpl length.
  replace (Z.of_nat (length s + 1)) with (Z.succ (Z.of_nat (length s))) by lia.
  rewrite Z.pow_succ_r by lia. lia.
Qed.

Lemma gnumber_intro ds s :
  Forall2 gdigit ds s -> s <> [] -> (length s <= 9)%nat -> gnumber ds (atoi s) /\ 0 <= atoi s < INT_MAX.
Proof.
  intros Hf Hs Hl. pose proof (Forall2_length _ _ _ Hf) as Hlen. split.
  - exists s. split; [done|]. split; [by intros ->; destruct s|]. split; [lia|done].
  - assert (Hd : Forall (fun d => 48 <= d <= 57) s).
    { clear -Hf. induction Hf as [|x d ds s (_ & _ & _ & H) Hf IH]; by constructor. }
    pose proof (atoi_bounds s Hd) as Hb. pose proof (Z.pow_le_mono_r 10 (Z.of_nat (length s)) 9).
    change (10 ^ 9) with 1000000000 in *. unfold INT_MAX. lia.
Qed.

Lemma parseBrace_sound pos pos' n1 n2 :
  fixed_width original -> 1 <= pos -> parseBrace original pos = Done (pos', n1, n2) ->
  pos <= pos' /\ 0 <= n1 < INT_MAX /\ exists hi, n2 = bound_of hi /\ (forall h, hi = Some h -> n1 <= h < INT_MAX) /\
    gbrace (rest pos) n1 hi (rest (pos' + 1)).
Proof.
  intros Hw Hp H. unfold parseBrace in H. apply PRes_bind_Done in H as (r & Hr & H).
  destruct r as [[[[q comma] s1] s2]|]; [|done]. case_decide as Hlen; [done|]. case_decide as Hlt; [done|].
  apply Done_inj in H. injection H as <- <- <-.
  pose proof Hr as Hend. apply brace_loop_reads in Hend; [|lia].
  apply brace_loop_sound in Hr as (Hle & Hs1 & ds & s & Hf & -> & Hrest); [|lia|].
  2:{ rewrite drop_0. by apply brace_start. }
  simpl in Hs1, Hlen, Hlt |- *. destruct (gnumber_intro ds s) as [Hn Hb]; [done|done|lia|].
  split; [lia|]. split; [lia|]. destruct comma.
  - destruct Hrest as (bk & ds' & be & Hf' & ->). case_decide as Hs2.
    + subst s2. inversion Hf'; subst. exists None. split; [done|]. split; [done|].
      by apply (gbrace_min ds (atoi s) _ bk _ be).
    + destruct (gnumber_intro ds' s2) as [Hn' Hb']; [done|done|lia|]. exists (Some (atoi s2)).
      split; [done|]. split; [intros h [= <-]; lia|]. apply gbrace_range; done || lia.
  - destruct Hrest as (-> & be & ->). case_decide; [|done]. exists (Some (atoi s)).
    split; [done|]. split; [intros h [= <-]; lia|]. by apply gbrace_exact.
Qed.

(** ** Factors *)

(** The branch numbers of a program *)
Definition seg_ok (B : Z) (seg : list Node) : Prop := Forall (fun n => -1 <= n_branchNum n <= B) seg.

Lemma seg_ok_mono B B' seg : B <= B' -> seg_ok B seg -> seg_ok B' seg.
Proof. intros HB H. eapply Forall_impl; [exact H|]. simpl. lia. Qed.

Lemma seg_ok_app B s1 s2 : seg_ok B (s1 ++ s2) <-> seg_ok B s1 /\ seg_ok B s2.
Proof. apply Forall_app. Qed.

Lemma seg_ok_cons B n s : seg_ok B (n :: s) <-> (-1 <= n_branchNum n <= B) /\ seg_ok B s.
Proof. unfold seg_ok. by rewrite Forall_cons. Qed.

Lemma seg_ok_nil B : seg_ok B [].
Proof. constructor. Qed.

Ltac seg_ok :=
  unfold brace_code, star_code, plus_code, question_code, rep_code;
  repeat (case_decide || case_match); repeat (rewrite seg_ok_cons || rewrite seg_ok_app); simpl;
  repeat match goal with |- _ /\ _ => split end; first [done | lia | apply seg_ok_nil].

Abbreviation implements_re seg r :=
  (forall bytes, loops_ok r = true -> implements bytes seg (lang_rel split_chars bytes r)).

Lemma quantify_sound op b pre body st st' fl :
  fixed_width original -> 0 <= p_pos st -> p_nodes st = pre ++ body -> isRep op = true ->
  rest (p_pos st) = (op, b) :: rest (p_pos st + 1) ->
  quantify original op (length pre) st = Done (st', fl) ->
  p_pos st <= p_pos st' /\ p_branchNum st' = p_branchNum st /\ exists lo hi code,
    gquantifier (rest (p_pos st)) lo hi (rest (p_pos st' + 1)) /\ p_nodes st' = pre ++ code /\
    (forall B, 0 <= B -> seg_ok B body -> seg_ok B code) /\
    (forall r, implements_re body r -> implements_re code (RRep r lo hi)).
Proof.
  intros Hw Hp Hnodes Hrep E H. unfold quantify in H. rewrite Hnodes in H.
  case_decide as H1; [|case_decide as H2; [|case_decide as H3]].
  - apply Done_inj in H. injection H as <- _. simpl. split; [lia|]. split; [done|].
    exists 0, None, (star_code body). split; [rewrite E; by constructor|]. split; [apply star_nodes_code|].
    split; [intros B HB Hok; seg_ok|]. intros r Hr bytes Hok.
    pose proof (implements_brace split_chars bytes 0 None body r) as Hi. simpl in Hi, Hok.
    apply andb_true_iff in Hok as Hok'. apply Hi; [done..|]. apply Hr. tauto.
  - apply Done_inj in H. injection H as <- _. simpl. split; [lia|]. split; [done|].
    exists 1, None, (plus_code body). split; [rewrite E; by constructor|]. split; [apply plus_nodes_code|].
    split; [intros B HB Hok; seg_ok|]. intros r Hr bytes Hok. simpl in Hok. apply andb_true_iff in Hok as [Hok Hn].
    apply negb_true_iff in Hn. eapply implements_iff; [|apply implements_plus;
      [apply posrel_lang|intros p; by apply nullable_loop|by apply Hr]].
    intros p q Hpq. by apply (lang_rel_rep_none split_chars bytes r 1).
  - apply Done_inj in H. injection H as <- _. simpl. split; [lia|]. split; [done|].
    exists 0, (Some 1), (question_code body). split; [rewrite E; by constructor|].
    split; [apply question_nodes_code|]. split; [intros B HB Hok; seg_ok|].
    intros r Hr bytes Hok. simpl in Hok. apply andb_true_iff in Hok as [Hok _].
    eapply implements_iff; [|apply implements_question; by apply Hr].
    intros p q Hpq. rewrite lang_rel_rep by done. unfold in_bounds. split.
    + intros [H| ->]; [exists 1%nat; split; [lia|by exists q]|by exists 0%nat; split; [lia|]].
    + intros ([|[|c]] & Hc & H); [by right|destruct H as (m & Hm & ->); by left|lia].
  - apply PRes_bind_Done in H as ([[pos n1] n2] & Hb & H). apply Done_inj in H. injection H as <- _. simpl.
    assert (Hob : op = canonicalChar CHAR_OPEN_BRACE).
    { unfold isRep in Hrep. rewrite !orb_true_iff, !bool_decide_eq_true in Hrep. tauto. }
    apply parseBrace_sound in Hb as (Hle & Hn & hi & -> & Hhi & Hg); [|done|lia].
    split; [lia|]. split; [done|]. exists n1, hi, (brace_code n1 hi body).
    split; [rewrite E; by constructor|]. split; [by apply brace_nodes_code|].
    split; [intros B HB Hok; seg_ok|]. intros r Hr bytes Hok. apply implements_brace; [done|lia| |done|].
    + intros h Hh. specialize (Hhi h Hh). lia.
    + apply Hr. simpl in Hok. apply andb_true_iff in Hok. tauto.
Qed.

Abbreviation factor_rep := (factor_rep original).

(** Characters without a meaning *)
Abbreviation plain_chars := (Forall (fun x : Sym => x.1 ∉ metaCharacters escapeChar useEscape)).

Lemma plain_not_rep c : c ∉ metaCharacters escapeChar useEscape -> isRep c = false.
Proof.
  intros H. unfold isRep, metaCharacters in *. rewrite !elem_of_cons in H.
  repeat case_bool_decide; subst; tauto.
Qed.

Lemma plain_not_end c b t : c ∉ metaCharacters escapeChar useEscape -> ~ term_end ((c, b) :: t).
Proof. intros H. unfold metaCharacters in H. rewrite !elem_of_cons in H. simpl. tauto. Qed.

Lemma factor_rep_cases atom flags st st' fl :
  0 <= p_pos st -> factor_rep atom flags st = Done (st', fl) ->
  (st' = st /\ no_rep (rest (p_pos st))) \/
  exists op b atom' nodes st1,
    isRep op = true /\ rest (p_pos st) = (op, b) :: rest (p_pos st + 1) /\
    split_exactly flags atom (p_nodes st) = Done (atom', nodes) /\
    quantify original op atom' (set_nodes st nodes) = Done (st1, fl) /\
    st' = set_pos st1 (p_pos st1 + 1) /\ (0 <= p_pos st1 -> no_rep (rest (p_pos st1 + 1))).
Proof.
  intros Hp H. unfold factor_rep in H. case_decide as Hend.
  { apply Done_inj in H. injection H as <- _. left. split; [done|]. by rewrite rest_end. }
  apply PRes_bind_Done in H as (op & Hop & H). destruct (char_at_Done _ op Hp Hop) as (_ & b & E & _).
  destruct (isRep op) eqn:Hrep; simpl in H.
  2:{ apply Done_inj in H. injection H as <- _. left. split; [done|]. by rewrite E. }
  case_decide; [done|]. apply PRes_bind_Done in H as ([atom' nodes] & Hs & H).
  apply PRes_bind_Done in H as ([st1 fl1] & Hq & H). right. exists op, b, atom', nodes, st1.
  do 3 (split; [done|]). case_decide as Hlt.
  - apply PRes_bind_Done in H as (c & Hc & H). destruct (isRep c) eqn:Hrc; [done|].
    apply Done_inj in H. injection H as <- <-. split; [done|]. split; [done|]. intros Hp1.
    destruct (char_at_Done (p_pos st1 + 1) c) as (_ & bc & -> & _); [lia|done|done].
  - apply Done_inj in H. injection H as <- <-. split; [done|]. split; [done|]. intros _.
    rewrite rest_end; [done|]. simpl in Hlt. lia.
Qed.

(** A factor at [p0] was compiled, after the nodes [pre]. *)
Definition factor_ok (p0 : Z) (pre : list Node) (B0 : Z) (st' : Parser) : Prop :=
  p0 < p_pos st' /\ B0 <= p_branchNum st' /\ exists seg rs,
    p_nodes st' = pre ++ seg /\ seg_ok (p_branchNum st') seg /\
    (forall r2 t2, gterm (rest (p_pos st')) r2 t2 -> gterm (rest p0) (foldr RSeq r2 rs) t2) /\
    implements_re seg (foldr RSeq REps rs).

Lemma factor_ok_one p0 pre B0 st seg r :
  p0 < p_pos st -> B0 <= p_branchNum st -> p_nodes st = pre ++ seg -> seg_ok (p_branchNum st) seg ->
  ~ term_end (rest p0) -> gfactor escapeChar useEscape (rest p0) r (rest (p_pos st)) ->
  implements_re seg r -> factor_ok p0 pre B0 st.
Proof.
  intros Hp HB Hn Hs He Hg Hi. split; [done|]. split; [done|]. exists seg, [r].
  split; [done|]. split; [done|]. split; [intros r2 t2 H2; by eapply gterm_factor|].
  intros bytes Hok. simpl in Hok. rewrite andb_true_r in Hok.
  eapply implements_iff; [|by apply Hi]. intros p q Hpq. symmetry. by apply lang_rel_seq_eps.
Qed.

(** A primary that is not a string of characters *)
Lemma factor_rep_primary p0 pre B0 st seg r flags st' fl :
  fixed_width original -> 0 <= p0 < p_pos st -> 0 <= B0 <= p_branchNum st ->
  p_nodes st = pre ++ seg -> seg_ok (p_branchNum st) seg -> Z.land flags FLAG_EXACTLY = 0 ->
  ~ term_end (rest p0) -> gprimary (rest p0) r (rest (p_pos st)) -> implements_re seg r ->
  factor_rep (length pre) flags st = Done (st', fl) -> factor_ok p0 pre B0 st'.
Proof.
  intros Hw Hp HB Hn Hs Hfl He Hg Hi H.
  apply factor_rep_cases in H as [[-> Hrep]|(op & b & atom & nodes & st1 & Hop & E & Hsp & Hq & -> & Hrep)]; [| |lia].
  - eapply factor_ok_one; try done; [lia|lia|by constructor].
  - unfold split_exactly in Hsp. rewrite decide_False in Hsp by lia. apply Done_inj in Hsp.
    injection Hsp as <- <-.
    apply (quantify_sound op b pre seg) in Hq as (Hle & HB1 & lo & hi & code & Hgq & Hn1 & Hsk & Him);
      simpl; try done; [|lia]. simpl in Hle, HB1, Hgq.
    apply (factor_ok_one _ _ _ _ code (RRep r lo hi)); simpl; try done; [lia|lia| | |].
    + rewrite HB1. apply Hsk; [lia|done].
    + eapply gfactor_quantified; [exact Hg|exact Hgq|]. apply Hrep. lia.
    + by apply Him.
Qed.

(** *** Strings of characters *)

Lemma gterm_plain run p r2 t2 :
  plain_chars run -> no_rep p -> gterm p r2 t2 ->
  gterm (run ++ p) (foldr RSeq r2 (RChar <$> run.*1)) t2.
Proof.
  intros Hrun Hp Ht. induction Hrun as [|[c b] run Hc Hrun IH]; [done|]. simpl in *.
  apply gterm_factor with (run ++ p); [by apply plain_not_end| |done].
  apply gfactor_primary; [by constructor|]. destruct Hrun as [|[c' b'] run Hc' Hrun]; [done|].
  simpl. by apply plain_not_rep.
Qed.

Lemma implements_seqs_app s1 s2 rs1 rs2 :
  implements_re s1 (foldr RSeq REps rs1) -> implements_re s2 (foldr RSeq REps rs2) ->
  implements_re (s1 ++ s2) (foldr RSeq REps (rs1 ++ rs2)).
Proof.
  intros H1 H2 bytes Hok. assert (Hoks : loops_ok (foldr RSeq REps rs1) = true /\ loops_ok (foldr RSeq REps rs2) = true).
  { clear -Hok. induction rs1 as [|r rs1 IH]; [done|]. simpl in *. apply andb_true_iff in Hok as [-> Hok].
    by apply IH. }
  destruct Hoks as [Hok1 Hok2].
  eapply implements_iff; [|apply implements_app; [apply posrel_lang|by apply H1|by apply H2]].
  intros p q Hpq. symmetry. by apply lang_rel_seqs_app.
Qed.

Lemma implements_exactly_chars n run :
  n_op n = opExactly -> take (Z.to_nat (n_len n)) (n_str n) = run -> 0 <= n_len n <= Z.of_nat (length (n_str n)) ->
  implements_re [n] (foldr RSeq REps (RChar <$> run)).
Proof. intros Hop <- Hl bytes _. rewrite <- literal_seqs. by apply implements_lang_exactly. Qed.

Lemma implements_one_char n c str :
  n_op n = opExactlyOne -> n_str n = c :: str -> implements_re [n] (RChar c).
Proof. intros Hop Hs bytes _. by eapply implements_lang_char. Qed.

Lemma from_fst pos : from original pos = (rest pos).*1.
Proof. unfold from, rest, pattern. by rewrite fmap_drop, symbols_fst. Qed.

Lemma rest_drop pos n : 0 <= pos -> rest (pos + Z.of_nat n) = drop n (rest pos).
Proof.
  intros Hp. unfold rest. rewrite drop_drop.
  by replace (Z.to_nat (pos + Z.of_nat n)) with (Z.to_nat pos + n)%nat by lia.
Qed.

Lemma notInSet_run (t : list Sym) set :
  exists run t', t = run ++ t' /\ Z.of_nat (length run) = notInSet t.*1 set /\
    Forall (fun x : Sym => x.1 ∉ set) run.
Proof.
  induction t as [|x t IH]; [by exists [], []|]. cbn [fmap list_fmap notInSet]. case_decide as Hx.
  - by exists [], (x :: t).
  - destruct IH as (run & t' & E & Hl & Hf). exists (x :: run), t'. rewrite E. split; [done|].
    split; [|by constructor]. rewrite <- E, <- Hl. simpl. lia.
Qed.

(** The string that starts at a position. *)
Lemma run_at p0 :
  0 <= p0 -> let len := notInSet (from original p0) (metaCharacters escapeChar useEscape) in
  exists run, rest p0 = run ++ rest (p0 + len) /\ Z.of_nat (length run) = len /\ plain_chars run /\
    take (length run) (from original p0) = run.*1 /\ (length run <= length (from original p0))%nat.
Proof.
  intros Hp. cbn zeta. rewrite from_fst.
  destruct (notInSet_run (rest p0) (metaCharacters escapeChar useEscape)) as (run & t' & E & Hl & Hf).
  exists run. rewrite <- Hl. rewrite rest_drop by done. rewrite E. rewrite drop_app_length.
  split; [done|]. split; [done|]. split; [done|]. rewrite fmap_app, <- (length_fmap fst run), take_app_length.
  split; [done|]. rewrite length_app. lia.
Qed.

(** A string whose last character is quantified *)
Lemma factor_run_quantified p0 pre pre1 body B0 st st1 op bop fl run c b :
  fixed_width original -> 0 <= p0 < p_pos st -> 0 <= B0 <= p_branchNum st -> ~ term_end (rest p0) ->
  rest p0 = (run ++ [(c, b)]) ++ rest (p_pos st) -> plain_chars (run ++ [(c, b)]) ->
  p_nodes st = (pre ++ pre1) ++ body -> seg_ok 0 pre1 -> seg_ok 0 body ->
  implements_re pre1 (foldr RSeq REps (RChar <$> run.*1)) -> implements_re body (RChar c) ->
  isRep op = true -> rest (p_pos st) = (op, bop) :: rest (p_pos st + 1) ->
  quantify original op (length (pre ++ pre1)) st = Done (st1, fl) ->
  (0 <= p_pos st1 -> no_rep (rest (p_pos st1 + 1))) ->
  factor_ok p0 pre B0 (set_pos st1 (p_pos st1 + 1)).
Proof.
  intros Hw Hp HB He E Hplain Hn Hs1 Hs2 Hi1 Hi2 Hop Eop Hq Hrep.
  apply (quantify_sound op bop (pre ++ pre1) body) in Hq as (Hle & HB1 & lo & hi & code & Hgq & Hn1 & Hsk & Him);
    try done; [|lia].
  split; [simpl; lia|]. split; [simpl; lia|]. exists (pre1 ++ code), ((RChar <$> run.*1) ++ [RRep (RChar c) lo hi]).
  split; [simpl; by rewrite Hn1, <- app_assoc|]. split.
  { apply seg_ok_app. simpl. rewrite HB1. split; [apply (seg_ok_mono 0); [lia|done]|].
    apply Hsk; [lia|]. apply (seg_ok_mono 0); [lia|done]. }
  pose proof Hplain as [Hpl1 [Hc _]%Forall_cons]%Forall_app. split.
  - intros r2 t2 Ht2. rewrite E, <- app_assoc, foldr_app. simpl.
    apply gterm_plain; [done|simpl; by apply plain_not_rep|].
    eapply gterm_factor; [by apply plain_not_end| |exact Ht2].
    eapply gfactor_quantified; [by apply gprimary_char|exact Hgq|]. apply Hrep. lia.
  - apply implements_seqs_app; [done|]. intros bytes Hok. simpl in Hok.
    eapply implements_iff; [|apply (Him (RChar c) Hi2)].
    + intros p q Hpq. symmetry. by apply lang_rel_seq_eps.
    + simpl. by rewrite andb_true_r in Hok.
Qed.

Lemma factor_rep_string p0 pre B0 st flags n len st' fl :
  fixed_width original -> 0 <= p0 -> 0 <= B0 <= p_branchNum st -> ~ term_end (rest p0) ->
  len = notInSet (from original p0) (metaCharacters escapeChar useEscape) -> len <> 0 ->
  p_pos st = p0 + len -> p_nodes st = pre ++ [n] ->
  n = Node_str (if decide (len = 1) then opExactlyOne else opExactly) (from original p0) len ->
  Z.land flags FLAG_EXACTLY <> 0 ->
  factor_rep (length pre) flags st = Done (st', fl) -> factor_ok p0 pre B0 st'.
Proof.
  intros Hw Hp HB He Hlen Hne Hpos Hnodes Hnode Hfl H.
  destruct (run_at p0 Hp) as (run & E & Hrl & Hplain & Htake & Hle). cbn zeta in *. rewrite <- Hlen in *.
  assert (Hn0 : seg_ok 0 [n]) by (subst n; repeat constructor; simpl; lia).
  apply factor_rep_cases in H as [[-> Hrep]|(op & b & atom & nodes & st1 & Hop & Eop & Hsp & Hq & -> & Hrep)]; [| |lia].
  - split; [lia|]. split; [lia|]. exists [n], (RChar <$> run.*1). split; [done|].
    split; [by apply (seg_ok_mono 0); [lia|]|]. rewrite Hpos in *. split.
    { intros r2 t2 Ht2. rewrite E. by apply gterm_plain. }
    rewrite <- Htake. case_decide as H1.
    + assert (Hr1 : length run = 1%nat) by lia. rewrite Hr1 in *.
      destruct (from original p0) as [|c str] eqn:Hfrom; [simpl in Hle; lia|].
      intros bytes Hok. eapply implements_iff; [|subst n; by apply (implements_one_char _ c str)].
      intros p q Hpq. symmetry. simpl. by apply lang_rel_seq_eps.
    + subst n. apply implements_exactly_chars; simpl; [done| |lia]. f_equal. lia.
  - unfold split_exactly in Hsp. rewrite decide_True in Hsp by done. rewrite Hnodes, last_snoc in Hsp.
    destruct (exists_last (l := run)) as (run1 & [c bc] & Hrun); [by intros ->; simpl in Hrl; lia|].
    assert (Hdrop : exists str, drop (length run1) (from original p0) = c :: str).
    { rewrite from_fst, E, Hrun, <- app_assoc, fmap_app, <- (length_fmap fst run1), drop_app_length. by eexists. }
    destruct Hdrop as [str Hdrop]. rewrite Hrun, length_app in Hrl, Hle. simpl in Hrl, Hle.
    rewrite Hrun in E, Hplain.
    assert (Htake1 : take (length run1) (from original p0) = run1.*1).
    { rewrite from_fst, E, <- app_assoc, fmap_app, <- (length_fmap fst run1). by rewrite take_app_length. }
    case_decide as Hlong.
    + replace (length (pre ++ [n]) - 1)%nat with (length pre) in Hsp by len.
      rewrite take_app_length in Hsp. apply Done_inj in Hsp. injection Hsp as <- <-.
      eapply (factor_run_quantified _ _ [set_str n (n_op n) (n_str n) (n_len n - 1)]
        [set_str n opExactlyOne (drop (Z.to_nat (n_len n - 1)) (n_str n)) 1] _
        (set_nodes st ((pre ++ [set_str n (n_op n) (n_str n) (n_len n - 1)]) ++
          [set_str n opExactlyOne (drop (Z.to_nat (n_len n - 1)) (n_str n)) 1]))
        _ _ _ _ run1 c bc); simpl; try done; try lia.
      * by rewrite Hpos.
      * subst n. repeat constructor; simpl; lia.
      * subst n. repeat constructor; simpl; lia.
      * subst n. apply implements_exactly_chars; simpl in *; [tauto| |lia].
        rewrite <- Htake1. f_equal. lia.
      * subst n. apply (implements_one_char _ c str); simpl in *; [done|]. rewrite <- Hdrop. f_equal. lia.
    + apply Done_inj in Hsp. injection Hsp as <- <-.
      assert (Hl1 : len = 1). { subst n. simpl in Hlong. case_decide; [done|]. exfalso. apply Hlong. split; [done|lia]. }
      assert (run1 = []) as -> by (apply nil_length_inv; lia). simpl in Hdrop, E, Hplain.
      rewrite decide_True in Hnode by done.
      eapply (factor_run_quantified _ _ [] [n] _ (set_nodes st (pre ++ [n])) _ _ _ _ [] c bc);
        simpl; try done; try lia.
      * by rewrite Hpos.
      * by rewrite app_nil_r.
      * apply seg_ok_nil.
      * intros bytes _. eapply implements_iff; [|apply implements_nil]. intros p q Hpq. symmetry. by apply lang_rel_eps.
      * subst n. by apply (implements_one_char _ c str).
      * by rewrite app_nil_r.
Qed.

(** ** The recursive descent *)

Fixpoint alt_of (rs : list regex) : regex :=
  match rs with
  | [] => REps
  | [r] => r
  | r :: rs => RAlt r (alt_of rs)
  end.

Definition alts_ok (B : Z) (alts : list (Z * list Node)) : Prop :=
  Forall (fun a : Z * list Node => 0 <= a.1 <= B /\ seg_ok B a.2) alts.

Lemma alts_ok_code B alts : alts_ok B alts -> seg_ok B (alts_code alts).
Proof.
  induction 1 as [|[bn s] alts [Hb Hs] H IH]; [apply seg_ok_nil|]. cbn [alts_code].
  rewrite seg_ok_cons, seg_ok_app, seg_ok_cons. simpl in *. split; [lia|]. split; [done|]. split; [lia|done].
Qed.

Lemma alts_ok_mono B B' alts : B <= B' -> alts_ok B alts -> alts_ok B' alts.
Proof.
  intros HB H. eapply Forall_impl; [exact H|]. intros a [Ha Hs]. split; [lia|]. by eapply seg_ok_mono.
Qed.

(** The program of alternatives implements their expression. *)
Lemma alts_implement alts rs :
  rs <> [] -> Forall2 (fun (a : Z * list Node) r => implements_re a.2 r) alts rs ->
  implements_re (alts_code alts) (alt_of rs).
Proof.
  intros Hne H bytes Hok. eapply implements_iff;
    [|apply (implements_alts bytes alts ((fun r => lang_rel split_chars bytes r) <$> rs))].
  - intros p q Hp. clear -Hne. induction rs as [|r rs IH]; [done|]. cbn [fmap list_fmap]. rewrite Exists_cons.
    destruct rs as [|r2 rs].
    + cbn. rewrite Exists_nil. tauto.
    + rewrite IH by done. cbn [alt_of]. by rewrite lang_rel_alt.
  - clear Hne. induction H as [|a r alts rs Ha H IH]; [constructor|]. constructor.
    + apply Ha. destruct rs; simpl in Hok; [done|]. by apply andb_true_iff in Hok as [? _].
    + apply IH. destruct rs; simpl in Hok; [done|]. by apply andb_true_iff in Hok as [_ ?].
  - intros ->. apply Forall2_nil_inv_l in H. done.
Qed.

Abbreviation parseExpr := (parseExpr escapeChar useEscape original).
Abbreviation parseTerm := (parseTerm escapeChar useEscape original).
Abbreviation parseFactor := (parseFactor escapeChar useEscape original).
Abbreviation parsePrimary := (parsePrimary escapeChar useEscape original).

Definition expr_spec (fuel : nat) : Prop :=
  forall first flagp refs start st st' fl pre alts rs,
    0 <= p_pos st -> 0 <= p_branchNum st -> p_nodes st = pre ++ open_code alts ->
    refs = open_refs (length pre) alts -> (first = false -> start = open_start (length pre) alts) ->
    (first = true <-> alts = []) -> alts_ok (p_branchNum st) alts ->
    Forall2 (fun (a : Z * list Node) r => implements_re a.2 r) alts rs ->
    parseExpr fuel first flagp refs start st = Done (st', fl) ->
    p_pos st <= p_pos st' /\ p_branchNum st <= p_branchNum st' /\ exists alts' rs',
      p_nodes st' = pre ++ alts_code (alts ++ alts') /\ alts_ok (p_branchNum st') (alts ++ alts') /\
      Forall2 (fun (a : Z * list Node) r => implements_re a.2 r) (alts ++ alts') (rs ++ rs') /\
      (if first then rs' <> [] /\ gexpr (rest (p_pos st)) (alt_of rs') (rest (p_pos st'))
       else (rs' = [] /\ p_pos st' = p_pos st /\ not_next CHAR_VERTICAL_BAR (rest (p_pos st))) \/
            (exists b, rest (p_pos st) = (canonicalChar CHAR_VERTICAL_BAR, b) :: rest (p_pos st + 1) /\
               rs' <> [] /\ gexpr (rest (p_pos st + 1)) (alt_of rs') (rest (p_pos st')))).

Definition term_spec (fuel : nat) : Prop :=
  forall first flagp st st' fl,
    0 <= p_pos st -> 0 <= p_branchNum st -> parseTerm fuel first flagp st = Done (st', fl) ->
    p_pos st <= p_pos st' /\ p_branchNum st <= p_branchNum st' /\ exists seg rs,
      p_nodes st' = p_nodes st ++ seg /\ seg_ok (p_branchNum st') seg /\
      gterm (rest (p_pos st)) (foldr RSeq REps rs) (rest (p_pos st')) /\
      implements_re seg (foldr RSeq REps rs).

Definition factor_spec (fuel : nat) : Prop :=
  forall st st' fl,
    0 <= p_pos st -> 0 <= p_branchNum st -> ~ term_end (rest (p_pos st)) ->
    parseFactor fuel st = Done (st', fl) ->
    factor_ok (p_pos st) (p_nodes st) (p_branchNum st) st'.

(** A primary is compiled as one expression, or as a string. *)
Definition primary_spec (fuel : nat) : Prop :=
  forall st st' fl,
    0 <= p_pos st -> 0 <= p_branchNum st -> parsePrimary fuel st = Done (st', fl) ->
    (p_pos st < p_pos st' /\ p_branchNum st <= p_branchNum st' /\ Z.land fl FLAG_EXACTLY = 0 /\
     exists seg r, p_nodes st' = p_nodes st ++ seg /\ seg_ok (p_branchNum st') seg /\
       gprimary (rest (p_pos st)) r (rest (p_pos st')) /\ implements_re seg r) \/
    (Z.land fl FLAG_EXACTLY <> 0 /\ p_branchNum st' = p_branchNum st /\
     let len := notInSet (from original (p_pos st)) (metaCharacters escapeChar useEscape) in
     len <> 0 /\ p_pos st' = p_pos st + len /\
     p_nodes st' = p_nodes st ++
       [Node_str (if decide (len = 1) then opExactlyOne else opExactly) (from original (p_pos st)) len]).

Lemma factor_spec_step fuel : fixed_width original -> primary_spec fuel -> factor_spec (S fuel).
Proof.
  intros Hw IH st st' fl Hp HB He H. cbn [SimilarTo.parseFactor] in H.
  apply PRes_bind_Done in H as ([st1 fl1] & H1 & H).
  apply IH in H1 as [(Hpos & HB1 & Hfl & seg & r & Hn & Hs & Hg & Hi)|(Hfl & HB1 & Hne & Hpos & Hn)]; [| |done..].
  - by eapply factor_rep_primary.
  - eapply (factor_rep_string _ _ _ st1); try done. lia.
Qed.

Lemma term_spec_step fuel : factor_spec fuel -> term_spec fuel -> term_spec (S fuel).
Proof.
  intros IHf IHt first flagp st st' fl Hp HB H. cbn [SimilarTo.parseTerm] in H.
  apply PRes_bind_Done in H as (more & Hmore & H).
  assert (Hend : if more then ~ term_end (rest (p_pos st)) else term_end (rest (p_pos st))).
  { case_decide as Hlt.
    - apply PRes_bind_Done in Hmore as (c & Hc & <-%Done_inj).
      destruct (char_at_Done _ c Hp Hc) as (_ & b & -> & _). case_bool_decide as Hb; simpl; [tauto|].
      destruct (decide (c = canonicalChar CHAR_VERTICAL_BAR)); [by left|right].
      destruct (decide (c = canonicalChar CHAR_CLOSE_PAREN)); [done|tauto].
    - apply Done_inj in Hmore as <-. by rewrite rest_end by lia. }
  destruct more.
  - apply PRes_bind_Done in H as ([st1 fl1] & H1 & H).
    apply IHf in H1 as (Hpos & HB1 & seg1 & rs1 & Hn1 & Hs1 & Hg1 & Hi1); [|done..].
    apply IHt in H as (Hpos2 & HB2 & seg2 & rs2 & Hn2 & Hs2 & Hg2 & Hi2); [|lia..].
    split; [lia|]. split; [lia|]. exists (seg1 ++ seg2), (rs1 ++ rs2).
    split; [by rewrite Hn2, Hn1, <- app_assoc|].
    split; [apply seg_ok_app; split; [by eapply seg_ok_mono|done]|].
    split; [rewrite foldr_app; by apply Hg1|]. by apply implements_seqs_app.
  - apply Done_inj in H. destruct first; injection H as <- <-; simpl.
    + split; [lia|]. split; [lia|]. exists [Node_op opNothing], []. split; [done|].
      split; [repeat constructor; simpl; lia|]. split; [by constructor|].
      intros bytes _. eapply implements_iff; [|apply implements_nothing].
      intros p q Hpq. symmetry. by apply lang_rel_eps.
    + split; [lia|]. split; [lia|]. exists [], []. split; [by rewrite app_nil_r|].
      split; [apply seg_ok_nil|]. split; [by constructor|].
      intros bytes _. eapply implements_iff; [|apply implements_nil].
      intros p q Hpq. symmetry. by apply lang_rel_eps.
Qed.

(** The next alternative, after the vertical bar if there is one. *)
Lemma expr_spec_alternative fuel flagp refs st st' fl pre alts rs :
  term_spec fuel -> expr_spec fuel ->
  0 <= p_pos st -> 0 <= p_branchNum st -> p_nodes st = pre ++ open_code alts ->
  refs = open_refs (length pre) alts -> alts_ok (p_branchNum st) alts ->
  Forall2 (fun (a : Z * list Node) r => implements_re a.2 r) alts rs ->
  (let thisBranchNum := p_branchNum st in
   let start := length (p_nodes st) in
   let st := push_nodes st [set_branchNum (Node_op opBranch) thisBranchNum] in
   '(st, flags) ← parseTerm fuel true 0 st;
   let flagp := Z.lor (Z.land flagp (Z.lnot (Z.land (Z.lnot flags) FLAG_NOT_EMPTY))) flags in
   let refs := refs ++ [length (p_nodes st)] in
   let st := push_nodes st [set_branchNum (Node_op opRef) thisBranchNum] in
   let st := set_nodes st (set_ref_at start
               (Z.of_nat (length (p_nodes st)) - Z.of_nat start) (p_nodes st)) in
   parseExpr fuel false flagp refs start st) = Done (st', fl) ->
  p_pos st <= p_pos st' /\ p_branchNum st <= p_branchNum st' /\ exists alts' rs',
    p_nodes st' = pre ++ alts_code (alts ++ alts') /\ alts_ok (p_branchNum st') (alts ++ alts') /\
    Forall2 (fun (a : Z * list Node) r => implements_re a.2 r) (alts ++ alts') (rs ++ rs') /\
    rs' <> [] /\ gexpr (rest (p_pos st)) (alt_of rs') (rest (p_pos st')).
Proof.
  intros IHt IHe Hp HB Hn Hrefs Hok Him H. cbn zeta in H.
  apply PRes_bind_Done in H as ([st1 fl1] & H1 & H).
  apply IHt in H1 as (Hpos & HB1 & seg & trs & Hn1 & Hs1 & Hg1 & Hi1); [|done..].
  simpl in Hpos, HB1, Hn1, Hg1. rewrite Hn in Hn1.
  eapply (IHe _ _ _ _ _ _ _ pre (alts ++ [(p_branchNum st, seg)]) (rs ++ [foldr RSeq REps trs])) in H; simpl in *; try lia.
  - destruct H as (Hpos2 & HB2 & alts' & rs' & Hn2 & Hok2 & Him2 & Hcase).
    split; [lia|]. split; [lia|]. rewrite <- !app_assoc in *. simpl in *.
    exists ((p_branchNum st, seg) :: alts'), (foldr RSeq REps trs :: rs').
    do 3 (split; [done|]). split; [done|].
    destruct Hcase as [(-> & -> & Hnb)|(b & E & Hne & Hg)]; [by constructor|].
    replace (alt_of (foldr RSeq REps trs :: rs')) with (RAlt (foldr RSeq REps trs) (alt_of rs')) by (by destruct rs').
    rewrite E in Hg1. by eapply gexpr_alt.
  - rewrite Hn1, <- (app_assoc _ seg). rewrite Hn. exact (open_code_snoc pre alts (p_branchNum st) seg).
  - rewrite Hrefs, Hn1, open_refs_snoc. do 2 f_equal. rewrite !length_app. simpl. lia.
  - intros _. rewrite Hn, open_start_snoc, length_app. done.
  - split; [done|]. intros E. by apply app_eq_nil in E as [_ ?].
  - apply Forall_app. split; [by eapply alts_ok_mono|]. constructor; [|constructor]. simpl. split; [lia|done].
  - apply Forall2_app; [done|]. by constructor.
Qed.

Lemma expr_spec_step fuel : term_spec fuel -> expr_spec fuel -> expr_spec (S fuel).
Proof.
  intros IHt IHe first flagp refs start st st' fl pre alts rs Hp HB Hn Hrefs Hstart Hfirst Hok Him H.
  cbn [SimilarTo.parseExpr] in H. apply PRes_bind_Done in H as (more & Hmore & H). destruct first.
  - apply Done_inj in Hmore as <-.
    apply (expr_spec_alternative fuel flagp refs st st' fl pre alts rs) in H; done.
  - assert (Hbar : if more then exists b, rest (p_pos st) = (canonicalChar CHAR_VERTICAL_BAR, b) :: rest (p_pos st + 1)
                   else not_next CHAR_VERTICAL_BAR (rest (p_pos st))).
    { case_decide as Hlt.
      - apply PRes_bind_Done in Hmore as (c & Hc & <-%Done_inj).
        destruct (char_at_Done _ c Hp Hc) as (_ & b & -> & _). case_bool_decide as Hb; [|done]. subst c. eauto.
      - apply Done_inj in Hmore as <-. by rewrite rest_end by lia. }
    destruct more.
    + destruct Hbar as [b E].
      apply (expr_spec_alternative fuel flagp refs (set_pos st (p_pos st + 1)) st' fl pre alts rs) in H
        as (Hpos & HB' & alts' & rs' & Hn' & Hok' & Him' & Hne & Hg); try done; [|simpl; lia].
      simpl in *. split; [lia|]. split; [lia|]. exists alts', rs'. do 3 (split; [done|]). right. by exists b.
    + apply Done_inj in H. injection H as <- _. simpl. split; [lia|]. split; [lia|]. exists [], [].
      rewrite !app_nil_r. split; [|by split; [|split; [|left]]].
      rewrite Hn, Hrefs, Hstart by done. apply close_refs_code. intros E. by apply Hfirst in E.
Qed.

Lemma primary_spec_step fuel : expr_spec fuel -> primary_spec (S fuel).
Proof.
  intros IHe st st' fl Hp HB H. cbn [SimilarTo.parsePrimary] in H.
  apply PRes_bind_Done in H as (op & Hop & H). destruct (char_at_Done _ op Hp Hop) as (_ & b & E & _).
  case_decide as H1; [|case_decide as H2; [|case_decide as H3; [|case_decide as H4; [|case_decide as H5]]]].
  - apply Done_inj in H. injection H as <- <-. left. simpl. split; [lia|]. split; [lia|]. split; [done|].
    exists [Node_op opAny], RAny. split; [done|]. split; [repeat constructor; simpl; lia|].
    split; [rewrite E; by constructor|]. intros bytes _. by apply implements_lang_any.
  - apply Done_inj in H. injection H as <- <-. left. simpl. split; [lia|]. split; [lia|]. split; [done|].
    exists (star_code [Node_op opAny]), (RRep RAny 0 None). split; [done|]. split; [seg_ok|].
    split; [rewrite E; by constructor|]. intros bytes _.
    apply (implements_brace split_chars bytes 0 None); [done..|]. by apply implements_lang_any.
  - apply PRes_bind_Done in H as ([node pos] & Hset & H). apply Done_inj in H. injection H as <- <-.
    apply parseSet_sound in Hset as (Hpos & cs & Hg & Hsn); [|simpl; lia]. simpl in *.
    left. split; [lia|]. split; [lia|]. split; [done|]. exists [node], (RSet cs). split; [done|].
    split; [constructor; [|constructor]; rewrite (sn_branch _ _ Hsn); lia|].
    split; [rewrite E; by eapply gprimary_set|]. intros bytes _. by apply implements_lang_set.
  - apply PRes_bind_Done in H as ([st1 fl1] & He & H).
    change (parseExpr fuel true FLAG_NOT_EMPTY [] 0%nat (set_pos st (p_pos st + 1)) = Done (st1, fl1)) in He.
    apply (IHe _ _ _ _ _ _ _ (p_nodes st) [] []) in He as (Hpos & HB1 & alts & rs & Hn1 & Hok1 & Him & Hne & Hg);
      [|simpl; first [done|lia|by rewrite app_nil_r|by apply Forall_nil|by apply Forall2_nil]..].
    simpl in *. case_decide; [done|]. apply PRes_bind_Done in H as (c & Hc & H).
    destruct (char_at_Done (p_pos st1) c) as (_ & bc & Ec & _); [lia|done|]. case_decide as Hcl; [done|].
    apply Done_inj in H. injection H as <- <-. simpl. left. split; [lia|]. split; [lia|].
    split; [rewrite <- Z.land_assoc; apply Z.land_0_r|].
    exists (alts_code alts), (alt_of rs). split; [done|].
    split; [apply alts_ok_code; eapply alts_ok_mono; [|exact Hok1]; lia|].
    split; [rewrite E; rewrite Ec, Hcl in Hg; by eapply gprimary_paren|]. by apply alts_implement.
  - unfold primary_escaped in H. apply PRes_bind_Done in H as (u & Hu & H). apply Done_inj in H.
    injection H as <- <-. simpl in *. apply check_escaped_sound in Hu as (c & bc & Ec & Hesc & Hc); [|lia].
    left. split; [lia|]. split; [lia|]. split; [done|].
    exists [Node_str opExactlyOne (from original (p_pos st + 1)) 1], (RChar c). split; [done|].
    split; [repeat constructor; simpl; lia|]. split; [rewrite E, Ec; by apply gprimary_escaped|].
    apply (implements_one_char _ c (rest (p_pos st + 1 + 1)).*1); [done|]. simpl. by rewrite from_fst, Ec.
  - unfold primary_exactly in H. simpl in H. replace (p_pos st + 1 - 1) with (p_pos st) in H by lia.
    case_decide as Hlen; [done|]. apply Done_inj in H. injection H as <- <-. right. simpl.
    split; [done|]. split; [done|]. done.
Qed.

Lemma parse_specs fuel :
  fixed_width original -> expr_spec fuel /\ term_spec fuel /\ factor_spec fuel /\ primary_spec fuel.
Proof.
  intros Hw. induction fuel as [|fuel (IHe & IHt & IHf & IHp)].
  - repeat split; repeat intro; match goal with H : _ = Done _ |- _ => discriminate H end.
  - split; [by apply expr_spec_step|]. split; [by apply term_spec_step|].
    split; [by apply factor_spec_step|by apply primary_spec_step].
Qed.

(** An accepted pattern: its expression, and what its program implements. *)
Lemma Evaluator_new_sound ev :
  fixed_width original -> Evaluator_new escapeChar useEscape original = Done ev ->
  0 <= ev_branchNum ev /\ exists r seg,
    gexpr (symbols split_chars original) r [] /\
    ev_nodes ev = Node_op opStart :: seg ++ [Node_op opEnd] /\ seg_ok (ev_branchNum ev) seg /\
    implements_re seg r.
Proof.
  intros Hw H. unfold Evaluator_new in H. apply PRes_bind_Done in H as ([st fl] & He & H).
  case_decide as Hend; [done|]. apply Done_inj in H. subst ev.
  destruct (parse_specs (4 * length (pattern original) + 8) Hw) as (IHe & _).
  apply (IHe _ _ _ _ _ _ _ [Node_op opStart] [] []) in He as (Hpos & HB & alts & rs & Hn & Hok & Him & Hne & Hg);
    [|simpl; first [done|lia|by apply Forall_nil|by apply Forall2_nil]..].
  simpl in *. split; [lia|]. exists (alt_of rs), (alts_code alts).
  split; [rewrite (rest_end (p_pos st)) in Hg by lia; exact Hg|]. split; [by rewrite Hn|].
  split; [by apply alts_ok_code|]. by apply alts_implement.
Qed.
End Parse.
