(* ===== verification/SimilarEval.v ===== *)
(** * SIMILAR TO: the evaluator as a whole

    The answer of an evaluator is the language of its pattern; the compiler always
    ends; and the patterns on which the code does not do what it means to. *)

From stdpp Require Import relations.
From S2P Require Import Prelude TextType SimpleStack SimilarTo SimilarSpec SimilarRun SimilarLang SimilarParse.

Section Eval.
Context `{T : TextType}.

(** ** Running the machine

    The machine on a stack that is never full is [ideal_run]; [match_run] does the same as long as no
    repetition ends when the block of the stack is full. *)

Section Machine.
Context (nodes : list Node) (bytes : list Z).

Fixpoint ideal_run (fuel : nat) (m : Machine) : option (option (bool * list (Z * Z))) :=
  match fuel with
  | O => Some None
  | S fuel =>
      r ← match_step nodes bytes false m;
      match r with
      | inl m => ideal_run fuel m
      | inr b => Some (Some (b, m_branches m))
      end
  end.

Lemma ideal_run_steps m m' b :
  steps bytes nodes m m' -> match_step nodes bytes false m' = Some (inr b) ->
  exists n, forall fuel, (n <= fuel)%nat -> ideal_run fuel m = Some (Some (b, m_branches m')).
Proof.
  intros H Hb. induction H as [m|m m1 m' Hs _ IH].
  - exists 1%nat. intros [|fuel] Hf; [lia|]. cbn [ideal_run]. by rewrite Hb.
  - destruct (IH Hb) as [n Hn]. exists (S n). intros [|fuel] Hf; [lia|]. cbn [ideal_run]. rewrite Hs.
    apply Hn. lia.
Qed.

(** The machine after [n] iterations, with the size of the block of its stack *)
Fixpoint match_after (n : nat) (size : Z) (m : Machine) : option (Z * Machine) :=
  match n with
  | O => Some (size, m)
  | S n =>
      r ← match_step nodes bytes (stack_full size m) m;
      match r with inl m => match_after n (stack_size size m) m | inr _ => None end
  end.

(** A repetition is about to end. *)
Definition ends_repetition (m : Machine) : bool :=
  match m_scopes m with
  | (PNode i, _) :: _ =>
      match nodes @ i with
      | Some n => bool_decide (n_op n = opRepeatingRefEnd /\ m_state m = msIterating /\ m_repeatCount m <= 0)
      | None => false
      end
  | _ => false
  end.

(** From there the machine comes to the end of a repetition when the block of the stack is full. *)
Definition dangles_from (size : Z) (m : Machine) : Prop :=
  exists n size' m', match_after n size m = Some (size', m') /\ stack_full size' m' = true /\ ends_repetition m' = true.

Lemma match_step_full m :
  match_step nodes bytes true m = match_step nodes bytes false m \/
  match_step nodes bytes true m = None /\ ends_repetition m = true.
Proof.
  unfold match_step, ends_repetition. destruct (m_scopes m) as [|[[i| |] save] rest] eqn:Es; [by left|..].
  - cbn [deref]. destruct (nodes @ i) as [n|]; [|by left]. cbn [mbind option_bind].
    destruct (n_op n) eqn:Eo; unfold match_switch; rewrite Eo; try by left.
    unfold sw_repeat_end. destruct (m_state m) eqn:Em; try by left. case_decide as Hc; [by left|].
    right. rewrite bool_decide_eq_true. split; [|split; [done|split; [done|lia]]].
    unfold pop_repeat. by destruct (m_repeatStack m).
  - by left.
  - by left.
Qed.

Lemma match_run_ideal fuel size m :
  match_run nodes bytes fuel size m = ideal_run fuel m \/
  match_run nodes bytes fuel size m = None /\ dangles_from size m.
Proof.
  revert size m. induction fuel as [|fuel IH]; intros size m; [by left|]. cbn [match_run ideal_run].
  assert (H : match_step nodes bytes (stack_full size m) m = match_step nodes bytes false m \/
    match_step nodes bytes (stack_full size m) m = None /\ stack_full size m = true /\ ends_repetition m = true).
  { destruct (stack_full size m); [|by left]. destruct (match_step_full m) as [?|[? ?]]; auto. }
  destruct H as [H|(H & Hf & He)]; [|right; rewrite H; split; [done|]; by exists 0%nat, size, m].
  rewrite H. destruct (match_step nodes bytes false m) as [[m'|b]|] eqn:E; [|by left..]. cbn [mbind option_bind].
  destruct (IH (stack_size size m') m') as [?|(Hr & k & size' & m'' & Hk & Hfe)]; [by left|]. right. split; [done|].
  exists (S k), size', m''. split; [|done]. cbn [match_after]. rewrite H. exact Hk.
Qed.

Lemma match_run_more fuel fuel' size m : (fuel <= fuel')%nat -> match_run nodes bytes fuel size m <> Some None ->
  match_run nodes bytes fuel' size m = match_run nodes bytes fuel size m.
Proof.
  revert fuel' size m. induction fuel as [|fuel IH]; intros [|fuel'] size m Hle; [done|done|lia|]. cbn [match_run].
  destruct (match_step _ _ _ m) as [[m'|b]|]; [|done..]. intros Hr. apply IH; [lia|exact Hr].
Qed.
End Machine.

(** The result of an evaluator on a stack that is never full *)
Definition ideal_result (fuel : nat) (ev : Evaluator) (s : EvaluatorState) : option (option (bool * EvaluatorState)) :=
  r ← ideal_run (ev_nodes ev) (es_buffer s) fuel (match_init (es_branches s));
  match r with
  | None => Some None
  | Some (b, br) => Some (Some (b, {| es_buffer := es_buffer s; es_branches := br |}))
  end.

(** The evaluator comes to read what it has freed. *)
Definition dangles (ev : Evaluator) (s : EvaluatorState) : Prop :=
  dangles_from (ev_nodes ev) (es_buffer s) INCREASE_FACTOR (match_init (es_branches s)).

Lemma getResult_ideal fuel ev s :
  similar_getResult fuel ev s = ideal_result fuel ev s \/ similar_getResult fuel ev s = None /\ dangles ev s.
Proof.
  unfold similar_getResult, ideal_result.
  destruct (match_run_ideal (ev_nodes ev) (es_buffer s) fuel INCREASE_FACTOR (match_init (es_branches s))) as [->|[-> ?]];
    [by left|by right].
Qed.

Lemma getResult_more fuel fuel' ev s r : (fuel <= fuel')%nat -> similar_getResult fuel ev s = r -> r <> Some None ->
  similar_getResult fuel' ev s = r.
Proof.
  unfold similar_getResult. intros Hle <- Hr. rewrite (match_run_more _ _ fuel fuel' _ _ Hle); [done|].
  intros E. by rewrite E in Hr.
Qed.

(** The chunks of a value *)
Definition similar_feed (ev : Evaluator) (chunks : list (list Z)) : EvaluatorState :=
  foldl (fun s data => similar_processNextChunk data s) (similar_reset ev) chunks.

Lemma similar_feed_buffer ev chunks :
  es_buffer (similar_feed ev chunks) = mjoin chunks /\
  es_branches (similar_feed ev chunks) = es_branches (similar_reset ev).
Proof.
  unfold similar_feed. induction chunks as [|c chunks IH] using rev_ind; [done|].
  rewrite foldl_app, join_app. destruct IH as [IH1 IH2]. simpl. rewrite IH1, IH2. by rewrite app_nil_r.
Qed.

Context (split_chars : list Z -> list (list Z)) `{!TextTypeLaws T split_chars}.

(** A whole program *)
Lemma program_eval bytes seg r B :
  0 <= B -> seg_ok B seg -> implements bytes seg (lang_rel split_chars bytes r) ->
  evalP bytes (Node_op opStart :: seg ++ [Node_op opEnd]) (Z.to_nat (B + 1)) 0 0 [] 0
    (lang r (symbols split_chars bytes)).
Proof.
  intros HB Hok Himp. set (nodes := Node_op opStart :: seg ++ [Node_op opEnd]).
  assert (Hc : code_at nodes 0 (Node_op opStart :: seg ++ [Node_op opEnd]))
    by (exists [], []; by rewrite app_nil_r).
  apply code_at_cons in Hc as [Hn [Hcs [He _]%code_at_cons]%code_at_app].
  assert (Hsize : 0 <= bufferEnd bytes) by (unfold bufferEnd; lia).
  apply (evalP_iff _ _ _ _ _ _ _ (0 = 0 /\ exists p', lang_rel split_chars bytes r 0 p' /\ p' = bufferEnd bytes)).
  { split.
    - intros (_ & p' & [_ H] & ->). by rewrite slice_all in H.
    - intros H. split; [done|]. exists (bufferEnd bytes). split; [|done]. split; [lia|]. by rewrite slice_all. }
  apply eval_start; [done|]. intros _. apply Himp; [done| |lia|].
  - eapply Forall_impl; [exact Hok|]. intros n Hbn. unfold branch_ok. simpl in Hbn. lia.
  - intros p' _. by apply eval_end.
Qed.

(** On a stack that is never full, an evaluator decides the language of its pattern's expression. *)
Lemma evaluator_decides escapeChar useEscape p ev :
  fixed_width split_chars p -> Evaluator_new escapeChar useEscape p = Done ev ->
  exists r, gexpr escapeChar useEscape (symbols split_chars p) r [] /\
    (loops_ok r = true -> forall s, length (es_branches s) = Z.to_nat (ev_branchNum ev + 1) ->
       exists n b s', forall fuel, (n <= fuel)%nat ->
         ideal_result fuel ev s = Some (Some (b, s')) /\
         (b = true <-> lang r (symbols split_chars (es_buffer s)))).
Proof.
  intros Hw Hev. destruct (Evaluator_new_sound split_chars escapeChar useEscape p ev Hw Hev)
    as (HB & r & seg & Hg & Hn & Hok & Himp).
  exists r. split; [done|]. intros Hl s Hs.
  destruct (program_eval (es_buffer s) seg r (ev_branchNum ev) HB Hok (Himp _ Hl)) as (b & Hb & Heval).
  destruct (Heval None [(PRet, None)] (es_branches s)) as (pos & rs & rc & br & Hst & _); [done|].
  apply (ideal_run_steps _ _ _ _ b) in Hst as [n Hrun]; [|by destruct b].
  exists n, b, {| es_buffer := es_buffer s; es_branches := br |}. intros fuel Hf. split; [|done].
  unfold ideal_result. rewrite Hn. unfold match_init. simpl in Hrun.
  rewrite Hrun by done. done.
Qed.

(** C16. SIMILAR TO: whenever the constructor accepts a pattern, the pattern is a text
    of the grammar, and if its expression repeats nothing that can be empty without
    a bound, then for a value given in any chunks the matching machine ends, and answers whether the value is in the
    language of the expression; or it leaves its memory, but only where it comes to the end of a counted repetition when
    the block of its stack, of 50 scopes or a multiple, is full: then the code reads a scope that it has just freed. The
    width of the pattern's characters is fixed. *)
Theorem similar_correct escapeChar useEscape p ev :
  fixed_width split_chars p -> Evaluator_new escapeChar useEscape p = Done ev ->
  exists r, gexpr escapeChar useEscape (symbols split_chars p) r [] /\
    (loops_ok r = true -> forall chunks, exists n,
       (exists b s, (b = true <-> lang r (symbols split_chars (mjoin chunks))) /\
          forall fuel, (n <= fuel)%nat -> similar_getResult fuel ev (similar_feed ev chunks) = Some (Some (b, s))) \/
       (dangles ev (similar_feed ev chunks) /\
          forall fuel, (n <= fuel)%nat -> similar_getResult fuel ev (similar_feed ev chunks) = None)).
Proof.
  intros Hw Hev. destruct (evaluator_decides _ _ _ _ Hw Hev) as (r & Hg & Hdec). exists r. split; [done|].
  intros Hl chunks. destruct (similar_feed_buffer ev chunks) as [Ebuf Ebr]. rewrite <- Ebuf.
  destruct (Hdec Hl (similar_feed ev chunks)) as (n & b & s & Hn); [rewrite Ebr; apply length_replicate|].
  destruct (Hn n (le_n n)) as [Hi Hb]. exists n. destruct (getResult_ideal n ev (similar_feed ev chunks)) as [Hr|[Hr Hd]].
  - left. exists b, s. split; [done|]. intros fuel Hf. apply (getResult_more n fuel); [done|congruence|done].
  - right. split; [done|]. intros fuel Hf. by apply (getResult_more n fuel).
Qed.
End Eval.

(** ** The compiler always ends *)

Section Termination.
Context `{T : TextType} (split_chars : list Z -> list (list Z)) `{!TextTypeLaws T split_chars}.
Context (escapeChar : Z) (useEscape : bool) (original : list Z).

Abbreviation patternEnd := (patternEnd original).

(** A result that is not for lack of fuel, at a position allowed by [P]. *)
Definition ends {A} (P : A -> Prop) (r : PRes A) : Prop :=
  match r with Done a => P a | NoFuel => False | _ => True end.

Lemma ends_bind {A B} (P : A -> Prop) (Q : B -> Prop) (m : PRes A) (f : A -> PRes B) :
  ends P m -> (forall a, m = Done a -> P a -> ends Q (f a)) -> ends Q (m ≫= f).
Proof. destruct m; simpl; [|done..]. intros H Hf. by apply Hf. Qed.

Lemma ends_mono {A} (P Q : A -> Prop) (m : PRes A) : (forall a, P a -> Q a) -> ends P m -> ends Q m.
Proof. destruct m; simpl; auto. Qed.

Lemma ends_char_at pos : ends (fun _ => 0 <= pos < patternEnd) (char_at original pos).
Proof.
  unfold char_at. destruct (pattern original @ pos) eqn:E; simpl; [|done].
  by apply aget_lt_Some in E.
Qed.

Lemma ends_check_escaped pos :
  ends (fun _ => True) (check_escaped escapeChar useEscape original pos).
Proof.
  unfold check_escaped. case_decide; [done|]. eapply ends_bind; [apply ends_char_at|].
  intros c _ _. by case_decide.
Qed.

Lemma ends_range_follows pos : ends (fun _ => True) (range_follows original pos).
Proof.
  unfold range_follows. case_decide; [|done]. by eapply ends_bind; [apply ends_char_at|].
Qed.

Lemma ends_skip_to_colon fuel pos :
  (Z.to_nat (patternEnd - pos) < fuel)%nat -> ends (fun q => pos <= q) (skip_to_colon original fuel pos).
Proof.
  revert pos. induction fuel as [|fuel IH]; intros pos Hf; [lia|]. cbn [skip_to_colon].
  case_decide; [|simpl; lia]. eapply ends_bind; [apply ends_char_at|]. intros c _ _.
  case_decide; [|simpl; lia]. eapply ends_mono; [|apply IH; lia]. intros q Hq. simpl in *. lia.
Qed.

Lemma ends_set_char pos range st :
  ends (fun st' => pos < ss_pos st') (set_char escapeChar useEscape original pos range st).
Proof.
  unfold set_char. eapply ends_bind; [apply ends_char_at|]. intros c _ _. destruct range; [|simpl; lia].
  case_decide; [done|]. eapply ends_bind; [apply ends_char_at|]. intros c1 _ _.
  apply (ends_bind (fun q => pos + 2 <= q)).
  - case_decide; [|simpl; lia]. eapply ends_bind; [apply ends_check_escaped|]. intros [] _ _. simpl. lia.
  - intros q _ Hq. eapply ends_bind; [apply ends_char_at|]. intros c2 _ _. simpl in *. lia.
Qed.

Lemma patternEnd_length : patternEnd = Z.of_nat (length (pattern original)).
Proof. done. Qed.

Lemma ends_set_class pos st :
  0 <= pos -> ends (fun st' => pos < ss_pos st') (set_class original pos st).
Proof.
  intros Hp. unfold set_class. case_decide; [done|]. eapply ends_bind; [apply ends_char_at|]. intros c _ _.
  case_decide; [done|].
  eapply ends_bind; [apply ends_skip_to_colon; rewrite patternEnd_length; lia|]. intros q _ Hq.
  case_decide; [done|]. eapply ends_bind; [apply ends_char_at|]. intros c1 _ _. case_decide; [done|].
  destruct (find_class _ _); [|done]. simpl in *. lia.
Qed.

Lemma ends_set_body st :
  0 <= ss_pos st ->
  ends (fun st' => ss_pos st < ss_pos st') (set_body escapeChar useEscape original st).
Proof.
  intros Hp. unfold set_body. case_decide; [done|].
  assert (Hchk : forall st1, ss_pos st < ss_pos st1 ->
            ends (fun st' => ss_pos st < ss_pos st') (set_check_end original st1)).
  { intros st1 Hx1. unfold set_check_end. by case_decide. }
  eapply ends_bind; [apply ends_char_at|]. intros c _ _.
  case_decide.
  { eapply ends_bind; [apply ends_check_escaped|]. intros [] _ _.
    eapply ends_bind; [apply ends_range_follows|]. intros r _ _.
    eapply ends_bind; [apply ends_set_char|]. intros st1 _ Hx1. apply Hchk. simpl in Hx1. lia. }
  case_decide; [eapply ends_bind; [by apply ends_set_class|intros st1 _ Hx1; by apply Hchk]|].
  case_decide; [destruct (ss_but st); [done|simpl; lia]|].
  eapply ends_bind; [apply ends_range_follows|]. intros r _ _.
  eapply ends_bind; [apply ends_set_char|]. intros st1 _ Hx1. by apply Hchk.
Qed.

Lemma ends_set_loop fuel st :
  0 <= ss_pos st -> (Z.to_nat (patternEnd - ss_pos st) < fuel)%nat ->
  ends (fun st' => ss_pos st < ss_pos st') (set_loop escapeChar useEscape original fuel st).
Proof.
  revert st. induction fuel as [|fuel IH]; intros st Hp Hf; [lia|]. cbn [set_loop].
  eapply ends_bind; [by apply ends_set_body|]. intros st1 _ Hx1. simpl in Hx1.
  eapply ends_bind; [apply ends_char_at|]. intros c _ Hc. simpl in Hc. case_decide; [|done].
  eapply ends_mono; [|apply IH; lia]. intros st2 Hx2. simpl in Hx2. lia.
Qed.

Lemma ends_parseSet pos :
  0 <= pos -> ends (fun r : Node * Z => pos < r.2) (parseSet escapeChar useEscape original pos).
Proof.
  intros Hp. unfold parseSet. eapply ends_bind.
  - apply ends_set_loop; [done|]. cbn [ss_pos]. rewrite patternEnd_length. lia.
  - intros st _ Hst. simpl in *. lia.
Qed.

Lemma ends_brace_loop fuel p size pos comma s1 s2 :
  0 <= pos -> (Z.to_nat (patternEnd - pos) < fuel)%nat ->
  ends (fun r => match r with Some (q, _, _, _) => pos <= q | None => True end)
    (brace_loop original fuel p size pos comma s1 s2).
Proof.
  revert p size pos comma s1 s2. induction fuel as [|fuel IH]; intros p size pos comma s1 s2 Hp Hf; [lia|].
  cbn [brace_loop]. case_decide; [done|]. eapply ends_bind; [apply ends_char_at|]. intros c _ Hc. simpl in Hc.
  assert (Hnext : forall p size comma s1 s2,
    ends (fun r => match r with Some (q, _, _, _) => pos <= q | None => True end)
      (brace_loop original fuel p size (pos + 1) comma s1 s2)).
  { intros. eapply ends_mono; [|apply IH; lia]. intros [[[[q ?] ?] ?]|]; [lia|done]. }
  case_decide; [case_decide; [done|simpl; lia]|].
  case_decide; [by destruct comma|]. case_decide; [|done]. by destruct comma.
Qed.

Lemma ends_parseBrace pos :
  0 <= pos -> ends (fun r : Z * Z * Z => pos <= r.1.1) (parseBrace original pos).
Proof.
  intros Hp. unfold parseBrace. eapply ends_bind.
  - apply ends_brace_loop; [done|]. rewrite patternEnd_length. lia.
  - intros [[[[q comma] s1] s2]|] _ Hq; [|done]. case_decide; [done|]. by case_decide.
Qed.

Lemma ends_quantify op atom st :
  0 <= p_pos st ->
  ends (fun r : Parser * Z => p_pos st <= p_pos r.1) (quantify original op atom st).
Proof.
  intros Hp. unfold quantify. repeat (case_decide; [simpl; lia|]).
  eapply ends_bind; [apply ends_parseBrace; lia|]. intros [[pos n1] n2] _ Hq. simpl in *. lia.
Qed.

Lemma ends_factor_rep atom flags st :
  0 <= p_pos st ->
  ends (fun r : Parser * Z => p_pos st <= p_pos r.1) (factor_rep original atom flags st).
Proof.
  intros Hp. unfold factor_rep. case_decide; [simpl; lia|]. eapply ends_bind; [apply ends_char_at|].
  intros op _ _. destruct (isRep op); [|simpl; lia]. simpl. case_decide; [done|].
  apply (ends_bind (fun _ => True)).
  { unfold split_exactly. case_decide; [|done]. destruct (last _); [|done]. by case_decide. }
  intros [atom' nodes] _ _. eapply ends_bind; [by apply ends_quantify|]. intros [st1 fl] _ Hx1. simpl in Hx1.
  case_decide; [|simpl; lia]. eapply ends_bind; [apply ends_char_at|]. intros c _ _.
  destruct (isRep c); [done|]. simpl. lia.
Qed.

Definition rem (st : Parser) : nat := Z.to_nat (patternEnd - p_pos st).

(** Enough fuel for each of the functions, in terms of what is left of the pattern. *)
Definition fuel_specs (fuel : nat) : Prop :=
  (forall first flagp refs start st, 0 <= p_pos st ->
     (4 * rem st + (if first : bool then 3 else 2) <= fuel)%nat ->
     ends (fun r => p_pos st <= p_pos r.1)
       (parseExpr escapeChar useEscape original fuel first flagp refs start st)) /\
  (forall first flagp st, 0 <= p_pos st -> (4 * rem st + 2 <= fuel)%nat ->
     ends (fun r => p_pos st <= p_pos r.1) (parseTerm escapeChar useEscape original fuel first flagp st)) /\
  (forall st, 0 <= p_pos st < patternEnd -> (4 * rem st + 1 <= fuel)%nat ->
     ends (fun r => p_pos st < p_pos r.1) (parseFactor escapeChar useEscape original fuel st)) /\
  (forall st, 0 <= p_pos st < patternEnd -> (4 * rem st <= fuel)%nat ->
     ends (fun r => p_pos st < p_pos r.1) (parsePrimary escapeChar useEscape original fuel st)).

Lemma fuel_enough fuel : fuel_specs fuel.
Proof.
  induction fuel as [|fuel (IHe & IHt & IHf & IHp)].
  { repeat split; intros; [destruct first; lia|lia|lia|unfold rem in *; lia]. }
  split; [|split; [|split]].
  - intros first flagp refs start st Hp Hf. cbn [parseExpr].
    apply (ends_bind (fun more : bool => more = true -> first = false -> p_pos st < patternEnd)).
    { destruct first; [done|]. case_decide; [|done]. eapply ends_bind; [apply ends_char_at|]. intros c _ _ _ _. done. }
    intros more _ Hmore. destruct more; [|simpl; lia].
    set (st0 := if first then st else set_pos st (p_pos st + 1)).
    assert (Hst0 : p_pos st <= p_pos st0 /\ (4 * rem st0 + 3 <= S fuel)%nat).
    { subst st0. destruct first; simpl; [unfold rem in *; lia|]. specialize (Hmore eq_refl eq_refl).
      unfold rem in *. simpl. lia. }
    eapply ends_bind; [apply IHt; simpl; [lia|unfold rem in *; simpl; lia]|]. intros [st1 fl1] _ Hx1. simpl in Hx1.
    eapply ends_mono; [|apply IHe; simpl; [lia|unfold rem in *; simpl; lia]].
    intros r Hr. simpl in Hr. lia.
  - intros first flagp st Hp Hf. cbn [parseTerm].
    apply (ends_bind (fun more : bool => more = true -> p_pos st < patternEnd)).
    { case_decide; [|done]. eapply ends_bind; [apply ends_char_at|]. intros c _ _ _. done. }
    intros more _ Hmore. destruct more; [|destruct first; simpl; lia]. specialize (Hmore eq_refl).
    eapply ends_bind; [apply IHf; [lia|unfold rem in *; lia]|]. intros [st1 fl1] _ Hx1. simpl in Hx1.
    eapply ends_mono; [|apply IHt; [lia|unfold rem in *; lia]]. intros r Hr. simpl in Hr. lia.
  - intros st Hp Hf. cbn [parseFactor]. eapply ends_bind; [apply IHp; [done|lia]|].
    intros [st1 fl1] _ Hx1. simpl in Hx1. eapply ends_mono; [|apply ends_factor_rep; lia].
    intros r Hr. simpl in Hr. lia.
  - intros st Hp Hf. cbn [parsePrimary]. eapply ends_bind; [apply ends_char_at|]. intros op _ _.
    case_decide; [simpl; lia|]. case_decide; [simpl; lia|].
    case_decide.
    { eapply ends_bind; [apply ends_parseSet; simpl; lia|]. intros [node pos] _ Hpos. simpl in *. lia. }
    case_decide.
    { eapply ends_bind; [apply (IHe true); simpl; [lia|unfold rem in *; simpl; lia]|].
      intros [st1 fl1] _ Hx1. simpl in Hx1. case_decide; [done|].
      eapply ends_bind; [apply ends_char_at|]. intros c _ _. case_decide; [done|]. simpl. lia. }
    case_decide.
    { unfold primary_escaped. eapply ends_bind; [apply ends_check_escaped|]. intros [] _ _. simpl. lia. }
    unfold primary_exactly. case_decide; [done|]. simpl.
    destruct (run_at split_chars escapeChar useEscape original (p_pos st + 1 - 1)) as (run & _ & Hl & _); [lia|].
    simpl in *. lia.
Qed.

(** C37. The compilation of every pattern ends, with a program, an error, or a read
    outside the pattern. *)
Theorem similar_compile_ends : Evaluator_new escapeChar useEscape original <> NoFuel.
Proof.
  intros H. pose proof (proj1 (fuel_enough (4 * length (pattern original) + 8))) as He.
  specialize (He true FLAG_NOT_EMPTY [] 0%nat {| p_pos := 0; p_nodes := [Node_op opStart]; p_branchNum := 0 |}).
  unfold Evaluator_new in H.
  destruct (parseExpr _ _ _ _ _ _ _ _ _) as [[st fl]| | |]; simpl in H; [by case_decide|done|done|].
  apply He; [done|]. unfold rem. rewrite patternEnd_length. simpl. lia.
Qed.
End Termination.

(** ** Concrete patterns *)

Definition latin_string (s : string) : list Z :=
  (fun a => Z.of_nat (Ascii.nat_of_ascii a)) <$> String.list_ascii_of_string s.

(** The character [#] is the escape. *)
Definition latin_compile (s : string) : PRes Evaluator :=
  Evaluator_new (T := latin_text) 35 true (latin_string s).

Definition latin_match (p s : string) : PRes (option (option bool)) :=
  similar_evaluate (T := latin_text) 2000 35 true (latin_string p) (latin_string s).

Lemma latin_fixed_width s : fixed_width single_bytes s.
Proof. exists 1%nat. unfold single_bytes. by apply Forall_fmap, Forall_true. Qed.

Lemma similar_correct_witness :
  exists ev, latin_compile "(a|[b-d^c])+_{1,2}%#%" = Done ev /\
    exists r, gexpr (T := latin_text) 35 true
      (symbols (T := latin_text) single_bytes (latin_string "(a|[b-d^c])+_{1,2}%#%")) r [] /\
      (loops_ok r = true -> forall chunks, exists n,
        (exists b s, (b = true <-> lang (T := latin_text) r (symbols (T := latin_text) single_bytes (mjoin chunks))) /\
           forall fuel, (n <= fuel)%nat ->
             similar_getResult (T := latin_text) fuel ev (similar_feed ev chunks) = Some (Some (b, s))) \/
        (dangles (T := latin_text) ev (similar_feed ev chunks) /\
           forall fuel, (n <= fuel)%nat -> similar_getResult (T := latin_text) fuel ev (similar_feed ev chunks) = None)).
Proof.
  eexists. split; [vm_compute; reflexivity|].
  eapply (similar_correct (T := latin_text) single_bytes (TextTypeLaws0 := latin_laws)).
  - apply latin_fixed_width.
  - vm_compute. reflexivity.
Defined.

Lemma similar_compile_ends_witness : latin_compile "((((a{" <> NoFuel.
Proof.
  exact (similar_compile_ends (T := latin_text) single_bytes (TextTypeLaws0 := latin_laws) 35 true
           (latin_string "((((a{")).
Defined.

Example latin_match_1 : latin_match "(a|[b-d^c])+_{1,2}%#%" "abdxyz%" = Done (Some (Some true)).
Proof. vm_compute. reflexivity. Qed.

Example latin_match_2 : latin_match "(a|[b-d^c])+_{1,2}%#%" "acc%" = Done (Some (Some true)).
Proof. vm_compute. reflexivity. Qed.

Example latin_match_3 : latin_match "([[:DIGIT:]]{3}|x)*" "123x45" = Done (Some (Some false)).
Proof. vm_compute. reflexivity. Qed.

(** *** Where the code does not do what it means to *)

(** An expression is taken as never empty when one of its later alternatives is not
    empty, so [(|a)*] is accepted and the machine never ends on it. *)
Definition empty_loop : PRes Evaluator := latin_compile "(|a)*".

Lemma empty_loop_run ev fuel size rest save b0 b1 :
  empty_loop = Done ev ->
  match_run (T := latin_text) (ev_nodes ev) [] fuel size
    (mk_machine ((PNode 2, save) :: rest) msIterating 0 [] 0 [b0; b1]) = Some None.
Proof.
  intros Hev. vm_compute in Hev. injection Hev as <-. revert size rest save b0 b1.
  induction fuel as [fuel IH] using lt_wf_ind. intros size rest save b0 b1.
  do 5 (destruct fuel as [|fuel]; [reflexivity|]; cbn [match_run]; cbn -[match_run stack_full stack_size]).
  apply IH. lia.
Qed.

Lemma similar_empty_loop_diverges ev fuel :
  empty_loop = Done ev ->
  similar_getResult (T := latin_text) fuel ev (similar_reset ev) = Some None.
Proof.
  intros Hev. pose proof (fun f => empty_loop_run ev f INCREASE_FACTOR [(PNode 1, Some 0); (PRet, None)] None (0, 0) (0, 0) Hev) as Hrun.
  vm_compute in Hev. injection Hev as <-. unfold similar_getResult.
  do 2 (destruct fuel as [|fuel]; [reflexivity|]).
  match goal with |- mbind _ ?m = _ => assert (E : m = Some None) by exact (Hrun fuel) end.
  by rewrite E.
Qed.

(** An open bracket and a circumflex end the pattern: the code reads the character
    after its end. *)
Example similar_set_overrun : latin_compile "[^" = OutOfBounds.
Proof. vm_compute. reflexivity. Qed.

(** So does an open brace at the end. *)
Example similar_brace_overrun : latin_compile "a{" = OutOfBounds.
Proof. vm_compute. reflexivity. Qed.

(** The position of the number in the bytes of the pattern is computed from its
    second character on: after a character of three bytes, [1{5}] is read as
    [1{1}]. *)
Definition euro : list Z := [226; 130; 172].

Example similar_brace_misread :
  similar_evaluate (T := utf8_text) 2000 35 true (euro ++ latin_string "1{5}") (euro ++ latin_string "1") =
    Done (Some (Some true)) /\
  similar_evaluate (T := utf8_text) 2000 35 true (euro ++ latin_string "1{5}") (euro ++ latin_string "11111") =
    Done (Some (Some false)).
Proof. split; vm_compute; reflexivity. Qed.

(** At the end of a repetition the code pushes two scopes, the second at a node
    relative to the top it had before, [scope]. On the value below the stack is
    full there: the first push frees the block [scope] points into. *)
Definition full_stack_value : string := "aaaaaaaaaaaaaaaaaaaaaaaaaaaaaaaaaaaaaaaaaaaaab".

Lemma similar_stack_dangles : latin_match "a*b{1}" full_stack_value = Done None /\
  latin_match "a*b{1}" "aaaaaaaaab" = Done (Some (Some true)).
Proof. split; vm_compute; reflexivity. Qed.
