(* ===== verification/SubstringSimilar.v ===== *)
(** * [SubstringSimilarMatcher]: [src/src/jrd/SimilarToMatcher.h]

    SUBSTRING(value SIMILAR pattern ESCAPE escape): the pattern has three parts,
    separated by the escape character and a double quote. Each part, and the
    second and third together, is compiled to an evaluator of SIMILAR TO. The
    result is the substring of the value for the second part. *)

From S2P Require Import Prelude TextType SimilarTo SimilarSpec SimilarLang SimilarParse SimilarEval.

(** ** The split of the pattern *)

(** [lastStart], the bytes written to [newExpr], what [originalPatternPos] points
    to, and [lengths]. *)
Record SplitState := {
  sp_last : Z;
  sp_expr : list Z;
  sp_orig : list Z;
  sp_lengths : list nat
}.

Section Split.
Context `{T : TextType} (escapeChar : Z) (original : list Z).
(** [sizeof(CharType)] *)
Context (width : Z).

(** [patternLen] is in bytes: the end of the pattern, as the code computes it. *)
Definition split_end : Z := patternEnd original * width.

(** The end of a segment, at the escape character before [p]. *)
Definition split_segment (p : Z) (st : SplitState) : PRes SplitState :=
  if decide (2 <= length (sp_lengths st))%nat then Raise isc_invalid_similar_pattern
  else
    let seg := substring (sp_orig st) 0 (p - sp_last st - 1) in
    let orig := drop (length seg) (sp_orig st) in
    let orig := drop (length (substring orig 0 2)) orig in
    Done {| sp_last := p + 1; sp_expr := sp_expr st ++ seg; sp_orig := orig;
            sp_lengths := sp_lengths st ++ [length seg] |}.

Fixpoint split_loop (fuel : nat) (p : Z) (st : SplitState) : PRes SplitState :=
  match fuel with
  | O => NoFuel
  | S fuel =>
      if decide (p < split_end) then
        c ← char_at original p;
        if decide (c <> escapeChar) then split_loop fuel (p + 1) st
        else
          let p := p + 1 in
          if decide (split_end <= p) then Raise isc_invalid_similar_pattern
          else
            c ← char_at original p;
            if decide (c = canonicalChar CHAR_DOUBLE_QUOTE) then
              st ← split_segment p st; split_loop fuel (p + 1) st
            else split_loop fuel (p + 1) st
      else Done st
  end.

(** [newExpr] and the lengths of its three segments. *)
Definition split_pattern : PRes (list Z * nat * nat * nat) :=
  st ← split_loop (S (length (pattern original))) 0
         {| sp_last := 0; sp_expr := []; sp_orig := original; sp_lengths := [] |};
  match sp_lengths st with
  | [l1; l2] =>
      let seg := substring (sp_orig st) 0 (split_end - sp_last st) in
      Done (sp_expr st ++ seg, l1, l2, length seg)
  | _ => Raise isc_invalid_similar_pattern
  end.
End Split.

(** ** The matcher *)

(** A [SimilarToMatcher]: its program and its state. *)
Record Matcher := { mt_ev : Evaluator; mt_state : EvaluatorState }.

Definition Matcher_new `{T : TextType} (escapeChar : Z) (p : list Z) : PRes Matcher :=
  ev ← Evaluator_new escapeChar true p;
  Done {| mt_ev := ev; mt_state := similar_reset ev |}.

Record SubstringMatcher := {
  sm_buffer : list Z;
  sm_r1 : Matcher; sm_r2 : Matcher; sm_r3 : Matcher; sm_r23 : Matcher;
  sm_matchedStart : Z; sm_matchedLength : Z
}.

Definition set_r1 (sm : SubstringMatcher) (m : Matcher) : SubstringMatcher :=
  {| sm_buffer := sm_buffer sm; sm_r1 := m; sm_r2 := sm_r2 sm; sm_r3 := sm_r3 sm; sm_r23 := sm_r23 sm;
     sm_matchedStart := sm_matchedStart sm; sm_matchedLength := sm_matchedLength sm |}.
Definition set_r2 (sm : SubstringMatcher) (m : Matcher) : SubstringMatcher :=
  {| sm_buffer := sm_buffer sm; sm_r1 := sm_r1 sm; sm_r2 := m; sm_r3 := sm_r3 sm; sm_r23 := sm_r23 sm;
     sm_matchedStart := sm_matchedStart sm; sm_matchedLength := sm_matchedLength sm |}.
Definition set_r3 (sm : SubstringMatcher) (m : Matcher) : SubstringMatcher :=
  {| sm_buffer := sm_buffer sm; sm_r1 := sm_r1 sm; sm_r2 := sm_r2 sm; sm_r3 := m; sm_r23 := sm_r23 sm;
     sm_matchedStart := sm_matchedStart sm; sm_matchedLength := sm_matchedLength sm |}.
Definition set_r23 (sm : SubstringMatcher) (m : Matcher) : SubstringMatcher :=
  {| sm_buffer := sm_buffer sm; sm_r1 := sm_r1 sm; sm_r2 := sm_r2 sm; sm_r3 := sm_r3 sm; sm_r23 := m;
     sm_matchedStart := sm_matchedStart sm; sm_matchedLength := sm_matchedLength sm |}.
Definition set_start (sm : SubstringMatcher) (start : Z) : SubstringMatcher :=
  {| sm_buffer := sm_buffer sm; sm_r1 := sm_r1 sm; sm_r2 := sm_r2 sm; sm_r3 := sm_r3 sm; sm_r23 := sm_r23 sm;
     sm_matchedStart := start; sm_matchedLength := sm_matchedLength sm |}.
Definition set_length (sm : SubstringMatcher) (len : Z) : SubstringMatcher :=
  {| sm_buffer := sm_buffer sm; sm_r1 := sm_r1 sm; sm_r2 := sm_r2 sm; sm_r3 := sm_r3 sm; sm_r23 := sm_r23 sm;
     sm_matchedStart := sm_matchedStart sm; sm_matchedLength := len |}.

(** The constructor; the two numbers are not initialized there. *)
Definition SubstringMatcher_new `{T : TextType} (escapeChar : Z) (width : Z) (original : list Z)
    (start0 length0 : Z) : PRes SubstringMatcher :=
  '(newExpr, l1, l2, l3) ← split_pattern escapeChar original width;
  r1 ← Matcher_new escapeChar (take l1 newExpr);
  r2 ← Matcher_new escapeChar (take l2 (drop l1 newExpr));
  r3 ← Matcher_new escapeChar (take l3 (drop (l1 + l2) newExpr));
  r23 ← Matcher_new escapeChar (take (l2 + l3) (drop l1 newExpr));
  Done {| sm_buffer := []; sm_r1 := r1; sm_r2 := r2; sm_r3 := r3; sm_r23 := r23;
          sm_matchedStart := start0; sm_matchedLength := length0 |}.

(** [reset], [process] and [result] of one of the matchers. *)
Definition try_match `{T : TextType} (run : nat) (m : Matcher) (s : list Z) : PRes (bool * Matcher) :=
  match similar_getResult run (mt_ev m) (similar_processNextChunk s (similar_reset (mt_ev m))) with
  | None => OutOfBounds
  | Some None => NoFuel
  | Some (Some (b, st)) => Done (b, {| mt_ev := mt_ev m; mt_state := st |})
  end.

Definition matcher_reset (m : Matcher) : Matcher :=
  {| mt_ev := mt_ev m; mt_state := similar_reset (mt_ev m) |}.

Definition substring_reset (sm : SubstringMatcher) : SubstringMatcher :=
  {| sm_buffer := []; sm_r1 := matcher_reset (sm_r1 sm); sm_r2 := matcher_reset (sm_r2 sm);
     sm_r3 := matcher_reset (sm_r3 sm); sm_r23 := matcher_reset (sm_r23 sm);
     sm_matchedStart := sm_matchedStart sm; sm_matchedLength := sm_matchedLength sm |}.

Definition substring_process (s : list Z) (sm : SubstringMatcher) : SubstringMatcher :=
  {| sm_buffer := sm_buffer sm ++ s; sm_r1 := sm_r1 sm; sm_r2 := sm_r2 sm; sm_r3 := sm_r3 sm;
     sm_r23 := sm_r23 sm; sm_matchedStart := sm_matchedStart sm;
     sm_matchedLength := sm_matchedLength sm |}.

Definition getResultInfo (sm : SubstringMatcher) : Z * Z := (sm_matchedStart sm, sm_matchedLength sm).

Section Result.
Context `{T : TextType}.
(** What a matcher answers on a string, see [try_match] *)
Context (match_on : Matcher -> list Z -> PRes (bool * Matcher)).

(** R2 on the first [len] bytes of [temp], and then R3 on the bytes after them. *)
Definition try_r2 (p : list Z) (len : nat) (temp : list Z) (sm : SubstringMatcher)
    : PRes (bool * SubstringMatcher) :=
  '(b2, m) ← match_on (sm_r2 sm) (take len temp);
  let sm := set_r2 sm m in
  if b2 : bool then
    '(b3, m) ← match_on (sm_r3 sm) (drop len p);
    Done (b3, set_r3 sm m)
  else Done (false, sm).

(** The loop that finds the longest R2; [p] are the bytes from [p] on, [len] is
    [p3 - p]. *)
Fixpoint find_r2 (fuel : nat) (p : list Z) (len : nat) (temp : list Z) (charLen23 : Z)
    (sm : SubstringMatcher) : PRes (bool * SubstringMatcher) :=
  match fuel with
  | O => NoFuel
  | S fuel =>
      '(found, sm) ← try_r2 p len temp sm;
      if found : bool then
        Done (true, set_length sm
                (Z.of_nat (length (sm_buffer sm) - length (drop len p)) - sm_matchedStart sm))
      else
        let charLen23 := if decide (charLen23 = -1) then charLength (take len p) else charLen23 in
        if decide (charLen23 = 0) then Done (false, sm)
        else
          let seg := substring p 0 (charLen23 - 1) in
          find_r2 fuel p (length seg) (seg ++ drop (length seg) temp) (charLen23 - 1) sm
  end.

(** The body of the loop that finds the shortest R1, for the prefix of [pos]
    bytes. *)
Definition try_r1 (pos : nat) (sm : SubstringMatcher) : PRes (bool * SubstringMatcher) :=
  let p := drop pos (sm_buffer sm) in
  '(b1, m) ← match_on (sm_r1 sm) (take pos (sm_buffer sm));
  let sm := set_r1 sm m in
  if b1 : bool then
    '(b23, m) ← match_on (sm_r23 sm) p;
    let sm := set_r23 sm m in
    if b23 : bool then
      find_r2 (S (S (length p))) p (length p) p (-1) (set_start sm (Z.of_nat pos))
    else Done (false, sm)
  else Done (false, sm).

Fixpoint find_r1 (fuel : nat) (pos : nat) (sm : SubstringMatcher) : PRes (bool * SubstringMatcher) :=
  match fuel with
  | O => NoFuel
  | S fuel =>
      '(found, sm) ← try_r1 pos sm;
      if found : bool then Done (true, sm)
      else
        let pos := (pos + length (substring (drop pos (sm_buffer sm)) 0 1))%nat in
        if decide (pos < length (sm_buffer sm))%nat then find_r1 fuel pos sm else Done (false, sm)
  end.
End Result.

(** [run]: the steps allowed to each machine *)
Definition substring_result `{T : TextType} (run : nat) (sm : SubstringMatcher) : PRes (bool * SubstringMatcher) :=
  find_r1 (try_match run) (S (S (length (sm_buffer sm)))) 0 sm.

(** ** The parts of a pattern *)

Section Parts.
Context `{T : TextType} (split_chars : list Z -> list (list Z)) `{!TextTypeLaws T split_chars}.
Context (escapeChar : Z).

(** A text in which no escape character is followed by a double quote. *)
Inductive segment : list Sym -> Prop :=
  | segment_nil : segment []
  | segment_char c b s : c <> escapeChar -> segment s -> segment ((c, b) :: s)
  | segment_escaped b c' b' s :
      c' <> canonicalChar CHAR_DOUBLE_QUOTE -> segment s -> segment ((escapeChar, b) :: (c', b') :: s).

(** A text of segments, each before an escape character and a double quote, and a
    last one. *)
Inductive parts : list Sym -> list (list Sym) -> list Sym -> Prop :=
  | parts_last s : segment s -> parts s [] s
  | parts_cons s be bq t segs last :
      segment s -> parts t segs last ->
      parts (s ++ (escapeChar, be) :: (canonicalChar CHAR_DOUBLE_QUOTE, bq) :: t) (s :: segs) last.

Lemma segment_app s t : segment s -> segment t -> segment (s ++ t).
Proof. intros Hs Ht. induction Hs; simpl; [done| |]; by constructor. Qed.

Definition bytes_of (s : list Sym) : list Z := mjoin s.*2.

Lemma drop_mjoin n (l : list (list Z)) : drop (length (mjoin (take n l))) (mjoin l) = mjoin (drop n l).
Proof.
  rewrite <- (take_drop n l) at 2. rewrite join_app. by apply drop_app_length'.
Qed.

(** A prefix of the characters of the rest of a text. *)
Lemma substring_rest original pos n :
  0 <= pos -> 0 <= n ->
  substring (bytes_of (rest split_chars original pos)) 0 n =
    bytes_of (take (Z.to_nat n) (rest split_chars original pos)).
Proof.
  intros Hp Hn. unfold bytes_of. rewrite (rest_snd split_chars).
  pose proof (substring_chars (mjoin (drop (Z.to_nat pos) (split_chars original))) 0 (Z.to_nat n)) as H.
  rewrite (split_drop split_chars), drop_0, Z2Nat.id in H by lia. change (Z.of_nat 0) with 0 in H. rewrite H by lia.
  rewrite fmap_take, (rest_snd split_chars). done.
Qed.

Lemma drop_rest original pos n :
  0 <= pos -> 0 <= n ->
  drop (length (bytes_of (take (Z.to_nat n) (rest split_chars original pos))))
    (bytes_of (rest split_chars original pos)) = bytes_of (rest split_chars original (pos + n)).
Proof.
  intros Hp Hn. unfold bytes_of. rewrite fmap_take, !(rest_snd split_chars), drop_mjoin, drop_drop.
  do 2 f_equal. lia.
Qed.

Variable original : list Z.
Abbreviation rest := (rest split_chars original).
Abbreviation patternEnd := (patternEnd original).

(** The text from [p] to [q] *)
Definition text (p q : Z) : list Sym := take (Z.to_nat (q - p)) (rest p).

Lemma text_snoc p q c b :
  0 <= p <= q -> rest q = (c, b) :: rest (q + 1) -> text p (q + 1) = text p q ++ [(c, b)].
Proof.
  intros Hp Hr. unfold text.
  replace (Z.to_nat (q + 1 - p)) with (S (Z.to_nat (q - p))) by lia.
  apply take_S_r. unfold SimilarParse.rest in *. rewrite lookup_drop.
  replace (Z.to_nat p + Z.to_nat (q - p))%nat with (Z.to_nat q) by lia.
  rewrite <- (Nat.add_0_r (Z.to_nat q)), <- lookup_drop, Hr. done.
Qed.

Lemma text_rest p q : 0 <= p <= q -> rest p = text p q ++ rest q.
Proof.
  intros Hp. unfold text. rewrite <- (take_drop (Z.to_nat (q - p)) (rest p)) at 1. f_equal.
  unfold SimilarParse.rest. rewrite drop_drop. f_equal. lia.
Qed.

Lemma split_segment_sound p st st' :
  sp_orig st = bytes_of (rest (sp_last st)) -> 0 <= sp_last st -> sp_last st + 1 <= p ->
  split_segment p st = Done st' ->
  sp_last st' = p + 1 /\ sp_orig st' = bytes_of (rest (p + 1)) /\
  sp_expr st' = sp_expr st ++ bytes_of (text (sp_last st) (p - 1)) /\
  sp_lengths st' = sp_lengths st ++ [length (bytes_of (text (sp_last st) (p - 1)))].
Proof.
  intros Ho Hl Hp H. unfold split_segment in H. case_decide; [done|]. apply Done_inj in H. subst st'. simpl.
  rewrite Ho, substring_rest by lia. rewrite drop_rest by lia. rewrite substring_rest by lia.
  rewrite drop_rest by lia. unfold text. replace (p - 1 - sp_last st) with (p - sp_last st - 1) by lia.
  split; [done|]. split; [|done]. do 2 f_equal. lia.
Qed.

Lemma split_loop_sound fuel p st st' :
  0 <= sp_last st <= p -> p <= patternEnd -> segment (text (sp_last st) p) ->
  sp_orig st = bytes_of (rest (sp_last st)) ->
  split_loop escapeChar original 1 fuel p st = Done st' ->
  exists segs, parts (rest (sp_last st)) segs (rest (sp_last st')) /\
    0 <= sp_last st' <= patternEnd /\ sp_orig st' = bytes_of (rest (sp_last st')) /\
    sp_expr st' = sp_expr st ++ mjoin (bytes_of <$> segs) /\
    sp_lengths st' = sp_lengths st ++ (length ∘ bytes_of <$> segs).
Proof.
  assert (Hend : split_end original 1 = patternEnd) by (unfold split_end; lia).
  revert p st. induction fuel as [|fuel IH]; intros p st Hl Hp Hseg Ho H; [done|]. cbn [split_loop] in H.
  rewrite Hend in H. case_decide as Hlt.
  - apply PRes_bind_Done in H as (c & Hc & H).
    destruct (char_at_Done split_chars original p c ltac:(lia) Hc) as (_ & b & Er & _).
    case_decide as Hesc.
    + apply (IH (p + 1)); [lia|lia| |done|done]. rewrite (text_snoc _ _ c b) by (done || lia).
      apply segment_app; [done|]. by repeat constructor.
    + assert (c = escapeChar) as -> by (destruct (decide (c = escapeChar)); tauto).
      case_decide; [done|]. apply PRes_bind_Done in H as (c' & Hc' & H).
      destruct (char_at_Done split_chars original (p + 1) c' ltac:(lia) Hc') as (_ & b' & Er' & _).
      case_decide as Hq.
      * subst c'. apply PRes_bind_Done in H as (st1 & Hs & H).
        apply split_segment_sound in Hs as (E1 & E2 & E3 & E4); [|done|lia|lia].
        replace (p + 1 - 1) with p in * by lia. replace (p + 1 + 1) with (p + 2) in * by lia.
        apply IH in H as (segs & Hparts & Hl' & Ho' & He & Hn); [|lia|lia| |by rewrite E1].
        -- exists (text (sp_last st) p :: segs). split; [|split; [done|split; [done|]]].
           ++ rewrite (text_rest _ p), Er, Er' by lia. rewrite <- E1. by constructor.
           ++ split; [by rewrite He, E3, <- app_assoc|by rewrite Hn, E4, <- app_assoc].
        -- rewrite E1. unfold text. rewrite Z.sub_diag. constructor.
      * replace (p + 1 + 1) with (p + 2) in H by lia.
        apply (IH (p + 2)); [lia|lia| |done|done]. replace (p + 2) with (p + 1 + 1) by lia.
        rewrite (text_snoc _ (p + 1) c' b'), (text_snoc _ p escapeChar b) by (done || lia).
        rewrite <- app_assoc. apply segment_app; [done|]. simpl. by repeat constructor.
  - apply Done_inj in H. subst st'. exists []. simpl. rewrite !app_nil_r. split; [|split; [lia|done]].
    assert (p = patternEnd) as -> by lia. constructor.
    by rewrite (text_rest (sp_last st) patternEnd), (rest_end split_chars), app_nil_r by lia.
Qed.

Lemma split_pattern_sound newExpr l1 l2 l3 :
  split_pattern escapeChar original 1 = Done (newExpr, l1, l2, l3) ->
  exists s1 s2 s3, parts (symbols split_chars original) [s1; s2] s3 /\
    newExpr = bytes_of s1 ++ bytes_of s2 ++ bytes_of s3 /\
    l1 = length (bytes_of s1) /\ l2 = length (bytes_of s2) /\ l3 = length (bytes_of s3).
Proof.
  intros H. unfold split_pattern in H. apply PRes_bind_Done in H as (st & Hl & H).
  apply split_loop_sound in Hl as (segs & Hp & Hle & Ho & He & Hn); simpl in *; [|lia| |constructor|].
  2:{ unfold SimilarTo.patternEnd. lia. }
  2:{ unfold bytes_of. by rewrite (rest_snd split_chars), drop_0, (split_concat (split_chars := split_chars)). }
  destruct segs as [|s1 [|s2 [|? ?]]]; simpl in Hn; rewrite Hn in H; try done.
  apply Done_inj in H. unfold split_end in H. rewrite Z.mul_1_r, Ho, substring_rest in H by lia.
  rewrite take_ge in H.
  2:{ unfold SimilarParse.rest. rewrite length_drop. pose proof (patternEnd_syms split_chars original). lia. }
  exists s1, s2, (rest (sp_last st)). split; [done|]. injection H as <- <- <- <-.
  rewrite He. simpl. by rewrite app_nil_r, <- app_assoc.
Qed.
End Parts.

(** ** What the matcher finds *)

Section Search.
Context `{T : TextType} (split_chars : list Z -> list (list Z)) `{!TextTypeLaws T split_chars}.

(** A matcher whose stack is never full *)
Definition ideal_try (run : nat) (m : Matcher) (s : list Z) : PRes (bool * Matcher) :=
  match ideal_result run (mt_ev m) (similar_processNextChunk s (similar_reset (mt_ev m))) with
  | None => OutOfBounds
  | Some None => NoFuel
  | Some (Some (b, st)) => Done (b, {| mt_ev := mt_ev m; mt_state := st |})
  end.

(** The four evaluators decide four languages. *)
Context (e1 e2 e3 e23 : Evaluator) (P1 P2 P3 P23 : list Z -> Prop).

Definition decides (ev : Evaluator) (P : list Z -> Prop) : Prop :=
  forall s, exists n b, (b = true <-> P s) /\
    forall run m, (n <= run)%nat -> mt_ev m = ev ->
      exists m', ideal_try run m s = Done (b, m') /\ mt_ev m' = ev.

Context (D1 : decides e1 P1) (D2 : decides e2 P2) (D3 : decides e3 P3) (D23 : decides e23 P23).

(** The value and the programs are those of the search. *)
Definition searches (value : list Z) (sm : SubstringMatcher) : Prop :=
  sm_buffer sm = value /\ mt_ev (sm_r1 sm) = e1 /\ mt_ev (sm_r2 sm) = e2 /\
  mt_ev (sm_r3 sm) = e3 /\ mt_ev (sm_r23 sm) = e23.

(** The bytes of [n] characters *)
Definition first_chars (n : nat) (cs : list (list Z)) : list Z := mjoin (take n cs).

(** The longest R2 within the first [k] characters. *)
Definition longest (cs : list (list Z)) (k : nat) (o : option nat) : Prop :=
  let ok j := P2 (first_chars j cs) /\ P3 (mjoin (drop j cs)) in
  match o with
  | Some j => (j <= k)%nat /\ ok j /\ forall j', (j' <= k)%nat -> ok j' -> (j' <= j)%nat
  | None => forall j, (j <= k)%nat -> ~ ok j
  end.

Lemma first_chars_substring p k :
  substring p 0 (Z.of_nat k) = first_chars k (split_chars p).
Proof.
  pose proof (substring_chars p 0 k) as H. rewrite drop_0 in H. apply H. lia.
Qed.

Lemma length_first_chars p k : (length (first_chars k (split_chars p)) <= length p)%nat.
Proof.
  rewrite <- (split_concat (split_chars := split_chars) p) at 2. rewrite <- (take_drop k (split_chars p)) at 2.
  rewrite join_app, length_app. unfold first_chars. lia.
Qed.

Lemma split_length p : (length (split_chars p) <= length p)%nat.
Proof.
  rewrite <- (split_concat (split_chars := split_chars) p) at 2.
  pose proof (split_size (split_chars := split_chars) p) as H.
  induction H as [|c cs Hc _ IH]; [done|]. change (mjoin (c :: cs)) with (c ++ mjoin cs).
  rewrite length_app. simpl. lia.
Qed.

Lemma take_first_chars p k :
  take (length (first_chars k (split_chars p))) p = first_chars k (split_chars p).
Proof.
  rewrite <- (split_concat (split_chars := split_chars) p) at 2. rewrite <- (take_drop k (split_chars p)) at 2.
  rewrite join_app. by apply take_app_length'.
Qed.

Lemma drop_first_chars p k :
  drop (length (first_chars k (split_chars p))) p = mjoin (drop k (split_chars p)).
Proof.
  rewrite <- (split_concat (split_chars := split_chars) p) at 2. apply drop_mjoin.
Qed.

Lemma try_r2_spec p k :
  let cs := split_chars p in
  exists n b, (b = true <-> P2 (first_chars k cs) /\ P3 (mjoin (drop k cs))) /\
    forall run temp value sm, (n <= run)%nat -> searches value sm ->
      take (length (first_chars k cs)) temp = first_chars k cs ->
      exists sm', try_r2 (ideal_try run) p (length (first_chars k cs)) temp sm = Done (b, sm') /\
        searches value sm' /\ sm_matchedStart sm' = sm_matchedStart sm.
Proof.
  intros cs. subst cs. destruct (D2 (first_chars k (split_chars p))) as (n2 & b2 & Hb2 & H2).
  destruct (D3 (mjoin (drop k (split_chars p)))) as (n3 & b3 & Hb3 & H3).
  exists (n2 `max` n3)%nat, (b2 && b3). split; [by rewrite <- Hb2, <- Hb3, andb_true_iff|].
  intros run temp value sm Hn (Hbuf & E1 & E2 & E3 & E23) Ht. unfold try_r2. rewrite Ht, drop_first_chars.
  destruct (H2 run (sm_r2 sm)) as (m2 & -> & Em2); [lia|done|]. simpl. destruct b2; simpl.
  - destruct (H3 run (sm_r3 sm)) as (m3 & -> & Em3); [lia|done|]. simpl. by eexists.
  - by eexists.
Qed.

Lemma find_r2_spec p k c23 :
  let cs := split_chars p in
  (k <= length cs)%nat -> (c23 = Z.of_nat k \/ c23 = -1 /\ k = length cs) ->
  exists n o, longest cs k o /\
    forall run fuel temp value sm, (n <= run)%nat -> (k < fuel)%nat -> searches value sm ->
      take (length (first_chars k cs)) temp = first_chars k cs ->
      exists sm', find_r2 (ideal_try run) fuel p (length (first_chars k cs)) temp c23 sm =
          Done (bool_decide (is_Some o), sm') /\
        searches value sm' /\ sm_matchedStart sm' = sm_matchedStart sm /\
        forall j, o = Some j -> sm_matchedLength sm' =
          Z.of_nat (length value - length (mjoin (drop j cs))) - sm_matchedStart sm.
Proof.
  intros cs. subst cs. revert c23. induction k as [k IH] using lt_wf_ind. intros c23 Hk Hc.
  destruct (try_r2_spec p k) as (n & b & Hb & Htry). destruct b.
  - exists n, (Some k). split; [split; [done|split; [by apply Hb|lia]]|].
    intros run [|fuel] temp value sm Hn Hf Hs Ht; [lia|]. cbn [find_r2].
    destruct (Htry run temp value sm Hn Hs Ht) as (sm1 & -> & Hs1 & Hst). simpl.
    eexists. split; [done|]. split; [done|]. split; [done|]. intros j [= <-]. simpl.
    destruct Hs1 as (-> & _). by rewrite drop_first_chars, Hst.
  - assert (Hno : ~ (P2 (first_chars k (split_chars p)) /\ P3 (mjoin (drop k (split_chars p))))) by (by rewrite <- Hb).
    assert (Hc' : (if decide (c23 = -1) then charLength (take (length (first_chars k (split_chars p))) p) else c23) = Z.of_nat k).
    { case_decide; [|lia]. rewrite take_first_chars. rewrite (charLength_split (split_chars := split_chars)).
      unfold first_chars. rewrite (split_take split_chars), length_take. lia. }
    destruct k as [|k].
    + exists n, None. split; [intros j Hj; by replace j with 0%nat by lia|].
      intros run [|fuel] temp value sm Hn Hf Hs Ht; [lia|]. cbn [find_r2].
      destruct (Htry run temp value sm Hn Hs Ht) as (sm1 & -> & Hs1 & Hst). cbv zeta. simpl PRes_bind. rewrite Hc'.
      simpl. by eexists.
    + destruct (IH k ltac:(lia) (Z.of_nat (S k) - 1)) as (n' & o & Ho & Hrun); [lia|left; lia|].
      exists (n `max` n')%nat, o. split.
      { destruct o as [j|]; simpl in *.
        - destruct Ho as (Hj & Hok & Hmax). split; [lia|]. split; [done|]. intros j' Hj' Hok'.
          destruct (decide (j' = S k)) as [->|]; [done|]. apply Hmax; [lia|done].
        - intros j Hj. destruct (decide (j = S k)) as [->|]; [done|]. apply Ho. lia. }
      intros run [|fuel] temp value sm Hn Hf Hs Ht; [lia|]. cbn [find_r2].
      destruct (Htry run temp value sm ltac:(lia) Hs Ht) as (sm1 & -> & Hs1 & Hst). cbv zeta. simpl PRes_bind. rewrite Hc'.
      rewrite <- Hst.
      replace (Z.of_nat (S k) - 1) with (Z.of_nat k) in * by lia.
      rewrite first_chars_substring.
      destruct (Hrun run fuel (first_chars k (split_chars p) ++ drop (length (first_chars k (split_chars p))) temp) value sm1)
        as (sm' & Hr & Hs' & Hst' & Hlen); [lia|lia|done|by rewrite take_app_length|].
      exists sm'. unfold mbind, PRes_bind. rewrite Hr. done.
Qed.

(** ** The search for R1 *)

(** The value is cut after [i] and after [j] characters. *)
Definition valid (value : list Z) (i j : nat) : Prop :=
  let cs := split_chars value in
  P1 (first_chars i cs) /\ P23 (mjoin (drop i cs)) /\ (i <= j <= length cs)%nat /\
  P2 (first_chars (j - i) (drop i cs)) /\ P3 (mjoin (drop j cs)).

Definition best (value : list Z) (i : nat) (o : option nat) : Prop :=
  match o with
  | Some j => valid value i j /\ forall j', valid value i j' -> (j' <= j)%nat
  | None => forall j, ~ valid value i j
  end.

(** The bytes before and between the cuts *)
Definition bounds (value : list Z) (i j : nat) : Z * Z :=
  let cs := split_chars value in
  (Z.of_nat (length (first_chars i cs)), Z.of_nat (length (first_chars (j - i) (drop i cs)))).

Lemma cut_length value i j :
  let cs := split_chars value in
  (i <= j)%nat ->
  (length value = length (first_chars i cs) + length (first_chars (j - i) (drop i cs)) +
                  length (mjoin (drop j cs)))%nat.
Proof.
  intros cs Hij. subst cs. rewrite <- (split_concat (split_chars := split_chars) value) at 1.
  rewrite <- (take_drop i (split_chars value)) at 1.
  rewrite <- (take_drop (j - i) (drop i (split_chars value))) at 1.
  rewrite drop_drop, !join_app, !length_app. replace (i + (j - i))%nat with j by lia. unfold first_chars. lia.
Qed.

Lemma try_r1_spec value i :
  let cs := split_chars value in
  (i <= length cs)%nat ->
  exists n o, best value i o /\
    forall run sm, (n <= run)%nat -> searches value sm ->
      exists sm', try_r1 (ideal_try run) (length (first_chars i cs)) sm = Done (bool_decide (is_Some o), sm') /\
        searches value sm' /\ forall j, o = Some j -> getResultInfo sm' = bounds value i j.
Proof.
  intros cs Hi. subst cs.
  destruct (D1 (first_chars i (split_chars value))) as (n1 & b1 & Hb1 & H1).
  destruct (D23 (mjoin (drop i (split_chars value)))) as (n23 & b23 & Hb23 & H23).
  set (p := mjoin (drop i (split_chars value))) in *.
  assert (Hcs : split_chars p = drop i (split_chars value)) by (apply (split_drop split_chars)).
  destruct (find_r2_spec p (length (split_chars p)) (-1)) as (n2 & o & Ho & Hrun); [done|by right|].
  rewrite Hcs in Ho, Hrun.
  assert (Hall : first_chars (length (drop i (split_chars value))) (drop i (split_chars value)) = p)
    by (unfold first_chars; by rewrite take_ge).
  rewrite Hall in Hrun.
  exists (n1 `max` (n23 `max` n2))%nat, (if b1 && b23 then ((fun j => i + j)%nat <$> o) else None). split.
  - destruct b1; simpl; [|intros j (H & _); by apply Hb1 in H].
    destruct b23; simpl; [|intros j (_ & H & _); by apply Hb23 in H].
    destruct o as [j|]; simpl in *.
    + destruct Ho as (Hj & [Hj2 Hj3] & Hmax). rewrite length_drop in Hj, Hmax. rewrite drop_drop in Hj3.
      split.
      * split; [by apply Hb1|]. split; [by apply Hb23|]. split; [lia|].
        by replace (i + j - i)%nat with j by lia.
      * intros j' (_ & _ & Hj' & Hv2 & Hv3). enough (j' - i <= j)%nat by lia.
        apply Hmax; [lia|]. split; [done|]. rewrite drop_drop. by replace (i + (j' - i))%nat with j' by lia.
    + intros j (_ & _ & Hj & Hv2 & Hv3). apply (Ho (j - i)%nat); [rewrite length_drop; lia|].
      split; [done|]. rewrite drop_drop. by replace (i + (j - i))%nat with j by lia.
  - intros run sm Hn (Hbuf & E1 & E2 & E3 & E23). unfold try_r1. rewrite Hbuf, take_first_chars, drop_first_chars.
    fold p. destruct (H1 run (sm_r1 sm)) as (m1 & -> & Em1); [lia|done|]. simpl. destruct b1; simpl; [|by eexists].
    destruct (H23 run (sm_r23 sm)) as (m23 & -> & Em23); [lia|done|]. simpl. destruct b23; simpl; [|by eexists].
    destruct (Hrun run (S (S (length p))) p value
      (set_start (set_r23 (set_r1 sm m1) m23) (Z.of_nat (length (first_chars i (split_chars value))))))
      as (sm' & Hr & Hs' & Hst & Hlen); [lia| |done|by apply take_ge|].
    + rewrite <- Hcs. pose proof (split_length p). lia.
    + exists sm'. split; [|split; [done|]].
      * etransitivity; [exact Hr|]. do 2 f_equal. apply bool_decide_ext. by rewrite fmap_is_Some.
      * intros j Hj. apply fmap_Some in Hj as (k & -> & ->). destruct Ho as (Hk & _ & _).
        unfold getResultInfo, bounds. rewrite (Hlen k), Hst by done. simpl. rewrite drop_drop.
        pose proof (cut_length value i (i + k) ltac:(lia)) as Hcut. f_equal. lia.
Qed.

(** The starts the loop tries: before each character, or the only one of an empty
    value; not the end of a value that is not empty. *)
Definition starts (value : list Z) : nat := 1 `max` length (split_chars value).

(** The first start from [i0] on with a valid cut, and its longest R2. *)
Definition finds (value : list Z) (i0 : nat) (o : option (nat * nat)) : Prop :=
  match o with
  | Some (i, j) =>
      (i0 <= i < starts value)%nat /\ best value i (Some j) /\
      forall i' j', (i0 <= i')%nat -> valid value i' j' -> (i <= i')%nat
  | None => forall i j, (i0 <= i < starts value)%nat -> ~ valid value i j
  end.

Lemma next_start value i :
  let cs := split_chars value in
  (i < length cs)%nat ->
  (length (first_chars i cs) + length (substring (drop (length (first_chars i cs)) value) 0 1) =
     length (first_chars (S i) cs))%nat /\
  ((length (first_chars (S i) cs) < length value)%nat <-> (S i < length cs)%nat).
Proof.
  intros cs Hi. subst cs. destruct (lookup_lt_is_Some_2 _ _ Hi) as [c Hc].
  rewrite drop_first_chars. split.
  - change 1 with (Z.of_nat 1). rewrite first_chars_substring, (split_drop split_chars). unfold first_chars.
    rewrite (take_S_r _ _ _ Hc), (drop_S _ _ _ Hc), join_app, length_app. simpl. by rewrite app_nil_r.
  - rewrite <- (split_concat (split_chars := split_chars) value) at 2.
    rewrite <- (take_drop (S i) (split_chars value)) at 2. rewrite join_app, length_app. unfold first_chars.
    pose proof (split_size (split_chars := split_chars) value) as Hsz.
    destruct (drop (S i) (split_chars value)) as [|d ds] eqn:E.
    + apply (f_equal length) in E. rewrite length_drop in E. simpl in *. lia.
    + assert (0 < length d)%nat.
      { apply (Forall_drop _ (S i)) in Hsz. rewrite E in Hsz. apply Forall_cons in Hsz as [? _]. lia. }
      apply (f_equal length) in E. rewrite length_drop in E. simpl in E.
      change (mjoin (d :: ds)) with (d ++ mjoin ds). rewrite length_app. lia.
Qed.

Lemma find_r1_spec value i :
  let cs := split_chars value in
  (i < starts value)%nat ->
  exists n o, finds value i o /\
    forall run fuel sm, (n <= run)%nat -> (starts value - i < fuel)%nat -> searches value sm ->
      exists sm', find_r1 (ideal_try run) fuel (length (first_chars i cs)) sm = Done (bool_decide (is_Some o), sm') /\
        searches value sm' /\ forall i' j', o = Some (i', j') -> getResultInfo sm' = bounds value i' j'.
Proof.
  intros cs. subst cs. remember (starts value - i)%nat as d eqn:Hd. revert i Hd.
  induction d as [d IH] using lt_wf_ind. intros i Hd Hi.
  destruct (try_r1_spec value i) as (n & o & Ho & Htry); [unfold starts in Hi; lia|].
  destruct o as [j|].
  - exists n, (Some (i, j)). split; [split; [lia|split; [done|lia]]|].
    intros run [|fuel] sm Hn Hf Hs; [lia|]. cbn [find_r1].
    destruct (Htry run sm Hn Hs) as (sm' & -> & Hs' & Hg). simpl. exists sm'. split; [done|]. split; [done|].
    intros i' j' [= <- <-]. by apply Hg.
  - destruct (decide (S i < starts value)%nat) as [Hnext|Hnext].
    + destruct (next_start value i) as [Hpos Hend]; [unfold starts in Hnext; lia|].
      destruct (IH (starts value - S i)%nat ltac:(lia) (S i) eq_refl Hnext) as (n' & o & Ho' & Hrun).
      exists (n `max` n')%nat, o. split.
      { destruct o as [[i' j']|]; simpl in *.
        - destruct Ho' as (Hi' & Hbest & Hmin). split; [lia|]. split; [done|]. intros i'' j'' Hi'' Hv.
          destruct (decide (i'' = i)) as [->|]; [by apply Ho in Hv|]. apply (Hmin i'' j''); [lia|done].
        - intros i' j' Hi'. destruct (decide (i' = i)) as [->|]; [apply Ho|]. apply Ho'. lia. }
      intros run [|fuel] sm Hn Hf Hs; [lia|]. cbn [find_r1].
      destruct (Htry run sm ltac:(lia) Hs) as (sm1 & -> & Hs1 & _). simpl.
      destruct Hs1 as (Hbuf & Hrest). rewrite Hbuf, Hpos.
      rewrite decide_True by (apply Hend; unfold starts in Hnext; lia).
      apply Hrun; [lia|lia|done].
    + exists n, None. split; [intros i' j' Hi'; replace i' with i by lia; apply Ho|].
      intros run [|fuel] sm Hn Hf Hs; [lia|]. cbn [find_r1].
      destruct (Htry run sm Hn Hs) as (sm1 & -> & Hs1 & _). simpl.
      destruct Hs1 as (Hbuf & Hrest). rewrite Hbuf. rewrite decide_False; [by eexists|].
      destruct (decide (i < length (split_chars value))%nat) as [Hlt|Hge].
      * destruct (next_start value i Hlt) as [Hpos Hend]. rewrite Hpos, Hend. unfold starts in Hnext. lia.
      * assert (split_chars value = []) as Hnil by (apply length_zero_iff_nil; unfold starts in Hi; lia).
        pose proof (f_equal length (split_concat (split_chars := split_chars) value)) as Hlen.
        rewrite Hnil in Hlen. simpl in Hlen. lia.
Qed.

(** The search by these machines *)
Definition ideal_search (run : nat) (sm : SubstringMatcher) : PRes (bool * SubstringMatcher) :=
  find_r1 (ideal_try run) (S (S (length (sm_buffer sm)))) 0 sm.

Lemma ideal_search_spec value :
  exists n o, finds value 0 o /\
    forall run sm, (n <= run)%nat -> searches value sm ->
      exists sm', ideal_search run sm = Done (bool_decide (is_Some o), sm') /\
        forall i j, o = Some (i, j) -> getResultInfo sm' = bounds value i j.
Proof.
  destruct (find_r1_spec value 0) as (n & o & Ho & Hrun); [unfold starts; lia|].
  exists n, o. split; [done|]. intros run sm Hn Hs. unfold ideal_search.
  destruct (Hrun run (S (S (length (sm_buffer sm)))) sm Hn) as (sm' & Hr & _ & Hg); [|done|by exists sm'].
  destruct Hs as [-> _]. pose proof (split_length value). unfold starts. lia.
Qed.

(** *** The search on stacks that are full

    It does the same, unless one of the machines comes to read what it has freed. *)

Definition machine_dangles : Prop :=
  exists ev s, (ev = e1 \/ ev = e2 \/ ev = e3 \/ ev = e23) /\
    dangles ev (similar_processNextChunk s (similar_reset ev)).

Definition same_programs (sm : SubstringMatcher) : Prop :=
  mt_ev (sm_r1 sm) = e1 /\ mt_ev (sm_r2 sm) = e2 /\ mt_ev (sm_r3 sm) = e3 /\ mt_ev (sm_r23 sm) = e23.

Definition same_or_dangles {A} (keep : A -> Prop) (x y : PRes A) : Prop :=
  x = OutOfBounds /\ machine_dangles \/ x = y /\ forall a, y = Done a -> keep a.

Lemma same_or_dangles_bind {A B} (keep : A -> Prop) (keep' : B -> Prop) (x y : PRes A) (f g : A -> PRes B) :
  same_or_dangles keep x y -> (forall a, keep a -> same_or_dangles keep' (f a) (g a)) ->
  same_or_dangles keep' (x ≫= f) (y ≫= g).
Proof.
  intros [[-> Hd]|[-> Hk]] Hf; [by left|]. destruct y as [a| | |]; [|right; by split..].
  apply Hf, Hk. done.
Qed.

Lemma same_done {A} (keep : A -> Prop) (a : A) : keep a -> same_or_dangles keep (Done a) (Done a).
Proof. intros H. right. split; [done|]. by intros ? [= <-]. Qed.

Lemma try_match_same run m s ev : mt_ev m = ev -> ev = e1 \/ ev = e2 \/ ev = e3 \/ ev = e23 ->
  same_or_dangles (fun r => mt_ev r.2 = ev) (try_match run m s) (ideal_try run m s).
Proof.
  intros <- He. unfold try_match, ideal_try.
  destruct (getResult_ideal run (mt_ev m) (similar_processNextChunk s (similar_reset (mt_ev m)))) as [->|[-> Hd]].
  - right. split; [done|]. intros a. destruct (ideal_result _ _ _) as [[[b st]|]|]; [|done..]. by intros [= <-].
  - left. split; [done|]. by exists (mt_ev m), s.
Qed.

Abbreviation keeps := (fun r : bool * SubstringMatcher => same_programs r.2).

Lemma try_r2_same run p len temp sm : same_programs sm ->
  same_or_dangles keeps (try_r2 (try_match run) p len temp sm) (try_r2 (ideal_try run) p len temp sm).
Proof.
  intros (H1 & H2 & H3 & H23). eapply same_or_dangles_bind; [apply (try_match_same run _ _ e2); auto|].
  intros [[] m] Hm; [|by apply same_done]. eapply same_or_dangles_bind; [apply (try_match_same run _ _ e3); auto|].
  intros [b m3] Hm3. by apply same_done.
Qed.

Lemma find_r2_same run fuel p len temp c sm : same_programs sm ->
  same_or_dangles keeps (find_r2 (try_match run) fuel p len temp c sm) (find_r2 (ideal_try run) fuel p len temp c sm).
Proof.
  revert len temp c sm. induction fuel as [|fuel IH]; intros len temp c sm Hs; [by right|]. cbn [find_r2].
  eapply same_or_dangles_bind; [by apply try_r2_same|]. intros [[] sm1] Hs1; [by apply same_done|]. cbv zeta.
  destruct (decide _) as [Hc|Hc]; [by apply same_done|by apply IH].
Qed.

Lemma find_r1_same run fuel pos sm : same_programs sm ->
  same_or_dangles keeps (find_r1 (try_match run) fuel pos sm) (find_r1 (ideal_try run) fuel pos sm).
Proof.
  revert pos sm. induction fuel as [|fuel IH]; intros pos sm Hs; [by right|]. cbn [find_r1].
  eapply same_or_dangles_bind with (keep := keeps).
  - destruct Hs as (H1 & H2 & H3 & H23). eapply same_or_dangles_bind; [apply (try_match_same run _ _ e1); auto|].
    intros [[] m] Hm; [|by apply same_done]. eapply same_or_dangles_bind; [apply (try_match_same run _ _ e23); auto|].
    intros [[] m23] Hm23; [|by apply same_done]. by apply find_r2_same.
  - intros [[] sm1] Hs1; [by apply same_done|]. cbv zeta.
    destruct (decide _); [by apply IH|by apply same_done].
Qed.

Lemma substring_result_spec value :
  exists n o, finds value 0 o /\
    forall run sm, (n <= run)%nat -> searches value sm ->
      (exists sm', substring_result run sm = Done (bool_decide (is_Some o), sm') /\
        forall i j, o = Some (i, j) -> getResultInfo sm' = bounds value i j) \/
      (substring_result run sm = OutOfBounds /\ machine_dangles).
Proof.
  destruct (ideal_search_spec value) as (n & o & Ho & Hrun). exists n, o. split; [done|]. intros run sm Hn Hs.
  destruct (Hrun run sm Hn Hs) as (sm' & Hr & Hg). destruct Hs as (_ & Hs).
  destruct (find_r1_same run (S (S (length (sm_buffer sm)))) 0 sm Hs) as [?|[E _]]; [by right|left].
  exists sm'. split; [|done]. unfold substring_result. by rewrite E.
Qed.
End Search.

(** ** The matcher as a whole *)

Section Substring.
Context `{T : TextType} (split_chars : list Z -> list (list Z)) `{!TextTypeLaws T split_chars}.

(** The language of a regular expression, on bytes *)
Definition lang_bytes (r : regex) (s : list Z) : Prop := lang r (symbols split_chars s).

Lemma matcher_decides escapeChar p m :
  fixed_width split_chars p -> Matcher_new escapeChar p = Done m ->
  exists r, gexpr escapeChar true (symbols split_chars p) r [] /\
    (loops_ok r = true -> decides (mt_ev m) (lang_bytes r)).
Proof.
  intros Hw Hm. unfold Matcher_new in Hm. apply PRes_bind_Done in Hm as (ev & Hev & Hm).
  apply Done_inj in Hm. subst m. simpl.
  destruct (evaluator_decides split_chars escapeChar true p ev Hw Hev) as (r & Hg & Hdec).
  exists r. split; [done|]. intros Hl s.
  destruct (Hdec Hl (similar_processNextChunk s (similar_reset ev))) as (n & b & s' & Hrun).
  { apply length_replicate. }
  exists n, b. split; [apply (Hrun n (le_n n))|]. intros run m Hn Hm. unfold ideal_try. rewrite Hm.
  destruct (Hrun run Hn) as [-> _]. by eexists.
Qed.

(** What is left of a text when a middle part is cut out. *)
Lemma split_parts p s t u v :
  symbols split_chars p = s ++ t ++ u ++ v ->
  split_chars (bytes_of t ++ bytes_of v) = t.*2 ++ v.*2.
Proof.
  intros Hp. pose proof (symbols_snd split_chars p) as Hs. rewrite Hp, !fmap_app in Hs.
  pose proof (split_cut (split_chars := split_chars) (mjoin (drop (length s) (split_chars p)))
    (length t) (length t + length u) ltac:(lia)) as Hk.
  rewrite (split_drop split_chars), <- Hs, drop_app_length', take_app_length' in Hk by (by rewrite length_fmap).
  by rewrite app_assoc, drop_app_length' in Hk by (by rewrite length_app, !length_fmap).
Qed.

Lemma fixed_width_parts p s t u v :
  fixed_width split_chars p -> symbols split_chars p = s ++ t ++ u ++ v ->
  fixed_width split_chars (bytes_of t ++ bytes_of v).
Proof.
  intros [w Hw] Hp. exists w. rewrite (split_parts p s t u v Hp).
  rewrite <- (symbols_snd split_chars), Hp, !fmap_app in Hw.
  apply Forall_app in Hw as [_ [Ht [_ Hv]%Forall_app]%Forall_app]. by apply Forall_app.
Qed.

Lemma fixed_width_part p s t u :
  fixed_width split_chars p -> symbols split_chars p = s ++ t ++ u -> fixed_width split_chars (bytes_of t).
Proof.
  intros Hw Hp. rewrite <- (app_nil_r (bytes_of t)). apply (fixed_width_parts p s t u [] Hw).
  by rewrite app_nil_r.
Qed.

(** The chunks of a value *)
Definition substring_feed (sm : SubstringMatcher) (chunks : list (list Z)) : SubstringMatcher :=
  foldl (fun sm s => substring_process s sm) (substring_reset sm) chunks.

Lemma substring_feed_searches sm chunks :
  searches (mt_ev (sm_r1 sm)) (mt_ev (sm_r2 sm)) (mt_ev (sm_r3 sm)) (mt_ev (sm_r23 sm))
    (mjoin chunks) (substring_feed sm chunks).
Proof.
  unfold substring_feed. induction chunks as [|c chunks IH] using rev_ind; [done|].
  rewrite foldl_app, join_app. destruct IH as (IH1 & IH). simpl. rewrite app_nil_r.
  split; [simpl; by rewrite IH1|exact IH].
Qed.

End Substring.

(** ** Concrete patterns *)

(** [#] is the escape character; [!] stands for the double quote. *)
Definition quoted (s : string) : list Z := (fun c => if decide (c = 33) then 34 else c) <$> latin_string s.

Definition latin_substring (p s : string) : PRes (option (Z * Z)) :=
  sm ← SubstringMatcher_new (T := latin_text) 35 1 (quoted p) 0 0;
  '(b, sm) ← substring_result (T := latin_text) 2000 (substring_process (latin_string s) (substring_reset sm));
  Done (if b : bool then Some (getResultInfo sm) else None).

Definition bracket_pattern : list Z := quoted "%<#![^>]+#!>%".


(** The characters between the first open bracket and the close bracket after it *)
Example latin_substring_1 : latin_substring "%<#![^>]+#!>%" "a<bc>d<e>" = Done (Some (2, 2)).
Proof. vm_compute. reflexivity. Qed.

(** The longest R2 *)
Example latin_substring_2 : latin_substring "%<#!_+#!>%" "a<bc>d<e>" = Done (Some (2, 6)).
Proof. vm_compute. reflexivity. Qed.

(** *** Where the code does not do what it means to *)

(** The second and third segment are put together as texts: [a|b] before [c] is
    compiled as [a|bc], and the value [ac], of which [a] is the answer, is refused. *)
Example substring_alternatives : latin_substring "#!a|b#!c" "ac" = Done None.
Proof. vm_compute. reflexivity. Qed.

(** The whole value is never tried for R1, unless it is empty. *)
Example substring_whole_value :
  latin_substring "a#!_*#!" "a" = Done None /\ latin_substring "%#!_*#!" "a" = Done (Some (0, 1)).
Proof. split; vm_compute; reflexivity. Qed.

(** The length of the pattern is in bytes, and added to a pointer to characters:
    when these have four bytes, the code reads past the end. *)
Example substring_overrun :
  SubstringMatcher_new (T := utf8_text) 35 4 bracket_pattern 0 0 = OutOfBounds /\
  exists sm, SubstringMatcher_new (T := utf8_text) 35 1 bracket_pattern 0 0 = Done sm.
Proof. split; [vm_compute; reflexivity|]. eexists. vm_compute. reflexivity. Qed.
