(* ===== verification/KeyTree.v ===== *)
(** * What the sparse bitmap requires of its tree

    [BePlusTree] ([src/src/common/classes/tree.h]) keeps items with unique keys in
    the order of their keys, and is accessed through accessors, which have a
    position. [TreeOps] are the operations, [TreeLaws] what they promise on the
    list of the items: what follows where the position of an accessor is known.
    The instance is a sorted list. *)

From Stdlib Require Import Sorting.Sorted.
From S2P Require Import Prelude.

Inductive LocType := locEqual | locLess | locGreat | locGreatEqual | locLessEqual.

(** [getNext], [getPrev], [current] and [fastRemove] need an accessor with a
    position, and are undefined without one. *)
Class TreeOps (V Tree Acc : Type) := {
  tree_new : Tree;
  acc_new : Acc;
  tree_isEmpty : Tree -> bool;
  tree_add : V -> Tree -> Acc -> bool * Tree * Acc;
  tree_locate : LocType -> Z -> Tree -> Acc -> bool * Acc;
  tree_isPositioned : Z -> Tree -> Acc -> bool;
  tree_getFirst : Tree -> Acc -> bool * Acc;
  tree_getLast : Tree -> Acc -> bool * Acc;
  tree_getNext : Tree -> Acc -> option (bool * Acc);
  tree_getPrev : Tree -> Acc -> option (bool * Acc);
  tree_current : Tree -> Acc -> option V;
  (** a store through the reference that [current] returns *)
  tree_update : V -> Tree -> Acc -> option Tree;
  tree_fastRemove : Tree -> Acc -> option (bool * Tree * Acc);
  tree_clear : Tree -> Acc -> Tree * Acc;
  tree_seemsBiggerThan : Tree -> Tree -> bool
}.

(** ** Positions in a list of items *)

Section Locate.
Context {V : Type} (key : V -> Z).

(** The first item that satisfies [P]. *)
Definition first_index (P : V -> Prop) `{!forall v, Decision (P v)} (l : list V) : option nat :=
  fst <$> list_find P l.

(** The number of items before the first that satisfies [P]. *)
Definition count_before (P : V -> Prop) `{!forall v, Decision (P v)} (l : list V) : nat :=
  default (length l) (first_index P l).

(** The item an accessor is positioned at. *)
Definition loc_index (lt : LocType) (k : Z) (l : list V) : option nat :=
  match lt with
  | locEqual => first_index (fun v => key v = k) l
  | locGreatEqual => first_index (fun v => k <= key v) l
  | locGreat => first_index (fun v => k < key v) l
  | locLessEqual =>
      match count_before (fun v => k < key v) l with O => None | S n => Some n end
  | locLess =>
      match count_before (fun v => k <= key v) l with O => None | S n => Some n end
  end.

Definition by_key (a b : V) : Prop := key a < key b.

Lemma first_index_Some P `{!forall v, Decision (P v)} l i :
  first_index P l = Some i <->
  exists v, l !! i = Some v /\ P v /\ forall j w, l !! j = Some w -> (j < i)%nat -> ~ P w.
Proof.
  unfold first_index. rewrite fmap_Some. split.
  - intros ([j v] & (? & ? & ?)%list_find_Some & ->). by exists v.
  - intros (v & ? & ? & ?). exists (i, v). by rewrite list_find_Some.
Qed.

Lemma first_index_None P `{!forall v, Decision (P v)} l :
  first_index P l = None <-> Forall (fun v => ~ P v) l.
Proof. unfold first_index. by rewrite fmap_None, list_find_None. Qed.

Lemma count_before_app P `{!forall v, Decision (P v)} l1 l2 :
  Forall (fun v => ~ P v) l1 -> Forall P l2 -> count_before P (l1 ++ l2) = length l1.
Proof.
  intros H1 H2. unfold count_before. destruct l2 as [|v l2].
  - rewrite app_nil_r. by rewrite (proj2 (first_index_None P l1)).
  - apply Forall_cons in H2 as [Hv _].
    rewrite (proj2 (first_index_Some P (l1 ++ v :: l2) (length l1))); [done|].
    exists v. rewrite list_lookup_middle by done. split; [done|]. split; [done|].
    intros j w Hj Hlt. rewrite lookup_app_l in Hj by done. by eapply (Forall_lookup_1 _ _ _ _ H1).
Qed.

(** ** Sorted lists of items *)

Lemma sorted_lookup l i j a b :
  StronglySorted by_key l -> (i < j)%nat -> l !! i = Some a -> l !! j = Some b -> key a < key b.
Proof.
  intros Hs. revert i j. induction Hs as [|c l Hs IH Hc]; intros i j Hij Ha Hb; [done|].
  destruct j as [|j]; [lia|]. destruct i as [|i]; simpl in *.
  - simplify_eq. exact (Forall_lookup_1 _ _ _ _ Hc Hb).
  - apply (IH i j); [lia|done|done].
Qed.

Lemma sorted_inj l i j a b :
  StronglySorted by_key l -> l !! i = Some a -> l !! j = Some b -> key a = key b -> i = j.
Proof.
  intros Hs Ha Hb E. destruct (lt_eq_lt_dec i j) as [[H|H]|H]; [|done|].
  - pose proof (sorted_lookup _ _ _ _ _ Hs H Ha Hb). lia.
  - pose proof (sorted_lookup _ _ _ _ _ Hs H Hb Ha). lia.
Qed.

Lemma sorted_app l1 l2 :
  StronglySorted by_key (l1 ++ l2) <->
  StronglySorted by_key l1 /\ StronglySorted by_key l2 /\
  forall a b, a ∈ l1 -> b ∈ l2 -> key a < key b.
Proof.
  induction l1 as [|c l1 IH]; simpl.
  - split; [|tauto]. intros H. split; [constructor|]. split; [done|]. intros a b Ha. by apply elem_of_nil in Ha.
  - split.
    + intros H. inversion H as [|? ? Hs Hc]; subst. apply IH in Hs as (S1 & S2 & Hlt).
      apply Forall_app in Hc as [Hc1 Hc2]. split; [by constructor|]. split; [done|].
      intros a b [->|Ha]%elem_of_cons Hb; [|by apply Hlt]. by apply (proj1 (Forall_forall _ _) Hc2).
    + intros (H1 & H2 & Hlt). inversion H1 as [|? ? Hs Hc]; subst. constructor.
      * apply IH. split; [done|]. split; [done|]. intros a b Ha Hb. apply Hlt; [by apply elem_of_cons; right|done].
      * apply Forall_app. split; [done|]. apply Forall_forall. intros b Hb. apply Hlt; [apply elem_of_cons; by left|done].
Qed.

(** The place of a key that is not in the list. *)
Lemma sorted_split l k :
  StronglySorted by_key l -> Forall (fun v => key v <> k) l ->
  exists l1 l2, l = l1 ++ l2 /\ Forall (fun v => key v < k) l1 /\ Forall (fun v => k < key v) l2.
Proof.
  induction 1 as [|c l Hs IH Hc]; intros Hne.
  - exists [], []. split; [done|]. split; constructor.
  - apply Forall_cons in Hne as [Hne Hne']. destruct (decide (key c < k)) as [Hlt|Hge].
    + destruct (IH Hne') as (l1 & l2 & -> & H1 & H2). exists (c :: l1), l2. split; [done|].
      split; [by constructor|done].
    + exists [], (c :: l). split; [done|]. split; [constructor|]. constructor; [lia|].
      eapply Forall_impl; [exact Hc|]. unfold by_key. intros w. lia.
Qed.

(** Changes that keep a list sorted. *)
Lemma sorted_insert_middle l1 l2 v :
  StronglySorted by_key (l1 ++ l2) -> Forall (fun w => key w < key v) l1 ->
  Forall (fun w => key v < key w) l2 -> StronglySorted by_key (l1 ++ v :: l2).
Proof.
  intros (S1 & S2 & Hlt)%sorted_app H1 H2. apply sorted_app. split; [done|]. split; [by constructor|].
  intros a b Ha [->|Hb]%elem_of_cons; [by apply (proj1 (Forall_forall _ _) H1)|by apply Hlt].
Qed.

Lemma sorted_replace l i v v' :
  StronglySorted by_key l -> l !! i = Some v' -> key v' = key v -> StronglySorted by_key (<[i := v]> l).
Proof.
  intros Hs Hi E. rewrite <- (take_drop_middle l i v' Hi) in Hs.
  rewrite (insert_take_drop l i v) by by eapply lookup_lt_Some.
  apply sorted_app in Hs as (S1 & S2 & Hlt). inversion S2 as [|? ? S3 Hc]; subst.
  apply sorted_app. split; [done|]. split.
  - constructor; [done|]. eapply Forall_impl; [exact Hc|]. unfold by_key. intros w. lia.
  - intros a b Ha [->|Hb]%elem_of_cons.
    + rewrite <- E. apply Hlt; [done|apply elem_of_cons; by left].
    + apply Hlt; [done|apply elem_of_cons; by right].
Qed.

Lemma sorted_delete l i : StronglySorted by_key l -> StronglySorted by_key (delete i l).
Proof.
  intros Hs. destruct (l !! i) as [v|] eqn:Hi.
  - rewrite delete_take_drop. rewrite <- (take_drop_middle l i v Hi) in Hs.
    apply sorted_app in Hs as (S1 & S2 & Hlt). inversion S2; subst. apply sorted_app.
    split; [done|]. split; [done|]. intros a b Ha Hb. apply Hlt; [done|apply elem_of_cons; by right].
  - rewrite delete_take_drop, take_ge, drop_ge, app_nil_r by (apply lookup_ge_None in Hi; lia). done.
Qed.
End Locate.

(** [tree_rep t l]: the items of [t] are [l]. [acc_at t a i]: [a] is at item [i]. *)
Class TreeLaws {V Tree Acc : Type} (key : V -> Z) (T : TreeOps V Tree Acc)
    (tree_rep : Tree -> list V -> Prop) (acc_at : Tree -> Acc -> nat -> Prop) : Prop := {
  rep_sorted t l : tree_rep t l -> StronglySorted (by_key key) l;
  rep_new : tree_rep tree_new [];
  isEmpty_spec t l : tree_rep t l -> tree_isEmpty t = bool_decide (l = []);
  add_exists v t a l i v' :
    tree_rep t l -> l !! i = Some v' -> key v' = key v ->
    exists t' a', tree_add v t a = (false, t', a') /\ tree_rep t' l /\ acc_at t' a' i;
  add_new v t a l1 l2 :
    tree_rep t (l1 ++ l2) -> Forall (fun w => key w < key v) l1 -> Forall (fun w => key v < key w) l2 ->
    exists t' a', tree_add v t a = (true, t', a') /\ tree_rep t' (l1 ++ v :: l2);
  locate_spec lt k t a l :
    tree_rep t l -> exists a', tree_locate lt k t a = (bool_decide (is_Some (loc_index key lt k l)), a') /\
      forall i, loc_index key lt k l = Some i -> acc_at t a' i;
  positioned_spec k t a l :
    tree_rep t l -> tree_isPositioned k t a = true ->
    exists i v, acc_at t a i /\ l !! i = Some v /\ key v = k;
  first_spec t a l :
    tree_rep t l -> exists a', tree_getFirst t a = (bool_decide (l <> []), a') /\ (l <> [] -> acc_at t a' 0%nat);
  last_spec t a l :
    tree_rep t l -> exists a', tree_getLast t a = (bool_decide (l <> []), a') /\
      (l <> [] -> acc_at t a' (length l - 1)%nat);
  next_spec t a l i :
    tree_rep t l -> acc_at t a i ->
    exists a', tree_getNext t a = Some (bool_decide (S i < length l)%nat, a') /\
      acc_at t a' (if decide (S i < length l)%nat then S i else i);
  prev_spec t a l i :
    tree_rep t l -> acc_at t a i ->
    exists a', tree_getPrev t a = Some (bool_decide (0 < i)%nat, a') /\ acc_at t a' (i - 1)%nat;
  current_spec t a l i : tree_rep t l -> acc_at t a i -> exists v, tree_current t a = Some v /\ l !! i = Some v;
  update_spec v t a l i v' :
    tree_rep t l -> acc_at t a i -> l !! i = Some v' -> key v' = key v ->
    exists t', tree_update v t a = Some t' /\ tree_rep t' (<[i := v]> l) /\ acc_at t' a i;
  remove_spec t a l i :
    tree_rep t l -> acc_at t a i ->
    exists t' a', tree_fastRemove t a = Some (bool_decide (S i < length l)%nat, t', a') /\
      tree_rep t' (delete i l) /\ ((S i < length l)%nat -> acc_at t' a' i);
  clear_spec t a l : tree_rep t l -> tree_rep (tree_clear t a).1 [];
  bigger_empty t1 t2 l : tree_rep t1 [] -> tree_rep t2 l -> l <> [] -> tree_seemsBiggerThan t1 t2 = false;
  bigger_not_empty t1 t2 l : tree_rep t1 l -> tree_rep t2 [] -> l <> [] -> tree_seemsBiggerThan t1 t2 = true
}.

(** ** A sorted list as a tree

    An accessor is a position in the list; an addition leaves it where it was, as
    the code does. *)
Section ListTree.
Context {V : Type} (key : V -> Z).

Definition list_key_found (k : Z) (l : list V) : option nat := first_index (fun v => key v = k) l.

Definition list_tree : TreeOps V (list V) (option nat) := {|
  tree_new := [];
  acc_new := None;
  tree_isEmpty l := match l with [] => true | _ => false end;
  tree_add v l a :=
    match list_key_found (key v) l with
    | Some i => (false, l, Some i)
    | None => (true, take (count_before (fun w => key v < key w) l) l ++
                       v :: drop (count_before (fun w => key v < key w) l) l, a)
    end;
  tree_locate lt k l a :=
    match loc_index key lt k l with Some i => (true, Some i) | None => (false, None) end;
  tree_isPositioned k l a :=
    match a ≫= (fun i => l !! i) with Some v => bool_decide (key v = k) | None => false end;
  tree_getFirst l a := match l with [] => (false, None) | _ => (true, Some 0%nat) end;
  tree_getLast l a := match l with [] => (false, None) | _ => (true, Some (length l - 1)%nat) end;
  tree_getNext l a :=
    i ← a; Some (if decide (S i < length l)%nat then (true, Some (S i)) else (false, Some i));
  tree_getPrev l a :=
    i ← a; Some (match i with O => (false, Some 0%nat) | S i => (true, Some i) end);
  tree_current l a := i ← a; l !! i;
  tree_update v l a := i ← a; if decide (i < length l)%nat then Some (<[i := v]> l) else None;
  tree_fastRemove l a :=
    i ← a; if decide (i < length l)%nat
           then Some (bool_decide (S i < length l)%nat, delete i l, Some i) else None;
  tree_clear _ _ := ([], None);
  tree_seemsBiggerThan l1 l2 := bool_decide (length l2 < length l1)%nat
|}.

Definition list_rep (t l : list V) : Prop := t = l /\ StronglySorted (by_key key) l.
Definition list_at (t : list V) (a : option nat) (i : nat) : Prop := a = Some i /\ (i < length t)%nat.

Lemma list_tree_laws : TreeLaws key list_tree list_rep list_at.
Proof.
  split.
  - by intros t l [-> ?].
  - split; [done|constructor].
  - intros t l [-> _]. simpl. by destruct l.
  - intros v t a l i v' [-> Hs] Hi E. simpl. unfold list_key_found.
    rewrite (proj2 (first_index_Some _ l i)).
    + exists l, (Some i). split; [done|]. split; [done|]. split; [done|]. by eapply lookup_lt_Some.
    + exists v'. split; [done|]. split; [done|]. intros j w Hj Hlt E'.
      pose proof (sorted_inj _ _ _ _ _ _ Hs Hj Hi). lia.
  - intros v t a l1 l2 [-> Hs] H1 H2. simpl. unfold list_key_found.
    assert (first_index (fun w => key w = key v) (l1 ++ l2) = None) as ->.
    { apply first_index_None. apply Forall_app. split; [apply (Forall_impl _ _ _ H1)|apply (Forall_impl _ _ _ H2)]; lia. }
    rewrite count_before_app by (done || (apply (Forall_impl _ _ _ H1); lia)).
    do 2 eexists. split; [done|]. rewrite take_app_length, drop_app_length. split; [done|].
    by apply sorted_insert_middle.
  - intros lt k t a l [-> Hs]. simpl. destruct (loc_index key lt k l) as [i|] eqn:E.
    + exists (Some i). split; [done|]. intros i' [= <-]. split; [done|].
      destruct lt; simpl in E;
        try (apply first_index_Some in E as (v & ? & _); by eapply lookup_lt_Some);
        unfold count_before in E; destruct (first_index _ l) as [n|] eqn:F; simpl in E;
        try (apply first_index_Some in F as (v & Hn%lookup_lt_Some & _); destruct n; simplify_eq; lia);
        destruct (length l); simplify_eq; lia.
    + exists None. by split.
  - intros k t a l [-> Hs] H. simpl in H. destruct a as [i|]; simpl in H; [|done].
    destruct (l !! i) as [v|] eqn:E; [|done]. apply bool_decide_eq_true in H. exists i, v.
    split; [|done]. split; [done|]. by eapply lookup_lt_Some.
  - intros t a l [-> Hs]. simpl. destruct l as [|v l]; [by exists None|]. exists (Some 0%nat).
    split; [done|]. split; [done|simpl; lia].
  - intros t a l [-> Hs]. simpl. destruct l as [|v l]; [by exists None|]. eexists.
    split; [done|]. intros _. split; [done|simpl; lia].
  - intros t a l i [-> Hs] [-> Hi]. simpl. case_decide.
    + eexists. rewrite bool_decide_eq_true_2 by done. by split.
    + eexists. rewrite bool_decide_eq_false_2 by done. by split.
  - intros t a l i [-> Hs] [-> Hi]. simpl. destruct i as [|i]; (eexists; split; [done|]; split; [f_equal; lia|lia]).
  - intros t a l i [-> Hs] [-> Hi]. simpl. destruct (lookup_lt_is_Some_2 _ _ Hi) as [v Hv]. by exists v.
  - intros v t a l i v' [-> Hs] [-> Hi] Hv E. simpl. rewrite decide_True by done. eexists. split; [done|].
    split; [split; [done|by eapply sorted_replace]|]. split; [done|]. by rewrite length_insert.
  - intros t a l i [-> Hs] [-> Hi]. simpl. rewrite decide_True by done. do 2 eexists. split; [done|].
    split; [split; [done|by apply sorted_delete]|]. intros Hlt. split; [done|].
    rewrite length_delete by (by apply lookup_lt_is_Some_2). lia.
  - intros t a l [-> Hs]. split; [done|constructor].
  - intros t1 t2 l [-> _] [-> _] Hl. done.
  - intros t1 t2 l [-> _] [-> _] Hl. simpl. apply bool_decide_eq_true. destruct l; [done|simpl; lia].
Qed.
End ListTree.
