(* ===== verification/SparseBitmap.v ===== *)
(** * [SparseBitmap]: [src/src/common/classes/sparse_bitmap.h]

    A set of unsigned numbers: a single number, or a tree of buckets of bits. The
    tree is what KeyTree promises. *)

From S2P Require Import Prelude KeyTree.

(** A bucket with its aligned first number and its bits. *)
Record Bucket := { start_value : Z; bits : Z }.

#[export] Instance Bucket_eq_dec : EqDecision Bucket.
Proof. solve_decision. Defined.

(** The condition of a loop over masks *)
Definition nonzero (m : Z) : Prop := m <> 0.

#[export] Instance nonzero_dec m : Decision (nonzero m).
Proof. unfold nonzero. apply _. Defined.

Section SparseBitmap.
(** [T] has [TW] bits, and [BUNCH_T] has [2 ^ lb] bits. *)
Context (TW lb : Z).
Context {Tree Acc : Type} {TO : TreeOps Bucket Tree Acc}.

Definition BUNCH_BITS : Z := 2 ^ lb.

(** [value & ~(T) (BUNCH_BITS - 1)] *)
Definition bucket_base (value : Z) : Z := Z.land value (wrapU TW (Z.lnot (BUNCH_BITS - 1))).

(** [BUNCH_ONE << n] *)
Definition bunch_bit (n : Z) : Z := wrapU BUNCH_BITS (Z.shiftl 1 n).

(** [tree] with its default accessor; the accessor of the bitmap is apart. *)
Record Bitmap := {
  bm_singular : bool;
  bm_singular_value : Z;
  bm_tree : Tree;
  bm_acc : Acc
}.

Definition bitmap_new : Bitmap :=
  {| bm_singular := false; bm_singular_value := 0; bm_tree := tree_new; bm_acc := acc_new |}.

(** The tree or its accessor changes. *)
Definition with_tree (bm : Bitmap) (t : Tree) (a : Acc) : Bitmap :=
  {| bm_singular := false; bm_singular_value := bm_singular_value bm; bm_tree := t; bm_acc := a |}.

(** [tree.current().bits = f(tree.current().bits)] *)
Definition change_bits (f : Z -> Z) (t : Tree) (a : Acc) : option Tree :=
  c ← tree_current t a;
  tree_update {| start_value := start_value c; bits := f (bits c) |} t a.

(** [set] after the treatment of the single number. *)
Definition set_bit (value : Z) (bm : Bitmap) : option Bitmap :=
  let val_aligned := bucket_base value in
  let bit_mask := bunch_bit (value - val_aligned) in
  let bucket := {| start_value := val_aligned; bits := bit_mask |} in
  if tree_isPositioned val_aligned (bm_tree bm) (bm_acc bm) then
    t ← change_bits (fun b => Z.lor b bit_mask) (bm_tree bm) (bm_acc bm);
    Some (with_tree bm t (bm_acc bm))
  else
    let '(added, t, a) := tree_add bucket (bm_tree bm) (bm_acc bm) in
    if added : bool then Some (with_tree bm t a)
    else
      t ← change_bits (fun b => Z.lor b bit_mask) t a;
      Some (with_tree bm t a).

Definition bitmap_set (value : Z) (bm : Bitmap) : option Bitmap :=
  if bm_singular bm then
    if decide (bm_singular_value bm = value) then Some bm
    else
      let start := bucket_base (bm_singular_value bm) in
      let bucket := {| start_value := start; bits := bunch_bit (bm_singular_value bm - start) |} in
      let '(_, t, a) := tree_add bucket (bm_tree bm) (bm_acc bm) in
      set_bit value (with_tree bm t a)
  else if tree_isEmpty (bm_tree bm) then
    Some {| bm_singular := true; bm_singular_value := value; bm_tree := bm_tree bm; bm_acc := bm_acc bm |}
  else set_bit value bm.

(** [tree.isPositioned(key) || tree.locate(key)] *)
Definition find_bucket (key : Z) (bm : Bitmap) : bool * Bitmap :=
  if tree_isPositioned key (bm_tree bm) (bm_acc bm) then (true, bm)
  else
    let '(found, a) := tree_locate locEqual key (bm_tree bm) (bm_acc bm) in
    (found, with_tree bm (bm_tree bm) a).

Definition bitmap_clear (value : Z) (bm : Bitmap) : option (bool * Bitmap) :=
  if bm_singular bm then
    if decide (value = bm_singular_value bm) then
      Some (true, {| bm_singular := false; bm_singular_value := bm_singular_value bm;
                     bm_tree := bm_tree bm; bm_acc := bm_acc bm |})
    else Some (false, bm)
  else
    let val_aligned := bucket_base value in
    let '(found, bm) := find_bucket val_aligned bm in
    if found then
      let bit_mask := bunch_bit (value - val_aligned) in
      c ← tree_current (bm_tree bm) (bm_acc bm);
      if decide (Z.land (bits c) bit_mask <> 0) then
        t ← change_bits (fun b => Z.land b (wrapU BUNCH_BITS (Z.lnot bit_mask))) (bm_tree bm) (bm_acc bm);
        c ← tree_current t (bm_acc bm);
        if decide (bits c = 0) then
          '(_, t, a) ← tree_fastRemove t (bm_acc bm);
          Some (true, with_tree bm t a)
        else Some (true, with_tree bm t (bm_acc bm))
      else Some (false, bm)
    else Some (false, bm).

Definition bitmap_test (value : Z) (bm : Bitmap) : option (bool * Bitmap) :=
  if bm_singular bm then Some (bool_decide (value = bm_singular_value bm), bm)
  else
    let val_aligned := bucket_base value in
    let '(found, bm) := find_bucket val_aligned bm in
    if found then
      let bit_mask := bunch_bit (value - val_aligned) in
      c ← tree_current (bm_tree bm) (bm_acc bm);
      Some (bool_decide (Z.land (bits c) bit_mask <> 0), bm)
    else Some (false, bm).

(** Make the bitmap empty. *)
Definition bitmap_clear_all (bm : Bitmap) : Bitmap :=
  let '(t, a) := tree_clear (bm_tree bm) (bm_acc bm) in with_tree bm t a.

(** The static [test] and [reset], on a bitmap that may be [NULL]. *)
Definition bitmap_test_null (value : Z) (bm : option Bitmap) : option (bool * option Bitmap) :=
  match bm with
  | None => Some (false, None)
  | Some bm => '(b, bm) ← bitmap_test value bm; Some (b, Some bm)
  end.

Definition bitmap_reset_null (bm : option Bitmap) : option Bitmap := bitmap_clear_all <$> bm.

(** ** The accessor *)

Record BitAccessor := { ba_tree : Acc; ba_mask : Z; ba_value : Z }.

Definition accessor_new : BitAccessor := {| ba_tree := acc_new; ba_mask := 1; ba_value := 0 |}.

(** [do { if (bits & mask) return true; mask <<= 1; value++; } while (mask);]: whether a
    bit was found, with the mask and the value the loop ends with. *)
Fixpoint scan_up (fuel : nat) (tree_bits mask value : Z) : option (bool * Z * Z) :=
  match fuel with
  | O => None
  | S fuel =>
      if decide (Z.land tree_bits mask <> 0) then Some (true, mask, value)
      else
        let mask := wrapU BUNCH_BITS (Z.shiftl mask 1) in
        let value := wrapU TW (value + 1) in
        if decide (mask <> 0) then scan_up fuel tree_bits mask value else Some (false, mask, value)
  end.

(** The same loop downwards; [more] is the condition of the loop. *)
Fixpoint scan_down (more : Z -> Prop) `{!forall m, Decision (more m)} (fuel : nat)
    (tree_bits mask value : Z) : option (bool * Z * Z) :=
  match fuel with
  | O => None
  | S fuel =>
      if decide (Z.land tree_bits mask <> 0) then Some (true, mask, value)
      else
        let mask := Z.shiftr mask 1 in
        let value := wrapU TW (value - 1) in
        if decide (more mask) then scan_down more fuel tree_bits mask value
        else Some (false, mask, value)
  end.

Definition scan_fuel : nat := S (Z.to_nat BUNCH_BITS).

(** [while (mask) ...]: the same loops with the test first. *)
Definition while_up (tree_bits mask value : Z) : option (bool * Z * Z) :=
  if decide (nonzero mask) then scan_up scan_fuel tree_bits mask value else Some (false, mask, value).

Definition while_down (tree_bits mask value : Z) : option (bool * Z * Z) :=
  if decide (nonzero mask) then scan_down nonzero scan_fuel tree_bits mask value
  else Some (false, mask, value).

(** From the first bit of the current bucket up, or from the last one down; a bucket
    without bits is an assertion that fails. *)
Definition first_of_bucket (t : Tree) (a : Acc) : option (bool * BitAccessor) :=
  c ← tree_current t a;
  '(found, mask, value) ← scan_up scan_fuel (bits c) 1 (start_value c);
  if found : bool then Some (true, {| ba_tree := a; ba_mask := mask; ba_value := value |}) else None.

Definition last_of_bucket (t : Tree) (a : Acc) : option (bool * BitAccessor) :=
  c ← tree_current t a;
  '(found, mask, value) ← scan_down nonzero scan_fuel (bits c) (bunch_bit (BUNCH_BITS - 1))
                            (wrapU TW (start_value c + BUNCH_BITS - 1));
  if found : bool then Some (true, {| ba_tree := a; ba_mask := mask; ba_value := value |}) else None.

(** [locate] in the tree, for the three relations that are left. *)
Definition locate_equal (key key_aligned : Z) (t : Tree) (a : Acc) : option (bool * BitAccessor) :=
  let mask := bunch_bit (key - key_aligned) in
  c ← tree_current t a;
  Some (bool_decide (Z.land (bits c) mask <> 0), {| ba_tree := a; ba_mask := mask; ba_value := key |}).

Definition locate_up (key key_aligned : Z) (t : Tree) (a : Acc) : option (bool * BitAccessor) :=
  c ← tree_current t a;
  let '(mask, value) := if decide (start_value c = key_aligned) then (bunch_bit (key - key_aligned), key)
                        else (1, start_value c) in
  '(found, mask, value) ← scan_up scan_fuel (bits c) mask value;
  if found : bool then Some (true, {| ba_tree := a; ba_mask := mask; ba_value := value |})
  else
    '(next, a) ← tree_getNext t a;
    if next : bool then first_of_bucket t a
    else Some (false, {| ba_tree := a; ba_mask := mask; ba_value := value |}).

Definition locate_down (key key_aligned : Z) (t : Tree) (a : Acc) : option (bool * BitAccessor) :=
  c ← tree_current t a;
  let '(mask, value) := if decide (start_value c = key_aligned) then (bunch_bit (key - key_aligned), key)
                        else (bunch_bit (BUNCH_BITS - 1), start_value c) in
  '(found, mask, value) ← scan_down nonzero scan_fuel (bits c) mask value;
  if found : bool then Some (true, {| ba_tree := a; ba_mask := mask; ba_value := value |})
  else
    '(prev, a) ← tree_getPrev t a;
    if prev : bool then last_of_bucket t a
    else Some (false, {| ba_tree := a; ba_mask := mask; ba_value := value |}).

Definition locate_singular (lt : LocType) (key value : Z) : bool :=
  match lt with
  | locEqual => bool_decide (value = key)
  | locGreatEqual => bool_decide (value >= key)
  | locLessEqual => bool_decide (value <= key)
  | locLess => bool_decide (value < key)
  | locGreat => bool_decide (value > key)
  end.

(** [locLess] and [locGreat] become [locLessEqual] and [locGreatEqual] of the number
    before or after, if there is one. *)
Definition normalize (lt : LocType) (key : Z) : option (LocType * Z) :=
  match lt with
  | locLess => if decide (key = 0) then None else Some (locLessEqual, wrapU TW (key - 1))
  | locGreat => if decide (key = wrapU TW (Z.lnot 0)) then None else Some (locGreatEqual, wrapU TW (key + 1))
  | _ => Some (lt, key)
  end.

Definition accessor_locate (lt : LocType) (key : Z) (bm : option Bitmap) (acc : BitAccessor)
    : option (bool * BitAccessor) :=
  match bm with
  | None => Some (false, acc)
  | Some bm =>
      if bm_singular bm then
        let value := bm_singular_value bm in
        Some (locate_singular lt key value,
              {| ba_tree := ba_tree acc; ba_mask := ba_mask acc; ba_value := value |})
      else
        match normalize lt key with
        | None => Some (false, acc)
        | Some (lt, key) =>
            let key_aligned := bucket_base key in
            let '(found, a) := tree_locate lt key_aligned (bm_tree bm) (ba_tree acc) in
            if negb found then
              Some (false, {| ba_tree := a; ba_mask := ba_mask acc; ba_value := ba_value acc |})
            else
              match lt with
              | locEqual => locate_equal key key_aligned (bm_tree bm) a
              | locGreatEqual => locate_up key key_aligned (bm_tree bm) a
              | _ => locate_down key key_aligned (bm_tree bm) a
              end
        end
  end.

(** The value of a bitmap of one number *)
Definition at_singular (bm : Bitmap) (acc : BitAccessor) : BitAccessor :=
  {| ba_tree := ba_tree acc; ba_mask := ba_mask acc; ba_value := bm_singular_value bm |}.

Definition accessor_getFirst (bm : option Bitmap) (acc : BitAccessor) : option (bool * BitAccessor) :=
  match bm with
  | None => Some (false, acc)
  | Some bm =>
      if bm_singular bm then Some (true, at_singular bm acc)
      else
        let '(found, a) := tree_getFirst (bm_tree bm) (ba_tree acc) in
        if found then first_of_bucket (bm_tree bm) a
        else Some (false, {| ba_tree := a; ba_mask := ba_mask acc; ba_value := ba_value acc |})
  end.

Definition accessor_getLast (bm : option Bitmap) (acc : BitAccessor) : option (bool * BitAccessor) :=
  match bm with
  | None => Some (false, acc)
  | Some bm =>
      if bm_singular bm then Some (true, at_singular bm acc)
      else
        let '(found, a) := tree_getLast (bm_tree bm) (ba_tree acc) in
        if found then last_of_bucket (bm_tree bm) a
        else Some (false, {| ba_tree := a; ba_mask := ba_mask acc; ba_value := ba_value acc |})
  end.

(** The current bucket from the next bit on, and then the next bucket *)
Definition accessor_getNext (bm : Bitmap) (acc : BitAccessor) : option (bool * BitAccessor) :=
  if bm_singular bm then Some (false, acc)
  else
    let try_mask := wrapU BUNCH_BITS (Z.shiftl (ba_mask acc) 1) in
    let try_value := wrapU TW (ba_value acc + 1) in
    c ← tree_current (bm_tree bm) (ba_tree acc);
    '(found, mask, value) ← while_up (bits c) try_mask try_value;
    if found : bool then Some (true, {| ba_tree := ba_tree acc; ba_mask := mask; ba_value := value |})
    else
      '(next, a) ← tree_getNext (bm_tree bm) (ba_tree acc);
      if next : bool then first_of_bucket (bm_tree bm) a
      else Some (false, {| ba_tree := a; ba_mask := ba_mask acc; ba_value := ba_value acc |}).

(** The second loop tests [bit_mask] instead of [try_mask]. *)
Definition accessor_getPrev (bm : Bitmap) (acc : BitAccessor) : option (bool * BitAccessor) :=
  if bm_singular bm then Some (false, acc)
  else
    let try_mask := Z.shiftr (ba_mask acc) 1 in
    let try_value := wrapU TW (ba_value acc - 1) in
    c ← tree_current (bm_tree bm) (ba_tree acc);
    '(found, mask, value) ← while_down (bits c) try_mask try_value;
    if found : bool then Some (true, {| ba_tree := ba_tree acc; ba_mask := mask; ba_value := value |})
    else
      '(prev, a) ← tree_getPrev (bm_tree bm) (ba_tree acc);
      if prev : bool then
        c ← tree_current (bm_tree bm) a;
        '(found, mask, value) ← scan_down (fun _ => nonzero (ba_mask acc)) scan_fuel (bits c)
                                  (bunch_bit (BUNCH_BITS - 1)) (wrapU TW (start_value c + BUNCH_BITS - 1));
        if found : bool then Some (true, {| ba_tree := a; ba_mask := mask; ba_value := value |}) else None
      else Some (false, {| ba_tree := a; ba_mask := ba_mask acc; ba_value := ba_value acc |}).

(** ** Union and intersection *)

(** The state of the loops: the destination with its accessor, the accessor of the
    source, and the local variables. *)
Record Combine := {
  cb_dest : Tree; cb_destAcc : Acc; cb_destFound : bool; cb_destValue : Z;
  cb_sourceAcc : Acc; cb_sourceFound : bool; cb_sourceValue : Z
}.

Definition set_dest (st : Combine) (dest : Tree) (a : Acc) : Combine :=
  {| cb_dest := dest; cb_destAcc := a; cb_destFound := cb_destFound st; cb_destValue := cb_destValue st;
     cb_sourceAcc := cb_sourceAcc st; cb_sourceFound := cb_sourceFound st;
     cb_sourceValue := cb_sourceValue st |}.

(** [if ((destFound = r)) destValue = dest->tree.current().start_value;] *)
Definition dest_moved (st : Combine) (found : bool) (a : Acc) : option Combine :=
  value ← (if found then start_value <$> tree_current (cb_dest st) a else Some (cb_destValue st));
  Some {| cb_dest := cb_dest st; cb_destAcc := a; cb_destFound := found; cb_destValue := value;
          cb_sourceAcc := cb_sourceAcc st; cb_sourceFound := cb_sourceFound st;
          cb_sourceValue := cb_sourceValue st |}.

Definition dest_next (st : Combine) : option Combine :=
  '(found, a) ← tree_getNext (cb_dest st) (cb_destAcc st);
  dest_moved st found a.

(** [dest->tree.fastRemove()] *)
Definition dest_remove (st : Combine) : option Combine :=
  '(found, t, a) ← tree_fastRemove (cb_dest st) (cb_destAcc st);
  dest_moved (set_dest st t a) found a.

Section Source.
Context (source : Tree).

Definition source_next (st : Combine) : option Combine :=
  '(found, a) ← tree_getNext source (cb_sourceAcc st);
  value ← (if found : bool then start_value <$> tree_current source a else Some (cb_sourceValue st));
  Some {| cb_dest := cb_dest st; cb_destAcc := cb_destAcc st; cb_destFound := cb_destFound st;
          cb_destValue := cb_destValue st; cb_sourceAcc := a; cb_sourceFound := found;
          cb_sourceValue := value |}.

(** [dest->tree.add(source->tree.current())] *)
Definition add_source (st : Combine) : option Combine :=
  c ← tree_current source (cb_sourceAcc st);
  let '(_, t, a) := tree_add c (cb_dest st) (cb_destAcc st) in
  Some (set_dest st t a).

(** The inner loop of [bit_or]: additions in a row. *)
Fixpoint or_row (fuel : nat) (st : Combine) : option Combine :=
  match fuel with
  | O => None
  | S fuel =>
      st ← add_source st;
      st ← source_next st;
      if negb (cb_sourceFound st) then Some st
      else if decide (cb_destValue st <= cb_sourceValue st) then
        let '(_, a) := tree_locate locEqual (cb_destValue st) (cb_dest st) (cb_destAcc st) in
        Some (set_dest st (cb_dest st) a)
      else or_row fuel st
  end.

(** The rest of the source is added. *)
Fixpoint or_rest (fuel : nat) (st : Combine) : option Combine :=
  match fuel with
  | O => None
  | S fuel =>
      st ← add_source st;
      '(found, a) ← tree_getNext source (cb_sourceAcc st);
      let st := {| cb_dest := cb_dest st; cb_destAcc := cb_destAcc st; cb_destFound := cb_destFound st;
                   cb_destValue := cb_destValue st; cb_sourceAcc := a;
                   cb_sourceFound := cb_sourceFound st; cb_sourceValue := cb_sourceValue st |} in
      if found : bool then or_rest fuel st else Some st
  end.

(** [dest->tree.current().bits |= source->tree.current().bits], or [&=] *)
Definition merge_bits (op : Z -> Z -> Z) (st : Combine) : option Combine :=
  c ← tree_current source (cb_sourceAcc st);
  t ← change_bits (fun b => op b (bits c)) (cb_dest st) (cb_destAcc st);
  Some (set_dest st t (cb_destAcc st)).

Fixpoint or_loop (fuel : nat) (st : Combine) : option Combine :=
  match fuel with
  | O => None
  | S fuel =>
      if cb_sourceFound st then
        if cb_destFound st then
          if decide (cb_destValue st < cb_sourceValue st) then
            st ← dest_next st; or_loop fuel st
          else if decide (cb_destValue st = cb_sourceValue st) then
            st ← merge_bits Z.lor st;
            st ← dest_next st;
            st ← source_next st;
            or_loop fuel st
          else
            st ← or_row (S fuel) st; or_loop fuel st
        else or_rest (S fuel) st
      else Some st
  end.

(** [while (dest->tree.fastRemove()) { }] *)
Fixpoint and_trim (fuel : nat) (st : Combine) : option Combine :=
  match fuel with
  | O => None
  | S fuel =>
      '(found, t, a) ← tree_fastRemove (cb_dest st) (cb_destAcc st);
      if found : bool then and_trim fuel (set_dest st t a) else Some (set_dest st t a)
  end.

Fixpoint and_loop (fuel : nat) (st : Combine) : option Combine :=
  match fuel with
  | O => None
  | S fuel =>
      if cb_destFound st then
        if cb_sourceFound st then
          if decide (cb_sourceValue st < cb_destValue st) then
            st ← source_next st; and_loop fuel st
          else if decide (cb_sourceValue st = cb_destValue st) then
            st ← merge_bits Z.land st;
            c ← tree_current (cb_dest st) (cb_destAcc st);
            st ← (if decide (bits c <> 0) then dest_next st else dest_remove st);
            st ← source_next st;
            and_loop fuel st
          else
            st ← dest_remove st; and_loop fuel st
        else and_trim (S fuel) st
      else Some st
  end.
End Source.

(** The loop on the trees of two bitmaps whose accessors are at the first items. *)
Definition combine (loop : Tree -> Combine -> option Combine) (dest source : Bitmap) (da sa : Acc)
    : option (Bitmap * Bitmap) :=
  d ← tree_current (bm_tree dest) da;
  s ← tree_current (bm_tree source) sa;
  st ← loop (bm_tree source)
         {| cb_dest := bm_tree dest; cb_destAcc := da; cb_destFound := true; cb_destValue := start_value d;
            cb_sourceAcc := sa; cb_sourceFound := true; cb_sourceValue := start_value s |};
  Some (with_tree dest (cb_dest st) (cb_destAcc st), with_tree source (bm_tree source) (cb_sourceAcc st)).

Definition or_trees (fuel : nat) (dest source : Bitmap) : option (Bitmap * Bitmap) :=
  let '(sourceFound, sa) := tree_getFirst (bm_tree source) (bm_acc source) in
  let source := with_tree source (bm_tree source) sa in
  if negb sourceFound then Some (dest, source)
  else
    let '(destFound, da) := tree_getFirst (bm_tree dest) (bm_acc dest) in
    let dest := with_tree dest (bm_tree dest) da in
    if negb destFound then Some (dest, source)
    else combine (fun s => or_loop s fuel) dest source da sa.

Definition and_trees (fuel : nat) (dest source : Bitmap) : option (Bitmap * Bitmap) :=
  let '(destFound, da) := tree_getFirst (bm_tree dest) (bm_acc dest) in
  let dest := with_tree dest (bm_tree dest) da in
  if negb destFound then Some (dest, source)
  else
    let '(sourceFound, sa) := tree_getFirst (bm_tree source) (bm_acc source) in
    let source := with_tree source (bm_tree source) sa in
    if negb sourceFound then Some (dest, source)
    else combine (fun s => and_loop s fuel) dest source da sa.

(** Which of the two pointers is returned. *)
Inductive Which := First | Second.

(** The two bitmaps after the operation. *)
Definition bitmap_or (fuel : nat) (bitmap1 bitmap2 : option Bitmap)
    : option (Which * option Bitmap * option Bitmap) :=
  match bitmap1, bitmap2 with
  | None, _ => Some (Second, bitmap1, bitmap2)
  | _, None => Some (First, bitmap1, bitmap2)
  | Some map1, Some map2 =>
      if bm_singular map1 then
        map2 ← bitmap_set (bm_singular_value map1) map2; Some (Second, Some map1, Some map2)
      else if bm_singular map2 then
        map1 ← bitmap_set (bm_singular_value map2) map1; Some (First, Some map1, Some map2)
      else if tree_seemsBiggerThan (bm_tree map2) (bm_tree map1) then
        '(dest, source) ← or_trees fuel map2 map1; Some (Second, Some source, Some dest)
      else
        '(dest, source) ← or_trees fuel map1 map2; Some (First, Some dest, Some source)
  end.

(** [None] for [NULL] *)
Definition bitmap_and (fuel : nat) (bitmap1 bitmap2 : option Bitmap)
    : option (option Which * option Bitmap * option Bitmap) :=
  match bitmap1, bitmap2 with
  | Some map1, Some map2 =>
      if bm_singular map1 then
        '(b, map2) ← bitmap_test (bm_singular_value map1) map2;
        Some (if b : bool then Some First else None, Some map1, Some map2)
      else if bm_singular map2 then
        '(b, map1) ← bitmap_test (bm_singular_value map2) map1;
        Some (if b : bool then Some Second else None, Some map1, Some map2)
      else if tree_seemsBiggerThan (bm_tree map1) (bm_tree map2) then
        '(dest, source) ← and_trees fuel map2 map1;
        Some (Some Second, Some source, Some dest)
      else
        '(dest, source) ← and_trees fuel map1 map2;
        Some (Some First, Some dest, Some source)
  | _, _ => Some (None, bitmap1, bitmap2)
  end.
End SparseBitmap.

Arguments Bitmap : clear implicits.
Arguments BitAccessor : clear implicits.
Arguments Combine : clear implicits.
