(* ===== verification/BitmapSet.v ===== *)
(** * [SparseBitmap] is a finite set

    Buckets and bits, and what [set], [clear] and [test] do to the numbers of a
    bitmap, for any tree that keeps the promises of KeyTree. *)

From Stdlib Require Import Sorting.Sorted.
From stdpp Require Import gmap.
From S2P Require Import Prelude KeyTree SparseBitmap.

(** ** Words as sets of bits *)

Lemma inU_bits w z :
  0 <= w -> inU w z <-> 0 <= z /\ forall i, w <= i -> Z.testbit z i = false.
Proof.
  intros Hw. unfold inU. split.
  - intros [H0 H]. split; [done|]. intros i Hi. rewrite <- (Z.mod_small z (2 ^ w)) by lia.
    by apply Z.mod_pow2_bits_high.
  - intros [H0 H]. assert (z = z mod 2 ^ w) as ->.
    + apply Z.bits_inj'. intros i Hi. destruct (decide (i < w)).
      * by rewrite Z.mod_pow2_bits_low.
      * rewrite Z.mod_pow2_bits_high by lia. apply H. lia.
    + apply Z.mod_pos_bound. lia.
Qed.

Lemma inU_lor w a b : 0 <= w -> inU w a -> inU w b -> inU w (Z.lor a b).
Proof.
  intros Hw Ha Hb. rewrite inU_bits in * by done. destruct Ha as [Ha Ha'], Hb as [Hb Hb'].
  split; [by apply Z.lor_nonneg|]. intros i Hi. by rewrite Z.lor_spec, Ha', Hb'.
Qed.

Lemma inU_land w a b : 0 <= w -> inU w a -> inU w (Z.land a b).
Proof.
  intros Hw Ha. rewrite inU_bits in * by done. destruct Ha as [Ha Ha'].
  split; [apply Z.land_nonneg; by left|]. intros i Hi. by rewrite Z.land_spec, Ha'.
Qed.

Lemma inU_pow2 w n : 0 <= n < w -> inU w (2 ^ n).
Proof. intros Hn. split; [lia|]. apply Z.pow_lt_mono_r; lia. Qed.

Lemma land_bit a n : 0 <= n -> Z.land a (2 ^ n) <> 0 <-> Z.testbit a n = true.
Proof.
  intros Hn. split.
  - intros H. destruct (Z.testbit a n) eqn:E; [done|]. exfalso. apply H. apply Z.bits_inj'. intros i Hi.
    rewrite Z.land_spec, Z.bits_0. destruct (decide (i = n)) as [->|]; [by rewrite E|].
    rewrite Z.pow2_bits_false by lia. apply andb_false_r.
  - intros E H. assert (Hb : Z.testbit (Z.land a (2 ^ n)) n = true).
    { by rewrite Z.land_spec, E, Z.pow2_bits_true. }
    rewrite H, Z.bits_0 in Hb. done.
Qed.

Lemma nonzero_bit w a : 0 <= w -> inU w a -> a <> 0 <-> exists i, 0 <= i < w /\ Z.testbit a i = true.
Proof.
  intros Hw Ha. rewrite inU_bits in Ha by done. destruct Ha as [Ha Ha']. split.
  - intros Hne. exists (Z.log2 a). rewrite Z.bit_log2 by lia. split; [|done].
    split; [apply Z.log2_nonneg|]. destruct (decide (Z.log2 a < w)); [done|].
    specialize (Ha' (Z.log2 a) ltac:(lia)).
    rewrite Z.bit_log2 in Ha' by lia. done.
  - intros (i & Hi & E) ->. by rewrite Z.bits_0 in E.
Qed.

Section Bits.
Context (TW lb : Z) (Hlb : 0 <= lb <= TW).

Abbreviation BB := (BUNCH_BITS lb).
Abbreviation base := (bucket_base TW lb).

Lemma BB_pos : 0 < BB.
Proof. unfold BUNCH_BITS. lia. Qed.

Lemma bunch_bit_pow n : 0 <= n < BB -> bunch_bit lb n = 2 ^ n.
Proof.
  intros Hn. unfold bunch_bit. rewrite Z.shiftl_1_l. apply wrapU_id. by apply inU_pow2.
Qed.

(** The bucket of a number and its bit there *)
Lemma base_spec v : inU TW v -> base v = v - v mod BB.
Proof.
  intros Hv. unfold bucket_base.
  assert (E : Z.land v (wrapU TW (Z.lnot (BB - 1))) = Z.ldiff v (Z.ones lb)).
  { unfold wrapU. rewrite <- Z.land_ones by lia.
    replace (BB - 1) with (Z.ones lb) by (rewrite Z.ones_equiv; unfold BUNCH_BITS; lia).
    apply Z.bits_inj'. intros i Hi. apply inU_bits in Hv as [_ Hv]; [|lia].
    rewrite !Z.land_spec, Z.ldiff_spec, Z.lnot_spec by done.
    destruct (decide (i < TW)).
    - rewrite (Z.testbit_ones_nonneg TW) by lia. rewrite (proj2 (Z.ltb_lt i TW)) by done.
      by rewrite andb_true_r.
    - by rewrite Hv by lia. }
  rewrite E, Z.ldiff_ones_r, Z.shiftl_mul_pow2, Z.shiftr_div_pow2 by lia.
  unfold BUNCH_BITS. pose proof (Z.div_mod v (2 ^ lb) ltac:(lia)). lia.
Qed.

Lemma base_range v : inU TW v -> 0 <= base v <= v /\ v < base v + BB /\ base v mod BB = 0.
Proof.
  intros Hv. rewrite base_spec by done. pose proof BB_pos. pose proof (Z.mod_pos_bound v BB ltac:(lia)).
  destruct Hv as [Hv _]. pose proof (Z.mod_le v BB ltac:(lia) ltac:(lia)).
  split; [lia|]. split; [lia|]. rewrite Zminus_mod_idemp_r, Z.sub_diag. by apply Z.mod_0_l; lia.
Qed.

Lemma base_offset v : inU TW v -> 0 <= v - base v < BB.
Proof. intros Hv. pose proof (base_range v Hv). lia. Qed.

(** The numbers of a bucket. *)
Lemma base_unique s v : s mod BB = 0 -> s <= v < s + BB -> inU TW v -> base v = s.
Proof.
  intros Hs Hv Hu. rewrite base_spec by done. pose proof BB_pos.
  pose proof (Z.div_mod s BB ltac:(lia)) as Hd.
  rewrite <- (Z.mod_unique v BB (s / BB) (v - s)) by lia. lia.
Qed.

Lemma TW_divides : 2 ^ TW mod BB = 0.
Proof.
  unfold BUNCH_BITS. replace TW with (TW - lb + lb) by lia. rewrite Z.pow_add_r by lia.
  apply Z_mod_mult.
Qed.

(** An aligned word with a bucket after it does not overflow. *)
Lemma bucket_end s : inU TW s -> s mod BB = 0 -> s + BB <= 2 ^ TW.
Proof.
  intros [H0 H1] Hs. pose proof BB_pos. pose proof TW_divides as Ht.
  pose proof (Z.div_mod s BB ltac:(lia)). pose proof (Z.div_mod (2 ^ TW) BB ltac:(lia)).
  assert (s / BB < 2 ^ TW / BB) by nia. nia.
Qed.

Record bucket_ok (b : Bucket) : Prop := {
  bucket_start : inU TW (start_value b);
  bucket_aligned : start_value b mod BB = 0;
  bucket_bits : inU BB (bits b);
  bucket_not_empty : bits b <> 0
}.

(** [v] is in the bucket [b]. *)
Definition in_bucket (b : Bucket) (v : Z) : Prop :=
  base v = start_value b /\ Z.testbit (bits b) (v - base v) = true.

(** [v] is in one of the buckets. *)
Definition mem_of (l : list Bucket) (v : Z) : Prop := exists b, b ∈ l /\ in_bucket b v.

Lemma mem_nil v : ~ mem_of [] v.
Proof. intros (b & Hb & _). by apply elem_of_nil in Hb. Qed.

Lemma mem_app l1 l2 v : mem_of (l1 ++ l2) v <-> mem_of l1 v \/ mem_of l2 v.
Proof.
  unfold mem_of. split.
  - intros (b & [Hb|Hb]%elem_of_app & Hv); [left|right]; by exists b.
  - intros [(b & Hb & Hv)|(b & Hb & Hv)]; exists b; rewrite elem_of_app; tauto.
Qed.

Lemma mem_cons b l v : mem_of (b :: l) v <-> in_bucket b v \/ mem_of l v.
Proof.
  unfold mem_of. split.
  - intros (c & [->|Hc]%elem_of_cons & Hv); [by left|]. right. by exists c.
  - intros [Hv|(c & Hc & Hv)]; [exists b|exists c]; rewrite elem_of_cons; tauto.
Qed.

Lemma mem_middle l1 b l2 v : mem_of (l1 ++ b :: l2) v <-> in_bucket b v \/ mem_of (l1 ++ l2) v.
Proof. rewrite !mem_app, mem_cons. tauto. Qed.

(** The bucket of a number is unique. *)
Lemma mem_at l i b v :
  StronglySorted (by_key start_value) l -> l !! i = Some b -> base v = start_value b ->
  mem_of l v <-> Z.testbit (bits b) (v - base v) = true.
Proof.
  intros Hs Hi Hb. split.
  - intros (c & [j Hj]%list_elem_of_lookup & Hc & Hv).
    assert (i = j) as -> by (eapply sorted_inj; [done|done|done|congruence]). by simplify_eq.
  - intros Hv. exists b. split; [by eapply list_elem_of_lookup_2|by split].
Qed.

Lemma mem_split l i b v :
  l !! i = Some b -> mem_of l v <-> in_bucket b v \/ mem_of (delete i l) v.
Proof.
  intros Hi. rewrite <- (take_drop_middle l i b Hi) at 1. by rewrite mem_middle, delete_take_drop.
Qed.

Lemma mem_delete_other l i b v :
  StronglySorted (by_key start_value) l -> l !! i = Some b -> mem_of (delete i l) v ->
  base v <> start_value b.
Proof.
  intros Hs Hi (c & Hc & Hcv & _) E. rewrite delete_take_drop in Hc.
  rewrite <- (take_drop_middle l i b Hi) in Hs. apply sorted_app in Hs as (_ & S2 & Hlt).
  inversion S2 as [|? ? _ Hall]; subst. apply elem_of_app in Hc as [Hc|Hc].
  - specialize (Hlt c b Hc ltac:(apply elem_of_cons; by left)). lia.
  - pose proof (proj1 (Forall_forall _ _) Hall c Hc) as Hlt'. unfold by_key in Hlt'. lia.
Qed.

(** A bucket is replaced by one with the same start. *)
Lemma mem_replace l i b b' v :
  l !! i = Some b -> mem_of (<[i := b']> l) v <-> in_bucket b' v \/ mem_of (delete i l) v.
Proof.
  intros Hi. rewrite (insert_take_drop l i b') by by eapply lookup_lt_Some.
  by rewrite mem_middle, delete_take_drop.
Qed.
End Bits.

(** ** Bitmaps as sets *)

Section Bitmaps.
Context (TW lb : Z) (Hlb : 0 <= lb <= TW).
Context {Tree Acc : Type} {TO : TreeOps Bucket Tree Acc}.
Context {tree_rep : Tree -> list Bucket -> Prop} {acc_at : Tree -> Acc -> nat -> Prop}.
Context {TL : TreeLaws start_value TO tree_rep acc_at}.

Abbreviation BB := (BUNCH_BITS lb).
Abbreviation base := (bucket_base TW lb).
Abbreviation bucket_ok := (bucket_ok TW lb).
Abbreviation mem_of := (mem_of TW lb).
Abbreviation in_bucket := (in_bucket TW lb).
Implicit Types (bm : Bitmap Tree Acc) (t : Tree) (a : Acc) (l : list Bucket) (X : gset Z).

(** The numbers of a tree *)
Record tree_set (t : Tree) (l : list Bucket) (X : gset Z) : Prop := {
  ts_rep : tree_rep t l;
  ts_ok : Forall bucket_ok l;
  ts_range v : v ∈ X -> inU TW v;
  ts_mem v : inU TW v -> v ∈ X <-> mem_of l v
}.

Definition bm_rep (bm : Bitmap Tree Acc) (X : gset Z) : Prop :=
  if bm_singular bm then
    tree_rep (bm_tree bm) [] /\ X = {[bm_singular_value bm]} /\ inU TW (bm_singular_value bm)
  else exists l, tree_set (bm_tree bm) l X.

Lemma tree_set_nil t X : tree_rep t [] -> (forall v, v ∉ X) -> tree_set t [] X.
Proof.
  intros Ht HX. split; [done|constructor|by intros v ?%HX|].
  intros v _. split; [by intros ?%HX|by intros ?%mem_nil].
Qed.

Lemma tree_set_range_mem t l X v : tree_set t l X -> v ∈ X -> mem_of l v.
Proof. intros H Hv. apply (ts_mem _ _ _ H); [by apply (ts_range _ _ _ H)|done]. Qed.

Definition new_bucket (v : Z) : Bucket := {| start_value := base v; bits := bunch_bit lb (v - base v) |}.

Lemma new_bucket_bits v : inU TW v -> bits (new_bucket v) = 2 ^ (v - base v).
Proof. intros Hv. apply bunch_bit_pow. by apply base_offset. Qed.

Lemma new_bucket_ok v : inU TW v -> bucket_ok (new_bucket v).
Proof.
  intros Hv. pose proof (base_range TW lb Hlb v Hv) as (H1 & H2 & H3). pose proof (base_offset TW lb Hlb v Hv).
  split.
  - destruct Hv. split; simpl; lia.
  - done.
  - rewrite new_bucket_bits by done. apply inU_pow2. lia.
  - rewrite new_bucket_bits by done. lia.
Qed.

Lemma in_new_bucket v w : inU TW v -> inU TW w -> in_bucket (new_bucket v) w <-> w = v.
Proof.
  intros Hv Hw. unfold BitmapSet.in_bucket. rewrite new_bucket_bits by done. simpl.
  pose proof (base_offset TW lb Hlb v Hv). pose proof (base_offset TW lb Hlb w Hw). split.
  - intros [E Hb]. rewrite E in *. destruct (decide (w = v)) as [|Hne]; [done|].
    rewrite Z.pow2_bits_false in Hb by lia. done.
  - intros ->. split; [done|]. apply Z.pow2_bits_true. lia.
Qed.

(** A bit of the bucket that an accessor is at changes. *)
Lemma change_bits_spec f t a l i b :
  tree_rep t l -> acc_at t a i -> l !! i = Some b ->
  exists t', change_bits f t a = Some t' /\ acc_at t' a i /\
    tree_rep t' (<[i := {| start_value := start_value b; bits := f (bits b) |}]> l).
Proof.
  intros Ht Ha Hb. unfold change_bits. destruct (current_spec (key := start_value) t a l i Ht Ha) as (c & -> & Hc). simplify_eq.
  simpl. destruct (update_spec (key := start_value) {| start_value := start_value b; bits := f (bits b) |} t a l i b Ht Ha Hb eq_refl)
    as (t' & -> & Ht' & Ha'). by exists t'.
Qed.

Lemma or_bucket_ok b v :
  bucket_ok b -> inU TW v ->
  bucket_ok {| start_value := start_value b; bits := Z.lor (bits b) (bunch_bit lb (v - base v)) |}.
Proof.
  intros [H1 H2 H3 H4] Hv. pose proof (base_offset TW lb Hlb v Hv). pose proof (BB_pos TW lb Hlb).
  rewrite bunch_bit_pow by done.
  split; simpl; [done|done| |].
  - apply inU_lor; [lia|done|]. by apply inU_pow2.
  - intros E%Z.lor_eq_0_iff. lia.
Qed.

Lemma in_or_bucket b v w :
  inU TW v -> inU TW w -> base v = start_value b ->
  in_bucket {| start_value := start_value b; bits := Z.lor (bits b) (bunch_bit lb (v - base v)) |} w <->
  w = v \/ in_bucket b w.
Proof.
  intros Hv Hw Hb. rewrite <- (in_new_bucket v w Hv Hw). unfold BitmapSet.in_bucket. simpl.
  rewrite Z.lor_spec, orb_true_iff, Hb. tauto.
Qed.

Lemma or_current t a l i b v X :
  tree_set t l X -> acc_at t a i -> l !! i = Some b -> inU TW v -> base v = start_value b ->
  exists t' l', change_bits (fun m => Z.lor m (bunch_bit lb (v - base v))) t a = Some t' /\
    tree_set t' l' ({[v]} ∪ X).
Proof.
  intros [Ht Hok Hr Hm] Ha Hi Hv Hb.
  destruct (change_bits_spec (fun m => Z.lor m (bunch_bit lb (v - base v))) t a l i b Ht Ha Hi) as (t' & Hc & _ & Ht').
  exists t'. eexists. split; [exact Hc|]. split.
  - exact Ht'.
  - apply Forall_insert; [done|]. apply or_bucket_ok; [|done]. by eapply Forall_lookup_1.
  - intros w. rewrite elem_of_union, elem_of_singleton. intros [->|Hw]; [done|by apply Hr].
  - intros w Hw. rewrite elem_of_union, elem_of_singleton, Hm by done.
    rewrite (mem_replace TW lb Hlb l i b), (mem_split TW lb Hlb l i b) by done.
    rewrite in_or_bucket by done. tauto.
Qed.

Lemma add_bucket t a l X v :
  tree_set t l X -> inU TW v -> exists added t' a', tree_add (new_bucket v) t a = (added, t', a') /\
    if added : bool then exists l', tree_set t' l' ({[v]} ∪ X)
    else exists i b, acc_at t' a' i /\ l !! i = Some b /\ base v = start_value b /\ tree_set t' l X.
Proof.
  intros [Ht Hok Hr Hm] Hv. pose proof (rep_sorted (key := start_value) t l Ht) as Hs.
  destruct (decide (Exists (fun b => start_value b = base v) l)) as [(b & [i Hi]%list_elem_of_lookup & Hb)%Exists_exists|Hno].
  - destruct (add_exists (key := start_value) (new_bucket v) t a l i b Ht Hi Hb) as (t' & a' & Hadd & Ht' & Ha').
    exists false, t', a'. split; [done|]. exists i, b. by repeat (split; [done|]).
  - apply not_Exists_Forall in Hno; [|apply _].
    destruct (sorted_split start_value l (base v) Hs) as (l1 & l2 & -> & H1 & H2).
    { eapply Forall_impl; [exact Hno|]. simpl. done. }
    destruct (add_new (key := start_value) (new_bucket v) t a l1 l2 Ht H1 H2) as (t' & a' & Hadd & Ht').
    exists true, t', a'. split; [done|]. exists (l1 ++ new_bucket v :: l2). split.
    + done.
    + apply Forall_app in Hok as [Hok1 Hok2]. apply Forall_app. split; [done|].
      constructor; [by apply new_bucket_ok|done].
    + intros w. rewrite elem_of_union, elem_of_singleton. intros [->|Hw]; [done|by apply Hr].
    + intros w Hw. rewrite elem_of_union, elem_of_singleton, Hm, mem_middle, in_new_bucket by done. done.
Qed.

Lemma set_bit_spec v bm l X :
  tree_set (bm_tree bm) l X -> inU TW v ->
  exists bm', set_bit TW lb v bm = Some bm' /\ bm_rep bm' ({[v]} ∪ X).
Proof.
  intros Hset Hv. unfold set_bit. fold (new_bucket v). destruct (tree_isPositioned _ _ _) eqn:Hpos.
  - destruct (positioned_spec (key := start_value) _ _ _ l (ts_rep _ _ _ Hset) Hpos) as (i & b & Ha & Hi & Hb).
    destruct (or_current _ _ l i b v X Hset Ha Hi Hv) as (t' & l' & -> & Hset'); [done|].
    simpl. eexists. split; [done|]. by exists l'.
  - destruct (add_bucket _ (bm_acc bm) l X v Hset Hv) as (added & t' & a' & -> & Hadd).
    destruct added.
    + eexists. split; [done|]. exact Hadd.
    + destruct Hadd as (i & b & Ha & Hi & Hb & Hset').
      destruct (or_current t' a' l i b v X Hset' Ha Hi Hv) as (t2 & l' & -> & Hset2); [done|].
      simpl. eexists. split; [done|]. by exists l'.
Qed.

Lemma bitmap_set_spec v bm X :
  bm_rep bm X -> inU TW v -> exists bm', bitmap_set TW lb v bm = Some bm' /\ bm_rep bm' ({[v]} ∪ X).
Proof.
  intros Hrep Hv. unfold bitmap_set. unfold bm_rep in Hrep. destruct (bm_singular bm) eqn:Es.
  - destruct Hrep as (Ht & -> & Hu). case_decide as Heq.
    + exists bm. split; [done|]. unfold bm_rep. rewrite Es. split; [done|]. split; [|done].
      rewrite Heq. by rewrite union_idemp_L.
    + fold (new_bucket (bm_singular_value bm)).
      assert (H0 : tree_set (bm_tree bm) [] ∅) by (apply tree_set_nil; [done|intros w; apply not_elem_of_empty]).
      destruct (add_bucket _ (bm_acc bm) [] ∅ _ H0 Hu) as (added & t' & a' & -> & Hadd).
      destruct added; [|by destruct Hadd as (? & ? & _ & ? & _)].
      destruct Hadd as [l' Hset]. rewrite union_empty_r_L in Hset.
      destruct (set_bit_spec v (with_tree bm t' a') l' _ Hset Hv) as (bm' & -> & Hr). by exists bm'.
  - destruct Hrep as [l Hset]. rewrite (isEmpty_spec (key := start_value) _ l (ts_rep _ _ _ Hset)). case_bool_decide as Hl.
    + subst l. eexists. split; [done|]. split; [exact (ts_rep _ _ _ Hset)|]. split; [|done]. simpl.
      assert (X = ∅) as ->; [|by rewrite union_empty_r_L].
      apply elem_of_equiv_empty_L. intros w Hw. by apply (tree_set_range_mem _ _ _ _ Hset), mem_nil in Hw.
    + by apply (set_bit_spec v bm l X).
Qed.

(** [tree.isPositioned(key) || tree.locate(key)] *)
Lemma find_bucket_spec k bm l :
  bm_singular bm = false -> tree_rep (bm_tree bm) l ->
  exists found bm', find_bucket k bm = (found, bm') /\ bm_singular bm' = false /\
    bm_tree bm' = bm_tree bm /\
    if found : bool then exists i b, acc_at (bm_tree bm) (bm_acc bm') i /\ l !! i = Some b /\ start_value b = k
    else Forall (fun b => start_value b <> k) l.
Proof.
  intros Es Ht. unfold find_bucket. destruct (tree_isPositioned _ _ _) eqn:Hpos.
  - exists true, bm. split; [done|]. split; [done|]. split; [done|].
    by apply (positioned_spec (key := start_value)) with (1 := Ht).
  - destruct (locate_spec (key := start_value) locEqual k (bm_tree bm) (bm_acc bm) l Ht) as (a & -> & Ha).
    do 2 eexists. split; [done|]. split; [done|]. split; [done|]. simpl in Ha |- *. case_bool_decide as Hf.
    + destruct Hf as [i Hi]. pose proof Hi as (b & Hb & E & _)%first_index_Some. exists i, b.
      split; [by apply Ha|done].
    + apply eq_None_not_Some in Hf. by apply first_index_None in Hf.
Qed.

Lemma not_found_not_mem v l X t :
  tree_set t l X -> inU TW v -> Forall (fun b => start_value b <> base v) l -> v ∉ X.
Proof.
  intros Hset Hv Hno (b & Hb & E & _)%(ts_mem _ _ _ Hset); [|done].
  by apply (proj1 (Forall_forall _ _) Hno b Hb).
Qed.

Lemma mem_bit v l X t i b :
  tree_set t l X -> inU TW v -> l !! i = Some b -> start_value b = base v ->
  Z.land (bits b) (bunch_bit lb (v - base v)) <> 0 <-> v ∈ X.
Proof.
  intros Hset Hv Hi E. pose proof (base_offset TW lb Hlb v Hv).
  rewrite bunch_bit_pow, land_bit by lia. rewrite (ts_mem _ _ _ Hset) by done.
  rewrite (mem_at TW lb l i b); [done| |done|done].
  by apply (rep_sorted (key := start_value) t), (ts_rep _ _ _ Hset).
Qed.

Lemma bitmap_test_spec v bm X :
  bm_rep bm X -> inU TW v ->
  exists bm', bitmap_test TW lb v bm = Some (bool_decide (v ∈ X), bm') /\ bm_rep bm' X.
Proof.
  intros Hrep Hv. unfold bitmap_test. pose proof Hrep as Hrep'. unfold bm_rep in Hrep. destruct (bm_singular bm) eqn:Es.
  - destruct Hrep as (Ht & -> & Hu). exists bm. split; [|done]. do 2 f_equal. apply bool_decide_ext.
    by rewrite elem_of_singleton.
  - destruct Hrep as [l Hset].
    destruct (find_bucket_spec (base v) bm l Es (ts_rep _ _ _ Hset)) as (found & bm' & -> & Es' & Et & Hf).
    assert (Hrep2 : bm_rep bm' X) by (unfold bm_rep; rewrite Es', Et; by exists l).
    destruct found.
    + destruct Hf as (i & b & Ha & Hi & E). rewrite Et.
      destruct (current_spec (key := start_value) _ _ l i (ts_rep _ _ _ Hset) Ha) as (c & -> & Hc). simplify_eq.
      simpl. exists bm'. split; [|done]. do 2 f_equal. apply bool_decide_ext. by apply (mem_bit v l X (bm_tree bm) i).
    + exists bm'. split; [|done]. rewrite bool_decide_eq_false_2; [done|]. by apply (not_found_not_mem v l X (bm_tree bm)).
Qed.

(** The bit of [v] is removed from its bucket. *)
Definition without_bit (b : Bucket) (v : Z) : Bucket :=
  {| start_value := start_value b;
     bits := Z.land (bits b) (wrapU BB (Z.lnot (bunch_bit lb (v - base v)))) |}.

Lemma in_without_bit b v w :
  inU TW v -> inU TW w -> base v = start_value b ->
  in_bucket (without_bit b v) w <-> w <> v /\ in_bucket b w.
Proof.
  intros Hv Hw Hb. pose proof (base_offset TW lb Hlb v Hv). pose proof (base_offset TW lb Hlb w Hw).
  unfold BitmapSet.in_bucket, without_bit. simpl. rewrite bunch_bit_pow by done. unfold wrapU.
  rewrite Z.land_spec, Z.mod_pow2_bits_low, Z.lnot_spec, andb_true_iff, negb_true_iff by lia.
  rewrite Hb. split.
  - intros (E & H1 & H2). split; [|done]. intros ->. rewrite Hb in H2. by rewrite Z.pow2_bits_true in H2 by lia.
  - intros (Hne & E & H1). split; [done|]. split; [done|]. apply Z.pow2_bits_false. lia.
Qed.

Lemma without_bit_inU b v : bucket_ok b -> inU BB (bits (without_bit b v)).
Proof. intros [_ _ H _]. apply inU_land; [|done]. unfold BUNCH_BITS. lia. Qed.

Lemma bitmap_clear_spec v bm X :
  bm_rep bm X -> inU TW v ->
  exists bm', bitmap_clear TW lb v bm = Some (bool_decide (v ∈ X), bm') /\ bm_rep bm' (X ∖ {[v]}).
Proof.
  intros Hrep Hv. unfold bitmap_clear. unfold bm_rep in Hrep. destruct (bm_singular bm) eqn:Es.
  - destruct Hrep as (Ht & -> & Hu). case_decide as Hvs.
    + eexists. rewrite bool_decide_eq_true_2 by (by apply elem_of_singleton). split; [done|].
      exists []. apply tree_set_nil; [done|]. intros w. rewrite <- Hvs. set_solver.
    + exists bm. rewrite bool_decide_eq_false_2 by (by rewrite elem_of_singleton). split; [done|].
      unfold bm_rep. rewrite Es. split; [done|]. split; [|done]. apply difference_disjoint_L.
      apply disjoint_singleton_r. by rewrite elem_of_singleton.
  - destruct Hrep as [l Hset].
    destruct (find_bucket_spec (base v) bm l Es (ts_rep _ _ _ Hset)) as (found & bm' & -> & Es' & Et & Hf).
    assert (Hsame : v ∉ X -> bm_rep bm' (X ∖ {[v]})).
    { intros Hno. rewrite difference_disjoint_L by (by apply disjoint_singleton_r).
      unfold bm_rep. rewrite Es', Et. by exists l. }
    destruct found.
    2:{ pose proof (not_found_not_mem v l X _ Hset Hv Hf) as Hno. exists bm'.
        rewrite bool_decide_eq_false_2 by done. by split; [|apply Hsame]. }
    destruct Hf as (i & b & Ha & Hi & E). rewrite Et.
    destruct (current_spec (key := start_value) _ _ l i (ts_rep _ _ _ Hset) Ha) as (c & -> & Hc). simplify_eq.
    simpl. pose proof (mem_bit v l X _ i b Hset Hv Hi E) as Hbit. case_decide as Hb.
    2:{ exists bm'. assert (v ∉ X) by tauto. rewrite bool_decide_eq_false_2 by done. by split; [|apply Hsame]. }
    rewrite bool_decide_eq_true_2 by tauto.
    destruct (change_bits_spec (fun m => Z.land m (wrapU BB (Z.lnot (bunch_bit lb (v - base v))))) _ _ l i b
                (ts_rep _ _ _ Hset) Ha Hi) as (t' & -> & Ha' & Ht').
    fold (without_bit b v) in Ht'. simpl.
    destruct (current_spec (key := start_value) t' _ _ i Ht' Ha') as (c & -> & Hc). simpl.
    rewrite list_lookup_insert_eq in Hc by (by eapply lookup_lt_Some). injection Hc as <-.
    destruct Hset as [Ht Hok Hr Hm]. pose proof (Forall_lookup_1 _ _ _ _ Hok Hi) as Hbok.
    assert (Hdel : forall w, inU TW w -> w ∈ X ∖ {[v]} <-> in_bucket (without_bit b v) w \/ mem_of (delete i l) w).
    { intros w Hw. rewrite elem_of_difference, elem_of_singleton, Hm, (mem_split TW lb Hlb l i b) by done.
      rewrite in_without_bit by done. split; [tauto|]. intros [?|Hd]; [tauto|]. split; [tauto|].
      intros ->. by apply (mem_delete_other TW lb l i b) in Hd; [|apply (rep_sorted (key := start_value) _ _ Ht)|]. }
    case_decide as Hz.
    + destruct (remove_spec (key := start_value) t' _ _ i Ht' Ha') as (t2 & a2 & -> & Ht2 & _). simpl.
      eexists. split; [done|]. exists (delete i l). 
      rewrite delete_take_drop, take_insert_ge, drop_insert_lt, <- delete_take_drop in Ht2 by lia. split.
      * done.
      * by apply Forall_delete.
      * intros w [Hw _]%elem_of_difference. by apply Hr.
      * intros w Hw. rewrite (Hdel w Hw). split; [|tauto]. intros [[_ Hf]|]; [|done].
        change (bits (without_bit b v) = 0) in Hz. by rewrite Hz, Z.bits_0 in Hf.
    + eexists. split; [done|]. exists (<[i := without_bit b v]> l). split.
      * done.
      * apply Forall_insert; [done|]. destruct Hbok as [K1 K2 K3 K4]. split; [done|done| |done].
        by apply without_bit_inU.
      * intros w [Hw _]%elem_of_difference. by apply Hr.
      * intros w Hw. by rewrite (Hdel w Hw), (mem_replace TW lb Hlb l i b).
Qed.

Lemma bitmap_new_rep : bm_rep bitmap_new ∅.
Proof. exists []. apply tree_set_nil; [apply rep_new|intros v; apply not_elem_of_empty]. Qed.

Lemma bitmap_clear_all_spec bm X : bm_rep bm X -> bm_rep (bitmap_clear_all bm) ∅.
Proof.
  intros Hrep. unfold bitmap_clear_all. destruct (tree_clear _ _) as [t a] eqn:E. exists [].
  apply tree_set_nil; [|intros v; apply not_elem_of_empty]. simpl.
  assert (exists l, tree_rep (bm_tree bm) l) as [l Hl].
  { unfold bm_rep in Hrep. destruct (bm_singular bm); [by exists []; apply Hrep|].
    destruct Hrep as [l Hs]. exists l. by apply (ts_rep _ _ _ Hs). }
  pose proof (clear_spec (key := start_value) (bm_tree bm) (bm_acc bm) l Hl) as H. by rewrite E in H.
Qed.

(** *** Sequences of operations *)

Inductive BitOp := BSet (v : Z) | BClear (v : Z) | BTest (v : Z) | BClearAll.

Definition bit_spec (op : BitOp) (X : gset Z) : option (gset Z * option bool) :=
  match op with
  | BSet v => if decide (inU TW v) then Some ({[v]} ∪ X, None) else None
  | BClear v => if decide (inU TW v) then Some (X ∖ {[v]}, Some (bool_decide (v ∈ X))) else None
  | BTest v => if decide (inU TW v) then Some (X, Some (bool_decide (v ∈ X))) else None
  | BClearAll => Some (∅, None)
  end.

Definition bit_run (op : BitOp) (bm : Bitmap Tree Acc) : option (Bitmap Tree Acc * option bool) :=
  match op with
  | BSet v => bm ← bitmap_set TW lb v bm; Some (bm, None)
  | BClear v => '(b, bm) ← bitmap_clear TW lb v bm; Some (bm, Some b)
  | BTest v => '(b, bm) ← bitmap_test TW lb v bm; Some (bm, Some b)
  | BClearAll => Some (bitmap_clear_all bm, None)
  end.

Lemma bit_run_refines op bm X X' r :
  bm_rep bm X -> bit_spec op X = Some (X', r) -> exists bm', bit_run op bm = Some (bm', r) /\ bm_rep bm' X'.
Proof.
  intros Hrep Hs. destruct op as [v|v|v|]; simpl in *; [case_decide as Hv; simplify_eq..|].
  - destruct (bitmap_set_spec v bm X Hrep Hv) as (bm' & -> & H). by exists bm'.
  - destruct (bitmap_clear_spec v bm X Hrep Hv) as (bm' & -> & H). by exists bm'.
  - destruct (bitmap_test_spec v bm X' Hrep Hv) as (bm' & -> & H). by exists bm'.
  - simplify_eq. eexists. split; [done|]. by apply (bitmap_clear_all_spec bm X).
Qed.

Lemma bit_exec_rep ops X rs bm rs' :
  exec_all bit_spec ops ∅ = Some (X, rs) -> exec_all bit_run ops bitmap_new = Some (bm, rs') -> bm_rep bm X.
Proof.
  intros Hs Hr. destruct (exec_refines bit_spec bit_run bm_rep) with (3 := Hs) (s := bitmap_new (TO := TO))
    as (bm' & E & Hrep).
  - intros op s Y Y' r. apply bit_run_refines.
  - apply bitmap_new_rep.
  - rewrite E in Hr. by injection Hr as -> _.
Qed.

(** C27. [SparseBitmap]: over any tree that keeps its promises, every sequence of
    [set], [clear] and [test] of numbers of the type, and of [clear] of the whole
    bitmap, has the results of a finite set. *)
Theorem bitmap_refines ops X rs :
  exec_all bit_spec ops ∅ = Some (X, rs) ->
  exists bm, exec_all bit_run ops bitmap_new = Some (bm, rs) /\ bm_rep bm X.
Proof.
  apply exec_refines.
  - intros op bm Y Y' r. apply bit_run_refines.
  - apply bitmap_new_rep.
Qed.
End Bitmaps.

(** ** A bitmap of a sorted list of buckets *)

(** Numbers of 32 bits in buckets of 64 *)
Definition sample_ops : list BitOp := [BSet 5; BSet 300; BSet 6; BTest 300; BClear 6; BTest 6; BSet 70].

Definition sample_bitmap : option (Bitmap (list Bucket) (option nat)) :=
  fst <$> exec_all (bit_run 32 6 (TO := list_tree start_value)) sample_ops (bitmap_new (TO := list_tree start_value)).

Lemma bitmap_refines_witness :
  exec_all (bit_spec 32) sample_ops ∅ =
    Some ({[5; 300; 70]}, [None; None; None; Some true; Some true; Some false; None]) /\
  exists bm, exec_all (bit_run 32 6 (TO := list_tree start_value)) sample_ops (bitmap_new (TO := list_tree start_value)) =
      Some (bm, [None; None; None; Some true; Some true; Some false; None]) /\
    bm_rep 32 6 (tree_rep := list_rep start_value) bm {[5; 300; 70]}.
Proof.
  assert (H : exec_all (bit_spec 32) sample_ops ∅ =
    Some ({[5; 300; 70]}, [None; None; None; Some true; Some true; Some false; None])).
  { vm_compute. reflexivity. }
  split; [exact H|].
  apply (bitmap_refines 32 6 ltac:(lia) (TL := list_tree_laws start_value)). exact H.
Defined.
