(* ===== verification/BitmapWalk.v ===== *)
(** * The accessor of a [SparseBitmap]

    [getFirst] and [getNext] visit the numbers in order, [getLast] and [getPrev] in
    the opposite one. *)

From Stdlib Require Import Sorting.Sorted.
From stdpp Require Import gmap.
From S2P Require Import Prelude KeyTree SparseBitmap BitmapSet.

Section Scan.
Context (TW lb : Z) (Hlb : 0 <= lb <= TW).

Abbreviation BB := (BUNCH_BITS lb).

(** The first bit from [j] on, and the last one up to [j] *)
Definition first_bit (b j k : Z) : Prop :=
  j <= k < BB /\ Z.testbit b k = true /\ forall m, j <= m < k -> Z.testbit b m = false.

Definition last_bit (b j k : Z) : Prop :=
  0 <= k <= j /\ Z.testbit b k = true /\ forall m, k < m <= j -> Z.testbit b m = false.

Lemma mask_up j : 0 <= j < BB -> wrapU BB (Z.shiftl (2 ^ j) 1) = if decide (j + 1 < BB) then 2 ^ (j + 1) else 0.
Proof.
  intros Hj. rewrite Z.shiftl_mul_pow2, <- Z.pow_add_r by lia. case_decide.
  - apply wrapU_id. apply inU_pow2. lia.
  - replace (j + 1) with BB by lia. unfold wrapU. apply Z_mod_same_full.
Qed.

Lemma scan_up_spec fuel b s j :
  inU TW s -> s + BB <= 2 ^ TW -> 0 <= j < BB -> BB - j < Z.of_nat fuel ->
  (exists k, first_bit b j k /\ scan_up TW lb fuel b (2 ^ j) (s + j) = Some (true, 2 ^ k, s + k)) \/
  ((forall m, j <= m < BB -> Z.testbit b m = false) /\
   scan_up TW lb fuel b (2 ^ j) (s + j) = Some (false, 0, wrapU TW (s + BB))).
Proof.
  intros Hs Hend. revert j. induction fuel as [|fuel IH]; intros j Hj Hf; [lia|]. cbn [scan_up].
  rewrite mask_up by done. destruct (decide (Z.land b (2 ^ j) <> 0)) as [Hbit|Hbit].
  - rewrite land_bit in Hbit by lia. left. exists j. split; [|done]. split; [lia|]. split; [done|]. intros m Hm. lia.
  - assert (Hno : Z.testbit b j = false).
    { rewrite land_bit in Hbit by lia. by destruct (Z.testbit b j). }
    destruct (decide (j + 1 < BB)) as [Hlt|Hge].
    + rewrite decide_True by lia. destruct Hs. replace (s + j + 1) with (s + (j + 1)) by lia.
      rewrite wrapU_id by (split; lia).
      destruct (IH (j + 1)) as [(k & (Hk & Hb & Hmin) & E)|(Hnone & E)]; [lia|lia|left|right].
      * exists k. split; [|done]. split; [lia|]. split; [done|]. intros m Hm.
        destruct (decide (m = j)) as [->|]; [done|]. apply Hmin. lia.
      * split; [|done]. intros m Hm. destruct (decide (m = j)) as [->|]; [done|]. apply Hnone. lia.
    + rewrite decide_False by tauto. right. split.
      * intros m Hm. by replace m with j by lia.
      * do 2 f_equal. f_equal. lia.
Qed.

Lemma scan_down_spec (more : Z -> Prop) `{!forall m, Decision (more m)} fuel b s j :
  inU TW s -> s + BB <= 2 ^ TW -> 0 <= j < BB -> j + 1 < Z.of_nat fuel ->
  (forall i, 0 <= i -> more (2 ^ i)) ->
  (exists k, last_bit b j k /\ scan_down TW more fuel b (2 ^ j) (s + j) = Some (true, 2 ^ k, s + k)) \/
  ((forall m, 0 <= m <= j -> Z.testbit b m = false) /\
   (~ more 0 -> exists v, scan_down TW more fuel b (2 ^ j) (s + j) = Some (false, 0, v))).
Proof.
  intros Hs Hend. revert j. induction fuel as [|fuel IH]; intros j Hj Hf Hmore; [lia|]. cbn [scan_down].
  destruct (decide (Z.land b (2 ^ j) <> 0)) as [Hbit|Hbit].
  - rewrite land_bit in Hbit by lia. left. exists j. split; [|done]. split; [lia|]. split; [done|]. intros m Hm. lia.
  - assert (Hno : Z.testbit b j = false).
    { rewrite land_bit in Hbit by lia. by destruct (Z.testbit b j). }
    destruct (decide (j = 0)) as [->|Hj0].
    + right. split; [intros m Hm; by replace m with 0 by lia|]. intros H0. eexists.
      change (Z.shiftr (2 ^ 0) 1) with 0. by rewrite decide_False.
    + assert (Z.shiftr (2 ^ j) 1 = 2 ^ (j - 1)) as ->.
      { rewrite Z.shiftr_div_pow2 by lia. by rewrite <- Z.pow_sub_r by lia. }
      rewrite decide_True by (apply Hmore; lia). destruct Hs. replace (s + j - 1) with (s + (j - 1)) by lia.
      rewrite wrapU_id by (split; lia).
      destruct (IH (j - 1)) as [(k & (Hk & Hb & Hmin) & E)|(Hnone & E)]; [lia|lia|done|left|right].
      * exists k. split; [|done]. split; [lia|]. split; [done|]. intros m Hm.
        destruct (decide (m = j)) as [->|]; [done|]. apply Hmin. lia.
      * split; [|done]. intros m Hm. destruct (decide (m = j)) as [->|]; [done|]. apply Hnone. lia.
Qed.

Lemma mask_down j : 0 <= j -> Z.shiftr (2 ^ j) 1 = if decide (0 < j) then 2 ^ (j - 1) else 0.
Proof.
  intros Hj. case_decide.
  - rewrite Z.shiftr_div_pow2 by lia. by rewrite <- Z.pow_sub_r by lia.
  - by replace j with 0 by lia.
Qed.

Lemma scan_fuel_enough : Z.of_nat (scan_fuel lb) = BB + 1.
Proof. unfold scan_fuel. pose proof (BB_pos TW lb Hlb). lia. Qed.

(** The loops that start after a bit *)
Lemma while_up_spec b s k :
  inU TW s -> s + BB <= 2 ^ TW -> 0 <= k < BB ->
  (exists j, first_bit b (k + 1) j /\
     while_up TW lb b (wrapU BB (Z.shiftl (2 ^ k) 1)) (wrapU TW (s + k + 1)) = Some (true, 2 ^ j, s + j)) \/
  ((forall m, k < m < BB -> Z.testbit b m = false) /\ exists m v,
     while_up TW lb b (wrapU BB (Z.shiftl (2 ^ k) 1)) (wrapU TW (s + k + 1)) = Some (false, m, v)).
Proof.
  intros Hs Hend Hk. rewrite mask_up by done. unfold while_up, nonzero. pose proof scan_fuel_enough.
  destruct (decide (k + 1 < BB)) as [Hlt|Hge].
  - rewrite decide_True by lia. destruct Hs as [Hs0 Hs1]. rewrite <- Z.add_assoc, wrapU_id by (split; lia).
    destruct (scan_up_spec (scan_fuel lb) b s (k + 1)) as [(j & Hj & E)|(Hnone & E)]; [by split|done|lia|lia| |].
    + left. by exists j.
    + right. split; [intros m Hm; apply Hnone; lia|by do 2 eexists].
  - right. split; [lia|]. rewrite decide_False by tauto. by do 2 eexists.
Qed.

Lemma while_down_spec b s k :
  inU TW s -> s + BB <= 2 ^ TW -> 0 <= k < BB ->
  (exists j, last_bit b (k - 1) j /\
     while_down TW lb b (Z.shiftr (2 ^ k) 1) (wrapU TW (s + k - 1)) = Some (true, 2 ^ j, s + j)) \/
  ((forall m, 0 <= m < k -> Z.testbit b m = false) /\ exists m v,
     while_down TW lb b (Z.shiftr (2 ^ k) 1) (wrapU TW (s + k - 1)) = Some (false, m, v)).
Proof.
  intros Hs Hend Hk. rewrite mask_down by lia. unfold while_down. pose proof scan_fuel_enough.
  destruct (decide (0 < k)) as [Hlt|Hge].
  - rewrite decide_True by (unfold nonzero; lia). destruct Hs as [Hs0 Hs1].
    rewrite <- Z.add_sub_assoc, wrapU_id by (split; lia).
    destruct (scan_down_spec nonzero (scan_fuel lb) b s (k - 1)) as [(j & Hj & E)|(Hnone & E)];
      [by split|done|lia|lia|unfold nonzero; lia| |].
    + left. by exists j.
    + right. split; [intros m Hm; apply Hnone; lia|]. destruct E as [v E]; [unfold nonzero; tauto|]. by do 2 eexists.
  - right. split; [lia|]. rewrite decide_False by (unfold nonzero; tauto). by do 2 eexists.
Qed.
End Scan.

Section Walk.
Context (TW lb : Z) (Hlb : 0 <= lb <= TW).
Context {Tree Acc : Type} {TO : TreeOps Bucket Tree Acc}.
Context {tree_rep : Tree -> list Bucket -> Prop} {acc_at : Tree -> Acc -> nat -> Prop}.
Context {TL : TreeLaws start_value TO tree_rep acc_at}.

Abbreviation BB := (BUNCH_BITS lb).
Abbreviation base := (bucket_base TW lb).
Abbreviation bucket_ok := (bucket_ok TW lb).
Abbreviation mem_of := (mem_of TW lb).
Abbreviation in_bucket := (in_bucket TW lb).
Abbreviation tree_set := (tree_set TW lb (tree_rep := tree_rep)).
Abbreviation bm_rep := (bm_rep TW lb (tree_rep := tree_rep)).
Implicit Types (bm : Bitmap Tree Acc) (t : Tree) (a : Acc) (acc : BitAccessor Acc) (l : list Bucket) (X : gset Z).

(** The accessor is at the number [v]. *)
Definition at_bit (t : Tree) (l : list Bucket) (acc : BitAccessor Acc) (v : Z) : Prop :=
  exists i b, acc_at t (ba_tree acc) i /\ l !! i = Some b /\ in_bucket b v /\ inU TW v /\
    ba_mask acc = 2 ^ (v - base v) /\ ba_value acc = v.

Definition at_number (bm : Bitmap Tree Acc) (acc : BitAccessor Acc) (X : gset Z) (v : Z) : Prop :=
  v ∈ X /\ ba_value acc = v /\
  (bm_singular bm = false -> exists l, tree_set (bm_tree bm) l X /\ at_bit (bm_tree bm) l acc v).

(** ** Numbers and buckets *)

Lemma bucket_number b k :
  bucket_ok b -> 0 <= k < BB -> Z.testbit (bits b) k = true ->
  inU TW (start_value b + k) /\ base (start_value b + k) = start_value b /\ in_bucket b (start_value b + k).
Proof.
  intros [H1 H2 H3 H4] Hk Hb. pose proof (bucket_end TW lb Hlb _ H1 H2).
  assert (Hu : inU TW (start_value b + k)) by (destruct H1; split; lia).
  assert (E : base (start_value b + k) = start_value b) by (apply (base_unique TW lb Hlb); [done|lia|done]).
  split; [done|]. split; [done|]. split; [done|]. by replace (start_value b + k - _) with k by lia.
Qed.

Lemma number_bit b v :
  in_bucket b v -> inU TW v ->
  0 <= v - start_value b < BB /\ Z.testbit (bits b) (v - start_value b) = true.
Proof. intros [E Hb] Hv. rewrite <- E. split; [by apply (base_offset TW lb Hlb)|done]. Qed.

Lemma buckets_order l i j b c v w :
  StronglySorted (by_key start_value) l -> Forall bucket_ok l -> (i < j)%nat ->
  l !! i = Some b -> l !! j = Some c -> in_bucket b v -> in_bucket c w -> inU TW v -> inU TW w -> v < w.
Proof.
  intros Hs Hok Hij Hi Hj Hv Hw Uv Uw. pose proof (sorted_lookup start_value l i j b c Hs Hij Hi Hj) as Hlt.
  destruct (number_bit b v Hv Uv), (number_bit c w Hw Uw).
  destruct (Forall_lookup_1 _ _ _ _ Hok Hi) as [_ B1 _ _], (Forall_lookup_1 _ _ _ _ Hok Hj) as [_ C1 _ _].
  pose proof (BB_pos TW lb Hlb). pose proof (Z.div_mod (start_value b) BB ltac:(lia)).
  pose proof (Z.div_mod (start_value c) BB ltac:(lia)).
  assert (start_value b / BB < start_value c / BB) by nia. nia.
Qed.

Lemma set_bucket t l X v : tree_set t l X -> v ∈ X -> exists i b, l !! i = Some b /\ in_bucket b v /\ inU TW v.
Proof.
  intros Hset Hv. pose proof (ts_range _ _ _ _ _ Hset v Hv) as Hu.
  apply (ts_mem _ _ _ _ _ Hset v Hu) in Hv as (b & [i Hi]%list_elem_of_lookup & Hb). by exists i, b.
Qed.

Lemma bucket_set t l X v i b : tree_set t l X -> l !! i = Some b -> in_bucket b v -> inU TW v -> v ∈ X.
Proof.
  intros Hset Hi Hb Hu. apply (ts_mem _ _ _ _ _ Hset v Hu). exists b. split; [by eapply list_elem_of_lookup_2|done].
Qed.

(** ** The first and the last number of a bucket *)

Lemma first_of_bucket_spec t l X a i b :
  tree_set t l X -> acc_at t a i -> l !! i = Some b ->
  exists acc v, first_of_bucket TW lb t a = Some (true, acc) /\ at_bit t l acc v /\ in_bucket b v /\
    forall w, in_bucket b w -> inU TW w -> v <= w.
Proof.
  intros Hset Ha Hi. pose proof (Forall_lookup_1 _ _ _ _ (ts_ok _ _ _ _ _ Hset) Hi) as Hok.
  unfold first_of_bucket.
  destruct (current_spec (key := start_value) t a l i (ts_rep _ _ _ _ _ Hset) Ha) as (c & -> & Hc). simplify_eq. cbn [mbind option_bind].
  pose proof (BB_pos TW lb Hlb) as HBB. pose proof (scan_fuel_enough TW lb Hlb).
  pose proof (bucket_end TW lb Hlb _ (bucket_start _ _ _ Hok) (bucket_aligned _ _ _ Hok)) as Hend.
  destruct (scan_up_spec TW lb Hlb (scan_fuel lb) (bits b) (start_value b) 0 (bucket_start _ _ _ Hok) Hend)
    as [(k & (Hk & Hb & Hmin) & E)|(Hnone & _)]; [lia|lia| |].
  - rewrite Z.add_0_r in E. change (2 ^ 0) with 1 in E. rewrite E. simpl.
    destruct (bucket_number b k Hok Hk Hb) as (Hu & Eb & Hin).
    do 2 eexists. split; [done|]. split; [|split; [exact Hin|]].
    + exists i, b. simpl. split; [done|]. split; [done|]. split; [done|]. split; [done|]. split; [|done].
      f_equal. lia.
    + intros w Hw Uw. destruct (number_bit b w Hw Uw) as [H1 H2].
      destruct (decide (start_value b + k <= w)); [done|]. rewrite Hmin in H2 by lia. done.
  - destruct (proj1 (nonzero_bit BB (bits b) ltac:(lia) (bucket_bits _ _ _ Hok)) (bucket_not_empty _ _ _ Hok)) as (k & Hk & Hb).
    by rewrite Hnone in Hb by lia.
Qed.

(** The scan of the last bucket, with any condition that holds of masks *)
Lemma last_scan_spec (more : Z -> Prop) `{!forall m, Decision (more m)} b :
  bucket_ok b -> (forall i, 0 <= i -> more (2 ^ i)) ->
  exists k, 0 <= k < BB /\
    scan_down TW more (scan_fuel lb) (bits b) (bunch_bit lb (BB - 1)) (wrapU TW (start_value b + BB - 1)) =
      Some (true, 2 ^ k, start_value b + k) /\
    in_bucket b (start_value b + k) /\ forall w, in_bucket b w -> inU TW w -> w <= start_value b + k.
Proof.
  intros Hok Hmore. pose proof (BB_pos TW lb Hlb) as HBB. pose proof (scan_fuel_enough TW lb Hlb).
  pose proof (bucket_end TW lb Hlb _ (bucket_start _ _ _ Hok) (bucket_aligned _ _ _ Hok)) as Hend.
  pose proof (bucket_start _ _ _ Hok) as [Hs0 Hs1].
  rewrite bunch_bit_pow by lia. rewrite wrapU_id by (split; lia).
  replace (start_value b + BB - 1) with (start_value b + (BB - 1)) by lia.
  destruct (scan_down_spec TW lb more (scan_fuel lb) (bits b) (start_value b) (BB - 1)
              (bucket_start _ _ _ Hok) Hend) as [(k & (Hk & Hb & Hmax) & E)|(Hnone & _)]; [lia|lia|done| |].
  - exists k. split; [lia|]. split; [done|]. destruct (bucket_number b k Hok ltac:(lia) Hb) as (Hu & Eb & Hin).
    split; [done|]. intros w Hw Uw. destruct (number_bit b w Hw Uw) as [H1 H2].
    destruct (decide (w <= start_value b + k)); [done|]. rewrite Hmax in H2 by lia. done.
  - destruct (proj1 (nonzero_bit BB (bits b) ltac:(lia) (bucket_bits _ _ _ Hok)) (bucket_not_empty _ _ _ Hok)) as (k & Hk & Hb).
    rewrite Hnone in Hb by lia. done.
Qed.

Lemma number_at t l a i b k mask value :
  Forall bucket_ok l -> acc_at t a i -> l !! i = Some b -> 0 <= k < BB -> in_bucket b (start_value b + k) ->
  mask = 2 ^ k -> value = start_value b + k ->
  at_bit t l {| ba_tree := a; ba_mask := mask; ba_value := value |} (start_value b + k).
Proof.
  intros Hok Ha Hi Hk [E Hb] -> ->. pose proof (Forall_lookup_1 _ _ _ _ Hok Hi) as Hbok.
  rewrite E in Hb. replace (start_value b + k - start_value b) with k in Hb by lia.
  destruct (bucket_number b k Hbok Hk Hb) as (Hu & _ & Hin).
  exists i, b. simpl. do 4 (split; [done|]). split; [|done]. f_equal. lia.
Qed.

Lemma last_of_bucket_spec t l X a i b :
  tree_set t l X -> acc_at t a i -> l !! i = Some b ->
  exists acc v, last_of_bucket TW lb t a = Some (true, acc) /\ at_bit t l acc v /\ in_bucket b v /\
    forall w, in_bucket b w -> inU TW w -> w <= v.
Proof.
  intros Hset Ha Hi. pose proof (Forall_lookup_1 _ _ _ _ (ts_ok _ _ _ _ _ Hset) Hi) as Hok.
  unfold last_of_bucket.
  destruct (current_spec (key := start_value) t a l i (ts_rep _ _ _ _ _ Hset) Ha) as (c & -> & Hc). simplify_eq. cbn [mbind option_bind].
  destruct (last_scan_spec nonzero b Hok) as (k & Hk & -> & Hin & Hmax); [unfold nonzero; lia|]. simpl.
  do 2 eexists. split; [done|]. split; [|split; [exact Hin|exact Hmax]].
  by apply (number_at t l a i b k); [apply (ts_ok _ _ _ _ _ Hset)|..].
Qed.

(** Where another number is. *)
Lemma other_number t l X i b v w :
  tree_set t l X -> l !! i = Some b -> in_bucket b v -> inU TW v -> w ∈ X ->
  exists j c, l !! j = Some c /\ in_bucket c w /\ inU TW w /\
    ((j < i)%nat -> w < v) /\ ((i < j)%nat -> v < w) /\ (j = i -> c = b).
Proof.
  intros Hset Hi Hv Uv Hw. destruct (set_bucket t l X w Hset Hw) as (j & c & Hj & Hc & Uw).
  pose proof (rep_sorted (key := start_value) _ _ (ts_rep _ _ _ _ _ Hset)) as Hs.
  pose proof (ts_ok _ _ _ _ _ Hset) as Hok. exists j, c. do 3 (split; [done|]). split; [|split].
  - intros Hlt. by apply (buckets_order l j i c b).
  - intros Hlt. by apply (buckets_order l i j b c).
  - intros ->. congruence.
Qed.

(** ** Steps of the accessor *)

Lemma getFirst_spec bm X acc :
  bm_rep bm X ->
  (X = ∅ /\ exists acc', accessor_getFirst TW lb (Some bm) acc = Some (false, acc')) \/
  exists acc' v, accessor_getFirst TW lb (Some bm) acc = Some (true, acc') /\ at_number bm acc' X v /\
    forall w, w ∈ X -> v <= w.
Proof.
  intros Hrep. unfold accessor_getFirst, at_number. unfold BitmapSet.bm_rep in Hrep. destruct (bm_singular bm) eqn:Es.
  - destruct Hrep as (_ & -> & Hu). right. do 2 eexists. split; [done|]. simpl.
    split; [split; [by apply elem_of_singleton|done]|]. intros w ->%elem_of_singleton. done.
  - destruct Hrep as [l Hset].
    destruct (first_spec (key := start_value) (bm_tree bm) (ba_tree acc) l (ts_rep _ _ _ _ _ Hset)) as (a & -> & Ha).
    destruct l as [|b l].
    + left. split; [|by eexists]. apply elem_of_equiv_empty_L. intros w Hw.
      apply (set_bucket _ _ _ _ Hset) in Hw as (? & ? & ? & _). done.
    + right. destruct (first_of_bucket_spec _ _ X a 0 b Hset (Ha ltac:(done)) eq_refl) as (acc' & v & E & Hat & Hv & Hmin).
      exists acc', v. split; [exact E|]. pose proof Hat as (i & c & _ & Hi & Hc & Uv & _ & Ev).
      split; [split; [by apply (bucket_set _ _ _ _ _ _ Hset Hi)|split; [done|by exists (b :: l)]]|].
      intros w Hw. destruct (other_number _ _ X 0 b v w Hset eq_refl Hv Uv Hw) as (j & d & Hj & Hd & Uw & _ & Hgt & Heq).
      destruct j as [|j]; [rewrite (Heq eq_refl) in Hd; by apply Hmin|]. specialize (Hgt ltac:(lia)). lia.
Qed.

Lemma getLast_spec bm X acc :
  bm_rep bm X ->
  (X = ∅ /\ exists acc', accessor_getLast TW lb (Some bm) acc = Some (false, acc')) \/
  exists acc' v, accessor_getLast TW lb (Some bm) acc = Some (true, acc') /\ at_number bm acc' X v /\
    forall w, w ∈ X -> w <= v.
Proof.
  intros Hrep. unfold accessor_getLast, at_number. unfold BitmapSet.bm_rep in Hrep. destruct (bm_singular bm) eqn:Es.
  - destruct Hrep as (_ & -> & Hu). right. do 2 eexists. split; [done|]. simpl.
    split; [split; [by apply elem_of_singleton|done]|]. intros w ->%elem_of_singleton. done.
  - destruct Hrep as [l Hset].
    destruct (last_spec (key := start_value) (bm_tree bm) (ba_tree acc) l (ts_rep _ _ _ _ _ Hset)) as (a & -> & Ha).
    destruct (decide (l = [])) as [->|Hl].
    + left. split; [|by eexists]. apply elem_of_equiv_empty_L. intros w Hw.
      apply (set_bucket _ _ _ _ Hset) in Hw as (? & ? & ? & _). done.
    + right. rewrite bool_decide_eq_true_2 by done.
      destruct (lookup_lt_is_Some_2 l (length l - 1)) as [b Hb]; [destruct l; [done|simpl; lia]|].
      destruct (last_of_bucket_spec _ _ X a _ b Hset (Ha Hl) Hb) as (acc' & v & E & Hat & Hv & Hmax).
      exists acc', v. split; [exact E|]. pose proof Hat as (i & c & _ & Hi & Hc & Uv & _ & Ev).
      split; [split; [by apply (bucket_set _ _ _ _ _ _ Hset Hi)|split; [done|by exists l]]|].
      intros w Hw. destruct (other_number _ _ X _ b v w Hset Hb Hv Uv Hw) as (j & d & Hj & Hd & Uw & Hlt & _ & Heq).
      pose proof (lookup_lt_Some _ _ _ Hj). destruct (decide (j = (length l - 1)%nat)) as [Ej|Ej].
      * rewrite (Heq Ej) in Hd. by apply Hmax.
      * specialize (Hlt ltac:(lia)). lia.
Qed.

(** The number after [v], if there is one *)
Definition next_in (X : gset Z) (v w : Z) : Prop := w ∈ X /\ v < w /\ forall u, u ∈ X -> v < u -> w <= u.
Definition prev_in (X : gset Z) (v w : Z) : Prop := w ∈ X /\ w < v /\ forall u, u ∈ X -> u < v -> u <= w.

(** The next bucket is entered when there are no more bits in the one of [v]. *)
Lemma next_bucket t l X a i b v :
  tree_set t l X -> acc_at t a i -> l !! i = Some b -> in_bucket b v -> inU TW v ->
  (forall w, in_bucket b w -> inU TW w -> w <= v) ->
  exists next a', tree_getNext t a = Some (next, a') /\
    if next : bool then exists acc' w, first_of_bucket TW lb t a' = Some (true, acc') /\ at_bit t l acc' w /\ next_in X v w
    else forall w, w ∈ X -> w <= v.
Proof.
  intros Hset Ha Hi Hv Uv Hno.
  destruct (next_spec (key := start_value) t a l i (ts_rep _ _ _ _ _ Hset) Ha) as (a' & -> & Ha').
  do 2 eexists. split; [done|]. case_bool_decide as Hlt.
  - rewrite decide_True in Ha' by done. destruct (lookup_lt_is_Some_2 _ _ Hlt) as [c Hc].
    destruct (first_of_bucket_spec t l X a' _ c Hset Ha' Hc) as (acc' & w & E & Hat & Hw & Hmin).
    exists acc', w. split; [done|]. split; [done|]. pose proof Hat as (k & d & _ & Hk & Hd & Uw & _).
    split; [by apply (bucket_set _ _ _ _ _ _ Hset Hk)|].
    pose proof (rep_sorted (key := start_value) _ _ (ts_rep _ _ _ _ _ Hset)) as Hs.
    pose proof (ts_ok _ _ _ _ _ Hset) as Hok. split; [apply (buckets_order l i (S i) b c); done || lia|].
    intros u Hu Hvu. destruct (other_number _ _ X _ b v u Hset Hi Hv Uv Hu) as (j & e & Hj & He & Uu & Hlt' & _ & Heq).
    destruct (lt_eq_lt_dec j (S i)) as [[Hji|Hji]|Hji].
    + destruct (decide (j = i)) as [Ej|]; [rewrite (Heq Ej) in He; specialize (Hno u He Uu); lia|].
      specialize (Hlt' ltac:(lia)). lia.
    + subst j. rewrite Hc in Hj. injection Hj as ->. by apply Hmin.
    + enough (w < u) by lia. by apply (buckets_order l (S i) j c e).
  - intros w Hw. destruct (other_number _ _ X _ b v w Hset Hi Hv Uv Hw) as (j & e & Hj & He & Uw & Hlt' & _ & Heq).
    pose proof (lookup_lt_Some _ _ _ Hj). destruct (decide (j = i)) as [Ej|].
    + rewrite (Heq Ej) in He. by apply Hno.
    + specialize (Hlt' ltac:(lia)). lia.
Qed.

Lemma getNext_spec bm X acc v :
  bm_rep bm X -> at_number bm acc X v ->
  (exists acc', accessor_getNext TW lb bm acc = Some (false, acc') /\ forall w, w ∈ X -> w <= v) \/
  exists acc' w, accessor_getNext TW lb bm acc = Some (true, acc') /\ at_number bm acc' X w /\ next_in X v w.
Proof.
  intros Hrep (HvX & Ev & Hat). unfold accessor_getNext. unfold BitmapSet.bm_rep in Hrep.
  destruct (bm_singular bm) eqn:Es.
  - destruct Hrep as (_ & -> & Hu). left. exists acc. split; [done|].
    apply elem_of_singleton in HvX as ->. intros w ->%elem_of_singleton. done.
  - clear Hrep. destruct (Hat eq_refl) as (l & Hset & i & b & Ha & Hi & Hb & Uv & Em & _).
    pose proof (Forall_lookup_1 _ _ _ _ (ts_ok _ _ _ _ _ Hset) Hi) as Hok.
    destruct (current_spec (key := start_value) _ _ l i (ts_rep _ _ _ _ _ Hset) Ha) as (c & -> & Hc). simplify_eq.
    cbn [mbind option_bind]. destruct (number_bit b _ Hb Uv) as [Hk Hbit]. destruct Hb as [E Hb'].
    set (k := ba_value acc - start_value b) in *. rewrite Em, E. fold k.
    pose proof (bucket_end TW lb Hlb _ (bucket_start _ _ _ Hok) (bucket_aligned _ _ _ Hok)) as Hend.
    replace (ba_value acc + 1) with (start_value b + k + 1) by lia.
    destruct (while_up_spec TW lb Hlb (bits b) (start_value b) k (bucket_start _ _ _ Hok) Hend Hk)
      as [(j & (Hj & Hjb & Hmin) & ->)|(Hnone & m & v & ->)]; cbn [mbind option_bind].
    + right. destruct (bucket_number b j Hok ltac:(lia) Hjb) as (Hu & _ & Hin).
      exists {| ba_tree := ba_tree acc; ba_mask := 2 ^ j; ba_value := start_value b + j |}, (start_value b + j).
      split; [done|]. split.
      * split; [by apply (bucket_set _ _ _ _ _ _ Hset Hi)|]. split; [done|]. intros _. exists l. split; [done|].
        apply (number_at _ l _ i b j); [apply (ts_ok _ _ _ _ _ Hset)|done|done|lia|done|done|done].
      * split; [by apply (bucket_set _ _ _ _ _ _ Hset Hi)|]. split; [lia|]. intros u Hu' Hvu.
        destruct (other_number _ _ X _ b (ba_value acc) u Hset Hi (conj E Hb') Uv Hu')
          as (j' & c & Hj' & Hc' & Uu & Hlt & _ & Heq).
        destruct (lt_eq_lt_dec j' i) as [[Hji|Hji]|Hji]; [specialize (Hlt Hji); lia| |].
        -- rewrite (Heq Hji) in Hc'. destruct (number_bit b u Hc' Uu) as [H1 H2].
           destruct (decide (start_value b + j <= u)); [done|]. rewrite Hmin in H2 by lia. done.
        -- enough (start_value b + j < u) by lia.
           apply (buckets_order l i j' b c); [|apply (ts_ok _ _ _ _ _ Hset)|done..].
           by apply (rep_sorted (key := start_value) _ _ (ts_rep _ _ _ _ _ Hset)).
    + destruct (next_bucket _ _ X _ i b (ba_value acc) Hset Ha Hi (conj E Hb') Uv) as (next & a' & -> & Hnext).
      { intros w Hw Uw. destruct (number_bit b w Hw Uw) as [H1 H2].
        destruct (decide (w <= ba_value acc)); [done|]. rewrite Hnone in H2 by lia. done. }
      simpl. destruct next.
      * right. destruct Hnext as (acc' & w & -> & Hat' & Hw). exists acc', w. split; [done|]. split; [|done].
        split; [by destruct Hw|]. pose proof Hat' as (? & ? & _ & _ & _ & _ & _ & Ew). split; [done|]. by exists l.
      * left. by eexists.
Qed.

(** The bucket before is entered; [last] is one of the two scans of it. *)
Lemma prev_bucket t l X a i b v :
  tree_set t l X -> acc_at t a i -> l !! i = Some b -> in_bucket b v -> inU TW v ->
  (forall w, in_bucket b w -> inU TW w -> v <= w) ->
  exists prev a', tree_getPrev t a = Some (prev, a') /\
    if prev : bool then exists i' c, acc_at t a' i' /\ l !! i' = Some c /\
      forall w, in_bucket c w -> inU TW w -> (forall u, in_bucket c u -> inU TW u -> u <= w) -> prev_in X v w
    else forall w, w ∈ X -> v <= w.
Proof.
  intros Hset Ha Hi Hv Uv Hno.
  destruct (prev_spec (key := start_value) t a l i (ts_rep _ _ _ _ _ Hset) Ha) as (a' & -> & Ha').
  do 2 eexists. split; [done|]. case_bool_decide as Hlt.
  - pose proof (lookup_lt_Some _ _ _ Hi). destruct (lookup_lt_is_Some_2 l (i - 1)) as [c Hc]; [lia|].
    exists (i - 1)%nat, c. split; [done|]. split; [done|]. intros w Hw Uw Hmax.
    split; [by apply (bucket_set _ _ _ _ _ _ Hset Hc)|].
    pose proof (rep_sorted (key := start_value) _ _ (ts_rep _ _ _ _ _ Hset)) as Hs.
    pose proof (ts_ok _ _ _ _ _ Hset) as Hok. split; [apply (buckets_order l (i - 1) i c b); done || lia|].
    intros u Hu Hvu. destruct (other_number _ _ X _ b v u Hset Hi Hv Uv Hu) as (j & e & Hj & He & Uu & _ & Hgt & Heq).
    destruct (lt_eq_lt_dec j (i - 1)) as [[Hji|Hji]|Hji].
    + enough (u < w) by lia. by apply (buckets_order l j (i - 1) e c).
    + subst j. rewrite Hc in Hj. injection Hj as ->. by apply Hmax.
    + destruct (decide (j = i)) as [Ej|]; [rewrite (Heq Ej) in He; specialize (Hno u He Uu); lia|].
      specialize (Hgt ltac:(lia)). lia.
  - intros w Hw. destruct (other_number _ _ X _ b v w Hset Hi Hv Uv Hw) as (j & e & Hj & He & Uw & _ & Hgt & Heq).
    destruct (decide (j = i)) as [Ej|].
    + rewrite (Heq Ej) in He. by apply Hno.
    + specialize (Hgt ltac:(lia)). lia.
Qed.

Lemma at_number_at bm acc l X v :
  bm_singular bm = false -> tree_set (bm_tree bm) l X -> at_bit (bm_tree bm) l acc v -> at_number bm acc X v.
Proof.
  intros Es Hset Hat. pose proof Hat as (i & b & _ & Hi & Hb & Uv & _ & Ev).
  split; [by apply (bucket_set _ _ _ _ _ _ Hset Hi)|]. split; [done|]. intros _. by exists l.
Qed.

Lemma getPrev_spec bm X acc v :
  bm_rep bm X -> at_number bm acc X v ->
  (exists acc', accessor_getPrev TW lb bm acc = Some (false, acc') /\ forall w, w ∈ X -> v <= w) \/
  exists acc' w, accessor_getPrev TW lb bm acc = Some (true, acc') /\ at_number bm acc' X w /\ prev_in X v w.
Proof.
  intros Hrep (HvX & Ev & Hat). unfold accessor_getPrev. unfold BitmapSet.bm_rep in Hrep.
  destruct (bm_singular bm) eqn:Es.
  - destruct Hrep as (_ & -> & Hu). left. exists acc. split; [done|].
    apply elem_of_singleton in HvX as ->. intros w ->%elem_of_singleton. done.
  - clear Hrep. destruct (Hat eq_refl) as (l & Hset & i & b & Ha & Hi & Hb & Uv & Em & _).
    pose proof (ts_ok _ _ _ _ _ Hset) as Hall. pose proof (Forall_lookup_1 _ _ _ _ Hall Hi) as Hok.
    destruct (current_spec (key := start_value) _ _ l i (ts_rep _ _ _ _ _ Hset) Ha) as (c & -> & Hc). simplify_eq.
    cbn [mbind option_bind]. destruct (number_bit b _ Hb Uv) as [Hk Hbit]. pose proof Hb as [E Hb'].
    set (k := ba_value acc - start_value b) in *. rewrite Em, E. fold k.
    pose proof (bucket_end TW lb Hlb _ (bucket_start _ _ _ Hok) (bucket_aligned _ _ _ Hok)) as Hend.
    replace (ba_value acc - 1) with (start_value b + k - 1) by lia.
    destruct (while_down_spec TW lb Hlb (bits b) (start_value b) k (bucket_start _ _ _ Hok) Hend Hk)
      as [(j & (Hj & Hjb & Hmax) & ->)|(Hnone & m & v & ->)]; cbn [mbind option_bind].
    + right. destruct (bucket_number b j Hok ltac:(lia) Hjb) as (Hu & _ & Hin).
      do 2 eexists. split; [done|]. split.
      * apply (at_number_at bm _ l X); [done|done|].
        apply (number_at _ l _ i b j); [done|done|done|lia|done|done|done].
      * split; [by apply (bucket_set _ _ _ _ _ _ Hset Hi)|]. split; [lia|]. intros u Hu' Hvu.
        destruct (other_number _ _ X _ b (ba_value acc) u Hset Hi Hb Uv Hu')
          as (j' & c & Hj' & Hc' & Uu & _ & Hgt & Heq).
        destruct (lt_eq_lt_dec j' i) as [[Hji|Hji]|Hji]; [| |specialize (Hgt Hji); lia].
        -- enough (u < start_value b + j) by lia. apply (buckets_order l j' i c b); [|done..].
           by apply (rep_sorted (key := start_value) _ _ (ts_rep _ _ _ _ _ Hset)).
        -- rewrite (Heq Hji) in Hc'. destruct (number_bit b u Hc' Uu) as [H1 H2].
           destruct (decide (u <= start_value b + j)); [done|]. rewrite Hmax in H2 by lia. done.
    + destruct (prev_bucket _ _ X _ i b (ba_value acc) Hset Ha Hi Hb Uv) as (prev & a' & -> & Hprev).
      { intros w Hw Uw. destruct (number_bit b w Hw Uw) as [H1 H2].
        destruct (decide (ba_value acc <= w)); [done|]. rewrite Hnone in H2 by lia. done. }
      cbn [mbind option_bind]. destruct prev.
      * right. destruct Hprev as (i' & d & Ha' & Hd & Hp). pose proof (Forall_lookup_1 _ _ _ _ Hall Hd) as Hdok.
        destruct (current_spec (key := start_value) _ _ l i' (ts_rep _ _ _ _ _ Hset) Ha') as (d' & -> & Hd').
        simplify_eq. cbn [mbind option_bind].
        edestruct (last_scan_spec (fun _ => nonzero (2 ^ k)) d Hdok) as (j & Hj & Hscan & Hin & Hmax);
          [unfold nonzero; lia|].
        rewrite Hscan. cbn [mbind option_bind]. do 2 eexists. split; [done|].
        assert (Hat' : at_bit (bm_tree bm) l {| ba_tree := a'; ba_mask := 2 ^ j; ba_value := start_value d + j |} (start_value d + j))
          by (by apply (number_at _ l _ i' d j)).
        split; [by apply (at_number_at bm _ l X)|]. pose proof Hat' as (_ & _ & _ & _ & _ & Uw & _). by apply Hp.
      * left. by eexists.
Qed.

(** ** Walks *)

(** [for (bool found = acc.getFirst(); found; found = acc.getNext())] and back *)
Fixpoint walk (step : BitAccessor Acc -> option (bool * BitAccessor Acc)) (fuel : nat) (found : bool)
    (acc : BitAccessor Acc) : option (list Z) :=
  match fuel with
  | O => None
  | S fuel =>
      if found then
        let v := ba_value acc in
        '(found, acc) ← step acc;
        vs ← walk step fuel found acc;
        Some (v :: vs)
      else Some []
  end.

Definition walk_up (fuel : nat) (bm : Bitmap Tree Acc) (acc : BitAccessor Acc) : option (list Z) :=
  '(found, acc) ← accessor_getFirst TW lb (Some bm) acc;
  walk (accessor_getNext TW lb bm) fuel found acc.

Definition walk_down (fuel : nat) (bm : Bitmap Tree Acc) (acc : BitAccessor Acc) : option (list Z) :=
  '(found, acc) ← accessor_getLast TW lb (Some bm) acc;
  walk (accessor_getPrev TW lb bm) fuel found acc.

(** A walk from a number visits it and, in order, the numbers further in one
    direction. *)
Lemma walk_from bm X (R : Z -> Z -> Prop) `{!RelDecision R} step :
  (forall acc v, at_number bm acc X v ->
     (exists acc', step acc = Some (false, acc') /\ forall w, w ∈ X -> ~ R v w) \/
     exists acc' w, step acc = Some (true, acc') /\ at_number bm acc' X w /\
       w ∈ X /\ R v w /\ forall u, u ∈ X -> R v u -> u = w \/ R w u) ->
  (forall u v w, R u v -> R v w -> R u w) -> (forall u, ~ R u u) ->
  forall acc v fuel, at_number bm acc X v -> (size X + 1 < fuel)%nat ->
  exists vs, walk step fuel true acc = Some vs /\ StronglySorted R vs /\
    (forall u, u ∈ vs <-> u = v \/ u ∈ X /\ R v u).
Proof.
  intros Hstep Htrans Hirr.
  assert (H : forall n acc v fuel, (size (filter (R v) X) < n)%nat -> at_number bm acc X v -> (n + 1 <= fuel)%nat ->
    exists vs, walk step fuel true acc = Some vs /\ StronglySorted R vs /\
      (forall u, u ∈ vs <-> u = v \/ u ∈ X /\ R v u)).
  { induction n as [|n IH]; intros acc v fuel Hn Hat Hf; [lia|]. destruct fuel as [|fuel]; [lia|]. cbn [walk].
    pose proof Hat as (HvX & Ev & _).
    destruct (Hstep acc v Hat) as [(acc' & -> & Hno)|(acc' & w & -> & Hat' & Hw & Hvw & Hnext)]; cbn [mbind option_bind].
    - destruct fuel as [|fuel]; [lia|]. cbn [walk]. simpl. eexists. split; [done|]. split; [by repeat constructor|].
      intros u. rewrite list_elem_of_singleton, Ev. split; [by left|]. intros [?|[Hu HR]]; [done|]. by apply Hno in Hu.
    - destruct (IH acc' w fuel) as (vs & -> & Hs & Hvs); [|done|lia|].
      { enough (size (filter (R w) X) < size (filter (R v) X))%nat by lia. apply subset_size.
        split.
        - intros u. rewrite !elem_of_filter. intros [HR Hu]. split; [by apply (Htrans v w u)|done].
        - intros Hsub. specialize (Hsub w). rewrite !elem_of_filter in Hsub. destruct Hsub as [HR _]; [done|].
          by apply Hirr in HR. }
      simpl. eexists. split; [done|]. rewrite Ev. split.
      + constructor; [done|]. apply Forall_forall. intros u Hu. apply Hvs in Hu as [->|[Hu HR]]; [done|].
        by apply (Htrans v w u).
      + intros u. rewrite elem_of_cons, Hvs. split.
        * intros [->|[->|[Hu HR]]]; [by left|by right|right]. split; [done|by apply (Htrans v w u)].
        * intros [->|[Hu HR]]; [by left|right]. destruct (Hnext u Hu HR) as [->|]; [by left|by right]. }
  intros acc v fuel Hat Hf. apply (H (size X + 1)%nat); [|done|lia].
  enough (size (filter (R v) X) <= size X)%nat by lia. apply subseteq_size. intros u [_ Hu]%elem_of_filter. done.
Qed.

(** C36. The accessor of a [SparseBitmap]: for every bitmap, the walk from [getFirst] with
    [getNext] ends and visits exactly the numbers of the set, in increasing order; the
    walk from [getLast] with [getPrev] visits them in decreasing order. *)
Theorem bitmap_walk_correct bm X acc fuel :
  bm_rep bm X -> (size X + 1 < fuel)%nat ->
  (exists up, walk_up fuel bm acc = Some up /\ StronglySorted Z.lt up /\ forall v, v ∈ up <-> v ∈ X) /\
  (exists down, walk_down fuel bm acc = Some down /\ StronglySorted Z.gt down /\ forall v, v ∈ down <-> v ∈ X).
Proof.
  intros Hrep Hf. unfold walk_up, walk_down. split.
  - destruct (getFirst_spec bm X acc Hrep) as [(-> & acc' & ->)|(acc' & v & -> & Hat & Hmin)]; cbn [mbind option_bind].
    + destruct fuel as [|fuel]; [lia|]. exists []. split; [done|]. split; [constructor|]. intros v. set_solver.
    + destruct (walk_from bm X Z.lt (accessor_getNext TW lb bm)) with (acc := acc') (v := v) (fuel := fuel)
        as (vs & E & Hs & Hvs); [|lia|lia|done|done|].
      * intros acc2 w Hat2. destruct (getNext_spec bm X acc2 w Hrep Hat2) as [(a3 & E & Hno)|(a3 & u & E & Hu & HX & Hlt & Hnext)].
        -- left. exists a3. split; [done|]. intros u Hu. specialize (Hno u Hu). lia.
        -- right. exists a3, u. do 4 (split; [done|]). intros x Hx Hwx. specialize (Hnext x Hx Hwx). lia.
      * exists vs. split; [done|]. split; [done|]. intros u. rewrite Hvs. destruct Hat as (HvX & _). split.
        -- intros [->|[? _]]; done.
        -- intros Hu. specialize (Hmin u Hu). destruct (decide (u = v)); [by left|right]. split; [done|lia].
  - destruct (getLast_spec bm X acc Hrep) as [(-> & acc' & ->)|(acc' & v & -> & Hat & Hmax)]; cbn [mbind option_bind].
    + destruct fuel as [|fuel]; [lia|]. exists []. split; [done|]. split; [constructor|]. intros v. set_solver.
    + destruct (walk_from bm X Z.gt (accessor_getPrev TW lb bm)) with (acc := acc') (v := v) (fuel := fuel)
        as (vs & E & Hs & Hvs); [|lia|lia|done|done|].
      * intros acc2 w Hat2. destruct (getPrev_spec bm X acc2 w Hrep Hat2) as [(a3 & E & Hno)|(a3 & u & E & Hu & HX & Hlt & Hnext)].
        -- left. exists a3. split; [done|]. intros u Hu. specialize (Hno u Hu). lia.
        -- right. exists a3, u. do 3 (split; [done|]). split; [lia|]. intros x Hx Hwx.
           specialize (Hnext x Hx ltac:(lia)). lia.
      * exists vs. split; [done|]. split; [done|]. intros u. rewrite Hvs. destruct Hat as (HvX & _). split.
        -- intros [->|[? _]]; done.
        -- intros Hu. specialize (Hmax u Hu). destruct (decide (u = v)); [by left|right]. split; [done|lia].
Qed.
End Walk.

Lemma sample_bitmap_rep bm :
  sample_bitmap = Some bm -> bm_rep 32 6 (tree_rep := list_rep start_value) bm {[5; 300; 70]}.
Proof.
  intros Hbm. unfold sample_bitmap in Hbm.
  destruct (exec_all (bit_run 32 6) sample_ops bitmap_new) as [[bm' rs']|] eqn:E; [|done]. injection Hbm as ->.
  apply (bit_exec_rep 32 6 ltac:(lia) (TL := list_tree_laws start_value) sample_ops _
    [None; None; None; Some true; Some true; Some false; None] bm rs'); [vm_compute; reflexivity|exact E].
Qed.

Lemma bitmap_walk_correct_witness :
  exists bm, sample_bitmap = Some bm /\
    (exists up, walk_up 32 6 (TO := list_tree start_value) 10 bm (accessor_new (TO := list_tree start_value)) = Some up /\
       StronglySorted Z.lt up /\ forall v, v ∈ up <-> v ∈ ({[5; 300; 70]} : gset Z)) /\
    (exists down, walk_down 32 6 (TO := list_tree start_value) 10 bm (accessor_new (TO := list_tree start_value)) = Some down /\
       StronglySorted Z.gt down /\ forall v, v ∈ down <-> v ∈ ({[5; 300; 70]} : gset Z)).
Proof.
  eexists. split; [vm_compute; reflexivity|].
  apply (bitmap_walk_correct 32 6 ltac:(lia) (TL := list_tree_laws start_value)).
  - apply sample_bitmap_rep. vm_compute. reflexivity.
  - vm_compute. lia.
Defined.
