(* ===== verification/BitmapLocate.v ===== *)
(** * [SparseBitmap::Accessor::locate]

    [locate] finds the nearest number in a direction, upwards always, downwards when
    the bucket of the key is there; and an example of what it answers otherwise. *)

From Stdlib Require Import Sorting.Sorted.
From stdpp Require Import gmap.
From S2P Require Import Prelude KeyTree SparseBitmap BitmapSet BitmapWalk.

(** What is looked for, and the nearest of several *)
Definition loc_rel (lt : LocType) (key v : Z) : Prop :=
  match lt with
  | locEqual => v = key
  | locLess => v < key
  | locGreat => key < v
  | locGreatEqual => key <= v
  | locLessEqual => v <= key
  end.

Definition loc_near (lt : LocType) (v u : Z) : Prop :=
  match lt with locLess | locLessEqual => u <= v | _ => v <= u end.

Section Locate.
Context (TW lb : Z) (Hlb : 0 <= lb <= TW).
Context {Tree Acc : Type} {TO : TreeOps Bucket Tree Acc}.
Context {tree_rep : Tree -> list Bucket -> Prop} {acc_at : Tree -> Acc -> nat -> Prop}.
Context {TL : TreeLaws start_value TO tree_rep acc_at}.

Abbreviation BB := (BUNCH_BITS lb).
Abbreviation base := (bucket_base TW lb).
Abbreviation in_bucket := (in_bucket TW lb).
Abbreviation tree_set := (tree_set TW lb (tree_rep := tree_rep)).
Abbreviation bm_rep := (bm_rep TW lb (tree_rep := tree_rep)).
Abbreviation at_number := (at_number TW lb (tree_rep := tree_rep) (acc_at := acc_at)).
Abbreviation at_bit := (at_bit TW lb (acc_at := acc_at)).
Implicit Types (bm : Bitmap Tree Acc) (t : Tree) (a : Acc) (acc : BitAccessor Acc) (l : list Bucket) (X : gset Z).

Definition nearest (lt : LocType) (key : Z) (X : gset Z) (v : Z) : Prop :=
  v ∈ X /\ loc_rel lt key v /\ forall u, u ∈ X -> loc_rel lt key u -> loc_near lt v u.

(** The answer of the tree part, for the three relations that are left *)
Definition located (lt : LocType) (key : Z) (t : Tree) (l : list Bucket) (X : gset Z)
    (r : option (bool * BitAccessor Acc)) : Prop :=
  exists b acc, r = Some (b, acc) /\
    if b : bool then exists v, at_bit t l acc v /\ nearest lt key X v
    else forall u, u ∈ X -> ~ loc_rel lt key u.

Lemma base_mono u v : inU TW u -> inU TW v -> u <= v -> base u <= base v.
Proof.
  intros Hu Hv Huv. rewrite !(base_spec TW lb Hlb) by done. pose proof (BB_pos TW lb Hlb).
  pose proof (Z.div_mod u BB ltac:(lia)). pose proof (Z.div_mod v BB ltac:(lia)).
  pose proof (Z.div_le_mono u v BB ltac:(lia) Huv). nia.
Qed.

(** A number of the set in the range of a bucket is in the bucket. *)
Lemma in_its_bucket t l X i b u :
  tree_set t l X -> l !! i = Some b -> u ∈ X -> base u = start_value b -> in_bucket b u.
Proof.
  intros Hset Hi Hu E. destruct (set_bucket TW lb t l X u Hset Hu) as (j & c & Hj & [Ec Hc] & _).
  pose proof (rep_sorted (key := start_value) _ _ (ts_rep _ _ _ _ _ Hset)) as Hs.
  assert (j = i) as -> by (eapply (sorted_inj start_value); [done|done|done|congruence]).
  rewrite Hi in Hj. injection Hj as ->. by split.
Qed.

Lemma locate_equal_spec key t a l X i b :
  tree_set t l X -> inU TW key -> acc_at t a i -> l !! i = Some b -> start_value b = base key ->
  located locEqual key t l X (locate_equal lb key (base key) t a).
Proof.
  intros Hset Hk Ha Hi E. unfold locate_equal.
  destruct (current_spec (key := start_value) t a l i (ts_rep _ _ _ _ _ Hset) Ha) as (c & -> & Hc). simplify_eq.
  cbn [mbind option_bind]. do 2 eexists. split; [done|].
  pose proof (mem_bit TW lb Hlb key l X t i b Hset Hk Hi E) as Hbit. case_bool_decide as Hd.
  - exists key. apply Hbit in Hd. split.
    + exists i, b. simpl. split; [done|]. split; [done|]. split; [by apply (in_its_bucket t l X i)|].
      split; [done|]. split; [|done]. apply bunch_bit_pow. by apply (base_offset TW lb Hlb).
    + split; [done|]. split; [done|]. intros u _ ->. done.
  - intros u Hu ->. tauto.
Qed.

Lemma nearest_up key X v : v ∈ X -> key <= v -> (forall u, u ∈ X -> key <= u -> v <= u) -> nearest locGreatEqual key X v.
Proof. by intros. Qed.

Lemma locate_up_spec key t a l X i b :
  tree_set t l X -> inU TW key -> acc_at t a i -> l !! i = Some b -> base key <= start_value b ->
  (forall j c, l !! j = Some c -> (j < i)%nat -> start_value c < base key) ->
  located locGreatEqual key t l X (locate_up TW lb key (base key) t a).
Proof.
  intros Hset Hk Ha Hi Hge Hbefore. unfold locate_up.
  pose proof (ts_ok _ _ _ _ _ Hset) as Hall. pose proof (Forall_lookup_1 _ _ _ _ Hall Hi) as Hok.
  destruct (current_spec (key := start_value) t a l i (ts_rep _ _ _ _ _ Hset) Ha) as (c & -> & Hc). simplify_eq.
  cbn [mbind option_bind]. pose proof (BB_pos TW lb Hlb) as HBB. pose proof (scan_fuel_enough TW lb Hlb) as Hfuel.
  pose proof (base_range TW lb Hlb key Hk) as (Hr1 & Hr2 & Hr3).
  pose proof (bucket_end TW lb Hlb _ (bucket_start _ _ _ Hok) (bucket_aligned _ _ _ Hok)) as Hend.
  (* the scan starts at the first number of the bucket that is not before the key *)
  set (j0 := if decide (start_value b = base key) then key - base key else 0).
  assert (Hj0 : 0 <= j0 < BB) by (subst j0; case_decide; lia).
  assert (Hstart : (if decide (start_value b = base key) then (bunch_bit lb (key - base key), key)
                    else (1, start_value b)) = (2 ^ j0, start_value b + j0)).
  { subst j0. case_decide as E; [|f_equal; lia]. rewrite bunch_bit_pow by lia. f_equal. lia. }
  rewrite Hstart.
  assert (Hkey : forall w, in_bucket b w -> inU TW w -> key <= w <-> j0 <= w - start_value b).
  { intros w Hw Uw. destruct (number_bit TW lb Hlb b w Hw Uw). subst j0. case_decide as E; [lia|].
    pose proof (bucket_aligned _ _ _ Hok) as Hal. pose proof (Z.div_mod (start_value b) BB ltac:(lia)).
    pose proof (Z.div_mod (base key) BB ltac:(lia)). assert (base key / BB < start_value b / BB) by nia. nia. }
  assert (Hlow : forall u j c, u ∈ X -> inU TW u -> l !! j = Some c -> in_bucket c u -> (j < i)%nat -> u < key).
  { intros u j c Hu Uu Hj [Ec _] Hlt. specialize (Hbefore j c Hj Hlt).
    destruct (decide (key <= u)) as [Hku|]; [|lia]. pose proof (base_mono key u Hk Uu Hku). lia. }
  destruct (scan_up_spec TW lb Hlb (scan_fuel lb) (bits b) (start_value b) j0 (bucket_start _ _ _ Hok) Hend Hj0)
    as [(j & (Hj & Hjb & Hmin) & ->)|(Hnone & ->)]; [lia| |]; cbn [mbind option_bind].
  - destruct (bucket_number TW lb Hlb b j Hok ltac:(lia) Hjb) as (Hu & _ & Hin).
    do 2 eexists. split; [done|]. exists (start_value b + j).
    split; [apply (number_at TW lb Hlb t l _ i b j); done || lia|].
    split; [by apply (bucket_set TW lb (tree_rep := tree_rep) t l X _ i b)|]. split; [apply Hkey; [done|done|lia]|].
    intros u Hu' Hku. simpl in Hku |- *.
    destruct (other_number TW lb Hlb t l X i b (start_value b + j) u Hset Hi Hin Hu Hu')
      as (j' & c & Hj' & Hc' & Uu & _ & Hgt & Heq).
    destruct (lt_eq_lt_dec j' i) as [[Hji|Hji]|Hji]; [pose proof (Hlow u j' c Hu' Uu Hj' Hc' Hji); lia| |specialize (Hgt Hji); lia].
    rewrite (Heq Hji) in Hc'. destruct (number_bit TW lb Hlb b u Hc' Uu) as [H1 H2].
    apply Hkey in Hku; [|done|done].
    destruct (decide (start_value b + j <= u)); [done|]. rewrite Hmin in H2 by lia. done.
  - (* the last number of the bucket is before the key *)
    destruct (last_scan_spec TW lb Hlb nonzero b Hok) as (k & Hkb & _ & Hin & Hmax); [unfold nonzero; lia|].
    set (m := start_value b + k) in *.
    pose proof Hin as [Em Hbm]. assert (Um : inU TW m) by (destruct (bucket_start _ _ _ Hok); split; lia).
    assert (Hmk : m < key).
    { destruct (decide (key <= m)) as [Hkm|]; [|lia]. apply Hkey in Hkm; [|done|done].
      rewrite Em, Hnone in Hbm by lia. done. }
    destruct (next_bucket TW lb Hlb t l X a i b m Hset Ha Hi Hin Um Hmax) as (next & a' & -> & Hnext).
    cbn [mbind option_bind]. destruct next.
    + destruct Hnext as (acc & w & -> & Hat & Hw & Hmw & Hleast). do 2 eexists. split; [done|]. exists w.
      split; [done|]. apply nearest_up; [done| |intros u Hu Hku; apply Hleast; [done|lia]].
      destruct (decide (key <= w)) as [|Hwk]; [done|exfalso].
      pose proof (ts_range _ _ _ _ _ Hset w Hw) as Uw.
      pose proof (base_mono m w Um Uw ltac:(lia)). pose proof (base_mono w key Uw Hk ltac:(lia)).
      assert (Hwb : in_bucket b w) by (apply (in_its_bucket t l X i); [done|done|done|lia]).
      specialize (Hmax w Hwb Uw). lia.
    + do 2 eexists. split; [done|]. intros u Hu Hku. specialize (Hnext u Hu). simpl in Hku. lia.
Qed.

Lemma locate_down_spec key t a l X i b :
  tree_set t l X -> inU TW key -> acc_at t a i -> l !! i = Some b -> start_value b = base key ->
  located locLessEqual key t l X (locate_down TW lb key (base key) t a).
Proof.
  intros Hset Hk Ha Hi E. unfold locate_down.
  pose proof (ts_ok _ _ _ _ _ Hset) as Hall. pose proof (Forall_lookup_1 _ _ _ _ Hall Hi) as Hok.
  destruct (current_spec (key := start_value) t a l i (ts_rep _ _ _ _ _ Hset) Ha) as (c & -> & Hc). simplify_eq.
  cbn [mbind option_bind]. pose proof (BB_pos TW lb Hlb) as HBB. pose proof (scan_fuel_enough TW lb Hlb) as Hfuel.
  pose proof (base_offset TW lb Hlb key Hk) as Hoff.
  pose proof (bucket_end TW lb Hlb _ (bucket_start _ _ _ Hok) (bucket_aligned _ _ _ Hok)) as Hend.
  rewrite decide_True, bunch_bit_pow by done. cbn [fst snd].
  pose proof (scan_down_spec TW lb nonzero (scan_fuel lb) (bits b) (start_value b) (key - base key)
    (bucket_start _ _ _ Hok) Hend Hoff ltac:(lia) ltac:(unfold nonzero; lia)) as Hscan.
  replace (start_value b + (key - base key)) with key in Hscan by lia.
  destruct Hscan as [(j & (Hj & Hjb & Hmax) & ->)|(Hnone & Hfail)]; cbn [mbind option_bind].
  - destruct (bucket_number TW lb Hlb b j Hok ltac:(lia) Hjb) as (Hu & _ & Hin).
    do 2 eexists. split; [done|]. exists (start_value b + j).
    split; [apply (number_at TW lb Hlb t l _ i b j); done || lia|].
    split; [by apply (bucket_set TW lb (tree_rep := tree_rep) t l X _ i b)|]. split; [simpl; lia|].
    intros u Hu' Hku. simpl in Hku |- *.
    destruct (other_number TW lb Hlb t l X i b (start_value b + j) u Hset Hi Hin Hu Hu')
      as (j' & c & Hj' & Hc' & Uu & Hlt & _ & Heq).
    destruct (lt_eq_lt_dec j' i) as [[Hji|Hji]|Hji]; [specialize (Hlt Hji); lia| |].
    + rewrite (Heq Hji) in Hc'. destruct (number_bit TW lb Hlb b u Hc' Uu) as [H1 H2].
      destruct (decide (u <= start_value b + j)); [done|]. rewrite Hmax in H2 by lia. done.
    + exfalso. pose proof (rep_sorted (key := start_value) _ _ (ts_rep _ _ _ _ _ Hset)) as Hs.
      pose proof (sorted_lookup start_value l i j' b c Hs Hji Hi Hj').
      pose proof (base_mono u key Uu Hk Hku). destruct Hc' as [Ec _]. lia.
  - destruct Hfail as [v ->]; [unfold nonzero; tauto|]. cbn [mbind option_bind].
    destruct (first_of_bucket_spec TW lb Hlb t l X a i b Hset Ha Hi) as (_ & m & _ & (_ & _ & _ & _ & _ & Um & _) & Hin & Hmin).
    assert (Hmk : key < m).
    { destruct (number_bit TW lb Hlb b m Hin Um) as [H1 H2].
      destruct (decide (m <= key)); [|lia]. rewrite Hnone in H2 by lia. done. }
    destruct (prev_bucket TW lb Hlb t l X a i b m Hset Ha Hi Hin Um Hmin) as (prev & a' & -> & Hprev).
    cbn [mbind option_bind]. destruct prev.
    + destruct Hprev as (i' & c & Ha' & Hc' & Hp).
      destruct (last_of_bucket_spec TW lb Hlb t l X a' i' c Hset Ha' Hc') as (acc & w & -> & Hat & Hwc & Hmaxc).
      pose proof Hat as (_ & _ & _ & _ & _ & Uw & _).
      destruct (Hp w Hwc Uw Hmaxc) as (Hw & Hwm & Hgreatest). do 2 eexists. split; [done|]. exists w.
      split; [done|]. split; [done|]. simpl. split; [|intros u Hu Hku; apply Hgreatest; [done|lia]].
      destruct (decide (w <= key)) as [|Hwk]; [done|exfalso].
      pose proof (base_mono key w Hk Uw ltac:(lia)). pose proof (base_mono w m Uw Um ltac:(lia)).
      destruct Hin as [Em _].
      assert (Hwb : in_bucket b w) by (apply (in_its_bucket t l X i); [done|done|done|lia]).
      specialize (Hmin w Hwb Uw). lia.
    + do 2 eexists. split; [done|]. intros u Hu Hku. specialize (Hprev u Hu). simpl in Hku. lia.
Qed.

(** ** All relations *)

Definition normal (lt : LocType) : Prop := lt = locEqual \/ lt = locGreatEqual \/ lt = locLessEqual.

Lemma normalize_spec lt key :
  inU TW key ->
  match normalize TW lt key with
  | None => forall u, inU TW u -> ~ loc_rel lt key u
  | Some (lt', key') => inU TW key' /\ normal lt' /\
      (forall u, inU TW u -> loc_rel lt key u <-> loc_rel lt' key' u) /\
      (forall v u, loc_near lt' v u -> loc_near lt v u)
  end.
Proof.
  intros [H0 H1]. assert (Hmax : wrapU TW (Z.lnot 0) = 2 ^ TW - 1).
  { unfold wrapU. change (Z.lnot 0) with (-1). rewrite <- (Z.mod_unique (-1) (2 ^ TW) (-1) (2 ^ TW - 1)); lia. }
  destruct lt; simpl; try (split; [by split|]; split; [unfold normal; tauto|by split; intros]).
  - case_decide; [intros u [Hu _]; lia|]. rewrite wrapU_id by (split; lia).
    split; [split; lia|]. split; [unfold normal; tauto|]. split; [intros u Hu; simpl; lia|done].
  - rewrite Hmax. case_decide; [intros u [_ Hu]; lia|]. rewrite wrapU_id by (split; lia).
    split; [split; lia|]. split; [unfold normal; tauto|]. split; [intros u Hu; simpl; lia|done].
Qed.

(** The bucket that a search downwards needs. *)
Definition bucket_present (lt : LocType) (key : Z) (X : gset Z) : Prop :=
  match normalize TW lt key with
  | Some (locLessEqual, key') => exists w, w ∈ X /\ base w = base key'
  | _ => True
  end.

Lemma sorted_count l i b :
  StronglySorted (by_key start_value) l -> l !! i = Some b ->
  count_before (fun c => start_value b < start_value c) l = S i.
Proof.
  intros Hs Hi. rewrite <- (take_drop (S i) l) at 1. rewrite count_before_app.
  - rewrite length_take. apply lookup_lt_Some in Hi. lia.
  - apply Forall_lookup. intros j c Hj. apply lookup_take_Some in Hj as [Hj Hlt].
    destruct (decide (j = i)) as [->|]; [rewrite Hi in Hj; injection Hj as ->; lia|].
    pose proof (sorted_lookup start_value l j i c b Hs ltac:(lia) Hj Hi). lia.
  - apply Forall_lookup. intros j c Hj. rewrite lookup_drop in Hj.
    apply (sorted_lookup start_value l i (S i + j) b c Hs); [lia|done|done].
Qed.

Lemma locate_tree_spec lt key t a l X :
  tree_set t l X -> inU TW key -> normal lt -> (lt = locLessEqual -> exists w, w ∈ X /\ base w = base key) ->
  exists found a', tree_locate lt (base key) t a = (found, a') /\
    if found : bool then
      located lt key t l X
        (match lt with
         | locEqual => locate_equal lb key (base key) t a'
         | locGreatEqual => locate_up TW lb key (base key) t a'
         | _ => locate_down TW lb key (base key) t a'
         end)
    else forall u, u ∈ X -> ~ loc_rel lt key u.
Proof.
  intros Hset Hk Hn Hdown. pose proof (ts_rep _ _ _ _ _ Hset) as Ht.
  pose proof (rep_sorted (key := start_value) _ _ Ht) as Hs.
  destruct (locate_spec (key := start_value) lt (base key) t a l Ht) as (a' & -> & Ha).
  do 2 eexists. split; [done|]. case_bool_decide as Hf.
  - destruct Hf as [i Hi]. specialize (Ha i Hi). destruct Hn as [->|[->| ->]]; simpl in Hi.
    + apply first_index_Some in Hi as (b & Hb & E & _). by apply (locate_equal_spec key t a' l X i b).
    + apply first_index_Some in Hi as (b & Hb & Hge & Hbefore).
      apply (locate_up_spec key t a' l X i b); [done..|]. intros j c Hj Hlt. specialize (Hbefore j c Hj Hlt). lia.
    + destruct (Hdown eq_refl) as (w & Hw & Ew).
      destruct (set_bucket TW lb t l X w Hset Hw) as (j & b & Hj & [Eb _] & _).
      rewrite <- Ew, Eb, (sorted_count l j b Hs Hj) in Hi. injection Hi as <-.
      apply (locate_down_spec key t a' l X j b); [done..|congruence].
  - intros u Hu Hrel. destruct (set_bucket TW lb t l X u Hset Hu) as (j & b & Hj & [Eb _] & Uu).
    apply eq_None_not_Some in Hf. destruct Hn as [->|[->| ->]]; simpl in Hf, Hrel.
    + apply first_index_None in Hf. apply (Forall_lookup_1 _ _ _ _ Hf) in Hj. apply Hj. congruence.
    + apply first_index_None in Hf. apply (Forall_lookup_1 _ _ _ _ Hf) in Hj. apply Hj.
      rewrite <- Eb. by apply base_mono.
    + destruct (Hdown eq_refl) as (w & Hw & Ew).
      destruct (set_bucket TW lb t l X w Hset Hw) as (j' & b' & Hj' & [Eb' _] & _).
      by rewrite <- Ew, Eb', (sorted_count l j' b' Hs Hj') in Hf.
Qed.

(** [SparseBitmap::Accessor::locate]: on every bitmap and for every relation, the
    accessor is positioned at the nearest number of the set in that relation to the
    key, or the answer is that there is none. For the relations that look downwards,
    the set is a single number or has one in the bucket of the key. *)
Theorem bitmap_locate_correct lt key bm X acc :
  bm_rep bm X -> inU TW key -> (bm_singular bm = true \/ bucket_present lt key X) ->
  exists found acc', accessor_locate TW lb lt key (Some bm) acc = Some (found, acc') /\
    if found : bool then exists v, at_number bm acc' X v /\ nearest lt key X v
    else forall u, u ∈ X -> ~ loc_rel lt key u.
Proof.
  intros Hrep Hk Hdown. unfold accessor_locate. unfold BitmapSet.bm_rep in Hrep. destruct (bm_singular bm) eqn:Es.
  - clear Hdown. destruct Hrep as (_ & -> & Hu). do 2 eexists. split; [done|].
    assert (Hsing : locate_singular lt key (bm_singular_value bm) = true <-> loc_rel lt key (bm_singular_value bm))
      by (destruct lt; simpl; rewrite bool_decide_eq_true; lia).
    destruct (locate_singular _ _ _).
    + exists (bm_singular_value bm). split.
      * split; [by apply elem_of_singleton|]. split; [done|]. by rewrite Es.
      * split; [by apply elem_of_singleton|]. split; [by apply Hsing|]. intros u ->%elem_of_singleton _. by destruct lt; simpl.
    + intros u ->%elem_of_singleton Hrel. by apply Hsing in Hrel.
  - destruct Hdown as [|Hdown]; [done|]. destruct Hrep as [l Hset]. unfold bucket_present in Hdown.
    pose proof (normalize_spec lt key Hk) as Hnorm. destruct (normalize TW lt key) as [[lt' key']|].
    + destruct Hnorm as (Hk' & Hn & Hrel & Hnear).
      destruct (locate_tree_spec lt' key' (bm_tree bm) (ba_tree acc) l X Hset Hk' Hn) as (found & a' & -> & Hf).
      { intros ->. exact Hdown. }
      destruct found; cbn [negb].
      * destruct Hf as (b & acc' & E & Hb). exists b, acc'. split; [by destruct Hn as [->|[->| ->]]|]. destruct b.
        -- destruct Hb as (v & Hat & Hv & Hr & Hmin). exists v. split; [by apply (at_number_at TW lb bm acc' l X)|].
           split; [done|]. split; [apply Hrel; [by apply (ts_range _ _ _ _ _ Hset)|done]|].
           intros u Hu Hru. apply Hnear, Hmin; [done|]. by apply Hrel; [apply (ts_range _ _ _ _ _ Hset)|].
        -- intros u Hu Hru. apply (Hb u Hu). by apply Hrel; [apply (ts_range _ _ _ _ _ Hset)|].
      * do 2 eexists. split; [done|]. intros u Hu Hru. apply (Hf u Hu).
        by apply Hrel; [apply (ts_range _ _ _ _ _ Hset)|].
    + do 2 eexists. split; [done|]. intros u Hu. by apply Hnorm, (ts_range _ _ _ _ _ Hset).
Qed.
End Locate.

Lemma bitmap_locate_correct_witness :
  exists bm, sample_bitmap = Some bm /\
    exists found acc', accessor_locate 32 6 (TO := list_tree start_value) locLess 300 (Some bm)
        (accessor_new (TO := list_tree start_value)) = Some (found, acc') /\
      if found : bool
      then exists v, at_number 32 6 (tree_rep := list_rep start_value) (acc_at := list_at) bm acc' {[5; 300; 70]} v /\
             nearest locLess 300 {[5; 300; 70]} v
      else forall u, u ∈ ({[5; 300; 70]} : gset Z) -> ~ loc_rel locLess 300 u.
Proof.
  eexists. split; [vm_compute; reflexivity|].
  apply (bitmap_locate_correct 32 6 ltac:(lia) (TL := list_tree_laws start_value)).
  - apply sample_bitmap_rep. vm_compute. reflexivity.
  - split; [lia|vm_compute; reflexivity].
  - right. exists 300. split; [set_solver|vm_compute; reflexivity].
Defined.

(** *** Where the code does not do what it means to

    The bucket of 200 is not in the set. The code starts the scan of the bucket
    before it at its last bit, but with its first number: for the greatest number up
    to 200, which is 70, the answer is 7. *)
Example locate_down_wrong :
  (bm ← sample_bitmap;
   '(found, acc) ← accessor_locate 32 6 (TO := list_tree start_value) locLessEqual 200 (Some bm)
                     (accessor_new (TO := list_tree start_value));
   Some (found, ba_value acc)) = Some (true, 7).
Proof. vm_compute. reflexivity. Qed.
