(* ===== verification/BitmapOps.v ===== *)
(** * [SparseBitmap::bit_or] and [bit_and]

    One of the two bitmaps becomes their union or their intersection. *)

From Stdlib Require Import Sorting.Sorted.
From stdpp Require Import gmap.
From S2P Require Import Prelude KeyTree SparseBitmap BitmapSet BitmapWalk.

Section Ops.
Context (TW lb : Z) (Hlb : 0 <= lb <= TW).
Context {Tree Acc : Type} {TO : TreeOps Bucket Tree Acc}.
Context {tree_rep : Tree -> list Bucket -> Prop} {acc_at : Tree -> Acc -> nat -> Prop}.
Context {TL : TreeLaws start_value TO tree_rep acc_at}.

Abbreviation BB := (BUNCH_BITS lb).
Abbreviation base := (bucket_base TW lb).
Abbreviation bucket_ok := (bucket_ok TW lb).
Abbreviation mem_of := (mem_of TW lb).
Abbreviation in_bucket := (in_bucket TW lb).
Abbreviation tree_set := (tree_set TW lb (tree_rep := tree_rep)).
Abbreviation bm_rep := (bm_rep TW lb (tree_rep := tree_rep)).
Abbreviation sorted := (StronglySorted (by_key start_value)).
Implicit Types (bm : Bitmap Tree Acc) (t : Tree) (a : Acc) (st : Combine Tree Acc) (l : list Bucket) (X : gset Z).

(** ** Buckets in order *)

Lemma not_mem_starts l v : Forall (fun b => start_value b <> base v) l -> ~ mem_of l v.
Proof. intros Hl (b & Hb & E & _). by apply (proj1 (Forall_forall _ _) Hl b Hb). Qed.

Lemma mem_drop l i b v : l !! i = Some b -> mem_of (drop i l) v <-> in_bucket b v \/ mem_of (drop (S i) l) v.
Proof. intros Hi. rewrite (drop_S l b i Hi). apply (mem_cons TW lb Hlb). Qed.

Lemma mem_take l i b v : l !! i = Some b -> mem_of (take (S i) l) v <-> mem_of (take i l) v \/ in_bucket b v.
Proof.
  intros Hi. rewrite (take_S_r l i b Hi), (mem_app TW lb Hlb), (mem_cons TW lb Hlb). split; [|tauto].
  intros [?|[?|?%(mem_nil TW lb)]]; [by left|by right|done].
Qed.

Lemma drop_after l i b : sorted l -> l !! i = Some b -> Forall (fun c => start_value b < start_value c) (drop (S i) l).
Proof.
  intros Hs Hi. apply Forall_lookup. intros j c Hj. rewrite lookup_drop in Hj.
  apply (sorted_lookup start_value l i (S i + j) b c Hs); [lia|done|done].
Qed.

Lemma drop_from l i b : sorted l -> l !! i = Some b -> Forall (fun c => start_value b <= start_value c) (drop i l).
Proof.
  intros Hs Hi. rewrite (drop_S l b i Hi). constructor; [done|].
  eapply Forall_impl; [by apply drop_after|]. simpl. lia.
Qed.

Lemma take_delete_at (l : list Bucket) i : (i <= length l)%nat -> take i (delete i l) = take i l.
Proof.
  intros Hi. rewrite delete_take_drop. rewrite <- (length_take_le l i Hi) at 1. apply take_app_length.
Qed.

Lemma delete_length_at (l : list Bucket) i : (i < length l)%nat -> S (length (delete i l)) = length l.
Proof. intros Hi. rewrite delete_take_drop, length_app, length_take, length_drop. lia. Qed.

Lemma drop_delete_at (l : list Bucket) i : (i <= length l)%nat -> drop i (delete i l) = drop (S i) l.
Proof.
  intros Hi. rewrite delete_take_drop. rewrite <- (length_take_le l i Hi) at 1. apply drop_app_length.
Qed.

(** Buckets with the same start *)
Lemma in_or b c v :
  start_value b = start_value c ->
  in_bucket {| start_value := start_value c; bits := Z.lor (bits c) (bits b) |} v <->
  in_bucket c v \/ in_bucket b v.
Proof. intros E. unfold BitmapSet.in_bucket. simpl. rewrite Z.lor_spec, orb_true_iff, E. tauto. Qed.

Lemma in_and b c v :
  start_value b = start_value c ->
  in_bucket {| start_value := start_value c; bits := Z.land (bits c) (bits b) |} v <->
  in_bucket c v /\ in_bucket b v.
Proof. intros E. unfold BitmapSet.in_bucket. simpl. rewrite Z.land_spec, andb_true_iff, E. tauto. Qed.

Lemma or_ok b c :
  bucket_ok b -> bucket_ok c -> bucket_ok {| start_value := start_value c; bits := Z.lor (bits c) (bits b) |}.
Proof.
  intros [_ _ B3 B4] [C1 C2 C3 C4]. pose proof (BB_pos TW lb Hlb).
  split; simpl; [done|done|apply inU_lor; [lia|done|done]|]. intros E%Z.lor_eq_0_iff. tauto.
Qed.

Lemma and_ok b c :
  bucket_ok c -> Z.land (bits c) (bits b) <> 0 ->
  bucket_ok {| start_value := start_value c; bits := Z.land (bits c) (bits b) |}.
Proof.
  intros [C1 C2 C3 C4] Hne. pose proof (BB_pos TW lb Hlb).
  split; simpl; [done|done|apply inU_land; [lia|done]|done].
Qed.

(** ** The source *)

Section Source.
Context (source : Tree) (ls : list Bucket) (Hls : tree_rep source ls) (Hlsok : Forall bucket_ok ls).

Lemma ls_sorted : sorted ls.
Proof. by apply (rep_sorted (key := start_value) source). Qed.

(** [sourceFound], [sourceValue] and the accessor are those of item [j]; the same
    for the destination. *)
Definition source_at (st : Combine Tree Acc) (j : nat) : Prop :=
  if cb_sourceFound st then
    acc_at source (cb_sourceAcc st) j /\ exists b, ls !! j = Some b /\ cb_sourceValue st = start_value b
  else ls !! j = None.

Definition dest_at (st : Combine Tree Acc) (l : list Bucket) (i : nat) : Prop :=
  if cb_destFound st then exists c, l !! i = Some c /\ cb_destValue st = start_value c
  else i = length l.

Definition dest_acc (st : Combine Tree Acc) (i : nat) : Prop :=
  cb_destFound st = true -> acc_at (cb_dest st) (cb_destAcc st) i.

Lemma source_next_spec st j :
  cb_sourceFound st = true -> acc_at source (cb_sourceAcc st) j ->
  exists a found value, source_next source st =
      Some {| cb_dest := cb_dest st; cb_destAcc := cb_destAcc st; cb_destFound := cb_destFound st;
              cb_destValue := cb_destValue st; cb_sourceAcc := a; cb_sourceFound := found;
              cb_sourceValue := value |} /\
    source_at {| cb_dest := cb_dest st; cb_destAcc := cb_destAcc st; cb_destFound := cb_destFound st;
              cb_destValue := cb_destValue st; cb_sourceAcc := a; cb_sourceFound := found;
              cb_sourceValue := value |} (S j).
Proof.
  intros Hf Ha. unfold source_next.
  destruct (next_spec (key := start_value) source (cb_sourceAcc st) ls j Hls Ha) as (a' & -> & Ha').
  cbn [mbind option_bind]. case_bool_decide as Hlt.
  - rewrite decide_True in Ha' by done.
    destruct (current_spec (key := start_value) source a' ls (S j) Hls Ha') as (c & -> & Hc).
    simpl. do 3 eexists. split; [done|]. split; [done|]. by exists c.
  - simpl. do 3 eexists. split; [done|]. apply lookup_ge_None. lia.
Qed.

(** [getNext] of the destination *)
Lemma dest_next_spec st l i :
  cb_destFound st = true -> tree_rep (cb_dest st) l -> (i < length l)%nat -> dest_acc st i ->
  exists st', dest_next st = Some st' /\ cb_dest st' = cb_dest st /\ dest_at st' l (S i) /\ dest_acc st' (S i) /\
    cb_sourceAcc st' = cb_sourceAcc st /\ cb_sourceFound st' = cb_sourceFound st /\
    cb_sourceValue st' = cb_sourceValue st.
Proof.
  intros Hf Ht Hi Ha. specialize (Ha Hf). unfold dest_next.
  destruct (next_spec (key := start_value) _ _ l i Ht Ha) as (a' & -> & Ha').
  cbn [mbind option_bind]. unfold dest_moved. case_bool_decide as Hlt.
  - rewrite decide_True in Ha' by done.
    destruct (current_spec (key := start_value) _ a' l (S i) Ht Ha') as (c & -> & Hc).
    simpl. eexists. split; [done|]. split; [done|]. split; [by exists c|]. split; [by intros ?|done].
  - simpl. eexists. split; [done|]. split; [done|]. split; [unfold dest_at; simpl; lia|]. by split.
Qed.

(** [bits |=] and [bits &=] *)
Lemma merge_bits_spec op st l i c b j :
  tree_rep (cb_dest st) l -> acc_at (cb_dest st) (cb_destAcc st) i -> l !! i = Some c ->
  acc_at source (cb_sourceAcc st) j -> ls !! j = Some b ->
  exists t, merge_bits source op st = Some (set_dest st t (cb_destAcc st)) /\ acc_at t (cb_destAcc st) i /\
    tree_rep t (<[i := {| start_value := start_value c; bits := op (bits c) (bits b) |}]> l).
Proof.
  intros Ht Ha Hc Hsa Hb. unfold merge_bits.
  destruct (current_spec (key := start_value) source (cb_sourceAcc st) ls j Hls Hsa) as (b' & -> & Hb').
  rewrite Hb in Hb'. injection Hb' as <-. cbn [mbind option_bind].
  destruct (change_bits_spec (acc_at := acc_at) (tree_rep := tree_rep) (fun x => op x (bits b)) _ _ l i c Ht Ha Hc) as (t & -> & Ht1 & Ht2).
  by exists t.
Qed.

Lemma locate_at t a l i c :
  tree_rep t l -> l !! i = Some c ->
  exists a', tree_locate locEqual (start_value c) t a = (true, a') /\ acc_at t a' i.
Proof.
  intros Ht Hc. destruct (locate_spec (key := start_value) locEqual (start_value c) t a l Ht) as (a' & -> & Ha').
  assert (E : loc_index start_value locEqual (start_value c) l = Some i).
  { apply first_index_Some. exists c. split; [done|]. split; [done|]. intros m w Hw Hlt Ew.
    pose proof (sorted_inj _ _ _ _ _ _ (rep_sorted (key := start_value) _ _ Ht) Hw Hc Ew). lia. }
  exists a'. rewrite E. split; [done|by apply Ha'].
Qed.

(** ** Union *)

Section Loops.
(** The numbers of the result *)
Context (R : Z -> Prop).

(** The result of a loop *)
Definition combined (st : Combine Tree Acc) : Prop :=
  exists l, tree_rep (cb_dest st) l /\ Forall bucket_ok l /\ forall v, mem_of l v <-> R v.

(** What was done so far: the destination is [l], of which [i] items are before the
    rest of the source. *)
Record or_inv (t : Tree) (l : list Bucket) (i j : nat) : Prop := {
  oi_rep : tree_rep t l;
  oi_ok : Forall bucket_ok l;
  oi_mem v : mem_of l v \/ mem_of (drop j ls) v <-> R v;
  oi_before m d b : (m < i)%nat -> l !! m = Some d -> ls !! j = Some b -> start_value d < start_value b;
  oi_index : (i <= length l)%nat
}.

(** An item before the next one of the source is skipped. *)
Lemma or_inv_skip t l i j c :
  or_inv t l i j -> l !! i = Some c -> (forall b, ls !! j = Some b -> start_value c < start_value b) ->
  or_inv t l (S i) j.
Proof.
  intros [Ht Hok Hmem Hbefore Hi] Hc Hlt. pose proof (lookup_lt_Some _ _ _ Hc). split; [done|done|done| |lia].
  intros m d b Hm Hd Hb. destruct (decide (m = i)) as [->|]; [|by apply (Hbefore m d b); [lia|..]].
  simplify_eq. by apply Hlt.
Qed.

(** The bits of the next item of the source are merged. *)
Lemma or_inv_merge t t' l i j b c :
  or_inv t l i j -> l !! i = Some c -> ls !! j = Some b -> start_value c = start_value b ->
  tree_rep t' (<[i := {| start_value := start_value c; bits := Z.lor (bits c) (bits b) |}]> l) ->
  or_inv t' (<[i := {| start_value := start_value c; bits := Z.lor (bits c) (bits b) |}]> l) (S i) (S j).
Proof.
  intros [Ht Hok Hmem Hbefore Hi] Hc Hb E Ht'. pose proof (lookup_lt_Some _ _ _ Hc). split.
  - done.
  - apply Forall_insert; [done|]. apply or_ok; [exact (Forall_lookup_1 _ _ _ _ Hlsok Hb)|exact (Forall_lookup_1 _ _ _ _ Hok Hc)].
  - intros v. rewrite <- (Hmem v), (mem_drop ls j b), (mem_split TW lb Hlb l i c),
      (mem_replace TW lb Hlb l i c), in_or by done. tauto.
  - intros m d b' Hm Hd Hb'. pose proof (sorted_lookup start_value ls j (S j) b b' ls_sorted ltac:(lia) Hb Hb').
    destruct (decide (m = i)) as [->|].
    + rewrite list_lookup_insert_eq in Hd by done. injection Hd as <-. simpl. lia.
    + rewrite list_lookup_insert_ne in Hd by done. specialize (Hbefore m d b ltac:(lia) Hd Hb). lia.
  - rewrite length_insert. lia.
Qed.

(** The next item of the source is added before item [i]. *)
Lemma add_source_spec st l i j :
  or_inv (cb_dest st) l i j -> acc_at source (cb_sourceAcc st) j -> (j < length ls)%nat ->
  (forall b c, ls !! j = Some b -> l !! i = Some c -> start_value b < start_value c) ->
  exists t a b, add_source source st = Some (set_dest st t a) /\
    or_inv t (take i l ++ b :: drop i l) (S i) (S j).
Proof.
  intros [Ht Hok Hmem Hbefore Hi] Ha Hj Hgt. unfold add_source.
  destruct (current_spec (key := start_value) source (cb_sourceAcc st) ls j Hls Ha) as (b & -> & Hb).
  cbn [mbind option_bind]. pose proof (rep_sorted (key := start_value) _ _ Ht) as Hs.
  assert (H1 : Forall (fun w => start_value w < start_value b) (take i l)).
  { apply Forall_lookup. intros m d Hm. apply lookup_take_Some in Hm as [Hm Hlt]. by apply (Hbefore m d b). }
  assert (H2 : Forall (fun w => start_value b < start_value w) (drop i l)).
  { destruct (l !! i) as [c|] eqn:Ec; [|apply lookup_ge_None in Ec; rewrite drop_ge by done; constructor].
    specialize (Hgt b c Hb eq_refl). eapply Forall_impl; [by apply (drop_from l i c)|]. simpl. lia. }
  destruct (add_new (key := start_value) b (cb_dest st) (cb_destAcc st) (take i l) (drop i l)) as (t' & a' & -> & Ht');
    [by rewrite take_drop|done|done|].
  exists t', a', b. split; [done|]. assert (Hlen : length (take i l) = i) by (rewrite length_take; lia). split.
  - done.
  - apply Forall_app. split; [by apply Forall_take|]. constructor; [|by apply Forall_drop].
    exact (Forall_lookup_1 _ _ _ _ Hlsok Hb).
  - intros v. rewrite <- (Hmem v), (mem_drop ls j b) by done. rewrite (mem_middle TW lb Hlb), take_drop. tauto.
  - intros m d c Hm Hd Hc. pose proof (sorted_lookup start_value ls j (S j) b c ls_sorted ltac:(lia) Hb Hc).
    destruct (decide (m = i)) as [->|].
    + rewrite list_lookup_middle in Hd by done. injection Hd as <-. lia.
    + rewrite lookup_app_l in Hd by lia. apply lookup_take_Some in Hd as [Hd _].
      specialize (Hbefore m d b ltac:(lia) Hd Hb). lia.
  - rewrite length_app, Hlen. simpl. lia.
Qed.

Lemma or_inv_done st l i j : or_inv (cb_dest st) l i j -> (length ls <= j)%nat -> combined st.
Proof.
  intros [Ht Hok Hmem _ _] Hj. exists l. split; [done|]. split; [done|]. intros v.
  rewrite <- (Hmem v), drop_ge by done. pose proof (mem_nil TW lb v). tauto.
Qed.

Lemma or_rest_spec fuel st l j :
  or_inv (cb_dest st) l (length l) j -> acc_at source (cb_sourceAcc st) j ->
  (j < length ls)%nat -> (length ls - j < fuel)%nat ->
  exists st', or_rest source fuel st = Some st' /\ combined st'.
Proof.
  revert st l j. induction fuel as [|fuel IH]; intros st l j Hinv Ha Hj Hfuel; [lia|]. cbn [or_rest].
  destruct (add_source_spec st l (length l) j Hinv Ha Hj) as (t & a & b & -> & Hinv').
  { intros b c _ Hc%lookup_lt_Some. lia. }
  rewrite take_ge, drop_ge in Hinv' by done. cbn [mbind option_bind].
  destruct (next_spec (key := start_value) source (cb_sourceAcc st) ls j Hls Ha) as (a' & Hn & Ha').
  cbn [set_dest cb_sourceAcc]. rewrite Hn. cbn [mbind option_bind]. case_bool_decide as Hlt.
  - rewrite decide_True in Ha' by done.
    apply (IH _ (l ++ [b]) (S j)); [|done|lia|lia]. rewrite length_app. simpl. by rewrite Nat.add_1_r.
  - eexists. split; [done|]. apply (or_inv_done _ (l ++ [b]) (S (length l)) (S j)); [done|lia].
Qed.

(** The state between the rounds of the loop *)
Record or_state (st : Combine Tree Acc) (l : list Bucket) (i j : nat) : Prop := {
  os_inv : or_inv (cb_dest st) l i j;
  os_source : source_at st j;
  os_dest : dest_at st l i;
  os_acc : cb_sourceFound st = true -> dest_acc st i
}.

Lemma or_row_spec fuel st l i j c :
  or_inv (cb_dest st) l i j -> acc_at source (cb_sourceAcc st) j -> cb_sourceFound st = true ->
  cb_destFound st = true -> l !! i = Some c -> cb_destValue st = start_value c ->
  (forall b, ls !! j = Some b -> start_value b < start_value c) ->
  (j < length ls)%nat -> (length ls - j < fuel)%nat ->
  exists st' l' i' j', or_row source fuel st = Some st' /\ or_state st' l' i' j' /\ (j < j')%nat /\
    (length l' - i' = length l - i)%nat.
Proof.
  revert st l i j. induction fuel as [|fuel IH]; intros st l i j Hinv Ha Hsf Hdf Hc Hv Hgt Hj Hfuel; [lia|].
  cbn [or_row]. destruct (add_source_spec st l i j Hinv Ha Hj) as (t & a & b & -> & Hinv').
  { intros b c' Hb Hc'. simplify_eq. by apply Hgt. }
  cbn [mbind option_bind].
  destruct (source_next_spec (set_dest st t a) j Hsf Ha) as (a' & found & value & -> & Hat).
  cbn [mbind option_bind cb_sourceFound]. pose proof (oi_index _ _ _ _ Hinv) as Hi.
  assert (Hlen : length (take i l) = i) by (rewrite length_take; lia).
  assert (Hc' : (take i l ++ b :: drop i l) !! S i = Some c).
  { rewrite lookup_app_r by lia. rewrite Hlen. replace (S i - i)%nat with 1%nat by lia. simpl.
    by rewrite lookup_drop, Nat.add_0_r. }
  assert (Hsame : (length (take i l ++ b :: drop i l) - S i = length l - i)%nat).
  { rewrite length_app, Hlen. simpl. rewrite length_drop. lia. }
  assert (Hdest : forall st', cb_destFound st' = true -> cb_destValue st' = cb_destValue st ->
                              dest_at st' (take i l ++ b :: drop i l) (S i)).
  { intros st' H1 H2. unfold dest_at. rewrite H1, H2. by exists c. }
  destruct found; cbn [negb cb_destValue cb_sourceValue cb_dest cb_destAcc set_dest].
  2:{ do 4 eexists. split; [done|]. split; [|split; [|exact Hsame]]; [|apply Nat.lt_succ_diag_r].
      split; [exact Hinv'|exact Hat|by apply Hdest|done]. }
  pose proof Hat as (Ha' & b' & Hb' & Hval). simpl in Ha', Hval. case_decide as Hle.
  - rewrite Hv. destruct (locate_at t a _ (S i) c (oi_rep _ _ _ _ Hinv') Hc') as (a2 & -> & Ha2).
    do 4 eexists. split; [done|]. split; [|split; [|exact Hsame]]; [|apply Nat.lt_succ_diag_r].
    split; [exact Hinv'|exact Hat|by apply Hdest|by intros _ _].
  - match goal with |- context [or_row source fuel ?s] =>
      destruct (IH s (take i l ++ b :: drop i l) (S i) (S j)) as (st' & l' & i' & j' & E & Hst & Hlt & Hl) end.
    + done.
    + done.
    + done.
    + done.
    + done.
    + done.
    + intros w Hw. simplify_eq. lia.
    + by eapply lookup_lt_Some.
    + lia.
    + exists st', l', i', j'. split; [done|]. split; [done|]. lia.
Qed.

Lemma or_loop_spec fuel st l i j :
  or_state st l i j -> ((length l - i) + (length ls - j) < fuel)%nat ->
  exists st', or_loop source fuel st = Some st' /\ combined st'.
Proof.
  revert st l i j. induction fuel as [|fuel IH]; intros st l i j [Hinv Hsrc Hdest Hacc] Hfuel; [lia|].
  cbn [or_loop]. pose proof Hsrc as Hsrc'. pose proof Hdest as Hdest'.
  unfold source_at in Hsrc'. unfold dest_at in Hdest'. destruct (cb_sourceFound st) eqn:Hsf.
  2:{ exists st. split; [done|]. apply (or_inv_done _ l i j); [done|]. by apply lookup_ge_None. }
  specialize (Hacc eq_refl). destruct Hsrc' as (Ha & b & Hb & Hbv). pose proof (lookup_lt_Some _ _ _ Hb).
  destruct (cb_destFound st) eqn:Hdf.
  2:{ subst i. by apply or_rest_spec with (l := l) (j := j); [..|lia]. }
  destruct Hdest' as (c & Hc & Hcv). pose proof (lookup_lt_Some _ _ _ Hc). case_decide as Hlt.
  - destruct (dest_next_spec st l i Hdf (oi_rep _ _ _ _ Hinv)) as (st' & -> & Ed & Hdest2 & Hacc2 & E1 & E2 & E3); [done|done|].
    apply (IH st' l (S i) j); [|lia]. split.
    + rewrite Ed. apply (or_inv_skip _ l i j c); [done|done|]. intros b' Hb'. simplify_eq. lia.
    + unfold source_at. by rewrite E1, E2, E3, Hsf; split; [|exists b].
    + done.
    + by intros _.
  - case_decide as Heq.
    + destruct (merge_bits_spec Z.lor st l i c b j (oi_rep _ _ _ _ Hinv)) as (t & -> & Hta & Ht); [by apply Hacc|done|done|done|].
      cbn [mbind option_bind]. set (st1 := set_dest st t (cb_destAcc st)).
      destruct (dest_next_spec st1 _ i Hdf Ht) as (st2 & -> & Ed & Hdest2 & Hacc2 & E1 & E2 & E3);
        [by rewrite length_insert|by intros _|].
      cbn [mbind option_bind]. destruct (source_next_spec st2 j) as (a' & found & value & -> & Hat);
        [by rewrite E2|by rewrite E1|].
      cbn [mbind option_bind]. apply (IH _ (<[i := {| start_value := start_value c; bits := Z.lor (bits c) (bits b) |}]> l) (S i) (S j));
        [|rewrite length_insert; lia]. split.
      * simpl. rewrite Ed. apply (or_inv_merge (cb_dest st)); [done|done|done|congruence|done].
      * done.
      * done.
      * by intros _.
    + destruct (or_row_spec (S fuel) st l i j c) as (st' & l' & i' & j' & -> & Hst & Hj' & Hl');
        [done..| |done|lia|].
      { intros b' Hb'. simplify_eq. lia. }
      apply (IH st' l' i' j'); [done|lia].
Qed.

(** ** Intersection *)

Lemma in_not_mem c l v : in_bucket c v -> Forall (fun b => start_value c < start_value b) l -> ~ mem_of l v.
Proof.
  intros [E _] Hl. apply not_mem_starts. eapply Forall_impl; [exact Hl|]. simpl. intros b. lia.
Qed.

(** What was done so far: of the destination [l] the first [i] items are final, the rest
    is for what the source has from item [j] on. *)
Record and_inv (t : Tree) (l : list Bucket) (i j : nat) : Prop := {
  ai_rep : tree_rep t l;
  ai_ok : Forall bucket_ok l;
  ai_mem v : mem_of (take i l) v \/ mem_of (drop i l) v /\ mem_of (drop j ls) v <-> R v;
  ai_index : (i <= length l)%nat
}.

(** An item of the source is skipped. *)
Lemma and_inv_skip t l i j b :
  and_inv t l i j -> ls !! j = Some b -> Forall (fun c => start_value b < start_value c) (drop i l) ->
  and_inv t l i (S j).
Proof.
  intros [Ht Hok Hmem Hi] Hb Hlt. split; [done|done| |done]. intros v.
  rewrite <- (Hmem v), (mem_drop ls j b) by done. pose proof (in_not_mem b (drop i l) v). tauto.
Qed.

(** An item of the destination is removed. *)
Lemma and_inv_remove t t' l i j c :
  and_inv t l i j -> l !! i = Some c -> (forall v, in_bucket c v -> ~ mem_of (drop j ls) v) ->
  tree_rep t' (delete i l) -> and_inv t' (delete i l) i j.
Proof.
  intros [Ht Hok Hmem Hi] Hc Hno Ht'. split.
  - done.
  - by apply Forall_delete.
  - intros v. rewrite <- (Hmem v), (mem_drop l i c), take_delete_at, drop_delete_at by done.
    pose proof (Hno v). tauto.
  - rewrite delete_take_drop, length_app, length_take. lia.
Qed.

(** The bits of an item of both are merged. *)
Lemma and_inv_merge t t' l i j b c :
  and_inv t l i j -> l !! i = Some c -> ls !! j = Some b -> start_value c = start_value b ->
  Z.land (bits c) (bits b) <> 0 ->
  tree_rep t' (<[i := {| start_value := start_value c; bits := Z.land (bits c) (bits b) |}]> l) ->
  and_inv t' (<[i := {| start_value := start_value c; bits := Z.land (bits c) (bits b) |}]> l) (S i) (S j).
Proof.
  intros [Ht Hok Hmem Hi] Hc Hb E Hne Ht'. pose proof (lookup_lt_Some _ _ _ Hc) as Hlt. split.
  - done.
  - apply Forall_insert; [done|]. apply and_ok; [|done]. exact (Forall_lookup_1 _ _ _ _ Hok Hc).
  - intros v. rewrite <- (Hmem v), (mem_drop ls j b), (mem_drop l i c) by done.
    rewrite (mem_take _ i _ v (list_lookup_insert_eq _ _ _ Hlt)), take_insert_ge, drop_insert_lt, in_and by (done || lia).
    pose proof (in_not_mem c (drop (S j) ls) v) as H1. pose proof (in_not_mem b (drop (S i) l) v) as H2.
    pose proof (drop_after ls j b ls_sorted Hb) as H3.
    pose proof (drop_after l i c (rep_sorted (key := start_value) _ _ Ht) Hc) as H4. rewrite E in H1, H4. tauto.
  - rewrite length_insert. lia.
Qed.

(** An item of both without a common bit is removed. *)
Lemma and_inv_clear t t' l i j b c :
  and_inv t l i j -> l !! i = Some c -> ls !! j = Some b -> start_value c = start_value b ->
  Z.land (bits c) (bits b) = 0 -> tree_rep t' (delete i l) -> and_inv t' (delete i l) i (S j).
Proof.
  intros Hinv Hc Hb E Hz Ht'. pose proof Hinv as [Ht _ _ Hi]. apply (and_inv_skip _ _ i j b); [|done|].
  - apply (and_inv_remove t _ l i j c); [done|done| |done].
    intros v Hcv. rewrite (mem_drop ls j b) by done. intros [Hbv|Hm].
    + destruct Hcv as [_ B1], Hbv as [_ B2]. apply (f_equal (fun z => Z.testbit z (v - base v))) in Hz.
      by rewrite Z.land_spec, B1, B2, Z.bits_0 in Hz.
    + apply (in_not_mem c _ v Hcv) in Hm; [done|]. rewrite E. by apply drop_after; [apply ls_sorted|].
  - rewrite drop_delete_at, <- E by done. by apply drop_after; [apply (rep_sorted (key := start_value) t)|].
Qed.

(** [fastRemove] of the destination *)
Lemma dest_remove_spec st l i :
  tree_rep (cb_dest st) l -> (i < length l)%nat -> acc_at (cb_dest st) (cb_destAcc st) i ->
  exists st', dest_remove st = Some st' /\ tree_rep (cb_dest st') (delete i l) /\
    dest_at st' (delete i l) i /\ dest_acc st' i /\
    cb_sourceAcc st' = cb_sourceAcc st /\ cb_sourceFound st' = cb_sourceFound st /\
    cb_sourceValue st' = cb_sourceValue st.
Proof.
  intros Ht Hi Ha. unfold dest_remove.
  destruct (remove_spec (key := start_value) _ _ l i Ht Ha) as (t' & a' & -> & Ht' & Ha').
  cbn [mbind option_bind]. unfold dest_moved. case_bool_decide as Hlt.
  - specialize (Ha' Hlt). cbn [set_dest cb_dest].
    destruct (current_spec (key := start_value) t' a' _ i Ht' Ha') as (c & -> & Hc).
    simpl. eexists. split; [done|]. split; [done|]. split; [by exists c|]. split; [by intros ?|done].
  - simpl. eexists. split; [done|]. split; [done|].
    split; [unfold dest_at; simpl; pose proof (delete_length_at l i Hi); lia|]. by split.
Qed.

Lemma and_trim_spec fuel st l i :
  tree_rep (cb_dest st) l -> (i < length l)%nat -> acc_at (cb_dest st) (cb_destAcc st) i -> (length l - i < fuel)%nat ->
  exists st', and_trim fuel st = Some st' /\ tree_rep (cb_dest st') (take i l).
Proof.
  revert st l. induction fuel as [|fuel IH]; intros st l Ht Hi Ha Hfuel; [lia|]. cbn [and_trim].
  destruct (remove_spec (key := start_value) _ _ l i Ht Ha) as (t' & a' & -> & Ht' & Ha').
  cbn [mbind option_bind]. pose proof (take_delete_at l i ltac:(lia)) as E.
  pose proof (delete_length_at l i Hi) as Hlen. case_bool_decide as Hlt.
  - destruct (IH (set_dest st t' a') (delete i l)) as (st' & -> & Hst'); [done|lia|by apply Ha'|lia|].
    exists st'. by rewrite <- E.
  - eexists. split; [done|]. rewrite <- E. by rewrite take_ge by lia.
Qed.

Lemma and_loop_spec fuel st l i j :
  and_inv (cb_dest st) l i j -> source_at st j -> dest_at st l i -> dest_acc st i ->
  ((length l - i) + (length ls - j) < fuel)%nat ->
  exists st', and_loop source fuel st = Some st' /\ combined st'.
Proof.
  revert st l i j. induction fuel as [|fuel IH]; intros st l i j Hinv Hsrc Hdest Hacc Hfuel; [lia|].
  cbn [and_loop]. pose proof Hinv as [Ht Hok Hmem Hi].
  pose proof Hsrc as Hsrc'. pose proof Hdest as Hdest'. unfold source_at in Hsrc'. unfold dest_at in Hdest'.
  destruct (cb_destFound st) eqn:Hdf.
  2:{ exists st. split; [done|]. exists l. split; [done|]. split; [done|]. intros v. rewrite <- (Hmem v). subst i.
      rewrite take_ge, drop_ge by done. pose proof (mem_nil TW lb v). tauto. }
  specialize (Hacc Hdf). destruct Hdest' as (c & Hc & Hcv). pose proof (lookup_lt_Some _ _ _ Hc) as Hil.
  pose proof (rep_sorted (key := start_value) _ _ Ht) as Hs.
  destruct (cb_sourceFound st) eqn:Hsf.
  2:{ destruct (and_trim_spec (S fuel) st l i) as (st' & -> & Ht'); [done..|lia|].
      exists st'. split; [done|]. exists (take i l). split; [done|]. split; [by apply Forall_take|].
      intros v. rewrite <- (Hmem v), (drop_ge ls) by by apply lookup_ge_None. pose proof (mem_nil TW lb v). tauto. }
  destruct Hsrc' as (Ha & b & Hb & Hbv). pose proof (lookup_lt_Some _ _ _ Hb) as Hjl. case_decide as Hlt.
  - destruct (source_next_spec st j Hsf Ha) as (a' & found & value & -> & Hat). cbn [mbind option_bind].
    apply (IH _ l i (S j)); [|done|done|by intros _|lia]. apply (and_inv_skip _ l i j b); [done|done|].
    eapply Forall_impl; [by apply (drop_from l i c)|]. simpl. lia.
  - case_decide as Heq.
    + assert (E : start_value c = start_value b) by congruence.
      destruct (merge_bits_spec Z.land st l i c b j Ht Hacc Hc Ha Hb) as (t & -> & Hta & Ht').
      cbn [mbind option_bind]. set (st1 := set_dest st t (cb_destAcc st)).
      destruct (current_spec (key := start_value) _ _ _ _ Ht' Hta) as (c' & Hcur & Hc').
      rewrite list_lookup_insert_eq in Hc' by done. injection Hc' as <-.
      change (tree_current (cb_dest st1) (cb_destAcc st1)) with (tree_current t (cb_destAcc st)). rewrite Hcur.
      cbn [mbind option_bind bits]. case_decide as Hz.
      * destruct (dest_next_spec st1 _ i Hdf Ht') as (st2 & -> & Ed & Hdest2 & Hacc2 & E1 & E2 & E3);
          [by rewrite length_insert|by intros _|].
        cbn [mbind option_bind]. destruct (source_next_spec st2 j) as (a' & found & value & -> & Hat);
          [by rewrite E2|by rewrite E1|].
        cbn [mbind option_bind].
        apply (IH _ (<[i := {| start_value := start_value c; bits := Z.land (bits c) (bits b) |}]> l) (S i) (S j));
          [|done|done|done|rewrite length_insert; lia].
        simpl. rewrite Ed. by apply (and_inv_merge (cb_dest st)).
      * destruct (dest_remove_spec st1 _ i Ht') as (st2 & -> & Ht2 & Hdest2 & Hacc2 & E1 & E2 & E3);
          [by rewrite length_insert|done|].
        cbn [mbind option_bind]. destruct (source_next_spec st2 j) as (a' & found & value & -> & Hat);
          [by rewrite E2|by rewrite E1|].
        cbn [mbind option_bind].
        rewrite delete_take_drop, take_insert_ge, drop_insert_lt, <- delete_take_drop in Ht2, Hdest2 by lia.
        apply (IH _ (delete i l) i (S j)); [|done|done|done|].
        -- by apply (and_inv_clear (cb_dest st) _ l i j b c).
        -- pose proof (delete_length_at l i Hil). lia.
    + destruct (dest_remove_spec st l i Ht Hil Hacc) as (st2 & -> & Ht2 & Hdest2 & Hacc2 & E1 & E2 & E3).
      cbn [mbind option_bind]. apply (IH _ (delete i l) i j); [| |done|done|].
      * apply (and_inv_remove (cb_dest st) _ l i j c); [done|done| |done]. intros v Hcv'.
        apply (in_not_mem c); [done|]. eapply Forall_impl; [by apply (drop_from ls j b); [apply ls_sorted|]|]. simpl. lia.
      * unfold source_at. by rewrite E1, E2, E3, Hsf; split; [|exists b].
      * pose proof (delete_length_at l i Hil). lia.
Qed.
End Loops.
End Source.

(** ** Whole bitmaps *)

(** The numbers of an optional bitmap: [NULL] has none. *)
Definition opt_rep (bm : option (Bitmap Tree Acc)) (X : gset Z) : Prop :=
  match bm with None => X = ∅ | Some bm => bm_rep bm X end.

Definition pick (w : Which) (b1 b2 : option (Bitmap Tree Acc)) : option (Bitmap Tree Acc) :=
  match w with First => b1 | Second => b2 end.

Lemma combined_set (P : Z -> Prop) st X :
  combined P st -> (forall v, v ∈ X -> inU TW v) -> (forall v, inU TW v -> v ∈ X <-> P v) ->
  exists l, tree_set (cb_dest st) l X.
Proof.
  intros (l & Ht & Hok & Hmem) Hr HX. exists l. split; [done|done|done|]. intros v Hv. by rewrite HX, Hmem.
Qed.

Section Trees.
Context (dest source : Bitmap Tree Acc) (ld ls : list Bucket) (X Y : gset Z) (Hns : bm_singular dest = false).
Context (Hd : tree_set (bm_tree dest) ld X) (Hs : tree_set (bm_tree source) ls Y).

Lemma trees_first a t l W :
  tree_set t l W -> exists a', tree_getFirst t a = (bool_decide (l <> []), a') /\ (l <> [] -> acc_at t a' 0%nat).
Proof. intros H. apply (first_spec (key := start_value) t a l (ts_rep TW lb _ _ _ H)). Qed.

(** The state that [combine] starts with *)
Lemma combine_spec loop (P : Z -> Prop) XY da sa :
  (forall v, v ∈ XY -> inU TW v) -> (forall v, inU TW v -> v ∈ XY <-> P v) ->
  ld <> [] -> ls <> [] -> acc_at (bm_tree dest) da 0%nat -> acc_at (bm_tree source) sa 0%nat ->
  (forall st, cb_dest st = bm_tree dest -> source_at (bm_tree source) ls st 0 -> dest_at st ld 0 -> dest_acc st 0 ->
     exists st', loop (bm_tree source) st = Some st' /\ combined P st') ->
  exists dest' source', combine loop dest source da sa = Some (dest', source') /\
    bm_singular dest' = false /\ exists l, tree_set (bm_tree dest') l XY.
Proof.
  intros Hr HP Hld Hnls Hda Hsa Hloop. unfold combine.
  destruct (current_spec (key := start_value) _ _ _ _ (ts_rep TW lb _ _ _ Hd) Hda) as (d & -> & Hd0).
  destruct (current_spec (key := start_value) _ _ _ _ (ts_rep TW lb _ _ _ Hs) Hsa) as (c & -> & Hc0).
  cbn [mbind option_bind]. match goal with |- context [loop _ ?s] => destruct (Hloop s) as (st' & -> & Hst') end.
  - done.
  - split; [done|]. by exists c.
  - by exists d.
  - by intros _.
  - do 2 eexists. split; [done|]. split; [done|]. exact (combined_set P st' XY Hst' Hr HP).
Qed.

Lemma or_trees_spec fuel :
  (ld = [] -> ls = []) -> (length ld + length ls < fuel)%nat ->
  exists dest' source', or_trees fuel dest source = Some (dest', source') /\
    bm_singular dest' = false /\ exists l, tree_set (bm_tree dest') l (X ∪ Y).
Proof.
  intros Hempty Hfuel. unfold or_trees.
  destruct (trees_first (bm_acc source) _ _ _ Hs) as (sa & -> & Hsa). case_bool_decide as Hnls; cbn [negb].
  2:{ do 2 eexists. split; [done|]. split; [done|]. exists ld.
      enough (Y = ∅) as -> by by rewrite union_empty_r_L. apply elem_of_equiv_empty_L. intros v Hv.
      apply (tree_set_range_mem TW lb _ _ _ _ Hs) in Hv. subst ls. by apply mem_nil in Hv. }
  destruct (trees_first (bm_acc dest) _ _ _ Hd) as (da & -> & Hda).
  rewrite bool_decide_eq_true_2 by tauto. cbn [negb].
  assert (Hld : ld <> []) by tauto. pose proof (rep_sorted (key := start_value) _ _ (ts_rep TW lb _ _ _ Hd)).
  apply (combine_spec _ (fun v => mem_of ld v \/ mem_of ls v)).
  - intros v [Hv|Hv]%elem_of_union; [by apply (ts_range TW lb _ _ _ Hd)|by apply (ts_range TW lb _ _ _ Hs)].
  - intros v Hv. by rewrite elem_of_union, (ts_mem TW lb _ _ _ Hd), (ts_mem TW lb _ _ _ Hs).
  - done.
  - done.
  - by apply Hda.
  - by apply Hsa.
  - intros st Ed Hsrc Hdest Hacc.
    apply (or_loop_spec _ ls (ts_rep TW lb _ _ _ Hs) (ts_ok TW lb _ _ _ Hs) _ fuel st ld 0 0); [|lia].
    split; [|done|done|done]. rewrite Ed. split; [exact (ts_rep TW lb _ _ _ Hd)|exact (ts_ok TW lb _ _ _ Hd)|done|lia|lia].
Qed.

Lemma and_trees_spec fuel :
  (length ld + length ls < fuel)%nat -> (ls = [] -> ld = []) ->
  exists dest' source', and_trees fuel dest source = Some (dest', source') /\
    bm_singular dest' = false /\ exists l, tree_set (bm_tree dest') l (X ∩ Y).
Proof.
  intros Hfuel Hempty. unfold and_trees.
  destruct (trees_first (bm_acc dest) _ _ _ Hd) as (da & -> & Hda). case_bool_decide as Hld; cbn [negb].
  2:{ do 2 eexists. split; [done|]. split; [done|]. exists ld.
      enough (X ∩ Y = X) as -> by done. enough (X = ∅) as -> by set_solver.
      apply elem_of_equiv_empty_L. intros v Hv.
      apply (tree_set_range_mem TW lb _ _ _ _ Hd) in Hv. subst ld. by apply mem_nil in Hv. }
  destruct (trees_first (bm_acc source) _ _ _ Hs) as (sa & -> & Hsa).
  rewrite bool_decide_eq_true_2 by tauto. cbn [negb].
  assert (Hnls : ls <> []) by tauto.
  apply (combine_spec _ (fun v => mem_of ld v /\ mem_of ls v)).
  - intros v [Hv _]%elem_of_intersection. by apply (ts_range TW lb _ _ _ Hd).
  - intros v Hv. by rewrite elem_of_intersection, (ts_mem TW lb _ _ _ Hd), (ts_mem TW lb _ _ _ Hs).
  - done.
  - done.
  - by apply Hda.
  - by apply Hsa.
  - intros st Ed Hsrc Hdest Hacc.
    apply (and_loop_spec _ ls (ts_rep TW lb _ _ _ Hs) _ fuel st ld 0 0); [|done|done|done|lia].
    rewrite Ed. split; [exact (ts_rep TW lb _ _ _ Hd)|exact (ts_ok TW lb _ _ _ Hd)| |lia].
    intros v. rewrite take_0, !drop_0. pose proof (mem_nil TW lb v). tauto.
Qed.
End Trees.

(** The bitmap that seems smaller is empty if the other is. *)
Lemma not_bigger_empty t1 t2 l1 l2 :
  tree_rep t1 l1 -> tree_rep t2 l2 -> tree_seemsBiggerThan t1 t2 = false -> l2 = [] -> l1 = [].
Proof.
  intros H1 H2 Hb ->. destruct l1 as [|b l1]; [done|]. exfalso.
  by rewrite (bigger_not_empty (key := start_value) t1 t2 (b :: l1)) in Hb.
Qed.

Lemma bigger_not_nil t1 t2 l1 l2 :
  tree_rep t1 l1 -> tree_rep t2 l2 -> tree_seemsBiggerThan t1 t2 = true -> l1 = [] -> l2 = [].
Proof.
  intros H1 H2 Hb ->. destruct l2 as [|b l2]; [done|]. exfalso.
  by rewrite (bigger_empty (key := start_value) t1 t2 (b :: l2)) in Hb.
Qed.

(** C30. [bit_or] of two bitmaps, each of which may be missing, ends, and the bitmap
    it returns has the numbers of both. *)
Theorem bitmap_or_correct b1 b2 X Y :
  opt_rep b1 X -> opt_rep b2 Y ->
  exists n, forall fuel, (n <= fuel)%nat ->
    exists w b1' b2', bitmap_or TW lb fuel b1 b2 = Some (w, b1', b2') /\ opt_rep (pick w b1' b2') (X ∪ Y).
Proof.
  intros H1 H2. destruct b1 as [m1|]; simpl in H1.
  2:{ exists 0%nat. intros fuel _. exists Second, None, b2. split; [done|]. subst X. by rewrite union_empty_l_L. }
  destruct b2 as [m2|]; simpl in H2.
  2:{ exists 0%nat. intros fuel _. exists First, (Some m1), None. split; [done|]. subst Y. by rewrite union_empty_r_L. }
  destruct (bm_singular m1) eqn:E1.
  { exists 0%nat. intros fuel _. unfold bm_rep in H1. rewrite E1 in H1. destruct H1 as (_ & -> & Hu).
    destruct (bitmap_set_spec TW lb Hlb _ _ _ H2 Hu) as (m2' & Hset & Hrep). exists Second, (Some m1), (Some m2').
    split; [|done]. unfold bitmap_or. by rewrite E1, Hset. }
  destruct (bm_singular m2) eqn:E2.
  { exists 0%nat. intros fuel _. unfold bm_rep in H2. rewrite E2 in H2. destruct H2 as (_ & -> & Hu).
    destruct (bitmap_set_spec TW lb Hlb _ _ _ H1 Hu) as (m1' & Hset & Hrep). exists First, (Some m1'), (Some m2).
    split; [unfold bitmap_or; by rewrite E1, E2, Hset|]. by rewrite union_comm_L. }
  unfold bm_rep in H1, H2. rewrite E1 in H1. rewrite E2 in H2. destruct H1 as [l1 H1], H2 as [l2 H2].
  exists (S (length l1 + length l2)). intros fuel Hfuel. unfold bitmap_or. rewrite E1, E2.
  destruct (tree_seemsBiggerThan (bm_tree m2) (bm_tree m1)) eqn:Hb.
  - destruct (or_trees_spec m2 m1 l2 l1 Y X E2 H2 H1 fuel) as (d & s & -> & Es & Hset); [|lia|].
    { by apply (bigger_not_nil (bm_tree m2) (bm_tree m1)); [apply (ts_rep TW lb _ _ _ H2)|apply (ts_rep TW lb _ _ _ H1)|]. }
    exists Second, (Some s), (Some d). split; [done|]. simpl. unfold BitmapSet.bm_rep. by rewrite Es, union_comm_L.
  - destruct (or_trees_spec m1 m2 l1 l2 X Y E1 H1 H2 fuel) as (d & s & -> & Es & Hset); [|lia|].
    { by apply (not_bigger_empty (bm_tree m2) (bm_tree m1)); [apply (ts_rep TW lb _ _ _ H2)|apply (ts_rep TW lb _ _ _ H1)|]. }
    exists First, (Some d), (Some s). split; [done|]. simpl. unfold BitmapSet.bm_rep. by rewrite Es.
Qed.

(** The bitmap that [bit_and] returns, [None] for [NULL] *)
Definition pick_opt (w : option Which) (b1 b2 : option (Bitmap Tree Acc)) : option (Bitmap Tree Acc) :=
  w ← w; pick w b1 b2.

Lemma singleton_and (v : Z) X : {[v]} ∩ X = if decide (v ∈ X) then {[v]} else ∅.
Proof. case_decide; set_solver. Qed.

(** [bit_and] of two bitmaps, each of which may be missing, ends, and the bitmap
    it returns, which is [NULL] only if there is no common number, has the numbers
    that are in both. *)
Theorem bitmap_and_correct b1 b2 X Y :
  opt_rep b1 X -> opt_rep b2 Y ->
  exists n, forall fuel, (n <= fuel)%nat ->
    exists w b1' b2', bitmap_and TW lb fuel b1 b2 = Some (w, b1', b2') /\ opt_rep (pick_opt w b1' b2') (X ∩ Y).
Proof.
  intros H1 H2. destruct b1 as [m1|]; simpl in H1.
  2:{ exists 0%nat. intros fuel _. exists None, None, b2. split; [done|]. subst X. simpl. set_solver. }
  destruct b2 as [m2|]; simpl in H2.
  2:{ exists 0%nat. intros fuel _. exists None, (Some m1), None. split; [done|]. subst Y. simpl. set_solver. }
  destruct (bm_singular m1) eqn:E1.
  { exists 0%nat. intros fuel _. pose proof H1 as H1'. unfold bm_rep in H1. rewrite E1 in H1. destruct H1 as (_ & -> & Hu).
    destruct (bitmap_test_spec TW lb Hlb _ _ _ H2 Hu) as (m2' & Ht & Hrep). unfold bitmap_and. rewrite E1, Ht.
    do 3 eexists. split; [done|]. rewrite singleton_and. case_bool_decide as Hin; by case_decide. }
  destruct (bm_singular m2) eqn:E2.
  { exists 0%nat. intros fuel _. pose proof H2 as H2'. unfold bm_rep in H2. rewrite E2 in H2. destruct H2 as (_ & -> & Hu).
    destruct (bitmap_test_spec TW lb Hlb _ _ _ H1 Hu) as (m1' & Ht & Hrep). unfold bitmap_and. rewrite E1, E2, Ht.
    do 3 eexists. split; [done|]. rewrite intersection_comm_L, singleton_and. case_bool_decide as Hin; by case_decide. }
  unfold bm_rep in H1, H2. rewrite E1 in H1. rewrite E2 in H2. destruct H1 as [l1 H1], H2 as [l2 H2].
  exists (S (length l1 + length l2)). intros fuel Hfuel. unfold bitmap_and. rewrite E1, E2.
  destruct (tree_seemsBiggerThan (bm_tree m1) (bm_tree m2)) eqn:Hb.
  - destruct (and_trees_spec m2 m1 l2 l1 Y X E2 H2 H1 fuel) as (d & s & -> & Es & Hset); [lia| |].
    { by apply (bigger_not_nil (bm_tree m1) (bm_tree m2)); [apply (ts_rep TW lb _ _ _ H1)|apply (ts_rep TW lb _ _ _ H2)|]. }
    exists (Some Second), (Some s), (Some d). split; [done|]. simpl. unfold BitmapSet.bm_rep.
    by rewrite Es, intersection_comm_L.
  - destruct (and_trees_spec m1 m2 l1 l2 X Y E1 H1 H2 fuel) as (d & s & -> & Es & Hset); [lia| |].
    { by apply (not_bigger_empty (bm_tree m1) (bm_tree m2)); [apply (ts_rep TW lb _ _ _ H1)|apply (ts_rep TW lb _ _ _ H2)|]. }
    exists (Some First), (Some d), (Some s). split; [done|]. simpl. unfold BitmapSet.bm_rep. by rewrite Es.
Qed.
End Ops.

(** ** Two bitmaps *)

Definition other_ops : list BitOp := [BSet 70; BSet 1000; BSet 6].

Definition other_bitmap : option (Bitmap (list Bucket) (option nat)) :=
  fst <$> exec_all (bit_run 32 6 (TO := list_tree start_value)) other_ops (bitmap_new (TO := list_tree start_value)).

Lemma other_bitmap_rep bm :
  other_bitmap = Some bm -> bm_rep 32 6 (tree_rep := list_rep start_value) bm {[70; 1000; 6]}.
Proof.
  intros Hbm. unfold other_bitmap in Hbm.
  destruct (exec_all (bit_run 32 6) other_ops bitmap_new) as [[bm' rs']|] eqn:E; [|done]. injection Hbm as ->.
  apply (bit_exec_rep 32 6 ltac:(lia) (TL := list_tree_laws start_value) other_ops _ [None; None; None] bm rs');
    [vm_compute; reflexivity|exact E].
Qed.

Lemma bitmap_or_correct_witness :
  exists b1 b2, sample_bitmap = Some b1 /\ other_bitmap = Some b2 /\
  exists n, forall fuel, (n <= fuel)%nat ->
    exists w b1' b2', bitmap_or 32 6 (TO := list_tree start_value) fuel (Some b1) (Some b2) = Some (w, b1', b2') /\
      opt_rep 32 6 (tree_rep := list_rep start_value) (pick w b1' b2') ({[5; 300; 70]} ∪ {[70; 1000; 6]}).
Proof.
  do 2 eexists. split; [vm_compute; reflexivity|]. split; [vm_compute; reflexivity|].
  apply (bitmap_or_correct 32 6 ltac:(lia) (TL := list_tree_laws start_value)).
  - apply sample_bitmap_rep. vm_compute. reflexivity.
  - apply other_bitmap_rep. vm_compute. reflexivity.
Defined.

Lemma bitmap_and_correct_witness :
  exists b1 b2, sample_bitmap = Some b1 /\ other_bitmap = Some b2 /\
  exists n, forall fuel, (n <= fuel)%nat ->
    exists w b1' b2', bitmap_and 32 6 (TO := list_tree start_value) fuel (Some b1) (Some b2) = Some (w, b1', b2') /\
      opt_rep 32 6 (tree_rep := list_rep start_value) (pick_opt w b1' b2') ({[5; 300; 70]} ∩ {[70; 1000; 6]}).
Proof.
  do 2 eexists. split; [vm_compute; reflexivity|]. split; [vm_compute; reflexivity|].
  apply (bitmap_and_correct 32 6 ltac:(lia) (TL := list_tree_laws start_value)).
  - apply sample_bitmap_rep. vm_compute. reflexivity.
  - apply other_bitmap_rep. vm_compute. reflexivity.
Defined.

(** Rows of additions at both ends, and a merge. *)
Example or_sample :
  (b1 ← sample_bitmap; b2 ← other_bitmap;
   '(w, b1, b2) ← bitmap_or 32 6 (TO := list_tree start_value) 10 (Some b1) (Some b2);
   b ← pick w b1 b2; Some (bm_tree b)) =
  Some [{| start_value := 0; bits := 96 |}; {| start_value := 64; bits := 64 |};
        {| start_value := 256; bits := 2 ^ 44 |}; {| start_value := 960; bits := 2 ^ 40 |}].
Proof. vm_compute. reflexivity. Qed.
