(* ===== verification/Outcome.v ===== *)
(** * Outcomes of functions that may fail

    A function of the engine ends with a result, calls [BUGCHECK] with the number of a
    message, or does something undefined, such as an access outside a block. *)

From S2P Require Import Prelude.

Inductive Outcome (A : Type) := Ok (a : A) | BugCheck (msg : Z) | Undefined.
Arguments Ok {_}.
Arguments BugCheck {_}.
Arguments Undefined {_}.

#[export] Instance Outcome_bind : MBind Outcome := fun A B f m =>
  match m with
  | Ok a => f a
  | BugCheck n => BugCheck n
  | Undefined => Undefined
  end.

(** An access that may be outside *)
Definition access {A} (o : option A) : Outcome A :=
  match o with Some a => Ok a | None => Undefined end.

(** [(signed char) b] and [(UCHAR) n] *)
Definition signed_char (b : Z) : Z := wrapS 8 b.
Definition UCHAR (n : Z) : Z := wrapU 8 n.
