(* ===== verification/StateMonad.v ===== *)
(** * Operations on a state

    An operation takes a state to an outcome: an answer and the state after it, an error, or
    something undefined. [wp m Q s]: from the state [s] the operation [m] ends, with an answer
    and a state for which [Q] holds; it neither fails nor touches memory that is not its own. *)

From S2P Require Import Prelude Outcome.

Definition SM (S A : Type) : Type := S -> Outcome (A * S).

Definition ret {S A} (a : A) : SM S A := fun t => Ok (a, t).
#[export] Instance SM_bind {S} : MBind (SM S) := fun A B f m t =>
  match m t with
  | Ok (a, t) => f a t
  | BugCheck n => BugCheck n
  | Undefined => Undefined
  end.

Definition gets {S A} (f : S -> A) : SM S A := fun t => Ok (f t, t).
Definition modify {S} (f : S -> S) : SM S unit := fun t => Ok (tt, f t).
Definition lift {S A} (o : Outcome A) : SM S A := fun t => a ← o; Ok (a, t).

(** ** Operations whose result is known *)

Section Run.
Context {S A B : Type}.

Lemma bind_ok (m : SM S A) (f : A -> SM S B) s a s' : m s = Ok (a, s') -> (m ≫= f) s = f a s'.
Proof. unfold mbind, SM_bind. by intros ->. Qed.
Lemma bind_ret (a : A) (f : A -> SM S B) s : (ret a ≫= f) s = f a s.
Proof. done. Qed.
Lemma bind_gets (g : S -> A) (f : A -> SM S B) s : (gets g ≫= f) s = f (g s) s.
Proof. done. Qed.
Lemma bind_modify (g : S -> S) (f : unit -> SM S B) s : (modify g ≫= f) s = f tt (g s).
Proof. done. Qed.
Lemma bind_lift (a : A) (f : A -> SM S B) s : (lift (Ok a) ≫= f) s = f a s.
Proof. done. Qed.
Lemma bind_access (a : A) (f : A -> SM S B) s : (lift (access (Some a)) ≫= f) s = f a s.
Proof. done. Qed.
End Run.

(** Run the steps that always succeed; [bind_by H]: the first step ends as [H] says. *)
Ltac run := repeat first [rewrite bind_ret | rewrite bind_gets | rewrite bind_modify | rewrite bind_lift | rewrite bind_access]; cbv beta iota.
Tactic Notation "bind_by" uconstr(H) := erewrite bind_ok by (eapply H; eauto); cbv beta iota.

Section Wp.
Context {S : Type}.
Implicit Types t : S.

Definition wp {A} (m : SM S A) (Q : A -> S -> Prop) (t : S) : Prop :=
  match m t with Ok (a, t') => Q a t' | _ => False end.

Lemma wp_run {A} (m : SM S A) Q t : wp m Q t -> exists a t', m t = Ok (a, t') /\ Q a t'.
Proof. unfold wp. destruct (m t) as [[a t']| |]; try done. eauto. Qed.

Lemma wp_mono {A} (m : SM S A) (P Q : A -> S -> Prop) t : wp m P t -> (forall a t', P a t' -> Q a t') -> wp m Q t.
Proof. unfold wp. destruct (m t) as [[a t']| |]; naive_solver. Qed.

Lemma wp_bind {A B} (m : SM S A) (f : A -> SM S B) Q t : wp m (fun a => wp (f a) Q) t -> wp (m ≫= f) Q t.
Proof. unfold wp, mbind, SM_bind. by destruct (m t) as [[a t']| |]. Qed.

Lemma wp_seq {A B C} (m : SM S A) (f : SM S B) (g : B -> SM S C) Q t :
  wp (m;; f) (fun b => wp (g b) Q) t -> wp (m;; (f ≫= g)) Q t.
Proof.
  unfold wp, mbind, SM_bind. destruct (m t) as [[a t']| |]; try done. by destruct (f t') as [[b t'']| |].
Qed.

Lemma wp_ret {A} (a : A) (Q : A -> S -> Prop) t : Q a t -> wp (ret a) Q t.
Proof. done. Qed.
Lemma wp_gets {A} (f : S -> A) (Q : A -> S -> Prop) t : Q (f t) t -> wp (gets f) Q t.
Proof. done. Qed.
Lemma wp_modify f (Q : unit -> S -> Prop) t : Q tt (f t) -> wp (modify f) Q t.
Proof. done. Qed.
Lemma wp_lift {A} (a : A) (Q : A -> S -> Prop) t : Q a t -> wp (lift (Ok a)) Q t.
Proof. done. Qed.
Lemma wp_access {A} (o : option A) (a : A) (Q : A -> S -> Prop) t : o = Some a -> Q a t -> wp (lift (access o)) Q t.
Proof. by intros ->. Qed.
End Wp.
