(* ===== verification/Sqz.v ===== *)
(** * Record compression: [src/src/jrd/sqz.cpp]

    A compressed record is a sequence of controls, each a signed byte: a positive
    one is followed by that many bytes, a negative one by the byte that is repeated.
    The constructor of [Compressor] makes the controls of a record, [pack] writes
    controls and bytes, and [unpack] reads them. A difference of two records has
    controls as well, of which a negative one says how many bytes are the same.

    A pointer is a position in the list of bytes it points into. [BUGCHECK] ends a
    function with the number of its message; an access outside a list is undefined. *)

From S2P Require Import Prelude Memory Outcome.

Record Compressor := { m_control : list Z; m_length : Z }.

(** ** The constructor

    The control array has [room] bytes. *)

Section Constructor.
Context (d : list Z) (room : Z).

(** [*control++ = b] *)
Definition put_control (control : list Z) (b : Z) : Outcome (list Z) :=
  if decide (Z.of_nat (length control) < room) then Ok (control ++ [b]) else Undefined.

(** [data[0] != data[1] || data[0] != data[2]] *)
Definition differs (data : Z) : Outcome bool :=
  a ← access (d @ data);
  b ← access (d @ (data + 1));
  if decide (a <> b) then Ok true
  else
    c ← access (d @ (data + 2));
    Ok (bool_decide (a <> c)).

(** The position of the next three equal bytes, if there are any. *)
Fixpoint find_equal (fuel : nat) (data max : Z) : Outcome (option Z) :=
  match fuel with
  | O => Undefined
  | S fuel =>
      differ ← differs data;
      if differ : bool then
        let data := data + 1 in
        let max := max - 1 in
        if decide (max > 1) then find_equal fuel data max else Ok None
      else Ok (Some data)
  end.

(** The length of the run that is not compressible, of [count] bytes at most. *)
Definition plain_run (data count : Z) : Outcome Z :=
  let max := count - 1 in
  if decide (max > 1) then
    found ← find_equal (Z.to_nat count) data max;
    Ok (match found with Some p => p - data | None => count end)
  else Ok count.

(** The controls of such a run, at most 127 bytes each. *)
Fixpoint put_plain (fuel : nat) (count : Z) (c : Compressor) : Outcome Compressor :=
  match fuel with
  | O => Undefined
  | S fuel =>
      if decide (count <> 0) then
        let max := Z.min count 127 in
        control ← put_control (m_control c) (UCHAR max);
        put_plain fuel (count - max) {| m_control := control; m_length := wrapU 32 (m_length c + (1 + max)) |}
      else Ok c
  end.

(** The end of the run of the byte [c], which has [max] bytes at most. *)
Fixpoint run_end (fuel : nat) (c data max : Z) : Outcome Z :=
  match fuel with
  | O => Undefined
  | S fuel =>
      b ← access (d @ data);
      if decide (b <> c) then Ok data
      else
        let data := data + 1 in
        if decide (max - 1 <> 0) then run_end fuel c data (max - 1) else Ok data
  end.

(** A compressible run, of at most 128 bytes. *)
Definition equal_run (data : Z) (c : Compressor) : Outcome (Z * Compressor) :=
  let max := Z.min 128 (Z.of_nat (length d) - data) in
  if decide (max >= 3) then
    let start := data in
    b ← access (d @ data);
    data ← run_end (Z.to_nat max) b data max;
    control ← put_control (m_control c) (UCHAR (start - data));
    Ok (data, {| m_control := control; m_length := wrapU 32 (m_length c + 2) |})
  else Ok (data, c).

Fixpoint compress_loop (fuel : nat) (data : Z) (c : Compressor) : Outcome Compressor :=
  match fuel with
  | O => Undefined
  | S fuel =>
      let count := Z.of_nat (length d) - data in
      if decide (count <> 0) then
        let start := data in
        count ← plain_run data count;
        let data := start + count in
        c ← put_plain (S (Z.to_nat count)) count c;
        '(data, c) ← equal_run data c;
        compress_loop fuel data c
      else Ok c
  end.
End Constructor.

Definition Compressor_new (data : list Z) : Outcome Compressor :=
  let length := Z.of_nat (length data) in
  compress_loop data (wrapU 32 (length + 1) / 2) (S (Z.to_nat length)) 0 {| m_control := []; m_length := 0 |}.

Definition getPackedLength (c : Compressor) : Z := m_length c.

(** ** [pack]

    [m] is the memory of the output. *)

Section Pack.
Context (data : list Z).

(** [memcpy(output, input, length)] *)
Definition copy (m : list Z) (output input length : Z) : Outcome (list Z) :=
  bytes ← access (mem_read data input length);
  access (mem_write m output bytes).

Fixpoint pack_loop (control : list Z) (input output : Z) (m : list Z) : Outcome (list Z) :=
  match control with
  | [] => Ok m
  | b :: control =>
      let length := signed_char b in
      m ← access (aset m output (UCHAR length));
      let output := output + 1 in
      if decide (length < 0) then
        c ← access (data @ input);
        m ← access (aset m output c);
        pack_loop control (input - length) (output + 1) m
      else if decide (length > 0) then
        m ← copy m output input length;
        pack_loop control (input + length) (output + length) m
      else pack_loop control input output m
  end.

(** Into an area of [space] bytes; the result is the number of bytes of the record
    that are packed. *)
Fixpoint pack_part_loop (control : list Z) (space input output : Z) (m : list Z) : Outcome (Z * list Z) :=
  match control with
  | [] => BugCheck 178
  | b :: control =>
      let space := space - 1 in
      if decide (space <= 0) then
        m ← (if decide (space = 0) then access (aset m output 0) else Ok m);
        Ok (input, m)
      else
        let length := signed_char b in
        m ← access (aset m output (UCHAR length));
        let output := output + 1 in
        if decide (length < 0) then
          let space := space - 1 in
          c ← access (data @ input);
          m ← access (aset m output c);
          pack_part_loop control space (input + Z.land (- length) 255) (output + 1) m
        else
          let space := space - length in
          if decide (space < 0) then
            let length := length + space in
            m ← access (aset m (output - 1) (UCHAR length));
            if decide (length > 0) then
              m ← copy m output input length;
              Ok (input + length, m)
            else Ok (input, m)
          else if decide (length > 0) then
            m ← copy m output input length;
            pack_part_loop control space (input + length) (output + length) m
          else pack_part_loop control space input output m
  end.
End Pack.

Definition pack (c : Compressor) (data : list Z) (output : Z) (m : list Z) : Outcome (list Z) :=
  pack_loop data (m_control c) 0 output m.

Definition pack_part (c : Compressor) (data : list Z) (outLength output : Z) (m : list Z) : Outcome (Z * list Z) :=
  pack_part_loop data (m_control c) (wrapS 32 outLength) 0 output m.

(** The number of bytes that [pack_part] packs *)
Fixpoint partial_loop (control : list Z) (space input : Z) : Outcome Z :=
  match control with
  | [] => BugCheck 178
  | b :: control =>
      let space := space - 1 in
      if decide (space <= 0) then Ok input
      else
        let length := signed_char b in
        if decide (length < 0) then
          partial_loop control (space - 1) (input + Z.land (- length) 255)
        else
          let space := space - length in
          if decide (space < 0) then Ok (input + (length + space))
          else partial_loop control space (input + length)
  end.

Definition getPartialLength (c : Compressor) (inLength : Z) : Outcome Z :=
  partial_loop (m_control c) (wrapS 32 inLength) 0.

(** ** [unpack]

    The input is [inp], the area of the output ends at [output_end]. *)

Section Unpack.
Context (inp : list Z) (output_end : Z).

Fixpoint unpack_loop (fuel : nat) (input output : Z) (m : list Z) : Outcome (Z * list Z) :=
  match fuel with
  | O => Undefined
  | S fuel =>
      let fin := Z.of_nat (length inp) in
      if decide (input < fin) then
        b ← access (inp @ input);
        let len := signed_char b in
        let input := input + 1 in
        if decide (len < 0) then
          if decide (input >= fin \/ output - len > output_end) then BugCheck 179
          else
            c ← access (inp @ input);
            m ← access (memset m output c (-1 * len));
            unpack_loop fuel (input + 1) (output - len) m
        else if decide (output + len > output_end) then BugCheck 179
        else
          bytes ← access (mem_read inp input len);
          m ← access (mem_write m output bytes);
          unpack_loop fuel (input + len) (output + len) m
      else if decide (output > output_end) then BugCheck 179
      else Ok (output, m)
  end.
End Unpack.

(** Where the output stopped, and the memory *)
Definition unpack (inp : list Z) (outLength output : Z) (m : list Z) : Outcome (Z * list Z) :=
  unpack_loop inp (output + outLength) (S (length inp)) 0 output m.

(** Three bytes, a run and a byte: the controls, and back. *)
Example sqz_sample :
  let data := [1; 2; 1; 7; 7; 7; 7; 9] in
  (c ← Compressor_new data;
   m ← pack c data 0 (replicate 8 0);
   '(out, back) ← unpack m 10 0 (replicate 10 0);
   Ok (m_control c, m_length c, m, out, back)) =
  Ok ([3; 252; 1], 8, [3; 1; 2; 1; 252; 7; 1; 9], 8, [1; 2; 1; 7; 7; 7; 7; 9; 0; 0]).
Proof. vm_compute. reflexivity. Qed.
