(* ===== verification/SqzPack.v ===== *)
(** * Record compression: packed records

    A packed record is the code of a list of chunks. The constructor of [Compressor]
    finds the chunks of a record, [pack] writes their code, and [unpack] reads it. *)

From S2P Require Import Prelude Memory Outcome Sqz.

(** ** Chunks *)

Inductive chunk := Plain (bs : list Z) | Equal (n : nat) (b : Z).

Definition ctl (k : chunk) : Z :=
  match k with Plain bs => Z.of_nat (length bs) | Equal n _ => UCHAR (- Z.of_nat n) end.

Definition text (k : chunk) : list Z := match k with Plain bs => bs | Equal n b => replicate n b end.

Definition code (k : chunk) : list Z := ctl k :: match k with Plain bs => bs | Equal _ b => [b] end.

Definition texts (ks : list chunk) : list Z := concat (text <$> ks).
Definition codes (ks : list chunk) : list Z := concat (code <$> ks).

Definition chunk_ok (k : chunk) : Prop :=
  match k with Plain bs => (length bs <= 127)%nat | Equal n _ => (1 <= n <= 128)%nat end.

Lemma texts_app ks1 ks2 : texts (ks1 ++ ks2) = texts ks1 ++ texts ks2.
Proof. unfold texts. by rewrite fmap_app, concat_app. Qed.

Lemma codes_app ks1 ks2 : codes (ks1 ++ ks2) = codes ks1 ++ codes ks2.
Proof. unfold codes. by rewrite fmap_app, concat_app. Qed.

Lemma texts_cons k ks : texts (k :: ks) = text k ++ texts ks.
Proof. done. Qed.

Lemma codes_cons k ks : codes (k :: ks) = code k ++ codes ks.
Proof. done. Qed.

Lemma signed_plain n : (n <= 127)%nat -> signed_char (Z.of_nat n) = Z.of_nat n.
Proof. intros Hn. apply wrapS_id; [done|]. unfold inS. simpl. lia. Qed.

Lemma UCHAR_plain n : (n <= 127)%nat -> UCHAR (Z.of_nat n) = Z.of_nat n.
Proof. intros Hn. apply wrapU_id. unfold inU. lia. Qed.

Lemma signed_UCHAR z : -128 <= z <= 127 -> signed_char (UCHAR z) = z.
Proof.
  intros Hz. unfold signed_char, UCHAR, wrapS, wrapU. change (2 ^ (8 - 1)) with 128. change (2 ^ 8) with 256.
  rewrite Zplus_mod_idemp_l, Z.mod_small; lia.
Qed.

Lemma UCHAR_signed b : inU 8 b -> UCHAR (signed_char b) = b.
Proof.
  intros Hb. unfold signed_char, UCHAR, wrapS, wrapU, inU in *. change (2 ^ (8 - 1)) with 128.
  change (2 ^ 8) with 256 in *. rewrite Zminus_mod_idemp_l. replace (b + 128 - 128) with b by lia.
  by rewrite Z.mod_small.
Qed.

Lemma signed_ctl k :
  chunk_ok k -> signed_char (ctl k) = match k with Plain bs => Z.of_nat (length bs) | Equal n _ => - Z.of_nat n end.
Proof. destruct k as [bs|n b]; simpl; intros Hk; [by apply signed_plain|]. apply signed_UCHAR. lia. Qed.

Lemma UCHAR_signed_ctl k : chunk_ok k -> UCHAR (signed_char (ctl k)) = ctl k.
Proof. intros Hk. rewrite signed_ctl by done. destruct k as [bs|n b]; simpl in *; [by apply UCHAR_plain|done]. Qed.

(** Positions after a prefix *)
Lemma aget_skip {A} (pre l : list A) k : 0 <= k -> (pre ++ l) @ (Z.of_nat (length pre) + k) = l @ k.
Proof.
  intros Hk. rewrite !aget_nonneg by lia. rewrite lookup_app_r by lia. f_equal. lia.
Qed.

Lemma aget_mid {A} (pre l : list A) x : (pre ++ x :: l) @ (Z.of_nat (length pre)) = Some x.
Proof. rewrite aget_nat. by apply list_lookup_middle. Qed.

Lemma aset_mid {A} (pre l : list A) x y i :
  i = Z.of_nat (length pre) -> aset (pre ++ y :: l) i x = Some (pre ++ x :: l).
Proof.
  intros ->. rewrite aset_in by (rewrite length_app; simpl; lia). rewrite Nat2Z.id.
  f_equal. rewrite insert_app_r_alt by lia. by rewrite Nat.sub_diag.
Qed.

(** A list that is long enough has its first items. *)
Lemma split_at {A} n (l : list A) : (n <= length l)%nat -> exists l1 l2, l = l1 ++ l2 /\ length l1 = n.
Proof. intros Hn. exists (take n l), (drop n l). rewrite take_drop, length_take. split; [done|lia]. Qed.

(** [listeq] proves equations of lists up to associativity, [poseq] those of positions. *)
Ltac listeq := simpl; rewrite ?texts_cons, ?codes_cons; simpl; rewrite <- ?app_assoc; simpl; done.
Ltac poseq := rewrite ?length_app, ?length_replicate; simpl; lia.

(** ** [pack] *)

Lemma copy_mid data m output input n pre t post out space :
  data = pre ++ t ++ post -> m = out ++ space -> input = Z.of_nat (length pre) ->
  output = Z.of_nat (length out) -> n = Z.of_nat (length t) -> (length t <= length space)%nat ->
  copy data m output input n = Ok (out ++ t ++ drop (length t) space).
Proof.
  intros -> -> -> -> -> Hl. unfold copy. rewrite (mem_read_mid pre t post) by done. simpl.
  by rewrite mem_write_mid.
Qed.

Lemma pack_loop_spec data ks pre post out space input output m :
  Forall chunk_ok ks -> data = pre ++ texts ks ++ post -> (length (codes ks) <= length space)%nat ->
  input = Z.of_nat (length pre) -> output = Z.of_nat (length out) -> m = out ++ space ->
  pack_loop data (ctl <$> ks) input output m = Ok (out ++ codes ks ++ drop (length (codes ks)) space).
Proof.
  intros Hks. revert pre out space input output m.
  induction Hks as [|k ks Hk Hks IH]; intros pre out space input output m -> Hl -> -> ->; [done|].
  rewrite codes_cons, length_app in Hl.
  destruct space as [|x space]; [simpl in Hl; lia|]. simpl fmap. cbn [pack_loop].
  rewrite aset_mid by done. cbn [access mbind Outcome_bind]. rewrite UCHAR_signed_ctl, signed_ctl by done.
  destruct k as [bs|n b]; simpl in Hl, Hk.
  - rewrite decide_False by lia. case_decide as Hpos.
    + rewrite (copy_mid _ _ _ _ _ pre bs (texts ks ++ post) (out ++ [ctl (Plain bs)]) space);
        [|listeq|listeq|done|poseq|done|lia].
      cbn [mbind Outcome_bind].
      rewrite (IH (pre ++ bs) (out ++ ctl (Plain bs) :: bs) (drop (length bs) space));
        [|listeq|rewrite length_drop; lia|poseq|poseq|listeq].
      rewrite drop_drop, codes_cons, length_app. listeq.
    + destruct bs; [|simpl in Hpos; lia].
      rewrite (IH pre (out ++ [ctl (Plain [])]) space); [|listeq|lia|done|poseq|listeq]. listeq.
  - rewrite decide_True by lia. destruct n as [|n]; [lia|]. rewrite texts_cons. cbn [text replicate app]. rewrite (aget_mid pre). cbn [access mbind Outcome_bind].
    destruct space as [|y space]; [simpl in Hl; lia|].
    replace (out ++ ctl (Equal (S n) b) :: y :: space) with ((out ++ [ctl (Equal (S n) b)]) ++ y :: space) by listeq.
    rewrite aset_mid by poseq. cbn [access mbind Outcome_bind].
    rewrite (IH (pre ++ replicate (S n) b) (out ++ [ctl (Equal (S n) b); b]) space);
      [|listeq|simpl in Hl; lia|poseq|poseq|listeq].
    listeq.
Qed.

(** ** [unpack] *)

Lemma memset_mid m out space output n b :
  m = out ++ space -> output = Z.of_nat (length out) -> (n <= length space)%nat ->
  memset m output b (Z.of_nat n) = Some (out ++ replicate n b ++ drop n space).
Proof.
  intros -> -> Hn. unfold memset. rewrite decide_True, Nat2Z.id by lia.
  rewrite mem_write_mid by (rewrite ?length_replicate; done). by rewrite length_replicate.
Qed.

(** The chunks at the beginning of the input, with what is behind them *)
Lemma unpack_loop_prefix fuel inp output_end ks pre post out space :
  Forall chunk_ok ks -> inp = pre ++ codes ks ++ post -> (length (texts ks) <= length space)%nat ->
  Z.of_nat (length out) + Z.of_nat (length (texts ks)) <= output_end ->
  unpack_loop inp output_end (length ks + fuel) (Z.of_nat (length pre)) (Z.of_nat (length out)) (out ++ space) =
  unpack_loop inp output_end fuel (Z.of_nat (length (pre ++ codes ks))) (Z.of_nat (length (out ++ texts ks)))
    ((out ++ texts ks) ++ drop (length (texts ks)) space).
Proof.
  intros Hks. revert pre out space. induction Hks as [|k ks Hk Hks IH]; intros pre out space Hinp Hl Hend.
  { change (codes []) with (@nil Z). change (texts []) with (@nil Z). by rewrite !app_nil_r. }
  cbn [length Nat.add unpack_loop]. rewrite texts_cons, length_app in Hl, Hend.
  assert (Hc : inp @ (Z.of_nat (length pre)) = Some (ctl k)).
  { rewrite Hinp, codes_cons. apply aget_mid. }
  pose proof (aget_lt_Some _ _ _ Hc) as Hlt. rewrite decide_True, Hc by lia. cbn [access mbind Outcome_bind].
  rewrite codes_cons, texts_cons. rewrite signed_ctl by done. destruct k as [bs|n b]; cbn [text chunk_ok] in *.
  - rewrite decide_False, decide_False by lia.
    assert (Hr : mem_read inp (Z.of_nat (length pre) + 1) (Z.of_nat (length bs)) = Some bs).
    { rewrite Hinp, codes_cons. replace (pre ++ _) with ((pre ++ [ctl (Plain bs)]) ++ bs ++ codes ks ++ post) by listeq.
      by apply mem_read_mid; [poseq|]. }
    rewrite Hr. cbn [access mbind Outcome_bind]. rewrite mem_write_mid by lia. cbn [access mbind Outcome_bind].
    replace (Z.of_nat (length pre) + 1 + Z.of_nat (length bs)) with (Z.of_nat (length (pre ++ ctl (Plain bs) :: bs))) by poseq.
    replace (Z.of_nat (length out) + Z.of_nat (length bs)) with (Z.of_nat (length (out ++ bs))) by poseq.
    rewrite app_assoc. rewrite (IH (pre ++ ctl (Plain bs) :: bs) (out ++ bs) (drop (length bs) space));
      [|rewrite Hinp, codes_cons; listeq|rewrite length_drop; lia|rewrite length_app; lia].
    rewrite drop_drop, <- !app_assoc, <- length_app. reflexivity.
  - rewrite length_replicate in *. rewrite decide_True by lia.
    assert (Hb : inp @ (Z.of_nat (length pre) + 1) = Some b).
    { rewrite Hinp, codes_cons. by rewrite aget_skip. }
    pose proof (aget_lt_Some _ _ _ Hb). rewrite decide_False, Hb by lia. cbn [access mbind Outcome_bind].
    replace (-1 * - Z.of_nat n) with (Z.of_nat n) by lia.
    rewrite (memset_mid _ out space) by (done || lia). cbn [access mbind Outcome_bind].
    replace (Z.of_nat (length pre) + 1 + 1) with (Z.of_nat (length (pre ++ [ctl (Equal n b); b]))) by poseq.
    replace (Z.of_nat (length out) - - Z.of_nat n) with (Z.of_nat (length (out ++ replicate n b))) by poseq.
    rewrite app_assoc. rewrite (IH (pre ++ [ctl (Equal n b); b]) (out ++ replicate n b) (drop n space));
      [|rewrite Hinp, codes_cons; listeq|rewrite length_drop; lia|rewrite length_app, length_replicate; lia].
    rewrite drop_drop, <- !app_assoc. rewrite (length_app (replicate n b)), length_replicate. reflexivity.
Qed.

Lemma length_codes ks : (length ks <= length (codes ks))%nat.
Proof.
  induction ks as [|k ks IH]; [done|]. rewrite codes_cons, length_app. destruct k; simpl; lia.
Qed.

(** What [s] stands for *)
Definition packed (s t : list Z) : Prop := exists ks, Forall chunk_ok ks /\ s = codes ks /\ t = texts ks.

Lemma unpack_packed s t outLength out space :
  packed s t -> (length t <= length space)%nat -> Z.of_nat (length t) <= outLength ->
  unpack s outLength (Z.of_nat (length out)) (out ++ space) =
  Ok (Z.of_nat (length out) + Z.of_nat (length t), out ++ t ++ drop (length t) space).
Proof.
  intros (ks & Hks & -> & ->) Hl Ho. unfold unpack. pose proof (length_codes ks).
  replace (S (length (codes ks))) with (length ks + S (length (codes ks) - length ks))%nat by lia.
  change 0 with (Z.of_nat (length (@nil Z))).
  rewrite (unpack_loop_prefix _ _ _ ks [] []) by (done || lia || by rewrite app_nil_r).
  cbn [unpack_loop app]. rewrite length_app, decide_False by lia. rewrite decide_False by lia.
  rewrite Nat2Z.inj_add. by rewrite <- app_assoc.
Qed.

Lemma packed_app s1 t1 s2 t2 : packed s1 t1 -> packed s2 t2 -> packed (s1 ++ s2) (t1 ++ t2).
Proof.
  intros (ks1 & H1 & -> & ->) (ks2 & H2 & -> & ->). exists (ks1 ++ ks2).
  split; [by apply Forall_app|]. by rewrite codes_app, texts_app.
Qed.
