(* ===== verification/SqzCompress.v ===== *)
(** * Record compression: the chunks of a record

    What the constructor of [Compressor] finds: runs of three to 128 equal bytes, as
    long as possible and from the left, and what is between them in pieces of at most
    127 bytes; that its control array is large enough; and the round trip. *)

From S2P Require Import Prelude Memory Outcome Sqz SqzPack.

(** ** Runs of equal bytes *)

Definition no_triple (l : list Z) : Prop :=
  forall p a, l !! p = Some a -> l !! S p = Some a -> l !! S (S p) <> Some a.

Lemma no_triple_cons a l : no_triple (a :: l) <-> no_triple l /\ (l !! 0%nat = Some a -> l !! 1%nat <> Some a).
Proof.
  split.
  - intros H. split; [|intros H0; by apply (H 0%nat a)]. intros p b H0 H1. by apply (H (S p) b).
  - intros [Hl Ha] [|p] b H0 H1; simpl in *; [|by apply (Hl p b)]. injection H0 as <-. by apply Ha.
Qed.

Lemma no_triple_app_l l k : no_triple (l ++ k) -> no_triple l.
Proof.
  intros H p a H0 H1 H2. by apply (H p a); apply lookup_app_l_Some.
Qed.

Lemma first_triple d :
  no_triple d \/ exists l b r, d = l ++ b :: b :: b :: r /\ no_triple (l ++ [b; b]).
Proof.
  induction d as [|a d [IH|(l & b & r & -> & IH)]].
  - left. intros [|p]; done.
  - destruct (decide (d !! 0%nat = Some a /\ d !! 1%nat = Some a)) as [[H0 H1]|Hne].
    + right. destruct d as [|? [|? r]]; simplify_eq/=. exists [], a, r. split; [done|].
      by intros [|[|p]] c.
    + left. apply no_triple_cons. tauto.
  - destruct (decide (l = [] /\ a = b)) as [[-> ->]|Hne]; [right; by exists [], b, (b :: r)|].
    destruct (decide ((l ++ [b; b]) !! 0%nat = Some a /\ (l ++ [b; b]) !! 1%nat = Some a)) as [[H0 H1]|Hno].
    + right. destruct l as [|x [|y l]]; simpl in H0, H1; injection H0 as ->; [tauto|injection H1 as ->..].
      * exists [], a, (a :: a :: r). split; [done|]. by intros [|[|p]] c.
      * exists [], a, (l ++ b :: b :: b :: r). split; [done|]. by intros [|[|p]] c.
    + right. exists (a :: l), b, r. split; [done|]. simpl. apply no_triple_cons. tauto.
Qed.

Lemma leading b (l : list Z) : exists n r, l = replicate n b ++ r /\ head r <> Some b.
Proof.
  induction l as [|a l (n & r & -> & Hr)]; [by exists 0%nat, []|].
  destruct (decide (a = b)) as [->|Hne]; [by exists (S n), r|].
  exists 0%nat, (a :: replicate n b ++ r). split; [done|]. simpl. congruence.
Qed.

(** ** The chunks *)

(** Pieces of 127 bytes *)
Inductive pieces : list Z -> list chunk -> Prop :=
  | pieces_nil : pieces [] []
  | pieces_cons l ks : l <> [] -> pieces (drop 127 l) ks -> pieces l (Plain (take 127 l) :: ks).

Inductive compressed : list Z -> list chunk -> Prop :=
  | compressed_end l ks : pieces l ks -> no_triple l -> compressed l ks
  | compressed_run l ps n b rest ks :
      pieces l ps -> no_triple (l ++ [b; b]) -> (3 <= n <= 128)%nat -> n = 128%nat \/ head rest <> Some b ->
      compressed rest ks -> compressed (l ++ replicate n b ++ rest) (ps ++ Equal n b :: ks).

Lemma pieces_exist l : exists ks, pieces l ks.
Proof.
  induction l as [l IH] using (induction_ltof1 _ (@length Z)). unfold ltof in IH.
  destruct l as [|a l]; [exists []; constructor|]. destruct (IH (drop 127 (a :: l))) as [ks Hks].
  { rewrite length_drop. simpl. lia. }
  eexists. by apply pieces_cons.
Qed.

Lemma pieces_texts l ks : pieces l ks -> texts ks = l.
Proof. induction 1 as [|l ks Hl H IH]; [done|]. rewrite texts_cons, IH. simpl text. apply take_drop. Qed.

Lemma pieces_ok l ks : pieces l ks -> Forall chunk_ok ks.
Proof. induction 1 as [|l ks Hl H IH]; constructor; [simpl; rewrite length_take; lia|done]. Qed.

Lemma pieces_length l ks : pieces l ks -> (2 * length ks <= S (length l))%nat.
Proof.
  induction 1 as [|l ks Hl H IH]; [simpl; lia|]. rewrite length_drop in IH. destruct l; [done|]. simpl in *. lia.
Qed.

Lemma compressed_exist d : exists ks, compressed d ks.
Proof.
  induction d as [d IH] using (induction_ltof1 _ (@length Z)). unfold ltof in IH.
  destruct (first_triple d) as [Hd|(l & b & r & -> & Hl)].
  - destruct (pieces_exist d) as [ks Hks]. exists ks. by constructor.
  - destruct (pieces_exist l) as [ps Hps]. destruct (leading b r) as (m & r' & -> & Hr).
    assert (E : l ++ b :: b :: b :: replicate m b ++ r' = l ++ replicate (3 + m) b ++ r') by done.
    rewrite E in *. destruct (decide (3 + m <= 128)%nat) as [Hm|Hm].
    + destruct (IH r') as [ks Hks]; [rewrite !length_app, length_replicate; lia|].
      exists (ps ++ Equal (3 + m) b :: ks). apply compressed_run; [done|done|lia|by right|done].
    + assert (E2 : replicate (3 + m) b ++ r' = replicate 128 b ++ replicate (3 + m - 128) b ++ r').
      { rewrite app_assoc, <- replicate_add. do 2 f_equal. lia. }
      rewrite E2. destruct (IH (replicate (3 + m - 128) b ++ r')) as [ks Hks].
      { rewrite !length_app, !length_replicate. lia. }
      exists (ps ++ Equal 128 b :: ks). apply compressed_run; [done|done|lia|by left|done].
Qed.

Lemma compressed_texts d ks : compressed d ks -> texts ks = d.
Proof.
  induction 1 as [l ks H _|l ps n b rest ks H _ _ _ _ IH]; [by apply pieces_texts|].
  by rewrite texts_app, texts_cons, IH, (pieces_texts l ps).
Qed.

Lemma compressed_ok d ks : compressed d ks -> Forall chunk_ok ks.
Proof.
  induction 1 as [l ks H _|l ps n b rest ks H _ Hn _ _ IH]; [by apply pieces_ok in H|].
  apply Forall_app. split; [by apply pieces_ok in H|]. constructor; [simpl; lia|done].
Qed.

(** Half as many controls as bytes *)
Lemma compressed_length d ks : compressed d ks -> (2 * length ks <= S (length d))%nat.
Proof.
  induction 1 as [l ks H _|l ps n b rest ks H _ Hn _ _ IH]; [by apply pieces_length|].
  apply pieces_length in H. rewrite !length_app, length_replicate. simpl. lia.
Qed.

Lemma compressed_codes d ks : compressed d ks -> (length (codes ks) <= 2 * length d)%nat.
Proof.
  intros H. pose proof (compressed_length d ks H). pose proof (compressed_texts d ks H) as <-.
  pose proof (compressed_ok _ _ H) as Hok. clear H. revert H0.
  enough (length (codes ks) <= length (texts ks) + length ks)%nat.
  { intros ?. destruct ks as [|k ks]; [done|]. simpl in *. destruct (texts (k :: ks)); simpl in *; lia. }
  induction Hok as [|k ks Hk _ IH]; [done|]. rewrite codes_cons, texts_cons, !length_app.
  destruct k as [bs|n b]; simpl in *; rewrite ?length_replicate; lia.
Qed.

(** ** The constructor *)

Section Constructor.
Context (d : list Z) (room : Z).

Lemma differs_spec pre a b c r :
  d = pre ++ a :: b :: c :: r ->
  differs d (Z.of_nat (length pre)) = Ok (bool_decide (~ (b = a /\ c = a))).
Proof.
  intros ->. unfold differs. rewrite aget_mid, aget_skip, aget_skip by lia. simpl.
  case_decide as Hab; [by rewrite bool_decide_eq_true_2 by naive_solver|].
  f_equal. apply bool_decide_ext. naive_solver.
Qed.

Lemma find_equal_none fuel pre l data max :
  d = pre ++ l -> no_triple l -> data = Z.of_nat (length pre) -> max = Z.of_nat (length l) - 1 -> 1 < max ->
  (length l <= fuel)%nat -> find_equal d fuel data max = Ok None.
Proof.
  revert pre l data max. induction fuel as [|fuel IH]; intros pre l data max Hd Hl -> -> Hmax Hfuel; [lia|].
  destruct l as [|a [|b [|c l]]]; simpl in Hmax, Hfuel; try lia. cbn [find_equal].
  rewrite (differs_spec pre a b c l) by done. pose proof (Hl 0%nat a eq_refl) as H0.
  rewrite bool_decide_eq_true_2 by (simpl in H0; naive_solver). cbn [mbind Outcome_bind].
  case_decide; [|done]. apply (IH (pre ++ [a]) (b :: c :: l)); [rewrite Hd; listeq| |poseq|simpl; lia|lia|simpl; lia].
  by apply (proj1 (no_triple_cons a (b :: c :: l))) in Hl as [Hl _].
Qed.

Lemma find_equal_some fuel pre l b r data max :
  d = pre ++ l ++ b :: b :: b :: r -> no_triple (l ++ [b; b]) -> data = Z.of_nat (length pre) ->
  max = Z.of_nat (length (l ++ b :: b :: b :: r)) - 1 -> (length l < fuel)%nat ->
  find_equal d fuel data max = Ok (Some (data + Z.of_nat (length l))).
Proof.
  revert pre l data max. induction fuel as [|fuel IH]; intros pre l data max Hd Hl -> -> Hfuel; [lia|].
  cbn [find_equal]. destruct l as [|a l].
  - rewrite (differs_spec pre b b b r) by done. rewrite bool_decide_eq_false_2 by tauto. simpl. by rewrite Z.add_0_r.
  - assert (exists c1 c2 r', l ++ b :: b :: b :: r = c1 :: c2 :: r' /\ (l ++ [b; b]) !! 0%nat = Some c1 /\
              (l ++ [b; b]) !! 1%nat = Some c2) as (c1 & c2 & r' & E & E1 & E2).
    { destruct l as [|x [|y l]]; simpl; eauto 10. }
    rewrite (differs_spec pre a c1 c2 r') by (rewrite Hd; simpl; by rewrite E).
    pose proof (Hl 0%nat a eq_refl) as H0. simpl in H0.
    rewrite bool_decide_eq_true_2 by (rewrite E1, E2 in H0; naive_solver). cbn [mbind Outcome_bind].
    simpl length. rewrite decide_True by (rewrite length_app; simpl; lia).
    rewrite (IH (pre ++ [a]) l); [f_equal; f_equal; lia|rewrite Hd; listeq| |poseq|rewrite length_app; simpl; lia|simpl in Hfuel; lia].
    by apply (proj1 (no_triple_cons a (l ++ [b; b]))) in Hl as [Hl _].
Qed.

Lemma plain_run_none pre l :
  d = pre ++ l -> no_triple l -> plain_run d (Z.of_nat (length pre)) (Z.of_nat (length l)) = Ok (Z.of_nat (length l)).
Proof.
  intros Hd Hl. unfold plain_run. case_decide; [|done].
  by rewrite (find_equal_none _ pre l) by (done || lia).
Qed.

Lemma plain_run_some pre l b r :
  d = pre ++ l ++ b :: b :: b :: r -> no_triple (l ++ [b; b]) ->
  plain_run d (Z.of_nat (length pre)) (Z.of_nat (length (l ++ b :: b :: b :: r))) = Ok (Z.of_nat (length l)).
Proof.
  intros Hd Hl. unfold plain_run. rewrite decide_True by (rewrite length_app; simpl; lia).
  rewrite (find_equal_some _ pre l b r) by (done || (rewrite length_app; simpl; lia)).
  cbn [mbind Outcome_bind]. f_equal. lia.
Qed.

(** What was put so far is [c], and there is room for [n] more controls and [len]
    more bytes. *)
Definition room_for (c : Compressor) (ks : list chunk) : Prop :=
  Z.of_nat (length (m_control c) + length ks) <= room /\
  0 <= m_length c /\ m_length c + Z.of_nat (length (codes ks)) < 2 ^ 32.

Definition put (c : Compressor) (ks : list chunk) : Compressor :=
  {| m_control := m_control c ++ (ctl <$> ks); m_length := m_length c + Z.of_nat (length (codes ks)) |}.

Lemma put_app c ks1 ks2 : put (put c ks1) ks2 = put c (ks1 ++ ks2).
Proof.
  unfold put. simpl. rewrite fmap_app, codes_app, length_app, <- app_assoc. f_equal. lia.
Qed.

Lemma room_put c ks1 ks2 : room_for c (ks1 ++ ks2) -> room_for c ks1 /\ room_for (put c ks1) ks2.
Proof.
  unfold room_for, put. simpl. rewrite codes_app, !length_app, length_fmap. lia.
Qed.

Lemma put_nil c : put c [] = c.
Proof. unfold put. destruct c. simpl. by rewrite app_nil_r, Z.add_0_r. Qed.

(** One more control *)
Lemma put_one c k b len :
  room_for c [k] -> b = ctl k -> len = Z.of_nat (length (code k)) ->
  put_control room (m_control c) b = Ok (m_control (put c [k])) /\
  wrapU 32 (m_length c + len) = m_length (put c [k]).
Proof.
  intros (H1 & H2 & H3) -> ->. unfold put_control. simpl length in H1. rewrite decide_True by lia.
  unfold put, codes in *. simpl in *. rewrite app_nil_r in *. split; [done|].
  apply wrapU_id. unfold inU. lia.
Qed.

Lemma put_plain_spec fuel l ks c :
  pieces l ks -> room_for c ks -> (length ks < fuel)%nat ->
  put_plain room fuel (Z.of_nat (length l)) c = Ok (put c ks).
Proof.
  intros H. revert fuel c. induction H as [|l ks Hl H IH]; intros fuel c Hroom Hfuel;
    (destruct fuel as [|fuel]; [simpl in Hfuel; lia|]); cbn [put_plain].
  { by rewrite decide_False, put_nil by (simpl; lia). }
  assert (0 < length l)%nat by (destruct l; [done|simpl; lia]). rewrite decide_True by lia.
  apply (room_put c [Plain (take 127 l)] ks) in Hroom as [Hone Hroom].
  assert (Hlen : Z.of_nat (length (take 127 l)) = Z.min (Z.of_nat (length l)) 127) by (rewrite length_take; lia).
  destruct (put_one c (Plain (take 127 l)) (UCHAR (Z.min (Z.of_nat (length l)) 127))
              (1 + Z.min (Z.of_nat (length l)) 127) Hone) as [-> ->].
  { rewrite <- Hlen. apply UCHAR_plain. rewrite length_take. lia. }
  { simpl. lia. }
  cbn [mbind Outcome_bind]. change {| m_control := _; m_length := _ |} with (put c [Plain (take 127 l)]).
  replace (Z.of_nat (length l) - Z.min (Z.of_nat (length l)) 127) with (Z.of_nat (length (drop 127 l)))
    by (rewrite length_drop; lia).
  rewrite IH by (done || (simpl in Hfuel; lia)). by rewrite put_app.
Qed.

Lemma run_end_spec fuel pre n b rest data max :
  d = pre ++ replicate n b ++ rest -> data = Z.of_nat (length pre) -> Z.of_nat n <= max ->
  Z.of_nat n = max \/ (exists a r, rest = a :: r /\ a <> b) -> 0 < max -> (n < fuel)%nat \/ (n <= fuel)%nat /\ Z.of_nat n = max ->
  run_end d fuel b data max = Ok (data + Z.of_nat n).
Proof.
  revert pre n data max. induction fuel as [|fuel IH]; intros pre n data max Hd -> Hn Hend Hmax Hfuel; [lia|].
  cbn [run_end]. destruct n as [|n].
  - destruct Hend as [?|(a & r & -> & Ha)]; [lia|]. simpl in Hd. rewrite Hd, aget_mid. simpl.
    rewrite decide_True by done. by rewrite Z.add_0_r.
  - replace (d @ Z.of_nat (length pre)) with (Some b) by (rewrite Hd; simpl; by rewrite aget_mid). simpl.
    rewrite decide_False by tauto. case_decide.
    + rewrite (IH (pre ++ [b]) n); [f_equal; lia|rewrite Hd; listeq|poseq|lia|destruct Hend; [left; lia|by right]|lia|lia].
    + f_equal. lia.
Qed.

Lemma equal_run_spec pre n b rest c :
  d = pre ++ replicate n b ++ rest -> (3 <= n <= 128)%nat -> n = 128%nat \/ head rest <> Some b ->
  room_for c [Equal n b] ->
  equal_run d room (Z.of_nat (length pre)) c = Ok (Z.of_nat (length pre) + Z.of_nat n, put c [Equal n b]).
Proof.
  intros Hd Hn Hend Hroom. unfold equal_run.
  assert (Hlen : Z.of_nat (length d) - Z.of_nat (length pre) = Z.of_nat n + Z.of_nat (length rest)).
  { rewrite Hd, !length_app, length_replicate. lia. }
  rewrite Hlen. rewrite decide_True by lia.
  replace (d @ Z.of_nat (length pre)) with (Some b) by (rewrite Hd; destruct n; [lia|]; simpl; by rewrite aget_mid).
  cbn [access mbind Outcome_bind]. rewrite (run_end_spec _ pre n b rest).
  - cbn [mbind Outcome_bind]. destruct (put_one c (Equal n b) (UCHAR (Z.of_nat (length pre) - (Z.of_nat (length pre) + Z.of_nat n))) 2 Hroom) as [-> ->].
    + simpl. f_equal. lia.
    + done.
    + done.
  - done.
  - done.
  - lia.
  - destruct rest as [|a rest]; [simpl; lia|]. destruct Hend as [->|Ha]; [left; lia|].
    destruct (decide (n = 128%nat)); [left; lia|]. right. exists a, rest. split; [done|]. simpl in Ha. congruence.
  - lia.
  - lia.
Qed.

Lemma compress_loop_spec fuel pre l ks c :
  compressed l ks -> d = pre ++ l -> room_for c ks -> (length l < fuel)%nat ->
  compress_loop d room fuel (Z.of_nat (length pre)) c = Ok (put c ks).
Proof.
  intros H. revert fuel pre c. induction H as [l ks Hp Hl|l ps n b rest ks Hp Hl Hn Hend H IH];
    intros fuel pre c Hd Hroom Hfuel; (destruct fuel as [|fuel]; [lia|]); cbn [compress_loop].
  - assert (Hlen : Z.of_nat (length d) - Z.of_nat (length pre) = Z.of_nat (length l)) by (rewrite Hd, length_app; lia).
    rewrite Hlen. case_decide as Hpos.
    + rewrite (plain_run_none pre l) by done. cbn [mbind Outcome_bind].
      rewrite (put_plain_spec _ l ks) by (done || (pose proof (pieces_length l ks Hp); lia)). cbn [mbind Outcome_bind].
      unfold equal_run. rewrite decide_False by lia. cbn [mbind Outcome_bind].
      destruct fuel as [|fuel]; [lia|]. cbn [compress_loop]. by rewrite decide_False by lia.
    + destruct l; [|simpl in Hpos; lia]. inversion Hp; subst; [|done]. by rewrite put_nil.
  - destruct n as [|[|[|n]]]; try lia. set (r := replicate n b ++ rest).
    assert (Hd' : d = pre ++ l ++ b :: b :: b :: r) by (rewrite Hd; listeq).
    assert (Hlen : Z.of_nat (length d) - Z.of_nat (length pre) = Z.of_nat (length (l ++ b :: b :: b :: r)))
      by (rewrite Hd', length_app; lia).
    rewrite Hlen, decide_True by (rewrite length_app; simpl; lia).
    rewrite (plain_run_some pre l b r) by done. cbn [mbind Outcome_bind].
    replace (ps ++ Equal (S (S (S n))) b :: ks) with (ps ++ [Equal (S (S (S n))) b] ++ ks) in * by done.
    apply room_put in Hroom as [Hr1 Hroom]. apply room_put in Hroom as [Hr2 Hr3].
    rewrite (put_plain_spec _ l ps) by (done || (pose proof (pieces_length l ps Hp); lia)). cbn [mbind Outcome_bind].
    replace (Z.of_nat (length pre) + Z.of_nat (length l)) with (Z.of_nat (length (pre ++ l))) by poseq.
    rewrite (equal_run_spec (pre ++ l) (S (S (S n))) b rest); [|rewrite Hd; listeq|lia|done|done].
    cbn [mbind Outcome_bind].
    replace (_ + _) with (Z.of_nat (length ((pre ++ l) ++ replicate (S (S (S n))) b))) by poseq.
    rewrite IH; [by rewrite !put_app|rewrite Hd; listeq|done|]. rewrite !length_app, length_replicate in Hfuel. lia.
Qed.
End Constructor.

Lemma Compressor_new_spec d ks :
  compressed d ks -> Z.of_nat (length d) < 2 ^ 31 ->
  Compressor_new d = Ok {| m_control := ctl <$> ks; m_length := Z.of_nat (length (codes ks)) |}.
Proof.
  intros H Hd. unfold Compressor_new. rewrite Nat2Z.id, wrapU_id by (unfold inU; lia).
  pose proof (compressed_length d ks H). pose proof (compressed_codes d ks H).
  apply (compress_loop_spec d _ _ [] d ks); [done|done| |lia]. unfold room_for. cbn [m_control m_length length].
  split; [|lia]. apply Z.div_le_lower_bound; lia.
Qed.
