(* ===== verification/SqzPart.v ===== *)
(** * Record compression: the theorems

    The round trip, what [unpack] does with any bytes, and packing the part of a
    record that fits into an area. *)

From S2P Require Import Prelude Memory Outcome Sqz SqzPack SqzCompress.

(** ** The round trip *)

(** C6. A record that is compressed and packed, into any area with room for
    [getPackedLength] bytes, and unpacked, into any area with room for the record, is
    the same record; packing and unpacking write nothing else, and the control array,
    of half as many bytes as the record, suffices. *)
Theorem sqz_roundtrip data :
  Z.of_nat (length data) < 2 ^ 31 ->
  exists c s, Compressor_new data = Ok c /\ getPackedLength c = Z.of_nat (length s) /\
    (forall out space, (length s <= length space)%nat ->
       pack c data (Z.of_nat (length out)) (out ++ space) = Ok (out ++ s ++ drop (length s) space)) /\
    (forall out space outLength, (length data <= length space)%nat -> Z.of_nat (length data) <= outLength ->
       unpack s outLength (Z.of_nat (length out)) (out ++ space) =
       Ok (Z.of_nat (length out) + Z.of_nat (length data), out ++ data ++ drop (length data) space)).
Proof.
  intros Hd. destruct (compressed_exist data) as [ks Hks].
  eexists. exists (codes ks). split; [by apply Compressor_new_spec|]. split; [done|]. split.
  - intros out space Hs. unfold pack. simpl.
    apply (pack_loop_spec _ ks [] []); [by apply (compressed_ok data)| |done..].
    by rewrite app_nil_r, (compressed_texts data ks).
  - intros out space outLength. apply unpack_packed. exists ks.
    split; [by apply (compressed_ok data)|]. by rewrite (compressed_texts data ks).
Qed.

Definition sample_record : list Z := [1; 2; 1; 7; 7; 7; 7; 9].

Lemma sqz_roundtrip_witness :
  Z.of_nat (length sample_record) < 2 ^ 31 /\
  exists c s, Compressor_new sample_record = Ok c /\ getPackedLength c = Z.of_nat (length s) /\
    (forall out space, (length s <= length space)%nat ->
       pack c sample_record (Z.of_nat (length out)) (out ++ space) = Ok (out ++ s ++ drop (length s) space)) /\
    (forall out space outLength, (length sample_record <= length space)%nat ->
       Z.of_nat (length sample_record) <= outLength ->
       unpack s outLength (Z.of_nat (length out)) (out ++ space) =
       Ok (Z.of_nat (length out) + Z.of_nat (length sample_record),
           out ++ sample_record ++ drop (length sample_record) space)).
Proof.
  assert (H : Z.of_nat (length sample_record) < 2 ^ 31) by (vm_compute; reflexivity).
  split; [exact H|]. apply (sqz_roundtrip sample_record H).
Defined.

(** ** Any bytes *)

(** A plain run goes on after the end of the input, and the area of [n] bytes has room for what it announces. *)
Definition overruns (s : list Z) (n : Z) : Prop :=
  exists s1 b s2 t, s = s1 ++ b :: s2 /\ packed s1 t /\ Z.of_nat (length s2) < signed_char b /\
    Z.of_nat (length t) + signed_char b <= n.

Lemma unpack_overruns inp out space : overruns inp (Z.of_nat (length space)) ->
  unpack inp (Z.of_nat (length space)) (Z.of_nat (length out)) (out ++ space) = Undefined.
Proof.
  intros (s1 & b & s2 & t & -> & (ks & Hks & -> & ->) & Hlong & Hroom). unfold unpack. pose proof (length_codes ks).
  set (inp := codes ks ++ b :: s2).
  assert (Hl : (length ks <= length inp)%nat) by (unfold inp; rewrite length_app; lia).
  replace (S (length inp)) with (length ks + S (length inp - length ks))%nat by lia. change 0 with (Z.of_nat (length (@nil Z))).
  rewrite (unpack_loop_prefix _ inp _ ks [] (b :: s2)) by (done || lia). cbn [app unpack_loop].
  assert (Hb : inp @ Z.of_nat (length (codes ks)) = Some b) by apply aget_mid.
  pose proof (aget_lt_Some _ _ _ Hb). rewrite decide_True, Hb by lia. cbn [access mbind Outcome_bind].
  rewrite decide_False, decide_False by (rewrite ?length_app; lia).
  assert (Hr : mem_read inp (Z.of_nat (length (codes ks)) + 1) (signed_char b) = None).
  { unfold mem_read. apply decide_False. unfold inp. rewrite length_app. simpl. lia. }
  by rewrite Hr.
Qed.

Lemma packed_step k s t : chunk_ok k -> packed s t -> packed (code k ++ s) (text k ++ t).
Proof. intros Hk (ks & Hks & -> & ->). exists (k :: ks). split; [by constructor|done]. Qed.

Lemma packed_nil : packed [] [].
Proof. by exists []. Qed.

Lemma packed_snoc s t k : packed s t -> chunk_ok k -> packed (s ++ code k) (t ++ text k).
Proof.
  intros H Hk. apply packed_app; [done|]. pose proof (packed_step k [] [] Hk packed_nil) as H1.
  by rewrite !app_nil_r in H1.
Qed.

Lemma control_chunk b :
  inU 8 b -> signed_char b < 0 -> exists n, chunk_ok (Equal n 0) /\ ctl (Equal n 0) = b /\ signed_char b = - Z.of_nat n.
Proof.
  intros Hb Hneg. pose proof (wrapS_range 8 b ltac:(lia)) as Hr. fold (signed_char b) in Hr.
  unfold inS in Hr. change (2 ^ (8 - 1)) with 128 in Hr.
  exists (Z.to_nat (- signed_char b)). simpl. rewrite Z2Nat.id by lia. split; [lia|].
  rewrite Z.opp_involutive. split; [by apply UCHAR_signed|lia].
Qed.

Lemma plain_chunk b bs :
  inU 8 b -> signed_char b = Z.of_nat (length bs) -> chunk_ok (Plain bs) /\ ctl (Plain bs) = b.
Proof.
  intros Hb E. pose proof (wrapS_range 8 b ltac:(lia)) as Hr. fold (signed_char b) in Hr.
  unfold inS in Hr. change (2 ^ (8 - 1)) with 128 in Hr. simpl. split; [lia|].
  rewrite <- E. rewrite <- (UCHAR_signed b Hb) at 2. symmetry. apply wrapU_id. unfold inU. lia.
Qed.

(** The result after the bytes [t1], of which the last is at position [n] *)
Definition unpack_post (inp : list Z) (output_end : Z) (t1 : list Z) (n : nat) (r : Outcome (Z * list Z)) : Prop :=
  match r with
  | Ok _ => exists t, packed inp (t1 ++ t) /\ Z.of_nat (n + length t) <= output_end
  | BugCheck e => e = 179
  | Undefined => overruns inp (output_end - Z.of_nat n + Z.of_nat (length t1))
  end.

Lemma unpack_post_step inp output_end t1 x n r :
  unpack_post inp output_end (t1 ++ x) (n + length x) r -> unpack_post inp output_end t1 n r.
Proof.
  destruct r as [a|e|]; simpl; [|done|].
  - intros (t & Ht & Hn). exists (x ++ t). rewrite app_assoc, length_app. split; [done|lia].
  - rewrite length_app. by replace (output_end - Z.of_nat (n + length x) + Z.of_nat (length t1 + length x))
      with (output_end - Z.of_nat n + Z.of_nat (length t1)) by lia.
Qed.

Lemma unpack_loop_decides fuel inp output_end s1 t1 s out space :
  Forall (inU 8) inp -> inp = s1 ++ s -> packed s1 t1 -> (length s < fuel)%nat ->
  output_end <= Z.of_nat (length out) + Z.of_nat (length space) ->
  unpack_post inp output_end t1 (length out)
    (unpack_loop inp output_end fuel (Z.of_nat (length s1)) (Z.of_nat (length out)) (out ++ space)).
Proof.
  intros Hb. revert s1 t1 s out space. induction fuel as [|fuel IH]; intros s1 t1 s out space Hinp Hp Hfuel Hend; [lia|].
  cbn [unpack_loop]. destruct s as [|b s].
  { rewrite app_nil_r in Hinp. subst s1. rewrite decide_False by lia. case_decide; [done|].
    exists []. rewrite app_nil_r. split; [done|simpl; lia]. }
  assert (Hc : inp @ (Z.of_nat (length s1)) = Some b) by (rewrite Hinp; apply aget_mid).
  assert (Ub : inU 8 b) by (eapply Forall_lookup_1; [exact Hb|]; by rewrite aget_nat in Hc).
  pose proof (aget_lt_Some _ _ _ Hc). rewrite decide_True, Hc by lia. cbn [access mbind Outcome_bind].
  simpl in Hfuel. case_decide as Hneg.
  - destruct (control_chunk b Ub Hneg) as (n & Hk & Hctl & Hn). rewrite Hn. case_decide as Hbad; [done|].
    destruct s as [|c s]; [exfalso; apply Hbad; left; rewrite Hinp, length_app; simpl; lia|].
    assert (Hc' : inp @ (Z.of_nat (length s1) + 1) = Some c) by (rewrite Hinp; by rewrite aget_skip).
    rewrite Hc'. cbn [access mbind Outcome_bind]. replace (-1 * - Z.of_nat n) with (Z.of_nat n) by lia.
    rewrite (memset_mid _ out space) by (done || lia). cbn [access mbind Outcome_bind].
    apply (unpack_post_step _ _ _ (replicate n c)). rewrite app_assoc, <- length_app.
    replace (Z.of_nat (length s1) + 1 + 1) with (Z.of_nat (length (s1 ++ [b; c]))) by poseq.
    replace (Z.of_nat (length out) - - Z.of_nat n) with (Z.of_nat (length (out ++ replicate n c))) by poseq.
    apply (IH _ _ s); [rewrite Hinp; listeq| |simpl in Hfuel; lia|rewrite length_app, length_replicate, length_drop; lia].
    rewrite <- Hctl. by apply (packed_snoc s1 t1 (Equal n c)).
  - case_decide as Hbad; [done|]. destruct (decide (signed_char b <= Z.of_nat (length s))) as [Hlen|Hlen].
    + destruct (split_at (Z.to_nat (signed_char b)) s) as (bs & s' & -> & Hbs); [lia|].
      destruct (plain_chunk b bs Ub) as [Hk Hctl]; [lia|].
      assert (Hr : mem_read inp (Z.of_nat (length s1) + 1) (signed_char b) = Some bs).
      { rewrite Hinp. replace (s1 ++ _) with ((s1 ++ [b]) ++ bs ++ s') by listeq.
        by apply mem_read_mid; [poseq|lia]. }
      rewrite Hr. cbn [access mbind Outcome_bind]. rewrite mem_write_mid by lia. cbn [access mbind Outcome_bind].
      apply (unpack_post_step _ _ _ bs). rewrite app_assoc, <- length_app.
      replace (Z.of_nat (length s1) + 1 + signed_char b) with (Z.of_nat (length (s1 ++ b :: bs))) by poseq.
      replace (Z.of_nat (length out) + signed_char b) with (Z.of_nat (length (out ++ bs))) by poseq.
      apply (IH _ _ s'); [rewrite Hinp; listeq| |rewrite length_app in Hfuel; lia|rewrite length_app, length_drop; lia].
      rewrite <- Hctl. by apply (packed_snoc s1 t1 (Plain bs)).
    + assert (Hr : mem_read inp (Z.of_nat (length s1) + 1) (signed_char b) = None).
      { unfold mem_read. apply decide_False. rewrite Hinp, length_app. simpl. lia. }
      rewrite Hr. simpl. exists s1, b, s, t1. split; [done|]. split; [done|]. split; lia.
Qed.

(** C40. [unpack] of any bytes at all into an area ends in one of three ways. If and only if they
    stand for bytes that fit, it succeeds, and writes those and nothing else; if and only if a plain run, for which the
    area has room, goes on after the end of the input, it reads further, which it does not notice; in all other
    cases, where the bytes do not fit or a run lacks its byte, and only there, it stops with the message 179. *)
Theorem unpack_any inp out space :
  Forall (inU 8) inp ->
  let result := unpack inp (Z.of_nat (length space)) (Z.of_nat (length out)) (out ++ space) in
  let fits t := packed inp t /\ (length t <= length space)%nat in
  (forall output m, result = Ok (output, m) <->
     exists t, fits t /\ output = Z.of_nat (length out) + Z.of_nat (length t) /\ m = out ++ t ++ drop (length t) space) /\
  (result = Undefined <-> overruns inp (Z.of_nat (length space))) /\
  (forall e, result = BugCheck e <-> e = 179 /\ ~ (exists t, fits t) /\ ~ overruns inp (Z.of_nat (length space))).
Proof.
  intros Hb result fits. pose proof (unpack_loop_decides (S (length inp)) inp (Z.of_nat (length out) + Z.of_nat (length space))
    [] [] inp out space Hb eq_refl packed_nil (Nat.lt_succ_diag_r _) (Z.le_refl _)) as H.
  change (unpack_post inp (Z.of_nat (length out) + Z.of_nat (length space)) [] (length out) result) in H.
  assert (Hok : forall t, fits t -> result = Ok (Z.of_nat (length out) + Z.of_nat (length t), out ++ t ++ drop (length t) space)).
  { intros t [Ht Hl]. apply unpack_packed; [done|done|lia]. }
  pose proof (unpack_overruns inp out space) as Hov. fold result in Hov.
  assert (Hgood : forall output m, result = Ok (output, m) -> exists t, fits t).
  { intros output m E. rewrite E in H. destruct H as (t & Ht & Hl). exists t. split; [done|lia]. }
  split_and!.
  - intros output m. split; [|by intros (t & Ht & -> & ->); auto]. intros E. destruct (Hgood _ _ E) as [t Ht]. exists t.
    split; [done|]. rewrite (Hok t Ht) in E. by injection E as <- <-.
  - split; [|exact Hov]. intros E. rewrite E in H. simpl in H.
    by replace (Z.of_nat (length space)) with (Z.of_nat (length out) + Z.of_nat (length space) - Z.of_nat (length out) + 0) by lia.
  - intros e. split.
    + intros E. rewrite E in H. split; [done|]. split; [intros [t Ht]; specialize (Hok t Ht)|intros Ho; specialize (Hov Ho)]; congruence.
    + intros (-> & Hn1 & Hn2). destruct result as [[output m]|e'|] eqn:E; [|by simpl in H; subst|].
      * destruct Hn1. by apply (Hgood output m).
      * simpl in H. destruct Hn2.
        by replace (Z.of_nat (length space)) with (Z.of_nat (length out) + Z.of_nat (length space) - Z.of_nat (length out) + 0) by lia.
Qed.

(** Three bytes announced and two there: with room for four they are read, with room for two the message stops it. *)
Lemma unpack_any_witness :
  unpack [3; 1; 2] 4 0 (replicate 4 0) = Undefined /\ unpack [3; 1; 2] 2 0 (replicate 2 0) = BugCheck 179.
Proof.
  assert (H : Forall (inU 8) [3; 1; 2]) by (repeat constructor; unfold inU; simpl; lia).
  split.
  - destruct (unpack_any [3; 1; 2] [] (replicate 4 0) H) as (_ & [_ Hu] & _). apply Hu.
    exists [], 3, [1; 2], []. split; [done|]. split; [apply packed_nil|]. split; vm_compute; [reflexivity|discriminate].
  - destruct (unpack_any [3; 1; 2] [] (replicate 2 0) H) as (_ & _ & Hb).
    apply (proj2 (Hb 179)). split; [done|]. split.
    + intros (t & (ks & Hks & Hc & _) & _). destruct ks as [|k ks]; [done|]. rewrite codes_cons in Hc.
      apply Forall_cons in Hks as [Hk _]. pose proof (signed_ctl k Hk) as Hs. destruct k as [bs|n b]; cbn in Hc, Hs.
      * injection Hc as E1 E2. rewrite <- E1 in Hs. change (signed_char 3) with 3 in Hs.
        apply (f_equal length) in E2. rewrite length_app in E2. cbn in E2. lia.
      * injection Hc as E1 _. rewrite <- E1 in Hs. change (signed_char 3) with 3 in Hs. lia.
    + intros (s1 & b & s2 & t & E & (ks & Hks & -> & ->) & Hlong & Hroom). destruct ks as [|k ks].
      * cbn in E, Hroom. injection E as <- <-. by vm_compute in Hroom.
      * rewrite codes_cons in E. apply Forall_cons in Hks as [Hk _]. pose proof (signed_ctl k Hk) as Hs.
        destruct k as [bs|n c]; cbn in E, Hs.
        -- injection E as E1 E2. rewrite <- E1 in Hs. change (signed_char 3) with 3 in Hs.
           apply (f_equal length) in E2. rewrite !length_app in E2. cbn in E2. lia.
        -- injection E as E1 _. rewrite <- E1 in Hs. change (signed_char 3) with 3 in Hs. lia.
Defined.

(** The read after the end *)
Example unpack_overrun : unpack [3; 1; 2] 4 0 (replicate 4 0) = Undefined.
Proof. vm_compute. reflexivity. Qed.

(** ** A part of a record *)

Lemma signed_negative k :
  chunk_ok k -> match k with Plain _ => True | Equal n _ => Z.land (Z.of_nat n) 255 = Z.of_nat n end.
Proof.
  destruct k as [bs|n b]; [done|]. intros Hn. simpl in Hn. change 255 with (Z.ones 8).
  rewrite Z.land_ones by lia. apply Z.mod_small. lia.
Qed.

(** What is packed of [ks] into [n] bytes: the code [s] of the bytes [t]. *)
Definition part_of (ks : list chunk) (n : nat) (s t : list Z) : Prop :=
  length s = n /\ packed s t /\ exists u, texts ks = t ++ u.

Lemma part_of_cons k ks n s t :
  chunk_ok k -> part_of ks n s t -> part_of (k :: ks) (length (code k) + n) (code k ++ s) (text k ++ t).
Proof.
  intros Hk (<- & Hp & u & Hu). split; [by rewrite length_app|]. split; [by apply packed_step|].
  exists u. by rewrite texts_cons, Hu, app_assoc.
Qed.

Lemma part_of_none ks : part_of ks 0 [] [].
Proof. split; [done|]. split; [apply packed_nil|]. by exists (texts ks). Qed.

(** One byte is left: a control for nothing. *)
Lemma part_of_zero ks : part_of ks 1 [0] [].
Proof.
  split; [done|]. split; [|by exists (texts ks)]. by apply (packed_step (Plain []) [] []); [simpl; lia|apply packed_nil].
Qed.

Lemma part_of_plain bs ks n :
  (length bs <= 127)%nat -> (n < length bs)%nat ->
  part_of (Plain bs :: ks) (S n) (Z.of_nat n :: take n bs) (take n bs).
Proof.
  intros Hbs Hn. assert (Hl : length (take n bs) = n) by (rewrite length_take; lia). split; [simpl; by rewrite Hl|].
  split.
  - pose proof (packed_step (Plain (take n bs)) [] [] ltac:(simpl; lia) packed_nil) as H. simpl in H.
    by rewrite Hl, !app_nil_r in H.
  - exists (drop n bs ++ texts ks). rewrite texts_cons. simpl. by rewrite app_assoc, take_drop.
Qed.

Section Part.
Context (data pre post : list Z) (k : chunk) (ks : list chunk) (out space : list Z) (n : nat).
Context (Hk : chunk_ok k) (Hdata : data = pre ++ texts (k :: ks) ++ post) (Hspace : (n <= length space)%nat).

(** A chunk that fits *)
Lemma pack_part_fits :
  (2 <= n)%nat -> (length (code k) <= n)%nat ->
  pack_part_loop data (ctl <$> k :: ks) (Z.of_nat n) (Z.of_nat (length pre)) (Z.of_nat (length out)) (out ++ space) =
    pack_part_loop data (ctl <$> ks) (Z.of_nat (n - length (code k))) (Z.of_nat (length (pre ++ text k)))
      (Z.of_nat (length (out ++ code k))) ((out ++ code k) ++ drop (length (code k)) space) /\
  partial_loop (ctl <$> k :: ks) (Z.of_nat n) (Z.of_nat (length pre)) =
    partial_loop (ctl <$> ks) (Z.of_nat (n - length (code k))) (Z.of_nat (length (pre ++ text k))).
Proof.
  intros Hn Hfit. simpl fmap. cbn [pack_part_loop partial_loop]. rewrite !decide_False by lia.
  destruct space as [|x space']; [simpl in Hspace; lia|]. rewrite aset_mid by done. cbn [access mbind Outcome_bind].
  rewrite UCHAR_signed_ctl, signed_ctl by done. pose proof (signed_negative k Hk) as Hneg.
  destruct k as [bs|r b]; simpl in Hk, Hfit, Hspace.
  - rewrite !(decide_False (P := Z.of_nat (length bs) < 0)), !(decide_False (P := Z.of_nat n - 1 - _ < 0)) by lia.
    rewrite !length_app.
    replace (Z.of_nat n - 1 - Z.of_nat (length bs)) with (Z.of_nat (n - length (code (Plain bs)))) by (simpl; lia).
    replace (Z.of_nat (length pre) + Z.of_nat (length bs)) with (Z.of_nat (length pre + length (text (Plain bs)))) by (simpl; lia).
    split; [|done]. case_decide as Hpos.
    + rewrite (copy_mid _ _ _ _ _ pre bs (texts ks ++ post) (out ++ [ctl (Plain bs)]) space');
        [|rewrite Hdata; listeq|listeq|done|poseq|done|lia].
      cbn [mbind Outcome_bind]. f_equal; [simpl; lia|]. listeq.
    + destruct bs; [|simpl in Hpos; lia]. f_equal; [simpl; lia|simpl; lia|]. listeq.
  - rewrite !decide_True by lia. rewrite Z.opp_involutive, Hneg.
    assert (Hb : data @ Z.of_nat (length pre) = Some b).
    { rewrite Hdata, texts_cons. cbn [text]. destruct r as [|r]; [lia|]. apply aget_mid. }
    rewrite Hb. cbn [access mbind Outcome_bind].
    destruct space' as [|y space']; [simpl in Hspace; lia|].
    replace (out ++ ctl (Equal r b) :: y :: space') with ((out ++ [ctl (Equal r b)]) ++ y :: space') by listeq.
    rewrite aset_mid by poseq. cbn [access mbind Outcome_bind].
    replace (Z.of_nat n - 1 - 1) with (Z.of_nat (n - length (code (Equal r b)))) by (change (length (code (Equal r b))) with 2%nat; lia).
    replace (Z.of_nat (length pre) + Z.of_nat r) with (Z.of_nat (length (pre ++ text (Equal r b)))) by (cbn [text]; poseq).
    split; [|done]. f_equal; [poseq|]. listeq.
Qed.

(** A plain chunk that does not fit *)
Lemma pack_part_cut bs l :
  k = Plain bs -> n = S (S l) -> (S l < length bs)%nat ->
  pack_part_loop data (ctl <$> k :: ks) (Z.of_nat n) (Z.of_nat (length pre)) (Z.of_nat (length out)) (out ++ space) =
    Ok (Z.of_nat (length pre) + Z.of_nat (S l), out ++ (Z.of_nat (S l) :: take (S l) bs) ++ drop n space) /\
  partial_loop (ctl <$> k :: ks) (Z.of_nat n) (Z.of_nat (length pre)) = Ok (Z.of_nat (length pre) + Z.of_nat (S l)).
Proof.
  intros -> -> Hl. simpl fmap. cbn [pack_part_loop partial_loop]. rewrite !decide_False by lia.
  destruct space as [|x space']; [simpl in Hspace; lia|]. rewrite aset_mid by done. cbn [access mbind Outcome_bind].
  simpl in Hk, Hspace. rewrite signed_plain by lia. rewrite !(decide_False (P := Z.of_nat (length bs) < 0)) by lia.
  rewrite !(decide_True (P := Z.of_nat (S (S l)) - 1 - _ < 0)) by lia.
  replace (Z.of_nat (length bs) + (Z.of_nat (S (S l)) - 1 - Z.of_nat (length bs))) with (Z.of_nat (S l)) by lia.
  split; [|done]. rewrite aset_mid by lia. cbn [access mbind Outcome_bind]. rewrite decide_True by lia.
  assert (Hlen : length (take (S l) bs) = S l) by (rewrite length_take; lia).
  rewrite UCHAR_plain by lia.
  rewrite (copy_mid _ _ _ _ _ pre (take (S l) bs) (drop (S l) bs ++ texts ks ++ post) (out ++ [Z.of_nat (S l)]) space');
    [|rewrite Hdata, texts_cons; cbn [text]; rewrite <- (take_drop (S l) bs) at 1; listeq|listeq|done|poseq|by rewrite Hlen|lia].
  cbn [mbind Outcome_bind]. rewrite Hlen. do 2 f_equal. listeq.
Qed.
End Part.

Lemma pack_part_loop_spec data ks pre post out space n :
  Forall chunk_ok ks -> data = pre ++ texts ks ++ post -> (n < length (codes ks))%nat -> (n <= length space)%nat ->
  exists s t, part_of ks n s t /\
    pack_part_loop data (ctl <$> ks) (Z.of_nat n) (Z.of_nat (length pre)) (Z.of_nat (length out)) (out ++ space) =
      Ok (Z.of_nat (length pre) + Z.of_nat (length t), out ++ s ++ drop n space) /\
    partial_loop (ctl <$> ks) (Z.of_nat n) (Z.of_nat (length pre)) = Ok (Z.of_nat (length pre) + Z.of_nat (length t)).
Proof.
  intros Hks. revert pre out space n.
  induction Hks as [|k ks Hk Hks IH]; intros pre out space n Hdata Hn Hl; [simpl in Hn; lia|].
  destruct n as [|[|n]].
  - exists [], []. split; [apply part_of_none|]. simpl. by rewrite Z.add_0_r, drop_0.
  - exists [0], []. split; [apply part_of_zero|]. simpl.
    destruct space as [|x space]; [simpl in Hl; lia|]. rewrite aset_mid by done. cbn [access mbind Outcome_bind].
    rewrite Z.add_0_r. simpl. by rewrite drop_0.
  - destruct (decide (length (code k) <= S (S n))%nat) as [Hfit|Hcut].
    + destruct (pack_part_fits data pre post k ks out space (S (S n)) Hk Hdata Hl) as [-> ->]; [lia|done|].
      rewrite codes_cons, length_app in Hn.
      destruct (IH (pre ++ text k) (out ++ code k) (drop (length (code k)) space) (S (S n) - length (code k))%nat)
        as (s & t & Hpart & -> & ->); [rewrite Hdata; listeq|lia|rewrite length_drop; lia|].
      exists (code k ++ s), (text k ++ t). split.
      { replace (S (S n)) with (length (code k) + (S (S n) - length (code k)))%nat at 1 by lia. by apply part_of_cons. }
      rewrite drop_drop, Nat.add_sub_assoc, Nat.add_comm, Nat.add_sub by lia.
      rewrite !length_app, !Nat2Z.inj_add, Z.add_assoc, <- !app_assoc. done.
    + destruct k as [bs|r b]; [|simpl in Hcut; lia]. simpl in Hk, Hcut.
      destruct (pack_part_cut data pre post (Plain bs) ks out space (S (S n)) Hk Hdata Hl bs n) as [-> ->]; [done|done|lia|].
      exists (Z.of_nat (S n) :: take (S n) bs), (take (S n) bs). split; [apply part_of_plain; lia|].
      by rewrite length_take, Nat.min_l by lia.
Qed.

(** Where everything fits, [pack_part] and [partial_loop] stop with a message. *)
Definition not_empty (k : chunk) : Prop := text k <> [].

Lemma pack_part_all data ks pre post out space n :
  Forall chunk_ok ks -> Forall not_empty ks -> data = pre ++ texts ks ++ post ->
  (length (codes ks) <= n)%nat -> (n <= length space)%nat ->
  pack_part_loop data (ctl <$> ks) (Z.of_nat n) (Z.of_nat (length pre)) (Z.of_nat (length out)) (out ++ space) = BugCheck 178 /\
  partial_loop (ctl <$> ks) (Z.of_nat n) (Z.of_nat (length pre)) = BugCheck 178.
Proof.
  intros Hks. revert pre out space n. induction Hks as [|k ks Hk Hks IH]; intros pre out space n Hne Hdata Hn Hl; [done|].
  apply Forall_cons in Hne as [Hk0 Hne]. rewrite codes_cons, length_app in Hn.
  assert (2 <= length (code k))%nat by (destruct k as [[|x bs]|r b]; simpl; [done|lia|lia]).
  destruct (pack_part_fits data pre post k ks out space n Hk Hdata Hl) as [-> ->]; [lia|lia|].
  apply IH; [done|rewrite Hdata; listeq|lia|rewrite length_drop; lia].
Qed.

Lemma pieces_not_empty l ks : pieces l ks -> Forall not_empty ks.
Proof. induction 1 as [|l ks Hl H IH]; constructor; [by destruct l|done]. Qed.

Lemma compressed_not_empty d ks : compressed d ks -> Forall not_empty ks.
Proof.
  induction 1 as [l ks H _|l ps n b rest ks H _ Hn _ _ IH]; [by apply pieces_not_empty in H|].
  apply Forall_app. split; [by apply pieces_not_empty in H|]. constructor; [|done].
  unfold not_empty. simpl. destruct n; [lia|done].
Qed.

(** [pack] into an area of [n] bytes that is too small for the record fills all of
    it and answers how many bytes of the record are there, as [getPartialLength] does
    without the output; unpacking the area gives those bytes. If the area is large
    enough, both stop with the message 178. *)
Theorem pack_part_correct data c n out space :
  Compressor_new data = Ok c -> Z.of_nat (length data) < 2 ^ 31 ->
  Z.of_nat n < 2 ^ 31 -> (n <= length space)%nat ->
  if decide (Z.of_nat n < getPackedLength c) then
    exists s t u, data = t ++ u /\ length s = n /\ packed s t /\
      getPartialLength c (Z.of_nat n) = Ok (Z.of_nat (length t)) /\
      pack_part c data (Z.of_nat n) (Z.of_nat (length out)) (out ++ space) =
        Ok (Z.of_nat (length t), out ++ s ++ drop n space)
  else getPartialLength c (Z.of_nat n) = BugCheck 178 /\
    pack_part c data (Z.of_nat n) (Z.of_nat (length out)) (out ++ space) = BugCheck 178.
Proof.
  intros Hc Hd Hn Hl. destruct (compressed_exist data) as [ks Hks].
  rewrite (Compressor_new_spec data ks Hks Hd) in Hc. injection Hc as <-.
  unfold getPackedLength, getPartialLength, pack_part. simpl. rewrite (wrapS_id 32) by (unfold inS; lia).
  assert (Hdata : data = [] ++ texts ks ++ []) by (by rewrite app_nil_r, (compressed_texts data ks)).
  pose proof (compressed_ok data ks Hks) as Hok. case_decide as Hfit.
  - destruct (pack_part_loop_spec data ks [] [] out space n Hok Hdata) as (s & t & (Hs & Hp & u & Hu) & E1 & E2); [lia|done|].
    exists s, t, u. split; [by rewrite Hdata, app_nil_r|]. by repeat (split; [done|]).
  - destruct (pack_part_all data ks [] [] out space n Hok (compressed_not_empty data ks Hks) Hdata) as [E1 E2]; [lia|done|].
    by split.
Qed.

Lemma pack_part_correct_witness :
  let c := {| m_control := [3; 252; 1]; m_length := 8 |} in
  Compressor_new sample_record = Ok c /\
  if decide (Z.of_nat 3 < getPackedLength c) then
    exists s t u, sample_record = t ++ u /\ length s = 3%nat /\ packed s t /\
      getPartialLength c (Z.of_nat 3) = Ok (Z.of_nat (length t)) /\
      pack_part c sample_record (Z.of_nat 3) (Z.of_nat (length (@nil Z))) ([] ++ replicate 5 0) =
        Ok (Z.of_nat (length t), [] ++ s ++ drop 3 (replicate 5 0))
  else getPartialLength c (Z.of_nat 3) = BugCheck 178 /\
    pack_part c sample_record (Z.of_nat 3) (Z.of_nat (length (@nil Z))) ([] ++ replicate 5 0) = BugCheck 178.
Proof.
  intros c. assert (H : Compressor_new sample_record = Ok c) by (vm_compute; reflexivity).
  split; [exact H|]. apply (pack_part_correct sample_record c 3 [] (replicate 5 0) H); [vm_compute; reflexivity..|simpl; lia].
Defined.
