(* ===== verification/SqzDiff.v ===== *)
(** * Differences of records: [makeDiff], [applyDiff] and [makeNoDiff] of
    [src/src/jrd/sqz.cpp]

    A record version is stored as its difference to the next one, if that is short.
    A positive control is followed by so many bytes of the other record, a negative
    one says how many bytes are the same. *)

From S2P Require Import Prelude Memory Outcome Sqz SqzPack.

Definition MAX_DIFFERENCES : Z := 1024.

(** ** [applyDiff] *)

Section Apply.
Context (differences : list Z) (outLength : Z).

Fixpoint apply_loop (fuel : nat) (input p : Z) (m : list Z) : Outcome (Z * list Z) :=
  match fuel with
  | O => Undefined
  | S fuel =>
      let fin := Z.of_nat (length differences) in
      if decide (input < fin /\ p < outLength) then
        b ← access (differences @ input);
        let l := signed_char b in
        let input := input + 1 in
        if decide (l > 0) then
          if decide (p + l > outLength) then BugCheck 177
          else if decide (input + l > fin) then BugCheck 176
          else
            m ← copy differences m p input l;
            apply_loop fuel (input + l) (p + l) m
        else apply_loop fuel input (p + - l) m
      else if decide (p > outLength \/ input < fin) then BugCheck 177
      else Ok (p, m)
  end.
End Apply.

(** The length of the record and its bytes, which start as those of the other one. *)
Definition applyDiff (differences : list Z) (outLength : Z) (output : list Z) : Outcome (Z * list Z) :=
  if decide (Z.of_nat (length differences) > MAX_DIFFERENCES) then BugCheck 176
  else apply_loop differences outLength (S (length differences)) 0 0 output.

(** ** [makeNoDiff] *)

Fixpoint no_diff_loop (fuel : nat) (length temp : Z) (m : list Z) : Outcome (Z * list Z) :=
  match fuel with
  | O => Undefined
  | S fuel =>
      if decide (length > 127) then
        m ← access (aset m temp (UCHAR (-127)));
        no_diff_loop fuel (length - 127) (temp + 1) m
      else if decide (length <> 0) then
        m ← access (aset m temp (UCHAR (- length)));
        Ok (temp + 1, m)
      else Ok (temp, m)
  end.

Definition makeNoDiff (outLength : Z) (output : list Z) : Outcome (Z * list Z) :=
  no_diff_loop (S (Z.to_nat outLength)) (wrapS 32 outLength) 0 output.

(** ** [makeDiff]

    [None] is [MAX_ULONG]: there is no room. *)

Definition or_full {A B} (f : A -> Outcome (option B)) (m : Outcome (option A)) : Outcome (option B) :=
  r ← m; match r with Some a => f a | None => Ok None end.

Notation "' p <~ e ; k" := (or_full (fun p => k) e)
  (at level 20, p pattern, e at level 100, k at level 200, only parsing) : fb_scope.

Section Make.
Context (rec1 rec2 : list Z) (fin : Z).

Definition end1 : Z := Z.min (Z.of_nat (length rec1)) (Z.of_nat (length rec2)).
Definition end2 : Z := Z.of_nat (length rec2).

Definition STUFF (val output : Z) (m : list Z) : Outcome (option (Z * list Z)) :=
  if decide (output < fin) then
    m ← access (aset m output val);
    Ok (Some (output + 1, m))
  else Ok None.

(** [rec1[0] != rec2[0] || (limit && rec1[1] != rec2[1])] *)
Definition pair_differs (r1 r2 : Z) (limit : bool) : Outcome bool :=
  a ← access (rec1 @ r1);
  b ← access (rec2 @ r2);
  if decide (a <> b) then Ok true
  else if limit then
    a ← access (rec1 @ (r1 + 1));
    b ← access (rec2 @ (r2 + 1));
    Ok (bool_decide (a <> b))
  else Ok false.

Fixpoint stuff_differing (fuel : nat) (yellow r1 r2 output : Z) (m : list Z)
    : Outcome (option (Z * Z * Z * list Z)) :=
  match fuel with
  | O => Undefined
  | S fuel =>
      differ ← (if decide (r1 <= yellow) then pair_differs r1 r2 (bool_decide (r1 < yellow)) else Ok false);
      if differ : bool then
        b ← access (rec2 @ r2);
        '(output, m) <~ STUFF b output m;
        stuff_differing fuel yellow (r1 + 1) (r2 + 1) output m
      else Ok (Some (r1, r2, output, m))
  end.

Fixpoint skip_same (fuel : nat) (r1 r2 : Z) : Outcome (Z * Z) :=
  match fuel with
  | O => Undefined
  | S fuel =>
      if decide (r1 < end1) then
        a ← access (rec1 @ r1);
        b ← access (rec2 @ r2);
        if decide (a = b) then skip_same fuel (r1 + 1) (r2 + 1) else Ok (r1, r2)
      else Ok (r1, r2)
  end.

(** The controls of bytes that are the same *)
Fixpoint stuff_same (fuel : nat) (l output : Z) (m : list Z) : Outcome (option (Z * list Z)) :=
  match fuel with
  | O => Undefined
  | S fuel =>
      if decide (l < -127) then
        '(output, m) <~ STUFF (UCHAR (-127)) output m;
        stuff_same fuel (l + 127) output m
      else if decide (l <> 0) then STUFF (UCHAR l) output m
      else Ok (Some (output, m))
  end.

Fixpoint diff_loop (fuel : nat) (r1 r2 output : Z) (m : list Z) : Outcome (option (Z * Z * list Z)) :=
  match fuel with
  | O => Undefined
  | S fuel =>
      if decide (end1 - r1 > 2) then
        differ ← pair_differs r1 r2 true;
        if differ : bool then
          let p := output in
          let yellow := Z.min end1 (r1 + 127) - 1 in
          '(r1, r2, output, m) <~ stuff_differing 128 yellow r1 r2 (output + 1) m;
          m ← access (aset m p (UCHAR (output - p - 1)));
          diff_loop fuel r1 r2 output m
        else
          let p := r2 in
          '(r1, r2) ← skip_same (S (Z.to_nat end1)) r1 r2;
          '(output, m) <~ stuff_same (S (Z.to_nat end1)) (p - r2) output m;
          diff_loop fuel r1 r2 output m
      else Ok (Some (r2, output, m))
  end.

Fixpoint stuff_until (fuel : nat) (yellow r2 output : Z) (m : list Z) : Outcome (option (Z * Z * list Z)) :=
  match fuel with
  | O => Undefined
  | S fuel =>
      if decide (r2 < yellow) then
        b ← access (rec2 @ r2);
        '(output, m) <~ STUFF b output m;
        stuff_until fuel yellow (r2 + 1) output m
      else Ok (Some (r2, output, m))
  end.

Fixpoint diff_tail (fuel : nat) (r2 output : Z) (m : list Z) : Outcome (option (Z * list Z)) :=
  match fuel with
  | O => Undefined
  | S fuel =>
      if decide (r2 < end2) then
        let p := output in
        let yellow := Z.min end2 (r2 + 127) in
        '(r2, output, m) <~ stuff_until 128 yellow r2 (output + 1) m;
        m ← access (aset m p (UCHAR (output - p - 1)));
        diff_tail fuel r2 output m
      else Ok (Some (output, m))
  end.
End Make.

Definition makeDiff (rec1 rec2 : list Z) (outLength : Z) (output : list Z) : Outcome (option (Z * list Z)) :=
  '(r2, out, m) <~ diff_loop rec1 rec2 outLength (S (length rec2)) 0 0 0 output;
  diff_tail rec2 outLength (S (length rec2)) r2 out m.

Example diff_sample :
  let rec1 := [1; 2; 3; 4; 5; 6; 7; 8] in
  let rec2 := [1; 2; 9; 4; 5; 6; 0; 8; 7] in
  (r ← makeDiff rec1 rec2 20 (replicate 20 0);
   match r with
   | Some (n, m) => back ← applyDiff (take (Z.to_nat n) m) 9 (rec1 ++ [0]); Ok (take (Z.to_nat n) m, back)
   | None => Undefined
   end) = Ok ([254; 1; 9; 253; 3; 0; 8; 7], (9, rec2)).
Proof. vm_compute. reflexivity. Qed.
