(* ===== verification/SqzDelta.v ===== *)
(** * Differences of records: the theorems

    A difference is the code of a list of pieces, each some bytes of the other record
    or a number of bytes that are the same. [makeDiff] makes such pieces from the first
    to the last byte of a record, and [applyDiff] goes through them. *)

From S2P Require Import Prelude Memory Outcome Sqz SqzPack SqzDiff.

Inductive piece := Other (bs : list Z) | Same (n : nat).

Definition span (p : piece) : nat := match p with Other bs => length bs | Same n => n end.

Definition pcode (p : piece) : list Z :=
  match p with Other bs => Z.of_nat (length bs) :: bs | Same n => [UCHAR (- Z.of_nat n)] end.

Definition spans (ps : list piece) : nat := list_sum (span <$> ps).
Definition pcodes (ps : list piece) : list Z := concat (pcode <$> ps).

Lemma spans_app ps qs : spans (ps ++ qs) = (spans ps + spans qs)%nat.
Proof. unfold spans. by rewrite fmap_app, list_sum_app. Qed.

Lemma pcodes_app ps qs : pcodes (ps ++ qs) = pcodes ps ++ pcodes qs.
Proof. unfold pcodes. by rewrite fmap_app, concat_app. Qed.

Lemma spans_cons p ps : spans (p :: ps) = (span p + spans ps)%nat.
Proof. done. Qed.

Lemma pcodes_cons p ps : pcodes (p :: ps) = pcode p ++ pcodes ps.
Proof. done. Qed.

Section Delta.
Context (rec1 rec2 : list Z).

(** The bytes from position [i] on *)
Definition piece_at (i : nat) (p : piece) : Prop :=
  (1 <= span p <= 127)%nat /\ (i + span p <= length rec2)%nat /\
  match p with
  | Other bs => take (length bs) (drop i rec2) = bs
  | Same n => forall k, (i <= k < i + n)%nat -> is_Some (rec1 !! k) /\ rec1 !! k = rec2 !! k
  end.

Fixpoint delta (i : nat) (ps : list piece) : Prop :=
  match ps with
  | [] => True
  | p :: ps => piece_at i p /\ delta (i + span p) ps
  end.

Lemma delta_app i ps qs : delta i (ps ++ qs) <-> delta i ps /\ delta (i + spans ps) qs.
Proof.
  revert i. induction ps as [|p ps IH]; intros i; simpl.
  - rewrite Nat.add_0_r. tauto.
  - rewrite IH, spans_cons, Nat.add_assoc. tauto.
Qed.

Lemma delta_codes i ps : delta i ps -> (length (pcodes ps) <= 2 * spans ps)%nat.
Proof.
  revert i. induction ps as [|p ps IH]; intros i; simpl; [done|]. intros [[Hs _] Hd]. apply IH in Hd.
  rewrite pcodes_cons, spans_cons, length_app. destruct p; simpl in *; lia.
Qed.

(** ** [applyDiff] *)

Section Apply.
Context (b : list Z) (outLength : Z).
(** [b] starts as [rec1]. *)
Context (Hb : forall k x, (k < length rec2)%nat -> rec1 !! k = Some x -> b !! k = Some x).
Context (Hout : Z.of_nat (length rec2) <= outLength <= Z.of_nat (length b)).

Lemma same_bytes i n :
  piece_at i (Same n) -> take i rec2 ++ drop i b = take (i + n) rec2 ++ drop (i + n) b.
Proof.
  intros (Hn & Hi & Hs). simpl in Hn, Hi. apply list_eq. intros k. destruct (decide (k < i)%nat).
  - rewrite !lookup_app_l by (rewrite length_take; lia). by rewrite !lookup_take_lt by lia.
  - rewrite lookup_app_r by (rewrite length_take; lia).
    rewrite length_take, Nat.min_l, lookup_drop by lia. replace (i + (k - i))%nat with k by lia.
    destruct (decide (k < i + n)%nat).
    + destruct (Hs k ltac:(lia)) as [[x Hx] E]. rewrite lookup_app_l by (rewrite length_take; lia).
      rewrite lookup_take_lt, <- E, Hx by lia. by apply Hb; [lia|].
    + rewrite lookup_app_r by (rewrite length_take; lia). rewrite length_take, lookup_drop. f_equal. lia.
Qed.

Lemma apply_loop_spec fuel differences pre i ps :
  differences = pre ++ pcodes ps -> delta i ps -> (i + spans ps = length rec2)%nat -> (length ps < fuel)%nat ->
  apply_loop differences outLength fuel (Z.of_nat (length pre)) (Z.of_nat i) (take i rec2 ++ drop i b) =
  Ok (Z.of_nat (length rec2), rec2 ++ drop (length rec2) b).
Proof.
  revert fuel pre i. induction ps as [|p ps IH]; intros fuel pre i Hdiff Hdelta Hlen Hfuel;
    (destruct fuel as [|fuel]; [simpl in Hfuel; lia|]); cbn [apply_loop].
  - unfold pcodes in Hdiff. simpl in Hdiff. rewrite app_nil_r in Hdiff. subst pre. unfold spans in Hlen. simpl in Hlen.
    rewrite decide_False, decide_False by lia. rewrite Nat.add_0_r in Hlen. subst i. by rewrite take_ge by done.
  - destruct Hdelta as [Hp Hdelta]. rewrite spans_cons in Hlen. rewrite pcodes_cons in Hdiff. simpl in Hfuel.
    pose proof Hp as (Hspan & Hi & Hpiece).
    specialize (IH fuel (pre ++ pcode p) (i + span p)%nat ltac:(rewrite Hdiff; by rewrite app_assoc) Hdelta ltac:(lia) ltac:(lia)).
    rewrite decide_True by (rewrite Hdiff, !length_app; destruct p; simpl; lia).
    destruct p as [bs|n]; cbn [pcode span] in *.
    + replace (differences @ Z.of_nat (length pre)) with (Some (Z.of_nat (length bs))) by (rewrite Hdiff; simpl; by rewrite aget_mid).
      cbn [access mbind Outcome_bind]. rewrite signed_plain, decide_True, decide_False by lia.
      rewrite decide_False by (rewrite Hdiff, !length_app; simpl; lia).
      assert (Hdrop : (length bs <= length (drop i b))%nat) by (rewrite length_drop; lia).
      rewrite (copy_mid _ _ _ _ _ (pre ++ [Z.of_nat (length bs)]) bs (pcodes ps) (take i rec2) (drop i b));
        [|rewrite Hdiff; listeq|done|poseq|rewrite length_take; lia|done|done].
      cbn [mbind Outcome_bind]. rewrite length_app in IH. simpl length in IH.
      replace (Z.of_nat (length pre) + 1 + Z.of_nat (length bs)) with (Z.of_nat (length pre + S (length bs))) by lia.
      rewrite <- Nat2Z.inj_add. rewrite <- IH. f_equal. rewrite drop_drop.
      rewrite <- Hpiece at 1. rewrite app_assoc, take_take_drop. done.
    + replace (differences @ Z.of_nat (length pre)) with (Some (UCHAR (- Z.of_nat n))) by (rewrite Hdiff; simpl; by rewrite aget_mid).
      cbn [access mbind Outcome_bind]. rewrite signed_UCHAR, decide_False by lia.
      rewrite Z.opp_involutive, <- Nat2Z.inj_add, (same_bytes i n Hp). rewrite length_app in IH. simpl length in IH.
      replace (Z.of_nat (length pre) + 1) with (Z.of_nat (length pre + 1)) by lia. apply IH.
Qed.

Lemma length_pcodes ps : (length ps <= length (pcodes ps))%nat.
Proof. induction ps as [|p ps IH]; [done|]. rewrite pcodes_cons, length_app. destruct p; simpl; lia. Qed.

Lemma applyDiff_spec ps :
  delta 0 ps -> spans ps = length rec2 -> Z.of_nat (length (pcodes ps)) <= MAX_DIFFERENCES ->
  applyDiff (pcodes ps) outLength b = Ok (Z.of_nat (length rec2), rec2 ++ drop (length rec2) b).
Proof.
  intros Hd Hs Hm. unfold applyDiff. rewrite decide_False by lia.
  apply (apply_loop_spec _ _ [] 0 ps); [done|done|done|]. pose proof (length_pcodes ps). lia.
Qed.
End Apply.
End Delta.

(** ** [makeNoDiff] *)

Lemma no_diff_loop_spec fuel n out space :
  (n < fuel)%nat -> Z.of_nat n + 126 < 127 * (Z.of_nat (length space) + 1) ->
  exists ps, no_diff_loop fuel (Z.of_nat n) (Z.of_nat (length out)) (out ++ space) =
      Ok (Z.of_nat (length (out ++ pcodes ps)), out ++ pcodes ps ++ drop (length (pcodes ps)) space) /\
    spans ps = n /\ 127 * Z.of_nat (length (pcodes ps)) <= Z.of_nat n + 126 /\
    Forall (fun p => exists k, p = Same k /\ (1 <= k <= 127)%nat) ps.
Proof.
  revert n out space. induction fuel as [|fuel IH]; intros n out space Hn Hs; [lia|]. cbn [no_diff_loop].
  case_decide as Hbig; [|case_decide as Hnz].
  - destruct space as [|x space]; [simpl in Hs; lia|]. rewrite aset_mid by done. cbn [access mbind Outcome_bind].
    destruct (IH (n - 127)%nat (out ++ [UCHAR (-127)]) space) as (ps & E & Hsp & Hlen & Hps); [lia|simpl in Hs; lia|].
    exists (Same 127 :: ps). rewrite spans_cons, pcodes_cons. split; [|split; [simpl; lia|split; [rewrite length_app; simpl; lia|]]].
    + replace (Z.of_nat n - 127) with (Z.of_nat (n - 127)) by lia.
      replace (Z.of_nat (length out) + 1) with (Z.of_nat (length (out ++ [UCHAR (-127)]))) by poseq.
      replace (out ++ UCHAR (-127) :: space) with ((out ++ [UCHAR (-127)]) ++ space) by listeq.
      rewrite E. simpl. by rewrite <- !app_assoc.
    + constructor; [exists 127%nat; split; [done|lia]|done].
  - destruct space as [|x space]; [simpl in Hs; lia|]. rewrite aset_mid by done. cbn [access mbind Outcome_bind].
    exists [Same n]. split; [|split; [unfold spans; simpl; lia|split; [simpl; lia|]]].
    + simpl. rewrite drop_0. do 2 f_equal. poseq.
    + constructor; [exists n; split; [done|lia]|constructor].
  - exists []. simpl. rewrite app_nil_r, drop_0. split; [done|]. split; [unfold spans; simpl; lia|]. split; [lia|constructor].
Qed.

Lemma delta_same rec i ps :
  Forall (fun p => exists k, p = Same k /\ (1 <= k <= 127)%nat) ps -> (i + spans ps <= length rec)%nat -> delta rec rec i ps.
Proof.
  intros H. revert i. induction H as [|p ps (k & -> & Hk) _ IH]; intros i Hi; [done|]. rewrite spans_cons in Hi. simpl in *.
  split; [|apply IH; lia]. split; [done|]. split; [simpl; lia|]. intros j Hj. split; [|done]. apply lookup_lt_is_Some. lia.
Qed.

(** ** [makeDiff] *)

Section Make.
Context (rec1 rec2 : list Z) (fin : Z).

Abbreviation e1 := (Nat.min (length rec1) (length rec2)).

Lemma end1_nat : end1 rec1 rec2 = Z.of_nat e1.
Proof. unfold end1. lia. Qed.

(** The result satisfies [P], or the output is full, where it has less than two bytes
    for every byte of the record. *)
Definition returns {A} (P : A -> Prop) (r : Outcome (option A)) : Prop :=
  match r with
  | Ok (Some a) => P a
  | Ok None => fin < 2 * Z.of_nat (length rec2)
  | _ => False
  end.

Lemma returns_bind {A B} (Q : A -> Prop) (P : B -> Prop) f r :
  returns Q r -> (forall a, Q a -> returns P (f a)) -> returns P (or_full f r).
Proof. destruct r as [[a|]|e|]; simpl; [|done..]. intros HQ Hf. by apply Hf. Qed.

(** [s] is what is in the memory [m] of the output. *)
Definition area (s m : list Z) : Prop := exists space, m = s ++ space /\ fin <= Z.of_nat (length m).

Lemma STUFF_spec v s m :
  area s m -> Z.of_nat (length s) < 2 * Z.of_nat (length rec2) ->
  returns (fun '(output, m) => output = Z.of_nat (length (s ++ [v])) /\ area (s ++ [v]) m) (STUFF fin v (Z.of_nat (length s)) m).
Proof.
  intros (space & -> & Hfin) Hs. unfold STUFF. case_decide as Hlt; [|simpl; lia].
  rewrite length_app in Hfin. destruct space as [|x space]; [simpl in Hfin; lia|]. rewrite aset_mid by done.
  simpl. split; [poseq|]. exists space. split; [by rewrite <- app_assoc|]. rewrite length_app. simpl in *. lia.
Qed.

(** The control before the bytes *)
Lemma control_set s x bs m :
  area (s ++ x :: bs) m -> (length bs <= 127)%nat ->
  exists m', aset m (Z.of_nat (length s)) (UCHAR (Z.of_nat (length (s ++ x :: bs)) - Z.of_nat (length s) - 1)) = Some m' /\
    area (s ++ pcode (Other bs)) m'.
Proof.
  intros (space & -> & Hfin) Hbs. rewrite <- app_assoc. simpl.
  rewrite aset_mid by done. eexists. split; [done|]. exists space.
  replace (Z.of_nat (length (s ++ x :: bs)) - Z.of_nat (length s) - 1) with (Z.of_nat (length bs)) by poseq.
  rewrite UCHAR_plain by done. split; [by rewrite <- app_assoc|]. len.
Qed.

(** The bytes of the record from [i] on that are in the output after [s] *)
Record literal (s : list Z) (i t : nat) (output : Z) (m : list Z) : Prop := {
  lit_i : (i + t <= length rec2)%nat;
  lit_s : (length s <= 2 * i)%nat;
  lit_area : Z.of_nat (length s + 1 + t) <= fin -> exists x, area (s ++ x :: take t (drop i rec2)) m;
  lit_room : t <> 0%nat -> Z.of_nat (length s + 1 + t) <= fin;
  lit_output : output = Z.of_nat (length s + 1 + t)
}.

Lemma literal_length i t : (i + t <= length rec2)%nat -> length (take t (drop i rec2)) = t.
Proof. intros H. rewrite length_take, length_drop. lia. Qed.

Lemma literal_step s i t output m b :
  literal s i t output m -> rec2 !! (i + t)%nat = Some b ->
  returns (fun '(output, m) => literal s i (S t) output m) (STUFF fin b output m).
Proof.
  intros [Hi Hs Ha _ ->] Hb. pose proof (lookup_lt_Some _ _ _ Hb) as Hlt.
  destruct (decide (Z.of_nat (length s + 1 + t) < fin)) as [Hroom|Hfull]; [|unfold STUFF; rewrite decide_False by lia; simpl; lia].
  destruct (Ha ltac:(lia)) as [x Ha'].
  pose proof (STUFF_spec b _ _ Ha') as H. rewrite length_app in H. simpl length in H. rewrite literal_length in H by done.
  replace (length s + S t)%nat with (length s + 1 + t)%nat in H by lia. specialize (H ltac:(lia)).
  destruct (STUFF _ _ _ _) as [[[o m']|]|e|]; simpl in *; [|done..]. destruct H as [-> Ha2].
  split; [lia|done| |lia|rewrite length_app, length_app; simpl; rewrite literal_length by lia; lia].
  intros _. exists x. rewrite (take_S_r _ _ b) by by rewrite lookup_drop. by rewrite <- app_assoc in Ha2.
Qed.

Lemma stuff_differing_spec fuel s i t output m :
  literal s i t output m -> (i + 2 < e1)%nat -> (t <= 127)%nat -> (i + t <= e1)%nat -> (127 - t < fuel)%nat ->
  (t = 0%nat -> ~ (rec1 !! i = rec2 !! i /\ rec1 !! S i = rec2 !! S i)) ->
  returns (fun '(r1, r2, output, m) => exists t, (1 <= t <= 127)%nat /\ (i + t <= e1)%nat /\ literal s i t output m /\
             r1 = Z.of_nat (i + t) /\ r2 = Z.of_nat (i + t))
    (stuff_differing rec1 rec2 fin fuel (Z.min (end1 rec1 rec2) (Z.of_nat i + 127) - 1) (Z.of_nat (i + t)) (Z.of_nat (i + t)) output m).
Proof.
  rewrite end1_nat. revert t output m. induction fuel as [|fuel IH]; intros t output m Hlit Hi Ht He Hfuel H0; [lia|].
  cbn [stuff_differing].
  assert (Hstop : t <> 0%nat -> returns (fun '(r1, r2, output, m) => exists t, (1 <= t <= 127)%nat /\ (i + t <= e1)%nat /\
             literal s i t output m /\ r1 = Z.of_nat (i + t) /\ r2 = Z.of_nat (i + t))
             (Ok (Some (Z.of_nat (i + t), Z.of_nat (i + t), output, m)))).
  { intros Hnz. exists t. split; [lia|]. done. }
  case_decide as Hy; [|apply Hstop; lia].
  assert (Hlt : (i + t < e1)%nat) by lia.
  destruct (lookup_lt_is_Some_2 rec1 (i + t)) as [a Ea]; [lia|]. destruct (lookup_lt_is_Some_2 rec2 (i + t)) as [b Eb]; [lia|].
  assert (Hgo : returns (fun '(r1, r2, output, m) => exists t, (1 <= t <= 127)%nat /\ (i + t <= e1)%nat /\
             literal s i t output m /\ r1 = Z.of_nat (i + t) /\ r2 = Z.of_nat (i + t))
     (b ← access (rec2 @ Z.of_nat (i + t));
      or_full (fun '(output, m) => stuff_differing rec1 rec2 fin fuel (Z.min (Z.of_nat e1) (Z.of_nat i + 127) - 1)
        (Z.of_nat (i + t) + 1) (Z.of_nat (i + t) + 1) output m) (STUFF fin b output m))).
  { rewrite aget_nat, Eb. cbn [access mbind Outcome_bind].
    eapply returns_bind; [by apply (literal_step s i t)|]. intros [o m'] Hlit'.
    replace (Z.of_nat (i + t) + 1) with (Z.of_nat (i + S t)) by lia. apply IH; [done|done|lia|lia|lia|done]. }
  unfold pair_differs. rewrite !aget_nat, Ea, Eb. cbn [access mbind Outcome_bind]. case_decide as Hab.
  { cbn [mbind Outcome_bind]. by rewrite aget_nat, Eb in Hgo. }
  case_bool_decide as Hy2; cbn [mbind Outcome_bind].
  - destruct (lookup_lt_is_Some_2 rec1 (S (i + t))) as [a2 Ea2]; [lia|].
    destruct (lookup_lt_is_Some_2 rec2 (S (i + t))) as [b2 Eb2]; [lia|].
    replace (Z.of_nat (i + t) + 1) with (Z.of_nat (S (i + t))) in * by lia. rewrite !aget_nat, Ea2, Eb2.
    cbn [access mbind Outcome_bind]. case_bool_decide as Hab2; [by rewrite aget_nat, Eb in Hgo|].
    apply Hstop. intros ->. apply (H0 eq_refl). rewrite Nat.add_0_r in *. split; congruence.
  - apply Hstop. intros ->. lia.
Qed.

(** A literal is complete. *)
Lemma literal_piece ps i t output m :
  delta rec1 rec2 0 ps -> spans ps = i -> literal (pcodes ps) i t output m -> (1 <= t <= 127)%nat ->
  exists m', aset m (Z.of_nat (length (pcodes ps))) (UCHAR (output - Z.of_nat (length (pcodes ps)) - 1)) = Some m' /\
    delta rec1 rec2 0 (ps ++ [Other (take t (drop i rec2))]) /\ spans (ps ++ [Other (take t (drop i rec2))]) = (i + t)%nat /\
    area (pcodes (ps ++ [Other (take t (drop i rec2))])) m' /\
    output = Z.of_nat (length (pcodes (ps ++ [Other (take t (drop i rec2))]))).
Proof.
  intros Hd Hi [Hlt Hs Ha Hroom ->] Ht. destruct (Ha (Hroom ltac:(lia))) as [x Ha1]. clear Ha. rename Ha1 into Ha.
  pose proof (literal_length i t Hlt) as Hlen.
  destruct (control_set _ _ _ _ Ha) as (m' & Hset & Ha'); [lia|].
  rewrite length_app in Hset. simpl length in Hset. rewrite Hlen in Hset.
  exists m'. replace (length (pcodes ps) + 1 + t)%nat with (length (pcodes ps) + S t)%nat by lia. split; [done|].
  rewrite delta_app, spans_app, pcodes_app, pcodes_cons. change (pcodes []) with (@nil Z). rewrite app_nil_r.
  split; [|split; [|split; [done|]]].
  - split; [done|]. simpl. split; [|done]. rewrite Hi. split; [simpl; lia|]. split; [simpl; lia|]. by rewrite Hlen.
  - rewrite Hi. unfold spans. simpl. lia.
  - rewrite length_app. simpl. lia.
Qed.

Lemma literal_start ps i m :
  delta rec1 rec2 0 ps -> spans ps = i -> (i <= length rec2)%nat -> area (pcodes ps) m ->
  literal (pcodes ps) i 0 (Z.of_nat (length (pcodes ps)) + 1) m.
Proof.
  intros Hd Hi Hlen (space & -> & Hfin). pose proof (delta_codes _ _ _ _ Hd).
  split; [lia|lia| |lia|lia]. intros Hroom.
  rewrite length_app in Hfin. destruct space as [|x space]; [simpl in Hfin; lia|].
  exists x, space. rewrite <- app_assoc. split; [done|]. rewrite length_app. simpl in *. lia.
Qed.

Lemma skip_same_spec fuel i :
  (i <= e1)%nat -> (e1 - i < fuel)%nat ->
  exists n, skip_same rec1 rec2 fuel (Z.of_nat i) (Z.of_nat i) = Ok (Z.of_nat (i + n), Z.of_nat (i + n)) /\
    (i + n <= e1)%nat /\ (forall k, (i <= k < i + n)%nat -> is_Some (rec1 !! k) /\ rec1 !! k = rec2 !! k) /\
    ((i < e1)%nat -> rec1 !! i = rec2 !! i -> (1 <= n)%nat).
Proof.
  revert i. induction fuel as [|fuel IH]; intros i Hi Hfuel; [lia|]. cbn [skip_same]. rewrite end1_nat.
  assert (Hstop : exists n, Ok (Z.of_nat i, Z.of_nat i) = Ok (Z.of_nat (i + n), Z.of_nat (i + n)) /\
    (i + n <= e1)%nat /\ forall k, (i <= k < i + n)%nat -> is_Some (rec1 !! k) /\ rec1 !! k = rec2 !! k).
  { exists 0%nat. rewrite Nat.add_0_r. split; [done|]. split; [lia|]. lia. }
  case_decide as Hlt.
  - destruct (lookup_lt_is_Some_2 rec1 i) as [a Ea]; [lia|]. destruct (lookup_lt_is_Some_2 rec2 i) as [b Eb]; [lia|].
    rewrite !aget_nat, Ea, Eb. cbn [access mbind Outcome_bind]. case_decide as Hab.
    + destruct (IH (S i)) as (n & E & Hn & Hsame & _); [lia|lia|].
      exists (S n). replace (Z.of_nat i + 1) with (Z.of_nat (S i)) by lia. rewrite E.
      split; [do 3 f_equal; lia|]. split; [lia|]. split; [|lia]. intros k Hk. destruct (decide (k = i)) as [->|].
      * split; [by rewrite Ea|congruence].
      * apply Hsame. lia.
    + destruct Hstop as (n & E & Hn & Hsame). exists n. split; [done|]. split; [done|]. split; [done|]. congruence.
  - destruct Hstop as (n & E & Hn & Hsame). exists n. split; [done|]. split; [done|]. split; [done|]. lia.
Qed.

Lemma same_piece ps j n :
  delta rec1 rec2 0 ps -> spans ps = j -> (1 <= n <= 127)%nat -> (j + n <= length rec2)%nat ->
  (forall k, (j <= k < j + n)%nat -> is_Some (rec1 !! k) /\ rec1 !! k = rec2 !! k) ->
  delta rec1 rec2 0 (ps ++ [Same n]) /\ spans (ps ++ [Same n]) = (j + n)%nat /\
  pcodes (ps ++ [Same n]) = pcodes ps ++ [UCHAR (- Z.of_nat n)].
Proof.
  intros Hd <- Hn Hlen Hsame. rewrite delta_app, spans_app, pcodes_app. split; [|split; [unfold spans; simpl; lia|done]].
  split; [done|]. split; [|done]. split; [done|]. by split; [simpl; lia|].
Qed.

(** The output so far is the code of pieces up to [j]. *)
Definition done_to (j : nat) (output : Z) (m : list Z) : Prop :=
  exists ps, delta rec1 rec2 0 ps /\ spans ps = j /\ output = Z.of_nat (length (pcodes ps)) /\ area (pcodes ps) m.

Lemma stuff_same_spec fuel j n output m :
  done_to j output m -> (n < fuel)%nat -> (j + n <= length rec2)%nat ->
  (forall k, (j <= k < j + n)%nat -> is_Some (rec1 !! k) /\ rec1 !! k = rec2 !! k) ->
  returns (fun '(output, m) => done_to (j + n) output m) (stuff_same fin fuel (- Z.of_nat n) output m).
Proof.
  revert j n output m. induction fuel as [|fuel IH]; intros j n output m (ps & Hd & Hj & -> & Ha) Hfuel Hlen Hsame; [lia|].
  cbn [stuff_same]. pose proof (delta_codes _ _ _ _ Hd) as Hcodes. rewrite Hj in Hcodes.
  case_decide as Hbig; [|case_decide as Hnz].
  - eapply returns_bind; [apply STUFF_spec; [done|lia]|]. intros [o m'] [-> Ha'].
    replace (- Z.of_nat n + 127) with (- Z.of_nat (n - 127)) by lia.
    replace (j + n)%nat with (j + 127 + (n - 127))%nat by lia.
    destruct (same_piece ps j 127 Hd Hj) as (Hd' & Hj' & E); [lia|lia|intros k Hk; apply Hsame; lia|].
    apply IH; [|lia|lia|intros k Hk; apply Hsame; lia]. exists (ps ++ [Same 127]).
    split; [done|]. split; [done|]. by rewrite E.
  - destruct (same_piece ps j n Hd Hj) as (Hd' & Hj' & E); [lia|lia|done|].
    pose proof (STUFF_spec (UCHAR (- Z.of_nat n)) _ _ Ha ltac:(lia)) as H.
    destruct (STUFF _ _ _ _) as [[[o m']|]|e|]; simpl in *; [|done..]. destruct H as [-> Ha'].
    exists (ps ++ [Same n]). split; [done|]. split; [done|]. by rewrite E.
  - replace n with 0%nat by lia. rewrite Nat.add_0_r. by exists ps.
Qed.

Lemma stuff_until_spec fuel s i t output m :
  literal s i t output m -> (t <= 127)%nat -> (127 - t < fuel)%nat -> (i < length rec2)%nat ->
  returns (fun '(r2, output, m) => exists t, (1 <= t <= 127)%nat /\ literal s i t output m /\ r2 = Z.of_nat (i + t))
    (stuff_until rec2 fin fuel (Z.min (end2 rec2) (Z.of_nat i + 127)) (Z.of_nat (i + t)) output m).
Proof.
  unfold end2. revert t output m. induction fuel as [|fuel IH]; intros t output m Hlit Ht Hfuel Hi; [lia|].
  cbn [stuff_until]. case_decide as Hlt.
  - destruct (lookup_lt_is_Some_2 rec2 (i + t)) as [b Eb]; [lia|]. rewrite aget_nat, Eb. cbn [access mbind Outcome_bind].
    eapply returns_bind; [by apply (literal_step s i t)|]. intros [o m'] Hlit'.
    replace (Z.of_nat (i + t) + 1) with (Z.of_nat (i + S t)) by lia. apply IH; [done|lia|lia|done].
  - exists t. split; [lia|]. done.
Qed.

Lemma diff_loop_spec fuel i output m :
  done_to i output m -> (i <= e1)%nat -> (e1 - i < fuel)%nat ->
  returns (fun '(r2, output, m) => exists j, (j <= length rec2)%nat /\ r2 = Z.of_nat j /\ done_to j output m)
    (diff_loop rec1 rec2 fin fuel (Z.of_nat i) (Z.of_nat i) output m).
Proof.
  revert i output m. induction fuel as [|fuel IH]; intros i output m Hdone Hi Hfuel; [lia|].
  cbn [diff_loop]. rewrite end1_nat. case_decide as Hmore; [|exists i; split; [lia|done]].
  destruct (lookup_lt_is_Some_2 rec1 i) as [a Ea]; [lia|]. destruct (lookup_lt_is_Some_2 rec2 i) as [b Eb]; [lia|].
  destruct (lookup_lt_is_Some_2 rec1 (S i)) as [a2 Ea2]; [lia|].
  destruct (lookup_lt_is_Some_2 rec2 (S i)) as [b2 Eb2]; [lia|].
  assert (Hpair : pair_differs rec1 rec2 (Z.of_nat i) (Z.of_nat i) true = Ok (bool_decide (~ (a = b /\ a2 = b2)))).
  { unfold pair_differs. rewrite !aget_nat, Ea, Eb. cbn [access mbind Outcome_bind].
    case_decide as Hab; [by rewrite bool_decide_eq_true_2 by naive_solver|].
    replace (Z.of_nat i + 1) with (Z.of_nat (S i)) by lia. rewrite !aget_nat, Ea2, Eb2. simpl.
    f_equal. apply bool_decide_ext. naive_solver. }
  rewrite Hpair. cbn [mbind Outcome_bind]. case_bool_decide as Hdiff.
  - destruct Hdone as (ps & Hd & Hj & -> & Ha).
    pose proof (stuff_differing_spec 128 (pcodes ps) i 0 _ m (literal_start ps i m Hd Hj ltac:(lia) Ha)) as Hlit.
    rewrite Nat.add_0_r, end1_nat in Hlit.
    eapply returns_bind; [apply Hlit; [lia|lia|lia|lia|]|].
    { intros _. rewrite Ea, Eb, Ea2, Eb2. intros [E1 E2]. apply Hdiff. split; congruence. }
    intros [[[r1 r2] o] m'] (t & Ht & He & Hl & -> & ->).
    destruct (literal_piece ps i t o m' Hd Hj Hl Ht) as (m2 & -> & Hd2 & Hj2 & Ha2 & ->). cbn [access mbind Outcome_bind].
    apply IH; [|lia|lia]. by eexists.
  - destruct Hdiff as [-> ->].
    destruct (skip_same_spec (S (Z.to_nat (Z.of_nat e1))) i) as (n & -> & Hn & Hsame & Hpos); [lia|lia|].
    cbn [mbind Outcome_bind]. replace (Z.of_nat i - Z.of_nat (i + n)) with (- Z.of_nat n) by lia.
    assert (Hn1 : (1 <= n)%nat) by (apply Hpos; [lia|congruence]).
    eapply returns_bind; [apply (stuff_same_spec _ i n); [done|lia|lia|done]|].
    intros [o m'] Hdone'. apply IH; [done|lia|lia].
Qed.

Lemma diff_tail_spec fuel i output m :
  done_to i output m -> (i <= length rec2)%nat -> (length rec2 - i < fuel)%nat ->
  returns (fun '(output, m) => done_to (length rec2) output m) (diff_tail rec2 fin fuel (Z.of_nat i) output m).
Proof.
  revert i output m. induction fuel as [|fuel IH]; intros i output m Hdone Hi Hfuel; [lia|].
  cbn [diff_tail]. unfold end2 at 1. case_decide as Hmore.
  - destruct Hdone as (ps & Hd & Hj & -> & Ha).
    pose proof (stuff_until_spec 128 (pcodes ps) i 0 _ m (literal_start ps i m Hd Hj Hi Ha)) as Hlit.
    rewrite Nat.add_0_r in Hlit. eapply returns_bind; [apply Hlit; lia|].
    intros [[r2 o] m'] (t & Ht & Hl & ->). pose proof (lit_i _ _ _ _ _ Hl) as Hlen.
    destruct (literal_piece ps i t o m' Hd Hj Hl Ht) as (m2 & -> & Hd2 & Hj2 & Ha2 & ->). cbn [access mbind Outcome_bind].
    apply IH; [|lia|lia]. by eexists.
  - simpl. by replace (length rec2) with i by lia.
Qed.

Lemma makeDiff_spec m :
  fin <= Z.of_nat (length m) ->
  returns (fun '(output, m) => done_to (length rec2) output m) (makeDiff rec1 rec2 fin m).
Proof.
  intros Hm. unfold makeDiff. eapply returns_bind.
  - apply (diff_loop_spec _ 0 0 m); [|lia|lia]. exists []. split; [done|]. split; [done|]. split; [done|]. by exists m.
  - intros [[r2 o] m'] (j & Hj & -> & Hdone). apply diff_tail_spec; [done|done|lia].
Qed.
End Make.

(** ** The theorems *)

(** [b] starts as [rec], as far as both go up to [n]. *)
Definition starts_as (n : nat) (rec b : list Z) : Prop :=
  forall k x, (k < n)%nat -> rec !! k = Some x -> b !! k = Some x.

(** C20. [makeDiff] ends and stays in its area. Either there is a difference, and
    [applyDiff] makes the second record of it in any area that has the bytes of the
    first and room for the second; or it answers that there is no room, which is never
    so for an area of two bytes for every byte of the second record. *)
Theorem diff_roundtrip rec1 rec2 outLength output :
  outLength <= Z.of_nat (length output) ->
  match makeDiff rec1 rec2 outLength output with
  | Ok (Some (n, m)) =>
      exists s space, m = s ++ space /\ n = Z.of_nat (length s) /\ n <= 2 * Z.of_nat (length rec2) /\
        (n <= MAX_DIFFERENCES -> forall b len,
           starts_as (length rec2) rec1 b -> Z.of_nat (length rec2) <= len <= Z.of_nat (length b) ->
           applyDiff s len b = Ok (Z.of_nat (length rec2), rec2 ++ drop (length rec2) b))
  | Ok None => outLength < 2 * Z.of_nat (length rec2)
  | _ => False
  end.
Proof.
  intros Ho. pose proof (makeDiff_spec rec1 rec2 outLength output Ho) as H.
  destruct (makeDiff rec1 rec2 outLength output) as [[[n m]|]|e|]; simpl in H; [|done..].
  destruct H as (ps & Hd & Hs & -> & (space & -> & _)). exists (pcodes ps), space. split; [done|]. split; [done|].
  pose proof (delta_codes rec1 rec2 0 ps Hd). split; [lia|]. intros Hmax b len Hb Hlen.
  by apply (applyDiff_spec rec1 rec2 b len Hb Hlen ps).
Qed.

Definition sample1 : list Z := [1; 2; 3; 4; 5; 6; 7; 8].
Definition sample2 : list Z := [1; 2; 9; 4; 5; 6; 0; 8; 7].

Lemma diff_roundtrip_witness :
  20 <= Z.of_nat (length (replicate 20 0)) /\
  match makeDiff sample1 sample2 20 (replicate 20 0) with
  | Ok (Some (n, m)) =>
      exists s space, m = s ++ space /\ n = Z.of_nat (length s) /\ n <= 2 * Z.of_nat (length sample2) /\
        (n <= MAX_DIFFERENCES -> forall b len,
           starts_as (length sample2) sample1 b -> Z.of_nat (length sample2) <= len <= Z.of_nat (length b) ->
           applyDiff s len b = Ok (Z.of_nat (length sample2), sample2 ++ drop (length sample2) b))
  | Ok None => 20 < 2 * Z.of_nat (length sample2)
  | _ => False
  end.
Proof.
  assert (H : 20 <= Z.of_nat (length (replicate 20 0))) by (vm_compute; discriminate).
  split; [exact H|]. apply (diff_roundtrip sample1 sample2 20 (replicate 20 0) H).
Defined.

(** [makeNoDiff] of a length writes a byte for every 127 bytes, rounded up, and
    [applyDiff] of them leaves any record of that length as it is. *)
Theorem no_diff_roundtrip n output :
  Z.of_nat n < 2 ^ 31 -> Z.of_nat n <= 127 * Z.of_nat (length output) -> Z.of_nat n <= 127 * MAX_DIFFERENCES ->
  exists s, makeNoDiff (Z.of_nat n) output = Ok (Z.of_nat (length s), s ++ drop (length s) output) /\
    127 * Z.of_nat (length s) <= Z.of_nat n + 126 /\
    forall b len, (n <= length b)%nat -> Z.of_nat n <= len <= Z.of_nat (length b) ->
      applyDiff s len b = Ok (Z.of_nat n, b).
Proof.
  intros Hn Ho Hmax. unfold makeNoDiff. rewrite wrapS_id, Nat2Z.id by (unfold inS; lia).
  destruct (no_diff_loop_spec (S n) n [] output) as (ps & E & Hs & Hlen & Hps); [lia|lia|].
  exists (pcodes ps). simpl in E. split; [exact E|]. split; [done|]. intros b len Hb Hl.
  assert (Hrec : length (take n b) = n) by (rewrite length_take; lia).
  assert (Hd : delta (take n b) (take n b) 0 ps) by (apply delta_same; [done|lia]).
  pose proof (applyDiff_spec (take n b) (take n b) b len) as H. rewrite Hrec, take_drop in H. apply H; [|lia|done|done|].
  - intros k x Hk Hx. by rewrite lookup_take_lt in Hx.
  - unfold MAX_DIFFERENCES in *. lia.
Qed.

Lemma no_diff_roundtrip_witness :
  Z.of_nat 300 < 2 ^ 31 /\ Z.of_nat 300 <= 127 * Z.of_nat (length (replicate 4 0)) /\ Z.of_nat 300 <= 127 * MAX_DIFFERENCES /\
  exists s, makeNoDiff (Z.of_nat 300) (replicate 4 0) = Ok (Z.of_nat (length s), s ++ drop (length s) (replicate 4 0)) /\
    127 * Z.of_nat (length s) <= Z.of_nat 300 + 126 /\
    forall b len, (300 <= length b)%nat -> Z.of_nat 300 <= len <= Z.of_nat (length b) ->
      applyDiff s len b = Ok (Z.of_nat 300, b).
Proof.
  assert (H1 : Z.of_nat 300 < 2 ^ 31) by (vm_compute; reflexivity).
  assert (H2 : Z.of_nat 300 <= 127 * Z.of_nat (length (replicate 4 0))) by (vm_compute; discriminate).
  assert (H3 : Z.of_nat 300 <= 127 * MAX_DIFFERENCES) by (vm_compute; discriminate).
  split; [exact H1|]. split; [exact H2|]. split; [exact H3|]. apply (no_diff_roundtrip 300 (replicate 4 0) H1 H2 H3).
Defined.
