(* ===== verification/BigRecord.v ===== *)
(** * Records on pages: [src/src/jrd/dpm.epp], and how [src/src/jrd/vio.cpp] reads them

    A packed record that is larger than a page goes to several: full pages of packed
    bytes, made from the end of the record, and what is left in front of them, which is
    compressed anew. A version that grows out of its page keeps there what fits, and
    the rest is stored like another record. A reader unpacks one after the other.

    Of a page only the bytes of the record are modelled; where the pages are, and who
    holds them, is not. *)

From S2P Require Import Prelude Memory Outcome Sqz SqzPack SqzCompress SqzPart SqzDiff SqzDelta.

(** ** [store_big_record] *)

Section Store.
Context (data : list Z).

(** [length] bytes of the page, before [fl_out], are free; [fl_in] bytes of the record
    are to be stored, with the controls [fl_control], of which the last is first; of the
    control read before there are [fl_count] bytes left. *)
Record Filling := {
  fl_length : Z; fl_out : list Z; fl_in : Z; fl_control : list Z; fl_count : Z
}.

(** [do { *--out = *--in; } while (--n)] *)
Fixpoint copy_back (n : nat) (inp : Z) (out : list Z) : Outcome (Z * list Z) :=
  match n with
  | O => Ok (inp, out)
  | S n =>
      b ← access (data @ (inp - 1));
      copy_back n (inp - 1) (b :: out)
  end.

(** Packed bytes are moved to the page. *)
Fixpoint fill_page (fuel : nat) (st : Filling) : Outcome Filling :=
  match fuel with
  | O => Undefined
  | S fuel =>
      if decide (fl_length st > 1) then
        if decide (fl_count st > 0) then
          let l := Z.min (fl_count st) (fl_length st - 1) in
          '(inp, out) ← copy_back (Z.to_nat l) (fl_in st) (fl_out st);
          fill_page fuel {| fl_length := fl_length st - (l + 1); fl_out := UCHAR l :: out; fl_in := inp;
                            fl_control := fl_control st; fl_count := fl_count st - l |}
        else
          match fl_control st with
          | [] => Undefined
          | b :: control =>
              let count := signed_char b in
              if decide (count < 0) then
                c ← access (data @ (fl_in st - 1));
                fill_page fuel {| fl_length := fl_length st - 2; fl_out := UCHAR count :: c :: fl_out st;
                                  fl_in := fl_in st + count; fl_control := control; fl_count := count |}
              else
                fill_page fuel {| fl_length := fl_length st; fl_out := fl_out st; fl_in := fl_in st;
                                  fl_control := control; fl_count := count |}
          end
      else Ok st
  end.

Context (max_data : Z).

(** The full pages, the last of the record first made and last in the list. *)
Fixpoint big_pages (fuel : nat) (size : Z) (st : Filling) (pages : list (list Z))
    : Outcome (Filling * list (list Z)) :=
  match fuel with
  | O => Undefined
  | S fuel =>
      if decide (size > max_data) then
        let size := size - max_data in
        st ← fill_page (S (Z.to_nat max_data + length (fl_control st)))
               {| fl_length := max_data; fl_out := []; fl_in := fl_in st;
                  fl_control := fl_control st; fl_count := fl_count st |};
        if decide (fl_length st <> 0) then
          big_pages fuel (size + 1) st ((0 :: fl_out st) :: pages)
        else if decide (fl_count st > 0) then big_pages fuel (size + 1) st (fl_out st :: pages)
        else big_pages fuel size st (fl_out st :: pages)
      else Ok (st, pages)
  end.

(** The fragments of the record, in order *)
Definition store_big_record (control : list Z) (size : Z) : Outcome (list (list Z)) :=
  '(st, pages) ← big_pages (S (Z.to_nat size)) size
      {| fl_length := 0; fl_out := []; fl_in := Z.of_nat (length data);
         fl_control := reverse control; fl_count := 0 |} [];
  let front := take (Z.to_nat (fl_in st)) data in
  dcc ← Compressor_new front;
  m ← pack dcc front 0 (replicate (Z.to_nat (getPackedLength dcc)) 0);
  Ok (m :: pages).
End Store.

(** ** [DPM_store] and [fragment]

    [page_room] bytes of a packed record fit on a page, [max_data] behind the longer
    header of a fragment; a packed record is at least [room_min] bytes long, so that it
    can become a fragment later. *)

Section Dpm.
Context (page_room max_data room_min : Z).

Definition DPM_store (data : list Z) : Outcome (list (list Z)) :=
  dcc ← Compressor_new data;
  let size := getPackedLength dcc in
  if decide (size > page_room) then store_big_record data max_data (m_control dcc) size
  else
    let fill := Z.max 0 (room_min - size) in
    m ← pack dcc data 0 (replicate (Z.to_nat size) 0);
    Ok [m ++ replicate (Z.to_nat fill) 0].

(** [available] bytes remain on the page of the record. *)
Definition fragment (data : list Z) (available : nat) : Outcome (list (list Z)) :=
  dcc ← Compressor_new data;
  pre_header_length ← getPartialLength dcc (Z.of_nat available);
  tail ← DPM_store (drop (Z.to_nat pre_header_length) data);
  '(post_header_length, m) ← pack_part dcc data (Z.of_nat available) 0 (replicate available 0);
  if decide (pre_header_length <> post_header_length) then BugCheck 252
  else Ok (m :: tail).
End Dpm.

(** [VIO_data]: the fragments are unpacked one after the other. *)
Fixpoint unpack_all (fragments : list (list Z)) (tail_end tail : Z) (m : list Z) : Outcome (Z * list Z) :=
  match fragments with
  | [] => Ok (tail, m)
  | s :: fragments =>
      '(tail, m) ← unpack s (tail_end - tail) tail m;
      unpack_all fragments tail_end tail m
  end.

(** ** Versions of records

    [prepare_update]: the version [old] is stored as its difference to the version
    [new], if that is short; they may be the same object. The result tells whether it
    is a difference. The array of the differences is on the stack. *)
Definition diff_area : list Z := replicate (Z.to_nat MAX_DIFFERENCES) 0.
Arguments diff_area : simpl never.

Definition version_bytes (same : bool) (new old : list Z) : Outcome (bool * list Z) :=
  if same then
    '(l, m) ← makeNoDiff (Z.of_nat (length old)) diff_area;
    Ok (true, take (Z.to_nat l) m)
  else
    r ← makeDiff new old MAX_DIFFERENCES diff_area;
    match r with
    | Some (l, m) =>
        if decide (l < MAX_DIFFERENCES /\ l < Z.of_nat (length old)) then Ok (true, take (Z.to_nat l) m)
        else Ok (false, old)
    | None => Ok (false, old)
    end.

Definition store_version (page_room max_data room_min : Z) (same : bool) (new old : list Z)
    : Outcome (bool * list (list Z)) :=
  '(delta, bytes) ← version_bytes same new old;
  frags ← DPM_store page_room max_data room_min bytes;
  Ok (delta, frags).

(** [VIO_data]: [record] has the length of the format, and for a difference the bytes of
    the prior version. *)
Definition VIO_data (delta : bool) (fragments : list (list Z)) (record : list Z) : Outcome (list Z) :=
  let fmt_length := Z.of_nat (length record) in
  if delta then
    '(tail, m) ← unpack_all fragments MAX_DIFFERENCES 0 diff_area;
    '(length, record) ← applyDiff (take (Z.to_nat tail) m) fmt_length record;
    if decide (fmt_length <> length) then BugCheck 183 else Ok record
  else
    '(tail, record) ← unpack_all fragments fmt_length 0 record;
    if decide (fmt_length <> tail) then BugCheck 183 else Ok record.

(** A record of 12 packed bytes on pages of 5 *)
Example store_sample :
  let data := [1; 2; 3; 4; 5; 6; 7; 7; 7; 7; 8; 9] in
  (frags ← DPM_store 5 5 0 data;
   '(_, m) ← unpack_all frags 12 0 (replicate 12 0);
   Ok (frags, m)) = Ok ([[2; 1; 2]; [4; 3; 4; 5; 6]; [252; 7; 2; 8; 9]], [1; 2; 3; 4; 5; 6; 7; 7; 7; 7; 8; 9]).
Proof. vm_compute. reflexivity. Qed.
