(* ===== verification/BigStore.v ===== *)
(** * Records on pages: the theorems

    What is left of the record while its end goes to pages is compressed already: the
    chunks of a record without its end are the chunks of the record without the last
    ones. *)

From S2P Require Import Prelude Memory Outcome Sqz SqzPack SqzCompress SqzPart SqzDiff SqzDelta BigRecord.

(** ** The chunks of the beginning of a record *)

Lemma pieces_last l ks k : pieces l (ks ++ [k]) -> pieces (texts ks) ks.
Proof.
  intros H. remember (ks ++ [k]) as kk eqn:E. revert ks E.
  induction H as [|l kk Hl H IH]; intros ks E; [by destruct ks|].
  destruct ks as [|k0 ks]; [constructor|]. injection E as <- ->. specialize (IH ks eq_refl).
  assert (Hlong : (127 < length l)%nat).
  { inversion H as [E0 E1|? ? Hne ? E0 E1]; [by destruct ks|]. destruct (decide (127 < length l)%nat); [done|].
    by rewrite drop_ge in Hne by lia. }
  assert (Hlen : length (take 127 l) = 127%nat) by (rewrite length_take; lia). rewrite texts_cons. cbn [text].
  pose proof (pieces_cons (take 127 l ++ texts ks) ks) as Hc.
  rewrite drop_app_length', take_app_length' in Hc by done. apply Hc; [|done]. by destruct l.
Qed.

Lemma pieces_cut l ks b1 b2 : pieces l (ks ++ [Plain (b1 ++ b2)]) -> b1 <> [] -> pieces (texts ks ++ b1) (ks ++ [Plain b1]).
Proof.
  intros H Hb. remember (ks ++ [Plain (b1 ++ b2)]) as kk eqn:E. revert ks E.
  induction H as [|l kk Hl H IH]; intros ks E; [by destruct ks|]. destruct ks as [|k0 ks].
  - injection E as E _. simpl. assert (Hlen : (length b1 <= 127)%nat).
    { apply (f_equal length) in E. rewrite length_take, length_app in E. lia. }
    pose proof (pieces_cons b1 [] Hb) as Hc. rewrite take_ge, drop_ge in Hc by lia. apply Hc. constructor.
  - injection E as <- ->. specialize (IH ks eq_refl).
    assert (Hlong : (127 < length l)%nat).
    { inversion H as [E0 E1|? ? Hne ? E0 E1]; [by destruct ks|]. destruct (decide (127 < length l)%nat); [done|].
      by rewrite drop_ge in Hne by lia. }
    assert (Hlen : length (take 127 l) = 127%nat) by (rewrite length_take; lia). rewrite texts_cons. cbn [text].
    pose proof (pieces_cons (take 127 l ++ texts ks ++ b1) (ks ++ [Plain b1])) as Hc.
    rewrite drop_app_length', take_app_length' in Hc by done. rewrite <- app_assoc. apply Hc; [|done]. by destruct l.
Qed.

(** [ks] are the chunks of their bytes. *)
Definition final (ks : list chunk) : Prop := compressed (texts ks) ks.

Lemma head_prefix {A} (l k : list A) b : head (l ++ k) <> Some b -> head l <> Some b.
Proof. by destruct l. Qed.

Lemma compressed_last d ks k : compressed d (ks ++ [k]) -> final ks.
Proof.
  intros H. remember (ks ++ [k]) as kk eqn:E. revert ks E.
  induction H as [l kk Hp Hl|l ps n b rest kk Hp Hl Hn Hend H IH]; intros ks E; [subst kk|].
  - pose proof (pieces_texts _ _ Hp) as Ht. rewrite texts_app in Ht.
    apply compressed_end; [by apply pieces_last in Hp|]. rewrite <- Ht in Hl. by apply no_triple_app_l in Hl.
  - destruct kk as [|k0 kk _] using rev_ind.
    + apply app_inj_tail in E as [-> <-]. pose proof (pieces_texts _ _ Hp) as Ht. unfold final. rewrite Ht.
      apply compressed_end; [done|]. by apply no_triple_app_l in Hl.
    + assert (E' : (ps ++ Equal n b :: kk) ++ [k0] = ks ++ [k]) by (rewrite <- E; by rewrite <- app_assoc).
      apply app_inj_tail in E' as [<- <-]. specialize (IH kk eq_refl). unfold final in *.
      rewrite texts_app, texts_cons, (pieces_texts l ps) by done. cbn [text].
      apply compressed_run; [done|done|done| |done]. destruct Hend as [?|Hend]; [by left|right].
      rewrite <- (compressed_texts _ _ H), texts_app in Hend. by apply head_prefix in Hend.
Qed.

Lemma compressed_cut d ks b1 b2 :
  compressed d (ks ++ [Plain (b1 ++ b2)]) -> b1 <> [] -> final (ks ++ [Plain b1]).
Proof.
  intros H Hb. remember (ks ++ [Plain (b1 ++ b2)]) as kk eqn:E. revert ks E.
  assert (Hone : forall ks, texts (ks ++ [Plain b1]) = texts ks ++ b1).
  { intros ks. rewrite texts_app. f_equal. unfold texts. simpl. apply app_nil_r. }
  induction H as [l kk Hp Hl|l ps n b rest kk Hp Hl Hn Hend H IH]; intros ks E; [subst kk|].
  - pose proof (pieces_texts _ _ Hp) as Ht. rewrite texts_app in Ht. unfold final. rewrite Hone.
    apply compressed_end; [by apply pieces_cut in Hp|]. rewrite <- Ht in Hl. unfold texts at 2 in Hl. simpl in Hl.
    rewrite app_nil_r, app_assoc in Hl. by apply no_triple_app_l in Hl.
  - destruct kk as [|k0 kk _] using rev_ind; [by apply app_inj_tail in E as [_ ?]|].
    assert (E' : (ps ++ Equal n b :: kk) ++ [k0] = ks ++ [Plain (b1 ++ b2)]) by (rewrite <- E; by rewrite <- app_assoc).
    apply app_inj_tail in E' as [<- ->]. specialize (IH kk eq_refl). unfold final in *. rewrite Hone in *.
    rewrite texts_app, texts_cons, (pieces_texts l ps) by done. cbn [text]. rewrite <- !app_assoc. simpl.
    apply compressed_run; [done|done|done| |done]. destruct Hend as [?|Hend]; [by left|right].
    rewrite <- (compressed_texts _ _ H), texts_app in Hend. unfold texts at 2 in Hend. simpl in Hend.
    rewrite app_nil_r, app_assoc in Hend. by apply head_prefix in Hend.
Qed.

(** ** A page is filled *)

(** The chunks that are left, the last one being what is left of a plain one. *)
Definition left_over (ks : list chunk) (bs : list Z) : list chunk :=
  ks ++ match bs with [] => [] | _ => [Plain bs] end.

Lemma left_over_texts ks bs : texts (left_over ks bs) = texts ks ++ bs.
Proof.
  unfold left_over. rewrite texts_app. f_equal. destruct bs; [done|]. unfold texts. simpl. by rewrite app_nil_r.
Qed.

Lemma left_over_codes ks bs :
  length (codes (left_over ks bs)) = (length (codes ks) + match bs with [] => 0 | _ => S (length bs) end)%nat.
Proof.
  unfold left_over. rewrite codes_app, length_app. destruct bs; [done|]. unfold codes at 2. simpl. by rewrite app_nil_r.
Qed.

Lemma codes_snoc ks k : length (codes (ks ++ [k])) = (length (codes ks) + length (code k))%nat.
Proof. rewrite codes_app, length_app. unfold codes at 2. simpl. by rewrite app_nil_r. Qed.

Lemma texts_snoc ks k : texts (ks ++ [k]) = texts ks ++ text k.
Proof. rewrite texts_app. unfold texts at 2. simpl. by rewrite app_nil_r. Qed.

Lemma final_ok ks : final ks -> Forall chunk_ok ks /\ Forall not_empty ks.
Proof. intros H. split; [by apply compressed_ok in H|by apply compressed_not_empty in H]. Qed.

Section Fill.
Context (data t0 : list Z).

Record filling (st : Filling) (ks : list chunk) (bs t : list Z) : Prop := {
  fi_control : fl_control st = reverse (ctl <$> ks);
  fi_in : fl_in st = Z.of_nat (length (texts ks ++ bs));
  fi_count : Z.max 0 (fl_count st) = Z.of_nat (length bs);
  fi_data : data = texts ks ++ bs ++ t ++ t0;
  fi_final : final (left_over ks bs);
  fi_out : packed (fl_out st) t;
  fi_length : 0 <= fl_length st <= Z.of_nat (length (codes (left_over ks bs)))
}.

(** The byte by which what is left is longer than what is not on the page *)
Definition extra (st : Filling) : Z :=
  if decide (fl_length st <> 0) then 1 else if decide (fl_count st > 0) then 1 else 0.

Lemma copy_back_spec pre x post inp out :
  data = pre ++ x ++ post -> inp = Z.of_nat (length (pre ++ x)) ->
  copy_back data (length x) inp out = Ok (Z.of_nat (length pre), x ++ out).
Proof.
  revert post inp out. induction x as [|b x IH] using rev_ind; intros post inp out Hd ->; [simpl; by rewrite app_nil_r|].
  rewrite (length_app x), Nat.add_comm. simpl copy_back.
  replace (Z.of_nat (length (pre ++ x ++ [b])) - 1) with (Z.of_nat (length (pre ++ x))) by (rewrite !length_app; simpl; lia).
  replace (data @ Z.of_nat (length (pre ++ x))) with (Some b)
    by (rewrite Hd; replace (pre ++ _) with ((pre ++ x) ++ b :: post) by listeq; by rewrite aget_mid).
  cbn [access mbind Outcome_bind]. rewrite (IH ([b] ++ post)); [listeq|rewrite Hd; listeq|done].
Qed.

(** The literal at the end fits on the page. *)
Lemma fill_literal st ks bs t :
  filling st ks bs t -> bs <> [] -> Z.of_nat (length bs) + 1 <= fl_length st ->
  let st' := {| fl_length := fl_length st - (Z.of_nat (length bs) + 1); fl_out := UCHAR (Z.of_nat (length bs)) :: bs ++ fl_out st;
                fl_in := Z.of_nat (length (texts ks)); fl_control := fl_control st;
                fl_count := fl_count st - Z.of_nat (length bs) |} in
  filling st' ks [] (bs ++ t) /\
  Z.of_nat (length (codes (left_over ks []))) + fl_length st =
    Z.of_nat (length (codes (left_over ks bs))) + fl_length st' /\
  Z.of_nat (length (fl_out st')) + fl_length st' = Z.of_nat (length (fl_out st)) + fl_length st.
Proof.
  intros [Hc Hi Hn Hd Hf Ho Hl] Hbs Hfit st'. pose proof Hf as [Hok _]%final_ok. unfold left_over in Hf, Hok.
  destruct bs as [|x bs]; [done|]. set (b := x :: bs) in *.
  assert (Hb : (length b <= 127)%nat) by (apply Forall_app in Hok as [_ Hok]; by inversion Hok).
  rewrite left_over_codes in Hl. simpl in Hl. split; [|split].
  - split; simpl.
    + done.
    + by rewrite app_nil_r.
    + simpl in *. lia.
    + rewrite Hd. listeq.
    + unfold left_over. rewrite app_nil_r. by apply compressed_last in Hf.
    + rewrite UCHAR_plain by done. by apply (packed_step (Plain b)).
    + rewrite left_over_codes, Nat.add_0_r. simpl in *. lia.
  - rewrite !left_over_codes. simpl. lia.
  - simpl. rewrite length_app. simpl. lia.
Qed.

(** A part of the literal fits. *)
Lemma fill_part st ks b1 b2 t :
  filling st ks (b1 ++ b2) t -> b1 <> [] -> b2 <> [] -> fl_length st = Z.of_nat (length b2) + 1 ->
  let st' := {| fl_length := 0; fl_out := UCHAR (Z.of_nat (length b2)) :: b2 ++ fl_out st;
                fl_in := Z.of_nat (length (texts ks ++ b1)); fl_control := fl_control st;
                fl_count := fl_count st - Z.of_nat (length b2) |} in
  filling st' ks b1 (b2 ++ t) /\ fl_count st' > 0 /\
  Z.of_nat (length (codes (left_over ks b1))) + fl_length st = Z.of_nat (length (codes (left_over ks (b1 ++ b2)))) + 1 /\
  Z.of_nat (length (fl_out st')) = Z.of_nat (length (fl_out st)) + fl_length st.
Proof.
  intros [Hc Hi Hn Hd Hf Ho Hl] Hb1 Hb2 Hfit st'. pose proof Hf as [Hok _]%final_ok.
  assert (E : left_over ks (b1 ++ b2) = ks ++ [Plain (b1 ++ b2)]) by (unfold left_over; by destruct b1).
  assert (E1 : left_over ks b1 = ks ++ [Plain b1]) by (unfold left_over; by destruct b1).
  rewrite E in *. rewrite E1.
  assert (Hb : (length (b1 ++ b2) <= 127)%nat) by (apply Forall_app in Hok as [_ Hok]; by inversion Hok).
  rewrite length_app in *. assert (0 < length b1)%nat by (destruct b1; [done|simpl; lia]).
  split; [|split; [simpl; lia|split]].
  - split; simpl.
    + done.
    + done.
    + lia.
    + rewrite Hd. listeq.
    + rewrite E1. by apply compressed_cut in Hf.
    + rewrite UCHAR_plain by lia. apply (packed_step (Plain b2)); [simpl; lia|done].
    + lia.
  - rewrite !codes_snoc. simpl. rewrite length_app. lia.
  - simpl. rewrite length_app. lia.
Qed.

(** A run goes to the page, or a literal is begun. *)
Lemma fill_control st ks k t :
  filling st (ks ++ [k]) [] t -> 1 < fl_length st ->
  match k with
  | Equal n b =>
      let st' := {| fl_length := fl_length st - 2; fl_out := UCHAR (- Z.of_nat n) :: b :: fl_out st;
                    fl_in := fl_in st + - Z.of_nat n; fl_control := reverse (ctl <$> ks); fl_count := - Z.of_nat n |} in
      filling st' ks [] (replicate n b ++ t) /\
      Z.of_nat (length (codes (left_over ks []))) + fl_length st =
        Z.of_nat (length (codes (left_over (ks ++ [k]) []))) + fl_length st' /\
      Z.of_nat (length (fl_out st')) + fl_length st' = Z.of_nat (length (fl_out st)) + fl_length st
  | Plain bs =>
      bs <> [] /\ left_over ks bs = left_over (ks ++ [k]) [] /\
      filling {| fl_length := fl_length st; fl_out := fl_out st; fl_in := fl_in st;
                 fl_control := reverse (ctl <$> ks); fl_count := Z.of_nat (length bs) |} ks bs t
  end.
Proof.
  intros [Hc Hi Hn Hd Hf Ho Hl] Hlen. pose proof Hf as [Hok Hne]%final_ok. unfold left_over in Hf, Hok, Hne, Hl.
  rewrite app_nil_r in *. apply Forall_app in Hok as [_ Hok]. apply Forall_app in Hne as [_ Hne].
  inversion Hok as [|? ? Hk _]; subst. inversion Hne as [|? ? Hk0 _]; subst.
  rewrite texts_snoc in *. destruct k as [bs|n b]; cbn [text] in *.
  - assert (bs <> []) as Hbs by done. assert (E : left_over ks bs = ks ++ [Plain bs]) by (unfold left_over; by destruct bs).
    split; [done|]. split; [unfold left_over at 2; by rewrite app_nil_r|].
    split; simpl; [done|done|lia|rewrite Hd; listeq|by rewrite E|done|by rewrite E].
  - rewrite codes_snoc in Hl. simpl in Hl. split; [|split].
    + split; simpl.
      * done.
      * rewrite Hi, app_nil_r, length_app, length_replicate. lia.
      * simpl. lia.
      * rewrite Hd. listeq.
      * unfold left_over. rewrite app_nil_r. by apply compressed_last in Hf.
      * by apply (packed_step (Equal n b)).
      * rewrite left_over_codes. lia.
    + rewrite !left_over_codes, codes_snoc. simpl. lia.
    + simpl. lia.
Qed.

(** What is on the page when it is full, but for an odd byte *)
Definition filled (st st' : Filling) (ks : list chunk) (bs : list Z) : Prop :=
  exists ks' bs' t', filling st' ks' bs' t' /\ (fl_length st' = 0 \/ fl_length st' = 1 /\ bs' = []) /\
    Z.of_nat (length (codes (left_over ks' bs'))) + fl_length st =
      Z.of_nat (length (codes (left_over ks bs))) + extra st' /\
    Z.of_nat (length (fl_out st')) + fl_length st' = Z.of_nat (length (fl_out st)) + fl_length st.

Lemma fill_page_full fuel st ks bs t :
  filling st ks bs t -> fl_length st <= 1 -> bs = [] -> (0 < fuel)%nat ->
  fill_page data fuel st = Ok st /\ filled st st ks bs.
Proof.
  intros H Hl -> Hfuel. destruct fuel as [|fuel]; [lia|]. cbn [fill_page]. rewrite decide_False by lia.
  split; [done|]. pose proof (fi_length _ _ _ _ H). pose proof (fi_count _ _ _ _ H) as Hc. simpl in Hc.
  exists ks, [], t. split; [done|]. split; [|split; [|lia]].
  - destruct (decide (fl_length st = 0)); [by left|right; split; [lia|done]].
  - unfold extra. case_decide; [lia|]. rewrite decide_False by lia. lia.
Qed.

Lemma fill_page_spec fuel st ks bs t :
  filling st ks bs t -> (fl_length st <= 1 -> bs = []) -> (Z.to_nat (fl_length st) + length ks < fuel)%nat ->
  exists st', fill_page data fuel st = Ok st' /\ filled st st' ks bs.
Proof.
  revert st ks bs t. induction fuel as [|fuel IH]; intros st ks bs t H Hbs Hfuel; [lia|].
  destruct (decide (fl_length st > 1)) as [Hlen|Hlen].
  2:{ exists st. apply (fill_page_full _ st ks bs t); [done|lia|apply Hbs; lia|lia]. }
  cbn [fill_page]. rewrite decide_True by done. pose proof (fi_count _ _ _ _ H) as Hc.
  pose proof (fi_in _ _ _ _ H) as Hin. pose proof (fi_data _ _ _ _ H) as Hdata. case_decide as Hcount.
  - assert (Hnil : bs <> []) by (intros ->; simpl in Hc; lia).
    destruct (decide (Z.of_nat (length bs) <= fl_length st - 1)) as [Hfit|Hcut].
    + replace (Z.min (fl_count st) (fl_length st - 1)) with (Z.of_nat (length bs)) by lia. rewrite Nat2Z.id.
      rewrite (copy_back_spec (texts ks) bs (t ++ t0)) by done. cbn [mbind Outcome_bind].
      destruct (fill_literal st ks bs t H Hnil) as (H' & Hcodes & Hout); [lia|].
      destruct (IH _ ks [] _ H') as (st' & E & ks' & bs' & t' & Hf & Hend & Hco & Hou); [done|simpl; lia|].
      exists st'. split; [exact E|]. exists ks', bs', t'. split; [done|]. split; [done|]. lia.
    + replace (Z.min (fl_count st) (fl_length st - 1)) with (fl_length st - 1) by lia.
      destruct (split_at (length bs - Z.to_nat (fl_length st - 1)) bs) as (b1 & b2 & -> & Hb1); [lia|].
      pose proof (length_app b1 b2). assert (Hb2 : fl_length st = Z.of_nat (length b2) + 1) by lia.
      replace (fl_length st - 1) with (Z.of_nat (length b2)) by lia. rewrite Nat2Z.id.
      rewrite (copy_back_spec (texts ks ++ b1) b2 (t ++ t0)); [|rewrite Hdata; listeq|rewrite Hin; by rewrite app_assoc].
      cbn [mbind Outcome_bind].
      destruct (fill_part st ks b1 b2 t H) as (H' & Hpos & Hcodes & Hout); [intros ->; simpl in *; lia|intros ->; simpl in *; lia|done|].
      destruct fuel as [|fuel]; [lia|]. cbn [fill_page fl_length].
      replace (fl_length st - (Z.of_nat (length b2) + 1)) with 0 by lia. rewrite decide_False by lia.
      eexists. split; [done|]. exists ks, b1, (b2 ++ t). split; [done|]. split; [by left|].
      unfold extra. simpl in Hpos |- *. rewrite decide_True by done. simpl in Hout. split; lia.
  - assert (bs = []) as -> by (destruct bs; simpl in Hc; [done|lia]).
    pose proof (fi_length _ _ _ _ H) as Hl. rewrite (fi_control _ _ _ _ H). rewrite left_over_codes in Hl.
    destruct ks as [|k ks _] using rev_ind; [simpl in Hl; lia|].
    rewrite fmap_app, reverse_app. simpl. pose proof (fill_control st ks k t H ltac:(lia)) as Hk.
    pose proof (final_ok _ (fi_final _ _ _ _ H)) as [Hok _]. unfold left_over in Hok. rewrite app_nil_r in Hok.
    apply Forall_app in Hok as [_ Hok]. inversion Hok as [|? ? Hk0 _]; subst. rewrite length_app in Hfuel. simpl in Hfuel.
    rewrite (signed_ctl k Hk0). destruct k as [b|n b].
    + rewrite decide_False by lia. destruct Hk as (Hb & E & Hf).
      destruct (IH _ ks b t Hf) as (st' & E' & ks' & bs' & t' & Hf' & Hend & Hco & Hou); [simpl; lia|simpl; lia|].
      exists st'. split; [exact E'|]. exists ks', bs', t'. rewrite <- E. by split.
    + simpl in Hk0. rewrite decide_True by lia.
      replace (data @ (fl_in st - 1)) with (Some b).
      2:{ rewrite Hin, Hdata, texts_snoc. cbn [text]. destruct n as [|n]; [lia|]. rewrite replicate_S_end.
          replace (_ ++ [] ++ t ++ t0) with ((texts ks ++ replicate n b) ++ b :: t ++ t0) by listeq.
          replace (Z.of_nat _ - 1) with (Z.of_nat (length (texts ks ++ replicate n b))) by (rewrite !length_app; simpl; lia).
          by rewrite aget_mid. }
      cbn [access mbind Outcome_bind]. destruct Hk as (Hf & Hcodes & Hout).
      destruct (IH _ ks [] _ Hf) as (st' & E' & ks' & bs' & t' & Hf' & Hend & Hco & Hou); [done|simpl; lia|].
      exists st'. split; [exact E'|]. exists ks', bs', t'. split; [done|]. split; [done|]. lia.
Qed.
End Fill.

(** ** All pages *)

Section Pages.
Context (data : list Z) (max_data : nat) (Hmax : (2 <= max_data)%nat).

(** What is left, and what is on the pages *)
Record between (size : Z) (st : Filling) (pages : list (list Z)) (ks : list chunk) (bs : list Z) (ts : list (list Z)) : Prop := {
  bt_control : fl_control st = reverse (ctl <$> ks);
  bt_in : fl_in st = Z.of_nat (length (texts ks ++ bs));
  bt_count : Z.max 0 (fl_count st) = Z.of_nat (length bs);
  bt_data : data = texts ks ++ bs ++ concat ts;
  bt_final : final (left_over ks bs);
  bt_pages : Forall2 packed pages ts;
  bt_full : Forall (fun p => length p = max_data) pages;
  bt_size : size = Z.of_nat (length (codes (left_over ks bs)))
}.

Lemma page_done size st pages ks bs ts :
  between size st pages ks bs ts -> size > Z.of_nat max_data ->
  exists st' page, fill_page data (S (Z.to_nat (Z.of_nat max_data) + length (fl_control st)))
      {| fl_length := Z.of_nat max_data; fl_out := []; fl_in := fl_in st;
         fl_control := fl_control st; fl_count := fl_count st |} = Ok st' /\
    page = (if decide (fl_length st' <> 0) then 0 :: fl_out st' else fl_out st') /\
    exists ks' bs' t, between (size - Z.of_nat max_data + extra st') st' (page :: pages) ks' bs' (t :: ts).
Proof.
  intros [Hc Hi Hn Hd Hf Hp Hfull Hs] Hsize.
  destruct (fill_page_spec data (concat ts) (S (Z.to_nat (Z.of_nat max_data) + length (fl_control st)))
    {| fl_length := Z.of_nat max_data; fl_out := []; fl_in := fl_in st; fl_control := fl_control st; fl_count := fl_count st |}
    ks bs []) as (st' & E & ks' & bs' & t & H & Hend & Hcodes & Hout).
  - split; [done|done|done|done|done|apply packed_nil|simpl; lia].
  - simpl. lia.
  - simpl. rewrite Hc, length_reverse, length_fmap. lia.
  - exists st'. eexists. split; [exact E|]. split; [done|]. exists ks', bs', t.
    destruct H as [Hc' Hi' Hn' Hd' Hf' Ho' Hl']. simpl in Hcodes, Hout. split.
    + done.
    + done.
    + done.
    + exact Hd'.
    + done.
    + constructor; [|done]. case_decide; [|done]. by apply (packed_step (Plain []) _ t); [simpl; lia|].
    + constructor; [|done]. case_decide as Hz; [|lia]. simpl. destruct Hend as [|[Hone _]]; lia.
    + lia.
Qed.

Lemma big_pages_spec fuel size st pages ks bs ts :
  between size st pages ks bs ts -> size < Z.of_nat fuel ->
  exists size' st' pages' ks' bs' ts', big_pages data (Z.of_nat max_data) fuel size st pages = Ok (st', pages') /\
    between size' st' pages' ks' bs' ts' /\ size' <= Z.of_nat max_data.
Proof.
  revert size st pages ks bs ts. induction fuel as [|fuel IH]; intros size st pages ks bs ts H Hfuel.
  { pose proof (bt_size _ _ _ _ _ _ H). lia. }
  cbn [big_pages]. case_decide as Hbig.
  - destruct (page_done size st pages ks bs ts H Hbig) as (st' & page & -> & Hpage & ks' & bs' & t & H').
    cbn [mbind Outcome_bind]. unfold extra in H'. rewrite Hpage in H'.
    case_decide; [|case_decide]; (eapply IH; [by rewrite ?Z.add_0_r in H'|lia]).
  - exists size, st, pages, ks, bs, ts. split; [done|]. split; [done|lia].
Qed.

Lemma pack_exact d ks :
  compressed d ks -> Z.of_nat (length d) < 2 ^ 31 ->
  (dcc ← Compressor_new d; pack dcc d 0 (replicate (Z.to_nat (getPackedLength dcc)) 0)) = Ok (codes ks).
Proof.
  intros H Hd. rewrite (Compressor_new_spec d ks) by done. cbn [mbind Outcome_bind]. unfold pack, getPackedLength. simpl.
  rewrite Nat2Z.id. rewrite (pack_loop_spec d ks [] [] [] (replicate (length (codes ks)) 0)).
  - simpl. by rewrite drop_ge, app_nil_r by by rewrite length_replicate.
  - by apply compressed_ok in H.
  - by rewrite app_nil_r, (compressed_texts d ks).
  - by rewrite length_replicate.
  - done.
  - done.
  - done.
Qed.

(** [frags] are the fragments of [d], of at most [n] bytes. *)
Definition fragments_of (n : nat) (frags : list (list Z)) (d : list Z) : Prop :=
  exists ts, Forall2 packed frags ts /\ d = concat ts /\ Forall (fun s => (length s <= n)%nat) frags.

Lemma store_big_spec ks :
  compressed data ks -> Z.of_nat (length data) < 2 ^ 31 ->
  exists frags, store_big_record data (Z.of_nat max_data) (ctl <$> ks) (Z.of_nat (length (codes ks))) = Ok frags /\
    fragments_of max_data frags data.
Proof.
  intros H Hd. unfold store_big_record. rewrite Nat2Z.id.
  destruct (big_pages_spec (S (length (codes ks))) (Z.of_nat (length (codes ks)))
    {| fl_length := 0; fl_out := []; fl_in := Z.of_nat (length data); fl_control := reverse (ctl <$> ks); fl_count := 0 |}
    [] ks [] []) as (size & st & pages & ks' & bs' & ts & -> & Hb & Hsize); [|lia|].
  { pose proof (compressed_texts data ks H) as Ht. split; simpl; rewrite ?app_nil_r.
    - done.
    - by rewrite Ht.
    - done.
    - done.
    - unfold left_over. rewrite app_nil_r. unfold final. by rewrite Ht.
    - constructor.
    - constructor.
    - by rewrite left_over_codes, Nat.add_0_r. }
  cbn [mbind Outcome_bind]. destruct Hb as [_ Hi _ Hdata Hf Hp Hfull Hs].
  assert (Hfront : take (Z.to_nat (fl_in st)) data = texts (left_over ks' bs')).
  { rewrite Hi, Nat2Z.id, left_over_texts, Hdata, app_assoc. apply take_app_length. }
  rewrite Hfront. pose proof (pack_exact _ _ Hf) as Hpack.
  assert (Hlt : Z.of_nat (length (texts (left_over ks' bs'))) < 2 ^ 31) by (rewrite <- Hfront, length_take; lia).
  specialize (Hpack Hlt). rewrite (Compressor_new_spec _ _ Hf Hlt) in *. cbn [mbind Outcome_bind] in *. rewrite Hpack.
  cbn [mbind Outcome_bind]. eexists. split; [done|]. exists (texts (left_over ks' bs') :: ts). split; [|split].
  - constructor; [|done]. exists (left_over ks' bs'). split; [by apply compressed_ok in Hf|done].
  - simpl. by rewrite left_over_texts, <- app_assoc.
  - constructor; [lia|]. eapply Forall_impl; [exact Hfull|]. simpl. intros p. lia.
Qed.
End Pages.

(** ** Reading *)

Lemma unpack_all_spec frags ts out space tail_end :
  Forall2 packed frags ts -> (length (concat ts) <= length space)%nat ->
  Z.of_nat (length out + length (concat ts)) <= tail_end ->
  unpack_all frags tail_end (Z.of_nat (length out)) (out ++ space) =
  Ok (Z.of_nat (length out + length (concat ts)), out ++ concat ts ++ drop (length (concat ts)) space).
Proof.
  intros H. revert out space. induction H as [|s t frags ts Hs H IH]; intros out space Hl He.
  { simpl. by rewrite Nat.add_0_r, drop_0. }
  simpl in *. rewrite length_app in *. rewrite (unpack_packed s t) by (done || lia). cbn [mbind Outcome_bind].
  rewrite app_assoc. replace (Z.of_nat (length out) + Z.of_nat (length t)) with (Z.of_nat (length (out ++ t))) by poseq.
  rewrite IH; [|rewrite length_drop; lia|rewrite length_app; lia].
  rewrite drop_drop, length_app, Nat.add_assoc, <- !app_assoc. done.
Qed.

Lemma fragments_read n frags d out space tail_end :
  fragments_of n frags d -> (length d <= length space)%nat -> Z.of_nat (length out + length d) <= tail_end ->
  unpack_all frags tail_end (Z.of_nat (length out)) (out ++ space) =
  Ok (Z.of_nat (length out + length d), out ++ d ++ drop (length d) space).
Proof. intros (ts & H & -> & _). by apply unpack_all_spec. Qed.

Lemma packed_zeros s t n : packed s t -> packed (s ++ replicate n 0) t.
Proof.
  intros H. induction n as [|n IH]; [by rewrite app_nil_r|]. rewrite replicate_S_end, app_assoc.
  rewrite <- (app_nil_r t). apply (packed_snoc _ t (Plain [])); [done|simpl; lia].
Qed.

Section Dpm.
Context (page_room max_data room_min : Z).
Context (Hmax : 2 <= max_data) (Hroom : 0 <= room_min <= page_room).

Lemma DPM_store_spec data :
  Z.of_nat (length data) < 2 ^ 31 ->
  exists frags, DPM_store page_room max_data room_min data = Ok frags /\
    fragments_of (Z.to_nat (Z.max page_room max_data)) frags data.
Proof.
  intros Hd. destruct (compressed_exist data) as [ks Hks]. unfold DPM_store.
  pose proof (pack_exact _ _ Hks Hd) as Hpack. rewrite (Compressor_new_spec data ks Hks Hd) in *.
  cbn [mbind Outcome_bind] in *. cbn [getPackedLength m_length m_control] in *. case_decide as Hbig.
  - destruct (store_big_spec data (Z.to_nat max_data) ltac:(lia) ks Hks Hd) as (frags & E & ts & Hp & Hc & Hl).
    rewrite Z2Nat.id in E by lia. exists frags. split; [exact E|]. exists ts. split; [done|]. split; [done|].
    eapply Forall_impl; [exact Hl|]. simpl. lia.
  - rewrite Hpack. cbn [mbind Outcome_bind]. eexists. split; [done|]. exists [data]. split; [|split].
    + constructor; [|constructor]. apply packed_zeros. exists ks. split; [by apply compressed_ok in Hks|].
      by rewrite (compressed_texts data ks).
    + simpl. by rewrite app_nil_r.
    + constructor; [|constructor]. rewrite length_app, length_replicate. lia.
Qed.

(** C5. A record of any size is stored in fragments that fit on their pages, and
    unpacking them one after the other gives the record back. *)
Theorem store_roundtrip data :
  Z.of_nat (length data) < 2 ^ 31 ->
  exists frags, DPM_store page_room max_data room_min data = Ok frags /\
    Forall (fun s => Z.of_nat (length s) <= Z.max page_room max_data) frags /\
    forall out space tail_end, (length data <= length space)%nat -> Z.of_nat (length out + length data) <= tail_end ->
      unpack_all frags tail_end (Z.of_nat (length out)) (out ++ space) =
      Ok (Z.of_nat (length out + length data), out ++ data ++ drop (length data) space).
Proof.
  intros Hd. destruct (DPM_store_spec data Hd) as (frags & E & H). exists frags. split; [done|]. split.
  - destruct H as (ts & _ & _ & Hl). eapply Forall_impl; [exact Hl|]. simpl. lia.
  - intros out space tail_end. by apply (fragments_read _ frags data out space tail_end H).
Qed.

(** When a version grows out of its page, the part that is packed in the [available]
    bytes is the one that was computed before the rest was stored, and the part and
    the fragments of the rest are read back as the record. *)
Theorem fragment_roundtrip data available c :
  Compressor_new data = Ok c -> Z.of_nat available < getPackedLength c ->
  Z.of_nat (length data) < 2 ^ 30 ->
  exists frags, fragment page_room max_data room_min data available = Ok frags /\
    (exists head tail, frags = head :: tail /\ length head = available) /\
    forall out space tail_end, (length data <= length space)%nat -> Z.of_nat (length out + length data) <= tail_end ->
      unpack_all frags tail_end (Z.of_nat (length out)) (out ++ space) =
      Ok (Z.of_nat (length out + length data), out ++ data ++ drop (length data) space).
Proof.
  intros Hc Hav Hd. destruct (compressed_exist data) as [ks Hks].
  pose proof (compressed_codes data ks Hks) as Hcodes.
  rewrite (Compressor_new_spec data ks) in Hc by (done || lia). injection Hc as <-. simpl in Hav.
  unfold fragment. rewrite (Compressor_new_spec data ks) by (done || lia). cbn [mbind Outcome_bind].
  unfold getPartialLength, pack_part. cbn [m_control]. rewrite (wrapS_id 32) by (unfold inS; lia).
  destruct (pack_part_loop_spec data ks [] [] [] (replicate available 0) available) as (s & t & (Hs & Hp & u & Hu) & E1 & E2);
    [by apply compressed_ok in Hks|by rewrite app_nil_r, (compressed_texts data ks)|lia|by rewrite length_replicate|].
  simpl in E1, E2. change (Z.of_nat 0) with 0 in E1, E2. rewrite Z.add_0_l in E1, E2. rewrite E2. cbn [mbind Outcome_bind]. rewrite Nat2Z.id.
  assert (Hdata : data = t ++ u) by (by rewrite <- Hu, (compressed_texts data ks)).
  assert (Hdrop : drop (length t) data = u) by (rewrite Hdata; apply drop_app_length). rewrite Hdrop.
  assert (Hlu : Z.of_nat (length u) < 2 ^ 31) by (rewrite <- Hdrop, length_drop; lia).
  destruct (DPM_store_spec u Hlu) as (frags & -> & ts & Hts & Hcat & _). cbn [mbind Outcome_bind].
  rewrite E1. cbn [mbind Outcome_bind]. rewrite decide_False by tauto.
  rewrite drop_ge, app_nil_r by by rewrite length_replicate.
  exists (s :: frags). split; [done|]. split; [by exists s, frags|]. intros out space tail_end Hl He.
  pose proof (unpack_all_spec (s :: frags) (t :: ts) out space tail_end) as H. simpl in H.
  rewrite <- Hcat, <- Hdata in H. apply H; [by constructor|done|done].
Qed.

Lemma length_diff_area : Z.of_nat (length diff_area) = MAX_DIFFERENCES.
Proof. unfold diff_area. by rewrite length_replicate. Qed.

Lemma version_bytes_spec same new old b :
  Z.of_nat (length old) <= 127 * MAX_DIFFERENCES -> (same = true -> new = old) ->
  length b = length old -> starts_as (length old) new b ->
  exists delta bytes, version_bytes same new old = Ok (delta, bytes) /\
    if delta : bool then Z.of_nat (length bytes) <= MAX_DIFFERENCES /\
      applyDiff bytes (Z.of_nat (length b)) b = Ok (Z.of_nat (length old), old)
    else bytes = old.
Proof.
  intros Hlimit Hsame Hb Hstart. unfold version_bytes.
  destruct same.
  - specialize (Hsame eq_refl) as ->. assert (b = old) as ->.
    { apply list_eq_same_length with (n := length old); [done|done|]. intros k x y Hk Hx Hy.
      apply (Hstart k y Hk) in Hy. congruence. }
    destruct (no_diff_loop_spec (S (Z.to_nat (Z.of_nat (length old)))) (length old) [] diff_area)
      as (ps & E & Hs & Hlen & Hps); [lia|rewrite length_diff_area; lia|].
    unfold makeNoDiff. rewrite wrapS_id by (unfold inS, MAX_DIFFERENCES in *; lia). simpl length in E.
    change (Z.of_nat 0) with 0 in E. simpl app in E. rewrite E. cbn [mbind Outcome_bind].
    exists true, (pcodes ps). rewrite Nat2Z.id, take_app_length. split; [done|].
    assert (Hm : Z.of_nat (length (pcodes ps)) <= MAX_DIFFERENCES) by (unfold MAX_DIFFERENCES in *; lia).
    split; [done|]. rewrite (applyDiff_spec old old old _ Hstart) with (ps := ps).
    + by rewrite drop_ge, app_nil_r by done.
    + lia.
    + by apply delta_same; [|lia].
    + done.
    + done.
  - pose proof (makeDiff_spec new old MAX_DIFFERENCES diff_area ltac:(by rewrite length_diff_area)) as H.
    destruct (makeDiff _ _ _ _) as [[[l m]|]|e|]; simpl in H; [|by exists false, old|done..].
    cbn [mbind Outcome_bind]. case_decide as Hl; [|by exists false, old].
    destruct H as (ps & Hd & Hs & -> & (space & -> & _)). exists true, (pcodes ps).
    rewrite Nat2Z.id, take_app_length. split; [done|]. split; [lia|].
    rewrite (applyDiff_spec new old b _ Hstart) with (ps := ps); [|lia|done|done|lia].
    by rewrite drop_ge, app_nil_r by lia.
Qed.

(** C4. A version that is replaced is stored as a difference or as a whole, in fragments,
    and [VIO_data] makes it again: in any area of its length, which for a difference has
    the bytes of the version that replaced it. *)
Theorem version_roundtrip same new old :
  Z.of_nat (length old) <= 127 * MAX_DIFFERENCES -> (same = true -> new = old) ->
  exists delta frags, store_version page_room max_data room_min same new old = Ok (delta, frags) /\
    forall record, length record = length old -> (delta = true -> starts_as (length old) new record) ->
      VIO_data delta frags record = Ok old.
Proof.
  intros Hlimit Hsame. unfold store_version.
  assert (Hself : exists b : list Z, length b = length old /\ starts_as (length old) new b).
  { exists (take (length old) new ++ drop (length new) old). split.
    - rewrite length_app, length_take, length_drop. lia.
    - intros k x Hk Hx. apply lookup_app_l_Some. by rewrite lookup_take_lt. }
  destruct Hself as (b0 & Hb0 & Hst0).
  destruct (version_bytes_spec same new old b0 Hlimit Hsame Hb0 Hst0) as (delta & bytes & E & Hbytes0).
  assert (Hlen : Z.of_nat (length bytes) < 2 ^ 31).
  { destruct delta; [destruct Hbytes0|subst bytes]; unfold MAX_DIFFERENCES in *; lia. }
  destruct (DPM_store_spec bytes Hlen) as (frags & Est & Hf). exists delta, frags. rewrite E. cbn [mbind Outcome_bind].
  rewrite Est. split; [done|]. intros record Hrec Hst. unfold VIO_data. destruct delta.
  - destruct (version_bytes_spec same new old record Hlimit Hsame Hrec (Hst eq_refl)) as (delta' & bytes' & E' & Hbytes').
    rewrite E in E'. injection E' as <- <-. destruct Hbytes' as [Hm Happly].
    pose proof (fragments_read _ frags bytes [] diff_area MAX_DIFFERENCES Hf) as Hread.
    simpl app in Hread. change (Z.of_nat (length [])) with 0 in Hread. simpl Nat.add in Hread.
    rewrite Hread; [|pose proof length_diff_area; lia|simpl; lia]. cbn [mbind Outcome_bind].
    rewrite Nat2Z.id, take_app_length, Happly. cbn [mbind Outcome_bind]. by rewrite decide_False by lia.
  - subst bytes. pose proof (fragments_read _ frags old [] record (Z.of_nat (length record)) Hf) as Hread.
    simpl app in Hread. change (Z.of_nat (length [])) with 0 in Hread.
    rewrite Hread; [|lia|simpl; lia]. cbn [mbind Outcome_bind]. simpl.
    rewrite decide_False by lia. by rewrite drop_ge, app_nil_r by lia.
Qed.
End Dpm.

(** ** A record on small pages *)

Definition big_sample : list Z := [1; 2; 3; 4; 5; 6; 7; 7; 7; 7; 8; 9].

Lemma store_roundtrip_witness :
  2 <= 5 /\ 0 <= 0 <= 5 /\ Z.of_nat (length big_sample) < 2 ^ 31 /\
  exists frags, DPM_store 5 5 0 big_sample = Ok frags /\
    Forall (fun s => Z.of_nat (length s) <= Z.max 5 5) frags /\
    forall out space tail_end, (length big_sample <= length space)%nat ->
      Z.of_nat (length out + length big_sample) <= tail_end ->
      unpack_all frags tail_end (Z.of_nat (length out)) (out ++ space) =
      Ok (Z.of_nat (length out + length big_sample), out ++ big_sample ++ drop (length big_sample) space).
Proof.
  assert (H1 : 2 <= 5) by lia. assert (H2 : 0 <= 0 <= 5) by lia.
  assert (H3 : Z.of_nat (length big_sample) < 2 ^ 31) by (vm_compute; reflexivity).
  split; [exact H1|]. split; [exact H2|]. split; [exact H3|]. apply (store_roundtrip 5 5 0 H1 H2 big_sample H3).
Defined.

Lemma fragment_roundtrip_witness :
  let c := {| m_control := [6; 252; 2]; m_length := 12 |} in
  Compressor_new big_sample = Ok c /\ Z.of_nat 4 < getPackedLength c /\
  exists frags, fragment 5 5 0 big_sample 4 = Ok frags /\
    (exists head tail, frags = head :: tail /\ length head = 4%nat) /\
    forall out space tail_end, (length big_sample <= length space)%nat ->
      Z.of_nat (length out + length big_sample) <= tail_end ->
      unpack_all frags tail_end (Z.of_nat (length out)) (out ++ space) =
      Ok (Z.of_nat (length out + length big_sample), out ++ big_sample ++ drop (length big_sample) space).
Proof.
  intros c. assert (H1 : Compressor_new big_sample = Ok c) by (vm_compute; reflexivity).
  assert (H2 : Z.of_nat 4 < getPackedLength c) by (vm_compute; reflexivity).
  split; [exact H1|]. split; [exact H2|].
  apply (fragment_roundtrip 5 5 0 ltac:(lia) ltac:(lia) big_sample 4 c H1 H2). vm_compute. reflexivity.
Defined.

Lemma version_roundtrip_witness :
  Z.of_nat (length sample2) <= 127 * MAX_DIFFERENCES /\
  exists delta frags, store_version 5 5 0 false sample1 sample2 = Ok (delta, frags) /\
    forall record, length record = length sample2 -> (delta = true -> starts_as (length sample2) sample1 record) ->
      VIO_data delta frags record = Ok sample2.
Proof.
  assert (H : Z.of_nat (length sample2) <= 127 * MAX_DIFFERENCES) by (vm_compute; discriminate).
  split; [exact H|]. apply (version_roundtrip 5 5 0 ltac:(lia) ltac:(lia) false sample1 sample2 H). discriminate.
Defined.
