(* ===== verification/Btn.v ===== *)
(** * Index nodes: [src/src/jrd/btn.h] and [src/src/jrd/btn.cpp]

    An index page is a sequence of nodes. A node holds what its key does not share with
    the key of the node before, a record number and, above the leaves, a page number;
    numbers are written in groups of seven bits. In front of the nodes there are jump
    nodes, which give the shared part of the key of some of them.

    A page is a list of bytes, and a pointer into it a position. *)

From S2P Require Import Prelude Memory Outcome RecordNumber.

Definition BTN_NORMAL_FLAG : Z := 0.
Definition BTN_END_LEVEL_FLAG : Z := 1.
Definition BTN_END_BUCKET_FLAG : Z := 2.
Definition BTN_ZERO_PREFIX_ZERO_LENGTH_FLAG : Z := 3.
Definition BTN_ZERO_LENGTH_FLAG : Z := 4.
Definition BTN_ONE_LENGTH_FLAG : Z := 5.

(** Where the data of a node is: on the page, or in a buffer of its own. *)
Inductive DataPtr := InPage (p : Z) | Apart (bytes : list Z).

(** [memcpy(..., data, n)]: the bytes read *)
Definition data_bytes (page : list Z) (data : DataPtr) (n : Z) : Outcome (list Z) :=
  if decide (n = 0) then Ok []
  else match data with
       | InPage p => access (mem_read page p n)
       | Apart bytes => access (mem_read bytes 0 n)
       end.

Record IndexNode := {
  in_nodePointer : Z; in_prefix : Z; in_length : Z; in_pageNumber : Z; in_data : DataPtr;
  in_recordNumber : RecordNumber; in_isEndBucket : bool; in_isEndLevel : bool
}.

Record IndexJumpNode := {
  jn_nodePointer : Z; jn_prefix : Z; jn_length : Z; jn_offset : Z; jn_data : DataPtr
}.

(** ** Setting nodes *)

Definition setEndBucket (nd : IndexNode) : IndexNode :=
  {| in_nodePointer := in_nodePointer nd; in_prefix := in_prefix nd; in_length := in_length nd;
     in_pageNumber := in_pageNumber nd; in_data := in_data nd;
     in_recordNumber := in_recordNumber nd; in_isEndBucket := true; in_isEndLevel := false |}.

Definition setEndLevel (nd : IndexNode) : IndexNode :=
  {| in_nodePointer := in_nodePointer nd; in_prefix := 0; in_length := 0;
     in_pageNumber := 0; in_data := in_data nd;
     in_recordNumber := rn_setValue 0 (in_recordNumber nd);
     in_isEndBucket := false; in_isEndLevel := true |}.

Definition setNode (prefix length : Z) (recordNumber : RecordNumber) (pageNumber : Z)
    (isEndBucket isEndLevel : bool) (nd : IndexNode) : IndexNode :=
  {| in_nodePointer := in_nodePointer nd; in_prefix := prefix; in_length := length;
     in_pageNumber := wrapU 32 pageNumber; in_data := in_data nd;
     in_recordNumber := recordNumber;
     in_isEndBucket := isEndBucket; in_isEndLevel := isEndLevel |}.

(** [node.data = data] *)
Definition set_data (data : DataPtr) (nd : IndexNode) : IndexNode :=
  {| in_nodePointer := in_nodePointer nd; in_prefix := in_prefix nd; in_length := in_length nd;
     in_pageNumber := in_pageNumber nd; in_data := data; in_recordNumber := in_recordNumber nd;
     in_isEndBucket := in_isEndBucket nd; in_isEndLevel := in_isEndLevel nd |}.

Definition keyEqual (page : list Z) (nd : IndexNode) (length : Z) (data : list Z) : Outcome bool :=
  if decide (length <> in_length nd + in_prefix nd) then Ok false
  else if decide (in_length nd = 0) then Ok true
  else
    a ← data_bytes page (in_data nd) (in_length nd);
    b ← access (mem_read data (in_prefix nd) (in_length nd));
    Ok (bool_decide (a = b)).

(** The bytes two strings share in front; [l] is not zero. *)
Fixpoint common_loop (fuel : nat) (p string : list Z) (i l : Z) : Outcome Z :=
  match fuel with
  | O => Undefined
  | S fuel =>
      a ← access (p @ i);
      b ← access (string @ i);
      if decide (a = b) then
        if decide (l - 1 = 0) then Ok (i + 1) else common_loop fuel p string (i + 1) (l - 1)
      else Ok i
  end.

Definition computePrefix (prevString : list Z) (prevLength : Z) (string : list Z) (length : Z)
    : Outcome Z :=
  let l := Z.min prevLength length in
  if decide (l = 0) then Ok 0
  else common_loop (Z.to_nat l) prevString string 0 l.

(** ** Sizes *)

Definition internal_flags (nd : IndexNode) : Z :=
  if in_isEndLevel nd then BTN_END_LEVEL_FLAG
  else if in_isEndBucket nd then BTN_END_BUCKET_FLAG
  else if decide (in_length nd = 0) then
    if decide (in_prefix nd = 0) then BTN_ZERO_PREFIX_ZERO_LENGTH_FLAG else BTN_ZERO_LENGTH_FLAG
  else if decide (in_length nd = 1) then BTN_ONE_LENGTH_FLAG
  else BTN_NORMAL_FLAG.

(** [SINT64 number = recordNumber.getValue(); if (number < 0) number = 0] *)
Definition stored_number (value : Z) : Z := if decide (value < 0) then 0 else value.

(** The size of a [USHORT] for [getNodeSize]. *)
Definition short_size (number : Z) : Z :=
  if decide (Z.land number 0xFFFFC000 <> 0) then 3
  else if decide (Z.land number 0xFFFFFF80 <> 0) then 2
  else 1.

Definition record_size (number : Z) : Z :=
  if decide (Z.land number 0xFFF0000000 <> 0) then 5
  else if decide (Z.land number 0xFFFFE00000 <> 0) then 4
  else if decide (Z.land number 0xFFFFFFC000 <> 0) then 3
  else if decide (Z.land number 0xFFFFFFFF80 <> 0) then 2
  else 1.

Definition page_size (number : Z) : Z :=
  if decide (Z.land number 0xF0000000 <> 0) then 5
  else if decide (Z.land number 0xFFE00000 <> 0) then 4
  else if decide (Z.land number 0xFFFFC000 <> 0) then 3
  else if decide (Z.land number 0xFFFFFF80 <> 0) then 2
  else 1.

Definition has_prefix (flags : Z) : bool :=
  bool_decide (flags <> BTN_ZERO_PREFIX_ZERO_LENGTH_FLAG).

Definition has_length (flags : Z) : bool :=
  bool_decide (flags <> BTN_ZERO_PREFIX_ZERO_LENGTH_FLAG /\ flags <> BTN_ZERO_LENGTH_FLAG /\
               flags <> BTN_ONE_LENGTH_FLAG).

Definition getNodeSize (nd : IndexNode) (leafNode : bool) : Z :=
  let flags := internal_flags nd in
  if in_isEndLevel nd then 1
  else
    let number := Z.shiftr (stored_number (rn_value (in_recordNumber nd))) 5 in
    let result := 1 + record_size number in
    let result :=
      if leafNode then result else result + page_size (stored_number (in_pageNumber nd)) in
    let result := if has_prefix flags then result + short_size (in_prefix nd) else result in
    let result := if has_length flags then result + short_size (in_length nd) else result in
    wrapU 16 (result + in_length nd).

Definition jump_short_size (number : Z) : Z :=
  if decide (Z.land number 0xC000 <> 0) then 3
  else if decide (Z.land number 0xFF80 <> 0) then 2
  else 1.

Definition getJumpNodeSize (jn : IndexJumpNode) : Z :=
  wrapU 16 (jump_short_size (jn_prefix jn) + jump_short_size (jn_length jn) + 2 + jn_length jn).

(** ** Numbers in groups of seven bits

    [n] groups that announce another one at most, and then what [last] writes. *)

Fixpoint put_groups (n : nat) (last : Z -> list Z) (number : Z) : list Z :=
  match n with
  | O => last number
  | S n =>
      let tmp := Z.land number 0x7F in
      let number := Z.shiftr number 7 in
      if decide (number = 0) then [tmp] else Z.lor tmp 0x80 :: put_groups n last number
  end.

(** The rest of a record number: a fifth group only if it is the last one. *)
Definition put_record : Z -> list Z :=
  put_groups 4 (fun number =>
    if decide (Z.shiftr number 7 = 0) then [Z.land number 0x7F] else []).

Definition put_page : Z -> list Z := put_groups 4 (fun number => [Z.land number 0x0F]).

(** A length, 14 bits *)
Definition put_short14 : Z -> list Z := put_groups 1 (fun number => [Z.land number 0x7F]).

(** [n] groups that may announce another one, whose bits are [last_mask]. *)
Fixpoint get_groups (n : nat) (last_mask : Z) (page : list Z) (pointer shift number : Z)
    : Outcome (Z * Z) :=
  tmp ← access (page @ pointer);
  match n with
  | O => Ok (Z.lor number (Z.shiftl (Z.land tmp last_mask) shift), pointer + 1)
  | S n =>
      let number := Z.lor number (Z.shiftl (Z.land tmp 0x7F) shift) in
      if decide (tmp >= 128) then get_groups n last_mask page (pointer + 1) (shift + 7) number
      else Ok (number, pointer + 1)
  end.

(** ** Writing and reading nodes *)

(** What a node has in front of its data *)
Definition node_header (nd : IndexNode) (leafNode : bool) : list Z :=
  let flags := internal_flags nd in
  let number := stored_number (rn_value (in_recordNumber nd)) in
  let first := UCHAR (Z.lor (Z.shiftl flags 5) (Z.land number 0x1F)) in
  if in_isEndLevel nd then [first]
  else
    first :: put_record (Z.shiftr number 5)
    ++ (if leafNode then [] else put_page (stored_number (in_pageNumber nd)))
    ++ (if has_prefix flags then put_short14 (in_prefix nd) else [])
    ++ (if has_length flags then put_short14 (in_length nd) else []).

(** [memcpy(pagePointer, data, length)], which must not overlap. *)
Definition copy_data (page : list Z) (pagePointer : Z) (data : DataPtr) (length : Z)
    : Outcome (list Z) :=
  let apart :=
    match data with
    | InPage p => bool_decide (p + length <= pagePointer \/ pagePointer + length <= p)
    | Apart _ => true
    end in
  if apart || bool_decide (length = 0) then
    bs ← data_bytes page data length;
    access (mem_write page pagePointer bs)
  else Undefined.

(** [memmove(pagePointer, data, length)] *)
Definition move_data (page : list Z) (pagePointer : Z) (data : DataPtr) (length : Z)
    : Outcome (list Z) :=
  bs ← data_bytes page data length;
  access (mem_write page pagePointer bs).

Definition set_nodePointer (p : Z) (nd : IndexNode) : IndexNode :=
  {| in_nodePointer := p; in_prefix := in_prefix nd; in_length := in_length nd;
     in_pageNumber := in_pageNumber nd; in_data := in_data nd;
     in_recordNumber := in_recordNumber nd;
     in_isEndBucket := in_isEndBucket nd; in_isEndLevel := in_isEndLevel nd |}.

(** The page, the position after the node and the node, whose [nodePointer] is set. *)
Definition writeNode (page : list Z) (nd : IndexNode) (pagePointer : Z) (leafNode withData : bool)
    : Outcome (list Z * Z * IndexNode) :=
  let nd := set_nodePointer pagePointer nd in
  page ← (if withData then Ok page
          else
            let offset := wrapU 16 (getNodeSize nd leafNode - in_length nd) in
            move_data page (pagePointer + offset) (in_data nd) (in_length nd));
  let header := node_header nd leafNode in
  page ← access (mem_write page pagePointer header);
  let pagePointer := pagePointer + Z.of_nat (length header) in
  if in_isEndLevel nd then Ok (page, pagePointer, nd)
  else
    page ← (if withData then copy_data page pagePointer (in_data nd) (in_length nd) else Ok page);
    Ok (page, pagePointer + in_length nd, nd).

(** The node, whose fields are [nd]'s where nothing is read for them, and the position
    after it. *)
Definition readNode (page : list Z) (nd : IndexNode) (pagePointer : Z) (leafNode : bool)
    : Outcome (IndexNode * Z) :=
  first ← access (page @ pagePointer);
  let localPointer := pagePointer + 1 in
  let number := Z.land first 0x1F in
  let flags := Z.shiftr (Z.land first 0xE0) 5 in
  let isEndLevel := bool_decide (flags = BTN_END_LEVEL_FLAG) in
  let isEndBucket := bool_decide (flags = BTN_END_BUCKET_FLAG) in
  if isEndLevel then
    Ok ({| in_nodePointer := pagePointer; in_prefix := 0; in_length := 0; in_pageNumber := 0;
           in_data := in_data nd; in_recordNumber := rn_setValue 0 (in_recordNumber nd);
           in_isEndBucket := isEndBucket; in_isEndLevel := isEndLevel |}, localPointer)
  else
    '(number, localPointer) ← get_groups 4 0x7F page localPointer 5 number;
    '(pageNumber, localPointer) ←
      (if leafNode then Ok (in_pageNumber nd, localPointer)
       else get_groups 4 0x0F page localPointer 0 0);
    '(prefix, localPointer) ←
      (if decide (flags = BTN_ZERO_PREFIX_ZERO_LENGTH_FLAG) then Ok (0, localPointer)
       else get_groups 1 0x7F page localPointer 0 0);
    '(len, localPointer) ←
      (if decide (flags = BTN_ZERO_LENGTH_FLAG \/ flags = BTN_ZERO_PREFIX_ZERO_LENGTH_FLAG)
       then Ok (0, localPointer)
       else if decide (flags = BTN_ONE_LENGTH_FLAG) then Ok (1, localPointer)
       else get_groups 1 0x7F page localPointer 0 0);
    Ok ({| in_nodePointer := pagePointer; in_prefix := prefix; in_length := len;
           in_pageNumber := pageNumber; in_data := InPage localPointer;
           in_recordNumber := rn_setValue number (in_recordNumber nd);
           in_isEndBucket := isEndBucket; in_isEndLevel := isEndLevel |}, localPointer + len).

(** ** Jump nodes *)

Section Jump.
Context (order : ByteOrder).

Definition writeJumpNode (page : list Z) (jn : IndexJumpNode) (pagePointer : Z)
    : Outcome (list Z * Z * IndexJumpNode) :=
  let header := put_short14 (jn_prefix jn) ++ put_short14 (jn_length jn)
                ++ int_bytes order 2 (jn_offset jn) in
  page ← access (mem_write page pagePointer header);
  let pagePointer' := pagePointer + Z.of_nat (length header) in
  page ← move_data page pagePointer' (jn_data jn) (jn_length jn);
  Ok (page, pagePointer' + jn_length jn,
      {| jn_nodePointer := pagePointer; jn_prefix := jn_prefix jn; jn_length := jn_length jn;
         jn_offset := jn_offset jn; jn_data := jn_data jn |}).

Definition readJumpNode (page : list Z) (pagePointer : Z) : Outcome (IndexJumpNode * Z) :=
  '(prefix, p) ← get_groups 1 0x7F page pagePointer 0 0;
  '(len, p) ← get_groups 1 0x7F page p 0 0;
  bs ← access (mem_read page p 2);
  Ok ({| jn_nodePointer := pagePointer; jn_prefix := prefix; jn_length := len;
         jn_offset := int_value order bs; jn_data := InPage (p + 2) |}, p + 2 + len).
End Jump.

(** ** [findPageInDuplicates]

    Page numbers are signed here. The fuel is the size of the page. *)

Section Duplicates.
Context (page : list Z) (leafPage : bool) (findRecordNumber : Z).

Fixpoint duplicates_loop (fuel : nat) (nd : IndexNode) (pointer previousNumber : Z) : Outcome Z :=
  match fuel with
  | O => Undefined
  | S fuel =>
      if in_isEndBucket nd then Ok previousNumber
      else if decide (findRecordNumber <= rn_value (in_recordNumber nd)) then Ok previousNumber
      else
        let previousNumber := wrapS 32 (in_pageNumber nd) in
        '(next, pointer) ← readNode page nd pointer leafPage;
        if in_isEndLevel next || bool_decide (in_length next <> 0)
           || bool_decide (in_prefix next <> in_length nd + in_prefix nd)
        then Ok previousNumber
        else duplicates_loop fuel next pointer previousNumber
  end.

Definition IndexNode_new : IndexNode :=
  {| in_nodePointer := 0; in_prefix := 0; in_length := 0; in_pageNumber := 0; in_data := Apart [];
     in_recordNumber := RecordNumber_default; in_isEndBucket := false; in_isEndLevel := false |}.

Definition findPageInDuplicates (pointer previousNumber : Z) : Outcome Z :=
  '(nd, pointer) ← readNode page IndexNode_new pointer leafPage;
  duplicates_loop (S (length page)) nd pointer previousNumber.
End Duplicates.
