(* ===== verification/BtnNode.v ===== *)
(** * Index nodes: the theorems

    The bytes of a node, which [writeNode] writes, of which [getNodeSize] is the number,
    and from which [readNode] makes the node again. *)

From S2P Require Import Prelude Memory Outcome RecordNumber Btn.

(** ** Bits *)

Lemma land_low x k : 0 <= k -> Z.land x (Z.ones k) = x mod 2 ^ k.
Proof. apply Z.land_ones. Qed.

(** The bits of [a] and those of [b], shifted out of the way *)
Lemma lor_shifted a b k : 0 <= k -> 0 <= a < 2 ^ k -> Z.lor a (Z.shiftl b k) = a + b * 2 ^ k.
Proof.
  intros Hk Ha. rewrite <- Z.shiftl_mul_pow2 by done. symmetry. apply Z.add_nocarry_lor.
  apply Z.bits_inj'. intros i Hi. rewrite Z.land_spec, Z.bits_0.
  destruct (decide (i < k)) as [Hlt|Hge].
  - rewrite Z.shiftl_spec_low by done. by rewrite andb_false_r.
  - rewrite <- (Z.mod_small a (2 ^ k)) by done. by rewrite Z.mod_pow2_bits_high by lia.
Qed.

(** A mask of the bits from [k] to [m] is a comparison. *)
Lemma land_mask x m k mask :
  0 <= k -> 0 <= x < 2 ^ m -> 0 <= m -> mask = Z.ldiff (Z.ones m) (Z.ones k) ->
  Z.land x mask <> 0 <-> 2 ^ k <= x.
Proof.
  intros Hk Hx Hm ->.
  assert (Heq : Z.land x (Z.ldiff (Z.ones m) (Z.ones k)) = Z.shiftl (Z.shiftr x k) k).
  { rewrite <- Z.ldiff_ones_r by done. rewrite <- (Z.mod_small x (2 ^ m)) at 2 by done.
    rewrite <- Z.land_ones by done. apply Z.bits_inj'. intros i Hi.
    rewrite !Z.land_spec, !Z.ldiff_spec, Z.land_spec. by rewrite andb_assoc. }
  rewrite Heq, Z.shiftl_mul_pow2, Z.shiftr_div_pow2 by done.
  assert (0 < 2 ^ k) by lia. split.
  - intros Hne. destruct (decide (x < 2 ^ k)); [|lia]. rewrite Z.div_small in Hne by lia. lia.
  - intros Hle. assert (1 <= x / 2 ^ k) by (apply Z.div_le_lower_bound; lia). lia.
Qed.

(** ** Bytes at a position *)

Definition bytes_at (page : list Z) (p : Z) (bs : list Z) : Prop :=
  mem_read page p (Z.of_nat (length bs)) = Some bs.

Lemma bytes_at_spec page p bs :
  bytes_at page p bs <->
  0 <= p /\ exists rest, drop (Z.to_nat p) page = bs ++ rest /\ p <= Z.of_nat (length page).
Proof.
  unfold bytes_at, mem_read. split.
  - case_decide as Hb; [|done]. intros [= Hbs]. split; [lia|].
    exists (drop (length bs) (drop (Z.to_nat p) page)). split; [|lia].
    rewrite <- Hbs at 1. rewrite Nat2Z.id. by rewrite take_drop.
  - intros (Hp & rest & Hd & Hlen). pose proof (f_equal length Hd) as Hl.
    rewrite length_drop, length_app in Hl. rewrite decide_True by lia.
    rewrite Nat2Z.id, Hd. by rewrite take_app_length.
Qed.

Lemma bytes_at_app page p a b :
  bytes_at page p (a ++ b) <-> bytes_at page p a /\ bytes_at page (p + Z.of_nat (length a)) b.
Proof.
  rewrite !bytes_at_spec. split.
  - intros (Hp & rest & Hd & Hl). pose proof (f_equal length Hd) as Hn.
    rewrite length_drop, !length_app in Hn. split.
    + split; [done|]. exists (b ++ rest). by rewrite app_assoc.
    + split; [lia|]. exists rest. split; [|lia].
      replace (Z.to_nat (p + Z.of_nat (length a))) with (Z.to_nat p + length a)%nat by lia.
      rewrite <- drop_drop, Hd, <- app_assoc. by rewrite drop_app_length.
  - intros ((Hp & rest & Hd & Hl) & _ & rest' & Hd' & Hl'). split; [done|].
    exists rest'. split; [|done].
    replace (Z.to_nat (p + Z.of_nat (length a))) with (Z.to_nat p + length a)%nat in Hd' by lia.
    rewrite <- drop_drop, Hd, drop_app_length in Hd'. by rewrite Hd, Hd', app_assoc.
Qed.

Lemma bytes_at_cons page p b bs :
  bytes_at page p (b :: bs) <-> page @ p = Some b /\ bytes_at page (p + 1) bs.
Proof.
  change (b :: bs) with ([b] ++ bs). rewrite bytes_at_app. simpl.
  assert (bytes_at page p [b] <-> page @ p = Some b); [|tauto].
  rewrite bytes_at_spec, aget_Some. split.
  - intros (Hp & rest & Hd & _). split; [done|].
    rewrite <- (Nat.add_0_r (Z.to_nat p)), <- lookup_drop, Hd. done.
  - intros [Hp Hl]. split; [done|]. exists (drop (S (Z.to_nat p)) page).
    split; [by apply drop_S|]. apply lookup_lt_Some in Hl. lia.
Qed.

Lemma bytes_at_range page p bs :
  bytes_at page p bs -> 0 <= p /\ p + Z.of_nat (length bs) <= Z.of_nat (length page).
Proof. unfold bytes_at, mem_read. case_decide; [lia|done]. Qed.

Lemma mem_write_at page p bs page' :
  mem_write page p bs = Some page' -> bytes_at page' p bs.
Proof.
  unfold mem_write. case_decide as Hb; [|done]. intros [= <-].
  apply bytes_at_spec. split; [lia|]. exists (drop (Z.to_nat p + length bs) page).
  rewrite drop_app_length' by (rewrite length_take; lia).
  split; [done|]. rewrite !length_app, length_take, length_drop. lia.
Qed.

(** ** Groups of seven bits *)

Lemma group_head number : 0 <= number ->
  Z.land number 0x7F = number mod 128 /\
  Z.lor (Z.land number 0x7F) 0x80 = number mod 128 + 128 /\
  Z.land (Z.lor (Z.land number 0x7F) 0x80) 0x7F = number mod 128.
Proof.
  intros Hn. pose proof (Z.mod_pos_bound number 128 ltac:(lia)) as Hm.
  change 0x7F with (Z.ones 7). rewrite !land_low by lia. change (2 ^ 7) with 128.
  pose proof (lor_shifted (number mod 128) 1 7 ltac:(lia) Hm) as Hor.
  change (Z.shiftl 1 7) with 128 in Hor. change (2 ^ 7) with 128 in Hor. rewrite Hor.
  split_and!; [done|lia|].
  symmetry. apply (Z.mod_unique _ _ 1); lia.
Qed.

Section Groups.
Context (L last_mask : Z) (last : Z -> list Z).
Hypothesis Hlast : forall x, 0 <= x < L -> last x = [x] /\ Z.land x last_mask = x.

Lemma get_put_groups n page : forall p shift acc number,
  0 <= shift -> 0 <= acc < 2 ^ shift -> 0 <= number < 2 ^ (7 * Z.of_nat n) * L ->
  bytes_at page p (put_groups n last number) ->
  get_groups n last_mask page p shift acc =
    Ok (acc + number * 2 ^ shift, p + Z.of_nat (length (put_groups n last number))).
Proof.
  induction n as [|n IH]; intros p shift acc number Hs Ha Hn Hat; cbn [put_groups get_groups] in *.
  - change (2 ^ (7 * Z.of_nat 0)) with 1 in Hn.
    destruct (Hlast number ltac:(lia)) as [Heq Hmask].
    rewrite Heq in *. apply bytes_at_cons in Hat as [-> _]. cbn [access mbind Outcome_bind].
    rewrite Hmask, lor_shifted by done. done.
  - assert (Hpow : 2 ^ (7 * Z.of_nat (S n)) = 128 * 2 ^ (7 * Z.of_nat n)).
    { replace (7 * Z.of_nat (S n)) with (7 + 7 * Z.of_nat n) by lia. rewrite Z.pow_add_r by lia. done. }
    destruct (group_head number ltac:(lia)) as (Hlow & Hmark & Hback).
    pose proof (Z.div_mod number 128 ltac:(lia)) as Hdm.
    pose proof (Z.mod_pos_bound number 128 ltac:(lia)) as Hm.
    rewrite Z.shiftr_div_pow2 in * by lia. change (2 ^ 7) with 128 in *.
    case_decide as Hz.
    + apply bytes_at_cons in Hat as [-> _]. cbn [access mbind Outcome_bind].
      rewrite Hlow. rewrite decide_False by lia.
      change 0x7F with (Z.ones 7). rewrite land_low by lia. change (2 ^ 7) with 128.
      rewrite Z.mod_mod, lor_shifted by lia. simpl. do 2 f_equal. lia.
    + apply bytes_at_cons in Hat as [-> Hat]. cbn [access mbind Outcome_bind].
      rewrite Hback, lor_shifted by done. rewrite decide_True by lia.
      assert (Hpos : 0 < 2 ^ shift) by lia.
      rewrite (IH (p + 1) (shift + 7) _ (number / 128)); [| | | |done].
      * rewrite Z.pow_add_r by lia. change (2 ^ 7) with 128. simpl length. f_equal. f_equal; [nia|lia].
      * lia.
      * rewrite Z.pow_add_r by lia. change (2 ^ 7) with 128. nia.
      * split; [apply Z.div_pos; lia|]. apply Z.div_lt_upper_bound; lia.
Qed.
End Groups.

Lemma last_record x : 0 <= x < 128 ->
  (if decide (Z.shiftr x 7 = 0) then [Z.land x 0x7F] else []) = [x] /\ Z.land x 0x7F = x.
Proof.
  intros Hx. assert (Hl : Z.land x 0x7F = x).
  { change 0x7F with (Z.ones 7). rewrite land_low by lia. apply Z.mod_small. done. }
  rewrite Z.shiftr_div_pow2, Z.div_small by lia. by rewrite decide_True, Hl by done.
Qed.

Lemma last_page x : 0 <= x < 16 -> [Z.land x 0x0F] = [x] /\ Z.land x 0x0F = x.
Proof.
  intros Hx. change 0x0F with (Z.ones 4). rewrite land_low by lia.
  by rewrite Z.mod_small by (change (2 ^ 4) with 16; lia).
Qed.

Lemma last_short x : 0 <= x < 128 -> [Z.land x 0x7F] = [x] /\ Z.land x 0x7F = x.
Proof. intros Hx. destruct (last_record x Hx) as [_ Hl]. by rewrite Hl. Qed.

Lemma get_record page p acc number :
  0 <= acc < 32 -> 0 <= number < 2 ^ 35 -> bytes_at page p (put_record number) ->
  get_groups 4 0x7F page p 5 acc =
    Ok (acc + number * 32, p + Z.of_nat (length (put_record number))).
Proof.
  intros Ha Hn Hat. rewrite (get_put_groups 128 0x7F _ last_record 4 page p 5 acc number);
    [done|lia|done|change (2 ^ (7 * Z.of_nat 4) * 128) with (2 ^ 35); lia|done].
Qed.

Lemma get_page page p number :
  0 <= number < 2 ^ 32 -> bytes_at page p (put_page number) ->
  get_groups 4 0x0F page p 0 0 = Ok (number, p + Z.of_nat (length (put_page number))).
Proof.
  intros Hn Hat. rewrite (get_put_groups 16 0x0F _ last_page 4 page p 0 0 number);
    [|lia|lia|change (2 ^ (7 * Z.of_nat 4) * 16) with (2 ^ 32); lia|done].
  by rewrite Z.mul_1_r.
Qed.

Lemma get_short14 page p number :
  0 <= number < 2 ^ 14 -> bytes_at page p (put_short14 number) ->
  get_groups 1 0x7F page p 0 0 = Ok (number, p + Z.of_nat (length (put_short14 number))).
Proof.
  intros Hn Hat. rewrite (get_put_groups 128 0x7F _ last_short 1 page p 0 0 number);
    [|lia|lia|change (2 ^ (7 * Z.of_nat 1) * 128) with (2 ^ 14); lia|done].
  by rewrite Z.mul_1_r.
Qed.

(** *** Their number *)

Lemma group_length n last number :
  length (put_groups (S n) last number) =
  if decide (number / 128 = 0) then 1%nat else S (length (put_groups n last (number / 128))).
Proof.
  cbn [put_groups]. rewrite Z.shiftr_div_pow2 by lia. change (2 ^ 7) with 128. by case_decide.
Qed.

(** [groups_of x] names the quotients of [x] by the powers of 128. *)
Ltac groups_of x :=
  let q := fresh "q" in
  pose proof (Z.div_mod x 128 ltac:(lia)); pose proof (Z.mod_pos_bound x 128 ltac:(lia));
  set (q := x / 128) in *;
  let q2 := fresh "q" in
  pose proof (Z.div_mod q 128 ltac:(lia)); pose proof (Z.mod_pos_bound q 128 ltac:(lia));
  set (q2 := q / 128) in *;
  let q3 := fresh "q" in
  pose proof (Z.div_mod q2 128 ltac:(lia)); pose proof (Z.mod_pos_bound q2 128 ltac:(lia));
  set (q3 := q2 / 128) in *;
  let q4 := fresh "q" in
  pose proof (Z.div_mod q3 128 ltac:(lia)); pose proof (Z.mod_pos_bound q3 128 ltac:(lia));
  set (q4 := q3 / 128) in *;
  pose proof (Z.div_mod q4 128 ltac:(lia)); pose proof (Z.mod_pos_bound q4 128 ltac:(lia)).

Ltac size_cases := repeat (case_decide; try (exfalso; lia)); reflexivity.

Section Sizes.
Context (w number : Z) (Hw : 0 <= w) (Hn : 0 <= number < 2 ^ w).

Lemma size_test k mask t {A} (a b : A) :
  0 <= k -> mask = Z.ldiff (Z.ones w) (Z.ones k) -> t = 2 ^ k ->
  (if decide (Z.land number mask <> 0) then a else b) = if decide (t <= number) then a else b.
Proof. intros Hk Hm ->. apply decide_ext. by apply (land_mask number w k mask). Qed.
End Sizes.

Lemma put_record_length number :
  0 <= number < 2 ^ 35 -> Z.of_nat (length (put_record number)) = record_size number.
Proof.
  intros Hn. assert (Hw : 0 <= number < 2 ^ 40)
    by (change (2 ^ 35) with 34359738368 in Hn; change (2 ^ 40) with 1099511627776; lia).
  change (2 ^ 35) with 34359738368 in Hn.
  unfold record_size, put_record.
  rewrite (size_test 40 number ltac:(lia) Hw 28 0xFFF0000000 268435456) by done.
  rewrite (size_test 40 number ltac:(lia) Hw 21 0xFFFFE00000 2097152) by done.
  rewrite (size_test 40 number ltac:(lia) Hw 14 0xFFFFFFC000 16384) by done.
  rewrite (size_test 40 number ltac:(lia) Hw 7 0xFFFFFFFF80 128) by done.
  clear Hw.
  rewrite !group_length. cbn [put_groups].
  rewrite Z.shiftr_div_pow2 by lia. change (2 ^ 7) with 128. groups_of number. simpl.
  size_cases.
Qed.

Lemma put_page_length number :
  0 <= number < 2 ^ 32 -> Z.of_nat (length (put_page number)) = page_size number.
Proof.
  intros Hn.
  unfold page_size, put_page.
  rewrite (size_test 32 number ltac:(lia) Hn 28 0xF0000000 268435456) by done.
  rewrite (size_test 32 number ltac:(lia) Hn 21 0xFFE00000 2097152) by done.
  rewrite (size_test 32 number ltac:(lia) Hn 14 0xFFFFC000 16384) by done.
  rewrite (size_test 32 number ltac:(lia) Hn 7 0xFFFFFF80 128) by done.
  rewrite !group_length. cbn [put_groups].
  groups_of number. simpl. size_cases.
Qed.

Lemma put_short14_length number :
  0 <= number < 2 ^ 14 -> Z.of_nat (length (put_short14 number)) = short_size number.
Proof.
  intros Hn. change (2 ^ 14) with 16384 in Hn.
  assert (Hw : 0 <= number < 2 ^ 32) by (change (2 ^ 32) with 4294967296; lia).
  unfold short_size, put_short14.
  rewrite (size_test 32 number ltac:(lia) Hw 14 0xFFFFC000 16384) by done.
  rewrite (size_test 32 number ltac:(lia) Hw 7 0xFFFFFF80 128) by done.
  clear Hw.
  rewrite !group_length. cbn [put_groups].
  pose proof (Z.div_mod number 128 ltac:(lia)). pose proof (Z.mod_pos_bound number 128 ltac:(lia)).
  simpl. size_cases.
Qed.

Lemma jump_short_size_short number :
  0 <= number < 2 ^ 14 -> jump_short_size number = short_size number.
Proof.
  intros Hn. change (2 ^ 14) with 16384 in Hn.
  assert (Hw : 0 <= number < 2 ^ 32) by (change (2 ^ 32) with 4294967296; lia).
  assert (Hv : 0 <= number < 2 ^ 16) by (change (2 ^ 16) with 65536; lia).
  unfold jump_short_size, short_size.
  rewrite (size_test 32 number ltac:(lia) Hw 14 0xFFFFC000 16384) by done.
  rewrite (size_test 32 number ltac:(lia) Hw 7 0xFFFFFF80 128) by done.
  rewrite (size_test 16 number ltac:(lia) Hv 14 0xC000 16384) by done.
  rewrite (size_test 16 number ltac:(lia) Hv 7 0xFF80 128) by done.
  size_cases.
Qed.

(** ** Entries: nodes with their data *)

Inductive EndMark := NoMark | EndBucket | EndLevel.

#[export] Instance EndMark_eq_dec : EqDecision EndMark.
Proof. solve_decision. Defined.

Record Entry := {
  e_prefix : Z; e_data : list Z; e_number : Z; e_page : Z; e_mark : EndMark
}.

Definition e_length (e : Entry) : Z := Z.of_nat (length (e_data e)).

(** What fits into a node; the last node of a level is empty. *)
Definition entry_ok (e : Entry) : Prop :=
  0 <= e_prefix e < 2 ^ 14 /\ e_length e < 2 ^ 14 /\ 0 <= e_number e < 2 ^ 40 /\
  0 <= e_page e < 2 ^ 32 /\
  (e_mark e = EndLevel -> e_prefix e = 0 /\ e_data e = [] /\ e_number e = 0 /\ e_page e = 0).

Definition node_of (e : Entry) : IndexNode :=
  {| in_nodePointer := 0; in_prefix := e_prefix e; in_length := e_length e;
     in_pageNumber := e_page e; in_data := Apart (e_data e);
     in_recordNumber := RecordNumber_new (e_number e);
     in_isEndBucket := bool_decide (e_mark e = EndBucket);
     in_isEndLevel := bool_decide (e_mark e = EndLevel) |}.

(** The bytes of an entry *)
Definition encode (leaf : bool) (e : Entry) : list Z := node_header (node_of e) leaf ++ e_data e.

Definition e_size (leaf : bool) (e : Entry) : Z := Z.of_nat (length (encode leaf e)).

(** A node is at a position and has the fields of an entry; a leaf has no page number. *)
Record node_is (page : list Z) (leaf : bool) (p : Z) (e : Entry) (nd : IndexNode) : Prop := {
  is_pointer : in_nodePointer nd = p;
  is_prefix : in_prefix nd = e_prefix e;
  is_length : in_length nd = e_length e;
  is_page : leaf = false -> in_pageNumber nd = e_page e;
  is_data : data_bytes page (in_data nd) (in_length nd) = Ok (e_data e);
  is_number : rn_value (in_recordNumber nd) = e_number e;
  is_bucket : in_isEndBucket nd = bool_decide (e_mark e = EndBucket);
  is_level : in_isEndLevel nd = bool_decide (e_mark e = EndLevel)
}.

Lemma e_length_nonneg e : 0 <= e_length e.
Proof. unfold e_length. lia. Qed.

(** *** The first byte *)

Lemma first_byte flags number first :
  0 <= flags < 8 -> 0 <= number ->
  first = UCHAR (Z.lor (Z.shiftl flags 5) (Z.land number 0x1F)) ->
  Z.land first 0x1F = number mod 32 /\ Z.shiftr (Z.land first 0xE0) 5 = flags.
Proof.
  intros Hf Hn Hfirst. pose proof (Z.mod_pos_bound number 32 ltac:(lia)) as Hm.
  change 0x1F with (Z.ones 5) in *. rewrite !land_low in * by lia. change (2 ^ 5) with 32 in *.
  rewrite Z.lor_comm, lor_shifted in Hfirst by (change (2 ^ 5) with 32; lia).
  change (2 ^ 5) with 32 in Hfirst. unfold UCHAR in Hfirst.
  rewrite wrapU_id in Hfirst by (unfold inU; change (2 ^ 8) with 256; lia). split.
  - symmetry. apply (Z.mod_unique _ _ flags); lia.
  - assert (Hs : Z.shiftr (Z.land first 0xE0) 5 = Z.shiftr first 5 mod 2 ^ 3).
    { rewrite Z.shiftr_land. change (Z.shiftr 0xE0 5) with (Z.ones 3). apply land_low. lia. }
    rewrite Hs, Z.shiftr_div_pow2 by lia. change (2 ^ 5) with 32. change (2 ^ 3) with 8.
    assert (first / 32 = flags) as -> by (symmetry; apply (Z.div_unique _ _ _ (number mod 32)); lia).
    apply Z.mod_small. lia.
Qed.

Lemma flags_range nd : 0 <= internal_flags nd < 8.
Proof.
  unfold internal_flags, BTN_END_LEVEL_FLAG, BTN_END_BUCKET_FLAG, BTN_ZERO_PREFIX_ZERO_LENGTH_FLAG,
    BTN_ZERO_LENGTH_FLAG, BTN_ONE_LENGTH_FLAG, BTN_NORMAL_FLAG.
  repeat case_match; lia.
Qed.

Lemma stored_number_id v : 0 <= v -> stored_number v = v.
Proof. intros Hv. unfold stored_number. by rewrite decide_False by lia. Qed.

(** The flags of a node say what its mark, prefix and length say. *)
Lemma flags_meaning e :
  entry_ok e ->
  let flags := internal_flags (node_of e) in
  bool_decide (flags = BTN_END_LEVEL_FLAG) = bool_decide (e_mark e = EndLevel) /\
  bool_decide (flags = BTN_END_BUCKET_FLAG) = bool_decide (e_mark e = EndBucket) /\
  (flags = BTN_ZERO_PREFIX_ZERO_LENGTH_FLAG -> e_prefix e = 0 /\ e_length e = 0) /\
  (flags = BTN_ZERO_LENGTH_FLAG -> e_length e = 0) /\
  (flags = BTN_ONE_LENGTH_FLAG -> e_length e = 1).
Proof.
  intros He flags. unfold flags, internal_flags, BTN_END_LEVEL_FLAG, BTN_END_BUCKET_FLAG,
    BTN_ZERO_PREFIX_ZERO_LENGTH_FLAG, BTN_ZERO_LENGTH_FLAG, BTN_ONE_LENGTH_FLAG, BTN_NORMAL_FLAG.
  cbn [node_of in_isEndLevel in_isEndBucket in_length in_prefix].
  destruct (e_mark e); repeat case_bool_decide; repeat case_decide; split_and!; intros; try done; lia.
Qed.

(** ** Reading the bytes of an entry *)

Lemma data_in_page page p bs n :
  n = Z.of_nat (length bs) -> bytes_at page p bs -> data_bytes page (InPage p) n = Ok bs.
Proof.
  intros -> Hat. unfold data_bytes. case_decide as Hz.
  - destruct bs; [done|simpl in Hz; lia].
  - by rewrite Hat.
Qed.

(** The page number, if there is one *)
Lemma read_page_part (leaf : bool) page p number old :
  0 <= number < 2 ^ 32 ->
  let bs := if leaf then [] else put_page number in
  bytes_at page p bs ->
  (if leaf then Ok (old, p) else get_groups 4 0x0F page p 0 0) =
    Ok (if leaf then old else number, p + Z.of_nat (length bs)).
Proof.
  intros Hn bs Hat. unfold bs in *. destruct leaf; [by rewrite Z.add_0_r|]. by apply get_page.
Qed.

Lemma read_prefix_part flags page p e :
  entry_ok e -> flags = internal_flags (node_of e) ->
  let bs := if has_prefix flags then put_short14 (e_prefix e) else [] in
  bytes_at page p bs ->
  (if decide (flags = BTN_ZERO_PREFIX_ZERO_LENGTH_FLAG) then Ok (0, p)
   else get_groups 1 0x7F page p 0 0) = Ok (e_prefix e, p + Z.of_nat (length bs)).
Proof.
  intros He Hflags bs Hat. unfold bs, has_prefix in *.
  destruct (flags_meaning e He) as (_ & _ & Hz & _). rewrite <- Hflags in Hz.
  case_decide as Hd; case_bool_decide; try done.
  - destruct (Hz Hd) as [-> _]. by rewrite Z.add_0_r.
  - apply get_short14; [apply He|done].
Qed.

Lemma read_length_part flags page p e :
  entry_ok e -> flags = internal_flags (node_of e) ->
  let bs := if has_length flags then put_short14 (e_length e) else [] in
  bytes_at page p bs ->
  (if decide (flags = BTN_ZERO_LENGTH_FLAG \/ flags = BTN_ZERO_PREFIX_ZERO_LENGTH_FLAG)
   then Ok (0, p)
   else if decide (flags = BTN_ONE_LENGTH_FLAG) then Ok (1, p)
   else get_groups 1 0x7F page p 0 0) = Ok (e_length e, p + Z.of_nat (length bs)).
Proof.
  intros He Hflags bs Hat. unfold bs, has_length in *.
  destruct (flags_meaning e He) as (_ & _ & Hzz & Hz & Hone). rewrite <- Hflags in *.
  pose proof (e_length_nonneg e). pose proof He as (_ & Hlen & _).
  destruct (decide (flags = BTN_ZERO_LENGTH_FLAG \/ flags = BTN_ZERO_PREFIX_ZERO_LENGTH_FLAG)) as [Hd|Hd];
    [|destruct (decide (flags = BTN_ONE_LENGTH_FLAG)) as [Hd2|Hd2]];
    case_bool_decide as Hb; try tauto.
  - rewrite Z.add_0_r. destruct Hd as [Hd|Hd]; [by rewrite (Hz Hd)|].
    destruct (Hzz Hd) as [_ ->]. done.
  - by rewrite Z.add_0_r, (Hone Hd2).
  - by apply get_short14.
Qed.

Lemma read_entry page leaf p e nd :
  entry_ok e -> bytes_at page p (encode leaf e) ->
  exists nd', readNode page nd p leaf = Ok (nd', p + e_size leaf e) /\ node_is page leaf p e nd'.
Proof.
  intros He Hat. unfold e_size, encode in *.
  destruct (flags_meaning e He) as (Hlevel & Hbucket & _).
  pose proof He as (Hp & Hl & Hn & Hpg & Hend).
  set (flags := internal_flags (node_of e)) in *.
  assert (Hheader : exists rest, node_header (node_of e) leaf =
    UCHAR (Z.lor (Z.shiftl flags 5) (Z.land (e_number e) 0x1F)) :: rest /\
    (e_mark e = EndLevel -> rest = []) /\
    (e_mark e <> EndLevel -> rest = put_record (Z.shiftr (e_number e) 5)
      ++ (if leaf then [] else put_page (e_page e))
      ++ (if has_prefix flags then put_short14 (e_prefix e) else [])
      ++ (if has_length flags then put_short14 (e_length e) else []))).
  { unfold node_header. fold flags. cbn [node_of in_recordNumber rn_value RecordNumber_new
      in_isEndLevel in_pageNumber in_prefix in_length].
    rewrite !stored_number_id by lia.
    destruct (decide (e_mark e = EndLevel)) as [Hm|Hm];
      [rewrite (bool_decide_eq_true_2 _ Hm)|rewrite (bool_decide_eq_false_2 _ Hm)];
      eexists; split_and!; (reflexivity || intros; done). }
  revert Hheader Hat. generalize (node_header (node_of e) leaf). intros header Hheader Hat.
  destruct Hheader as (rest & -> & Hrest1 & Hrest2).
  simpl in Hat. apply bytes_at_cons in Hat as [Hfirst Hat].
  destruct (first_byte flags (e_number e) _ (flags_range _) ltac:(lia) eq_refl) as [Hlow Hhigh].
  unfold readNode. rewrite Hfirst. cbn [access mbind Outcome_bind].
  rewrite Hlow, Hhigh, Hlevel, Hbucket. clear Hfirst.
  destruct (decide (e_mark e = EndLevel)) as [Hm|Hm].
  - rewrite (bool_decide_eq_true_2 _ Hm). rewrite (Hrest1 Hm) in *.
    destruct (Hend Hm) as (Hp0 & Hd0 & Hn0 & Hpg0). eexists. split.
    { rewrite Hd0. done. }
    split; cbn; rewrite ?Hp0, ?Hn0, ?Hpg0, ?Hm; try done; unfold e_length; by rewrite Hd0.
  - rewrite (bool_decide_eq_false_2 _ Hm). rewrite (Hrest2 Hm) in *. clear Hrest1 Hrest2.
    rewrite <- !app_assoc in Hat.
    apply bytes_at_app in Hat as [Hrec Hat]. apply bytes_at_app in Hat as [Hpage Hat].
    apply bytes_at_app in Hat as [Hpre Hat]. apply bytes_at_app in Hat as [Hlen Hat].
    rewrite (get_record _ _ _ (Z.shiftr (e_number e) 5)); [| | |done].
    2:{ apply Z.mod_pos_bound. lia. }
    2:{ rewrite Z.shiftr_div_pow2 by lia. change (2 ^ 5) with 32. change (2 ^ 40) with (32 * 2 ^ 35) in Hn.
        split; [apply Z.div_pos; lia|apply Z.div_lt_upper_bound; lia]. }
    cbn [access mbind Outcome_bind].
    rewrite (read_page_part leaf _ _ _ _ Hpg Hpage). cbn [access mbind Outcome_bind].
    rewrite (read_prefix_part flags _ _ _ He eq_refl Hpre). cbn [access mbind Outcome_bind].
    rewrite (read_length_part flags _ _ _ He eq_refl Hlen). cbn [access mbind Outcome_bind].
    eexists. split.
    { f_equal. f_equal. rewrite length_app. cbn [length]. rewrite !length_app. unfold e_length. lia. }
    split; cbn; try done.
    + by intros ->.
    + apply data_in_page; [done|]. done.
    + rewrite Z.shiftr_div_pow2 by lia. change (2 ^ 5) with 32.
      pose proof (Z.div_mod (e_number e) 32 ltac:(lia)). lia.
    + by rewrite bool_decide_eq_false_2.
Qed.

(** ** Writing in pieces *)

Lemma mem_write_split (m : list Z) p (x y : list Z) :
  0 <= p -> p + Z.of_nat (length x + length y) <= Z.of_nat (length m) ->
  exists a b c d, m = a ++ b ++ c ++ d /\ p = Z.of_nat (length a) /\
    length b = length x /\ length c = length y.
Proof.
  intros Hp Hlen. exists (take (Z.to_nat p) m), (take (length x) (drop (Z.to_nat p) m)),
    (take (length y) (drop (length x) (drop (Z.to_nat p) m))),
    (drop (length y) (drop (length x) (drop (Z.to_nat p) m))).
  rewrite !take_drop, !length_take, !length_drop. split_and!; lia || done.
Qed.

Lemma mem_write_app m p x y :
  0 <= p -> p + Z.of_nat (length x + length y) <= Z.of_nat (length m) ->
  (m' ← mem_write m p x; mem_write m' (p + Z.of_nat (length x)) y) = mem_write m p (x ++ y).
Proof.
  intros Hp Hlen. destruct (mem_write_split m p x y Hp Hlen) as (a & b & c & d & -> & -> & Hb & Hc).
  rewrite (mem_write_mid a (b ++ c ++ d) x) by (rewrite ?length_app; lia). cbn [mbind option_bind].
  rewrite (mem_write_mid a (b ++ c ++ d) (x ++ y)) by (rewrite ?length_app; lia).
  rewrite app_assoc, (mem_write_mid (a ++ x)); [|rewrite length_app; lia|].
  - rewrite <- Hb, drop_app_length, <- !app_assoc. do 4 f_equal.
    rewrite length_app, <- Hb, <- Nat.add_comm, Nat.add_comm, <- drop_drop. by rewrite drop_app_length.
  - rewrite <- Hb, drop_app_length, length_app. lia.
Qed.

Lemma mem_write_app_back m p x y :
  0 <= p -> p + Z.of_nat (length x + length y) <= Z.of_nat (length m) ->
  (m' ← mem_write m (p + Z.of_nat (length x)) y; mem_write m' p x) = mem_write m p (x ++ y).
Proof.
  intros Hp Hlen. destruct (mem_write_split m p x y Hp Hlen) as (a & b & c & d & -> & -> & Hb & Hc).
  rewrite (mem_write_mid a (b ++ c ++ d) (x ++ y)) by (rewrite ?length_app; lia).
  rewrite (app_assoc a b), (mem_write_mid (a ++ b)) by (rewrite ?length_app; lia).
  cbn [mbind option_bind]. rewrite <- app_assoc, mem_write_mid by (rewrite ?length_app; lia).
  rewrite <- Hb, drop_app_length, <- !app_assoc. do 4 f_equal.
  rewrite length_app, <- Hb, Nat.add_comm, (Nat.add_comm (length y)), <- drop_drop, drop_app_length. done.
Qed.

Lemma mem_write_ok m p bs :
  0 <= p -> p + Z.of_nat (length bs) <= Z.of_nat (length m) ->
  exists m', mem_write m p bs = Some m' /\ length m' = length m.
Proof.
  intros Hp Hlen. unfold mem_write. rewrite decide_True by lia. eexists. split; [done|].
  rewrite !length_app, length_take, length_drop. lia.
Qed.

Lemma mem_write_length m p bs m' : mem_write m p bs = Some m' -> length m' = length m.
Proof.
  unfold mem_write. case_decide as Hb; [|done]. intros [= <-].
  rewrite !length_app, length_take, length_drop. lia.
Qed.

(** Bytes outside of what is written remain. *)
Lemma bytes_at_other m p bs m' q xs :
  mem_write m p bs = Some m' ->
  q + Z.of_nat (length xs) <= p \/ p + Z.of_nat (length bs) <= q ->
  bytes_at m q xs -> bytes_at m' q xs.
Proof.
  unfold mem_write. case_decide as Hb; [|done]. intros [= <-] Hdisj Hat.
  apply bytes_at_spec in Hat as (Hq & rest & Hd & Hl).
  pose proof (f_equal length Hd) as Hn. rewrite length_drop, length_app in Hn.
  unfold bytes_at, mem_read. rewrite decide_True
    by (rewrite !length_app, length_take, length_drop; lia).
  f_equal. rewrite Nat2Z.id. destruct Hdisj as [Hlt|Hge].
  - rewrite drop_app_le, take_app_le by (rewrite ?length_drop, ?length_take; lia).
    rewrite take_drop_commute, take_take, Nat.min_l, <- take_drop_commute by lia.
    rewrite Hd. by rewrite take_app_length.
  - rewrite app_assoc, drop_app_ge by (rewrite length_app, length_take; lia).
    rewrite drop_drop, length_app, length_take.
    replace (Z.to_nat p + length bs + (Z.to_nat q - (Z.to_nat p `min` length m + length bs)))%nat
      with (Z.to_nat q) by lia.
    rewrite Hd. by rewrite take_app_length.
Qed.

Lemma data_bytes_other m p bs m' d n xs :
  mem_write m p bs = Some m' -> n = Z.of_nat (length xs) ->
  match d with InPage q => q + n <= p \/ p + Z.of_nat (length bs) <= q | Apart _ => True end ->
  data_bytes m d n = Ok xs -> data_bytes m' d n = Ok xs.
Proof.
  intros Hw Hn Hd. unfold data_bytes. case_decide; [done|].
  destruct d as [q|bytes]; [|done]. destruct (mem_read m q n) as [ys|] eqn:Hr; [|done].
  intros [= ->]. rewrite Hn in Hr. rewrite Hn.
  pose proof (bytes_at_other m p bs m' q xs Hw ltac:(lia) Hr) as Hat.
  unfold bytes_at in Hat. by rewrite Hat.
Qed.

(** ** Writing the bytes of an entry *)

Lemma node_is_fields page leaf p e nd :
  node_is page leaf p e nd ->
  node_header nd leaf = node_header (node_of e) leaf /\
  getNodeSize nd leaf = getNodeSize (node_of e) leaf.
Proof.
  intros []. unfold node_header, getNodeSize, internal_flags.
  cbn [node_of in_isEndLevel in_isEndBucket in_length in_prefix in_pageNumber in_recordNumber
       rn_value RecordNumber_new].
  destruct leaf; [|rewrite is_page0 by done];
    by rewrite is_bucket0, is_level0, is_length0, is_prefix0, is_number0.
Qed.

Lemma size_bounds number : 1 <= record_size number <= 5 /\ 1 <= page_size number <= 5 /\
  1 <= short_size number <= 3.
Proof. unfold record_size, page_size, short_size. repeat case_decide; lia. Qed.

(** [getNodeSize] is the number of bytes. *)
Lemma node_size leaf e : entry_ok e -> getNodeSize (node_of e) leaf = e_size leaf e.
Proof.
  intros He. pose proof He as (Hp & Hl & Hn & Hpg & Hend).
  pose proof (e_length_nonneg e) as Hl0. destruct (flags_meaning e He) as (_ & _ & _ & _ & _).
  unfold e_size, encode, getNodeSize, node_header.
  set (flags := internal_flags (node_of e)). clearbody flags.
  cbn [node_of in_recordNumber rn_value RecordNumber_new in_isEndLevel in_pageNumber in_prefix in_length].
  rewrite !stored_number_id by lia.
  destruct (decide (e_mark e = EndLevel)) as [Hm|Hm];
    [rewrite (bool_decide_eq_true_2 _ Hm)|rewrite (bool_decide_eq_false_2 _ Hm)].
  { destruct (Hend Hm) as (_ & -> & _). done. }
  assert (Hs : 0 <= Z.shiftr (e_number e) 5 < 2 ^ 35).
  { rewrite Z.shiftr_div_pow2 by lia. change (2 ^ 5) with 32. change (2 ^ 40) with (32 * 2 ^ 35) in Hn.
    split; [apply Z.div_pos; lia|apply Z.div_lt_upper_bound; lia]. }
  rewrite length_app. cbn [length]. rewrite !length_app. fold (e_length e).
  pose proof (put_record_length _ Hs) as H1. pose proof (put_page_length _ Hpg) as H2.
  pose proof (put_short14_length _ Hp) as H3. pose proof (put_short14_length (e_length e) ltac:(lia)) as H4.
  pose proof (size_bounds (Z.shiftr (e_number e) 5)). pose proof (size_bounds (e_page e)).
  pose proof (size_bounds (e_prefix e)). pose proof (size_bounds (e_length e)).
  change (2 ^ 14) with 16384 in *.
  unfold e_length in *.
  rewrite wrapU_id.
  - destruct leaf, (has_prefix flags), (has_length flags); cbn [length]; lia.
  - unfold inU. change (2 ^ 16) with 65536.
    destruct leaf, (has_prefix flags), (has_length flags); lia.
Qed.

Lemma e_size_split leaf e :
  e_size leaf e = Z.of_nat (length (node_header (node_of e) leaf)) + e_length e.
Proof. unfold e_size, encode, e_length. rewrite length_app. lia. Qed.

Lemma e_size_bound leaf e : entry_ok e -> e_length e < e_size leaf e < 2 ^ 16.
Proof.
  intros He. split.
  - rewrite e_size_split. unfold node_header. case_match; cbn [length]; lia.
  - rewrite <- node_size by done. unfold getNodeSize. case_match; [lia|].
    apply wrapU_range. lia.
Qed.

Lemma set_nodePointer_is page leaf p q e nd :
  node_is page leaf p e nd -> node_is page leaf q e (set_nodePointer q nd).
Proof. intros []. by split. Qed.

(** The data of a node that is written are not where the node goes, unless they are
    moved first. *)
Definition data_apart (nd : IndexNode) (p size : Z) : Prop :=
  match in_data nd with InPage q => q + in_length nd <= p \/ p + size <= q | Apart _ => True end.

Lemma write_entry page leaf p q e nd withData :
  node_is page leaf q e nd -> entry_ok e ->
  0 <= p -> p + e_size leaf e <= Z.of_nat (length page) ->
  (withData = true -> data_apart nd p (e_size leaf e)) ->
  exists page', writeNode page nd p leaf withData = Ok (page', p + e_size leaf e, set_nodePointer p nd) /\
    mem_write page p (encode leaf e) = Some page'.
Proof.
  intros His He Hp Hroom Hapart.
  pose proof (set_nodePointer_is page leaf q p e nd His) as His'.
  destruct (node_is_fields _ _ _ _ _ His') as [Hheader Hsize].
  rewrite (node_size leaf e He) in Hsize.
  pose proof (e_size_bound leaf e He) as Hb. pose proof (e_size_split leaf e) as Hsplit.
  pose proof (e_length_nonneg e) as Hl.
  destruct His' as [_ _ Hlen _ Hdata _ _ Hlevel].
  unfold writeNode. rewrite Hheader, Hsize, Hlen. set (header := node_header (node_of e) leaf) in *.
  rewrite Hlen in Hdata.
  destruct (mem_write_ok page p (encode leaf e)) as (page' & Hpage' & _); [done|done|].
  exists page'. split; [|done]. unfold encode in Hpage'. fold header in Hpage'.
  assert (Hend : in_isEndLevel (set_nodePointer p nd) = true -> e_data e = [] /\ e_length e = 0).
  { rewrite Hlevel. intros Hm%bool_decide_eq_true.
    destruct He as (_ & _ & _ & _ & Hend). destruct (Hend Hm) as (_ & Hd & _).
    unfold e_length. by rewrite Hd. }
  assert (Hlen' : e_length e = Z.of_nat (length (e_data e))) by done.
  destruct withData.
  - cbn [mbind Outcome_bind]. 
    destruct (mem_write_ok page p header) as (page1 & H1 & Hl1); [done|lia|].
    rewrite H1. cbn [access mbind Outcome_bind].
    rewrite <- mem_write_app, H1 in Hpage' by lia. cbn [mbind option_bind] in Hpage'.
    destruct (in_isEndLevel (set_nodePointer p nd)).
    + destruct (Hend eq_refl) as [Hd Hz]. rewrite Hd in Hpage'.
      pose proof (mem_write_mid page1 [] [] _ eq_refl) as _.
      unfold mem_write in Hpage'. case_decide; [|done]. simpl in Hpage'.
      rewrite Nat.add_0_r, take_drop in Hpage'. injection Hpage' as <-.
      do 3 f_equal. lia.
    + unfold copy_data. specialize (Hapart eq_refl). unfold data_apart in Hapart.
      rewrite (data_bytes_other page p header page1 _ _ (e_data e) H1 Hlen'); [| |done].
      * match goal with |- context [if ?b then _ else Undefined] => assert (b = true) as -> end.
        { apply orb_true_iff. cbn [set_nodePointer in_data] in *. rewrite (is_length _ _ _ _ _ His) in Hapart.
          destruct (in_data nd); [left; apply bool_decide_eq_true; lia|by left]. }
        cbn [mbind Outcome_bind]. rewrite Hpage'. cbn [access mbind Outcome_bind].
        do 3 f_equal. lia.
      * cbn [set_nodePointer in_data] in *. rewrite (is_length _ _ _ _ _ His) in Hapart.
        destruct (in_data nd); [lia|done].
  - unfold move_data. rewrite Hdata. cbn [mbind Outcome_bind].
    rewrite wrapU_id by (unfold inU; lia).
    replace (e_size leaf e - e_length e) with (Z.of_nat (length header)) by lia.
    rewrite <- mem_write_app_back in Hpage' by lia.
    destruct (mem_write page (p + Z.of_nat (length header)) (e_data e)) as [page1|]; [|done].
    cbn [access mbind Outcome_bind option_bind] in *. rewrite Hpage'.
    cbn [access mbind Outcome_bind].
    destruct (in_isEndLevel (set_nodePointer p nd)).
    + destruct (Hend eq_refl) as [_ Hz]. do 3 f_equal. lia.
    + do 3 f_equal. lia.
Qed.

(** ** The round trips *)

(** An index node whose numbers fit, with its data on the page or apart *)
Definition node_ok (page : list Z) (leaf : bool) (nd : IndexNode) (data : list Z) : Prop :=
  0 <= in_prefix nd < 2 ^ 14 /\ 0 <= in_length nd < 2 ^ 14 /\
  0 <= rn_value (in_recordNumber nd) < 2 ^ 40 /\ 0 <= in_pageNumber nd < 2 ^ 32 /\
  data_bytes page (in_data nd) (in_length nd) = Ok data /\
  (in_isEndBucket nd && in_isEndLevel nd = false) /\
  (in_isEndLevel nd = true -> in_prefix nd = 0 /\ in_length nd = 0 /\
     rn_value (in_recordNumber nd) = 0 /\ in_pageNumber nd = 0).

Lemma data_bytes_length page d n xs : 0 <= n -> data_bytes page d n = Ok xs -> Z.of_nat (length xs) = n.
Proof.
  intros Hn. unfold data_bytes. case_decide as Hz; [intros [= <-]; simpl; lia|].
  assert (forall m off, access (mem_read m off n) = Ok xs -> Z.of_nat (length xs) = n) as Hr.
  { intros m off. unfold mem_read. case_decide as Hd; [|done]. intros [= <-].
    rewrite length_take, length_drop. lia. }
  destruct d; apply Hr.
Qed.

Lemma node_ok_entry page leaf nd data :
  node_ok page leaf nd data ->
  exists e, entry_ok e /\ node_is page leaf (in_nodePointer nd) e nd /\ e_data e = data.
Proof.
  intros (Hp & Hl & Hn & Hpg & Hd & Hboth & Hend).
  pose proof (data_bytes_length _ _ _ _ (proj1 Hl) Hd) as Hlen.
  exists {| e_prefix := in_prefix nd; e_data := data; e_number := rn_value (in_recordNumber nd);
            e_page := in_pageNumber nd;
            e_mark := if in_isEndLevel nd then EndLevel else if in_isEndBucket nd then EndBucket else NoMark |}.
  split_and!; [|split|done]; unfold entry_ok, e_length; cbn; try done.
  - split_and!; try lia. destruct (in_isEndLevel nd); [|by destruct (in_isEndBucket nd)].
    destruct Hend as (-> & Hz & -> & ->); [done|]. rewrite Hz in Hlen. intros _.
    split_and!; try done. destruct data; [done|simpl in Hlen; lia].
  - destruct (in_isEndBucket nd), (in_isEndLevel nd); done.
  - destruct (in_isEndBucket nd), (in_isEndLevel nd); done.
Qed.

(** C24. A node that is written is read again, from exactly the bytes that [getNodeSize]
    announces, and no other byte of the page changes; its data are moved when they are
    in the way. *)
Theorem node_roundtrip page leaf p nd data withData old :
  node_ok page leaf nd data ->
  0 <= p -> p + getNodeSize nd leaf <= Z.of_nat (length page) ->
  (withData = true -> data_apart nd p (getNodeSize nd leaf)) ->
  exists page' nd' nd'',
    writeNode page nd p leaf withData = Ok (page', p + getNodeSize nd leaf, nd') /\
    readNode page' old p leaf = Ok (nd'', p + getNodeSize nd leaf) /\
    in_nodePointer nd'' = p /\ in_prefix nd'' = in_prefix nd /\ in_length nd'' = in_length nd /\
    rn_value (in_recordNumber nd'') = rn_value (in_recordNumber nd) /\
    (leaf = false -> in_pageNumber nd'' = in_pageNumber nd) /\
    in_isEndBucket nd'' = in_isEndBucket nd /\ in_isEndLevel nd'' = in_isEndLevel nd /\
    data_bytes page' (in_data nd'') (in_length nd'') = Ok data /\
    length page' = length page /\
    (forall q, q < p \/ p + getNodeSize nd leaf <= q -> page' @ q = page @ q).
Proof.
  intros Hok Hp Hroom Hapart.
  destruct (node_ok_entry _ _ _ _ Hok) as (e & He & His & <-).
  destruct (node_is_fields _ _ _ _ _ His) as [_ Hsize].
  rewrite (node_size leaf e He) in Hsize. rewrite Hsize in *.
  destruct (write_entry page leaf p _ e nd withData His He Hp Hroom Hapart) as (page' & Hw & Hmem).
  destruct (read_entry page' leaf p e old He (mem_write_at _ _ _ _ Hmem)) as (nd'' & Hr & His'').
  exists page', (set_nodePointer p nd), nd''. split; [done|]. split; [done|].
  destruct His as [_ -> -> Hpg _ -> -> ->], His'' as [-> -> -> Hpg'' Hd'' -> -> ->].
  rewrite (mem_write_length _ _ _ _ Hmem) in *.
  split_and!; try done; [intros Hlf; by rewrite Hpg, Hpg''|].
  intros q Hq. assert (Hcase : forall b, page @ q = Some b -> page' @ q = Some b).
  { intros b Hb. assert (bytes_at page q [b]) as Hat.
    { apply bytes_at_cons. split; [done|]. apply bytes_at_spec. apply aget_Some in Hb as [Hb0 Hb].
      apply lookup_lt_Some in Hb. split; [lia|]. eexists. split; [reflexivity|]. lia. }
    apply (bytes_at_other _ _ _ _ _ _ Hmem) in Hat; [|unfold e_size in Hq; simpl; lia].
    by apply bytes_at_cons in Hat as [Hat _]. }
  destruct (page @ q) as [b|] eqn:Hb; [by apply Hcase|].
  destruct (page' @ q) as [b'|] eqn:Hb'; [|done]. exfalso.
  pose proof (aget_lt_Some _ _ _ Hb') as Hr'. rewrite (mem_write_length _ _ _ _ Hmem) in Hr'.
  apply aget_is_Some in Hr' as [x Hx]. congruence.
Qed.

Lemma node_roundtrip_witness :
  exists page' nd' nd'',
    writeNode (replicate 20 7)
      {| in_nodePointer := 0; in_prefix := 300; in_length := 3; in_pageNumber := 70000;
         in_data := InPage 9; in_recordNumber := RecordNumber_new 1000000; in_isEndBucket := false;
         in_isEndLevel := false |} 2 false false = Ok (page', 2 + 13, nd') /\
    readNode page' IndexNode_new 2 false = Ok (nd'', 2 + 13).
Proof.
  edestruct (node_roundtrip (replicate 20 7) false 2
    {| in_nodePointer := 0; in_prefix := 300; in_length := 3; in_pageNumber := 70000;
       in_data := InPage 9; in_recordNumber := RecordNumber_new 1000000; in_isEndBucket := false;
       in_isEndLevel := false |} [7; 7; 7] false IndexNode_new) as (page' & nd' & nd'' & Hw & Hr & _).
  - unfold node_ok. cbn. split_and!; try lia; done.
  - lia.
  - vm_compute. discriminate.
  - discriminate.
  - exists page', nd', nd''. split; [exact Hw|exact Hr].
Defined.
