(* ===== verification/BtnJump.v ===== *)
(** * Jump nodes and shared prefixes: the theorems

    A jump node is read as it was written; [computePrefix] finds the longest common
    prefix, and [keyEqual] compares a key with that of a node. *)

From S2P Require Import Prelude Memory Outcome RecordNumber Btn BtnNode.

(** ** Jump nodes *)

Section Jump.
Context (order : ByteOrder).

Record JumpEntry := { j_prefix : Z; j_data : list Z; j_offset : Z }.

Definition j_length (j : JumpEntry) : Z := Z.of_nat (length (j_data j)).

Definition jump_ok (j : JumpEntry) : Prop :=
  0 <= j_prefix j < 2 ^ 14 /\ j_length j < 2 ^ 14 /\ 0 <= j_offset j < 2 ^ 16.

Definition jump_encode (j : JumpEntry) : list Z :=
  put_short14 (j_prefix j) ++ put_short14 (j_length j) ++ int_bytes order 2 (j_offset j) ++ j_data j.

Definition j_size (j : JumpEntry) : Z := Z.of_nat (length (jump_encode j)).

Record jump_is (page : list Z) (p : Z) (j : JumpEntry) (jn : IndexJumpNode) : Prop := {
  jis_pointer : jn_nodePointer jn = p;
  jis_prefix : jn_prefix jn = j_prefix j;
  jis_length : jn_length jn = j_length j;
  jis_offset : jn_offset jn = j_offset j;
  jis_data : data_bytes page (jn_data jn) (jn_length jn) = Ok (j_data j)
}.

Lemma length_int_bytes2 v : length (int_bytes order 2 v) = 2%nat.
Proof. by destruct order. Qed.

Lemma j_length_nonneg j : 0 <= j_length j.
Proof. unfold j_length. lia. Qed.

Lemma jump_size j jn page p :
  jump_ok j -> jump_is page p j jn -> getJumpNodeSize jn = j_size j.
Proof.
  intros (Hp & Hl & Ho) [_ Hpre Hlen _ _]. pose proof (j_length_nonneg j).
  unfold getJumpNodeSize, j_size, jump_encode. rewrite Hpre, Hlen.
  rewrite !jump_short_size_short by lia.
  rewrite !length_app, length_int_bytes2.
  pose proof (put_short14_length _ Hp). pose proof (put_short14_length (j_length j) ltac:(lia)).
  pose proof (size_bounds (j_prefix j)). pose proof (size_bounds (j_length j)).
  change (2 ^ 14) with 16384 in *. unfold j_length in *.
  rewrite wrapU_id by (unfold inU; change (2 ^ 16) with 65536; lia). lia.
Qed.

Lemma read_jump page p j :
  jump_ok j -> bytes_at page p (jump_encode j) ->
  exists jn, readJumpNode order page p = Ok (jn, p + j_size j) /\ jump_is page p j jn.
Proof.
  intros (Hp & Hl & Ho) Hat. unfold jump_encode in Hat. pose proof (j_length_nonneg j).
  apply bytes_at_app in Hat as [H1 Hat]. apply bytes_at_app in Hat as [H2 Hat].
  apply bytes_at_app in Hat as [H3 Hat]. rewrite length_int_bytes2 in Hat.
  unfold readJumpNode. rewrite (get_short14 _ _ _ Hp H1). cbn [mbind Outcome_bind].
  rewrite (get_short14 _ _ (j_length j)) by (lia || done). cbn [mbind Outcome_bind].
  unfold bytes_at in H3. rewrite length_int_bytes2 in H3. change (Z.of_nat 2) with 2 in *.
  rewrite H3. cbn [access mbind Outcome_bind].
  rewrite int_value_bytes by done.
  eexists. split.
  - f_equal. f_equal. unfold j_size, jump_encode. rewrite !length_app, length_int_bytes2.
    unfold j_length. lia.
  - split; cbn; try done. by apply data_in_page.
Qed.

Lemma write_jump page p q j jn :
  jump_ok j -> jump_is page q j jn ->
  0 <= p -> p + j_size j <= Z.of_nat (length page) ->
  match jn_data jn with InPage q => q + jn_length jn <= p \/ p + j_size j <= q | Apart _ => True end ->
  exists page' jn', writeJumpNode order page jn p = Ok (page', p + j_size j, jn') /\
    mem_write page p (jump_encode j) = Some page'.
Proof.
  intros (Hp & Hl & Ho) [_ Hpre Hlen Hoff Hd] Hp0 Hroom Hapart.
  unfold writeJumpNode. rewrite Hpre, Hlen, Hoff. rewrite Hlen in *.
  set (header := put_short14 (j_prefix j) ++ put_short14 (j_length j) ++ int_bytes order 2 (j_offset j)).
  assert (Henc : jump_encode j = header ++ j_data j) by (unfold jump_encode, header; by rewrite <- !app_assoc).
  unfold j_size in *. rewrite Henc in *. rewrite length_app in *. fold (j_length j) in *.
  destruct (mem_write_ok page p (header ++ j_data j)) as (page' & Hpage' & _);
    [done|rewrite length_app; lia|].
  pose proof Hpage' as Hw. rewrite <- mem_write_app in Hw by (done || lia).
  destruct (mem_write page p header) as [page1|] eqn:H1; [|done]. cbn [access mbind Outcome_bind option_bind] in *.
  unfold move_data.
  rewrite (data_bytes_other page p header page1 _ _ (j_data j) H1); [|done| |done].
  - cbn [access mbind Outcome_bind]. rewrite Hw. cbn [access mbind Outcome_bind].
    eexists _, _. split; [|done]. do 3 f_equal. unfold j_length. lia.
  - unfold j_length in *. destruct (jn_data jn); [lia|done].
Qed.
End Jump.

(** A jump node that is written is read again, from exactly the bytes that
    [getJumpNodeSize] announces, on machines of either byte order. *)
Theorem jump_roundtrip order page p jn data :
  0 <= jn_prefix jn < 2 ^ 14 -> 0 <= jn_length jn < 2 ^ 14 -> 0 <= jn_offset jn < 2 ^ 16 ->
  data_bytes page (jn_data jn) (jn_length jn) = Ok data ->
  0 <= p -> p + getJumpNodeSize jn <= Z.of_nat (length page) ->
  match jn_data jn with
  | InPage q => q + jn_length jn <= p \/ p + getJumpNodeSize jn <= q
  | Apart _ => True
  end ->
  exists page' jn' jn'',
    writeJumpNode order page jn p = Ok (page', p + getJumpNodeSize jn, jn') /\
    readJumpNode order page' p = Ok (jn'', p + getJumpNodeSize jn) /\
    jn_prefix jn'' = jn_prefix jn /\ jn_length jn'' = jn_length jn /\ jn_offset jn'' = jn_offset jn /\
    data_bytes page' (jn_data jn'') (jn_length jn'') = Ok data.
Proof.
  intros Hp Hl Ho Hd Hp0 Hroom Hapart.
  pose proof (data_bytes_length _ _ _ _ (proj1 Hl) Hd) as Hlen.
  set (j := {| j_prefix := jn_prefix jn; j_data := data; j_offset := jn_offset jn |}).
  assert (Hj : jump_ok j) by (unfold jump_ok, j_length; cbn; lia).
  assert (His : jump_is page (jn_nodePointer jn) j jn) by (by split).
  rewrite (jump_size order j jn page _ Hj His) in *.
  destruct (write_jump order page p _ j jn Hj His Hp0 Hroom Hapart) as (page' & jn' & Hw & Hm).
  destruct (read_jump order page' p j Hj (mem_write_at _ _ _ _ Hm)) as (jn'' & Hr & [_ H1 H2 H3 H4]).
  exists page', jn', jn''. rewrite H1, H2, H3. rewrite H2 in H4. by split_and!.
Qed.

Lemma jump_roundtrip_witness :
  exists page' jn' jn'',
    writeJumpNode BigEndian (replicate 20 7)
      {| jn_nodePointer := 0; jn_prefix := 200; jn_length := 2; jn_offset := 5000;
         jn_data := Apart [1; 2] |} 3 = Ok (page', 3 + 7, jn') /\
    readJumpNode BigEndian page' 3 = Ok (jn'', 3 + 7) /\ jn_offset jn'' = 5000.
Proof.
  edestruct (jump_roundtrip BigEndian (replicate 20 7) 3
    {| jn_nodePointer := 0; jn_prefix := 200; jn_length := 2; jn_offset := 5000;
       jn_data := Apart [1; 2] |} [1; 2]) as (page' & jn' & jn'' & Hw & Hr & _ & _ & Ho & _).
  1-3: cbn; lia.
  1: reflexivity.
  1: lia.
  1: vm_compute; discriminate.
  1: exact I.
  exists page', jn', jn''. split; [exact Hw|]. split; [exact Hr|exact Ho].
Defined.

(** ** Shared prefixes *)

(** The length of the longest common prefix *)
Fixpoint lcp (a b : list Z) : nat :=
  match a, b with
  | x :: a, y :: b => if decide (x = y) then S (lcp a b) else 0
  | _, _ => 0
  end.

Lemma lcp_le a b : (lcp a b <= length a)%nat /\ (lcp a b <= length b)%nat.
Proof. revert b. induction a as [|x a IH]; intros [|y b]; simpl; try lia. case_decide; [|lia]. specialize (IH b). lia. Qed.

Lemma lcp_comm a b : lcp a b = lcp b a.
Proof.
  revert b. induction a as [|x a IH]; intros [|y b]; simpl; try done.
  rewrite IH. case_decide; case_decide; congruence.
Qed.

Lemma lcp_take a b : take (lcp a b) a = take (lcp a b) b.
Proof.
  revert b. induction a as [|x a IH]; intros [|y b]; simpl; try done.
  case_decide as H; [|done]. simpl. by rewrite H, IH.
Qed.

(** It is common, and what follows differs. *)
Lemma lcp_spec a b n :
  lcp a b = n <->
  (n <= length a)%nat /\ (n <= length b)%nat /\ take n a = take n b /\
  (forall x y, a !! n = Some x -> b !! n = Some y -> x <> y).
Proof.
  revert b n. induction a as [|x a IH]; intros [|y b] n; simpl.
  1-3: split; [intros <-; split_and!; try lia; done|lia].
  case_decide as Hxy.
  - destruct n as [|n]; [split; [lia|]|].
    + intros (_ & _ & _ & Hd). by destruct (Hd x y).
    + rewrite Nat.succ_inj_wd, (IH b n). simpl. subst y. split.
      * intros (? & ? & Ht & ?). split_and!; [lia|lia|by rewrite Ht|done].
      * intros (? & ? & Ht & ?). split_and!; [lia|lia|by simplify_eq|done].
  - destruct n as [|n].
    + split; [|done]. intros _. split_and!; try lia; [done|]. intros x' y' [= <-] [= <-]. done.
    + split; [done|]. intros (_ & _ & Ht & _). simpl in Ht. by simplify_eq.
Qed.

Lemma lcp_cons_drop a b i x y :
  a !! i = Some x -> b !! i = Some y ->
  lcp (drop i a) (drop i b) = if decide (x = y) then S (lcp (drop (S i) a) (drop (S i) b)) else 0%nat.
Proof. intros Ha Hb. rewrite (drop_S a x i Ha), (drop_S b y i Hb). done. Qed.

Lemma common_loop_spec p string fuel i l :
  0 <= i -> 0 < l -> (Z.to_nat l <= fuel)%nat ->
  i + l <= Z.of_nat (length p) -> i + l <= Z.of_nat (length string) ->
  common_loop fuel p string i l =
    Ok (i + Z.of_nat (lcp (take (Z.to_nat l) (drop (Z.to_nat i) p))
                          (take (Z.to_nat l) (drop (Z.to_nat i) string)))).
Proof.
  revert i l. induction fuel as [|fuel IH]; intros i l Hi Hl Hf Hp Hs; [lia|].
  cbn [common_loop].
  destruct (lookup_lt_is_Some_2 p (Z.to_nat i)) as [a Ha]; [lia|].
  destruct (lookup_lt_is_Some_2 string (Z.to_nat i)) as [b Hb]; [lia|].
  rewrite !aget_nonneg, Ha, Hb by done. cbn [access mbind Outcome_bind].
  destruct (Z.to_nat l) as [|n] eqn:Hn; [lia|].
  rewrite (drop_S p a _ Ha), (drop_S string b _ Hb). cbn [take lcp].
  case_decide as Hab; [|f_equal; lia].
  destruct (decide (l - 1 = 0)) as [Hz|Hz].
  - assert (n = 0)%nat as -> by lia. simpl. f_equal. 
  - rewrite IH by lia. replace (Z.to_nat (i + 1)) with (S (Z.to_nat i)) by lia.
    replace (Z.to_nat (l - 1)) with n by lia. f_equal. lia.
Qed.

Lemma lcp_take_min a b n :
  (length a `min` length b <= n)%nat -> lcp (take n a) (take n b) = lcp a b.
Proof.
  revert b n. induction a as [|x a IH]; intros [|y b] [|n] Hn; simpl in *; try done; try lia.
  rewrite IH by lia. done.
Qed.

(** [computePrefix] is the length of the longest common prefix of two keys. *)
Theorem computePrefix_lcp prev prevLength string len :
  0 <= prevLength <= Z.of_nat (length prev) -> 0 <= len <= Z.of_nat (length string) ->
  computePrefix prev prevLength string len =
    Ok (Z.of_nat (lcp (take (Z.to_nat prevLength) prev) (take (Z.to_nat len) string))).
Proof.
  intros Hp Hs. unfold computePrefix.
  destruct (decide (Z.min prevLength len = 0)) as [Hz|Hz].
  - assert (Z.to_nat prevLength = 0 \/ Z.to_nat len = 0)%nat as [->| ->] by lia; [done|].
    by rewrite lcp_comm.
  - rewrite common_loop_spec by lia. rewrite Z.add_0_l. change (Z.to_nat 0) with 0%nat.
    rewrite !drop_0. do 2 f_equal.
    rewrite <- (lcp_take_min (take (Z.to_nat prevLength) prev) _ (Z.to_nat (Z.min prevLength len)))
      by (rewrite !length_take; lia).
    by rewrite !take_take, !Nat.min_l by lia.
Qed.

Lemma computePrefix_lcp_witness :
  computePrefix [1; 2; 3] 3 [1; 2; 4] 3 = Ok (Z.of_nat (lcp [1; 2; 3] [1; 2; 4])).
Proof. apply (computePrefix_lcp [1; 2; 3] 3 [1; 2; 4] 3); simpl; lia. Defined.

(** The key of a node that follows a node with the key [prev] *)
Definition next_key (prev : list Z) (e : Entry) : list Z := take (Z.to_nat (e_prefix e)) prev ++ e_data e.

(** [keyEqual] for a key that begins with the prefix of the node. *)
Lemma keyEqual_spec page leaf p e nd prev key :
  node_is page leaf p e nd -> 0 <= e_prefix e <= Z.of_nat (length prev) ->
  take (Z.to_nat (e_prefix e)) key = take (Z.to_nat (e_prefix e)) prev ->
  keyEqual page nd (Z.of_nat (length key)) key = Ok (bool_decide (key = next_key prev e)).
Proof.
  intros [_ Hp Hl _ Hd _ _ _] Hpre Hshare. unfold keyEqual. rewrite Hp, Hl in *.
  set (n := Z.to_nat (e_prefix e)) in *. unfold next_key, e_length in *. fold n.
  assert (Hkey : take n key ++ drop n key = key) by apply take_drop.
  assert (Hn : length (take n prev) = n) by (rewrite length_take; lia).
  assert (Heq : key = take n prev ++ e_data e <-> drop n key = e_data e).
  { rewrite <- Hshare. split; intros H.
    - rewrite <- Hkey in H at 1. by apply app_inv_head in H.
    - by rewrite <- H. }
  case_decide as Hlen; [|case_decide as Hz].
  - rewrite bool_decide_eq_false_2; [done|]. intros H.
    apply (f_equal length) in H. rewrite length_app, Hn in H. lia.
  - rewrite bool_decide_eq_true_2; [done|]. apply Heq.
    assert (e_data e = []) as -> by (apply nil_length_inv; lia).
    apply drop_ge. lia.
  - rewrite Hd. cbn [mbind Outcome_bind].
    assert (Hr : mem_read key (e_prefix e) (Z.of_nat (length (e_data e))) = Some (drop n key)).
    { unfold mem_read. rewrite decide_True by lia. fold n. f_equal. apply take_ge.
      rewrite length_drop. lia. }
    rewrite Hr. cbn [access mbind Outcome_bind]. f_equal. apply bool_decide_ext.
    rewrite Heq. split; congruence.
Qed.
