(* ===== verification/BtrFind.v ===== *)
(** * Searching an index page: [src/src/jrd/btr.cpp]

    [find_area_start_point] uses the jump nodes of a page to get close to a key,
    [find_node_start_point] walks the nodes from there to the first one that is not
    before the key, and [find_page] to the child page that the key belongs to.

    The header of a page is a record, its bytes a list; the first [BTR_SIZE] of them
    belong to the header and are not used. *)

From S2P Require Import Prelude Memory Outcome RecordNumber Btn.

(** [struct btree_page] of [ods.h]: the fields a search uses *)
Record btree_page := {
  btr_prefix_total : Z; btr_length : Z; btr_level : Z; btr_jump_interval : Z;
  btr_jump_size : Z; btr_jump_count : Z; btr_bytes : list Z
}.

Definition BTR_SIZE : Z := 39.

(** [page->btr_nodes] as a position *)
Definition btr_nodes : Z := BTR_SIZE.

(** [struct temporary_key] of [btr.h] *)
Record temporary_key := { key_length : Z; key_data : list Z; key_nulls : Z }.

Definition END_LEVEL : Z := 4294967295.
Definition NO_VALUE : RecordNumber := RecordNumber_new END_LEVEL.

(** ** A key against the data of a node *)

Inductive Verdict := Reached (exact : bool) | Below.

(** The comparison loops of the three functions: [p] is in the key, [q] in the data. A
    node is reached if it is not before the key; it is an exact match if both end. *)
Fixpoint compare_key (fuel : nat) (descending retrieval : bool) (key : list Z) (key_end : Z)
    (data : list Z) (nodeEnd : Z) (p q : Z) : Outcome (Verdict * Z) :=
  match fuel with
  | O => Undefined
  | S fuel =>
      let ended :=
        if descending then
          if decide (q = nodeEnd) then Some (Reached (bool_decide (p = key_end)))
          else if decide (p = key_end) then Some (if retrieval then Reached false else Below)
          else None
        else
          if decide (p = key_end) then Some (Reached (bool_decide (q = nodeEnd)))
          else if decide (q = nodeEnd) then Some Below
          else None in
      match ended with
      | Some v => Ok (v, p)
      | None =>
          a ← access (key @ p);
          b ← access (data @ q);
          if decide (a > b) then Ok (Below, p)
          else if decide (a < b) then Ok (Reached false, p + 1)
          else compare_key fuel descending retrieval key key_end data nodeEnd (p + 1) (q + 1)
      end
  end.

Section Find.
Context (order : ByteOrder) (bucket : btree_page) (key : temporary_key) (descending retrieval : bool).
Context (find_record_number : RecordNumber).

(** What the local [jumpKey.key_data] holds in the beginning. *)
Context (jumpKey0 : list Z).

Definition page : list Z := btr_bytes bucket.
Definition leafPage : bool := bool_decide (btr_level bucket = 0).
Definition first_node : Z := btr_nodes + btr_jump_size bucket.
Definition endPointer : Z := btr_length bucket.

(** [readNode], and the check that the pointer is still valid *)
Definition readChecked (nd : IndexNode) (pointer : Z) : Outcome (IndexNode * Z) :=
  '(nd, pointer) ← readNode page nd pointer leafPage;
  if decide (pointer > endPointer) then BugCheck 204 else Ok (nd, pointer).

(** ** [find_area_start_point] *)

(** Jump nodes of the same key with lower record numbers are passed; [n] of them are
    left, and [keyLength] is the length of [jumpKey]. *)
Fixpoint area_duplicates (n : nat) (pointer keyLength : Z) (nd : IndexNode)
    (jumpNode prevJumpNode : IndexJumpNode) (prefix : Z) : Outcome (Z * IndexJumpNode) :=
  match n with
  | O => Ok (prefix, prevJumpNode)
  | S n =>
      if rn_le find_record_number (in_recordNumber nd) then Ok (prefix, prevJumpNode)
      else
        let prefix := wrapU 16 (jn_length jumpNode + jn_prefix jumpNode) in
        let prevJumpNode := jumpNode in
        '(jumpNode, pointer) ← readJumpNode order page pointer;
        '(nd, _) ← readNode page nd (jn_offset jumpNode) leafPage;
        if bool_decide (in_length nd <> 0)
           || bool_decide (in_prefix nd <> jn_prefix prevJumpNode + jn_length prevJumpNode)
           || (descending && bool_decide (in_prefix nd < keyLength))
           || bool_decide (jn_prefix jumpNode <> jn_prefix prevJumpNode + jn_length prevJumpNode)
           || in_isEndBucket nd || in_isEndLevel nd
        then Ok (prefix, prevJumpNode)
        else area_duplicates n pointer keyLength nd jumpNode prevJumpNode prefix
  end.

(** [memcpy(buffer + offset, data, length)] *)
Definition copy_to (buffer : list Z) (offset : Z) (data : DataPtr) (length : Z) : Outcome (list Z) :=
  bs ← data_bytes page data length;
  access (mem_write buffer offset bs).

(** [n] jump nodes are left. *)
Fixpoint area_loop (n : nat) (pointer : Z) (jumpKey : list Z) (prefix testPrefix : Z)
    (value : option (list Z)) (prevJumpNode : IndexJumpNode)
    : Outcome (Z * IndexJumpNode * option (list Z)) :=
  match n with
  | O => Ok (prefix, prevJumpNode, value)
  | S n =>
      '(jumpNode, pointer) ← readJumpNode order page pointer;
      '(nd, _) ← readNode page IndexNode_new (jn_offset jumpNode) leafPage;
      jumpKey ← copy_to jumpKey (jn_prefix jumpNode) (jn_data jumpNode) (jn_length jumpNode);
      jumpKey ← copy_to jumpKey (in_prefix nd) (in_data nd) (in_length nd);
      let keyLength := wrapU 16 (in_prefix nd + in_length nd) in
      '(verdict, testPrefix) ←
        (if decide (jn_prefix jumpNode <= testPrefix) then
           '(verdict, keyPointer) ←
             compare_key (S (length (key_data key))) descending retrieval (key_data key) (key_length key)
               jumpKey keyLength (jn_prefix jumpNode) (jn_prefix jumpNode);
           Ok (verdict, wrapU 16 keyPointer)
         else Ok (Below, testPrefix));
      match verdict with
      | Reached exact =>
          if exact && negb (rn_eq find_record_number NO_VALUE) then
            '(prefix, prevJumpNode) ← area_duplicates n pointer keyLength nd jumpNode prevJumpNode prefix;
            Ok (prefix, prevJumpNode, value)
          else Ok (prefix, prevJumpNode, value)
      | Below =>
          let prefix := Z.min (jn_length jumpNode + jn_prefix jumpNode) testPrefix in
          value ←
            match value with
            | Some v =>
                if decide (jn_length jumpNode + jn_prefix jumpNode <> 0) then
                  v ← access (memcpy v 0 jumpKey (jn_length jumpNode + jn_prefix jumpNode));
                  Ok (Some v)
                else Ok (Some v)
            | None => Ok None
            end;
          area_loop n pointer jumpKey prefix testPrefix value jumpNode
      end
  end.

(** The position of the node to begin with, the prefix of the key that is known there,
    and the value. *)
Definition find_area_start_point (value : option (list Z)) : Outcome (Z * Z * option (list Z)) :=
  '(prefix, prevJumpNode, value) ←
    area_loop (Z.to_nat (btr_jump_count bucket)) btr_nodes jumpKey0 0 0 value
      {| jn_nodePointer := 0; jn_prefix := 0; jn_length := 0;
         jn_offset := BTR_SIZE + btr_jump_size bucket; jn_data := Apart [] |};
  Ok (jn_offset prevJumpNode, prefix, value).

(** ** [find_node_start_point] *)

(** [if (value && node.length) memcpy(value + node.prefix, node.data, node.length)] *)
Definition pick_up (value : option (list Z)) (nd : IndexNode) : Outcome (option (list Z)) :=
  match value with
  | Some v =>
      if decide (in_length nd <> 0) then
        v ← copy_to v (in_prefix nd) (in_data nd) (in_length nd);
        Ok (Some v)
      else Ok (Some v)
  | None => Ok None
  end.

(** The data of a node are compared if its prefix is what is known of the key; [p] is the
    pointer into the key. A node without data has the key of the one before. *)
Definition compare_node (nd : IndexNode) (prefix p : Z) (firstPass : bool)
    : Outcome (Verdict * Z * bool) :=
  if decide (in_prefix nd = prefix) then
    if descending || bool_decide (in_length nd > 0) || firstPass then
      data ← data_bytes page (in_data nd) (in_length nd);
      '(verdict, p) ← compare_key (S (length (key_data key))) descending retrieval
                        (key_data key) (key_length key) data (in_length nd) p 0;
      Ok (verdict, p, if descending then firstPass else false)
    else Ok (Below, p, firstPass)
  else Ok (Below, p, firstPass).

Context (pointer_by_marker : bool).

(** The position found and [return_value], or [None] if the key is not on this page. *)
Fixpoint node_loop (fuel : nat) (nd : IndexNode) (pointer prefix p : Z) (firstPass : bool)
    (value : option (list Z)) : Outcome (option (Z * Z) * option (list Z)) :=
  match fuel with
  | O => Undefined
  | S fuel =>
      value ← pick_up value nd;
      if in_isEndLevel nd || bool_decide (in_prefix nd < prefix)
      then Ok (Some (in_nodePointer nd, prefix), value)
      else
        '(verdict, p, firstPass) ← compare_node nd prefix p firstPass;
        let prefix' := if decide (in_prefix nd = prefix) then wrapU 16 p else prefix in
        match verdict with
        | Reached _ => Ok (Some (in_nodePointer nd, prefix), value)
        | Below =>
            if in_isEndBucket nd then
              if pointer_by_marker && bool_decide (prefix' = key_length key)
                 && bool_decide (prefix' = in_prefix nd + in_length nd)
              then Ok (Some (in_nodePointer nd, prefix'), value)
              else Ok (None, value)
            else
              '(nd, pointer) ← readChecked nd pointer;
              node_loop fuel nd pointer prefix' p firstPass value
        end
  end.

Definition find_node_start_point (value : option (list Z))
    : Outcome (option (Z * Z) * option (list Z)) :=
  '(pointer, prefix, value) ← find_area_start_point value;
  '(nd, pointer) ← readChecked IndexNode_new pointer;
  '(nd, pointer) ←
    (if negb leafPage && descending && bool_decide (in_nodePointer nd = first_node)
        && bool_decide (in_length nd = 0)
     then readChecked nd pointer else Ok (nd, pointer));
  node_loop (S (length page)) nd pointer prefix prefix true value.

(** ** [find_page] *)

Fixpoint page_loop (fuel : nat) (nd : IndexNode) (pointer prefix p : Z) (firstPass : bool)
    (previousNumber : Z) : Outcome Z :=
  match fuel with
  | O => Undefined
  | S fuel =>
      if in_isEndLevel nd || bool_decide (in_prefix nd < prefix) then Ok previousNumber
      else
        '(verdict, p, firstPass) ← compare_node nd prefix p firstPass;
        match verdict with
        | Reached exact =>
            if exact && negb (rn_eq find_record_number NO_VALUE) then
              number ← findPageInDuplicates page leafPage (rn_value find_record_number)
                         (in_nodePointer nd) (wrapS 32 previousNumber);
              Ok (wrapU 32 number)
            else Ok previousNumber
        | Below =>
            let prefix := wrapU 16 p in
            if in_isEndBucket nd then Ok (in_pageNumber nd)
            else
              let previousNumber := in_pageNumber nd in
              '(nd, pointer) ← readChecked nd pointer;
              page_loop fuel nd pointer prefix p firstPass previousNumber
        end
  end.

(** [find_page] with the record number that is left after the check for unique indices *)
Definition find_page_number : Outcome Z :=
  '(pointer, prefix, _) ← find_area_start_point None;
  '(nd, pointer) ← readChecked IndexNode_new pointer;
  '(nd, pointer) ←
    (if in_isEndBucket nd || in_isEndLevel nd then readChecked nd first_node else Ok (nd, pointer));
  if in_isEndLevel nd then BugCheck 206
  else
    let previousNumber := in_pageNumber nd in
    if decide (in_nodePointer nd = first_node) then
      '(nd, pointer) ←
        (if decide (in_prefix nd = 0 /\ in_length nd = 0) then readChecked nd pointer else Ok (nd, pointer));
      page_loop (S (length page)) nd pointer 0 0 true previousNumber
    else page_loop (S (length page)) nd pointer prefix prefix true previousNumber.
End Find.

(** [struct index_desc] of [btr.h]: what [find_page] uses of it, and the flags *)
Record index_desc := { idx_flags : Z; idx_count : Z }.

Definition idx_unique : Z := 1.
Definition idx_descending : Z := 2.
Definition idx_primary : Z := 16.

Definition has_flag (idx : index_desc) (flag : Z) : bool := bool_decide (Z.land (idx_flags idx) flag <> 0).

Definition validate_duplicates (idx : index_desc) (key : temporary_key) : bool :=
  let key_all_nulls := bool_decide (key_nulls key = Z.shiftl 1 (idx_count idx) - 1) in
  (has_flag idx idx_unique && negb key_all_nulls) || has_flag idx idx_primary.

Definition find_page (order : ByteOrder) (bucket : btree_page) (key : temporary_key)
    (idx : index_desc) (find_record_number : RecordNumber) (retrieval : bool)
    (jumpKey0 : list Z) : Outcome Z :=
  find_page_number order bucket key (has_flag idx idx_descending) retrieval
    (if validate_duplicates idx key then NO_VALUE else find_record_number) jumpKey0.
