(* ===== verification/BtrKeys.v ===== *)
(** * Keys with shared prefixes

    The order of the keys of an index, ascending or descending, what a search looks for,
    and why the length of the prefix that a node shares with the node before decides most
    comparisons without a look at the data. *)

From S2P Require Import Prelude Memory Outcome RecordNumber Btn BtnNode BtnJump BtrFind.

(** ** What a search looks for

    [K] is not before [key]; a key that begins with another one is after it in ascending
    and before it in descending order, where a retrieval takes it for a match. *)
Fixpoint reached (descending retrieval : bool) (K key : list Z) : bool :=
  match K, key with
  | [], [] => true
  | [], _ :: _ => descending
  | _ :: _, [] => if descending then retrieval else true
  | q :: K, p :: key =>
      if decide (p > q) then false
      else if decide (p < q) then true
      else reached descending retrieval K key
  end.

(** The order of keys *)
Definition key_le (descending : bool) (a b : list Z) : Prop := reached descending false b a = true.

(** The first difference decides. *)
Definition verdict_at (descending retrieval : bool) (x y : option Z) : bool :=
  match x, y with
  | Some q, Some p => bool_decide (p < q)
  | Some _, None => if descending then retrieval else true
  | None, Some _ => descending
  | None, None => true
  end.

Lemma reached_at descending retrieval K key :
  reached descending retrieval K key =
  verdict_at descending retrieval (K !! lcp K key) (key !! lcp K key).
Proof.
  revert key. induction K as [|q K IH]; intros [|p key]; simpl; try done.
  repeat case_decide; try lia; simpl; try done.
  - by rewrite bool_decide_eq_false_2 by lia.
  - by rewrite bool_decide_eq_true_2 by lia.
Qed.

Lemma reached_app descending retrieval c K key :
  reached descending retrieval (c ++ K) (c ++ key) = reached descending retrieval K key.
Proof. induction c as [|x c IH]; simpl; [done|]. rewrite decide_False, decide_False by lia. done. Qed.

Lemma lcp_app c a b : lcp (c ++ a) (c ++ b) = (length c + lcp a b)%nat.
Proof. induction c as [|x c IH]; simpl; [done|]. by rewrite decide_True, IH by done. Qed.

Lemma lcp_refl a : lcp a a = length a.
Proof. induction a as [|x a IH]; simpl; [done|]. by rewrite decide_True, IH by done. Qed.

Lemma reached_refl descending retrieval K : reached descending retrieval K K = true.
Proof. induction K as [|x K IH]; simpl; [done|]. by rewrite decide_False, decide_False by lia. Qed.

Lemma key_le_refl descending a : key_le descending a a.
Proof. apply reached_refl. Qed.

(** What is after a key that is reached is reached. *)
Lemma reached_mono descending retrieval A B key :
  reached descending retrieval A key = true -> key_le descending A B ->
  reached descending retrieval B key = true.
Proof.
  unfold key_le. revert B key. induction A as [|x A IH]; intros [|y B] [|p key]; simpl;
    repeat case_decide; try done; try lia; destruct descending, retrieval; try done; intros; eauto.
Qed.

Lemma key_le_trans descending a b c :
  key_le descending a b -> key_le descending b c -> key_le descending a c.
Proof. unfold key_le. intros Hab Hbc. by apply (reached_mono descending false b c a). Qed.

Lemma reached_antisym descending a b : key_le descending a b -> key_le descending b a -> a = b.
Proof.
  unfold key_le. revert b. induction a as [|x a IH]; intros [|y b]; simpl; destruct descending; try done;
    repeat case_decide; try done; try lia; intros; f_equal; try lia; eauto.
Qed.

Lemma key_le_total descending a b : key_le descending a b \/ key_le descending b a.
Proof.
  unfold key_le. revert b. induction a as [|x a IH]; intros [|y b]; simpl; destruct descending;
    try (by left); try (by right); repeat case_decide; try lia; auto.
Qed.

(** Not reached is before. *)
Lemma not_reached_le descending a key : reached descending false a key = false -> key_le descending a key.
Proof. intros Hr. destruct (key_le_total descending a key) as [H|H]; [done|]. unfold key_le in H. congruence. Qed.

(** ** Three keys *)

Lemma lcp_lookup a b i : (i < lcp a b)%nat -> a !! i = b !! i.
Proof.
  intros Hi. rewrite <- (lookup_take_lt a (lcp a b)), <- (lookup_take_lt b (lcp a b)) by done.
  by rewrite lcp_take.
Qed.

Lemma lcp_le_iff a b n : (n <= lcp a b)%nat <->
  (n <= length a)%nat /\ (n <= length b)%nat /\ take n a = take n b.
Proof.
  revert b n. induction a as [|x a IH]; intros [|y b] [|n]; simpl; try (split; [lia|intros; lia]);
    try (split; [intros; split_and!; try lia; done|lia]).
  case_decide as H; [|split; [lia|]].
  - rewrite <- Nat.succ_le_mono, IH. subst. split.
    + intros (? & ? & ->). split_and!; lia || done.
    + intros (? & ? & Heq). injection Heq as Heq. split_and!; lia || done.
  - intros (_ & _ & Heq). injection Heq as Heq _. done.
Qed.

(** The two smaller ones of the three lengths are the same. *)
Lemma lcp_less a b c : (lcp a b < lcp a c)%nat -> lcp b c = lcp a b.
Proof.
  intros Hlt. apply lcp_spec. pose proof (lcp_le a b) as [Ha Hb]. pose proof (lcp_le a c) as [Ha' Hc].
  split_and!; [lia|lia| |].
  - rewrite <- lcp_take. symmetry. replace (lcp a b) with (lcp a b `min` lcp a c)%nat by lia.
    rewrite <- !take_take. rewrite (lcp_take a c), !take_take. done.
  - intros x y Hx Hy.
    destruct (proj1 (lcp_spec a b (lcp a b)) eq_refl) as (_ & _ & _ & Hd).
    rewrite <- (lcp_lookup a c) in Hy by done. by apply not_eq_sym, Hd.
Qed.

Lemma lcp_more a b c : (lcp a c < lcp a b)%nat -> lcp b c = lcp a c.
Proof. intros Hlt. rewrite lcp_comm. by apply lcp_less. Qed.

(** ** The node after a key that is not reached

    [A] is not reached, and the next key [B] shares [lcp A B] bytes with it. *)
Section Next.
Context (descending retrieval : bool) (A B key : list Z).
Hypothesis Horder : key_le descending A B.
Hypothesis Hbelow : reached descending retrieval A key = false.

Lemma next_shorter : (lcp A B < lcp A key)%nat -> reached descending retrieval B key = true.
Proof.
  intros Hlt. pose proof (lcp_less _ _ _ Hlt) as Hl. unfold key_le in Horder.
  rewrite reached_at in *. rewrite Hl. rewrite (lcp_comm B A) in Horder.
  rewrite <- (lcp_lookup A key) by done.
  destruct (B !! lcp A B) as [x|], (A !! lcp A B) as [y|] eqn:HA; simpl in *; try done.
  apply lookup_ge_None in HA. pose proof (lcp_le A key). lia.
Qed.

Lemma next_longer :
  (lcp A key < lcp A B)%nat -> reached descending retrieval B key = false /\ lcp B key = lcp A key.
Proof.
  intros Hlt. pose proof (lcp_more _ _ _ Hlt) as Hl. split; [|done].
  rewrite reached_at in *. rewrite Hl. by rewrite <- (lcp_lookup A B).
Qed.

(** In ascending order nothing new means the same key. *)
Lemma next_same : descending = false -> lcp A B = length B -> B = A.
Proof.
  intros Hdesc Hlen. unfold key_le in Horder. rewrite reached_at in Horder.
  rewrite (lcp_comm B A) in Horder. subst descending.
  rewrite (lookup_ge_None_2 B) in Horder by lia.
  destruct (A !! lcp A B) as [y|] eqn:HA; [done|]. apply lookup_ge_None in HA.
  pose proof (lcp_le A B). pose proof (lcp_take A B) as Ht.
  rewrite !take_ge in Ht by lia. done.
Qed.
End Next.

(** ** The comparison loop *)

Lemma compare_key_spec descending retrieval key key_end data nodeEnd : forall fuel p q,
  0 <= p <= key_end -> key_end <= Z.of_nat (length key) ->
  0 <= q <= nodeEnd -> nodeEnd <= Z.of_nat (length data) ->
  (Z.to_nat (key_end - p) < fuel)%nat ->
  let K' := drop (Z.to_nat q) (take (Z.to_nat nodeEnd) data) in
  let key' := drop (Z.to_nat p) (take (Z.to_nat key_end) key) in
  exists p', compare_key fuel descending retrieval key key_end data nodeEnd p q =
      Ok (if reached descending retrieval K' key' then Reached (bool_decide (K' = key')) else Below, p') /\
    (reached descending retrieval K' key' = false -> p' = p + Z.of_nat (lcp K' key')).
Proof.
  induction fuel as [|fuel IH]; intros p q Hp Hpe Hq Hqe Hf K' key'; [lia|].
  cbn [compare_key].
  assert (HK : q = nodeEnd -> K' = []) by (intros ->; unfold K'; apply drop_ge; rewrite length_take; lia).
  assert (Hkey : p = key_end -> key' = []) by (intros ->; unfold key'; apply drop_ge; rewrite length_take; lia).
  assert (HKn : q <> nodeEnd -> exists b, data @ q = Some b /\
    K' = b :: drop (Z.to_nat (q + 1)) (take (Z.to_nat nodeEnd) data)).
  { intros Hne. destruct (lookup_lt_is_Some_2 data (Z.to_nat q)) as [b Hb]; [lia|].
    exists b. rewrite aget_nonneg by lia. split; [done|]. unfold K'.
    rewrite (drop_S _ b); [|rewrite lookup_take_lt by lia; done].
    by replace (Z.to_nat (q + 1)) with (S (Z.to_nat q)) by lia. }
  assert (Hkeyn : p <> key_end -> exists a, key @ p = Some a /\
    key' = a :: drop (Z.to_nat (p + 1)) (take (Z.to_nat key_end) key)).
  { intros Hne. destruct (lookup_lt_is_Some_2 key (Z.to_nat p)) as [a Ha]; [lia|].
    exists a. rewrite aget_nonneg by lia. split; [done|]. unfold key'.
    rewrite (drop_S _ a); [|rewrite lookup_take_lt by lia; done].
    by replace (Z.to_nat (p + 1)) with (S (Z.to_nat p)) by lia. }
  clearbody K' key'.
  destruct (decide (q = nodeEnd)) as [Hqn|Hqn]; destruct (decide (p = key_end)) as [Hpn|Hpn].
  - rewrite (HK Hqn), (Hkey Hpn). exists p. simpl.
    destruct descending; (split; [do 3 f_equal; by rewrite !bool_decide_eq_true_2|done]).
  - destruct (Hkeyn Hpn) as (a & _ & ->). rewrite (HK Hqn). exists p. simpl.
    destruct descending; (split; [|intros; lia || done]); [|done].
    do 3 f_equal. by rewrite bool_decide_eq_false_2.
  - destruct (HKn Hqn) as (b & _ & ->). rewrite (Hkey Hpn). exists p. simpl.
    destruct descending, retrieval; (split; [|intros; lia || done]); try done;
      do 3 f_equal; by rewrite !bool_decide_eq_false_2.
  - destruct (HKn Hqn) as (b & Hb & ->). destruct (Hkeyn Hpn) as (a & Ha & ->).
    rewrite Ha, Hb. cbn [access mbind Outcome_bind reached lcp].
    assert (Hnone : (if descending then None else None) = @None Verdict) by (by destruct descending).
    rewrite Hnone. destruct (decide (a > b)) as [Hgt|Hgt]; [exists p; split; [done|]|].
    { intros _. rewrite decide_False by lia. simpl. lia. }
    destruct (decide (a < b)) as [Hlt|Hlt].
    { exists (p + 1). split; [|done]. do 3 f_equal. rewrite bool_decide_eq_false_2; [done|]. intros [= ?]. lia. }
    destruct (IH (p + 1) (q + 1)) as (p' & Heq & Hp'); [lia..|]. exists p'. split.
    + rewrite Heq. assert (a = b) as -> by lia. case_match; [|done]. do 3 f_equal.
      apply bool_decide_ext. split; congruence.
    + intros Hr. rewrite (Hp' Hr), decide_True by lia. lia.
Qed.
