(* ===== verification/BtrPage.v ===== *)
(** * Index pages: what is on them, and where the jump nodes lead

    A page holds entries, whose keys are in order, and jump nodes for some of them.
    [find_area_start_point] finds an entry before which there is nothing to be found. *)

From S2P Require Import Prelude Memory Outcome RecordNumber Btn BtnNode BtnJump BtrFind BtrKeys.

(** ** Entries and their keys *)

(** The key after some entries *)
Definition key_after (es : list Entry) : list Z := fold_left next_key es [].

(** The key of the entry [i] *)
Definition key_of (es : list Entry) (i : nat) : list Z := key_after (take (S i) es).

Definition entries_size (leaf : bool) (es : list Entry) : Z :=
  foldr (fun e n => e_size leaf e + n) 0 es.

Definition entries_bytes (leaf : bool) (es : list Entry) : list Z := mjoin (encode leaf <$> es).

(** Prefixes are as long as possible. *)
Definition prefixes_ok (es : list Entry) : Prop :=
  forall i e, es !! i = Some e -> e_prefix e = Z.of_nat (lcp (key_after (take i es)) (key_of es i)).

(** From the entry [s] on the keys are in order; the end of a level has none. *)
Definition keys_sorted (descending : bool) (s : nat) (es : list Entry) : Prop :=
  forall i j e, (s <= i <= j)%nat -> es !! j = Some e -> e_mark e <> EndLevel ->
    key_le descending (key_of es i) (key_of es j).

(** The last entry, and no other one, is a mark. *)
Definition marks_ok (es : list Entry) : Prop :=
  exists body last, es = body ++ [last] /\ Forall (fun e => e_mark e = NoMark) body /\ e_mark last <> NoMark.

Record entries_ok (es : list Entry) : Prop := {
  eo_entry : Forall entry_ok es;
  eo_prefix : prefixes_ok es;
  eo_marks : marks_ok es
}.

Lemma key_after_snoc es e : key_after (es ++ [e]) = next_key (key_after es) e.
Proof. unfold key_after. by rewrite fold_left_app. Qed.

Lemma key_of_next es i e : es !! i = Some e -> key_of es i = next_key (key_after (take i es)) e.
Proof. intros He. unfold key_of. by rewrite (take_S_r _ _ e), key_after_snoc. Qed.

Lemma key_of_prev es i : key_of es i = key_after (take (S i) es).
Proof. done. Qed.

Lemma entries_size_app leaf a b :
  entries_size leaf (a ++ b) = entries_size leaf a + entries_size leaf b.
Proof. unfold entries_size. induction a as [|x a IH]; simpl; lia. Qed.

Lemma entries_bytes_app leaf a b : entries_bytes leaf (a ++ b) = entries_bytes leaf a ++ entries_bytes leaf b.
Proof. unfold entries_bytes. by rewrite fmap_app, join_app. Qed.

Lemma entries_bytes_length leaf es : Z.of_nat (length (entries_bytes leaf es)) = entries_size leaf es.
Proof.
  induction es as [|e es IH]; [done|].
  change (entries_bytes leaf (e :: es)) with (encode leaf e ++ entries_bytes leaf es).
  change (entries_size leaf (e :: es)) with (e_size leaf e + entries_size leaf es).
  rewrite length_app. unfold e_size. lia.
Qed.

Lemma e_size_pos leaf e : entry_ok e -> 0 < e_size leaf e.
Proof. intros He. pose proof (e_size_bound leaf e He). pose proof (e_length_nonneg e). lia. Qed.

Lemma entries_size_nonneg leaf es : 0 <= entries_size leaf es.
Proof. rewrite <- entries_bytes_length. lia. Qed.

Lemma entries_size_count leaf es : Forall entry_ok es -> Z.of_nat (length es) <= entries_size leaf es.
Proof.
  induction 1 as [|e es He _ IH]; [done|]. pose proof (e_size_pos leaf e He).
  unfold entries_size in *. cbn [foldr length]. lia.
Qed.

Section Entries.
Context (es : list Entry) (Hes : entries_ok es).

Lemma entry_at i e : es !! i = Some e -> entry_ok e.
Proof. intros He. exact (Forall_lookup_1 _ _ _ _ (eo_entry _ Hes) He). Qed.

(** A prefix is not longer than the key before. *)
Lemma prefix_le i e : es !! i = Some e ->
  0 <= e_prefix e /\ (Z.to_nat (e_prefix e) <= length (key_after (take i es)))%nat /\
  (Z.to_nat (e_prefix e) <= length (key_of es i))%nat.
Proof.
  intros He. rewrite (eo_prefix _ Hes i e He). rewrite Nat2Z.id.
  pose proof (lcp_le (key_after (take i es)) (key_of es i)). lia.
Qed.

Lemma key_of_split i e : es !! i = Some e ->
  key_of es i = take (Z.to_nat (e_prefix e)) (key_after (take i es)) ++ e_data e.
Proof. intros He. by rewrite (key_of_next es i e He). Qed.

(** The shared part, seen from the key *)
Lemma key_of_shared i e : es !! i = Some e ->
  take (Z.to_nat (e_prefix e)) (key_of es i) = take (Z.to_nat (e_prefix e)) (key_after (take i es)) /\
  drop (Z.to_nat (e_prefix e)) (key_of es i) = e_data e.
Proof.
  intros He. destruct (prefix_le i e He) as (_ & Hle & _). rewrite (key_of_split i e He).
  split; [apply take_app_length'|apply drop_app_length']; rewrite length_take; lia.
Qed.

Lemma key_of_length i e : es !! i = Some e ->
  Z.of_nat (length (key_of es i)) = e_prefix e + e_length e.
Proof.
  intros He. destruct (prefix_le i e He) as (H0 & Hle & _).
  rewrite (key_of_split i e He), length_app, length_take. unfold e_length. lia.
Qed.

Lemma mark_inner i e e' : es !! i = Some e -> es !! S i = Some e' -> e_mark e = NoMark.
Proof.
  destruct (eo_marks _ Hes) as (body & last & -> & Hb & _). intros He He'.
  assert (i < length body)%nat.
  { apply lookup_lt_Some in He'. rewrite length_app in He'. simpl in He'. lia. }
  rewrite lookup_app_l in He by done. exact (Forall_lookup_1 _ _ _ _ Hb He).
Qed.

Lemma mark_last i e : es !! i = Some e -> e_mark e = NoMark -> exists e', es !! S i = Some e'.
Proof.
  destruct (eo_marks _ Hes) as (body & last & -> & Hb & Hl). intros He Hm.
  destruct (decide (i < length body)%nat) as [Hi|Hi].
  - apply lookup_lt_is_Some_2. rewrite length_app. simpl. lia.
  - rewrite lookup_app_r in He by lia. destruct (i - length body)%nat as [|k]; simpl in He; simplify_eq; done.
Qed.
End Entries.

(** ** Pages *)

(** A jump node for the entry [t] has the shared part of its key, as far as it is not in
    the jump node before, which is for an entry further in front. *)
Definition jump_key (es : list Entry) (t : nat) (e : Entry) : list Z :=
  take (Z.to_nat (e_prefix e)) (key_of es t).

(** The position of the entry [i] *)
Definition pos (bucket : btree_page) (es : list Entry) (i : nat) : Z :=
  first_node bucket + entries_size (leafPage bucket) (take i es).

Inductive jumps_ok (bucket : btree_page) (es : list Entry) : nat -> list Z -> list JumpEntry -> Prop :=
  | jumps_nil t J : jumps_ok bucket es t J []
  | jumps_cons t J t' e j js :
      (t < t')%nat -> es !! t' = Some e -> e_mark e = NoMark ->
      jump_ok j -> j_offset j = pos bucket es t' ->
      (Z.to_nat (j_prefix j) <= length J)%nat ->
      take (Z.to_nat (j_prefix j)) J ++ j_data j = jump_key es t' e ->
      jumps_ok bucket es t' (jump_key es t' e) js ->
      jumps_ok bucket es t J (j :: js).

Record page_rep (order : ByteOrder) (bucket : btree_page) (es : list Entry) (js : list JumpEntry) : Prop := {
  pr_entries : entries_ok es;
  pr_nodes : bytes_at (page bucket) (first_node bucket) (entries_bytes (leafPage bucket) es);
  pr_length : endPointer bucket = pos bucket es (length es);
  pr_jumps : jumps_ok bucket es 0 [] js;
  pr_count : btr_jump_count bucket = Z.of_nat (length js);
  pr_jump_nodes : bytes_at (page bucket) btr_nodes (mjoin (jump_encode order <$> js))
}.

Section Page.
Context (order : ByteOrder) (bucket : btree_page) (es : list Entry) (js : list JumpEntry).
Hypothesis Hrep : page_rep order bucket es js.

Lemma pos_S i e : es !! i = Some e -> pos bucket es (S i) = pos bucket es i + e_size (leafPage bucket) e.
Proof.
  intros He. unfold pos. rewrite (take_S_r _ _ e) by done. rewrite entries_size_app. simpl. lia.
Qed.

Lemma pos_0 : pos bucket es 0 = first_node bucket.
Proof. unfold pos. simpl. lia. Qed.

Lemma pos_mono i j : (i <= j)%nat -> (j <= length es)%nat -> pos bucket es i <= pos bucket es j.
Proof.
  intros Hij Hj. unfold pos. replace (take j es) with (take i es ++ drop i (take j es)).
  - rewrite entries_size_app. pose proof (entries_size_nonneg (leafPage bucket) (drop i (take j es))). lia.
  - rewrite <- (take_drop i (take j es)) at 2. rewrite take_take. by rewrite Nat.min_l by lia.
Qed.

Lemma pos_lt i e : es !! i = Some e -> pos bucket es i < pos bucket es (S i).
Proof.
  intros He. rewrite (pos_S i e He).
  pose proof (e_size_pos (leafPage bucket) e (entry_at _ (pr_entries _ _ _ _ Hrep) i e He)). lia.
Qed.

Lemma pos_inj i j : (i <= length es)%nat -> (j <= length es)%nat -> pos bucket es i = pos bucket es j -> i = j.
Proof.
  assert (Hlt : forall i j, (i < j)%nat -> (j <= length es)%nat -> pos bucket es i < pos bucket es j).
  { intros a b Hab Hb. destruct (lookup_lt_is_Some_2 es a) as [e He]; [lia|].
    pose proof (pos_lt a e He). pose proof (pos_mono (S a) b ltac:(lia) Hb). lia. }
  intros Hi Hj Heq. destruct (decide (i < j)%nat); [pose proof (Hlt i j); lia|].
  destruct (decide (j < i)%nat); [pose proof (Hlt j i); lia|]. lia.
Qed.

Lemma entry_bytes i e : es !! i = Some e ->
  bytes_at (page bucket) (pos bucket es i) (encode (leafPage bucket) e).
Proof.
  intros He. pose proof (pr_nodes _ _ _ _ Hrep) as Hat.
  rewrite <- (take_drop_middle es i e He), entries_bytes_app in Hat.
  apply bytes_at_app in Hat as [_ Hat]. rewrite entries_bytes_length in Hat. fold (pos bucket es i) in Hat.
  change (entries_bytes (leafPage bucket) (e :: drop (S i) es))
    with (encode (leafPage bucket) e ++ entries_bytes (leafPage bucket) (drop (S i) es)) in Hat.
  by apply bytes_at_app in Hat as [Hat _].
Qed.

(** A node of the page is read as its entry. *)
Lemma readNode_at i e nd : es !! i = Some e ->
  exists nd', readNode (page bucket) nd (pos bucket es i) (leafPage bucket) = Ok (nd', pos bucket es (S i)) /\
    node_is (page bucket) (leafPage bucket) (pos bucket es i) e nd'.
Proof.
  intros He. rewrite (pos_S i e He).
  apply read_entry; [exact (entry_at _ (pr_entries _ _ _ _ Hrep) i e He)|by apply entry_bytes].
Qed.

Lemma readChecked_at i e nd : es !! i = Some e ->
  exists nd', readChecked bucket nd (pos bucket es i) = Ok (nd', pos bucket es (S i)) /\
    node_is (page bucket) (leafPage bucket) (pos bucket es i) e nd'.
Proof.
  intros He. destruct (readNode_at i e nd He) as (nd' & Hr & His). exists nd'. split; [|done].
  unfold readChecked. rewrite Hr. cbn [mbind Outcome_bind]. rewrite decide_False; [done|].
  rewrite (pr_length _ _ _ _ Hrep). apply lookup_lt_Some in He.
  pose proof (pos_mono (S i) (length es) ltac:(lia) ltac:(lia)). lia.
Qed.

(** As many entries as bytes, so that the size of the page is enough fuel. *)
Lemma entries_count : (length es <= length (page bucket))%nat.
Proof.
  pose proof (pr_nodes _ _ _ _ Hrep) as Hat. apply bytes_at_range in Hat as [H0 Hat].
  rewrite entries_bytes_length in Hat.
  pose proof (entries_size_count (leafPage bucket) es (eo_entry _ (pr_entries _ _ _ _ Hrep))). lia.
Qed.
End Page.
