(* ===== verification/BtrArea.v ===== *)
(** * Searching an index page: the jump nodes

    [find_area_start_point] finds an entry from which on a search can begin: the first
    one of the page, one before the key, or one with the key and a record number that is
    too low. *)

From S2P Require Import Prelude Memory Outcome RecordNumber Btn BtnNode BtnJump BtrFind BtrKeys BtrPage.

(** The bytes of a key *)
Definition key_bytes (key : temporary_key) : list Z := take (Z.to_nat (key_length key)) (key_data key).

Definition key_ok (key : temporary_key) : Prop :=
  0 <= key_length key < 2 ^ 16 /\ key_length key <= Z.of_nat (length (key_data key)).

Lemma key_bytes_length key : key_ok key -> Z.of_nat (length (key_bytes key)) = key_length key.
Proof. intros []. unfold key_bytes. rewrite length_take. lia. Qed.

(** Entries with the same key are in the order of their record numbers. *)
Definition numbers_sorted (s : nat) (es : list Entry) : Prop :=
  forall i j e e', (s <= i < j)%nat -> es !! i = Some e -> es !! j = Some e' ->
    e_mark e' = NoMark -> key_of es i = key_of es j -> e_number e <= e_number e'.

(** Where a search may begin *)
Inductive start_ok (es : list Entry) (descending retrieval : bool) (key : list Z)
    (number : RecordNumber) : nat -> Z -> Prop :=
  | start_first : start_ok es descending retrieval key number 0 0
  | start_below t e : es !! t = Some e -> e_mark e = NoMark -> (0 < t)%nat ->
      reached descending retrieval (key_of es t) key = false ->
      start_ok es descending retrieval key number t (Z.of_nat (lcp (jump_key es t e) key))
  | start_duplicate t e : es !! t = Some e -> e_mark e = NoMark -> (0 < t)%nat ->
      key_of es t = key -> rn_eq number NO_VALUE = false -> e_number e < rn_value number ->
      start_ok es descending retrieval key number t (e_prefix e).

(** What has been copied to the value: the shared part of the key of the entry [t]. *)
Definition value_known (es : list Entry) (t : nat) (value value' : option (list Z)) : Prop :=
  match value, value' with
  | Some v, Some v' => length v' = length v /\
      (t <> 0%nat -> exists e, es !! t = Some e /\
         take (length (jump_key es t e)) v' = jump_key es t e)
  | None, None => True
  | _, _ => False
  end.

(** ** Buffers that begin with a key *)

Lemma mem_write_prefix m x y n :
  n = Z.of_nat (length x) -> take (length x) m = x -> (length x + length y <= length m)%nat ->
  exists m', mem_write m n y = Some m' /\ take (length (x ++ y)) m' = x ++ y /\ length m' = length m.
Proof.
  intros -> Hx Hlen. rewrite <- (take_drop (length x) m), Hx.
  rewrite mem_write_mid by (rewrite ?length_drop; lia || done). eexists. split; [done|].
  rewrite app_assoc. rewrite take_app_length. split; [done|].
  rewrite !length_app, !length_drop. lia.
Qed.

Lemma take_take_prefix {A} (m x : list A) n :
  take (length x) m = x -> (n <= length x)%nat -> take n m = take n x.
Proof. intros Hx Hn. rewrite <- Hx. rewrite take_take. by rewrite Nat.min_l by lia. Qed.

Lemma lcp_take_l a b n : lcp (take n a) b = (n `min` lcp a b)%nat.
Proof.
  revert b n. induction a as [|x a IH]; intros [|y b] [|n]; simpl; try done; try lia.
  case_decide; [rewrite IH; lia|lia].
Qed.

Section Area.
Context (order : ByteOrder) (bucket : btree_page) (es : list Entry) (js : list JumpEntry).
Context (key : temporary_key) (descending retrieval : bool) (number : RecordNumber) (s : nat).
Hypothesis Hrep : page_rep order bucket es js.
Hypothesis Hkey : key_ok key.
Hypothesis Hsorted : keys_sorted descending s es.
Hypothesis Hs : (s <= 1)%nat.

Abbreviation K := (key_bytes key).

Lemma jump_key_length t e : es !! t = Some e -> Z.of_nat (length (jump_key es t e)) = e_prefix e.
Proof.
  intros He. destruct (prefix_le es (pr_entries _ _ _ _ Hrep) t e He) as (H0 & _ & Hle).
  unfold jump_key. rewrite length_take. lia.
Qed.

(** *** Duplicates *)

(** A jump node as it is read from the page *)
Lemma read_jump_at t J j js' pointer :
  jumps_ok bucket es t J (j :: js') ->
  bytes_at (page bucket) pointer (mjoin (jump_encode order <$> (j :: js'))) ->
  exists jn t' e, readJumpNode order (page bucket) pointer = Ok (jn, pointer + j_size order j) /\
    jump_is (page bucket) pointer j jn /\
    (t < t')%nat /\ es !! t' = Some e /\ e_mark e = NoMark /\
    jn_offset jn = pos bucket es t' /\ jn_prefix jn = j_prefix j /\
    jn_prefix jn + jn_length jn = e_prefix e /\
    0 <= j_prefix j <= Z.of_nat (length J) /\ take (Z.to_nat (j_prefix j)) J ++ j_data j = jump_key es t' e /\
    jumps_ok bucket es t' (jump_key es t' e) js' /\
    bytes_at (page bucket) (pointer + j_size order j) (mjoin (jump_encode order <$> js')).
Proof.
  intros Hok Hat. inversion Hok as [|? ? t' e ? ? Ht He Hm Hj Hoff Hpre Hdata Hok']; subst.
  change (mjoin (jump_encode order <$> j :: js')) with
    (jump_encode order j ++ mjoin (jump_encode order <$> js')) in Hat.
  apply bytes_at_app in Hat as [Hat1 Hat2].
  destruct (read_jump order _ _ j Hj Hat1) as (jn & Hr & His).
  exists jn, t', e. pose proof His as [_ H1 H2 H3 _]. pose proof Hj as (Hp & _).
  split_and!; try done; try lia.
  - rewrite H1, H2, <- (jump_key_length t' e He), <- Hdata, length_app, length_take. unfold j_length. lia.
Qed.

(** An entry with nothing but the shared part of a duplicate is a duplicate. *)
Lemma duplicate_again t t' e e' j :
  es !! t = Some e -> es !! t' = Some e' -> e_mark e' = NoMark -> (s <= t < t')%nat ->
  key_of es t = K -> e_length e' = 0 -> e_prefix e' = e_prefix e ->
  (descending = true -> e_prefix e' >= key_length key) ->
  j_prefix j = e_prefix e -> take (Z.to_nat (j_prefix j)) (jump_key es t e) ++ j_data j = jump_key es t' e' ->
  key_of es t' = K.
Proof.
  intros He He' Hm Ht HK Hl Hp Hdesc Hj Hdata.
  destruct (prefix_le es (pr_entries _ _ _ _ Hrep) t' e' He') as (H0 & _ & Hle).
  pose proof (key_of_length es (pr_entries _ _ _ _ Hrep) t' e' He') as Hlen'.
  pose proof (jump_key_length t e He) as Hjl. pose proof (jump_key_length t' e' He') as Hjl'.
  pose proof (key_bytes_length key Hkey) as HKl.
  assert (Hjk' : jump_key es t' e' = key_of es t') by (unfold jump_key; apply take_ge; lia).
  rewrite take_ge in Hdata by lia.
  assert (j_data j = []) as Hnil.
  { apply (f_equal length) in Hdata. rewrite length_app in Hdata. apply nil_length_inv. lia. }
  rewrite Hnil, app_nil_r, Hjk' in Hdata. unfold jump_key in Hdata. rewrite HK in Hdata.
  assert (Hall : (length K <= Z.to_nat (e_prefix e))%nat -> key_of es t' = K).
  { intros Hge. rewrite <- Hdata. by apply take_ge. }
  destruct descending eqn:Hd; [apply Hall; specialize (Hdesc eq_refl); lia|].
  pose proof (Hsorted t t' e' ltac:(lia) He' ltac:(by rewrite Hm)) as Hle2.
  rewrite HK in Hle2. apply (reached_antisym false); [|done].
  rewrite <- Hdata. rewrite <- (take_drop (Z.to_nat (e_prefix e)) K) at 2. unfold key_le.
  rewrite <- (app_nil_r (take (Z.to_nat (e_prefix e)) K)) at 2. rewrite reached_app.
  by destruct (drop _ K).
Qed.

Lemma area_duplicates_spec js' : forall n t e jn prev prefix t0 nd pointer,
  n = length js' -> es !! t = Some e -> e_mark e = NoMark -> (0 < t)%nat ->
  node_is (page bucket) (leafPage bucket) (pos bucket es t) e nd ->
  jn_offset jn = pos bucket es t -> jn_prefix jn + jn_length jn = e_prefix e ->
  key_of es t = K -> rn_eq number NO_VALUE = false ->
  jumps_ok bucket es t (jump_key es t e) js' ->
  bytes_at (page bucket) pointer (mjoin (jump_encode order <$> js')) ->
  start_ok es descending retrieval K number t0 prefix -> jn_offset prev = pos bucket es t0 ->
  exists prefix' prev' t', area_duplicates order bucket descending number n pointer (key_length key) nd jn prev prefix =
      Ok (prefix', prev') /\
    start_ok es descending retrieval K number t' prefix' /\ jn_offset prev' = pos bucket es t'.
Proof.
  induction js' as [|j js' IH]; intros n t e jn prev prefix t0 nd pointer -> He Hm Ht Hnd Hoff Hsum HK Hno Hjs Hat Hst Hprev;
    cbn [length area_duplicates]; [by eexists _, _, t0|].
  unfold rn_le. rewrite (is_number _ _ _ _ _ Hnd).
  case_bool_decide as Hn; [by eexists _, _, t0|].
  destruct (read_jump_at _ _ _ _ _ Hjs Hat) as
    (jn' & t' & e' & Hr & _ & Htt & He' & Hm' & Hoff' & Hpre' & Hsum' & Hjb & Hdata & Hjs' & Hat').
  rewrite Hr. cbn [mbind Outcome_bind]. rewrite Hoff'.
  destruct (readNode_at order bucket es js Hrep t' e' nd He') as (nd' & Hrn & Hnd').
  rewrite Hrn. cbn [mbind Outcome_bind].
  assert (Hwrap : wrapU 16 (jn_length jn + jn_prefix jn) = e_prefix e).
  { rewrite Z.add_comm, Hsum. apply wrapU_id. unfold inU.
    destruct (entry_at es (pr_entries _ _ _ _ Hrep) t e He) as (Hb & _).
    change (2 ^ 14) with 16384 in Hb. change (2 ^ 16) with 65536. lia. }
  rewrite Hwrap.
  assert (Hdup : start_ok es descending retrieval K number t (e_prefix e)).
  { by apply start_duplicate; [..|lia]. }
  destruct Hnd' as [Hp1 Hp2 Hp3 Hp4 Hp5 Hp6 Hp7 Hp8] eqn:Hnd_eq. clear Hnd_eq.
  rewrite Hp2, Hp3, Hp7, Hp8, Hpre', Hsum, Hm'.
  match goal with |- context [if ?b then _ else _] => destruct b eqn:Hb end; [by eexists _, _, t|].
  rewrite !orb_false_iff in Hb. destruct Hb as [[[[[Hb1 Hb2] Hb3] Hb4] _] _].
  apply bool_decide_eq_false in Hb1, Hb2, Hb4.
  assert (HK' : key_of es t' = K).
  { apply (duplicate_again t t' e e' j); try done; try lia.
    intros Hd. rewrite Hd in Hb3. simpl in Hb3. apply bool_decide_eq_false in Hb3. lia. }
  destruct (readNode_at order bucket es js Hrep t' e' nd He') as (nd2 & Hrn2 & Hnd2).
  rewrite Hrn in Hrn2. injection Hrn2 as <-.
  apply (IH _ t' e' jn' jn (e_prefix e) t); try done. lia.
Qed.

(** *** The loop *)

(** The key behind the jump node before, if there is one *)
Definition known_key (t : nat) : list Z := if decide (t = 0%nat) then [] else key_of es t.

Context (jumpKey0 : list Z).
Hypothesis Hcap : forall i, (i < length es)%nat -> (length (key_of es i) <= length jumpKey0)%nat.

(** The key of the entry of a jump node is put together in the buffer. *)
Lemma copy_key t' e jn nd jumpKey pre :
  es !! t' = Some e -> jn_prefix jn = Z.of_nat (length pre) ->
  node_is (page bucket) (leafPage bucket) (pos bucket es t') e nd ->
  take (length pre) jumpKey = pre -> length jumpKey = length jumpKey0 ->
  forall data, data_bytes (page bucket) (jn_data jn) (jn_length jn) = Ok data ->
  pre ++ data = jump_key es t' e ->
  exists jumpKey1 jumpKey2,
    copy_to bucket jumpKey (jn_prefix jn) (jn_data jn) (jn_length jn) = Ok jumpKey1 /\
    copy_to bucket jumpKey1 (in_prefix nd) (in_data nd) (in_length nd) = Ok jumpKey2 /\
    take (length (key_of es t')) jumpKey2 = key_of es t' /\ length jumpKey2 = length jumpKey0.
Proof.
  intros He Hpre Hnd Hbuf Hlen data Hd Hdata.
  pose proof (Hcap t' (lookup_lt_Some _ _ _ He)) as Hc.
  destruct (key_of_shared es (pr_entries _ _ _ _ Hrep) t' e He) as [Hsh1 Hsh2].
  assert (Hkey' : key_of es t' = jump_key es t' e ++ e_data e).
  { unfold jump_key. rewrite <- Hsh2. by rewrite take_drop. }
  rewrite Hkey' in Hc. rewrite <- Hdata in Hc. rewrite !length_app in Hc.
  destruct (mem_write_prefix jumpKey pre data (jn_prefix jn)) as (jk1 & Hw1 & Ht1 & Hl1);
    [done|done|lia|].
  rewrite Hdata in Ht1. pose proof (jump_key_length t' e He) as Hjl.
  destruct (mem_write_prefix jk1 (jump_key es t' e) (e_data e) (e_prefix e)) as (jk2 & Hw2 & Ht2 & Hl2);
    [lia|done|rewrite <- Hdata, length_app; lia|].
  exists jk1, jk2. unfold copy_to. rewrite Hd. cbn [mbind Outcome_bind]. rewrite Hw1.
  rewrite (is_data _ _ _ _ _ Hnd), (is_prefix _ _ _ _ _ Hnd). cbn [mbind Outcome_bind]. rewrite Hw2.
  rewrite Hkey'. split_and!; try done. lia.
Qed.

(** The comparison with the key of the entry, from what is known of it on *)
Lemma compare_entry t' jumpKey p :
  take (length (key_of es t')) jumpKey = key_of es t' ->
  take p (key_of es t') = take p K -> (p <= length (key_of es t'))%nat -> (p <= length K)%nat ->
  exists p', compare_key (S (length (key_data key))) descending retrieval (key_data key) (key_length key)
      jumpKey (Z.of_nat (length (key_of es t'))) (Z.of_nat p) (Z.of_nat p) =
    Ok (if reached descending retrieval (key_of es t') K
        then Reached (bool_decide (key_of es t' = K)) else Below, p') /\
    (reached descending retrieval (key_of es t') K = false ->
       p' = Z.of_nat (lcp (key_of es t') K)).
Proof.
  intros Hbuf Hshare Hp1 Hp2. pose proof (key_bytes_length key Hkey) as HKl. destruct Hkey as [Hk1 Hk2].
  pose proof (f_equal length Hbuf) as Hbl. rewrite length_take in Hbl.
  destruct (compare_key_spec descending retrieval (key_data key) (key_length key) jumpKey
    (Z.of_nat (length (key_of es t'))) (S (length (key_data key))) (Z.of_nat p) (Z.of_nat p))
    as (p' & Heq & Hp'); [lia..|].
  rewrite !Nat2Z.id, Hbuf in *. fold K in *.
  set (B := key_of es t') in *.
  assert (Hr : reached descending retrieval B K = reached descending retrieval (drop p B) (drop p K)).
  { rewrite <- (take_drop p B) at 1. rewrite <- (take_drop p K) at 1. rewrite Hshare. apply reached_app. }
  assert (Hl : lcp B K = (p + lcp (drop p B) (drop p K))%nat).
  { rewrite <- (take_drop p B) at 1. rewrite <- (take_drop p K) at 1. rewrite Hshare.
    rewrite lcp_app, length_take. lia. }
  rewrite Hr. exists p'. split.
  - rewrite Heq. case_match; [|done]. do 3 f_equal. apply bool_decide_ext. split; intros H1.
    + rewrite <- (take_drop p B), <- (take_drop p K). by rewrite Hshare, H1.
    + by rewrite H1.
  - intros Hf. rewrite (Hp' Hf), Hl. lia.
Qed.

(** What the loop knows when it is behind the jump node for the entry [t]. *)
Record area_state (t : nat) (J : list Z) (jumpKey : list Z) (prefix testPrefix : Z)
    (prev : IndexJumpNode) : Prop := {
  as_below : t <> 0%nat -> exists e, es !! t = Some e /\ e_mark e = NoMark /\
    reached descending retrieval (key_of es t) K = false /\ J = jump_key es t e;
  as_none : t = 0%nat -> J = [];
  as_buffer : take (length (known_key t)) jumpKey = known_key t;
  as_room : length jumpKey = length jumpKey0;
  as_test : testPrefix = Z.of_nat (lcp (known_key t) K);
  as_prefix : prefix = Z.of_nat (lcp J K);
  as_offset : jn_offset prev = pos bucket es t
}.

Lemma known_key_jump t J jumpKey prefix testPrefix prev :
  area_state t J jumpKey prefix testPrefix prev -> J = take (length J) (known_key t).
Proof.
  intros Hst. unfold known_key. case_decide as Ht; [by rewrite (as_none _ _ _ _ _ _ Hst Ht)|].
  destruct (as_below _ _ _ _ _ _ Hst Ht) as (e & He & _ & _ & ->).
  unfold jump_key. rewrite length_take.
  destruct (prefix_le es (pr_entries _ _ _ _ Hrep) t e He) as (_ & _ & Hle). by rewrite Nat.min_l by lia.
Qed.

Lemma area_state_start t J jumpKey prefix testPrefix prev :
  area_state t J jumpKey prefix testPrefix prev -> start_ok es descending retrieval K number t prefix.
Proof.
  intros Hst. destruct (decide (t = 0%nat)) as [Ht|Ht].
  - rewrite (as_prefix _ _ _ _ _ _ Hst), (as_none _ _ _ _ _ _ Hst Ht), Ht. constructor.
  - destruct (as_below _ _ _ _ _ _ Hst Ht) as (e & He & Hm & Hr & HJ).
    rewrite (as_prefix _ _ _ _ _ _ Hst), HJ. apply start_below; try done. lia.
Qed.

(** One jump node is compared with the key, unless it shares more with the one before. *)
Lemma area_compare t J jumpKey prefix testPrefix prev t' e n jumpKey' :
  area_state t J jumpKey prefix testPrefix prev ->
  es !! t' = Some e -> (n <= length J)%nat ->
  take n J = take n (jump_key es t' e) -> (n <= length (jump_key es t' e))%nat ->
  take (length (key_of es t')) jumpKey' = key_of es t' ->
  exists verdict testPrefix',
    (if decide (Z.of_nat n <= testPrefix) then
       '(verdict, keyPointer) ←
         compare_key (S (length (key_data key))) descending retrieval (key_data key) (key_length key)
           jumpKey' (Z.of_nat (length (key_of es t'))) (Z.of_nat n) (Z.of_nat n);
       Ok (verdict, wrapU 16 keyPointer)
     else Ok (Below, testPrefix)) = Ok (verdict, testPrefix') /\
    match verdict with
    | Reached exact => exact = true -> key_of es t' = K
    | Below => reached descending retrieval (key_of es t') K = false /\
               testPrefix' = Z.of_nat (lcp (key_of es t') K)
    end.
Proof.
  intros Hst He Hn Hshare Hn' Hbuf. pose proof (key_bytes_length key Hkey) as HKl.
  destruct (prefix_le es (pr_entries _ _ _ _ Hrep) t' e He) as (_ & _ & Hple).
  pose proof (known_key_jump _ _ _ _ _ _ Hst) as HJ.
  assert (Hknown : take n (known_key t) = take n (key_of es t')).
  { rewrite HJ, take_take, Nat.min_l in Hshare by lia. rewrite Hshare. unfold jump_key.
    unfold jump_key in Hn'. rewrite length_take in Hn'. rewrite take_take. by rewrite Nat.min_l by lia. }
  assert (Hlk : (n <= length (known_key t))%nat).
  { apply (f_equal length) in HJ. rewrite length_take in HJ. lia. }
  assert (Hlk' : (n <= length (key_of es t'))%nat).
  { unfold jump_key in Hn'. rewrite length_take in Hn'. lia. }
  rewrite (as_test _ _ _ _ _ _ Hst). case_decide as Hd.
  - assert (HnK : take n (key_of es t') = take n K).
    { rewrite <- Hknown. apply lcp_le_iff. lia. }
    pose proof (lcp_le (known_key t) K) as [_ HlK].
    destruct (compare_entry t' jumpKey' n Hbuf HnK ltac:(lia) ltac:(lia)) as (p' & Hc & Hp').
    rewrite Hc. cbn [mbind Outcome_bind]. eexists _, _. split; [reflexivity|].
    destruct (reached descending retrieval (key_of es t') K) eqn:Hr.
    + by intros H%bool_decide_eq_true.
    + split; [done|]. rewrite (Hp' eq_refl). apply wrapU_id. unfold inU.
      pose proof (lcp_le (key_of es t') K) as [_ Hl2]. destruct Hkey. lia.
  - eexists _, _. split; [reflexivity|].
    assert (Ht : t <> 0%nat).
    { intros Ht. rewrite (as_none _ _ _ _ _ _ Hst Ht) in Hn. simpl in Hn. lia. }
    destruct (as_below _ _ _ _ _ _ Hst Ht) as (e0 & _ & _ & Hr0 & _).
    assert (Hkk : known_key t = key_of es t) by (unfold known_key; by rewrite decide_False).
    rewrite Hkk in *.
    assert (Hlt : (lcp (key_of es t) K < lcp (key_of es t) (key_of es t'))%nat).
    { assert (n <= lcp (key_of es t) (key_of es t'))%nat; [|lia]. apply lcp_le_iff. by split_and!. }
    destruct (next_longer descending retrieval (key_of es t) (key_of es t') K Hr0 Hlt) as [H1 H2].
    by rewrite H2.
Qed.

Lemma value_copied t' e jn jumpKey value0 value :
  es !! t' = Some e -> jn_length jn + jn_prefix jn = e_prefix e ->
  take (length (key_of es t')) jumpKey = key_of es t' ->
  (forall v, value0 = Some v -> forall i, (i < length es)%nat -> (length (key_of es i) <= length v)%nat) ->
  (exists t, value_known es t value0 value) ->
  exists value', (match value with
    | Some v =>
        if decide (jn_length jn + jn_prefix jn <> 0) then
          v ← access (memcpy v 0 jumpKey (jn_length jn + jn_prefix jn));
          Ok (Some v)
        else Ok (Some v)
    | None => Ok None
    end) = Ok value' /\ value_known es t' value0 value'.
Proof.
  intros He Hsum Hbuf Hv [t Hval]. pose proof (jump_key_length t' e He) as Hjl.
  destruct (prefix_le es (pr_entries _ _ _ _ Hrep) t' e He) as (H0 & _ & Hple).
  destruct value0 as [v0|], value as [v|]; try done; [|by exists None].
  destruct Hval as [Hlen _]. specialize (Hv v0 eq_refl t' (lookup_lt_Some _ _ _ He)).
  pose proof (f_equal length Hbuf) as Hbl. rewrite length_take in Hbl.
  rewrite Hsum. case_decide as Hz.
  - destruct (mem_write_prefix v [] (jump_key es t' e) 0) as (v' & Hw & Ht & Hl); [done|done|simpl; lia|].
    exists (Some v'). unfold memcpy.
    assert (Hr : mem_read jumpKey 0 (e_prefix e) = Some (jump_key es t' e)).
    { unfold mem_read. rewrite decide_True by lia. change (Z.to_nat 0) with 0%nat. rewrite drop_0.
      unfold jump_key. f_equal. apply (take_take_prefix jumpKey); [done|lia]. }
    rewrite Hr. cbn [mbind option_bind]. rewrite Hw. cbn [access mbind Outcome_bind].
    split; [done|]. split; [lia|]. intros _. by exists e.
  - exists (Some v). split; [done|]. split; [done|]. intros _. exists e. split; [done|].
    by rewrite (nil_length_inv (jump_key es t' e)) by lia.
Qed.

Lemma area_loop_spec value0 js' :
  (forall v, value0 = Some v -> forall i, (i < length es)%nat -> (length (key_of es i) <= length v)%nat) ->
  forall n pointer t J jumpKey prefix testPrefix prev value,
  n = length js' -> jumps_ok bucket es t J js' ->
  bytes_at (page bucket) pointer (mjoin (jump_encode order <$> js')) ->
  area_state t J jumpKey prefix testPrefix prev ->
  value_known es t value0 value ->
  exists prefix' prev' value' t',
    area_loop order bucket key descending retrieval number n pointer jumpKey prefix testPrefix value prev =
      Ok (prefix', prev', value') /\
    start_ok es descending retrieval K number t' prefix' /\ jn_offset prev' = pos bucket es t' /\
    (exists t2, value_known es t2 value0 value' /\ (rn_eq number NO_VALUE = true -> t2 = t')).
Proof.
  intros Hv. induction js' as [|j js' IH];
    intros n pointer t J jumpKey prefix testPrefix prev value -> Hjs Hat Hst Hval; cbn [length area_loop].
  { eexists _, _, _, t. split_and!; try done; [by eapply area_state_start|apply Hst|by exists t]. }
  destruct (read_jump_at _ _ _ _ _ Hjs Hat) as
    (jn & t' & e & Hr & Hjis & Htt & He & Hm & Hoff & Hpre & Hsum & Hjb & Hdata & Hjs' & Hat').
  rewrite Hr. cbn [mbind Outcome_bind]. rewrite Hoff.
  destruct (readNode_at order bucket es js Hrep t' e IndexNode_new He) as (nd & Hrn & Hnd).
  rewrite Hrn. cbn [mbind Outcome_bind].
  set (m := Z.to_nat (j_prefix j)) in *.
  assert (Hpre' : jn_prefix jn = Z.of_nat m) by lia.
  pose proof (known_key_jump _ _ _ _ _ _ Hst) as HJ.
  assert (HmJ : (m <= length J)%nat) by lia.
  assert (Hbuf : take (length (take m J)) jumpKey = take m J).
  { pose proof (f_equal length HJ) as HJl. rewrite length_take in HJl.
    rewrite length_take, Nat.min_l by lia. rewrite HJ, take_take, Nat.min_l by lia.
    apply take_take_prefix; [apply Hst|lia]. }
  destruct (copy_key t' e jn nd jumpKey (take m J) He) with (data := j_data j)
    as (jk1 & jk2 & Hc1 & Hc2 & Hbuf2 & Hroom2).
  { rewrite length_take. lia. }
  { done. } { done. } { apply Hst. } { apply Hjis. } { done. }
  rewrite Hc1. cbn [mbind Outcome_bind]. rewrite Hc2. cbn [mbind Outcome_bind].
  assert (HkeyLength : wrapU 16 (in_prefix nd + in_length nd) = Z.of_nat (length (key_of es t'))).
  { rewrite (is_prefix _ _ _ _ _ Hnd), (is_length _ _ _ _ _ Hnd).
    rewrite (key_of_length es (pr_entries _ _ _ _ Hrep) t' e He). apply wrapU_id. unfold inU.
    destruct (entry_at es (pr_entries _ _ _ _ Hrep) t' e He) as (Hb1 & Hb2 & _).
    pose proof (e_length_nonneg e). change (2 ^ 14) with 16384 in *. change (2 ^ 16) with 65536. lia. }
  rewrite HkeyLength, Hpre'.
  assert (Hjk : take m J = take m (jump_key es t' e) /\ (m <= length (jump_key es t' e))%nat).
  { rewrite <- Hdata. split; [|rewrite length_app, length_take; lia].
    rewrite take_app_le by (rewrite length_take; lia). rewrite take_take. by rewrite Nat.min_id. }
  destruct Hjk as [Hjk Hjkl].
  destruct (area_compare t J jumpKey prefix testPrefix prev t' e m jk2 Hst He HmJ Hjk Hjkl Hbuf2)
    as (verdict & testPrefix' & Heq & Hverdict).
  rewrite Heq. cbn [mbind Outcome_bind]. destruct verdict as [exact|].
  - destruct (exact && negb (rn_eq number NO_VALUE)) eqn:Hdup.
    + apply andb_true_iff in Hdup as [Hex Hno]. apply negb_true_iff in Hno. specialize (Hverdict Hex).
      assert (Hkl : Z.of_nat (length (key_of es t')) = key_length key)
        by (rewrite Hverdict; apply (key_bytes_length key Hkey)).
      rewrite Hkl.
      destruct (area_duplicates_spec js' (length js') t' e jn prev prefix t nd (pointer + j_size order j))
        as (prefix' & prev' & t2 & Hd & Hst2 & Hoff2); try done; [lia|by eapply area_state_start|apply Hst|].
      rewrite Hd. cbn [mbind Outcome_bind]. eexists _, _, _, t2. split_and!; try done. exists t. split; [done|]. congruence.
    + eexists _, _, _, t. split_and!; try done; [by eapply area_state_start|apply Hst|by exists t].
  - destruct Hverdict as [Hbelow Htest].
    destruct (value_copied t' e jn jk2 value0 value) as (value' & Hcopy & Hval'); try done;
      [lia|by exists t|].
    rewrite <- Hpre', Hcopy. cbn [mbind Outcome_bind].
    apply (IH _ _ t' (jump_key es t' e)); try done.
    assert (Ht0 : t' <> 0%nat) by lia.
    split; unfold known_key; rewrite ?decide_False by done; try done.
    + intros _. by exists e.
    + rewrite Htest. unfold jump_key. rewrite lcp_take_l.
      pose proof (prefix_le es (pr_entries _ _ _ _ Hrep) t' e He). lia.
Qed.

(** [find_area_start_point] *)
Lemma find_area_spec value :
  (forall v, value = Some v -> forall i, (i < length es)%nat -> (length (key_of es i) <= length v)%nat) ->
  exists prefix value' t,
    find_area_start_point order bucket key descending retrieval number jumpKey0 value =
      Ok (pos bucket es t, prefix, value') /\
    start_ok es descending retrieval K number t prefix /\
    (exists t2, value_known es t2 value value' /\ (rn_eq number NO_VALUE = true -> t2 = t)).
Proof.
  intros Hv. unfold find_area_start_point.
  rewrite (pr_count _ _ _ _ Hrep), Nat2Z.id.
  destruct (area_loop_spec value js Hv (length js) btr_nodes 0 [] jumpKey0 0 0
    {| jn_nodePointer := 0; jn_prefix := 0; jn_length := 0;
       jn_offset := BTR_SIZE + btr_jump_size bucket; jn_data := Apart [] |} value)
    as (prefix & prev & value' & t & Heq & Hst & Hoff & Hval); try done.
  - apply (pr_jumps _ _ _ _ Hrep).
  - apply (pr_jump_nodes _ _ _ _ Hrep).
  - split; try done. cbn [jn_offset]. rewrite pos_0. done.
  - destruct value; [|done]. split; done.
  - rewrite Heq. cbn [mbind Outcome_bind]. eexists _, _, t. split_and!; try done. by rewrite Hoff.
Qed.
End Area.
