(* ===== verification/BtrSearch.v ===== *)
(** * Searching an index page: the theorems

    [find_node_start_point] finds the first node that is not before a key, or one with the
    same key that all lower record numbers precede; [find_page] the page for a key. *)

From S2P Require Import Prelude Memory Outcome RecordNumber Btn BtnNode BtnJump BtrFind BtrKeys BtrPage BtrArea.

Section Search.
Context (order : ByteOrder) (bucket : btree_page) (es : list Entry) (js : list JumpEntry).
Context (key : temporary_key) (descending retrieval : bool) (s : nat).
Hypothesis Hrep : page_rep order bucket es js.
Hypothesis Hkey : key_ok key.
Hypothesis Hsorted : keys_sorted descending s es.

Abbreviation K := (key_bytes key).

Lemma page_entries : entries_ok es.
Proof. exact (pr_entries _ _ _ _ Hrep). Qed.

(** Before the node [i] is looked at: it is the first one, with the known part of the key,
    or the one before is not reached. *)
Definition at_node (i : nat) (e : Entry) (prefix : Z) (firstPass : bool) : Prop :=
  (firstPass = true /\ prefix = Z.of_nat (lcp (jump_key es i e) K) /\
     (prefix < e_prefix e -> reached descending retrieval (key_of es i) K = false)) \/
  (exists i', i = S i' /\ (s <= i')%nat /\ reached descending retrieval (key_of es i') K = false /\
     prefix = Z.of_nat (lcp (key_of es i') K)).

Lemma wrap_lcp i : wrapU 16 (Z.of_nat (lcp (key_of es i) K)) = Z.of_nat (lcp (key_of es i) K).
Proof.
  apply wrapU_id. unfold inU. pose proof (lcp_le (key_of es i) K).
  pose proof (key_bytes_length key Hkey). destruct Hkey. lia.
Qed.

(** The prefix of a node is compared with what is known. *)
Lemma at_node_cases i e prefix firstPass :
  es !! i = Some e -> e_mark e <> EndLevel -> at_node i e prefix firstPass ->
  (e_prefix e < prefix -> reached descending retrieval (key_of es i) K = true) /\
  (prefix < e_prefix e -> reached descending retrieval (key_of es i) K = false /\
                          prefix = Z.of_nat (lcp (key_of es i) K)) /\
  (prefix = e_prefix e -> take (Z.to_nat prefix) (key_of es i) = take (Z.to_nat prefix) K /\
                          prefix <= key_length key) /\
  (prefix = e_prefix e -> descending = false -> e_length e = 0 -> firstPass = false ->
     reached descending retrieval (key_of es i) K = false /\ prefix = Z.of_nat (lcp (key_of es i) K)).
Proof.
  intros He Hm Hat. pose proof (key_bytes_length key Hkey) as HKl.
  destruct (prefix_le es page_entries i e He) as (H0 & _ & Hple).
  destruct (key_of_shared es page_entries i e He) as [Hsh Hrest].
  destruct Hat as [(Hf & Hp & Hbelow)|(i' & -> & Hi' & Hr & Hp)].
  - unfold jump_key in Hp. rewrite lcp_take_l in Hp. split_and!; [lia| | |congruence].
    + intros Hlt. split; [by apply Hbelow|lia].
    + intros Heq. pose proof (lcp_le (key_of es i) K). split; [|lia].
      apply lcp_le_iff. lia.
  - assert (Hprev : key_after (take (S i') es) = key_of es i') by done.
    pose proof (eo_prefix _ page_entries _ _ He) as Hpre. rewrite Hprev in Hpre, Hsh.
    pose proof (Hsorted i' (S i') e ltac:(lia) He Hm) as Hle.
    pose proof (lcp_le (key_of es i') K) as [_ HlK].
    split_and!.
    + intros Hlt. apply (next_shorter descending retrieval (key_of es i')); [done|done|lia].
    + intros Hlt. destruct (next_longer descending retrieval (key_of es i') (key_of es (S i')) K Hr)
        as [Hr' Hl']; [lia|]. by rewrite Hl'.
    + intros Heq. split; [|lia]. rewrite Heq at 1. rewrite Hsh, <- Heq, Hp, Nat2Z.id. apply lcp_take.
    + intros Heq Hdesc Hl0 _.
      pose proof (key_of_length es page_entries (S i') e He) as Hlen.
      rewrite (next_same descending retrieval (key_of es i') (key_of es (S i')) K Hle Hr Hdesc) by lia. done.
Qed.

(** One node: the verdict, and the part of the key that it shares *)
Lemma node_verdict i e nd prefix firstPass :
  es !! i = Some e -> e_mark e <> EndLevel -> at_node i e prefix firstPass ->
  node_is (page bucket) (leafPage bucket) (pos bucket es i) e nd ->
  prefix <= e_prefix e ->
  exists verdict p' first',
    compare_node bucket key descending retrieval nd prefix prefix firstPass = Ok (verdict, p', first') /\
    match verdict with
    | Reached exact => reached descending retrieval (key_of es i) K = true /\
                       exact = bool_decide (key_of es i = K)
    | Below => reached descending retrieval (key_of es i) K = false /\
               p' = Z.of_nat (lcp (key_of es i) K)
    end.
Proof.
  intros He Hm Hat [_ Hpre Hlen _ Hdata _ _ _] Hle.
  destruct (at_node_cases i e prefix firstPass He Hm Hat) as (_ & Hlong & Heq & Hsame).
  pose proof (key_bytes_length key Hkey) as HKl. pose proof (e_length_nonneg e) as Hl0.
  destruct (prefix_le es page_entries i e He) as (H0 & _ & Hple).
  destruct (key_of_shared es page_entries i e He) as [_ Hrest].
  unfold compare_node. rewrite Hpre, Hlen in *. case_decide as Hd.
  2:{ destruct (Hlong ltac:(lia)) as [Hr Hp]. eexists _, _, _. split; [reflexivity|done]. }
  rewrite <- Hd in *. destruct (Heq eq_refl) as [Hshare HpK].
  match goal with |- context [if ?b then _ else _] => destruct b eqn:Hb end.
  - rewrite Hdata. cbn [mbind Outcome_bind].
    destruct (compare_key_spec descending retrieval (key_data key) (key_length key) (e_data e) (e_length e)
      (S (length (key_data key))) (e_prefix e) 0) as (p' & Hc & Hp');
      [lia|apply Hkey|lia|unfold e_length; lia|destruct Hkey; lia|].
    rewrite Hc. cbn [mbind Outcome_bind]. unfold e_length in Hp'.
    unfold e_length. rewrite !Nat2Z.id in *. change (Z.to_nat 0) with 0%nat in *.
    rewrite drop_0, firstn_all in *. fold K in *.
    set (n := Z.to_nat (e_prefix e)) in *.
    assert (Hsplit : key_of es i = take n K ++ e_data e).
    { rewrite <- Hshare, <- Hrest. by rewrite take_drop. }
    assert (HK : K = take n K ++ drop n K) by (by rewrite take_drop).
    assert (Hr : reached descending retrieval (key_of es i) K = reached descending retrieval (e_data e) (drop n K)).
    { rewrite Hsplit. rewrite HK at 2. apply reached_app. }
    assert (Hl : lcp (key_of es i) K = (n + lcp (e_data e) (drop n K))%nat).
    { rewrite Hsplit. rewrite HK at 2. rewrite lcp_app, length_take. lia. }
    destruct (reached descending retrieval (e_data e) (drop n K)) eqn:Hrd.
    + eexists _, _, _. split; [reflexivity|]. split; [done|]. apply bool_decide_ext.
      rewrite Hsplit. split; [by intros ->; rewrite take_drop|].
      intros H1. rewrite HK in H1 at 2. by apply app_inv_head in H1.
    + eexists _, _, _. split; [reflexivity|]. split; [done|]. rewrite (Hp' eq_refl), Hl. lia.
  - rewrite !orb_false_iff in Hb. destruct Hb as [[Hb1 Hb2] Hb3]. apply bool_decide_eq_false in Hb2.
    destruct (Hsame eq_refl Hb1 ltac:(lia) Hb3) as [Hr Hp]. by eexists _, _, _.
Qed.

(** *** [find_node_start_point] *)

(** The value begins with the first [n] bytes of a key, if [known] holds. *)
Definition value_is (known : Prop) (n : nat) (k : list Z) (value0 value : option (list Z)) : Prop :=
  match value0, value with
  | Some v0, Some v => length v = length v0 /\ (known -> take n v = take n k)
  | None, None => True
  | _, _ => False
  end.

Definition value_room (value : option (list Z)) : Prop :=
  forall v, value = Some v -> forall i, (i < length es)%nat -> (length (key_of es i) <= length v)%nat.

Lemma pick_up_spec known i e nd value0 value :
  es !! i = Some e -> node_is (page bucket) (leafPage bucket) (pos bucket es i) e nd ->
  value_room value0 ->
  value_is known (Z.to_nat (e_prefix e)) (key_of es i) value0 value ->
  exists value', pick_up bucket value nd = Ok value' /\
    value_is known (length (key_of es i)) (key_of es i) value0 value'.
Proof.
  intros He Hnd Hroom Hval. destruct value0 as [v0|], value as [v|]; try done; [|by exists None].
  destruct Hval as [Hlen Hk]. specialize (Hroom v0 eq_refl i (lookup_lt_Some _ _ _ He)).
  destruct (prefix_le es page_entries i e He) as (H0 & _ & Hple).
  destruct (key_of_shared es page_entries i e He) as [_ Hrest].
  pose proof (key_of_length es page_entries i e He) as Hkl. unfold e_length in Hkl.
  unfold pick_up. rewrite (is_length _ _ _ _ _ Hnd). case_decide as Hz.
  - unfold copy_to. rewrite <- (is_length _ _ _ _ _ Hnd), (is_data _ _ _ _ _ Hnd), (is_prefix _ _ _ _ _ Hnd).
    cbn [mbind Outcome_bind].
    destruct (mem_write_prefix v (take (Z.to_nat (e_prefix e)) v) (e_data e) (e_prefix e))
      as (v' & Hw & Ht & Hl); [rewrite length_take; lia|by rewrite length_take, Nat.min_l by lia|
                               rewrite length_take; lia|].
    rewrite Hw. cbn [access mbind Outcome_bind]. exists (Some v'). split; [done|].
    split; [lia|]. intros Hknown. rewrite Hk in Ht by done.
    rewrite <- Hrest, take_drop in Ht. rewrite Ht. by rewrite firstn_all.
  - exists (Some v). split; [done|]. split; [done|]. intros Hknown. specialize (Hk Hknown).
    unfold e_length in Hz. by replace (length (key_of es i)) with (Z.to_nat (e_prefix e)) by lia.
Qed.

Lemma value_is_next known i e value0 value :
  es !! S i = Some e ->
  value_is known (length (key_of es i)) (key_of es i) value0 value ->
  value_is known (Z.to_nat (e_prefix e)) (key_of es (S i)) value0 value.
Proof.
  intros He. destruct (prefix_le es page_entries (S i) e He) as (_ & Hp & _).
  destruct (key_of_shared es page_entries (S i) e He) as [Hsh _].
  assert (Hprev : key_after (take (S i) es) = key_of es i) by done. rewrite Hprev in *.
  destruct value0, value; try done. intros [Hl Hk]. split; [done|]. intros Hknown.
  rewrite Hsh. specialize (Hk Hknown). rewrite firstn_all in Hk. by apply take_take_prefix.
Qed.

(** What a search from the node [i] on finds. *)
Inductive found (number : RecordNumber) (known : Prop) (value0 : option (list Z)) (i : nat) (prefix : Z) :
    option (Z * Z) * option (list Z) -> Prop :=
  | found_node j e value :
      (i <= j)%nat -> es !! j = Some e ->
      e_mark e = EndLevel \/ reached descending retrieval (key_of es j) K = true ->
      (forall k, (i <= k < j)%nat -> reached descending retrieval (key_of es k) K = false) ->
      value_is known (length (key_of es j)) (key_of es j) value0 value ->
      found number known value0 i prefix
        (Some (pos bucket es j, if decide (j = i) then prefix
                                else Z.of_nat (lcp (key_after (take j es)) K)), value)
  | found_not e value :
      last es = Some e -> e_mark e = EndBucket ->
      (forall k, (i <= k < length es)%nat -> reached descending retrieval (key_of es k) K = false) ->
      found number known value0 i prefix (None, value).

Lemma mark_at i e : es !! i = Some e -> e_mark e <> NoMark -> S i = length es /\ last es = Some e.
Proof.
  intros He Hm. destruct (eo_marks _ page_entries) as (body & lst & Heq & Hb & _).
  assert (Hi : S i = length es).
  { pose proof (lookup_lt_Some _ _ _ He) as Hlt. rewrite Heq, length_app in Hlt |- *. simpl in *.
    destruct (decide (i < length body)%nat) as [Hib|]; [|lia]. rewrite Heq, lookup_app_l in He by done.
    by apply (Forall_lookup_1 _ _ _ _ Hb) in He. }
  split; [done|]. rewrite last_lookup. by replace (pred (length es)) with i by lia.
Qed.

Lemma node_loop_spec number known marker value0 : value_room value0 ->
  forall fuel i e nd prefix firstPass value,
  es !! i = Some e -> (s <= i)%nat -> (length es - i < fuel)%nat ->
  node_is (page bucket) (leafPage bucket) (pos bucket es i) e nd ->
  at_node i e prefix firstPass ->
  value_is known (Z.to_nat (e_prefix e)) (key_of es i) value0 value ->
  exists res, node_loop bucket key descending retrieval marker fuel nd (pos bucket es (S i)) prefix prefix
      firstPass value = Ok res /\ found number known value0 i prefix res.
Proof.
  intros Hroom. induction fuel as [|fuel IH]; intros i e nd prefix firstPass value He Hi Hf Hnd Hat Hval; [lia|].
  cbn [node_loop].
  destruct (pick_up_spec known i e nd value0 value He Hnd Hroom Hval) as (value' & Hpick & Hval').
  rewrite Hpick. cbn [mbind Outcome_bind].
  rewrite (is_level _ _ _ _ _ Hnd), (is_bucket _ _ _ _ _ Hnd), (is_pointer _ _ _ _ _ Hnd), (is_prefix _ _ _ _ _ Hnd).
  assert (Hhere : forall v, e_mark e = EndLevel \/ reached descending retrieval (key_of es i) K = true ->
    value_is known (length (key_of es i)) (key_of es i) value0 v ->
    found number known value0 i prefix (Some (pos bucket es i, prefix), v)).
  { intros v Hor Hv. pose proof (found_node number known value0 i prefix i e v) as Hfd.
    rewrite decide_True in Hfd by done. apply Hfd; try done. intros k Hk. lia. }
  destruct (decide (e_mark e = EndLevel)) as [Hm|Hm].
  { rewrite (bool_decide_eq_true_2 _ Hm). simpl. eexists. split; [reflexivity|]. apply Hhere; auto. }
  rewrite (bool_decide_eq_false_2 _ Hm). simpl.
  destruct (at_node_cases i e prefix firstPass He Hm Hat) as (Hshort & _).
  case_bool_decide as Hlt.
  { eexists. split; [reflexivity|]. apply Hhere; auto. }
  destruct (node_verdict i e nd prefix firstPass He Hm Hat Hnd ltac:(lia)) as (verdict & p' & first' & Hc & Hv).
  rewrite Hc. cbn [mbind Outcome_bind]. destruct verdict as [exact|].
  { destruct Hv as [Hr _]. eexists. split; [reflexivity|]. apply Hhere; auto. }
  destruct Hv as [Hr Hp'].
  assert (Hprefix' : (if decide (e_prefix e = prefix) then wrapU 16 p' else prefix) = Z.of_nat (lcp (key_of es i) K)).
  { case_decide as Hd; [by rewrite Hp', wrap_lcp|].
    destruct (at_node_cases i e prefix firstPass He Hm Hat) as (_ & Hlong & _).
    destruct (Hlong ltac:(lia)) as [_ Hp]. done. }
  rewrite Hprefix'. destruct (decide (e_mark e = EndBucket)) as [Hb|Hb].
  - rewrite (bool_decide_eq_true_2 _ Hb).
    match goal with |- context [if ?b then _ else _] => destruct b eqn:Hmk end.
    + exfalso. rewrite !andb_true_iff, !bool_decide_eq_true in Hmk. destruct Hmk as [[_ H1] H2].
      rewrite (is_length _ _ _ _ _ Hnd) in H2. pose proof (key_of_length es page_entries i e He).
      pose proof (key_bytes_length key Hkey).
      assert (key_of es i = K) as Heq.
      { pose proof (lcp_take (key_of es i) K) as Ht. rewrite !take_ge in Ht by lia. done. }
      rewrite Heq, reached_refl in Hr. done.
    + eexists. split; [reflexivity|]. destruct (mark_at i e He) as [Hlast Hl]; [by rewrite Hb|].
      apply (found_not _ _ _ _ _ e); try done. intros k Hk. by replace k with i by lia.
  - rewrite (bool_decide_eq_false_2 _ Hb).
    assert (Hn : e_mark e = NoMark) by (by destruct (e_mark e)).
    destruct (mark_last es page_entries i e He Hn) as [e' He'].
    destruct (readChecked_at order bucket es js Hrep (S i) e' nd He') as (nd' & Hread & Hnd').
    rewrite Hread. cbn [mbind Outcome_bind]. rewrite Hp'. pose proof (lookup_lt_Some _ _ _ He').
    destruct (IH (S i) e' nd' (Z.of_nat (lcp (key_of es i) K)) first' value') as (res & Hres & Hfound); try done.
    + lia.
    + lia.
    + right. by exists i.
    + by apply value_is_next.
    + exists res. split; [done|]. inversion Hfound as [j e0 v Hj Hej Hor Hbetween Hvj|e0 v Hl Hmk Hall]; subst.
      * pose proof (found_node number known value0 i prefix j e0 v ltac:(lia) Hej Hor) as Hfd.
        rewrite decide_False in Hfd by lia. case_decide as Hd.
        -- subst j. apply Hfd; [|done]. intros k Hk. by replace k with i by lia.
        -- apply Hfd; [|done]. intros k Hk. destruct (decide (k = i)) as [->|]; [done|]. apply Hbetween. lia.
      * apply (found_not _ _ _ _ _ e0); try done. intros k Hk.
        destruct (decide (k = i)) as [->|]; [done|]. apply Hall. lia.
Qed.
End Search.

(** The first entry that has a place in the order: above the leaves, the first node of a
    level is without a key, which is not the first one in descending order. *)
Definition first_index (leaf descending : bool) (es : list Entry) : nat :=
  match es with
  | e :: _ => if negb leaf && descending && bool_decide (e_length e = 0) then 1 else 0
  | [] => 0
  end.

(** What all searches of a page need: the entries from the first one on are in order, and
    those with the same key in the order of their record numbers, if the search is for one. *)
Record searchable (order : ByteOrder) (bucket : btree_page) (es : list Entry) (js : list JumpEntry)
    (key : temporary_key) (descending retrieval : bool) (number : RecordNumber) (jumpKey0 : list Z) : Prop := {
  se_rep : page_rep order bucket es js;
  se_key : key_ok key;
  se_sorted : keys_sorted descending (first_index (leafPage bucket) descending es) es;
  se_first : first_index (leafPage bucket) descending es = 1%nat ->
    exists e, es !! 0%nat = Some e /\ e_mark e = NoMark;
  se_number : rn_eq number NO_VALUE = false ->
    retrieval = false /\ numbers_sorted (first_index (leafPage bucket) descending es) es;
  se_room : forall i, (i < length es)%nat -> (length (key_of es i) <= length jumpKey0)%nat
}.

Lemma first_index_le leaf descending es : (first_index leaf descending es <= 1)%nat.
Proof. unfold first_index. destruct es; [lia|]. case_match; lia. Qed.

Section Start.
Context (order : ByteOrder) (bucket : btree_page) (es : list Entry) (js : list JumpEntry).
Context (key : temporary_key) (descending retrieval : bool) (number : RecordNumber) (jumpKey0 : list Z).
Hypothesis Hse : searchable order bucket es js key descending retrieval number jumpKey0.

Abbreviation K := (key_bytes key).
Abbreviation s := (first_index (leafPage bucket) descending es).

Lemma entry_0 : exists e, es !! 0%nat = Some e.
Proof.
  destruct (eo_marks _ (pr_entries _ _ _ _ (se_rep _ _ _ _ _ _ _ _ _ Hse))) as ([|b body] & lst & -> & _).
  - by exists lst.
  - by exists b.
Qed.

Lemma prefix_0 e : es !! 0%nat = Some e -> e_prefix e = 0.
Proof.
  intros He. by rewrite (eo_prefix _ (pr_entries _ _ _ _ (se_rep _ _ _ _ _ _ _ _ _ Hse)) 0%nat e He).
Qed.

(** An entry without a key is followed by one without a prefix. *)
Lemma prefix_1 e e' : es !! 0%nat = Some e -> e_length e = 0 -> es !! 1%nat = Some e' -> e_prefix e' = 0.
Proof.
  intros He Hl He'. pose proof (pr_entries _ _ _ _ (se_rep _ _ _ _ _ _ _ _ _ Hse)) as Hes.
  rewrite (eo_prefix _ Hes 1%nat e' He').
  pose proof (key_of_length es Hes 0%nat e He) as Hlen. rewrite Hl, (prefix_0 e He) in Hlen.
  change (key_after (take 1 es)) with (key_of es 0).
  by rewrite (nil_length_inv (key_of es 0)) by lia.
Qed.

(** Nothing is found before the place where a search begins. *)
Lemma start_before t prefix k e' :
  start_ok es descending retrieval K number t prefix -> (s <= k < t)%nat -> es !! k = Some e' ->
  reached descending retrieval (key_of es k) K = false \/
  (rn_eq number NO_VALUE = false /\ key_of es k = K /\ e_number e' < rn_value number).
Proof.
  intros Hst Hk He'. pose proof (se_sorted _ _ _ _ _ _ _ _ _ Hse) as Hsorted.
  inversion Hst as [|t0 e He Hm Ht Hr|t0 e He Hm Ht HK Hno Hlt]; subst; [lia| |].
  - left. destruct (reached descending retrieval (key_of es k) K) eqn:Hrk; [|done].
    pose proof (Hsorted k t e ltac:(lia) He ltac:(by rewrite Hm)) as Hle.
    by rewrite (reached_mono _ _ _ _ _ Hrk Hle) in Hr.
  - destruct (se_number _ _ _ _ _ _ _ _ _ Hse Hno) as [-> Hnum].
    destruct (reached descending false (key_of es k) K) eqn:Hrk; [right|by left].
    pose proof (Hsorted k t e ltac:(lia) He ltac:(by rewrite Hm)) as Hle. rewrite HK in Hle.
    assert (Heq : key_of es k = K) by (by apply (reached_antisym descending)).
    split_and!; try done.
    pose proof (Hnum k t e' e ltac:(lia) He' He Hm ltac:(by rewrite Heq, HK)). lia.
Qed.

(** The known part of the key at the place where a search begins *)
Lemma start_at_node t prefix e :
  start_ok es descending retrieval K number t prefix -> es !! t = Some e ->
  at_node es key descending retrieval s t e prefix true.
Proof.
  intros Hst He. left. split; [done|]. pose proof (pr_entries _ _ _ _ (se_rep _ _ _ _ _ _ _ _ _ Hse)) as Hes.
  inversion Hst as [|t0 e0 He0 Hm Ht Hr|t0 e0 He0 Hm Ht HK Hno Hlt]; subst; simplify_eq.
  - unfold jump_key. rewrite (prefix_0 e He). split; [done|lia].
  - split; [done|]. by intros _.
  - destruct (prefix_le es Hes t e He) as (H0 & _ & Hple). split; [|lia].
    unfold jump_key. rewrite lcp_take_l, <- HK, lcp_refl. lia.
Qed.

(** The prefix found there *)
Lemma start_prefix t prefix e :
  start_ok es descending retrieval K number t prefix -> es !! t = Some e ->
  reached descending retrieval (key_of es t) K = true \/ t = 0%nat ->
  prefix = Z.of_nat (lcp (key_after (take t es)) K).
Proof.
  intros Hst He Hor. pose proof (pr_entries _ _ _ _ (se_rep _ _ _ _ _ _ _ _ _ Hse)) as Hes.
  inversion Hst as [|t0 e0 He0 Hm Ht Hr|t0 e0 He0 Hm Ht HK Hno Hlt]; subst; simplify_eq.
  - done.
  - destruct Hor as [Hor|]; [congruence|lia].
  - by rewrite (eo_prefix _ Hes t e He), <- HK.
Qed.
End Start.

(** The node that a search returns: the first one that is not before the key, or one with
    the key behind lower record numbers only. *)
Definition search_result (bucket : btree_page) (es : list Entry) (key : temporary_key)
    (descending retrieval : bool) (number : RecordNumber) (s j : nat) : Prop :=
  exists e, es !! j = Some e /\ (s <= j)%nat /\
    (e_mark e = EndLevel \/ reached descending retrieval (key_of es j) (key_bytes key) = true) /\
    (forall k e', (s <= k < j)%nat -> es !! k = Some e' ->
       reached descending retrieval (key_of es k) (key_bytes key) = false \/
       (rn_eq number NO_VALUE = false /\ key_of es k = key_bytes key /\ e_number e' < rn_value number)).

Lemma found_start order bucket es js key descending retrieval number jumpKey0 t prefix i known value0 res :
  searchable order bucket es js key descending retrieval number jumpKey0 ->
  start_ok es descending retrieval (key_bytes key) number t prefix ->
  i = t \/ (t = 0%nat /\ i = 1%nat /\ first_index (leafPage bucket) descending es = 1%nat) ->
  (first_index (leafPage bucket) descending es <= i)%nat ->
  found bucket es key descending retrieval number known value0 i prefix res ->
  match res with
  | (Some (p, prefix'), value) => exists j,
      search_result bucket es key descending retrieval number (first_index (leafPage bucket) descending es) j /\
      p = pos bucket es j /\ prefix' = Z.of_nat (lcp (key_after (take j es)) (key_bytes key)) /\
      value_is known (length (key_of es j)) (key_of es j) value0 value
  | (None, value) => exists e, last es = Some e /\ e_mark e = EndBucket /\
      forall k, (first_index (leafPage bucket) descending es <= k < length es)%nat ->
        reached descending retrieval (key_of es k) (key_bytes key) = false
  end.
Proof.
  intros Hse Hst Hi Hsi Hf. set (s := first_index (leafPage bucket) descending es) in *.
  assert (Hbefore : forall k e', (s <= k < i)%nat -> es !! k = Some e' ->
    reached descending retrieval (key_of es k) (key_bytes key) = false \/
    (rn_eq number NO_VALUE = false /\ key_of es k = key_bytes key /\ e_number e' < rn_value number)).
  { intros k e' Hk. destruct Hi as [->|(_ & -> & Hs1)]; [|lia].
    by apply (start_before order bucket es js key descending retrieval number jumpKey0 Hse t prefix). }
  inversion Hf as [j e value Hj He Hor Hbetween Hval|e value Hl Hm Hall]; subst res.
  - exists j. split_and!; try done.
    + exists e. split_and!; try done; [lia|]. intros k e' Hk He'.
      destruct (decide (k < i)%nat); [apply Hbefore; [lia|done]|left; apply Hbetween; lia].
    + case_decide as Hd; [|done]. subst j. destruct Hi as [->|(-> & -> & Hs1)].
      * apply (start_prefix order bucket es js key descending retrieval number jumpKey0 Hse t prefix e); try done.
        destruct Hor as [Hend|Hr]; [right|by left].
        inversion Hst as [|t0 e0 He0 Hm|t0 e0 He0 Hm]; [done| |]; simplify_eq; congruence.
      * inversion Hst; subst; try lia.
        destruct (entry_0 order bucket es js key descending retrieval number jumpKey0 Hse) as [e0 He0].
        assert (Hl0 : e_length e0 = 0).
        { unfold s, first_index in Hs1. destruct es as [|x l]; [done|]. simpl in He0. simplify_eq.
          destruct (negb (leafPage bucket) && descending && bool_decide (e_length e0 = 0)) eqn:Hb; [|done].
          apply andb_true_iff in Hb as [_ Hb]. by apply bool_decide_eq_true in Hb. }
        pose proof (key_of_length es (pr_entries _ _ _ _ (se_rep _ _ _ _ _ _ _ _ _ Hse)) 0%nat e0 He0) as Hkl.
        rewrite Hl0, (prefix_0 order bucket es js key descending retrieval number jumpKey0 Hse e0 He0) in Hkl.
        change (key_after (take 1 es)) with (key_of es 0).
        by rewrite (nil_length_inv (key_of es 0)) by lia.
  - exists e. split_and!; try done. intros k Hk. destruct (decide (k < i)%nat); [|apply Hall; lia].
    destruct (lookup_lt_is_Some_2 es k) as [e' He']; [lia|].
    destruct (Hbefore k e' ltac:(lia) He') as [|(_ & HK & _)]; [done|]. exfalso.
    destruct Hi as [->|(_ & -> & Hs1)]; [|lia].
    assert (Ht : exists e0, es !! t = Some e0 /\ e_mark e0 = NoMark)
      by (inversion Hst; subst; [lia|by eexists|by eexists]).
    destruct Ht as (e0 & He0 & Hm0). pose proof (lookup_lt_Some _ _ _ He0).
    pose proof (se_sorted _ _ _ _ _ _ _ _ _ Hse k t e0 ltac:(fold s; lia) He0 ltac:(by rewrite Hm0)) as Hle.
    pose proof (reached_refl descending retrieval (key_of es k)) as Hrf. rewrite HK in Hrf at 2.
    pose proof (reached_mono _ _ _ _ _ Hrf Hle) as Hr2. rewrite (Hall t ltac:(lia)) in Hr2. done.
Qed.

(** The known part of the value at the place where a search begins *)
Lemma start_value order bucket es js key descending retrieval number jumpKey0 t t2 prefix e value value1 :
  searchable order bucket es js key descending retrieval number jumpKey0 ->
  start_ok es descending retrieval (key_bytes key) number t prefix -> es !! t = Some e ->
  value_known es t2 value value1 -> (rn_eq number NO_VALUE = true -> t2 = t) ->
  value_is (rn_eq number NO_VALUE = true) (Z.to_nat (e_prefix e)) (key_of es t) value value1.
Proof.
  intros Hse Hst He Hval Ht2. unfold value_is, value_known in *.
  destruct value as [v0|], value1 as [v1|]; try done.
  destruct Hval as [Hl Hv]. split; [done|]. intros Hk. rewrite (Ht2 Hk) in Hv.
  destruct (decide (t = 0%nat)) as [Hz|Hz].
  - subst t. by rewrite (prefix_0 _ _ _ _ _ _ _ _ _ Hse e He).
  - destruct (Hv Hz) as (e0 & He0 & Ht0). simplify_eq. unfold jump_key in Ht0.
    rewrite length_take in Ht0.
    destruct (prefix_le es (pr_entries _ _ _ _ (se_rep _ _ _ _ _ _ _ _ _ Hse)) t e He) as (_ & _ & Hple).
    by rewrite Nat.min_l in Ht0 by lia.
Qed.

(** The node without a key in the beginning of a level is skipped in descending order. *)
Lemma skip_first order bucket es js key descending retrieval number jumpKey0 t prefix e nd known value value1 :
  searchable order bucket es js key descending retrieval number jumpKey0 ->
  start_ok es descending retrieval (key_bytes key) number t prefix -> es !! t = Some e ->
  node_is (page bucket) (leafPage bucket) (pos bucket es t) e nd ->
  value_is known (Z.to_nat (e_prefix e)) (key_of es t) value value1 ->
  let s := first_index (leafPage bucket) descending es in
  exists i nd' e',
    (if negb (leafPage bucket) && descending && bool_decide (in_nodePointer nd = first_node bucket)
        && bool_decide (in_length nd = 0)
     then readChecked bucket nd (pos bucket es (S t)) else Ok (nd, pos bucket es (S t))) = Ok (nd', pos bucket es (S i)) /\
    (i = t \/ (t = 0%nat /\ i = 1%nat /\ s = 1%nat)) /\ (s <= i)%nat /\ es !! i = Some e' /\
    node_is (page bucket) (leafPage bucket) (pos bucket es i) e' nd' /\
    at_node es key descending retrieval s i e' prefix true /\
    value_is known (Z.to_nat (e_prefix e')) (key_of es i) value value1.
Proof.
  intros Hse Hst He Hnd Hval s. pose proof (se_rep _ _ _ _ _ _ _ _ _ Hse) as Hrep.
  pose proof (first_index_le (leafPage bucket) descending es) as Hs1. fold s in Hs1.
  rewrite (is_pointer _ _ _ _ _ Hnd), (is_length _ _ _ _ _ Hnd).
  pose proof (start_at_node _ _ _ _ _ _ _ _ _ Hse t prefix e Hst He) as Hat. fold s in Hat.
  destruct (decide (t = 0%nat)) as [Hz|Hz].
  - subst t. rewrite pos_0, (bool_decide_eq_true_2 (first_node bucket = _)), andb_true_r by done.
    assert (Hfi : s = if negb (leafPage bucket) && descending && bool_decide (e_length e = 0) then 1%nat else 0%nat).
    { unfold s. destruct es as [|x l]; simpl in He; [done|]. by simplify_eq. }
    destruct (negb (leafPage bucket) && descending && bool_decide (e_length e = 0)) eqn:Hb.
    + destruct (se_first _ _ _ _ _ _ _ _ _ Hse Hfi) as (e0 & He0 & Hm0). simplify_eq.
      destruct (mark_last es (pr_entries _ _ _ _ Hrep) 0%nat e He Hm0) as [e' He'].
      destruct (readChecked_at order bucket es js Hrep 1%nat e' nd He') as (nd' & Hread' & Hnd').
      apply andb_true_iff in Hb as [Hb Hl0]. apply bool_decide_eq_true in Hl0.
      pose proof (prefix_1 _ _ _ _ _ _ _ _ _ Hse e e' He Hl0 He') as Hp1.
      assert (prefix = 0) as -> by (inversion Hst; lia || done).
      exists 1%nat, nd', e'. split; [done|]. split; [right; done|]. split; [lia|].
      split; [done|]. split; [done|]. rewrite Hp1. split.
      * left. unfold jump_key. rewrite Hp1. split_and!; done.
      * destruct value, value1; try done. by destruct Hval.
    + exists 0%nat, nd, e. split; [done|]. split; [by left|]. split; [lia|]. by split_and!.
  - assert (Hne : pos bucket es t <> first_node bucket).
    { rewrite <- (pos_0 bucket es). apply lookup_lt_Some in He. intros Heq.
      apply (pos_inj order bucket es js Hrep) in Heq; lia. }
    rewrite (bool_decide_eq_false_2 _ Hne), andb_false_r.
    exists t, nd, e. split; [done|]. split; [by left|]. split; [lia|]. by split_and!.
Qed.

(** C17. On a well-formed page of an ascending or descending index, with or without jump
    nodes, [find_node_start_point] returns the first node that is not before the key, with
    the length of the prefix that the key shares with the node before and with the key of
    the node in the value; if it is given a record number, nodes with the key and lower
    record numbers may be passed. If all nodes are before the key, the answer is that of a
    key for another page. It never ends in another way. *)
Theorem find_node_correct order bucket es js key descending retrieval number marker jumpKey0 value :
  searchable order bucket es js key descending retrieval number jumpKey0 ->
  value_room es value ->
  exists res value', find_node_start_point order bucket key descending retrieval number jumpKey0 marker value =
      Ok (res, value') /\
    match res with
    | Some (p, prefix) => exists j,
        search_result bucket es key descending retrieval number (first_index (leafPage bucket) descending es) j /\
        p = pos bucket es j /\ prefix = Z.of_nat (lcp (key_after (take j es)) (key_bytes key)) /\
        (rn_eq number NO_VALUE = true -> forall v, value = Some v ->
           exists v', value' = Some v' /\ take (length (key_of es j)) v' = key_of es j)
    | None => exists e, last es = Some e /\ e_mark e = EndBucket /\
        forall k, (first_index (leafPage bucket) descending es <= k < length es)%nat ->
          reached descending retrieval (key_of es k) (key_bytes key) = false
    end.
Proof.
  intros Hse Hroom. pose proof (se_rep _ _ _ _ _ _ _ _ _ Hse) as Hrep.
  pose proof (se_key _ _ _ _ _ _ _ _ _ Hse) as Hkey. pose proof (se_sorted _ _ _ _ _ _ _ _ _ Hse) as Hsorted.
  pose proof (first_index_le (leafPage bucket) descending es) as Hs1.
  pose proof (entries_count order bucket es js Hrep) as Hfuel.
  unfold find_node_start_point.
  destruct (find_area_spec order bucket es js key descending retrieval number _ Hrep Hkey Hsorted Hs1 jumpKey0
    (se_room _ _ _ _ _ _ _ _ _ Hse) value Hroom) as (prefix & value1 & t & Harea & Hst & t2 & Hval & Ht2).
  rewrite Harea. cbn [mbind Outcome_bind].
  assert (Ht : exists e, es !! t = Some e).
  { inversion Hst; subst; [by eapply entry_0|by eexists|by eexists]. }
  destruct Ht as [e He]. pose proof (lookup_lt_Some _ _ _ He) as Hlt.
  destruct (readChecked_at order bucket es js Hrep t e IndexNode_new He) as (nd & Hread & Hnd).
  rewrite Hread. cbn [mbind Outcome_bind].
  pose proof (start_value _ _ _ _ _ _ _ _ _ _ _ _ _ _ _ Hse Hst He Hval Ht2) as Hval0.
  destruct (skip_first _ _ _ _ _ _ _ _ _ _ _ _ _ _ _ _ Hse Hst He Hnd Hval0)
    as (i & nd' & e' & Hskip & Hi & Hsi & He' & Hnd' & Hat & Hval1).
  rewrite Hskip. cbn [mbind Outcome_bind]. pose proof (lookup_lt_Some _ _ _ He').
  destruct (node_loop_spec order bucket es js key descending retrieval _ Hrep Hkey Hsorted number _ marker value Hroom
    (S (length (page bucket))) i e' nd' prefix true value1 He' Hsi ltac:(lia) Hnd' Hat Hval1) as (res & Hloop & Hfound).
  rewrite Hloop. destruct res as [res value']. exists res, value'. split; [done|].
  pose proof (found_start _ _ _ _ _ _ _ _ _ _ _ _ _ _ _ Hse Hst Hi Hsi Hfound) as Hres.
  destruct res as [[p prefix']|]; [|done]. destruct Hres as (j & Hsr & Hp & Hpre & Hvj).
  exists j. split_and!; try done. intros Hk v ->. destruct value' as [v'|]; [|done].
  destruct Hvj as [_ Hvj]. exists v'. split; [done|]. rewrite (Hvj Hk). apply firstn_all.
Qed.

(** *** An example *)

Definition ex_entries : list Entry :=
  [ {| e_prefix := 0; e_data := [97; 98]; e_number := 5; e_page := 0; e_mark := NoMark |};
    {| e_prefix := 2; e_data := [99]; e_number := 7; e_page := 0; e_mark := NoMark |};
    {| e_prefix := 3; e_data := []; e_number := 9; e_page := 0; e_mark := NoMark |};
    {| e_prefix := 0; e_data := []; e_number := 0; e_page := 0; e_mark := EndLevel |} ].

Definition ex_jumps : list JumpEntry := [ {| j_prefix := 0; j_data := [97; 98]; j_offset := 51 |} ].

Definition ex_page : btree_page :=
  let nodes := mjoin (jump_encode LittleEndian <$> ex_jumps) ++ entries_bytes true ex_entries in
  {| btr_prefix_total := 5; btr_length := 39 + Z.of_nat (length nodes); btr_level := 0;
     btr_jump_interval := 4; btr_jump_size := 6; btr_jump_count := 1;
     btr_bytes := replicate 39 0 ++ nodes |}.

Definition ex_key : temporary_key := {| key_length := 3; key_data := [97; 98; 99]; key_nulls := 0 |}.

(** [each_entry] looks at every entry of a concrete page. *)
Ltac each_entry i := destruct i as [|[|[|[|i]]]]; simpl in *; simplify_eq; try done; try lia.

Lemma ex_rep : page_rep LittleEndian ex_page ex_entries ex_jumps.
Proof.
  split; try reflexivity.
  - split.
    + repeat constructor; vm_compute; try done; intros; discriminate.
    + intros i e He. each_entry i.
    + exists (take 3 ex_entries), {| e_prefix := 0; e_data := []; e_number := 0; e_page := 0; e_mark := EndLevel |}.
      split; [done|]. split; [repeat constructor|done].
  - apply (jumps_cons _ _ 0 [] 1 {| e_prefix := 2; e_data := [99]; e_number := 7; e_page := 0; e_mark := NoMark |});
      [lia|done|done|by vm_compute|done|done|done|constructor].
Qed.

Lemma ex_searchable descending number jumpKey0 :
  descending = false -> (3 <= length jumpKey0)%nat ->
  searchable LittleEndian ex_page ex_entries ex_jumps ex_key descending false number jumpKey0.
Proof.
  intros -> Hroom. split.
  - apply ex_rep.
  - vm_compute. repeat split; discriminate.
  - intros i j e Hij He Hm. each_entry j; each_entry i.
  - discriminate.
  - intros _. split; [done|]. intros i j e e' Hij He He' Hm Hk. each_entry j; each_entry i.
  - intros i Hi. each_entry i.
Qed.

Lemma find_node_correct_witness :
  exists res value', find_node_start_point LittleEndian ex_page ex_key false false NO_VALUE [0; 0; 0] false
    (Some [0; 0; 0]) = Ok (res, value') /\ res = Some (51, 2) /\ value' = Some [97; 98; 99].
Proof.
  destruct (find_node_correct LittleEndian ex_page ex_entries ex_jumps ex_key false false NO_VALUE false [0; 0; 0]
    (Some [0; 0; 0])) as (res & value' & Heq & _).
  - apply ex_searchable; [reflexivity|simpl; lia].
  - intros v [= <-] i Hi. each_entry i.
  - exists res, value'. split; [exact Heq|]. vm_compute in Heq. by simplify_eq.
Defined.
