(* ===== verification/BtrChild.v ===== *)
(** * Searching an index page above the leaves: the theorem about [find_page]

    The child for a key and a record number is that of the last entry before them. *)

From S2P Require Import Prelude Memory Outcome RecordNumber Btn BtnNode BtnJump BtrFind BtrKeys.
From S2P Require Import BtrPage BtrArea BtrSearch.

Lemma wrap_page n : 0 <= n < 2 ^ 32 -> wrapU 32 (wrapS 32 n) = n.
Proof.
  intros Hn. unfold wrapU, wrapS. change (2 ^ (32 - 1)) with 2147483648.
  change (2 ^ 32) with 4294967296 in *. rewrite Zminus_mod_idemp_l.
  rewrite Z.mod_small; lia.
Qed.

Section Child.
Context (order : ByteOrder) (bucket : btree_page) (es : list Entry) (js : list JumpEntry).
Context (key : temporary_key) (descending retrieval : bool) (number : RecordNumber) (jumpKey0 : list Z).
Hypothesis Hse : searchable order bucket es js key descending retrieval number jumpKey0.
Hypothesis Hinner : leafPage bucket = false.

Abbreviation K := (key_bytes key).
Abbreviation s := (first_index (leafPage bucket) descending es).

Lemma child_rep : page_rep order bucket es js.
Proof. exact (se_rep _ _ _ _ _ _ _ _ _ Hse). Qed.

(** The child page of the entry [k] *)
Definition child (k : nat) : Z := from_option e_page 0 (es !! k).

Lemma child_range k : 0 <= child k < 2 ^ 32.
Proof.
  unfold child. destruct (es !! k) as [e|] eqn:He; simpl; [|lia].
  destruct (entry_at es (pr_entries _ _ _ _ child_rep) k e He) as (_ & _ & _ & Hp & _). done.
Qed.

Lemma node_child k e nd :
  es !! k = Some e -> node_is (page bucket) (leafPage bucket) (pos bucket es k) e nd ->
  in_pageNumber nd = child k.
Proof. intros He Hnd. unfold child. rewrite He. simpl. apply Hnd. done. Qed.

(** *** Duplicates *)

(** The next entry has the same key if and only if it has nothing but its prefix. *)
Lemma same_key_iff k e e' :
  es !! k = Some e -> es !! S k = Some e' ->
  (e_length e' = 0 /\ e_prefix e' = e_length e + e_prefix e) <-> key_of es (S k) = key_of es k.
Proof.
  intros He He'. pose proof (pr_entries _ _ _ _ child_rep) as Hes.
  pose proof (key_of_length es Hes k e He) as Hl. pose proof (key_of_length es Hes (S k) e' He') as Hl'.
  destruct (key_of_shared es Hes (S k) e' He') as [Hsh _].
  assert (Hprev : key_after (take (S k) es) = key_of es k) by done. rewrite Hprev in Hsh. split.
  - intros [Hz Hp]. rewrite !take_ge in Hsh by lia. done.
  - intros Heq. pose proof (eo_prefix _ Hes _ _ He') as Hpre. rewrite Hprev, Heq, lcp_refl in Hpre.
    rewrite Heq in Hl'. lia.
Qed.

(** From an entry [j] with the key on, [m] is the first that does not have the key, or not
    a lower record number, or is a mark. *)
Definition duplicates_to (j m : nat) : Prop :=
  (j <= m)%nat /\
  (forall k e, (j <= k < m)%nat -> es !! k = Some e ->
     e_mark e = NoMark /\ key_of es k = K /\ e_number e < rn_value number) /\
  exists e, es !! m = Some e /\
    (e_mark e <> NoMark \/ key_of es m <> K \/ rn_value number <= e_number e).

Lemma duplicates_loop_spec : forall fuel j e nd pv,
  es !! j = Some e -> (length es - j < fuel)%nat -> e_mark e <> EndLevel -> key_of es j = K ->
  node_is (page bucket) (leafPage bucket) (pos bucket es j) e nd ->
  exists m r, duplicates_loop (page bucket) (leafPage bucket) (rn_value number) fuel nd (pos bucket es (S j)) pv = Ok r /\
    duplicates_to j m /\ r = if decide (m = j) then pv else wrapS 32 (child (pred m)).
Proof.
  induction fuel as [|fuel IH]; intros j e nd pv He Hf Hm HK Hnd; [lia|]. cbn [duplicates_loop].
  rewrite (is_bucket _ _ _ _ _ Hnd), (is_number _ _ _ _ _ Hnd).
  assert (Hhere : e_mark e <> NoMark \/ key_of es j <> K \/ rn_value number <= e_number e ->
    exists m r, Ok pv = Ok r /\ duplicates_to j m /\ r = if decide (m = j) then pv else wrapS 32 (child (pred m))).
  { intros Hor. exists j, pv. rewrite decide_True by done. split; [done|]. split; [|done].
    split; [lia|]. split; [intros k e' Hk; lia|]. by exists e. }
  case_bool_decide as Hb; [apply Hhere; left; congruence|].
  assert (Hno : e_mark e = NoMark) by (by destruct (e_mark e)).
  case_decide as Hn; [apply Hhere; by right; right|].
  destruct (mark_last es (pr_entries _ _ _ _ child_rep) j e He Hno) as [e' He'].
  destruct (readNode_at order bucket es js child_rep (S j) e' nd He') as (nd' & Hread & Hnd').
  rewrite Hread. cbn [mbind Outcome_bind]. rewrite (node_child j e nd He Hnd).
  rewrite (is_level _ _ _ _ _ Hnd'), (is_length _ _ _ _ _ Hnd'), (is_prefix _ _ _ _ _ Hnd').
  rewrite (is_length _ _ _ _ _ Hnd), (is_prefix _ _ _ _ _ Hnd).
  pose proof (same_key_iff j e e' He He') as Hsame.
  assert (Hstep : forall m, duplicates_to (S j) m -> duplicates_to j m).
  { intros m (Hjm & Hall & Hend). split; [lia|]. split; [|done].
    intros k e0 Hk He0. destruct (decide (k = j)) as [->|]; [|apply Hall; [lia|done]].
    simplify_eq. split_and!; try done. lia. }
  match goal with |- context [if ?b then _ else _] => destruct b eqn:Hcond end.
  - exists (S j), (wrapS 32 (child j)). rewrite (decide_False (P := S j = j)) by lia. split; [done|]. split; [|done].
    apply Hstep. split; [lia|]. split; [intros k e0 Hk; lia|]. exists e'. split; [done|].
    rewrite !orb_true_iff, !bool_decide_eq_true in Hcond.
    destruct (decide (e_mark e' = EndLevel)) as [Hl|Hl]; [left; congruence|]. right. left.
    rewrite <- HK. intros Heq. apply Hsame in Heq. destruct Hcond as [[?|?]|?]; [done|lia|lia].
  - rewrite !orb_false_iff, !bool_decide_eq_false in Hcond. destruct Hcond as [[Hl H1] H2].
    assert (HK' : key_of es (S j) = K).
    { rewrite <- HK. apply Hsame. split; [|]; apply dec_stable; done. }
    pose proof (lookup_lt_Some _ _ _ He').
    destruct (IH (S j) e' nd' (wrapS 32 (child j)) He' ltac:(lia) Hl HK' Hnd') as (m & r & Hr & Hto & ->).
    exists m. eexists. split; [exact Hr|]. split; [by apply Hstep|]. pose proof (proj1 Hto).
    rewrite (decide_False (P := m = j)) by lia. case_decide as Hd; [by subst m|done].
Qed.

Lemma findPageInDuplicates_spec j e pv :
  es !! j = Some e -> e_mark e <> EndLevel -> key_of es j = K -> 0 <= pv < 2 ^ 32 ->
  exists m r, findPageInDuplicates (page bucket) (leafPage bucket) (rn_value number) (pos bucket es j) (wrapS 32 pv) = Ok r /\
    duplicates_to j m /\ wrapU 32 r = if decide (m = j) then pv else child (pred m).
Proof.
  intros He Hm HK Hpv. unfold findPageInDuplicates.
  destruct (readNode_at order bucket es js child_rep j e IndexNode_new He) as (nd & Hread & Hnd).
  rewrite Hread. cbn [mbind Outcome_bind]. pose proof (entries_count order bucket es js child_rep).
  destruct (duplicates_loop_spec (S (length (page bucket))) j e nd (wrapS 32 pv) He ltac:(lia) Hm HK Hnd)
    as (m & r & Hr & Hto & ->).
  exists m. eexists. split; [exact Hr|]. split; [done|].
  case_decide; [by apply wrap_page|]. apply wrap_page, child_range.
Qed.

(** *** [find_page] *)

(** The entry [k] is before the key, or has the key and a lower record number. *)
Definition before (e : Entry) (k : nat) : Prop :=
  (e_mark e <> EndLevel /\ reached descending retrieval (key_of es k) K = false) \/
  (rn_eq number NO_VALUE = false /\ e_mark e = NoMark /\ key_of es k = K /\ e_number e < rn_value number).

(** From [i] on, [m] is the first that is not before the key. *)
Definition last_before (i m : nat) : Prop :=
  (i <= m <= length es)%nat /\
  (forall k e, (i <= k < m)%nat -> es !! k = Some e -> before e k) /\
  (forall e, es !! m = Some e -> ~ before e m).

Lemma at_node_short_ne i e prefix firstPass :
  es !! i = Some e -> at_node es key descending retrieval s i e prefix firstPass ->
  e_prefix e < prefix -> key_of es i <> K.
Proof.
  intros He [(_ & -> & _)|(i' & -> & _ & _ & ->)] Hlt Heq.
  - unfold jump_key in Hlt. rewrite lcp_take_l in Hlt.
    destruct (prefix_le es (pr_entries _ _ _ _ child_rep) i e He). lia.
  - rewrite (eo_prefix _ (pr_entries _ _ _ _ child_rep) _ _ He), Heq in Hlt.
    change (key_after (take (S i') es)) with (key_of es i') in Hlt. lia.
Qed.

Lemma last_before_here i e :
  es !! i = Some e -> ~ before e i -> last_before i i.
Proof.
  intros He Hn. pose proof (lookup_lt_Some _ _ _ He). split; [lia|]. split; [intros; lia|].
  intros e' He'. by simplify_eq.
Qed.

Lemma last_before_next i e m : es !! i = Some e -> before e i -> last_before (S i) m -> last_before i m.
Proof.
  intros He Hb (Hm & Hall & Hend). split; [lia|]. split; [|done].
  intros k e' Hk He'. destruct (decide (k = i)) as [->|]; [by simplify_eq|]. apply Hall; [lia|done].
Qed.

Lemma duplicates_last_before i e m :
  es !! i = Some e -> (s <= i)%nat -> reached descending retrieval (key_of es i) K = true ->
  rn_eq number NO_VALUE = false -> duplicates_to i m -> last_before i m.
Proof.
  intros He Hi Hr Hno (Him & Hall & e' & He' & Hend). pose proof (lookup_lt_Some _ _ _ He').
  split; [lia|]. split.
  - intros k e0 Hk He0. destruct (Hall k e0 Hk He0) as (? & ? & ?). right. by split_and!.
  - intros e0 He0 Hb. rewrite He' in He0. injection He0 as <-. destruct Hb as [[Hm Hf]|(_ & Hm & HK & Hlt)].
    + pose proof (se_sorted _ _ _ _ _ _ _ _ _ Hse i m e' ltac:(lia) He' Hm) as Hle.
      by rewrite (reached_mono _ _ _ _ _ Hr Hle) in Hf.
    + destruct Hend as [?|[?|?]]; [done|done|lia].
Qed.

Lemma page_loop_spec : forall fuel i e nd prefix firstPass pv,
  es !! i = Some e -> (s <= i)%nat -> (length es - i < fuel)%nat -> 0 <= pv < 2 ^ 32 ->
  node_is (page bucket) (leafPage bucket) (pos bucket es i) e nd ->
  at_node es key descending retrieval s i e prefix firstPass ->
  exists m, page_loop bucket key descending retrieval number fuel nd (pos bucket es (S i)) prefix prefix firstPass pv =
      Ok (if decide (m = i) then pv else child (pred m)) /\ last_before i m.
Proof.
  induction fuel as [|fuel IH]; intros i e nd prefix firstPass pv He Hi Hf Hpv Hnd Hat; [lia|].
  pose proof (se_key _ _ _ _ _ _ _ _ _ Hse) as Hkey. pose proof (se_sorted _ _ _ _ _ _ _ _ _ Hse) as Hsorted.
  cbn [page_loop]. rewrite (is_level _ _ _ _ _ Hnd), (is_bucket _ _ _ _ _ Hnd), (is_prefix _ _ _ _ _ Hnd),
    (is_pointer _ _ _ _ _ Hnd), (node_child i e nd He Hnd).
  assert (Hhere : ~ before e i -> exists m,
    Ok pv = Ok (if decide (m = i) then pv else child (pred m)) /\ last_before i m).
  { intros Hn. exists i. rewrite decide_True by done. split; [done|]. by apply (last_before_here i e). }
  destruct (decide (e_mark e = EndLevel)) as [Hm|Hm].
  { rewrite (bool_decide_eq_true_2 _ Hm). simpl. apply Hhere. intros [[? _]|(_ & ? & _)]; congruence. }
  rewrite (bool_decide_eq_false_2 _ Hm). simpl.
  destruct (at_node_cases order bucket es js key descending retrieval s child_rep Hkey Hsorted i e prefix
    firstPass He Hm Hat) as (Hshort & _).
  case_bool_decide as Hlt.
  { apply Hhere. pose proof (at_node_short_ne i e prefix firstPass He Hat Hlt).
    intros [[_ ?]|(_ & _ & ? & _)]; [|done]. rewrite (Hshort Hlt) in *. done. }
  destruct (node_verdict order bucket es js key descending retrieval s child_rep Hkey Hsorted i e nd prefix
    firstPass He Hm Hat Hnd ltac:(lia)) as (verdict & p' & first' & Hc & Hv).
  rewrite Hc. cbn [mbind Outcome_bind]. destruct verdict as [exact|].
  - destruct Hv as [Hr ->]. destruct (bool_decide (key_of es i = K) && negb (rn_eq number NO_VALUE)) eqn:Hex.
    + apply andb_true_iff in Hex as [HK%bool_decide_eq_true Hno%negb_true_iff].
      destruct (findPageInDuplicates_spec i e pv He Hm HK Hpv) as (m & r & Hd & Hto & Hres).
      rewrite Hd. cbn [mbind Outcome_bind]. exists m. rewrite Hres. split; [done|].
      by apply (duplicates_last_before i e).
    + apply Hhere. intros [[_ ?]|(Hno & _ & HK & _)]; [congruence|].
      rewrite Hno, (bool_decide_eq_true_2 _ HK) in Hex. done.
  - destruct Hv as [Hr Hp']. assert (Hb : before e i) by (by left).
    rewrite Hp', (wrap_lcp es key Hkey). pose proof (lookup_lt_Some _ _ _ He).
    destruct (decide (e_mark e = EndBucket)) as [Hbk|Hbk].
    + rewrite (bool_decide_eq_true_2 _ Hbk). exists (S i). rewrite decide_False by lia. split; [done|].
      destruct (mark_at order bucket es js child_rep i e He) as [Hlast _]; [congruence|].
      apply (last_before_next i e); try done. split; [lia|]. split; [intros; lia|].
      intros e' He'. apply lookup_lt_Some in He'. lia.
    + rewrite (bool_decide_eq_false_2 _ Hbk).
      assert (Hn : e_mark e = NoMark) by (by destruct (e_mark e)).
      destruct (mark_last es (pr_entries _ _ _ _ child_rep) i e He Hn) as [e' He'].
      destruct (readChecked_at order bucket es js child_rep (S i) e' nd He') as (nd' & Hread & Hnd').
      rewrite Hread. cbn [mbind Outcome_bind]. pose proof (lookup_lt_Some _ _ _ He').
      destruct (IH (S i) e' nd' (Z.of_nat (lcp (key_of es i) K)) first' (child i) He') as (m & Hres & Hlb);
        [lia|lia|apply child_range|done|right; by exists i|].
      exists m. rewrite Hres. split; [|by apply (last_before_next i e)]. destruct Hlb as [Hm2 _].
      rewrite (decide_False (P := m = i)) by lia. case_decide as Hd; [by subst m|done].
Qed.
End Child.

(** The entries that [find_page] considers begin behind the node without a key that every
    level begins with. *)
Definition child_from (es : list Entry) : nat :=
  match es with e :: _ => if decide (e_length e = 0) then 1 else 0 | [] => 0 end.

Lemma pred_child_from es : pred (child_from es) = 0%nat.
Proof. unfold child_from. destruct es; [done|]. by case_decide. Qed.

Lemma first_index_child bucket descending es :
  leafPage bucket = false -> (first_index (leafPage bucket) descending es <= child_from es)%nat.
Proof.
  intros ->. unfold first_index, child_from. destruct es; [lia|].
  case_decide; [case_match; lia|]. by rewrite bool_decide_eq_false_2, andb_false_r.
Qed.

Section Start.
Context (order : ByteOrder) (bucket : btree_page) (es : list Entry) (js : list JumpEntry).
Context (key : temporary_key) (descending retrieval : bool) (number : RecordNumber) (jumpKey0 : list Z).
Hypothesis Hse : searchable order bucket es js key descending retrieval number jumpKey0.
Hypothesis Hinner : leafPage bucket = false.

Abbreviation K := (key_bytes key).

(** Where a search begins is not behind the result. *)
Lemma start_last_before t prefix m i :
  start_ok es descending retrieval K number t prefix ->
  (t = 0%nat -> i = child_from es) -> (t <> 0%nat -> i = t) ->
  last_before es key descending retrieval number i m ->
  (child_from es <= m <= length es)%nat /\
  (forall k e, (child_from es <= k < m)%nat -> es !! k = Some e -> before es key descending retrieval number e k) /\
  (forall e, es !! m = Some e -> ~ before es key descending retrieval number e m) /\
  (t <> 0%nat -> m <> t).
Proof.
  intros Hst Hi0 Hit (Hm & Hall & Hend). pose proof (se_rep _ _ _ _ _ _ _ _ _ Hse) as Hrep.
  destruct (decide (t = 0%nat)) as [Ht|Ht].
  { rewrite (Hi0 Ht) in *. split; [lia|]. by split_and!. }
  rewrite (Hit Ht) in *.
  assert (Htl : (t < length es)%nat) by (inversion Hst; subst; [lia|by eapply lookup_lt_Some|by eapply lookup_lt_Some]).
  assert (Hc : (child_from es <= 1)%nat) by (unfold child_from; destruct es; [lia|case_decide; lia]).
  split; [lia|]. split; [|split; [done|]].
  - intros k e Hk He. destruct (decide (k < t)%nat); [|apply Hall; [lia|done]].
    assert (Hmk : e_mark e = NoMark).
    { destruct (lookup_lt_is_Some_2 es (S k)) as [e' He']; [lia|].
      exact (mark_inner es (pr_entries _ _ _ _ Hrep) k e e' He He'). }
    pose proof (first_index_child bucket descending es Hinner).
    destruct (start_before order bucket es js key descending retrieval number jumpKey0 Hse t prefix k e Hst
      ltac:(lia) He) as [Hr|(Hno & HK & Hlt)]; [left; by rewrite Hmk|right; by split_and!].
  - intros _ ->.
    inversion Hst as [|t0 e He Hmk Ht0 Hr|t0 e He Hmk Ht0 HK Hno Hlt]; subst; [done| |];
      apply (Hend e He); [left; by rewrite Hmk|right; by split_and!].
Qed.
(** The loop begins behind the node without a key, or at the node of a jump node. *)
Lemma page_start t prefix e nd pv :
  start_ok es descending retrieval K number t prefix -> es !! t = Some e -> e_mark e = NoMark ->
  node_is (page bucket) (leafPage bucket) (pos bucket es t) e nd ->
  exists i e' nd' prefix',
    (if decide (pos bucket es t = first_node bucket) then
       '(nd, pointer) ←
         (if decide (e_prefix e = 0 /\ e_length e = 0) then readChecked bucket nd (pos bucket es (S t))
          else Ok (nd, pos bucket es (S t)));
       page_loop bucket key descending retrieval number (S (length (page bucket))) nd pointer 0 0 true pv
     else page_loop bucket key descending retrieval number (S (length (page bucket))) nd
            (pos bucket es (S t)) prefix prefix true pv) =
    page_loop bucket key descending retrieval number (S (length (page bucket))) nd' (pos bucket es (S i))
      prefix' prefix' true pv /\
    es !! i = Some e' /\ node_is (page bucket) (leafPage bucket) (pos bucket es i) e' nd' /\
    at_node es key descending retrieval (first_index (leafPage bucket) descending es) i e' prefix' true /\
    (first_index (leafPage bucket) descending es <= i)%nat /\
    (t = 0%nat -> i = child_from es) /\ (t <> 0%nat -> i = t).
Proof.
  intros Hst He Hm Hnd. pose proof (se_rep _ _ _ _ _ _ _ _ _ Hse) as Hrep.
  pose proof (first_index_child bucket descending es Hinner) as Hfc.
  pose proof (first_index_le (leafPage bucket) descending es).
  pose proof (start_at_node _ _ _ _ _ _ _ _ _ Hse t prefix e Hst He) as Hat.
  destruct (decide (t = 0%nat)) as [Ht|Ht].
  - subst t. rewrite pos_0, (decide_True (P := first_node bucket = _)) by done.
    assert (prefix = 0) as -> by (inversion Hst; lia || done).
    pose proof (prefix_0 _ _ _ _ _ _ _ _ _ Hse e He) as Hp0. rewrite Hp0.
    assert (Hcf : child_from es = if decide (e_length e = 0) then 1%nat else 0%nat).
    { unfold child_from. destruct es; simpl in He; [done|]. by simplify_eq. }
    destruct (decide (0 = 0 /\ e_length e = 0)) as [Hd|Hd]; cbn [mbind Outcome_bind].
    + rewrite decide_True in Hcf by apply Hd.
      destruct (mark_last es (pr_entries _ _ _ _ Hrep) 0%nat e He Hm) as [e' He'].
      destruct (readChecked_at order bucket es js Hrep 1%nat e' nd He') as (nd' & Hread' & Hnd').
      rewrite Hread'. cbn [mbind Outcome_bind]. exists 1%nat, e', nd', 0.
      pose proof (prefix_1 _ _ _ _ _ _ _ _ _ Hse e e' He (proj2 Hd) He') as Hp1.
      split; [done|]. split; [done|]. split; [done|]. split; [|split; [lia|]; split; intros; lia || done].
      left. unfold jump_key. rewrite Hp1. split_and!; done.
    + rewrite decide_False in Hcf by (intros Hz; by apply Hd).
      exists 0%nat, e, nd, 0. split; [done|]. split; [done|]. split; [done|].
      split; [done|]. split; [lia|]. split; intros; lia || done.
  - assert (Hne : pos bucket es t <> first_node bucket).
    { rewrite <- (pos_0 bucket es). apply lookup_lt_Some in He. intros Heq.
      apply (pos_inj order bucket es js Hrep) in Heq; lia. }
    rewrite (decide_False (P := pos bucket es t = _)) by done. exists t, e, nd, prefix.
    split; [done|]. split; [done|]. split; [done|]. split; [done|]. split; [lia|]. split; intros; lia || done.
Qed.
End Start.

(** C21. On a well-formed page above the leaves, [find_page] returns the child of the last
    entry that is before the key, or has the key and a lower record number; if there is
    none, the child of the first entry. The end of a bucket counts as an entry unless it
    has the key itself. It never ends in another way. *)
Theorem find_page_correct order bucket es js key idx find_record_number retrieval jumpKey0 number :
  number = (if validate_duplicates idx key then NO_VALUE else find_record_number) ->
  searchable order bucket es js key (has_flag idx idx_descending) retrieval number jumpKey0 ->
  leafPage bucket = false ->
  (exists e, es !! 0%nat = Some e /\ e_mark e = NoMark) ->
  exists m,
    find_page order bucket key idx find_record_number retrieval jumpKey0 = Ok (child es (pred m)) /\
    (child_from es <= m <= length es)%nat /\
    (forall k e, (child_from es <= k < m)%nat -> es !! k = Some e ->
       before es key (has_flag idx idx_descending) retrieval number e k) /\
    (forall e, es !! m = Some e -> ~ before es key (has_flag idx idx_descending) retrieval number e m).
Proof.
  intros Hnumber Hse Hinner Hfirst. pose proof Hfirst as (e0 & He0 & Hm0).
  unfold find_page. rewrite <- Hnumber. set (descending := has_flag idx idx_descending) in *.
  pose proof (se_rep _ _ _ _ _ _ _ _ _ Hse) as Hrep.
  pose proof (first_index_child bucket descending es Hinner) as Hfc.
  pose proof (entries_count order bucket es js Hrep) as Hfuel.
  unfold find_page_number.
  destruct (find_area_spec order bucket es js key descending retrieval number _ Hrep (se_key _ _ _ _ _ _ _ _ _ Hse)
    (se_sorted _ _ _ _ _ _ _ _ _ Hse) (first_index_le _ _ _) jumpKey0 (se_room _ _ _ _ _ _ _ _ _ Hse) None ltac:(done))
    as (prefix & value1 & t & Harea & Hst & _).
  rewrite Harea. cbn [mbind Outcome_bind].
  assert (Ht : exists e, es !! t = Some e /\ e_mark e = NoMark) by (inversion Hst; subst; by eexists).
  destruct Ht as (e & He & Hm). pose proof (lookup_lt_Some _ _ _ He) as Hlt.
  destruct (readChecked_at order bucket es js Hrep t e IndexNode_new He) as (nd & Hread & Hnd).
  rewrite Hread. cbn [mbind Outcome_bind].
  rewrite (is_bucket _ _ _ _ _ Hnd), (is_level _ _ _ _ _ Hnd), Hm.
  change (bool_decide (NoMark = EndBucket)) with false. change (bool_decide (NoMark = EndLevel)) with false.
  cbn [orb mbind Outcome_bind]. rewrite (is_level _ _ _ _ _ Hnd), Hm.
  change (bool_decide (NoMark = EndLevel)) with false. cbv iota.
  rewrite (is_pointer _ _ _ _ _ Hnd), (is_length _ _ _ _ _ Hnd), (is_prefix _ _ _ _ _ Hnd).
  destruct (page_start order bucket es js key descending retrieval number jumpKey0 Hse Hinner t prefix e nd
    (in_pageNumber nd) Hst He Hm Hnd) as (i & e' & nd' & prefix' & Hgo & He' & Hnd' & Hat & Hsi & Hi0 & Hit).
  rewrite Hgo. rewrite (node_child bucket es Hinner t e nd He Hnd). pose proof (lookup_lt_Some _ _ _ He').
  destruct (page_loop_spec order bucket es js key descending retrieval number jumpKey0 Hse Hinner
    (S (length (page bucket))) i e' nd' prefix' true (child es t) He' Hsi ltac:(lia)
    (child_range order bucket es js key descending retrieval number jumpKey0 Hse t) Hnd' Hat) as (m & Hm' & Hlb).
  destruct (start_last_before order bucket es js key descending retrieval number jumpKey0 Hse Hinner t prefix m i
    Hst Hi0 Hit Hlb) as (Hm1 & Hall & Hend & Hne).
  exists m. split; [|done]. rewrite Hm'. case_decide as Hd; [|done]. subst m.
  destruct (decide (t = 0%nat)) as [->|Ht]; [|destruct (Hne Ht (Hit Ht))].
  by rewrite (Hi0 eq_refl), pred_child_from.
Qed.

(** *** An example *)

Definition ex_children : list Entry :=
  [ {| e_prefix := 0; e_data := []; e_number := 0; e_page := 10; e_mark := NoMark |};
    {| e_prefix := 0; e_data := [97; 98]; e_number := 5; e_page := 11; e_mark := NoMark |};
    {| e_prefix := 2; e_data := []; e_number := 9; e_page := 12; e_mark := NoMark |};
    {| e_prefix := 1; e_data := [99]; e_number := 1; e_page := 13; e_mark := EndBucket |} ].

Definition ex_inner : btree_page :=
  let nodes := entries_bytes false ex_children in
  {| btr_prefix_total := 3; btr_length := 39 + Z.of_nat (length nodes); btr_level := 1;
     btr_jump_interval := 4; btr_jump_size := 0; btr_jump_count := 0;
     btr_bytes := replicate 39 0 ++ nodes |}.

Definition ex_child_key : temporary_key := {| key_length := 2; key_data := [97; 98]; key_nulls := 0 |}.

Definition ex_idx : index_desc := {| idx_flags := 0; idx_count := 1 |}.

Lemma ex_child_searchable :
  searchable LittleEndian ex_inner ex_children [] ex_child_key false false (RecordNumber_new 7) [0; 0].
Proof.
  split.
  - split; try reflexivity; [|constructor]. split.
    + repeat constructor; vm_compute; try done; intros; discriminate.
    + intros i e He. each_entry i.
    + exists (take 3 ex_children), {| e_prefix := 1; e_data := [99]; e_number := 1; e_page := 13; e_mark := EndBucket |}.
      split; [done|]. split; [repeat constructor|done].
  - vm_compute. repeat split; discriminate.
  - intros i j e Hij He Hm. each_entry j; each_entry i.
  - discriminate.
  - intros _. split; [done|]. intros i j e e' Hij He He' Hm Hk. each_entry j; each_entry i.
  - intros i Hi. each_entry i.
Qed.

Lemma find_page_correct_witness :
  exists m, find_page LittleEndian ex_inner ex_child_key ex_idx (RecordNumber_new 7) false [0; 0] =
    Ok (child ex_children (pred m)) /\ child ex_children (pred m) = 11.
Proof.
  destruct (find_page_correct LittleEndian ex_inner ex_children [] ex_child_key ex_idx (RecordNumber_new 7)
    false [0; 0] (RecordNumber_new 7)) as (m & Heq & _).
  - reflexivity.
  - apply ex_child_searchable.
  - reflexivity.
  - eexists. split; reflexivity.
  - exists m. split; [exact Heq|]. vm_compute in Heq. by injection Heq as ->.
Defined.
