(* ===== verification/TimeStamp.v ===== *)
(** * Time stamps: [src/src/common/classes/NoThrowTimeStamp.cpp] and [.h]

    A date is the number of days since November 17, 1858, a time the number of tenths of a
    millisecond since midnight. The conversions from and to the fields of a calendar, which
    is defined here by the lengths of its months and years.

    [int] arithmetic that may overflow is undefined then; division truncates. *)

From S2P Require Import Prelude Outcome.

(** An [int] *)
Definition int (z : Z) : Outcome Z := if decide (inS 32 z) then Ok z else Undefined.

(** [struct tm] *)
Record tm := {
  tm_sec : Z; tm_min : Z; tm_hour : Z; tm_mday : Z; tm_mon : Z; tm_year : Z;
  tm_wday : Z; tm_yday : Z; tm_isdst : Z
}.

Definition tm_zero : tm :=
  {| tm_sec := 0; tm_min := 0; tm_hour := 0; tm_mday := 0; tm_mon := 0; tm_year := 0;
     tm_wday := 0; tm_yday := 0; tm_isdst := 0 |}.

Record ISC_TIMESTAMP := { timestamp_date : Z; timestamp_time : Z }.

Definition ISC_TIME_SECONDS_PRECISION : Z := 10000.
Definition ISC_TIME_SECONDS_PRECISION_SCALE : Z := -4.
Definition MIN_DATE : Z := -678575.
Definition MAX_DATE : Z := 2973483.
Definition BAD_DATE : Z := 2147483647.
Definition BAD_TIME : Z := 4294967295.
Definition POW_10_TABLE : list Z := [1; 10; 100; 1000; 10000; 100000; 1000000; 10000000; 100000000; 1000000000].

(** ** Validity *)

Definition isValidDate (ndate : Z) : bool := bool_decide (ndate >= MIN_DATE /\ ndate <= MAX_DATE).
Definition isValidTime (ntime : Z) : bool := bool_decide (ntime < 24 * 3600 * ISC_TIME_SECONDS_PRECISION).
Definition isValidTimeStamp (ts : ISC_TIMESTAMP) : bool :=
  isValidDate (timestamp_date ts) && isValidTime (timestamp_time ts).

Definition isEmpty (ts : ISC_TIMESTAMP) : bool :=
  bool_decide (timestamp_date ts = BAD_DATE /\ timestamp_time ts = BAD_TIME).
Definition invalidate : ISC_TIMESTAMP := {| timestamp_date := BAD_DATE; timestamp_time := BAD_TIME |}.

Definition isLeapYear (year : Z) : bool :=
  bool_decide ((Z.rem year 4 = 0 /\ Z.rem year 100 <> 0) \/ Z.rem year 400 = 0).

(** ** Dates *)

Definition yday (day0 month0 year0 : Z) : Outcome Z :=
  year ← int (year0 + 1900);
  day ← int (day0 - 1);
  n ← int (214 * month0 + 3);
  day ← int (day + Z.quot n 7);
  if decide (month0 < 2) then Ok day
  else if isLeapYear year then int (day - 1)
  else int (day - 2).

Definition decode_date (nday : Z) : Outcome tm :=
  n ← int (nday + 3);
  let wday := Z.rem n 7 in
  let wday := if decide (wday < 0) then wday + 7 else wday in
  nday ← int (nday + (2400001 - 1721119));
  n4 ← int (4 * nday);
  n4 ← int (n4 - 1);
  let century := Z.quot n4 146097 in
  let nday := n4 - 146097 * century in
  let day := Z.quot nday 4 in
  let nday := Z.quot (4 * day + 3) 1461 in
  let day := 4 * day + 3 - 1461 * nday in
  let day := Z.quot (day + 4) 4 in
  let month := Z.quot (5 * day - 3) 153 in
  let day := 5 * day - 3 - 153 * month in
  let day := Z.quot (day + 5) 5 in
  let year := 100 * century + nday in
  let '(month, year) := if decide (month < 10) then (month + 3, year) else (month - 9, year + 1) in
  yd ← yday day (month - 1) (year - 1900);
  Ok {| tm_sec := 0; tm_min := 0; tm_hour := 0; tm_mday := day; tm_mon := month - 1;
        tm_year := year - 1900; tm_wday := wday; tm_yday := yd; tm_isdst := 0 |}.

Definition encode_date (times : tm) : Outcome Z :=
  let day := tm_mday times in
  month ← int (tm_mon times + 1);
  year ← int (tm_year times + 1900);
  let '(month, year) := if decide (month > 2) then (month - 3, year) else (month + 9, year - 1) in
  year ← int year;
  month ← int month;
  let c := Z.quot year 100 in
  let ya := year - 100 * c in
  m ← int (153 * month + 2);
  Ok (wrapS 32 (Z.quot (146097 * c) 4 + Z.quot (1461 * ya) 4 + Z.quot m 5 + day + 1721119 - 2400001)).

(** ** Times *)

(** Hours, minutes, seconds and fractions *)
Definition decode_time (ntime : Z) : Z * Z * Z * Z :=
  let hours := ntime / (3600 * ISC_TIME_SECONDS_PRECISION) in
  let ntime := ntime mod (3600 * ISC_TIME_SECONDS_PRECISION) in
  let minutes := ntime / (60 * ISC_TIME_SECONDS_PRECISION) in
  let ntime := ntime mod (60 * ISC_TIME_SECONDS_PRECISION) in
  let seconds := ntime / ISC_TIME_SECONDS_PRECISION in
  (hours, minutes, seconds, ntime mod ISC_TIME_SECONDS_PRECISION).

Definition encode_time (hours minutes seconds fractions : Z) : Outcome Z :=
  m ← int (hours * 60);
  m ← int (m + minutes);
  s ← int (m * 60);
  s ← int (s + seconds);
  t ← int (s * ISC_TIME_SECONDS_PRECISION);
  t ← int (t + fractions);
  Ok (wrapU 32 t).

(** The time is rounded down to [precision] digits of a second. *)
Definition round_time (ntime precision : Z) : Outcome Z :=
  let scale := - ISC_TIME_SECONDS_PRECISION_SCALE - precision in
  if decide (scale <= 0) then Ok ntime
  else
    period ← access (POW_10_TABLE @ scale);
    Ok (ntime - ntime mod period).

(** ** Time stamps *)

Definition decode_timestamp (ts : ISC_TIMESTAMP) : Outcome (tm * Z) :=
  times ← decode_date (timestamp_date ts);
  let '(hours, minutes, seconds, fractions) := decode_time (timestamp_time ts) in
  Ok ({| tm_sec := seconds; tm_min := minutes; tm_hour := hours; tm_mday := tm_mday times;
         tm_mon := tm_mon times; tm_year := tm_year times; tm_wday := tm_wday times;
         tm_yday := tm_yday times; tm_isdst := tm_isdst times |}, fractions).

Definition encode_timestamp (times : tm) (fractions : Z) : Outcome ISC_TIMESTAMP :=
  date ← encode_date times;
  time ← encode_time (tm_hour times) (tm_min times) (tm_sec times) fractions;
  Ok {| timestamp_date := date; timestamp_time := time |}.

(** ** The calendar

    A date is a year, a month from 0 to 11 and a day from 1 on. *)

Definition leap (y : Z) : bool := bool_decide ((y mod 4 = 0 /\ y mod 100 <> 0) \/ y mod 400 = 0).

Definition month_length (y m : Z) : Z :=
  if decide (m = 1) then if leap y then 29 else 28
  else if decide (m = 3 \/ m = 5 \/ m = 8 \/ m = 10) then 30 else 31.

(** The days of a year before a month *)
Definition days_before_month (y m : Z) : Z :=
  foldr Z.add 0 (map (fun k => month_length y (Z.of_nat k)) (seq 0 (Z.to_nat m))).

(** The days before a year, from the year 1 on *)
Definition days_before_year (y : Z) : Z :=
  365 * (y - 1) + (y - 1) / 4 - (y - 1) / 100 + (y - 1) / 400.

Definition civil_date (y m d : Z) : Prop :=
  1 <= y <= 9999 /\ 0 <= m <= 11 /\ 1 <= d <= month_length y m.

Definition date_number (y m d : Z) : Z :=
  MIN_DATE + days_before_year y + days_before_month y m + (d - 1).

(** ** The calendar of the code

    Its years begin in March: [F] is the number of a day in such a year. *)

Definition march_number (y m d : Z) : Z :=
  365 * y + y / 4 - y / 100 + y / 400 + (153 * m + 2) / 5 + d - 678882.

(** The years and months of both calendars *)
Definition civil_year (y m : Z) : Z := if decide (m < 10) then y else y + 1.
Definition civil_month (m : Z) : Z := if decide (m < 10) then m + 2 else m - 10.

(** [divs] names the quotients by constants. *)
Ltac divs := Z.to_euclidean_division_equations; lia.

Lemma int_ok z : - 2147483648 <= z < 2147483648 -> int z = Ok z.
Proof. intros Hz. unfold int. rewrite decide_True; [done|]. unfold inS. change (2 ^ (32 - 1)) with 2147483648. lia. Qed.

(** Twelve cases *)
Ltac months m :=
  let H := fresh in
  assert (H : m = 0 \/ m = 1 \/ m = 2 \/ m = 3 \/ m = 4 \/ m = 5 \/ m = 6 \/ m = 7 \/ m = 8 \/ m = 9
              \/ m = 10 \/ m = 11) by lia;
  repeat (destruct H as [H|H]; [subst m|]); [..|subst m].

(** The days before a month, from those before March *)
Lemma days_before_month_eq y m : 0 <= m <= 11 ->
  days_before_month y m =
  if decide (m = 0) then 0 else if decide (m = 1) then 31
  else (153 * (m - 2) + 2) / 5 + 59 + (if leap y then 1 else 0).
Proof.
  intros Hm. months m; unfold days_before_month, month_length; simpl; destruct (leap y); reflexivity.
Qed.

Lemma div_pred y k : 0 < k -> y / k - (y - 1) / k = if decide (y mod k = 0) then 1 else 0.
Proof.
  intros Hk. pose proof (Z.div_mod y k ltac:(lia)). pose proof (Z.mod_pos_bound y k Hk).
  case_decide as Hz.
  - assert ((y - 1) / k = y / k - 1); [|lia]. symmetry. apply (Z.div_unique _ _ _ (k - 1)); lia.
  - assert ((y - 1) / k = y / k); [|lia]. symmetry. apply (Z.div_unique _ _ _ (y mod k - 1)); lia.
Qed.

Lemma mod_multiple y a b : 0 < a -> 0 < b -> y mod (a * b) = 0 -> y mod a = 0.
Proof.
  intros Ha Hb H. apply Z.mod_divide in H as [k Hk]; [|lia]. apply Z.mod_divide; [lia|].
  exists (k * b). lia.
Qed.

Lemma leap_spec y : (if leap y then 1 else 0) =
  y / 4 - y / 100 + y / 400 - ((y - 1) / 4 - (y - 1) / 100 + (y - 1) / 400).
Proof.
  pose proof (div_pred y 4 ltac:(lia)) as H4. pose proof (div_pred y 100 ltac:(lia)) as H100.
  pose proof (div_pred y 400 ltac:(lia)) as H400.
  pose proof (mod_multiple y 4 25 ltac:(lia) ltac:(lia)) as Hm4. change (4 * 25) with 100 in Hm4.
  pose proof (mod_multiple y 100 4 ltac:(lia) ltac:(lia)) as Hm100. change (100 * 4) with 400 in Hm100.
  unfold leap. case_bool_decide as H; revert H4 H100 H400; repeat case_decide; intros; lia.
Qed.

(** Both calendars number the days alike. *)
Lemma march_civil y m d : 0 <= m <= 11 ->
  march_number y m d = date_number (civil_year y m) (civil_month m) d.
Proof.
  intros Hm. unfold date_number, days_before_year, civil_year, civil_month, march_number, MIN_DATE.
  rewrite days_before_month_eq by (case_decide; lia).
  pose proof (leap_spec y) as Hl.
  destruct (decide (m < 10)) as [Hlt|Hge].
  - rewrite !decide_False by lia. replace (m + 2 - 2) with m by lia. lia.
  - assert (H10 : (153 * 10 + 2) / 5 = 306) by reflexivity. assert (H11 : (153 * 11 + 2) / 5 = 337) by reflexivity.
    rewrite Z.add_simpl_r. assert (m = 10 \/ m = 11) as [-> | ->] by lia.
    + rewrite H10, decide_True by lia. lia.
    + rewrite H11, decide_False, decide_True by lia. lia.
Qed.

Lemma month_length_range y m : 28 <= month_length y m <= 31.
Proof. unfold month_length. repeat case_match; lia. Qed.

Lemma days_before_month_range y m : 0 <= m <= 11 -> 0 <= days_before_month y m <= 335.
Proof.
  intros Hm. rewrite days_before_month_eq by done. months m; repeat case_decide; try lia;
    destruct (leap y); vm_compute; split; discriminate.
Qed.

(** ** [encode_date] *)

Lemma century_split y : 0 <= y ->
  Z.quot (146097 * Z.quot y 100) 4 + Z.quot (1461 * (y - 100 * Z.quot y 100)) 4 = 365 * y + y / 4 - y / 100 + y / 400.
Proof.
  intros Hy. rewrite !(Z.quot_div_nonneg y) by lia.
  pose proof (Z.div_mod y 100 ltac:(lia)) as Hd. pose proof (Z.mod_pos_bound y 100 ltac:(lia)) as Hm.
  assert (H4 : y / 400 = y / 100 / 4) by (rewrite Z.div_div by lia; done).
  set (c := y / 100) in *. assert (0 <= c) by lia.
  rewrite !Z.quot_div_nonneg by lia. rewrite H4.
  replace (y - 100 * c) with (y mod 100) by lia. set (r := y mod 100) in *.
  replace (146097 * c) with (c + 36524 * c * 4) by lia. rewrite Z.div_add by lia.
  replace (1461 * r) with (r + 365 * r * 4) by lia. rewrite Z.div_add by lia.
  rewrite Hd. replace (100 * c + r) with (r + 25 * c * 4) at 2 by lia. rewrite Z.div_add by lia. lia.
Qed.

(** The number of a date in the years 0 to 10000, whose fields need not be in range *)
Lemma encode_date_march times :
  0 <= tm_mon times <= 11 -> 0 <= tm_year times + 1900 <= 10000 -> 1 <= tm_year times + 1900 \/ 2 <= tm_mon times ->
  -1000000 <= tm_mday times <= 1000000 ->
  encode_date times =
    Ok (if decide (tm_mon times < 2) then march_number (tm_year times + 1899) (tm_mon times + 10) (tm_mday times)
        else march_number (tm_year times + 1900) (tm_mon times - 2) (tm_mday times)).
Proof.
  intros Hm Hy Hym Hd. unfold encode_date. rewrite (int_ok (tm_mon times + 1)) by lia. cbn [mbind Outcome_bind].
  rewrite (int_ok (tm_year times + 1900)) by lia. cbn [mbind Outcome_bind].
  assert (Hgo : forall m y, 0 <= m <= 11 -> 0 <= y <= 10000 ->
    (year ← int y; month ← int m;
     let c := Z.quot year 100 in let ya := year - 100 * c in
     m ← int (153 * month + 2);
     Ok (wrapS 32 (Z.quot (146097 * c) 4 + Z.quot (1461 * ya) 4 + Z.quot m 5 + tm_mday times + 1721119 - 2400001)))
    = Ok (march_number y m (tm_mday times))).
  { intros m y Hm' Hy'. rewrite !int_ok by lia. cbn [mbind Outcome_bind]. cbv zeta. rewrite int_ok by lia.
    cbn [mbind Outcome_bind]. rewrite century_split by lia. rewrite (Z.quot_div_nonneg (153 * m + 2)) by lia.
    f_equal. unfold march_number.
    assert (0 <= (153 * m + 2) / 5 <= 338) by (split; [apply Z.div_pos; lia|apply Z.div_le_upper_bound; lia]).
    assert (0 <= y / 4 <= 2500) by (split; [apply Z.div_pos; lia|apply Z.div_le_upper_bound; lia]).
    assert (0 <= y / 100 <= 100) by (split; [apply Z.div_pos; lia|apply Z.div_le_upper_bound; lia]).
    assert (0 <= y / 400 <= 25) by (split; [apply Z.div_pos; lia|apply Z.div_le_upper_bound; lia]).
    rewrite wrapS_id; [lia|lia|]. unfold inS. change (2 ^ (32 - 1)) with 2147483648. lia. }
  destruct (decide (tm_mon times + 1 > 2)) as [Hgt|Hle].
  - rewrite decide_False by lia. rewrite Hgo by lia. f_equal. f_equal; lia.
  - rewrite decide_True by lia. rewrite Hgo by lia. f_equal. f_equal; lia.
Qed.

Lemma encode_civil y m d times :
  civil_date y m d -> tm_year times = y - 1900 -> tm_mon times = m -> tm_mday times = d ->
  encode_date times = Ok (date_number y m d).
Proof.
  intros (Hy & Hm & Hd) Hty Htm Htd. pose proof (month_length_range y m).
  rewrite encode_date_march by lia. rewrite Hty, Htm, Htd. f_equal. case_decide as Hlt.
  - rewrite march_civil by lia. unfold civil_year, civil_month. rewrite !decide_False by lia. f_equal; lia.
  - rewrite march_civil by lia. unfold civil_year, civil_month. rewrite !decide_True by lia. f_equal; lia.
Qed.

(** ** [decode_date] *)

(** The years of four hundred years, and the days of a year *)
Lemma decode_years n c day ya d2 :
  1 <= n -> c = (4 * n - 1) / 146097 -> day = (4 * n - 1 - 146097 * c) / 4 ->
  ya = (4 * day + 3) / 1461 -> d2 = (4 * day + 3 - 1461 * ya + 4) / 4 ->
  0 <= c /\ 0 <= ya <= 99 /\ 1 <= d2 <= 366 /\
  n = 36524 * c + c / 4 + 365 * ya + ya / 4 + d2 /\
  (d2 = 366 -> (ya mod 4 = 3 /\ ya <> 99) \/ (ya = 99 /\ c mod 4 = 3)).
Proof.
  intros Hn -> -> -> ->.
  set (c := (4 * n - 1) / 146097). pose proof (Z.div_mod (4 * n - 1) 146097 ltac:(lia)) as Hc.
  pose proof (Z.mod_pos_bound (4 * n - 1) 146097 ltac:(lia)) as Hcm. fold c in Hc.
  assert (0 <= c) by (apply Z.div_pos; lia).
  replace (4 * n - 1 - 146097 * c) with ((4 * n - 1) mod 146097) by lia.
  set (r := (4 * n - 1) mod 146097) in *.
  pose proof (Z.div_mod r 4 ltac:(lia)) as Hr. pose proof (Z.mod_pos_bound r 4 ltac:(lia)) as Hrm.
  set (day := r / 4) in *.
  pose proof (Z.div_mod (4 * day + 3) 1461 ltac:(lia)) as Hy.
  pose proof (Z.mod_pos_bound (4 * day + 3) 1461 ltac:(lia)) as Hym.
  set (ya := (4 * day + 3) / 1461) in *.
  replace (4 * day + 3 - 1461 * ya) with ((4 * day + 3) mod 1461) by lia.
  set (s := (4 * day + 3) mod 1461) in *.
  pose proof (Z.div_mod (s + 4) 4 ltac:(lia)) as Hd. pose proof (Z.mod_pos_bound (s + 4) 4 ltac:(lia)) as Hdm.
  set (d2 := (s + 4) / 4) in *.
  pose proof (Z.div_mod ya 4 ltac:(lia)) as Hq. pose proof (Z.mod_pos_bound ya 4 ltac:(lia)) as Hqm.
  pose proof (Z.div_mod c 4 ltac:(lia)) as Hk. pose proof (Z.mod_pos_bound c 4 ltac:(lia)) as Hkm.
  assert (0 <= ya <= 99) by lia.
  split_and!; lia.
Qed.

Lemma decode_month d2 m d :
  1 <= d2 <= 366 -> m = (5 * d2 - 3) / 153 -> d = (5 * d2 - 3 - 153 * m + 5) / 5 ->
  0 <= m <= 11 /\ d2 = (153 * m + 2) / 5 + d /\ 1 <= d /\
  d <= (if decide (m = 11) then if decide (d2 = 366) then 29 else 28
        else if decide (m = 1 \/ m = 3 \/ m = 6 \/ m = 8) then 30 else 31).
Proof.
  intros H2 -> ->.
  pose proof (Z.div_mod (5 * d2 - 3) 153 ltac:(lia)) as Hm. pose proof (Z.mod_pos_bound (5 * d2 - 3) 153 ltac:(lia)) as Hmm.
  set (m := (5 * d2 - 3) / 153) in *. assert (Hmr : 0 <= m <= 11) by lia.
  replace (5 * d2 - 3 - 153 * m) with ((5 * d2 - 3) mod 153) by lia. set (r := (5 * d2 - 3) mod 153) in *.
  pose proof (Z.div_mod (r + 5) 5 ltac:(lia)) as Hd. pose proof (Z.mod_pos_bound (r + 5) 5 ltac:(lia)) as Hdm.
  set (d := (r + 5) / 5) in *.
  pose proof (Z.div_mod (153 * m + 2) 5 ltac:(lia)) as Hq. pose proof (Z.mod_pos_bound (153 * m + 2) 5 ltac:(lia)) as Hqm.
  set (q := (153 * m + 2) / 5) in *. clearbody m r d q. split_and!; try lia.
  months m; repeat case_decide; lia.
Qed.

Lemma isLeapYear_leap y : 0 <= y -> isLeapYear y = leap y.
Proof. intros Hy. unfold isLeapYear, leap. by rewrite !Z.rem_mod_nonneg by lia. Qed.

Lemma yday_civil y m d : civil_date y m d ->
  yday d m (y - 1900) = Ok (days_before_month y m + d - 1).
Proof.
  intros (Hy & Hm & Hd). pose proof (month_length_range y m). unfold yday.
  rewrite (int_ok (y - 1900 + 1900)) by lia. cbn [mbind Outcome_bind].
  rewrite (int_ok (d - 1)) by lia. cbn [mbind Outcome_bind].
  rewrite (int_ok (214 * m + 3)) by lia. cbn [mbind Outcome_bind].
  replace (y - 1900 + 1900) with y by lia. rewrite isLeapYear_leap by lia.
  rewrite days_before_month_eq by done.
  assert (Hq : Z.quot (214 * m + 3) 7 = if decide (m = 0) then 0 else if decide (m = 1) then 31 else (153 * (m - 2) + 2) / 5 + 61).
  { months m; reflexivity. }
  rewrite Hq. clear Hq.
  assert (0 <= (153 * (m - 2) + 2) / 5 <= 337 \/ m < 2) as Hr.
  { destruct (decide (m < 2)); [by right|left].
    split; [apply Z.div_pos; lia|apply Z.div_le_upper_bound; lia]. }
  set (q := (153 * (m - 2) + 2) / 5) in *. clearbody q.
  destruct (decide (m = 0)); [|destruct (decide (m = 1))];
    rewrite int_ok by lia; cbn [mbind Outcome_bind].
  - rewrite decide_True by lia. f_equal. lia.
  - rewrite decide_True by lia. f_equal. lia.
  - rewrite decide_False by lia. destruct (leap y); rewrite int_ok by lia; f_equal; lia.
Qed.

Lemma wday_mod n : (if decide (Z.rem n 7 < 0) then Z.rem n 7 + 7 else Z.rem n 7) = n mod 7.
Proof.
  pose proof (Z.quot_rem n 7 ltac:(lia)) as Hq.
  destruct (decide (0 <= n)) as [Hn|Hn].
  - pose proof (Z.rem_bound_pos n 7 Hn ltac:(lia)). rewrite decide_False by lia.
    apply (Z.mod_unique _ _ (Z.quot n 7)); lia.
  - pose proof (Z.rem_bound_pos (- n) 7 ltac:(lia) ltac:(lia)) as Hb. rewrite Z.rem_opp_l in Hb by lia. case_decide.
    + apply (Z.mod_unique _ _ (Z.quot n 7 - 1)); lia.
    + apply (Z.mod_unique _ _ (Z.quot n 7)); lia.
Qed.

Lemma century_quotients c ya : 0 <= ya <= 99 ->
  (100 * c + ya) / 4 = 25 * c + ya / 4 /\ (100 * c + ya) / 100 = c /\ (100 * c + ya) / 400 = c / 4.
Proof.
  intros Hya. assert (H100 : (100 * c + ya) / 100 = c) by (symmetry; apply (Z.div_unique _ _ _ ya); lia).
  split_and!.
  - replace (100 * c + ya) with (ya + 25 * c * 4) by lia. rewrite Z.div_add by lia. lia.
  - done.
  - change 400 with (100 * 4). by rewrite <- Z.div_div, H100 by lia.
Qed.

(** The last day of February is only decoded in a leap year. *)
Lemma leap_after c ya : 0 <= c -> 0 <= ya <= 99 ->
  (ya mod 4 = 3 /\ ya <> 99) \/ (ya = 99 /\ c mod 4 = 3) -> leap (100 * c + ya + 1) = true.
Proof.
  intros Hc Hya H. unfold leap. apply bool_decide_eq_true. destruct H as [[H4 H99]|[-> H4]].
  - left. pose proof (Z.div_mod ya 4 ltac:(lia)). split.
    + symmetry. apply (Z.mod_unique _ _ (25 * c + ya / 4 + 1)); lia.
    + replace (100 * c + ya + 1) with (ya + 1 + c * 100) by lia.
      rewrite Z.mod_add, Z.mod_small by lia. lia.
  - right. pose proof (Z.div_mod c 4 ltac:(lia)). symmetry. apply (Z.mod_unique _ _ (c / 4 + 1)); lia.
Qed.

(** The quotients of the code, from the number of a day on, are a date. *)
Lemma decode_march n c day ya d2 m d :
  1 <= n -> c = (4 * n - 1) / 146097 -> day = (4 * n - 1 - 146097 * c) / 4 ->
  ya = (4 * day + 3) / 1461 -> d2 = (4 * day + 3 - 1461 * ya + 4) / 4 ->
  m = (5 * d2 - 3) / 153 -> d = (5 * d2 - 3 - 153 * m + 5) / 5 ->
  0 <= m <= 11 /\ march_number (100 * c + ya) m d = n - 678882 /\
  1 <= d <= month_length (civil_year (100 * c + ya) m) (civil_month m) /\
  0 <= 100 * c + ya.
Proof.
  intros Hn Hc Hday Hya Hd2 Hm Hd.
  destruct (decode_years n c day ya d2 Hn Hc Hday Hya Hd2) as (Hc0 & Hya0 & Hd20 & HN & Hlp).
  destruct (decode_month d2 m d Hd20 Hm Hd) as (Hm0 & Hd2m & Hd1 & Hdl).
  destruct (century_quotients c ya Hya0) as (Hq4 & Hq100 & Hq400).
  split_and!; try lia.
  - unfold march_number. rewrite Hq4, Hq100, Hq400. lia.
  - etransitivity; [exact Hdl|]. unfold month_length, civil_year, civil_month.
    destruct (decide (m = 11)) as [->|Hne].
    + rewrite !(decide_False (P := 11 < 10)), (decide_True (P := 11 - 10 = 1)) by lia. case_decide as H366.
      * rewrite (leap_after c ya) by auto. lia.
      * case_match; lia.
    + clear Hm Hd. months m; try lia; vm_compute; discriminate.
Qed.

(** The days before a year, and their sum from the year 1 on *)
Lemma days_before_year_next y : days_before_year (y + 1) = days_before_year y + 365 + (if leap y then 1 else 0).
Proof. rewrite leap_spec. unfold days_before_year. rewrite Z.add_simpl_r. lia. Qed.

Ltac quotients y :=
  pose proof (Z.div_mod y 4 ltac:(lia)); pose proof (Z.mod_pos_bound y 4 ltac:(lia));
  pose proof (Z.div_mod y 100 ltac:(lia)); pose proof (Z.mod_pos_bound y 100 ltac:(lia));
  pose proof (Z.div_mod y 400 ltac:(lia)); pose proof (Z.mod_pos_bound y 400 ltac:(lia)).

Lemma days_before_year_low y : y <= 1 -> days_before_year y <= 0.
Proof. intros Hy. unfold days_before_year. quotients (y - 1). lia. Qed.

Lemma days_before_year_high y : 10000 <= y -> 3652059 <= days_before_year y.
Proof.
  intros Hy. destruct (decide (y = 10000)) as [->|Hne]; [by vm_compute|].
  unfold days_before_year. quotients (y - 1). lia.
Qed.

Lemma month_in_year y m : 0 <= m <= 11 ->
  0 <= days_before_month y m /\ days_before_month y m + month_length y m <= 365 + (if leap y then 1 else 0).
Proof.
  intros Hm. rewrite days_before_month_eq by done. unfold month_length.
  months m; destruct (leap y); vm_compute; split; discriminate.
Qed.

(** The years of the valid dates, and of no other *)
Lemma civil_years y m d :
  0 <= m <= 11 -> 1 <= d <= month_length y m -> MIN_DATE <= date_number y m d <= MAX_DATE <-> 1 <= y <= 9999.
Proof.
  intros Hm Hd. destruct (month_in_year y m Hm). unfold date_number, MIN_DATE, MAX_DATE.
  pose proof (days_before_year_next y). split.
  - pose proof (days_before_year_low (y + 1)). pose proof (days_before_year_high y). lia.
  - intros Hy.
    assert (0 <= days_before_year y) by (unfold days_before_year; quotients (y - 1); lia).
    assert (days_before_year (y + 1) <= 3652059); [|lia].
    destruct (decide (y = 9999)) as [->|Hne]; [by vm_compute|].
    unfold days_before_year. quotients (y + 1 - 1). lia.
Qed.

(** The result of [decode_date] *)
Definition calendar (y m d : Z) : tm :=
  {| tm_sec := 0; tm_min := 0; tm_hour := 0; tm_mday := d; tm_mon := m; tm_year := y - 1900;
     tm_wday := (date_number y m d + 3) mod 7; tm_yday := days_before_month y m + d - 1; tm_isdst := 0 |}.

Lemma decode_civil n : isValidDate n = true ->
  exists y m d, civil_date y m d /\ date_number y m d = n /\ decode_date n = Ok (calendar y m d).
Proof.
  intros [Hlo Hhi]%bool_decide_eq_true. unfold MIN_DATE, MAX_DATE in *.
  unfold decode_date. rewrite (int_ok (n + 3)) by lia. cbn [mbind Outcome_bind].
  rewrite (int_ok (n + _)) by lia. cbn [mbind Outcome_bind].
  replace (n + (2400001 - 1721119)) with (n + 678882) by lia. set (N := n + 678882).
  rewrite (int_ok (4 * N)) by lia. cbn [mbind Outcome_bind].
  rewrite (int_ok (4 * N - 1)) by lia. cbn [mbind Outcome_bind]. rewrite wday_mod.
  rewrite (Z.quot_div_nonneg (4 * N - 1)) by lia. remember ((4 * N - 1) / 146097) as c eqn:Hc.
  assert (0 <= 4 * N - 1 - 146097 * c) by (pose proof (Z.mul_div_le (4 * N - 1) 146097); lia).
  rewrite (Z.quot_div_nonneg (4 * N - 1 - 146097 * c)) by lia.
  remember ((4 * N - 1 - 146097 * c) / 4) as day eqn:Hday. assert (0 <= day) by (rewrite Hday; apply Z.div_pos; lia).
  rewrite (Z.quot_div_nonneg (4 * day + 3)) by lia.
  remember ((4 * day + 3) / 1461) as ya eqn:Hya.
  assert (0 <= 4 * day + 3 - 1461 * ya) by (pose proof (Z.mul_div_le (4 * day + 3) 1461); lia).
  rewrite (Z.quot_div_nonneg (4 * day + 3 - 1461 * ya + 4)) by lia.
  remember ((4 * day + 3 - 1461 * ya + 4) / 4) as d2 eqn:Hd2. assert (1 <= d2) by (rewrite Hd2; apply Z.div_le_lower_bound; lia).
  rewrite (Z.quot_div_nonneg (5 * d2 - 3)) by lia. remember ((5 * d2 - 3) / 153) as m eqn:Hm.
  assert (0 <= 5 * d2 - 3 - 153 * m) by (pose proof (Z.mul_div_le (5 * d2 - 3) 153); lia).
  rewrite (Z.quot_div_nonneg (5 * d2 - 3 - 153 * m + 5)) by lia.
  remember ((5 * d2 - 3 - 153 * m + 5) / 5) as d eqn:Hd.
  destruct (decode_march N c day ya d2 m d ltac:(lia) Hc Hday Hya Hd2 Hm Hd) as (Hmr & Hnum & Hdr & Hy').
  clear Hc Hday Hya Hd2 Hm Hd. set (y' := 100 * c + ya) in *.
  rewrite march_civil in Hnum by done.
  exists (civil_year y' m), (civil_month m), d.
  assert (Hcm : 0 <= civil_month m <= 11) by (unfold civil_month; case_decide; lia).
  assert (Hciv : civil_date (civil_year y' m) (civil_month m) d).
  { unfold civil_date. split_and!; try lia; apply (civil_years _ _ d Hcm Hdr); unfold MIN_DATE, MAX_DATE; lia. }
  split; [done|]. split; [lia|].
  unfold calendar. rewrite Hnum.
  replace (if decide (m < 10) then (m + 3, y') else (m - 9, y' + 1)) with (civil_month m + 1, civil_year y' m)
    by (unfold civil_month, civil_year; case_decide; f_equal; lia).
  rewrite Z.add_simpl_r, yday_civil by done. cbn [mbind Outcome_bind]. f_equal. f_equal. f_equal. lia.
Qed.

(** ** The numbers of the dates differ *)

Lemma days_before_year_mono y1 y2 : y1 <= y2 -> days_before_year y1 <= days_before_year y2.
Proof.
  intros Hle. replace y2 with (y1 + (y2 - y1)) by lia.
  apply (natlike_ind (fun k => days_before_year y1 <= days_before_year (y1 + k))); [|..|lia].
  - rewrite Z.add_0_r. lia.
  - intros k _ IH. rewrite Z.add_succ_r. unfold Z.succ. rewrite days_before_year_next. case_match; lia.
Qed.

Lemma days_before_month_mono y m1 m2 : 0 <= m1 -> m1 < m2 -> m2 <= 11 ->
  days_before_month y m1 + month_length y m1 <= days_before_month y m2.
Proof.
  intros H1 H12 H2. rewrite !days_before_month_eq by lia. unfold month_length.
  months m1; months m2; try lia; destruct (leap y); vm_compute; discriminate.
Qed.

Lemma date_number_inj y1 m1 d1 y2 m2 d2 :
  civil_date y1 m1 d1 -> civil_date y2 m2 d2 -> date_number y1 m1 d1 = date_number y2 m2 d2 ->
  y1 = y2 /\ m1 = m2 /\ d1 = d2.
Proof.
  intros (Hy1 & Hm1 & Hd1) (Hy2 & Hm2 & Hd2). unfold date_number. intros Heq.
  destruct (month_in_year y1 m1 Hm1), (month_in_year y2 m2 Hm2).
  pose proof (days_before_year_next y1). pose proof (days_before_year_next y2).
  assert (y1 < y2 \/ y2 < y1 \/ y1 = y2) as [Hy|[Hy| ->]] by lia.
  - pose proof (days_before_year_mono (y1 + 1) y2 ltac:(lia)). lia.
  - pose proof (days_before_year_mono (y2 + 1) y1 ltac:(lia)). lia.
  - assert (m1 < m2 \/ m2 < m1 \/ m1 = m2) as [Hm|[Hm| ->]] by lia.
    + pose proof (days_before_month_mono y2 m1 m2). lia.
    + pose proof (days_before_month_mono y2 m2 m1). lia.
    + lia.
Qed.

Lemma civil_valid y m d : civil_date y m d -> isValidDate (date_number y m d) = true.
Proof.
  intros (Hy & Hm & Hd). apply bool_decide_eq_true.
  pose proof (proj2 (civil_years y m d Hm Hd) Hy). lia.
Qed.

Lemma decode_date_number y m d : civil_date y m d -> decode_date (date_number y m d) = Ok (calendar y m d).
Proof.
  intros Hc. destruct (decode_civil _ (civil_valid y m d Hc)) as (y2 & m2 & d2 & Hc2 & Heq & Hdec).
  destruct (date_number_inj _ _ _ _ _ _ Hc2 Hc Heq) as (-> & -> & ->). done.
Qed.

(** ** Times *)

Definition clock_time (h mi s f : Z) : Prop := 0 <= h <= 23 /\ 0 <= mi <= 59 /\ 0 <= s <= 59 /\ 0 <= f <= 9999.
Definition time_number (h mi s f : Z) : Z := ((h * 60 + mi) * 60 + s) * 10000 + f.

Lemma encode_clock h mi s f : clock_time h mi s f -> encode_time h mi s f = Ok (time_number h mi s f).
Proof.
  intros (Hh & Hm & Hs & Hf). unfold encode_time, ISC_TIME_SECONDS_PRECISION.
  do 6 (rewrite int_ok by lia; cbn [mbind Outcome_bind]).
  rewrite wrapU_id; [done|]. unfold inU. change (2 ^ 32) with 4294967296. lia.
Qed.

Lemma decode_clock h mi s f : clock_time h mi s f -> decode_time (time_number h mi s f) = (h, mi, s, f).
Proof.
  intros (Hh & Hm & Hs & Hf). unfold decode_time, time_number, ISC_TIME_SECONDS_PRECISION.
  set (n := ((h * 60 + mi) * 60 + s) * 10000 + f).
  assert (E : forall a b q r, a = b * q + r -> 0 <= r < b -> a / b = q /\ a mod b = r).
  { intros a b q r Ha Hr. split; symmetry; [apply (Z.div_unique _ _ _ r)|apply (Z.mod_unique _ _ q)]; lia. }
  destruct (E n (3600 * 10000) h ((mi * 60 + s) * 10000 + f)) as [-> ->]; [lia|lia|].
  destruct (E ((mi * 60 + s) * 10000 + f) (60 * 10000) mi (s * 10000 + f)) as [-> ->]; [lia|lia|].
  destruct (E (s * 10000 + f) 10000 s f) as [-> ->]; [lia|lia|]. done.
Qed.

(** Every valid time is that of a clock. *)
Lemma decode_time_clock n : 0 <= n -> isValidTime n = true ->
  exists h mi s f, clock_time h mi s f /\ time_number h mi s f = n /\ decode_time n = (h, mi, s, f).
Proof.
  intros H0 H24. apply bool_decide_eq_true in H24.
  unfold decode_time, time_number, clock_time, ISC_TIME_SECONDS_PRECISION in *.
  set (n1 := n mod (3600 * 10000)). set (n2 := n1 mod (60 * 10000)).
  pose proof (Z.div_mod n (3600 * 10000) ltac:(lia)). pose proof (Z.mod_pos_bound n (3600 * 10000) ltac:(lia)).
  fold n1 in H, H1.
  pose proof (Z.div_mod n1 (60 * 10000) ltac:(lia)). pose proof (Z.mod_pos_bound n1 (60 * 10000) ltac:(lia)).
  fold n2 in H2, H3.
  pose proof (Z.div_mod n2 10000 ltac:(lia)). pose proof (Z.mod_pos_bound n2 10000 ltac:(lia)).
  do 4 eexists. split; [|split; [|reflexivity]]; lia.
Qed.

(** C28. The valid dates are the dates of the calendar from the year 1 to the year 9999:
    [decode_date] maps each to the one date whose number it is, with the day of the year
    and, from Sunday on, of the week, and [encode_date] maps it back. *)
Theorem decode_date_correct n :
  isValidDate n = true ->
  exists y m d, civil_date y m d /\ date_number y m d = n /\
    (forall y' m' d', civil_date y' m' d' -> date_number y' m' d' = n -> y' = y /\ m' = m /\ d' = d) /\
    decode_date n = Ok (calendar y m d) /\ encode_date (calendar y m d) = Ok n.
Proof.
  intros Hn. destruct (decode_civil n Hn) as (y & m & d & Hc & <- & Hdec).
  exists y, m, d. split_and!; [done|done| |done|by apply encode_civil].
  intros y' m' d' Hc' Heq. by apply date_number_inj.
Qed.

Lemma decode_date_correct_witness : exists y m d, civil_date y m d /\ date_number y m d = 60000 /\
  (forall y' m' d', civil_date y' m' d' -> date_number y' m' d' = 60000 -> y' = y /\ m' = m /\ d' = d) /\
  decode_date 60000 = Ok (calendar y m d) /\ encode_date (calendar y m d) = Ok 60000.
Proof. apply (decode_date_correct 60000). reflexivity. Defined.

(** February 29, 2024 is a Thursday and the sixtieth day of its year. *)
Example decode_leap_day : decode_date 60369 =
  Ok {| tm_sec := 0; tm_min := 0; tm_hour := 0; tm_mday := 29; tm_mon := 1; tm_year := 124;
        tm_wday := 4; tm_yday := 59; tm_isdst := 0 |}.
Proof. reflexivity. Qed.

(** [round_time] rounds a time down to a multiple of the period of the precision, and
    leaves the times that have the precision already. *)
Theorem round_time_correct n precision :
  inU 32 n -> -5 <= precision ->
  exists r, round_time n precision = Ok r /\ 0 <= r <= n /\
    let period := 10 ^ Z.max 0 (4 - precision) in
    (period | r) /\ (forall k, (period | k) -> k <= n -> k <= r).
Proof.
  intros Hn Hp. unfold round_time, ISC_TIME_SECONDS_PRECISION_SCALE.
  change (- -4) with 4. unfold inU in Hn. destruct (decide (4 - precision <= 0)) as [Hle|Hgt].
  - exists n. rewrite Z.max_l by lia. change (10 ^ 0) with 1. split_and!; try lia; [done|apply Z.divide_1_l].
  - rewrite Z.max_r by lia.
    assert (Hat : POW_10_TABLE @ (4 - precision) = Some (10 ^ (4 - precision))).
    { assert (H : 4 - precision = 1 \/ 4 - precision = 2 \/ 4 - precision = 3 \/ 4 - precision = 4 \/
        4 - precision = 5 \/ 4 - precision = 6 \/ 4 - precision = 7 \/ 4 - precision = 8 \/ 4 - precision = 9) by lia.
      repeat (destruct H as [->|H]; [reflexivity|]). by rewrite H. }
    rewrite Hat. set (period := 10 ^ (4 - precision)). assert (0 < period) by (apply Z.pow_pos_nonneg; lia).
    pose proof (Z.div_mod n period ltac:(lia)) as Hd. pose proof (Z.mod_pos_bound n period ltac:(lia)).
    assert (0 <= n / period) by (apply Z.div_pos; lia).
    exists (n - n mod period). cbn. split_and!; [done|nia|lia|exists (n / period); lia|].
    intros k [q ->] Hk. assert (q <= n / period); [apply Z.div_le_lower_bound; lia|nia].
Qed.

Lemma round_time_correct_witness : exists r, round_time 123456 1 = Ok r /\ 0 <= r <= 123456 /\
  let period := 10 ^ Z.max 0 (4 - 1) in (period | r) /\ (forall k, (period | k) -> k <= 123456 -> k <= r).
Proof. apply (round_time_correct 123456 1); unfold inU; lia. Defined.
