(* ===== verification/CvtDateTime.v ===== *)
(** * Dates as text: [src/src/common/cvt.cpp]

    [string_to_datetime] reads a date, a time or both from a text, and [datetime_to_text]
    writes them. A text is a list of the numbers of its bytes; the pointer [p] into it is
    the rest of the text.

    [err] does not return: an error of the conversion is a value of [Cvt]. The time stamp of
    the system is the parameter [now]. *)

From S2P Require Import Prelude Outcome TimeStamp.

Inductive gds_code :=
  isc_convert_error | isc_date_range_exceeded | isc_time_range_exceeded | isc_datetime_range_exceeded.

Inductive Cvt (A : Type) := Value (a : A) | Err (e : gds_code) | Undef.
Arguments Value {_}.
Arguments Err {_}.
Arguments Undef {_}.

#[export] Instance Cvt_bind : MBind Cvt := fun A B f m =>
  match m with Value a => f a | Err e => Err e | Undef => Undef end.

(** The calendar's functions raise no error. *)
Definition calc {A} (o : Outcome A) : Cvt A :=
  match o with Ok a => Value a | _ => Undef end.

Definition text (s : string) : list Z :=
  map (fun c => Z.of_N (Ascii.N_of_ascii c)) (String.list_ascii_of_string s).

(** ** Characters and names *)

Definition UPPER7 (c : Z) : Z := if decide (97 <= c /\ c <= 122) then c - 97 + 65 else c.
Definition LETTER7 (c : Z) : bool := bool_decide (65 <= c /\ c <= 90).
Definition DIGIT (c : Z) : bool := bool_decide (48 <= c /\ c <= 57).

(** Space and tab, and what may be behind the text *)
Definition blank (c : Z) : bool := bool_decide (c = 32 \/ c = 9).
Definition trash (c : Z) : bool := negb (blank c || bool_decide (c = 0)).

Definition FB_LONG_MONTHS_UPPER : list (list Z) :=
  map text ["JANUARY"; "FEBRUARY"; "MARCH"; "APRIL"; "MAY"; "JUNE"; "JULY"; "AUGUST";
            "SEPTEMBER"; "OCTOBER"; "NOVEMBER"; "DECEMBER"]%string.
Definition TODAY : list Z := text "TODAY".
Definition NOW : list Z := text "NOW".
Definition TOMORROW : list Z := text "TOMORROW".
Definition YESTERDAY : list Z := text "YESTERDAY".

Inductive EXPECT_DATETIME := expect_timestamp | expect_sql_date | expect_sql_time.
#[export] Instance EXPECT_DATETIME_eq_dec : EqDecision EXPECT_DATETIME.
Proof. solve_decision. Defined.

(** Values of [description] that are not a number of digits *)
Definition ENGLISH_MONTH : Z := -1.

(** ** Reading a component *)

Fixpoint skip_blanks (p : list Z) : list Z :=
  match p with
  | c :: p' => if blank c then skip_blanks p' else p
  | [] => []
  end.

(** [n] and [precision] are of type [USHORT]. *)
Fixpoint read_digits (n precision : Z) (p : list Z) : Z * Z * list Z :=
  match p with
  | c :: p' => if DIGIT c then read_digits (wrapU 16 (n * 10 + c - 48)) (wrapU 16 (precision + 1)) p'
               else (n, precision, p)
  | [] => (n, precision, [])
  end.

(** The letters, in upper case, that fit into [temp] *)
Fixpoint read_word (room : nat) (p : list Z) : list Z * list Z :=
  match room, p with
  | S room, c :: p' =>
      if LETTER7 (UPPER7 c) then let '(temp, p'') := read_word room p' in (UPPER7 c :: temp, p'')
      else ([], p)
  | _, _ => ([], p)
  end.

(** The word, that has no NUL, is the beginning of the name. *)
Fixpoint month_begins (t m : list Z) : bool :=
  match t, m with
  | [], _ => true
  | c :: t, d :: m => bool_decide (c = d) && month_begins t m
  | _ :: _, [] => false
  end.

(** The number of the month, from [n] on *)
Fixpoint find_month (n : Z) (months : list (list Z)) (temp : list Z) : option Z :=
  match months with
  | m :: months => if month_begins temp m then Some n else find_month (n + 1) months temp
  | [] => None
  end.

(** A magic word, with the rest of the text behind it: [++p] comes before the first check. *)
Definition special (expect_type : EXPECT_DATETIME) (now : ISC_TIMESTAMP) (temp p : list Z) : Cvt ISC_TIMESTAMP :=
  if existsb trash (tail p) then Err isc_convert_error
  else if decide (temp = NOW) then Value now
  else if decide (expect_type = expect_sql_time) then Err isc_convert_error
  else if decide (temp = TODAY) then Value {| timestamp_date := timestamp_date now; timestamp_time := 0 |}
  else if decide (temp = TOMORROW) then
    d ← calc (int (timestamp_date now + 1)); Value {| timestamp_date := d; timestamp_time := 0 |}
  else if decide (temp = YESTERDAY) then
    d ← calc (int (timestamp_date now - 1)); Value {| timestamp_date := d; timestamp_time := 0 |}
  else Err isc_convert_error.

(** ** The components

    Year, month, day, hours, minutes, seconds and fractions; the first three in any order.
    [position_month], that a name of a month sets, is set again before it is read. *)

(** An element of an array, and an assignment to one: the array ends at its length. *)
Definition part (a : list Z) (k : nat) : Cvt Z := calc (access (a !! k)).
Definition set_part (a : list Z) (k : nat) (v : Z) : Cvt (list Z) := calc (access (aset a (Z.of_nat k) v)).

Record parse := {
  components : list Z; description : list Z; have_english_month : bool; dot_separator_seen : bool
}.

Definition parse_start : parse :=
  {| components := replicate 7 0; description := replicate 7 0;
     have_english_month := false; dot_separator_seen := false |}.

Definition store_component (st : parse) (i : nat) (n d : Z) (english : bool) : Cvt parse :=
  description ← set_part (description st) i d;
  components ← set_part (components st) i n;
  Value {| components := components; description := description;
           have_english_month := have_english_month st || english; dot_separator_seen := dot_separator_seen st |}.

Definition see_dot (st : parse) (i : nat) : parse :=
  {| components := components st; description := description st;
     have_english_month := have_english_month st;
     dot_separator_seen := dot_separator_seen st || bool_decide (i <= 1)%nat |}.

(** The white space and the separator behind a component; [None] at the end of the text *)
Definition separator (st : parse) (i : nat) (p : list Z) : parse * option (list Z) :=
  match skip_blanks p with
  | [] => (st, None)
  | c :: p' =>
      if bool_decide (c = 47 \/ c = 45 \/ c = 44 \/ c = 58) then (st, Some p')
      else if decide (c = 46) then (see_dot st i, Some p')
      else (st, Some (c :: p'))
  end.

(** The loop, [7 - i] times at most, ends with the result of a magic word or with [i], the
    components and the rest of the text. *)
Fixpoint parse_components (expect_type : EXPECT_DATETIME) (now : ISC_TIMESTAMP) (rounds : nat)
    (i : nat) (st : parse) (p : list Z) : Cvt (ISC_TIMESTAMP + nat * parse * list Z) :=
  match rounds with
  | O => Value (inr (i, st, p))
  | S rounds =>
      let next (st : Cvt parse) (p : list Z) :=
        st ← st;
        match separator st i p with
        | (st, None) => Value (inr (i, st, []))
        | (st, Some p) => parse_components expect_type now rounds (S i) st p
        end in
      match skip_blanks p with
      | [] => Value (inr (i, st, []))
      | c :: p' =>
          if DIGIT (UPPER7 c) then
            let '(n, precision, p) := read_digits 0 0 (c :: p') in
            next (store_component st i n precision false) p
          else if LETTER7 (UPPER7 c) && negb (have_english_month st) then
            let '(temp, p) := read_word 10 (c :: p') in
            if decide (length temp < 3)%nat then Err isc_convert_error
            else
              match (if decide (i < 2)%nat then find_month 1 FB_LONG_MONTHS_UPPER temp else None) with
              | Some n => next (store_component st i n ENGLISH_MONTH true) p
              | None => ts ← special expect_type now temp p; Value (inl ts)
              end
          else Err isc_convert_error
      end
  end.

(** ** The fields *)

(** The positions of the year, the month and the day *)
Definition positions (description : list Z) (dot : bool) : Cvt (nat * nat * nat) :=
  d0 ← part description 0;
  if decide (d0 >= 3) then Value (0, 1, 2)%nat
  else if decide (d0 = ENGLISH_MONTH) then Value (2, 0, 1)%nat
  else
    d1 ← part description 1;
    if decide (d1 = ENGLISH_MONTH) then Value (2, 1, 0)%nat
    else if dot then Value (2, 1, 0)%nat
    else Value (2, 0, 1)%nat.

(** The year meant by a year of at most two digits; [current] is [tm_year] of the system's time. *)
Definition expand_year (current year : Z) : Z :=
  if decide (year < Z.rem (current - 50) 100) then year + 2000 else year + 1900.

Definition date_fields (now : ISC_TIMESTAMP) (st : parse) : Cvt (Z * Z * Z) :=
  '(position_year, position_month, position_day) ← positions (description st) (dot_separator_seen st);
  dy ← part (description st) position_year;
  dm ← part (description st) position_month;
  dd ← part (description st) position_day;
  if bool_decide (dy > 4) || bool_decide (dm > 2) || bool_decide (dm = 0) || bool_decide (dd > 2)
     || bool_decide (dd <= 0)
  then Err isc_convert_error
  else
    year ← part (components st) position_year;
    month ← part (components st) position_month;
    day ← part (components st) position_day;
    times2 ← calc (decode_date (timestamp_date now));
    let year :=
      if decide (dy = 0) then tm_year times2 + 1900
      else if decide (dy <= 2) then expand_year (tm_year times2) year
      else year in
    Value (year - 1900, month - 1, day).

(** [||] of conditions on elements of an array, from left to right *)
Fixpoint any_part (tests : list (list Z * nat * (Z -> bool))) : Cvt bool :=
  match tests with
  | [] => Value false
  | (a, k, test) :: tests => v ← part a k; if test v then Value true else any_part tests
  end.

Definition above (n v : Z) : bool := bool_decide (v > n).

Definition time_wrong (st : parse) : Cvt bool :=
  let c := components st in let d := description st in
  let is_missing v := bool_decide (v = 0) in
  any_part
    [ (c, 3%nat, above 23); (c, 4%nat, above 59); (c, 5%nat, above 59);
      (d, 3%nat, above 2); (d, 3%nat, is_missing); (d, 4%nat, above 2); (d, 4%nat, is_missing);
      (d, 5%nat, above 2); (d, 6%nat, above (- ISC_TIME_SECONDS_PRECISION_SCALE)) ].

(** ** The check of the fields

    They are those of the time stamp made of them. *)

Definition range_exceeded (expect_type : EXPECT_DATETIME) : gds_code :=
  match expect_type with
  | expect_sql_date => isc_date_range_exceeded
  | expect_sql_time => isc_time_range_exceeded
  | expect_timestamp => isc_datetime_range_exceeded
  end.

Definition fields_differ (times times2 : tm) : bool :=
  bool_decide (tm_year times <> tm_year times2) || bool_decide (tm_mon times <> tm_mon times2)
  || bool_decide (tm_mday times <> tm_mday times2) || bool_decide (tm_hour times <> tm_hour times2)
  || bool_decide (tm_min times <> tm_min times2) || bool_decide (tm_sec times <> tm_sec times2).

Definition check_fields (expect_type : EXPECT_DATETIME) (times : tm) : Cvt ISC_TIMESTAMP :=
  ts ← calc (encode_timestamp times 0);
  if isValidTimeStamp ts then
    if decide (expect_type = expect_sql_time) then Value ts
    else
      '(times2, _) ← calc (decode_timestamp ts);
      if fields_differ times times2 then Err isc_convert_error else Value ts
  else Err (range_exceeded expect_type).

(** [while (description[6]++ < 4) components[6] *= 10;] *)
Definition scale_fraction (d c : Z) : Z :=
  Nat.iter (Z.to_nat (- ISC_TIME_SECONDS_PRECISION_SCALE - d)) (fun c => wrapU 16 (c * 10)) c.

Definition fields_to_datetime (expect_type : EXPECT_DATETIME) (now : ISC_TIMESTAMP) (i : nat) (st : parse)
    : Cvt ISC_TIMESTAMP :=
  '(year, mon, mday) ← (if decide (expect_type = expect_sql_time) then Value (0, 0, 1) else date_fields now st);
  wrong ← (if decide (2 < i)%nat then time_wrong st else Value false);
  if wrong : bool then Err isc_convert_error
  else
    let field k := if decide (2 < i)%nat then part (components st) k else Value 0 in
    hour ← field 3%nat;
    min ← field 4%nat;
    sec ← field 5%nat;
    let times := {| tm_sec := sec; tm_min := min; tm_hour := hour; tm_mday := mday;
                    tm_mon := mon; tm_year := year; tm_wday := 0; tm_yday := 0; tm_isdst := 0 |} in
    ts ← check_fields expect_type times;
    d ← part (description st) 6;
    c ← part (components st) 6;
    let fraction := scale_fraction d c in
    Value {| timestamp_date := timestamp_date ts; timestamp_time := wrapU 32 (timestamp_time ts + fraction) |}.

Definition string_to_datetime (expect_type : EXPECT_DATETIME) (now : ISC_TIMESTAMP) (p : list Z) : Cvt ISC_TIMESTAMP :=
  let start_component := (if decide (expect_type = expect_sql_time) then 3 else 0)%nat in
  r ← parse_components expect_type now (7 - start_component) start_component parse_start p;
  match r with
  | inl ts => Value ts
  | inr (i, st, p) =>
      if decide (i - start_component < 1)%nat then Err isc_convert_error
      else if decide (expect_type = expect_sql_date /\ (2 < i)%nat) then Err isc_convert_error
      else if existsb trash p then Err isc_convert_error
      else fields_to_datetime expect_type now i st
  end.

(** ** [datetime_to_text] *)

Inductive datetime := dt_sql_time (t : Z) | dt_sql_date (d : Z) | dt_timestamp (ts : ISC_TIMESTAMP).

(** [n] with [k] digits, and the number of its digits, of an [int] ten at most *)
Fixpoint digits (k : nat) (n : Z) : list Z :=
  match k with O => [] | S k => digits k (n / 10) ++ [48 + n mod 10] end.
Fixpoint digit_count (fuel : nat) (n : Z) : nat :=
  match fuel with O => 0 | S fuel => if decide (n < 10) then 1 else S (digit_count fuel (n / 10)) end.

(** [sprintf] of an [int] with a precision, which is 1 if it is not given *)
Definition sprintf_d (precision : nat) (n : Z) : list Z :=
  let k := Nat.max precision (digit_count 10 (Z.abs n)) in
  if decide (n < 0) then 45 :: digits k (- n) else digits k n.

Definition date_text (times : tm) : list Z :=
  sprintf_d 4 (tm_year times + 1900) ++ [45] ++ sprintf_d 2 (tm_mon times + 1) ++ [45] ++ sprintf_d 2 (tm_mday times).
Definition date_text4 (times : tm) : Cvt (list Z) :=
  month ← calc (access (FB_LONG_MONTHS_UPPER @ tm_mon times));
  Value (sprintf_d 1 (tm_mday times) ++ [45] ++ take 3 month ++ [45] ++ sprintf_d 1 (tm_year times + 1900)).

(** Hours with the precision [k] *)
Definition time_text (k : nat) (times : tm) (fractions : Z) : list Z :=
  sprintf_d k (tm_hour times) ++ [58] ++ sprintf_d 2 (tm_min times) ++ [58] ++ sprintf_d 2 (tm_sec times)
  ++ [46] ++ sprintf_d 4 fractions.

(** The fields of a value, those that it lacks with 0 *)
Definition datetime_fields (from : datetime) : Cvt (tm * Z) :=
  match from with
  | dt_sql_time t =>
      let '(h, mi, s, f) := decode_time t in
      Value ({| tm_sec := s; tm_min := mi; tm_hour := h; tm_mday := 0; tm_mon := 0; tm_year := 0;
                tm_wday := 0; tm_yday := 0; tm_isdst := 0 |}, f)
  | dt_sql_date d => times ← calc (decode_date d); Value (times, 0)
  | dt_timestamp ts => calc (decode_timestamp ts)
  end.

(** The text in [temp], a buffer of 30 characters, before it is moved to the destination;
    [version4] is what [isVersion4] sets for a time stamp. *)
Definition datetime_to_text (from : datetime) (version4 : bool) : Cvt (list Z) :=
  '(times, fractions) ← datetime_fields from;
  temp ←
    match from with
    | dt_sql_time _ => Value (time_text 2 times fractions)
    | dt_sql_date _ => Value (date_text times)
    | dt_timestamp _ =>
        if version4 then
          date ← date_text4 times;
          if bool_decide (tm_hour times <> 0) || bool_decide (tm_min times <> 0) || bool_decide (tm_sec times <> 0)
             || bool_decide (fractions <> 0)
          then Value (date ++ [32] ++ time_text 1 times fractions)
          else Value date
        else Value (date_text times ++ [32] ++ time_text 2 times fractions)
    end;
  if decide (length temp < 30)%nat then Value temp else Undef.

(** A time of the system for examples: noon of February 29, 2024 *)
Definition example_now : ISC_TIMESTAMP := {| timestamp_date := 60369; timestamp_time := 432000000 |}.

(** ** Within the arrays *)

Lemma part_in a k : (k < length a)%nat -> part a k = Value (a !!! k).
Proof. intros H. unfold part. by rewrite list_lookup_lookup_total_lt. Qed.

Lemma set_part_in a k v : (k < length a)%nat -> set_part a k v = Value (<[k := v]> a).
Proof. intros H. unfold set_part. rewrite aset_in by lia. by rewrite Nat2Z.id. Qed.

Definition stored (st : parse) (i : nat) (n d : Z) (english : bool) : parse :=
  {| components := <[i := n]> (components st); description := <[i := d]> (description st);
     have_english_month := have_english_month st || english; dot_separator_seen := dot_separator_seen st |}.

Lemma store_component_in st i n d english : (i < length (components st))%nat -> (i < length (description st))%nat ->
  store_component st i n d english = Value (stored st i n d english).
Proof. intros Hc Hd. unfold store_component. by rewrite !set_part_in. Qed.
