(* ===== verification/CvtRoundtrip.v ===== *)
(** * Dates that are written are read again

    [string_to_datetime] reads back what [datetime_to_text] writes, for each kind of value
    and both formats. *)

From S2P Require Import Prelude Outcome TimeStamp CvtDateTime.

(** ** Numbers *)

Lemma digits_length k n : length (digits k n) = k.
Proof. revert n. induction k as [|k IH]; intros n; [done|]. cbn. rewrite length_app, IH. simpl. lia. Qed.

Lemma digits_head k n : (0 < k)%nat -> exists c p, digits k n = c :: p /\ 48 <= c <= 57.
Proof.
  revert n. induction k as [|k IH]; intros n Hk; [lia|]. cbn.
  destruct k as [|k].
  - exists (48 + n mod 10), []. split; [done|]. pose proof (Z.mod_pos_bound n 10). lia.
  - destruct (IH (n / 10) ltac:(lia)) as (c & p & -> & Hc). eauto.
Qed.

Lemma DIGIT_digit n : DIGIT (48 + n mod 10) = true.
Proof. apply bool_decide_eq_true. pose proof (Z.mod_pos_bound n 10). lia. Qed.

(** The digits of a number are read with an accumulator. *)
Lemma read_digits_app k n a d q :
  0 <= n < 10 ^ Z.of_nat k -> 0 <= a -> a * 10 ^ Z.of_nat k + n < 65536 -> 0 <= d -> d + Z.of_nat k < 65536 ->
  read_digits a d (digits k n ++ q) = read_digits (a * 10 ^ Z.of_nat k + n) (d + Z.of_nat k) q.
Proof.
  revert n q. induction k as [|k IH]; intros n q Hn Ha Hs Hd Hds.
  - change (10 ^ Z.of_nat 0) with 1 in *. cbn [digits app]. f_equal; lia.
  - rewrite Nat2Z.inj_succ, Z.pow_succ_r in * by lia. cbn [digits]. rewrite <- app_assoc. cbn [app].
    set (t := 10 ^ Z.of_nat k) in *. assert (0 < t) by (apply Z.pow_pos_nonneg; lia).
    pose proof (Z.div_mod n 10 ltac:(lia)). pose proof (Z.mod_pos_bound n 10 ltac:(lia)).
    assert (0 <= n / 10) by (apply Z.div_pos; lia). assert (n / 10 < t) by (apply Z.div_lt_upper_bound; lia).
    rewrite IH by (fold t; nia). fold t. cbn [read_digits]. rewrite DIGIT_digit.
    rewrite !wrapU_id; [f_equal; lia|unfold inU; change (2 ^ 16) with 65536..]; nia.
Qed.

Definition no_digit (q : list Z) : bool := match q with c :: _ => negb (DIGIT c) | [] => true end.

Lemma read_digits_all k n q :
  0 <= n < 10 ^ Z.of_nat k -> (k <= 4)%nat -> no_digit q = true ->
  read_digits 0 0 (digits k n ++ q) = (n, Z.of_nat k, q).
Proof.
  intros Hn Hk Hq. assert (10 ^ Z.of_nat k <= 10 ^ 4) by (apply Z.pow_le_mono_r; lia).
  change (10 ^ 4) with 10000 in *. rewrite read_digits_app by lia.
  destruct q as [|c q]; cbn; [done|]. cbn in Hq. by destruct (DIGIT c).
Qed.

Lemma digit_char c : 48 <= c <= 57 ->
  blank c = false /\ DIGIT (UPPER7 c) = true /\ bool_decide (c = 47 \/ c = 45 \/ c = 44 \/ c = 58) = false /\ c <> 46.
Proof.
  intros Hc. unfold blank, DIGIT, UPPER7. rewrite decide_False by lia.
  rewrite !bool_decide_eq_false, bool_decide_eq_true. lia.
Qed.

Lemma digit_count_spec fuel n : 0 <= n < 10 ^ Z.of_nat fuel -> (0 < fuel)%nat ->
  let k := digit_count fuel n in
  (1 <= k <= fuel)%nat /\ n < 10 ^ Z.of_nat k /\ (k = 1%nat \/ 10 ^ Z.of_nat (k - 1) <= n).
Proof.
  revert n. induction fuel as [|fuel IH]; intros n Hn Hf; [lia|]. cbn. case_decide as H10.
  - change (10 ^ Z.of_nat 1) with 10. lia.
  - rewrite Nat2Z.inj_succ, Z.pow_succ_r in Hn by lia.
    destruct (decide (fuel = 0%nat)) as [->|Hf0]; [change (10 ^ Z.of_nat 0) with 1 in Hn; lia|].
    destruct (IH (n / 10)) as (Hk & Hlt & Hge);
      [split; [apply Z.div_pos; lia|apply Z.div_lt_upper_bound; lia]|lia|].
    set (k := digit_count fuel (n / 10)) in *.
    rewrite Nat2Z.inj_succ, Z.pow_succ_r by lia.
    pose proof (Z.div_mod n 10 ltac:(lia)). pose proof (Z.mod_pos_bound n 10 ltac:(lia)).
    split; [lia|]. split; [lia|]. right. replace (S k - 1)%nat with k by lia.
    destruct Hge as [->|Hge]; [change (10 ^ Z.of_nat 1) with 10; lia|].
    replace k with (S (k - 1)) by lia. rewrite Nat2Z.inj_succ, Z.pow_succ_r by lia. lia.
Qed.

(** [sprintf] writes as many digits as the precision or the number demands. *)
Lemma sprintf_digits precision most n :
  (1 <= precision <= most)%nat -> (most <= 4)%nat -> 0 <= n < 10 ^ Z.of_nat most ->
  exists k, sprintf_d precision n = digits k n /\ (precision <= k <= most)%nat /\ n < 10 ^ Z.of_nat k /\
    (k = precision \/ 10 ^ Z.of_nat (k - 1) <= n).
Proof.
  intros Hp Hm Hn. assert (10 ^ Z.of_nat most <= 10 ^ 4) by (apply Z.pow_le_mono_r; lia).
  change (10 ^ 4) with 10000 in *.
  destruct (digit_count_spec 10 n) as (Hk & Hlt & Hge); [change (10 ^ Z.of_nat 10) with 10000000000; lia|lia|].
  set (k := digit_count 10 n) in *. exists (Nat.max precision k).
  unfold sprintf_d. rewrite Z.abs_eq, decide_False by lia. fold k.
  assert (k <= most)%nat.
  { destruct Hge as [->|Hge]; [lia|]. assert (~ (most < k)%nat); [intros Hlt'|lia].
    assert (10 ^ Z.of_nat most <= 10 ^ Z.of_nat (k - 1)) by (apply Z.pow_le_mono_r; lia). lia. }
  split; [done|]. split; [lia|]. destruct (Nat.max_spec precision k) as [[Hc ->]|[Hc ->]].
  - split; [done|]. destruct Hge; lia.
  - split; [|by left]. eapply Z.lt_le_trans; [exact Hlt|apply Z.pow_le_mono_r; lia].
Qed.

Lemma sprintf_exact k n : (1 <= k <= 4)%nat -> 0 <= n < 10 ^ Z.of_nat k -> sprintf_d k n = digits k n.
Proof. intros Hk Hn. destruct (sprintf_digits k k n) as (k' & -> & Hk' & _); [lia..|]. by replace k' with k by lia. Qed.

(** ** Components *)

(** A number in the text is a component. *)
Lemma parse_number et now rounds i st k n q :
  (1 <= k <= 4)%nat -> 0 <= n < 10 ^ Z.of_nat k -> no_digit q = true ->
  (i < length (components st))%nat -> (i < length (description st))%nat ->
  parse_components et now (S rounds) i st (digits k n ++ q) =
  match separator (stored st i n (Z.of_nat k) false) i q with
  | (st, None) => Value (inr (i, st, []))
  | (st, Some p) => parse_components et now rounds (S i) st p
  end.
Proof.
  intros Hk Hn Hq Hic Hid. pose proof (read_digits_all k n q Hn ltac:(lia) Hq) as Hread.
  destruct (digits_head k n ltac:(lia)) as (c & p & Hcp & Hc). rewrite Hcp in *.
  destruct (digit_char c Hc) as (Hb & Hd & _ & _).
  cbn [parse_components app skip_blanks]. rewrite Hb, Hd. cbn [app] in Hread. rewrite Hread. by rewrite store_component_in.
Qed.

Lemma separator_blank st i k n q : (0 < k)%nat ->
  separator st i (32 :: digits k n ++ q) = (st, Some (digits k n ++ q)).
Proof.
  intros Hk. destruct (digits_head k n Hk) as (c & p & -> & Hc). destruct (digit_char c Hc) as (Hb & _ & Hs & Hdot).
  unfold separator. cbn [skip_blanks app]. change (blank 32) with true. cbv iota. cbn [skip_blanks].
  rewrite Hb, Hs. by rewrite decide_False by done.
Qed.

Lemma separator_colon st i q : separator st i (58 :: q) = (st, Some q).
Proof. done. Qed.
Lemma separator_minus st i q : separator st i (45 :: q) = (st, Some q).
Proof. done. Qed.
Lemma separator_dot st i q : separator st i (46 :: q) = (see_dot st i, Some q).
Proof. done. Qed.
Lemma separator_end st i : separator st i [] = (st, None).
Proof. done. Qed.

(** The next component is a number. *)
Ltac next_number :=
  rewrite parse_number by (lia || done || (cbn; lia));
  rewrite ?separator_colon, ?separator_minus, ?separator_dot, ?separator_end; cbv iota beta.

(** The components of a date, and those of a time behind them *)
Definition parsed (y m d h mi s f dy dm dd dh dmi ds df : Z) (english : bool) : parse :=
  {| components := [y; m; d; h; mi; s; f]; description := [dy; dm; dd; dh; dmi; ds; df];
     have_english_month := english; dot_separator_seen := false |}.

Lemma parse_time_text et now y m d dy dm dd english kh h mi s f :
  (1 <= kh <= 2)%nat -> h < 10 ^ Z.of_nat kh -> clock_time h mi s f ->
  parse_components et now 4 3 (parsed y m d 0 0 0 0 dy dm dd 0 0 0 0 english)
    (digits kh h ++ 58 :: digits 2 mi ++ 58 :: digits 2 s ++ 46 :: digits 4 f) =
  Value (inr (6%nat, parsed y m d h mi s f dy dm dd (Z.of_nat kh) 2 2 4 english, [])).
Proof.
  intros Hkh Hh (H1 & H2 & H3 & H4). do 3 next_number.
  rewrite <- (app_nil_r (digits 4 f)). next_number. unfold parsed, stored, see_dot. cbn.
  by rewrite !orb_false_r.
Qed.

Lemma parse_iso_date et now y m d q :
  0 <= y <= 9999 -> 0 <= m <= 99 -> 0 <= d <= 99 -> no_digit q = true ->
  parse_components et now 7 0 parse_start (digits 4 y ++ 45 :: digits 2 m ++ 45 :: digits 2 d ++ q) =
  match separator (parsed y m d 0 0 0 0 4 2 2 0 0 0 0 false) 2 q with
  | (st, None) => Value (inr (2%nat, st, []))
  | (st, Some p) => parse_components et now 4 3 st p
  end.
Proof.
  intros Hy Hm Hd Hq. do 2 next_number. rewrite parse_number by (lia || done || (cbn; lia)). reflexivity.
Qed.

(** A month by the three letters of [datetime_to_text] *)
Lemma parse_month_name et now st m q :
  0 <= m <= 11 -> have_english_month st = false ->
  (1 < length (components st))%nat -> (1 < length (description st))%nat ->
  parse_components et now 6 1 st (take 3 (default [] (FB_LONG_MONTHS_UPPER @ m)) ++ 45 :: q) =
  parse_components et now 5 2 (stored st 1 (m + 1) ENGLISH_MONTH true) q.
Proof.
  intros Hm He Hc Hd. transitivity (st ← store_component st 1 (m + 1) ENGLISH_MONTH true;
    match separator st 1 (45 :: q) with
    | (st, None) => Value (inr (1%nat, st, []))
    | (st, Some p) => parse_components et now 5 2 st p
    end).
  - destruct st as [cs ds e dot]. cbn in He. subst e. months m; reflexivity.
  - by rewrite store_component_in.
Qed.

Lemma parse_version4_date et now kd d m ky y q :
  (1 <= kd <= 2)%nat -> 0 <= d < 10 ^ Z.of_nat kd -> 0 <= m <= 11 ->
  (1 <= ky <= 4)%nat -> 0 <= y < 10 ^ Z.of_nat ky -> no_digit q = true ->
  parse_components et now 7 0 parse_start
    (digits kd d ++ 45 :: take 3 (default [] (FB_LONG_MONTHS_UPPER @ m)) ++ 45 :: digits ky y ++ q) =
  match separator (parsed d (m + 1) y 0 0 0 0 (Z.of_nat kd) ENGLISH_MONTH (Z.of_nat ky) 0 0 0 0 true) 2 q with
  | (st, None) => Value (inr (2%nat, st, []))
  | (st, Some p) => parse_components et now 4 3 st p
  end.
Proof.
  intros Hkd Hd Hm Hky Hy Hq.
  next_number. rewrite parse_month_name by (done || (cbn; lia)). rewrite parse_number by (lia || done || (cbn; lia)). reflexivity.
Qed.

(** ** Fields *)

Lemma check_fields_value et y m d h mi s times :
  civil_date y m d -> clock_time h mi s 0 ->
  tm_year times = y - 1900 -> tm_mon times = m -> tm_mday times = d ->
  tm_hour times = h -> tm_min times = mi -> tm_sec times = s ->
  check_fields et times =
    Value {| timestamp_date := date_number y m d; timestamp_time := time_number h mi s 0 |}.
Proof.
  intros Hc Ht Hy Hm Hd Hh Hmi Hs. unfold check_fields, encode_timestamp.
  rewrite (encode_civil y m d times Hc Hy Hm Hd). cbn [mbind Outcome_bind].
  rewrite Hh, Hmi, Hs, (encode_clock h mi s 0 Ht). cbn [mbind Outcome_bind calc Cvt_bind].
  assert (Hv : isValidTimeStamp {| timestamp_date := date_number y m d; timestamp_time := time_number h mi s 0 |} = true).
  { apply andb_true_iff. split; [by apply civil_valid|]. apply bool_decide_eq_true.
    unfold time_number, clock_time, ISC_TIME_SECONDS_PRECISION in *. cbn. lia. }
  rewrite Hv. case_decide; [done|].
  unfold decode_timestamp. cbn [timestamp_date timestamp_time].
  rewrite decode_date_number, decode_clock by done. cbn.
  unfold fields_differ. cbn. rewrite Hy, Hm, Hd, Hh, Hmi, Hs.
  by rewrite !bool_decide_eq_false_2 by (intros Hne; by apply Hne).
Qed.

Lemma no_time : time_number 0 0 0 0 = 0.
Proof. done. Qed.

(** A time of the day in the components, read with the date that they have *)
Lemma fields_with_time et now a b c h mi s f dy dm dd dh english y m d :
  (if decide (et = expect_sql_time) then Value (0, 0, 1)
   else date_fields now (parsed a b c h mi s f dy dm dd dh 2 2 4 english)) = Value (y - 1900, m, d) ->
  civil_date y m d -> clock_time h mi s f -> 1 <= dh <= 2 ->
  fields_to_datetime et now 6 (parsed a b c h mi s f dy dm dd dh 2 2 4 english) =
    Value {| timestamp_date := date_number y m d; timestamp_time := time_number h mi s f |}.
Proof.
  intros Hdate Hc (Hh & Hmi & Hs & Hf) Hdh. unfold fields_to_datetime. rewrite Hdate. cbn [mbind Cvt_bind].
  assert (Hw : time_wrong (parsed a b c h mi s f dy dm dd dh 2 2 4 english) = Value false).
  { unfold time_wrong, above, ISC_TIME_SECONDS_PRECISION_SCALE. cbn.
    by rewrite !bool_decide_eq_false_2 by lia. }
  rewrite !(decide_True (P := (2 < 6)%nat)) by lia. rewrite Hw. cbn. erewrite check_fields_value; [|exact Hc| |reflexivity..]; [|unfold clock_time; cbn; lia].
  cbn. change (scale_fraction 4 f) with f. unfold time_number.
  rewrite wrapU_id; [by rewrite Z.add_0_r|]. unfold inU. change (2 ^ 32) with 4294967296. lia.
Qed.

(** A date without a time *)
Lemma fields_without_time et now a b c dy dm dd english y m d :
  et <> expect_sql_time ->
  date_fields now (parsed a b c 0 0 0 0 dy dm dd 0 0 0 0 english) = Value (y - 1900, m, d) ->
  civil_date y m d ->
  fields_to_datetime et now 2 (parsed a b c 0 0 0 0 dy dm dd 0 0 0 0 english) =
    Value {| timestamp_date := date_number y m d; timestamp_time := 0 |}.
Proof.
  intros Het Hdate Hc. unfold fields_to_datetime. rewrite (decide_False (P := et = expect_sql_time)) by done. rewrite Hdate. cbn [mbind Cvt_bind].
  rewrite !(decide_False (P := (2 < 2)%nat)) by lia.
  cbn. erewrite check_fields_value; [|exact Hc| |reflexivity..]; [done|unfold clock_time; cbn; lia].
Qed.

Lemma date_fields_iso now y m d h mi s f dh dmi ds df : isValidTimeStamp now = true ->
  date_fields now (parsed y m d h mi s f 4 2 2 dh dmi ds df false) = Value (y - 1900, m - 1, d).
Proof.
  intros [Hn _]%andb_true_iff. destruct (decode_civil _ Hn) as (yn & mn & dn & _ & _ & Hdec).
  unfold date_fields. cbn -[decode_date]. by rewrite Hdec.
Qed.

Lemma date_fields_version4 now y m d kd ky h mi s f dh dmi ds df : isValidTimeStamp now = true ->
  1 <= kd <= 2 -> 3 <= ky <= 4 ->
  date_fields now (parsed d m y h mi s f kd ENGLISH_MONTH ky dh dmi ds df true) = Value (y - 1900, m - 1, d).
Proof.
  intros [Hn _]%andb_true_iff Hkd Hky. destruct (decode_civil _ Hn) as (yn & mn & dn & _ & _ & Hdec).
  unfold date_fields, positions. cbn -[decode_date ENGLISH_MONTH].
  rewrite decide_False by lia. rewrite decide_False by (unfold ENGLISH_MONTH; lia). rewrite decide_True by done.
  cbn -[decode_date]. rewrite !bool_decide_eq_false_2 by (unfold ENGLISH_MONTH; lia). cbn [orb].
  rewrite Hdec. cbn. by rewrite !decide_False by lia.
Qed.

(** ** Texts *)

Lemma civil_day y m d : civil_date y m d -> 1 <= y <= 9999 /\ 0 <= m <= 11 /\ 1 <= d <= 31.
Proof. intros (? & ? & ?). pose proof (month_length_range y m). lia. Qed.

(** The fields of a time stamp in a [tm] *)
Definition moment (y m d h mi s : Z) : tm :=
  {| tm_sec := s; tm_min := mi; tm_hour := h; tm_mday := d; tm_mon := m; tm_year := y - 1900;
     tm_wday := (date_number y m d + 3) mod 7; tm_yday := days_before_month y m + d - 1; tm_isdst := 0 |}.

Lemma date_text_digits y m d h mi s : civil_date y m d ->
  date_text (moment y m d h mi s) = digits 4 y ++ 45 :: digits 2 (m + 1) ++ 45 :: digits 2 d.
Proof.
  intros Hc%civil_day. unfold date_text. cbn [moment tm_year tm_mon tm_mday].
  replace (y - 1900 + 1900) with y by lia. by rewrite !sprintf_exact by lia.
Qed.

Lemma time_text_digits precision times f :
  clock_time (tm_hour times) (tm_min times) (tm_sec times) f -> (1 <= precision <= 2)%nat ->
  exists k, (1 <= k <= 2)%nat /\ tm_hour times < 10 ^ Z.of_nat k /\ time_text precision times f =
    digits k (tm_hour times) ++ 58 :: digits 2 (tm_min times) ++ 58 :: digits 2 (tm_sec times) ++ 46 :: digits 4 f.
Proof.
  intros (Hh & Hm & Hs & Hf) Hp. destruct (sprintf_digits precision 2 (tm_hour times)) as (k & Hk & Hkr & Hlt & _);
    [lia|lia|change (10 ^ Z.of_nat 2) with 100; lia|].
  exists k. unfold time_text. rewrite Hk, !sprintf_exact by lia. split; [lia|done].
Qed.

(** What is expected when a value is read, and the time stamp that stands for it *)
Definition expectation (v : datetime) : EXPECT_DATETIME :=
  match v with
  | dt_sql_time _ => expect_sql_time | dt_sql_date _ => expect_sql_date | dt_timestamp _ => expect_timestamp
  end.
Definition datetime_value (v : datetime) : ISC_TIMESTAMP :=
  match v with
  | dt_sql_time t => {| timestamp_date := date_number 1900 0 1; timestamp_time := t |}
  | dt_sql_date d => {| timestamp_date := d; timestamp_time := 0 |}
  | dt_timestamp ts => ts
  end.

Definition valid_datetime (v : datetime) : Prop :=
  match v with
  | dt_sql_time t => 0 <= t /\ isValidTime t = true
  | dt_sql_date d => isValidDate d = true
  | dt_timestamp ts => 0 <= timestamp_time ts /\ isValidTimeStamp ts = true
  end.

(** A text of components that are parsed to the end *)
Lemma string_parsed et now p i st ts :
  let start := (if decide (et = expect_sql_time) then 3 else 0)%nat in
  parse_components et now (7 - start) start parse_start p = Value (inr (i, st, [])) ->
  (1 <= i - start)%nat -> (et = expect_sql_date -> i <= 2)%nat ->
  fields_to_datetime et now i st = Value ts ->
  string_to_datetime et now p = Value ts.
Proof.
  intros start Hp Hi Hd Hf. unfold string_to_datetime. fold start. rewrite Hp. cbn [mbind Cvt_bind].
  rewrite (decide_False (P := (i - start < 1)%nat)) by lia.
  rewrite (decide_False (P := et = expect_sql_date /\ (2 < i)%nat)) by (intros [He Hlt]; specialize (Hd He); lia).
  exact Hf.
Qed.

Lemma string_text (temp : list Z) : (length temp < 30)%nat -> (if decide (length temp < 30)%nat then Value temp else Undef) = Value temp.
Proof. intros. by rewrite decide_True by done. Qed.

(** The length of a text of numbers *)
Ltac text_length := repeat (rewrite length_app || rewrite digits_length || cbn [length]); lia.

Lemma time_roundtrip now t : 0 <= t -> isValidTime t = true ->
  exists temp, (forall version4, datetime_to_text (dt_sql_time t) version4 = Value temp) /\
    string_to_datetime expect_sql_time now temp = Value (datetime_value (dt_sql_time t)).
Proof.
  intros Ht0 Ht. destruct (decode_time_clock t Ht0 Ht) as (h & mi & s & f & Hc & Hn & Hdec).
  unfold datetime_to_text, datetime_fields. rewrite Hdec. cbn [mbind Cvt_bind].
  destruct (time_text_digits 2 {| tm_sec := s; tm_min := mi; tm_hour := h; tm_mday := 0; tm_mon := 0; tm_year := 0;
    tm_wday := 0; tm_yday := 0; tm_isdst := 0 |} f Hc ltac:(lia)) as (k & Hk & Hlt & Htext).
  rewrite Htext. cbn [tm_hour tm_min tm_sec] in *.
  eexists. rewrite !string_text by text_length.
  split; [done|].
  eapply (string_parsed _ _ _ 6).
  - exact (parse_time_text expect_sql_time now 0 0 0 0 0 0 false k h mi s f Hk Hlt Hc).
  - apply Nat.leb_le. reflexivity.
  - done.
  - rewrite (fields_with_time _ _ _ _ _ _ _ _ _ _ _ _ _ _ 1900 0 1);
      [cbn; by rewrite Hn|done|unfold civil_date; split_and!; vm_compute; discriminate|done|lia].
Qed.

Lemma date_roundtrip now n : isValidTimeStamp now = true -> isValidDate n = true ->
  exists temp, (forall version4, datetime_to_text (dt_sql_date n) version4 = Value temp) /\
    string_to_datetime expect_sql_date now temp = Value (datetime_value (dt_sql_date n)).
Proof.
  intros Hnow Hn. destruct (decode_civil n Hn) as (y & m & d & Hc & Heq & Hdec). pose proof (civil_day _ _ _ Hc) as (Hy & Hm & Hd).
  unfold datetime_to_text, datetime_fields. rewrite Hdec. cbn [mbind Cvt_bind calc].
  change (calendar y m d) with (moment y m d 0 0 0). rewrite date_text_digits by done.
  eexists. rewrite !string_text by text_length. split; [done|].
  eapply (string_parsed _ _ _ 2).
  - rewrite <- (app_nil_r (digits 2 d)).
    refine (eq_trans (parse_iso_date expect_sql_date now y (m + 1) d [] _ _ _ _) _); [lia..|done|reflexivity].
  - apply Nat.leb_le. reflexivity.
  - done.
  - rewrite (fields_without_time _ _ _ _ _ _ _ _ _ y m d); [cbn; by rewrite Heq|done| |done].
    rewrite (date_fields_iso now y (m + 1) d 0 0 0 0 0 0 0 0 Hnow). by rewrite Z.add_simpl_r.
Qed.

(** The parts of a valid time stamp *)
Lemma timestamp_parts ts : valid_datetime (dt_timestamp ts) ->
  exists y m d h mi s f, civil_date y m d /\ clock_time h mi s f /\
    ts = {| timestamp_date := date_number y m d; timestamp_time := time_number h mi s f |} /\
    decode_timestamp ts = Ok (moment y m d h mi s, f).
Proof.
  intros [H0 [Hd Ht]%andb_true_iff]. destruct ts as [n t]. cbn [timestamp_date timestamp_time] in *.
  destruct (decode_civil n Hd) as (y & m & d & Hc & <- & Hdec).
  destruct (decode_time_clock t H0 Ht) as (h & mi & s & f & Hclock & <- & Hdect).
  exists y, m, d, h, mi, s, f. split_and!; [done..|].
  unfold decode_timestamp. cbn [timestamp_date timestamp_time]. rewrite Hdec. cbn [mbind Outcome_bind]. by rewrite Hdect.
Qed.

Lemma timestamp_roundtrip now ts : isValidTimeStamp now = true -> valid_datetime (dt_timestamp ts) ->
  exists temp, datetime_to_text (dt_timestamp ts) false = Value temp /\
    string_to_datetime expect_timestamp now temp = Value ts.
Proof.
  intros Hnow (y & m & d & h & mi & s & f & Hc & Hclock & -> & Hdec)%timestamp_parts.
  pose proof (civil_day _ _ _ Hc) as (Hy & Hm & Hd).
  unfold datetime_to_text, datetime_fields. rewrite Hdec. cbn [mbind Cvt_bind calc].
  rewrite date_text_digits by done.
  destruct (time_text_digits 2 (moment y m d h mi s) f Hclock ltac:(lia)) as (k & Hk & Hlt & Htext).
  rewrite Htext. cbn [moment tm_hour tm_min tm_sec] in *.
  eexists. rewrite !string_text by text_length. split; [done|].
  eapply (string_parsed _ _ _ 6).
  - rewrite <- app_assoc. cbn [app]. rewrite <- app_assoc. cbn [app].
    refine (eq_trans (parse_iso_date expect_timestamp now y (m + 1) d _ _ _ _ _) _); [lia..|done|].
    cbn [app]. rewrite separator_blank by lia. exact (parse_time_text _ _ _ _ _ _ _ _ _ k h mi s f Hk Hlt Hclock).
  - apply Nat.leb_le. reflexivity.
  - done.
  - apply (fields_with_time _ _ _ _ _ _ _ _ _ _ _ _ _ _ y m d); [|done|done|lia].
    rewrite decide_False by done. rewrite date_fields_iso by done. by rewrite Z.add_simpl_r.
Qed.

Lemma month_name m : 0 <= m <= 11 ->
  exists name, FB_LONG_MONTHS_UPPER @ m = Some name /\ length (take 3 name) = 3%nat.
Proof. intros Hm. months m; eexists; split; reflexivity. Qed.

Lemma date_text4_digits y m d h mi s : civil_date y m d -> 100 <= y ->
  exists kd ky, (1 <= kd <= 2)%nat /\ (3 <= ky <= 4)%nat /\ d < 10 ^ Z.of_nat kd /\ y < 10 ^ Z.of_nat ky /\
    length (take 3 (default [] (FB_LONG_MONTHS_UPPER @ m))) = 3%nat /\
    date_text4 (moment y m d h mi s) =
      Value (digits kd d ++ 45 :: take 3 (default [] (FB_LONG_MONTHS_UPPER @ m)) ++ 45 :: digits ky y).
Proof.
  intros (Hy & Hm & Hd)%civil_day H100. destruct (month_name m Hm) as (name & Hname & Hlen).
  destruct (sprintf_digits 1 2 d) as (kd & Hkd & Hkd2 & Hdlt & _); [lia|lia|change (10 ^ Z.of_nat 2) with 100; lia|].
  destruct (sprintf_digits 1 4 y) as (ky & Hky & Hky2 & Hylt & _); [lia|lia|change (10 ^ Z.of_nat 4) with 10000; lia|].
  assert (3 <= ky)%nat.
  { assert (~ (ky <= 2)%nat); [intros Hle|lia]. assert (10 ^ Z.of_nat ky <= 10 ^ 2) by (apply Z.pow_le_mono_r; lia). lia. }
  exists kd, ky. unfold date_text4. cbn [moment tm_mon tm_mday tm_year]. rewrite Hname.
  replace (y - 1900 + 1900) with y by lia. cbn [calc access mbind Cvt_bind default]. rewrite Hkd, Hky.
  split_and!; done || lia.
Qed.

Lemma version4_roundtrip now ts : isValidTimeStamp now = true -> valid_datetime (dt_timestamp ts) ->
  date_number 100 0 1 <= timestamp_date ts ->
  exists temp, datetime_to_text (dt_timestamp ts) true = Value temp /\
    string_to_datetime expect_timestamp now temp = Value ts.
Proof.
  intros Hnow (y & m & d & h & mi & s & f & Hc & Hclock & -> & Hdec)%timestamp_parts H100.
  assert (100 <= y).
  { destruct Hc as (Hy & Hm & Hd). cbn in H100. pose proof (month_in_year y m Hm). pose proof (days_before_year_next y).
    destruct (decide (100 <= y)); [done|]. pose proof (days_before_year_mono (y + 1) 100 ltac:(lia)).
    unfold date_number in H100. change (days_before_month 100 0) with 0 in H100. lia. }
  pose proof (civil_day _ _ _ Hc) as (Hy & Hm & Hd).
  destruct (date_text4_digits y m d h mi s Hc ltac:(lia)) as (kd & ky & Hkd & Hky & Hdlt & Hylt & Hlen & Hdate).
  unfold datetime_to_text, datetime_fields. rewrite Hdec. cbn [mbind Cvt_bind calc].
  rewrite Hdate. cbn [mbind Cvt_bind moment tm_hour tm_min tm_sec].
  assert (Hfields : forall h mi s f dh dmi ds df,
    date_fields now (parsed d (m + 1) y h mi s f (Z.of_nat kd) ENGLISH_MONTH (Z.of_nat ky) dh dmi ds df true)
      = Value (y - 1900, m, d)).
  { intros. rewrite date_fields_version4 by (done || lia). by rewrite Z.add_simpl_r. }
  destruct (bool_decide (h <> 0) || bool_decide (mi <> 0) || bool_decide (s <> 0) || bool_decide (f <> 0)) eqn:Ez.
  - destruct (time_text_digits 1 (moment y m d h mi s) f Hclock ltac:(lia)) as (k & Hk & Hlt & Htext).
    cbn [moment tm_hour tm_min tm_sec] in *. fold (moment y m d h mi s). rewrite Htext.
    cbn [mbind Cvt_bind].
    eexists. rewrite !string_text by text_length. split; [done|].
    eapply (string_parsed _ _ _ 6); [|apply Nat.leb_le; reflexivity|done|].
    + rewrite <- app_assoc. cbn [app]. rewrite <- app_assoc. cbn [app].
      refine (eq_trans (parse_version4_date expect_timestamp now kd d m ky y _ _ _ _ _ _ _) _); [lia..|done|].
      rewrite separator_blank by lia. exact (parse_time_text _ _ _ _ _ _ _ _ _ k h mi s f Hk Hlt Hclock).
    + apply (fields_with_time _ _ _ _ _ _ _ _ _ _ _ _ _ _ y m d); [|done|done|lia].
      rewrite decide_False by done. apply Hfields.
  - assert (h = 0 /\ mi = 0 /\ s = 0 /\ f = 0) as (-> & -> & -> & ->).
    { rewrite !orb_false_iff, !bool_decide_eq_false in Ez. lia. }
    cbn [mbind Cvt_bind].
    eexists. rewrite !string_text by text_length. split; [done|].
    eapply (string_parsed _ _ _ 2); [|apply Nat.leb_le; reflexivity|done|].
    + rewrite <- (app_nil_r (digits ky y)).
      refine (eq_trans (parse_version4_date expect_timestamp now kd d m ky y [] _ _ _ _ _ _) _); [lia..|done|reflexivity].
    + rewrite (fields_without_time _ _ _ _ _ _ _ _ _ y m d); [done|done|apply Hfields|done].
Qed.

(** The values that are written with a year of at least three digits, if it is not padded *)
Definition year_written (v : datetime) (version4 : bool) : Prop :=
  match v with
  | dt_timestamp ts => version4 = true -> date_number 100 0 1 <= timestamp_date ts
  | _ => True
  end.

(** C22. A valid time, date or time stamp that [datetime_to_text] writes, in the current or
    in the old format, fits into the buffer and is read again by [string_to_datetime]. In the
    old format the year must be 100 or later: the years before are written with less than
    three digits and read as years of this or the last century. *)
Theorem datetime_text_roundtrip v version4 now :
  valid_datetime v -> isValidTimeStamp now = true -> year_written v version4 ->
  exists temp, datetime_to_text v version4 = Value temp /\
    string_to_datetime (expectation v) now temp = Value (datetime_value v).
Proof.
  intros Hv Hnow Hw. destruct v as [t|n|ts]; cbn [expectation datetime_value].
  - destruct Hv as [H0 Ht]. destruct (time_roundtrip now t H0 Ht) as (temp & Htext & Hread). by exists temp.
  - destruct (date_roundtrip now n Hnow Hv) as (temp & Htext & Hread). by exists temp.
  - destruct version4.
    + by apply version4_roundtrip, Hw.
    + by apply timestamp_roundtrip.
Qed.

Lemma datetime_text_roundtrip_witness :
  let v := dt_timestamp {| timestamp_date := 60369; timestamp_time := 476555000 |} in
  exists temp, datetime_to_text v true = Value temp /\
    string_to_datetime (expectation v) example_now temp = Value (datetime_value v).
Proof.
  refine (datetime_text_roundtrip _ true example_now _ _ _); [split; [discriminate|reflexivity]|reflexivity|].
  intros _. vm_compute. discriminate.
Defined.

(** January 1, 5 is written "1-JAN-5" and read as January 1, 2005. *)
Example version4_year_5 : exists temp,
  datetime_to_text (dt_timestamp {| timestamp_date := date_number 5 0 1; timestamp_time := 0 |}) true = Value temp /\
  string_to_datetime expect_timestamp example_now temp =
    Value {| timestamp_date := date_number 2005 0 1; timestamp_time := 0 |}.
Proof. eexists. split; reflexivity. Qed.
