(* ===== verification/CvtSafety.v ===== *)
(** * Every text is converted to a valid time stamp or an error

    The numbers of a text stay within their types, the arithmetic of the conversion does
    not overflow and its results are valid. *)

From S2P Require Import Prelude Outcome TimeStamp CvtDateTime.

(** ** Components *)

(** A component that is a number of at most four digits is less than their power of ten. *)
Definition component_ok (j : nat) (c d : Z) : Prop :=
  0 <= c < 65536 /\ (-1 <= d < 65536) /\ (d = -1 -> (j < 2)%nat) /\ (0 <= d <= 4 -> c < 10 ^ d).

Record parse_ok (st : parse) : Prop := {
  ok_components : length (components st) = 7%nat;
  ok_description : length (description st) = 7%nat;
  ok_each : forall j, (j < 7)%nat -> component_ok j (components st !!! j) (description st !!! j)
}.

(** The components from [i] on are missing. *)
Definition missing_from (i : nat) (st : parse) : Prop :=
  forall j, (i <= j < 7)%nat -> components st !!! j = 0 /\ description st !!! j = 0.

Lemma parse_start_ok : parse_ok parse_start /\ missing_from 0 parse_start.
Proof.
  assert (H0 : forall j, (j < 7)%nat -> (replicate 7 0 : list Z) !!! j = 0).
  { intros j Hj. do 7 (destruct j as [|j]; [done|]). lia. }
  split; [split; [done..|]|]; intros j Hj; cbn [parse_start components description]; rewrite !H0 by lia; [|done].
  unfold component_ok. lia.
Qed.

Lemma store_component_value st i n d english : parse_ok st -> (i < 7)%nat ->
  store_component st i n d english = Value (stored st i n d english).
Proof. intros [Hc Hd _] Hi. by rewrite store_component_in by lia. Qed.

Lemma stored_ok st i n d english :
  parse_ok st -> (i < 7)%nat -> component_ok i n d -> parse_ok (stored st i n d english).
Proof.
  intros [Hc Hd He] Hi Hok. split; cbn; [by rewrite length_insert..|]. intros j Hj.
  destruct (decide (i = j)) as [<-|Hne].
  - by rewrite !list_lookup_total_insert_eq by lia.
  - rewrite !list_lookup_total_insert_ne by done. by apply He.
Qed.

Lemma stored_missing st i n d english :
  missing_from i st -> missing_from (S i) (stored st i n d english).
Proof.
  intros Hm j Hj. cbn. rewrite !list_lookup_total_insert_ne by lia. apply Hm. lia.
Qed.

Lemma see_dot_ok st i : parse_ok st -> parse_ok (see_dot st i).
Proof. by intros [Hc Hd He]. Qed.

Lemma skip_blanks_length p : (length (skip_blanks p) <= length p)%nat.
Proof. induction p as [|c p IH]; cbn; [lia|]. case_match; cbn in *; lia. Qed.

(** A separator changes no component. *)
Lemma separator_ok st i p st' o : separator st i p = (st', o) ->
  (parse_ok st -> parse_ok st') /\ (forall k, missing_from k st -> missing_from k st') /\
  (forall p', o = Some p' -> (length p' <= length p)%nat).
Proof.
  unfold separator. pose proof (skip_blanks_length p) as Hl. destruct (skip_blanks p) as [|c q]; cbn in Hl.
  - intros [= <- <-]. by split_and!.
  - destruct (bool_decide _); [|destruct (decide (c = 46))]; intros [= <- <-]; split_and!;
      try done; try apply see_dot_ok; intros p' [= <-]; cbn; lia.
Qed.

Lemma pow10_step d : 0 <= d -> 10 ^ (d + 1) = 10 * 10 ^ d.
Proof. intros. by rewrite Z.pow_add_r, Z.mul_comm by lia. Qed.

Lemma pow10_small d : 0 <= d <= 4 -> 1 <= 10 ^ d <= 10000.
Proof.
  intros Hd. assert (H : d = 0 \/ d = 1 \/ d = 2 \/ d = 3 \/ d = 4) by lia.
  destruct H as [->|[->|[->|[->| ->]]]]; vm_compute; split; discriminate.
Qed.

Lemma read_digits_ok p : forall a d, 0 <= a < 65536 -> 0 <= d -> d + Z.of_nat (length p) < 65536 ->
  (d <= 4 -> a < 10 ^ d) ->
  exists n e q, read_digits a d p = (n, e, q) /\ 0 <= n < 65536 /\ d <= e < 65536 /\
    (e <= 4 -> n < 10 ^ e) /\ (length q <= length p)%nat.
Proof.
  induction p as [|c p IH]; intros a d Ha Hd Hl Had; cbn [read_digits length] in *.
  - exists a, d, []. split_and!; done || lia.
  - destruct (DIGIT c) eqn:Ec; [|exists a, d, (c :: p); split_and!; done || lia].
    apply bool_decide_eq_true in Ec. rewrite (wrapU_id 16 (d + 1)) by (unfold inU; change (2 ^ 16) with 65536; lia).
    pose proof (wrapU_range 16 (a * 10 + c - 48) ltac:(lia)) as Hr. unfold inU in Hr. change (2 ^ 16) with 65536 in Hr.
    destruct (IH (wrapU 16 (a * 10 + c - 48)) (d + 1)) as (n & e & q & Hread & Hn & He & Hne & Hq);
      [done|lia|lia| |exists n, e, q; split_and!; done || lia].
    intros H4. rewrite pow10_step by lia. pose proof (pow10_small d ltac:(lia)).
    pose proof (pow10_small (d + 1) ltac:(lia)) as H1. rewrite pow10_step in H1 by lia. specialize (Had ltac:(lia)).
    rewrite wrapU_id; [lia|]. unfold inU. change (2 ^ 16) with 65536. lia.
Qed.

Lemma read_word_length room p : (length (snd (read_word room p)) <= length p)%nat.
Proof.
  revert p. induction room as [|room IH]; intros [|c p]; cbn; try lia. case_match; cbn; [|lia].
  specialize (IH p). destruct (read_word room p); cbn in *; lia.
Qed.

Lemma find_month_range n months temp k :
  find_month n months temp = Some k -> n <= k < n + Z.of_nat (length months).
Proof.
  revert n. induction months as [|m months IH]; intros n; cbn [find_month length]; [done|].
  case_match; [intros [= ->]; lia|]. intros Hrange%IH. lia.
Qed.

(** ** Magic words *)

Definition good (ts : ISC_TIMESTAMP) : Prop := isValidTimeStamp ts = true /\ 0 <= timestamp_time ts.

(** The day before [now] and the day after are valid. *)
Definition good_now (now : ISC_TIMESTAMP) : Prop := good now /\ MIN_DATE < timestamp_date now < MAX_DATE.

Definition safe {A} (P : A -> Prop) (r : Cvt A) : Prop :=
  match r with Value a => P a | Err _ => True | Undef => False end.

Lemma safe_bind {A B} (P : A -> Prop) (Q : B -> Prop) (m : Cvt A) (f : A -> Cvt B) :
  safe P m -> (forall a, P a -> safe Q (f a)) -> safe Q (m ≫= f).
Proof. intros Hm Hf. destruct m; cbn in *; auto. Qed.

Lemma good_midnight d : MIN_DATE <= d <= MAX_DATE -> good {| timestamp_date := d; timestamp_time := 0 |}.
Proof.
  intros Hd. split; [|done]. apply andb_true_iff. split; [|done]. apply bool_decide_eq_true. cbn. lia.
Qed.

Lemma special_safe et now temp p : good_now now -> safe good (special et now temp p).
Proof.
  intros [Hg Hd]. unfold special.
  repeat match goal with |- context [if ?b then _ else _] => destruct b end; cbn; try done.
  - apply good_midnight. lia.
  - rewrite int_ok by (unfold MIN_DATE, MAX_DATE in *; lia). apply good_midnight. lia.
  - rewrite int_ok by (unfold MIN_DATE, MAX_DATE in *; lia). apply good_midnight. lia.
Qed.

(** ** The loop *)

Definition parse_result (r : ISC_TIMESTAMP + nat * parse * list Z) : Prop :=
  match r with
  | inl ts => good ts
  | inr (i, st, _) => (i <= 7)%nat /\ parse_ok st /\ missing_from (S i) st
  end.

Lemma missing_next i st : missing_from i st -> missing_from (S i) st.
Proof. intros H j Hj. apply H. lia. Qed.

Lemma month_ok i n : (i < 2)%nat -> find_month 1 FB_LONG_MONTHS_UPPER n <> None ->
  exists k, find_month 1 FB_LONG_MONTHS_UPPER n = Some k /\ component_ok i k ENGLISH_MONTH.
Proof.
  intros Hi Hs. destruct (find_month _ _ n) as [k|] eqn:E; [|done]. exists k. split; [done|].
  apply find_month_range in E. change (length FB_LONG_MONTHS_UPPER) with 12%nat in E.
  unfold component_ok, ENGLISH_MONTH. lia.
Qed.

Lemma parse_components_safe et now (Hnow : good_now now) rounds : forall i st p,
  (i + rounds = 7)%nat -> Z.of_nat (length p) < 65536 -> parse_ok st -> missing_from i st ->
  safe parse_result (parse_components et now rounds i st p).
Proof.
  induction rounds as [|rounds IH]; intros i st p Hi Hl Hok Hm; cbn [parse_components].
  { cbn. split_and!; [lia|done|by apply missing_next]. }
  assert (Hnext : forall n d e q, component_ok i n d -> (length q <= length p)%nat ->
    safe parse_result
      (st ← store_component st i n d e;
       match separator st i q with
       | (st, None) => Value (inr (i, st, []))
       | (st, Some p) => parse_components et now rounds (S i) st p
       end)).
  { intros n d e q Hn Hq. rewrite store_component_value by (done || lia). cbn [mbind Cvt_bind]. destruct (separator _ i q) as [st' o] eqn:Es.
    destruct (separator_ok _ _ _ _ _ Es) as (Ho & Hk & Hlen).
    specialize (Ho (stored_ok st i n d e Hok ltac:(lia) Hn)).
    specialize (Hk (S i) (stored_missing st i n d e Hm)).
    destruct o as [q'|]; [|cbn; split_and!; done || lia].
    apply IH; [lia| |done|done]. specialize (Hlen q' eq_refl). lia. }
  pose proof (skip_blanks_length p) as Hsk. destruct (skip_blanks p) as [|c p'].
  { cbn. split_and!; [lia|done|by apply missing_next]. }
  destruct (DIGIT (UPPER7 c)).
  - destruct (read_digits_ok (c :: p') 0 0) as (n & e & q & -> & Hn & He & Hne & Hq); [lia..|].
    apply Hnext; [|lia]. unfold component_ok. lia.
  - destruct (LETTER7 (UPPER7 c) && negb (have_english_month st)); [|done].
    pose proof (read_word_length 10 (c :: p')) as Hw. destruct (read_word 10 (c :: p')) as [temp q]. cbn [snd] in Hw.
    destruct (decide (length temp < 3)%nat); [done|].
    assert (Hsp : safe parse_result (ts ← special et now temp q; Value (inl ts))).
    { eapply safe_bind; [by apply special_safe|]. by intros. }
    destruct (decide (i < 2)%nat) as [Hi2|_]; [|done].
    destruct (decide (find_month 1 FB_LONG_MONTHS_UPPER temp = None)) as [->|Hs]; [done|].
    destruct (month_ok i temp Hi2 Hs) as (k & -> & Hkok). apply Hnext; [done|lia].
Qed.

(** ** Fields *)

(** [encode_date] does not overflow. *)
Lemma encode_date_total times :
  -100000 <= tm_mday times <= 100000 -> -100000 <= tm_mon times <= 100000 -> -100000 <= tm_year times <= 100000 ->
  exists n, encode_date times = Ok n.
Proof.
  intros Hd Hm Hy. unfold encode_date. do 2 (rewrite int_ok by lia; cbn [mbind Outcome_bind]).
  destruct (decide (tm_mon times + 1 > 2)); do 3 (rewrite int_ok by lia; cbn [mbind Outcome_bind]); eauto.
Qed.

(** The result of [check_fields] keeps the time, and is valid; only its errors depend on the date. *)
Lemma check_fields_safe et times :
  -100000 <= tm_mday times <= 100000 -> -100000 <= tm_mon times <= 100000 -> -100000 <= tm_year times <= 100000 ->
  clock_time (tm_hour times) (tm_min times) (tm_sec times) 0 ->
  safe (fun ts => isValidDate (timestamp_date ts) = true /\
                  timestamp_time ts = time_number (tm_hour times) (tm_min times) (tm_sec times) 0)
    (check_fields et times).
Proof.
  intros Hd Hm Hy Hc. unfold check_fields, encode_timestamp.
  destruct (encode_date_total times Hd Hm Hy) as [n ->]. cbn [mbind Outcome_bind].
  rewrite (encode_clock _ _ _ _ Hc). cbn [mbind Outcome_bind Cvt_bind calc].
  destruct (isValidTimeStamp _) eqn:Hv; [|done]. apply andb_true_iff in Hv as [Hv _]. cbn in Hv.
  case_decide; [done|]. unfold decode_timestamp. cbn [timestamp_date timestamp_time].
  destruct (decode_civil n Hv) as (y & m & d & _ & _ & ->). cbn [mbind Outcome_bind].
  rewrite decode_clock by done. cbn. by case_match.
Qed.

Lemma components_range st j : parse_ok st -> (j < 7)%nat -> 0 <= components st !!! j < 65536.
Proof. intros [_ _ He] Hj. apply (He j Hj). Qed.

(** The elements of the arrays are read within them. *)
Lemma component_part st j : parse_ok st -> (j < 7)%nat -> part (components st) j = Value (components st !!! j).
Proof. intros [Hc _ _] Hj. apply part_in. by rewrite Hc. Qed.
Lemma description_part st j : parse_ok st -> (j < 7)%nat -> part (description st) j = Value (description st !!! j).
Proof. intros [_ Hd _] Hj. apply part_in. by rewrite Hd. Qed.

Lemma positions_range st dot : parse_ok st ->
  exists py pm pd, positions (description st) dot = Value (py, pm, pd) /\ (py < 3 /\ pm < 3 /\ pd < 3)%nat.
Proof.
  intros Hok. unfold positions. rewrite !description_part by (done || lia). cbn [mbind Cvt_bind].
  repeat case_decide; try destruct dot; do 3 eexists; (split; [reflexivity|lia]).
Qed.

Lemma expand_year_range current y : expand_year current y = y + 1900 \/ expand_year current y = y + 2000.
Proof. unfold expand_year. case_decide; auto. Qed.

(** The fields of a date before their check *)
Definition fields_bounded (f : Z * Z * Z) : Prop :=
  let '(year, mon, mday) := f in
  -100000 <= mday <= 100000 /\ -100000 <= mon <= 100000 /\ -100000 <= year <= 100000.

Lemma date_fields_safe now st : isValidTimeStamp now = true -> parse_ok st ->
  safe fields_bounded (date_fields now st).
Proof.
  intros [Hn _]%andb_true_iff Hok. unfold date_fields.
  destruct (positions_range st (dot_separator_seen st) Hok) as (py & pm & pd & -> & Hpy & Hpm & Hpd). cbn [mbind Cvt_bind].
  rewrite !description_part, !component_part by (done || lia). cbn [mbind Cvt_bind].
  case_match; [done|]. destruct (decode_civil _ Hn) as (y & m & d & Hc & _ & ->). cbn [mbind Cvt_bind calc safe].
  pose proof (components_range st py Hok ltac:(lia)). pose proof (components_range st pm Hok ltac:(lia)).
  pose proof (components_range st pd Hok ltac:(lia)). destruct Hc as (Hy & _).
  cbn [calendar tm_year fields_bounded]. pose proof (expand_year_range (y - 1900) (components st !!! py)).
  repeat case_decide; lia.
Qed.

(** The fraction, of [d] digits, becomes one of four. *)
Lemma scale_fraction_range d c : 0 <= d <= 4 -> 0 <= c < 10 ^ d -> 0 <= scale_fraction d c <= 9999.
Proof.
  intros Hd Hc. unfold scale_fraction, ISC_TIME_SECONDS_PRECISION_SCALE.
  assert (H : forall k, (Z.of_nat k <= 4 - d) ->
    0 <= Nat.iter k (fun c => wrapU 16 (c * 10)) c < 10 ^ (d + Z.of_nat k)).
  { induction k as [|k IH]; intros Hk; [cbn; by rewrite Z.add_0_r|].
    specialize (IH ltac:(lia)). rewrite Nat2Z.inj_succ. unfold Z.succ. rewrite Z.add_assoc, pow10_step by lia.
    pose proof (pow10_small (d + Z.of_nat k + 1) ltac:(lia)) as H1. rewrite pow10_step in H1 by lia.
    rewrite Nat.iter_succ, wrapU_id; [lia|]. unfold inU. change (2 ^ 16) with 65536. lia. }
  specialize (H (Z.to_nat (- -4 - d)) ltac:(lia)).
  pose proof (pow10_small (d + Z.of_nat (Z.to_nat (- -4 - d))) ltac:(lia)). lia.
Qed.

Lemma scale_fraction_0 d : scale_fraction d 0 = 0.
Proof. unfold scale_fraction. induction (Z.to_nat _) as [|k IH]; [done|]. by rewrite Nat.iter_succ, IH. Qed.

(** What [time_wrong] answers *)
Lemma time_wrong_value st : parse_ok st -> exists b, time_wrong st = Value b /\
  (b = false -> let c := components st in let d := description st in
     c !!! 3%nat <= 23 /\ c !!! 4%nat <= 59 /\ c !!! 5%nat <= 59 /\ d !!! 6%nat <= 4).
Proof.
  intros Hok. unfold time_wrong. cbn [any_part]. rewrite !component_part, !description_part by (done || lia).
  cbn [mbind Cvt_bind]. unfold above, ISC_TIME_SECONDS_PRECISION_SCALE.
  repeat match goal with |- context [if bool_decide ?P then Value true else _] =>
    destruct (bool_decide P) eqn:?; [by exists true|] end.
  exists false. split; [done|]. intros _. rewrite !bool_decide_eq_false in *. cbv zeta. lia.
Qed.

(** The time of day and the fraction that are added up *)
Lemma clock_fields i st :
  parse_ok st -> missing_from (S i) st -> (if decide (2 < i)%nat then time_wrong st else Value false) = Value false ->
  let field k := if decide (2 < i)%nat then components st !!! k else 0 in
  clock_time (field 3%nat) (field 4%nat) (field 5%nat)
    (scale_fraction (description st !!! 6%nat) (components st !!! 6%nat)).
Proof.
  intros Hok Hm Hw field. subst field. cbv beta. destruct (decide (2 < i)%nat) as [Hi|Hi].
  - destruct (time_wrong_value st Hok) as (b & Hb & Hle). rewrite Hb in Hw. injection Hw as ->.
    destruct (Hle eq_refl) as (L3 & L4 & L5 & L6).
    pose proof (components_range st 3 Hok ltac:(lia)). pose proof (components_range st 4 Hok ltac:(lia)).
    pose proof (components_range st 5 Hok ltac:(lia)).
    destruct (ok_each st Hok 6 ltac:(lia)) as (Hc6 & Hd6 & Hneg & Hlt).
    assert (description st !!! 6%nat <> -1) by (intros Heq; specialize (Hneg Heq); lia).
    assert (Hd4 : 0 <= description st !!! 6%nat <= 4) by lia. specialize (Hlt Hd4).
    pose proof (scale_fraction_range _ _ Hd4 (conj (proj1 Hc6) Hlt)).
    unfold clock_time. lia.
  - destruct (Hm 6%nat ltac:(lia)) as [-> _]. rewrite scale_fraction_0. unfold clock_time. lia.
Qed.

Lemma good_time d h mi s f : isValidDate d = true -> clock_time h mi s f ->
  good {| timestamp_date := d; timestamp_time := wrapU 32 (time_number h mi s 0 + f) |}.
Proof.
  intros Hd (Hh & Hmi & Hs & Hf). unfold time_number.
  rewrite wrapU_id by (unfold inU; change (2 ^ 32) with 4294967296; lia).
  split; cbn; [|lia]. apply andb_true_iff. split; [done|]. apply bool_decide_eq_true.
  unfold ISC_TIME_SECONDS_PRECISION. cbn. lia.
Qed.

Lemma fields_to_datetime_safe et now i st :
  isValidTimeStamp now = true -> parse_ok st -> missing_from (S i) st ->
  safe good (fields_to_datetime et now i st).
Proof.
  intros Hnow Hok Hm. unfold fields_to_datetime.
  apply (safe_bind fields_bounded); [case_decide; [cbn; lia|by apply date_fields_safe]|].
  intros [[year mon] mday] (Hd & Hmo & Hy).
  assert (Hwrong : exists b, (if decide (2 < i)%nat then time_wrong st else Value false) = Value b).
  { case_decide; [|eauto]. destruct (time_wrong_value st Hok) as (b & Hb & _). eauto. }
  destruct Hwrong as [b Hw]. rewrite Hw. cbn [mbind Cvt_bind]. destruct b; [done|].
  pose proof (clock_fields i st Hok Hm Hw) as Hc. cbv zeta beta in Hc |- *. destruct Hc as (H3 & H4 & H5 & H6).
  assert (Hfield : forall k, (k < 7)%nat -> (if decide (2 < i)%nat then part (components st) k else Value 0) =
    Value (if decide (2 < i)%nat then components st !!! k else 0)).
  { intros k Hk. case_decide; [by apply component_part|done]. }
  rewrite !Hfield by lia. cbn [mbind Cvt_bind].
  eapply safe_bind.
  - apply check_fields_safe; cbn [tm_mday tm_mon tm_year tm_hour tm_min tm_sec]; [done..|]. repeat split; lia.
  - intros ts [Hd' Ht]. cbn [tm_hour tm_min tm_sec] in Ht. rewrite description_part, component_part by (done || lia).
    cbn [mbind Cvt_bind safe]. rewrite Ht. by apply good_time.
Qed.

(** C25. Whatever the text, [string_to_datetime] ends with an error or with a valid time
    stamp, and never overflows an [int] or reads or writes outside its arrays: for a text whose length
    is an [USHORT], at a time that is neither on the first nor on the last valid day. *)
Theorem string_to_datetime_safe et now p :
  good_now now -> Z.of_nat (length p) < 65536 ->
  match string_to_datetime et now p with
  | Value ts => isValidTimeStamp ts = true /\ 0 <= timestamp_time ts
  | Err _ => True
  | Undef => False
  end.
Proof.
  intros Hnow Hl. change (safe good (string_to_datetime et now p)). unfold string_to_datetime. cbv zeta.
  destruct parse_start_ok as [Hok Hm].
  eapply safe_bind.
  - apply (parse_components_safe et now Hnow); [case_decide; done|done|done|]. intros j Hj. apply Hm. lia.
  - intros [ts|[[i st] q]]; [done|]. intros (Hi & Hst & Hmiss).
    repeat match goal with |- context [if ?b then Err _ else _] => destruct b; [done|] end.
    apply fields_to_datetime_safe; [apply Hnow|done|done].
Qed.

Lemma string_to_datetime_safe_witness :
  match string_to_datetime expect_timestamp example_now (text "29.FEB.96 25:0") with
  | Value ts => isValidTimeStamp ts = true /\ 0 <= timestamp_time ts
  | Err _ => True
  | Undef => False
  end.
Proof.
  apply (string_to_datetime_safe expect_timestamp example_now (text "29.FEB.96 25:0")); [|reflexivity].
  repeat split; discriminate.
Defined.

(** Fields of a time that need not be those of a time of day, of seconds that are an [int] in their unit *)
Definition time_bounded (h mi s : Z) : Prop := 0 <= h /\ 0 <= mi /\ 0 <= s /\ (h * 60 + mi) * 60 + s <= 214748.

Lemma encode_bounded h mi s : time_bounded h mi s ->
  encode_time h mi s 0 = Ok (time_number h mi s 0) /\ 0 <= time_number h mi s 0.
Proof.
  intros (Hh & Hmi & Hs & Hb). unfold encode_time, ISC_TIME_SECONDS_PRECISION, time_number.
  do 6 (rewrite int_ok by lia; cbn [mbind Outcome_bind]). split; [|lia].
  rewrite wrapU_id; [done|]. unfold inU. change (2 ^ 32) with 4294967296. lia.
Qed.

(** C39. For a date and a time of day, fields are accepted if and only if they are those of the calendar, from the
    year 1 to the year 9999, and of the clock; their time stamp is then the number
    of the day and of the time. Other fields are an error: out of range if their numbers are
    those of no valid day and time, else of the conversion, since they are the numbers of other fields. For a time alone
    only the number of the time decides. *)
Theorem check_fields_correct et times :
  fields_bounded (tm_year times, tm_mon times, tm_mday times) ->
  time_bounded (tm_hour times) (tm_min times) (tm_sec times) ->
  let y := tm_year times + 1900 in
  let right_fields := civil_date y (tm_mon times) (tm_mday times) /\ clock_time (tm_hour times) (tm_min times) (tm_sec times) 0 in
  let t := time_number (tm_hour times) (tm_min times) (tm_sec times) 0 in
  (right_fields ->
     check_fields et times = Value {| timestamp_date := date_number y (tm_mon times) (tm_mday times); timestamp_time := t |}) /\
  (et <> expect_sql_time -> ~ right_fields ->
     exists ts, encode_timestamp times 0 = Ok ts /\
       check_fields et times = Err (if isValidTimeStamp ts then isc_convert_error else range_exceeded et)) /\
  (et = expect_sql_time -> civil_date y (tm_mon times) (tm_mday times) ->
     check_fields et times =
       if decide (t < 24 * 3600 * 10000)
       then Value {| timestamp_date := date_number y (tm_mon times) (tm_mday times); timestamp_time := t |}
       else Err isc_time_range_exceeded).
Proof.
  intros (Hd & Hm & Hy) Hb y right_fields t. destruct (encode_bounded _ _ _ Hb) as [Ht Ht0]. fold t in Ht, Ht0.
  destruct (encode_date_total times Hd Hm Hy) as [n Henc].
  assert (Hts : encode_timestamp times 0 = Ok {| timestamp_date := n; timestamp_time := t |}).
  { unfold encode_timestamp. rewrite Henc. cbn [mbind Outcome_bind]. by rewrite Ht. }
  assert (Hciv : civil_date y (tm_mon times) (tm_mday times) -> n = date_number y (tm_mon times) (tm_mday times) /\ isValidDate n = true).
  { intros Hc. rewrite (encode_civil y _ _ times Hc) in Henc by (subst y; lia || done). injection Henc as <-.
    split; [done|by apply civil_valid]. }
  unfold check_fields. rewrite Hts. cbn [calc mbind Cvt_bind]. split_and!.
  - intros [Hc Hcl]. destruct (Hciv Hc) as [-> Hv].
    assert (Hvt : isValidTime t = true).
    { apply bool_decide_eq_true. unfold t, time_number, clock_time, ISC_TIME_SECONDS_PRECISION in *. lia. }
    unfold isValidTimeStamp. cbn [timestamp_date timestamp_time]. rewrite Hv, Hvt. cbn [andb]. case_decide; [done|].
    unfold decode_timestamp. cbn [timestamp_date timestamp_time]. rewrite decode_date_number by done.
    unfold t. rewrite decode_clock by done. cbn. unfold fields_differ. cbn. subst y. by rewrite !bool_decide_eq_false_2 by lia.
  - intros Het Hn. eexists. split; [done|]. destruct (isValidTimeStamp _) eqn:Hv; [|done].
    rewrite (decide_False (P := et = expect_sql_time)) by done. apply andb_true_iff in Hv as [Hv Hvt].
    cbn [timestamp_date timestamp_time] in Hv, Hvt. unfold decode_timestamp. cbn [timestamp_date timestamp_time].
    destruct (decode_civil n Hv) as (y2 & m2 & d2 & Hc2 & _ & ->). cbn [mbind Outcome_bind].
    destruct (decode_time_clock t Ht0 Hvt) as (h & mi & s & f & Hcl & Hnum & ->). cbn.
    destruct (fields_differ _ _) eqn:Hf; [done|]. exfalso. apply Hn.
    unfold fields_differ in Hf. cbn in Hf. rewrite !orb_false_iff, !bool_decide_eq_false in Hf. split.
    + subst y. replace (tm_year times + 1900) with y2 by lia. replace (tm_mon times) with m2 by lia.
      by replace (tm_mday times) with d2 by lia.
    + unfold clock_time in *. lia.
  - intros -> Hc. destruct (Hciv Hc) as [-> Hv]. unfold isValidTimeStamp, isValidTime, ISC_TIME_SECONDS_PRECISION.
    cbn [timestamp_date timestamp_time]. rewrite Hv, decide_True by done. cbn [andb range_exceeded].
    case_decide; [by rewrite bool_decide_true|by rewrite bool_decide_false].
Qed.

(** February 29, 1995, and a minute of 61 seconds *)
Lemma check_fields_correct_witness :
  let times := {| tm_sec := 0; tm_min := 0; tm_hour := 0; tm_mday := 29; tm_mon := 1; tm_year := 95;
                  tm_wday := 0; tm_yday := 0; tm_isdst := 0 |} in
  let leap_second := {| tm_sec := 60; tm_min := 59; tm_hour := 22; tm_mday := 28; tm_mon := 1; tm_year := 95;
                  tm_wday := 0; tm_yday := 0; tm_isdst := 0 |} in
  check_fields expect_sql_date times = Err isc_convert_error /\
  check_fields expect_timestamp leap_second = Err isc_convert_error.
Proof.
  intros times leap_second. split.
  - destruct (check_fields_correct expect_sql_date times) as (_ & H & _); [cbn; lia|unfold time_bounded; cbn; lia|].
    destruct H as (ts & Hts & ->); [discriminate|intros [(_ & _ & [_ H]) _]; vm_compute in H; by apply H|].
    vm_compute in Hts. injection Hts as <-. reflexivity.
  - destruct (check_fields_correct expect_timestamp leap_second) as (_ & H & _); [cbn; lia|unfold time_bounded; cbn; lia|].
    destruct H as (ts & Hts & ->); [discriminate|intros [_ (_ & _ & [_ H] & _)]; vm_compute in H; by apply H|].
    vm_compute in Hts. injection Hts as <-. reflexivity.
Defined.

(** From 1950 to 2049, a year of two digits is expanded to the year with these digits in
    the hundred years that begin fifty years before the current year. *)
Theorem expand_year_window current year :
  1950 <= current <= 2049 -> 0 <= year <= 99 ->
  let r := expand_year (current - 1900) year in r mod 100 = year /\ current - 50 <= r <= current + 49.
Proof.
  intros Hc Hy. unfold expand_year. rewrite Z.rem_small by lia.
  case_decide; split; try lia; symmetry; [apply (Z.mod_unique _ _ 20)|apply (Z.mod_unique _ _ 19)]; lia.
Qed.

Lemma expand_year_window_witness : expand_year (2024 - 1900) 73 mod 100 = 73 /\
  2024 - 50 <= expand_year (2024 - 1900) 73 <= 2024 + 49.
Proof. apply (expand_year_window 2024 73); lia. Defined.

(** In 2050 the years of two digits are those of the twentieth century. *)
Example expand_year_2050 : expand_year (2050 - 1900) 49 = 1949.
Proof. reflexivity. Qed.

(** ** Examples *)

Example read_iso : string_to_datetime expect_timestamp example_now (text "2024-02-29 13:14:15.5") =
  Value {| timestamp_date := 60369; timestamp_time := 476555000 |}.
Proof. reflexivity. Qed.
Example read_english : string_to_datetime expect_sql_date example_now (text " 29-feb-24") =
  Value {| timestamp_date := 60369; timestamp_time := 0 |}.
Proof. reflexivity. Qed.
Example read_dots : string_to_datetime expect_sql_date example_now (text "29.2.") =
  Value {| timestamp_date := 60369; timestamp_time := 0 |}.
Proof. reflexivity. Qed.
Example read_no_day : string_to_datetime expect_sql_date example_now (text "2023-02-29") = Err isc_convert_error.
Proof. reflexivity. Qed.
Example read_hour_alone : string_to_datetime expect_timestamp example_now (text "2024-02-29 13") = Err isc_convert_error.
Proof. reflexivity. Qed.
Example read_today_trash : string_to_datetime expect_sql_date example_now (text "today!") =
  Value {| timestamp_date := 60369; timestamp_time := 0 |}.
Proof. reflexivity. Qed.
Example write_iso : datetime_to_text (dt_timestamp {| timestamp_date := 60369; timestamp_time := 476555000 |}) false =
  Value (text "2024-02-29 13:14:15.5000").
Proof. reflexivity. Qed.
Example write_version4 : datetime_to_text (dt_timestamp {| timestamp_date := 60369; timestamp_time := 32955000 |}) true =
  Value (text "29-FEB-2024 0:54:55.5000").
Proof. reflexivity. Qed.
