(* ===== verification/LockTable.v ===== *)
(** * The lock table: [src/src/lock/lock.cpp] and [lock_proto.h]

    The lock manager keeps owners, locks and requests for them in a memory that the
    processes share. A block is found by its offset; a queue of blocks is the list of
    their offsets (LockQue is about its links). The history, the statistics and the events
    that wake a process are left out, and so are the blocks of processes. An operation is
    a function on the table; where the code lets others into the table, while it waits or
    while it calls an AST, the operation ends and another one continues it.

    Offsets of blocks count blocks: [alloc] gives the next one, and maps more memory when there is no room. *)

From S2P Require Import Prelude Outcome StateMonad.
From stdpp Require Import gmap.
#[local] Open Scope Z_scope.

(** ** Blocks *)

(** Lock states *)
Definition LCK_none : Z := 0.
Definition LCK_null : Z := 1.
Definition LCK_SR : Z := 2.
Definition LCK_PR : Z := 3.
Definition LCK_SW : Z := 4.
Definition LCK_PW : Z := 5.
Definition LCK_EX : Z := 6.
Definition LCK_max : nat := 7.
Definition LCK_MAX_SERIES : Z := 7.

Definition LCK_MIN : Z := 1.
Definition LCK_MAX : Z := 2.
Definition LCK_CNT : Z := 3.
Definition LCK_SUM : Z := 4.
Definition LCK_AVG : Z := 5.
Definition LCK_ANY : Z := 6.

Definition LCK_NO_WAIT : Z := 0.

Definition type_null : Z := 0.
Definition type_lrq : Z := 2.
Definition type_lbl : Z := 3.

(** Flags of requests and of owners *)
Definition LRQ_blocking : Z := 1.
Definition LRQ_pending : Z := 2.
Definition LRQ_rejected : Z := 4.
Definition LRQ_deadlock : Z := 8.
Definition LRQ_repost : Z := 16.
Definition LRQ_scanned : Z := 32.
Definition LRQ_blocking_seen : Z := 64.
Definition LRQ_just_granted : Z := 128.
Definition LRQ_wait_timeout : Z := 256.

Definition OWN_scanned : Z := 1.
Definition OWN_wakeup : Z := 2.
Definition OWN_signaled : Z := 4.

(** A request; a routine is an address, 0 if there is none *)
Record lrq := Lrq {
  lrq_type : Z;
  lrq_requested : Z;
  lrq_state : Z;
  lrq_flags : Z;
  lrq_owner : Z;
  lrq_lock : Z;
  lrq_data : Z;
  lrq_ast_routine : Z;
  lrq_ast_argument : Z
}.

Definition set_lrq_type (v : Z) (x : lrq) : lrq :=
  Lrq v (lrq_requested x) (lrq_state x) (lrq_flags x) (lrq_owner x) (lrq_lock x) (lrq_data x) (lrq_ast_routine
    x) (lrq_ast_argument x).
Definition set_lrq_requested (v : Z) (x : lrq) : lrq :=
  Lrq (lrq_type x) v (lrq_state x) (lrq_flags x) (lrq_owner x) (lrq_lock x) (lrq_data x) (lrq_ast_routine x)
    (lrq_ast_argument x).
Definition set_lrq_state (v : Z) (x : lrq) : lrq :=
  Lrq (lrq_type x) (lrq_requested x) v (lrq_flags x) (lrq_owner x) (lrq_lock x) (lrq_data x) (lrq_ast_routine x)
    (lrq_ast_argument x).
Definition set_lrq_flags (v : Z) (x : lrq) : lrq :=
  Lrq (lrq_type x) (lrq_requested x) (lrq_state x) v (lrq_owner x) (lrq_lock x) (lrq_data x) (lrq_ast_routine x)
    (lrq_ast_argument x).
Definition set_lrq_owner (v : Z) (x : lrq) : lrq :=
  Lrq (lrq_type x) (lrq_requested x) (lrq_state x) (lrq_flags x) v (lrq_lock x) (lrq_data x) (lrq_ast_routine x)
    (lrq_ast_argument x).
Definition set_lrq_lock (v : Z) (x : lrq) : lrq :=
  Lrq (lrq_type x) (lrq_requested x) (lrq_state x) (lrq_flags x) (lrq_owner x) v (lrq_data x) (lrq_ast_routine
    x) (lrq_ast_argument x).
Definition set_lrq_data (v : Z) (x : lrq) : lrq :=
  Lrq (lrq_type x) (lrq_requested x) (lrq_state x) (lrq_flags x) (lrq_owner x) (lrq_lock x) v (lrq_ast_routine
    x) (lrq_ast_argument x).
Definition set_lrq_ast_routine (v : Z) (x : lrq) : lrq :=
  Lrq (lrq_type x) (lrq_requested x) (lrq_state x) (lrq_flags x) (lrq_owner x) (lrq_lock x) (lrq_data x) v
    (lrq_ast_argument x).
Definition set_lrq_ast_argument (v : Z) (x : lrq) : lrq :=
  Lrq (lrq_type x) (lrq_requested x) (lrq_state x) (lrq_flags x) (lrq_owner x) (lrq_lock x) (lrq_data x)
    (lrq_ast_routine x) v.

(** A lock, with the requests for it in the order of their arrival *)
Record lbl := Lbl {
  lbl_type : Z;
  lbl_state : Z;
  lbl_size : Z;
  lbl_length : Z;
  lbl_requests : list Z;
  lbl_data : Z;
  lbl_series : Z;
  lbl_pending_lrq_count : Z;
  lbl_counts : list Z;
  lbl_key : list Z
}.

Definition set_lbl_type (v : Z) (x : lbl) : lbl :=
  Lbl v (lbl_state x) (lbl_size x) (lbl_length x) (lbl_requests x) (lbl_data x) (lbl_series x) (lbl_pending_lrq_count x)
    (lbl_counts x) (lbl_key x).
Definition set_lbl_state (v : Z) (x : lbl) : lbl :=
  Lbl (lbl_type x) v (lbl_size x) (lbl_length x) (lbl_requests x) (lbl_data x) (lbl_series x) (lbl_pending_lrq_count x)
    (lbl_counts x) (lbl_key x).
Definition set_lbl_requests (v : list Z) (x : lbl) : lbl :=
  Lbl (lbl_type x) (lbl_state x) (lbl_size x) (lbl_length x) v (lbl_data x) (lbl_series x) (lbl_pending_lrq_count x)
    (lbl_counts x) (lbl_key x).
Definition set_lbl_data (v : Z) (x : lbl) : lbl :=
  Lbl (lbl_type x) (lbl_state x) (lbl_size x) (lbl_length x) (lbl_requests x) v (lbl_series x) (lbl_pending_lrq_count x)
    (lbl_counts x) (lbl_key x).
Definition set_lbl_pending_lrq_count (v : Z) (x : lbl) : lbl :=
  Lbl (lbl_type x) (lbl_state x) (lbl_size x) (lbl_length x) (lbl_requests x) (lbl_data x) (lbl_series x) v (lbl_counts x)
    (lbl_key x).
Definition set_lbl_counts (v : list Z) (x : lbl) : lbl :=
  Lbl (lbl_type x) (lbl_state x) (lbl_size x) (lbl_length x) (lbl_requests x) (lbl_data x) (lbl_series x)
    (lbl_pending_lrq_count x) v (lbl_key x).

(** An owner, with its requests, those that block others, and those that wait *)
Record own := Own {
  own_count : Z;
  own_requests : list Z;
  own_blocks : list Z;
  own_pending : list Z;
  own_waits : Z;
  own_flags : Z
}.

Definition set_own_count (v : Z) (x : own) : own :=
  Own v (own_requests x) (own_blocks x) (own_pending x) (own_waits x) (own_flags x).
Definition set_own_requests (v : list Z) (x : own) : own :=
  Own (own_count x) v (own_blocks x) (own_pending x) (own_waits x) (own_flags x).
Definition set_own_blocks (v : list Z) (x : own) : own :=
  Own (own_count x) (own_requests x) v (own_pending x) (own_waits x) (own_flags x).
Definition set_own_pending (v : list Z) (x : own) : own :=
  Own (own_count x) (own_requests x) (own_blocks x) v (own_waits x) (own_flags x).
Definition set_own_waits (v : Z) (x : own) : own :=
  Own (own_count x) (own_requests x) (own_blocks x) (own_pending x) v (own_flags x).
Definition set_own_flags (v : Z) (x : own) : own :=
  Own (own_count x) (own_requests x) (own_blocks x) (own_pending x) (own_waits x) v.

(** The header, with all blocks. [lhb_hash] holds the chains of locks, [lhb_data] the locks of
    each series that have data. [lhb_length] blocks have room in the memory that is mapped, which
    [alloc] extends by [m_memorySize] blocks at a time; the system lets it grow up to [sh_mem_limit]. *)
Record table := Table {
  requests : gmap Z lrq;
  locks : gmap Z lbl;
  owners : gmap Z own;
  lhb_owners : list Z;
  lhb_hash : list (list Z);
  lhb_data : list (list Z);
  lhb_free_requests : list Z;
  lhb_free_locks : list Z;
  lhb_used : Z;
  lhb_length : Z;
  m_memorySize : Z;
  sh_mem_limit : Z
}.

Definition set_requests (v : gmap Z lrq) (x : table) : table :=
  Table v (locks x) (owners x) (lhb_owners x) (lhb_hash x) (lhb_data x) (lhb_free_requests x) (lhb_free_locks x)
    (lhb_used x) (lhb_length x) (m_memorySize x) (sh_mem_limit x).
Definition set_locks (v : gmap Z lbl) (x : table) : table :=
  Table (requests x) v (owners x) (lhb_owners x) (lhb_hash x) (lhb_data x) (lhb_free_requests x) (lhb_free_locks
    x) (lhb_used x) (lhb_length x) (m_memorySize x) (sh_mem_limit x).
Definition set_owners (v : gmap Z own) (x : table) : table :=
  Table (requests x) (locks x) v (lhb_owners x) (lhb_hash x) (lhb_data x) (lhb_free_requests x) (lhb_free_locks
    x) (lhb_used x) (lhb_length x) (m_memorySize x) (sh_mem_limit x).
Definition set_lhb_owners (v : list Z) (x : table) : table :=
  Table (requests x) (locks x) (owners x) v (lhb_hash x) (lhb_data x) (lhb_free_requests x) (lhb_free_locks x)
    (lhb_used x) (lhb_length x) (m_memorySize x) (sh_mem_limit x).
Definition set_lhb_hash (v : list (list Z)) (x : table) : table :=
  Table (requests x) (locks x) (owners x) (lhb_owners x) v (lhb_data x) (lhb_free_requests x) (lhb_free_locks x)
    (lhb_used x) (lhb_length x) (m_memorySize x) (sh_mem_limit x).
Definition set_lhb_data (v : list (list Z)) (x : table) : table :=
  Table (requests x) (locks x) (owners x) (lhb_owners x) (lhb_hash x) v (lhb_free_requests x) (lhb_free_locks x)
    (lhb_used x) (lhb_length x) (m_memorySize x) (sh_mem_limit x).
Definition set_lhb_free_requests (v : list Z) (x : table) : table :=
  Table (requests x) (locks x) (owners x) (lhb_owners x) (lhb_hash x) (lhb_data x) v (lhb_free_locks x)
    (lhb_used x) (lhb_length x) (m_memorySize x) (sh_mem_limit x).
Definition set_lhb_free_locks (v : list Z) (x : table) : table :=
  Table (requests x) (locks x) (owners x) (lhb_owners x) (lhb_hash x) (lhb_data x) (lhb_free_requests x) v
    (lhb_used x) (lhb_length x) (m_memorySize x) (sh_mem_limit x).
Definition set_lhb_used (v : Z) (x : table) : table :=
  Table (requests x) (locks x) (owners x) (lhb_owners x) (lhb_hash x) (lhb_data x) (lhb_free_requests x)
    (lhb_free_locks x) v (lhb_length x) (m_memorySize x) (sh_mem_limit x).
Definition set_lhb_length (v : Z) (x : table) : table :=
  Table (requests x) (locks x) (owners x) (lhb_owners x) (lhb_hash x) (lhb_data x) (lhb_free_requests x)
    (lhb_free_locks x) (lhb_used x) v (m_memorySize x) (sh_mem_limit x).

(** ** Operations on the table *)

Abbreviation LM := (SM table).

(** The block at an offset. A block that is not there is another one's memory. *)
Definition lrq_at (r : Z) : LM lrq := fun t => q ← access (requests t !! r); Ok (q, t).
Definition lbl_at (l : Z) : LM lbl := fun t => b ← access (locks t !! l); Ok (b, t).
Definition own_at (o : Z) : LM own := fun t => b ← access (owners t !! o); Ok (b, t).
Definition change_lrq (r : Z) (f : lrq -> lrq) : LM unit :=
  q ← lrq_at r; modify (fun t => set_requests (<[r := f q]> (requests t)) t).
Definition change_lbl (l : Z) (f : lbl -> lbl) : LM unit :=
  b ← lbl_at l; modify (fun t => set_locks (<[l := f b]> (locks t)) t).
Definition change_own (o : Z) (f : own -> own) : LM unit :=
  b ← own_at o; modify (fun t => set_owners (<[o := f b]> (owners t)) t).

Definition has_flag (flags flag : Z) : bool := bool_decide (Z.land flags flag <> 0).
(** [flags |= flag] and [flags &= ~flag], of type [USHORT] *)
Definition with_flag (flag flags : Z) : Z := Z.lor flags flag.
Definition without_flag (flag flags : Z) : Z := Z.land flags (Z.lnot flag).

Definition flag_lrq (r flag : Z) : LM unit := change_lrq r (fun q => set_lrq_flags (with_flag flag (lrq_flags q)) q).
Definition unflag_lrq (r flag : Z) : LM unit := change_lrq r (fun q => set_lrq_flags (without_flag flag (lrq_flags q)) q).
Definition flag_own (o flag : Z) : LM unit := change_own o (fun b => set_own_flags (with_flag flag (own_flags b)) b).
Definition unflag_own (o flag : Z) : LM unit := change_own o (fun b => set_own_flags (without_flag flag (own_flags b)) b).

(** [insert_tail] and [remove_que] of a queue; a block is in one queue of a kind at most. *)
Definition insert_tail (x : Z) (q : list Z) : list Z := q ++ [x].
Definition remove_que (x : Z) (q : list Z) : list Z := filter (fun y => y <> x) q.

(** [++counts[k]] and [--counts[k]], of type [USHORT] *)
Definition count_up (counts : list Z) (k : Z) : option (list Z) :=
  n ← counts @ k; aset counts k (wrapU 16 (n + 1)).
Definition count_down (counts : list Z) (k : Z) : option (list Z) :=
  n ← counts @ k; aset counts k (wrapU 16 (n - 1)).
Definition change_counts (l : Z) (f : list Z -> option (list Z)) : LM unit :=
  b ← lbl_at l; counts ← lift (access (f (lbl_counts b))); change_lbl l (set_lbl_counts counts).
Definition change_pending_count (l n : Z) : LM unit :=
  change_lbl l (fun b => set_lbl_pending_lrq_count (wrapU 16 (lbl_pending_lrq_count b + n)) b).

(** ** Compatibility *)

Definition compatibility : list (list bool) :=
  [ (* none *) [true; true; true; true; true; true; true];
    (* null *) [true; true; true; true; true; true; true];
    (* SR *)   [true; true; true; true; true; true; false];
    (* PR *)   [true; true; true; true; false; false; false];
    (* SW *)   [true; true; true; false; true; false; false];
    (* PW *)   [true; true; true; false; false; false; false];
    (* EX *)   [true; true; false; false; false; false; false] ].

Definition compat (a b : Z) : LM bool := lift (row ← access (compatibility @ a); access (row @ b)).

(** The highest state that is granted *)
Definition lock_state (counts : list Z) : Z :=
  if decide (counts !!! 6%nat <> 0) then LCK_EX
  else if decide (counts !!! 5%nat <> 0) then LCK_PW
  else if decide (counts !!! 4%nat <> 0) then LCK_SW
  else if decide (counts !!! 3%nat <> 0) then LCK_PR
  else if decide (counts !!! 2%nat <> 0) then LCK_SR
  else if decide (counts !!! 1%nat <> 0) then LCK_null
  else LCK_none.

(** ** Data of locks *)

(** Into the queue of the lock's series, before the first lock with data that is not less *)
Fixpoint insert_data (data : gmap Z lbl) (x : Z) (v : Z) (q : list Z) : Outcome (list Z) :=
  match q with
  | [] => Ok [x]
  | y :: q' =>
      b ← access (data !! y);
      if decide (v <= lbl_data b) then Ok (x :: y :: q') else r ← insert_data data x v q'; Ok (y :: r)
  end.

Definition change_data (series : Z) (f : gmap Z lbl -> list Z -> Outcome (list Z)) : LM unit :=
  t ← gets id;
  q ← lift (access (lhb_data t @ series));
  q ← lift (f (locks t) q);
  d ← lift (access (aset (lhb_data t) series q));
  modify (set_lhb_data d).

Definition insert_data_que (l : Z) : LM unit :=
  b ← lbl_at l;
  if decide (lbl_series b < LCK_MAX_SERIES /\ lbl_data b <> 0)
  then change_data (lbl_series b) (fun locks q => insert_data locks l (lbl_data b) q)
  else ret tt.

(** [remove_que(&lock->lbl_lhb_data)]: the node may be in no queue. *)
Definition remove_data (l : Z) : LM unit := modify (fun t => set_lhb_data (map (remove_que l) (lhb_data t)) t).

(** [if ( (lock->lbl_data = data) ) insert_data_que(lock);] *)
Definition assign_data (l data : Z) : LM unit :=
  change_lbl l (set_lbl_data data);; if decide (data <> 0) then insert_data_que l else ret tt.
