(* ===== verification/LockQue.v ===== *)
(** * The queues of the lock table: [src/src/lock/lock.cpp], [src/src/jrd/que.h]

    A queue is a ring of nodes in the shared memory, doubly linked through offsets, with a
    header. A process may die at any point of [insert_tail] or [remove_que]; the next one to
    enter the table finds the work that is not finished in the secondary header [shb], and
    undoes or completes it. An operation is the sequence of its stores, in the order in which
    the code makes them (which the compiler is to keep); a crash cuts it off. *)

From S2P Require Import Prelude Outcome LockTable.
From stdpp Require Import gmap.
#[local] Open Scope Z_scope.

(** The links of the nodes, by the offset of the node, the secondary header, and the owner for
    which the table was acquired, 0 if it is free *)
Record memory := Memory {
  srq_forward : gmap Z Z;
  srq_backward : gmap Z Z;
  shb_remove_node : Z;
  shb_insert_que : Z;
  shb_insert_prior : Z;
  lhb_active_owner : Z
}.

(** ** Stores *)

Definition store := memory -> Outcome memory.

Definition set_forward (n v : Z) (m : memory) : memory :=
  Memory (<[n := v]> (srq_forward m)) (srq_backward m) (shb_remove_node m) (shb_insert_que m) (shb_insert_prior m) (lhb_active_owner m).
Definition set_backward (n v : Z) (m : memory) : memory :=
  Memory (srq_forward m) (<[n := v]> (srq_backward m)) (shb_remove_node m) (shb_insert_que m) (shb_insert_prior m) (lhb_active_owner m).
Definition set_remove_node (v : Z) (m : memory) : memory :=
  Memory (srq_forward m) (srq_backward m) v (shb_insert_que m) (shb_insert_prior m) (lhb_active_owner m).
Definition set_insert_que (v : Z) (m : memory) : memory :=
  Memory (srq_forward m) (srq_backward m) (shb_remove_node m) v (shb_insert_prior m) (lhb_active_owner m).
Definition set_insert_prior (v : Z) (m : memory) : memory :=
  Memory (srq_forward m) (srq_backward m) (shb_remove_node m) (shb_insert_que m) v (lhb_active_owner m).
Definition set_active_owner (v : Z) (m : memory) : memory :=
  Memory (srq_forward m) (srq_backward m) (shb_remove_node m) (shb_insert_que m) (shb_insert_prior m) v.

Definition insert_tail_stores (lock_srq node : Z) : list store :=
  [ fun m => Ok (set_insert_que lock_srq m);
    fun m => b ← access (srq_backward m !! lock_srq); Ok (set_insert_prior b m);
    fun m => Ok (set_forward node lock_srq m);
    fun m => b ← access (srq_backward m !! lock_srq); Ok (set_backward node b m);
    fun m => prior ← access (srq_backward m !! lock_srq); Ok (set_forward prior node m);
    fun m => Ok (set_backward lock_srq node m);
    fun m => Ok (set_insert_que 0 m);
    fun m => Ok (set_insert_prior 0 m) ].

(** The last two are [SRQ_INIT]. *)
Definition remove_que_stores (node : Z) : list store :=
  [ fun m => Ok (set_remove_node node m);
    fun m => lock_srq ← access (srq_forward m !! node); b ← access (srq_backward m !! node);
             Ok (set_backward lock_srq b m);
    fun m => lock_srq ← access (srq_backward m !! node); f ← access (srq_forward m !! node);
             Ok (set_forward lock_srq f m);
    fun m => Ok (set_remove_node 0 m);
    fun m => Ok (set_backward node node m);
    fun m => Ok (set_forward node node m) ].

(** The work that the secondary header names *)
Definition recover_work (m : memory) : list store :=
  if decide (shb_remove_node m <> 0) then remove_que_stores (shb_remove_node m)
  else if decide (shb_insert_que m <> 0 /\ shb_insert_prior m <> 0) then
    [ fun m => Ok (set_backward (shb_insert_que m) (shb_insert_prior m) m);
      fun m => Ok (set_forward (shb_insert_prior m) (shb_insert_que m) m);
      fun m => Ok (set_insert_que 0 m);
      fun m => Ok (set_insert_prior 0 m) ]
  else [].

(** What [acquire_shmem] does when the process that had the table died: the table still names
    its owner. Owners are at positive offsets; [DUMMY_OWNER] stands for none. *)
Definition DUMMY_OWNER : Z := -1.
Definition recover_stores (m : memory) : list store :=
  if decide (lhb_active_owner m > 0) then recover_work m else [].

(** [acquire_shmem]: the owner is noted before the recovery, which goes by the prior one. *)
Definition acquire_stores (owner_offset : Z) (m : memory) : list store :=
  (fun m => Ok (set_active_owner owner_offset m)) :: recover_stores m.

Fixpoint run_stores (ss : list store) (m : memory) : Outcome memory :=
  match ss with [] => Ok m | s :: ss => m ← s m; run_stores ss m end.

(** A crash after [k] stores, and the next one who acquires the table, for any owner or for
    none, but one who dies while it recovers has acquired the table for an owner. *)
Definition crashed (k : nat) (ss : list store) (m : memory) : Outcome memory := run_stores (take k ss) m.

Inductive recovered (m : memory) : memory -> Prop :=
  | recovered_done owner_offset m' : run_stores (acquire_stores owner_offset m) m = Ok m' -> recovered m m'
  | recovered_again owner_offset k m1 m' : owner_offset > 0 ->
      crashed k (acquire_stores owner_offset m) m = Ok m1 -> recovered m1 m' -> recovered m m'.

(** [SRQ_LOOP] from the node [n] to the header *)
Fixpoint srq_loop (fuel : nat) (m : memory) (h n : Z) : Outcome (list Z) :=
  if decide (n = h) then Ok []
  else match fuel with
       | O => Undefined
       | S fuel => f ← access (srq_forward m !! n); q ← srq_loop fuel m h f; Ok (n :: q)
       end.

Definition srq_nodes (fuel : nat) (m : memory) (h : Z) : Outcome (list Z) :=
  f ← access (srq_forward m !! h); srq_loop fuel m h f.

(** [SRQ_EMPTY] *)
Definition srq_empty (m : memory) (h : Z) : Outcome bool := f ← access (srq_forward m !! h); Ok (bool_decide (f = h)).

(** ** Rings *)

Definition link (m : memory) (a b : Z) : Prop := srq_forward m !! a = Some b /\ srq_backward m !! b = Some a.

(** The nodes between two nodes *)
Fixpoint seg (m : memory) (a : Z) (q : list Z) (b : Z) : Prop :=
  match q with [] => link m a b | x :: q => link m a x /\ seg m x q b end.

Definition ring (m : memory) (h : Z) (q : list Z) : Prop := NoDup (h :: q) /\ seg m h q h.

(** The last node of a list that begins with [a], and the links up to it *)
Fixpoint end_of (a : Z) (q : list Z) : Z := match q with [] => a | x :: q => end_of x q end.
Fixpoint inner (m : memory) (a : Z) (q : list Z) : Prop :=
  match q with [] => True | x :: q => link m a x /\ inner m x q end.

Lemma end_of_in a q : end_of a q ∈ a :: q.
Proof. revert a. induction q as [|x q IH]; intros a; cbn; [set_solver|]. specialize (IH x). set_solver. Qed.

Lemma seg_inner m a q b : seg m a q b <-> inner m a q /\ link m (end_of a q) b.
Proof. revert a. induction q as [|x q IH]; intros a; cbn; [tauto|]. rewrite IH. tauto. Qed.

Lemma seg_parts m a q1 q2 b : seg m a (q1 ++ q2) b <-> inner m a q1 /\ seg m (end_of a q1) q2 b.
Proof. revert a. induction q1 as [|x q1 IH]; intros a; cbn; [tauto|]. rewrite IH. tauto. Qed.

Lemma inner_ext m m' a q : NoDup (a :: q) ->
  (forall y, y ∈ a :: q -> y <> end_of a q -> srq_forward m' !! y = srq_forward m !! y) ->
  (forall y, y ∈ q -> srq_backward m' !! y = srq_backward m !! y) -> inner m a q -> inner m' a q.
Proof.
  revert a. induction q as [|x q IH]; intros a; cbn; [done|]. intros [Ha Hnd]%NoDup_cons Hf Hb [Hl Hi].
  unfold link in *. rewrite Hf, Hb; [|set_solver|set_solver|intros ->; apply Ha, end_of_in].
  split; [done|]. apply IH; try done; set_solver.
Qed.

Lemma seg_ext m m' a q b : (forall y, y ∈ a :: q -> srq_forward m' !! y = srq_forward m !! y) ->
  (forall y, y ∈ b :: q -> srq_backward m' !! y = srq_backward m !! y) -> seg m a q b -> seg m' a q b.
Proof.
  revert a. induction q as [|x q IH]; intros a Hf Hb; cbn; unfold link.
  - rewrite Hf, Hb by set_solver. done.
  - intros [[H1 H2] H3]. rewrite Hf, Hb by set_solver. split; [done|]. apply IH; [set_solver..|done].
Qed.

Lemma ring_ext m m' h q : (forall y, y ∈ h :: q -> srq_forward m' !! y = srq_forward m !! y) ->
  (forall y, y ∈ h :: q -> srq_backward m' !! y = srq_backward m !! y) -> ring m h q -> ring m' h q.
Proof. intros Hf Hb [Hn Hs]. split; [done|]. by apply (seg_ext m). Qed.

(** The node after the first part of a ring, and the links behind it *)
Definition next_of (h : Z) (q : list Z) : Z := default h (head q).
Definition rest (m : memory) (q : list Z) (h : Z) : Prop := match q with [] => True | x :: q => seg m x q h end.

Lemma seg_rest m a q b : seg m a q b <-> link m a (next_of b q) /\ rest m q b.
Proof. destruct q; cbn; tauto. Qed.

Lemma rest_ext m m' q h : NoDup (h :: q) -> (forall y, y ∈ q -> srq_forward m' !! y = srq_forward m !! y) ->
  (forall y, y ∈ h :: q -> y <> next_of h q -> srq_backward m' !! y = srq_backward m !! y) -> rest m q h -> rest m' q h.
Proof.
  intros Hnd Hf Hb. destruct q as [|x q]; [done|]. cbn. apply NoDup_cons in Hnd as [Hh [Hx _]%NoDup_cons].
  cbn in Hb. apply seg_ext; [done|]. intros y Hy. apply Hb; set_solver.
Qed.

(** A ring in two parts, with the link between them *)
Lemma ring_split m h q1 q2 : ring m h (q1 ++ q2) <->
  NoDup (h :: q1 ++ q2) /\ inner m h q1 /\ link m (end_of h q1) (next_of h q2) /\ rest m q2 h.
Proof. unfold ring. by rewrite seg_parts, seg_rest. Qed.

Lemma next_of_in h q : next_of h q ∈ h :: q.
Proof. destruct q; cbn; set_solver. Qed.

(** Changes of the link between them, and of other nodes, keep the parts. *)
Lemma parts_ext m m' h q1 q2 : NoDup (h :: q1 ++ q2) ->
  (forall y, y ∈ h :: q1 ++ q2 -> y <> end_of h q1 -> srq_forward m' !! y = srq_forward m !! y) ->
  (forall y, y ∈ h :: q1 ++ q2 -> y <> next_of h q2 -> srq_backward m' !! y = srq_backward m !! y) ->
  inner m h q1 -> rest m q2 h -> inner m' h q1 /\ rest m' q2 h.
Proof.
  intros Hnd Hf Hb Hi Hr. pose proof Hnd as [Hh [Hn1 [Hd Hn2]]%NoDup_app]%NoDup_cons. split.
  - apply (inner_ext m); try done.
    + apply NoDup_cons. set_solver.
    + intros y Hy. apply Hf. set_solver.
    + intros y Hy. apply Hb; [set_solver|]. intros Hy'. pose proof (next_of_in h q2) as H. rewrite <- Hy' in H. clear Hy'. set_solver.
  - apply (rest_ext m); try done.
    + apply NoDup_cons. set_solver.
    + intros y Hy. apply Hf; [set_solver|]. intros Hy'. pose proof (end_of_in h q1) as H. rewrite <- Hy' in H. clear Hy'. set_solver.
    + intros y Hy. apply Hb. set_solver.
Qed.

(** ** Recovery *)

(** Nothing to do *)
Definition quiet (m : memory) : Prop := shb_remove_node m = 0 /\ (shb_insert_que m = 0 \/ shb_insert_prior m = 0).
(** As an operation leaves it *)
Definition clean (m : memory) : Prop := shb_remove_node m = 0 /\ shb_insert_prior m = 0.

Lemma quiet_recover m : quiet m -> recover_work m = [].
Proof. intros [H1 H2]. unfold recover_work. rewrite decide_False by naive_solver. apply decide_False. naive_solver. Qed.

(** The stores of the queues leave the owner as it is. *)
Definition keeps_owner (s : store) : Prop := forall m m', s m = Ok m' -> lhb_active_owner m' = lhb_active_owner m.

Lemma run_keeps_owner ss m m' : Forall keeps_owner ss -> run_stores ss m = Ok m' -> lhb_active_owner m' = lhb_active_owner m.
Proof.
  intros Hs. revert m. induction Hs as [|s ss Hs Hss IH]; intros m; cbn; [by intros [= ->]|].
  destruct (s m) as [m1| |] eqn:E; cbn; [|done|done]. intros H. rewrite (IH m1 H). by apply Hs.
Qed.

Lemma crashed_keeps_owner k ss m m' : Forall keeps_owner ss -> crashed k ss m = Ok m' -> lhb_active_owner m' = lhb_active_owner m.
Proof. intros Hs. apply run_keeps_owner. by apply Forall_take. Qed.

Ltac keep_owner := repeat (apply Forall_cons; split;
    [intros ? ?; cbn; repeat match goal with |- context [?g !! ?i] => destruct (g !! i); cbn; try done end; by intros [= <-]|]);
  by apply Forall_nil.

Lemma insert_keeps_owner n x : Forall keeps_owner (insert_tail_stores n x).
Proof. unfold insert_tail_stores. keep_owner. Qed.
Lemma remove_keeps_owner x : Forall keeps_owner (remove_que_stores x).
Proof. unfold remove_que_stores. keep_owner. Qed.
Lemma recover_keeps_owner m : Forall keeps_owner (recover_work m).
Proof. unfold recover_work. case_decide; [apply remove_keeps_owner|]. case_decide; keep_owner. Qed.

(** What does not depend on the owner, is kept by each crash of a recovery and holds at its end
    with nothing left to do, holds in the end. *)
Lemma recovered_ind_inv (P : memory -> Prop) : (forall m o, P m -> P (set_active_owner o m)) ->
  (forall m, P m -> forall k m', crashed k (recover_work m) m = Ok m' -> P m') ->
  (forall m, P m -> forall m', run_stores (recover_work m) m = Ok m' -> P m' /\ quiet m') ->
  forall m m', recovered m m' -> lhb_active_owner m > 0 -> P m -> P m' /\ quiet m'.
Proof.
  intros Ho Hc Hd m m' H. induction H as [m o m' H|m o k m1 m' Hpos H H' IH]; intros Ha HP.
  - unfold acquire_stores, recover_stores in H. rewrite decide_True in H by done. cbn [run_stores mbind Outcome_bind] in H.
    apply (Hd (set_active_owner o m)); [by apply Ho|exact H].
  - destruct k as [|k]; [injection H as <-; by apply IH|].
    unfold acquire_stores, recover_stores, crashed in H. rewrite decide_True in H by done. cbn [take run_stores mbind Outcome_bind] in H.
    apply IH.
    + rewrite (crashed_keeps_owner k (recover_work m) (set_active_owner o m) m1); [done|apply recover_keeps_owner|exact H].
    + apply (Hc (set_active_owner o m)) with (k := k); [by apply Ho|exact H].
Qed.

(** Someone who finds the work and completes it *)
Lemma recovered_once m m' : lhb_active_owner m > 0 -> run_stores (recover_work m) (set_active_owner 1 m) = Ok m' -> recovered m m'.
Proof.
  intros Ha H. apply (recovered_done m 1). unfold acquire_stores, recover_stores. by rewrite decide_True.
Qed.

Lemma recovered_quiet m : quiet m -> exists m', recovered m m'.
Proof.
  intros H. exists (set_active_owner 1 m). apply (recovered_done m 1). unfold acquire_stores, recover_stores.
  rewrite (quiet_recover m H). by case_decide.
Qed.

Lemma run_take ss m : run_stores ss m = crashed (length ss) ss m.
Proof. unfold crashed. by rewrite firstn_all. Qed.

(** The same links but for some nodes *)
Definition agree (X Y : list Z) (m m' : memory) : Prop :=
  (forall y, y ∉ X -> srq_forward m' !! y = srq_forward m !! y) /\
  (forall y, y ∉ Y -> srq_backward m' !! y = srq_backward m !! y).

Lemma agree_ring X Y m m' h q : agree X Y m m' -> (forall y, y ∈ h :: q -> (y ∉ X) /\ (y ∉ Y)) -> ring m h q -> ring m' h q.
Proof. intros [Hf Hb] H. apply ring_ext; intros y Hy; [apply Hf|apply Hb]; by apply H. Qed.

Ltac stores := cbn [take run_stores insert_tail_stores remove_que_stores mbind Outcome_bind access set_forward set_backward
  set_remove_node set_insert_que set_insert_prior set_active_owner srq_forward srq_backward shb_remove_node shb_insert_que shb_insert_prior].
Ltac split_out := repeat match goal with H : _ ∉ _ :: _ |- _ => apply not_elem_of_cons in H as [? H] end.
Ltac links := stores; split_out;
  repeat first [ rewrite lookup_insert_eq | rewrite lookup_insert_ne by congruence ].
Ltac outside := repeat (apply not_elem_of_cons; split; [congruence|]); apply not_elem_of_nil.

Section Insert.
Context (m : memory) (h : Z) (q1 q2 : list Z) (x : Z).
Hypothesis Hring : ring m h (q1 ++ q2).
Hypothesis Hx : x ∉ h :: q1 ++ q2.
Hypothesis Hzero : 0 ∉ h :: q1 ++ q2.
Hypothesis Hclean : clean m.
#[local] Abbreviation p := (end_of h q1).
#[local] Abbreviation n := (next_of h q2).

(** After the second store: the recovery puts the link from [p] to [n] back. *)
Definition inserting (m' : memory) : Prop :=
  shb_insert_que m' = n /\ shb_insert_prior m' = p /\ shb_remove_node m' = 0 /\ agree [x; p] [x; n] m m'.
Definition not_inserted (m' : memory) : Prop := quiet m' /\ agree [x] [x] m m'.
Definition inserted (m' : memory) : Prop := quiet m' /\ agree [x; p] [x; n] m m' /\ link m' p x /\ link m' x n.

Lemma insert_nodes : p ∈ h :: q1 ++ q2 /\ n ∈ h :: q1 ++ q2 /\ x <> p /\ x <> n /\ p <> 0 /\ n <> 0.
Proof using All.
  assert (Hp : p ∈ h :: q1 ++ q2) by (pose proof (end_of_in h q1); set_solver).
  assert (Hn : n ∈ h :: q1 ++ q2) by (pose proof (next_of_in h q2); set_solver).
  split; [done|]. split; [done|]. split_and!; intros E.
  - apply Hx. by rewrite E.
  - apply Hx. by rewrite E.
  - apply Hzero. by rewrite <- E.
  - apply Hzero. by rewrite <- E.
Qed.

Lemma insert_crashed k : exists m', crashed k (insert_tail_stores n x) m = Ok m' /\
  match k with 0%nat | 1%nat => not_inserted m' | 2%nat | 3%nat | 4%nat | 5%nat | 6%nat => inserting m' | _ => inserted m' end.
Proof using Hring Hx Hzero Hclean.
  pose proof insert_nodes as (_ & _ & Hxp & Hxn & Hp & Hn). pose proof Hring as (_ & _ & [Hf Hb] & _)%ring_split.
  destruct Hclean as [C1 C2]. unfold crashed, not_inserted, inserting, inserted, agree, link, quiet.
  do 8 try (destruct k as [|k]); stores;
    repeat first [rewrite Hb; stores | rewrite (lookup_insert_ne _ x n p Hxn); stores]; rewrite ?firstn_nil.
  all: eexists; split; [reflexivity|]; stores; split_and!; try tauto; try done; intros; links; done.
Qed.

Lemma undo_stores m1 : inserting m1 -> recover_work m1 =
  [ fun m => Ok (set_backward (shb_insert_que m) (shb_insert_prior m) m);
    fun m => Ok (set_forward (shb_insert_prior m) (shb_insert_que m) m);
    fun m => Ok (set_insert_que 0 m); fun m => Ok (set_insert_prior 0 m) ].
Proof using All.
  intros (E1 & E2 & E3 & _). pose proof insert_nodes as (_ & _ & _ & _ & Hp & Hn). unfold recover_work.
  rewrite decide_False by lia. apply decide_True. by rewrite E1, E2.
Qed.

(** The recovery undoes an insertion that was cut off, wherever it is cut off itself. *)
Lemma undo_crashed m1 k : inserting m1 -> exists m2, crashed k (recover_work m1) m1 = Ok m2 /\
  match k with 0%nat | 1%nat | 2%nat => inserting m2 | _ => not_inserted m2 end.
Proof using All.
  intros Hm. rewrite (undo_stores _ Hm). destruct Hm as (E1 & E2 & E3 & A1 & A2). pose proof Hring as (_ & _ & [Hf Hb] & _)%ring_split.
  unfold crashed, not_inserted, inserting, agree, quiet. do 4 try (destruct k as [|k]); stores; rewrite ?firstn_nil.
  all: eexists; split; [reflexivity|]; stores; rewrite ?E1, ?E2; split_and!; try tauto; try done; intros y Hy.
  all: rewrite ?lookup_insert; repeat case_decide; try congruence; first [apply A1|apply A2]; split_out; outside.
Qed.

Definition insert_cut (m1 : memory) : Prop := inserting m1 \/ not_inserted m1.

Lemma insert_recovered m1 m2 : recovered m1 m2 -> lhb_active_owner m1 > 0 -> insert_cut m1 -> not_inserted m2.
Proof using All.
  intros Hr Ha Hc. enough (insert_cut m2 /\ quiet m2) as [[Hi|?] [_ Hq]]; [|done|].
  { destruct Hi as (E1 & E2 & _). pose proof insert_nodes as (_ & _ & _ & _ & Hp & Hn). rewrite E1, E2 in Hq. by destruct Hq. }
  apply (recovered_ind_inv insert_cut) with (m := m1); [by intros m3 o Hm| | |done..].
  - intros m3 [Hi|Hn] k m4 Hk.
    + destruct (undo_crashed m3 k Hi) as (m5 & Hk' & Hs). rewrite Hk in Hk'. injection Hk' as ->. unfold insert_cut.
      destruct k as [|[|[|k]]]; auto.
    + rewrite (quiet_recover m3) in Hk by apply Hn. unfold crashed in Hk. rewrite firstn_nil in Hk. injection Hk as ->. by right.
  - intros m3 [Hi|Hn] m4 Hk.
    + rewrite run_take, (undo_stores _ Hi) in Hk. destruct (undo_crashed m3 4 Hi) as (m5 & Hk' & Hs).
      rewrite (undo_stores _ Hi) in Hk'. cbn [length] in Hk. rewrite Hk in Hk'. injection Hk' as ->. split; [by right|]. apply Hs.
    + rewrite (quiet_recover m3) in Hk by apply Hn. injection Hk as ->. split; [by right|]. apply Hn.
Qed.

Lemma insert_recovers m1 : lhb_active_owner m1 > 0 -> insert_cut m1 -> exists m2, recovered m1 m2.
Proof using All.
  intros Ha [Hi|[Hq _]]; [|by apply recovered_quiet]. assert (Hi' : inserting (set_active_owner 1 m1)) by exact Hi.
  destruct (undo_crashed _ 4 Hi') as (m2 & Hk & _). exists m2.
  apply recovered_once; [done|]. rewrite run_take, (undo_stores _ Hi). by rewrite (undo_stores _ Hi') in Hk.
Qed.

Lemma not_inserted_ring m1 : not_inserted m1 -> ring m1 h (q1 ++ q2).
Proof using All. intros [_ Ha]. apply (agree_ring [x] [x] m); [done| |done]. set_solver. Qed.

Lemma inserted_ring m1 : inserted m1 -> ring m1 h (q1 ++ x :: q2).
Proof using All.
  intros (_ & [A1 A2] & Hl1 & Hl2). pose proof Hring as (Hnd & Hi & _ & Hr)%ring_split.
  assert (Hnd' : NoDup (h :: q1 ++ x :: q2)).
  { rewrite <- Permutation_middle. rewrite Permutation_swap. apply NoDup_cons. by split. }
  destruct (parts_ext m m1 h q1 q2 Hnd) as [Hi' Hr']; try done.
  - intros y Hy Hne. apply A1. clear Hr Hi Hl1 Hl2. set_solver.
  - intros y Hy Hne. apply A2. clear Hr Hi Hl1 Hl2. set_solver.
  - apply ring_split. split; [done|]. split; [done|]. split; [done|]. cbn. apply seg_rest. by split.
Qed.

Lemma insert_frame m1 : not_inserted m1 \/ inserted m1 -> forall h' q', ring m h' q' ->
  (forall y, y ∈ h' :: q' -> y ∉ x :: h :: q1 ++ q2) -> ring m1 h' q'.
Proof using All.
  pose proof insert_nodes as (Hp & Hn & _). intros H h' q' Hr Hd. assert (Ha : agree [x; p] [x; n] m m1).
  { destruct H as [[_ [A1 A2]]|(_ & A & _)]; [|done]. split; intros y Hy; [apply A1|apply A2]; set_solver. }
  apply (agree_ring _ _ m _ _ _ Ha); [|done]. intros y Hy. specialize (Hd y Hy). clear Hr H Ha. set_solver.
Qed.
End Insert.

Section Remove.
Context (m : memory) (h : Z) (q1 q2 : list Z) (x : Z).
Hypothesis Hring : ring m h (q1 ++ x :: q2).
Hypothesis Hzero : x <> 0.
Hypothesis Hclean : clean m.
#[local] Abbreviation p := (end_of h q1).
#[local] Abbreviation n := (next_of h q2).

(** The links of the node itself are as they were: the removal can begin again. *)
Definition removing (m' : memory) : Prop :=
  shb_remove_node m' = x /\ shb_insert_prior m' = 0 /\ agree [p] [n] m m'.
Definition removed (m' : memory) : Prop := clean m' /\ agree [x; p] [x; n] m m' /\ link m' p n.

Lemma remove_nodes : h <> x /\ p <> x /\ n <> x /\ srq_forward m !! x = Some n /\ srq_backward m !! x = Some p.
Proof using All.
  pose proof Hring as (Hnd & _ & [Hf Hb] & Hr)%ring_split. cbn in Hr. apply seg_rest in Hr as [[Hf' Hb'] _].
  assert (Hp : p ∈ h :: q1) by apply end_of_in. assert (Hn : n ∈ h :: q2) by apply next_of_in.
  apply NoDup_cons in Hnd as [Hh [_ [Hd [Hx _]%NoDup_cons]]%NoDup_app].
  assert (Hxq1 : x ∉ q1) by (intros H; apply (Hd x H); by left).
  assert (Hhx : h <> x) by (intros ->; apply Hh, elem_of_app; right; by left). split; [done|].
  split; [intros Ep; rewrite Ep in Hp; apply elem_of_cons in Hp as [?|?]; congruence|].
  split; [intros En; rewrite En in Hn; apply elem_of_cons in Hn as [?|?]; congruence|]. done.
Qed.

(** From the first store on, and again after each crash, the stores lead to the removal. *)
Lemma remove_crashed m1 k : removing (set_remove_node x m1) -> exists m2, crashed k (remove_que_stores x) m1 = Ok m2 /\
  match k with 0%nat => m2 = m1 | 1%nat | 2%nat | 3%nat => removing m2 | _ => removed m2 end.
Proof using All.
  intros (_ & E2 & A1 & A2). cbn in E2, A1, A2. pose proof remove_nodes as (Hhx & Hp & Hn & Hf & Hb).
  assert (Hf1 : srq_forward m1 !! x = Some n) by (rewrite A1; [done|outside]).
  assert (Hb1 : srq_backward m1 !! x = Some p) by (rewrite A2; [done|outside]).
  assert (Hb2 : forall y, <[n := y]> (srq_backward m1) !! x = Some p) by (intros y; by rewrite lookup_insert_ne).
  destruct k as [|k]; [by exists m1|].
  unfold crashed, removing, removed, agree, clean, link. do 5 try (destruct k as [|k]); stores;
    repeat first [rewrite Hf1; stores | rewrite Hb1; stores | rewrite Hb2; stores]; rewrite ?firstn_nil.
  all: eexists; split; [reflexivity|]; stores; split_and!; try done; try (intros y Hy).
  all: rewrite ?lookup_insert; repeat case_decide; try congruence; split_out; try (first [apply A1|apply A2]; outside).
  all: by subst.
Qed.

Lemma remove_again m1 : removing m1 -> recover_work m1 = remove_que_stores x /\ removing (set_remove_node x m1).
Proof using All.
  intros (E1 & E2 & A). split; [|by split]. unfold recover_work. rewrite E1. by apply decide_True.
Qed.

Lemma removed_quiet m1 : removed m1 -> quiet m1.
Proof using All. intros [[H1 H2] _]. split; auto. Qed.

Definition remove_cut (m1 : memory) : Prop := removing m1 \/ removed m1.

Lemma remove_recovered m1 m2 : recovered m1 m2 -> lhb_active_owner m1 > 0 -> remove_cut m1 -> removed m2.
Proof using All.
  intros Hr Ha Hc. enough (remove_cut m2 /\ quiet m2) as [[(E & _)|?] [Hq _]]; [|done|].
  { by rewrite Hq in E. }
  assert (Hcut : forall m3 k m4, remove_cut m3 -> crashed k (recover_work m3) m3 = Ok m4 ->
    remove_cut m4 /\ ((6 <= k)%nat -> removed m4)).
  { intros m3 k m4 [Hi|Hn] Hk.
    - destruct (remove_again m3 Hi) as [Hs Hi']. rewrite Hs in Hk. destruct (remove_crashed m3 k Hi') as (m5 & Hk' & H).
      rewrite Hk in Hk'. injection Hk' as ->. destruct k as [|[|[|[|k]]]]; [by subst; split; [left|lia]|..];
        (split; [|by auto with lia || lia]); unfold remove_cut; auto.
    - rewrite (quiet_recover m3 (removed_quiet _ Hn)) in Hk. unfold crashed in Hk. rewrite firstn_nil in Hk.
      injection Hk as ->. split; [by right|done]. }
  apply (recovered_ind_inv remove_cut) with (m := m1); [by intros m3 o Hm| | |done..].
  - intros m3 Hm k m4 Hk. by apply (Hcut m3 k m4).
  - intros m3 Hm m4 Hk. rewrite run_take in Hk. destruct Hm as [Hi|Hn].
    + destruct (remove_again m3 Hi) as [Hs _]. apply Hcut in Hk as [? Hk]; [|by left]. rewrite Hs in Hk.
      split; [done|]. apply removed_quiet, Hk. cbn. lia.
    + rewrite (quiet_recover m3 (removed_quiet _ Hn)) in Hk. injection Hk as ->. split; [by right|by apply removed_quiet].
Qed.

Lemma remove_recovers m1 : lhb_active_owner m1 > 0 -> remove_cut m1 -> exists m2, recovered m1 m2.
Proof using All.
  intros Ha [Hi|Hn]; [|by apply recovered_quiet, removed_quiet]. destruct (remove_again m1 Hi) as [Hs _].
  assert (Hi' : removing (set_active_owner 1 m1)) by exact Hi. destruct (remove_again _ Hi') as [_ Hi2].
  destruct (remove_crashed _ 6 Hi2) as (m2 & Hk & _). exists m2. apply recovered_once; [done|]. rewrite run_take. by rewrite Hs.
Qed.

Lemma removed_ring m1 : removed m1 -> ring m1 h (q1 ++ q2).
Proof using All.
  intros (_ & [A1 A2] & Hl). pose proof Hring as (Hnd & Hi & _ & Hr)%ring_split. cbn in Hr. apply seg_rest in Hr as [_ Hr].
  rewrite <- Permutation_middle, Permutation_swap in Hnd. apply NoDup_cons in Hnd as [Hx Hnd].
  destruct (parts_ext m m1 h q1 q2 Hnd) as [Hi' Hr']; try done.
  - intros y Hy Hne. apply A1. assert (y <> x) by (intros ->; done). outside.
  - intros y Hy Hne. apply A2. assert (y <> x) by (intros ->; done). outside.
  - apply ring_split. done.
Qed.

Lemma remove_frame m1 : removed m1 -> forall h' q', ring m h' q' ->
  (forall y, y ∈ h' :: q' -> y ∉ x :: h :: q1 ++ q2) -> ring m1 h' q'.
Proof using All.
  intros (_ & Ha & _) h' q' Hr Hd. apply (agree_ring _ _ m _ _ _ Ha); [|done].
  assert (Hp : p ∈ h :: q1) by apply end_of_in. assert (Hn : n ∈ h :: q2) by apply next_of_in.
  intros y Hy. specialize (Hd y Hy). clear Hr Ha Hring. set_solver.
Qed.
End Remove.

(** ** What a crash leaves *)

(** Other rings are as they were. *)
Definition others_kept (m m' : memory) (nodes : list Z) : Prop :=
  forall h q, ring m h q -> (forall y, y ∈ h :: q -> y ∉ nodes) -> ring m' h q.

(** Two headers, [10] and [20], with a node each *)
Definition demo_memory : memory :=
  {| srq_forward := list_to_map [(10, 11); (11, 10); (20, 21); (21, 20)];
     srq_backward := list_to_map [(10, 11); (11, 10); (20, 21); (21, 20)];
     shb_remove_node := 0; shb_insert_que := 0; shb_insert_prior := 0; lhb_active_owner := 1 |}.

Lemma demo_ring : ring demo_memory 10 [11] /\ ring demo_memory 20 [21] /\ clean demo_memory.
Proof. split_and!; try done; (split; [apply (bool_decide_unpack _); vm_compute; exact I|by vm_compute]). Qed.



(** C33. Wherever a process dies in [remove_que] that has acquired the table for an owner, and
    wherever others die, who have acquired it for owners too, while they complete its
    work, in the end the node is gone from the queue, unless it died before the first store; the
    other nodes are in their order, and no other queue changes. *)
Theorem remove_crash_safe m h q1 q2 x k : lhb_active_owner m > 0 -> ring m h (q1 ++ x :: q2) -> x <> 0 -> clean m ->
  exists m1, crashed k (remove_que_stores x) m = Ok m1 /\ (exists m2, recovered m1 m2) /\
    forall m2, recovered m1 m2 ->
      ring m2 h (if decide (k = 0)%nat then q1 ++ x :: q2 else q1 ++ q2) /\ others_kept m m2 (x :: h :: q1 ++ q2).
Proof.
  intros Ha Hr Hz Hc. assert (Hrm : removing m h q1 q2 x (set_remove_node x m)) by (split; [done|]; split; [apply Hc|done]).
  destruct (remove_crashed m h q1 q2 x Hr Hz Hc m k Hrm) as (m1 & Hk & Hm). exists m1. split; [done|].
  assert (Ha1 : lhb_active_owner m1 > 0) by (by rewrite (crashed_keeps_owner k _ m m1 (remove_keeps_owner x) Hk)).
  destruct (decide (k = 0)%nat) as [->|Hne].
  - subst m1. assert (Hq : quiet m) by (split; [|right]; apply Hc).
    split; [by apply recovered_quiet|]. intros m2 Hm2.
    apply (recovered_ind_inv (fun m2 => exists o, m2 = set_active_owner o m)) in Hm2 as [[o ->] _].
    + split; [by apply (ring_ext m)|]. intros h' q' Hr' _. by apply (ring_ext m).
    + intros m3 o [o' ->]. by exists o.
    + intros m3 [o ->] j m4. rewrite quiet_recover by done. unfold crashed. rewrite firstn_nil. intros [= <-]. by exists o.
    + intros m3 [o ->] m4. rewrite quiet_recover by done. intros [= <-]. split; [by exists o|done].
    + done.
    + exists (lhb_active_owner m). by destruct m.
  - assert (Hcut : remove_cut m h q1 q2 x m1) by (destruct k as [|[|[|[|k]]]]; [done|by left..|by right]).
    split; [by apply (remove_recovers m h q1 q2 x)|]. intros m2 Hm2. apply (remove_recovered m h q1 q2 x) in Hm2; try done.
    split; [by apply (removed_ring m h q1 q2 x)|]. intros h' q'. by apply (remove_frame m h q1 q2 x).
Qed.

(** The process dies after two stores, when the links no longer agree. *)
Lemma remove_crash_safe_witness : exists m1, crashed 2 (remove_que_stores 11) demo_memory = Ok m1 /\ (exists m2, recovered m1 m2) /\
  forall m2, recovered m1 m2 -> ring m2 10 [] /\ others_kept demo_memory m2 [11; 10].
Proof. refine (remove_crash_safe demo_memory 10 [] [] 11 2 _ _ _ _); [reflexivity|apply demo_ring|done|apply demo_ring]. Defined.

(** ** Queues as lists *)

Lemma srq_loop_next fuel m h a f : a <> h -> srq_forward m !! a = Some f ->
  srq_loop (S fuel) m h a = (q ← srq_loop fuel m h f; Ok (a :: q)).
Proof. intros Ha Hf. cbn [srq_loop]. rewrite decide_False by done. by rewrite Hf. Qed.

Lemma srq_loop_seg m h a q : a <> h -> h ∉ q -> seg m a q h -> srq_loop (S (length q)) m h a = Ok (a :: q).
Proof.
  revert a. induction q as [|x q IH]; intros a Ha Hh; cbn [seg length].
  - intros [Hf _]. rewrite (srq_loop_next _ m h a h) by done. cbn. by rewrite decide_True.
  - intros [[Hf _] Hs]. apply not_elem_of_cons in Hh as [Hx Hh]. rewrite (srq_loop_next _ m h a x) by done. by rewrite IH.
Qed.

Lemma srq_nodes_ring m h q : ring m h q -> srq_nodes (length q) m h = Ok q /\ srq_empty m h = Ok (bool_decide (q = [])).
Proof.
  intros [[Hh _]%NoDup_cons Hs]. unfold srq_nodes, srq_empty. destruct q as [|x q]; cbn [seg] in Hs.
  - destruct Hs as [-> _]. cbn. by rewrite decide_True, bool_decide_true.
  - destruct Hs as [[-> _] Hs]. cbn [access mbind Outcome_bind]. apply not_elem_of_cons in Hh as [Hx Hh].
    change (length (x :: q)) with (S (length q)). rewrite srq_loop_seg by done. by rewrite !bool_decide_false.
Qed.

Lemma run_insert_clean n x m m' : clean m -> run_stores (insert_tail_stores n x) m = Ok m' -> clean m'.
Proof.
  intros [C _]. stores. destruct (srq_backward m !! n) as [b|] eqn:Hb; stores; [|done]. rewrite Hb. stores.
  destruct (<[x := b]> (srq_backward m) !! n); stores; [|done]. intros [= <-]. split; [exact C|reflexivity].
Qed.

(** The node that was removed is a queue of its own. *)
Lemma run_remove_self x m m' : clean m -> run_stores (remove_que_stores x) m = Ok m' -> clean m' /\ ring m' x [].
Proof.
  intros [_ C] H. revert H. stores. destruct (srq_forward m !! x) as [f|] eqn:Hf; stores; [|done].
  destruct (srq_backward m !! x) as [b|]; stores; [|done]. rewrite ?Hf. stores. destruct (<[f := b]> (srq_backward m) !! x); stores; [|done].
  rewrite ?Hf. stores. intros [= <-]. split; [by split|]. split; [apply NoDup_singleton|]. split; by links.
Qed.

(** Removing it again changes nothing. *)
Lemma remove_alone x m : ring m x [] -> exists m', run_stores (remove_que_stores x) m = Ok m' /\ others_kept m m' [].
Proof.
  intros [_ [Hf Hb]]. assert (Hb' : <[x := x]> (srq_backward m) !! x = Some x) by (by rewrite lookup_insert_eq).
  stores. repeat first [rewrite Hf; stores | rewrite Hb; stores | rewrite Hb'; stores].
  eexists. split; [reflexivity|]. intros h q Hr _. apply (ring_ext m); [..|done]; intros y _; stores;
    rewrite !lookup_insert; by repeat case_decide; subst.
Qed.

Lemma remove_que_middle x q1 q2 : x ∉ q1 -> x ∉ q2 -> remove_que x (q1 ++ x :: q2) = q1 ++ q2.
Proof.
  assert (H : forall q, x ∉ q -> remove_que x q = q).
  { induction q as [|y q IH]; [done|]. intros [Hy Hq]%not_elem_of_cons. unfold remove_que in *. rewrite filter_cons_True by congruence.
    by rewrite IH. }
  intros H1 H2. unfold remove_que in *. rewrite filter_app, filter_cons_False by (intros Hn; by apply Hn). by rewrite !H.
Qed.

(** The queues of the table are the lists that stand for them: [SRQ_LOOP] goes through the
    list and [SRQ_EMPTY] tells if it is empty, [insert_tail] at the header appends the node, and
    [remove_que] takes it out and leaves it alone, so that it may be removed again; other queues do not change. *)
Theorem que_refines_list m h q x : ring m h q -> 0 ∉ h :: q -> clean m ->
  srq_nodes (length q) m h = Ok q /\ srq_empty m h = Ok (bool_decide (q = [])) /\
  (x ∉ h :: q -> exists m', run_stores (insert_tail_stores h x) m = Ok m' /\ clean m' /\
     ring m' h (insert_tail x q) /\ others_kept m m' (x :: h :: q)) /\
  (x ∈ q -> exists m', run_stores (remove_que_stores x) m = Ok m' /\ clean m' /\
     ring m' h (remove_que x q) /\ ring m' x [] /\ others_kept m m' (h :: q)) /\
  (ring m x [] -> exists m', run_stores (remove_que_stores x) m = Ok m' /\ others_kept m m' []).
Proof.
  intros Hr Hz Hc. destruct (srq_nodes_ring m h q Hr) as [H1 H2]. split; [done|]. split; [done|]. split; [|split; [|apply remove_alone]].
  - intros Hx. pose proof Hr as Hr0. rewrite <- (app_nil_r q) in Hr0, Hx, Hz.
    destruct (insert_crashed m h q [] x Hr0 Hx Hz Hc 8) as (m' & Hk & Hm). cbn in Hm. exists m'.
    rewrite run_take. split; [done|]. split; [eapply run_insert_clean; [done|]; rewrite run_take; done|].
    split; [by apply (inserted_ring m h q [] x)|]. rewrite <- (app_nil_r q). intros h' q'. apply (insert_frame m h q [] x); auto.
  - intros Hx. apply list_elem_of_split in Hx as (q1 & q2 & ->). assert (Hx0 : x <> 0) by (intros ->; apply Hz; set_solver).
    assert (Hrm : removing m h q1 q2 x (set_remove_node x m)) by (split; [done|]; split; [apply Hc|done]).
    destruct (remove_crashed m h q1 q2 x Hr Hx0 Hc m 6 Hrm) as (m' & Hk & Hm). cbn in Hm. exists m'.
    rewrite run_take. split; [done|]. destruct (run_remove_self x m m' Hc) as [Hc' Hr']; [by rewrite run_take|]. split; [done|].
    pose proof Hr as [[_ [_ [Hd [Hx2 _]%NoDup_cons]]%NoDup_app]%NoDup_cons _].
    rewrite remove_que_middle; [|intros H; apply (Hd x H); by left|done].
    split; [by apply (removed_ring m h q1 q2 x)|]. split; [done|]. intros h' q' Hr2 Hd2.
    apply (remove_frame m h q1 q2 x Hr Hx0 Hc m' Hm); [done|]. intros y Hy. specialize (Hd2 y Hy). clear - Hd2. set_solver.
Qed.

Lemma que_refines_list_witness : exists m', run_stores (remove_que_stores 11) demo_memory = Ok m' /\ clean m' /\
  ring m' 10 [] /\ ring m' 11 [] /\ others_kept demo_memory m' [10; 11].
Proof.
  refine (proj1 (proj2 (proj2 (proj2 (que_refines_list demo_memory 10 [11] 11 _ _ _)))) _); [apply demo_ring| |apply demo_ring|by left].
  apply (bool_decide_unpack _). vm_compute. exact I.
Defined.

(** ** Two crashes *)

(** A process dies in [insert_tail] between its last two stores, and leaves [shb_insert_prior] of the first queue; the
    recovery sees no work. Another one dies in its next [insert_tail], after its first store, in another queue: now the
    recovery links the two queues, and the second one is none any more. *)
Theorem second_crash_breaks : exists m1 m2 m3 m4,
  crashed 7 (insert_tail_stores 10 12) demo_memory = Ok m1 /\ run_stores (acquire_stores 2 m1) m1 = Ok m2 /\
  ring m2 10 [11; 12] /\ ring m2 20 [21] /\
  crashed 1 (insert_tail_stores 20 22) m2 = Ok m3 /\ run_stores (acquire_stores 3 m3) m3 = Ok m4 /\ forall q, ~ ring m4 20 q.
Proof.
  eexists _, _, _, _. split; [vm_compute; reflexivity|]. split; [vm_compute; reflexivity|].
  split; [split; [apply (bool_decide_unpack _); vm_compute; exact I|by vm_compute]|].
  split; [split; [apply (bool_decide_unpack _); vm_compute; exact I|by vm_compute]|].
  split; [vm_compute; reflexivity|]. split; [vm_compute; reflexivity|].
  intros [|y q] [Hnd Hs]; [by destruct Hs|]. destruct Hs as [[Hf _] Hs]. vm_compute in Hf. injection Hf as <-.
  destruct q as [|z q]; [by destruct Hs|]. destruct Hs as [[Hf _] _]. vm_compute in Hf. injection Hf as <-.
  apply NoDup_cons in Hnd as [H _]. apply H. set_solver.
Qed.

(** ** No owner *)

(** [create_owner] and [purge_process] among others acquire the table with [DUMMY_OWNER]. Who dies then is
    never recovered from: [acquire_shmem] looks at the secondary header only for owners above 0. If it dies
    after five stores of [insert_tail], the queue stays no ring. *)
Theorem dummy_owner_unrecovered : exists m0 m1 m2,
  run_stores (acquire_stores DUMMY_OWNER (set_active_owner 0 demo_memory)) (set_active_owner 0 demo_memory) = Ok m0 /\
  ring m0 10 [11] /\ clean m0 /\ crashed 5 (insert_tail_stores 10 12) m0 = Ok m1 /\
  run_stores (acquire_stores 2 m1) m1 = Ok m2 /\ forall q, ~ ring m2 10 q.
Proof.
  eexists _, _, _. split; [vm_compute; reflexivity|].
  split; [split; [apply (bool_decide_unpack _); vm_compute; exact I|by vm_compute]|]. split; [done|].
  split; [vm_compute; reflexivity|]. split; [vm_compute; reflexivity|].
  intros [|y q] [Hnd Hs]; [by destruct Hs|]. destruct Hs as [[Hf _] Hs]. vm_compute in Hf. injection Hf as <-.
  destruct q as [|z q]; [by destruct Hs|]. destruct Hs as [[Hf _] Hs]. vm_compute in Hf. injection Hf as <-.
  destruct q as [|y q]; [by destruct Hs|]. destruct Hs as [[Hf _] _]. vm_compute in Hf. injection Hf as <-.
  apply NoDup_cons in Hnd as [H _]. apply H. set_solver.
Qed.
