(* ===== verification/LockOps.v ===== *)
(** * The operations of the lock manager: [src/src/lock/lock.cpp]

    Statements in the order of the code. An operation that has to wait ends in [Waits] when
    its request is queued, and the wait goes on with [wait_loop] each time the owner is
    awake, until the request is no longer pending; then [enqueue_end] or [convert_end]
    finishes the operation. An AST of an owner in the same process is called by
    [blocking_action], which is a step of its own: what [signal_owner] does at once is that it
    marks the owner. *)

From S2P Require Import Prelude Outcome StateMonad LockTable.
From stdpp Require Import gmap.
#[local] Open Scope Z_scope.

Inductive answer := Granted | Denied | Waits.

(** [post_wakeup] without the event *)
Definition post_wakeup (o : Z) : LM unit :=
  b ← own_at o; if decide (own_waits b <> 0) then flag_own o OWN_wakeup else ret tt.

(** ** Granting *)

Definition remove_pending (r : Z) (q : lrq) : LM unit :=
  change_own (lrq_owner q) (fun b => set_own_pending (remove_que r (own_pending b)) b);;
  unflag_lrq r LRQ_pending;;
  change_pending_count (lrq_lock q) (-1).

Definition grant (r l : Z) : LM unit :=
  q ← lrq_at r;
  change_counts l (fun counts => count_up counts (lrq_requested q));;
  change_lrq r (set_lrq_state (lrq_requested q));;
  (if decide (lrq_data q <> 0)
   then remove_data l;; assign_data l (lrq_data q);; change_lrq r (set_lrq_data 0)
   else ret tt);;
  change_lbl l (fun b => set_lbl_state (lock_state (lbl_counts b)) b);;
  (if has_flag (lrq_flags q) LRQ_pending then remove_pending r q else ret tt);;
  post_wakeup (lrq_owner q).

(** The first loop of [post_pending]; it ends at the first request that cannot be granted. *)
Fixpoint grant_pending (l : Z) (rs : list Z) : LM unit :=
  match rs with
  | [] => ret tt
  | r :: rs =>
      q ← lrq_at r;
      if has_flag (lrq_flags q) LRQ_pending then
        if decide (lrq_state q <> 0) then
          change_counts l (fun counts => count_down counts (lrq_state q));;
          b ← lbl_at l;
          c ← compat (lrq_requested q) (lock_state (lbl_counts b));
          if c : bool then grant r l;; grant_pending l rs
          else change_counts l (fun counts => count_up counts (lrq_state q));; post_wakeup (lrq_owner q)
        else
          b ← lbl_at l;
          c ← compat (lrq_requested q) (lbl_state b);
          if c : bool then grant r l;; grant_pending l rs
          else post_wakeup (lrq_owner q)
      else grant_pending l rs
  end.

(** The second one, up to the first request that still waits *)
Fixpoint mark_just_granted (rs : list Z) : LM unit :=
  match rs with
  | [] => ret tt
  | r :: rs =>
      q ← lrq_at r;
      if has_flag (lrq_flags q) LRQ_pending then ret tt
      else
        (if negb (has_flag (lrq_flags q) (Z.lor LRQ_blocking LRQ_blocking_seen)) && bool_decide (lrq_ast_routine q <> 0)
         then flag_lrq r LRQ_just_granted else ret tt);;
        mark_just_granted rs
  end.

Definition post_pending (l : Z) : LM unit :=
  b ← lbl_at l;
  if decide (lbl_pending_lrq_count b = 0) then ret tt
  else
    grant_pending l (lbl_requests b);;
    b ← lbl_at l;
    if decide (lbl_pending_lrq_count b <> 0) then mark_just_granted (lbl_requests b) else ret tt.

(** ** Releasing *)

Definition free_request (r : Z) : LM unit :=
  change_lrq r (set_lrq_type type_null);;
  modify (fun t => set_lhb_free_requests (insert_tail r (lhb_free_requests t)) t).

Definition free_lock (l : Z) : LM unit :=
  modify (fun t => set_lhb_hash (map (remove_que l) (lhb_hash t)) t);;
  remove_data l;;
  change_lbl l (set_lbl_type type_null);;
  modify (fun t => set_lhb_free_locks (insert_tail l (lhb_free_locks t)) t).

(** The request leaves the queues of its lock and its owner. *)
Definition unlink_request (r : Z) (q : lrq) : LM unit :=
  change_lbl (lrq_lock q) (fun b => set_lbl_requests (remove_que r (lbl_requests b)) b);;
  change_own (lrq_owner q) (fun b => set_own_requests (remove_que r (own_requests b)) b);;
  free_request r;;
  (if has_flag (lrq_flags q) LRQ_blocking
   then change_own (lrq_owner q) (fun b => set_own_blocks (remove_que r (own_blocks b)) b);; unflag_lrq r LRQ_blocking
   else ret tt);;
  (if has_flag (lrq_flags q) LRQ_pending then remove_pending r q else ret tt);;
  unflag_lrq r (Z.lor LRQ_blocking_seen LRQ_just_granted).

Definition release_request (r : Z) : LM unit :=
  q ← lrq_at r;
  unlink_request r q;;
  b ← lbl_at (lrq_lock q);
  if decide (lbl_requests b = []) then free_lock (lrq_lock q)
  else
    freed ←
      (if decide (lrq_state q <> LCK_none) then
         change_counts (lrq_lock q) (fun counts => count_down counts (lrq_state q));;
         b ← lbl_at (lrq_lock q);
         n ← lift (access (lbl_counts b @ lrq_state q));
         ret (bool_decide (n = 0))
       else ret false);
    (if freed : bool then change_lbl (lrq_lock q) (fun b => set_lbl_state (lock_state (lbl_counts b)) b) else ret tt);;
    post_pending (lrq_lock q).

(** The request of a user: its offset is checked. *)
Definition get_request (r : Z) : LM lrq :=
  q ← lrq_at r;
  if decide (r = -1 \/ lrq_type q <> type_lrq) then lift (BugCheck r)
  else
    b ← lbl_at (lrq_lock q);
    if decide (lbl_type b <> type_lbl) then lift (BugCheck r) else ret q.

Definition internal_dequeue (r : Z) : LM unit :=
  _ ← get_request r; change_lrq r (set_lrq_ast_routine 0);; release_request r.

(** ** Waiting *)

(** [signal_owner]: the owner is marked; its AST is run later. *)
Definition signal_owner (o : Z) : LM unit := flag_own o OWN_signaled.

(** The owners of the requests that block a request, which are told so *)
Fixpoint collect_blocking (r : Z) (q : lrq) (rs : list Z) : LM (list Z) :=
  match rs with
  | [] => ret []
  | x :: rs =>
      block ← lrq_at x;
      if decide (x = r \/ lrq_owner block = lrq_owner q) then collect_blocking r q rs
      else
        c ← compat (lrq_requested q) (lrq_state block);
        if c || bool_decide (lrq_ast_routine block = 0) || has_flag (lrq_flags block) LRQ_blocking_seen
        then collect_blocking r q rs
        else
          (if has_flag (lrq_flags block) LRQ_blocking then ret tt
           else
             change_own (lrq_owner block) (fun b => set_own_blocks (insert_tail x (own_blocks b)) b);;
             flag_lrq x LRQ_blocking;;
             unflag_lrq x (Z.lor LRQ_blocking_seen LRQ_just_granted));;
          os ← (if decide (lrq_state block = LCK_EX) then ret [] else collect_blocking r q rs);
          ret (lrq_owner block :: os)
  end.

Fixpoint signal_owners (os : list Z) : LM unit :=
  match os with
  | [] => ret tt
  | o :: os =>
      b ← own_at o;
      (if bool_decide (own_count b <> 0) && negb (has_flag (own_flags b) OWN_signaled) then signal_owner o else ret tt);;
      signal_owners os
  end.

Definition post_blockage (r : Z) : LM unit :=
  q ← lrq_at r;
  b ← lbl_at (lrq_lock q);
  os ← collect_blocking r q (lbl_requests b);
  signal_owners os.

(** The beginning of [wait_for_request] *)
Definition wait_begin (r lck_wait : Z) : LM unit :=
  q ← lrq_at r;
  change_own (lrq_owner q) (fun b =>
    set_own_waits (wrapU 16 (own_waits b + 1))
      (set_own_flags (without_flag (Z.lor OWN_scanned OWN_wakeup) (own_flags b)) b));;
  change_lrq r (fun q => set_lrq_flags (with_flag LRQ_pending (without_flag LRQ_rejected (lrq_flags q))) q);;
  change_own (lrq_owner q) (fun b => set_own_pending (insert_tail r (own_pending b)) b);;
  change_pending_count (lrq_lock q) 1;;
  (if decide (lrq_state q = 0)
   then change_lbl (lrq_lock q) (fun b => set_lbl_requests (insert_tail r (remove_que r (lbl_requests b))) b)
   else ret tt);;
  (if decide (lck_wait <= 0) then flag_lrq r LRQ_wait_timeout else ret tt);;
  post_blockage r.

(** Its end *)
Definition wait_end (r : Z) : LM unit :=
  q ← lrq_at r;
  unflag_lrq r LRQ_wait_timeout;;
  change_own (lrq_owner q) (fun b => set_own_waits (wrapU 16 (own_waits b - 1)) b).

(** A request that is given up: it is rejected and waits no longer. *)
Definition reject (r : Z) : LM unit :=
  q ← lrq_at r;
  flag_lrq r LRQ_rejected;;
  remove_pending r q.

(** ** Deadlocks *)

Fixpoint for_each {A} (f : A -> LM unit) (xs : list A) : LM unit :=
  match xs with [] => ret tt | x :: xs => f x;; for_each f xs end.

Definition deadlock_clear : LM unit :=
  os ← gets lhb_owners;
  for_each (fun o =>
    b ← own_at o;
    for_each (fun r => unflag_lrq r (Z.lor LRQ_deadlock LRQ_scanned)) (own_pending b)) os.

(** The loop through the pending requests of a blocking owner, with the walk from one of them *)
Fixpoint walk_pending (walk : Z -> bool -> LM (option Z * bool)) (rs : list Z) (maybe_deadlock : bool)
    : LM (option Z * bool) :=
  match rs with
  | [] => ret (None, maybe_deadlock)
  | target :: rs =>
      q ← lrq_at target;
      if has_flag (lrq_flags q) LRQ_wait_timeout then walk_pending walk rs maybe_deadlock
      else
        '(victim, maybe_deadlock) ← walk target maybe_deadlock;
        match victim with
        | Some v => ret (Some v, maybe_deadlock)
        | None => walk_pending walk rs maybe_deadlock
        end
  end.

(** The owner of a blocking request that has an AST to run, or does not know yet of the wait *)
Definition may_release (b : own) (block : lrq) : bool :=
  has_flag (own_flags b) (Z.lor OWN_signaled OWN_wakeup) || bool_decide (own_blocks b <> [])
  || has_flag (lrq_flags block) LRQ_just_granted.

(** The loop through the requests of the lock that [r], of the state [requested], waits for *)
Fixpoint walk_blocks (walk : Z -> bool -> LM (option Z * bool)) (r requested : Z) (conversion : bool)
    (rs : list Z) (maybe_deadlock : bool) : LM (option Z * bool) :=
  match rs with
  | [] => ret (None, maybe_deadlock)
  | x :: rs =>
      block ← lrq_at x;
      if decide (x = r) then
        if conversion then walk_blocks walk r requested conversion rs maybe_deadlock
        else ret (None, maybe_deadlock)
      else
        c ← compat requested (if conversion then lrq_state block else Z.max (lrq_state block) (lrq_requested block));
        if c : bool then walk_blocks walk r requested conversion rs maybe_deadlock
        else
          b ← own_at (lrq_owner block);
          if may_release b block then walk_blocks walk r requested conversion rs true
          else
            '(victim, maybe_deadlock) ← walk_pending walk (own_pending b) maybe_deadlock;
            match victim with
            | Some v => ret (Some v, maybe_deadlock)
            | None => walk_blocks walk r requested conversion rs maybe_deadlock
            end
  end.

Fixpoint deadlock_walk (fuel : nat) (r : Z) (maybe_deadlock : bool) : LM (option Z * bool) :=
  match fuel with
  | O => lift Undefined
  | S fuel =>
      q ← lrq_at r;
      if has_flag (lrq_flags q) LRQ_scanned then ret (None, maybe_deadlock)
      else if has_flag (lrq_flags q) LRQ_deadlock then ret (Some r, maybe_deadlock)
      else
        flag_lrq r LRQ_deadlock;;
        b ← lbl_at (lrq_lock q);
        '(victim, maybe_deadlock) ←
          walk_blocks (deadlock_walk fuel) r (lrq_requested q) (bool_decide (lrq_state q > LCK_null))
            (lbl_requests b) maybe_deadlock;
        match victim with
        | Some v => ret (Some v, maybe_deadlock)
        | None =>
            unflag_lrq r LRQ_deadlock;; flag_lrq r LRQ_scanned;; ret (None, maybe_deadlock)
        end
  end.

(** Each call goes to a request that the calls around it have not seen. *)
Definition deadlock_scan (o r : Z) : LM (option Z) :=
  deadlock_clear;;
  n ← gets (fun t => size (requests t));
  '(victim, maybe_deadlock) ← deadlock_walk (S (S n)) r false;
  (match victim with None => if maybe_deadlock : bool then ret tt else flag_own o OWN_scanned | Some _ => ret tt end);;
  ret victim.

(** ** The loop of [wait_for_request]

    The owner is awake: its time is over or the wait was cancelled, another one has posted
    [OWN_wakeup], or it is time for the next scan. *)
Definition wait_loop (r : Z) (timed_out : bool) : LM unit :=
  q ← lrq_at r;
  b ← own_at (lrq_owner q);
  unflag_own (lrq_owner q) OWN_wakeup;;
  if timed_out then reject r
  else if has_flag (own_flags b) OWN_wakeup then post_blockage r
  else
    blocking_request ←
      (if has_flag (own_flags b) OWN_scanned || has_flag (lrq_flags q) LRQ_wait_timeout then ret None
       else deadlock_scan (lrq_owner q) r);
    match blocking_request with
    | Some v =>
        victim ← lrq_at v;
        reject v;;
        unflag_own (lrq_owner victim) OWN_scanned;;
        if decide (v <> r) then post_wakeup (lrq_owner victim) else ret tt
    | None => post_blockage r
    end.

(** ** Enqueueing *)

Definition grant_or_que (r l lck_wait : Z) : LM answer :=
  change_lrq r (set_lrq_lock l);;
  q ← lrq_at r;
  b ← lbl_at l;
  c ← compat (lrq_requested q) (lbl_state b);
  if c && (bool_decide (lrq_requested q = LCK_null) || bool_decide (lbl_pending_lrq_count b = 0))
  then grant r l;; post_pending l;; ret Granted
  else if decide (lck_wait <> 0) then wait_begin r lck_wait;; ret Waits
  else release_request r;; ret Denied.

(** After the wait *)
Definition enqueue_end (r : Z) : LM answer :=
  wait_end r;;
  q ← lrq_at r;
  if has_flag (lrq_flags q) LRQ_rejected then release_request r;; ret Denied else ret Granted.

(** The table is mapped again with more memory, if the system has it. *)
Definition remapFile (new_length : Z) : LM bool := limit ← gets sh_mem_limit; ret (bool_decide (new_length <= limit)).

(** The next block, [None] if there is no room and the table cannot be extended *)
Definition alloc : LM (option Z) :=
  block ← gets lhb_used;
  length ← gets lhb_length;
  room ← (if decide (block + 1 > length) then
            size ← gets m_memorySize;
            mapped ← remapFile (length + size);
            (if mapped : bool then modify (set_lhb_length (length + size)) else ret tt);; ret mapped
          else ret true);
  if room : bool then modify (set_lhb_used (block + 1));; ret (Some block) else ret None.

Section Enqueue.
(** The hash of a key, by a function that is chosen for the processor *)
Context (internal_hash : list Z -> Z).

Definition hash_slot (value : list Z) : LM Z :=
  h ← gets lhb_hash;
  if decide (h = []) then lift Undefined else ret (wrapU 16 (internal_hash value mod Z.of_nat (length h))).

(** The key in the block goes on behind [lbl_length], which is an [UCHAR]. *)
Fixpoint find_in_chain (series : Z) (value : list Z) (chain : list Z) : LM (option Z) :=
  match chain with
  | [] => ret None
  | l :: chain =>
      b ← lbl_at l;
      if decide (lbl_series b = series /\ lbl_length b = Z.of_nat (length value) /\ take (length value) (lbl_key b) = value)
      then ret (Some l)
      else find_in_chain series value chain
  end.

Definition find_lock (series : Z) (value : list Z) : LM (option Z) :=
  slot ← hash_slot value;
  h ← gets lhb_hash;
  chain ← lift (access (h @ slot));
  find_in_chain series value chain.

(** The first free lock that is large enough *)
Fixpoint find_free (size : Z) (ls : list Z) : LM (option Z) :=
  match ls with
  | [] => ret None
  | l :: ls => b ← lbl_at l; if decide (lbl_size b >= size) then ret (Some l) else find_free size ls
  end.

Definition FB_ALIGN8 (n : Z) : Z := (n + 7) / 8 * 8.

(** The lock and the size of its key; [lbl_size] is an [UCHAR]. *)
Definition alloc_lock (length : Z) : LM (option (Z * Z)) :=
  let size := FB_ALIGN8 length in
  free ← gets lhb_free_locks;
  found ← find_free size free;
  match found with
  | Some l =>
      modify (fun t => set_lhb_free_locks (remove_que l (lhb_free_locks t)) t);;
      b ← lbl_at l; ret (Some (l, lbl_size b))
  | None => a ← alloc; ret (option_map (fun l => (l, wrapU 8 size)) a)
  end.

Definition new_request : LM (option Z) :=
  free ← gets lhb_free_requests;
  match free with
  | [] => alloc
  | r :: _ => modify (fun t => set_lhb_free_requests (remove_que r (lhb_free_requests t)) t);; ret (Some r)
  end.

(** What the memory of a block holds; it is zero at the end of the table. *)
Definition blank : lrq := Lrq 0 0 0 0 0 0 0 0 0.
Definition lrq_memory (r : Z) : LM lrq := gets (fun t => default blank (requests t !! r)).

Definition put_lrq (r : Z) (q : lrq) : LM unit := modify (fun t => set_requests (<[r := q]> (requests t)) t).
Definition put_lbl (l : Z) (b : lbl) : LM unit := modify (fun t => set_locks (<[l := b]> (locks t)) t).

Definition insert_hash (slot l : Z) : LM unit :=
  h ← gets lhb_hash;
  chain ← lift (access (h @ slot));
  h ← lift (access (aset h slot (insert_tail l chain)));
  modify (set_lhb_hash h).

(** A lock that is not there yet: it is made for the request, which is granted. *)
Definition enqueue_new (r series : Z) (value : list Z) (type data : Z) : LM (answer * Z) :=
  a ← alloc_lock (Z.of_nat (length value));
  match a with
  | None =>
      q ← lrq_at r;
      change_own (lrq_owner q) (fun b => set_own_requests (remove_que r (own_requests b)) b);;
      free_request r;;
      ret (Denied, 0)
  | Some (l, size) =>
      put_lbl l {| lbl_type := type_lbl; lbl_state := type; lbl_size := size; lbl_requests := []; lbl_data := 0;
                   lbl_series := wrapU 8 series; lbl_pending_lrq_count := 0; lbl_counts := replicate LCK_max 0;
                   lbl_length := wrapU 8 (Z.of_nat (length value)); lbl_key := value |};;
      assign_data l data;;
      slot ← hash_slot value;
      insert_hash slot l;;
      change_lbl l (fun b => set_lbl_requests (insert_tail r (lbl_requests b)) b);;
      change_lrq r (set_lrq_lock l);;
      grant r l;;
      ret (Granted, r)
  end.

Definition enqueue (o prior_request series : Z) (value : list Z) (type ast_routine ast_argument data lck_wait : Z)
    : LM (answer * Z) :=
  if decide (o = 0) then ret (Denied, 0)
  else
    b ← own_at o;
    if decide (own_count b = 0) then ret (Denied, 0)
    else
      (if decide (prior_request <> 0) then internal_dequeue prior_request else ret tt);;
      a ← new_request;
      match a with
      | None => ret (Denied, 0)
      | Some r =>
          old ← lrq_memory r;
          put_lrq r {| lrq_type := type_lrq; lrq_requested := type; lrq_state := LCK_none; lrq_flags := 0;
                       lrq_owner := o; lrq_lock := lrq_lock old; lrq_data := 0; lrq_ast_routine := ast_routine;
                       lrq_ast_argument := ast_argument |};;
          change_own o (fun b => set_own_requests (insert_tail r (own_requests b)) b);;
          found ← find_lock series value;
          match found with
          | Some l =>
              change_lbl l (fun b => set_lbl_requests (insert_tail r (lbl_requests b)) b);;
              change_lrq r (set_lrq_data data);;
              a ← grant_or_que r l lck_wait;
              ret (a, match a with Denied => 0 | _ => r end)
          | None => enqueue_new r series value type data
          end
      end.

(** ** Converting *)

Definition set_ast (ast_routine ast_argument : Z) (q : lrq) : lrq :=
  set_lrq_ast_argument ast_argument (set_lrq_ast_routine ast_routine q).

Definition internal_convert (r type lck_wait ast_routine ast_argument : Z) : LM answer :=
  q ← get_request r;
  change_lrq r (fun q => set_lrq_flags (without_flag LRQ_blocking_seen (lrq_flags q)) (set_lrq_requested type q));;
  change_counts (lrq_lock q) (fun counts => count_down counts (lrq_state q));;
  b ← lbl_at (lrq_lock q);
  c ← compat type (lock_state (lbl_counts b));
  if c : bool then
    change_lrq r (set_ast ast_routine ast_argument);;
    grant r (lrq_lock q);;
    post_pending (lrq_lock q);;
    ret Granted
  else
    change_counts (lrq_lock q) (fun counts => count_up counts (lrq_state q));;
    if decide (lck_wait <> 0) then wait_begin r lck_wait;; ret Waits
    else change_lrq r (fun q => set_lrq_requested (lrq_state q) q);; ret Denied.

(** After the wait. A new routine is stored; storing the old one again changes nothing. *)
Definition convert_end (r ast_routine ast_argument : Z) : LM answer :=
  wait_end r;;
  q ← lrq_at r;
  if has_flag (lrq_flags q) LRQ_rejected then
    post_pending (lrq_lock q);;
    change_lrq r (fun q => set_lrq_requested (lrq_state q) q);;
    ret Denied
  else change_lrq r (set_ast ast_routine ast_argument);; ret Granted.

Definition convert (r type lck_wait ast_routine ast_argument : Z) : LM answer :=
  q ← get_request r;
  b ← own_at (lrq_owner q);
  if decide (own_count b = 0) then ret Denied
  else internal_convert r type lck_wait ast_routine ast_argument.

(** The highest state that a request waits for, other than [r] *)
Fixpoint pending_state (r : Z) (rs : list Z) (highest : Z) : LM Z :=
  match rs with
  | [] => ret highest
  | x :: rs =>
      q ← lrq_at x;
      if has_flag (lrq_flags q) LRQ_pending && bool_decide (x <> r) then
        let highest := Z.max (lrq_requested q) highest in
        if decide (highest = LCK_EX) then ret highest else pending_state r rs highest
      else pending_state r rs highest
  end.

(** [while (state > LCK_none && !compatibility[pending_state][state]) --state;] *)
Fixpoint lower_state (fuel : nat) (pending state : Z) : LM Z :=
  if decide (state > LCK_none) then
    c ← compat pending state;
    if c : bool then ret state
    else match fuel with O => lift Undefined | S fuel => lower_state fuel pending (state - 1) end
  else ret state.

Definition downgrade (r : Z) : LM Z :=
  q ← get_request r;
  o ← own_at (lrq_owner q);
  if decide (own_count o = 0) then ret LCK_none
  else
    b ← lbl_at (lrq_lock q);
    pending ← pending_state r (lbl_requests b) LCK_none;
    state ← lower_state (Z.to_nat (lrq_state q)) pending (lrq_state q);
    if decide (state = LCK_none \/ state = LCK_null) then internal_dequeue r;; ret LCK_none
    else internal_convert r state LCK_NO_WAIT (lrq_ast_routine q) (lrq_ast_argument q);; ret state.

Definition dequeue (r : Z) : LM bool :=
  q ← get_request r;
  o ← own_at (lrq_owner q);
  if decide (own_count o = 0) then ret false else internal_dequeue r;; ret true.

(** ** Data *)

Definition readData (r : Z) : LM Z := q ← get_request r; b ← lbl_at (lrq_lock q); ret (lbl_data b).

Definition readData2 (series : Z) (value : list Z) (o : Z) : LM Z :=
  if decide (o = 0) then ret 0
  else
    found ← find_lock series value;
    match found with Some l => b ← lbl_at l; ret (lbl_data b) | None => ret 0 end.

Definition writeData (r data : Z) : LM Z :=
  q ← get_request r; remove_data (lrq_lock q);; assign_data (lrq_lock q) data;; ret data.

(** The sum of the data, an [SINT64], and the number of the locks *)
Fixpoint sum_data (ls : list Z) (data count : Z) : LM (Z * Z) :=
  match ls with
  | [] => ret (data, count)
  | l :: ls =>
      b ← lbl_at l;
      if decide (inS 64 (data + lbl_data b)) then sum_data ls (data + lbl_data b) (count + 1) else lift Undefined
  end.

Definition queryData (series aggregate : Z) : LM Z :=
  if decide (series >= LCK_MAX_SERIES) then ret 0
  else
    d ← gets lhb_data;
    q ← lift (access (d @ series));
    if decide (aggregate = LCK_CNT) then ret (Z.of_nat (length q))
    else if decide (aggregate = LCK_SUM) then '(data, _) ← sum_data q 0 0; ret data
    else if decide (aggregate = LCK_AVG) then
      '(data, count) ← sum_data q 0 0; ret (if decide (count <> 0) then Z.quot data count else 0)
    else if decide (aggregate = LCK_ANY) then ret (if decide (q = []) then 0 else 1)
    else if decide (aggregate = LCK_MIN) then
      match q with [] => ret 0 | l :: _ => b ← lbl_at l; ret (lbl_data b) end
    else if decide (aggregate = LCK_MAX) then
      match last q with None => ret 0 | Some l => b ← lbl_at l; ret (lbl_data b) end
    else ret 0.

(** ** Owners *)

(** One round of [blocking_action]: the routine and its argument that are called next, 0 if
    the request has none; [None] at the end *)
Definition blocking_action (o : Z) : LM (option (Z * Z)) :=
  b ← own_at o;
  match own_blocks b with
  | r :: _ =>
      if decide (own_count b = 0) then unflag_own o OWN_signaled;; ret None
      else
        q ← lrq_at r;
        change_own o (fun b => set_own_blocks (remove_que r (own_blocks b)) b);;
        (if has_flag (lrq_flags q) LRQ_blocking then unflag_lrq r LRQ_blocking;; flag_lrq r LRQ_blocking_seen
         else if has_flag (lrq_flags q) LRQ_repost then free_request r
         else ret tt);;
        ret (Some (lrq_ast_routine q, lrq_ast_argument q))
  | [] => unflag_own o OWN_signaled;; ret None
  end.

Definition repost (ast arg o : Z) : LM unit :=
  if decide (o = 0) then ret tt
  else
    a ← new_request;
    match a with
    | None => ret tt
    | Some r =>
        old ← lrq_memory r;
        put_lrq r {| lrq_type := type_lrq; lrq_requested := LCK_none; lrq_state := LCK_none; lrq_flags := LRQ_repost;
                     lrq_owner := o; lrq_lock := 0; lrq_data := lrq_data old; lrq_ast_routine := ast; lrq_ast_argument := arg |};;
        change_own o (fun b => set_own_blocks (insert_tail r (own_blocks b)) b);;
        b ← own_at o;
        if has_flag (own_flags b) OWN_signaled then ret tt else signal_owner o
    end.

Definition cancelWait (o : Z) : LM bool :=
  if decide (o = 0) then ret false
  else b ← own_at o; if decide (own_count b = 0) then ret false else post_wakeup o;; ret true.

(** Each round releases a request. *)
Fixpoint purge_requests (fuel : nat) (o : Z) : LM unit :=
  b ← own_at o;
  match own_requests b with
  | [] => ret tt
  | r :: _ => match fuel with O => lift Undefined | S fuel => release_request r;; purge_requests fuel o end
  end.

Fixpoint purge_blocks (fuel : nat) (o : Z) : LM unit :=
  b ← own_at o;
  match own_blocks b with
  | [] => ret tt
  | r :: _ =>
      match fuel with
      | O => lift Undefined
      | S fuel =>
          change_own o (fun b => set_own_blocks (remove_que r (own_blocks b)) b);; free_request r;; purge_blocks fuel o
      end
  end.

Definition purge_owner (o : Z) : LM unit :=
  b ← own_at o;
  purge_requests (length (own_requests b)) o;;
  b ← own_at o;
  purge_blocks (length (own_blocks b)) o;;
  modify (fun t => set_lhb_owners (remove_que o (lhb_owners t)) t);;
  change_own o (set_own_flags 0).

End Enqueue.
