(* ===== verification/LockInv.v ===== *)
(** * The invariant of the lock table

    Weakest preconditions of the primitives on the table. The invariant is what
    [validate_lock], [validate_request] and [validate_owner] of [lock.cpp] check, and what
    makes it so: the granted states of a lock are compatible, its counters are those of its
    requests, the queues of owners and locks hold the requests that name them, and free
    blocks are in no queue. *)

From S2P Require Import Prelude Outcome StateMonad LockTable LockOps.
From stdpp Require Import gmap.
#[local] Open Scope Z_scope.

(** Tables with a block changed *)
Definition upd_lrq (r : Z) (q : lrq) (t : table) : table := set_requests (<[r := q]> (requests t)) t.
Definition upd_lbl (l : Z) (b : lbl) (t : table) : table := set_locks (<[l := b]> (locks t)) t.
Definition upd_own (o : Z) (b : own) (t : table) : table := set_owners (<[o := b]> (owners t)) t.

Lemma wp_lrq_at r q (Q : lrq -> table -> Prop) t : requests t !! r = Some q -> Q q t -> wp (lrq_at r) Q t.
Proof. intros H. unfold wp, lrq_at. by rewrite H. Qed.
Lemma wp_lbl_at l b (Q : lbl -> table -> Prop) t : locks t !! l = Some b -> Q b t -> wp (lbl_at l) Q t.
Proof. intros H. unfold wp, lbl_at. by rewrite H. Qed.
Lemma wp_own_at o b (Q : own -> table -> Prop) t : owners t !! o = Some b -> Q b t -> wp (own_at o) Q t.
Proof. intros H. unfold wp, own_at. by rewrite H. Qed.

Lemma wp_change_lrq r q f (Q : unit -> table -> Prop) t :
  requests t !! r = Some q -> Q tt (upd_lrq r (f q) t) -> wp (change_lrq r f) Q t.
Proof. intros H HQ. apply wp_bind. eapply wp_lrq_at; [done|]. exact HQ. Qed.
Lemma wp_change_lbl l b f (Q : unit -> table -> Prop) t :
  locks t !! l = Some b -> Q tt (upd_lbl l (f b) t) -> wp (change_lbl l f) Q t.
Proof. intros H HQ. apply wp_bind. eapply wp_lbl_at; [done|]. exact HQ. Qed.
Lemma wp_change_own o b f (Q : unit -> table -> Prop) t :
  owners t !! o = Some b -> Q tt (upd_own o (f b) t) -> wp (change_own o f) Q t.
Proof. intros H HQ. apply wp_bind. eapply wp_own_at; [done|]. exact HQ. Qed.

(** ** Flags *)

Lemma has_with flags a b : has_flag (with_flag a flags) b = has_flag flags b || has_flag a b.
Proof.
  unfold has_flag, with_flag. rewrite Z.land_lor_distr_l.
  apply eq_true_iff_eq. rewrite orb_true_iff, !bool_decide_eq_true, Z.lor_eq_0_iff.
  destruct (decide (Z.land flags b = 0)), (decide (Z.land a b = 0)); tauto.
Qed.

Lemma has_without flags a b : Z.land a b = 0 -> has_flag (without_flag a flags) b = has_flag flags b.
Proof.
  intros Hab. unfold has_flag, without_flag. rewrite <- Z.land_assoc.
  assert (H : Z.land (Z.lnot a) b = b); [|by rewrite H].
  apply Z.bits_inj'. intros n Hn. rewrite Z.land_spec, Z.lnot_spec by done.
  apply (f_equal (fun z => Z.testbit z n)) in Hab. rewrite Z.land_spec, Z.bits_0 in Hab.
  by destruct (Z.testbit a n), (Z.testbit b n).
Qed.

Lemma has_without_self flags a b : Z.land a b = b -> has_flag (without_flag a flags) b = false.
Proof.
  intros Hab. unfold has_flag, without_flag. rewrite <- Z.land_assoc.
  assert (H : Z.land (Z.lnot a) b = 0); [|by rewrite H, Z.land_0_r].
  apply Z.bits_inj'. intros n Hn. rewrite Z.land_spec, Z.lnot_spec, Z.bits_0 by done.
  apply (f_equal (fun z => Z.testbit z n)) in Hab. rewrite Z.land_spec in Hab.
  by destruct (Z.testbit a n), (Z.testbit b n).
Qed.

(** [flags] decides the flags of a word that was changed. *)
Ltac flags :=
  rewrite ?has_with, ?orb_false_r, ?orb_true_r;
  repeat first [rewrite has_without by reflexivity | rewrite has_without_self by reflexivity];
  rewrite ?has_with, ?orb_false_r, ?orb_true_r.

(** ** Levels and their compatibility *)

Definition level (k : Z) : Prop := 0 <= k <= 6.

Definition compatible (a b : Z) : bool :=
  match compatibility @ a with Some row => default false (row @ b) | None => false end.

Lemma level_cases k : level k -> k = 0 \/ k = 1 \/ k = 2 \/ k = 3 \/ k = 4 \/ k = 5 \/ k = 6.
Proof. unfold level. lia. Qed.

Ltac levels H := apply level_cases in H; destruct H as [->|[->|[->|[->|[->|[->| ->]]]]]].

Lemma wp_compat a b (Q : bool -> table -> Prop) t : level a -> level b -> Q (compatible a b) t -> wp (compat a b) Q t.
Proof. intros Ha Hb HQ. levels Ha; levels Hb; exact HQ. Qed.

Lemma compatible_sym a b : level a -> level b -> compatible a b = compatible b a.
Proof. intros Ha Hb. levels Ha; levels Hb; reflexivity. Qed.

(** What is compatible with a state is compatible with the lower states that are. *)
Lemma compatible_below x s k : level x -> level s -> level k ->
  compatible x s = true -> compatible k s = true -> 1 <= k ->
  k <= s \/ (s = 3 /\ k = 4) \/ (s = 4 /\ k = 3) -> compatible x k = true.
Proof.
  intros Hx Hs Hk. levels Hx; levels Hs; levels Hk; try reflexivity; try (intros H; discriminate H);
    try (intros _ H; discriminate H); intros; lia.
Qed.

(** ** Queues and counts *)

Lemma elem_of_remove_que x y q : x ∈ remove_que y q <-> x <> y /\ x ∈ q.
Proof. unfold remove_que. by rewrite list_elem_of_filter. Qed.

Lemma remove_que_NoDup y q : NoDup q -> NoDup (remove_que y q).
Proof. apply NoDup_filter. Qed.

Lemma remove_que_absent y q : y ∉ q -> remove_que y q = q.
Proof.
  intros H. induction q as [|x q IH]; [done|]. unfold remove_que. apply not_elem_of_cons in H as [Hx Hq].
  rewrite filter_cons_True by congruence. f_equal. by apply IH.
Qed.

Lemma elem_of_insert_tail x y q : x ∈ insert_tail y q <-> x ∈ q \/ x = y.
Proof. unfold insert_tail. by rewrite elem_of_app, list_elem_of_singleton. Qed.

Lemma remove_que_perm y q : NoDup q -> y ∈ q -> insert_tail y (remove_que y q) ≡ₚ q.
Proof.
  intros Hnd Hy. apply NoDup_Permutation; [|done|].
  - unfold insert_tail. apply NoDup_app. split_and!; [by apply remove_que_NoDup| |apply NoDup_singleton].
    intros x [Hx _]%elem_of_remove_que ->%list_elem_of_singleton. done.
  - intros x. rewrite elem_of_insert_tail, elem_of_remove_que. destruct (decide (x = y)); naive_solver.
Qed.

Definition count (P : Z -> bool) (rs : list Z) : Z := Z.of_nat (length (filter (fun r => P r = true) rs)).

Lemma count_cons P r rs : count P (r :: rs) = Z.b2z (P r) + count P rs.
Proof. unfold count. rewrite filter_cons. destruct (P r); case_decide; simpl; try done; lia. Qed.

Lemma count_app P rs rs' : count P (rs ++ rs') = count P rs + count P rs'.
Proof. unfold count. rewrite filter_app, length_app. lia. Qed.

Lemma count_perm P rs rs' : rs ≡ₚ rs' -> count P rs = count P rs'.
Proof. unfold count. intros ->. done. Qed.

Lemma count_ext P Q rs : (forall r, r ∈ rs -> P r = Q r) -> count P rs = count Q rs.
Proof.
  intros H. induction rs as [|r rs IH]; [done|]. rewrite !count_cons, H, IH by set_solver. done.
Qed.

Lemma count_range P rs : 0 <= count P rs <= Z.of_nat (length rs).
Proof. unfold count. pose proof (length_filter (fun r => P r = true) rs). lia. Qed.

Lemma count_remove P r rs : NoDup rs -> r ∈ rs -> count P rs = count P (remove_que r rs) + Z.b2z (P r).
Proof.
  intros Hnd Hr. rewrite <- (count_perm P _ _ (remove_que_perm r rs Hnd Hr)). unfold insert_tail.
  rewrite count_app, count_cons. unfold count. simpl. lia.
Qed.

Lemma count_pos P rs : count P rs <> 0 <-> exists r, r ∈ rs /\ P r = true.
Proof.
  induction rs as [|r rs IH]; [split; [done|intros (r & H%elem_of_nil & _); done]|]. rewrite count_cons. pose proof (count_range P rs).
  destruct (P r) eqn:E; simpl.
  - split; [intros _; exists r; split; [apply list_elem_of_here|done]|lia].
  - rewrite Z.add_0_l, IH. setoid_rewrite elem_of_cons. split; [naive_solver|].
    intros (r' & [->|Hr'] & HP); [congruence|eauto].
Qed.

(** Distinct offsets below a bound are few. *)
Lemma NoDup_bounded rs n : NoDup rs -> 0 <= n -> (forall r, r ∈ rs -> 0 <= r < n) -> Z.of_nat (length rs) <= n.
Proof.
  intros Hnd Hn Hr. assert (rs ⊆+ seqZ 0 n) as Hs%submseteq_length.
  { apply NoDup_submseteq; [done|]. intros r H%Hr. apply elem_of_seqZ. lia. }
  rewrite length_seqZ in Hs. lia.
Qed.

(** ** The requests of a lock *)

Definition state_of (m : gmap Z lrq) (r : Z) : Z := from_option lrq_state 0 (m !! r).
Definition requested_of (m : gmap Z lrq) (r : Z) : Z := from_option lrq_requested 0 (m !! r).
Definition flag_of (flag : Z) (m : gmap Z lrq) (r : Z) : bool :=
  from_option (fun q => has_flag (lrq_flags q) flag) false (m !! r).

Definition holds (m : gmap Z lrq) (k r : Z) : bool := bool_decide (state_of m r = k).

Definition in_use (m : gmap Z lrq) (r : Z) (q : lrq) : Prop := m !! r = Some q /\ lrq_type q = type_lrq.
Definition queued (q : lrq) : Prop := has_flag (lrq_flags q) LRQ_repost = false.

(** The requests that the counters count: while a request is converted, the others *)
Definition counted (x : option Z) (rs : list Z) : list Z := match x with Some r => remove_que r rs | None => rs end.

(** [x]: a request that the counters leave out *)
Record lock_ok (m : gmap Z lrq) (x : option Z) (l : Z) (b : lbl) : Prop := {
  ok_length : length (lbl_counts b) = 7%nat;
  ok_nodup : NoDup (lbl_requests b);
  ok_series : 0 <= lbl_series b;
  ok_small : Z.of_nat (length (lbl_requests b)) < 65536;
  ok_request : forall r, r ∈ lbl_requests b ->
    exists q, in_use m r q /\ lrq_lock q = l /\ queued q /\ level (lrq_state q) /\ level (lrq_requested q);
  ok_counts : forall k, 1 <= k <= 6 ->
    lbl_counts b !!! Z.to_nat k = count (holds m k) (counted x (lbl_requests b));
  ok_pending : lbl_pending_lrq_count b = count (flag_of LRQ_pending m) (lbl_requests b);
  ok_compatible : forall r r', r ∈ lbl_requests b -> r' ∈ lbl_requests b -> r <> r' ->
    compatible (state_of m r) (state_of m r') = true;
  ok_state : (forall r, x = Some r -> r ∉ lbl_requests b) -> lbl_state b = lock_state (lbl_counts b)
}.

Definition lock_live (b : lbl) : Prop := lbl_type b = type_lbl.

(** What the owner's queues hold, from the side of the request and from that of the owner *)
Record request_ok (t : table) (r : Z) (q : lrq) : Prop := {
  ro_owner : exists o, owners t !! lrq_owner q = Some o /\
    (queued q -> r ∈ own_requests o) /\
    (has_flag (lrq_flags q) LRQ_pending = true -> r ∈ own_pending o) /\
    (has_flag (lrq_flags q) LRQ_blocking = true \/ ~ queued q -> r ∈ own_blocks o);
  ro_lock : queued q -> exists b, locks t !! lrq_lock q = Some b /\ lock_live b /\ r ∈ lbl_requests b;
  ro_repost : ~ queued q -> has_flag (lrq_flags q) LRQ_pending = false /\ has_flag (lrq_flags q) LRQ_blocking = false
}.

Record own_ok (t : table) (o : Z) (b : own) : Prop := {
  oo_requests : forall r, r ∈ own_requests b -> exists q, in_use (requests t) r q /\ lrq_owner q = o /\ queued q;
  oo_pending : forall r, r ∈ own_pending b ->
    exists q, in_use (requests t) r q /\ lrq_owner q = o /\ has_flag (lrq_flags q) LRQ_pending = true;
  oo_blocks : forall r, r ∈ own_blocks b ->
    exists q, in_use (requests t) r q /\ lrq_owner q = o /\ (has_flag (lrq_flags q) LRQ_blocking = true \/ ~ queued q)
}.

(** The queues of locks with data *)
Definition data_ok (t : table) : Prop :=
  length (lhb_data t) = 7%nat /\
  forall q l, q ∈ lhb_data t -> l ∈ q -> exists b, locks t !! l = Some b /\ lock_live b.

(** There is room for the blocks that are used, and never for 65536 blocks. *)
Definition room_ok (t : table) : Prop :=
  0 < lhb_used t <= lhb_length t /\ lhb_length t <= sh_mem_limit t < 65536 /\ 0 < m_memorySize t.
Definition room (t : table) : Z * Z * Z * Z := (lhb_used t, lhb_length t, m_memorySize t, sh_mem_limit t).

Lemma room_ok_same t t' : room t' = room t -> room_ok t -> room_ok t' /\ lhb_used t' = lhb_used t.
Proof. unfold room, room_ok. intros [= -> -> -> ->]. done. Qed.

Record wf (x : option Z) (t : table) : Prop := {
  wf_lock : forall l b, locks t !! l = Some b -> lock_live b -> lbl_requests b <> [] /\ lock_ok (requests t) x l b;
  wf_request : forall r q, in_use (requests t) r q -> request_ok t r q;
  wf_own : forall o b, owners t !! o = Some b -> own_ok t o b;
  wf_free : NoDup (lhb_free_requests t) /\
    forall r, r ∈ lhb_free_requests t -> exists q, requests t !! r = Some q /\ lrq_type q = type_null;
  wf_free_locks : forall l, l ∈ lhb_free_locks t -> exists b, locks t !! l = Some b /\ lbl_type b = type_null;
  wf_used : room_ok t /\
    (forall r q, requests t !! r = Some q -> 0 < r < lhb_used t) /\
    (forall l b, locks t !! l = Some b -> 0 < l < lhb_used t);
  wf_hash : lhb_hash t <> [] /\ Z.of_nat (length (lhb_hash t)) < 65536 /\
    forall chain l, chain ∈ lhb_hash t -> l ∈ chain -> exists b, locks t !! l = Some b /\ lock_live b;
  wf_data : data_ok t;
  wf_listed : forall r q, in_use (requests t) r q -> lrq_owner q ∈ lhb_owners t;
  wf_owners : forall o, o ∈ lhb_owners t -> is_Some (owners t !! o)
}.

(** ** The state of a lock stands for the states that are granted. *)

Lemma lock_state_level counts : level (lock_state counts).
Proof. unfold lock_state, level. repeat case_decide; unfold LCK_EX, LCK_PW, LCK_SW, LCK_PR, LCK_SR, LCK_null, LCK_none; lia. Qed.

Lemma compatible_none x : level x -> compatible x 0 = true.
Proof. intros H. levels H; reflexivity. Qed.

Lemma lock_state_spec counts x : level x ->
  (forall j k, 1 <= j <= 6 -> 1 <= k <= 6 -> j <> k -> counts !!! Z.to_nat j <> 0 -> counts !!! Z.to_nat k <> 0 ->
     compatible j k = true) ->
  compatible x (lock_state counts) = true <->
  (forall k, 1 <= k <= 6 -> counts !!! Z.to_nat k <> 0 -> compatible x k = true).
Proof.
  intros Hx Hpair.
  assert (Hone : forall s, 1 <= s <= 6 -> counts !!! Z.to_nat s <> 0 ->
    (forall k, 1 <= k <= 6 -> counts !!! Z.to_nat k <> 0 -> k <= s \/ (s = 4 /\ k = 3) \/ (s = 3 /\ k = 4)) ->
    compatible x s = true <-> (forall k, 1 <= k <= 6 -> counts !!! Z.to_nat k <> 0 -> compatible x k = true)).
  { intros s Hs Hcs Hmax. split; [|auto]. intros Hxs k Hk Hck.
    destruct (decide (k = s)) as [->|Hne]; [done|].
    apply (compatible_below x s k); try done; try (unfold level; lia); [by apply Hpair|].
    destruct (Hmax k Hk Hck) as [?|[?|?]]; auto. }
  unfold lock_state.
  assert (Hk : forall k, 1 <= k <= 6 -> k = 1 \/ k = 2 \/ k = 3 \/ k = 4 \/ k = 5 \/ k = 6) by lia.
  repeat case_decide.
  - apply (Hone 6); [lia|done|]. intros k Hr _. lia.
  - apply (Hone 5); [lia|done|]. intros k Hr Hc. destruct (Hk k Hr) as [->|[->|[->|[->|[->| ->]]]]]; first [lia|exfalso; auto].
  - apply (Hone 4); [lia|done|]. intros k Hr Hc. destruct (Hk k Hr) as [->|[->|[->|[->|[->| ->]]]]]; first [lia|exfalso; auto].
  - apply (Hone 3); [lia|done|]. intros k Hr Hc. destruct (Hk k Hr) as [->|[->|[->|[->|[->| ->]]]]]; first [lia|exfalso; auto].
  - apply (Hone 2); [lia|done|]. intros k Hr Hc. destruct (Hk k Hr) as [->|[->|[->|[->|[->| ->]]]]]; first [lia|exfalso; auto].
  - apply (Hone 1); [lia|done|]. intros k Hr Hc. destruct (Hk k Hr) as [->|[->|[->|[->|[->| ->]]]]]; first [lia|exfalso; auto].
  - split; [|intros _; by apply compatible_none]. intros _ k Hr Hc.
    destruct (Hk k Hr) as [->|[->|[->|[->|[->| ->]]]]]; exfalso; auto.
Qed.
