(* ===== verification/LockFrame.v ===== *)
(** * Changes that keep the invariant of the lock table

    Tables that differ only in what the invariant does not mention are similar. A change
    of one request, its lock and its owner keeps the rest of the invariant. *)

From S2P Require Import Prelude Outcome StateMonad LockTable LockOps LockInv.
From stdpp Require Import gmap.
#[local] Open Scope Z_scope.

(** ** Similar tables *)

Definition same_flag (flag : Z) (q q' : lrq) : Prop := has_flag (lrq_flags q') flag = has_flag (lrq_flags q) flag.

Record same_lrq (q q' : lrq) : Prop := {
  sr_type : lrq_type q' = lrq_type q;
  sr_requested : lrq_requested q' = lrq_requested q;
  sr_state : lrq_state q' = lrq_state q;
  sr_owner : lrq_owner q' = lrq_owner q;
  sr_lock : lrq_lock q' = lrq_lock q;
  sr_pending : same_flag LRQ_pending q q';
  sr_blocking : same_flag LRQ_blocking q q';
  sr_repost : same_flag LRQ_repost q q';
  sr_rejected : same_flag LRQ_rejected q q'
}.

Record same_lbl (b b' : lbl) : Prop := {
  sl_type : lbl_type b' = lbl_type b;
  sl_state : lbl_state b' = lbl_state b;
  sl_requests : lbl_requests b' = lbl_requests b;
  sl_pending : lbl_pending_lrq_count b' = lbl_pending_lrq_count b;
  sl_counts : lbl_counts b' = lbl_counts b;
  sl_series : lbl_series b' = lbl_series b
}.

Record same_own (b b' : own) : Prop := {
  so_requests : own_requests b' = own_requests b;
  so_blocks : own_blocks b' = own_blocks b;
  so_pending : own_pending b' = own_pending b;
  so_count : own_count b' = own_count b
}.

Definition on_option {A} (R : A -> A -> Prop) (o o' : option A) : Prop :=
  match o, o' with Some a, Some a' => R a a' | None, None => True | _, _ => False end.

Record similar (t t' : table) : Prop := {
  si_lrq : forall r, on_option same_lrq (requests t !! r) (requests t' !! r);
  si_lbl : forall l, on_option same_lbl (locks t !! l) (locks t' !! l);
  si_own : forall o, on_option same_own (owners t !! o) (owners t' !! o);
  si_owners : lhb_owners t' = lhb_owners t;
  si_hash : lhb_hash t' = lhb_hash t;
  si_free : lhb_free_requests t' = lhb_free_requests t;
  si_free_locks : lhb_free_locks t' = lhb_free_locks t;
  si_room : room t' = room t
}.

#[export] Instance same_lrq_refl : Reflexive same_lrq.
Proof. by intros q. Qed.
#[export] Instance same_lbl_refl : Reflexive same_lbl.
Proof. by intros q. Qed.
#[export] Instance same_own_refl : Reflexive same_own.
Proof. by intros q. Qed.

#[export] Instance same_lrq_equiv : Equivalence same_lrq.
Proof.
  split; [apply _|..].
  - intros q q' []. by split.
  - intros q q' q'' [] []. split; unfold same_flag in *; congruence.
Qed.
#[export] Instance same_lbl_equiv : Equivalence same_lbl.
Proof.
  split; [apply _|..].
  - intros q q' []. by split.
  - intros q q' q'' [] []. split; congruence.
Qed.
#[export] Instance same_own_equiv : Equivalence same_own.
Proof.
  split; [apply _|..].
  - intros q q' []. by split.
  - intros q q' q'' [] []. split; congruence.
Qed.
#[export] Instance on_option_equiv {A} (R : A -> A -> Prop) `{Equivalence A R} : Equivalence (on_option R).
Proof.
  split.
  - intros [a|]; cbn; [reflexivity|done].
  - intros [a|] [a'|]; cbn; try done; by symmetry.
  - intros [a|] [a'|] [a''|]; cbn; try done; by etransitivity.
Qed.

#[export] Instance similar_equiv : Equivalence similar.
Proof.
  split.
  - intros t. by split.
  - intros t t' []. split; try done; intros; symmetry; auto.
  - intros t t' t'' [] []. split; try congruence; intros; etransitivity; eauto.
Qed.

Lemma similar_lrq t t' r q : similar t t' -> requests t !! r = Some q ->
  exists q', requests t' !! r = Some q' /\ same_lrq q q'.
Proof. intros [H _ _ _ _ _ _ _] Hq. specialize (H r). rewrite Hq in H. destruct (requests t' !! r); [eauto|done]. Qed.
Lemma similar_lbl t t' l b : similar t t' -> locks t !! l = Some b -> exists b', locks t' !! l = Some b' /\ same_lbl b b'.
Proof. intros [_ H _ _ _ _ _ _] Hq. specialize (H l). rewrite Hq in H. destruct (locks t' !! l); [eauto|done]. Qed.
Lemma similar_own t t' o b : similar t t' -> owners t !! o = Some b -> exists b', owners t' !! o = Some b' /\ same_own b b'.
Proof. intros [_ _ H _ _ _ _ _] Hq. specialize (H o). rewrite Hq in H. destruct (owners t' !! o); [eauto|done]. Qed.

(** Changes of one block *)
Lemma similar_upd_lrq t r q q' : requests t !! r = Some q -> same_lrq q q' -> similar t (upd_lrq r q' t).
Proof.
  intros Hq Hs. split; cbn; try reflexivity. intros r'. destruct (decide (r = r')) as [<-|Hne].
  - by rewrite lookup_insert_eq, Hq.
  - by rewrite lookup_insert_ne.
Qed.
Lemma similar_upd_lbl t l b b' : locks t !! l = Some b -> same_lbl b b' -> similar t (upd_lbl l b' t).
Proof.
  intros Hq Hs. split; cbn; try reflexivity. intros r'. destruct (decide (l = r')) as [<-|Hne].
  - by rewrite lookup_insert_eq, Hq.
  - by rewrite lookup_insert_ne.
Qed.
Lemma similar_upd_own t o b b' : owners t !! o = Some b -> same_own b b' -> similar t (upd_own o b' t).
Proof.
  intros Hq Hs. split; cbn; try reflexivity. intros r'. destruct (decide (o = r')) as [<-|Hne].
  - by rewrite lookup_insert_eq, Hq.
  - by rewrite lookup_insert_ne.
Qed.

(** ** The invariant of a lock depends on its requests only. *)

(** The fields that granting keeps, and that telling an owner about a request keeps *)
Record kept (q q' : lrq) : Prop := {
  ke_type : lrq_type q' = lrq_type q;
  ke_requested : lrq_requested q' = lrq_requested q;
  ke_owner : lrq_owner q' = lrq_owner q;
  ke_lock : lrq_lock q' = lrq_lock q;
  ke_repost : same_flag LRQ_repost q q';
  ke_rejected : same_flag LRQ_rejected q q'
}.

(** A request as the others see it: which lock it is for, what it has and what it waits for *)
Record core_lrq (q q' : lrq) : Prop := {
  co_kept : kept q q';
  co_state : lrq_state q' = lrq_state q;
  co_pending : same_flag LRQ_pending q q'
}.

Lemma kept_refl q : kept q q.
Proof. by split. Qed.
Lemma kept_trans q q' q'' : kept q q' -> kept q' q'' -> kept q q''.
Proof. intros [] []. split; unfold same_flag in *; congruence. Qed.
Lemma core_refl q : core_lrq q q.
Proof. split; [apply kept_refl|done..]. Qed.
Lemma core_trans q q' q'' : core_lrq q q' -> core_lrq q' q'' -> core_lrq q q''.
Proof. intros [? ? ?] [? ? ?]. split; [by eapply kept_trans|..]; unfold same_flag in *; congruence. Qed.
Lemma same_core q q' : same_lrq q q' -> core_lrq q q'.
Proof. intros []. by split; [split|..]. Qed.

Lemma lock_ok_frame m m' x x' l b :
  (forall r q, r ∈ lbl_requests b -> m !! r = Some q -> exists q', m' !! r = Some q' /\ core_lrq q q') ->
  (forall r, x = Some r \/ x' = Some r -> r ∉ lbl_requests b) \/ x = x' ->
  lock_ok m x l b -> lock_ok m' x' l b.
Proof.
  intros Hm Hx [H1 H2 H0 H3 H4 H5 H6 H7 H8].
  assert (Hsame : forall r, r ∈ lbl_requests b ->
    state_of m' r = state_of m r /\ flag_of LRQ_pending m' r = flag_of LRQ_pending m r).
  { intros r Hr. destruct (H4 r Hr) as (q & [Hq _] & _). destruct (Hm r q Hr Hq) as (q' & Hq' & [_ Hs Hp]).
    unfold state_of, flag_of. rewrite Hq, Hq'. cbn. auto. }
  assert (Hcounted : counted x' (lbl_requests b) = counted x (lbl_requests b)).
  { destruct Hx as [Hx| ->]; [|done]. destruct x as [r|], x' as [r'|]; cbn; rewrite ?remove_que_absent; auto. }
  assert (Hsub : forall r, r ∈ counted x (lbl_requests b) -> r ∈ lbl_requests b).
  { intros r. destruct x; cbn; [by intros [_ ?]%elem_of_remove_que|done]. }
  split; try done.
  - intros r Hr. destruct (H4 r Hr) as (q & [Hq Ht] & Hl & Hqd & Hs & Hrq). destruct (Hm r q Hr Hq) as (q' & Hq' & [[K1 K2 K3 K4 K5 K6] Ks Kp]).
    exists q'. unfold in_use, queued, same_flag in *. rewrite Ks, K2. split_and!; congruence || done.
  - intros k Hk. rewrite H5, Hcounted by done. apply count_ext. intros r Hr. unfold holds.
    by rewrite (proj1 (Hsame r (Hsub r Hr))).
  - rewrite H6. apply count_ext. intros r Hr. symmetry. by apply Hsame.
  - intros r r' Hr Hr' Hne. rewrite (proj1 (Hsame r Hr)), (proj1 (Hsame r' Hr')). auto.
  - intros Hnx. apply H8. destruct Hx as [Hx| ->]; [auto|done].
Qed.

Lemma lock_ok_same m x l b b' : same_lbl b b' -> lock_ok m x l b -> lock_ok m x l b'.
Proof. intros [Ht Hs Hr Hp Hc Hse] []. split; rewrite ?Ht, ?Hs, ?Hr, ?Hp, ?Hc, ?Hse; done. Qed.

Lemma data_ok_similar t t' : similar t t' -> lhb_data t' = lhb_data t -> data_ok t -> data_ok t'.
Proof.
  intros Hs Hd [Hl Hq]. split; [by rewrite Hd|]. rewrite Hd. intros q l Hqin Hlin.
  destruct (Hq q l Hqin Hlin) as (b & Hb & Hlive). destruct (similar_lbl t t' l b Hs Hb) as (b' & Hb' & []).
  exists b'. unfold lock_live in *. split; congruence.
Qed.

Lemma in_use_similar t t' r q' : similar t t' -> in_use (requests t') r q' ->
  exists q, in_use (requests t) r q /\ same_lrq q q'.
Proof.
  intros Hs [Hq' Ht]. symmetry in Hs. destruct (similar_lrq t' t r q' Hs Hq') as (q & Hq & Hsame).
  exists q. split; [|by symmetry]. destruct Hsame. split; [done|congruence].
Qed.

(** [same q] reads the fields of a block in the ones of a similar block. *)
Ltac same_fields := unfold in_use, queued, lock_live, same_flag in *; try congruence.

Lemma wf_similar x t t' : similar t t' -> data_ok t' -> wf x t -> wf x t'.
Proof.
  intros Hs Hdata [Hlock Hreq Hown Hfree Hfl Hused Hhash _ Hlist Hexist]. pose proof (symmetry Hs) as Hs'.
  split; try done.
  - intros l b' Hb' Hlive. destruct (similar_lbl t' t l b' Hs' Hb') as (b & Hb & Hsame).
    symmetry in Hsame. destruct (Hlock l b Hb) as [Hne Hok]; [destruct Hsame; same_fields|].
    split; [destruct Hsame; congruence|]. apply (lock_ok_same _ _ _ b b' Hsame).
    apply (lock_ok_frame (requests t) _ x x); [|by right|done]. intros r q _ Hq.
    destruct (similar_lrq t t' r q Hs Hq) as (q' & Hq' & Hsm). exists q'. split; [done|by apply same_core].
  - intros r q' Hq'. destruct (in_use_similar t t' r q' Hs Hq') as (q & Hq & []).
    destruct (Hreq r q Hq) as [(o & Ho & H1 & H2 & H3) H4 H5]. split.
    + destruct (similar_own t t' _ o Hs Ho) as (o' & Ho' & []). exists o'.
      unfold queued, same_flag in *.
      rewrite sr_owner0, sr_repost0, sr_pending0, sr_blocking0, so_requests0, so_pending0, so_blocks0. auto.
    + unfold queued, same_flag in *. rewrite sr_repost0, sr_lock0. intros Hqd. destruct (H4 Hqd) as (b & Hb & Hlive & Hin).
      destruct (similar_lbl t t' _ b Hs Hb) as (b' & Hb' & []). exists b'. same_fields.
      rewrite sl_requests0. split; [done|]. split; [congruence|done].
    + unfold queued, same_flag in *. rewrite sr_repost0, sr_pending0, sr_blocking0. auto.
  - intros o b' Hb'. destruct (similar_own t' t o b' Hs' Hb') as (b & Hb & Hsame). symmetry in Hsame. destruct Hsame.
    destruct (Hown o b Hb) as [H1 H2 H3].
    split; [rewrite so_requests0|rewrite so_pending0|rewrite so_blocks0]; intros r Hr;
      [destruct (H1 r Hr) as (q & [Hq Ht] & Ho & Hx)|destruct (H2 r Hr) as (q & [Hq Ht] & Ho & Hx)
      |destruct (H3 r Hr) as (q & [Hq Ht] & Ho & Hx)];
      destruct (similar_lrq t t' r q Hs Hq) as (q' & Hq' & []); exists q'; unfold in_use, queued, same_flag in *;
      (split; [split; congruence|split; [congruence|]]); rewrite ?sr_repost0, ?sr_pending0, ?sr_blocking0; done.
  - rewrite (si_free _ _ Hs). destruct Hfree as [Hnd Hf]. split; [done|]. intros r Hr.
    destruct (Hf r Hr) as (q & Hq & Ht). destruct (similar_lrq t t' r q Hs Hq) as (q' & Hq' & []). exists q'. same_fields.
    split; congruence.
  - rewrite (si_free_locks _ _ Hs). intros l Hl. destruct (Hfl l Hl) as (b & Hb & Ht).
    destruct (similar_lbl t t' l b Hs Hb) as (b' & Hb' & []). exists b'. split; congruence.
  - destruct Hused as (H1 & H3 & H4). destruct (room_ok_same t t' (si_room _ _ Hs) H1) as [H1' ->]. split_and!; try done.
    + intros r q' Hq'. destruct (similar_lrq t' t r q' Hs' Hq') as (q & Hq & _). eauto.
    + intros l b' Hb'. destruct (similar_lbl t' t l b' Hs' Hb') as (b & Hb & _). eauto.
  - rewrite (si_hash _ _ Hs). destruct Hhash as (H1 & H2 & H3). split_and!; try done. intros chain l Hc Hl.
    destruct (H3 chain l Hc Hl) as (b & Hb & Hlive). destruct (similar_lbl t t' l b Hs Hb) as (b' & Hb' & []).
    exists b'. same_fields. split; congruence.
  - intros r q' Hq'. destruct (in_use_similar t t' r q' Hs Hq') as (q & Hq & []). rewrite sr_owner0, (si_owners _ _ Hs). eauto.
  - intros o. rewrite (si_owners _ _ Hs). intros Ho. destruct (Hexist o Ho) as [w Hw].
    destruct (similar_own t t' o w Hs Hw) as (w' & Hw' & _). eauto.
Qed.

(** ** Changing a request, its lock and its owner *)

(** Everything but the three blocks is the same. *)
Record rest_same (t t' : table) : Prop := {
  rs_owners : lhb_owners t' = lhb_owners t;
  rs_hash : lhb_hash t' = lhb_hash t;
  rs_free : lhb_free_requests t' = lhb_free_requests t;
  rs_free_locks : lhb_free_locks t' = lhb_free_locks t;
  rs_room : room t' = room t
}.

Record changed (r l o : Z) (q' : lrq) (b' : lbl) (w' : own) (t t' : table) : Prop := {
  ch_requests : requests t' = <[r := q']> (requests t);
  ch_locks : locks t' = <[l := b']> (locks t);
  ch_owners : owners t' = <[o := w']> (owners t);
  ch_rest : rest_same t t'
}.

(** The request stays in the queues of its lock and its owner; it waits and blocks as its
    flags say. *)
Record own_follows (r : Z) (q' : lrq) (w w' : own) : Prop := {
  of_requests : own_requests w' = own_requests w;
  of_pending : forall x, x ∈ own_pending w' <->
    (x <> r /\ x ∈ own_pending w) \/ (x = r /\ has_flag (lrq_flags q') LRQ_pending = true);
  of_blocks : forall x, x ∈ own_blocks w' <->
    (x <> r /\ x ∈ own_blocks w) \/ (x = r /\ has_flag (lrq_flags q') LRQ_blocking = true)
}.

Lemma in_use_insert m r q q' x y : in_use m r q -> lrq_type q' = type_lrq ->
  in_use (<[r := q']> m) x y -> (x = r /\ y = q') \/ (x <> r /\ in_use m x y).
Proof.
  intros _ Ht [Hx Hy]. destruct (decide (r = x)) as [<-|Hne].
  - rewrite lookup_insert_eq in Hx. left. by injection Hx as <-.
  - rewrite lookup_insert_ne in Hx by done. right. by split.
Qed.

Lemma in_use_insert_self m r q' : lrq_type q' = type_lrq -> in_use (<[r := q']> m) r q'.
Proof. intros. split; [by rewrite lookup_insert_eq|done]. Qed.
Lemma in_use_insert_other m r q' x y : x <> r -> in_use m x y -> in_use (<[r := q']> m) x y.
Proof. intros Hne [Hx Hy]. split; [by rewrite lookup_insert_ne by done|done]. Qed.

(** The queue of a lock holds the requests that name it. *)
Lemma queue_lock x t l b r : wf x t -> locks t !! l = Some b -> lock_live b -> r ∈ lbl_requests b ->
  exists q, in_use (requests t) r q /\ lrq_lock q = l /\ queued q /\ level (lrq_state q) /\ level (lrq_requested q).
Proof. intros Hwf Hb Hl Hr. destruct (wf_lock x t Hwf l b Hb Hl) as [_ Hok]. by apply (ok_request _ _ _ _ Hok). Qed.

Section Update.
Context (x x' : option Z) (t t' : table) (r l o : Z) (q q' : lrq) (b b' : lbl) (w w' : own).
Hypothesis Hwf : wf x t.
Hypothesis Hq : in_use (requests t) r q.
Hypothesis Hqueued : queued q.
Hypothesis Hlock : lrq_lock q = l.
Hypothesis Hown : lrq_owner q = o.
Hypothesis Hb : locks t !! l = Some b.
Hypothesis Hw : owners t !! o = Some w.
Hypothesis Hch : changed r l o q' b' w' t t'.
Hypothesis Hdata : data_ok t'.
Hypothesis Hx : forall r', x = Some r' \/ x' = Some r' -> r' ∈ lbl_requests b.

(** The locks other than [l] keep their part of the invariant. *)
Lemma update_other_lock l2 b2 : l2 <> l -> locks t' !! l2 = Some b2 -> lock_live b2 ->
  lbl_requests b2 <> [] /\ lock_ok (requests t') x' l2 b2.
Proof using Hwf Hb Hch Hx Hlock Hqueued Hq.
  intros Hne Hb2 Hlive2. rewrite (ch_locks _ _ _ _ _ _ _ _ Hch), lookup_insert_ne in Hb2 by done.
  destruct (wf_lock x t Hwf l2 b2 Hb2 Hlive2) as [Hne2 Hok]. split; [done|].
  assert (Hnot : forall y, y ∈ lbl_requests b -> y ∉ lbl_requests b2).
  { intros y Hy Hy2. destruct (ok_request _ _ _ _ Hok y Hy2) as (qy & [Hqy _] & Hly & _).
    destruct (ro_lock _ _ _ (wf_request _ _ Hwf r q Hq) Hqueued) as (b0 & Hb0 & Hlive0 & _).
    rewrite Hlock, Hb in Hb0. injection Hb0 as <-.
    destruct (queue_lock x t l b y Hwf Hb Hlive0 Hy) as (qy' & [Hqy' _] & Hly' & _). congruence. }
  apply (lock_ok_frame (requests t) _ x x'); [|left|done].
  - intros y qy Hy Hqy. rewrite (ch_requests _ _ _ _ _ _ _ _ Hch).
    assert (y <> r).
    { intros ->. destruct (ok_request _ _ _ _ Hok r Hy) as (q0 & [Hq0 _] & Hl0 & _). destruct Hq as [Hqr _]. congruence. }
    rewrite lookup_insert_ne by done. exists qy. split; [done|apply core_refl].
  - intros y Hy. apply Hnot. by apply Hx.
Qed.

Lemma update_live l2 b2 : l2 <> l -> locks t !! l2 = Some b2 -> locks t' !! l2 = Some b2.
Proof using Hch. intros Hne Hb2. by rewrite (ch_locks _ _ _ _ _ _ _ _ Hch), lookup_insert_ne. Qed.

Lemma wf_update :
  lrq_type q' = type_lrq -> lrq_lock q' = l -> lrq_owner q' = o -> queued q' ->
  lock_live b' -> (forall y, y ∈ lbl_requests b' <-> y ∈ lbl_requests b) -> lock_ok (requests t') x' l b' ->
  own_follows r q' w w' -> wf x' t'.
Proof using Hwf Hb Hch Hx Hlock Hqueued Hq Hown Hw Hdata.
  intros Ht' Hl' Ho' Hqd' Hlive' Hrq' Hok' [Hf1 Hf2 Hf3].
  destruct (ro_lock _ _ _ (wf_request _ _ Hwf r q Hq) Hqueued) as (b0 & Hb0 & Hlive0 & Hrb).
  rewrite Hlock, Hb in Hb0. injection Hb0 as <-.
  destruct (ro_owner _ _ _ (wf_request _ _ Hwf r q Hq)) as (w0 & Hw0 & Hrw & Hrp & Hrbl).
  rewrite Hown, Hw in Hw0. injection Hw0 as <-.
  pose proof (ch_requests _ _ _ _ _ _ _ _ Hch) as Er. pose proof (ch_locks _ _ _ _ _ _ _ _ Hch) as El.
  pose proof (ch_owners _ _ _ _ _ _ _ _ Hch) as Eo. pose proof (ch_rest _ _ _ _ _ _ _ _ Hch) as Es.
  split.
  - intros l2 b2 Hb2 Hlive2. destruct (decide (l2 = l)) as [->|Hne]; [|by apply update_other_lock].
    rewrite El, lookup_insert_eq in Hb2. injection Hb2 as <-. split; [|done].
    intros Hnil. specialize (Hrq' r). rewrite Hnil in Hrq'. apply Hrq' in Hrb. by apply elem_of_nil in Hrb.
  - intros r2 q2 Hq2. rewrite Er in Hq2.
    destruct (in_use_insert _ _ q _ _ _ Hq Ht' Hq2) as [[-> ->]|[Hne Hq2']].
    + split.
      * exists w'. rewrite Ho', Eo, lookup_insert_eq, Hf1, Hf2, Hf3. split_and!; auto.
        intros [?|Hn]; [auto|by destruct Hn].
      * intros _. exists b'. rewrite Hl', El, lookup_insert_eq, Hrq'. done.
      * done.
    + destruct (wf_request _ _ Hwf r2 q2 Hq2') as [(o2 & Ho2 & H1 & H2 & H3) H4 H5]. split; [| |done].
      * rewrite Eo. destruct (decide (lrq_owner q2 = o)) as [Heq|Hneo].
        -- rewrite Heq, Hw in Ho2. injection Ho2 as <-. exists w'. rewrite Heq, lookup_insert_eq, Hf1, Hf2, Hf3.
           split_and!; auto.
        -- exists o2. rewrite lookup_insert_ne by done. auto.
      * intros Hqd2. destruct (H4 Hqd2) as (b2 & Hb2 & Hlive2 & Hin2). destruct (decide (lrq_lock q2 = l)) as [Heq|Hnel].
        -- rewrite Heq, Hb in Hb2. injection Hb2 as <-. exists b'. rewrite Heq, El, lookup_insert_eq, Hrq'. done.
        -- exists b2. split; [by apply update_live|done].
  - intros o2 w2 Hw2. rewrite Eo in Hw2. destruct (decide (o2 = o)) as [->|Hne].
    + rewrite lookup_insert_eq in Hw2. injection Hw2 as <-. destruct (wf_own _ _ Hwf o w Hw) as [H1 H2 H3].
      split; rewrite Er; intros y Hy.
      * rewrite Hf1 in Hy. destruct (H1 y Hy) as (qy & Hqy & Hoy & Hqdy). destruct (decide (y = r)) as [->|Hner].
        -- exists q'. split; [by apply in_use_insert_self|done].
        -- exists qy. split; [by apply in_use_insert_other|done].
      * apply Hf2 in Hy as [[Hner Hy]|[-> Hp]].
        -- destruct (H2 y Hy) as (qy & Hqy & Hoy & Hqdy). exists qy. split; [by apply in_use_insert_other|done].
        -- exists q'. split; [by apply in_use_insert_self|done].
      * apply Hf3 in Hy as [[Hner Hy]|[-> Hp]].
        -- destruct (H3 y Hy) as (qy & Hqy & Hoy & Hqdy). exists qy. split; [by apply in_use_insert_other|done].
        -- exists q'. split; [by apply in_use_insert_self|auto].
    + rewrite lookup_insert_ne in Hw2 by done. destruct (wf_own _ _ Hwf o2 w2 Hw2) as [H1 H2 H3].
      assert (Hnr : forall y qy, in_use (requests t) y qy -> lrq_owner qy = o2 -> y <> r).
      { intros y qy [Hy _] Hoy ->. destruct Hq as [Hqr _]. congruence. }
      split; rewrite Er; intros y Hy; [destruct (H1 y Hy) as (qy & Hqy & Hoy & Hz)|destruct (H2 y Hy) as (qy & Hqy & Hoy & Hz)
        |destruct (H3 y Hy) as (qy & Hqy & Hoy & Hz)]; exists qy;
        (split; [apply in_use_insert_other; eauto|done]).
  - rewrite (rs_free _ _ Es), Er. destruct (wf_free _ _ Hwf) as [Hnd Hf]. split; [done|]. intros y Hy.
    destruct (Hf y Hy) as (qy & Hqy & Hty). exists qy. rewrite lookup_insert_ne; [done|]. intros <-.
    destruct Hq as [Hqr Htr]. rewrite Hqr in Hqy. injection Hqy as <-. rewrite Htr in Hty. done.
  - rewrite (rs_free_locks _ _ Es), El. intros y Hy. destruct (wf_free_locks _ _ Hwf y Hy) as (by' & Hby & Hty).
    exists by'. rewrite lookup_insert_ne; [done|]. intros <-. rewrite Hb in Hby. injection Hby as <-.
    unfold lock_live in Hlive0. rewrite Hlive0 in Hty. done.
  - destruct (wf_used _ _ Hwf) as (H1 & H3 & H4). destruct (room_ok_same _ _ (rs_room _ _ Es) H1) as [H1' ->]. rewrite Er, El.
    split; [done|]. split; intros y z Hy.
    + destruct (decide (y = r)) as [->|Hne]; [destruct Hq as [Hqr _]; by apply (H3 r q)|].
      rewrite lookup_insert_ne in Hy by done. eauto.
    + destruct (decide (y = l)) as [->|Hne]; [by apply (H4 l b)|]. rewrite lookup_insert_ne in Hy by done. eauto.
  - rewrite (rs_hash _ _ Es). destruct (wf_hash _ _ Hwf) as (H1 & H2 & H3). split; [done|]. split; [done|].
    intros chain y Hc Hy. destruct (H3 chain y Hc Hy) as (b2 & Hb2 & Hlive2). destruct (decide (y = l)) as [->|Hne].
    + exists b'. by rewrite El, lookup_insert_eq.
    + exists b2. split; [by apply update_live|done].
  - done.
  - intros r2 q2 Hq2. rewrite (rs_owners _ _ Es). rewrite Er in Hq2. destruct (in_use_insert _ _ q _ _ _ Hq Ht' Hq2) as [[-> ->]|[_ Hq2']].
    + rewrite Ho', <- Hown. by apply (wf_listed _ _ Hwf r).
    + by apply (wf_listed _ _ Hwf r2).
  - intros o2. rewrite (rs_owners _ _ Es), Eo. intros Ho2. destruct (decide (o2 = o)) as [->|Hne]; [rewrite lookup_insert_eq; eauto|].
    rewrite lookup_insert_ne by done. by apply (wf_owners _ _ Hwf).
Qed.

End Update.

(** ** Changes of similar tables *)

Lemma similar_upd_lrq2 t t' r q q' : similar t t' -> same_lrq q q' -> similar (upd_lrq r q t) (upd_lrq r q' t').
Proof.
  intros [H1 H2 H3 H4 H5 H6 H7 H8] Hs. split; cbn; try done. intros y. destruct (decide (r = y)) as [<-|Hne].
  - by rewrite !lookup_insert_eq.
  - by rewrite !lookup_insert_ne.
Qed.
Lemma similar_upd_lbl2 t t' l b b' : similar t t' -> same_lbl b b' -> similar (upd_lbl l b t) (upd_lbl l b' t').
Proof.
  intros [H1 H2 H3 H4 H5 H6 H7 H8] Hs. split; cbn; try done. intros y. destruct (decide (l = y)) as [<-|Hne].
  - by rewrite !lookup_insert_eq.
  - by rewrite !lookup_insert_ne.
Qed.
Lemma similar_upd_own2 t t' o b b' : similar t t' -> same_own b b' -> similar (upd_own o b t) (upd_own o b' t').
Proof.
  intros [H1 H2 H3 H4 H5 H6 H7 H8] Hs. split; cbn; try done. intros y. destruct (decide (o = y)) as [<-|Hne].
  - by rewrite !lookup_insert_eq.
  - by rewrite !lookup_insert_ne.
Qed.

Lemma data_ok_upd_lbl t l b' : data_ok t -> lock_live b' -> data_ok (upd_lbl l b' t).
Proof.
  intros [Hl Hd] Hlive. split; [done|]. intros q y Hq Hy. destruct (Hd q y Hq Hy) as (b & Hb & Hlb). cbn.
  destruct (decide (l = y)) as [<-|Hne]; [rewrite lookup_insert_eq; eauto|rewrite lookup_insert_ne by done; eauto].
Qed.

(** Similar tables that are changed at one request, one lock and one owner *)
Lemma similar_at r l o t2 t3 s t' : similar t2 t3 ->
  (forall y, y <> r -> requests s !! y = requests t2 !! y /\ requests t' !! y = requests t3 !! y) ->
  (forall y, y <> l -> locks s !! y = locks t2 !! y /\ locks t' !! y = locks t3 !! y) ->
  (forall y, y <> o -> owners s !! y = owners t2 !! y /\ owners t' !! y = owners t3 !! y) ->
  on_option same_lrq (requests s !! r) (requests t' !! r) ->
  on_option same_lbl (locks s !! l) (locks t' !! l) ->
  on_option same_own (owners s !! o) (owners t' !! o) ->
  rest_same t2 s -> rest_same t3 t' -> similar s t'.
Proof.
  intros [H1 H2 H3 H4 H5 H6 H7 H8] Hr Hl Ho Er El Eo [] []. split; try congruence.
  - intros y. destruct (decide (y = r)) as [->|Hne]; [done|]. destruct (Hr y Hne) as [-> ->]. apply H1.
  - intros y. destruct (decide (y = l)) as [->|Hne]; [done|]. destruct (Hl y Hne) as [-> ->]. apply H2.
  - intros y. destruct (decide (y = o)) as [->|Hne]; [done|]. destruct (Ho y Hne) as [-> ->]. apply H3.
Qed.

(** [lookups] reads the blocks of a table that was changed at some offsets. *)
Ltac lookups := cbn [upd_lrq upd_lbl upd_own requests locks owners set_requests set_locks set_owners
  set_lhb_free_requests set_lhb_free_locks set_lhb_hash set_lhb_data set_lhb_used set_lhb_length set_lhb_owners];
  rewrite ?lookup_insert_eq; rewrite ?lookup_insert_ne by done.

(** A request in the queues of its owner waits and blocks as its flags say. *)
Lemma own_queues x t r q w : wf x t -> in_use (requests t) r q -> queued q -> owners t !! lrq_owner q = Some w ->
  (r ∈ own_pending w <-> has_flag (lrq_flags q) LRQ_pending = true) /\
  (r ∈ own_blocks w <-> has_flag (lrq_flags q) LRQ_blocking = true).
Proof.
  intros Hwf Hq Hqd Hw. pose proof Hq as [Hqr _].
  destruct (wf_request _ _ Hwf r q Hq) as [(w0 & Hw0 & _ & Hp & Hb) _ _]. rewrite Hw in Hw0. injection Hw0 as <-.
  destruct (wf_own _ _ Hwf _ _ Hw) as [_ H2 H3]. split; split; auto.
  - intros Hin. destruct (H2 r Hin) as (qq & [Hqq _] & _ & Hpp). rewrite Hqr in Hqq. by injection Hqq as <-.
  - intros Hin. destruct (H3 r Hin) as (qq & [Hqq _] & _ & [Hpp|Hnq]); rewrite Hqr in Hqq; injection Hqq as <-; [done|by destruct Hnq].
Qed.

Lemma own_follows_same x t r q q' w w' :
  wf x t -> in_use (requests t) r q -> queued q -> owners t !! lrq_owner q = Some w -> same_own w w' ->
  same_flag LRQ_pending q q' -> same_flag LRQ_blocking q q' -> own_follows r q' w w'.
Proof.
  intros Hwf Hq Hqd Hw [S1 S2 S3 _] Hfp Hfb. unfold same_flag in *. destruct (own_queues x t r q w Hwf Hq Hqd Hw) as [Hp Hb].
  split; [done|rewrite S3, Hfp|rewrite S2, Hfb]; intros y; destruct (decide (y = r)) as [->|Hne]; naive_solver.
Qed.
