(* ===== verification/LockGrant.v ===== *)
(** * Granting requests: [grant] and [post_pending]

    Granting keeps the invariant, and what [post_pending] leaves waiting is blocked. *)

From S2P Require Import Prelude Outcome StateMonad LockTable LockOps LockInv LockFrame.
From stdpp Require Import gmap.
#[local] Open Scope Z_scope.

(** ** Data of locks *)

Lemma elem_of_insert_inv {A} (l : list A) i v y : y ∈ <[i := v]> l -> y = v \/ y ∈ l.
Proof.
  intros [j Hj]%list_elem_of_lookup_1. apply list_lookup_insert_Some in Hj as [(_ & <- & _)|[_ Hj]]; [by left|].
  right. by eapply list_elem_of_lookup_2.
Qed.

Lemma wp_remove_data l t : data_ok t ->
  wp (remove_data l) (fun _ t' => similar t t' /\ data_ok t' /\ forall q, q ∈ lhb_data t' -> l ∉ q) t.
Proof.
  intros [Hl Hd]. apply wp_modify. split_and!.
  - by split.
  - split; cbn; [by rewrite length_map|]. intros q y (q0 & -> & Hq0)%list_elem_of_fmap [_ Hy]%elem_of_remove_que.
    by apply (Hd q0).
  - cbn. intros q (q0 & -> & Hq0)%list_elem_of_fmap [Hy _]%elem_of_remove_que. done.
Qed.

Lemma insert_data_elems m x v q : (forall y, y ∈ q -> is_Some (m !! y)) ->
  exists q', insert_data m x v q = Ok q' /\ forall y, y ∈ q' <-> y = x \/ y ∈ q.
Proof.
  induction q as [|z q IH]; intros Hq; cbn.
  - exists [x]. split; [done|]. set_solver.
  - destruct (Hq z ltac:(set_solver)) as [b Hb]. rewrite Hb. cbn. case_decide.
    + eexists. split; [done|]. set_solver.
    + destruct IH as (q' & -> & Hq'); [set_solver|]. cbn. eexists. split; [done|]. intros y.
      rewrite !elem_of_cons, Hq'. naive_solver.
Qed.

Lemma wp_insert_data_que l b t : data_ok t -> locks t !! l = Some b -> lock_live b -> 0 <= lbl_series b ->
  wp (insert_data_que l) (fun _ t' => (exists d, t' = set_lhb_data d t) /\ data_ok t') t.
Proof.
  assert (Hid : t = set_lhb_data (lhb_data t) t) by (by destruct t).
  intros [Hlen Hd] Hb Hlive Hs. apply wp_bind. apply (wp_lbl_at l b); [done|]. case_decide as Hc; [|by apply wp_ret; split; [eauto|]].
  unfold change_data, LCK_MAX_SERIES in *. apply wp_bind, wp_gets. cbn [id].
  assert (is_Some (lhb_data t @ lbl_series b)) as [q Hq] by (apply aget_is_Some; lia).
  apply wp_bind. eapply wp_access; [exact Hq|]. pose proof Hq as Hq2. apply aget_Some in Hq2 as [_ Hq2%list_elem_of_lookup_2].
  destruct (insert_data_elems (locks t) l (lbl_data b) q) as (q' & Hq' & Hel).
  { intros y Hy. destruct (Hd q y Hq2 Hy) as (by' & Hby & _). eauto. }
  apply wp_bind. rewrite Hq'. apply wp_lift. apply wp_bind.
  eapply wp_access; [apply aset_in; lia|]. apply wp_modify.
  split; [eauto|]. split; cbn; [by rewrite length_insert|]. intros q2 y Hq2' Hy.
  apply elem_of_insert_inv in Hq2' as [->|Hin]; [|by apply (Hd q2)].
  apply Hel in Hy as [->|Hy]; [eauto|by apply (Hd q)].
Qed.

Lemma wp_assign_data_table l v b t : data_ok t -> locks t !! l = Some b -> lock_live b -> 0 <= lbl_series b ->
  wp (assign_data l v) (fun _ t' => (exists d, t' = set_lhb_data d (upd_lbl l (set_lbl_data v b) t)) /\ data_ok t') t.
Proof.
  intros Hd Hb Hlive Hs. apply wp_bind. apply (wp_change_lbl l b); [done|].
  assert (Hsim : similar t (upd_lbl l (set_lbl_data v b) t)) by (apply (similar_upd_lbl t l b); [done|by split]).
  assert (Hd' : data_ok (upd_lbl l (set_lbl_data v b) t)) by (by apply (data_ok_similar t)).
  case_decide.
  - by apply (wp_insert_data_que l (set_lbl_data v b)); [|cbn; rewrite lookup_insert_eq|..].
  - apply wp_ret. split; [|done]. exists (lhb_data t). by destruct t.
Qed.

Lemma wp_assign_data l v b t : data_ok t -> locks t !! l = Some b -> lock_live b -> 0 <= lbl_series b ->
  wp (assign_data l v) (fun _ t' => similar t t' /\ data_ok t') t.
Proof.
  intros Hd Hb Hlive Hs. eapply wp_mono; [by eapply wp_assign_data_table|]. intros _ t' [[d ->] Hd']. split; [|done].
  transitivity (upd_lbl l (set_lbl_data v b) t); [|by split]. apply (similar_upd_lbl t l b); [done|by split].
Qed.

(** ** Owners *)

Lemma wp_post_wakeup o w t : owners t !! o = Some w ->
  wp (post_wakeup o) (fun _ t' => similar t t' /\ lhb_data t' = lhb_data t) t.
Proof.
  intros Hw. apply wp_bind. apply (wp_own_at o w); [done|]. case_decide; [|by apply wp_ret].
  eapply (wp_change_own o w); [done|]. split; [|done]. by apply (similar_upd_own t o w).
Qed.

(** Neutral operations keep the invariant. *)
Lemma wp_neutral {A} x (m : LM A) t : wf x t ->
  wp m (fun _ t' => similar t t' /\ lhb_data t' = lhb_data t) t -> wp m (fun _ t' => wf x t' /\ similar t t') t.
Proof.
  intros Hwf Hm. eapply wp_mono; [exact Hm|]. intros a t' [Hs Hd]. split; [|done].
  apply (wf_similar x t); [done| |done]. apply (data_ok_similar t); [done|done|apply Hwf].
Qed.

(** ** Counters *)

Lemma count_change counts k d : length counts = 7%nat -> level k ->
  (n ← counts @ k; aset counts k (wrapU 16 (n + d))) =
  Some (<[Z.to_nat k := wrapU 16 (counts !!! Z.to_nat k + d)]> counts).
Proof.
  intros Hl Hk. unfold level in Hk. assert (is_Some (counts @ k)) as [n Hn] by (apply aget_is_Some; lia).
  rewrite Hn. cbn. rewrite aset_in by lia. do 3 f_equal. apply aget_Some in Hn as [_ Hn].
  by apply list_lookup_total_correct in Hn as ->.
Qed.

Lemma wp_count_up l b k (Q : unit -> table -> Prop) t :
  locks t !! l = Some b -> length (lbl_counts b) = 7%nat -> level k ->
  Q tt (upd_lbl l (set_lbl_counts (<[Z.to_nat k := wrapU 16 (lbl_counts b !!! Z.to_nat k + 1)]> (lbl_counts b)) b) t) ->
  wp (change_counts l (fun counts => count_up counts k)) Q t.
Proof.
  intros Hb Hl Hk HQ. apply wp_bind. apply (wp_lbl_at l b); [done|]. apply wp_bind.
  eapply wp_access; [by apply (count_change _ _ 1)|]. by apply (wp_change_lbl l b).
Qed.

Lemma wp_count_down l b k (Q : unit -> table -> Prop) t :
  locks t !! l = Some b -> length (lbl_counts b) = 7%nat -> level k ->
  Q tt (upd_lbl l (set_lbl_counts (<[Z.to_nat k := wrapU 16 (lbl_counts b !!! Z.to_nat k - 1)]> (lbl_counts b)) b) t) ->
  wp (change_counts l (fun counts => count_down counts k)) Q t.
Proof.
  intros Hb Hl Hk HQ. apply wp_bind. apply (wp_lbl_at l b); [done|]. apply wp_bind.
  eapply wp_access; [by apply (count_change _ _ (-1))|]. by apply (wp_change_lbl l b).
Qed.

Lemma wrap16_small n : 0 <= n < 65536 -> wrapU 16 n = n.
Proof. intros H. apply wrapU_id. unfold inU. change (2 ^ 16) with 65536. lia. Qed.

Lemma counted_subset x rs r : r ∈ counted x rs -> r ∈ rs.
Proof. destruct x; cbn; [by intros [_ ?]%elem_of_remove_que|done]. Qed.

Lemma state_of_level m x l b r : lock_ok m x l b -> r ∈ lbl_requests b -> level (state_of m r).
Proof. intros Hok Hr. destruct (ok_request _ _ _ _ Hok r Hr) as (q & [Hq _] & _ & _ & Hl & _). unfold state_of. by rewrite Hq. Qed.

(** What the state computed of the counters is compatible with *)
Lemma lock_state_counted m x l b k : lock_ok m x l b -> level k ->
  compatible k (lock_state (lbl_counts b)) = true <->
  (forall r, r ∈ counted x (lbl_requests b) -> compatible k (state_of m r) = true).
Proof.
  intros Hok Hk.
  assert (Hpos : forall j, 1 <= j <= 6 -> lbl_counts b !!! Z.to_nat j <> 0 <->
    exists r, r ∈ counted x (lbl_requests b) /\ state_of m r = j).
  { intros j Hj. rewrite (ok_counts _ _ _ _ Hok j Hj), count_pos. unfold holds. by setoid_rewrite bool_decide_eq_true. }
  rewrite lock_state_spec; [|done|].
  - split.
    + intros H r Hr. pose proof (state_of_level m x l b r Hok (counted_subset _ _ _ Hr)) as Hlev.
      destruct (decide (state_of m r = 0)) as [->|Hne]; [by apply compatible_none|].
      unfold level in Hlev. apply H; [lia|]. apply Hpos; [lia|eauto].
    + intros H j Hj Hc. apply Hpos in Hc as (r & Hr & <-); [|done]. by apply H.
  - intros j j' Hj Hj' Hne Hc Hc'. apply Hpos in Hc as (r & Hr & <-); [|done]. apply Hpos in Hc' as (r' & Hr' & <-); [|done].
    apply (ok_compatible _ _ _ _ Hok); [by eapply counted_subset..|congruence].
Qed.

(** ** [grant] *)

Lemma state_of_insert m r q r' : state_of (<[r := q]> m) r' = if decide (r' = r) then lrq_state q else state_of m r'.
Proof.
  unfold state_of. case_decide as Hd; [subst; by rewrite lookup_insert_eq|by rewrite lookup_insert_ne].
Qed.
Lemma holds_at m r q k : m !! r = Some q -> holds m k r = bool_decide (lrq_state q = k).
Proof. intros H. assert (E : state_of m r = lrq_state q) by (unfold state_of; by rewrite H). unfold holds. by rewrite E. Qed.
Lemma holds_insert m r q k y :
  holds (<[r := q]> m) k y = if decide (y = r) then bool_decide (lrq_state q = k) else holds m k y.
Proof. unfold holds. rewrite state_of_insert. by case_decide. Qed.
Lemma flag_of_insert f m r q r' :
  flag_of f (<[r := q]> m) r' = if decide (r' = r) then has_flag (lrq_flags q) f else flag_of f m r'.
Proof.
  unfold flag_of. case_decide as Hd; [subst; by rewrite lookup_insert_eq|by rewrite lookup_insert_ne].
Qed.

Lemma lookup_total_insert_counts (counts : list Z) i k v : length counts = 7%nat -> 0 <= i <= 6 -> 0 <= k <= 6 ->
  <[Z.to_nat i := v]> counts !!! Z.to_nat k = if decide (k = i) then v else counts !!! Z.to_nat k.
Proof.
  intros Hl Hi Hk. case_decide as Hd.
  - subst. apply list_lookup_total_insert_eq. lia.
  - apply list_lookup_total_insert_ne. lia.
Qed.

Record after_grant (q q' : lrq) : Prop := {
  ag_kept : kept q q';
  ag_state : lrq_state q' = lrq_requested q;
  ag_pending : has_flag (lrq_flags q') LRQ_pending = false
}.

(** A lock whose counters leave out [r] counts it in its new state. *)
Lemma lock_ok_grant m l b b' r q q' :
  lock_ok m (Some r) l b -> r ∈ lbl_requests b -> in_use m r q ->
  (forall y, y ∈ lbl_requests b -> y <> r -> compatible (lrq_requested q) (state_of m y) = true) ->
  after_grant q q' -> lbl_requests b' = lbl_requests b -> lbl_series b' = lbl_series b ->
  lbl_counts b' = <[Z.to_nat (lrq_requested q) := wrapU 16 (lbl_counts b !!! Z.to_nat (lrq_requested q) + 1)]> (lbl_counts b) ->
  lbl_state b' = lock_state (lbl_counts b') ->
  lbl_pending_lrq_count b' = lbl_pending_lrq_count b - Z.b2z (has_flag (lrq_flags q) LRQ_pending) ->
  lock_ok (<[r := q']> m) None l b'.
Proof.
  intros Hok Hr [Hq Ht] Hcomp [[K1 K2 K3 K4 K6 K7] Hst Hpend] Hrq Hser Hcounts Hstate Hpc.
  destruct (ok_request _ _ _ _ Hok r Hr) as (q0 & [Hq0 _] & Hl & Hqd & Hlev & Hlevr). rewrite Hq in Hq0. injection Hq0 as <-.
  pose proof (ok_nodup _ _ _ _ Hok) as Hnd. pose proof (ok_length _ _ _ _ Hok) as Hlen.
  split; rewrite ?Hrq, ?Hser; try apply Hok.
  - by rewrite Hcounts, length_insert.
  - intros y Hy. destruct (decide (y = r)) as [->|Hne].
    + exists q'. unfold queued, same_flag, in_use in *. rewrite lookup_insert_eq, Hst, K6, K2. split_and!; congruence || done.
    + destruct (ok_request _ _ _ _ Hok y Hy) as (qy & Hqy & Hx). exists qy. split; [by apply in_use_insert_other|done].
  - intros k Hk. cbn [counted]. rewrite Hcounts, lookup_total_insert_counts by (unfold level in *; lia || done).
    assert (Hrest : count (holds (<[r:=q']> m) k) (remove_que r (lbl_requests b)) = count (holds m k) (remove_que r (lbl_requests b))).
    { apply count_ext. intros y [Hy _]%elem_of_remove_que. by rewrite holds_insert, decide_False. }
    pose proof (ok_counts _ _ _ _ Hok k Hk) as Hck. cbn [counted] in Hck.
    pose proof (count_remove (holds (<[r:=q']> m) k) r (lbl_requests b) Hnd Hr) as Hcr.
    pose proof (count_range (holds (<[r:=q']> m) k) (lbl_requests b)) as Hrange.
    rewrite holds_insert, decide_True, Hst, Hrest in Hcr by done. rewrite Hcr in *.
    pose proof (ok_small _ _ _ _ Hok). destruct (decide (k = lrq_requested q)) as [Hd|Hd].
    + subst k. rewrite bool_decide_true in * by done. cbn in *. rewrite wrap16_small; lia.
    + rewrite bool_decide_false by congruence. cbn. lia.
  - rewrite Hpc, (ok_pending _ _ _ _ Hok), !(count_remove _ r (lbl_requests b) Hnd Hr).
    unfold flag_of at 2. rewrite Hq. cbn [from_option]. rewrite flag_of_insert, decide_True, Hpend by done. cbn.
    assert (Hrest : count (flag_of LRQ_pending (<[r:=q']> m)) (remove_que r (lbl_requests b)) =
      count (flag_of LRQ_pending m) (remove_que r (lbl_requests b))); [|lia].
    apply count_ext. intros y [Hy _]%elem_of_remove_que. by rewrite flag_of_insert, decide_False.
  - intros y y' Hy Hy' Hne. rewrite !state_of_insert.
    destruct (decide (y = r)) as [->|Hyr]; [|destruct (decide (y' = r)) as [->|Hyr']].
    + rewrite decide_False, Hst by done. auto.
    + rewrite Hst. rewrite compatible_sym; [auto| |done]. by eapply state_of_level.
    + by apply (ok_compatible _ _ _ _ Hok).
  - done.
Qed.

(** What [grant] changes *)
Record granted_rel (r l : Z) (q : lrq) (t t' : table) : Prop := {
  gr_self : exists q', requests t' !! r = Some q' /\ after_grant q q';
  gr_others : forall y, y <> r -> on_option same_lrq (requests t !! y) (requests t' !! y);
  gr_lbl : forall l', on_option (fun b b' => lbl_type b' = lbl_type b /\ lbl_requests b' = lbl_requests b /\
    (l' <> l -> same_lbl b b')) (locks t !! l') (locks t' !! l');
  gr_own : forall o, on_option (fun w w' => own_requests w' = own_requests w /\ own_count w' = own_count w)
    (owners t !! o) (owners t' !! o);
  gr_rest : rest_same t t'
}.

Lemma rest_same_similar t t' : similar t t' -> rest_same t t'.
Proof. by intros []. Qed.

(** From a changed table to a similar one *)
Lemma granted_rel_changed r l o q q' b b' w w' t s t' :
  locks t !! l = Some b -> owners t !! o = Some w ->
  changed r l o q' b' w' t s -> similar s t' -> after_grant q q' ->
  lbl_type b' = lbl_type b -> lbl_requests b' = lbl_requests b ->
  own_requests w' = own_requests w -> own_count w' = own_count w ->
  granted_rel r l q t t'.
Proof.
  intros Hb Hw [E1 E2 E3 E4] Hsim [[K1 K2 K3 K4 K6 K7] Hst Hp] Ht Hrq Hor Hoc. split.
  - destruct (similar_lrq s t' r q' Hsim) as (q'' & Hq'' & []); [by rewrite E1, lookup_insert_eq|].
    exists q''. unfold same_flag in *. split; [done|]. split; [split; unfold same_flag|..]; congruence.
  - intros y Hy. pose proof (si_lrq _ _ Hsim y) as H. by rewrite E1, lookup_insert_ne in H.
  - intros l'. pose proof (si_lbl _ _ Hsim l') as H. rewrite E2 in H. destruct (decide (l = l')) as [<-|Hne].
    + rewrite lookup_insert_eq in H. rewrite Hb. destruct (locks t' !! l); [|done]. destruct H. cbn.
      split; [congruence|]. split; [congruence|done].
    + rewrite lookup_insert_ne in H by done. destruct (locks t !! l'), (locks t' !! l'); try done. cbn in *.
      destruct H. split; [done|]. split; [done|]. by split.
  - intros o'. pose proof (si_own _ _ Hsim o') as H. rewrite E3 in H. destruct (decide (o = o')) as [<-|Hne].
    + rewrite lookup_insert_eq in H. rewrite Hw. destruct (owners t' !! o); [|done]. destruct H. cbn. split; congruence.
    + rewrite lookup_insert_ne in H by done. destruct (owners t !! o'), (owners t' !! o'); try done. cbn in *.
      destruct H. by split.
  - destruct E4, (rest_same_similar _ _ Hsim). split; congruence.
Qed.

(** The data of the request becomes that of the lock. *)
Lemma wp_data_step r l q b d t :
  data_ok t -> requests t !! r = Some q -> locks t !! l = Some b -> lock_live b -> 0 <= lbl_series b ->
  wp (if decide (d <> 0) then remove_data l;; assign_data l d;; change_lrq r (set_lrq_data 0) else ret tt)
    (fun _ t' => similar t t' /\ data_ok t') t.
Proof.
  intros Hd Hq Hb Hlive Hs. case_decide; [|by apply wp_ret]. apply wp_bind.
  eapply wp_mono; [by apply wp_remove_data|]. intros _ t1 (Hs1 & Hd1 & _).
  destruct (similar_lbl t t1 l b Hs1 Hb) as (b1 & Hb1 & Hsb).
  apply wp_bind. eapply wp_mono.
  { apply (wp_assign_data l d b1); [done|done|destruct Hsb; unfold lock_live in *; congruence|].
    by rewrite (sl_series _ _ Hsb). }
  intros _ t2 [Hs2 Hd2]. destruct (similar_lrq t t2 r q) as (q2 & Hq2 & _); [by etransitivity|done|].
  apply (wp_change_lrq r q2); [done|].
  assert (similar t2 (upd_lrq r (set_lrq_data 0 q2) t2)) by (apply (similar_upd_lrq t2 r q2); [done|by split]).
  split; [|by apply (data_ok_similar t2)]. by transitivity t1; [|transitivity t2].
Qed.

(** [remove_pending] and its absence, as one change of the owner, the request and the lock *)
Definition unpend (w : own) (r : Z) : own := set_own_pending (remove_que r (own_pending w)) w.

Lemma wp_remove_pending r q qc b w t :
  requests t !! r = Some qc -> locks t !! lrq_lock q = Some b -> owners t !! lrq_owner q = Some w ->
  wp (remove_pending r q) (fun _ t' =>
    t' = upd_lbl (lrq_lock q) (set_lbl_pending_lrq_count (wrapU 16 (lbl_pending_lrq_count b + -1)) b)
           (upd_lrq r (set_lrq_flags (without_flag LRQ_pending (lrq_flags qc)) qc) (upd_own (lrq_owner q) (unpend w r) t))) t.
Proof.
  intros Hq Hb Hw. unfold remove_pending. apply wp_bind. eapply wp_change_own; [done|]. apply wp_bind.
  eapply wp_change_lrq; [done|]. by eapply wp_change_lbl.
Qed.

(** Granting, for a request that the counters leave out and that the others are compatible with *)
Lemma wp_grant r l q b t :
  wf (Some r) t -> in_use (requests t) r q -> queued q -> lrq_lock q = l -> locks t !! l = Some b ->
  (forall y, y ∈ lbl_requests b -> y <> r -> compatible (lrq_requested q) (state_of (requests t) y) = true) ->
  wp (grant r l) (fun _ t' => wf None t' /\ granted_rel r l q t t') t.
Proof.
  intros Hwf Hq Hqd Hl Hb Hcomp.
  destruct (wf_request _ _ Hwf r q Hq) as [(w & Hw & Hrw & Hpw & Hbw) Hlk Hrep].
  destruct (Hlk Hqd) as (b0 & Hb0 & Hlive & Hrb). rewrite Hl, Hb in Hb0. injection Hb0 as <-.
  destruct (wf_lock _ _ Hwf l b Hb Hlive) as [_ Hok].
  destruct (ok_request _ _ _ _ Hok r Hrb) as (q0 & [Hq0 _] & _ & _ & Hlev & Hlevr).
  pose proof Hq as [Hqr Hqt]. rewrite Hqr in Hq0. injection Hq0 as <-.
  unfold grant. apply wp_bind. eapply wp_lrq_at; [done|]. apply wp_bind.
  eapply (wp_count_up l b); [done|apply Hok|done|].
  set (counts' := <[Z.to_nat (lrq_requested q) := _]> (lbl_counts b)). set (b1 := set_lbl_counts counts' b).
  apply wp_bind. eapply wp_change_lrq; [done|]. set (q1 := set_lrq_state (lrq_requested q) q).
  set (t2 := upd_lrq r q1 (upd_lbl l b1 t)). apply wp_bind.
  assert (Hd2 : data_ok t2) by (apply (data_ok_upd_lbl t l b1); [apply Hwf|done]).
  eapply wp_mono.
  { apply (wp_data_step r l q1 b1 (lrq_data q) t2); [done|cbn; by rewrite lookup_insert_eq|cbn; by rewrite lookup_insert_eq|done|].
    apply (ok_series _ _ _ _ Hok). }
  intros _ t3 [Hs3 Hd3].
  destruct (similar_lbl t2 t3 l b1 Hs3) as (b3 & Hb3 & Hsb3); [cbn; by rewrite lookup_insert_eq|].
  destruct (similar_lrq t2 t3 r q1 Hs3) as (q3 & Hq3 & Hsq3); [cbn; by rewrite lookup_insert_eq|].
  destruct (similar_own t2 t3 (lrq_owner q) w Hs3) as (w3 & Hw3 & Hsw3); [done|].
  apply wp_bind. eapply wp_change_lbl; [done|]. set (b4 := set_lbl_state (lock_state (lbl_counts b3)) b3).
  set (pending := has_flag (lrq_flags q) LRQ_pending).
  set (q' := set_lrq_flags (without_flag LRQ_pending (lrq_flags q)) q1).
  set (b' := Lbl (lbl_type b) (lock_state counts') (lbl_size b) (lbl_length b) (lbl_requests b) (lbl_data b) (lbl_series b)
               (lbl_pending_lrq_count b - Z.b2z pending) counts' (lbl_key b)).
  set (w' := unpend w r). set (s := upd_own (lrq_owner q) w' (upd_lrq r q' (upd_lbl l b' t))).
  assert (Hag : after_grant q q').
  { split; [split|..]; try done; unfold same_flag, q', q1; cbn; flags; done. }
  assert (Hd' : forall t4, similar s t4 -> lhb_data t4 = lhb_data t3 -> data_ok t4).
  { intros t4 Hs4 Hd4. split; rewrite Hd4; [apply Hd3|]. intros qq y Hqq Hy.
    destruct Hd3 as [_ Hd3]. destruct (Hd3 qq y Hqq Hy) as (by3 & Hby3 & Hl3). symmetry in Hs3.
    destruct (similar_lbl t3 t2 y by3 Hs3 Hby3) as (by2 & Hby2 & Hsy). unfold t2 in Hby2.
    destruct (decide (y = l)) as [->|Hne].
    - destruct (similar_lbl s t4 l b' Hs4) as (b4' & Hb4' & Hs4'); [unfold s; by lookups|].
      exists b4'. split; [done|]. unfold lock_live. by rewrite (sl_type _ _ Hs4').
    - destruct (similar_lbl s t4 y by2 Hs4) as (b4' & Hb4' & Hs4'); [unfold s; revert Hby2; by lookups|].
      exists b4'. split; [done|]. unfold lock_live in *. rewrite (sl_type _ _ Hs4'), (sl_type _ _ Hsy). done. }
  apply wp_bind. eapply wp_mono with (P := fun _ t4 => similar s t4 /\ lhb_data t4 = lhb_data t3).
  - assert (Hpc : pending = true -> wrapU 16 (lbl_pending_lrq_count b + -1) = lbl_pending_lrq_count b - 1).
    { intros Hp. rewrite wrap16_small; [lia|]. rewrite (ok_pending _ _ _ _ Hok).
      pose proof (count_range (flag_of LRQ_pending (requests t)) (lbl_requests b)). pose proof (ok_small _ _ _ _ Hok).
      assert (count (flag_of LRQ_pending (requests t)) (lbl_requests b) <> 0); [|lia]. apply count_pos. exists r.
      split; [done|]. unfold flag_of. by rewrite Hqr. }
    assert (Hsw : same_own w w3) by done.
    destruct pending eqn:Ep.
    + eapply wp_mono; [eapply (wp_remove_pending r q q3 b4 w3)|].
      * by lookups.
      * rewrite Hl. by lookups.
      * by lookups.
      * intros _ t4 ->. rewrite Hl. split; [|done]. apply (similar_at r l (lrq_owner q) t2 t3); [done|..].
        -- intros y Hy. unfold s, t2. lookups. done.
        -- intros y Hy. unfold s, t2. lookups. done.
        -- intros y Hy. unfold s, t2. lookups. done.
        -- unfold s. lookups. destruct Hsq3. split; unfold same_flag in *; cbn; flags; done.
        -- unfold s. lookups. destruct Hsb3 as [T1 T2 T3 T4 T5 T6]. cbn in *. split; cbn; rewrite ?T4, ?T5, ?Hpc by done; done.
        -- unfold s. lookups. destruct Hsw. split; cbn; congruence.
        -- by split.
        -- by split.
    + apply wp_ret. split; [|done].
      assert (Hnotin : r ∉ own_pending w).
      { intros Hin. destruct (wf_own _ _ Hwf _ _ Hw) as [_ H2 _]. destruct (H2 r Hin) as (qq & [Hqq _] & _ & Hpp).
        rewrite Hqr in Hqq. injection Hqq as <-. unfold pending in Ep. congruence. }
      apply (similar_at r l (lrq_owner q) t2 t3); [done|..].
      * intros y Hy. unfold s, t2. by lookups.
      * intros y Hy. unfold s, t2. by lookups.
      * intros y Hy. unfold s, t2. by lookups.
      * unfold s. lookups. rewrite Hq3. unfold pending in Ep. destruct Hsq3. split; unfold same_flag in *; cbn in *; flags; done || congruence.
      * unfold s. lookups. destruct Hsb3 as [T1 T2 T3 T4 T5 T6]. cbn in *. split; cbn; rewrite ?T4, ?T5, ?Z.sub_0_r; done.
      * unfold s. lookups. rewrite Hw3. destruct Hsw. split; cbn; try done. rewrite remove_que_absent; done.
      * by split.
      * by split.
  - intros _ t4 [Hs4 Hd4].
    assert (Hwf4 : wf None t4).
    { apply (wf_similar None s t4); [done|by apply Hd'|].
      eapply (wf_update (Some r) None t s r l (lrq_owner q) q q' b b' w w'); try done.
      - apply (data_ok_upd_lbl t l b'); [apply Hwf|done].
      - intros y [[= ->]|?]; done.
      - unfold q', queued in *. cbn. by flags.
      - apply (lock_ok_grant (requests t) l b b' r q q'); try done; try apply Hag.
      - split; [done|..]; intros y; unfold w', unpend, q', q1; cbn; rewrite ?elem_of_remove_que; flags; [naive_solver|].
        destruct (own_queues (Some r) t r q w Hwf Hq Hqd Hw) as [_ Hbl].
        destruct (decide (y = r)) as [->|Hne]; naive_solver. }
    destruct (similar_own s t4 (lrq_owner q) w' Hs4) as (w4 & Hw4 & _); [unfold s; by lookups|].
    eapply wp_mono; [apply (wp_neutral None); [done|by eapply wp_post_wakeup]|].
    intros _ t5 [Hwf5 Hs5]. split; [done|].
    apply (granted_rel_changed r l (lrq_owner q) q q' b b' w w' t s t5); try done. by transitivity t4.
Qed.
