(* ===== verification/LockPost.v ===== *)
(** * [post_pending]: nobody waits who could be granted *)

From S2P Require Import Prelude Outcome StateMonad LockTable LockOps LockInv LockFrame LockGrant.
From stdpp Require Import gmap.
#[local] Open Scope Z_scope.

(** A request stays what it is, or it waits for the lock [l] and is granted. *)
Definition moved (l : Z) (q q' : lrq) : Prop :=
  core_lrq q q' \/ (lrq_lock q = l /\ has_flag (lrq_flags q) LRQ_pending = true /\ after_grant q q').

(** What operations change that only grant pending requests of the lock [l] *)
Record effect (l : Z) (t t' : table) : Prop := {
  ef_lrq : forall y, on_option (moved l) (requests t !! y) (requests t' !! y);
  ef_lbl : forall l', on_option (fun b b' => lbl_type b' = lbl_type b /\ lbl_requests b' = lbl_requests b /\
    (l' <> l -> same_lbl b b')) (locks t !! l') (locks t' !! l');
  ef_own : forall o, on_option (fun w w' => own_requests w' = own_requests w /\ own_count w' = own_count w)
    (owners t !! o) (owners t' !! o);
  ef_rest : rest_same t t'
}.

(** What operations change that only tell owners about requests *)
Record calm (t t' : table) : Prop := {
  cm_lrq : forall y, on_option core_lrq (requests t !! y) (requests t' !! y);
  cm_lbl : forall l, on_option same_lbl (locks t !! l) (locks t' !! l);
  cm_own : forall o, on_option (fun w w' => own_requests w' = own_requests w /\ own_count w' = own_count w)
    (owners t !! o) (owners t' !! o);
  cm_rest : rest_same t t'
}.

Lemma moved_kept l q q' : moved l q q' -> kept q q'.
Proof. intros [[]|(_ & _ & [])]; done. Qed.
Lemma moved_core l q q' : moved l q q' -> lrq_lock q <> l \/ has_flag (lrq_flags q) LRQ_pending = false -> core_lrq q q'.
Proof. intros [?|(? & ? & _)] [?|?]; congruence. Qed.

Lemma moved_trans l q q' q'' : moved l q q' -> moved l q' q'' -> moved l q q''.
Proof.
  intros [H1|(L1 & P1 & G1)] [H2|(L2 & P2 & G2)].
  - left. by eapply core_trans.
  - right. destruct H1 as [[] Hs Hp], G2 as [K2 S2 F2]. unfold same_flag in *.
    split_and!; [congruence..|]. split; [|congruence|done]. apply (kept_trans _ q'); [by split|done].
  - right. split_and!; [done..|]. destruct H2 as [Hk Hs Hp], G1 as [K1 S1 F1]. unfold same_flag in *.
    split; [by eapply kept_trans|congruence..].
  - right. exfalso. destruct G1. congruence.
Qed.

Lemma on_option_mono {A} (R S : A -> A -> Prop) o o' : (forall a a', R a a' -> S a a') -> on_option R o o' -> on_option S o o'.
Proof. intros H. destruct o, o'; cbn; auto. Qed.

Lemma calm_similar t t' : similar t t' -> calm t t'.
Proof.
  intros [H1 H2 H3 H4 H5 H6 H7 H8]. split; [intros y..|by split].
  - eapply on_option_mono; [apply same_core|apply H1].
  - apply H2.
  - eapply on_option_mono; [|apply H3]. by intros ? ? [].
Qed.

Lemma calm_trans t t' t'' : calm t t' -> calm t' t'' -> calm t t''.
Proof.
  intros [A1 A2 A3 A4] [B1 B2 B3 B4]. split.
  - intros y. specialize (A1 y). specialize (B1 y). destruct (requests t !! y), (requests t' !! y), (requests t'' !! y); try done.
    by eapply core_trans.
  - intros y. etransitivity; [apply A2|apply B2].
  - intros y. specialize (A3 y). specialize (B3 y). destruct (owners t !! y), (owners t' !! y), (owners t'' !! y); try done.
    cbn in *. destruct A3, B3. split; congruence.
  - destruct A4, B4. split; congruence.
Qed.

Lemma calm_effect l t t' : calm t t' -> effect l t t'.
Proof.
  intros [H1 H2 H3 H4]. split; [..|done].
  - intros y. eapply on_option_mono; [|apply H1]. by left.
  - intros y. eapply on_option_mono; [|apply H2]. intros b b' Hs. pose proof Hs as []. done.
  - done.
Qed.

Lemma effect_similar l t t' : similar t t' -> effect l t t'.
Proof. intros H. by apply calm_effect, calm_similar. Qed.

Lemma effect_trans l t t' t'' : effect l t t' -> effect l t' t'' -> effect l t t''.
Proof.
  intros [A1 A2 A3 A4] [B1 B2 B3 B4]. split.
  - intros y. specialize (A1 y). specialize (B1 y).
    destruct (requests t !! y) as [q|], (requests t' !! y) as [q'|], (requests t'' !! y) as [q''|]; try done.
    by eapply moved_trans.
  - intros y. specialize (A2 y). specialize (B2 y).
    destruct (locks t !! y), (locks t' !! y), (locks t'' !! y); try done. cbn in *.
    destruct A2 as (? & ? & A2), B2 as (? & ? & B2). split; [congruence|]. split; [congruence|]. intros Hne.
    etransitivity; eauto.
  - intros y. specialize (A3 y). specialize (B3 y). destruct (owners t !! y), (owners t' !! y), (owners t'' !! y); try done.
    cbn in *. destruct A3, B3. split; congruence.
  - destruct A4, B4. split; congruence.
Qed.

Lemma effect_granted r l q t t' : granted_rel r l q t t' -> requests t !! r = Some q -> lrq_lock q = l ->
  has_flag (lrq_flags q) LRQ_pending = true -> effect l t t'.
Proof.
  intros [(q' & Hq' & Hg) G2 G3 G4 G5] Hq Hl Hp. split; try done. intros y. destruct (decide (y = r)) as [->|Hne].
  - rewrite Hq, Hq'. right. done.
  - eapply on_option_mono; [|by apply G2]. intros ? ? ?. left. by apply same_core.
Qed.

(** Changing the counters of the lock *)
Lemma effect_counts l b b' t : locks t !! l = Some b -> lbl_type b' = lbl_type b -> lbl_requests b' = lbl_requests b ->
  effect l t (upd_lbl l b' t).
Proof.
  intros Hb Ht Hr. split; cbn; [intros y..|by split].
  - destruct (requests t !! y); cbn; [|done]. left. apply core_refl.
  - destruct (decide (l = y)) as [<-|Hne].
    + by rewrite lookup_insert_eq, Hb.
    + rewrite lookup_insert_ne by done. destruct (locks t !! y); cbn; done.
  - destruct (owners t !! y); cbn; done.
Qed.

(** ** Waiting requests *)

(** Another request is granted in a state that is not compatible. *)
Definition blocked (m : gmap Z lrq) (rs : list Z) (r : Z) : Prop :=
  exists y, y ∈ rs /\ y <> r /\ compatible (requested_of m r) (state_of m y) = false.

(** The first request that waits is blocked. *)
Definition no_lost (m : gmap Z lrq) (rs : list Z) : Prop :=
  forall pre r post, rs = pre ++ r :: post -> flag_of LRQ_pending m r = true ->
    (forall y, y ∈ pre -> flag_of LRQ_pending m y = false) -> blocked m rs r.

Lemma similar_of t t' r : similar t t' ->
  state_of (requests t') r = state_of (requests t) r /\ requested_of (requests t') r = requested_of (requests t) r /\
  flag_of LRQ_pending (requests t') r = flag_of LRQ_pending (requests t) r /\
  flag_of LRQ_rejected (requests t') r = flag_of LRQ_rejected (requests t) r.
Proof.
  intros [H _ _ _ _ _ _ _]. specialize (H r). unfold state_of, requested_of, flag_of.
  destruct (requests t !! r), (requests t' !! r); try done. cbn in *. by destruct H.
Qed.

Lemma blocked_ext m m' rs r :
  (forall y, y ∈ rs -> state_of m' y = state_of m y) -> requested_of m' r = requested_of m r ->
  blocked m rs r -> blocked m' rs r.
Proof. intros Hs Hr (y & Hy & Hne & Hc). exists y. by rewrite Hr, Hs. Qed.

Lemma no_lost_ext m m' rs :
  (forall y, y ∈ rs -> state_of m' y = state_of m y /\ requested_of m' y = requested_of m y /\
    flag_of LRQ_pending m' y = flag_of LRQ_pending m y) -> no_lost m rs -> no_lost m' rs.
Proof.
  intros Hs Hn pre r post -> Hp Hpre. assert (Hin : r ∈ pre ++ r :: post) by set_solver.
  apply (blocked_ext m); [intros y Hy; by apply Hs|by apply Hs|]. apply (Hn pre r post); [done| |].
  - destruct (Hs r Hin) as (_ & _ & <-). done.
  - intros y Hy. destruct (Hs y) as (_ & _ & <-); [set_solver|]. by apply Hpre.
Qed.

Lemma no_lost_first m rs pre r post : rs = pre ++ r :: post -> NoDup rs -> flag_of LRQ_pending m r = true ->
  (forall y, y ∈ pre -> flag_of LRQ_pending m y = false) -> blocked m rs r -> no_lost m rs.
Proof.
  intros -> Hnd Hp Hpre Hb pre' r' post' Heq Hp' Hpre'.
  assert (r' = r) as ->; [|done].
  revert pre' Heq Hpre'. clear Hb Hnd. induction pre as [|x pre IH]; intros [|x' pre'] Heq Hpre'; cbn in Heq; simplify_eq.
  - done.
  - rewrite (Hpre' x' ltac:(set_solver)) in Hp. done.
  - rewrite (Hpre r' ltac:(set_solver)) in Hp'. done.
  - apply (IH ltac:(set_solver) pre'); [done|set_solver].
Qed.

Lemma no_lost_none m rs : (forall y, y ∈ rs -> flag_of LRQ_pending m y = false) -> no_lost m rs.
Proof. intros H pre r post -> Hp _. rewrite H in Hp by set_solver. done. Qed.

(** ** The counters while a request is converted *)

Lemma wf_leave_out t r q l b b' :
  wf None t -> in_use (requests t) r q -> queued q -> lrq_lock q = l -> locks t !! l = Some b ->
  lock_live b' -> lbl_requests b' = lbl_requests b -> lock_ok (requests t) (Some r) l b' ->
  wf (Some r) (upd_lbl l b' t).
Proof.
  intros Hwf Hq Hqd Hl Hb Hlive Hrq Hok. destruct (wf_request _ _ Hwf r q Hq) as [(w & Hw & Hrw & Hpw & Hbw) Hlk Hrep].
  destruct (Hlk Hqd) as (b0 & Hb0 & _ & Hrb). rewrite Hl, Hb in Hb0. injection Hb0 as <-. pose proof Hq as [Hqr Hqt].
  eapply (wf_update None (Some r) t _ r l (lrq_owner q) q q b b' w w); try done.
  - split; cbn; [by rewrite insert_id|done|by rewrite insert_id|by split].
  - apply data_ok_upd_lbl; [apply Hwf|done].
  - intros y [?|[= <-]]; done.
  - intros y. by rewrite Hrq.
  - by apply (own_follows_same None t r q).
Qed.

Lemma lock_ok_down m l b r q : lock_ok m None l b -> r ∈ lbl_requests b -> in_use m r q -> lrq_state q <> 0 ->
  lock_ok m (Some r) l
    (set_lbl_counts (<[Z.to_nat (lrq_state q) := wrapU 16 (lbl_counts b !!! Z.to_nat (lrq_state q) - 1)]> (lbl_counts b)) b).
Proof.
  intros Hok Hr [Hq Ht] Hs. destruct (ok_request _ _ _ _ Hok r Hr) as (q0 & [Hq0 _] & Hl & Hqd & Hlev & Hlevr).
  rewrite Hq in Hq0. injection Hq0 as <-.
  pose proof (ok_nodup _ _ _ _ Hok) as Hnd. pose proof (ok_length _ _ _ _ Hok) as Hlen.
  pose proof (ok_small _ _ _ _ Hok) as Hsm.
  split; cbn [lbl_counts lbl_requests lbl_series lbl_pending_lrq_count lbl_state set_lbl_counts]; try apply Hok.
  - by rewrite length_insert.
  - intros k Hk. cbn [counted]. rewrite lookup_total_insert_counts by (unfold level in *; lia || done).
    pose proof (ok_counts _ _ _ _ Hok k Hk) as Hck. cbn [counted] in Hck. rewrite (count_remove _ r) in Hck by done.
    rewrite (holds_at m r q) in Hck by done.
    pose proof (count_range (holds m k) (remove_que r (lbl_requests b))) as Hrange.
    assert (Z.of_nat (length (remove_que r (lbl_requests b))) <= Z.of_nat (length (lbl_requests b))).
    { unfold remove_que. pose proof (length_filter (fun y => y <> r) (lbl_requests b)). lia. }
    destruct (decide (k = lrq_state q)) as [->|Hne].
    + rewrite bool_decide_true in Hck by done. cbn in Hck. rewrite wrap16_small; lia.
    + rewrite bool_decide_false in Hck by done. cbn in Hck. lia.
  - intros Hx. destruct (Hx r eq_refl Hr).
Qed.

(** A request in the state "none" is not counted anyway. *)
Lemma lock_ok_none m l b r q : lock_ok m None l b -> r ∈ lbl_requests b -> in_use m r q -> lrq_state q = 0 ->
  lock_ok m (Some r) l b.
Proof.
  intros Hok Hr [Hq Ht] Hs. split; try apply Hok.
  - intros k Hk. cbn [counted]. rewrite (ok_counts _ _ _ _ Hok k Hk). cbn [counted].
    rewrite (count_remove _ r) by (done || apply Hok). rewrite (holds_at m r q) by done.
    rewrite bool_decide_false by lia. cbn. lia.
  - intros _. apply Hok. done.
Qed.

Lemma upd_lbl_twice l b b' t : locks t !! l = Some b -> upd_lbl l b (upd_lbl l b' t) = t.
Proof. intros Hb. destruct t. unfold upd_lbl. cbn in *. by rewrite insert_insert_eq, insert_id. Qed.

Lemma upd_lbl_id l b t : locks t !! l = Some b -> upd_lbl l b t = t.
Proof. intros Hb. destruct t. unfold upd_lbl. cbn in *. by rewrite insert_id. Qed.

Lemma counts_restore (counts : list Z) k d : (k < length counts)%nat -> 0 <= counts !!! k < 65536 -> d = 1 \/ d = -1 ->
  <[k := wrapU 16 (<[k := wrapU 16 (counts !!! k - d)]> counts !!! k + d)]> (<[k := wrapU 16 (counts !!! k - d)]> counts) = counts.
Proof.
  intros Hk Hr Hd. rewrite list_lookup_total_insert_eq, list_insert_insert_eq by done.
  assert (H : wrapU 16 (wrapU 16 (counts !!! k - d) + d) = counts !!! k).
  { unfold wrapU. rewrite Z.add_mod_idemp_l by done. replace (counts !!! k - d + d) with (counts !!! k) by lia.
    apply Z.mod_small. change (2 ^ 16) with 65536. lia. }
  rewrite H. apply list_insert_id. by apply list_lookup_lookup_total_lt.
Qed.

(** Counting down and up again changes nothing. *)
Lemma counts_back t l b r k : locks t !! l = Some b -> lock_ok (requests t) None l b -> r ∈ lbl_requests b -> 1 <= k <= 6 ->
  let b1 := set_lbl_counts (<[Z.to_nat k := wrapU 16 (lbl_counts b !!! Z.to_nat k - 1)]> (lbl_counts b)) b in
  upd_lbl l (set_lbl_counts (<[Z.to_nat k := wrapU 16 (lbl_counts b1 !!! Z.to_nat k + 1)]> (lbl_counts b1)) b1) (upd_lbl l b1 t) = t.
Proof.
  intros Hb Hok Hr Hk b1. unfold b1. cbn [lbl_counts set_lbl_counts].
  rewrite (counts_restore _ _ 1); [|rewrite (ok_length _ _ _ _ Hok); lia| |by left].
  - etransitivity; [|by apply (upd_lbl_twice l b b1)]. f_equal. by destruct b.
  - rewrite (ok_counts _ _ _ _ Hok) by done.
    pose proof (count_range (holds (requests t) k) (counted None (lbl_requests b))).
    pose proof (ok_small _ _ _ _ Hok). cbn [counted] in *. lia.
Qed.

(** ** [post_pending] *)

(** The request at the head of what the loop has left *)
Lemma queue_request t l b r : wf None t -> locks t !! l = Some b -> lock_live b -> r ∈ lbl_requests b ->
  exists q w, in_use (requests t) r q /\ lrq_lock q = l /\ queued q /\ level (lrq_state q) /\ level (lrq_requested q) /\
    owners t !! lrq_owner q = Some w.
Proof.
  intros Hwf Hb Hl Hr. destruct (queue_lock None t l b r Hwf Hb Hl Hr) as (q & Hq & Hlq & Hqd & Hs & Hrq).
  destruct (ro_owner _ _ _ (wf_request _ _ Hwf r q Hq)) as (w & Hw & _). exists q, w. done.
Qed.

Lemma not_compatible_blocked m x l b r k : lock_ok m x l b -> level k -> requested_of m r = k ->
  (forall y, y ∈ counted x (lbl_requests b) -> y <> r) ->
  compatible k (lock_state (lbl_counts b)) = false -> blocked m (lbl_requests b) r.
Proof.
  intros Hok Hk Hrk Hne Hc.
  destruct (decide (Exists (fun y => compatible k (state_of m y) = false) (counted x (lbl_requests b)))) as [He|Hn].
  - apply Exists_exists in He as (y & Hy & Hcy). exists y. rewrite Hrk. split; [by eapply counted_subset|]. auto.
  - exfalso. rewrite <- not_true_iff_false in Hc. apply Hc. apply (lock_state_counted m x l b); [done..|].
    intros y Hy. destruct (compatible k (state_of m y)) eqn:E; [done|]. exfalso. apply Hn, Exists_exists. eauto.
Qed.

(** After the loop has granted [r], the rest of the queue *)
Lemma wp_grant_then l r rs q b1 t t1 Q :
  wf (Some r) t1 -> in_use (requests t1) r q -> queued q -> lrq_lock q = l -> locks t1 !! l = Some b1 ->
  effect l t t1 -> has_flag (lrq_flags q) LRQ_pending = true ->
  compatible (lrq_requested q) (lock_state (lbl_counts b1)) = true ->
  (forall t', wf None t' -> effect l t t' -> flag_of LRQ_pending (requests t') r = false ->
     wp (grant_pending l rs) Q t') ->
  lock_live b1 -> wp (grant r l;; grant_pending l rs) Q t1.
Proof.
  intros Hwf Hq Hqd Hl Hb1 Heff Hp Hc IH Hlive. apply wp_bind. pose proof Hq as [Hqr _].
  destruct (wf_lock _ _ Hwf l b1 Hb1 Hlive) as [_ Hok].
  destruct (ro_lock _ _ _ (wf_request _ _ Hwf r q Hq) Hqd) as (b0 & Hb0 & _ & Hrb). rewrite Hl, Hb1 in Hb0. injection Hb0 as <-.
  assert (Hlev : level (lrq_requested q)).
  { destruct (ok_request _ _ _ _ Hok r Hrb) as (q0 & [Hq0 _] & _ & _ & _ & H). rewrite Hqr in Hq0. by injection Hq0 as <-. }
  eapply wp_mono.
  - apply (wp_grant r l q b1); try done. intros y Hy Hne.
    apply (lock_state_counted _ (Some r) l b1); [done..|]. cbn. by apply elem_of_remove_que.
  - intros _ t2 [Hwf2 Hg]. apply IH; [done| |].
    + eapply effect_trans; [exact Heff|]. by apply (effect_granted r l q).
    + destruct (gr_self _ _ _ _ _ Hg) as (q' & Hq' & []). unfold flag_of. by rewrite Hq'.
Qed.

Lemma effect_flag l t t' y : effect l t t' -> flag_of LRQ_pending (requests t) y = false ->
  flag_of LRQ_pending (requests t') y = false.
Proof.
  intros [H _ _ _] Hf. specialize (H y). unfold flag_of in *.
  destruct (requests t !! y), (requests t' !! y); try done. cbn in *.
  destruct (moved_core _ _ _ H (or_intror Hf)). unfold same_flag in *. congruence.
Qed.

Lemma effect_lock l t t' b : effect l t t' -> locks t !! l = Some b -> lock_live b ->
  exists b', locks t' !! l = Some b' /\ lock_live b' /\ lbl_requests b' = lbl_requests b.
Proof.
  intros [_ H _ _] Hb Hlive. specialize (H l). rewrite Hb in H. destruct (locks t' !! l) as [b'|]; [|done]. cbn in H.
  exists b'. unfold lock_live in *. destruct H as (-> & -> & _). done.
Qed.

Lemma no_lost_similar t t' rs : similar t t' -> no_lost (requests t) rs -> no_lost (requests t') rs.
Proof. intros Hs. apply no_lost_ext. intros y _. destruct (similar_of t t' y Hs) as (-> & -> & -> & _). done. Qed.

Lemma wp_grant_pending l t0 b0 : locks t0 !! l = Some b0 -> lock_live b0 ->
  forall rs pre t, lbl_requests b0 = pre ++ rs -> wf None t -> effect l t0 t ->
  (forall y, y ∈ pre -> flag_of LRQ_pending (requests t) y = false) ->
  wp (grant_pending l rs) (fun _ t' => wf None t' /\ effect l t0 t' /\ no_lost (requests t') (lbl_requests b0)) t.
Proof.
  intros Hb0 Hlive0. induction rs as [|r rs IH]; intros pre t Hsplit Hwf Heff Hpre; cbn [grant_pending].
  { apply wp_ret. split_and!; try done. apply no_lost_none. intros y Hy. apply Hpre. by rewrite Hsplit, app_nil_r in Hy. }
  destruct (effect_lock l t0 t b0 Heff Hb0 Hlive0) as (b & Hb & Hlive & Hrq).
  destruct (wf_lock _ _ Hwf l b Hb Hlive) as [_ Hok].
  assert (Hr : r ∈ lbl_requests b) by (rewrite Hrq, Hsplit; set_solver).
  destruct (queue_request t l b r Hwf Hb Hlive Hr) as (q & w & Hq & Hl & Hqd & Hlev & Hlevr & Hw). pose proof Hq as [Hqr _].
  assert (Hnext : forall t', wf None t' -> effect l t0 t' -> (forall y, y ∈ pre -> flag_of LRQ_pending (requests t') y = false) ->
    flag_of LRQ_pending (requests t') r = false ->
    wp (grant_pending l rs) (fun _ t'' => wf None t'' /\ effect l t0 t'' /\ no_lost (requests t'') (lbl_requests b0)) t').
  { intros t' Hwf' Heff' Hpre' Hr'. apply (IH (pre ++ [r])); [by rewrite <- app_assoc|done..|].
    intros y [Hy| ->%list_elem_of_singleton]%elem_of_app; auto. }
  assert (Hstop : forall t', similar t t' -> wf None t' -> has_flag (lrq_flags q) LRQ_pending = true ->
    blocked (requests t) (lbl_requests b) r ->
    wf None t' /\ effect l t0 t' /\ no_lost (requests t') (lbl_requests b0)).
  { intros t' Hs Hwf' Hp Hbl. split_and!; [done|eapply effect_trans; [done|by apply effect_similar]|].
    apply (no_lost_similar t); [done|]. rewrite <- Hrq.
    apply (no_lost_first _ _ pre r rs); [by rewrite Hrq|apply Hok| |done|done]. unfold flag_of. by rewrite Hqr. }
  assert (Hreq : requested_of (requests t) r = lrq_requested q) by (unfold requested_of; by rewrite Hqr).
  apply wp_bind. eapply wp_lrq_at; [done|]. destruct (has_flag (lrq_flags q) LRQ_pending) eqn:Ep.
  2:{ apply Hnext; try done. unfold flag_of. by rewrite Hqr. }
  assert (Hpre2 : forall t' , effect l t t' -> forall y, y ∈ pre -> flag_of LRQ_pending (requests t') y = false).
  { intros t' He y Hy. apply (effect_flag l t); auto. }
  case_decide as Hs0.
  - apply wp_bind. eapply wp_count_down; [done|apply Hok|done|]. set (b1 := set_lbl_counts _ b). set (t1 := upd_lbl l b1 t).
    assert (Hb1 : locks t1 !! l = Some b1) by (unfold t1; by lookups).
    assert (Hok1 : lock_ok (requests t1) (Some r) l b1) by (by apply (lock_ok_down _ l b r q)).
    assert (Hwf1 : wf (Some r) t1) by (by apply (wf_leave_out t r q l b b1)).
    apply wp_bind. eapply wp_lbl_at; [done|]. apply wp_bind. apply wp_compat; [done|apply lock_state_level|].
    assert (He1 : effect l t t1) by (by apply (effect_counts l b b1)).
    destruct (compatible (lrq_requested q) (lock_state (lbl_counts b1))) eqn:Ec.
    + apply (wp_grant_then l r rs q b1 t t1); try done. intros t' Hwf' He' Hf'.
      apply Hnext; [done|by eapply effect_trans|by apply Hpre2|done].
    + apply wp_bind. eapply wp_count_up; [done|apply Hok1|done|].
      assert (Hback : upd_lbl l (set_lbl_counts (<[Z.to_nat (lrq_state q):=
        wrapU 16 (lbl_counts b1 !!! Z.to_nat (lrq_state q) + 1)]> (lbl_counts b1)) b1) t1 = t).
      { apply (counts_back t l b r); try done. unfold level in *. lia. }
      rewrite Hback. eapply wp_mono; [apply (wp_neutral None); [done|by eapply wp_post_wakeup]|].
      intros _ t' [Hwf' Hs']. apply Hstop; try done.
      apply (not_compatible_blocked (requests t1) (Some r) l b1 r (lrq_requested q)); try done.
      by intros y [Hy _]%elem_of_remove_que.
  - apply wp_bind. eapply wp_lbl_at; [done|]. apply wp_bind.
    rewrite (ok_state _ _ _ _ Hok) by done. apply wp_compat; [done|apply lock_state_level|].
    assert (Hokr : lock_ok (requests t) (Some r) l b) by (apply (lock_ok_none _ l b r q); try done; by destruct (decide (lrq_state q = 0))).
    destruct (compatible (lrq_requested q) (lock_state (lbl_counts b))) eqn:Ec.
    + apply (wp_grant_then l r rs q b t t); try done.
      * rewrite <- (upd_lbl_id l b t) by done. by apply (wf_leave_out t r q l b b).
      * by apply effect_similar.
      * intros t' Hwf' He' Hf'. apply Hnext; [done|by eapply effect_trans|by apply Hpre2|done].
    + eapply wp_mono; [apply (wp_neutral None); [done|by eapply wp_post_wakeup]|].
      intros _ t' [Hwf' Hs']. apply Hstop; try done.
      apply (not_compatible_blocked (requests t) (Some r) l b r (lrq_requested q)); try done.
      by intros y [Hy _]%elem_of_remove_que.
Qed.

(** Marking requests is neutral. *)
Lemma wp_flag_neutral r q flag t : requests t !! r = Some q ->
  has_flag flag LRQ_pending = false -> has_flag flag LRQ_blocking = false -> has_flag flag LRQ_repost = false ->
  has_flag flag LRQ_rejected = false ->
  wp (flag_lrq r flag) (fun _ t' => similar t t' /\ lhb_data t' = lhb_data t) t.
Proof.
  intros Hq Hp Hb Hr Hj. eapply wp_change_lrq; [done|]. split; [|done]. apply (similar_upd_lrq t r q); [done|].
  split; try done; unfold same_flag; cbn; rewrite has_with, ?Hp, ?Hb, ?Hr, ?Hj; by rewrite orb_false_r.
Qed.

Lemma wp_unflag_neutral r q flag t : requests t !! r = Some q ->
  Z.land flag LRQ_pending = 0 -> Z.land flag LRQ_blocking = 0 -> Z.land flag LRQ_repost = 0 -> Z.land flag LRQ_rejected = 0 ->
  wp (unflag_lrq r flag) (fun _ t' => similar t t' /\ lhb_data t' = lhb_data t) t.
Proof.
  intros Hq Hp Hb Hr Hj. eapply wp_change_lrq; [done|]. split; [|done]. apply (similar_upd_lrq t r q); [done|].
  split; try done; unfold same_flag; cbn; by apply has_without.
Qed.

Lemma similar_data_trans t t' t'' : similar t t' /\ lhb_data t' = lhb_data t -> similar t' t'' /\ lhb_data t'' = lhb_data t' ->
  similar t t'' /\ lhb_data t'' = lhb_data t.
Proof. intros [H1 H2] [H3 H4]. split; [by transitivity t'|congruence]. Qed.

Lemma wp_mark_just_granted rs t : (forall r, r ∈ rs -> is_Some (requests t !! r)) ->
  wp (mark_just_granted rs) (fun _ t' => similar t t' /\ lhb_data t' = lhb_data t) t.
Proof.
  revert t. induction rs as [|r rs IH]; intros t Hr; cbn [mark_just_granted]; [by apply wp_ret|].
  destruct (Hr r ltac:(set_solver)) as [q Hq]. apply wp_bind. eapply wp_lrq_at; [done|].
  destruct (has_flag (lrq_flags q) LRQ_pending); [by apply wp_ret|]. apply wp_bind.
  eapply wp_mono with (P := fun _ t' => similar t t' /\ lhb_data t' = lhb_data t).
  - case_match; [by eapply wp_flag_neutral|by apply wp_ret].
  - intros _ t' [Hs Hd]. eapply wp_mono; [apply IH|intros ? t''; by apply (similar_data_trans t t')].
    intros y Hy. destruct (Hr y ltac:(set_solver)) as [qy Hqy]. destruct (similar_lrq t t' y qy Hs Hqy) as (q' & Hq' & _). eauto.
Qed.

Lemma no_pending_count m l b x : lock_ok m x l b -> lbl_pending_lrq_count b = 0 ->
  forall y, y ∈ lbl_requests b -> flag_of LRQ_pending m y = false.
Proof.
  intros Hok H0 y Hy. destruct (flag_of LRQ_pending m y) eqn:E; [|done]. exfalso.
  rewrite (ok_pending _ _ _ _ Hok) in H0. revert H0. apply count_pos. eauto.
Qed.

Lemma wp_post_pending l b t : wf None t -> locks t !! l = Some b -> lock_live b ->
  wp (post_pending l) (fun _ t' => wf None t' /\ effect l t t' /\ no_lost (requests t') (lbl_requests b)) t.
Proof.
  intros Hwf Hb Hlive. destruct (wf_lock _ _ Hwf l b Hb Hlive) as [_ Hok].
  apply wp_bind. eapply wp_lbl_at; [done|]. case_decide as H0.
  - apply wp_ret. split_and!; [done|by apply effect_similar|]. apply no_lost_none. by apply (no_pending_count _ l b None).
  - apply wp_bind. eapply wp_mono.
    + apply (wp_grant_pending l t b Hb Hlive (lbl_requests b) []); [done..|by apply effect_similar|by intros y ?%elem_of_nil].
    + intros _ t' (Hwf' & Heff & Hno). destruct (effect_lock l t t' b Heff Hb Hlive) as (b' & Hb' & Hlive' & Hrq').
      apply wp_bind. eapply wp_lbl_at; [done|]. case_decide; [|by apply wp_ret].
      eapply wp_mono; [apply (wp_neutral None); [done|apply wp_mark_just_granted]|].
      * intros r Hr. destruct (queue_lock None t' l b' r Hwf' Hb' Hlive' Hr) as (q & [Hq _] & _). eauto.
      * intros _ t'' [Hwf'' Hs]. split_and!; [done|eapply effect_trans; [done|by apply effect_similar]|by apply (no_lost_similar t')].
Qed.
