(* ===== verification/LockRelease.v ===== *)
(** * [release_request]: a request leaves its lock and its owner *)

From S2P Require Import Prelude Outcome StateMonad LockTable LockOps LockInv LockFrame LockGrant LockPost.
From stdpp Require Import gmap.
#[local] Open Scope Z_scope.

(** ** The invariant of the lock *)

Lemma lock_state_ext counts counts' :
  (forall k, 1 <= k <= 6 -> counts' !!! Z.to_nat k <> 0 <-> counts !!! Z.to_nat k <> 0) -> lock_state counts' = lock_state counts.
Proof.
  intros H. pose proof (H 1 ltac:(lia)) as H1. pose proof (H 2 ltac:(lia)) as H2. pose proof (H 3 ltac:(lia)) as H3.
  pose proof (H 4 ltac:(lia)) as H4. pose proof (H 5 ltac:(lia)) as H5. pose proof (H 6 ltac:(lia)) as H6. clear H.
  change (Z.to_nat 1) with 1%nat in *. change (Z.to_nat 2) with 2%nat in *. change (Z.to_nat 3) with 3%nat in *.
  change (Z.to_nat 4) with 4%nat in *. change (Z.to_nat 5) with 5%nat in *. change (Z.to_nat 6) with 6%nat in *.
  unfold lock_state. rewrite (decide_ext _ _ _ _ H6), (decide_ext _ _ _ _ H5), (decide_ext _ _ _ _ H4), (decide_ext _ _ _ _ H3),
    (decide_ext _ _ _ _ H2), (decide_ext _ _ _ _ H1). done.
Qed.

Lemma remove_que_length y q : (length (remove_que y q) <= length q)%nat.
Proof. unfold remove_que. apply length_filter. Qed.

(** The counters without the request *)
Definition counts_without (counts : list Z) (k : Z) : list Z :=
  if decide (k <> 0) then <[Z.to_nat k := wrapU 16 (counts !!! Z.to_nat k - 1)]> counts else counts.

Lemma lock_ok_release m l b b' r q q' :
  lock_ok m None l b -> r ∈ lbl_requests b -> in_use m r q ->
  lbl_requests b' = remove_que r (lbl_requests b) -> lbl_series b' = lbl_series b ->
  lbl_counts b' = counts_without (lbl_counts b) (lrq_state q) -> lbl_state b' = lock_state (lbl_counts b') ->
  lbl_pending_lrq_count b' = lbl_pending_lrq_count b - Z.b2z (has_flag (lrq_flags q) LRQ_pending) ->
  lock_ok (<[r := q']> m) None l b'.
Proof.
  intros Hok Hr Hq Hrq Hse Hcounts Hst Hpc.
  assert (Hok' : lock_ok m (Some r) l (set_lbl_counts (counts_without (lbl_counts b) (lrq_state q)) b)).
  { unfold counts_without. case_decide as Hd; [by apply lock_ok_down|].
    assert (set_lbl_counts (lbl_counts b) b = b) as -> by (by destruct b).
    apply (lock_ok_none m l b r q); [done..|lia]. }
  pose proof (remove_que_length r (lbl_requests b)).
  split; rewrite ?Hrq, ?Hse, ?Hcounts; try apply Hok.
  - apply (ok_length _ _ _ _ Hok').
  - apply remove_que_NoDup, Hok.
  - pose proof (ok_small _ _ _ _ Hok). lia.
  - intros y [Hne Hy]%elem_of_remove_que. destruct (ok_request _ _ _ _ Hok y Hy) as (qy & Hqy & Hx).
    exists qy. split; [by apply in_use_insert_other|done].
  - intros k Hk. cbn [counted]. pose proof (ok_counts _ _ _ _ Hok' k Hk) as Hc. cbn in Hc. rewrite Hc.
    apply count_ext. intros y [Hne _]%elem_of_remove_que. by rewrite holds_insert, decide_False.
  - rewrite Hpc, (ok_pending _ _ _ _ Hok), (count_remove _ r) by (done || apply Hok).
    assert (flag_of LRQ_pending m r = has_flag (lrq_flags q) LRQ_pending) as ->.
    { unfold flag_of. destruct Hq as [-> _]. done. }
    rewrite Z.add_simpl_r. apply count_ext. intros y [Hne _]%elem_of_remove_que. by rewrite flag_of_insert, decide_False.
  - intros y y' [Hy Hyin]%elem_of_remove_que [Hy' Hyin']%elem_of_remove_que Hne.
    rewrite !state_of_insert, !decide_False by done. by apply (ok_compatible _ _ _ _ Hok).
  - rewrite <- Hcounts. done.
Qed.

(** ** The invariant of the table *)

Section Release.
Context (t s : table) (r l o : Z) (q q' : lrq) (b b' : lbl) (w w' : own).
Hypothesis Hwf : wf None t.
Hypothesis Hq : in_use (requests t) r q.
Hypothesis Hqd : queued q.
Hypothesis Hl : lrq_lock q = l.
Hypothesis Ho : lrq_owner q = o.
Hypothesis Hb : locks t !! l = Some b.
Hypothesis Hlive : lock_live b.
Hypothesis Hw : owners t !! o = Some w.
Hypothesis Er : requests s = <[r := q']> (requests t).
Hypothesis El : locks s = <[l := b']> (locks t).
Hypothesis Eo : owners s = <[o := w']> (owners t).
Hypothesis Ht' : lrq_type q' = type_null.
Hypothesis Hw1 : own_requests w' = remove_que r (own_requests w).
Hypothesis Hw2 : own_pending w' = remove_que r (own_pending w).
Hypothesis Hw3 : own_blocks w' = remove_que r (own_blocks w).
Hypothesis Hfree : lhb_free_requests s = lhb_free_requests t ++ [r].
Hypothesis Hused : room s = room t.
Hypothesis Hdata : data_ok s.
Hypothesis Hlist : lhb_owners s = lhb_owners t.
(** The lock stays with its other requests, or it is freed. *)
Hypothesis Hlock :
  (lock_live b' /\ lbl_requests b' = remove_que r (lbl_requests b) /\ lbl_requests b' <> [] /\
   lock_ok (requests s) None l b' /\ lhb_hash s = lhb_hash t /\ lhb_free_locks s = lhb_free_locks t) \/
  (lbl_type b' = type_null /\ remove_que r (lbl_requests b) = [] /\
   lhb_hash s = map (remove_que l) (lhb_hash t) /\ lhb_free_locks s = lhb_free_locks t ++ [l]).

Lemma in_use_released y qy : in_use (requests s) y qy -> y <> r /\ in_use (requests t) y qy.
Proof using Er Ht'.
  intros [Hy Hty]. rewrite Er in Hy. destruct (decide (y = r)) as [->|Hne].
  - rewrite lookup_insert_eq in Hy. injection Hy as <-. by rewrite Ht' in Hty.
  - rewrite lookup_insert_ne in Hy by done. done.
Qed.

Lemma in_use_kept y qy : y <> r -> in_use (requests t) y qy -> in_use (requests s) y qy.
Proof using Er. intros Hne Hy. rewrite Er. by apply in_use_insert_other. Qed.

(** A lock other than [l] has other requests. *)
Lemma other_queue l2 b2 y : l2 <> l -> locks t !! l2 = Some b2 -> lock_live b2 -> y ∈ lbl_requests b2 -> y <> r.
Proof using Hwf Hq Hl.
  intros Hne Hb2 Hlive2 Hy ->. destruct (queue_lock None t l2 b2 r Hwf Hb2 Hlive2 Hy) as (qq & [Hqq _] & Hlq & _).
  destruct Hq as [Hqr _]. congruence.
Qed.

Lemma wf_release : wf None s.
Proof using All.
  destruct (ro_lock _ _ _ (wf_request _ _ Hwf r q Hq) Hqd) as (b0 & Hb0 & _ & Hrb). rewrite Hl, Hb in Hb0. injection Hb0 as <-.
  destruct Hq as [Hqr Hqt]. split.
  - intros l2 b2 Hb2 Hlive2. rewrite El in Hb2. destruct (decide (l2 = l)) as [->|Hne].
    + rewrite lookup_insert_eq in Hb2. injection Hb2 as <-. destruct Hlock as [(_ & _ & Hn & Hok & _)|(Htn & _)]; [done|].
      unfold lock_live in Hlive2. rewrite Htn in Hlive2. done.
    + rewrite lookup_insert_ne in Hb2 by done. destruct (wf_lock _ _ Hwf l2 b2 Hb2 Hlive2) as [Hn Hok]. split; [done|].
      apply (lock_ok_frame (requests t) _ None None); [|by right|done]. intros y qy Hy Hqy. exists qy.
      rewrite Er, lookup_insert_ne; [split; [done|apply core_refl]|]. intros <-. by apply (other_queue l2 b2 r).
  - intros y qy Hqy. destruct (in_use_released y qy Hqy) as [Hne Hqy'].
    destruct (wf_request _ _ Hwf y qy Hqy') as [(o2 & Ho2 & H1 & H2 & H3) H4 H5]. split; [| |done].
    + rewrite Eo. destruct (decide (lrq_owner qy = o)) as [Heq|Hneo].
      * rewrite Heq, Hw in Ho2. injection Ho2 as <-. exists w'. rewrite Heq, lookup_insert_eq, Hw1, Hw2, Hw3.
        rewrite !elem_of_remove_que. split_and!; auto.
      * exists o2. rewrite lookup_insert_ne by done. auto.
    + intros Hqdy. destruct (H4 Hqdy) as (b2 & Hb2 & Hlive2 & Hin2). rewrite El.
      destruct (decide (lrq_lock qy = l)) as [Heq|Hnel].
      * rewrite Heq, Hb in Hb2. injection Hb2 as <-. exists b'. rewrite Heq, lookup_insert_eq.
        destruct Hlock as [(Hlv & Hrq & _)|(_ & Hnil & _)].
        -- rewrite Hrq, elem_of_remove_que. done.
        -- exfalso. assert (Hin : y ∈ remove_que r (lbl_requests b)) by (by apply elem_of_remove_que).
           rewrite Hnil in Hin. by apply elem_of_nil in Hin.
      * exists b2. by rewrite lookup_insert_ne.
  - intros o2 w2 Hw2'. rewrite Eo in Hw2'. destruct (decide (o2 = o)) as [->|Hne].
    + rewrite lookup_insert_eq in Hw2'. injection Hw2' as <-. destruct (wf_own _ _ Hwf o w Hw) as [H1 H2 H3].
      split; intros y Hy; [rewrite Hw1 in Hy|rewrite Hw2 in Hy|rewrite Hw3 in Hy]; apply elem_of_remove_que in Hy as [Hne Hy];
        [destruct (H1 y Hy) as (qy & Hqy & Hx)|destruct (H2 y Hy) as (qy & Hqy & Hx)|destruct (H3 y Hy) as (qy & Hqy & Hx)];
        exists qy; (split; [by apply in_use_kept|done]).
    + rewrite lookup_insert_ne in Hw2' by done. destruct (wf_own _ _ Hwf o2 w2 Hw2') as [H1 H2 H3].
      assert (Hnr : forall y qy, in_use (requests t) y qy -> lrq_owner qy = o2 -> y <> r).
      { intros y qy [Hy _] Hoy ->. congruence. }
      split; intros y Hy; [destruct (H1 y Hy) as (qy & Hqy & Hoy & Hz)|destruct (H2 y Hy) as (qy & Hqy & Hoy & Hz)
        |destruct (H3 y Hy) as (qy & Hqy & Hoy & Hz)]; exists qy; (split; [apply in_use_kept; eauto|done]).
  - rewrite Hfree, Er. destruct (wf_free _ _ Hwf) as [Hnd Hf].
    assert (Hnotin : r ∉ lhb_free_requests t).
    { intros Hin. destruct (Hf r Hin) as (qq & Hqq & Htq). rewrite Hqr in Hqq. injection Hqq as <-. by rewrite Hqt in Htq. }
    split.
    + apply NoDup_app. split_and!; [done| |apply NoDup_singleton]. intros y Hy ->%list_elem_of_singleton. done.
    + intros y [Hy| ->%list_elem_of_singleton]%elem_of_app; [|exists q'; by rewrite lookup_insert_eq].
      destruct (Hf y Hy) as (qq & Hqq & Htq). exists qq. rewrite lookup_insert_ne; [done|]. by intros <-.
  - rewrite El. intros y Hy.
    assert (Hy' : (y ∈ lhb_free_locks t) \/ (y = l /\ lbl_type b' = type_null)).
    { destruct Hlock as [(_ & _ & _ & _ & _ & Hfl)|(Htn & _ & _ & Hfl)]; rewrite Hfl in Hy; [by left|].
      apply elem_of_app in Hy as [Hy| ->%list_elem_of_singleton]; auto. }
    destruct Hy' as [Hin|[-> Htn]]; [|exists b'; by rewrite lookup_insert_eq].
    destruct (wf_free_locks _ _ Hwf y Hin) as (by' & Hby & Hty). exists by'. rewrite lookup_insert_ne; [done|]. intros <-.
    rewrite Hb in Hby. injection Hby as <-. unfold lock_live in Hlive. by rewrite Hlive in Hty.
  - destruct (wf_used _ _ Hwf) as (H1 & H3 & H4). destruct (room_ok_same _ _ Hused H1) as [H1' ->]. rewrite Er, El.
    split; [done|]. split; intros y z Hy.
    + destruct (decide (y = r)) as [->|Hne]; [by apply (H3 r q)|]. rewrite lookup_insert_ne in Hy by done. eauto.
    + destruct (decide (y = l)) as [->|Hne]; [by apply (H4 l b)|]. rewrite lookup_insert_ne in Hy by done. eauto.
  - destruct (wf_hash _ _ Hwf) as (H1 & H2 & H3). rewrite El. destruct Hlock as [(Hlv & _ & _ & _ & -> & _)|(Htn & _ & -> & _)].
    + split; [done|]. split; [done|]. intros chain y Hc Hy. destruct (H3 chain y Hc Hy) as (b2 & Hb2 & Hlive2).
      destruct (decide (y = l)) as [->|Hne]; [exists b'; by rewrite lookup_insert_eq|exists b2; by rewrite lookup_insert_ne].
    + split; [by destruct (lhb_hash t)|]. split; [by rewrite length_map|].
      intros chain y (c0 & -> & Hc0)%list_elem_of_fmap [Hne Hy]%elem_of_remove_que. destruct (H3 c0 y Hc0 Hy) as (b2 & Hb2 & Hlive2).
      exists b2. by rewrite lookup_insert_ne.
  - done.
  - intros y qy Hqy. rewrite Hlist. destruct (in_use_released y qy Hqy) as [_ Hy]. by apply (wf_listed _ _ Hwf y).
  - intros o2. rewrite Hlist, Eo. intros Ho2. destruct (decide (o2 = o)) as [->|Hne]; [rewrite lookup_insert_eq; eauto|].
    rewrite lookup_insert_ne by done. by apply (wf_owners _ _ Hwf).
Qed.

End Release.

(** ** [unlink_request] *)

Lemma remove_absent_own x t r q w : wf x t -> in_use (requests t) r q -> queued q -> owners t !! lrq_owner q = Some w ->
  (has_flag (lrq_flags q) LRQ_pending = false -> remove_que r (own_pending w) = own_pending w) /\
  (has_flag (lrq_flags q) LRQ_blocking = false -> remove_que r (own_blocks w) = own_blocks w).
Proof.
  intros Hwf Hq Hqd Hw. destruct (own_queues x t r q w Hwf Hq Hqd Hw) as [Hp Hb].
  split; intros Hf; apply remove_que_absent; [rewrite Hp|rewrite Hb]; by rewrite Hf.
Qed.

(** The table without the request in its queues *)
Record unlinked (r : Z) (q : lrq) (b : lbl) (w : own) (t s : table) (q' : lrq) (b' : lbl) (w' : own) : Prop := {
  ul_requests : requests s = <[r := q']> (requests t);
  ul_locks : locks s = <[lrq_lock q := b']> (locks t);
  ul_owners : owners s = <[lrq_owner q := w']> (owners t);
  ul_free : lhb_free_requests s = lhb_free_requests t ++ [r];
  ul_rest : lhb_owners s = lhb_owners t /\ lhb_hash s = lhb_hash t /\ lhb_free_locks s = lhb_free_locks t /\
    room s = room t /\ lhb_data s = lhb_data t;
  ul_type : lrq_type q' = type_null;
  ul_lbl : b' = set_lbl_pending_lrq_count (lbl_pending_lrq_count b - Z.b2z (has_flag (lrq_flags q) LRQ_pending))
    (set_lbl_requests (remove_que r (lbl_requests b)) b);
  ul_own1 : own_requests w' = remove_que r (own_requests w);
  ul_own2 : own_pending w' = remove_que r (own_pending w);
  ul_own3 : own_blocks w' = remove_que r (own_blocks w);
  ul_count : own_count w' = own_count w
}.

Ltac unlinked_table :=
  eexists _, _, _; split; cbn; rewrite ?insert_insert_eq; try done;
  repeat match goal with H : has_flag _ _ = _ |- _ => rewrite H in * end; cbn [Z.b2z];
  repeat match goal with H : ?a = ?a -> _ |- _ => specialize (H eq_refl) end; try congruence;
  rewrite ?Z.sub_0_r; try congruence; by repeat match goal with b : lbl |- _ => destruct b end.

Lemma wp_unlink_request r q b w t :
  wf None t -> in_use (requests t) r q -> queued q -> locks t !! lrq_lock q = Some b -> owners t !! lrq_owner q = Some w ->
  wp (unlink_request r q) (fun _ s => exists q' b' w', unlinked r q b w t s q' b' w') t.
Proof.
  intros Hwf Hq Hqd Hb Hw. destruct (remove_absent_own None t r q w Hwf Hq Hqd Hw) as [Hap Hab].
  destruct (ro_lock _ _ _ (wf_request _ _ Hwf r q Hq) Hqd) as (b0 & Hb0 & Hlive & Hrb). rewrite Hb in Hb0. injection Hb0 as <-.
  destruct (wf_lock _ _ Hwf _ b Hb Hlive) as [_ Hok]. destruct Hq as [Hqr Hqt].
  assert (Hpc : has_flag (lrq_flags q) LRQ_pending = true ->
    wrapU 16 (lbl_pending_lrq_count b + -1) = lbl_pending_lrq_count b - 1).
  { intros Hp. rewrite wrap16_small; [lia|]. rewrite (ok_pending _ _ _ _ Hok).
    pose proof (count_range (flag_of LRQ_pending (requests t)) (lbl_requests b)). pose proof (ok_small _ _ _ _ Hok).
    assert (count (flag_of LRQ_pending (requests t)) (lbl_requests b) <> 0); [|lia]. apply count_pos. exists r.
    split; [done|]. unfold flag_of. by rewrite Hqr. }
  unfold unlink_request. apply wp_bind. eapply wp_change_lbl; [done|]. apply wp_bind. eapply wp_change_own; [done|].
  apply wp_bind. apply wp_bind. eapply wp_change_lrq; [done|]. apply wp_modify. apply wp_bind.
  destruct (has_flag (lrq_flags q) LRQ_blocking) eqn:Eb.
  - apply wp_bind. eapply wp_change_own; [by lookups|]. eapply wp_change_lrq; [by lookups|]. apply wp_bind.
    destruct (has_flag (lrq_flags q) LRQ_pending) eqn:Ep.
    + eapply wp_mono; [eapply wp_remove_pending; by lookups|]. intros _ s ->. eapply wp_change_lrq; [by lookups|]. unlinked_table.
    + apply wp_ret. eapply wp_change_lrq; [by lookups|]. unlinked_table.
  - apply wp_ret, wp_bind. destruct (has_flag (lrq_flags q) LRQ_pending) eqn:Ep.
    + eapply wp_mono; [eapply wp_remove_pending; by lookups|]. intros _ s ->. eapply wp_change_lrq; [by lookups|]. unlinked_table.
    + apply wp_ret. eapply wp_change_lrq; [by lookups|]. unlinked_table.
Qed.

(** ** [release_request] *)

Record released (r : Z) (q : lrq) (t t' : table) : Prop := {
  rl_self : exists q', requests t' !! r = Some q' /\ lrq_type q' = type_null;
  rl_lrq : forall y, y <> r -> on_option (moved (lrq_lock q)) (requests t !! y) (requests t' !! y);
  rl_lbl : forall l, l <> lrq_lock q -> on_option same_lbl (locks t !! l) (locks t' !! l);
  rl_lock : exists b b', locks t !! lrq_lock q = Some b /\ locks t' !! lrq_lock q = Some b' /\
    (lock_live b' -> lbl_requests b' = remove_que r (lbl_requests b) /\ no_lost (requests t') (lbl_requests b'));
  rl_own : forall o, on_option (fun w w' => own_requests w' = remove_que r (own_requests w) /\ own_count w' = own_count w)
    (owners t !! o) (owners t' !! o);
  rl_owners : lhb_owners t' = lhb_owners t
}.

(** An owner has its own requests only. *)
Lemma other_owner x t r q o w : wf x t -> in_use (requests t) r q -> owners t !! o = Some w -> o <> lrq_owner q ->
  r ∉ own_requests w.
Proof.
  intros Hwf [Hq _] Hw Hne Hr. destruct (wf_own _ _ Hwf o w Hw) as [H _ _]. destruct (H r Hr) as (qq & [Hqq _] & Ho & _). congruence.
Qed.

(** From the table without the request, through changes that grant others *)
Lemma released_effect r q b w t s q' b' w' b1 s1 t' :
  wf None t -> in_use (requests t) r q -> locks t !! lrq_lock q = Some b -> owners t !! lrq_owner q = Some w ->
  unlinked r q b w t s q' b' w' ->
  requests s1 = requests s -> owners s1 = owners s -> lhb_owners s1 = lhb_owners s -> locks s1 = <[lrq_lock q := b1]> (locks t) ->
  effect (lrq_lock q) s1 t' ->
  (lock_live b1 -> lbl_requests b1 = remove_que r (lbl_requests b) /\ no_lost (requests t') (lbl_requests b1)) ->
  released r q t t'.
Proof.
  intros Hwf Hq Hb Hw [U1 U2 U3 U4 U5 U6 U7 U8 _ _ U9] E1 E3 E4 E2 [F1 F2 F3 F4] Hlost. split.
  - specialize (F1 r). rewrite E1, U1, lookup_insert_eq in F1. destruct (requests t' !! r) as [q''|]; [|done].
    exists q''. split; [done|]. destruct (moved_kept _ _ _ F1). congruence.
  - intros y Hy. specialize (F1 y). rewrite E1, U1, lookup_insert_ne in F1 by done. done.
  - intros l Hl. specialize (F2 l). rewrite E2, lookup_insert_ne in F2 by done.
    destruct (locks t !! l), (locks t' !! l); try done. cbn in *. by apply F2.
  - exists b. specialize (F2 (lrq_lock q)). rewrite E2, lookup_insert_eq in F2. destruct (locks t' !! lrq_lock q) as [b2|]; [|done].
    exists b2. split; [done|]. split; [done|]. cbn in F2. destruct F2 as (H1 & H2 & _). unfold lock_live in *. rewrite H1, H2. done.
  - intros o. specialize (F3 o). rewrite E3, U3 in F3. destruct (decide (o = lrq_owner q)) as [->|Hne].
    + rewrite lookup_insert_eq in F3. rewrite Hw. destruct (owners t' !! lrq_owner q); [|done]. cbn in *. destruct F3. split; congruence.
    + rewrite lookup_insert_ne in F3 by done. destruct (owners t !! o) as [wo|] eqn:Ewo; [|done].
      destruct (owners t' !! o); [|done]. cbn in *. rewrite remove_que_absent; [done|]. by eapply other_owner.
  - destruct F4. destruct U5. congruence.
Qed.

Section Released.
Context (t s : table) (r : Z) (q q' : lrq) (b b' : lbl) (w w' : own).
Hypothesis Hwf : wf None t.
Hypothesis Hq : in_use (requests t) r q.
Hypothesis Hqd : queued q.
Hypothesis Hb : locks t !! lrq_lock q = Some b.
Hypothesis Hlive : lock_live b.
Hypothesis Hw : owners t !! lrq_owner q = Some w.
Hypothesis Hul : unlinked r q b w t s q' b' w'.

(** The last request of the lock *)
Lemma wp_free_lock : remove_que r (lbl_requests b) = [] ->
  wp (free_lock (lrq_lock q)) (fun _ t' => wf None t' /\ released r q t t') s.
Proof using All.
  intros Hnil. pose proof Hul as [U1 U2 U3 U4 (U51 & U52 & U53 & U54 & U56) U6 U7 U8 U9 U10 U11].
  unfold free_lock. apply wp_bind, wp_modify, wp_bind.
  set (s1 := set_lhb_hash _ s).
  assert (Hd : data_ok s1).
  { destruct (wf_data _ _ Hwf) as [Hl Hd]. split; unfold s1; cbn; rewrite U56; [done|]. intros qq y Hqq Hy.
    destruct (Hd qq y Hqq Hy) as (by' & Hby & Hl'). rewrite U2. destruct (decide (y = lrq_lock q)) as [->|Hne].
    - exists b'. rewrite lookup_insert_eq. split; [done|]. rewrite U7. done.
    - exists by'. by rewrite lookup_insert_ne. }
  apply wp_modify, wp_bind. eapply (wp_change_lbl _ b'); [cbn; by rewrite U2, lookup_insert_eq|]. apply wp_modify.
  split.
  - eapply (wf_release t _ r (lrq_lock q) (lrq_owner q) q q' b (set_lbl_type type_null b') w w'); try done; cbn.
    + by rewrite U2, insert_insert_eq.
    + destruct Hd as [Hl Hd]. cbn in Hl. split; cbn; [by rewrite length_map|].
      intros qq y (q0 & -> & Hq0)%list_elem_of_fmap [Hne Hy]%elem_of_remove_que. destruct (Hd q0 y Hq0 Hy) as (by' & Hby & Hl').
      exists by'. rewrite lookup_insert_ne; [done|]. auto.
    + right. rewrite U52, U53. done.
  - match goal with |- released _ _ _ ?t' =>
      apply (released_effect r q b w t s q' b' w' (set_lbl_type type_null b') t' t'); try done end.
    + cbn. by rewrite U2, insert_insert_eq.
    + by apply effect_similar.
Qed.

(** The other requests of the lock *)
Lemma wp_release_post s1 b1 :
  requests s1 = requests s -> owners s1 = owners s -> lhb_owners s1 = lhb_owners s -> lhb_hash s1 = lhb_hash s ->
  lhb_free_requests s1 = lhb_free_requests s -> lhb_free_locks s1 = lhb_free_locks s ->
  room s1 = room s -> lhb_data s1 = lhb_data s ->
  locks s1 = <[lrq_lock q := b1]> (locks t) ->
  remove_que r (lbl_requests b) <> [] ->
  b1 = set_lbl_state (lock_state (counts_without (lbl_counts b) (lrq_state q)))
         (set_lbl_counts (counts_without (lbl_counts b) (lrq_state q)) b') ->
  wp (post_pending (lrq_lock q)) (fun _ t' => wf None t' /\ released r q t t') s1.
Proof using All.
  intros E1 E3 E4 E5 E6 E7 E8 E10 E2 Hnil Hb1.
  pose proof Hul as [U1 U2 U3 U4 (U51 & U52 & U53 & U54 & U56) U6 U7 U8 U9 U10 U11].
  destruct (ro_lock _ _ _ (wf_request _ _ Hwf r q Hq) Hqd) as (b0 & Hb0 & _ & Hrb). rewrite Hb in Hb0. injection Hb0 as <-.
  destruct (wf_lock _ _ Hwf _ b Hb Hlive) as [_ Hok].
  assert (Hlive1 : lock_live b1) by (by rewrite Hb1, U7).
  assert (Hwf1 : wf None s1).
  { eapply (wf_release t s1 r (lrq_lock q) (lrq_owner q) q q' b b1 w w'); try done; try congruence.
    - destruct (wf_data _ _ Hwf) as [Hl Hd]. split; rewrite E10, U56; [done|]. intros qq y Hqq Hy.
      destruct (Hd qq y Hqq Hy) as (by' & Hby & Hl'). rewrite E2. destruct (decide (y = lrq_lock q)) as [->|Hne].
      + exists b1. by rewrite lookup_insert_eq.
      + exists by'. by rewrite lookup_insert_ne.
    - left. split; [done|]. split; [by rewrite Hb1, U7|]. split; [by rewrite Hb1, U7|]. split; [|split; congruence].
      rewrite E1, U1. apply (lock_ok_release (requests t) _ b b1 r q q'); try done; rewrite Hb1, U7; done. }
  eapply wp_mono; [apply (wp_post_pending (lrq_lock q) b1); [done|by rewrite E2, lookup_insert_eq|done]|].
  intros _ t' (Hwf' & Heff & Hno). split; [done|].
  eapply (released_effect r q b w t s q' b' w' b1 s1); try done. intros _. split; [by rewrite Hb1, U7|done].
Qed.

End Released.

Lemma counts_without_total (counts : list Z) k j : length counts = 7%nat -> level k -> level j -> k <> 0 ->
  counts_without counts k !!! Z.to_nat j = if decide (j = k) then wrapU 16 (counts !!! Z.to_nat k - 1) else counts !!! Z.to_nat j.
Proof.
  intros Hl Hk Hj Hne. unfold counts_without, level in *. rewrite decide_True by done.
  rewrite lookup_total_insert_counts by (done || lia). done.
Qed.

Lemma wp_release_request r q t : wf None t -> in_use (requests t) r q -> queued q ->
  wp (release_request r) (fun _ t' => wf None t' /\ released r q t t') t.
Proof.
  intros Hwf Hq Hqd. destruct (ro_lock _ _ _ (wf_request _ _ Hwf r q Hq) Hqd) as (b & Hb & Hlive & Hrb).
  destruct (ro_owner _ _ _ (wf_request _ _ Hwf r q Hq)) as (w & Hw & _).
  destruct (wf_lock _ _ Hwf _ b Hb Hlive) as [_ Hok].
  destruct (ok_request _ _ _ _ Hok r Hrb) as (q0 & Hq0 & _ & _ & Hlev & _).
  assert (q0 = q) as -> by (destruct Hq as [Hq1 _], Hq0 as [Hq2 _]; congruence). clear Hq0.
  apply wp_bind. eapply wp_lrq_at; [apply Hq|]. apply wp_bind.
  eapply wp_mono; [by apply (wp_unlink_request r q b w)|]. intros _ s (q' & b' & w' & Hul).
  pose proof Hul as [U1 U2 U3 U4 U5 U6 U7 U8 U9 U10 U11].
  assert (Hb' : locks s !! lrq_lock q = Some b') by (by rewrite U2, lookup_insert_eq).
  apply wp_bind. eapply wp_lbl_at; [done|].
  assert (Hrq : lbl_requests b' = remove_que r (lbl_requests b)) by (by rewrite U7).
  assert (Hct : lbl_counts b' = lbl_counts b) by (by rewrite U7).
  assert (Hst : lbl_state b' = lock_state (lbl_counts b)) by (rewrite U7; cbn; by apply (ok_state _ _ _ _ Hok)).
  pose proof (ok_length _ _ _ _ Hok) as Hlen.
  rewrite Hrq. case_decide as Hnil; [by apply (wp_free_lock t s r q q' b b' w w')|]. apply wp_bind.
  assert (Hpost : forall b1, b1 = set_lbl_state (lock_state (counts_without (lbl_counts b) (lrq_state q)))
      (set_lbl_counts (counts_without (lbl_counts b) (lrq_state q)) b') ->
    wp (post_pending (lrq_lock q)) (fun _ t' => wf None t' /\ released r q t t') (upd_lbl (lrq_lock q) b1 s)).
  { intros b1 Hb1. apply (wp_release_post t s r q q' b b' w w' Hwf Hq Hqd Hb Hlive Hw Hul _ b1); try done.
    cbn. by rewrite U2, insert_insert_eq. }
  case_decide as Hs.
  - apply wp_bind. eapply (wp_count_down _ b'); [done|by rewrite Hct|done|]. set (b2 := set_lbl_counts _ b').
    apply wp_bind. eapply wp_lbl_at; [by lookups|]. apply wp_bind.
    assert (Hb2 : b2 = set_lbl_counts (counts_without (lbl_counts b) (lrq_state q)) b').
    { unfold b2, counts_without. by rewrite Hct, decide_True. }
    assert (Hn : lbl_counts b2 @ lrq_state q = Some (lbl_counts b2 !!! Z.to_nat (lrq_state q))).
    { assert (Hl2 : length (lbl_counts b2) = 7%nat) by (unfold b2; cbn; by rewrite length_insert, Hct).
      destruct (aget_is_Some (lbl_counts b2) (lrq_state q)) as [_ [n Hn]]; [unfold level in Hlev; lia|].
      - rewrite Hn. apply aget_Some in Hn as [_ Hn]. f_equal. symmetry. by apply list_lookup_total_correct. }
    eapply wp_access; [exact Hn|]. apply wp_ret. case_bool_decide as H0; apply wp_bind.
    + eapply wp_change_lbl; [by lookups|]. unfold upd_lbl at 1. cbn [locks set_locks upd_lbl].
      rewrite insert_insert_eq. apply Hpost. by rewrite Hb2.
    + apply wp_ret. apply Hpost. rewrite Hb2.
      assert (Hsame : lock_state (counts_without (lbl_counts b) (lrq_state q)) = lbl_state b').
      { rewrite Hst. apply lock_state_ext. intros k Hk. rewrite counts_without_total; [|done|done|unfold level; clear -Hk; lia|done].
        case_decide as Hd; [|done]. subst k. split; intros _.
        - pose proof (ok_counts _ _ _ _ Hok (lrq_state q) Hk) as Hc. cbn [counted] in Hc. rewrite Hc. apply count_pos.
          exists r. split; [done|]. rewrite (holds_at _ r q) by apply Hq. by apply bool_decide_true.
        - rewrite Hb2 in H0. cbn [lbl_counts set_lbl_counts] in H0. rewrite counts_without_total, decide_True in H0 by done. done. }
      rewrite Hsame. by destruct b'.
  - apply wp_ret, wp_bind, wp_ret. rewrite <- (upd_lbl_id (lrq_lock q) b' s) by done. apply Hpost.
    unfold counts_without. rewrite !decide_False by (rewrite Hs; by intros []). rewrite <- Hst, <- Hct. by destruct b'.
Qed.
