(* ===== verification/LockSys.v ===== *)
(** * The lock manager and those who wait

    A thread that waits for a request has called [enqueue] or [convert] and goes on when the
    wait has ended. The invariant ties what waits in the table to these threads. *)

From S2P Require Import Prelude Outcome StateMonad LockTable LockOps LockInv LockFrame LockGrant LockPost LockRelease.
From stdpp Require Import gmap.
#[local] Open Scope Z_scope.

Inductive wait := WEnqueue | WConvert (ast_routine ast_argument : Z).

(** A request that was rejected, and its thread has not noticed yet: it will see to the others. *)
Definition rejected_in (W : gmap Z wait) (m : gmap Z lrq) (rs : list Z) : Prop :=
  exists r, r ∈ rs /\ is_Some (W !! r) /\ flag_of LRQ_rejected m r = true.

(** [x]: a request that has not got what it asks for yet *)
Record request_in (x : option Z) (W : gmap Z wait) (r : Z) (q : lrq) : Prop := {
  ri_requested : 1 <= lrq_requested q <= 6;
  ri_pending : has_flag (lrq_flags q) LRQ_pending = true ->
    is_Some (W !! r) /\ has_flag (lrq_flags q) LRQ_rejected = false;
  ri_settled : x <> Some r -> has_flag (lrq_flags q) LRQ_pending = false ->
    (is_Some (W !! r) -> has_flag (lrq_flags q) LRQ_rejected = false) -> lrq_state q = lrq_requested q;
  ri_convert : forall ast_routine ast_argument, W !! r = Some (WConvert ast_routine ast_argument) -> 1 <= lrq_state q
}.

(** [z]: a lock whose requests have not been looked at yet *)
Record sys (x z : option Z) (W : gmap Z wait) (t : table) : Prop := {
  sy_wf : wf None t;
  sy_request : forall r q, in_use (requests t) r q -> queued q -> request_in x W r q;
  sy_wait : forall r, is_Some (W !! r) -> exists q, in_use (requests t) r q /\ queued q;
  sy_lost : forall l b, z <> Some l -> locks t !! l = Some b -> lock_live b ->
    no_lost (requests t) (lbl_requests b) \/ rejected_in W (requests t) (lbl_requests b)
}.

(** ** Requests that keep what they are *)

Lemma core_sym q q' : core_lrq q q' -> core_lrq q' q.
Proof. intros [[] ? ?]. split; [split|..]; unfold same_flag in *; congruence. Qed.

Lemma request_core x W r q q' : core_lrq q q' -> request_in x W r q -> request_in x W r q'.
Proof.
  intros [[K1 K2 K3 K4 K5 K6] Hs Hp] [R1 R2 R3 R4]. unfold same_flag in *.
  split; rewrite ?K2, ?Hs, ?Hp, ?K6; done.
Qed.

Lemma request_moved x W l r q q' : moved l q q' -> request_in x W r q -> request_in x W r q'.
Proof.
  intros [Hc|(_ & Hp & [[K1 K2 K3 K4 K5 K6] Hs Hf])] Hr; [by eapply request_core|].
  destruct Hr as [R1 R2 R3 R4]. unfold same_flag in *. split; rewrite ?K2, ?Hs, ?Hf, ?K6; try done. intros; lia.
Qed.

Lemma kept_in_use q q' : kept q q' -> lrq_type q = type_lrq /\ queued q <-> lrq_type q' = type_lrq /\ queued q'.
Proof. intros []. unfold queued, same_flag in *. split; intros [? ?]; split; congruence. Qed.

Lemma back_kept {R : lrq -> lrq -> Prop} m m' y q' : (forall a a', R a a' -> kept a a') -> on_option R (m !! y) (m' !! y) ->
  in_use m' y q' -> queued q' -> exists q, in_use m y q /\ queued q /\ R q q'.
Proof.
  intros HR Ho [Hq' Ht'] Hqd'. rewrite Hq' in Ho. destruct (m !! y) as [q|] eqn:E; [|done]. cbn in Ho.
  exists q. pose proof (proj2 (kept_in_use q q' (HR _ _ Ho)) (conj Ht' Hqd')) as [? ?]. by repeat split.
Qed.

Lemma forth_kept {R : lrq -> lrq -> Prop} m m' y q : (forall a a', R a a' -> kept a a') -> on_option R (m !! y) (m' !! y) ->
  in_use m y q -> queued q -> exists q', in_use m' y q' /\ queued q' /\ R q q'.
Proof.
  intros HR Ho [Hq Ht] Hqd. rewrite Hq in Ho. destruct (m' !! y) as [q'|] eqn:E; [|done]. cbn in Ho.
  exists q'. pose proof (proj1 (kept_in_use q q' (HR _ _ Ho)) (conj Ht Hqd)) as [? ?]. by repeat split.
Qed.

Lemma of_core m m' y : on_option core_lrq (m !! y) (m' !! y) ->
  state_of m' y = state_of m y /\ requested_of m' y = requested_of m y /\
  flag_of LRQ_pending m' y = flag_of LRQ_pending m y /\ flag_of LRQ_rejected m' y = flag_of LRQ_rejected m y.
Proof.
  unfold state_of, requested_of, flag_of. destruct (m !! y), (m' !! y); try done. cbn. by intros [[] ? ?].
Qed.

Lemma of_kept m m' y : on_option kept (m !! y) (m' !! y) -> flag_of LRQ_rejected m' y = flag_of LRQ_rejected m y.
Proof. unfold flag_of. destruct (m !! y), (m' !! y); try done. cbn. by intros []. Qed.

Lemma no_lost_core m m' rs : (forall y, y ∈ rs -> on_option core_lrq (m !! y) (m' !! y)) -> no_lost m rs -> no_lost m' rs.
Proof. intros H. apply no_lost_ext. intros y Hy. by destruct (of_core m m' y (H y Hy)) as (? & ? & ? & _). Qed.

Lemma rejected_in_kept W W' m m' rs :
  (forall y, y ∈ rs -> is_Some (W !! y) -> is_Some (W' !! y) /\ on_option kept (m !! y) (m' !! y)) ->
  rejected_in W m rs -> rejected_in W' m' rs.
Proof. intros H (r & Hr & Hw & Hj). exists r. destruct (H r Hr Hw) as [? ?]. by rewrite (of_kept m m'). Qed.

(** The requests of a lock are for it. *)
Lemma lock_of x t l b r : wf x t -> locks t !! l = Some b -> lock_live b -> r ∈ lbl_requests b ->
  exists q, requests t !! r = Some q /\ lrq_lock q = l.
Proof. intros Hwf Hb Hl Hr. destruct (queue_lock x t l b r Hwf Hb Hl Hr) as (q & [Hq _] & Hlq & _). eauto. Qed.

(** ** Operations that grant, tell owners, or release a request *)

Lemma sys_effect x z z' W l t t' : sys x z W t -> wf None t' -> effect l t t' ->
  (forall l', l' <> l -> z' <> Some l' -> z <> Some l') ->
  (forall b', z' <> Some l -> locks t' !! l = Some b' -> lock_live b' ->
     no_lost (requests t') (lbl_requests b') \/ rejected_in W (requests t') (lbl_requests b')) ->
  sys x z' W t'.
Proof.
  intros [S1 S2 S3 S4] Hwf [E1 E2 E3 E4] Hz Hl. split; [done|..].
  - intros y q' Hq' Hqd'. destruct (back_kept _ _ y q' (moved_kept l) (E1 y) Hq' Hqd') as (q & Hq & Hqd & Hm).
    eapply request_moved; [done|by apply S2].
  - intros y Hy. destruct (S3 y Hy) as (q & Hq & Hqd).
    destruct (forth_kept _ _ y q (moved_kept l) (E1 y) Hq Hqd) as (q' & Hq' & Hqd' & _). eauto.
  - intros l' b' Hzl Hb' Hlive'. destruct (decide (l' = l)) as [->|Hne]; [by apply Hl|].
    specialize (E2 l'). rewrite Hb' in E2. destruct (locks t !! l') as [b|] eqn:Eb; [|done]. cbn in E2.
    destruct E2 as (Ht & Hr & _). rewrite Hr. assert (Hlive : lock_live b) by (unfold lock_live in *; congruence).
    assert (Hcore : forall y, y ∈ lbl_requests b -> on_option core_lrq (requests t !! y) (requests t' !! y)).
    { intros y Hy. destruct (lock_of None t l' b y S1 Eb Hlive Hy) as (q & Hq & Hlq). specialize (E1 y). rewrite Hq in *.
      destruct (requests t' !! y); [|done]. cbn in *. apply (moved_core _ _ _ E1). left. congruence. }
    destruct (S4 l' b (Hz _ Hne Hzl) Eb Hlive) as [Hn|Hj]; [left; by eapply no_lost_core|right].
    eapply rejected_in_kept; [|exact Hj]. intros y Hy Hw. split; [done|].
    eapply on_option_mono; [|by apply Hcore]. by intros ? ? [].
Qed.

Lemma sys_calm x z W t t' : sys x z W t -> wf None t' -> calm t t' -> sys x z W t'.
Proof.
  intros Hsys Hwf Hc. eapply (sys_effect x z z W 0); [done|done|by apply calm_effect|done|].
  intros b' _ Hb' _. exfalso. destruct (wf_used _ _ Hwf) as (_ & _ & H). specialize (H 0 b' Hb'). lia.
Qed.

Lemma sys_similar x z W t t' : sys x z W t -> similar t t' /\ lhb_data t' = lhb_data t -> sys x z W t'.
Proof.
  intros Hsys [Hs Hd]. apply (sys_calm x z W t); [done| |by apply calm_similar].
  apply (wf_similar None t); [done| |apply Hsys]. apply (data_ok_similar t); [done|done|apply (sy_wf _ _ _ _ Hsys)].
Qed.

Lemma sys_post_pending x z W l b t : sys x z W t -> z = None \/ z = Some l -> locks t !! l = Some b -> lock_live b ->
  wp (post_pending l) (fun _ t' => sys x None W t' /\ effect l t t' /\ no_lost (requests t') (lbl_requests b)) t.
Proof.
  intros Hsys Hz Hb Hlive. eapply wp_mono; [by apply (wp_post_pending l b); [apply Hsys|..]|].
  intros _ t' (Hwf & He & Hn). split; [|done]. apply (sys_effect x z None W l t); [done..| |].
  { intros l' Hne _. destruct Hz as [->| ->]; congruence. }
  intros b' _ Hb' _. left. destruct (effect_lock l t t' b He Hb Hlive) as (b2 & Hb2 & _ & Hr2).
  assert (b' = b2) as -> by congruence. by rewrite Hr2.
Qed.

Lemma sys_release x z W r q t : sys x z W t -> in_use (requests t) r q -> queued q -> x = None \/ x = Some r ->
  z = None \/ z = Some (lrq_lock q) ->
  wp (release_request r) (fun _ t' => sys None None (delete r W) t' /\ released r q t t') t.
Proof.
  intros [S1 S2 S3 S4] Hq Hqd Hx Hz. eapply wp_mono; [by apply wp_release_request|].
  intros _ t' [Hwf Hrl]. split; [|done]. destruct Hrl as [(q' & Hq' & Ht') R2 R3 (b & b' & Hb & Hb' & Hlk) R5 _].
  assert (Hdel : forall y, y <> r -> delete r W !! y = W !! y) by (intros; by rewrite lookup_delete_ne).
  split; [done|..].
  - intros y p' Hp' Hpd'. assert (Hne : y <> r).
    { intros ->. destruct Hp' as [Hp' Ht]. rewrite Hq' in Hp'. injection Hp' as <-. by rewrite Ht' in Ht. }
    destruct (back_kept _ _ y p' (moved_kept _) (R2 y Hne) Hp' Hpd') as (p & Hp & Hpd & Hm).
    eapply request_moved in Hm; [|by apply S2]. destruct Hm as [M1 M2 M3 M4]. split; rewrite ?Hdel by done; try done.
    intros _. apply M3. destruct Hx as [->| ->]; congruence.
  - intros y Hy. destruct (decide (y = r)) as [->|Hne]; [rewrite lookup_delete_eq in Hy; by destruct Hy|].
    rewrite Hdel in Hy by done. destruct (S3 y Hy) as (p & Hp & Hpd).
    destruct (forth_kept _ _ y p (moved_kept _) (R2 y Hne) Hp Hpd) as (p' & Hp' & Hpd' & _). eauto.
  - intros l2 b2' _ Hb2' Hlive2'. destruct (decide (l2 = lrq_lock q)) as [->|Hnel].
    + left. rewrite Hb' in Hb2'. injection Hb2' as <-. by apply Hlk.
    + specialize (R3 l2 Hnel). rewrite Hb2' in R3. destruct (locks t !! l2) as [b2|] eqn:Eb2; [|done]. cbn in R3.
      rewrite (sl_requests _ _ R3). assert (Hlive2 : lock_live b2) by (unfold lock_live in *; rewrite <- (sl_type _ _ R3); done).
      assert (Hcore : forall y, y ∈ lbl_requests b2 -> y <> r /\ on_option core_lrq (requests t !! y) (requests t' !! y)).
      { intros y Hy. destruct (lock_of None t l2 b2 y S1 Eb2 Hlive2 Hy) as (p & Hp & Hlp).
        assert (y <> r) as Hne by (intros ->; destruct Hq; congruence). split; [done|].
        specialize (R2 y Hne). rewrite Hp in *. destruct (requests t' !! y); [|done]. apply (moved_core _ _ _ R2). left. congruence. }
      destruct (S4 l2 b2 ltac:(destruct Hz as [->| ->]; congruence) Eb2 Hlive2) as [Hn|Hj]; [left; eapply no_lost_core; [|done]; intros y Hy; by apply Hcore|right].
      eapply rejected_in_kept; [|exact Hj]. intros y Hy Hw. destruct (Hcore y Hy) as [Hne Hc]. rewrite Hdel by done. split; [done|].
      eapply on_option_mono; [|done]. by intros ? ? [].
Qed.
