(* ===== verification/LockWait.v ===== *)
(** * Waiting: [wait_for_request] and its end *)

From S2P Require Import Prelude Outcome StateMonad LockTable LockOps LockInv LockFrame LockGrant LockPost LockRelease LockSys.
From stdpp Require Import gmap.
#[local] Open Scope Z_scope.

(** ** Flags that tell owners about requests *)

Lemma wf_flags t s r q q' w w' :
  wf None t -> in_use (requests t) r q -> queued q -> owners t !! lrq_owner q = Some w ->
  requests s = <[r := q']> (requests t) -> locks s = locks t -> owners s = <[lrq_owner q := w']> (owners t) ->
  rest_same t s -> lhb_data s = lhb_data t -> core_lrq q q' -> own_follows r q' w w' -> own_count w' = own_count w ->
  wf None s /\ calm t s.
Proof.
  intros Hwf Hq Hqd Hw E1 E2 E3 E4 E5 Hc Hf Hcnt. destruct (ro_lock _ _ _ (wf_request _ _ Hwf r q Hq) Hqd) as (b & Hb & Hlive & Hrb).
  pose proof Hq as [Hqr Hqt]. pose proof Hc as [[K1 K2 K3 K4 K5 K6] Ks Kp]. split.
  - eapply (wf_update None None t s r (lrq_lock q) (lrq_owner q) q q' b b w w'); try done; try congruence.
    + split; [done| |done..]. by rewrite E2, insert_id.
    + destruct (wf_data _ _ Hwf) as [H1 H2]. split; rewrite E5, ?E2; done.
    + intros y [?|?]; done.
    + rewrite E1. destruct (wf_lock _ _ Hwf _ b Hb Hlive) as [_ Hok]. apply (lock_ok_frame (requests t) _ None None); [|by right|done].
      intros y qy _ Hqy. destruct (decide (y = r)) as [->|Hne].
      * exists q'. rewrite lookup_insert_eq. split; [done|]. by assert (qy = q) as -> by congruence.
      * exists qy. rewrite lookup_insert_ne by done. split; [done|apply core_refl].
  - split; [..|done].
    + intros y. rewrite E1. destruct (decide (y = r)) as [->|Hne].
      * by rewrite Hqr, lookup_insert_eq.
      * rewrite lookup_insert_ne by done. destruct (requests t !! y); [apply core_refl|done].
    + intros y. rewrite E2. by destruct (locks t !! y).
    + intros y. rewrite E3. destruct (decide (y = lrq_owner q)) as [->|Hne].
      * rewrite Hw, lookup_insert_eq. split; [apply Hf|done].
      * rewrite lookup_insert_ne by done. by destruct (owners t !! y).
Qed.

Lemma calm_refl t : calm t t.
Proof. by apply calm_similar. Qed.

Lemma calm_lbl t t' l b : calm t t' -> locks t !! l = Some b -> exists b', locks t' !! l = Some b' /\ same_lbl b b'.
Proof. intros [_ H _ _] Hb. specialize (H l). rewrite Hb in H. destruct (locks t' !! l); [eauto|done]. Qed.

Lemma calm_lrq t t' r q : calm t t' -> in_use (requests t) r q -> queued q ->
  exists q', in_use (requests t') r q' /\ queued q' /\ core_lrq q q'.
Proof. intros [H _ _ _] Hq Hqd. apply (forth_kept (requests t)); [by intros ? ? []|apply H|done|done]. Qed.

Lemma own_blocks_insert t r q q' w : wf None t -> in_use (requests t) r q -> queued q -> owners t !! lrq_owner q = Some w ->
  same_flag LRQ_pending q q' -> has_flag (lrq_flags q') LRQ_blocking = true ->
  own_follows r q' w (set_own_blocks (insert_tail r (own_blocks w)) w).
Proof.
  intros Hwf Hq Hqd Hw Hp Hb. destruct (own_queues None t r q w Hwf Hq Hqd Hw) as [Hpi _].
  split; cbn; [done|..]; intros y.
  - unfold same_flag in Hp. rewrite Hp. destruct (decide (y = r)) as [->|Hne]; naive_solver.
  - rewrite elem_of_insert_tail. destruct (decide (y = r)) as [->|Hne]; naive_solver.
Qed.

Lemma wp_collect_blocking r q rs : level (lrq_requested q) ->
  forall t, wf None t ->
  (forall y, y ∈ rs -> exists qy, in_use (requests t) y qy /\ queued qy /\ level (lrq_state qy)) ->
  wp (collect_blocking r q rs) (fun os t' => wf None t' /\ calm t t' /\ forall o, o ∈ os -> is_Some (owners t !! o)) t.
Proof.
  intros Hlev. induction rs as [|x rs IH]; intros t Hwf Hrs; cbn [collect_blocking].
  { apply wp_ret. split; [done|]. split; [apply calm_refl|]. by intros o ?%elem_of_nil. }
  destruct (Hrs x ltac:(set_solver)) as (qx & Hqx & Hqdx & Hlx).
  destruct (ro_owner _ _ _ (wf_request _ _ Hwf x qx Hqx)) as (w & Hw & _).
  apply wp_bind. eapply wp_lrq_at; [apply Hqx|].
  assert (Hrs' : forall t', calm t t' -> forall y, y ∈ rs -> exists qy, in_use (requests t') y qy /\ queued qy /\ level (lrq_state qy)).
  { intros t' Hc y Hy. destruct (Hrs y ltac:(set_solver)) as (qy & Hqy & Hqdy & Hly).
    destruct (calm_lrq t t' y qy Hc Hqy Hqdy) as (q' & Hq' & Hqd' & [_ Hs _]). exists q'. rewrite Hs. done. }
  assert (Hown : forall t' o, calm t t' -> is_Some (owners t' !! o) -> is_Some (owners t !! o)).
  { intros t' o [_ _ H _] [o' Ho]. specialize (H o). rewrite Ho in H. by destruct (owners t !! o). }
  case_decide; [by apply IH; [|apply Hrs', calm_refl]|]. apply wp_bind, wp_compat; [done..|].
  case_match; [by apply IH; [|apply Hrs', calm_refl]|]. apply wp_bind.
  eapply wp_mono with (P := fun _ t' => wf None t' /\ calm t t').
  - destruct (has_flag (lrq_flags qx) LRQ_blocking) eqn:Eb; [apply wp_ret; split; [done|apply calm_refl]|].
    apply wp_bind. eapply wp_change_own; [done|]. apply wp_bind. eapply wp_change_lrq; [by lookups; apply Hqx|].
    eapply wp_change_lrq; [by lookups|].
    eapply (wf_flags t _ x qx (set_lrq_flags (without_flag (Z.lor LRQ_blocking_seen LRQ_just_granted)
      (with_flag LRQ_blocking (lrq_flags qx))) qx) w); try done; cbn; try (by rewrite insert_insert_eq); try done.
    + split; [split; try done|done|]; unfold same_flag; cbn; by flags.
    + apply (own_blocks_insert t x qx); try done; unfold same_flag; cbn; by flags.
  - intros _ t1 [Hwf1 Hc1]. apply wp_bind. destruct (decide (lrq_state qx = LCK_EX)).
    + apply wp_ret. cbn beta. apply wp_ret. split; [done|]. split; [done|]. intros o ->%list_elem_of_singleton. eauto.
    + eapply wp_mono; [apply (IH t1); [done|by apply Hrs']|]. intros os t2 (Hwf2 & Hc2 & Hos). apply wp_ret.
      split; [done|]. split; [by eapply calm_trans|]. intros o [->|Ho]%elem_of_cons; [eauto|]. eapply Hown; eauto.
Qed.

Lemma wp_signal_owners os t : (forall o, o ∈ os -> is_Some (owners t !! o)) ->
  wp (signal_owners os) (fun _ t' => similar t t' /\ lhb_data t' = lhb_data t) t.
Proof.
  revert t. induction os as [|o os IH]; intros t Hos; cbn [signal_owners]; [by apply wp_ret|].
  destruct (Hos o ltac:(set_solver)) as [w Hw]. apply wp_bind. eapply wp_own_at; [done|]. apply wp_bind.
  eapply wp_mono with (P := fun _ t' => similar t t' /\ lhb_data t' = lhb_data t).
  - case_match; [|by apply wp_ret]. eapply (wp_change_own o w); [done|]. split; [|done]. by apply (similar_upd_own t o w).
  - intros _ t' [Hs Hd]. eapply wp_mono; [apply IH|intros ? t''; by apply (similar_data_trans t t')].
    intros y Hy. destruct (Hos y ltac:(set_solver)) as [wy Hwy]. destruct (similar_own t t' y wy Hs Hwy) as (w' & Hw' & _). eauto.
Qed.

Lemma wp_post_blockage r q t : wf None t -> in_use (requests t) r q -> queued q ->
  wp (post_blockage r) (fun _ t' => wf None t' /\ calm t t') t.
Proof.
  intros Hwf Hq Hqd. destruct (ro_lock _ _ _ (wf_request _ _ Hwf r q Hq) Hqd) as (b & Hb & Hlive & Hrb).
  apply wp_bind. eapply wp_lrq_at; [apply Hq|]. apply wp_bind. eapply wp_lbl_at; [done|]. apply wp_bind.
  destruct (queue_lock None t _ b r Hwf Hb Hlive Hrb) as (q0 & [Hq0 _] & _ & _ & _ & Hlev).
  assert (q0 = q) as -> by (destruct Hq; congruence).
  eapply wp_mono; [apply wp_collect_blocking; [done|done|]|].
  - intros y Hy. destruct (queue_lock None t _ b y Hwf Hb Hlive Hy) as (qy & ? & _ & ? & ? & _). eauto.
  - intros os t1 (Hwf1 & Hc1 & Hos). eapply wp_mono; [apply (wp_neutral None); [done|apply wp_signal_owners]|].
    + intros o Ho. destruct Hc1 as [_ _ H _]. specialize (H o). destruct (Hos o Ho) as [w Hw]. rewrite Hw in H.
      destruct (owners t1 !! o); [eauto|done].
    + intros _ t2 [Hwf2 Hs2]. split; [done|]. eapply calm_trans; [done|by apply calm_similar].
Qed.

(** ** One request changes *)

Lemma head_filter {A} (P : A -> bool) rs z : head (filter (fun y => P y = true) rs) = Some z <->
  exists pre post, rs = pre ++ z :: post /\ P z = true /\ forall y, y ∈ pre -> P y = false.
Proof.
  induction rs as [|x rs IH].
  - split; [done|]. by intros ([|? ?] & ? & ? & _).
  - rewrite filter_cons. destruct (P x) eqn:E.
    + rewrite decide_True by done. cbn [head]. split.
      * intros [= ->]. exists [], rs. split_and!; [done..|]. by intros ? ?%elem_of_nil.
      * intros ([|y pre] & post & [= -> Hr] & Hz & Hpre); [done|]. rewrite Hpre in E; [done|apply list_elem_of_here].
    + rewrite decide_False by done. rewrite IH. split.
      * intros (pre & post & -> & Hz & Hpre). exists (x :: pre), post. split_and!; [done..|].
        intros y [->|Hy]%elem_of_cons; auto.
      * intros ([|y pre] & post & [= -> Hr] & Hz & Hpre); [congruence|]. exists pre, post. split_and!; [done..|].
        intros y' Hy'. apply Hpre. by apply list_elem_of_further.
Qed.

Lemma no_lost_head m rs :
  no_lost m rs <-> forall z, head (filter (fun y => flag_of LRQ_pending m y = true) rs) = Some z -> blocked m rs z.
Proof.
  split.
  - intros Hn z (pre & post & Heq & Hz & Hpre)%head_filter. by apply (Hn pre z post).
  - intros Hh pre z post Heq Hz Hpre. apply Hh, head_filter. eauto.
Qed.

(** The lock after its request [r] begins to wait or ceases to *)
Lemma lock_ok_flag m l b b' r q q' :
  lock_ok m None l b -> r ∈ lbl_requests b -> in_use m r q ->
  lrq_type q' = lrq_type q -> level (lrq_requested q') -> lrq_state q' = lrq_state q -> lrq_lock q' = lrq_lock q ->
  same_flag LRQ_repost q q' ->
  lbl_requests b' ≡ₚ lbl_requests b -> lbl_series b' = lbl_series b -> lbl_counts b' = lbl_counts b -> lbl_state b' = lbl_state b ->
  lbl_pending_lrq_count b' = lbl_pending_lrq_count b - Z.b2z (has_flag (lrq_flags q) LRQ_pending)
    + Z.b2z (has_flag (lrq_flags q') LRQ_pending) ->
  lock_ok (<[r := q']> m) None l b'.
Proof.
  intros Hok Hr [Hq Ht] K1 K2 K3 K4 K5 Hrq Hse Hct Hst Hpc.
  assert (Hstate : forall y, state_of (<[r := q']> m) y = state_of m y).
  { intros y. rewrite state_of_insert. case_decide as Hd; [|done]. subst y. unfold state_of. rewrite Hq. done. }
  split; rewrite ?Hse, ?Hct, ?Hst; try apply Hok.
  - rewrite Hrq. apply Hok.
  - rewrite Hrq. apply Hok.
  - intros y Hy. rewrite Hrq in Hy. destruct (ok_request _ _ _ _ Hok y Hy) as (p & [Hp Hpt] & Hx).
    destruct (decide (y = r)) as [->|Hne].
    + exists q'. rewrite Hq in Hp. injection Hp as <-. unfold in_use, queued, same_flag in *. rewrite lookup_insert_eq, K3, K5, K4, K1. naive_solver.
    + exists p. split; [by apply in_use_insert_other|done].
  - intros k Hk. cbn [counted]. rewrite (count_perm _ _ _ Hrq), (ok_counts _ _ _ _ Hok k Hk). apply count_ext.
    intros y _. unfold holds. by rewrite Hstate.
  - rewrite (count_perm _ _ _ Hrq), Hpc, (ok_pending _ _ _ _ Hok), !(count_remove _ r (lbl_requests b)) by (done || apply Hok).
    rewrite flag_of_insert, decide_True by done. unfold flag_of at 2. rewrite Hq. cbn.
    assert (Hrest : count (flag_of LRQ_pending (<[r:=q']> m)) (remove_que r (lbl_requests b)) =
      count (flag_of LRQ_pending m) (remove_que r (lbl_requests b))); [|lia].
    apply count_ext. intros y [Hy _]%elem_of_remove_que. by rewrite flag_of_insert, decide_False.
  - intros y y' Hy Hy' Hne. rewrite Hrq in Hy, Hy'. rewrite !Hstate. by apply (ok_compatible _ _ _ _ Hok).
  - intros _. by apply (ok_state _ _ _ _ Hok).
Qed.

Section Change.
Context (x x' z z' : option Z) (W W' : gmap Z wait) (t s : table) (r : Z) (q q' : lrq).
Hypothesis Hsys : sys x z W t.
Hypothesis Hz : forall l, l <> lrq_lock q -> z' <> Some l -> z <> Some l.
Hypothesis Hq : in_use (requests t) r q.
Hypothesis Hx : x = None \/ x = Some r.
Hypothesis HW : forall y, y <> r -> W' !! y = W !! y.
Hypothesis Hwf : wf None s.
Hypothesis Er : requests s !! r = Some q'.
Hypothesis Er' : forall y, y <> r -> on_option core_lrq (requests t !! y) (requests s !! y).
Hypothesis El : forall l, l <> lrq_lock q -> on_option same_lbl (locks t !! l) (locks s !! l).
Hypothesis Ht' : lrq_type q' = type_lrq.
Hypothesis Hqd' : queued q'.
Hypothesis Hin : request_in x' W' r q'.
Hypothesis Hlost : forall b', z' <> Some (lrq_lock q) -> locks s !! lrq_lock q = Some b' -> lock_live b' ->
  no_lost (requests s) (lbl_requests b') \/ rejected_in W' (requests s) (lbl_requests b').

Lemma sys_change : sys x' z' W' s.
Proof using All.
  destruct Hsys as [S1 S2 S3 S4]. pose proof Hq as [Hqr Hqt].
  split; [done|..].
  - intros y p Hp Hpd. destruct (decide (y = r)) as [->|Hne].
    + destruct Hp as [Hp _]. by assert (p = q') as -> by congruence.
    + destruct (back_kept (requests t) _ y p co_kept (Er' y Hne) Hp Hpd) as (p0 & Hp0 & Hpd0 & Hc).
      apply (request_core x' W' y p0 p Hc). destruct (S2 y p0 Hp0 Hpd0) as [R1 R2 R3 R4]. split; rewrite ?HW by done; try done.
      intros _. apply R3. destruct Hx as [->| ->]; congruence.
  - intros y Hy. destruct (decide (y = r)) as [->|Hne]; [by exists q'|].
    rewrite HW in Hy by done. destruct (S3 y Hy) as (p & Hp & Hpd).
    destruct (forth_kept (requests t) _ y p co_kept (Er' y Hne) Hp Hpd) as (p' & ? & ? & _). by exists p'.
  - intros l2 b2 Hz2 Hb2 Hlive2. destruct (decide (l2 = lrq_lock q)) as [->|Hne]; [by apply Hlost|].
    specialize (El l2 Hne). rewrite Hb2 in El. destruct (locks t !! l2) as [b1|] eqn:Eb1; [|done]. cbn in El.
    rewrite (sl_requests _ _ El). assert (Hlive1 : lock_live b1) by (unfold lock_live in *; rewrite <- (sl_type _ _ El); done).
    assert (Hother : forall y, y ∈ lbl_requests b1 -> y <> r).
    { intros y Hy ->. destruct (lock_of None t l2 b1 r S1 Eb1 Hlive1 Hy) as (p & Hp & Hlp). congruence. }
    destruct (S4 l2 b1 (Hz _ Hne Hz2) Eb1 Hlive1) as [Hn|Hj]; [left|right].
    + eapply no_lost_core; [|done]. intros y Hy. by apply Er', Hother.
    + eapply rejected_in_kept; [|done]. intros y Hy Hyw. rewrite HW by (by apply Hother). split; [done|].
      eapply on_option_mono; [|by apply Er', Hother]. by intros ? ? [].
Qed.
End Change.

Lemma sys_single x x' z z' W W' t s r q q' b b' :
  sys x z W t -> (forall l, l <> lrq_lock q -> z' <> Some l -> z <> Some l) -> in_use (requests t) r q -> queued q ->
  locks t !! lrq_lock q = Some b -> x = None \/ x = Some r -> (forall y, y <> r -> W' !! y = W !! y) -> wf None s ->
  requests s = <[r := q']> (requests t) -> locks s = <[lrq_lock q := b']> (locks t) ->
  lrq_type q' = type_lrq -> queued q' -> request_in x' W' r q' ->
  (z' <> Some (lrq_lock q) -> no_lost (requests s) (lbl_requests b') \/ rejected_in W' (requests s) (lbl_requests b')) ->
  sys x' z' W' s.
Proof.
  intros Hsys Hz Hq Hqd Hb Hx HW Hwf Er El Ht' Hqd' Hin Hlost. apply (sys_change x x' z z' W W' t s r q q'); try done.
  - by rewrite Er, lookup_insert_eq.
  - intros y Hy. rewrite Er, lookup_insert_ne by done. destruct (requests t !! y); [apply core_refl|done].
  - intros y Hy. rewrite El, lookup_insert_ne by done. by destruct (locks t !! y).
  - intros b2 Hz2 Hb2 _. rewrite El, lookup_insert_eq in Hb2. injection Hb2 as <-. auto.
Qed.

(** ** [wait_begin] *)

Lemma filter_remove_que (P : Z -> bool) (r : Z) (rs : list Z) : P r = false ->
  filter (fun y => P y = true) (remove_que r rs) = filter (fun y => P y = true) rs.
Proof.
  intros Hr. induction rs as [|x rs IH]; [done|]. unfold remove_que in *. rewrite !filter_cons.
  destruct (decide (x = r)) as [->|Hne].
  - rewrite decide_False by auto. rewrite IH, Hr. by rewrite decide_False.
  - rewrite decide_True, filter_cons, IH by done. done.
Qed.

Lemma filter_bool_ext (P Q : Z -> bool) (rs : list Z) : (forall y, y ∈ rs -> P y = Q y) ->
  filter (fun y => P y = true) rs = filter (fun y => Q y = true) rs.
Proof.
  intros H. induction rs as [|x rs IH]; [done|]. rewrite !filter_cons, (H x) by set_solver.
  rewrite IH by set_solver. done.
Qed.

(** The queue with a request that was there and begins to wait, at its place or at the end *)
Lemma no_lost_wait m rs rs' r q q' :
  m !! r = Some q -> has_flag (lrq_flags q) LRQ_pending = false -> lrq_state q' = lrq_state q -> lrq_requested q' = lrq_requested q ->
  rs' ≡ₚ rs ->
  (rs' = rs /\ blocked m rs r) \/
  (rs' = insert_tail r (remove_que r rs) /\ (blocked m rs r \/ exists y, y ∈ rs /\ flag_of LRQ_pending m y = true)) ->
  no_lost m rs -> no_lost (<[r := q']> m) rs'.
Proof.
  intros Hq Hp Hst Hreq Hperm Hb Hn. set (m' := <[r := q']> m).
  assert (Hbl : forall z, blocked m rs z -> blocked m' rs' z).
  { intros z (y & Hy & Hne & Hc). exists y. rewrite Hperm. split_and!; [done..|]. unfold m'. rewrite state_of_insert.
    assert (Hz : requested_of (<[r := q']> m) z = requested_of m z).
    { unfold requested_of. destruct (decide (r = z)) as [<-|Hd]; [rewrite lookup_insert_eq, Hq; done|by rewrite lookup_insert_ne]. }
    rewrite Hz. case_decide as Hd; [|done]. subst y. rewrite Hst. unfold state_of in Hc. by rewrite Hq in Hc. }
  assert (Hpm : forall y, y <> r -> flag_of LRQ_pending m' y = flag_of LRQ_pending m y).
  { intros y Hy. unfold m'. by rewrite flag_of_insert, decide_False. }
  assert (Hnp : flag_of LRQ_pending m r = false) by (unfold flag_of; by rewrite Hq).
  destruct Hb as [[-> Hb]|[-> Hb]].
  - intros pre z post Hsplit Hz Hpre. apply Hbl. destruct (decide (z = r)) as [->|Hzr]; [done|].
    apply (Hn pre z post); [done|by rewrite <- Hpm|]. intros y Hy. destruct (decide (y = r)) as [->|Hne]; [done|].
    rewrite <- Hpm by done. by apply Hpre.
  - rewrite no_lost_head in Hn |- *. intros z Hz. apply Hbl. unfold insert_tail in Hz.
    rewrite filter_app, (filter_bool_ext _ (flag_of LRQ_pending m) (remove_que r rs)), filter_remove_que in Hz by
      (done || (intros y [Hy _]%elem_of_remove_que; by apply Hpm)).
    destruct (filter (fun y => flag_of LRQ_pending m y = true) rs) as [|x f] eqn:Ef; [|by apply Hn].
    destruct Hb as [Hb|(y & Hy & Hyp)].
    + rewrite filter_cons in Hz. cbn in Hz. case_decide; [|done]. by injection Hz as <-.
    + exfalso. assert (Hin : y ∈ []) by (rewrite <- Ef; by apply list_elem_of_filter). by apply elem_of_nil in Hin.
Qed.

(** The request with flags changed *)
Record reflagged (q q' : lrq) : Prop := {
  fl_type : lrq_type q' = lrq_type q;
  fl_state : lrq_state q' = lrq_state q;
  fl_owner : lrq_owner q' = lrq_owner q;
  fl_lock : lrq_lock q' = lrq_lock q;
  fl_repost : same_flag LRQ_repost q q';
  fl_blocking : same_flag LRQ_blocking q q'
}.

(** A request that begins to wait, or ceases to *)
Record requeued (r : Z) (q : lrq) (b : lbl) (w : own) (t s : table) (q' : lrq) (b' : lbl) (w' : own) : Prop := {
  rq_requests : requests s = <[r := q']> (requests t);
  rq_locks : locks s = <[lrq_lock q := b']> (locks t);
  rq_owners : owners s = <[lrq_owner q := w']> (owners t);
  rq_rest : rest_same t s;
  rq_data : lhb_data s = lhb_data t;
  rq_lrq : reflagged q q';
  rq_level : level (lrq_requested q');
  rq_type : lbl_type b' = lbl_type b;
  rq_series : lbl_series b' = lbl_series b;
  rq_counts : lbl_counts b' = lbl_counts b;
  rq_state : lbl_state b' = lbl_state b;
  rq_perm : lbl_requests b' ≡ₚ lbl_requests b;
  rq_pending : lbl_pending_lrq_count b' = lbl_pending_lrq_count b - Z.b2z (has_flag (lrq_flags q) LRQ_pending)
    + Z.b2z (has_flag (lrq_flags q') LRQ_pending);
  rq_own1 : own_requests w' = own_requests w;
  rq_own2 : own_blocks w' = own_blocks w;
  rq_own3 : own_pending w' =
    if has_flag (lrq_flags q') LRQ_pending then insert_tail r (own_pending w) else remove_que r (own_pending w);
  rq_count : own_count w' = own_count w
}.

Lemma wf_requeued r q b w t s q' b' w' :
  wf None t -> in_use (requests t) r q -> queued q -> locks t !! lrq_lock q = Some b -> owners t !! lrq_owner q = Some w ->
  requeued r q b w t s q' b' w' -> wf None s.
Proof.
  intros Hwf Hq Hqd Hb Hw [E1 E2 E3 E4 E5 [F1 F3 F4 F5 F6 F7] F2 T1 T2 T3 T4 T5 T6 O1 O2 O3 O4].
  destruct (ro_lock _ _ _ (wf_request _ _ Hwf r q Hq) Hqd) as (b0 & Hb0 & Hlive & Hrb). rewrite Hb in Hb0. injection Hb0 as <-.
  destruct (wf_lock _ _ Hwf _ b Hb Hlive) as [_ Hok]. pose proof Hq as [Hqr Hqt].
  destruct (own_queues None t r q w Hwf Hq Hqd Hw) as [Hpi Hbi].
  assert (Hqd' : queued q') by (unfold queued, same_flag in *; congruence).
  eapply (wf_update None None t s r (lrq_lock q) (lrq_owner q) q q' b b' w w'); try done; try congruence.
  - destruct (wf_data _ _ Hwf) as [H1 H2]. split; rewrite E5, ?E2; [done|]. intros qq y Hqq Hy.
    destruct (H2 qq y Hqq Hy) as (by' & Hby & Hl'). destruct (decide (y = lrq_lock q)) as [->|Hne].
    + exists b'. rewrite lookup_insert_eq. unfold lock_live. rewrite T1. done.
    + exists by'. by rewrite lookup_insert_ne.
  - intros y [?|?]; done.
  - intros y. by rewrite T5.
  - rewrite E1. by apply (lock_ok_flag _ _ b b' r q q').
  - split; [done|..]; intros y.
    + rewrite O3. destruct (has_flag (lrq_flags q') LRQ_pending).
      * rewrite elem_of_insert_tail. destruct (decide (y = r)); naive_solver.
      * rewrite elem_of_remove_que. naive_solver.
    + rewrite O2. unfold same_flag in F7. rewrite F7. destruct (decide (y = r)) as [->|]; naive_solver.
Qed.

Ltac requeued_table :=
  eexists _, _, _; split; cbn; rewrite ?insert_insert_eq; try done; try (by split).

Lemma wp_wait_begin_table Q lck_wait r q b w t :
  wf None t -> in_use (requests t) r q -> queued q -> has_flag (lrq_flags q) LRQ_pending = false ->
  locks t !! lrq_lock q = Some b -> owners t !! lrq_owner q = Some w -> r ∈ lbl_requests b -> NoDup (lbl_requests b) ->
  0 <= lbl_pending_lrq_count b < 65535 -> level (lrq_requested q) ->
  (forall s q' b' w', requeued r q b w t s q' b' w' ->
     lrq_requested q' = lrq_requested q -> has_flag (lrq_flags q') LRQ_pending = true -> has_flag (lrq_flags q') LRQ_rejected = false ->
     lbl_requests b' = (if decide (lrq_state q = 0) then insert_tail r (remove_que r (lbl_requests b)) else lbl_requests b) ->
     wp (post_blockage r) Q s) ->
  wp (wait_begin r lck_wait) Q t.
Proof.
  intros Hwf [Hqr Hqt] Hqd Hp Hb Hw Hrb Hnd Hpc Hlev Hs.
  assert (Hpc1 : wrapU 16 (lbl_pending_lrq_count b + 1) = lbl_pending_lrq_count b - 0 + 1) by (rewrite wrap16_small; lia).
  pose proof (remove_que_perm r _ Hnd Hrb) as Hperm.
  unfold wait_begin. apply wp_bind. eapply wp_lrq_at; [done|]. apply wp_bind. eapply wp_change_own; [done|]. apply wp_bind.
  eapply wp_change_lrq; [done|]. apply wp_bind. eapply wp_change_own; [by lookups|]. apply wp_bind.
  eapply wp_change_lbl; [done|]. apply wp_bind. cbn [lbl_pending_lrq_count]. rewrite Hpc1.
  set (flags := with_flag LRQ_pending (without_flag LRQ_rejected (lrq_flags q))).
  assert (Hf1 : has_flag flags LRQ_pending = true) by (unfold flags; by flags).
  assert (Hf2 : has_flag flags LRQ_rejected = false) by (unfold flags; by flags).
  assert (Hf3 : has_flag flags LRQ_repost = has_flag (lrq_flags q) LRQ_repost) by (unfold flags; by flags).
  assert (Hf4 : has_flag flags LRQ_blocking = has_flag (lrq_flags q) LRQ_blocking) by (unfold flags; by flags).
  destruct (decide (lrq_state q = 0)) as [Hs0|Hs0];
    [eapply wp_change_lbl; [by lookups|]|apply wp_ret]; apply wp_bind;
    (case_decide; [eapply wp_change_lrq; [by lookups|]|apply wp_ret]).
  all: eapply Hs; [split; cbn; rewrite ?insert_insert_eq; try done|..].
  all: try (split; unfold same_flag; cbn [lrq_flags set_lrq_flags]; flags; done).
  all: cbn [lrq_flags set_lrq_flags lbl_pending_lrq_count set_lbl_pending_lrq_count set_lbl_requests]; flags; rewrite ?Hf1, ?Hf2, ?Hp; done.
Qed.

Lemma pending_count_small m l b r : lock_ok m None l b -> r ∈ lbl_requests b -> flag_of LRQ_pending m r = false ->
  0 <= lbl_pending_lrq_count b < 65535.
Proof.
  intros Hok Hr Hf. rewrite (ok_pending _ _ _ _ Hok). pose proof (ok_small _ _ _ _ Hok).
  pose proof (count_range (flag_of LRQ_pending m) (remove_que r (lbl_requests b))).
  pose proof (count_remove (flag_of LRQ_pending m) r (lbl_requests b) (ok_nodup _ _ _ _ Hok) Hr) as Hc. rewrite Hf in Hc. cbn in Hc.
  assert (length (remove_que r (lbl_requests b)) < length (lbl_requests b))%nat; [|lia].
  apply length_filter_lt with r; [done|]. intros H'. by apply H'.
Qed.

Lemma sys_wait_begin x W v lck_wait r q b t :
  sys x None W t -> x = None \/ x = Some r -> in_use (requests t) r q -> queued q -> has_flag (lrq_flags q) LRQ_pending = false ->
  W !! r = None -> locks t !! lrq_lock q = Some b ->
  blocked (requests t) (lbl_requests b) r \/ (lrq_state q = 0 /\ lbl_pending_lrq_count b <> 0) ->
  (forall ast arg, v = WConvert ast arg -> 1 <= lrq_state q) ->
  wp (wait_begin r lck_wait) (fun _ t' => sys None None (<[r := v]> W) t' /\ exists q', in_use (requests t') r q' /\ queued q' /\
    lrq_requested q' = lrq_requested q /\ lrq_state q' = lrq_state q /\ has_flag (lrq_flags q') LRQ_pending = true) t.
Proof.
  intros Hsys Hx Hq Hqd Hp HWr Hb Hbl Hv. pose proof (sy_wf _ _ _ _ Hsys) as Hwf. pose proof Hq as [Hqr Hqt].
  destruct (ro_lock _ _ _ (wf_request _ _ Hwf r q Hq) Hqd) as (b0 & Hb0 & Hlive & Hrb). rewrite Hb in Hb0. injection Hb0 as <-.
  destruct (ro_owner _ _ _ (wf_request _ _ Hwf r q Hq)) as (w & Hw & _). destruct (wf_lock _ _ Hwf _ b Hb Hlive) as [_ Hok].
  assert (Hnp : flag_of LRQ_pending (requests t) r = false) by (unfold flag_of; by rewrite Hqr).
  eapply wp_wait_begin_table; try done; [apply Hok|by eapply pending_count_small| |].
  { destruct (sy_request _ _ _ _ Hsys r q Hq Hqd). unfold level. lia. }
  intros s q' b' w' Hrq Hreq' Hp' Hj' Hrq'. pose proof (wf_requeued r q b w t s q' b' w' Hwf Hq Hqd Hb Hw Hrq) as Hwfs.
  pose proof Hrq as [E1 E2 E3 E4 E5 [F1 F3 F4 F5 F6 F7] F2 T1 T2 T3 T4 T5 T6 O1 O2 O3 O4].
  assert (Hqd' : queued q') by (unfold queued, same_flag in *; congruence).
  assert (Hs : sys None None (<[r := v]> W) s).
  { eapply (sys_single x None None None W _ t s r q q' b b'); try done; try congruence.
    - intros y Hy. by rewrite lookup_insert_ne.
    - destruct (sy_request _ _ _ _ Hsys r q Hq Hqd) as [R1 R2 R3 R4]. split; rewrite ?Hreq', ?F3, ?Hp', ?Hj', ?lookup_insert_eq; try done.
      + intros ast arg [= ->]. by eapply Hv.
    - destruct (sy_lost _ _ _ _ Hsys _ b ltac:(done) Hb Hlive) as [Hn|Hj]; [left|right].
      + rewrite E1. apply (no_lost_wait _ (lbl_requests b) _ r q q'); try done. rewrite Hrq'. case_decide as Hs0.
        * right. split; [done|]. destruct Hbl as [?|[_ Hc]]; [by left|right]. rewrite (ok_pending _ _ _ _ Hok), count_pos in Hc. done.
        * left. split; [done|]. by destruct Hbl as [?|[? _]].
      + destruct Hj as (y & Hy & Hyw & Hyj). exists y. rewrite T5. split; [done|].
        assert (y <> r) by (intros ->; rewrite HWr in Hyw; by destruct Hyw). rewrite lookup_insert_ne by done. split; [done|].
        rewrite E1, flag_of_insert, decide_False by done. done. }
  assert (Hin : in_use (requests s) r q') by (rewrite E1; apply in_use_insert_self; congruence).
  eapply wp_mono; [by apply (wp_post_blockage r q')|]. intros _ t' [Hwf' Hc]. split; [by eapply sys_calm|].
  destruct (calm_lrq s t' r q' Hc Hin Hqd') as (q2 & Hq2 & Hqd2 & [[] Hst Hpe]). exists q2. unfold same_flag in *.
  split_and!; congruence.
Qed.
