(* ===== verification/LockConvert.v ===== *)
(** * The end of a wait, and conversions *)

From S2P Require Import Prelude Outcome StateMonad LockTable LockOps LockInv LockFrame LockGrant LockPost LockRelease LockSys LockWait.
From stdpp Require Import gmap.
#[local] Open Scope Z_scope.

(** ** Changes of a request that does not wait *)

Lemma no_lost_insert m rs r q q' :
  m !! r = Some q -> has_flag (lrq_flags q) LRQ_pending = false -> has_flag (lrq_flags q') LRQ_pending = false ->
  lrq_state q' = lrq_state q -> no_lost m rs -> no_lost (<[r := q']> m) rs.
Proof.
  intros Hq Hp Hp' Hs Hn pre z post Heq Hz Hpre. rewrite flag_of_insert in Hz. case_decide as Hd; [congruence|].
  destruct (Hn pre z post Heq Hz) as (y & Hy & Hne & Hc).
  - intros y Hy. specialize (Hpre y Hy). rewrite flag_of_insert in Hpre. case_decide as Hdy; [|done]. subst y.
    unfold flag_of. by rewrite Hq.
  - exists y. split_and!; [done..|]. rewrite state_of_insert. unfold requested_of in *. rewrite lookup_insert_ne by done.
    case_decide as Hdy; [|done]. subst y. rewrite Hs. unfold state_of in Hc. by rewrite Hq in Hc.
Qed.

Section Quiet.
Context (x x' z : option Z) (W W' : gmap Z wait) (t : table) (r : Z) (q q' : lrq).
Hypothesis Hsys : sys x z W t.
Hypothesis Hx : x = None \/ x = Some r.
Hypothesis HW : forall y, y <> r -> W' !! y = W !! y.
Hypothesis Hq : in_use (requests t) r q.
Hypothesis Hqd : queued q.
Hypothesis Hp : has_flag (lrq_flags q) LRQ_pending = false.
Hypothesis Hp' : has_flag (lrq_flags q') LRQ_pending = false.
Hypothesis Hrf : reflagged q q'.
Hypothesis Hj : same_flag LRQ_rejected q q'.
Hypothesis Hin : request_in x' W' r q'.
(** If the request stood for the others of the lock, it still does or it need not. *)
Hypothesis Hl : is_Some (W' !! r) \/ W !! r = None \/ has_flag (lrq_flags q) LRQ_rejected = false \/
  (forall b, locks t !! lrq_lock q = Some b -> no_lost (requests t) (lbl_requests b)).

Lemma sys_quiet : sys x' z W' (upd_lrq r q' t).
Proof using All.
  pose proof (sy_wf _ _ _ _ Hsys) as Hwf. pose proof Hq as [Hqr Hqt].
  destruct (ro_lock _ _ _ (wf_request _ _ Hwf r q Hq) Hqd) as (b & Hb & Hlive & Hrb).
  destruct (ro_owner _ _ _ (wf_request _ _ Hwf r q Hq)) as (w & Hw & _).
  destruct (remove_absent_own None t r q w Hwf Hq Hqd Hw) as [Hap _].
  pose proof Hrf as [F1 F3 F4 F5 F6 F7].
  assert (Hqd' : queued q') by (unfold queued, same_flag in *; congruence).
  assert (Hrq : requeued r q b w t (upd_lrq r q' t) q' b w).
  { split; cbn; rewrite ?insert_id by done; try done; rewrite ?Hp, ?Hp'; cbn.
    - destruct (ri_requested _ _ _ _ Hin). unfold level. lia.
    - lia.
    - by rewrite Hap. }
  eapply (sys_single x x' z z W W' t _ r q q' b b); try done.
  - by eapply wf_requeued.
  - cbn. by rewrite insert_id.
  - congruence.
  - intros Hz. destruct (sy_lost _ _ _ _ Hsys _ b Hz Hb Hlive) as [Hn|(y & Hy & Hyw & Hyj)].
    { left. by apply (no_lost_insert _ _ r q q'). }
    destruct (decide (y = r)) as [->|Hne].
    + assert (Hrej : has_flag (lrq_flags q) LRQ_rejected = true) by (unfold flag_of in Hyj; by rewrite Hqr in Hyj).
      destruct Hl as [Hs|[Hs|[Hs|Hs]]].
      * right. exists r. split; [done|]. split; [done|]. cbn. rewrite flag_of_insert, decide_True by done. by rewrite Hj.
      * rewrite Hs in Hyw. by destruct Hyw.
      * congruence.
      * left. apply (no_lost_insert _ _ r q q'); auto.
    + right. exists y. rewrite HW by done. split; [done|]. split; [done|]. cbn. by rewrite flag_of_insert, decide_False.
Qed.
End Quiet.

(** A request whose wait has ended *)
Lemma sys_leave z W t r q : sys None z W t -> in_use (requests t) r q -> queued q ->
  has_flag (lrq_flags q) LRQ_pending = false -> has_flag (lrq_flags q) LRQ_rejected = false -> sys None z (delete r W) t.
Proof.
  intros Hsys Hq Hqd Hp Hj. assert (Ht : upd_lrq r q t = t).
  { destruct Hq as [Hqr _]. destruct t. unfold upd_lrq, set_requests. cbn in *. by rewrite insert_id. }
  rewrite <- Ht. apply (sys_quiet None None z W _ t r q q); try done; auto.
  - intros y Hy. by rewrite lookup_delete_ne.
  - destruct (sy_request _ _ _ _ Hsys r q Hq Hqd) as [R1 R2 R3 R4]. split; [done|congruence|auto|].
    intros ast arg. by rewrite lookup_delete_eq.
Qed.

(** ** [reject] *)

Lemma sys_reject W t r q : sys None None W t -> in_use (requests t) r q -> queued q ->
  has_flag (lrq_flags q) LRQ_pending = true ->
  wp (reject r) (fun _ t' => sys None None W t' /\ (forall o, is_Some (owners t !! o) -> is_Some (owners t' !! o))) t.
Proof.
  intros Hsys Hq Hqd Hp. pose proof (sy_wf _ _ _ _ Hsys) as Hwf. pose proof Hq as [Hqr Hqt].
  destruct (ro_lock _ _ _ (wf_request _ _ Hwf r q Hq) Hqd) as (b & Hb & Hlive & Hrb).
  destruct (ro_owner _ _ _ (wf_request _ _ Hwf r q Hq)) as (w & Hw & _).
  destruct (wf_lock _ _ Hwf _ b Hb Hlive) as [_ Hok]. destruct (sy_request _ _ _ _ Hsys r q Hq Hqd) as [R1 R2 R3 R4].
  destruct (R2 Hp) as [HWr _].
  apply wp_bind. eapply wp_lrq_at; [done|]. apply wp_bind. eapply wp_change_lrq; [done|].
  eapply wp_mono; [eapply wp_remove_pending; by lookups|]. intros _ s ->.
  set (q' := set_lrq_flags _ (set_lrq_flags (with_flag LRQ_rejected (lrq_flags q)) q)).
  assert (Hp' : has_flag (lrq_flags q') LRQ_pending = false) by (unfold q'; cbn; by flags).
  assert (Hj' : has_flag (lrq_flags q') LRQ_rejected = true) by (unfold q'; cbn; by flags).
  match goal with |- sys _ _ _ ?s0 /\ _ => set (s := s0) end.
  assert (Hrq : requeued r q b w t s q' (set_lbl_pending_lrq_count (wrapU 16 (lbl_pending_lrq_count b + -1)) b) (unpend w r)).
  { split; cbn; rewrite ?insert_insert_eq, ?Hp; flags; cbn; try done.
    - split; unfold same_flag, q'; cbn; flags; done.
    - unfold level. lia.
    - rewrite wrap16_small; [lia|]. rewrite (ok_pending _ _ _ _ Hok).
      pose proof (count_range (flag_of LRQ_pending (requests t)) (lbl_requests b)). pose proof (ok_small _ _ _ _ Hok).
      assert (count (flag_of LRQ_pending (requests t)) (lbl_requests b) <> 0); [|lia]. apply count_pos. exists r.
      split; [done|]. unfold flag_of. by rewrite Hqr. }
  pose proof (wf_requeued r q b w t s _ _ _ Hwf Hq Hqd Hb Hw Hrq) as Hwfs.
  assert (Hqd' : queued q') by (unfold queued, q' in *; cbn; by flags). split.
  - eapply (sys_single None None None None W W t s r q q' b); try done; auto.
    + apply Hrq.
    + split; [done|congruence| |done]. intros _ _ Hn. rewrite Hn in Hj'; done.
    + intros _. right. exists r. split; [done|]. split; [done|].
      unfold s. cbn. rewrite insert_insert_eq, flag_of_insert, decide_True by done. done.
  - intros o Ho. unfold s. cbn. destruct (decide (o = lrq_owner q)) as [->|Hne].
    + rewrite lookup_insert_eq. eauto.
    + by rewrite lookup_insert_ne.
Qed.

(** ** [wait_end], [enqueue_end] and [convert_end] *)

Lemma wp_wait_end W t r q : sys None None W t -> in_use (requests t) r q ->
  wp (wait_end r) (fun _ t' => sys None None W t' /\ similar t t') t.
Proof.
  intros Hsys Hq. pose proof (sy_wf _ _ _ _ Hsys) as Hwf. destruct (ro_owner _ _ _ (wf_request _ _ Hwf r q Hq)) as (w & Hw & _).
  apply wp_bind. eapply wp_lrq_at; [apply Hq|]. apply wp_bind.
  eapply wp_mono; [eapply wp_unflag_neutral; [apply Hq|done..]|]. intros _ t1 [Hs1 Hd1].
  destruct (similar_own t t1 _ w Hs1 Hw) as (w1 & Hw1 & _). eapply wp_change_own; [done|].
  assert (Hs2 : similar t1 (upd_own (lrq_owner q) (set_own_waits (wrapU 16 (own_waits w1 - 1)) w1) t1)) by (by eapply similar_upd_own).
  split; [|by transitivity t1]. eapply sys_similar; [done|]. split; [by transitivity t1|done].
Qed.

(** What a thread finds when its wait is over: a rejected request, or one that has what it asked for *)
Lemma wp_enqueue_end W t r q : sys None None W t -> in_use (requests t) r q -> queued q ->
  has_flag (lrq_flags q) LRQ_pending = false -> is_Some (W !! r) ->
  wp (enqueue_end r) (fun a t' => sys None None (delete r W) t' /\
    match a with
    | Granted => exists q', in_use (requests t') r q' /\ lrq_state q' = lrq_requested q
    | Denied => exists q', requests t' !! r = Some q' /\ lrq_type q' = type_null
    | Waits => False
    end) t.
Proof.
  intros Hsys Hq Hqd Hp HWr. apply wp_bind. eapply wp_mono; [by eapply wp_wait_end|]. intros _ t1 [Hsys1 Hs1].
  destruct (similar_lrq t t1 r q Hs1) as (q1 & Hq1 & []); [apply Hq|].
  assert (Hqd1 : queued q1) by (unfold queued, same_flag in *; congruence).
  assert (Hin1 : in_use (requests t1) r q1) by (split; [done|]; destruct Hq; congruence).
  apply wp_bind. eapply wp_lrq_at; [done|]. destruct (has_flag (lrq_flags q1) LRQ_rejected) eqn:Ej.
  - apply wp_bind. eapply wp_mono; [eapply sys_release; [done..|by left|by left]|]. intros _ t2 [Hsys2 Hrel]. apply wp_ret.
    split; [done|]. apply (rl_self _ _ _ _ Hrel).
  - apply wp_ret. split.
    + apply (sys_leave None W t1 r q1); try done. unfold same_flag in *. congruence.
    + exists q1. split; [done|]. unfold same_flag in *.
      destruct (sy_request _ _ _ _ Hsys1 r q1 Hin1 Hqd1) as [R1 R2 R3 R4]. rewrite R3; congruence.
Qed.

Lemma set_ast_similar t r q ast arg : requests t !! r = Some q -> similar t (upd_lrq r (set_ast ast arg q) t).
Proof. intros Hq. apply (similar_upd_lrq t r q); [done|by split]. Qed.

(** After a conversion that was rejected the request has what it had. *)
Lemma wp_convert_end W t r q ast arg : sys None None W t -> in_use (requests t) r q -> queued q ->
  has_flag (lrq_flags q) LRQ_pending = false -> is_Some (W !! r) -> 1 <= lrq_state q ->
  wp (convert_end r ast arg) (fun a t' => sys None None (delete r W) t' /\
    match a with
    | Granted => exists q', in_use (requests t') r q' /\ lrq_state q' = lrq_requested q
    | Denied => exists q', in_use (requests t') r q' /\ lrq_state q' = lrq_state q
    | Waits => False
    end) t.
Proof.
  intros Hsys Hq Hqd Hp HWr Hst. apply wp_bind. eapply wp_mono; [by eapply wp_wait_end|]. intros _ t1 [Hsys1 Hs1].
  destruct (similar_lrq t t1 r q Hs1) as (q1 & Hq1 & []); [apply Hq|].
  assert (Hqd1 : queued q1) by (unfold queued, same_flag in *; congruence).
  assert (Hin1 : in_use (requests t1) r q1) by (split; [done|]; destruct Hq; congruence).
  assert (Hp1 : has_flag (lrq_flags q1) LRQ_pending = false) by (unfold same_flag in *; congruence).
  pose proof (sy_wf _ _ _ _ Hsys1) as Hwf1.
  destruct (ro_lock _ _ _ (wf_request _ _ Hwf1 r q1 Hin1) Hqd1) as (b & Hb & Hlive & Hrb).
  apply wp_bind. eapply wp_lrq_at; [done|]. destruct (has_flag (lrq_flags q1) LRQ_rejected) eqn:Ej.
  - apply wp_bind. eapply wp_mono; [eapply sys_post_pending; [done|by left|done|done]|]. intros _ t2 (Hsys2 & Heff & Hno).
    destruct Heff as [E1 E2 _ _]. specialize (E1 r). rewrite Hq1 in E1. destruct (requests t2 !! r) as [q2|] eqn:Eq2; [|done].
    destruct (moved_core _ _ _ E1 (or_intror Hp1)) as [[K1 K2 K3 K4 K5 K6] Ks Kp]. unfold same_flag in *.
    apply wp_bind. eapply wp_change_lrq; [done|]. apply wp_ret.
    assert (Hqd2 : queued q2) by (unfold queued; congruence). assert (Hin2 : in_use (requests t2) r q2) by (split; [done|]; destruct Hin1; congruence).
    split.
    + destruct (sy_request _ _ _ _ Hsys2 r q2 Hin2 Hqd2) as [R1 R2 R3 R4].
      assert (Hlev : level (lrq_state q2)).
      { destruct (wf_lock _ _ Hwf1 _ b Hb Hlive) as [_ Hok]. destruct (ok_request _ _ _ _ Hok r Hrb) as (q0 & [Hq0 _] & _ & _ & H & _).
        rewrite Ks. congruence. }
      apply (sys_quiet None None None W _ t2 r q2); try done; cbn; auto.
      * intros y Hy. by rewrite lookup_delete_ne.
      * congruence.
      * congruence.
      * split; cbn; [unfold level in *; rewrite Ks in *; lia|congruence|done|]. intros ? ?. by rewrite lookup_delete_eq.
      * right. right. right. intros b2 Hb2. specialize (E2 (lrq_lock q1)). rewrite Hb in E2. rewrite K4, Hb2 in *.
        destruct E2 as (_ & -> & _). done.
    + exists (set_lrq_requested (lrq_state q2) q2). split; [by apply in_use_insert_self; destruct Hin2|]. cbn. congruence.
  - apply wp_bind. eapply wp_change_lrq; [done|]. apply wp_ret. split.
    + eapply sys_similar; [|split; [by apply set_ast_similar|done]]. apply (sys_leave None W t1 r q1); done.
    + exists (set_ast ast arg q1). split; [by apply in_use_insert_self; destruct Hin1|]. cbn.
      destruct (sy_request _ _ _ _ Hsys1 r q1 Hin1 Hqd1) as [R1 R2 R3 R4]. rewrite R3; congruence.
Qed.

(** ** Granting a request that has come to the front *)

(** [t2]: the table with the counters of the lock without the request *)
Lemma sys_grant_alone W t t2 r q b :
  sys (Some r) None W t -> in_use (requests t) r q -> queued q -> has_flag (lrq_flags q) LRQ_pending = false ->
  wf (Some r) t2 -> requests t2 = requests t -> (forall l, l <> lrq_lock q -> locks t2 !! l = locks t !! l) ->
  locks t2 !! lrq_lock q = Some b ->
  (forall y, y ∈ lbl_requests b -> y <> r -> compatible (lrq_requested q) (state_of (requests t) y) = true) ->
  wp (grant r (lrq_lock q)) (fun _ t' => sys None (Some (lrq_lock q)) W t' /\
    (exists q', in_use (requests t') r q' /\ queued q' /\ lrq_state q' = lrq_requested q /\ has_flag (lrq_flags q') LRQ_pending = false) /\
    exists b', locks t' !! lrq_lock q = Some b' /\ lbl_type b' = lbl_type b /\ lbl_requests b' = lbl_requests b) t2.
Proof.
  intros Hsys Hq Hqd Hp Hwf2 E1 E2 Hb Hcomp. pose proof Hq as [Hqr Hqt].
  eapply wp_mono; [apply (wp_grant r (lrq_lock q) q b); try done; by rewrite E1|].
  intros _ t3 [Hwf3 [(q3 & Hq3 & [[K1 K2 K3 K4 K5 K6] Ks Kp]) G2 G3 G4 G5]].
  assert (Hqd3 : queued q3) by (unfold queued, same_flag in *; congruence).
  destruct (sy_request _ _ _ _ Hsys r q Hq Hqd) as [R1 R2 R3 R4]. split; [|split].
  - apply (sys_change (Some r) None None (Some (lrq_lock q)) W W t t3 r q q3); try done; auto.
    + intros y Hy. eapply on_option_mono; [apply same_core|]. rewrite <- E1. by apply G2.
    + intros l Hl. specialize (G3 l). rewrite E2 in G3 by done. eapply on_option_mono; [|apply G3]. intros ? ? (_ & _ & H). auto.
    + congruence.
    + split; [congruence|congruence|congruence|]. intros ast arg _. lia.
  - exists q3. unfold in_use. split_and!; congruence.
  - specialize (G3 (lrq_lock q)). rewrite Hb in G3. destruct (locks t3 !! lrq_lock q) as [b3|]; [|done]. exists b3. by destruct G3 as (? & ? & _).
Qed.

Lemma sys_grant W t t2 r q b :
  sys (Some r) None W t -> in_use (requests t) r q -> queued q -> has_flag (lrq_flags q) LRQ_pending = false ->
  wf (Some r) t2 -> requests t2 = requests t -> (forall l, l <> lrq_lock q -> locks t2 !! l = locks t !! l) ->
  locks t2 !! lrq_lock q = Some b -> lock_live b ->
  (forall y, y ∈ lbl_requests b -> y <> r -> compatible (lrq_requested q) (state_of (requests t) y) = true) ->
  wp (grant r (lrq_lock q);; post_pending (lrq_lock q)) (fun _ t' => sys None None W t' /\
    exists q', in_use (requests t') r q' /\ queued q' /\ lrq_state q' = lrq_requested q) t2.
Proof.
  intros Hsys Hq Hqd Hp Hwf2 E1 E2 Hb Hlive Hcomp.
  apply wp_bind. eapply wp_mono; [by eapply (sys_grant_alone W t t2)|].
  intros _ t3 (Hsys3 & (q3 & [Hq3 Ht3] & Hqd3 & Hs3 & Hp3) & b3 & Hb3 & Hbt & _).
  eapply wp_mono; [eapply sys_post_pending; [done|by right|done|unfold lock_live in *; congruence]|].
  intros _ t4 (Hsys4 & [F1 F2 F3 F4] & _). split; [done|]. specialize (F1 r). rewrite Hq3 in F1.
  destruct (requests t4 !! r) as [q4|] eqn:Eq4; [|done].
  destruct (moved_core _ _ _ F1 (or_intror Hp3)) as [[M1 M2 M3 M4 M5 M6] Ms Mp]. exists q4.
  unfold in_use, queued, same_flag in *. split_and!; congruence.
Qed.

(** ** [internal_convert] *)

Lemma wp_get_request t r q : wf None t -> in_use (requests t) r q -> queued q ->
  forall (Q : lrq -> table -> Prop), Q q t -> wp (get_request r) Q t.
Proof.
  intros Hwf [Hqr Hqt] Hqd Q HQ. destruct (ro_lock _ _ _ (wf_request _ _ Hwf r q (conj Hqr Hqt)) Hqd) as (b & Hb & Hlive & _).
  destruct (wf_used _ _ Hwf) as (_ & Hr & _). specialize (Hr r q Hqr).
  apply wp_bind. eapply wp_lrq_at; [done|]. rewrite decide_False by (rewrite Hqt; lia).
  apply wp_bind. eapply wp_lbl_at; [done|]. rewrite decide_False by (unfold lock_live in *; congruence). by apply wp_ret.
Qed.

(** What is granted on the lock of a request to the others *)
Definition grantable (t : table) (r k : Z) : Prop :=
  forall q b y, requests t !! r = Some q -> locks t !! lrq_lock q = Some b -> y ∈ lbl_requests b -> y <> r ->
    compatible k (state_of (requests t) y) = true.

Lemma sys_internal_convert W t r q type lck_wait ast arg :
  sys None None W t -> in_use (requests t) r q -> queued q -> W !! r = None -> 1 <= type <= 6 ->
  wp (internal_convert r type lck_wait ast arg) (fun a t' =>
    match a with
    | Granted => sys None None W t' /\ grantable t r type /\ exists q', in_use (requests t') r q' /\ queued q' /\ lrq_state q' = type
    | Waits => lck_wait <> 0 /\ ~ grantable t r type /\ sys None None (<[r := WConvert ast arg]> W) t'
    | Denied => lck_wait = 0 /\ ~ grantable t r type /\ sys None None W t' /\
        exists q', in_use (requests t') r q' /\ queued q' /\ lrq_state q' = lrq_state q
    end) t.
Proof.
  intros Hsys Hq Hqd HW Hty. pose proof (sy_wf _ _ _ _ Hsys) as Hwf. pose proof Hq as [Hqr Hqt].
  destruct (ro_lock _ _ _ (wf_request _ _ Hwf r q Hq) Hqd) as (b & Hb & Hlive & Hrb).
  destruct (wf_lock _ _ Hwf _ b Hb Hlive) as [_ Hok]. destruct (sy_request _ _ _ _ Hsys r q Hq Hqd) as [R1 R2 R3 R4].
  assert (Hp : has_flag (lrq_flags q) LRQ_pending = false).
  { destruct (has_flag (lrq_flags q) LRQ_pending); [|done]. destruct (R2 eq_refl) as [Hs _]. rewrite HW in Hs. by destruct Hs. }
  assert (Hst : lrq_state q = lrq_requested q).
  { apply R3; [done|done|]. intros Hs. rewrite HW in Hs. by destruct Hs. }
  apply wp_bind. eapply wp_get_request; [done..|]. apply wp_bind. eapply wp_change_lrq; [done|].
  set (q1 := set_lrq_flags _ (set_lrq_requested type q)). set (t1 := upd_lrq r q1 t).
  assert (Hp1 : has_flag (lrq_flags q1) LRQ_pending = false) by (unfold q1; cbn; by flags).
  assert (Hqd1 : queued q1) by (unfold queued, q1; cbn; by flags).
  assert (Hj1 : same_flag LRQ_rejected q q1) by (unfold same_flag, q1; cbn; by flags).
  assert (Hsys1 : sys (Some r) None W t1).
  { apply (sys_quiet None (Some r) None W W t r q q1); try done; auto.
    - split; try done; unfold same_flag, q1; cbn; by flags.
    - split; [done|congruence|done|congruence]. }
  pose proof (sy_wf _ _ _ _ Hsys1) as Hwf1.
  assert (Hin1 : in_use (requests t1) r q1) by (by apply in_use_insert_self).
  destruct (wf_lock _ _ Hwf1 _ b Hb Hlive) as [_ Hok1].
  apply wp_bind. eapply wp_count_down; [done|apply Hok|unfold level; lia|]. set (b1 := set_lbl_counts _ b).
  assert (Hok2 : lock_ok (requests t1) (Some r) (lrq_lock q) b1).
  { apply (lock_ok_down _ (lrq_lock q) b r q1); [done..|]. cbn. lia. }
  assert (Hwf2 : wf (Some r) (upd_lbl (lrq_lock q) b1 t1)) by (by apply (wf_leave_out t1 r q1 (lrq_lock q) b b1)).
  apply wp_bind. eapply wp_lbl_at; [by lookups|]. apply wp_bind, wp_compat; [unfold level; lia|apply lock_state_level|].
  assert (Hgr : compatible type (lock_state (lbl_counts b1)) = true <-> grantable t r type).
  { rewrite (lock_state_counted (requests t1) (Some r) (lrq_lock q) b1) by (done || unfold level; lia). cbn [counted].
    assert (Hsame : forall y, y <> r -> state_of (requests t1) y = state_of (requests t) y).
    { intros y Hy. unfold t1. cbn. by rewrite state_of_insert, decide_False. }
    split.
    - intros H q0 b0 y Hq0 Hb0 Hy Hne. assert (q0 = q) as -> by congruence. assert (b0 = b) as -> by congruence.
      rewrite <- Hsame by done. apply H. by apply elem_of_remove_que.
    - intros H y [Hne Hy]%elem_of_remove_que. rewrite Hsame by done. by apply (H q b). }
  destruct (compatible type (lock_state (lbl_counts b1))) eqn:Ec.
  - apply wp_bind. eapply wp_change_lrq; [apply Hin1|]. set (q2 := set_ast ast arg q1). apply wp_seq.
    assert (Hsys2 : sys (Some r) None W (upd_lrq r q2 t1)).
    { eapply sys_similar; [done|]. split; [|done]. apply set_ast_similar. apply Hin1. }
    assert (Hin2 : in_use (requests (upd_lrq r q2 t1)) r q2) by (by apply in_use_insert_self).
    eapply wp_mono; [eapply (sys_grant W (upd_lrq r q2 t1) _ r q2 b1); try done|].
    + eapply (wf_similar (Some r)); [apply set_ast_similar| |exact Hwf2]; [apply Hin1|].
      eapply data_ok_similar; [apply set_ast_similar; apply Hin1|done|apply (wf_data _ _ Hwf2)].
    + intros l Hl. cbn in *. by rewrite lookup_insert_ne.
    + cbn. by rewrite lookup_insert_eq.
    + intros y Hy Hne. cbn in Hy |- *. rewrite !state_of_insert, !decide_False by done. by apply (proj1 Hgr eq_refl q b).
    + intros _ t4 [Hsys4 Hq4]. apply wp_ret. split; [done|]. split; [by apply Hgr|done].
  - assert (Hn : ~ grantable t r type) by (intros H; apply Hgr in H; done).
    apply wp_bind. eapply wp_count_up; [by lookups|apply Hok2|unfold level; lia|].
    assert (Hback : upd_lbl (lrq_lock q) (set_lbl_counts (<[Z.to_nat (lrq_state q):=
        wrapU 16 (lbl_counts b1 !!! Z.to_nat (lrq_state q) + 1)]> (lbl_counts b1)) b1) (upd_lbl (lrq_lock q) b1 t1) = t1).
    { apply (counts_back t1 (lrq_lock q) b r); try done. lia. }
    rewrite Hback. case_decide as Hw.
    + apply wp_bind. eapply wp_mono; [eapply (sys_wait_begin (Some r) W (WConvert ast arg) _ r q1 b t1); try done; auto|].
      * left. apply (not_compatible_blocked (requests t1) (Some r) (lrq_lock q) b1 r type); try done.
        -- unfold level; lia.
        -- unfold requested_of, t1. cbn. by rewrite lookup_insert_eq.
        -- by intros y [Hne _]%elem_of_remove_que.
      * intros ? ? _. cbn. lia.
      * intros [] t4 [Hsys4 _]. by apply wp_ret.
    + apply wp_bind. eapply wp_change_lrq; [apply Hin1|]. apply wp_ret. split; [lia|]. split; [done|]. split.
      * apply (sys_quiet (Some r) None None W W t1 r q1); try done; auto.
        split; [cbn; lia| |done|congruence]. intros Hpp. change (has_flag (lrq_flags q1) LRQ_pending = true) in Hpp. congruence.
      * eexists. split; [by apply in_use_insert_self|]. done.
Qed.
