(* ===== verification/LockEnqueue.v ===== *)
(** * New requests: [enqueue] and that it keeps the invariant *)

From S2P Require Import Prelude Outcome StateMonad LockTable LockOps LockInv LockFrame LockGrant LockPost LockRelease LockSys LockWait LockConvert.
From stdpp Require Import gmap.
#[local] Open Scope Z_scope.

(** ** [grant_or_que] *)

(** The request is granted if no other holds or waits for what would stop it; the weakest
    state does not wait behind others. *)
Definition may_enter (t : table) (r : Z) : Prop :=
  forall q b, requests t !! r = Some q -> locks t !! lrq_lock q = Some b ->
    (forall y, y ∈ lbl_requests b -> y <> r -> compatible (lrq_requested q) (state_of (requests t) y) = true) /\
    (lrq_requested q = LCK_null \/ forall y, y ∈ lbl_requests b -> flag_of LRQ_pending (requests t) y = false).

Lemma sys_grant_or_que W t0 lck_wait r q0 l :
  let t := upd_lrq r (set_lrq_lock l q0) t0 in
  requests t0 !! r = Some q0 -> sys (Some r) None W t -> in_use (requests t) r (set_lrq_lock l q0) -> queued q0 -> lrq_state q0 = 0 ->
  has_flag (lrq_flags q0) LRQ_pending = false -> W !! r = None ->
  wp (grant_or_que r l lck_wait) (fun a t' =>
    match a with
    | Granted => may_enter t r /\ sys None None W t' /\
        exists q', in_use (requests t') r q' /\ queued q' /\ lrq_state q' = lrq_requested q0
    | Waits => ~ may_enter t r /\ lck_wait <> 0 /\ sys None None (<[r := WEnqueue]> W) t' /\
        exists q', in_use (requests t') r q' /\ queued q' /\ lrq_requested q' = lrq_requested q0 /\
          lrq_state q' = 0 /\ has_flag (lrq_flags q') LRQ_pending = true
    | Denied => ~ may_enter t r /\ lck_wait = 0 /\ sys None None W t'
    end) t0.
Proof.
  intros t Hq0 Hsys Hq Hqd Hst Hp HW. set (q := set_lrq_lock l q0) in *. pose proof (sy_wf _ _ _ _ Hsys) as Hwf.
  pose proof Hq as [Hqr Hqt]. assert (Hqd' : queued q) by done.
  destruct (ro_lock _ _ _ (wf_request _ _ Hwf r q Hq) Hqd') as (b & Hb & Hlive & Hrb). cbn [q lrq_lock set_lrq_lock] in Hb.
  destruct (wf_lock _ _ Hwf _ b Hb Hlive) as [_ Hok]. destruct (sy_request _ _ _ _ Hsys r q Hq Hqd') as [R1 R2 R3 R4].
  assert (Hokr : lock_ok (requests t) (Some r) l b) by (by apply (lock_ok_none _ l b r q)).
  assert (Hlev : level (lrq_requested q)) by (unfold level; lia).
  apply wp_bind. eapply wp_change_lrq; [done|]. match goal with |- wp ?m ?Q _ => change (wp m Q t) end. apply wp_bind. eapply wp_lrq_at; [done|].
  apply wp_bind. eapply wp_lbl_at; [done|]. apply wp_bind.
  rewrite (ok_state _ _ _ _ Hok) by done. apply wp_compat; [done|apply lock_state_level|].
  assert (Hc : compatible (lrq_requested q) (lock_state (lbl_counts b)) = true <->
    forall y, y ∈ lbl_requests b -> y <> r -> compatible (lrq_requested q) (state_of (requests t) y) = true).
  { rewrite (lock_state_counted (requests t) (Some r) l b) by done. cbn. split.
    - intros H y Hy Hne. apply H. by apply elem_of_remove_que.
    - intros H y [Hne Hy]%elem_of_remove_que. auto. }
  assert (Hpc : lbl_pending_lrq_count b = 0 <-> forall y, y ∈ lbl_requests b -> flag_of LRQ_pending (requests t) y = false).
  { split; [by eapply no_pending_count|]. intros H. rewrite (ok_pending _ _ _ _ Hok).
    destruct (decide (count (flag_of LRQ_pending (requests t)) (lbl_requests b) = 0)) as [?|Hne]; [done|].
    apply count_pos in Hne as (y & Hy & Hyp). rewrite H in Hyp; done. }
  assert (Hme : may_enter t r <-> (forall y, y ∈ lbl_requests b -> y <> r -> compatible (lrq_requested q) (state_of (requests t) y) = true) /\
    (lrq_requested q = LCK_null \/ forall y, y ∈ lbl_requests b -> flag_of LRQ_pending (requests t) y = false)).
  { split; [intros H; by apply (H q b)|]. intros H q1 b1 Hq1 Hb1. assert (q1 = q) as -> by congruence.
    cbn [q lrq_lock set_lrq_lock] in Hb1. assert (b1 = b) as -> by congruence. done. }
  rewrite <- Hc, <- Hpc in Hme. change (lrq_requested q) with (lrq_requested q0) in *.
  destruct (compatible (lrq_requested q0) (lock_state (lbl_counts b)) &&
    (bool_decide (lrq_requested q0 = LCK_null) || bool_decide (lbl_pending_lrq_count b = 0))) eqn:E.
  - apply andb_true_iff in E as [E1 E2%orb_true_iff]. rewrite !bool_decide_eq_true in E2. apply wp_seq.
    pose proof (sys_grant W t t r q b) as Hg. change (lrq_lock q) with l in Hg. eapply wp_mono; [apply Hg; try done|].
    + rewrite <- (upd_lbl_id l b t) by done. by apply (wf_leave_out t r q l b b).
    + by apply Hc.
    + intros _ t' [Hsys' Hq']. apply wp_ret. split; [by apply Hme|done].
  - assert (Hn : ~ may_enter t r).
    { rewrite Hme. intros [H1 H2]. rewrite H1 in E. cbn in E. apply orb_false_iff in E as [H3 H4].
      apply bool_decide_eq_false in H3, H4. tauto. }
    destruct (decide (lck_wait <> 0)) as [Hw|Hw]; apply wp_bind.
    + eapply wp_mono; [eapply (sys_wait_begin (Some r) W WEnqueue lck_wait r q b t); try done; auto|].
      * destruct (compatible (lrq_requested q0) (lock_state (lbl_counts b))) eqn:Ec.
        -- right. split; [done|]. cbn in E. apply orb_false_iff in E as [_ H4]. by apply bool_decide_eq_false in H4.
        -- left. apply (not_compatible_blocked (requests t) (Some r) l b r (lrq_requested q0)); try done.
           ++ unfold requested_of. by rewrite Hqr.
           ++ by intros y [Hne _]%elem_of_remove_que.
      * intros [] t' [Hsys' (q' & H1 & H2 & H3 & H4 & H5)]. apply wp_ret. split_and!; try done. exists q'.
        cbn in H3, H4. split_and!; try done. congruence.
    + eapply wp_mono; [eapply (sys_release (Some r) None W r q); try done; auto|].
      intros [] t' [Hsys' _]. apply wp_ret. split; [done|]. split; [lia|]. by rewrite delete_id in Hsys'.
Qed.

(** ** New blocks *)

Definition hash_ok (t : table) : Prop :=
  lhb_hash t <> [] /\ Z.of_nat (length (lhb_hash t)) < 65536 /\
  forall chain l, chain ∈ lhb_hash t -> l ∈ chain -> exists b, locks t !! l = Some b /\ lock_live b.

(** A block that no request uses *)
Definition unused (t : table) (r : Z) : Prop := forall q, requests t !! r = Some q -> lrq_type q = type_null.
Definition unused_lock (t : table) (l : Z) : Prop := forall b, locks t !! l = Some b -> lbl_type b = type_null.

Section Add.
Context (x : option Z) (t s : table) (r l o : Z) (q : lrq) (b' : lbl) (w w' : own).
Hypothesis Hwf : wf None t.
Hypothesis Hunused : unused t r.
Hypothesis Hw : owners t !! o = Some w.
Hypothesis Er : requests s = <[r := q]> (requests t).
Hypothesis El : locks s = <[l := b']> (locks t).
Hypothesis Eo : owners s = <[o := w']> (owners t).
Hypothesis Hqt : lrq_type q = type_lrq.
Hypothesis Hqo : lrq_owner q = o.
Hypothesis Hql : lrq_lock q = l.
Hypothesis Hqf : lrq_flags q = 0.
Hypothesis Hw1 : own_requests w' = insert_tail r (own_requests w).
Hypothesis Hw2 : own_pending w' = own_pending w.
Hypothesis Hw3 : own_blocks w' = own_blocks w.
Hypothesis Hold : forall b y, locks t !! l = Some b -> lock_live b -> y ∈ lbl_requests b -> y ∈ lbl_requests b'.
Hypothesis Hlive : lock_live b'.
Hypothesis Hrb : r ∈ lbl_requests b'.
Hypothesis Hok : lock_ok (requests s) x l b'.
Hypothesis Hx : x = None \/ x = Some r.
Hypothesis Hfree : NoDup (lhb_free_requests s) /\ forall y, y ∈ lhb_free_requests s -> y ∈ lhb_free_requests t /\ y <> r.
Hypothesis Hfl : forall y, y ∈ lhb_free_locks s -> y ∈ lhb_free_locks t /\ y <> l.
Hypothesis Hused : lhb_used t <= lhb_used s /\ room_ok s /\ 0 < r < lhb_used s /\ 0 < l < lhb_used s.
Hypothesis Hhash : hash_ok s.
Hypothesis Hdata : data_ok s.
Hypothesis Hlist : lhb_owners s = lhb_owners t /\ o ∈ lhb_owners t.

Lemma add_not_unused y qy : in_use (requests t) y qy -> y <> r.
Proof using Hunused. intros [Hy Ht] ->. apply Hunused in Hy. by rewrite Hy in Ht. Qed.

Lemma wf_add : wf x s.
Proof using All.
  assert (Hflags : queued q /\ has_flag (lrq_flags q) LRQ_pending = false /\ has_flag (lrq_flags q) LRQ_blocking = false).
  { unfold queued. rewrite Hqf. done. }
  destruct Hflags as (Hqd & Hqp & Hqb).
  assert (Hkeep : forall y qy, in_use (requests t) y qy -> in_use (requests s) y qy).
  { intros y qy Hy. rewrite Er. apply in_use_insert_other; [by eapply add_not_unused|done]. }
  split.
  - intros l2 b2 Hb2 Hlive2. rewrite El in Hb2. destruct (decide (l2 = l)) as [->|Hne].
    + rewrite lookup_insert_eq in Hb2. injection Hb2 as <-. split; [|done]. intros Hnil. rewrite Hnil in Hrb. by apply elem_of_nil in Hrb.
    + rewrite lookup_insert_ne in Hb2 by done. destruct (wf_lock _ _ Hwf l2 b2 Hb2 Hlive2) as [Hn Hok2]. split; [done|].
      assert (Hnr : forall y, y ∈ lbl_requests b2 -> y <> r).
      { intros y Hy. destruct (ok_request _ _ _ _ Hok2 y Hy) as (qy & Hqy & _). by eapply add_not_unused. }
      apply (lock_ok_frame (requests t) _ None x); [|left|done].
      * intros y qy Hy Hqy. exists qy. rewrite Er, lookup_insert_ne by (intros <-; by eapply Hnr). split; [done|apply core_refl].
      * intros y [?|Hxy] Hy; [done|]. apply (Hnr y Hy). destruct Hx as [->| ->]; congruence.
  - intros y qy Hqy. rewrite Er in Hqy. destruct Hqy as [Hy Hty]. destruct (decide (y = r)) as [->|Hne].
    + rewrite lookup_insert_eq in Hy. injection Hy as <-. split; [|intros _|done].
      * exists w'. rewrite Hqo, Eo, lookup_insert_eq, Hw1, elem_of_insert_tail, Hqp, Hqb. split_and!; auto; [done|].
        intros [?|Hnq]; [done|by destruct Hnq].
      * exists b'. by rewrite Hql, El, lookup_insert_eq.
    + rewrite lookup_insert_ne in Hy by done. pose proof (conj Hy Hty : in_use (requests t) y qy) as Hqy.
      destruct (wf_request _ _ Hwf y qy Hqy) as [(o2 & Ho2 & H1 & H2 & H3) H4 H5]. split; [| |done].
      * rewrite Eo. destruct (decide (lrq_owner qy = o)) as [Heq|Hneo].
        -- rewrite Heq, Hw in Ho2. injection Ho2 as <-. exists w'. rewrite Heq, lookup_insert_eq, Hw1, Hw2, Hw3, elem_of_insert_tail.
           split_and!; auto.
        -- exists o2. rewrite lookup_insert_ne by done. auto.
      * intros Hqdy. destruct (H4 Hqdy) as (b2 & Hb2 & Hlive2 & Hin2). rewrite El. destruct (decide (lrq_lock qy = l)) as [Heq|Hnel].
        -- exists b'. rewrite Heq, lookup_insert_eq. split; [done|]. split; [done|]. rewrite Heq in Hb2. by eapply Hold.
        -- exists b2. by rewrite lookup_insert_ne.
  - intros o2 w2 Hw2'. rewrite Eo in Hw2'. destruct (decide (o2 = o)) as [->|Hne].
    + rewrite lookup_insert_eq in Hw2'. injection Hw2' as <-. destruct (wf_own _ _ Hwf o w Hw) as [H1 H2 H3].
      split; intros y Hy; [rewrite Hw1 in Hy; apply elem_of_insert_tail in Hy as [Hy| ->]|rewrite Hw2 in Hy|rewrite Hw3 in Hy].
      * destruct (H1 y Hy) as (qy & Hqy & Hz). eauto.
      * exists q. rewrite Er. split; [by apply in_use_insert_self|done].
      * destruct (H2 y Hy) as (qy & Hqy & Hz). eauto.
      * destruct (H3 y Hy) as (qy & Hqy & Hz). eauto.
    + rewrite lookup_insert_ne in Hw2' by done. destruct (wf_own _ _ Hwf o2 w2 Hw2') as [H1 H2 H3].
      split; intros y Hy; [destruct (H1 y Hy) as (qy & Hqy & Hz)|destruct (H2 y Hy) as (qy & Hqy & Hz)|destruct (H3 y Hy) as (qy & Hqy & Hz)]; eauto.
  - destruct Hfree as [Hnd Hf]. split; [done|]. intros y Hy. destruct (Hf y Hy) as [Hyt Hne].
    destruct (wf_free _ _ Hwf) as [_ Hft]. destruct (Hft y Hyt) as (qy & Hqy & Hty). exists qy. rewrite Er, lookup_insert_ne by done. done.
  - intros y Hy. destruct (Hfl y Hy) as [Hyt Hne]. destruct (wf_free_locks _ _ Hwf y Hyt) as (by' & Hby & Hty). exists by'.
    rewrite El, lookup_insert_ne by done. done.
  - destruct (wf_used _ _ Hwf) as (H1 & H3 & H4). destruct Hused as (U1 & U2 & U3 & U4). rewrite Er, El.
    split; [done|]. split; intros y z Hy.
    + destruct (decide (y = r)) as [->|Hne]; [done|]. rewrite lookup_insert_ne in Hy by done. specialize (H3 y z Hy). lia.
    + destruct (decide (y = l)) as [->|Hne]; [done|]. rewrite lookup_insert_ne in Hy by done. specialize (H4 y z Hy). lia.
  - done.
  - done.
  - intros y qy [Hy Hty]. rewrite Er in Hy. destruct Hlist as [-> Ho]. destruct (decide (y = r)) as [->|Hne].
    + rewrite lookup_insert_eq in Hy. injection Hy as <-. by rewrite Hqo.
    + rewrite lookup_insert_ne in Hy by done. by apply (wf_listed _ _ Hwf y).
  - intros o2. rewrite (proj1 Hlist), Eo. intros Ho2. destruct (decide (o2 = o)) as [->|Hne]; [rewrite lookup_insert_eq; eauto|].
    rewrite lookup_insert_ne by done. by apply (wf_owners _ _ Hwf).
Qed.
End Add.

Lemma unused_wait x z W t r : sys x z W t -> unused t r -> W !! r = None.
Proof.
  intros Hsys Hf. destruct (W !! r) eqn:E; [|done]. exfalso.
  destruct (sy_wait _ _ _ _ Hsys r) as (q & [Hq Ht] & _); [eauto|]. apply Hf in Hq. by rewrite Hq in Ht.
Qed.

(** A new request at the end of the queue stops nobody. *)
Lemma no_lost_append m rs r q : r ∉ rs -> has_flag (lrq_flags q) LRQ_pending = false ->
  no_lost m rs -> no_lost (<[r := q]> m) (insert_tail r rs).
Proof.
  intros Hr Hp. rewrite !no_lost_head. intros Hn z Hz. unfold insert_tail in Hz.
  assert (Hne : forall y, y ∈ rs -> y <> r) by (by intros y Hy ->).
  rewrite filter_app, (filter_bool_ext _ (flag_of LRQ_pending m) rs) in Hz.
  2:{ intros y Hy. rewrite flag_of_insert, decide_False; auto. }
  assert (Htail : filter (fun y => flag_of LRQ_pending (<[r := q]> m) y = true) [r] = []).
  { assert (E : flag_of LRQ_pending (<[r := q]> m) r = false) by (by rewrite flag_of_insert, decide_True).
    rewrite filter_cons, E. by rewrite decide_False. }
  rewrite Htail, app_nil_r in Hz. destruct (Hn z Hz) as (y & Hy & Hyz & Hc).
  assert (Hzin : z ∈ rs).
  { apply head_filter in Hz as (pre & post & -> & _). set_solver. }
  exists y. rewrite elem_of_insert_tail. split; [by left|]. split; [done|].
  rewrite state_of_insert, decide_False by auto. unfold requested_of in *. rewrite lookup_insert_ne; [done|]. intros <-. done.
Qed.

Section SysAdd.
Context (W : gmap Z wait) (t s : table) (r l : Z) (q : lrq) (b' : lbl).
Hypothesis Hsys : sys None None W t.
Hypothesis Hwf : wf None s.
Hypothesis Hunused : unused t r.
Hypothesis Er : requests s = <[r := q]> (requests t).
Hypothesis El : locks s = <[l := b']> (locks t).
Hypothesis Hql : lrq_type q = type_lrq /\ lrq_lock q = l.
Hypothesis Hqf : lrq_flags q = 0.
Hypothesis Hqr : 1 <= lrq_requested q <= 6.
(** The lock was there, or it is a new one. *)
Hypothesis Hb' : (exists b, locks t !! l = Some b /\ lock_live b /\ lbl_requests b' = insert_tail r (lbl_requests b)) \/
  lbl_requests b' = [r].

Lemma sys_add : sys (Some r) None W s.
Proof using All.
  pose proof (unused_wait _ _ _ _ _ Hsys Hunused) as HWr. destruct Hsys as [S1 S2 S3 S4]. destruct Hql as [Ht Hl].
  assert (Hpend : has_flag (lrq_flags q) LRQ_pending = false) by (by rewrite Hqf).
  assert (Hnf : forall y qy, in_use (requests t) y qy -> y <> r).
  { intros y qy [Hy Hty] ->. apply Hunused in Hy. by rewrite Hy in Hty. }
  assert (Hother : forall l2 b2 y, locks t !! l2 = Some b2 -> lock_live b2 -> y ∈ lbl_requests b2 -> y <> r).
  { intros l2 b2 y Hb2 Hlive2 Hy. destruct (queue_lock None t l2 b2 y S1 Hb2 Hlive2 Hy) as (qy & Hqy & _). by eapply Hnf. }
  split; [done|..].
  - intros y p [Hp Hpt] Hpd. rewrite Er in Hp. destruct (decide (y = r)) as [->|Hne].
    + rewrite lookup_insert_eq in Hp. injection Hp as <-. split; [done|congruence|done|congruence].
    + rewrite lookup_insert_ne in Hp by done. destruct (S2 y p (conj Hp Hpt) Hpd) as [R1 R2 R3 R4]. split; try done. intros _. by apply R3.
  - intros y Hy. destruct (S3 y Hy) as (p & Hp & Hpd). exists p. rewrite Er. split; [|done].
    apply in_use_insert_other; [|done]. by eapply Hnf.
  - intros l2 b2 _ Hb2 Hlive2. rewrite El in Hb2. destruct (decide (l2 = l)) as [->|Hne].
    + rewrite lookup_insert_eq in Hb2. injection Hb2 as <-. destruct Hb' as [(b & Hb & Hlive & Hrq)|Hrq].
      * assert (Hnotin : r ∉ lbl_requests b) by (intros Hin; by apply (Hother l b r)).
        destruct (S4 l b ltac:(done) Hb Hlive) as [Hn|(y & Hy & Hyw & Hyj)]; [left|right].
        -- rewrite Er, Hrq. apply no_lost_append; auto.
        -- exists y. rewrite Hrq, elem_of_insert_tail. split; [by left|]. split; [done|].
           rewrite Er, flag_of_insert, decide_False; [done|]. by apply (Hother l b).
      * left. apply no_lost_none. intros y. rewrite Hrq. intros ->%list_elem_of_singleton.
        by rewrite Er, flag_of_insert, decide_True.
    + rewrite lookup_insert_ne in Hb2 by done.
      destruct (S4 l2 b2 ltac:(done) Hb2 Hlive2) as [Hn|Hj]; [left|right].
      * eapply no_lost_core; [|done]. intros y Hy. rewrite Er, lookup_insert_ne by (intros <-; by apply (Hother l2 b2 r)).
        destruct (requests t !! y); [apply core_refl|done].
      * eapply rejected_in_kept; [|done]. intros y Hy Hyw. split; [done|].
        rewrite Er, lookup_insert_ne by (intros <-; by apply (Hother l2 b2 r)). destruct (requests t !! y); [apply kept_refl|done].
Qed.
End SysAdd.

(** ** Allocation *)

Lemma remove_head_spec (r : Z) rs : NoDup (r :: rs) -> NoDup (remove_que r (r :: rs)) /\
  forall y, y ∈ remove_que r (r :: rs) -> y ∈ r :: rs /\ y <> r.
Proof.
  intros Hnd. split; [by apply remove_que_NoDup|]. intros y [? ?]%elem_of_remove_que. done.
Qed.

(** A block behind those that are used, in memory that is mapped *)
Lemma wp_alloc t : room_ok t ->
  wp alloc (fun a t' =>
    match a with
    | None => t' = t
    | Some l => l = lhb_used t /\ exists e, t' = set_lhb_used (l + 1) (set_lhb_length e t) /\ room_ok t'
    end) t.
Proof.
  intros (H1 & H2 & H3). apply wp_bind, wp_gets, wp_bind, wp_gets, wp_bind. case_decide as Hd.
  - apply wp_bind, wp_gets, wp_bind, wp_bind, wp_gets, wp_ret, wp_bind. case_bool_decide as Hm.
    + apply wp_modify, wp_ret, wp_bind, wp_modify, wp_ret. split; [done|]. eexists. split; [done|]. unfold room_ok. cbn. lia.
    + apply wp_ret, wp_ret. by apply wp_ret.
  - apply wp_ret, wp_bind, wp_modify, wp_ret. split; [done|]. exists (lhb_length t). split; [by destruct t|]. unfold room_ok. cbn. lia.
Qed.

Lemma wp_new_request t : wf None t ->
  wp new_request (fun a t' =>
    match a with
    | None => t' = t
    | Some r => exists f u e, t' = set_lhb_free_requests f (set_lhb_used u (set_lhb_length e t)) /\ unused t r /\
        (NoDup f /\ forall y, y ∈ f -> y ∈ lhb_free_requests t /\ y <> r) /\ lhb_used t <= u /\ room_ok t' /\ 0 < r < u
    end) t.
Proof.
  intros Hwf. destruct (wf_free _ _ Hwf) as [Hnd Hf]. destruct (wf_used _ _ Hwf) as (H1 & H3 & H4).
  unfold new_request. apply wp_bind, wp_gets. destruct (lhb_free_requests t) as [|r rs] eqn:E.
  - eapply wp_mono; [by apply wp_alloc|]. intros [r|] t'; [|done]. intros (-> & e & -> & Hr). exists [], (lhb_used t + 1), e. split.
    + destruct t. cbn in *. by subst.
    + split; [intros q Hq; specialize (H3 _ _ Hq); lia|]. split; [split; [by apply NoDup_nil|by intros y ?%elem_of_nil]|].
      destruct H1. split; [lia|]. split; [done|lia].
  - apply wp_bind, wp_modify, wp_ret. rewrite E. eexists _, (lhb_used t), (lhb_length t). split; [by destruct t|].
    destruct (Hf r ltac:(set_solver)) as (q & Hq & Ht). split; [intros q' Hq'; congruence|].
    split; [by apply remove_head_spec|]. specialize (H3 _ _ Hq). split; [lia|]. split; [done|lia].
Qed.

Lemma wp_find_free size ls t : (forall l, l ∈ ls -> is_Some (locks t !! l)) ->
  wp (find_free size ls) (fun a t' => t' = t /\ forall l, a = Some l -> l ∈ ls) t.
Proof.
  induction ls as [|l ls IH]; intros H; cbn [find_free]; [by apply wp_ret|].
  destruct (H l ltac:(set_solver)) as [b Hb]. apply wp_bind. eapply wp_lbl_at; [done|]. case_decide.
  - apply wp_ret. split; [done|]. intros ? [= <-]. set_solver.
  - eapply wp_mono; [apply IH; intros y Hy; apply H; set_solver|]. intros a t' [-> Ha]. split; [done|].
    intros y Hy. specialize (Ha y Hy). set_solver.
Qed.

Lemma wp_alloc_lock n t :
  (forall l, l ∈ lhb_free_locks t -> exists b, locks t !! l = Some b /\ lbl_type b = type_null) ->
  (forall l b, locks t !! l = Some b -> 0 < l < lhb_used t) -> room_ok t ->
  wp (alloc_lock n) (fun a t' =>
    match a with
    | None => t' = t
    | Some (l, _) => exists f u e, t' = set_lhb_free_locks f (set_lhb_used u (set_lhb_length e t)) /\ unused_lock t l /\
        (forall y, y ∈ f -> y ∈ lhb_free_locks t /\ y <> l) /\ lhb_used t <= u /\ room_ok t' /\ 0 < l < u
    end) t.
Proof.
  intros Hf Hl Hu. unfold alloc_lock. apply wp_bind, wp_gets. apply wp_bind.
  eapply wp_mono; [apply wp_find_free|].
  { intros l Hin. destruct (Hf l Hin) as (b & Hb & _). eauto. }
  intros [l|] t' [-> Ha].
  - destruct (Hf l (Ha l eq_refl)) as (b & Hb & Ht). apply wp_bind, wp_modify, wp_bind. eapply wp_lbl_at; [done|]. apply wp_ret.
    eexists _, (lhb_used t), (lhb_length t). split; [by destruct t|]. split; [intros b' Hb'; congruence|].
    split; [by intros y [? ?]%elem_of_remove_que|]. specialize (Hl _ _ Hb). split; [lia|]. split; [done|lia].
  - apply wp_bind. eapply wp_mono; [by apply wp_alloc|]. intros [l|] t'; [|intros ->; by apply wp_ret].
    intros (-> & e & -> & Hr). apply wp_ret. exists (lhb_free_locks t), (lhb_used t + 1), e. split; [by destruct t|].
    split; [intros b Hb; specialize (Hl _ _ Hb); lia|]. destruct Hu. split; [|split; [lia|split; [done|lia]]]. intros y Hy.
    split; [done|]. intros ->. destruct (Hf _ Hy) as (b & Hb & _). specialize (Hl _ _ Hb). lia.
Qed.

(** The lock is for the key in the series, both of whose series and length of key have 8 bits: a request for
    more is granted in a lock of its own. *)
Definition named (b : lbl) (series : Z) (value : list Z) : Prop :=
  (lbl_series b = series \/ lbl_series b = wrapU 8 series) /\
  (lbl_length b = Z.of_nat (length value) \/ lbl_length b = wrapU 8 (Z.of_nat (length value))) /\
  take (length value) (lbl_key b) = value.

Section Hash.
Context (internal_hash : list Z -> Z).

Lemma wp_hash_slot value t : hash_ok t ->
  wp (hash_slot internal_hash value) (fun slot t' => t' = t /\ 0 <= slot < Z.of_nat (length (lhb_hash t))) t.
Proof.
  intros (Hn & Hs & _). apply wp_bind, wp_gets. rewrite decide_False by done. apply wp_ret. split; [done|].
  assert (0 < Z.of_nat (length (lhb_hash t))) by (destruct (lhb_hash t); [done|cbn; lia]).
  pose proof (Z.mod_pos_bound (internal_hash value) (Z.of_nat (length (lhb_hash t))) ltac:(lia)).
  rewrite wrap16_small; lia.
Qed.

Lemma wp_find_in_chain series value chain t : (forall l, l ∈ chain -> exists b, locks t !! l = Some b /\ lock_live b) ->
  wp (find_in_chain series value chain) (fun a t' => t' = t /\ forall l, a = Some l ->
    exists b, locks t !! l = Some b /\ lock_live b /\ named b series value) t.
Proof.
  induction chain as [|l chain IH]; intros H; cbn [find_in_chain]; [by apply wp_ret|].
  destruct (H l ltac:(set_solver)) as (b & Hb & Hlive). apply wp_bind. eapply wp_lbl_at; [done|]. case_decide as Hd.
  - apply wp_ret. split; [done|]. intros ? [= <-]. exists b. unfold named. tauto.
  - apply IH. intros y Hy. apply H. set_solver.
Qed.

Lemma wp_find_lock series value t : hash_ok t ->
  wp (find_lock internal_hash series value) (fun a t' => t' = t /\ forall l, a = Some l ->
    exists b, locks t !! l = Some b /\ lock_live b /\ named b series value) t.
Proof.
  intros Hh. apply wp_bind. eapply wp_mono; [by apply wp_hash_slot|]. intros slot t' [-> Hs]. apply wp_bind, wp_gets, wp_bind.
  destruct (proj2 (aget_is_Some (lhb_hash t) slot) Hs) as [chain Hc]. eapply wp_access; [exact Hc|].
  apply wp_find_in_chain. intros l Hl. destruct Hh as (_ & _ & H). apply (H chain); [|done].
  apply aget_Some in Hc as [_ Hc]. by eapply list_elem_of_lookup_2.
Qed.

(** The lock goes to the end of the chain. *)
Lemma wp_insert_hash slot l t b : hash_ok t -> 0 <= slot < Z.of_nat (length (lhb_hash t)) -> locks t !! l = Some b -> lock_live b ->
  wp (insert_hash slot l) (fun _ t' => exists h, t' = set_lhb_hash h t /\ hash_ok t') t.
Proof.
  intros (Hn & Hs & Hh) Hslot Hb Hlive. apply wp_bind, wp_gets, wp_bind.
  destruct (proj2 (aget_is_Some (lhb_hash t) slot) Hslot) as [chain Hc]. eapply wp_access; [exact Hc|].
  apply wp_bind. eapply wp_access; [by apply aset_in|]. apply wp_modify. eexists. split; [done|].
  apply aget_Some in Hc as [_ Hc%list_elem_of_lookup_2]. split; [|split]; cbn.
  - destruct (lhb_hash t); [done|]. by destruct (Z.to_nat slot).
  - by rewrite length_insert.
  - intros ch y Hch Hy. apply elem_of_insert_inv in Hch as [->|Hch]; [|by apply (Hh ch)].
    apply elem_of_insert_tail in Hy as [Hy| ->]; [by apply (Hh chain)|eauto].
Qed.

End Hash.

(** ** The request joins a lock *)

Lemma lock_ok_append m l b r q : lock_ok m None l b -> r ∉ lbl_requests b -> lrq_type q = type_lrq -> lrq_lock q = l ->
  lrq_flags q = 0 -> lrq_state q = 0 -> 1 <= lrq_requested q <= 6 -> Z.of_nat (length (lbl_requests b)) + 1 < 65536 ->
  lock_ok (<[r := q]> m) None l (set_lbl_requests (insert_tail r (lbl_requests b)) b).
Proof.
  intros Hok Hr Ht Hl Hf Hs Hreq Hlen.
  assert (Hne : forall y, y ∈ lbl_requests b -> y <> r) by (by intros y Hy ->).
  assert (Hst : forall y, y ∈ lbl_requests b -> state_of (<[r := q]> m) y = state_of m y).
  { intros y Hy. rewrite state_of_insert, decide_False; auto. }
  assert (Hsr : state_of (<[r := q]> m) r = 0) by (by rewrite state_of_insert, decide_True).
  unfold insert_tail.
  split; cbn [lbl_requests set_lbl_requests lbl_counts lbl_series lbl_pending_lrq_count lbl_state]; try apply Hok.
  - apply NoDup_app. split; [apply Hok|]. split; [|apply NoDup_singleton]. by intros y Hy ->%list_elem_of_singleton.
  - rewrite length_app. cbn. lia.
  - intros y [Hy| ->%list_elem_of_singleton]%elem_of_app.
    + destruct (ok_request _ _ _ _ Hok y Hy) as (qy & Hqy & H). exists qy. split; [|done]. apply in_use_insert_other; auto.
    + exists q. split; [by apply in_use_insert_self|]. unfold queued, level. rewrite Hf, Hs. split_and!; try done; lia.
  - intros k Hk. cbn [counted]. rewrite (ok_counts _ _ _ _ Hok k Hk), count_app, count_cons. cbn [counted].
    rewrite (holds_insert m r q k r), decide_True, bool_decide_false by (done || lia). cbn.
    change (count (holds (<[r:=q]> m) k) []) with 0.
    rewrite (count_ext (holds (<[r:=q]> m) k) (holds m k)); [lia|]. intros y Hy. unfold holds. by rewrite Hst.
  - rewrite (ok_pending _ _ _ _ Hok), count_app, count_cons.
    rewrite (flag_of_insert _ _ _ _ r), decide_True, Hf by done.
    change (count (flag_of LRQ_pending (<[r:=q]> m)) []) with 0. change (Z.b2z (has_flag 0 LRQ_pending)) with 0.
    rewrite (count_ext (flag_of LRQ_pending (<[r:=q]> m)) (flag_of LRQ_pending m)); [lia|].
    intros y Hy. rewrite flag_of_insert, decide_False; auto.
  - intros y y' Hy Hy' Hyy.
    apply elem_of_app in Hy as [Hy| ->%list_elem_of_singleton]; apply elem_of_app in Hy' as [Hy'| ->%list_elem_of_singleton].
    + rewrite !Hst by done. by apply (ok_compatible _ _ _ _ Hok).
    + rewrite Hsr. apply compatible_none. rewrite Hst by done. by eapply state_of_level.
    + rewrite Hsr, compatible_sym; [apply compatible_none| |]; [..|rewrite Hst by done; by eapply state_of_level].
      * rewrite Hst by done. by eapply state_of_level.
      * unfold level. lia.
    + done.
  - intros _. by apply (ok_state _ _ _ _ Hok).
Qed.

Lemma lock_ok_new m l r q b : lrq_type q = type_lrq -> lrq_lock q = l -> lrq_flags q = 0 -> lrq_state q = 0 ->
  1 <= lrq_requested q <= 6 -> lbl_requests b = [r] -> lbl_counts b = replicate LCK_max 0 -> lbl_pending_lrq_count b = 0 ->
  0 <= lbl_series b -> forall x, x = Some r \/ lbl_state b = 0 -> lock_ok (<[r := q]> m) x l b.
Proof.
  intros Ht Hl Hf Hs Hreq Hrq Hc Hp Hse x Hx.
  assert (Hcnt : forall k, 1 <= k <= 6 -> count (holds (<[r:=q]> m) k) (counted x [r]) = 0).
  { intros k Hk. destruct (decide (count (holds (<[r:=q]> m) k) (counted x [r]) = 0)) as [?|Hne]; [done|].
    apply count_pos in Hne as (y & Hy & Hh). exfalso. apply counted_subset, list_elem_of_singleton in Hy. subst y.
    rewrite holds_insert, decide_True, bool_decide_eq_true in Hh by done. lia. }
  split; rewrite ?Hrq, ?Hc; try done.
  - apply NoDup_singleton.
  - intros y ->%list_elem_of_singleton. exists q. split; [by apply in_use_insert_self|].
    unfold queued, level. rewrite Hf, Hs. split_and!; try done; lia.
  - intros k Hk. rewrite Hcnt by done. apply list_lookup_total_correct, lookup_replicate. unfold LCK_max. lia.
  - rewrite Hp, count_cons, flag_of_insert, decide_True, Hf by done. done.
  - intros y y' ->%list_elem_of_singleton ->%list_elem_of_singleton. done.
  - intros Hn. destruct Hx as [->|Hx]; [|done]. exfalso. apply (Hn r); set_solver.
Qed.

Section Join.
Context (W : gmap Z wait) (t s : table) (r l o : Z) (q : lrq) (w w' : own) (f : list Z) (u : Z).
Hypothesis Hsys : sys None None W t.
Hypothesis Hunused : unused t r.
Hypothesis Hw : owners t !! o = Some w.
Hypothesis Hq : lrq_type q = type_lrq /\ lrq_owner q = o /\ lrq_lock q = l /\ lrq_flags q = 0 /\ lrq_state q = 0 /\ 1 <= lrq_requested q <= 6.
Hypothesis Hw' : own_requests w' = insert_tail r (own_requests w) /\ own_pending w' = own_pending w /\ own_blocks w' = own_blocks w.
Hypothesis Hf : NoDup f /\ forall y, y ∈ f -> y ∈ lhb_free_requests t /\ y <> r.
Hypothesis Hu : lhb_used t <= u /\ 0 < r < u.
Hypothesis Er : requests s = <[r := q]> (requests t).
Hypothesis Eo : owners s = <[o := w']> (owners t).
Hypothesis Ef : lhb_free_requests s = f.
Hypothesis Hroom : room_ok s.
Hypothesis Hlist : lhb_owners s = lhb_owners t /\ o ∈ lhb_owners t.

Lemma unused_queue l2 b2 : locks t !! l2 = Some b2 -> lock_live b2 -> r ∉ lbl_requests b2.
Proof using Hsys Hunused.
  intros Hb Hlive Hin. destruct (queue_lock None t l2 b2 r (sy_wf _ _ _ _ Hsys) Hb Hlive Hin) as (q0 & [Hq0 Ht] & _).
  apply Hunused in Hq0. by rewrite Hq0 in Ht.
Qed.

Lemma sys_join b : locks t !! l = Some b -> lock_live b ->
  locks s = <[l := set_lbl_requests (insert_tail r (lbl_requests b)) b]> (locks t) ->
  lhb_free_locks s = lhb_free_locks t -> lhb_used s = u -> lhb_hash s = lhb_hash t -> lhb_data s = lhb_data t ->
  sys (Some r) None W s.
Proof using All.
  intros Hb Hlive Ell Efl Eu Eh Ed. pose proof (sy_wf _ _ _ _ Hsys) as Hwf. destruct (wf_lock _ _ Hwf l b Hb Hlive) as [_ Hok].
  destruct (wf_used _ _ Hwf) as (U1 & U3 & U4). pose proof Hroom as (R1 & R2 & _). destruct Hq as (Q1 & Q2 & Q3 & Q4 & Q5 & Q6), Hw' as (W1 & W2 & W3).
  assert (Hsame : forall y b2, locks t !! y = Some b2 -> lock_live b2 -> exists b3, locks s !! y = Some b3 /\ lock_live b3).
  { intros y b2 Hb2 Hl2. rewrite Ell. destruct (decide (y = l)) as [->|Hne].
    - eexists. by rewrite lookup_insert_eq.
    - exists b2. by rewrite lookup_insert_ne. }
  assert (Hlen : Z.of_nat (length (lbl_requests b)) + 1 < 65536).
  { assert (Z.of_nat (length (r :: lbl_requests b)) <= u); [|cbn [length] in *; lia]. apply NoDup_bounded; [|lia|].
    - apply NoDup_cons. split; [by apply (unused_queue l)|apply Hok].
    - intros y [->|Hy]%elem_of_cons; [lia|]. destruct (ok_request _ _ _ _ Hok y Hy) as (qy & [Hqy _] & _). specialize (U3 _ _ Hqy). lia. }
  assert (Hwfs : wf None s).
  { eapply (wf_add None t s r l o q _ w w'); try done.
    - intros b2 y Hb2 _ Hy. assert (b2 = b) as -> by congruence. cbn. apply elem_of_insert_tail. by left.
    - cbn. apply elem_of_insert_tail. by right.
    - rewrite Er. apply lock_ok_append; try done. by apply (unused_queue l).
    - by left.
    - by rewrite Ef.
    - intros y Hy. rewrite Efl in Hy. split; [done|]. intros ->. destruct (wf_free_locks _ _ Hwf l Hy) as (b2 & Hb2 & Ht2).
      assert (b2 = b) as -> by congruence. unfold lock_live in Hlive. by rewrite Hlive in Ht2.
    - rewrite Eu. specialize (U4 _ _ Hb). split_and!; [lia|done|lia..].
    - destruct (wf_hash _ _ Hwf) as (H1 & H2 & H3). split; [|split]; rewrite Eh; try done. intros ch y Hc Hy.
      destruct (H3 ch y Hc Hy) as (b2 & Hb2 & Hl2). by eapply Hsame.
    - destruct (wf_data _ _ Hwf) as [H1 H2]. split; rewrite Ed; [done|]. intros ch y Hc Hy.
      destruct (H2 ch y Hc Hy) as (b2 & Hb2 & Hl2). by eapply Hsame. }
  eapply (sys_add W t s r l q); try done. left. eauto.
Qed.

(** [k]: what is written as the state of the new lock at first *)
Lemma wf_new b k : unused_lock t l -> 0 < l < lhb_used s -> lhb_used t <= lhb_used s ->
  lock_live b -> lbl_requests b = [r] -> lbl_counts b = replicate LCK_max 0 -> lbl_pending_lrq_count b = 0 -> 0 <= lbl_series b ->
  0 < r < lhb_used s ->
  locks s = <[l := set_lbl_state k b]> (locks t) -> (forall y, y ∈ lhb_free_locks s -> y ∈ lhb_free_locks t /\ y <> l) ->
  hash_ok s -> data_ok s -> forall x, x = Some r \/ x = None /\ k = 0 -> wf x s.
Proof using All.
  intros Hul Hl Hu2 Hlive B1 B2 B3 B4 Hr Ell Hfl Hh Hd x Hx.
  pose proof (sy_wf _ _ _ _ Hsys) as Hwf. destruct Hq as (Q1 & Q2 & Q3 & Q4 & Q5 & Q6), Hw' as (W1 & W2 & W3).
  eapply (wf_add x t s r l o q _ w w'); try done.
  - intros b2 y Hb2 Hl2. apply Hul in Hb2. unfold lock_live in Hl2. by rewrite Hb2 in Hl2.
  - cbn. rewrite B1. apply list_elem_of_here.
  - rewrite Er. apply (lock_ok_new _ l r q); try done. destruct Hx as [->|[_ ->]]; [by left|by right].
  - destruct Hx as [->|[-> _]]; [by right|by left].
  - by rewrite Ef.
Qed.

End Join.

Lemma hash_ok_upd_lbl t l b : hash_ok t -> lock_live b -> hash_ok (upd_lbl l b t).
Proof.
  intros (H1 & H2 & H3) Hlive. split; [done|]. split; [done|]. intros ch y Hc Hy. destruct (H3 ch y Hc Hy) as (b2 & Hb2 & Hl2). cbn.
  destruct (decide (y = l)) as [->|Hne]; [rewrite lookup_insert_eq; eauto|rewrite lookup_insert_ne by done; eauto].
Qed.

(** ** Blocks of requests that are in no queue of a lock *)

Section Aside.
Context (W : gmap Z wait) (t s : table) (r o : Z) (q' : lrq) (w w' : own).
Hypothesis Hsys : sys None None W t.
Hypothesis Hw : owners t !! o = Some w.
Hypothesis Hr : forall q, in_use (requests t) r q -> ~ queued q /\ lrq_owner q = o.
Hypothesis Hq' : lrq_type q' = type_null \/
  lrq_type q' = type_lrq /\ ~ queued q' /\ lrq_owner q' = o /\ has_flag (lrq_flags q') LRQ_pending = false /\
  has_flag (lrq_flags q') LRQ_blocking = false.
Hypothesis Er : requests s = <[r := q']> (requests t).
Hypothesis El : locks s = locks t.
Hypothesis Eo : owners s = <[o := w']> (owners t).
Hypothesis Hw' : own_requests w' = own_requests w /\ own_pending w' = own_pending w /\
  forall y, y ∈ own_blocks w' <-> (y <> r /\ y ∈ own_blocks w) \/ (y = r /\ lrq_type q' = type_lrq).
Hypothesis Hfree : NoDup (lhb_free_requests s) /\
  forall y, y ∈ lhb_free_requests s -> (y ∈ lhb_free_requests t /\ y <> r) \/ (y = r /\ lrq_type q' = type_null).
Hypothesis Efl : lhb_free_locks s = lhb_free_locks t.
Hypothesis Hu : lhb_used t <= lhb_used s /\ room_ok s /\ 0 < r < lhb_used s.
Hypothesis Eh : lhb_hash s = lhb_hash t.
Hypothesis Ed : lhb_data s = lhb_data t.
Hypothesis Hlist : lhb_owners s = lhb_owners t /\ (lrq_type q' = type_lrq -> o ∈ lhb_owners t).

Lemma aside_ne y qy : in_use (requests t) y qy -> queued qy -> y <> r.
Proof using Hr. intros Hy Hqd ->. by destruct (Hr qy Hy). Qed.

Lemma aside_forth y qy : in_use (requests t) y qy -> y <> r -> in_use (requests s) y qy.
Proof using Er. intros Hy Hne. rewrite Er. by apply in_use_insert_other. Qed.

Lemma aside_back y qy : in_use (requests s) y qy ->
  (y <> r /\ in_use (requests t) y qy) \/ (y = r /\ qy = q' /\ lrq_type q' = type_lrq /\ ~ queued q' /\ lrq_owner q' = o /\
    has_flag (lrq_flags q') LRQ_pending = false /\ has_flag (lrq_flags q') LRQ_blocking = false).
Proof using Er Hq'.
  intros [Hy Hty]. rewrite Er in Hy. destruct (decide (y = r)) as [->|Hne].
  - rewrite lookup_insert_eq in Hy. injection Hy as <-. right. destruct Hq' as [Ht|(A1 & A2 & A3 & A4 & A5)]; [by rewrite Ht in Hty|]. by split_and!.
  - rewrite lookup_insert_ne in Hy by done. by left.
Qed.

Lemma aside_core l b : locks t !! l = Some b -> lock_live b -> forall y, y ∈ lbl_requests b ->
  y <> r /\ on_option core_lrq (requests t !! y) (requests s !! y).
Proof using Hsys Hr Er.
  intros Hb Hlive y Hy. destruct (queue_lock None t l b y (sy_wf _ _ _ _ Hsys) Hb Hlive Hy) as (qy & Hqy & _ & Hqd & _).
  assert (Hne : y <> r) by (by eapply aside_ne). split; [done|]. rewrite Er, lookup_insert_ne by done.
  destruct (requests t !! y); [apply core_refl|done].
Qed.

Lemma wf_aside : wf None s.
Proof using All.
  pose proof (sy_wf _ _ _ _ Hsys) as Hwf. destruct Hw' as (W1 & W2 & W3).
  split.
  - intros l b Hb Hlive. rewrite El in Hb. destruct (wf_lock _ _ Hwf l b Hb Hlive) as [Hn Hok]. split; [done|].
    apply (lock_ok_frame (requests t) _ None None); [|by right|done]. intros y qy Hy Hqy.
    destruct (aside_core l b Hb Hlive y Hy) as [_ Hc]. rewrite Hqy in Hc. destruct (requests s !! y); [eauto|done].
  - intros y qy Hqy. destruct (aside_back y qy Hqy) as [[Hne Hy]|(-> & -> & Ht & Hn & Ho & Hp & Hb)].
    + destruct (wf_request _ _ Hwf y qy Hy) as [(o2 & Ho2 & H1 & H2 & H3) H4 H5]. split; rewrite ?El; try done. rewrite Eo.
      destruct (decide (lrq_owner qy = o)) as [Heq|Hneo].
      * rewrite Heq, Hw in Ho2. injection Ho2 as <-. exists w'. rewrite Heq, lookup_insert_eq, W1, W2, W3. split_and!; auto.
      * exists o2. rewrite lookup_insert_ne by done. auto.
    + split; try done. exists w'. rewrite Ho, Eo, lookup_insert_eq, W3. split_and!; try done; [congruence|]. intros _. by right.
  - intros o2 w2 Hw2. rewrite Eo in Hw2.
    assert (Hold : forall y qy, in_use (requests t) y qy -> lrq_owner qy = o2 -> o2 <> o -> y <> r).
    { intros y qy Hy Hoy Hno ->. destruct (Hr qy Hy). congruence. }
    destruct (decide (o2 = o)) as [->|Hne].
    + rewrite lookup_insert_eq in Hw2. injection Hw2 as <-. destruct (wf_own _ _ Hwf o w Hw) as [H1 H2 H3]. split.
      * intros y Hy. rewrite W1 in Hy. destruct (H1 y Hy) as (qy & Hqy & Hoy & Hqd). exists qy. split; [|done].
        apply aside_forth; [done|by eapply aside_ne].
      * intros y Hy. rewrite W2 in Hy. destruct (H2 y Hy) as (qy & Hqy & Hoy & Hp). exists qy. split; [|done].
        apply aside_forth; [done|]. intros ->. destruct (Hr qy Hqy) as [Hn _].
        destruct (ro_repost _ _ _ (wf_request _ _ Hwf r qy Hqy) Hn). congruence.
      * intros y Hy. apply W3 in Hy as [[Hne Hy]|[-> Ht]].
        -- destruct (H3 y Hy) as (qy & Hqy & Hz). exists qy. split; [by apply aside_forth|done].
        -- exists q'. rewrite Er. split; [by apply in_use_insert_self|]. destruct Hq' as [Hnull|(_ & Hn & Ho & _)]; [by rewrite Hnull in Ht|auto].
    + rewrite lookup_insert_ne in Hw2 by done. destruct (wf_own _ _ Hwf o2 w2 Hw2) as [H1 H2 H3].
      split; intros y Hy; [destruct (H1 y Hy) as (qy & Hqy & Hoy & Hz)|destruct (H2 y Hy) as (qy & Hqy & Hoy & Hz)
        |destruct (H3 y Hy) as (qy & Hqy & Hoy & Hz)]; exists qy; (split; [apply aside_forth; eauto|done]).
  - destruct Hfree as [Hnd Hf]. split; [done|]. intros y Hy. destruct (Hf y Hy) as [[Hyt Hne]|[-> Ht]].
    + destruct (proj2 (wf_free _ _ Hwf) y Hyt) as (qy & Hqy & Hty). exists qy. by rewrite Er, lookup_insert_ne.
    + exists q'. by rewrite Er, lookup_insert_eq.
  - rewrite Efl, El. apply (wf_free_locks _ _ Hwf).
  - destruct Hu as (U1 & U2 & U3). rewrite Er, El. destruct (wf_used _ _ Hwf) as (H1 & H3 & H4).
    split; [done|]. split; intros y z Hy.
    + destruct (decide (y = r)) as [->|Hd]; [done|]. rewrite lookup_insert_ne in Hy by done. specialize (H3 _ _ Hy). lia.
    + specialize (H4 _ _ Hy). lia.
  - rewrite Eh, El. apply (wf_hash _ _ Hwf).
  - destruct (wf_data _ _ Hwf) as [H1 H2]. split; rewrite Ed, ?El; done.
  - intros y qy Hqy. destruct Hlist as [-> Ho]. destruct (aside_back y qy Hqy) as [[_ Hy]|(-> & -> & Ht & _ & -> & _)]; [|auto].
    by apply (wf_listed _ _ Hwf y).
  - intros o2. rewrite (proj1 Hlist), Eo. intros Ho2. destruct (decide (o2 = o)) as [->|Hne]; [rewrite lookup_insert_eq; eauto|].
    rewrite lookup_insert_ne by done. by apply (wf_owners _ _ Hwf).
Qed.

Lemma sys_aside : sys None None W s.
Proof using All.
  pose proof wf_aside as Hwfs. pose proof Hsys as [S1 S2 S3 S4]. split; [done|..].
  - intros y qy Hqy Hqd. destruct (aside_back y qy Hqy) as [[Hne Hy]|(-> & -> & _ & Hn & _)]; [by apply S2|done].
  - intros y Hy. destruct (S3 y Hy) as (qy & Hqy & Hqd). exists qy. split; [|done]. apply aside_forth; [done|by eapply aside_ne].
  - intros l b _ Hb Hlive. rewrite El in Hb. pose proof (aside_core l b Hb Hlive) as Hc.
    destruct (S4 l b ltac:(done) Hb Hlive) as [Hn|Hj]; [left|right].
    + eapply no_lost_core; [|done]. intros y Hy. by apply Hc.
    + eapply rejected_in_kept; [|done]. intros y Hy Hyw. split; [done|]. eapply on_option_mono; [|by apply Hc]. by intros ? ? [].
Qed.
End Aside.

(** A lock without requests that wait has been looked at. *)
Lemma sys_nobody_waits x l W t : sys x (Some l) W t ->
  (forall b, locks t !! l = Some b -> lock_live b -> forall y, y ∈ lbl_requests b -> flag_of LRQ_pending (requests t) y = false) ->
  sys x None W t.
Proof.
  intros [S1 S2 S3 S4] H. split; try done. intros l2 b2 _ Hb2 Hlive2. destruct (decide (l2 = l)) as [->|Hne].
  - left. apply no_lost_none. by apply (H b2).
  - apply (S4 l2 b2); [congruence|done..].
Qed.

(** ** [enqueue] *)

Section Enqueue.
Context (internal_hash : list Z -> Z).
Context (W : gmap Z wait) (t : table) (r o : Z) (w : own) (f : list Z) (u e series : Z) (value : list Z) (type data : Z).
Hypothesis Hsys : sys None None W t.
Hypothesis Hunused : unused t r.
Hypothesis Hw : owners t !! o = Some w.
Hypothesis Ho : o ∈ lhb_owners t.
Hypothesis Hf : NoDup f /\ forall y, y ∈ f -> y ∈ lhb_free_requests t /\ y <> r.
Hypothesis Hu : lhb_used t <= u /\ 0 < r < u.
Hypothesis Hroom : room_ok (set_lhb_used u (set_lhb_length e t)).
Hypothesis Htype : 1 <= type <= 6.
Hypothesis Hseries : 0 <= series.
Context (q : lrq).
Hypothesis Hq : lrq_type q = type_lrq /\ lrq_owner q = o /\ lrq_flags q = 0 /\ lrq_state q = 0 /\ lrq_requested q = type.

(** The table with the request, which has no lock yet *)
Definition made : table :=
  upd_own o (set_own_requests (insert_tail r (own_requests w)) w)
    (upd_lrq r q (set_lhb_free_requests f (set_lhb_used u (set_lhb_length e t)))).

Lemma made_hash : hash_ok made.
Proof using Hsys. apply (wf_hash _ _ (sy_wf _ _ _ _ Hsys)). Qed.

Lemma enqueue_found l b d lck_wait : locks t !! l = Some b -> lock_live b ->
  wp (change_lbl l (fun b => set_lbl_requests (insert_tail r (lbl_requests b)) b);;
      change_lrq r (set_lrq_data d);;
      a ← grant_or_que r l lck_wait; ret (a, match a with Denied => 0 | _ => r end))
    (fun '(a, v) t' =>
      match a with
      | Granted => v = r /\ sys None None W t' /\ exists q', in_use (requests t') r q' /\ queued q' /\ lrq_state q' = type
      | Waits => v = r /\ lck_wait <> 0 /\ sys None None (<[r := WEnqueue]> W) t' /\
          exists q', in_use (requests t') r q' /\ queued q' /\ lrq_requested q' = type /\
            lrq_state q' = 0 /\ has_flag (lrq_flags q') LRQ_pending = true
      | Denied => v = 0 /\ lck_wait = 0 /\ sys None None W t'
      end) made.
Proof using All.
  intros Hb Hlive. destruct Hq as (Q1 & Q2 & Q3 & Q4 & Q5).
  apply wp_bind. eapply wp_change_lbl; [exact Hb|]. apply wp_bind. eapply wp_change_lrq; [unfold made; by lookups|].
  match goal with |- wp _ _ ?tt => set (t0 := tt) end. apply wp_bind.
  assert (Hs : sys (Some r) None W (upd_lrq r (set_lrq_lock l (set_lrq_data d q)) t0)).
  { eapply (sys_join W t _ r l o (set_lrq_lock l (set_lrq_data d q)) w (set_own_requests (insert_tail r (own_requests w)) w) f u); try done.
    - cbn. by rewrite Q1, Q2, Q3, Q4, Q5.
    - cbn. by rewrite !insert_insert_eq. }
  eapply wp_mono; [apply (sys_grant_or_que W t0 lck_wait r (set_lrq_data d q) l); try done|].
  - unfold t0. cbn. by rewrite insert_insert_eq, lookup_insert_eq.
  - by apply in_use_insert_self.
  - unfold queued. cbn. by rewrite Q3.
  - cbn. by rewrite Q3.
  - by apply (unused_wait _ _ _ _ _ Hsys Hunused).
  - intros a t' Ha. apply wp_ret. cbn in Ha. rewrite Q5 in Ha. destruct a; naive_solver.
Qed.

Lemma enqueue_made :
  wp (enqueue_new internal_hash r series value type data)
    (fun '(a, v) t' =>
      match a with
      | Granted => v = r /\ sys None None W t' /\ exists q', in_use (requests t') r q' /\ queued q' /\ lrq_state q' = type
      | Waits => False
      | Denied => v = 0 /\ sys None None W t'
      end) made.
Proof using All.
  destruct Hq as (Q1 & Q2 & Q3 & Q4 & Q5). pose proof (sy_wf _ _ _ _ Hsys) as Hwf. pose proof (wf_used _ _ Hwf) as (U1 & U3 & U4).
  apply wp_bind. eapply wp_mono; [apply wp_alloc_lock|].
  - apply (wf_free_locks _ _ Hwf).
  - intros l b Hb. specialize (U4 l b Hb). unfold made. cbn. lia.
  - exact Hroom.
  - intros [[l size]|] t1.
    + intros (f' & u' & e' & -> & Hul & Hf' & Hu' & Hr' & Hl). cbn in Hu'.
      apply wp_bind, wp_modify. match goal with |- wp _ _ (set_locks (<[l := ?b0]> _) _) => set (b := b0) end.
      match goal with |- wp _ _ ?tt => set (t2 := tt) end.
      assert (Hlive : lock_live b) by done. assert (Hse : 0 <= lbl_series b) by (apply (wrapU_range 8 series); lia).
      assert (Hd2 : data_ok t2) by (apply (data_ok_upd_lbl (set_lhb_free_locks f' (set_lhb_used u' (set_lhb_length e' made))) l b); [apply (wf_data _ _ Hwf)|done]).
      assert (Hh2 : hash_ok t2) by (by apply (hash_ok_upd_lbl (set_lhb_free_locks f' (set_lhb_used u' (set_lhb_length e' made))) l b made_hash)).
      apply wp_bind. eapply wp_mono; [apply (wp_assign_data_table l data b t2); [done|unfold t2; by lookups|done|done]|].
      intros _ t3 [[d ->] Hd3]. pose proof (hash_ok_upd_lbl t2 l (set_lbl_data data b) Hh2 Hlive) as Hh3.
      apply wp_bind. eapply wp_mono; [by apply wp_hash_slot|].
      intros slot t3' [-> Hslot]. apply wp_bind.
      eapply wp_mono; [apply (wp_insert_hash slot l _ (set_lbl_data data b)); [exact Hh3|done|cbn; by rewrite lookup_insert_eq|done]|].
      intros _ t4 (h & -> & Hh4). apply wp_bind. eapply wp_change_lbl; [unfold t2; by lookups|].
      apply wp_bind. eapply wp_change_lrq; [unfold t2, made; by lookups|].
      match goal with |- wp _ _ ?tt => set (s := tt) end.
      set (q6 := set_lrq_lock l q). set (b6 := set_lbl_requests (insert_tail r []) (set_lbl_data data b)).
      set (w6 := set_own_requests (insert_tail r (own_requests w)) w). set (sf := upd_lbl l (set_lbl_state 0 b6) s).
      assert (Hds : data_ok s) by (by apply (data_ok_upd_lbl _ l b6 Hd3)).
      assert (Hhs : hash_ok s) by (by apply (hash_ok_upd_lbl _ l b6 Hh4)).
      assert (Es : requests s = <[r := q6]> (requests t)) by (unfold s, t2, made; cbn; by rewrite insert_insert_eq).
      assert (El : locks s = <[l := b6]> (locks t)) by (unfold s, t2, made; cbn; by rewrite !insert_insert_eq).
      assert (Hq6 : lrq_type q6 = type_lrq /\ lrq_owner q6 = o /\ lrq_lock q6 = l /\ lrq_flags q6 = 0 /\ lrq_state q6 = 0 /\
        1 <= lrq_requested q6 <= 6) by (cbn; rewrite Q5; done).
      assert (A2 : lhb_used t <= u') by lia. assert (A3 : 0 < r < u') by lia.
      assert (E2 : forall b2, <[l := b2]> (locks s) = <[l := b2]> (locks t)) by (intros b2; by rewrite El, insert_insert_eq).
      assert (Hnew : forall k x st, x = Some r \/ x = None /\ k = 0 -> st = upd_lbl l (set_lbl_state k b6) s -> wf x st).
      { intros k x st Hx ->. eapply (wf_new W t _ r l o q6 w w6 f u) with (b := b6) (k := k); try done.
        - exact (E2 _).
        - by apply (hash_ok_upd_lbl s l).
        - by apply (data_ok_upd_lbl s l). }
      assert (Hwff : wf None sf) by (apply (Hnew 0 None); auto).
      assert (Hsf : sys (Some r) None W sf).
      { eapply (sys_add W t sf r l q6); try done; [exact (E2 _)|by rewrite <- Q5 in Htype|by right]. }
      assert (Hwfs : wf (Some r) s).
      { apply (Hnew type (Some r)); [by left|]. symmetry. apply upd_lbl_id. by rewrite El, lookup_insert_eq. }
      apply wp_bind. eapply wp_mono; [eapply (sys_grant_alone W sf s r q6 b6); try done|].
      * change (requests sf) with (requests s). rewrite Es. apply in_use_insert_self. apply Hq6.
      * unfold queued. cbn. by rewrite Q3.
      * cbn. by rewrite Q3.
      * intros y Hy. change (locks sf) with (<[l := set_lbl_state 0 b6]> (locks s)). rewrite lookup_insert_ne; [done|]. by intros <-.
      * by rewrite El, lookup_insert_eq.
      * intros y Hy Hne. cbn in Hy. apply list_elem_of_singleton in Hy. done.
      * intros [] t7 (Hsys7 & (q7 & Hq7 & Hqd7 & Hs7 & Hp7) & b7 & Hb7 & Ht7 & Hr7). apply wp_ret. split; [done|]. split.
        -- eapply sys_nobody_waits; [done|]. cbn. intros b8 Hb8 _ y. cbn in Hb7. assert (b8 = b7) as -> by congruence.
           rewrite Hr7. cbn. intros ->%list_elem_of_singleton. unfold flag_of. destruct Hq7 as [-> _]. done.
        -- exists q7. cbn in Hs7. rewrite Q5 in Hs7. done.
    + intros ->. apply wp_bind. eapply wp_lrq_at; [unfold made; by lookups|]. rewrite Q2. apply wp_bind.
      eapply wp_change_own; [unfold made; by lookups|]. apply wp_bind, wp_bind. eapply wp_change_lrq; [unfold made; by lookups|].
      apply wp_modify, wp_ret. split; [done|].
      assert (Hrem : remove_que r (insert_tail r (own_requests w)) = own_requests w).
      { assert (Hnot : r ∉ own_requests w).
        { intros Hin. destruct (oo_requests _ _ _ (wf_own _ _ Hwf o w Hw) r Hin) as (qq & [Hqq Ht] & _). apply Hunused in Hqq.
          by rewrite Hqq in Ht. }
        unfold insert_tail, remove_que. rewrite filter_app, filter_cons, decide_False, app_nil_r by auto.
        by apply remove_que_absent. }
      assert (Hnu : forall qq, in_use (requests t) r qq -> ~ queued qq /\ lrq_owner qq = o).
      { intros qq [Hqq Ht]. apply Hunused in Hqq. by rewrite Hqq in Ht. }
      apply (sys_aside W t _ r o (set_lrq_type type_null q) w w); try done.
      * by left.
      * unfold made. cbn. by rewrite insert_insert_eq.
      * set (w1 := set_own_requests (insert_tail r (own_requests w)) w).
        change (<[o := set_own_requests (remove_que r (insert_tail r (own_requests w))) w1]> (<[o := w1]> (owners t)) = <[o := w]> (owners t)).
        rewrite insert_insert_eq, Hrem. by destruct w.
      * split; [done|]. split; [done|]. intros y. split; [|by intros [[_ ?]|[_ ?]]]. intros Hy. left. split; [|done].
        intros ->. destruct (oo_blocks _ _ _ (wf_own _ _ Hwf o w Hw) r Hy) as (qq & [Hqq Ht] & _). apply Hunused in Hqq.
        by rewrite Hqq in Ht.
      * destruct Hf as [Hnd Hff]. unfold made. cbn. split.
        -- apply NoDup_app. split; [done|]. split; [|apply NoDup_singleton]. intros y Hy ->%list_elem_of_singleton. by destruct (Hff r Hy).
        -- intros y [Hy| ->%list_elem_of_singleton]%elem_of_app; [by left; apply Hff|by right].
      * unfold made. cbn. split_and!; [lia|exact Hroom|lia..].
Qed.

End Enqueue.

(** ** [dequeue] *)

Lemma sys_internal_dequeue W t r q : sys None None W t -> in_use (requests t) r q -> queued q ->
  wp (internal_dequeue r) (fun _ t' => sys None None (delete r W) t' /\
    exists q', requests t' !! r = Some q' /\ lrq_type q' = type_null) t.
Proof.
  intros Hsys Hq Hqd. apply wp_bind. eapply wp_get_request; [apply Hsys|done..|]. apply wp_bind.
  eapply wp_change_lrq; [apply Hq|].
  eapply wp_mono; [eapply (sys_release None None W r (set_lrq_ast_routine 0 q)); auto|].
  - eapply sys_similar; [done|]. split; [|done]. apply (similar_upd_lrq t r q); [apply Hq|by split].
  - apply in_use_insert_self. apply Hq.
  - intros [] t' [Hs Hr]. split; [done|]. apply (rl_self _ _ _ _ Hr).
Qed.

Section Whole.
Context (internal_hash : list Z -> Z).

Lemma sys_enqueue W t o prior series value type ast arg data lck_wait :
  sys None None W t -> is_Some (owners t !! o) -> o ∈ lhb_owners t -> 1 <= type <= 6 -> 0 <= series ->
  (prior = 0 \/ W !! prior = None /\ exists q, in_use (requests t) prior q /\ queued q) ->
  wp (enqueue internal_hash o prior series value type ast arg data lck_wait)
    (fun '(a, r) t' =>
      match a with
      | Granted => sys None None W t' /\ exists q', in_use (requests t') r q' /\ queued q' /\ lrq_state q' = type
      | Waits => lck_wait <> 0 /\ W !! r = None /\ sys None None (<[r := WEnqueue]> W) t' /\
          exists q', in_use (requests t') r q' /\ queued q' /\ lrq_requested q' = type /\
            lrq_state q' = 0 /\ has_flag (lrq_flags q') LRQ_pending = true
      | Denied => r = 0 /\ sys None None W t'
      end) t.
Proof.
  intros Hsys [w0 Hw0] Ho Htype Hseries Hprior. unfold enqueue. case_decide; [by apply wp_ret|].
  apply wp_bind. eapply wp_own_at; [done|]. case_decide; [by apply wp_ret|]. apply wp_bind.
  eapply wp_mono with (P := fun _ t' => sys None None W t' /\ is_Some (owners t' !! o) /\ o ∈ lhb_owners t').
  { case_decide as Hp; [|apply wp_ret; eauto]. destruct Hprior as [?|(HW & q & Hq & Hqd)]; [done|].
    apply wp_bind. eapply wp_get_request; [apply Hsys|done..|]. apply wp_bind. eapply wp_change_lrq; [apply Hq|].
    eapply wp_mono; [eapply (sys_release None None W prior (set_lrq_ast_routine 0 q)); auto|].
    - eapply sys_similar; [done|]. split; [|done]. apply (similar_upd_lrq t prior q); [apply Hq|by split].
    - apply in_use_insert_self. apply Hq.
    - intros [] t' [Hs Hr]. rewrite delete_id in Hs by done. split; [done|]. pose proof (rl_own _ _ _ _ Hr o) as Hwo.
      cbn in Hwo. rewrite Hw0 in Hwo. destruct (owners t' !! o); [|done]. split; [eauto|]. by rewrite (rl_owners _ _ _ _ Hr). }
  intros _ t1 (Hsys1 & [w Hw] & Ho1). apply wp_bind. eapply wp_mono; [by apply wp_new_request, Hsys1|].
  intros [r|] t2; [|intros ->; by apply wp_ret]. intros (f & u & e & -> & Hun & Hf & Hu & Hroom & Hr). pose proof (unused_wait _ _ _ _ _ Hsys1 Hun) as HWr.
  apply wp_bind, wp_gets, wp_bind, wp_modify, wp_bind. eapply wp_change_own; [exact Hw|]. set (q := Lrq _ _ _ _ _ _ _ _ _).
  match goal with |- wp _ _ ?tt => change tt with (made t1 r o w f u e q) end. apply wp_bind.
  eapply wp_mono; [apply wp_find_lock; by apply (made_hash W)|].
  intros [l|] t3 [-> Hl].
  - destruct (Hl l eq_refl) as (b & Hb & Hlive & _).
    eapply wp_mono; [by apply (enqueue_found internal_hash W t1 r o w f u e series value type data Hsys1 Hun Hw Ho1 Hf (conj Hu Hr) Hroom Htype Hseries q ltac:(done) l b)|].
    intros [[] v] t'; naive_solver.
  - eapply wp_mono; [by apply (enqueue_made internal_hash W t1 r o w f u e series value type data Hsys1 Hun Hw Ho1 Hf (conj Hu Hr) Hroom Htype Hseries q)|].
    intros [[] v] t'; naive_solver.
Qed.
End Whole.

(** ** What a request is for *)

(** The fields that say which owner and lock a request belongs to, and which key a lock is for *)
Definition ident (q : lrq) : Z * Z := (lrq_owner q, lrq_lock q).
Definition name (b : lbl) : Z * Z * list Z := (lbl_series b, lbl_length b, lbl_key b).

Record names_kept (t t' : table) : Prop := {
  nk_lrq : forall r, ident <$> requests t' !! r = ident <$> requests t !! r;
  nk_lbl : forall l, name <$> locks t' !! l = name <$> locks t !! l
}.

#[export] Instance names_kept_preorder : PreOrder names_kept.
Proof. split; [by split|]. intros t t' t'' [] []. split; intros y; etransitivity; eauto. Qed.

(** An operation that leaves them, if it ends *)
Definition keeps {A} (m : LM A) : Prop := forall t a t', m t = Ok (a, t') -> names_kept t t'.

Lemma keeps_same {A} (m : LM A) : (forall t a t', m t = Ok (a, t') -> t' = t) -> keeps m.
Proof. intros H t a t' Hm. by rewrite (H t a t' Hm). Qed.
Lemma keeps_ret {A} (a : A) : keeps (ret a).
Proof. apply keeps_same. by intros t ? ? [= _ <-]. Qed.
Lemma keeps_gets {A} (f : table -> A) : keeps (gets f).
Proof. apply keeps_same. by intros t ? ? [= _ <-]. Qed.
Lemma keeps_lift {A} (o : Outcome A) : keeps (lift o).
Proof. apply keeps_same. unfold lift. intros t ? ?. destruct o; [|done..]. by intros [= _ <-]. Qed.
Lemma keeps_lrq_at r : keeps (lrq_at r).
Proof. apply keeps_same. unfold lrq_at. intros t ? ?. destruct (requests t !! r); [|done]. by intros [= _ <-]. Qed.
Lemma keeps_lbl_at l : keeps (lbl_at l).
Proof. apply keeps_same. unfold lbl_at. intros t ? ?. destruct (locks t !! l); [|done]. by intros [= _ <-]. Qed.
Lemma keeps_own_at o : keeps (own_at o).
Proof. apply keeps_same. unfold own_at. intros t ? ?. destruct (owners t !! o); [|done]. by intros [= _ <-]. Qed.
Lemma keeps_bind {A B} (m : LM A) (f : A -> LM B) : keeps m -> (forall a, keeps (f a)) -> keeps (m ≫= f).
Proof.
  intros Hm Hf t b t'. unfold mbind, SM_bind. destruct (m t) as [[a t1]| |] eqn:E; [|done..].
  intros Hb. etransitivity; [by eapply Hm|by eapply Hf].
Qed.
Lemma keeps_modify f : (forall t, requests (f t) = requests t /\ locks (f t) = locks t) -> keeps (modify f).
Proof. intros H t a t' [= _ <-]. destruct (H t) as [H1 H2]. split; intros y; by rewrite ?H1, ?H2. Qed.
Lemma keeps_change_lrq r f : (forall q, ident (f q) = ident q) -> keeps (change_lrq r f).
Proof.
  intros H t a t'. unfold change_lrq, mbind, SM_bind, lrq_at. destruct (requests t !! r) as [q|] eqn:E; [|done].
  intros [= _ <-]. split; [|done]. intros y. cbn. destruct (decide (y = r)) as [->|Hne].
  - rewrite lookup_insert_eq, E. cbn. by rewrite H.
  - by rewrite lookup_insert_ne.
Qed.
Lemma keeps_change_lbl l f : (forall b, name (f b) = name b) -> keeps (change_lbl l f).
Proof.
  intros H t a t'. unfold change_lbl, mbind, SM_bind, lbl_at. destruct (locks t !! l) as [b|] eqn:E; [|done].
  intros [= _ <-]. split; [done|]. intros y. cbn. destruct (decide (y = l)) as [->|Hne].
  - rewrite lookup_insert_eq, E. cbn. by rewrite H.
  - by rewrite lookup_insert_ne.
Qed.
Lemma keeps_change_own o f : keeps (change_own o f).
Proof. apply keeps_bind; [apply keeps_own_at|]. intros b. by apply keeps_modify. Qed.

Create HintDb keeps.
#[export] Hint Resolve keeps_ret keeps_gets keeps_lift keeps_lrq_at keeps_lbl_at keeps_own_at keeps_change_own : keeps.
Ltac keep := repeat first
  [ solve [eauto 2 with keeps]
  | apply keeps_change_lrq; by intros []
  | apply keeps_change_lbl; by intros []
  | apply keeps_bind; [|intros ?]
  | apply keeps_modify; done
  | match goal with |- keeps (if ?c then _ else _) => destruct c | |- keeps (match ?c with _ => _ end) => destruct c end ].

Lemma keeps_assign_data l data : keeps (assign_data l data).
Proof. unfold assign_data, insert_data_que, change_data. keep. Qed.
#[export] Hint Resolve keeps_assign_data : keeps.

Lemma keeps_grant r l : keeps (grant r l).
Proof. unfold grant, change_counts, remove_data, remove_pending, unflag_lrq, change_pending_count, post_wakeup, flag_own. keep. Qed.
#[export] Hint Resolve keeps_grant : keeps.

Lemma keeps_post_pending l : keeps (post_pending l).
Proof.
  assert (H1 : forall rs, keeps (grant_pending l rs)).
  { induction rs as [|r rs IH]; cbn [grant_pending]; unfold change_counts, compat, post_wakeup, flag_own; keep. }
  assert (H2 : forall rs, keeps (mark_just_granted rs)).
  { induction rs as [|r rs IH]; cbn [mark_just_granted]; unfold flag_lrq; keep. }
  unfold post_pending. keep.
Qed.

Lemma keeps_wait_begin r lck_wait : keeps (wait_begin r lck_wait).
Proof.
  assert (H1 : forall q rs, keeps (collect_blocking r q rs)).
  { intros q. induction rs as [|x rs IH]; cbn [collect_blocking]; unfold compat, flag_lrq, unflag_lrq; keep. }
  assert (H2 : forall os, keeps (signal_owners os)).
  { induction os as [|o os IH]; cbn [signal_owners]; unfold signal_owner, flag_own; keep. }
  unfold wait_begin, change_pending_count, flag_lrq, post_blockage. keep.
Qed.
#[export] Hint Resolve keeps_post_pending keeps_wait_begin : keeps.

(** What holds where an operation ends *)
Definition leaves {A} (m : LM A) (Q : A -> table -> Prop) (t : table) : Prop := forall a t', m t = Ok (a, t') -> Q a t'.

Lemma leaves_bind {A B} (m : LM A) (f : A -> LM B) Q t : leaves m (fun a => leaves (f a) Q) t -> leaves (m ≫= f) Q t.
Proof. intros H b t'. unfold mbind, SM_bind. destruct (m t) as [[a t1]| |] eqn:E; [|done..]. by apply (H a t1). Qed.
Lemma leaves_any {A} (m : LM A) (Q : A -> table -> Prop) t : (forall a t', Q a t') -> leaves m Q t.
Proof. intros H a t' _. apply H. Qed.
Lemma leaves_ret {A} (a : A) (Q : A -> table -> Prop) t : Q a t -> leaves (ret a) Q t.
Proof. by intros H ? ? [= <- <-]. Qed.
Lemma leaves_keeps {A} (m : LM A) (Q : A -> table -> Prop) t : keeps m -> (forall a t', names_kept t t' -> Q a t') -> leaves m Q t.
Proof. intros Hm H a t' E. eapply H, Hm, E. Qed.
Lemma leaves_change_lrq r f (Q : unit -> table -> Prop) t :
  (forall q, requests t !! r = Some q -> Q tt (upd_lrq r (f q) t)) -> leaves (change_lrq r f) Q t.
Proof.
  intros H a t'. unfold change_lrq, mbind, SM_bind, lrq_at. destruct (requests t !! r) as [q|]; [|done].
  intros [= <- <-]. by apply H.
Qed.

(** The request belongs to the owner, and to a lock for the key. *)
Definition placed (o series : Z) (value : list Z) (r : Z) (t : table) : Prop :=
  exists q b, requests t !! r = Some q /\ lrq_owner q = o /\ locks t !! lrq_lock q = Some b /\ named b series value.

(** The owner of a request, and a lock that is for the key *)
Definition to_place (o series : Z) (value : list Z) (r l : Z) (t : table) : Prop :=
  (exists q, requests t !! r = Some q /\ lrq_owner q = o) /\ exists b, locks t !! l = Some b /\ named b series value.

Lemma request_kept o r t t' : names_kept t t' -> (exists q, requests t !! r = Some q /\ lrq_owner q = o) ->
  exists q, requests t' !! r = Some q /\ lrq_owner q = o.
Proof.
  intros [H _] (q & Hq & Ho). specialize (H r). rewrite Hq in H. destruct (requests t' !! r) as [q'|]; [|done].
  injection H as H _. exists q'. split; [done|congruence].
Qed.

Lemma to_place_kept o series value r l t t' : names_kept t t' -> to_place o series value r l t -> to_place o series value r l t'.
Proof.
  intros Hk [Hq (b & Hb & Hn)]. split; [by eapply request_kept|]. pose proof (nk_lbl _ _ Hk l) as H. rewrite Hb in H.
  destruct (locks t' !! l) as [b'|]; [|done]. injection H as H2 H3 H4. exists b'. split; [done|]. unfold named in *. by rewrite H2, H3, H4.
Qed.

Lemma to_place_lock o series value r l t q : to_place o series value r l t -> requests t !! r = Some q ->
  placed o series value r (upd_lrq r (set_lrq_lock l q) t).
Proof.
  intros [(q0 & Hq & Ho) (b & Hb & Hn)] Hq'. rewrite Hq in Hq'. injection Hq' as ->. exists (set_lrq_lock l q), b.
  split; [apply lookup_insert_eq|done].
Qed.

Lemma placed_kept o series value r t t' : names_kept t t' -> placed o series value r t -> placed o series value r t'.
Proof.
  intros [H1 H2] (q & b & Hq & Ho & Hb & Hn). specialize (H1 r). rewrite Hq in H1. destruct (requests t' !! r) as [q'|] eqn:Eq; [|done].
  injection H1 as Ho' Hl'. specialize (H2 (lrq_lock q)). rewrite Hb in H2. destruct (locks t' !! lrq_lock q) as [b'|] eqn:Eb; [|done].
  injection H2 as H2 H3 H4. exists q', b'. split; [done|]. split; [congruence|]. split; [by rewrite Hl'|].
  unfold named in *. by rewrite H2, H3, H4.
Qed.

Lemma leaves_grant_or_que o series value r l lck_wait t : to_place o series value r l t ->
  leaves (grant_or_que r l lck_wait) (fun a t' => a <> Denied -> placed o series value r t') t.
Proof.
  intros Ht. apply leaves_bind, leaves_change_lrq. intros q Hq. pose proof (to_place_lock _ _ _ _ _ _ _ Ht Hq) as Hp.
  apply leaves_bind, leaves_keeps; [apply keeps_lrq_at|]. intros q1 t1 K1. apply leaves_bind, leaves_keeps; [apply keeps_lbl_at|].
  intros b1 t2 K2. apply leaves_bind, leaves_keeps; [unfold compat; apply keeps_lift|]. intros c t3 K3.
  assert (Hp3 : placed o series value r t3) by (by repeat (eapply placed_kept; [eassumption|])).
  destruct (_ && _); [|case_decide].
  - apply leaves_bind, leaves_keeps; [apply keeps_grant|]. intros _ t4 K4. apply leaves_bind, leaves_keeps; [apply keeps_post_pending|].
    intros _ t5 K5. apply leaves_ret. intros _. by repeat (eapply placed_kept; [eassumption|]).
  - apply leaves_bind, leaves_keeps; [apply keeps_wait_begin|]. intros _ t4 K4. apply leaves_ret. intros _. by eapply placed_kept.
  - apply leaves_bind, leaves_any. intros _ t4. by apply leaves_ret.
Qed.

Lemma leaves_find_in_chain series value chain t :
  leaves (find_in_chain series value chain) (fun a t' => t' = t /\ forall l, a = Some l -> exists b, locks t !! l = Some b /\ named b series value) t.
Proof.
  induction chain as [|l chain IH]; cbn [find_in_chain]; [by apply leaves_ret|]. apply leaves_bind. intros b t'. unfold lbl_at.
  destruct (locks t !! l) as [b0|] eqn:E; [|done]. intros [= <- <-]. case_decide as Hd; [|apply IH].
  apply leaves_ret. split; [done|]. intros ? [= <-]. exists b0. unfold named. tauto.
Qed.

Section Placed.
Context (internal_hash : list Z -> Z).

Lemma keeps_hash_slot value : keeps (hash_slot internal_hash value).
Proof. unfold hash_slot. keep. Qed.
#[local] Hint Resolve keeps_hash_slot : keeps.

Lemma leaves_enqueue_new o series value type data r t : (exists q, requests t !! r = Some q /\ lrq_owner q = o) ->
  leaves (enqueue_new internal_hash r series value type data) (fun '(a, v) t' => a <> Denied -> v = r /\ placed o series value r t') t.
Proof.
  intros Hq. apply leaves_bind, leaves_keeps; [unfold alloc_lock, alloc, remapFile; keep|].
  { induction a as [|x xs IH]; cbn [find_free]; keep. }
  intros [[l size]|] t1 K1; [|by do 3 (apply leaves_bind, leaves_any; intros ? ?); apply leaves_ret].
  apply leaves_bind. intros [] t2 [= <-]. match goal with |- leaves _ _ ?tt => assert (Hp : to_place o series value r l tt) end.
  { split.
    - by apply (request_kept o r t t1).
    - eexists. cbn. rewrite lookup_insert_eq. split; [done|]. split; [by right|]. split; [by right|]. cbn. apply firstn_all. }
  match goal with |- leaves _ _ ?tt => generalize dependent tt end. clear. intros t Hp.
  apply leaves_bind, leaves_keeps; [apply keeps_assign_data|]. intros _ t1 K1. apply leaves_bind, leaves_keeps; [apply keeps_hash_slot|].
  intros slot t2 K2. apply leaves_bind, leaves_keeps; [unfold insert_hash; keep|]. intros _ t3 K3.
  apply leaves_bind, leaves_keeps; [keep|]. intros _ t4 K4.
  assert (Hp4 : to_place o series value r l t4) by (by repeat (eapply to_place_kept; [eassumption|])).
  apply leaves_bind, leaves_change_lrq. intros q Hq. pose proof (to_place_lock _ _ _ _ _ _ _ Hp4 Hq) as Hp5.
  apply leaves_bind, leaves_keeps; [apply keeps_grant|]. intros _ t6 K6. apply leaves_ret. intros _. split; [done|]. by eapply placed_kept.
Qed.

Lemma enqueue_placed o prior series value type ast arg data lck_wait t :
  leaves (enqueue internal_hash o prior series value type ast arg data lck_wait)
    (fun '(a, r) t' => a <> Denied -> placed o series value r t') t.
Proof.
  unfold enqueue. case_decide; [by apply leaves_ret|]. apply leaves_bind, leaves_any. intros w t1.
  case_decide; [by apply leaves_ret|]. apply leaves_bind, leaves_any. intros _ t2. apply leaves_bind, leaves_any. intros [r|] t3; [|by apply leaves_ret].
  apply leaves_bind, leaves_any. intros old t4. apply leaves_bind. intros [] t5 [= <-].
  match goal with |- leaves _ _ ?tt => assert (Hq : exists q, requests tt !! r = Some q /\ lrq_owner q = o) by
    (eexists; cbn; rewrite lookup_insert_eq; done); generalize dependent tt end.
  intros t5 Hq. apply leaves_bind, leaves_keeps; [apply keeps_change_own|]. intros _ t6 K6.
  apply (request_kept o r t5 t6) in Hq; [|done].
  apply leaves_bind. apply leaves_bind, leaves_keeps; [apply keeps_hash_slot|]. intros slot t7 K7.
  apply leaves_bind, leaves_keeps; [keep|]. intros h t8 K8. apply leaves_bind, leaves_keeps; [keep|]. intros chain t9 K9.
  assert (Hq9 : exists q, requests t9 !! r = Some q /\ lrq_owner q = o).
  { by do 3 (eapply request_kept; [eassumption|]). }
  intros found t10 Hf. apply leaves_find_in_chain in Hf as [-> Hl]. destruct found as [l|]; [|].
  - destruct (Hl l eq_refl) as (b & Hb & Hn). assert (Hp : to_place o series value r l t9) by (split; eauto).
    apply leaves_bind, leaves_keeps; [keep|]. intros _ t11 K11. apply leaves_bind, leaves_keeps; [keep|]. intros _ t12 K12.
    eapply to_place_kept in Hp; [|exact K11]. eapply to_place_kept in Hp; [|exact K12].
    apply leaves_bind. intros a t13 Ha. apply (leaves_grant_or_que o series value) in Ha; [|done]. apply leaves_ret.
    intros Hne. destruct a; auto. done.
  - intros [a v] t' Ha Hne. apply (leaves_enqueue_new o) in Ha; [|done]. destruct (Ha Hne) as [-> ?]. done.
Qed.
End Placed.
