(* ===== verification/LockOwner.v ===== *)
(** * Operations of owners: conversions, blocking actions, reposts and the end of an owner *)

From S2P Require Import Prelude Outcome StateMonad LockTable LockOps LockInv LockFrame LockGrant LockPost LockRelease LockSys LockWait LockConvert LockEnqueue.
From stdpp Require Import gmap.
#[local] Open Scope Z_scope.

(** ** [convert], [downgrade] and [dequeue] *)

(** The request of a user who does not wait for it *)
Definition idle (W : gmap Z wait) (t : table) (r : Z) (q : lrq) : Prop := in_use (requests t) r q /\ queued q /\ W !! r = None.

Lemma wp_pending_state r rs highest t :
  (forall y, y ∈ rs -> exists q, requests t !! y = Some q /\ level (lrq_requested q)) -> level highest ->
  wp (pending_state r rs highest) (fun k t' => t' = t /\ level k) t.
Proof.
  intros H. revert highest. induction rs as [|x rs IH]; intros highest Hh; cbn [pending_state]; [by apply wp_ret|].
  destruct (H x ltac:(set_solver)) as (q & Hq & Hl). apply wp_bind. eapply wp_lrq_at; [done|].
  assert (IH' := IH ltac:(intros y Hy; apply H; set_solver)).
  case_match; [|by apply IH']. assert (level (Z.max (lrq_requested q) highest)) by (unfold level in *; lia).
  destruct (decide (Z.max (lrq_requested q) highest = LCK_EX)); [by apply wp_ret|by apply IH'].
Qed.

(** The highest state below [s] that is compatible with [p] *)
Lemma wp_lower_state fuel p s t : level p -> level s -> (Z.to_nat s <= fuel)%nat ->
  wp (lower_state fuel p s) (fun k t' => t' = t /\ 0 <= k <= s /\ compatible p k = true /\
    forall j, k < j <= s -> compatible p j = false) t.
Proof.
  intros Hp. revert s. induction fuel as [|fuel IH]; intros s Hs Hf; cbn [lower_state]; unfold LCK_none in *.
  - rewrite decide_False by (unfold level in *; lia). apply wp_ret. assert (s = 0) as -> by (unfold level in *; lia).
    split; [done|]. split; [lia|]. split; [by apply compatible_none|]. intros. lia.
  - case_decide as Hd.
    + apply wp_bind, wp_compat; [done..|]. destruct (compatible p s) eqn:E.
      * apply wp_ret. split; [done|]. split; [lia|]. split; [done|]. intros. lia.
      * eapply wp_mono; [apply IH; unfold level in *; lia|]. intros k t' (-> & Hk & Hc & Hj). split; [done|]. split; [lia|].
        split; [done|]. intros j Hjj. destruct (decide (j = s)) as [->|]; [done|]. apply Hj. lia.
    + apply wp_ret. assert (s = 0) as -> by (unfold level in *; lia).
      split; [done|]. split; [lia|]. split; [by apply compatible_none|]. intros. lia.
Qed.

Lemma idle_facts W t r q : sys None None W t -> idle W t r q ->
  has_flag (lrq_flags q) LRQ_pending = false /\ lrq_state q = lrq_requested q /\ 1 <= lrq_state q <= 6 /\
  exists w, owners t !! lrq_owner q = Some w.
Proof.
  intros Hsys (Hq & Hqd & HW). destruct (sy_request _ _ _ _ Hsys r q Hq Hqd) as [R1 R2 R3 R4].
  assert (Hns : ~ is_Some (W !! r)) by (rewrite HW; by intros [? ?]).
  assert (Hp : has_flag (lrq_flags q) LRQ_pending = false).
  { destruct (has_flag (lrq_flags q) LRQ_pending); [|done]. by destruct (R2 eq_refl). }
  assert (Hs : lrq_state q = lrq_requested q) by (by apply R3). split; [done|]. split; [done|]. split; [lia|].
  destruct (ro_owner _ _ _ (wf_request _ _ (sy_wf _ _ _ _ Hsys) r q Hq)) as (w & Hw & _). eauto.
Qed.

Lemma sys_convert W t r q type lck_wait ast arg : sys None None W t -> idle W t r q -> 1 <= type <= 6 ->
  wp (convert r type lck_wait ast arg) (fun a t' =>
    match a with
    | Waits => sys None None (<[r := WConvert ast arg]> W) t'
    | _ => sys None None W t'
    end) t.
Proof.
  intros Hsys Hid Hty. destruct (idle_facts W t r q Hsys Hid) as (_ & _ & _ & w & Hw). destruct Hid as (Hq & Hqd & HW).
  apply wp_bind. eapply wp_get_request; [apply Hsys|done..|]. apply wp_bind. eapply wp_own_at; [done|].
  case_decide; [by apply wp_ret|]. eapply wp_mono; [by apply (sys_internal_convert W t r q)|]. intros [] t'; naive_solver.
Qed.

Lemma sys_downgrade W t r q : sys None None W t -> idle W t r q ->
  wp (downgrade r) (fun k t' => sys None None W t' /\ 0 <= k <= lrq_state q) t.
Proof.
  intros Hsys Hid. destruct (idle_facts W t r q Hsys Hid) as (_ & _ & Hst & w & Hw). destruct Hid as (Hq & Hqd & HW).
  pose proof (sy_wf _ _ _ _ Hsys) as Hwf. destruct (ro_lock _ _ _ (wf_request _ _ Hwf r q Hq) Hqd) as (b & Hb & Hlive & Hrb).
  apply wp_bind. eapply wp_get_request; [done..|]. apply wp_bind. eapply wp_own_at; [done|].
  case_decide; [apply wp_ret; split; [done|unfold LCK_none; lia]|]. apply wp_bind. eapply wp_lbl_at; [done|]. apply wp_bind.
  eapply wp_mono; [apply wp_pending_state|].
  - intros y Hy. destruct (queue_lock None t _ b y Hwf Hb Hlive Hy) as (qy & [Hqy _] & _ & _ & _ & ?). eauto.
  - unfold level, LCK_none. lia.
  - intros p t1 [-> Hp]. apply wp_bind. eapply wp_mono; [apply wp_lower_state; [done|unfold level; lia|done]|].
    intros k t1 (-> & Hk & _). case_decide as Hd; apply wp_bind.
    + eapply wp_mono; [by eapply (sys_internal_dequeue W t r q)|]. intros [] t' [Hs _]. apply wp_ret.
      rewrite delete_id in Hs by done. split; [done|]. unfold LCK_none. lia.
    + eapply wp_mono; [apply (sys_internal_convert W t r q k LCK_NO_WAIT); try done; unfold LCK_none, LCK_null in *; lia|].
      intros [] t' Ha; apply wp_ret; [| |destruct Ha as [Hn _]; unfold LCK_NO_WAIT in Hn; done]; (split; [|lia]); naive_solver.
Qed.

Lemma sys_dequeue W t r q : sys None None W t -> idle W t r q ->
  wp (dequeue r) (fun done t' => sys None None W t' /\
    (done = true -> exists q', requests t' !! r = Some q' /\ lrq_type q' = type_null)) t.
Proof.
  intros Hsys Hid. destruct (idle_facts W t r q Hsys Hid) as (_ & _ & _ & w & Hw). destruct Hid as (Hq & Hqd & HW).
  apply wp_bind. eapply wp_get_request; [apply Hsys|done..|]. apply wp_bind. eapply wp_own_at; [done|].
  case_decide; [by apply wp_ret|]. apply wp_bind.
  eapply wp_mono; [by eapply (sys_internal_dequeue W t r q)|]. intros [] t' [Hs Hf]. apply wp_ret. by rewrite delete_id in Hs.
Qed.

(** ** Blocking actions *)

Lemma sys_unflag_own W t o w flag : sys None None W t -> owners t !! o = Some w ->
  wp (unflag_own o flag) (fun _ t' => sys None None W t') t.
Proof.
  intros Hsys Hw. eapply wp_change_own; [done|]. eapply sys_similar; [done|]. split; [|done]. by apply (similar_upd_own t o w).
Qed.

(** A request of [repost] is freed when its AST is called. *)
Lemma sys_free_repost W t o w r q : sys None None W t -> owners t !! o = Some w -> in_use (requests t) r q -> ~ queued q -> lrq_owner q = o ->
  wp (free_request r) (fun _ t' => sys None None W t' /\
    owners t' = <[o := set_own_blocks (remove_que r (own_blocks w)) w]> (owners t)) 
    (upd_own o (set_own_blocks (remove_que r (own_blocks w)) w) t).
Proof.
  intros Hsys Hw Hq Hnq Ho. apply wp_bind. eapply wp_change_lrq; [apply Hq|]. apply wp_modify. split; [|done].
  pose proof (sy_wf _ _ _ _ Hsys) as Hwf.
  assert (Hnf : r ∉ lhb_free_requests t).
  { intros Hin. destruct (proj2 (wf_free _ _ Hwf) r Hin) as (qq & Hqq & Ht). destruct Hq as [Hqr Hqt].
    assert (qq = q) as -> by congruence. by rewrite Hqt in Ht. }
  eapply (sys_aside W t _ r o (set_lrq_type type_null q) w); try done.
  - intros qq [Hqq _]. destruct Hq as [Hqr _]. by assert (qq = q) as -> by congruence.
  - by left.
  - split; [done|]. split; [done|]. intros y. cbn. rewrite elem_of_remove_que. split; [by left|]. by intros [?|[_ ?]].
  - cbn. unfold insert_tail. split.
    + apply NoDup_app. split; [apply Hwf|]. split; [|apply NoDup_singleton]. by intros y Hy ->%list_elem_of_singleton.
    + intros y [Hy| ->%list_elem_of_singleton]%elem_of_app; [left|by right]. split; [done|]. by intros ->.
  - cbn. destruct (wf_used _ _ Hwf) as (H1 & H3 & _). specialize (H3 r q). destruct Hq as [Hqr _]. specialize (H3 Hqr). split_and!; [lia|done|lia..].
Qed.

Lemma sys_blocking_action W t o : sys None None W t -> is_Some (owners t !! o) ->
  wp (blocking_action o) (fun _ t' => sys None None W t') t.
Proof.
  intros Hsys [w Hw]. pose proof (sy_wf _ _ _ _ Hsys) as Hwf. apply wp_bind. eapply wp_own_at; [done|].
  destruct (own_blocks w) as [|r rs] eqn:E.
  { apply wp_bind. eapply wp_mono; [by eapply sys_unflag_own|]. intros [] t' Hs. by apply wp_ret. }
  case_decide.
  { apply wp_bind. eapply wp_mono; [by eapply sys_unflag_own|]. intros [] t' Hs. by apply wp_ret. }
  destruct (oo_blocks _ _ _ (wf_own _ _ Hwf o w Hw) r ltac:(rewrite E; set_solver)) as (q & Hq & Ho & Hbq).
  apply wp_bind. eapply wp_lrq_at; [apply Hq|]. apply wp_bind. eapply wp_change_own; [done|]. apply wp_bind.
  eapply wp_mono with (P := fun _ t' => sys None None W t'); [|intros [] t' Hs; by apply wp_ret].
  destruct (has_flag (lrq_flags q) LRQ_blocking) eqn:Eb.
  - assert (Hqd : queued q).
    { unfold queued. destruct (has_flag (lrq_flags q) LRQ_repost) eqn:Er; [|done].
      destruct (ro_repost _ _ _ (wf_request _ _ Hwf r q Hq)) as [_ Hnb]; [unfold queued; by rewrite Er|congruence]. }
    apply wp_bind. eapply wp_change_lrq; [apply Hq|]. eapply wp_change_lrq; [by lookups|].
    set (q' := set_lrq_flags (with_flag LRQ_blocking_seen (without_flag LRQ_blocking (lrq_flags q))) q).
    assert (Hfl : wf None (upd_lrq r q' (upd_own o (set_own_blocks (remove_que r (own_blocks w)) w) t)) /\
      calm t (upd_lrq r q' (upd_own o (set_own_blocks (remove_que r (own_blocks w)) w) t))).
    { rewrite <- Ho in *. eapply (wf_flags t _ r q q' w); try done.
      - split; [split; try done|done|]; unfold same_flag, q'; cbn; by flags.
      - destruct (own_queues None t r q w Hwf Hq Hqd Hw) as [Hpi _]. unfold q'. split; cbn; [done|..]; intros y; flags.
        + destruct (decide (y = r)) as [->|]; naive_solver.
        + change (filter (fun y => y <> r) (own_blocks w)) with (remove_que r (own_blocks w)). rewrite elem_of_remove_que. naive_solver. }
    destruct Hfl as [Hwf' Hc].
    match goal with |- sys _ _ _ ?tt => assert (tt = upd_lrq r q' (upd_own o (set_own_blocks (remove_que r (own_blocks w)) w) t)) as -> end.
    { unfold upd_lrq. cbn. by rewrite insert_insert_eq. }
    by eapply sys_calm.
  - destruct Hbq as [?|Hnq]; [congruence|].
    assert (has_flag (lrq_flags q) LRQ_repost = true) as -> by (unfold queued in Hnq; by destruct (has_flag (lrq_flags q) LRQ_repost)).
    eapply wp_mono; [by eapply (sys_free_repost W t o w r q)|]. by intros [] t' [Hs _].
Qed.

(** ** [repost] and [cancelWait] *)

Lemma sys_repost W t o ast arg : sys None None W t -> is_Some (owners t !! o) -> o ∈ lhb_owners t ->
  wp (repost ast arg o) (fun _ t' => sys None None W t') t.
Proof.
  intros Hsys [w Hw] Hlo. pose proof (sy_wf _ _ _ _ Hsys) as Hwf. unfold repost. case_decide; [by apply wp_ret|].
  apply wp_bind. eapply wp_mono; [by apply wp_new_request|]. intros [r|] t1; [|intros ->; by apply wp_ret].
  intros (f & u & e & -> & Hun & [Hnd Hf] & Hu & Hroom & Hr). apply wp_bind, wp_gets, wp_bind, wp_modify, wp_bind.
  eapply wp_change_own; [exact Hw|]. set (q := Lrq _ _ _ _ _ _ _ _ _). set (w1 := set_own_blocks (insert_tail r (own_blocks w)) w).
  match goal with |- wp _ _ ?tt => set (s := tt) end.
  assert (Hs : sys None None W s).
  { assert (Hnu : forall qq, in_use (requests t) r qq -> ~ queued qq /\ lrq_owner qq = o).
    { intros qq [Hqq Ht]. apply Hun in Hqq. by rewrite Hqq in Ht. }
    apply (sys_aside W t s r o q w w1); try done.
    - by right.
    - split; [done|]. split; [done|]. intros y. change (own_blocks w1) with (insert_tail r (own_blocks w)). rewrite elem_of_insert_tail.
      destruct (decide (y = r)) as [->|Hne]; [|naive_solver]. split; [|by intros [[? _]|[_ ?]]; auto]. intros _. by right.
    - split; [done|]. intros y Hy. left. by apply Hf. }
  apply wp_bind. eapply (wp_own_at o w1); [unfold s; by lookups|]. case_match; [by apply wp_ret|].
  eapply (wp_change_own o w1); [unfold s; by lookups|]. eapply sys_similar; [done|]. split; [|done].
  apply (similar_upd_own s o w1); [unfold s; by lookups|by split].
Qed.

Lemma sys_cancelWait W t o : sys None None W t -> is_Some (owners t !! o) ->
  wp (cancelWait o) (fun _ t' => sys None None W t') t.
Proof.
  intros Hsys [w Hw]. unfold cancelWait. case_decide; [by apply wp_ret|]. apply wp_bind. eapply wp_own_at; [done|].
  case_decide; [by apply wp_ret|]. apply wp_bind. eapply wp_mono; [by eapply wp_post_wakeup|].
  intros [] t' Hs. apply wp_ret. by eapply sys_similar.
Qed.

Lemma sys_writeData W t r q data : sys None None W t -> idle W t r q ->
  wp (writeData r data) (fun _ t' => sys None None W t') t.
Proof.
  intros Hsys (Hq & Hqd & HW). pose proof (sy_wf _ _ _ _ Hsys) as Hwf.
  destruct (ro_lock _ _ _ (wf_request _ _ Hwf r q Hq) Hqd) as (b & Hb & Hlive & Hrb).
  destruct (wf_lock _ _ Hwf _ b Hb Hlive) as [_ Hok].
  apply wp_bind. eapply wp_get_request; [done..|]. apply wp_bind. eapply wp_mono; [apply wp_remove_data, Hwf|].
  intros _ t1 (Hs1 & Hd1 & _). destruct (similar_lbl t t1 _ b Hs1 Hb) as (b1 & Hb1 & []). apply wp_bind.
  eapply wp_mono; [apply (wp_assign_data _ data b1 t1); [done|done|unfold lock_live in *; congruence|]|].
  { rewrite sl_series. apply Hok. }
  intros _ t2 [Hs2 Hd2]. apply wp_ret. assert (Hs : similar t t2) by (by transitivity t1).
  eapply sys_calm; [done| |by apply calm_similar]. by eapply (wf_similar None t).
Qed.

(** ** The end of an owner *)

Definition drop_waits (rs : list Z) (W : gmap Z wait) : gmap Z wait := filter (fun '(r, _) => r ∉ rs) W.

Lemma drop_waits_lookup rs W r : drop_waits rs W !! r = if decide (r ∈ rs) then None else W !! r.
Proof.
  unfold drop_waits. case_decide as Hd.
  - apply map_lookup_filter_None. right. intros v _ Hn. done.
  - destruct (W !! r) as [v|] eqn:E.
    + by apply map_lookup_filter_Some.
    + apply map_lookup_filter_None. by left.
Qed.

Lemma drop_waits_delete r rs W : r ∈ rs -> drop_waits (remove_que r rs) (delete r W) = drop_waits rs W.
Proof.
  intros Hr. apply map_eq. intros y. rewrite !drop_waits_lookup. destruct (decide (y = r)) as [->|Hne].
  - rewrite lookup_delete_eq, (decide_True _ _ Hr). by case_decide.
  - rewrite lookup_delete_ne by done. apply decide_ext. rewrite elem_of_remove_que. naive_solver.
Qed.

Lemma drop_waits_nil W : drop_waits [] W = W.
Proof. apply map_eq. intros y. rewrite drop_waits_lookup. by case_decide as H; [apply elem_of_nil in H|]. Qed.

Lemma sys_purge_requests fuel o : forall W t w, sys None None W t -> owners t !! o = Some w -> (length (own_requests w) <= fuel)%nat ->
  wp (purge_requests fuel o) (fun _ t' => sys None None (drop_waits (own_requests w) W) t' /\
    exists w', owners t' !! o = Some w' /\ own_requests w' = []) t.
Proof.
  induction fuel as [|fuel IH]; intros W t w Hsys Hw Hlen; cbn [purge_requests]; apply wp_bind; (eapply wp_own_at; [done|]);
    destruct (own_requests w) as [|r rs] eqn:E.
  1, 3: apply wp_ret; rewrite drop_waits_nil; eauto.
  { cbn in Hlen. lia. }
  destruct (oo_requests _ _ _ (wf_own _ _ (sy_wf _ _ _ _ Hsys) o w Hw) r ltac:(rewrite E; set_solver)) as (q & Hq & Ho & Hqd).
  apply wp_bind. eapply wp_mono; [eapply (sys_release None None W r q); auto|]. intros [] t1 [Hsys1 Hrl].
  pose proof (rl_own _ _ _ _ Hrl o) as Hown. rewrite Hw in Hown. destruct (owners t1 !! o) as [w1|] eqn:Ew1; [|done].
  destruct Hown as [Hor _]. rewrite E in Hor.
  assert (Hlen1 : (length (own_requests w1) <= fuel)%nat).
  { rewrite Hor. unfold remove_que. rewrite filter_cons, decide_False by auto.
    pose proof (length_filter (fun y => y <> r) rs). cbn in Hlen. lia. }
  eapply wp_mono; [by apply (IH (delete r W) t1 w1)|]. intros [] t2 [Hs2 Hw2]. split; [|done].
  rewrite Hor, drop_waits_delete in Hs2; [done|set_solver].
Qed.

Lemma sys_purge_blocks fuel o : forall W t w, sys None None W t -> owners t !! o = Some w -> own_requests w = [] ->
  (length (own_blocks w) <= fuel)%nat ->
  wp (purge_blocks fuel o) (fun _ t' => sys None None W t' /\
    exists w', owners t' !! o = Some w' /\ own_requests w' = [] /\ own_blocks w' = []) t.
Proof.
  induction fuel as [|fuel IH]; intros W t w Hsys Hw Hnil Hlen; cbn [purge_blocks]; apply wp_bind; (eapply wp_own_at; [done|]);
    destruct (own_blocks w) as [|r rs] eqn:E.
  1, 3: apply wp_ret; eauto.
  { cbn in Hlen. lia. }
  pose proof (sy_wf _ _ _ _ Hsys) as Hwf.
  destruct (oo_blocks _ _ _ (wf_own _ _ Hwf o w Hw) r ltac:(rewrite E; set_solver)) as (q & Hq & Ho & _).
  assert (Hnq : ~ queued q).
  { intros Hqd. destruct (wf_request _ _ Hwf r q Hq) as [(w0 & Hw0 & Hin & _) _ _]. rewrite Ho, Hw in Hw0. injection Hw0 as <-.
    specialize (Hin Hqd). rewrite Hnil in Hin. by apply elem_of_nil in Hin. }
  apply wp_bind. eapply wp_change_own; [done|]. apply wp_bind.
  eapply wp_mono; [by eapply (sys_free_repost W t o w r q)|]. intros [] t1 [Hs1 Ho1].
  eapply wp_mono; [eapply (IH W t1 (set_own_blocks (remove_que r (own_blocks w)) w)); try done|done].
  - by rewrite Ho1, lookup_insert_eq.
  - change (own_blocks (set_own_blocks (remove_que r (own_blocks w)) w)) with (remove_que r (own_blocks w)).
    rewrite E. unfold remove_que. rewrite filter_cons, decide_False by auto. pose proof (length_filter (fun y => y <> r) rs).
    cbn in Hlen. lia.
Qed.

Lemma sys_unlist W t o w : sys None None W t -> owners t !! o = Some w -> own_requests w = [] -> own_blocks w = [] ->
  sys None None W (set_lhb_owners (remove_que o (lhb_owners t)) t).
Proof.
  intros [[H1 H2 H3 H4 H5 H6 H7 H8 H9 H10] S2 S3 S4] Hw Hr Hb.
  split; [split|..]; try done; [intros r q Hq; by destruct (H2 r q Hq)|intros o2 w2 Hw2; by destruct (H3 o2 w2 Hw2)| |].
  2: { cbn. intros o2 [_ Ho2]%elem_of_remove_que. auto. }
  intros r q Hq. cbn. apply elem_of_remove_que. split; [|by apply (H9 r)]. intros Ho.
  destruct (H2 r q Hq) as [(w0 & Hw0 & A1 & _ & A2) _ _]. rewrite Ho, Hw in Hw0. injection Hw0 as <-.
  destruct (decide (queued q)) as [Hqd|Hnq].
  - specialize (A1 Hqd). rewrite Hr in A1. by apply elem_of_nil in A1.
  - specialize (A2 (or_intror Hnq)). rewrite Hb in A2. by apply elem_of_nil in A2.
Qed.

(** The owner has no requests any more, and nobody waits for them. *)
Lemma sys_purge_owner W t o w : sys None None W t -> owners t !! o = Some w ->
  wp (purge_owner o) (fun _ t' => sys None None (drop_waits (own_requests w) W) t' /\
    exists w', owners t' !! o = Some w' /\ own_requests w' = [] /\ own_blocks w' = [] /\ own_pending w' = []) t.
Proof.
  intros Hsys Hw. apply wp_bind. eapply wp_own_at; [done|]. apply wp_bind.
  eapply wp_mono; [by apply (sys_purge_requests _ o W t w)|]. intros [] t1 (Hs1 & w1 & Hw1 & Hn1).
  apply wp_bind. eapply wp_own_at; [done|]. apply wp_bind.
  eapply wp_mono; [by eapply (sys_purge_blocks _ o _ t1 w1)|]. intros [] t2 (Hs2 & w2 & Hw2 & Hn2 & Hb2).
  apply wp_bind, wp_modify. eapply wp_change_own; [exact Hw2|].
  assert (Hp2 : own_pending w2 = []).
  { destruct (own_pending w2) as [|r rs] eqn:E; [done|]. exfalso. pose proof (sy_wf _ _ _ _ Hs2) as Hwf.
    destruct (oo_pending _ _ _ (wf_own _ _ Hwf o w2 Hw2) r ltac:(rewrite E; set_solver)) as (q & Hq & Ho & Hp).
    destruct (decide (queued q)) as [Hqd|Hnq].
    - destruct (wf_request _ _ Hwf r q Hq) as [(w0 & Hw0 & Hin & _) _ _]. rewrite Ho, Hw2 in Hw0. injection Hw0 as <-.
      specialize (Hin Hqd). rewrite Hn2 in Hin. by apply elem_of_nil in Hin.
    - destruct (ro_repost _ _ _ (wf_request _ _ Hwf r q Hq) Hnq). congruence. }
  split.
  - eapply sys_similar; [by eapply sys_unlist|]. split; [|done]. by eapply similar_upd_own; [exact Hw2|].
  - eexists. cbn. rewrite lookup_insert_eq. done.
Qed.
