(* ===== verification/LockSystem.v ===== *)
(** * Deadlocks, and the lock manager as a system

    The walk of [deadlock_walk] marks requests and changes nothing else. It ends; a victim that
    it finds waits in a circle; and when it finds none and was not held up, there is no circle
    ahead.

    What holds after any sequence of operations: the state is the table and the waits that have
    not ended. An operation is what a thread does while it holds the mutex of the table;
    [allowed] is what its callers see to. *)

From S2P Require Import Prelude Outcome StateMonad LockTable LockOps LockInv LockFrame LockGrant LockPost LockRelease LockSys LockWait LockConvert LockEnqueue LockOwner.
From stdpp Require Import gmap relations.
#[local] Open Scope Z_scope.

(** ** Marks *)

Definition unmark (flag : Z) : Prop := Z.land LRQ_deadlock flag = 0 /\ Z.land LRQ_scanned flag = 0.

Record marked (q q' : lrq) : Prop := {
  mk_lrq : q' = set_lrq_flags (lrq_flags q') q;
  mk_flags : forall flag, unmark flag -> same_flag flag q q'
}.

Record marked_table (t t' : table) : Prop := {
  mt_lrq : forall y, on_option marked (requests t !! y) (requests t' !! y);
  mt_rest : t' = set_requests (requests t') t
}.

Lemma marked_refl q : marked q q.
Proof. split; [by destruct q|done]. Qed.
Lemma marked_trans q q' q'' : marked q q' -> marked q' q'' -> marked q q''.
Proof. intros [E1 H1] [E2 H2]. split; [rewrite E2, E1; by destruct q|]. intros f Hf. unfold same_flag in *. rewrite H2, H1; done. Qed.

Lemma marked_table_refl t : marked_table t t.
Proof. split; [|by destruct t]. intros y. destruct (requests t !! y); [apply marked_refl|done]. Qed.
Lemma marked_table_trans t t' t'' : marked_table t t' -> marked_table t' t'' -> marked_table t t''.
Proof.
  intros [H1 E1] [H2 E2]. split; [|rewrite E2, E1; by destruct t].
  intros y. specialize (H1 y). specialize (H2 y).
  destruct (requests t !! y), (requests t' !! y), (requests t'' !! y); try done. by eapply marked_trans.
Qed.

Lemma unmark_flags : unmark LRQ_pending /\ unmark LRQ_blocking /\ unmark LRQ_repost /\ unmark LRQ_rejected /\
  unmark LRQ_wait_timeout /\ unmark LRQ_just_granted.
Proof. done. Qed.

Lemma marked_same q q' : marked q q' -> same_lrq q q'.
Proof.
  intros [E H]. destruct unmark_flags as (U1 & U2 & U3 & U4 & _). split; auto; rewrite E; done.
Qed.

Lemma marked_similar t t' : marked_table t t' -> similar t t' /\ lhb_data t' = lhb_data t.
Proof.
  intros [H E]. split; [|by rewrite E]. rewrite E. split; try done.
  - intros y. eapply on_option_mono; [apply marked_same|apply H].
Qed.

Lemma marked_lrq t t' r q : marked_table t t' -> requests t !! r = Some q -> exists q', requests t' !! r = Some q' /\ marked q q'.
Proof. intros [H _] Hq. specialize (H r). rewrite Hq in H. destruct (requests t' !! r); [eauto|done]. Qed.

Lemma marked_change t r q f : requests t !! r = Some q ->
  (forall flag, unmark flag -> has_flag f flag = has_flag (lrq_flags q) flag) -> marked_table t (upd_lrq r (set_lrq_flags f q) t).
Proof.
  intros Hq Hf. split; [|done]. intros y. cbn. destruct (decide (y = r)) as [->|Hne].
  - rewrite Hq, lookup_insert_eq. by split.
  - rewrite lookup_insert_ne by done. destruct (requests t !! y); [apply marked_refl|done].
Qed.

(** ** Requests that the walk has not seen *)

Definition white (q : lrq) : bool := negb (has_flag (lrq_flags q) LRQ_scanned) && negb (has_flag (lrq_flags q) LRQ_deadlock).
Definition whites (t : table) : gmap Z lrq := filter (fun '(_, q) => white q = true) (requests t).
Definition seen (t : table) (r : Z) : Prop := whites t !! r = None.

Lemma seen_spec t r : seen t r <-> forall q, requests t !! r = Some q -> white q = false.
Proof.
  unfold seen, whites. rewrite map_lookup_filter_None. split.
  - intros [H|H] q Hq; [congruence|]. specialize (H q Hq). cbn in H. by destruct (white q).
  - intros H. right. intros q Hq. rewrite (H q Hq). done.
Qed.

Lemma whites_le t t' : marked_table t t' -> (forall r, seen t r -> seen t' r) -> (size (whites t') <= size (whites t))%nat.
Proof.
  intros Hm Hs. rewrite <- !size_dom. apply subseteq_size. intros r Hr. apply elem_of_dom. apply not_eq_None_Some. intros Hn.
  apply elem_of_dom in Hr as [q' Hq']. specialize (Hs r Hn). unfold seen in Hs. congruence.
Qed.

Lemma whites_lt t t' r q : marked_table t t' -> (forall y, seen t y -> seen t' y) ->
  requests t !! r = Some q -> white q = true -> seen t' r -> (size (whites t') < size (whites t))%nat.
Proof.
  intros Hm Hs Hq Hw Hr. rewrite <- !size_dom. apply subset_size. split.
  - intros y Hy. apply elem_of_dom. apply not_eq_None_Some. intros Hn.
    apply elem_of_dom in Hy as [q' Hq']. specialize (Hs y Hn). unfold seen in Hs. congruence.
  - intros Hsub. assert (Hin : r ∈ dom (whites t)).
    { apply elem_of_dom. exists q. apply map_lookup_filter_Some. done. }
    apply Hsub, elem_of_dom in Hin as [q' Hq']. unfold seen in Hr. congruence.
Qed.

(** ** Who waits for whom *)

(** The requests in the queue of the lock that block the request [r] *)
Fixpoint blockers (m : gmap Z lrq) (r requested : Z) (conversion : bool) (rs : list Z) : list Z :=
  match rs with
  | [] => []
  | x :: rs =>
      if decide (x = r) then if conversion then blockers m r requested conversion rs else []
      else
        if compatible requested (if conversion then state_of m x else Z.max (state_of m x) (requested_of m x))
        then blockers m r requested conversion rs
        else x :: blockers m r requested conversion rs
  end.

Definition blockers_of (t : table) (r : Z) (x : Z) : Prop :=
  exists q b, requests t !! r = Some q /\ locks t !! lrq_lock q = Some b /\
    x ∈ blockers (requests t) r (lrq_requested q) (bool_decide (lrq_state q > LCK_null)) (lbl_requests b).

(** The owner of [x] waits for [z], and not for a limited time. *)
Definition owner_waits (t : table) (x z : Z) : Prop :=
  exists block w q, requests t !! x = Some block /\ owners t !! lrq_owner block = Some w /\ z ∈ own_pending w /\
    requests t !! z = Some q /\ has_flag (lrq_flags q) LRQ_wait_timeout = false.

(** The owner of [x] may do something about it. *)
Definition held_up (t : table) (x : Z) : Prop :=
  exists block w, requests t !! x = Some block /\ owners t !! lrq_owner block = Some w /\ may_release w block = true.

(** The request [r] waits for an owner who waits for [z]. *)
Definition waits_for (t : table) (r z : Z) : Prop := exists x, blockers_of t r x /\ owner_waits t x z.
Definition stuck_on (t : table) (r z : Z) : Prop := exists x, blockers_of t r x /\ ~ held_up t x /\ owner_waits t x z.

(** ** The walk *)

Section Walk.
(** The table as the scan found it *)
Context (t0 : table).
Hypothesis Hwf : wf None t0.

Definition waiting (r : Z) : Prop :=
  exists q, in_use (requests t0) r q /\ queued q /\ has_flag (lrq_flags q) LRQ_pending = true.

(** The requests on the way of the walk are grey, those behind it black. *)
Definition black (t : table) (r : Z) : Prop := waiting r /\ flag_of LRQ_scanned (requests t) r = true.
Definition grey (t : table) (r : Z) : Prop :=
  waiting r /\ flag_of LRQ_scanned (requests t) r = false /\ flag_of LRQ_deadlock (requests t) r = true.

(** No endless way of waits begins at [r]. *)
Definition ends (r : Z) : Prop := Acc (fun z y => waits_for t0 y z) r.
Definition blacks_end (t : table) : Prop := forall y, black t y -> ends y.

Record walk_pre (n : nat) (r : Z) (t : table) : Prop := {
  wa_marked : marked_table t0 t;
  wa_fuel : (size (whites t) < n)%nat;
  wa_grey : forall y, grey t y -> rtc (stuck_on t0) y r
}.

(** What no walk undoes, and what holds when it comes back without a victim *)
Record walked (t t' : table) : Prop := {
  wk_marked : marked_table t t';
  wk_seen : forall y, seen t y -> seen t' y;
  wk_grey : forall y, grey t' y <-> grey t y;
  wk_black : forall y, black t y -> black t' y
}.

Definition circle (v : Z) : Prop := waiting v /\ tc (stuck_on t0) v v.

(** [Q]: what is known if nothing held the walk up *)
Definition walk_post (Q : table -> Prop) (maybe : bool) (t : table) (a : option Z * bool) (t' : table) : Prop :=
  match a with
  | (Some v, _) => marked_table t t' /\ circle v
  | (None, maybe') => walked t t' /\ (maybe' = false -> maybe = false /\ (blacks_end t -> blacks_end t') /\ Q t')
  end.

Lemma walked_refl t : walked t t.
Proof using. split; try done. apply marked_table_refl. Qed.
Lemma walked_trans t t' t'' : walked t t' -> walked t' t'' -> walked t t''.
Proof using.
  intros [A1 A2 A3 A4] [B1 B2 B3 B4]. split; [by eapply marked_table_trans|auto| |auto]. intros y. by rewrite B3, A3.
Qed.

Lemma walk_pre_walked n r t t' : walk_pre n r t -> walked t t' -> walk_pre n r t'.
Proof using.
  intros [A1 A2 A3] [B1 B2 B3 B4]. split; [by eapply marked_table_trans| |].
  - pose proof (whites_le t t' B1 B2). lia.
  - intros y Hy. apply A3. by apply B3.
Qed.

(** Going on after a walk without a victim *)
Lemma walk_post_trans (Q1 Q2 : table -> Prop) maybe t a1 t1 a2 t2 :
  walk_post Q1 maybe t (None, a1) t1 -> walk_post Q2 a1 t1 a2 t2 ->
  walk_post (fun t' => Q2 t' /\ exists t1', walked t1' t' /\ Q1 t1') maybe t a2 t2.
Proof using.
  intros [H1 H2] H3. destruct a2 as [[v|] m2]; cbn in *.
  - destruct H3 as [H3 Hc]. split; [|done]. eapply marked_table_trans; [apply H1|done].
  - destruct H3 as [H3 H4]. split; [by eapply walked_trans|]. intros Hm. destruct (H4 Hm) as (-> & Hb & HQ).
    destruct (H2 eq_refl) as (-> & Hb' & HQ'). split; [done|]. split; [auto|]. split; [done|]. eauto.
Qed.

Lemma walk_post_weaken (Q1 Q2 : table -> Prop) maybe t a t' : (forall s, walked t s -> Q1 s -> Q2 s) ->
  walk_post Q1 maybe t a t' -> walk_post Q2 maybe t a t'.
Proof using. intros H. destruct a as [[v|] m]; cbn; [done|]. intros [H1 H2]. split; [done|]. intros Hm. destruct (H2 Hm) as (? & ? & ?). auto. Qed.

Definition walk_spec (n : nat) (walk : Z -> bool -> LM (option Z * bool)) : Prop :=
  forall r maybe t, waiting r -> walk_pre n r t -> (forall y, grey t y -> tc (stuck_on t0) y r) -> wp (walk r maybe) (walk_post (fun t' => black t' r) maybe t) t.

(** The requests that the owner of a blocking request waits for *)
Lemma wp_walk_pending n walk r x block w zs maybe t :
  walk_spec n walk -> walk_pre n r t -> requests t0 !! x = Some block -> owners t0 !! lrq_owner block = Some w ->
  blockers_of t0 r x -> ~ held_up t0 x -> (forall z, z ∈ zs -> z ∈ own_pending w) ->
  wp (walk_pending walk zs maybe)
    (walk_post (fun t' => forall z, z ∈ zs -> owner_waits t0 x z -> black t' z) maybe t) t.
Proof using Hwf.
  intros Hwalk Hpre Hx Hw Hbl Hnh. revert maybe t Hpre. induction zs as [|z zs IH]; intros maybe t Hpre Hzs; cbn [walk_pending].
  { apply wp_ret. cbn. split; [apply walked_refl|]. intros ->. split; [done|]. split; [done|]. by intros z ?%elem_of_nil. }
  destruct (oo_pending _ _ _ (wf_own _ _ Hwf _ w Hw) z ltac:(apply Hzs; set_solver)) as (q & Hq & Ho & Hp).
  destruct (marked_lrq t0 t z q (wa_marked _ _ _ Hpre)) as (q' & Hq' & Hm); [apply Hq|].
  assert (Hto : has_flag (lrq_flags q') LRQ_wait_timeout = has_flag (lrq_flags q) LRQ_wait_timeout) by (by apply (mk_flags _ _ Hm)).
  apply wp_bind. eapply wp_lrq_at; [done|]. rewrite Hto.
  assert (IH' : forall maybe t, walk_pre n r t -> wp (walk_pending walk zs maybe)
    (walk_post (fun t' => forall z, z ∈ zs -> owner_waits t0 x z -> black t' z) maybe t) t).
  { intros. apply IH; [done|]. intros. apply Hzs. set_solver. }
  destruct (has_flag (lrq_flags q) LRQ_wait_timeout) eqn:E.
  - eapply wp_mono; [by apply IH'|]. intros a t'. apply walk_post_weaken. intros s _ HQ y [->|Hy]%elem_of_cons Hz; [|by apply HQ].
    destruct Hz as (bl & w2 & q2 & _ & _ & _ & Hq2 & Hto2). destruct Hq as [Hq _]. congruence.
  - assert (Hwz : owner_waits t0 x z).
    { exists block, w, q. split_and!; try done; [apply Hzs; set_solver|apply Hq]. }
    apply wp_bind. eapply wp_mono; [apply Hwalk|].
    + exists q. split; [done|]. split; [|done]. destruct (decide (queued q)) as [?|Hn]; [done|].
      destruct (ro_repost _ _ _ (wf_request _ _ Hwf z q Hq) Hn). congruence.
    + destruct Hpre as [A1 A2 A3]. split; [done|done|]. intros y Hy. eapply rtc_r; [by apply A3|]. by exists x.
    + intros y Hy. eapply tc_rtc_l; [by apply (wa_grey _ _ _ Hpre)|]. apply tc_once. by exists x.
    + intros [[v|] m1] t1 H1; [by apply wp_ret|].
      eapply wp_mono; [apply IH'; eapply walk_pre_walked; [done|apply H1]|]. intros a t2 H2.
      eapply walk_post_weaken; [|by eapply walk_post_trans]. cbn. intros s _ [HQ (s1 & Hs1 & Hb1)] y [->|Hy]%elem_of_cons Hz; [|by apply HQ].
      by apply (wk_black _ _ Hs1).
Qed.

Lemma wp_walk_blocks n walk r q conversion rs maybe t :
  walk_spec n walk -> walk_pre n r t -> requests t0 !! r = Some q -> level (lrq_requested q) ->
  (forall x, x ∈ rs -> exists block, in_use (requests t0) x block /\ level (lrq_state block) /\ level (lrq_requested block)) ->
  (forall x, x ∈ blockers (requests t0) r (lrq_requested q) conversion rs -> blockers_of t0 r x) ->
  wp (walk_blocks walk r (lrq_requested q) conversion rs maybe)
    (walk_post (fun t' => forall x z, x ∈ blockers (requests t0) r (lrq_requested q) conversion rs ->
       owner_waits t0 x z -> black t' z) maybe t) t.
Proof using Hwf.
  intros Hwalk Hpre Hq Hlev. revert maybe t Hpre.
  induction rs as [|x rs IH]; intros maybe t Hpre Hrs Hbl; cbn [walk_blocks blockers] in *.
  { apply wp_ret. cbn. split; [apply walked_refl|]. intros ->. split; [done|]. split; [done|]. by intros x z ?%elem_of_nil. }
  destruct (Hrs x ltac:(set_solver)) as (block & Hblk & Hl1 & Hl2).
  destruct (marked_lrq t0 t x block (wa_marked _ _ _ Hpre)) as (block' & Hblk' & Hm); [apply Hblk|].
  pose proof (marked_same _ _ Hm) as [_ Sr Ss So _ _ _ _ _].
  apply wp_bind. eapply wp_lrq_at; [done|].
  destruct (decide (x = r)) as [->|Hne].
  { destruct conversion; [apply IH; [done|intros; apply Hrs; set_solver|done]|].
    apply wp_ret. cbn. split; [apply walked_refl|]. intros ->. split; [done|]. split; [done|]. by intros x z ?%elem_of_nil. }
  rewrite Sr, Ss. apply wp_bind.
  assert (Hsx : state_of (requests t0) x = lrq_state block /\ requested_of (requests t0) x = lrq_requested block).
  { unfold state_of, requested_of. destruct Hblk as [-> _]. done. }
  destruct Hsx as [Hsx Hrx]. rewrite Hsx, Hrx in *.
  apply wp_compat; [done|destruct conversion; [done|unfold level in *; lia]|].
  destruct (compatible (lrq_requested q) (if conversion then lrq_state block else Z.max (lrq_state block) (lrq_requested block))).
  { apply IH; [done|intros; apply Hrs; set_solver|done]. }
  assert (Hxb : blockers_of t0 r x) by (apply Hbl; set_solver).
  assert (IH' : forall maybe t, walk_pre n r t -> wp (walk_blocks walk r (lrq_requested q) conversion rs maybe)
    (walk_post (fun t' => forall x z, x ∈ blockers (requests t0) r (lrq_requested q) conversion rs -> owner_waits t0 x z -> black t' z) maybe t) t).
  { intros. apply IH; [done|intros; apply Hrs; set_solver|]. intros. apply Hbl. set_solver. }
  destruct (ro_owner _ _ _ (wf_request _ _ Hwf x block Hblk)) as (w & Hw & _).
  assert (Hwt : owners t !! lrq_owner block' = Some w).
  { rewrite So. destruct (wa_marked _ _ _ Hpre) as [_ ->]. done. }
  apply wp_bind. eapply wp_own_at; [done|].
  assert (Hmr : may_release w block' = may_release w block).
  { unfold may_release. f_equal. by apply (mk_flags _ _ Hm). }
  rewrite Hmr. destruct (may_release w block) eqn:Er.
  - eapply wp_mono; [by apply IH'|]. intros [[v|] m] t'; [done|]. cbn. intros [H1 H2]. split; [done|]. intros Hmf.
    destruct (H2 Hmf) as (? & _). done.
  - assert (Hnh : ~ held_up t0 x).
    { intros (bl & w2 & Hbl2 & Hw2 & Hr2). destruct Hblk as [Hb1 _]. congruence. }
    apply wp_bind. eapply wp_mono; [eapply (wp_walk_pending n walk r x block w); try done; apply Hblk|].
    intros [[v|] m1] t1 H1; [by apply wp_ret|].
    eapply wp_mono; [apply IH'; eapply walk_pre_walked; [done|apply H1]|]. intros a t2 H2.
    eapply walk_post_weaken; [|by eapply walk_post_trans]. cbn. intros s _ [HQ (s1 & Hs1 & Hb1)] y z [->|Hy]%elem_of_cons Hz; [|by eapply HQ].
    apply (wk_black _ _ Hs1), Hb1; [|done]. destruct Hz as (bl & w2 & q2 & Hbl2 & Hw2 & Hin & _). destruct Hblk as [Hbk _]. congruence.
Qed.

Lemma wp_deadlock_walk fuel : walk_spec fuel (deadlock_walk fuel).
Proof using Hwf.
  induction fuel as [|fuel IH]; intros r maybe t Hr Hpre Hgrey; [destruct Hpre as [_ ? _]; lia|].
  pose proof Hr as (q0 & Hq0 & Hqd & Hp). pose proof Hpre as [Hmk Hsz _].
  destruct (marked_lrq t0 t r q0 Hmk) as (q & Hq & Hm); [apply Hq0|]. pose proof (marked_same _ _ Hm) as [_ Sr Ss So Sl _ _ _ _].
  destruct (ro_lock _ _ _ (wf_request _ _ Hwf r q0 Hq0) Hqd) as (b & Hb & Hlive & Hrb).
  destruct (wf_lock _ _ Hwf _ b Hb Hlive) as [_ Hok].
  cbn [deadlock_walk]. apply wp_bind. eapply wp_lrq_at; [done|].
  destruct (has_flag (lrq_flags q) LRQ_scanned) eqn:Es.
  { apply wp_ret. cbn. split; [apply walked_refl|]. intros ->. split; [done|]. split; [done|]. split; [done|]. unfold flag_of. by rewrite Hq. }
  destruct (has_flag (lrq_flags q) LRQ_deadlock) eqn:Ed.
  { apply wp_ret. cbn. split; [apply marked_table_refl|]. split; [done|]. apply Hgrey. split; [done|]. unfold flag_of. by rewrite Hq. }
  assert (Hwh : white q = true) by (unfold white; by rewrite Es, Ed).
  apply wp_bind. eapply wp_change_lrq; [done|]. set (q1 := set_lrq_flags _ q). set (t1 := upd_lrq r q1 t).
  assert (Hm1 : marked_table t t1).
  { apply marked_change; [done|]. intros flag [H1 H2]. rewrite has_with. unfold has_flag at 2. rewrite H1. by rewrite orb_false_r. }
  assert (Hs1 : has_flag (lrq_flags q1) LRQ_scanned = false) by (unfold q1; cbn; flags; done).
  assert (Hd1 : has_flag (lrq_flags q1) LRQ_deadlock = true) by (unfold q1; cbn; flags; done).
  assert (Hseen1 : forall y, seen t y -> seen t1 y).
  { intros y. rewrite !seen_spec. intros H p Hp'. unfold t1 in Hp'. cbn in Hp'. destruct (decide (y = r)) as [->|Hne].
    - rewrite lookup_insert_eq in Hp'. injection Hp' as <-. unfold white. by rewrite Hs1, Hd1.
    - rewrite lookup_insert_ne in Hp' by done. auto. }
  assert (Hpre1 : walk_pre fuel r t1).
  { split.
    - by eapply marked_table_trans.
    - assert (size (whites t1) < size (whites t))%nat; [|lia]. eapply (whites_lt t t1 r q); try done.
      apply seen_spec. intros p Hp'. unfold t1 in Hp'. cbn in Hp'. rewrite lookup_insert_eq in Hp'. injection Hp' as <-.
      unfold white. by rewrite Hs1, Hd1.
    - intros y Hy. destruct (decide (y = r)) as [->|Hne]; [apply rtc_refl|]. apply tc_rtc, Hgrey.
      unfold grey, t1 in *. cbn in Hy. rewrite !flag_of_insert, !decide_False in Hy by done. done. }
  apply wp_bind. eapply (wp_lbl_at _ b).
  { destruct Hm1 as [_ ->]. destruct Hmk as [_ ->]. cbn. by rewrite Sl. }
  rewrite Sr, Ss. apply wp_bind.
  assert (Hlev : level (lrq_requested q0)).
  { destruct (ok_request _ _ _ _ Hok r Hrb) as (q2 & [Hq2 _] & _ & _ & _ & H). destruct Hq0 as [Hq0 _]. congruence. }
  eapply wp_mono; [eapply (wp_walk_blocks fuel _ r q0); try done; [apply Hq0|..]|].
  - intros x Hx. destruct (ok_request _ _ _ _ Hok x Hx) as (qx & Hqx & _ & _ & ? & ?). eauto.
  - intros x Hx. exists q0, b. destruct Hq0. done.
  - intros [[v|] m2] t2 H2.
    { apply wp_ret. cbn in *. destruct H2 as [H2 Hc]. split; [by eapply marked_table_trans|done]. }
    cbn in H2. destruct H2 as [[Hm2 Hseen2 Hg2 Hbl2] H2].
    destruct (marked_lrq t1 t2 r q1 Hm2) as (q2 & Hq2 & Hmq2); [unfold t1; by lookups|].
    apply wp_bind. eapply wp_change_lrq; [done|]. apply wp_bind. eapply wp_change_lrq; [by lookups|]. apply wp_ret.
    set (q3 := set_lrq_flags (with_flag LRQ_scanned (without_flag LRQ_deadlock (lrq_flags q2))) q2).
    match goal with |- walk_post _ _ _ _ ?tt => assert (tt = upd_lrq r q3 t2) as -> end.
    { unfold upd_lrq. cbn. by rewrite insert_insert_eq. }
    assert (Hs3 : has_flag (lrq_flags q3) LRQ_scanned = true) by (unfold q3; cbn; by flags).
    assert (Hm3 : marked_table t2 (upd_lrq r q3 t2)).
    { apply marked_change; [done|]. intros flag [F1 F2]. rewrite has_with, has_without by done. unfold has_flag at 2. rewrite F2. by rewrite orb_false_r. }
    assert (Hother : forall flag y, y <> r -> flag_of flag (requests (upd_lrq r q3 t2)) y = flag_of flag (requests t2) y).
    { intros flag y Hne. cbn. by rewrite flag_of_insert, decide_False. }
    assert (Hother1 : forall flag y, y <> r -> flag_of flag (requests t1) y = flag_of flag (requests t) y).
    { intros flag y Hne. unfold t1. cbn. by rewrite flag_of_insert, decide_False. }
    assert (Hself : flag_of LRQ_scanned (requests (upd_lrq r q3 t2)) r = true) by (cbn; by rewrite flag_of_insert, decide_True).
    assert (Hself0 : flag_of LRQ_scanned (requests t) r = false /\ flag_of LRQ_deadlock (requests t) r = false) by (unfold flag_of; by rewrite Hq).
    cbn. split.
    + split.
      * eapply marked_table_trans; [done|]. by eapply marked_table_trans.
      * intros y Hy. apply seen_spec. intros p Hp'. cbn in Hp'. destruct (decide (y = r)) as [->|Hne].
        -- rewrite lookup_insert_eq in Hp'. injection Hp' as <-. unfold white. by rewrite Hs3.
        -- rewrite lookup_insert_ne in Hp' by done. by apply (proj1 (seen_spec t2 y) (Hseen2 _ (Hseen1 _ Hy))).
      * intros y. unfold grey. destruct (decide (y = r)) as [->|Hne].
        -- rewrite Hself. destruct Hself0 as [_ ->]. split; intros (_ & ? & ?); congruence.
        -- rewrite !Hother by done. specialize (Hg2 y). unfold grey in Hg2. rewrite Hg2, !Hother1 by done. done.
      * intros y Hy. unfold black in *. destruct (decide (y = r)) as [->|Hne]; [done|]. rewrite Hother by done.
        apply Hbl2. by rewrite Hother1.
    + intros Hmf. destruct (H2 Hmf) as (-> & Hbe & HQ). split; [done|]. split; [|by split].
      intros Hb0. assert (Hb1 : blacks_end t1).
      { intros y Hy. destruct (decide (y = r)) as [->|Hne].
        - unfold black, t1 in Hy. cbn in Hy. rewrite flag_of_insert, decide_True in Hy by done. destruct Hy. congruence.
        - apply Hb0. unfold black in *. by rewrite <- Hother1. }
      specialize (Hbe Hb1). intros y Hy. destruct (decide (y = r)) as [->|Hne].
      * constructor. intros z (x & (qq & bb & Hqq & Hbb & Hx) & Hz). destruct Hq0 as [Hq0 _].
        assert (qq = q0) as -> by congruence. assert (bb = b) as -> by congruence. apply Hbe. by apply (HQ x z).
      * apply Hbe. unfold black in *. by rewrite <- Hother.
Qed.

End Walk.

(** ** The scan *)

Lemma wp_for_each {A} (f : A -> LM unit) (R : relation table) (P : A -> table -> Prop) xs t :
  PreOrder R -> (forall x t t', R t t' -> P x t -> P x t') ->
  (forall x t', x ∈ xs -> R t t' -> wp (f x) (fun _ t'' => R t' t'' /\ P x t'') t') ->
  wp (for_each f xs) (fun _ t' => R t t' /\ forall x, x ∈ xs -> P x t') t.
Proof.
  intros HR HP. revert t. induction xs as [|x xs IH]; intros t Hf; cbn [for_each].
  { apply wp_ret. split; [reflexivity|]. by intros x ?%elem_of_nil. }
  apply wp_bind. eapply wp_mono; [apply Hf; [set_solver|reflexivity]|]. intros [] t1 [H1 Hx].
  eapply wp_mono; [apply IH|].
  - intros y t' Hy Ht'. apply Hf; [set_solver|by transitivity t1].
  - intros [] t2 [H2 Hxs]. split; [by transitivity t1|]. intros y [->|Hy]%elem_of_cons; [by eapply HP|auto].
Qed.

Definition plain (r : Z) (t : table) : Prop :=
  flag_of LRQ_scanned (requests t) r = false /\ flag_of LRQ_deadlock (requests t) r = false.
Definition clears (t t' : table) : Prop := marked_table t t' /\ forall r, plain r t -> plain r t'.

#[export] Instance clears_preorder : PreOrder clears.
Proof.
  split; [intros t; split; [apply marked_table_refl|done]|].
  intros t t' t'' [H1 H2] [H3 H4]. split; [by eapply marked_table_trans|auto].
Qed.

Lemma wp_unmark r q t : requests t !! r = Some q ->
  wp (unflag_lrq r (Z.lor LRQ_deadlock LRQ_scanned)) (fun _ t' => clears t t' /\ plain r t') t.
Proof.
  intros Hq. eapply wp_change_lrq; [done|]. set (f := without_flag _ _).
  assert (Hs : has_flag f LRQ_scanned = false) by (unfold f; by flags).
  assert (Hd : has_flag f LRQ_deadlock = false) by (unfold f; by flags).
  assert (Hp : plain r (upd_lrq r (set_lrq_flags f q) t)).
  { unfold plain. cbn. by rewrite !flag_of_insert, !decide_True. }
  split; [|done]. split.
  - apply marked_change; [done|]. intros flag [F1 F2]. apply has_without. rewrite Z.land_lor_distr_l, F1, F2. done.
  - intros y Hy. destruct (decide (y = r)) as [->|Hne]; [done|]. unfold plain in *. cbn. by rewrite !flag_of_insert, !decide_False.
Qed.

Lemma wp_deadlock_clear t0 : wf None t0 ->
  wp deadlock_clear (fun _ t' => marked_table t0 t' /\ forall r, waiting t0 r -> plain r t') t0.
Proof.
  intros Hwf. apply wp_bind, wp_gets.
  eapply wp_mono; [apply (wp_for_each _ clears (fun o t => forall w, owners t0 !! o = Some w -> forall r, r ∈ own_pending w -> plain r t))|].
  - apply _.
  - intros o t t' [_ H] HP w Hw r Hr. eauto.
  - intros o t Ho [Hm _]. destruct (wf_owners _ _ Hwf o Ho) as [w Hw].
    assert (Hw' : owners t !! o = Some w) by (destruct Hm as [_ ->]; done). apply wp_bind. eapply wp_own_at; [done|].
    eapply wp_mono; [apply (wp_for_each _ clears (fun r t => plain r t)); [apply _|intros x s s' [_ H]; apply H|]|].
    + intros r t' Hr [Hm' _]. destruct (oo_pending _ _ _ (wf_own _ _ Hwf o w Hw) r Hr) as (q & [Hq _] & _).
      destruct (marked_lrq t0 t' r q) as (q' & Hq' & _); [by eapply marked_table_trans|done|]. by eapply wp_unmark.
    + intros [] t' [Hc Hp]. split; [done|]. intros w2 Hw2 r Hr. assert (w2 = w) as -> by congruence. auto.
  - intros [] t' [[Hm _] HP]. split; [done|]. intros r (q & Hq & Hqd & Hp).
    destruct (ro_owner _ _ _ (wf_request _ _ Hwf r q Hq)) as (w & Hw & _ & Hin & _).
    apply (HP (lrq_owner q)) with w; [by apply (wf_listed _ _ Hwf r)|done|auto].
Qed.

Lemma ends_no_circle t r x : ends t r -> rtc (waits_for t) r x -> tc (waits_for t) x x -> False.
Proof.
  intros He Hr Hx. assert (Hex : ends t x).
  { induction Hr as [|r y x Hry _ IH]; [done|]. apply IH; [by apply (Acc_inv He)|done]. }
  clear r He Hr. induction Hex as [x _ IH]. inversion Hx as [? ? Hy|? y ? Hy Hz]; subst.
  - by apply (IH x).
  - apply (IH y Hy). eapply tc_r; done.
Qed.

(** What the scan of the wait for [r] tells *)
Lemma wp_deadlock_scan t0 r q w : wf None t0 -> in_use (requests t0) r q -> queued q -> has_flag (lrq_flags q) LRQ_pending = true ->
  owners t0 !! lrq_owner q = Some w ->
  wp (deadlock_scan (lrq_owner q) r) (fun v t' => similar t0 t' /\ lhb_data t' = lhb_data t0 /\
    match v with
    | Some v => circle t0 v
    | None => forall w', owners t' !! lrq_owner q = Some w' -> own_flags w' <> own_flags w -> ends t0 r
    end) t0.
Proof.
  intros Hwf Hq Hqd Hp Hw. assert (Hr : waiting t0 r) by (by exists q).
  apply wp_bind. eapply wp_mono; [by apply wp_deadlock_clear|]. intros [] t1 [Hm1 Hpl]. apply wp_bind, wp_gets, wp_bind.
  eapply wp_mono; [apply (wp_deadlock_walk t0 Hwf (S (S (size (requests t1)))) r false t1 Hr)|].
  - split; [done| |].
    + assert (size (whites t1) <= size (requests t1))%nat; [|lia]. apply map_size_filter.
    + intros y (Hy & _ & Hd). destruct (Hpl y Hy). congruence.
  - intros y (Hy & _ & Hd). destruct (Hpl y Hy). congruence.
  - intros [[v|] m] t2 H2; cbn in H2.
    + destruct H2 as [H2 Hc]. apply wp_bind, wp_ret, wp_ret. destruct (marked_similar t0 t2) as [? ?]; [by eapply marked_table_trans|].
      done.
    + destruct H2 as [[Hm2 _ _ _] H2]. destruct (marked_similar t0 t2) as [Hs Hd]; [by eapply marked_table_trans|].
      assert (Hw2 : owners t2 !! lrq_owner q = Some w) by (destruct Hm2 as [_ ->]; destruct Hm1 as [_ ->]; done).
      apply wp_bind. destruct m.
      * apply wp_ret, wp_ret. split; [done|]. split; [done|]. intros w' Hw' Hne. congruence.
      * eapply wp_change_own; [done|]. apply wp_ret. destruct (H2 eq_refl) as (_ & Hbe & Hbl). split; [|split].
        -- transitivity t2; [done|]. by apply (similar_upd_own t2 _ w).
        -- done.
        -- intros _ _ _. apply Hbe; [|done]. intros y [Hy Hsc]. destruct (Hpl y Hy). congruence.
Qed.

(** ** The loop of [wait_for_request] *)

Lemma sys_wait_loop W t r q timed_out : sys None None W t -> in_use (requests t) r q -> queued q ->
  has_flag (lrq_flags q) LRQ_pending = true -> wp (wait_loop r timed_out) (fun _ t' => sys None None W t') t.
Proof.
  intros Hsys Hq Hqd Hp. destruct (ro_owner _ _ _ (wf_request _ _ (sy_wf _ _ _ _ Hsys) r q Hq)) as (w & Hw & _).
  apply wp_bind. eapply wp_lrq_at; [apply Hq|]. apply wp_bind. eapply wp_own_at; [done|].
  apply wp_bind. eapply wp_change_own; [done|]. match goal with |- wp _ _ ?tt => set (t1 := tt) end.
  assert (Hsys1 : sys None None W t1).
  { eapply sys_similar; [done|]. split; [|done]. by apply (similar_upd_own t _ w). }
  pose proof (sy_wf _ _ _ _ Hsys1) as Hwf1. assert (Hq1 : in_use (requests t1) r q) by done.
  assert (Hblockage : forall t2, sys None None W t2 -> similar t1 t2 -> wp (post_blockage r) (fun _ t' => sys None None W t') t2).
  { intros t2 Hsys2 Hs2. destruct (forth_kept (requests t1) (requests t2) r q co_kept) as (q2 & Hq2 & Hqd2 & _).
    - eapply on_option_mono; [apply same_core|apply (si_lrq _ _ Hs2)].
    - done.
    - done.
    - eapply wp_mono; [apply (wp_post_blockage r q2); [apply Hsys2|done|done]|]. intros [] t3 [Hwf3 Hc3]. by eapply sys_calm. }
  destruct timed_out; [eapply wp_mono; [by eapply (sys_reject W t1 r q)|by intros [] t' []]|].
  destruct (has_flag (own_flags w) OWN_wakeup); [by apply Hblockage|]. apply wp_bind.
  eapply wp_mono with (P := fun v t' => sys None None W t' /\ similar t1 t' /\ forall x, v = Some x ->
    exists qx, in_use (requests t1) x qx /\ queued qx /\ has_flag (lrq_flags qx) LRQ_pending = true).
  - destruct (has_flag (own_flags w) OWN_scanned || has_flag (lrq_flags q) LRQ_wait_timeout); [by apply wp_ret|].
    eapply wp_mono; [eapply (wp_deadlock_scan t1 r q); try done; unfold t1; by lookups|]. intros v t2 (Hs2 & Hd2 & Hv).
    split; [by eapply sys_similar|]. split; [done|]. intros x ->. apply Hv.
  - intros [v|] t2 (Hsys2 & Hs2 & Hv).
    + destruct (Hv v eq_refl) as (qv & Hqv & Hqdv & Hpv).
      destruct (forth_kept (requests t1) (requests t2) v qv co_kept) as (q2 & Hq2 & Hqd2 & Hco); [|done..|].
      { eapply on_option_mono; [apply same_core|apply (si_lrq _ _ Hs2)]. }
      assert (Hp2 : has_flag (lrq_flags q2) LRQ_pending = true) by (destruct Hco; unfold same_flag in *; congruence).
      destruct (ro_owner _ _ _ (wf_request _ _ (sy_wf _ _ _ _ Hsys2) v q2 Hq2)) as (wv & Hwv & _).
      apply wp_bind. eapply wp_lrq_at; [apply Hq2|]. apply wp_bind.
      eapply wp_mono; [by eapply (sys_reject W t2 v q2)|]. intros [] t3 [Hsys3 Ho3].
      destruct (Ho3 (lrq_owner q2) ltac:(eauto)) as [w3 Hw3]. apply wp_bind.
      eapply wp_change_own; [done|]. match goal with |- wp _ _ ?tt => set (t4 := tt) end.
      assert (Hsys4 : sys None None W t4).
      { eapply sys_similar; [done|]. split; [|done]. by apply (similar_upd_own t3 _ w3). }
      case_decide; [|by apply wp_ret]. eapply wp_mono; [eapply wp_post_wakeup; unfold t4; by lookups|]. intros [] t5 Hs5. by eapply sys_similar.
    + by apply Hblockage.
Qed.

Inductive op :=
  | OEnqueue (o prior series : Z) (value : list Z) (type ast arg data lck_wait : Z)
  | OConvert (r type lck_wait ast arg : Z)
  | ODowngrade (r : Z)
  | ODequeue (r : Z)
  | OWrite (r data : Z)
  | OWait (r : Z) (timed_out : bool)
  | OWake (r : Z)
  | OBlocking (o : Z)
  | ORepost (ast arg o : Z)
  | OCancel (o : Z)
  | OPurge (o : Z).

Section System.
Context (internal_hash : list Z -> Z).

(** The operation, and the waits after it *)
Definition run (W : gmap Z wait) (p : op) : LM (gmap Z wait) :=
  match p with
  | OEnqueue o prior series value type ast arg data lck_wait =>
      '(a, r) ← enqueue internal_hash o prior series value type ast arg data lck_wait;
      ret (match a with Waits => <[r := WEnqueue]> W | _ => W end)
  | OConvert r type lck_wait ast arg =>
      a ← convert r type lck_wait ast arg; ret (match a with Waits => <[r := WConvert ast arg]> W | _ => W end)
  | ODowngrade r => _ ← downgrade r; ret W
  | ODequeue r => _ ← dequeue r; ret W
  | OWrite r data => _ ← writeData r data; ret W
  | OWait r timed_out => wait_loop r timed_out;; ret W
  | OWake r =>
      match W !! r with
      | Some WEnqueue => _ ← enqueue_end r; ret (delete r W)
      | Some (WConvert ast arg) => _ ← convert_end r ast arg; ret (delete r W)
      | None => ret W
      end
  | OBlocking o => _ ← blocking_action o; ret W
  | ORepost ast arg o => repost ast arg o;; ret W
  | OCancel o => _ ← cancelWait o; ret W
  | OPurge o => b ← own_at o; purge_owner o;; ret (drop_waits (own_requests b) W)
  end.

(** A user's request for which nobody waits *)
Definition is_idle (W : gmap Z wait) (t : table) (r : Z) : Prop := exists q, idle W t r q.

Definition allowed (W : gmap Z wait) (t : table) (p : op) : Prop :=
  match p with
  | OEnqueue o prior series _ type _ _ _ _ =>
      o ∈ lhb_owners t /\ 1 <= type <= 6 /\ 0 <= series /\ (prior = 0 \/ is_idle W t prior)
  | OConvert r type _ _ _ => is_idle W t r /\ 1 <= type <= 6
  | ODowngrade r | ODequeue r | OWrite r _ => is_idle W t r
  | OWait r _ => is_Some (W !! r) /\ flag_of LRQ_pending (requests t) r = true
  | OWake r => is_Some (W !! r) /\ flag_of LRQ_pending (requests t) r = false
  | OBlocking o | ORepost _ _ o | OCancel o | OPurge o => o ∈ lhb_owners t
  end.

(** A table as it is made, with owners who have nothing *)
Record initial (t : table) : Prop := {
  in_requests : requests t = ∅;
  in_locks : locks t = ∅;
  in_owners : forall o w, owners t !! o = Some w -> own_requests w = [] /\ own_pending w = [] /\ own_blocks w = [];
  in_listed : forall o, o ∈ lhb_owners t -> is_Some (owners t !! o);
  in_hash : lhb_hash t <> [] /\ Z.of_nat (length (lhb_hash t)) < 65536 /\ forall chain, chain ∈ lhb_hash t -> chain = [];
  in_data : lhb_data t = replicate 7 [];
  in_free : lhb_free_requests t = [] /\ lhb_free_locks t = [];
  in_used : room_ok t
}.

Inductive reachable : gmap Z wait -> table -> Prop :=
  | reachable_init t : initial t -> reachable ∅ t
  | reachable_run W t p W' t' : reachable W t -> allowed W t p -> run W p t = Ok (W', t') -> reachable W' t'.

Lemma initial_sys t : initial t -> sys None None ∅ t.
Proof using.
  intros [H1 H2 H3 H4 (H5 & H6 & H7) H8 [H9 H10] H11].
  assert (Hr : forall r q, requests t !! r = Some q -> False) by (intros r q; by rewrite H1, lookup_empty).
  assert (Hl : forall l b, locks t !! l = Some b -> False) by (intros l b; by rewrite H2, lookup_empty).
  split; [split|..].
  - intros l b Hb. destruct (Hl _ _ Hb).
  - intros r q [Hq _]. destruct (Hr _ _ Hq).
  - intros o w Hw. destruct (H3 o w Hw) as (E1 & E2 & E3). split; rewrite ?E1, ?E2, ?E3; by intros r ?%elem_of_nil.
  - rewrite H9. split; [by apply NoDup_nil|]. by intros r ?%elem_of_nil.
  - rewrite H10. by intros r ?%elem_of_nil.
  - split; [done|]. split; intros y z Hy; [destruct (Hr _ _ Hy)|destruct (Hl _ _ Hy)].
  - split; [done|]. split; [done|]. intros chain l Hc Hin. rewrite (H7 chain Hc) in Hin. by apply elem_of_nil in Hin.
  - split; rewrite H8; [done|]. intros q l [-> _]%elem_of_replicate Hin. by apply elem_of_nil in Hin.
  - intros r q [Hq _]. destruct (Hr _ _ Hq).
  - done.
  - intros r q [Hq _]. destruct (Hr _ _ Hq).
  - intros r [v Hv]. by rewrite lookup_empty in Hv.
  - intros l b _ Hb. destruct (Hl _ _ Hb).
Qed.

(** The request of a wait *)
Lemma wait_request W t r : sys None None W t -> is_Some (W !! r) -> exists q, in_use (requests t) r q /\ queued q /\
  flag_of LRQ_pending (requests t) r = has_flag (lrq_flags q) LRQ_pending.
Proof using. intros Hsys Hr. destruct (sy_wait _ _ _ _ Hsys r Hr) as (q & [Hq Ht] & Hqd). exists q. unfold flag_of. by rewrite Hq. Qed.

(** Each operation ends, and keeps the invariant. *)
Lemma sys_run W t p : sys None None W t -> allowed W t p -> wp (run W p) (fun W' t' => sys None None W' t') t.
Proof using.
  intros Hsys Ha. pose proof (wf_owners _ _ (sy_wf _ _ _ _ Hsys)) as Hex.
  destruct p as [o prior series value type ast arg data lck_wait|r type lck_wait ast arg|r|r|r data|r to|r|o|ast arg o|o|o]; cbn [run allowed] in *.
  - destruct Ha as (Ho & Ht & Hs & Hp). apply wp_bind. eapply wp_mono; [apply (sys_enqueue internal_hash W t); auto|].
    + destruct Hp as [?|(q & Hq & Hqd & HW)]; [by left|right]. eauto.
    + intros [[] r] t' H; apply wp_ret; naive_solver.
  - destruct Ha as [[q Hq] Ht]. apply wp_bind. eapply wp_mono; [by eapply sys_convert|]. intros [] t' H; by apply wp_ret.
  - destruct Ha as [q Hq]. apply wp_bind. eapply wp_mono; [by eapply sys_downgrade|]. intros k t' [H _]. by apply wp_ret.
  - destruct Ha as [q Hq]. apply wp_bind. eapply wp_mono; [by eapply sys_dequeue|]. intros k t' [H _]. by apply wp_ret.
  - destruct Ha as [q Hq]. apply wp_bind. eapply wp_mono; [by eapply sys_writeData|]. intros k t' H. by apply wp_ret.
  - destruct Ha as [Hr Hp]. destruct (wait_request W t r Hsys Hr) as (q & Hq & Hqd & Hf). rewrite Hf in Hp.
    apply wp_bind. eapply wp_mono; [by eapply sys_wait_loop|]. intros k t' H. by apply wp_ret.
  - destruct Ha as [Hr Hp]. destruct (wait_request W t r Hsys Hr) as (q & Hq & Hqd & Hf). rewrite Hf in Hp.
    destruct (W !! r) as [[|ast arg]|] eqn:E; [| |by destruct Hr].
    + apply wp_bind. eapply wp_mono; [eapply (wp_enqueue_end W t r q); try done; eauto|]. intros a t' [H _]. by apply wp_ret.
    + apply wp_bind. destruct (sy_request _ _ _ _ Hsys r q Hq Hqd) as [_ _ _ R4].
      eapply wp_mono; [eapply (wp_convert_end W t r q); try done; eauto|]. intros a t' [H _]. by apply wp_ret.
  - apply wp_bind. eapply wp_mono; [apply sys_blocking_action; [done|auto]|]. intros a t' H. by apply wp_ret.
  - apply wp_bind. eapply wp_mono; [apply (sys_repost W t o); auto|]. intros a t' H. by apply wp_ret.
  - apply wp_bind. eapply wp_mono; [apply (sys_cancelWait W t o); auto|]. intros a t' H. by apply wp_ret.
  - destruct (Hex o Ha) as [w Hw]. apply wp_bind. eapply wp_own_at; [done|]. apply wp_bind.
    eapply wp_mono; [by apply (sys_purge_owner W t o w)|]. intros a t' [H _]. by apply wp_ret.
Qed.

Lemma reachable_sys W t : reachable W t -> sys None None W t.
Proof using.
  induction 1 as [t Hi|W t p W' t' _ IH Ha Hrun]; [by apply initial_sys|].
  pose proof (sys_run W t p IH Ha) as Hwp. unfold wp in Hwp. by rewrite Hrun in Hwp.
Qed.
End System.
