(* ===== verification/LockManager.v ===== *)
(** * What the lock manager promises

    The properties of the tables that its operations reach, of what an operation answers, and
    of the search for deadlocks. *)

From S2P Require Import Prelude Outcome StateMonad LockTable LockOps LockInv LockFrame LockGrant LockPost LockRelease LockSys LockWait LockConvert LockEnqueue LockOwner LockSystem.
From stdpp Require Import gmap relations.
#[local] Open Scope Z_scope.

(** ** An example: three owners and a hash of two chains *)

Definition demo_hash (value : list Z) : Z := foldr Z.add 0 value.
Definition demo_own : own :=
  {| own_count := 1; own_requests := []; own_blocks := []; own_pending := []; own_waits := 0; own_flags := 0 |}.
Definition demo_table : table :=
  {| requests := ∅; locks := ∅; owners := <[1 := demo_own]> (<[2 := demo_own]> (<[3 := demo_own]> ∅)); lhb_owners := [1; 2; 3];
     lhb_hash := [[]; []]; lhb_data := replicate 7 []; lhb_free_requests := []; lhb_free_locks := []; lhb_used := 4; lhb_length := 8; m_memorySize := 4; sh_mem_limit := 100 |}.

Lemma demo_initial : initial demo_table.
Proof.
  split; try done.
  - intros o w Hw. cbn in Hw. apply lookup_insert_Some in Hw as [[_ <-]|[_ Hw]]; [done|].
    apply lookup_insert_Some in Hw as [[_ <-]|[_ Hw]]; [done|]. apply lookup_insert_Some in Hw as [[_ <-]|[_ Hw]]; [done|].
    by rewrite lookup_empty in Hw.
  - intros o Ho. cbn in *. rewrite !elem_of_cons, elem_of_nil in Ho. destruct Ho as [->|[->|[->|[]]]]; vm_compute; eauto.
  - split; [done|]. split; [done|]. intros chain Hc. cbn in Hc. set_solver.
Qed.

(** Owners 1 and 2 hold lock [1] and lock [2]; each asks for the other's. *)
Definition demo_ops : list op :=
  [OEnqueue 1 0 0 [1] LCK_EX 0 0 5 1; OEnqueue 2 0 0 [2] LCK_EX 0 0 0 1;
   OEnqueue 1 0 0 [2] LCK_EX 0 0 0 1; OEnqueue 2 0 0 [1] LCK_PR 0 0 0 1].

Fixpoint demo_run (ps : list op) (W : gmap Z wait) (t : table) : Outcome (gmap Z wait * table) :=
  match ps with
  | [] => Ok (W, t)
  | p :: ps => match run demo_hash W p t with Ok (W, t) => demo_run ps W t | BugCheck n => BugCheck n | Undefined => Undefined end
  end.
Definition demo_state (n : nat) : gmap Z wait * table :=
  match demo_run (take n demo_ops) ∅ demo_table with Ok s => s | _ => (∅, demo_table) end.

Lemma demo_reach n : (n <= 4)%nat -> reachable demo_hash (demo_state n).1 (demo_state n).2.
Proof.
  assert (Hall : forall m, (m < 4)%nat -> exists p, allowed (demo_state m).1 (demo_state m).2 p /\
    run demo_hash (demo_state m).1 p (demo_state m).2 = Ok ((demo_state (S m)).1, (demo_state (S m)).2)).
  { intros m Hm. destruct m as [|[|[|[|m]]]]; [..|lia].
    - exists (OEnqueue 1 0 0 [1] LCK_EX 0 0 5 1). split; [|vm_compute; reflexivity].
      split; [vm_compute; set_solver|]. split; [unfold LCK_EX; lia|]. split; [lia|by left].
    - exists (OEnqueue 2 0 0 [2] LCK_EX 0 0 0 1). split; [|vm_compute; reflexivity].
      split; [vm_compute; set_solver|]. split; [unfold LCK_EX; lia|]. split; [lia|by left].
    - exists (OEnqueue 1 0 0 [2] LCK_EX 0 0 0 1). split; [|vm_compute; reflexivity].
      split; [vm_compute; set_solver|]. split; [unfold LCK_EX; lia|]. split; [lia|by left].
    - exists (OEnqueue 2 0 0 [1] LCK_PR 0 0 0 1). split; [|vm_compute; reflexivity].
      split; [vm_compute; set_solver|]. split; [unfold LCK_PR; lia|]. split; [lia|by left]. }
  induction n as [|n IH]; intros Hn; [apply reachable_init, demo_initial|].
  destruct (Hall n ltac:(lia)) as (p & Ha & Hr). eapply reachable_run; [apply IH; lia|exact Ha|exact Hr].
Qed.

(** ** Tables that are reached *)

(** C7. In any table that the operations reach, two requests for the same lock are never
    granted in states that are not compatible: no two owners hold a lock exclusively, and
    nobody reads under a protected writer. *)
Theorem granted_compatible internal_hash W t l b r r' q q' :
  reachable internal_hash W t -> locks t !! l = Some b -> lbl_type b = type_lbl ->
  r ∈ lbl_requests b -> r' ∈ lbl_requests b -> r <> r' -> requests t !! r = Some q -> requests t !! r' = Some q' ->
  compatible (lrq_state q) (lrq_state q') = true.
Proof.
  intros Hre Hb Hl Hr Hr' Hne Hq Hq'. destruct (wf_lock _ _ (sy_wf _ _ _ _ (reachable_sys _ _ _ Hre)) l b Hb Hl) as [_ Hok].
  pose proof (ok_compatible _ _ _ _ Hok r r' Hr Hr' Hne) as Hc. unfold state_of in Hc. by rewrite Hq, Hq' in Hc.
Qed.

Lemma granted_compatible_witness : exists q q', requests (demo_state 4).2 !! 6 = Some q /\ requests (demo_state 4).2 !! 8 = Some q' /\
  lrq_state q = LCK_EX /\ lrq_requested q' = LCK_EX /\ compatible (lrq_state q) (lrq_state q') = true.
Proof.
  eexists _, _. split; [vm_compute; reflexivity|]. split; [vm_compute; reflexivity|]. split; [done|]. split; [done|].
  eapply (granted_compatible demo_hash (demo_state 4).1 (demo_state 4).2 7 _ 6 8); [apply demo_reach; lia|vm_compute; reflexivity|done|..].
  - vm_compute. set_solver.
  - vm_compute. set_solver.
  - done.
  - vm_compute; reflexivity.
  - vm_compute; reflexivity.
Defined.

(** C14. As long as the system does not let the table grow to 65536 blocks (with so many requests of one lock the 16
    bits of a counter could wrap), what a lock knows of its requests is exact: its counters count the granted states, its state is the highest of them and stands for all: it is compatible
    with just those states that are compatible with every granted one; and the count of
    waiting requests is theirs. *)
Theorem lock_counts_exact internal_hash W t l b :
  reachable internal_hash W t -> locks t !! l = Some b -> lbl_type b = type_lbl ->
  (forall k, 1 <= k <= 6 -> lbl_counts b !!! Z.to_nat k = count (fun r => bool_decide (state_of (requests t) r = k)) (lbl_requests b)) /\
  lbl_pending_lrq_count b = count (flag_of LRQ_pending (requests t)) (lbl_requests b) /\
  lbl_state b = lock_state (lbl_counts b) /\
  (forall k, 0 <= k <= 6 -> compatible k (lbl_state b) = true <->
     forall r, r ∈ lbl_requests b -> compatible k (state_of (requests t) r) = true).
Proof.
  intros Hre Hb Hl. destruct (wf_lock _ _ (sy_wf _ _ _ _ (reachable_sys _ _ _ Hre)) l b Hb Hl) as [_ Hok].
  pose proof (ok_state _ _ _ _ Hok ltac:(done)) as Hst. split; [apply (ok_counts _ _ _ _ Hok)|]. split; [apply Hok|]. split; [done|].
  intros k Hk. rewrite Hst. by apply (lock_state_counted _ None l b k Hok).
Qed.

Lemma lock_counts_exact_witness : exists b, locks (demo_state 4).2 !! 7 = Some b /\ lbl_counts b !!! 6%nat = 1 /\
  count (fun r => bool_decide (state_of (requests (demo_state 4).2) r = 6)) (lbl_requests b) = 1.
Proof.
  eexists. split; [vm_compute; reflexivity|]. split; [done|].
  symmetry. eapply (proj1 (lock_counts_exact demo_hash (demo_state 4).1 (demo_state 4).2 7 _ (demo_reach 4 ltac:(lia))
    ltac:(vm_compute; reflexivity) ltac:(done)) 6). lia.
Defined.

(** C10. Nobody waits who could go on: of the requests that wait for a lock, the first cannot be
    granted, since another request is granted in a state that is not compatible with it; or
    a request of the lock was rejected just now, whose thread will look at the others when it
    wakes. *)
Theorem first_waiter_blocked internal_hash W t l b pre r post :
  reachable internal_hash W t -> locks t !! l = Some b -> lbl_type b = type_lbl -> lbl_requests b = pre ++ r :: post ->
  flag_of LRQ_pending (requests t) r = true -> (forall y, y ∈ pre -> flag_of LRQ_pending (requests t) y = false) ->
  (exists y, y ∈ lbl_requests b /\ y <> r /\ compatible (requested_of (requests t) r) (state_of (requests t) y) = false) \/
  (exists y, y ∈ lbl_requests b /\ is_Some (W !! y) /\ flag_of LRQ_rejected (requests t) y = true).
Proof.
  intros Hre Hb Hl Heq Hp Hpre. destruct (sy_lost _ _ _ _ (reachable_sys _ _ _ Hre) l b ltac:(done) Hb Hl) as [Hn|Hj]; [left|by right].
  by apply (Hn pre r post).
Qed.

Lemma first_waiter_blocked_witness :
  (exists y, y ∈ [6; 8] /\ y <> 8 /\ compatible (requested_of (requests (demo_state 4).2) 8) (state_of (requests (demo_state 4).2) y) = false) \/
  (exists y, y ∈ [6; 8] /\ is_Some ((demo_state 4).1 !! y) /\ flag_of LRQ_rejected (requests (demo_state 4).2) y = true).
Proof.
  assert (H : exists b, locks (demo_state 4).2 !! 7 = Some b /\ lbl_type b = type_lbl /\ lbl_requests b = [6; 8]).
  { eexists. split; [vm_compute; reflexivity|done]. }
  destruct H as (b & Hb & Hl & Hr). rewrite <- Hr.
  apply (first_waiter_blocked demo_hash (demo_state 4).1 (demo_state 4).2 7 b [6] 8 []).
  - apply demo_reach. lia.
  - exact Hb.
  - exact Hl.
  - exact Hr.
  - vm_compute. reflexivity.
  - intros y ->%list_elem_of_singleton. vm_compute. reflexivity.
Defined.

(** ** Operations *)

(** C12. Every operation of a thread that does what is allowed ends, whatever the table: loops end,
    no block is used that is not there, no counter or table of compatibility is read out of
    its bounds, and the check of requests that come from users does not fail. *)
Theorem operation_ends internal_hash W t p : reachable internal_hash W t -> allowed W t p ->
  exists W' t', run internal_hash W p t = Ok (W', t') /\ reachable internal_hash W' t'.
Proof.
  intros Hre Ha. destruct (wp_run _ _ _ (sys_run internal_hash W t p (reachable_sys _ _ _ Hre) Ha)) as (W' & t' & Hrun & _).
  exists W', t'. split; [done|]. by eapply reachable_run.
Qed.

(** Owner 1 is given up on: its two requests go, and owner 2 gets the lock [1]. *)
Lemma operation_ends_witness : exists W' t', run demo_hash (demo_state 4).1 (OPurge 1) (demo_state 4).2 = Ok (W', t') /\
  reachable demo_hash W' t'.
Proof. apply operation_ends; [apply demo_reach; lia|vm_compute; set_solver]. Defined.

(** The request is one of the owner's, in the queue of a lock for the key. *)
Definition queued_for (t : table) (o series : Z) (value : list Z) (r : Z) (q : lrq) : Prop :=
  requests t !! r = Some q /\ lrq_type q = type_lrq /\ lrq_owner q = o /\
  exists b, locks t !! lrq_lock q = Some b /\ lbl_type b = type_lbl /\ named b series value /\ r ∈ lbl_requests b.

Lemma placed_queued W t o series value r q : sys None None W t -> in_use (requests t) r q -> queued q ->
  placed o series value r t -> queued_for t o series value r q.
Proof.
  intros Hs Hq Hqd (q' & b & Hq' & Ho & Hb & Hn). destruct (ro_lock _ _ _ (wf_request _ _ (sy_wf _ _ _ _ Hs) r q Hq) Hqd) as (b' & Hb' & Hl & Hr).
  destruct Hq as [Hq Ht]. assert (q' = q) as -> by congruence. assert (b' = b) as -> by congruence. split_and!; try done. by exists b.
Qed.

(** C35. A request for a lock ends in one of three ways: it is granted, and is then in the queue of a lock
    for the series and the key in the state that was asked for; or it waits there, pending, for that state; or it is
    refused. *)
Theorem enqueue_outcome internal_hash W t o prior series value type ast arg data lck_wait :
  reachable internal_hash W t -> allowed W t (OEnqueue o prior series value type ast arg data lck_wait) ->
  exists a r t', enqueue internal_hash o prior series value type ast arg data lck_wait t = Ok ((a, r), t') /\
    match a with
    | Granted => exists q, queued_for t' o series value r q /\ lrq_state q = type
    | Waits => lck_wait <> 0 /\ W !! r = None /\ exists q, queued_for t' o series value r q /\ lrq_requested q = type /\
        lrq_state q = LCK_none /\ has_flag (lrq_flags q) LRQ_pending = true
    | Denied => r = 0
    end.
Proof.
  intros Hre (Ho & Ht & Hs & Hp). pose proof (reachable_sys _ _ _ Hre) as Hsys.
  destruct (wp_run _ _ _ (sys_enqueue internal_hash W t o prior series value type ast arg data lck_wait Hsys
    (wf_owners _ _ (sy_wf _ _ _ _ Hsys) o Ho) Ho Ht Hs ltac:(destruct Hp as [?|(q & ? & ? & ?)]; [by left|right; eauto])))
    as ([a r] & t' & Hrun & Hpost).
  exists a, r, t'. split; [done|]. apply enqueue_placed in Hrun. destruct a.
  - destruct Hpost as (Hs' & q & Hq & Hqd & Hst). exists q. split; [|done]. by eapply placed_queued; [|done..|apply Hrun].
  - by destruct Hpost.
  - destruct Hpost as (Hw & HW & Hs' & q & Hq & Hqd & H1 & H2 & H3). split; [done|]. split; [done|]. exists q. split; [|done].
    by eapply placed_queued; [|done..|apply Hrun].
Qed.

Lemma enqueue_outcome_witness : exists a r t', enqueue demo_hash 3 0 0 [1] LCK_null 0 0 0 0 (demo_state 4).2 = Ok ((a, r), t') /\
  match a with
  | Granted => exists q, queued_for t' 3 0 [1] r q /\ lrq_state q = LCK_null
  | Waits => 0 <> 0 /\ (demo_state 4).1 !! r = None /\ exists q, queued_for t' 3 0 [1] r q /\ lrq_requested q = LCK_null /\
      lrq_state q = LCK_none /\ has_flag (lrq_flags q) LRQ_pending = true
  | Denied => r = 0
  end.
Proof.
  apply (enqueue_outcome demo_hash (demo_state 4).1); [apply demo_reach; lia|]. split; [vm_compute; set_solver|].
  unfold LCK_null. split; [lia|]. split; [lia|by left].
Defined.

(** C34. A conversion is answered with success if and only if the new state is compatible with what
    all others have of the lock; those who wait do not count. Then the request has the new
    state; else it waits, or it keeps what it has if it was not to wait. *)
Theorem convert_outcome internal_hash W t r q type lck_wait ast arg :
  reachable internal_hash W t -> requests t !! r = Some q -> idle W t r q -> 1 <= type <= 6 ->
  exists a t', internal_convert r type lck_wait ast arg t = Ok (a, t') /\
    match a with
    | Granted => grantable t r type /\ state_of (requests t') r = type
    | Waits => lck_wait <> 0 /\ ~ grantable t r type /\ exists q', requests t' !! r = Some q' /\ lrq_type q' = type_lrq
    | Denied => lck_wait = 0 /\ ~ grantable t r type /\ state_of (requests t') r = lrq_state q
    end.
Proof.
  intros Hre Hq0 (Hq & Hqd & HW) Hty. pose proof (reachable_sys _ _ _ Hre) as Hsys.
  destruct (wp_run _ _ _ (sys_internal_convert W t r q type lck_wait ast arg Hsys Hq Hqd HW Hty)) as (a & t' & Hrun & Hpost).
  exists a, t'. split; [done|]. unfold state_of. destruct a.
  - destruct Hpost as (_ & Hg & q' & [-> _] & _ & Hs). done.
  - destruct Hpost as (Hw & Hg & _ & q' & [-> _] & _ & Hs). done.
  - destruct Hpost as (Hw & Hg & Hs'). split; [done|]. split; [done|].
    destruct (sy_wait _ _ _ _ Hs' r) as (q' & [Hq' Hty'] & _); [rewrite lookup_insert_eq; eauto|]. eauto.
Qed.

Lemma convert_outcome_witness : exists a t', internal_convert 4 LCK_SR 0 0 0 (demo_state 4).2 = Ok (a, t') /\
  match a with
  | Granted => grantable (demo_state 4).2 4 LCK_SR /\ state_of (requests t') 4 = LCK_SR
  | Waits => 0 <> 0 /\ ~ grantable (demo_state 4).2 4 LCK_SR /\ exists q', requests t' !! 4 = Some q' /\ lrq_type q' = type_lrq
  | Denied => 0 = 0 /\ ~ grantable (demo_state 4).2 4 LCK_SR /\ state_of (requests t') 4 = LCK_EX
  end.
Proof.
  assert (H : exists q, requests (demo_state 4).2 !! 4 = Some q /\ lrq_state q = LCK_EX /\ lrq_type q = type_lrq /\ queued q).
  { eexists. split; [vm_compute; reflexivity|done]. }
  assert (HW : (demo_state 4).1 !! 4 = None) by (vm_compute; reflexivity).
  destruct H as (q & Hq & Hs & Ht & Hqd).
  pose proof (convert_outcome demo_hash (demo_state 4).1 (demo_state 4).2 4 q LCK_SR 0 0 0 (demo_reach 4 ltac:(lia)) Hq
    (conj (conj Hq Ht) (conj Hqd HW)) ltac:(unfold LCK_SR; lia)) as Ho.
  rewrite Hs in Ho. exact Ho.
Defined.

(** When the wait of an [enqueue] is over, the thread finds that its request has what it asked
    for; or the request was rejected, and it is gone. *)
Theorem enqueue_wait_outcome internal_hash W t r : reachable internal_hash W t -> W !! r = Some WEnqueue ->
  flag_of LRQ_pending (requests t) r = false ->
  exists a t', enqueue_end r t = Ok (a, t') /\
    match a with
    | Granted => state_of (requests t') r = requested_of (requests t) r
    | Denied => exists q, requests t' !! r = Some q /\ lrq_type q = type_null
    | Waits => False
    end.
Proof.
  intros Hre HW Hp. pose proof (reachable_sys _ _ _ Hre) as Hsys.
  destruct (wait_request W t r Hsys ltac:(eauto)) as (q & Hq & Hqd & Hf). rewrite Hf in Hp.
  destruct (wp_run _ _ _ (wp_enqueue_end W t r q Hsys Hq Hqd Hp ltac:(eauto))) as (a & t' & Hrun & _ & Hpost).
  exists a, t'. split; [done|]. destruct a; [|done|done]. destruct Hpost as (q' & [Hq' _] & Hs).
  unfold state_of, requested_of. rewrite Hq'. destruct Hq as [-> _]. done.
Qed.

(** Owner 1 gives its lock back; then owner 2 has it. *)
Lemma enqueue_wait_outcome_witness : exists (W : gmap Z wait) (t : table), W !! 9 = Some WEnqueue /\ exists a t', enqueue_end 9 t = Ok (a, t') /\
  match a with
  | Granted => state_of (requests t') 9 = requested_of (requests t) 9
  | Denied => exists q, requests t' !! 9 = Some q /\ lrq_type q = type_null
  | Waits => False
  end.
Proof.
  assert (H : exists W t, run demo_hash (demo_state 4).1 (ODequeue 4) (demo_state 4).2 = Ok (W, t) /\ W !! 9 = Some WEnqueue /\
    flag_of LRQ_pending (requests t) 9 = false).
  { eexists _, _. split; [vm_compute; reflexivity|]. split; vm_compute; reflexivity. }
  destruct H as (W & t & Hrun & HW & Hp). exists W, t. split; [done|].
  apply (enqueue_wait_outcome demo_hash W t 9); [|done|done].
  eapply reachable_run; [apply (demo_reach 4); lia| |exact Hrun].
  eexists. split; [split; [vm_compute; reflexivity|done]|]. split; [done|vm_compute; reflexivity].
Defined.

(** ** Deadlocks *)

(** C9. The scan for deadlocks, for the wait of a request, always ends. A victim that it names
    waits in a circle: each request of the circle waits for a lock that a request of an owner
    blocks who waits for the next one without a time limit and has nothing to do first. *)
Theorem deadlock_victim_in_circle internal_hash W t r q : reachable internal_hash W t -> requests t !! r = Some q ->
  is_Some (W !! r) -> has_flag (lrq_flags q) LRQ_pending = true ->
  exists v t', deadlock_scan (lrq_owner q) r t = Ok (v, t') /\ forall x, v = Some x -> tc (stuck_on t) x x.
Proof.
  intros Hre Hq HW Hp. pose proof (reachable_sys _ _ _ Hre) as Hsys. pose proof (sy_wf _ _ _ _ Hsys) as Hwf.
  destruct (sy_wait _ _ _ _ Hsys r HW) as (q' & [Hq' Ht] & Hqd). assert (q' = q) as -> by congruence.
  destruct (ro_owner _ _ _ (wf_request _ _ Hwf r q (conj Hq Ht))) as (w & Hw & _).
  destruct (wp_run _ _ _ (wp_deadlock_scan t r q w Hwf (conj Hq Ht) Hqd Hp Hw)) as (v & t' & Hrun & _ & _ & Hv).
  exists v, t'. split; [done|]. intros x ->. apply Hv.
Qed.

Lemma deadlock_victim_in_circle_witness : tc (stuck_on (demo_state 4).2) 9 9.
Proof.
  assert (H : exists q, requests (demo_state 4).2 !! 9 = Some q /\ lrq_owner q = 2 /\ has_flag (lrq_flags q) LRQ_pending = true).
  { eexists. split; [vm_compute; reflexivity|done]. }
  destruct H as (q & Hq & Ho & Hp).
  destruct (deadlock_victim_in_circle demo_hash (demo_state 4).1 (demo_state 4).2 9 q (demo_reach 4 ltac:(lia)) Hq
    ltac:(vm_compute; eauto) Hp) as (v & t' & Hrun & Hv).
  rewrite Ho in Hrun.
  assert (Hc : exists t2, deadlock_scan 2 9 (demo_state 4).2 = Ok (Some 9, t2)) by (eexists; vm_compute; reflexivity).
  destruct Hc as (t2 & Hc). rewrite Hc in Hrun. injection Hrun as <- <-. by apply Hv.
Defined.

(** C15. When the scan marks the owner so that the wait is not scanned again, there is no circle of
    waits that could be reached from the request. *)
Theorem deadlock_none_found internal_hash W t r q w v t' w' : reachable internal_hash W t -> requests t !! r = Some q ->
  is_Some (W !! r) -> has_flag (lrq_flags q) LRQ_pending = true ->
  deadlock_scan (lrq_owner q) r t = Ok (v, t') -> owners t !! lrq_owner q = Some w -> owners t' !! lrq_owner q = Some w' ->
  has_flag (own_flags w) OWN_scanned = false -> has_flag (own_flags w') OWN_scanned = true -> v = None ->
  forall x, rtc (waits_for t) r x -> ~ tc (waits_for t) x x.
Proof.
  intros Hre Hq HW Hp Hrun Hw Hw' Hs Hs' -> x Hx Hc. pose proof (reachable_sys _ _ _ Hre) as Hsys. pose proof (sy_wf _ _ _ _ Hsys) as Hwf.
  destruct (sy_wait _ _ _ _ Hsys r HW) as (q' & [Hq' Ht] & Hqd). assert (q' = q) as -> by congruence.
  pose proof (wp_deadlock_scan t r q w Hwf (conj Hq Ht) Hqd Hp Hw) as Hwp. unfold wp in Hwp. rewrite Hrun in Hwp.
  destruct Hwp as (_ & _ & Hn). apply (ends_no_circle t r x); [|done|done]. apply (Hn w' Hw'). congruence.
Qed.

(** Owner 2 waits for owner 1, who waits for nobody. *)
Lemma deadlock_none_found_witness : exists W t, reachable demo_hash W t /\ ~ tc (waits_for t) 6 6.
Proof.
  assert (H : exists W t q w t' w', run demo_hash (demo_state 1).1 (OEnqueue 2 0 0 [1] LCK_PR 0 0 0 1) (demo_state 1).2 = Ok (W, t) /\
    requests t !! 6 = Some q /\ is_Some (W !! 6) /\ has_flag (lrq_flags q) LRQ_pending = true /\
    deadlock_scan (lrq_owner q) 6 t = Ok (None, t') /\ owners t !! lrq_owner q = Some w /\ owners t' !! lrq_owner q = Some w' /\
    has_flag (own_flags w) OWN_scanned = false /\ has_flag (own_flags w') OWN_scanned = true).
  { eexists _, _, _, _, _, _. split; [vm_compute; reflexivity|]. split; [vm_compute; reflexivity|]. split; [vm_compute; eauto|].
    split; [vm_compute; reflexivity|]. split; [vm_compute; reflexivity|]. split; [vm_compute; reflexivity|].
    split; [vm_compute; reflexivity|]. split; vm_compute; reflexivity. }
  destruct H as (W & t & q & w & t' & w' & Hrun & Hq & HW & Hp & Hscan & Hw & Hw' & Hs & Hs').
  assert (Hre : reachable demo_hash W t).
  { eapply reachable_run; [apply (demo_reach 1); lia| |exact Hrun]. split; [vm_compute; set_solver|].
    unfold LCK_PR. split; [lia|]. split; [lia|by left]. }
  exists W, t. split; [done|].
  apply (deadlock_none_found demo_hash W t 6 q w None t' w' Hre Hq HW Hp Hscan Hw Hw' Hs Hs' eq_refl 6). apply rtc_refl.
Defined.

(** ** [downgrade] answers a state that the request does not have. *)

(** Owners 1 and 2 hold a lock as shared writers, and owner 3 waits for a protected read. *)
Definition downgrade_ops : list op :=
  [OEnqueue 1 0 0 [1] LCK_SW 0 0 0 1; OEnqueue 2 0 0 [1] LCK_SW 0 0 0 1; OEnqueue 3 0 0 [1] LCK_PR 0 0 0 1].

(** [downgrade] of the first owner's request answers [LCK_PR], the state that would let the third
    owner in; but the second owner has the lock too, the conversion fails, and the request still
    has [LCK_SW]. *)
Theorem downgrade_not_done : exists (W : gmap Z wait) (t t' : table), demo_run downgrade_ops ∅ demo_table = Ok (W, t) /\
  is_idle W t 4 /\ downgrade 4 t = Ok (LCK_PR, t') /\ state_of (requests t') 4 = LCK_SW.
Proof.
  eexists _, _, _. split; [vm_compute; reflexivity|]. split; [|split; vm_compute; reflexivity].
  eexists. split; [split; [vm_compute; reflexivity|done]|]. split; [done|vm_compute; reflexivity].
Qed.
