(* ===== verification/TraCache.v ===== *)
(** * Transaction inventory pages and their cache: [src/src/jrd/tra.h], [tra.cpp], [ods.cpp], [tpc.cpp]

    A page holds the states of a range of transactions, two bits each, four in a byte. The
    counters of the header page have their upper 16 bits apart from the lower 32.

    A database of one process: its inventory pages, the counters of its header page and their
    copies in memory, the cache of inventory pages, the vector of precommitted transactions,
    and the locks [LCK_tra] that transactions hold on their numbers while they run. What the
    lock manager promises of them is the map [tra_locks]: a number that a transaction holds
    cannot be locked by another one, and its datum can be read and queried. *)

From S2P Require Import Prelude Memory Outcome Search StateMonad.
From stdpp Require Import gmap.
#[local] Open Scope Z_scope.

(** ** Constants *)

Definition tra_active : Z := 0.
Definition tra_limbo : Z := 1.
Definition tra_dead : Z := 2.
Definition tra_committed : Z := 3.
Definition tra_us : Z := 4.
Definition tra_precommitted : Z := 5.

Definition TRA_MASK : Z := 3.
Definition TRA_SHIFT : Z := 2.
Definition TRANS_SHIFT (number : Z) : Z := Z.shiftl (Z.land number TRA_MASK) 1.
Definition TRANS_OFFSET (number : Z) : Z := Z.shiftr number TRA_SHIFT.

Definition TRA_system_transaction : Z := 0.
Definition MAX_TRA_NUMBER : Z := 0xFFFFFFFFFFFF.
Definition BITS_PER_LONG : Z := 32.
Definition MAX_ULONG : Z := 0xFFFFFFFF.

(** ** States in a bit vector *)

(** [(bits[byte] >> shift) & TRA_MASK] *)
Definition get_state (bits : list Z) (byte shift : Z) : option Z :=
  b ← bits @ byte; Some (Z.land (Z.shiftr b shift) TRA_MASK).

(** [*address &= ~(TRA_MASK << shift); *address |= state << shift;] *)
Definition put_byte (b shift state : Z) : Z :=
  UCHAR (Z.lor (UCHAR (Z.land b (Z.lnot (Z.shiftl TRA_MASK shift)))) (Z.shiftl state shift)).
Definition put_state (bits : list Z) (byte shift state : Z) : option (list Z) :=
  b ← bits @ byte; aset bits byte (put_byte b shift state).

Definition TRA_state (bit_vector : list Z) (oldest number : Z) : Outcome Z :=
  let base := Z.land oldest (Z.lnot TRA_MASK) in
  access (get_state bit_vector (wrapU 32 (TRANS_OFFSET (number - base))) (TRANS_SHIFT number)).

(** ** The counters of the header page *)

Record header_page := Header {
  hdr_next_transaction : Z;
  hdr_oldest_transaction : Z;
  hdr_oldest_active : Z;
  hdr_oldest_snapshot : Z;
  hdr_tra_high : list Z
}.

Definition NEXT_INDEX : nat := 0.
Definition OIT_INDEX : nat := 1.
Definition OAT_INDEX : nat := 2.
Definition OST_INDEX : nat := 3.

Definition high_low (h : header_page) (index : nat) (low : Z) : Z :=
  Z.lor (Z.shiftl (hdr_tra_high h !!! index) BITS_PER_LONG) low.
Definition getNT (h : header_page) : Z := high_low h NEXT_INDEX (hdr_next_transaction h).
Definition getOIT (h : header_page) : Z := high_low h OIT_INDEX (hdr_oldest_transaction h).
Definition getOAT (h : header_page) : Z := high_low h OAT_INDEX (hdr_oldest_active h).
Definition getOST (h : header_page) : Z := high_low h OST_INDEX (hdr_oldest_snapshot h).

(** The upper bits go through an [SLONG] to an [USHORT]. *)
Definition set_high (index : nat) (number : Z) (h : header_page) : list Z :=
  <[index := wrapU 16 (wrapS 32 (Z.shiftr number BITS_PER_LONG))]> (hdr_tra_high h).
Definition low_word (number : Z) : Z := wrapU 32 (Z.land number MAX_ULONG).

Definition writeNT (number : Z) (h : header_page) : header_page :=
  Header (low_word number) (hdr_oldest_transaction h) (hdr_oldest_active h) (hdr_oldest_snapshot h)
    (set_high NEXT_INDEX number h).
Definition writeOIT (number : Z) (h : header_page) : header_page :=
  Header (hdr_next_transaction h) (low_word number) (hdr_oldest_active h) (hdr_oldest_snapshot h)
    (set_high OIT_INDEX number h).
Definition writeOAT (number : Z) (h : header_page) : header_page :=
  Header (hdr_next_transaction h) (hdr_oldest_transaction h) (low_word number) (hdr_oldest_snapshot h)
    (set_high OAT_INDEX number h).
Definition writeOST (number : Z) (h : header_page) : header_page :=
  Header (hdr_next_transaction h) (hdr_oldest_transaction h) (hdr_oldest_active h) (low_word number)
    (set_high OST_INDEX number h).

(** ** States by position *)

(** The state of the [k]-th transaction of a vector *)
Definition byte_state (b j : Z) : Z := Z.land (Z.shiftr b (2 * j)) 3.
Definition state_at (bits : list Z) (k : Z) : Z := byte_state (bits !!! Z.to_nat (k / 4)) (k mod 4).

Definition bytes (bits : list Z) : Prop := Forall (fun b => 0 <= b < 256) bits.
Definition room (bits : list Z) : Z := 4 * Z.of_nat (length bits).

Lemma trans_shift k number : k mod 4 = number mod 4 -> TRANS_SHIFT number = 2 * (k mod 4).
Proof.
  intros ->. unfold TRANS_SHIFT, TRA_MASK. change 3 with (Z.ones 2). rewrite Z.land_ones, Z.shiftl_mul_pow2 by lia.
  change (2 ^ 2) with 4. change (2 ^ 1) with 2. lia.
Qed.

Lemma trans_offset k : TRANS_OFFSET k = k / 4.
Proof. unfold TRANS_OFFSET, TRA_SHIFT. by rewrite Z.shiftr_div_pow2. Qed.

Lemma state_at_range bits k : 0 <= state_at bits k <= 3.
Proof.
  unfold state_at, byte_state. generalize (Z.shiftr (bits !!! Z.to_nat (k / 4)) (2 * (k mod 4))). intros x.
  assert (Z.land x 3 = x mod 4) as -> by exact (Z.land_ones x 2 ltac:(lia)). pose proof (Z.mod_pos_bound x 4 ltac:(lia)). lia.
Qed.

Lemma room_lookup bits k : 0 <= k < room bits -> exists b, bits @ (k / 4) = Some b /\ bits !!! Z.to_nat (k / 4) = b.
Proof.
  unfold room. intros Hk. assert (Hq : 0 <= k / 4 < Z.of_nat (length bits)).
  { split; [apply Z.div_pos; lia|apply Z.div_lt_upper_bound; lia]. }
  destruct (proj2 (aget_is_Some bits (k / 4)) Hq) as [b Hb]. exists b. split; [done|].
  apply aget_Some in Hb as [_ Hb]. by apply list_lookup_total_correct.
Qed.

Lemma get_state_at bits k number : 0 <= k < room bits -> k mod 4 = number mod 4 ->
  get_state bits (TRANS_OFFSET k) (TRANS_SHIFT number) = Some (state_at bits k).
Proof.
  intros Hk Hm. unfold get_state. rewrite trans_offset, (trans_shift k) by done.
  destruct (room_lookup bits k Hk) as (b & -> & Hb). cbn. unfold state_at. by rewrite Hb.
Qed.

(** *** One byte: all cases *)

Lemma put_byte_all : forallb (fun b => forallb (fun i => forallb (fun s =>
  bool_decide (0 <= put_byte b (2 * i) s < 256) &&
  forallb (fun j => bool_decide (byte_state (put_byte b (2 * i) s) j = if decide (j = i) then s else byte_state b j))
    (seqZ 0 4)) (seqZ 0 4)) (seqZ 0 4)) (seqZ 0 256) = true.
Proof. vm_compute. reflexivity. Qed.

Lemma put_byte_spec b i s : 0 <= b < 256 -> 0 <= i < 4 -> 0 <= s <= 3 -> 0 <= put_byte b (2 * i) s < 256 /\
  forall j, 0 <= j < 4 -> byte_state (put_byte b (2 * i) s) j = if decide (j = i) then s else byte_state b j.
Proof.
  intros Hb Hi Hs. pose proof put_byte_all as H. rewrite forallb_forall in H.
  assert (Hin : forall x n, 0 <= x < n -> In x (seqZ 0 n)) by (intros x n Hx; apply list_elem_of_In, elem_of_seqZ; lia).
  specialize (H b (Hin _ _ Hb)). rewrite forallb_forall in H. specialize (H i (Hin _ _ Hi)). rewrite forallb_forall in H.
  specialize (H s (Hin s 4 ltac:(lia))). apply andb_true_iff in H as [H1 H2]. rewrite bool_decide_eq_true in H1. split; [done|].
  intros j Hj. rewrite forallb_forall in H2. specialize (H2 j (Hin _ _ Hj)). by rewrite bool_decide_eq_true in H2.
Qed.

Lemma put_state_at bits k number s : bytes bits -> 0 <= k < room bits -> k mod 4 = number mod 4 -> 0 <= s <= 3 ->
  exists bits', put_state bits (TRANS_OFFSET k) (TRANS_SHIFT number) s = Some bits' /\ bytes bits' /\
    length bits' = length bits /\ forall j, 0 <= j -> state_at bits' j = if decide (j = k) then s else state_at bits j.
Proof.
  intros Hby Hk Hm Hs. unfold put_state. rewrite trans_offset, (trans_shift k) by done.
  destruct (room_lookup bits k Hk) as (b & Hb & Hbt). rewrite Hb. cbn [mbind option_bind].
  pose proof Hb as [Hk0 Hbl]%aget_Some.
  assert (Hbr : 0 <= b < 256) by (exact (Forall_lookup_1 _ _ _ _ Hby Hbl)).
  pose proof (Z.mod_pos_bound k 4 ltac:(lia)) as Hmod. destruct (put_byte_spec b (k mod 4) s Hbr Hmod Hs) as [Hr Hst].
  assert (Hlen : 0 <= k / 4 < Z.of_nat (length bits)) by (apply lookup_lt_Some in Hbl; lia).
  eexists. split; [by apply aset_in|]. split; [by apply Forall_insert|]. split; [by rewrite length_insert|].
  intros j Hj. unfold state_at. pose proof (Z.mod_pos_bound j 4 ltac:(lia)) as Hjm.
  destruct (decide (j / 4 = k / 4)) as [He|He].
  - rewrite He, list_lookup_total_insert, decide_True by lia. rewrite Hbt.
    rewrite Hst by done. destruct (decide (j = k)) as [->|Hne]; [by rewrite decide_True|]. rewrite decide_False; [done|].
    intros Hm'. apply Hne. rewrite (Z.div_mod j 4), (Z.div_mod k 4) by lia. lia.
  - assert (0 <= j / 4) by (apply Z.div_pos; lia). rewrite list_lookup_total_insert_ne by lia.
    rewrite decide_False by (by intros ->). done.
Qed.

(** *** Parts of vectors *)

Lemma state_at_drop n bits k : 0 <= k -> state_at (drop n bits) k = state_at bits (k + 4 * Z.of_nat n).
Proof.
  intros Hk. unfold state_at. rewrite (Z.mul_comm 4), Z.div_add, Z.mod_add by lia. rewrite lookup_total_drop.
  assert (0 <= k / 4) by (apply Z.div_pos; lia). by replace (Z.to_nat (k / 4 + Z.of_nat n)) with (n + Z.to_nat (k / 4))%nat by lia.
Qed.

Lemma state_at_app_l a b k : 0 <= k < room a -> state_at (a ++ b) k = state_at a k.
Proof.
  intros Hk. unfold state_at. rewrite lookup_total_app_l; [done|]. unfold room in Hk.
  assert (k / 4 < Z.of_nat (length a)) by (apply Z.div_lt_upper_bound; lia). assert (0 <= k / 4) by (apply Z.div_pos; lia). lia.
Qed.

Lemma state_at_app_r a b k : room a <= k -> state_at (a ++ b) k = state_at b (k - room a).
Proof.
  intros Hk. unfold room in *. rewrite <- (drop_app_length a b) at 2. rewrite state_at_drop by lia. f_equal. lia.
Qed.

Lemma state_at_take n bits k : 0 <= k < 4 * Z.of_nat n -> state_at (take n bits) k = state_at bits k.
Proof.
  intros Hk. unfold state_at. rewrite lookup_total_take_lt; [done|].
  assert (k / 4 < Z.of_nat n) by (apply Z.div_lt_upper_bound; lia). assert (0 <= k / 4) by (apply Z.div_pos; lia). lia.
Qed.

Lemma state_at_zero n k : 0 <= k < 4 * Z.of_nat n -> state_at (replicate n 0) k = tra_active.
Proof.
  intros Hk. unfold state_at, byte_state. rewrite lookup_total_replicate_2; [by rewrite Z.shiftr_0_l|].
  assert (k / 4 < Z.of_nat n) by (apply Z.div_lt_upper_bound; lia). assert (0 <= k / 4) by (apply Z.div_pos; lia). lia.
Qed.

Lemma align_4 n : Z.land n (Z.lnot TRA_MASK) = n - n mod 4.
Proof.
  unfold TRA_MASK. change 3 with (Z.ones 2). rewrite <- Z.ldiff_land, Z.ldiff_ones_r by lia.
  rewrite Z.shiftr_div_pow2, Z.shiftl_mul_pow2 by lia. change (2 ^ 2) with 4. pose proof (Z.div_mod n 4 ltac:(lia)). lia.
Qed.

Lemma TRA_state_at bits oldest number : 0 <= number - (oldest - oldest mod 4) < room bits -> room bits < 2 ^ 32 ->
  TRA_state bits oldest number = Ok (state_at bits (number - (oldest - oldest mod 4))).
Proof.
  intros Hr Hb. unfold TRA_state. rewrite align_4. rewrite wrapU_id.
  - rewrite get_state_at; [done|done|]. pose proof (Z.div_mod oldest 4 ltac:(lia)).
    replace (number - (oldest - oldest mod 4)) with (number + - (oldest / 4) * 4) by lia. by rewrite Z.mod_add.
  - rewrite trans_offset. split; [apply Z.div_pos; lia|apply Z.div_lt_upper_bound; lia].
Qed.

(** ** Counters *)

Lemma high_low_number number : 0 <= number <= MAX_TRA_NUMBER ->
  Z.lor (Z.shiftl (wrapU 16 (wrapS 32 (Z.shiftr number BITS_PER_LONG))) BITS_PER_LONG) (low_word number) = number.
Proof.
  unfold MAX_TRA_NUMBER, BITS_PER_LONG, low_word, MAX_ULONG. intros H.
  assert (Hd : 0 <= Z.shiftr number 32 < 2 ^ 16).
  { rewrite Z.shiftr_div_pow2 by lia. split; [apply Z.div_pos; lia|apply Z.div_lt_upper_bound; lia]. }
  rewrite wrapS_id by (lia || (unfold inS; lia32)). rewrite (wrapU_id 16) by done.
  change 0xFFFFFFFF with (Z.ones 32). rewrite wrapU_id.
  - apply Z.bits_inj'. intros i Hi. rewrite Z.lor_spec, Z.land_spec, Z.shiftl_spec by done.
    destruct (decide (i < 32)) as [Hlt|Hge].
    + rewrite Z.testbit_neg_r, Z.ones_spec_low, andb_true_r by lia. done.
    + rewrite Z.shiftr_spec by lia. rewrite Z.ones_spec_high, andb_false_r, orb_false_r by lia. f_equal. lia.
  - rewrite Z.land_ones by lia. apply Z.mod_pos_bound. lia.
Qed.

(** A header whose four upper words are there *)
Definition header_ok (h : header_page) : Prop := length (hdr_tra_high h) = 4%nat.

Lemma counters_write h number : header_ok h -> 0 <= number <= MAX_TRA_NUMBER ->
  (header_ok (writeNT number h) /\ getNT (writeNT number h) = number /\ getOIT (writeNT number h) = getOIT h /\
     getOAT (writeNT number h) = getOAT h /\ getOST (writeNT number h) = getOST h) /\
  (header_ok (writeOIT number h) /\ getOIT (writeOIT number h) = number /\ getNT (writeOIT number h) = getNT h /\
     getOAT (writeOIT number h) = getOAT h /\ getOST (writeOIT number h) = getOST h) /\
  (header_ok (writeOAT number h) /\ getOAT (writeOAT number h) = number /\ getNT (writeOAT number h) = getNT h /\
     getOIT (writeOAT number h) = getOIT h /\ getOST (writeOAT number h) = getOST h) /\
  (header_ok (writeOST number h) /\ getOST (writeOST number h) = number /\ getNT (writeOST number h) = getNT h /\
     getOIT (writeOST number h) = getOIT h /\ getOAT (writeOST number h) = getOAT h).
Proof.
  intros Hh Hn. pose proof (high_low_number number Hn) as Hhl. unfold header_ok in *.
  assert (Hs : forall i j : nat, (i < 4)%nat -> set_high i number h !!! j = if decide (i = j)
    then wrapU 16 (wrapS 32 (Z.shiftr number BITS_PER_LONG)) else hdr_tra_high h !!! j).
  { intros i j Hi. unfold set_high. case_decide as E; [subst j; by rewrite list_lookup_total_insert, decide_True by lia|].
    by rewrite list_lookup_total_insert_ne. }
  unfold getNT, getOIT, getOAT, getOST, high_low, writeNT, writeOIT, writeOAT, writeOST; cbn [hdr_tra_high
    hdr_next_transaction hdr_oldest_transaction hdr_oldest_active hdr_oldest_snapshot].
  unfold NEXT_INDEX, OIT_INDEX, OAT_INDEX, OST_INDEX. rewrite !Hs by lia. cbn [decide].
  split_and!; try done; unfold set_high; by rewrite length_insert.
Qed.

Record TxPage := MkTxPage { tpc_base : Z; tpc_transactions : list Z }.

Record database := Database {
  tip_pages : list (list Z);
  header : header_page;
  dbb_next_transaction : Z;
  dbb_oldest_transaction : Z;
  dbb_oldest_active : Z;
  dbb_oldest_snapshot : Z;
  dbb_read_only : bool;
  dbb_shared_counter : Z;
  m_cache : list TxPage;
  dbb_pc_transactions : option (list Z);
  tra_locks : gmap Z Z
}.

Definition set_tip_pages (v : list (list Z)) (d : database) : database :=
  Database v (header d) (dbb_next_transaction d) (dbb_oldest_transaction d) (dbb_oldest_active d)
    (dbb_oldest_snapshot d) (dbb_read_only d) (dbb_shared_counter d) (m_cache d) (dbb_pc_transactions d) (tra_locks d).
Definition set_header (v : header_page) (d : database) : database :=
  Database (tip_pages d) v (dbb_next_transaction d) (dbb_oldest_transaction d) (dbb_oldest_active d)
    (dbb_oldest_snapshot d) (dbb_read_only d) (dbb_shared_counter d) (m_cache d) (dbb_pc_transactions d) (tra_locks d).
Definition set_next_transaction (v : Z) (d : database) : database :=
  Database (tip_pages d) (header d) v (dbb_oldest_transaction d) (dbb_oldest_active d)
    (dbb_oldest_snapshot d) (dbb_read_only d) (dbb_shared_counter d) (m_cache d) (dbb_pc_transactions d) (tra_locks d).
Definition set_oldest_transaction (v : Z) (d : database) : database :=
  Database (tip_pages d) (header d) (dbb_next_transaction d) v (dbb_oldest_active d)
    (dbb_oldest_snapshot d) (dbb_read_only d) (dbb_shared_counter d) (m_cache d) (dbb_pc_transactions d) (tra_locks d).
Definition set_oldest_active (v : Z) (d : database) : database :=
  Database (tip_pages d) (header d) (dbb_next_transaction d) (dbb_oldest_transaction d) v
    (dbb_oldest_snapshot d) (dbb_read_only d) (dbb_shared_counter d) (m_cache d) (dbb_pc_transactions d) (tra_locks d).
Definition set_oldest_snapshot (v : Z) (d : database) : database :=
  Database (tip_pages d) (header d) (dbb_next_transaction d) (dbb_oldest_transaction d) (dbb_oldest_active d)
    v (dbb_read_only d) (dbb_shared_counter d) (m_cache d) (dbb_pc_transactions d) (tra_locks d).
Definition set_shared_counter (v : Z) (d : database) : database :=
  Database (tip_pages d) (header d) (dbb_next_transaction d) (dbb_oldest_transaction d) (dbb_oldest_active d)
    (dbb_oldest_snapshot d) (dbb_read_only d) v (m_cache d) (dbb_pc_transactions d) (tra_locks d).
Definition set_cache (v : list TxPage) (d : database) : database :=
  Database (tip_pages d) (header d) (dbb_next_transaction d) (dbb_oldest_transaction d) (dbb_oldest_active d)
    (dbb_oldest_snapshot d) (dbb_read_only d) (dbb_shared_counter d) v (dbb_pc_transactions d) (tra_locks d).
Definition set_pc_transactions (v : option (list Z)) (d : database) : database :=
  Database (tip_pages d) (header d) (dbb_next_transaction d) (dbb_oldest_transaction d) (dbb_oldest_active d)
    (dbb_oldest_snapshot d) (dbb_read_only d) (dbb_shared_counter d) (m_cache d) v (tra_locks d).
Definition set_tra_locks (v : gmap Z Z) (d : database) : database :=
  Database (tip_pages d) (header d) (dbb_next_transaction d) (dbb_oldest_transaction d) (dbb_oldest_active d)
    (dbb_oldest_snapshot d) (dbb_read_only d) (dbb_shared_counter d) (m_cache d) (dbb_pc_transactions d) v.

Abbreviation DM := (SM database).

(** ** Precommitted transactions *)

(** The position of [old_number], or the first free one *)
Fixpoint pc_loop (old_number i : Z) (v : list Z) (zp : option Z) : Z + option Z :=
  match v with
  | [] => inr zp
  | p :: v =>
      if decide (p = old_number) then inl i
      else pc_loop old_number (i + 1) v (match zp with None => if decide (p = 0) then Some i else None | _ => zp end)
  end.

Definition TRA_precommited (old_number new_number : Z) : DM bool :=
  pc ← gets dbb_pc_transactions;
  match pc with
  | None =>
      if decide (old_number = new_number) then ret false
      else
        (* a vector of one element, which is 0 *)
        match pc_loop old_number 0 [0] None with
        | inl _ => modify (set_pc_transactions (Some [new_number]));; ret (bool_decide (new_number <> 0))
        | inr _ =>
            if decide (new_number = 0) then modify (set_pc_transactions (Some [0]));; ret false
            else modify (set_pc_transactions (Some [new_number]));; ret true
        end
  | Some v =>
      match pc_loop old_number 0 v None with
      | inl i => modify (set_pc_transactions (aset v i new_number));; ret (bool_decide (new_number <> 0))
      | inr zp =>
          if decide (old_number = new_number \/ new_number = 0) then ret false
          else
            modify (set_pc_transactions (match zp with Some i => aset v i new_number | None => Some (v ++ [new_number]) end));;
            ret true
      end
  end.

(** The test for a transaction other than the system's *)
Definition precommitted (number : Z) : DM bool :=
  if decide (number <> 0) then TRA_precommited number number else ret false.

Section Cache.
Context (transPerTIP : Z).

(** ** Pages *)

(** The page at the buffer cache; [BUGCHECK(165)] if there is none *)
Definition inventory_page (sequence : Z) : DM (list Z) :=
  pages ← gets tip_pages;
  match pages @ sequence with Some page => ret page | None => lift (BugCheck 165) end.

(** [m_cache.find(base, pos)] *)
Definition cache_find (base : Z) : DM (Z * bool) :=
  c ← gets m_cache;
  lift (access (find_sorted Z.gtb tpc_base (fun i => c @ i) (Z.of_nat (length c)) base)).

Definition cache_at (pos : Z) : DM TxPage := c ← gets m_cache; lift (access (c @ pos)).
Definition cache_front : DM TxPage := cache_at 0.
Definition cache_back : DM TxPage := c ← gets m_cache; lift (access (last c)).

(** The pages at the front that the test holds for are removed. *)
Fixpoint drop_pages (old : Z -> bool) (c : list TxPage) : list TxPage :=
  match c with
  | page :: c' => if old (tpc_base page) then drop_pages old c' else c
  | [] => []
  end.

Definition allocTxPage (base : Z) : TxPage :=
  {| tpc_base := base; tpc_transactions := replicate (Z.to_nat (transPerTIP / 4)) 0 |}.

Definition updateCache (tip_page : list Z) (sequence : Z) : DM unit :=
  let first_trans := sequence * transPerTIP in
  oldest ← gets dbb_oldest_transaction;
  modify (fun d => set_cache (drop_pages (fun base => bool_decide (oldest >= base + transPerTIP)) (m_cache d)) d);;
  '(pos, found) ← cache_find first_trans;
  (if found : bool then ret tt
   else modify (fun d => set_cache (take (Z.to_nat pos) (m_cache d) ++ allocTxPage first_trans :: drop (Z.to_nat pos) (m_cache d)) d));;
  page ← cache_at pos;
  let len := wrapU 16 (TRANS_OFFSET transPerTIP) in
  bits ← lift (access (memcpy (tpc_transactions page) 0 tip_page len));
  c ← gets m_cache;
  c ← lift (access (aset c pos {| tpc_base := tpc_base page; tpc_transactions := bits |}));
  modify (set_cache c).

Definition fetch_inventory_page (sequence : Z) : DM (list Z) :=
  page ← inventory_page sequence; updateCache page sequence;; ret page.

Definition TRA_fetch_state (number : Z) : DM Z :=
  tip ← fetch_inventory_page (wrapU 32 (number / transPerTIP));
  lift (access (get_state tip (wrapU 32 (TRANS_OFFSET (number mod transPerTIP))) (TRANS_SHIFT number))).

(** ** The inventory *)

(** [p] is the position in the vector. *)
Fixpoint inventory_loop (fuel : nat) (sequence last top : Z) (bit_vector : option (list Z)) (p : Z) : DM (option (list Z)) :=
  if decide (sequence <= last) then
    match fuel with
    | O => lift Undefined
    | S fuel =>
        let base := sequence * transPerTIP in
        tip ← inventory_page sequence;
        updateCache tip sequence;;
        match bit_vector with
        | None => inventory_loop fuel (sequence + 1) last top None p
        | Some v =>
            let l := wrapU 32 (TRANS_OFFSET (Z.min (top + TRA_MASK + 1 - base) transPerTIP)) in
            bs ← lift (access (mem_read tip 0 l));
            v ← lift (access (mem_write v p bs));
            inventory_loop fuel (sequence + 1) last top (Some v) (p + l)
        end
    end
  else ret bit_vector.

Definition TRA_get_inventory (bit_vector : option (list Z)) (base top : Z) : DM (option (list Z)) :=
  let sequence := wrapU 32 (base / transPerTIP) in
  let last := wrapU 32 (top / transPerTIP) in
  tip ← fetch_inventory_page sequence;
  '(v, p) ← match bit_vector with
            | None => ret (None, 0)
            | Some v =>
                let l := wrapU 32 (base mod transPerTIP) in
                let q := TRANS_OFFSET l in
                let l := wrapU 32 (TRANS_OFFSET (Z.min (top + TRA_MASK + 1 - base) (transPerTIP - l))) in
                bs ← lift (access (mem_read tip q l));
                v ← lift (access (mem_write v 0 bs));
                ret (Some v, l)
            end;
  inventory_loop (Z.to_nat (last - sequence)) (sequence + 1) last top v p.

(** ** The cache *)

Definition cacheTransactions (oldest : Z) : DM Z :=
  h ← gets header;
  let top := getNT h in
  let hdr_oldest := getOIT h in
  _ ← TRA_get_inventory None (Z.max oldest hdr_oldest) top;
  modify (fun d => set_cache (drop_pages (fun base => bool_decide (base + transPerTIP < hdr_oldest)) (m_cache d)) d);;
  ret hdr_oldest.

Definition initializeTpc (number : Z) : DM unit :=
  c ← gets m_cache;
  match c with
  | [] => _ ← cacheTransactions 0; ret tt
  | _ =>
      tip_cache ← cache_back;
      if decide (number < tpc_base tip_cache + transPerTIP) then ret tt
      else if decide (tpc_base tip_cache < MAX_TRA_NUMBER - transPerTIP)
      then _ ← cacheTransactions (tpc_base tip_cache + transPerTIP); ret tt
      else ret tt
  end.

(** The state on the page of the cache, [None] if the page is not there *)
Definition cached_state (number : Z) : DM (option Z) :=
  '(pos, found) ← cache_find (number - number mod transPerTIP);
  if found : bool then
    page ← cache_at pos;
    state ← lift (TRA_state (tpc_transactions page) (tpc_base page) number);
    ret (Some state)
  else ret None.

Definition cacheState (number : Z) : DM Z :=
  pc ← precommitted number;
  if pc : bool then ret tra_precommitted
  else
    c ← gets m_cache;
    (match c with [] => initializeTpc number | _ => ret tt end);;
    front ← cache_front;
    if decide (number < tpc_base front \/ number = 0) then ret tra_committed
    else
      state ← cached_state number;
      match state with Some state => ret state | None => ret tra_active end.

Definition setState (number state : Z) : DM unit :=
  '(pos, found) ← cache_find (number - number mod transPerTIP);
  if found : bool then
    page ← cache_at pos;
    bits ← lift (access (put_state (tpc_transactions page) (wrapU 32 (TRANS_OFFSET (number mod transPerTIP)))
                           (TRANS_SHIFT number) state));
    c ← gets m_cache;
    c ← lift (access (aset c pos {| tpc_base := tpc_base page; tpc_transactions := bits |}));
    modify (set_cache c)
  else ret tt.

Definition extendCache (number : Z) : DM Z :=
  tip_cache ← cache_back;
  early ← (if decide (tpc_base tip_cache < MAX_TRA_NUMBER - transPerTIP) then
             oldest ← cacheTransactions (tpc_base tip_cache + transPerTIP); ret (bool_decide (number < oldest))
           else ret false);
  if early : bool then ret tra_committed
  else
    state ← cached_state number;
    match state with Some state => ret state | None => ret tra_active end.

(** [LCK_lock] for the number, without waiting: it fails if a transaction holds it. *)
Definition transaction_locked (number : Z) : DM bool := gets (fun d => bool_decide (is_Some (tra_locks d !! number))).

Definition snapshotState (number : Z) : DM Z :=
  pc ← precommitted number;
  if pc : bool then ret tra_precommitted
  else
    c ← gets m_cache;
    (match c with [] => _ ← cacheTransactions 0; ret tt | _ => ret tt end);;
    front ← cache_front;
    if decide (number < tpc_base front \/ number = 0) then ret tra_committed
    else
      state ← cached_state number;
      match state with
      | Some state =>
          if decide (state = tra_committed \/ state = tra_dead) then ret state
          else
            locked ← transaction_locked number;
            if locked : bool then ret tra_active else TRA_fetch_state number
      | None => extendCache number
      end.

(** ** Looking for a state *)

Definition check_state (state mask : Z) : bool := bool_decide (Z.land (Z.shiftl 1 state) mask <> 0).

(** The transactions of one page: the number to go on with, or the one that was found, with its state *)
Fixpoint find_in_page (fuel : nat) (page : TxPage) (maxNumber mask : Z) (check_precommitted : bool) (number : Z)
    : DM (Z + Z * Z) :=
  if decide (number < tpc_base page + transPerTIP /\ number < maxNumber) then
    match fuel with
    | O => lift Undefined
    | S fuel =>
        pc ← (if check_precommitted then precommitted number else ret false);
        if pc : bool then ret (inr (number, tra_precommitted))
        else
          tx_state ← lift (TRA_state (tpc_transactions page) (tpc_base page) number);
          if check_state tx_state mask then ret (inr (number, tx_state))
          else find_in_page fuel page maxNumber mask check_precommitted (number + 1)
    end
  else ret (inl number).

Fixpoint find_in_pages (pages : list TxPage) (maxNumber mask : Z) (check_precommitted : bool) (number : Z)
    : DM (option (Z * Z)) :=
  match pages with
  | [] => ret None
  | page :: pages =>
      if decide (number < maxNumber) then
        found ← find_in_page (Z.to_nat (maxNumber - number)) page maxNumber mask check_precommitted number;
        match found with
        | inr found => ret (Some found)
        | inl number => find_in_pages pages maxNumber mask check_precommitted number
        end
      else ret None
  end.

(** The number, 0 if there is none, and its state *)
Definition findStates (minNumber maxNumber mask : Z) : DM (Z * option Z) :=
  initializeTpc maxNumber;;
  front ← cache_front;
  if decide (maxNumber < tpc_base front) then ret (0, None)
  else
    let below := bool_decide (minNumber < tpc_base front) || bool_decide (minNumber = 0) in
    if below && check_state tra_committed mask then ret (minNumber, Some tra_committed)
    else
      let minNumber := if below then tpc_base front else minNumber in
      pc ← gets dbb_pc_transactions;
      let wanted := check_state tra_precommitted mask in
      let check_precommitted := wanted && bool_decide (is_Some pc) in
      if wanted && negb check_precommitted && bool_decide (mask = Z.shiftl 1 tra_precommitted) then ret (0, None)
      else
        '(pos, found) ← cache_find (minNumber - minNumber mod transPerTIP);
        if found : bool then
          c ← gets m_cache;
          found ← find_in_pages (drop (Z.to_nat pos) c) maxNumber mask check_precommitted minNumber;
          match found with Some (number, state) => ret (number, Some state) | None => ret (0, None) end
        else ret (0, None).

End Cache.
