(* ===== verification/TraOps.v ===== *)
(** * Transactions: [src/src/jrd/tra.cpp]

    Starting, ending and waiting for transactions, for the database of [TraCache]. Left out is
    what these functions do beside the inventory, the counters and the locks on transaction
    numbers: deferred work, savepoint undo, page flushes, triggers, the sweeper and the
    counters of an attachment's temporary tables. A wait for a lock is a refusal as long as
    another transaction holds it; the lock [LCK_tra_pc], which no code here asks for, is
    always granted. *)

From S2P Require Import Prelude Memory Search Outcome StateMonad TraCache.
From stdpp Require Import gmap.
#[local] Open Scope Z_scope.

Definition TRA_system : Z := 0x1.
Definition TRA_prepared : Z := 0x2.
Definition TRA_write : Z := 0x10.
Definition TRA_readonly : Z := 0x20.
Definition TRA_invalidated : Z := 0x100.
Definition TRA_read_committed : Z := 0x400.
Definition TRA_no_auto_undo : Z := 0x8000.
Definition TRA_precommitted_flag : Z := 0x10000.
Definition TRA_ACTIVE_CLEANUP : Z := 100.

Inductive wait_t := tra_no_wait | tra_probe | tra_wait.
#[export] Instance wait_t_eq : EqDecision wait_t.
Proof. solve_decision. Defined.
Inductive tra_error := isc_lock_conflict | isc_tra_num_exc | isc_trans_invalid.

Inductive lock_type := LCK_tra | LCK_tra_pc.
Record Lock := MkLock { lck_type : lock_type; lck_key : Z; lck_data : Z }.

(** [tra_save_point]: is each savepoint the one of the transaction, from the last one on *)
Record jrd_tra := Tra {
  tra_flags : Z;
  tra_number : Z;
  tra_top : Z;
  tra_oldest : Z;
  tra_oldest_active : Z;
  tra_transactions : list Z;
  tra_lock : option Lock;
  tra_commit_sub_trans : gset Z;
  tra_save_point : list bool;
  tra_deferred_job : bool
}.

Definition set_flags (v : Z) (t : jrd_tra) : jrd_tra :=
  Tra v (tra_number t) (tra_top t) (tra_oldest t) (tra_oldest_active t) (tra_transactions t) (tra_lock t)
    (tra_commit_sub_trans t) (tra_save_point t) (tra_deferred_job t).
Definition set_number (v : Z) (t : jrd_tra) : jrd_tra :=
  Tra (tra_flags t) v (tra_top t) (tra_oldest t) (tra_oldest_active t) (tra_transactions t) (tra_lock t)
    (tra_commit_sub_trans t) (tra_save_point t) (tra_deferred_job t).
Definition set_tra_oldest_active (v : Z) (t : jrd_tra) : jrd_tra :=
  Tra (tra_flags t) (tra_number t) (tra_top t) (tra_oldest t) v (tra_transactions t) (tra_lock t)
    (tra_commit_sub_trans t) (tra_save_point t) (tra_deferred_job t).
Definition set_transactions (v : list Z) (t : jrd_tra) : jrd_tra :=
  Tra (tra_flags t) (tra_number t) (tra_top t) (tra_oldest t) (tra_oldest_active t) v (tra_lock t)
    (tra_commit_sub_trans t) (tra_save_point t) (tra_deferred_job t).
Definition set_lock (v : option Lock) (t : jrd_tra) : jrd_tra :=
  Tra (tra_flags t) (tra_number t) (tra_top t) (tra_oldest t) (tra_oldest_active t) (tra_transactions t) v
    (tra_commit_sub_trans t) (tra_save_point t) (tra_deferred_job t).
Definition set_commit_sub_trans (v : gset Z) (t : jrd_tra) : jrd_tra :=
  Tra (tra_flags t) (tra_number t) (tra_top t) (tra_oldest t) (tra_oldest_active t) (tra_transactions t) (tra_lock t)
    v (tra_save_point t) (tra_deferred_job t).
Definition set_save_point (v : list bool) (t : jrd_tra) : jrd_tra :=
  Tra (tra_flags t) (tra_number t) (tra_top t) (tra_oldest t) (tra_oldest_active t) (tra_transactions t) (tra_lock t)
    (tra_commit_sub_trans t) v (tra_deferred_job t).

(** The block that [TRA_start] allocates *)
Definition new_tra (flags : Z) : jrd_tra := Tra flags 0 0 0 0 [] None ∅ [] false.

Definition flag (t : jrd_tra) (mask : Z) : bool := bool_decide (Z.land (tra_flags t) mask <> 0).
Definition add_flags (mask : Z) (t : jrd_tra) : jrd_tra := set_flags (Z.lor (tra_flags t) mask) t.
Definition clear_flags (mask : Z) (t : jrd_tra) : jrd_tra := set_flags (Z.land (tra_flags t) (Z.lnot mask)) t.

(** ** Locks on transaction numbers *)

Definition LCK_lock (lock : Lock) : DM bool :=
  match lck_type lock with
  | LCK_tra_pc => ret true
  | LCK_tra =>
      locked ← transaction_locked (lck_key lock);
      if locked : bool then ret false
      else modify (fun d => set_tra_locks (<[lck_key lock := lck_data lock]> (tra_locks d)) d);; ret true
  end.

Definition LCK_release (lock : Lock) : DM unit :=
  match lck_type lock with
  | LCK_tra_pc => ret tt
  | LCK_tra => modify (fun d => set_tra_locks (delete (lck_key lock) (tra_locks d)) d)
  end.

Definition LCK_read_data (number : Z) : DM Z := gets (fun d => default 0 (tra_locks d !! number)).

(** [LCK_MIN]: locks whose datum is 0 are not in the queue of data. *)
Definition lock_min (locks : gmap Z Z) : Z :=
  match filter (fun v => v <> 0) (map_to_list locks).*2 with [] => 0 | v :: l => foldr Z.min v l end.
Definition LCK_query_data : DM Z := gets (fun d => lock_min (tra_locks d)).

Section Operations.
Context (transPerTIP : Z).

(** ** States *)

Definition TRA_get_state (number : Z) : DM Z := snapshotState transPerTIP number.

Definition TRA_set_state (transaction : option jrd_tra) (number state : Z) : DM unit :=
  let precommitted := match transaction with
    | Some t => bool_decide (tra_number t = number) && flag t TRA_precommitted_flag
    | None => false end in
  if precommitted then ret tt
  else
    read_only ← gets dbb_read_only;
    if read_only : bool then setState transPerTIP number state
    else
      let sequence := wrapU 32 (number / transPerTIP) in
      let byte := wrapU 32 (TRANS_OFFSET (number mod transPerTIP)) in
      tip ← fetch_inventory_page transPerTIP sequence;
      tip ← lift (access (put_state tip byte (TRANS_SHIFT number) state));
      modify (fun d => set_tip_pages (<[Z.to_nat sequence := tip]> (tip_pages d)) d);;
      setState transPerTIP number state.

Definition TRA_snapshot_state (trans : jrd_tra) (number : Z) : DM Z :=
  pc ← (if decide (number <> 0) then TRA_precommited number number else ret false);
  if pc : bool then ret tra_precommitted
  else if decide (number = tra_number trans) then ret tra_us
  else if decide (number < tra_oldest trans) then ret tra_committed
  else if decide (number = TRA_system_transaction) then ret tra_committed
  else
    read_only ← gets dbb_read_only;
    if (read_only : bool) && bool_decide (number > tra_top trans) then ret tra_committed
    else if flag trans TRA_read_committed then snapshotState transPerTIP number
    else if flag trans TRA_system then
      state ← snapshotState transPerTIP number;
      ret (if decide (state = tra_active) then tra_committed else state)
    else if decide (number ∈ tra_commit_sub_trans trans) then ret tra_committed
    else if decide (number > tra_top trans) then ret tra_active
    else lift (TRA_state (tra_transactions trans) (tra_oldest trans) number).

(** ** Waiting for a transaction *)

(** The snapshot of the transaction learns the state. *)
Definition tweak_state (trans : jrd_tra) (number state : Z) : DM jrd_tra :=
  if flag trans TRA_read_committed then setState transPerTIP number state;; ret trans
  else
    let byte := wrapU 32 (TRANS_OFFSET (number - Z.land (tra_oldest trans) (Z.lnot TRA_MASK))) in
    bits ← lift (access (put_state (tra_transactions trans) byte (TRANS_SHIFT number) state));
    ret (set_transactions bits trans).

Definition TRA_wait (trans : jrd_tra) (number : Z) (wait : wait_t) : DM (jrd_tra * Z) :=
  refused ← match wait with tra_no_wait => ret false | _ => transaction_locked number end;
  if refused : bool then ret (trans, tra_active)
  else
    state ← TRA_get_state number;
    if match wait with tra_no_wait => false | _ => bool_decide (state = tra_committed) end then ret (trans, state)
    else if decide (state = tra_precommitted) then ret (trans, state)
    else
      state ← (if decide (state = tra_active) then TRA_set_state None number tra_dead;; ret tra_dead else ret state);
      if decide (number > tra_top trans) then ret (trans, state)
      else trans ← tweak_state trans number state; ret (trans, state).

(** ** Numbers *)

(** The page number 0 marks a page that is not there. *)
Definition TRA_extend_tip (sequence : Z) : DM unit :=
  (if decide (sequence <> 0) then _ ← fetch_inventory_page transPerTIP (sequence - 1); ret tt else ret tt);;
  modify (fun d => set_tip_pages
    (<[Z.to_nat sequence := replicate (Z.to_nat (transPerTIP / 4)) 0]>
       (resize (Z.to_nat (sequence + 1)) [] (tip_pages d))) d).

Definition bump_transaction_id : DM (tra_error + header_page) :=
  h ← gets header;
  let next_transaction := getNT h in
  if decide (next_transaction <> 0 /\ getOAT h > next_transaction) then lift (BugCheck 266)
  else if decide (next_transaction <> 0 /\ getOIT h > next_transaction) then lift (BugCheck 267)
  else if decide (next_transaction >= MAX_TRA_NUMBER - 1) then ret (inl isc_tra_num_exc)
  else
    let number := next_transaction + 1 in
    (if decide (number mod transPerTIP = 0) then TRA_extend_tip (wrapU 32 (number / transPerTIP)) else ret tt);;
    modify (set_next_transaction number);;
    d ← gets id;
    let h' := writeNT number h in
    let h' := if decide (dbb_oldest_active d > getOAT h) then writeOAT (dbb_oldest_active d) h' else h' in
    let h' := if decide (dbb_oldest_transaction d > getOIT h) then writeOIT (dbb_oldest_transaction d) h' else h' in
    let h' := if decide (dbb_oldest_snapshot d > getOST h) then writeOST (dbb_oldest_snapshot d) h' else h' in
    modify (set_header h');;
    ret (inr h').

(** [generate] of the counter, for one process *)
Definition generateTransactionId : DM Z :=
  modify (fun d => set_shared_counter (dbb_shared_counter d + 1) d);; gets dbb_shared_counter.

Record start_numbers := Numbers { st_number : Z; st_oldest : Z; st_oldest_active : Z; st_oldest_snapshot : Z }.

Definition allocate_number : DM (tra_error + start_numbers) :=
  d ← gets id;
  if dbb_read_only d then
    n ← generateTransactionId;
    ret (inr (Numbers (dbb_next_transaction d + n) (dbb_oldest_transaction d) (dbb_oldest_active d) (dbb_oldest_snapshot d)))
  else
    bumped ← bump_transaction_id;
    ret match bumped with
        | inl e => inl e
        | inr h => inr (Numbers (getNT h) (getOIT h) (getOAT h) (getOST h))
        end.

(** ** Starting a transaction *)

(** The number, the vector and the lock of the transaction, while the header page is held *)
Definition start_begin (flags : Z) : DM (tra_error + jrd_tra * Z) :=
  numbers ← allocate_number;
  match numbers with
  | inl e => ret (inl e)
  | inr (Numbers number oldest oldest_active oldest_snapshot) =>
      let active := Z.max oldest_active oldest in
      let base := Z.land oldest (Z.lnot TRA_MASK) in
      d ← gets id;
      let top := if dbb_read_only d then dbb_next_transaction d else number in
      let read_committed := bool_decide (Z.land flags TRA_read_committed <> 0) in
      let bits := if negb read_committed && bool_decide (top >= oldest)
                  then replicate (Z.to_nat (wrapU 32 ((top + 1 - base + TRA_MASK) / 4))) 0 else [] in
      let lock := MkLock LCK_tra number (if read_committed then number else active) in
      locked ← LCK_lock lock;
      if locked : bool then
        ret (inr (Tra flags number top oldest active bits (Some lock) ∅ [] false, oldest_snapshot))
      else ret (inl isc_lock_conflict)
  end.

(** The snapshot of the inventory *)
Definition start_inventory (trans : jrd_tra) : DM jrd_tra :=
  let base := Z.land (tra_oldest trans) (Z.lnot TRA_MASK) in
  let top := tra_top trans in
  if flag trans TRA_read_committed then initializeTpc transPerTIP top;; ret trans
  else if decide (top > base) then
    v ← TRA_get_inventory transPerTIP (Some (tra_transactions trans)) base top;
    ret (set_transactions (default [] v) trans)
  else ret trans.

(** The next transaction from [number] on that the loops look at, with its state *)
Definition start_state (trans : jrd_tra) (from mask number : Z) : DM (option (Z * Z)) :=
  if flag trans TRA_read_committed then
    '(n, state) ← findStates transPerTIP from (tra_top trans) mask;
    if decide (n = 0) then ret None else state ← lift (access state); ret (Some (n, state))
  else
    let base := Z.land (tra_oldest trans) (Z.lnot TRA_MASK) in
    state ← lift (access (get_state (tra_transactions trans) (wrapU 32 (TRANS_OFFSET (number - base))) (TRANS_SHIFT number)));
    ret (Some (number, state)).

(** An active transaction was found, and the datum of its lock. *)
Definition oldest_active_found (trans : jrd_tra) (data oldest_snapshot : Z) : DM jrd_tra :=
  let trans := if decide (data < tra_oldest_active trans) then set_tra_oldest_active data trans else trans in
  if decide (tra_oldest_active trans = oldest_snapshot) then ret trans
  else
    data ← LCK_query_data;
    ret (if decide (data <> 0 /\ data < tra_oldest_active trans) then set_tra_oldest_active data trans else trans).

(** The oldest active transaction; answers the transaction and [oldest_active]. *)
Fixpoint active_loop (fuel : nat) (trans : jrd_tra) (cleanup : bool) (oldest_snapshot active oldest_active : Z)
    : DM (jrd_tra * Z) :=
  if decide (active < tra_top trans) then
    match fuel with
    | O => lift Undefined
    | S fuel =>
        found ← start_state trans active (Z.shiftl 1 tra_active) active;
        match found with
        | None => ret (trans, oldest_active)
        | Some (active, state) =>
            if decide (state = tra_active) then
              data ← LCK_read_data active;
              if bool_decide (data = 0) && cleanup then
                '(trans, state) ← TRA_wait trans active tra_no_wait;
                active_loop fuel trans (cleanup && bool_decide (state <> tra_committed)) oldest_snapshot (active + 1) oldest_active
              else
                trans ← oldest_active_found trans (if decide (data = 0) then active else data) oldest_snapshot;
                ret (trans, Z.min oldest_active active)
            else active_loop fuel trans cleanup oldest_snapshot (active + 1) oldest_active
        end
    end
  else ret (trans, oldest_active).

Definition start_oldest_active (trans : jrd_tra) (oldest_snapshot : Z) : DM (jrd_tra * Z) :=
  let number := tra_number trans in
  let active := tra_oldest_active trans in
  let trans := set_tra_oldest_active number trans in
  active_loop (Z.to_nat (tra_top trans - active)) trans (bool_decide (number mod TRA_ACTIVE_CLEANUP = 0))
    oldest_snapshot active number.

(** The comparison is with the datum as an [SLONG]. *)
Definition start_lock_data (trans : jrd_tra) (oldest_active : Z) : DM jrd_tra :=
  let data := if flag trans TRA_read_committed then tra_number trans else oldest_active in
  match tra_lock trans with
  | Some lock =>
      if decide (lck_data lock <> wrapS 32 data) then
        modify (fun d => set_tra_locks (<[lck_key lock := data]> (tra_locks d)) d);;
        ret (set_lock (Some (MkLock (lck_type lock) (lck_key lock) data)) trans)
      else ret trans
  | None => lift Undefined
  end.

Definition INTERESTING_MASK : Z := wrapU 32 (Z.lnot (Z.lor (Z.shiftl 1 tra_committed) (Z.shiftl 1 tra_precommitted))).

(** The oldest interesting transaction *)
Fixpoint oldest_loop (fuel : nat) (trans : jrd_tra) (oldest : Z) : DM Z :=
  if decide (oldest < tra_top trans) then
    match fuel with
    | O => lift Undefined
    | S fuel =>
        found ← start_state trans (tra_oldest trans) INTERESTING_MASK oldest;
        match found with
        | None => ret (tra_top trans)
        | Some (oldest, state) =>
            if decide (state <> tra_committed /\ state <> tra_precommitted) then ret oldest
            else oldest_loop fuel trans (oldest + 1)
        end
    end
  else ret oldest.

(** The counters of the database only grow. *)
Definition start_counters (trans : jrd_tra) (oldest oldest_active : Z) : DM unit :=
  let oldest := wrapU 64 (oldest - 1) in
  modify (fun d => if decide (oldest > dbb_oldest_transaction d) then set_oldest_transaction oldest d else d);;
  modify (fun d => if decide (oldest_active > dbb_oldest_active d) then set_oldest_active oldest_active d else d);;
  modify (fun d => if decide (tra_oldest_active trans > dbb_oldest_snapshot d)
                   then set_oldest_snapshot (tra_oldest_active trans) d else d).

Definition startSavepoint (trans : jrd_tra) : jrd_tra := set_save_point (true :: tra_save_point trans) trans.

(** A transaction that only reads what is committed is committed from the start. *)
Definition start_precommit (trans : jrd_tra) : DM (tra_error + jrd_tra) :=
  result ←
    (if flag trans TRA_readonly && flag trans TRA_read_committed then
       TRA_set_state (Some trans) (tra_number trans) tra_committed;;
       lock ← lift (access (tra_lock trans));
       LCK_release lock;;
       let lock := MkLock LCK_tra_pc (lck_key lock) 0 in
       locked ← LCK_lock lock;
       ret (if locked : bool then inr (add_flags TRA_precommitted_flag (set_lock (Some lock) trans))
            else inl isc_lock_conflict)
     else ret (inr trans));
  match result with
  | inl e => ret (inl e)
  | inr trans =>
      (if flag trans TRA_precommitted_flag then _ ← TRA_precommited 0 (tra_number trans); ret tt else ret tt);;
      ret (inr trans)
  end.

Definition start_end (trans : jrd_tra) (oldest_snapshot : Z) : DM (tra_error + jrd_tra) :=
  d ← gets id;
  let trans := if dbb_read_only d then add_flags (Z.lor TRA_readonly TRA_precommitted_flag) trans else trans in
  trans ← start_inventory trans;
  '(trans, oldest_active) ← start_oldest_active trans oldest_snapshot;
  trans ← start_lock_data trans oldest_active;
  oldest ← oldest_loop (Z.to_nat (tra_top trans - tra_oldest trans)) trans (tra_oldest trans);
  let oldest := if dbb_read_only d && bool_decide (oldest >= tra_top trans) then tra_number trans else oldest in
  start_counters trans oldest oldest_active;;
  start_precommit (if negb (flag trans TRA_system) && negb (flag trans TRA_no_auto_undo) then startSavepoint trans else trans).

Definition transaction_start (flags : Z) : DM (tra_error + jrd_tra) :=
  begun ← start_begin flags;
  match begun with
  | inl e => ret (inl e)
  | inr (trans, oldest_snapshot) => start_end trans oldest_snapshot
  end.

(** ** The end of a transaction *)

Definition TRA_release_transaction (trans : jrd_tra) : DM unit :=
  match tra_lock trans with Some lock => LCK_release lock | None => ret tt end;;
  if flag trans TRA_precommitted_flag then _ ← TRA_precommited (tra_number trans) 0; ret tt else ret tt.

(** The number and the lock that the transaction goes on with *)
Definition retain_number (trans : jrd_tra) : DM (tra_error + Z * option Lock) :=
  d ← gets id;
  numbers ←
    (if dbb_read_only d then n ← generateTransactionId; ret (inr (dbb_next_transaction d + n))
     else
       bumped ← bump_transaction_id;
       ret (match bumped with inl e => inl e | inr h => inr (getNT h) end));
  match numbers with
  | inl e => ret (inl e)
  | inr new_number =>
      match tra_lock trans with
      | Some old_lock =>
          let new_lock := MkLock LCK_tra new_number (lck_data old_lock) in
          locked ← LCK_lock new_lock;
          ret (if locked : bool then inr (new_number, Some new_lock) else inl isc_lock_conflict)
      | None => ret (inr (new_number, None))
      end
  end.

Definition retain_context (trans : jrd_tra) (commit : bool) (state : Z) : DM (tra_error + jrd_tra) :=
  let trans := if commit then set_commit_sub_trans ({[tra_number trans]} ∪ tra_commit_sub_trans trans) trans else trans in
  numbers ← retain_number trans;
  match numbers with
  | inl e => ret (inl e)
  | inr (new_number, new_lock) =>
      d ← gets id;
      let old_number := tra_number trans in
      let old_lock := tra_lock trans in
      (if negb (dbb_read_only d) then TRA_set_state (Some trans) old_number state else ret tt);;
      let trans := set_number new_number trans in
      trans ← match old_lock with Some lock => LCK_release lock;; ret (set_lock new_lock trans) | None => ret trans end;
      let trans := clear_flags (Z.lor TRA_write TRA_prepared) trans in
      let trans := if bool_decide (tra_save_point trans = []) && negb (flag trans TRA_no_auto_undo)
                   then startSavepoint trans else trans in
      if flag trans TRA_precommitted_flag then
        (if negb (dbb_read_only d)
         then TRA_set_state (Some (clear_flags TRA_precommitted_flag trans)) new_number tra_committed else ret tt);;
        _ ← TRA_precommited old_number new_number;
        ret (inr trans)
      else ret (inr trans)
  end.

(** Savepoints of the user, until the one of the transaction *)
Fixpoint user_savepoints (l : list bool) : list bool :=
  match l with
  | root :: l' => if (root : bool) then l else user_savepoints l'
  | [] => []
  end.

(** [None]: the transaction has ended. *)
Definition TRA_commit (trans : jrd_tra) (retaining_flag : bool) : DM (tra_error + option jrd_tra) :=
  if retaining_flag && negb (flag trans TRA_write || tra_deferred_job trans) then
    ret (inr (Some (set_save_point (user_savepoints (tra_save_point trans)) (clear_flags TRA_prepared trans))))
  else if flag trans TRA_invalidated then ret (inl isc_trans_invalid)
  else
    let trans := if flag trans TRA_write then set_save_point [] trans else trans in
    if retaining_flag then
      retained ← retain_context trans true tra_committed;
      ret (match retained with inl e => inl e | inr trans => inr (Some trans) end)
    else
      TRA_set_state (Some trans) (tra_number trans) tra_committed;;
      TRA_release_transaction trans;;
      ret (inr None).

(** The savepoints that are left and the state to set: [undone] says whether the undo of the
    transaction's savepoint succeeds. *)
Definition rollback_state (trans : jrd_tra) (force_flag undone : bool) : list bool * Z :=
  let save_point := if force_flag || flag trans TRA_invalidated then [] else tra_save_point trans in
  match save_point with
  | [] => ([], if flag trans TRA_write then tra_dead else tra_committed)
  | _ =>
      match user_savepoints save_point with
      | [] => ([], tra_dead)
      | root :: rest => if undone then (rest, tra_committed) else (root :: rest, tra_dead)
      end
  end.

Definition TRA_rollback (trans : jrd_tra) (retaining_flag force_flag undone : bool) : DM (tra_error + option jrd_tra) :=
  let '(save_point, state) := rollback_state trans force_flag undone in
  let trans := set_save_point save_point trans in
  if retaining_flag then
    retained ← retain_context trans false state;
    ret (match retained with inl e => inl e | inr trans => inr (Some trans) end)
  else
    TRA_set_state (Some trans) (tra_number trans) state;;
    TRA_release_transaction trans;;
    ret (inr None).

End Operations.

(** ** The counters of the header page *)

(** The tests of the second group read the words of the page, which hold the lower 32 bits. *)
Definition update_header (d : database) (h : header_page) : header_page :=
  if decide (dbb_oldest_active d > getOAT h \/ dbb_oldest_transaction d > getOIT h \/
             dbb_oldest_snapshot d > getOST h \/ dbb_next_transaction d > getNT h) then
    let next_transaction := getNT h in
    let h := if decide (dbb_oldest_active d > hdr_oldest_active h) then writeOAT (dbb_oldest_active d) h else h in
    let h := if decide (dbb_oldest_transaction d > hdr_oldest_transaction h) then writeOIT (dbb_oldest_transaction d) h else h in
    let h := if decide (dbb_oldest_snapshot d > hdr_oldest_snapshot h) then writeOST (dbb_oldest_snapshot d) h else h in
    if decide (dbb_next_transaction d > next_transaction) then writeNT (dbb_next_transaction d) h else h
  else h.

Definition TRA_update_counters : DM unit :=
  d ← gets id;
  if dbb_read_only d || bool_decide (dbb_oldest_transaction d = 0) then ret tt
  else modify (fun d => set_header (update_header d (header d)) d).

(** ** Cleaning up at the start of a database *)

(** The counters that are read from the header page; [info] is for a database that is open. *)
Definition PAG_header (info : bool) : DM unit :=
  h ← gets header;
  let next_transaction := getNT h in
  if decide (next_transaction <> 0 /\ getOAT h > next_transaction) then lift (BugCheck 266)
  else if decide (next_transaction <> 0 /\ getOIT h > next_transaction) then lift (BugCheck 267)
  else
    d ← gets id;
    modify (set_next_transaction next_transaction);;
    (if negb info || bool_decide (dbb_oldest_transaction d < getOIT h) then modify (set_oldest_transaction (getOIT h)) else ret tt);;
    (if negb info || bool_decide (dbb_oldest_active d < getOAT h) then modify (set_oldest_active (getOAT h)) else ret tt);;
    (if negb info || bool_decide (dbb_oldest_snapshot d < getOST h) then modify (set_oldest_snapshot (getOST h)) else ret tt).

(** [first] tells the page of the system's transaction. *)
Fixpoint cleanup_page (count : nat) (first : bool) (tip : list Z) (number : Z) : option (list Z) :=
  match count with
  | O => Some tip
  | S count =>
      state ← get_state tip (TRANS_OFFSET number) (TRANS_SHIFT number);
      tip ← (if decide (state = tra_active)
             then put_state tip (TRANS_OFFSET number) (TRANS_SHIFT number)
                    (if first && bool_decide (number = 0) then tra_committed else tra_dead)
             else Some tip);
      cleanup_page count first tip (number + 1)
  end.

Section Cleanup.
Context (transPerTIP : Z).

Fixpoint cleanup_pages (fuel : nat) (ceiling last sequence number : Z) : DM unit :=
  if decide (sequence <= last) then
    match fuel with
    | O => lift Undefined
    | S fuel =>
        tip ← inventory_page sequence;
        let max := ceiling - sequence * transPerTIP in
        let max := if decide (max >= transPerTIP) then transPerTIP - 1 else max in
        tip ← lift (access (cleanup_page (Z.to_nat (max + 1 - number)) (bool_decide (sequence = 0)) tip number));
        modify (fun d => set_tip_pages (<[Z.to_nat sequence := tip]> (tip_pages d)) d);;
        cleanup_pages fuel ceiling last (sequence + 1) 0
    end
  else ret tt.

(** [outstanding]: does an attachment have transactions *)
Definition TRA_cleanup (outstanding : bool) : DM unit :=
  d ← gets id;
  if dbb_read_only d || outstanding then ret tt
  else
    let ceiling := getNT (header d) in
    let active := getOAT (header d) in
    if decide (ceiling = 0) then ret tt
    else
      let last := wrapU 32 (ceiling / transPerTIP) in
      let sequence := wrapU 32 (active / transPerTIP) in
      cleanup_pages (Z.to_nat (last + 1 - sequence)) ceiling last sequence (active mod transPerTIP).

End Cleanup.
