(* ===== verification/TraInventory.v ===== *)
(** * What the cache of inventory pages holds, and copies of the inventory

    For one process: the cache is a view of the inventory pages from one page to another
    without gaps, and everything below its first page is below the oldest interesting
    transaction. [TRA_get_inventory]: the vector that a transaction takes holds the states of
    the inventory pages, whatever pages they lie on; the cache is filled on the way. *)

From S2P Require Import Prelude Memory Search Outcome StateMonad TraCache.
From stdpp Require Import gmap.
#[local] Open Scope Z_scope.

Section View.
Context (tpt : Z) (Htpt : 0 < tpt < 2 ^ 18) (Halign : tpt mod 4 = 0).
Implicit Types (P : list (list Z)) (d : database).

Definition page_ok (p : list Z) : Prop := 4 * Z.of_nat (length p) = tpt /\ bytes p.
Definition pages_ok P : Prop := Forall page_ok P /\ Z.of_nat (length P) < 2 ^ 31.
Definition page P (s : Z) : list Z := P !!! Z.to_nat s.

(** The state of a transaction on the inventory pages *)
Definition state_of P (n : Z) : Z := state_at (page P (n / tpt)) (n mod tpt).

Definition view P (lo hi : Z) : list TxPage := (fun s => MkTxPage (s * tpt) (page P s)) <$> seqZ lo (hi - lo).

(** The cache holds the pages from [lo] to before [hi]. *)
Definition covers d (lo hi : Z) : Prop :=
  m_cache d = view (tip_pages d) lo hi /\ 0 <= lo <= hi /\ lo <= dbb_oldest_transaction d / tpt /\
  hi <= Z.of_nat (length (tip_pages d)).
Definition cache_ok d (hi : Z) : Prop := exists lo, covers d lo hi.
Definition cache_live d (hi : Z) : Prop := exists lo, covers d lo hi /\ lo < hi.

(** Only the cache has changed. *)
Definition recached d (hi : Z) (d' : database) : Prop := (exists v, d' = set_cache v d) /\ cache_live d' hi.

Lemma cache_live_ok d hi : cache_live d hi -> cache_ok d hi.
Proof. intros (lo & H & _). by exists lo. Qed.

Lemma recached_trans d hi d' hi' d'' : recached d hi d' -> recached d' hi' d'' -> recached d hi' d''.
Proof. intros [[v ->] _] [[v' ->] H]. split; [|done]. by exists v'. Qed.

Lemma recached_refl d hi : cache_live d hi -> recached d hi d.
Proof. intros H. split; [|done]. exists (m_cache d). by destruct d. Qed.

(** ** Pages *)

Lemma page_lookup P s : 0 <= s < Z.of_nat (length P) -> P @ s = Some (page P s).
Proof.
  intros Hs. rewrite aget_nonneg by lia. unfold page. apply list_lookup_lookup_total_lt. lia.
Qed.

Lemma page_page_ok P s : pages_ok P -> 0 <= s < Z.of_nat (length P) -> page_ok (page P s).
Proof. intros [H _] Hs. apply page_lookup, aget_Some in Hs as [_ Hs]. exact (Forall_lookup_1 _ _ _ _ H Hs). Qed.

Lemma inventory_page_eq d s : 0 <= s < Z.of_nat (length (tip_pages d)) ->
  inventory_page s d = Ok (page (tip_pages d) s, d).
Proof. intros Hs. unfold inventory_page, gets, mbind, SM_bind. by rewrite page_lookup. Qed.

(** ** Views *)

Lemma view_length P lo hi : lo <= hi -> length (view P lo hi) = Z.to_nat (hi - lo).
Proof. intros H. unfold view. by rewrite length_fmap, length_seqZ. Qed.

Lemma view_lookup P lo hi i : (i < Z.to_nat (hi - lo))%nat ->
  view P lo hi !! i = Some (MkTxPage ((lo + Z.of_nat i) * tpt) (page P (lo + Z.of_nat i))).
Proof.
  intros Hi. unfold view. rewrite list_lookup_fmap_Some. exists (lo + Z.of_nat i). split; [done|apply lookup_seqZ; lia].
Qed.

Lemma view_lookup_inv P lo hi i x : view P lo hi !! i = Some x ->
  (i < Z.to_nat (hi - lo))%nat /\ x = MkTxPage ((lo + Z.of_nat i) * tpt) (page P (lo + Z.of_nat i)).
Proof.
  unfold view. rewrite list_lookup_fmap_Some. intros (s & -> & Hs). apply lookup_seqZ in Hs as [-> Hi].
  split; [lia|done].
Qed.

Lemma view_sorted P lo hi : sorted Z.gtb tpc_base (view P lo hi).
Proof.
  intros i j x y Hij [_ ->]%view_lookup_inv [_ ->]%view_lookup_inv. cbn. rewrite Z.gtb_ltb, Z.ltb_ge. nia.
Qed.

Lemma view_ext P P' lo hi : (forall s, lo <= s < hi -> page P s = page P' s) -> view P lo hi = view P' lo hi.
Proof.
  intros H. unfold view. apply list_fmap_ext. intros i s Hs. apply lookup_seqZ in Hs as [-> Hs]. rewrite H; [done|lia].
Qed.

Lemma view_cons P lo hi : lo < hi -> view P lo hi = MkTxPage (lo * tpt) (page P lo) :: view P (lo + 1) hi.
Proof.
  intros H. unfold view. rewrite seqZ_cons by lia. cbn. f_equal.
  replace (Z.succ lo) with (lo + 1) by lia. by replace (Z.pred (hi - lo)) with (hi - (lo + 1)) by lia.
Qed.

Lemma view_nil P lo hi : hi <= lo -> view P lo hi = [].
Proof. intros H. unfold view. by rewrite seqZ_nil by lia. Qed.

Lemma view_snoc P lo hi : lo <= hi -> view P lo (hi + 1) = view P lo hi ++ [MkTxPage (hi * tpt) (page P hi)].
Proof.
  intros H. unfold view. replace (hi + 1 - lo) with (hi - lo + 1) by lia. rewrite seqZ_app by lia. rewrite fmap_app.
  f_equal. rewrite seqZ_cons by lia. cbn. by replace (lo + (hi - lo)) with hi by lia.
Qed.

Lemma view_drop P old lo hi : lo <= hi -> lo <= old / tpt ->
  drop_pages (fun base => bool_decide (old >= base + tpt)) (view P lo hi) = view P (Z.min (old / tpt) hi) hi.
Proof.
  intros Hlh. remember (Z.to_nat (hi - lo)) as n eqn:Hn. revert lo Hlh Hn. induction n as [|n IH]; intros lo Hlh Hn Ho.
  - rewrite !view_nil by lia. done.
  - rewrite view_cons by lia. cbn [drop_pages tpc_base]. case_bool_decide as Hc.
    + rewrite (IH (lo + 1)); [done|lia|lia|]. apply Z.div_le_lower_bound; lia.
    + assert (old / tpt < lo + 1) by (apply Z.div_lt_upper_bound; lia).
      rewrite <- view_cons by lia. f_equal. lia.
Qed.

Lemma view_find P lo hi s c : c = view P lo hi -> 0 <= lo <= hi -> hi < 2 ^ 31 ->
  find_sorted Z.gtb tpc_base (fun i => c @ i) (Z.of_nat (length c)) (s * tpt) =
    Some (Z.max 0 (Z.min (s - lo) (hi - lo)), bool_decide (lo <= s < hi)).
Proof.
  intros -> Hlh Hh. destruct (find_sorted_spec Z.gtb tpc_base (fun i => view P lo hi @ i) (view P lo hi) (s * tpt))
    as (pos & found & -> & (Hlen & Hbelow & Habove) & Hf).
  - apply view_sorted.
  - intros i x Hx. by rewrite aget_nat.
  - rewrite view_length by lia. lia.
  - rewrite view_length in Hlen by lia.
    assert (Hb : forall i, (i < pos)%nat -> lo + Z.of_nat i < s).
    { intros i Hi. specialize (Hbelow i _ Hi (view_lookup P lo hi i ltac:(lia))). cbn in Hbelow.
      rewrite Z.gtb_ltb, Z.ltb_lt in Hbelow. nia. }
    assert (Ha : forall i, (pos <= i)%nat -> (i < Z.to_nat (hi - lo))%nat -> s <= lo + Z.of_nat i).
    { intros i Hi Hi'. specialize (Habove i _ Hi (view_lookup P lo hi i ltac:(lia))). cbn in Habove.
      rewrite Z.gtb_ltb, Z.ltb_ge in Habove. nia. }
    assert (Z.of_nat pos = Z.max 0 (Z.min (s - lo) (hi - lo))) as Hpos.
    { destruct (decide (pos = 0%nat)) as [H0|H0]; [|specialize (Hb (pos - 1)%nat ltac:(lia))];
      (destruct (decide (pos = Z.to_nat (hi - lo))) as [H1|H1]; [lia|specialize (Ha pos ltac:(lia) ltac:(lia)); lia]). }
    rewrite <- Hpos. do 2 f_equal. apply eq_bool_prop_intro. rewrite bool_decide_spec, Is_true_true, Hf, Exists_exists. split.
    + intros (x & [i Hx]%list_elem_of_lookup & Hm1 & Hm2). apply view_lookup_inv in Hx as [Hi ->]. cbn in Hm1, Hm2.
      rewrite Z.gtb_ltb, Z.ltb_ge in Hm1, Hm2. nia.
    + intros Hs. exists (MkTxPage (s * tpt) (page P s)). split.
      * apply list_elem_of_lookup. exists (Z.to_nat (s - lo)). rewrite view_lookup by lia.
        by replace (lo + Z.of_nat (Z.to_nat (s - lo))) with s by lia.
      * split; cbn; rewrite Z.gtb_ltb, Z.ltb_ge; lia.
Qed.

Lemma cache_find_eq d lo hi s : covers d lo hi -> pages_ok (tip_pages d) ->
  cache_find (s * tpt) d = Ok (Z.max 0 (Z.min (s - lo) (hi - lo)), bool_decide (lo <= s < hi), d).
Proof.
  intros (Hc & Hlh & _ & Hlen) [_ HP]. unfold cache_find, gets, lift, mbind, SM_bind, Outcome_bind.
  rewrite (view_find (tip_pages d) lo hi) by (done || lia). done.
Qed.

Lemma cache_at_eq d lo hi s : covers d lo hi -> lo <= s < hi ->
  cache_at (s - lo) d = Ok (MkTxPage (s * tpt) (page (tip_pages d) s), d).
Proof.
  intros (Hc & Hlh & _) Hs. unfold cache_at, gets, lift, mbind, SM_bind, Outcome_bind. rewrite Hc, aget_nonneg by lia.
  rewrite view_lookup by lia. by replace (lo + Z.of_nat (Z.to_nat (s - lo))) with s by lia.
Qed.

Lemma cache_front_eq d lo hi : covers d lo hi -> lo < hi ->
  cache_front d = Ok (MkTxPage (lo * tpt) (page (tip_pages d) lo), d).
Proof. intros Hc H. unfold cache_front. rewrite <- (Z.sub_diag lo). by apply (cache_at_eq d lo hi). Qed.

Lemma cache_back_eq d lo hi : covers d lo hi -> lo < hi ->
  cache_back d = Ok (MkTxPage ((hi - 1) * tpt) (page (tip_pages d) (hi - 1)), d).
Proof.
  intros (Hc & _) H. unfold cache_back, gets, lift, mbind, SM_bind, Outcome_bind. rewrite Hc.
  replace hi with (hi - 1 + 1) at 1 by lia. rewrite view_snoc, last_snoc by lia. done.
Qed.

(** ** Updating the cache *)

Lemma offset_tpt : wrapU 16 (TRANS_OFFSET tpt) = tpt / 4.
Proof.
  rewrite trans_offset. apply wrapU_id. split; [apply Z.div_pos; lia|]. apply Z.div_lt_upper_bound; lia.
Qed.

Lemma memcpy_page p tip : page_ok tip -> length p = length tip -> memcpy p 0 tip (tpt / 4) = Some tip.
Proof.
  intros [Hl _] Hp. pose proof (Z.div_mod tpt 4 ltac:(lia)).
  pose proof (memcpy_mid [] p tip 0 (tpt / 4) [] tip) as H'. cbn in H'. rewrite H'; [|by rewrite app_nil_r|lia|done|lia].
  by rewrite <- Hp, drop_all, app_nil_r.
Qed.

Lemma updateCache_eq d lo hi q : covers d lo hi -> pages_ok (tip_pages d) ->
  dbb_oldest_transaction d / tpt <= q <= hi -> q < Z.of_nat (length (tip_pages d)) ->
  let v := view (tip_pages d) (Z.min (dbb_oldest_transaction d / tpt) hi) (Z.max hi (q + 1)) in
  updateCache tpt (page (tip_pages d) q) q d = Ok (tt, set_cache v d) /\
  covers (set_cache v d) (Z.min (dbb_oldest_transaction d / tpt) hi) (Z.max hi (q + 1)).
Proof.
  intros Hc HP Hq Hql v. pose proof Hc as (Hv & Hlh & Hlo & Hh). set (o := dbb_oldest_transaction d / tpt) in *.
  set (lo' := Z.min o hi) in *.
  assert (Hc' : covers (set_cache v d) lo' (Z.max hi (q + 1))).
  { split; [done|]. cbn. fold o. subst lo'. lia. }
  split; [|done]. unfold updateCache. run. rewrite Hv, view_drop by (fold o; lia). fold o lo'.
  set (d1 := set_cache (view (tip_pages d) lo' hi) d).
  assert (Hc1 : covers d1 lo' hi).
  { split; [done|]. cbn. fold o. subst lo'. lia. }
  assert (Hlen : length (view (tip_pages d) lo' hi) = Z.to_nat (hi - lo')) by (apply view_length; subst lo'; lia).
  assert (Hlo' : 0 <= hi - lo') by (subst lo'; lia).
  rewrite (bind_ok _ _ _ _ _ (cache_find_eq d1 lo' hi q Hc1 HP)). cbv beta iota.
  rewrite Z.max_r, Z.min_l by (subst lo'; lia). pose proof (page_page_ok _ q HP ltac:(lia)) as Hpq. case_bool_decide as Hf.
  - run. rewrite (bind_ok _ _ _ _ _ (cache_at_eq d1 lo' hi q Hc1 Hf)). cbn [tpc_transactions tpc_base].
    rewrite offset_tpt, memcpy_page by done. run. cbn [m_cache set_cache d1].
    rewrite aset_in by lia. cbn [access]. run. unfold modify. do 2 f_equal. subst v. rewrite Z.max_l by lia.
    rewrite list_insert_id; [done|]. rewrite view_lookup by lia. by replace (lo' + Z.of_nat (Z.to_nat (q - lo'))) with q by lia.
  - assert (q = hi) as -> by (subst lo'; lia). run. cbn [m_cache set_cache d1].
    rewrite <- Hlen, take_ge, drop_all by lia. unfold cache_at. rewrite <- (Z2Nat.id (hi - lo')), <- Hlen by done.
    erewrite bind_ok; [|by rewrite bind_gets; cbn [m_cache set_cache]; rewrite aget_nat, list_lookup_middle].
    cbn [tpc_transactions tpc_base allocTxPage]. rewrite offset_tpt, memcpy_page; [|done|].
    2:{ rewrite length_replicate. destruct Hpq as [Hpl _]. pose proof (Z.div_mod tpt 4 ltac:(lia)). lia. }
    run. cbn [m_cache set_cache]. rewrite aset_in by (rewrite length_app; cbn; lia). cbn [access]. run. unfold modify. do 2 f_equal.
    rewrite Nat2Z.id, insert_app_r_alt, Nat.sub_diag by lia. cbn. subst v. rewrite Z.max_r, view_snoc by lia. done.
Qed.

Lemma updateCache_ok d hi q : cache_ok d hi -> pages_ok (tip_pages d) ->
  dbb_oldest_transaction d / tpt <= q <= hi -> q < Z.of_nat (length (tip_pages d)) ->
  exists d', updateCache tpt (page (tip_pages d) q) q d = Ok (tt, d') /\ recached d (Z.max hi (q + 1)) d'.
Proof.
  intros [lo Hc] HP Hq Hl. destruct (updateCache_eq d lo hi q Hc HP Hq Hl) as [He Hc']. eexists. split; [exact He|].
  split; [by eexists|]. eexists. split; [exact Hc'|]. lia.
Qed.

Lemma fetch_inventory_page_ok d hi q : cache_ok d hi -> pages_ok (tip_pages d) ->
  dbb_oldest_transaction d / tpt <= q <= hi -> 0 <= q < Z.of_nat (length (tip_pages d)) ->
  exists d', fetch_inventory_page tpt q d = Ok (page (tip_pages d) q, d') /\ recached d (Z.max hi (q + 1)) d'.
Proof.
  intros Hc HP Hq Hl. destruct (updateCache_ok d hi q Hc HP Hq ltac:(lia)) as (d' & He & Hr). exists d'. split; [|done].
  unfold fetch_inventory_page, mbind, SM_bind. by rewrite inventory_page_eq, He.
Qed.

End View.

Section Inventory.
Context (tpt : Z) (Htpt : 0 < tpt < 2 ^ 18) (Halign : tpt mod 4 = 0).
Implicit Types (P : list (list Z)) (d : database).

Lemma page_len : 4 * (tpt / 4) = tpt.
Proof. pose proof (Z.div_mod tpt 4 ltac:(lia)). lia. Qed.

Lemma div4_min a b : Z.min a b / 4 = Z.min (a / 4) (b / 4).
Proof.
  destruct (Z.le_ge_cases a b) as [H|H].
  - rewrite !Z.min_l; [done|apply Z.div_le_mono; lia|done].
  - rewrite !Z.min_r; [done|apply Z.div_le_mono; lia|done].
Qed.

(** ** A piece of a page *)

Lemma write_piece (v tip : list Z) (p q l : Z) : bytes v -> bytes tip -> 0 <= p -> 0 <= q -> 0 <= l ->
  p + l <= Z.of_nat (length v) -> q + l <= Z.of_nat (length tip) ->
  exists bs v', mem_read tip q l = Some bs /\ mem_write v p bs = Some v' /\ length v' = length v /\ bytes v' /\
    (forall k, 0 <= k < 4 * p -> state_at v' k = state_at v k) /\
    (forall k, 4 * p <= k < 4 * (p + l) -> state_at v' k = state_at tip (k - 4 * p + 4 * q)).
Proof.
  intros Hv Ht Hp Hq Hl Hpl Hql. unfold mem_read. rewrite decide_True by lia.
  set (bs := take (Z.to_nat l) (drop (Z.to_nat q) tip)). exists bs, (take (Z.to_nat p) v ++ bs ++ drop (Z.to_nat p + length bs) v).
  split; [done|].
  assert (Hbs : length bs = Z.to_nat l) by (unfold bs; rewrite length_take, length_drop; lia).
  unfold mem_write. rewrite decide_True by lia. split; [done|].
  assert (Hlt : room (take (Z.to_nat p) v) = 4 * p) by (unfold room; rewrite length_take; lia).
  split_and!.
  - rewrite !length_app, Hbs, length_take, length_drop. lia.
  - apply Forall_app. split; [by apply Forall_take|]. apply Forall_app. split; [by apply Forall_take, Forall_drop|by apply Forall_drop].
  - intros k Hk. rewrite state_at_app_l by lia. apply state_at_take. lia.
  - intros k Hk. rewrite state_at_app_r by lia. rewrite state_at_app_l by (unfold room in *; rewrite Hbs; lia).
    rewrite Hlt. unfold bs. rewrite state_at_take, state_at_drop by lia. f_equal. lia.
Qed.

(** ** The loop over the pages *)

Context (base top : Z) (Hbase : 0 <= base) (Hbase4 : base mod 4 = 0).

Definition vector_len : Z := (top + 4 - base) / 4.

(** The vector is filled up to a byte, which belongs to the start of a page. *)
Definition filled P (v : option (list Z)) (p sequence : Z) : Prop :=
  match v with
  | None => True
  | Some v =>
      Z.of_nat (length v) = vector_len /\ bytes v /\ 0 <= p /\
      base + 4 * p = Z.min (sequence * tpt) (base + 4 * vector_len) /\
      forall k, 0 <= k < 4 * p -> state_at v k = state_of tpt P (base + k)
  end.

Lemma state_of_page P s j : 0 <= j < tpt -> state_of tpt P (s * tpt + j) = state_at (page P s) j.
Proof.
  intros Hj. unfold state_of. rewrite (Z.add_comm _ j), Z.div_add, Z.mod_add by lia. by rewrite Z.div_small, Z.mod_small by lia.
Qed.

Lemma vector_len_bound : 4 * vector_len <= top + 4 - base < 4 * vector_len + 4.
Proof. unfold vector_len. pose proof (Z.div_mod (top + 4 - base) 4 ltac:(lia)). pose proof (Z.mod_pos_bound (top + 4 - base) 4 ltac:(lia)). lia. Qed.

Lemma inventory_loop_ok fuel d hi (v : option (list Z)) p sequence last : cache_ok tpt d hi -> pages_ok tpt (tip_pages d) ->
  last = top / tpt -> last < Z.of_nat (length (tip_pages d)) ->
  dbb_oldest_transaction d / tpt < sequence -> 0 < sequence <= hi -> sequence <= last + 1 -> last + 1 - sequence <= Z.of_nat fuel ->
  filled (tip_pages d) v p sequence ->
  exists v' p' d', inventory_loop tpt fuel sequence last top v p d = Ok (v', d') /\
    recached tpt d (Z.max hi (last + 1)) d' /\ filled (tip_pages d) v' p' (last + 1) /\ (is_Some v <-> is_Some v').
Proof.
  revert d hi v p sequence. induction fuel as [|fuel IH]; intros d hi v p sequence Hc HP Hlast Hl Ho Hs Hsl Hf Hfill;
    cbn [inventory_loop]; case_decide as Hd; try lia;
    try (exists v, p, d; split; [done|]; assert (sequence = last + 1) as <- by lia; split;
         [rewrite Z.max_l by lia; apply recached_refl; destruct Hc as (lo & Hc); exists lo; split; [done|]; destruct Hc as (_ & ? & ? & _); lia|done]).
  assert (Hq : 0 <= sequence < Z.of_nat (length (tip_pages d))) by lia.
  rewrite (bind_ok _ _ _ _ _ (inventory_page_eq d sequence Hq)).
  destruct (updateCache_ok tpt Htpt Halign d hi sequence Hc HP ltac:(lia) ltac:(lia)) as (d1 & He & Hr).
  rewrite (bind_ok _ _ _ _ _ He). pose proof Hr as [[c ->] Hc1%cache_live_ok].
  destruct v as [v|].
  - cbn in Hfill. destruct Hfill as (Hlen & Hby & Hp & Hpos & Hst).
    pose proof vector_len_bound as Hvl. pose proof page_len as Hpl. destruct (page_page_ok tpt _ sequence HP Hq) as [Hpg Hpby].
    assert (Hst4 : sequence * tpt mod 4 = 0).
    { rewrite <- Hpl. replace (sequence * (4 * (tpt / 4))) with (sequence * (tpt / 4) * 4) by ring. apply Z.mod_mul. lia. }
    assert (Hle : sequence * tpt <= top) by (subst last; pose proof (Z.mul_div_le top tpt ltac:(lia)); nia).
    cbv zeta. set (l := wrapU 32 (TRANS_OFFSET (Z.min (top + TRA_MASK + 1 - sequence * tpt) tpt))).
    assert (l = Z.min (vector_len - p) (tpt / 4)) as Hl'.
    { unfold l, TRA_MASK. rewrite trans_offset, wrapU_id.
      - assert (sequence * tpt = base + 4 * p) as -> by lia.
        rewrite div4_min. f_equal. unfold vector_len.
        replace (top + 3 + 1 - (base + 4 * p)) with (top + 4 - base + (- p) * 4) by lia. rewrite Z.div_add by lia. lia.
      - split; [apply Z.div_pos; lia|apply Z.div_lt_upper_bound; lia]. }
    assert (p <= vector_len) by lia.
    destruct (write_piece v (page (tip_pages d) sequence) p 0 l Hby Hpby Hp ltac:(lia) ltac:(lia) ltac:(lia) ltac:(lia))
      as (bs & v' & Hr1 & Hw & Hlen' & Hby' & Hold & Hnew).
    rewrite Hr1. run. rewrite Hw. run.
    destruct (IH (set_cache c d) (Z.max hi (sequence + 1)) (Some v') (p + l) (sequence + 1)) as (v2 & p2 & d2 & He2 & Hr2 & Hf2 & Hs2);
      try (solve [done | cbn; lia]).
    { cbn. split_and!; [congruence|done|lia|lia|]. intros k Hk. destruct (decide (k < 4 * p)) as [Hlt|Hge]; [rewrite Hold by lia; apply Hst; lia|].
      rewrite Hnew by lia. replace (base + k) with (sequence * tpt + (k - 4 * p)) by lia. rewrite state_of_page by lia. f_equal. lia. }
    exists v2, p2, d2. split; [exact He2|]. split; [|split; [exact Hf2|]].
    + replace (Z.max hi (last + 1)) with (Z.max (Z.max hi (sequence + 1)) (last + 1)) by lia. exact (recached_trans _ _ _ _ _ _ Hr Hr2).
    + split; [intros _; by apply Hs2|eauto].
  - destruct (IH (set_cache c d) (Z.max hi (sequence + 1)) None p (sequence + 1)) as (v2 & p2 & d2 & He2 & Hr2 & Hf2 & Hs2);
      try (solve [done | cbn; lia]).
    exists v2, p2, d2. split; [exact He2|]. split; [|done].
    replace (Z.max hi (last + 1)) with (Z.max (Z.max hi (sequence + 1)) (last + 1)) by lia. exact (recached_trans _ _ _ _ _ _ Hr Hr2).
Qed.

(** ** The whole function *)

Lemma TRA_get_inventory_None d hi : cache_ok tpt d hi -> pages_ok tpt (tip_pages d) ->
  top / tpt < Z.of_nat (length (tip_pages d)) ->
  dbb_oldest_transaction d / tpt <= base / tpt <= hi -> base / tpt <= top / tpt ->
  exists d', TRA_get_inventory tpt None base top d = Ok (None, d') /\ recached tpt d (Z.max hi (top / tpt + 1)) d'.
Proof.
  intros Hc HP Ht Hb Hbt. pose proof (proj2 HP) as HP31. assert (0 <= base / tpt) by (apply Z.div_pos; lia).
  unfold TRA_get_inventory. rewrite !(wrapU_id 32) by lia32.
  destruct (fetch_inventory_page_ok tpt Htpt Halign d hi (base / tpt) Hc HP Hb ltac:(lia)) as (d1 & He & Hr).
  rewrite (bind_ok _ _ _ _ _ He). run. pose proof Hr as [[c ->] Hc1%cache_live_ok].
  destruct (inventory_loop_ok (Z.to_nat (top / tpt - base / tpt)) (set_cache c d) (Z.max hi (base / tpt + 1)) None 0 (base / tpt + 1) (top / tpt))
    as (v2 & p2 & d2 & He2 & Hr2 & _ & Hs2); try (solve [done | cbn; lia]).
  destruct v2 as [v2|]; [by destruct (proj2 Hs2 ltac:(eauto))|]. exists d2. split; [exact He2|].
  replace (Z.max hi (top / tpt + 1)) with (Z.max (Z.max hi (base / tpt + 1)) (top / tpt + 1)) by lia. exact (recached_trans _ _ _ _ _ _ Hr Hr2).
Qed.

Lemma TRA_get_inventory_Some d hi (v : list Z) : cache_ok tpt d hi -> pages_ok tpt (tip_pages d) ->
  top / tpt < Z.of_nat (length (tip_pages d)) -> base <= top ->
  dbb_oldest_transaction d / tpt <= base / tpt <= hi -> Z.of_nat (length v) = vector_len -> bytes v ->
  exists v' d', TRA_get_inventory tpt (Some v) base top d = Ok (Some v', d') /\
    recached tpt d (Z.max hi (top / tpt + 1)) d' /\ length v' = length v /\ bytes v' /\
    forall n, base <= n <= top -> state_at v' (n - base) = state_of tpt (tip_pages d) n.
Proof.
  intros Hc HP Ht Hbt Hb Hlen Hby. pose proof (proj2 HP) as HP31. assert (0 <= base / tpt) by (apply Z.div_pos; lia).
  assert (Hbt' : base / tpt <= top / tpt) by (apply Z.div_le_mono; lia).
  unfold TRA_get_inventory. rewrite !(wrapU_id 32 (_ / tpt)) by lia32.
  destruct (fetch_inventory_page_ok tpt Htpt Halign d hi (base / tpt) Hc HP Hb ltac:(lia)) as (d1 & He & Hr).
  rewrite (bind_ok _ _ _ _ _ He). run. pose proof Hr as [[c ->] Hc1%cache_live_ok].
  pose proof vector_len_bound as Hvl. pose proof page_len as Hpl.
  pose proof (page_page_ok tpt _ (base / tpt) HP ltac:(lia)) as [Hpg Hpby].
  pose proof (Z.mod_pos_bound base tpt ltac:(lia)) as Hmod. pose proof (Z.div_mod base tpt ltac:(lia)) as Hdm.
  assert (Hm4 : 4 * (base mod tpt / 4) = base mod tpt).
  { pose proof (Z.div_mod (base mod tpt) 4 ltac:(lia)). rewrite <- Hpl in H0 at 2. rewrite Hpl in H0.
    assert (base mod tpt mod 4 = 0); [|lia].
    replace (base mod tpt) with (base + (- (base / tpt) * (tpt / 4)) * 4) by lia. by rewrite Z.mod_add. }
  rewrite (wrapU_id 32 (base mod tpt)) by (unfold inU; lia).
  cbv zeta. set (l := wrapU 32 (TRANS_OFFSET (Z.min (top + TRA_MASK + 1 - base) (tpt - base mod tpt)))).
  assert (l = Z.min vector_len (tpt / 4 - base mod tpt / 4)) as Hl'.
  { unfold l, TRA_MASK. rewrite trans_offset, wrapU_id.
    - rewrite div4_min. f_equal; [unfold vector_len; f_equal; lia|].
      replace (tpt - base mod tpt) with (0 + (tpt / 4 - base mod tpt / 4) * 4) by lia. rewrite Z.div_add by lia. done.
    - split; [apply Z.div_pos; lia|apply Z.div_lt_upper_bound; lia]. }
  destruct (write_piece v (page (tip_pages d) (base / tpt)) 0 (TRANS_OFFSET (base mod tpt)) l Hby Hpby) as (bs & v1 & Hr1 & Hw & Hlen1 & Hby1 & _ & Hnew);
    [lia|rewrite trans_offset; lia|lia|lia|rewrite trans_offset; lia|].
  erewrite bind_ok; [|rewrite Hr1; run; rewrite Hw; run; done]. cbv beta iota.
  destruct (inventory_loop_ok (Z.to_nat (top / tpt - base / tpt)) (set_cache c d) (Z.max hi (base / tpt + 1)) (Some v1) l (base / tpt + 1) (top / tpt))
    as (v2 & p2 & d2 & He2 & Hr2 & Hf2 & Hs2); try (solve [done | cbn; lia]).
  { cbn. split_and!; [congruence|done|lia|lia|]. intros k Hk. rewrite Hnew by lia. rewrite trans_offset, Hm4.
    replace (base + k) with (base / tpt * tpt + (k + base mod tpt)) by lia. rewrite state_of_page by lia. f_equal. lia. }
  destruct (proj1 Hs2 ltac:(eauto)) as [v3 ->]. cbn in Hf2. destruct Hf2 as (Hlen3 & Hby3 & Hp2 & Hpos & Hst).
  exists v3, d2. split; [exact He2|]. split_and!.
  - replace (Z.max hi (top / tpt + 1)) with (Z.max (Z.max hi (base / tpt + 1)) (top / tpt + 1)) by lia. exact (recached_trans _ _ _ _ _ _ Hr Hr2).
  - lia.
  - done.
  - intros n Hn. pose proof (Z.div_mod top tpt ltac:(lia)). pose proof (Z.mod_pos_bound top tpt ltac:(lia)).
    rewrite Hst by lia. f_equal. lia.
Qed.

End Inventory.
