(* ===== verification/TraState.v ===== *)
(** * Setting and finding states, for one process

    The counters, the inventory pages and the cache of a database agree: what the cache says
    of a transaction is its state on the inventory pages. [TRA_set_state] changes the state of
    one transaction, on its page and in the cache; [snapshotState] and [findStates] answer
    from the cache what is on the pages. *)

From S2P Require Import Prelude Memory Search Outcome StateMonad TraCache TraInventory TraOps.
From stdpp Require Import gmap.
#[local] Open Scope Z_scope.

Definition next_number (d : database) : Z := getNT (header d).
Definition precommits (d : database) : list Z := default [] (dbb_pc_transactions d).

(** The first number of a range that a test holds for *)
Definition is_first (p : Z -> bool) (from to : Z) (r : option Z) : Prop :=
  match r with
  | None => forall n, from <= n < to -> p n = false
  | Some m => from <= m < to /\ p m = true /\ forall n, from <= n < m -> p n = false
  end.

Lemma is_first_skip p from from' to r : from <= from' -> (forall n, from <= n < from' -> p n = false) ->
  is_first p from' to r -> is_first p from to r.
Proof.
  intros Hle Hs. destruct r as [m|]; cbn.
  - intros (Hm & Hp & Hb). split_and!; [lia|lia|done|]. intros n Hn. destruct (decide (n < from')); [apply Hs|apply Hb]; lia.
  - intros Hb n Hn. destruct (decide (n < from')); [apply Hs|apply Hb]; lia.
Qed.

(** ** Precommitted transactions *)

Lemma pc_loop_test n v i zp :
  match pc_loop n i v zp with
  | inl j => 0 <= j - i /\ v @ (j - i) = Some n
  | inr _ => n ∉ v
  end.
Proof.
  revert i zp. induction v as [|p v IH]; intros i zp; cbn; [by apply not_elem_of_nil|]. case_decide as Hp.
  - subst p. rewrite Z.sub_diag. split; [lia|done].
  - match goal with |- context [pc_loop n (i + 1) v ?z] => specialize (IH (i + 1) z); destruct (pc_loop n (i + 1) v z) end.
    + destruct IH as [Hj Ha]. split; [lia|]. rewrite aget_nonneg in * by lia.
      replace (Z.to_nat (z - i)) with (S (Z.to_nat (z - (i + 1)))) by lia. done.
    + rewrite not_elem_of_cons. split; [congruence|done].
Qed.

Lemma precommit_test n d : n <> 0 -> TRA_precommited n n d = Ok (bool_decide (n ∈ precommits d), d).
Proof.
  intros Hn. unfold TRA_precommited, precommits. run. destruct (dbb_pc_transactions d) as [v|] eqn:Hv.
  2:{ rewrite decide_True by done. cbn. by rewrite bool_decide_eq_false_2 by apply not_elem_of_nil. }
  pose proof (pc_loop_test n v 0 None) as H. destruct (pc_loop n 0 v None) as [j|zp]; cbn.
  - rewrite Z.sub_0_r in H. destruct H as [Hj Ha]. pose proof Ha as [_ Hl]%aget_Some. run. unfold ret. do 2 f_equal.
    + rewrite !bool_decide_eq_true_2; [done|by eapply list_elem_of_lookup_2|done].
    + rewrite aset_in by (apply aget_lt_Some in Ha; lia). rewrite list_insert_id by done. destruct d; cbn in *. by rewrite Hv.
  - rewrite decide_True by auto. cbn. by rewrite bool_decide_eq_false_2.
Qed.

Lemma precommitted_eq n d : precommitted n d = Ok (bool_decide (n <> 0 /\ n ∈ precommits d), d).
Proof.
  unfold precommitted. case_decide as Hn.
  - rewrite precommit_test by done. do 2 f_equal. apply bool_decide_ext. tauto.
  - cbn. rewrite bool_decide_eq_false_2 by tauto. done.
Qed.

Section Tpc.
Context (tpt : Z) (Htpt : 0 < tpt < 2 ^ 18) (Halign : tpt mod 4 = 0).
Implicit Types (P : list (list Z)) (d : database).

(** The pages and the counters, on the header page and in memory *)
Record counters_ok d : Prop := {
  co_pages : pages_ok tpt (tip_pages d);
  co_header : header_ok (header d);
  co_length : Z.of_nat (length (tip_pages d)) = next_number d / tpt + 1;
  co_number : 0 <= next_number d < MAX_TRA_NUMBER;
  co_next : dbb_next_transaction d = next_number d;
  co_write : dbb_read_only d = false;
  co_oldest : 1 <= getOIT (header d) <= dbb_oldest_transaction d /\ dbb_oldest_transaction d <= Z.max 1 (next_number d);
  co_active : 0 <= getOAT (header d) <= dbb_oldest_active d /\ dbb_oldest_active d <= next_number d;
  co_snapshot : 0 <= getOST (header d) <= dbb_oldest_snapshot d /\ dbb_oldest_snapshot d <= next_number d;
  co_order : getOST (header d) <= getOAT (header d) /\ dbb_oldest_snapshot d <= dbb_oldest_active d;
  co_committed n : 1 <= n < dbb_oldest_transaction d -> state_of tpt (tip_pages d) n = tra_committed;
  co_no_active n : 1 <= n < dbb_oldest_active d -> state_of tpt (tip_pages d) n <> tra_active;
  co_free n : next_number d < n < Z.of_nat (length (tip_pages d)) * tpt -> state_of tpt (tip_pages d) n = tra_active
}.

Lemma counters_ok_cache v d : counters_ok d -> counters_ok (set_cache v d).
Proof. intros []. by split. Qed.

Lemma recached_counters d hi d' : counters_ok d -> recached tpt d hi d' -> counters_ok d'.
Proof. intros H [[v ->] _]. by apply counters_ok_cache. Qed.

(** The cache reaches up to the last page, or up to the one before. *)
Definition cached d : Prop := exists hi, cache_live tpt d hi /\ next_number d / tpt <= hi.
(** It may be empty before the first transaction. *)
Definition cache_fresh d : Prop := m_cache d = [] /\ getOIT (header d) = dbb_oldest_transaction d.

Lemma number_page d n : counters_ok d -> 0 <= n <= next_number d -> 0 <= n / tpt < Z.of_nat (length (tip_pages d)).
Proof.
  intros H Hn. rewrite (co_length _ H). split; [apply Z.div_pos; lia|]. pose proof (Z.div_le_mono n (next_number d) tpt ltac:(lia) ltac:(lia)). lia.
Qed.

Lemma oldest_page d n : counters_ok d -> 0 <= n -> state_of tpt (tip_pages d) n = tra_active -> n <> 0 ->
  dbb_oldest_transaction d / tpt <= n / tpt.
Proof.
  intros H Hn Hs H0. apply Z.div_le_mono; [lia|]. destruct (Z.le_gt_cases (dbb_oldest_transaction d) n) as [|Hlt]; [done|].
  rewrite (co_committed _ H) in Hs by lia. done.
Qed.

Lemma below_front d lo hi n : counters_ok d -> covers tpt d lo hi -> 1 <= n < lo * tpt ->
  n < dbb_oldest_transaction d /\ state_of tpt (tip_pages d) n = tra_committed.
Proof.
  intros H (_ & Hlh & Hlo & _) Hn. assert (n < dbb_oldest_transaction d).
  { pose proof (Z.mul_div_le (dbb_oldest_transaction d) tpt ltac:(lia)). nia. }
  split; [done|]. apply (co_committed _ H). lia.
Qed.

(** ** Filling the cache *)

Lemma view_drop_older P h lo hi : lo <= hi -> exists lo', lo <= lo' <= hi /\ lo' <= Z.max lo (h / tpt) /\
  drop_pages (fun base => bool_decide (base + tpt < h)) (view tpt P lo hi) = view tpt P lo' hi.
Proof.
  intros Hlh. remember (Z.to_nat (hi - lo)) as n eqn:Hn. revert lo Hlh Hn. induction n as [|n IH]; intros lo Hlh Hn.
  - exists lo. split; [lia|]. split; [lia|]. by rewrite !view_nil by lia.
  - rewrite view_cons by lia. cbn [drop_pages tpc_base]. case_bool_decide as Hc.
    + destruct (IH (lo + 1)) as (lo' & H1 & H2 & H3); [lia|lia|]. exists lo'. split_and!; [lia|lia| |done].
      assert (lo + 1 <= h / tpt) by (apply Z.div_le_lower_bound; lia). lia.
    + exists lo. split_and!; [lia|lia|lia|]. by rewrite <- view_cons by lia.
Qed.

Lemma cacheTransactions_ok d hi oldest : counters_ok d -> cache_ok tpt d hi ->
  let base := Z.max oldest (getOIT (header d)) in
  dbb_oldest_transaction d / tpt <= base / tpt <= hi -> base / tpt <= next_number d / tpt ->
  exists d', cacheTransactions tpt oldest d = Ok (getOIT (header d), d') /\ recached tpt d (next_number d / tpt + 1) d'.
Proof.
  intros H Hc base Hb Hbt. pose proof (co_oldest _ H) as Hoit. pose proof (co_length _ H) as Hlen. pose proof (co_number _ H) as Hnum.
  assert (Hhi : hi <= next_number d / tpt + 1) by (destruct Hc as (lo & _ & _ & _ & Hh); lia).
  assert (Ho : dbb_oldest_transaction d / tpt <= next_number d / tpt) by lia.
  unfold cacheTransactions. run.
  destruct (TRA_get_inventory_None tpt Htpt Halign base (next_number d) ltac:(lia) d hi Hc (co_pages _ H) ltac:(lia) Hb Hbt) as (d1 & He & Hr).
  rewrite (bind_ok _ _ _ _ _ He). run. rewrite Z.max_r in Hr by lia. destruct Hr as [[v ->] (lo & Hcv & Hl)].
  pose proof Hcv as (Hv & Hlh & Hlo & Hh). cbn in Hlo, Hh, Hv. subst v.
  destruct (view_drop_older (tip_pages d) (getOIT (header d)) lo (next_number d / tpt + 1)) as (lo' & Hl1 & Hl2 & Hl3); [lia|].
  assert (getOIT (header d) / tpt <= dbb_oldest_transaction d / tpt) by (apply Z.div_le_mono; lia).
  eexists. split; [reflexivity|]. split; [by eexists|]. exists lo'. split; [|lia]. split; [exact Hl3|]. cbn. lia.
Qed.

Lemma fresh_cache d : counters_ok d -> cache_fresh d -> 1 <= next_number d -> cache_ok tpt d (dbb_oldest_transaction d / tpt).
Proof.
  intros H [Hc He] Hn. pose proof (co_oldest _ H) as Ho. assert (0 <= dbb_oldest_transaction d / tpt) by (apply Z.div_pos; lia).
  pose proof (number_page d (dbb_oldest_transaction d) H ltac:(lia)). exists (dbb_oldest_transaction d / tpt).
  split; [by rewrite view_nil by lia|]. lia.
Qed.

Lemma initializeTpc_ok d : counters_ok d -> 1 <= next_number d -> cache_fresh d \/ cached d ->
  exists d', initializeTpc tpt (next_number d) d = Ok (tt, d') /\ recached tpt d (next_number d / tpt + 1) d'.
Proof.
  intros H Hn Hc. pose proof (co_oldest _ H) as Hoit.
  assert (Ho : dbb_oldest_transaction d / tpt <= next_number d / tpt) by (apply Z.div_le_mono; lia).
  unfold initializeTpc. run. destruct Hc as [Hf|(hi & (lo & Hcv & Hl) & Hn2)].
  - pose proof (fresh_cache d H Hf Hn) as Hc. destruct Hf as [-> He].
    destruct (cacheTransactions_ok d _ 0 H Hc) as (d' & Hct & Hr); [rewrite Z.max_r by lia; rewrite He; lia|rewrite Z.max_r by lia; rewrite He; lia|].
    rewrite (bind_ok _ _ _ _ _ Hct). by exists d'.
  - pose proof Hcv as (Hv & Hlh & Hlo & Hh). rewrite (co_length _ H) in Hh.
    rewrite Hv, view_cons by lia. rewrite (bind_ok _ _ _ _ _ (cache_back_eq tpt d lo hi Hcv Hl)). cbn [tpc_base].
    case_decide as Hd.
    + exists d. split; [done|]. assert (hi = next_number d / tpt + 1) as <-.
      { assert (next_number d / tpt < hi) by (apply Z.div_lt_upper_bound; lia). lia. }
      apply recached_refl. by exists lo.
    + assert (hi = next_number d / tpt) as Hhi.
      { assert (hi <= next_number d / tpt) by (apply Z.div_le_lower_bound; lia). lia. }
      pose proof (Z.mul_div_le (next_number d) tpt ltac:(lia)). pose proof (co_number _ H).
      rewrite decide_True by lia. replace ((hi - 1) * tpt + tpt) with (hi * tpt) by lia.
      assert (Z.max (hi * tpt) (getOIT (header d)) / tpt = hi) as Hmax.
      { assert (hi * tpt / tpt = hi) by (apply Z.div_mul; lia). assert (getOIT (header d) / tpt <= hi) by (rewrite Hhi; apply Z.div_le_mono; lia).
        destruct (Z.le_ge_cases (hi * tpt) (getOIT (header d))) as [Hle|Hge].
        - rewrite Z.max_r by lia. pose proof (Z.div_le_mono _ _ tpt ltac:(lia) Hle). lia.
        - by rewrite Z.max_l by lia. }
      destruct (cacheTransactions_ok d hi (hi * tpt) H) as (d' & Hct & Hr); [by exists lo|rewrite Hmax; lia|rewrite Hmax; lia|].
      rewrite (bind_ok _ _ _ _ _ Hct). by exists d'.
Qed.

End Tpc.

Section State.
Context (tpt : Z) (Htpt : 0 < tpt < 2 ^ 18) (Halign : tpt mod 4 = 0).
Implicit Types (P : list (list Z)) (d : database).

Lemma number_split n : 0 <= n -> n = n / tpt * tpt + n mod tpt /\ 0 <= n mod tpt < tpt /\ 0 <= n / tpt.
Proof.
  intros Hn. pose proof (Z.div_mod n tpt ltac:(lia)). pose proof (Z.mod_pos_bound n tpt ltac:(lia)).
  split_and!; try lia. apply Z.div_pos; lia.
Qed.

Lemma mod_align n : n mod tpt mod 4 = n mod 4.
Proof.
  pose proof (Z.div_mod n tpt ltac:(lia)). pose proof (page_len tpt Halign).
  replace n with (n mod tpt + (n / tpt * (tpt / 4)) * 4) at 2 by lia. by rewrite Z.mod_add.
Qed.

Lemma page_base n : n - n mod tpt = n / tpt * tpt.
Proof. pose proof (Z.div_mod n tpt ltac:(lia)). lia. Qed.

Lemma offset_32 n : 0 <= n -> wrapU 32 (TRANS_OFFSET (n mod tpt)) = TRANS_OFFSET (n mod tpt).
Proof.
  intros Hn. destruct (number_split n Hn) as (_ & H & _). rewrite trans_offset. apply wrapU_id.
  split; [apply Z.div_pos; lia|apply Z.div_lt_upper_bound; lia].
Qed.

Lemma page_room P s : pages_ok tpt P -> 0 <= s < Z.of_nat (length P) -> room (page P s) = tpt.
Proof. intros HP Hs. by destruct (page_page_ok tpt P s HP Hs) as [H _]. Qed.

(** ** One state on the pages *)

Definition put_page P (s : Z) (p : list Z) : list (list Z) := <[Z.to_nat s := p]> P.

Lemma page_put P s p s' : 0 <= s < Z.of_nat (length P) -> 0 <= s' ->
  page (put_page P s p) s' = if decide (s' = s) then p else page P s'.
Proof.
  intros Hs Hs'. unfold page, put_page. case_decide as H.
  - subst s'. by rewrite list_lookup_total_insert, decide_True by lia.
  - by rewrite list_lookup_total_insert_ne by lia.
Qed.

(** The pages differ in the state of one transaction. *)
Definition changed P (n s : Z) P' : Prop :=
  length P' = length P /\ pages_ok tpt P' /\
  forall m, 0 <= m -> state_of tpt P' m = if decide (m = n) then s else state_of tpt P m.

Lemma put_page_changed P n s : pages_ok tpt P -> 0 <= n -> n / tpt < Z.of_nat (length P) -> 0 <= s <= 3 ->
  exists p, put_state (page P (n / tpt)) (wrapU 32 (TRANS_OFFSET (n mod tpt))) (TRANS_SHIFT n) s = Some p /\
    changed P n s (put_page P (n / tpt) p).
Proof.
  intros HP Hn Hl Hs. destruct (number_split n Hn) as (Hsp & Hm & Hq). pose proof (page_room P (n / tpt) HP ltac:(lia)) as Hr.
  destruct (page_page_ok tpt P (n / tpt) HP ltac:(lia)) as [Hpl Hby].
  destruct (put_state_at (page P (n / tpt)) (n mod tpt) n s Hby) as (p & Hp & Hpby & Hplen & Hst); [lia|apply mod_align|done|].
  exists p. rewrite offset_32 by done. split; [done|]. split; [by unfold put_page; rewrite length_insert|]. split.
  - destruct HP as [HP Hlen]. split; [|unfold put_page; by rewrite length_insert].
    apply Forall_insert; [done|]. split; [lia|done].
  - intros m Hm0. unfold state_of. destruct (number_split m Hm0) as (Hsp' & Hm' & Hq'). rewrite page_put by lia.
    case_decide as He.
    + rewrite Hst by lia. destruct (decide (m = n)) as [->|Hne]; [by rewrite decide_True|]. rewrite decide_False, He; [done|].
      intros Hmod. apply Hne. rewrite Hsp, Hsp'. congruence.
    + rewrite (decide_False (P := m = n)); [done|]. by intros ->.
Qed.

(** The pages, and the cache, have changed in one state; nothing else has, apart from what is cached. *)
Definition stated d (n s hi : Z) d' : Prop :=
  (exists v P', d' = set_cache v (set_tip_pages P' d) /\ changed (tip_pages d) n s P') /\ cache_live tpt d' hi.

Lemma setState_eq d lo hi P' n s p : 0 <= n ->
  m_cache d = view tpt (tip_pages d) lo hi -> 0 <= lo <= n / tpt -> n / tpt < hi -> hi <= Z.of_nat (length (tip_pages d)) ->
  pages_ok tpt (tip_pages d) ->
  lo <= dbb_oldest_transaction d / tpt ->
  put_state (page (tip_pages d) (n / tpt)) (wrapU 32 (TRANS_OFFSET (n mod tpt))) (TRANS_SHIFT n) s = Some p ->
  P' = put_page (tip_pages d) (n / tpt) p ->
  setState tpt n s (set_tip_pages P' d) = Ok (tt, set_cache (view tpt P' lo hi) (set_tip_pages P' d)).
Proof.
  intros Hn Hv Hlo Hhi Hlen HP Ho Hp ->. unfold setState. rewrite page_base.
  unfold cache_find at 1. rewrite (bind_ok _ _ _ (Z.max 0 (Z.min (n / tpt - lo) (hi - lo)), bool_decide (lo <= n / tpt < hi)) (set_tip_pages (put_page (tip_pages d) (n / tpt) p) d)).
  2:{ run. cbn [m_cache set_tip_pages]. rewrite (view_find tpt Htpt (tip_pages d) lo hi) by (done || (destruct HP; lia)). done. }
  rewrite bool_decide_eq_true_2 by lia. rewrite Z.max_r, Z.min_l by lia. cbv beta iota.
  assert (Hvl : view tpt (tip_pages d) lo hi !! Z.to_nat (n / tpt - lo) = Some (MkTxPage (n / tpt * tpt) (page (tip_pages d) (n / tpt)))).
  { rewrite view_lookup by lia. by replace (lo + Z.of_nat (Z.to_nat (n / tpt - lo))) with (n / tpt) by lia. }
  rewrite (bind_ok _ _ _ (MkTxPage (n / tpt * tpt) (page (tip_pages d) (n / tpt))) (set_tip_pages (put_page (tip_pages d) (n / tpt) p) d)).
  2:{ unfold cache_at. run. cbn [m_cache set_tip_pages]. by rewrite Hv, aget_nonneg, Hvl by lia. }
  cbn [tpc_transactions tpc_base]. rewrite Hp. run. cbn [m_cache set_tip_pages]. rewrite Hv.
  rewrite aset_in by (rewrite view_length by lia; lia). run. unfold modify. do 3 f_equal.
  apply list_eq. intros i. destruct (decide (i < Z.to_nat (hi - lo))%nat) as [Hi|Hi].
  - rewrite view_lookup by done. destruct (decide (i = Z.to_nat (n / tpt - lo))) as [->|Hne].
    + rewrite list_lookup_insert_eq by (rewrite view_length by lia; lia). rewrite page_put by lia.
      replace (lo + Z.of_nat (Z.to_nat (n / tpt - lo))) with (n / tpt) by lia. by rewrite decide_True.
    + rewrite list_lookup_insert_ne, view_lookup by done. rewrite page_put by lia. by rewrite decide_False by lia.
  - rewrite !lookup_ge_None_2; [done|rewrite view_length by lia; lia|rewrite length_insert, view_length by lia; lia].
Qed.

Lemma TRA_set_state_ok d hi t n s : counters_ok tpt d -> cache_ok tpt d hi -> 0 <= n -> 0 <= s <= 3 ->
  dbb_oldest_transaction d / tpt <= n / tpt <= hi -> n / tpt < Z.of_nat (length (tip_pages d)) ->
  match t with Some t => tra_number t = n -> flag t TRA_precommitted_flag = false | None => True end ->
  exists d', TRA_set_state tpt t n s d = Ok (tt, d') /\ stated d n s (Z.max hi (n / tpt + 1)) d'.
Proof.
  intros H Hc Hn Hs Ho Hl Ht. pose proof (co_pages _ _ H) as HP. pose proof (number_split n Hn) as (_ & _ & Hq).
  pose proof (proj2 HP) as H31. unfold TRA_set_state.
  assert (match t with Some t => bool_decide (tra_number t = n) && flag t TRA_precommitted_flag | None => false end = false) as ->.
  { destruct t as [t|]; [|done]. case_bool_decide; [|done]. by rewrite Ht. }
  run. rewrite (co_write _ _ H). rewrite (wrapU_id 32 (n / tpt)) by lia32.
  destruct (fetch_inventory_page_ok tpt Htpt Halign d hi (n / tpt) Hc HP Ho ltac:(lia)) as (d1 & He & Hr).
  rewrite (bind_ok _ _ _ _ _ He). destruct (put_page_changed (tip_pages d) n s HP Hn Hl Hs) as (p & Hp & Hch).
  rewrite Hp. run. destruct Hr as [[v ->] (lo & Hcv & Hll)]. pose proof Hcv as (Hv & Hlh & Hlo & Hh). cbn in Hv, Hlo, Hh.
  change (<[Z.to_nat (n / tpt) := p]> (tip_pages (set_cache v d))) with (put_page (tip_pages d) (n / tpt) p).
  rewrite (setState_eq (set_cache v d) lo (Z.max hi (n / tpt + 1)) (put_page (tip_pages d) (n / tpt) p) n s p); try done; try lia.
  eexists. split; [reflexivity|]. split; [by eexists _, _|].
  exists lo. split; [|done]. split; [done|]. cbn. destruct Hch as (-> & _). lia.
Qed.

(** ** The state that the cache answers *)

Lemma cached_state_ok d lo hi n : counters_ok tpt d -> covers tpt d lo hi -> 0 <= n ->
  cached_state tpt n d = Ok (if decide (lo <= n / tpt < hi) then Some (state_of tpt (tip_pages d) n) else None, d).
Proof.
  intros H Hc Hn. pose proof Hc as (_ & Hlh & _ & Hh). destruct (number_split n Hn) as (Hsp & Hm & Hq). unfold cached_state.
  rewrite page_base. rewrite (bind_ok _ _ _ _ _ (cache_find_eq tpt Htpt d lo hi (n / tpt) Hc (co_pages _ _ H))). cbv beta iota.
  case_bool_decide as Hd; [|by rewrite decide_False].
  rewrite (decide_True (P := lo <= n / tpt < hi)) by done. rewrite Z.max_r, Z.min_l by lia.
  rewrite (bind_ok _ _ _ _ _ (cache_at_eq tpt d lo hi (n / tpt) Hc Hd)). cbn [tpc_transactions tpc_base].
  assert (n / tpt * tpt mod 4 = 0) as Hal.
  { pose proof (page_len tpt Halign). replace (n / tpt * tpt) with (n / tpt * (tpt / 4) * 4) by lia. apply Z.mod_mul. lia. }
  pose proof (page_room _ (n / tpt) (co_pages _ _ H) ltac:(lia)) as Hr.
  rewrite TRA_state_at; rewrite ?Hal, ?Z.sub_0_r; [|lia|lia]. run. unfold ret. do 4 f_equal.
  unfold state_of. f_equal. lia.
Qed.

(** What a transaction that reads the latest states learns *)
Definition latest_state d (n : Z) : Z :=
  if decide (n <> 0 /\ n ∈ precommits d) then tra_precommitted
  else if decide (n = 0) then tra_committed else state_of tpt (tip_pages d) n.

Lemma TRA_fetch_state_ok d n : counters_ok tpt d -> cached tpt d -> dbb_oldest_transaction d <= n <= next_number d ->
  exists v, TRA_fetch_state tpt n d = Ok (state_of tpt (tip_pages d) n, set_cache v d) /\ cached tpt (set_cache v d).
Proof.
  intros H (hi & Hl & Hhi) Hn. pose proof (co_oldest _ _ H) as Ho. pose proof (number_page tpt Htpt d n H ltac:(lia)) as Hpg.
  pose proof (proj2 (co_pages _ _ H)) as H31. pose proof (Z.div_le_mono (dbb_oldest_transaction d) n tpt ltac:(lia) ltac:(lia)).
  pose proof (Z.div_le_mono n (next_number d) tpt ltac:(lia) ltac:(lia)).
  destruct (fetch_inventory_page_ok tpt Htpt Halign d hi (n / tpt) (cache_live_ok _ _ _ Hl) (co_pages _ _ H) ltac:(lia) Hpg) as (d1 & He & [v ->] & Hl1).
  destruct (number_split n ltac:(lia)) as (_ & Hm & _). exists v. split.
  - unfold TRA_fetch_state. rewrite (wrapU_id 32 (n / tpt)) by lia32. rewrite (bind_ok _ _ _ _ _ He), offset_32 by lia.
    rewrite (get_state_at _ (n mod tpt) n); [done|by rewrite (page_room _ (n / tpt) (co_pages _ _ H)) by lia|apply mod_align].
  - exists (Z.max hi (n / tpt + 1)). split; [done|]. change (next_number (set_cache v d)) with (next_number d). lia.
Qed.

(** The answer is the state on the pages, also for an active transaction whose lock is gone. *)
Lemma snapshotState_ok d n : counters_ok tpt d -> cached tpt d -> (1 <= n -> state_of tpt (tip_pages d) n <> tra_limbo) -> 0 <= n <= next_number d ->
  exists d', snapshotState tpt n d = Ok (latest_state d n, d') /\ (exists v, d' = set_cache v d) /\ cached tpt d'.
Proof.
  intros H Hc Hlimbo Hn. pose proof Hc as (hi & (lo & Hcv & Hl) & Hhi). pose proof Hcv as (Hv & Hlh & Hlo & Hh).
  assert (Hid : exists v, d = set_cache v d) by (exists (m_cache d); by destruct d).
  unfold snapshotState, latest_state. rewrite (bind_ok _ _ _ _ _ (precommitted_eq n d)). cbv beta iota.
  case_bool_decide as Hpc. { rewrite decide_True by done. by exists d. }
  rewrite (decide_False (P := n <> 0 /\ _)) by done. run. rewrite Hv, view_cons by lia. run.
  rewrite (bind_ok _ _ _ _ _ (cache_front_eq tpt d lo hi Hcv Hl)). cbn [tpc_base].
  case_decide as Hb.
  { exists d. split; [|done]. unfold ret. do 2 f_equal. case_decide; [done|].
    by destruct (below_front tpt Htpt d lo hi n H Hcv) as [_ ->]; [lia|]. }
  assert (n <> 0) as H0 by tauto. rewrite decide_False by done.
  rewrite (bind_ok _ _ _ _ _ (cached_state_ok d lo hi n H Hcv ltac:(lia))). cbv beta iota.
  destruct (number_split n ltac:(lia)) as (Hsp & Hm & Hq).
  assert (lo <= n / tpt) by (apply Z.div_le_lower_bound; lia).
  case_decide as Hin.
  - case_decide as Hst; [by exists d|]. specialize (Hlimbo ltac:(lia)). pose proof (state_at_range (page (tip_pages d) (n / tpt)) (n mod tpt)) as Hr.
    change (0 <= state_of tpt (tip_pages d) n <= 3) in Hr.
    assert (state_of tpt (tip_pages d) n = tra_active) as Ha by (unfold tra_limbo, tra_committed, tra_dead, tra_active in *; lia).
    unfold transaction_locked. run. case_bool_decide as Hlk; [by exists d; rewrite Ha|].
    destruct (TRA_fetch_state_ok d n H Hc) as (v & He & Hc1).
    { split; [|lia]. destruct (Z.le_gt_cases (dbb_oldest_transaction d) n); [done|]. rewrite (co_committed _ _ H) in Ha by lia. done. }
    exists (set_cache v d). eauto.
  - assert (hi <= n / tpt) by lia. assert (hi = next_number d / tpt) as Hhi'.
    { pose proof (Z.div_le_mono n (next_number d) tpt ltac:(lia) ltac:(lia)). lia. }
    unfold extendCache. rewrite (bind_ok _ _ _ _ _ (cache_back_eq tpt d lo hi Hcv Hl)). cbn [tpc_base].
    pose proof (co_number _ _ H). pose proof (co_oldest _ _ H). pose proof (Z.mul_div_le (next_number d) tpt ltac:(lia)).
    rewrite decide_True by lia. replace ((hi - 1) * tpt + tpt) with (hi * tpt) by lia.
    assert (1 <= next_number d) by lia.
    assert (getOIT (header d) / tpt <= hi) by (rewrite Hhi'; apply Z.div_le_mono; lia).
    assert (Z.max (hi * tpt) (getOIT (header d)) / tpt = hi) as Hmax.
    { assert (hi * tpt / tpt = hi) by (apply Z.div_mul; lia).
      destruct (Z.le_ge_cases (hi * tpt) (getOIT (header d))) as [Hle|Hge].
      - rewrite Z.max_r by lia. pose proof (Z.div_le_mono _ _ tpt ltac:(lia) Hle). lia.
      - by rewrite Z.max_l by lia. }
    assert (dbb_oldest_transaction d / tpt <= hi) by (rewrite Hhi'; apply Z.div_le_mono; lia).
    destruct (cacheTransactions_ok tpt Htpt Halign d hi (hi * tpt) H) as (d' & Hct & Hr); [by exists lo|rewrite Hmax; lia|rewrite Hmax; lia|].
    erewrite bind_ok by (rewrite (bind_ok _ _ _ _ _ Hct); reflexivity). cbv beta iota.
    pose proof (recached_counters _ _ _ _ H Hr) as H'. destruct Hr as [[v ->] (lo' & Hcv' & Hl')].
    assert (cached tpt (set_cache v d)) by (exists (next_number d / tpt + 1); split; [by exists lo'|unfold next_number; cbn; lia]).
    case_bool_decide as Hlt.
    + exists (set_cache v d). split; [|eauto]. unfold ret. do 2 f_equal. symmetry. apply (co_committed _ _ H). lia.
    + pose proof Hcv' as (_ & ? & ? & _). cbn in *. pose proof (Z.div_le_mono n (next_number d) tpt ltac:(lia) ltac:(lia)).
      rewrite (bind_ok _ _ _ _ _ (cached_state_ok (set_cache v d) lo' _ n H' Hcv' ltac:(lia))). cbv beta iota.
      rewrite decide_True by lia. exists (set_cache v d). split; [done|eauto].
Qed.

(** ** Looking for a state *)

Definition state_test d (mask n : Z) : bool := check_state (state_of tpt (tip_pages d) n) mask.

Lemma find_in_page_ok d fuel s maxNumber mask number : counters_ok tpt d -> 0 <= s < Z.of_nat (length (tip_pages d)) ->
  s * tpt <= number <= maxNumber -> number <= (s + 1) * tpt -> maxNumber - number <= Z.of_nat fuel ->
  exists r, find_in_page tpt fuel (MkTxPage (s * tpt) (page (tip_pages d) s)) maxNumber mask false number d = Ok (r, d) /\
    match r with
    | inl n => n = Z.min ((s + 1) * tpt) maxNumber /\ forall m, number <= m < n -> state_test d mask m = false
    | inr (n, state) => is_first (state_test d mask) number maxNumber (Some n) /\ state = state_of tpt (tip_pages d) n
    end.
Proof.
  intros H Hs. revert number. induction fuel as [|fuel IH]; intros number Hn Hn2 Hf; cbn [find_in_page tpc_base]; case_decide as Hd;
    try (exists (inl number); split; [done|split; [lia|intros; lia]]); [lia|].
  run. cbn [tpc_transactions]. assert (s * tpt mod 4 = 0) as Hal.
  { pose proof (page_len tpt Halign). replace (s * tpt) with (s * (tpt / 4) * 4) by lia. apply Z.mod_mul. lia. }
  pose proof (page_room _ s (co_pages _ _ H) Hs) as Hr.
  assert (state_of tpt (tip_pages d) number = state_at (page (tip_pages d) s) (number - s * tpt)) as Hst.
  { replace number with (s * tpt + (number - s * tpt)) at 1 by lia. apply state_of_page; lia. }
  rewrite TRA_state_at; rewrite ?Hal, ?Z.sub_0_r; [|lia|lia]. run. rewrite <- Hst. destruct (check_state _ mask) eqn:Hc.
  - exists (inr (number, state_of tpt (tip_pages d) number)). split; [done|]. split; [|done]. split_and!; [lia|lia|done|intros; lia].
  - destruct (IH (number + 1)) as (r & He & Hres); [lia|lia|lia|]. exists r. split; [done|].
    assert (Hs1 : forall m, number <= m < number + 1 -> state_test d mask m = false).
    { intros m Hm. by replace m with number by lia. }
    destruct r as [n|[n state]].
    + destruct Hres as [Hn' Hb]. split; [done|]. intros m Hm. destruct (decide (m < number + 1)); [apply Hs1|apply Hb]; lia.
    + destruct Hres as [Hfi ->]. split; [|done]. by apply (is_first_skip _ _ (number + 1)); [lia| |].
Qed.

Lemma find_in_pages_ok d hi maxNumber mask s number : counters_ok tpt d -> hi <= Z.of_nat (length (tip_pages d)) ->
  0 <= s <= hi -> number = maxNumber \/ s * tpt <= number < (s + 1) * tpt -> number <= maxNumber -> maxNumber <= hi * tpt ->
  exists r, find_in_pages tpt (view tpt (tip_pages d) s hi) maxNumber mask false number d = Ok (r, d) /\
    is_first (state_test d mask) number maxNumber (fst <$> r) /\
    match r with Some (n, state) => state = state_of tpt (tip_pages d) n | None => True end.
Proof.
  intros H Hh. remember (Z.to_nat (hi - s)) as k eqn:Hk. revert s number Hk. induction k as [|k IH]; intros s number Hk Hs Hn Hm Hmx.
  - rewrite view_nil by lia. exists None. split; [done|]. split; [|done]. intros n Hn'. assert (s = hi) by lia. nia.
  - rewrite view_cons by lia. cbn [find_in_pages]. case_decide as Hd.
    2:{ exists None. split; [done|]. split; [|done]. intros n Hn'. lia. }
    destruct (find_in_page_ok d (Z.to_nat (maxNumber - number)) s maxNumber mask number H ltac:(lia)) as (r & He & Hres); [lia|lia|lia|].
    rewrite (bind_ok _ _ _ _ _ He). destruct r as [n|[n state]].
    + destruct Hres as [-> Hb]. destruct (IH (s + 1) (Z.min ((s + 1) * tpt) maxNumber)) as (r & He2 & Hf & Hst); [lia|lia|lia|lia|lia|].
      exists r. split; [done|]. split; [|done]. by apply (is_first_skip _ _ (Z.min ((s + 1) * tpt) maxNumber)); [lia| |].
    + destruct Hres as [Hf ->]. by exists (Some (n, state_of tpt (tip_pages d) n)).
Qed.

Lemma findStates_ok d minNumber mask : counters_ok tpt d -> cache_fresh d \/ cached tpt d -> 1 <= minNumber <= next_number d ->
  check_state tra_committed mask = false -> check_state tra_precommitted mask = false ->
  exists r d', findStates tpt minNumber (next_number d) mask d = Ok ((default 0 r, state_of tpt (tip_pages d) <$> r), d') /\
    is_first (state_test d mask) minNumber (next_number d) r /\ recached tpt d (next_number d / tpt + 1) d'.
Proof.
  intros H Hc Hmin Hmc Hmp. set (N := next_number d) in *.
  destruct (initializeTpc_ok tpt Htpt Halign d H ltac:(lia) Hc) as (d1 & He & Hr). fold N in He, Hr.
  pose proof (recached_counters _ _ _ _ H Hr) as H1. pose proof Hr as [[v Hd1] (lo & Hcv & Hl)].
  assert (Htip : tip_pages d1 = tip_pages d) by (by subst d1).
  unfold findStates. rewrite (bind_ok _ _ _ _ _ He), (bind_ok _ _ _ _ _ (cache_front_eq tpt d1 lo _ Hcv Hl)). cbn [tpc_base].
  pose proof Hcv as (Hv & Hlh & Hlo & Hh). pose proof (co_oldest _ _ H1) as Ho. assert (next_number d1 = N) as HN by (by subst d1).
  rewrite HN in Ho. assert (lo <= N / tpt) by (etrans; [exact Hlo|]; apply Z.div_le_mono; lia).
  pose proof (Z.mul_div_le N tpt ltac:(lia)). assert (lo * tpt <= N) by nia. rewrite decide_False by lia.
  rewrite Hmc, andb_false_r, Hmp. cbv zeta. cbn [andb]. rewrite (bool_decide_eq_false_2 (minNumber = 0)) by lia. rewrite orb_false_r.
  set (m := if bool_decide (minNumber < lo * tpt) then lo * tpt else minNumber).
  assert (Hm : m = Z.max minNumber (lo * tpt)) by (unfold m; case_bool_decide; lia).
  run. destruct (number_split m ltac:(lia)) as (Hsp & Hmod & Hq).
  pose proof (number_split N ltac:(lia)) as (HspN & HmodN & HqN).
  assert (Hmp2 : lo <= m / tpt <= N / tpt).
  { split; [apply Z.div_le_lower_bound; lia|apply Z.div_le_mono; lia]. }
  rewrite page_base, (bind_ok _ _ _ _ _ (cache_find_eq tpt Htpt d1 lo _ (m / tpt) Hcv (co_pages _ _ H1))). cbv beta iota.
  rewrite bool_decide_eq_true_2 by lia. rewrite Z.max_r, Z.min_l by lia. run. rewrite Hv.
  assert (drop (Z.to_nat (m / tpt - lo)) (view tpt (tip_pages d1) lo (N / tpt + 1)) = view tpt (tip_pages d1) (m / tpt) (N / tpt + 1)) as ->.
  { unfold view. rewrite <- fmap_drop. f_equal. apply list_eq. intros i. rewrite lookup_drop.
    destruct (decide (i < Z.to_nat (N / tpt + 1 - m / tpt))%nat) as [Hi|Hi].
    - trans (Some (m / tpt + Z.of_nat i)); [|symmetry]; apply lookup_seqZ; lia.
    - rewrite !lookup_ge_None_2; [done|rewrite length_seqZ; lia|rewrite length_seqZ; lia]. }
  destruct (find_in_pages_ok d1 (N / tpt + 1) N mask (m / tpt) m H1) as (r & Hf & Hfi & Hst); [done|lia|lia|lia|lia|].
  rewrite (bind_ok _ _ _ _ _ Hf). exists (fst <$> r), d1.
  assert (Hskip : is_first (state_test d mask) minNumber N (fst <$> r)).
  { apply (is_first_skip _ _ m); [lia| |].
    - intros n Hn. unfold state_test. destruct (below_front tpt Htpt d1 lo _ n H1 Hcv) as [_ Hcom]; [lia|]. by rewrite <- Htip, Hcom.
    - unfold state_test in *. by rewrite <- Htip. }
  destruct r as [[n state]|]; (split; [|done]).
  - rewrite Hst, Htip. done.
  - done.
Qed.

End State.
