(* ===== verification/TraInv.v ===== *)
(** * The next number, and the invariant of the transactions of a process

    [bump_transaction_id] takes the next number, with a new inventory page when it is the
    first one of a page, and brings the counters of the header page up to date.

    The invariant: a database and the transactions that run, by their numbers. Every number
    that is active on the inventory pages belongs to one of them, which holds the lock on it;
    what a snapshot says of a transaction is either that it is active or what the pages say;
    and no snapshot sees an active transaction below a number that garbage collection may
    use. *)

From S2P Require Import Prelude Memory Search Outcome StateMonad TraCache TraOps TraInventory TraState.
From stdpp Require Import gmap.
#[local] Open Scope Z_scope.

(** ** The counters of the header page *)

(** The four counters of a header page *)
Definition counters (h : header_page) : Z * Z * Z * Z := (getNT h, getOIT h, getOAT h, getOST h).

Lemma counters_raised h0 h nt oit oat ost : header_ok h -> counters h = (nt, getOIT h0, getOAT h0, getOST h0) ->
  0 <= nt <= MAX_TRA_NUMBER -> getOIT h0 <= oit <= MAX_TRA_NUMBER -> getOAT h0 <= oat <= MAX_TRA_NUMBER -> getOST h0 <= ost <= MAX_TRA_NUMBER ->
  0 <= getOIT h0 -> 0 <= getOAT h0 -> 0 <= getOST h0 ->
  let h := if decide (oat > getOAT h0) then writeOAT oat h else h in
  let h := if decide (oit > getOIT h0) then writeOIT oit h else h in
  let h := if decide (ost > getOST h0) then writeOST ost h else h in
  header_ok h /\ counters h = (nt, oit, oat, ost).
Proof.
  intros Hh Hc Hnt Hi Ha Hs Hi0 Ha0 Hs0. unfold counters in Hc. injection Hc as E1 E2 E3 E4.
  intros h1. assert (header_ok h1 /\ counters h1 = (nt, getOIT h0, oat, getOST h0)) as [Hh1 Hc1].
  { subst h1. case_decide as Hd; [|unfold counters; split; [done|]; assert (oat = getOAT h0) by lia; congruence].
    destruct (counters_write h oat Hh ltac:(lia)) as (_ & _ & (? & ? & ? & ? & ?) & _). split; [done|]. unfold counters. congruence. }
  clearbody h1. unfold counters in Hc1. injection Hc1 as F1 F2 F3 F4.
  intros h2. assert (header_ok h2 /\ counters h2 = (nt, oit, oat, getOST h0)) as [Hh2 Hc2].
  { subst h2. case_decide as Hd; [|unfold counters; split; [done|]; assert (oit = getOIT h0) by lia; congruence].
    destruct (counters_write h1 oit Hh1 ltac:(lia)) as (_ & (? & ? & ? & ? & ?) & _). split; [done|]. unfold counters. congruence. }
  clearbody h2. unfold counters in Hc2. injection Hc2 as G1 G2 G3 G4.
  intros h3. subst h3. case_decide as Hd; [|split; [done|]; unfold counters; assert (ost = getOST h0) by lia; congruence].
  destruct (counters_write h2 ost Hh2 ltac:(lia)) as (_ & _ & _ & (? & ? & ? & ? & ?)). split; [done|]. unfold counters. congruence.
Qed.

Section Bump.
Context (tpt : Z) (Htpt : 0 < tpt < 2 ^ 18) (Halign : tpt mod 4 = 0).
Implicit Types (P : list (list Z)) (d : database).

(** ** A new page *)

Definition zero_page : list Z := replicate (Z.to_nat (tpt / 4)) 0.

Lemma zero_page_ok : page_ok tpt zero_page.
Proof.
  split.
  - unfold zero_page. rewrite length_replicate. pose proof (page_len tpt Halign). lia.
  - apply Forall_replicate. lia.
Qed.

Lemma page_snoc P p s : 0 <= s -> page (P ++ [p]) s = if decide (s < Z.of_nat (length P)) then page P s else
  if decide (s = Z.of_nat (length P)) then p else page [] s.
Proof.
  intros Hs. unfold page. case_decide; [by rewrite lookup_total_app_l by lia|]. rewrite lookup_total_app_r by lia. case_decide.
  - by replace (Z.to_nat s - length P)%nat with 0%nat by lia.
  - rewrite !list_lookup_total_alt, !lookup_ge_None_2; [done|cbn; lia|cbn; lia].
Qed.

Lemma state_of_snoc P n : 0 <= n < (Z.of_nat (length P) + 1) * tpt ->
  state_of tpt (P ++ [zero_page]) n = if decide (n < Z.of_nat (length P) * tpt) then state_of tpt P n else tra_active.
Proof.
  intros Hn. unfold state_of. destruct (number_split tpt Htpt n ltac:(lia)) as (Hsp & Hm & Hq). rewrite page_snoc by lia.
  case_decide as Hd.
  - rewrite decide_True by nia. done.
  - rewrite (decide_False (P := n < _)) by nia. rewrite decide_True by nia. apply state_at_zero.
    pose proof (page_len tpt Halign). lia.
Qed.

Lemma extend_pages P : <[length P := zero_page]> (resize (S (length P)) [] P) = P ++ [zero_page].
Proof.
  rewrite resize_ge by lia. replace (S (length P) - length P)%nat with 1%nat by lia. cbn.
  by rewrite insert_app_r_alt, Nat.sub_diag by lia.
Qed.

Lemma view_snoc_page P p lo hi : 0 <= lo -> hi <= Z.of_nat (length P) -> view tpt (P ++ [p]) lo hi = view tpt P lo hi.
Proof. intros Hlo Hh. apply view_ext. intros s Hs. rewrite page_snoc by lia. by rewrite decide_True by lia. Qed.

(** Before the first transaction the cache may be empty, but then the next number must not need a page. *)
Definition cache_state d : Prop := (cache_fresh d /\ (next_number d + 1) mod tpt <> 0) \/ cached tpt d.

Lemma TRA_extend_tip_ok d : counters_ok tpt d -> cached tpt d -> 1 <= next_number d ->
  exists v, let d' := set_tip_pages (tip_pages d ++ [zero_page]) (set_cache v d) in
    TRA_extend_tip tpt (next_number d / tpt + 1) d = Ok (tt, d') /\ cache_live tpt d' (next_number d / tpt + 1).
Proof.
  intros H (hi & Hl & Hhi) Hn. pose proof (co_length _ _ H) as Hlen. pose proof (number_page tpt Htpt d (next_number d) H ltac:(lia)) as Hpg.
  assert (Ho : dbb_oldest_transaction d / tpt <= next_number d / tpt).
  { apply Z.div_le_mono; [lia|]. pose proof (co_oldest _ _ H). lia. }
  assert (hi <= next_number d / tpt + 1) by (destruct Hl as (lo & (_ & _ & _ & ?) & _); lia).
  unfold TRA_extend_tip. rewrite decide_True by lia. replace (next_number d / tpt + 1 - 1) with (next_number d / tpt) by lia.
  destruct (fetch_inventory_page_ok tpt Htpt Halign d hi (next_number d / tpt) (cache_live_ok _ _ _ Hl) (co_pages _ _ H) ltac:(lia) Hpg) as (d1 & He & Hr).
  rewrite Z.max_r in Hr by lia. destruct Hr as [[v ->] (lo & Hcv & Hlo)]. exists v. cbv zeta.
  erewrite bind_ok by (rewrite (bind_ok _ _ _ _ _ He); reflexivity). split.
  - unfold modify. do 3 f_equal. cbn [tip_pages set_cache].
    replace (Z.to_nat (next_number d / tpt + 1)) with (length (tip_pages d)) by lia.
    replace (Z.to_nat (next_number d / tpt + 1 + 1)) with (S (length (tip_pages d))) by lia. apply extend_pages.
  - exists lo. split; [|done]. destruct Hcv as (Hv & Hlh & Hlo' & Hh). cbn in Hv, Hlo', Hh. split_and!; cbn; try lia.
    + rewrite Hv. symmetry. apply view_snoc_page; lia.
    + rewrite length_app. cbn. lia.
Qed.

(** ** The next number *)

(** What a bump leaves: the number is taken, the header has the counters of the memory. *)
Record bumped d d' : Prop := {
  bu_counters : counters_ok tpt d';
  bu_number : next_number d' = next_number d + 1;
  bu_header : getOIT (header d') = dbb_oldest_transaction d /\ getOAT (header d') = dbb_oldest_active d /\ getOST (header d') = dbb_oldest_snapshot d;
  bu_memory : dbb_oldest_transaction d' = dbb_oldest_transaction d /\ dbb_oldest_active d' = dbb_oldest_active d /\ dbb_oldest_snapshot d' = dbb_oldest_snapshot d;
  bu_pc : dbb_pc_transactions d' = dbb_pc_transactions d;
  bu_locks : tra_locks d' = tra_locks d;
  bu_cache : (cache_fresh d' \/ cached tpt d') /\ (cached tpt d -> cached tpt d');
  bu_states n : 0 <= n <= next_number d + 1 -> state_of tpt (tip_pages d') n = if decide (n <= next_number d) then state_of tpt (tip_pages d) n else tra_active
}.

(** The file has room for an inventory page more. *)
Definition has_room d : Prop := next_number d / tpt + 2 < 2 ^ 31.

(** The pages after the bump *)
Lemma bump_pages d : counters_ok tpt d -> cache_state d -> has_room d ->
  exists P' v, let d' := set_tip_pages P' (set_cache v d) in
    (if decide ((next_number d + 1) mod tpt = 0) then TRA_extend_tip tpt (wrapU 32 ((next_number d + 1) / tpt)) else ret tt) d = Ok (tt, d') /\
    pages_ok tpt P' /\ Z.of_nat (length P') = (next_number d + 1) / tpt + 1 /\
    (m_cache d = [] /\ v = [] /\ getOIT (header d) <= dbb_oldest_transaction d \/ exists hi, cache_live tpt d' hi /\ (next_number d + 1) / tpt <= hi) /\
    (forall n, 0 <= n < Z.of_nat (length P') * tpt -> state_of tpt P' n = if decide (n <= next_number d) then state_of tpt (tip_pages d) n else tra_active).
Proof.
  intros H Hc Hroom. pose proof (co_length _ _ H) as Hlen. pose proof (co_number _ _ H) as Hnum.
  pose proof (number_split tpt Htpt (next_number d) ltac:(lia)) as (Hsp & Hm & Hq). unfold has_room in Hroom.
  case_decide as Hb.
  - assert (Hmod : next_number d mod tpt = tpt - 1).
    { destruct (decide (next_number d mod tpt + 1 < tpt)) as [Hlt|]; [|lia]. exfalso.
      replace (next_number d + 1) with (next_number d mod tpt + 1 + next_number d / tpt * tpt) in Hb by lia.
      rewrite Z.mod_add, Z.mod_small in Hb by lia. lia. }
    assert (Hdiv : (next_number d + 1) / tpt = next_number d / tpt + 1).
    { replace (next_number d + 1) with ((next_number d / tpt + 1) * tpt) by lia. apply Z.div_mul. lia. }
    assert (4 <= tpt) by (pose proof (page_len tpt Halign); lia).
    destruct Hc as [[_ ?]|Hc]; [done|]. destruct (TRA_extend_tip_ok d H Hc ltac:(lia)) as (v & He & Hl).
    rewrite Hdiv, wrapU_id by lia32. eexists _, v. cbv zeta. split; [exact He|]. rewrite length_app. cbn [length]. split_and!.
    + destruct (co_pages _ _ H) as [HP _]. split; [|rewrite length_app; cbn; lia]. apply Forall_app. split; [done|].
      apply Forall_singleton, zero_page_ok.
    + lia.
    + right. exists (next_number d / tpt + 1). split; [done|lia].
    + intros n Hn. rewrite state_of_snoc by lia. case_decide; case_decide; try done; nia.
  - assert (Hmod : next_number d mod tpt + 1 < tpt).
    { destruct (decide (next_number d mod tpt + 1 < tpt)) as [Hlt|]; [done|]. exfalso. apply Hb.
      replace (next_number d + 1) with ((next_number d / tpt + 1) * tpt) by lia. apply Z.mod_mul. lia. }
    assert (Hdiv : (next_number d + 1) / tpt = next_number d / tpt).
    { replace (next_number d + 1) with (next_number d mod tpt + 1 + next_number d / tpt * tpt) by lia.
      rewrite Z.div_add, Z.div_small by lia. lia. }
    exists (tip_pages d), (m_cache d). cbv zeta. assert (set_tip_pages (tip_pages d) (set_cache (m_cache d) d) = d) as -> by (by destruct d).
    rewrite Hdiv. split_and!; [done|apply (co_pages _ _ H)|lia| |].
    + destruct Hc as [[[Hf He] _]|(hi & Hl & Hhi)]; [left; split_and!; [done|done|lia]|right; by exists hi].
    + intros n Hn. case_decide; [done|]. apply (co_free _ _ H). lia.
Qed.

Lemma bump_ok d : counters_ok tpt d -> cache_state d -> has_room d ->
  if decide (next_number d >= MAX_TRA_NUMBER - 1) then bump_transaction_id tpt d = Ok (inl isc_tra_num_exc, d)
  else exists d', bump_transaction_id tpt d = Ok (inr (header d'), d') /\ bumped d d'.
Proof.
  intros H Hc Hroom. pose proof (co_oldest _ _ H) as Hoit. pose proof (co_active _ _ H) as Hoat. pose proof (co_snapshot _ _ H) as Host.
  pose proof (co_number _ _ H) as Hnum. unfold bump_transaction_id. run. fold (next_number d).
  rewrite (decide_False (P := _ /\ getOAT _ > _)) by lia. rewrite (decide_False (P := _ /\ getOIT _ > _)) by lia.
  case_decide as Hmax; [done|]. destruct (bump_pages d H Hc Hroom) as (P' & v & He & HP' & Hlen & Hcache & Hst). cbv zeta in He.
  rewrite (bind_ok _ _ _ _ _ He). run.
  set (d1 := set_next_transaction (next_number d + 1) (set_tip_pages P' (set_cache v d))).
  destruct (counters_write (header d) (next_number d + 1) (co_header _ _ H) ltac:(lia)) as ((W0 & W1 & W2 & W3 & W4) & _).
  pose proof (counters_raised (header d) (writeNT (next_number d + 1) (header d)) (next_number d + 1)
    (dbb_oldest_transaction d1) (dbb_oldest_active d1) (dbb_oldest_snapshot d1) W0) as Hr.
  unfold counters at 1 in Hr. rewrite W1, W2, W3, W4 in Hr.
  specialize (Hr eq_refl ltac:(lia) ltac:(cbn; lia) ltac:(cbn; lia) ltac:(cbn; lia) ltac:(lia) ltac:(lia) ltac:(lia)). cbv zeta in Hr.
  cbv zeta. change (id d1) with d1. match type of Hr with header_ok ?h /\ _ => set (h' := h) in * end.
  destruct Hr as [Hh' Hcs]. unfold counters in Hcs. injection Hcs as C1 C2 C3 C4.
  exists (set_header h' d1). split; [done|]. clearbody h'. cbn in C2, C3, C4. split.
  - split; unfold next_number; cbn; try rewrite ?C1, ?C2, ?C3, ?C4; try done; try lia.
    + apply (co_write _ _ H).
    + pose proof (co_order _ _ H). lia.
    + intros n Hn. rewrite Hst; [|split; [lia|]].
      * rewrite decide_True by lia. by apply (co_committed _ _ H).
      * pose proof (number_split tpt Htpt (next_number d + 1) ltac:(lia)). nia.
    + intros n Hn. rewrite Hst; [|split; [lia|]].
      * rewrite decide_True by lia. by apply (co_no_active _ _ H).
      * pose proof (number_split tpt Htpt (next_number d + 1) ltac:(lia)). nia.
    + intros n Hn. rewrite Hst by lia. by rewrite decide_False by lia.
  - unfold next_number. cbn. done.
  - cbn. auto.
  - done.
  - done.
  - done.
  - destruct Hcache as [(Hm & -> & _)|(hi & (lo & Hcv & Hl) & Hhi)].
    + split; [by left|]. intros (hi & (lo & (Hv & _) & Hl) & _). rewrite Hm, view_cons in Hv by lia. done.
    + assert (cached tpt (set_header h' d1)); [|auto]. exists hi. unfold next_number. cbn. rewrite C1. split; [|done]. by exists lo.
  - intros n Hn. cbn. apply Hst. pose proof (number_split tpt Htpt (next_number d + 1) ltac:(lia)). nia.
Qed.

End Bump.

(** ** Flags *)

Lemma land_lor_0 f m m' : Z.land m m' = 0 -> Z.land (Z.lor f m) m' = Z.land f m'.
Proof. intros H. by rewrite Z.land_lor_distr_l, H, Z.lor_0_r. Qed.

Lemma flag_add m m' t : Z.land m m' = 0 -> flag (add_flags m t) m' = flag t m'.
Proof. intros H. unfold flag, add_flags. cbn. by rewrite land_lor_0. Qed.

Lemma flag_clear m m' t : Z.land (Z.lnot m) m' = m' -> flag (clear_flags m t) m' = flag t m'.
Proof. intros H. unfold flag, clear_flags. cbn. by rewrite <- Z.land_assoc, H. Qed.

Definition reads_committed (t : jrd_tra) : bool := flag t TRA_read_committed.
Definition is_precommitted (t : jrd_tra) : bool := flag t TRA_precommitted_flag.

(** ** Locks *)

Lemma foldr_min_le (v : Z) l w : w = v \/ w ∈ l -> foldr Z.min v l <= w.
Proof.
  induction l as [|x l IH]; cbn; intros [Hw|Hw]; try lia.
  - by apply elem_of_nil in Hw.
  - apply elem_of_cons in Hw as [->|Hw]; [lia|]. specialize (IH (or_intror Hw)). lia.
Qed.

Lemma foldr_min_in (v : Z) l : foldr Z.min v l = v \/ foldr Z.min v l ∈ l.
Proof.
  induction l as [|x l IH]; cbn; [by left|]. destruct (Z.le_ge_cases x (foldr Z.min v l)).
  - right. rewrite Z.min_l by lia. by left.
  - rewrite Z.min_r by lia. destruct IH as [->|IH]; [by left|right; by right].
Qed.

(** The least datum, or 0 if there is none *)
Lemma lock_min_spec (locks : gmap Z Z) n w : locks !! n = Some w -> w <> 0 -> lock_min locks <> 0 /\ lock_min locks <= w.
Proof.
  intros Hn Hw. unfold lock_min. set (l := filter (fun v => v <> 0) (map_to_list locks).*2).
  assert (Hin : w ∈ l).
  { apply list_elem_of_filter. split; [done|]. apply list_elem_of_fmap. exists (n, w). split; [done|]. by apply elem_of_map_to_list. }
  assert (Hnz : forall v, v ∈ l -> v <> 0) by (intros v Hv; by apply list_elem_of_filter in Hv as [? _]).
  clearbody l. destruct l as [|v l]; [by apply elem_of_nil in Hin|]. split.
  - destruct (foldr_min_in v l) as [->|Hi]; apply Hnz; [by left|by right].
  - apply foldr_min_le. apply elem_of_cons in Hin. tauto.
Qed.

Section Inv.
Context (tpt : Z).
Implicit Types (d : database) (live : gmap Z jrd_tra) (t : jrd_tra).

(** ** Snapshots *)

(** The state of a transaction in a snapshot *)
Definition snap t (n : Z) : Z := state_at (tra_transactions t) (n - (tra_oldest t - tra_oldest t mod 4)).

(** The snapshot knows all transactions below [g], and none of them as active. *)
Definition clear t (g : Z) : Prop :=
  g <= tra_top t + 1 /\ forall n, tra_oldest t <= n <= tra_top t -> n < g -> snap t n <> tra_active.

Lemma clear_le t g g' : clear t g' -> g <= g' -> clear t g.
Proof. intros [H1 H2] Hle. split; [lia|]. intros n Hn Hlt. apply H2; [done|lia]. Qed.

Record snapshot_ok d t : Prop := {
  so_bytes : bytes (tra_transactions t);
  so_room : tra_top t - (tra_oldest t - tra_oldest t mod 4) < room (tra_transactions t) < 2 ^ 32;
  so_states n : tra_oldest t <= n <= tra_top t -> snap t n = tra_active \/ snap t n = state_of tpt (tip_pages d) n;
  so_subs n : n ∈ tra_commit_sub_trans t -> 1 <= n <= next_number d /\ state_of tpt (tip_pages d) n = tra_committed
}.

(** ** One transaction *)

Record live_ok d (n : Z) t : Prop := {
  lo_number : tra_number t = n /\ 1 <= n <= next_number d;
  lo_range : 1 <= tra_oldest t <= tra_top t /\ tra_top t <= n;
  lo_oldest m : 1 <= m < tra_oldest t -> state_of tpt (tip_pages d) m = tra_committed;
  lo_system : flag t TRA_system = false;
  lo_kind : if is_precommitted t
    then reads_committed t = true /\ state_of tpt (tip_pages d) n = tra_committed /\
      (tra_lock t = Some (MkLock LCK_tra n 0) /\ tra_locks d !! n = Some 0 \/
       (exists k, tra_lock t = Some (MkLock LCK_tra_pc k 0)) /\ tra_locks d !! n = None)
    else state_of tpt (tip_pages d) n = tra_active /\
      exists v, tra_lock t = Some (MkLock LCK_tra n v) /\ tra_locks d !! n = Some v /\ 1 <= v <= n /\
        (reads_committed t = false -> clear t v);
  lo_snapshot : reads_committed t = false -> snapshot_ok d t
}.

(** Other transactions may end, and new ones may come. *)
Lemma live_frame d d' n t : live_ok d n t -> next_number d <= next_number d' -> tra_locks d' !! n = tra_locks d !! n ->
  (forall m, 1 <= m <= next_number d -> state_of tpt (tip_pages d') m = state_of tpt (tip_pages d) m \/
    state_of tpt (tip_pages d) m = tra_active /\ m <> n) ->
  live_ok d' n t.
Proof.
  intros H HN Hl Hst. pose proof (lo_number _ _ _ H) as [Hn1 Hn2]. pose proof (lo_range _ _ _ H) as Hrg. split.
  - split; [done|lia].
  - done.
  - intros m Hm. destruct (Hst m ltac:(lia)) as [->|[Ha _]]; [by apply (lo_oldest _ _ _ H)|].
    rewrite (lo_oldest _ _ _ H) in Ha by lia. done.
  - apply (lo_system _ _ _ H).
  - pose proof (lo_kind _ _ _ H) as Hk. destruct (Hst n ltac:(lia)) as [->|[_ ?]]; [|done]. by rewrite Hl.
  - intros Hrc. destruct (lo_snapshot _ _ _ H Hrc) as [H1 H2 H3 H4]. split; [done|done| |].
    + intros m Hm. destruct (H3 m Hm) as [?|Hs]; [by left|]. destruct (Hst m ltac:(lia)) as [->|[Ha _]]; [by right|left; congruence].
    + intros m Hm. destruct (H4 m Hm) as [Hm1 Hm2]. split; [lia|]. destruct (Hst m ltac:(lia)) as [->|[Ha _]]; [done|]. by rewrite Hm2 in Ha.
Qed.

(** ** All of them *)

(** Versions below [g] that are committed are seen as committed by every snapshot. *)
Definition safe_point d live (g : Z) : Prop :=
  g <= dbb_oldest_active d /\ forall n t, live !! n = Some t -> reads_committed t = false -> clear t g.

Record sys_inv d live : Prop := {
  si_counters : counters_ok tpt d;
  si_cache : cache_state tpt d;
  si_cached n : is_Some (live !! n) -> cached tpt d;
  si_limbo n : 1 <= n <= next_number d -> state_of tpt (tip_pages d) n <> tra_limbo;
  si_active n : 1 <= n <= next_number d -> state_of tpt (tip_pages d) n = tra_active -> is_Some (live !! n);
  si_live n t : live !! n = Some t -> live_ok d n t;
  si_locks n : is_Some (tra_locks d !! n) -> is_Some (live !! n);
  si_pc n : n ∈ precommits d -> n = 0 \/ 1 <= n <= next_number d /\ state_of tpt (tip_pages d) n = tra_committed;
  si_snapshot : safe_point d live (dbb_oldest_snapshot d);
  si_oldest n t : live !! n = Some t -> safe_point d live (tra_oldest_active t)
}.

Lemma inv_locked d live n : sys_inv d live -> 1 <= n <= next_number d -> state_of tpt (tip_pages d) n = tra_active -> is_Some (tra_locks d !! n).
Proof.
  intros H Hn Ha. destruct (si_active _ _ H n Hn Ha) as [t Ht].
  pose proof (si_live _ _ H _ _ Ht) as HL. pose proof (lo_kind _ _ _ HL) as Hk. destruct (is_precommitted t).
  - destruct Hk as (_ & Hc & _). by rewrite Hc in Ha.
  - destruct Hk as (_ & v & _ & Hv & _). eauto.
Qed.

Lemma inv_cache v d live : sys_inv d live -> cached tpt (set_cache v d) -> sys_inv (set_cache v d) live.
Proof.
  intros H Hc. pose proof (si_live _ _ H) as Hlive. destruct H. split; try done.
  - by apply counters_ok_cache.
  - by right.
  - intros n t Ht. apply (live_frame d); [by apply Hlive|done|done|]. auto.
Qed.

Lemma inv_lock_nonneg d live n w : sys_inv d live -> tra_locks d !! n = Some w -> 0 <= w.
Proof.
  intros H Hw. destruct (si_locks _ _ H n ltac:(eauto)) as [t Ht]. pose proof (lo_kind _ _ _ (si_live _ _ H _ _ Ht)) as Hk.
  destruct (is_precommitted t).
  - destruct Hk as (_ & _ & [[_ Hl]|[_ Hl]]); rewrite Hl in Hw; [by injection Hw as <-|done].
  - destruct Hk as (_ & v & _ & Hl & Hv & _). rewrite Hl in Hw. injection Hw as <-. lia.
Qed.

(** The fields that the invariant does not look at may change. *)
Definition same_core t t' : Prop :=
  tra_number t' = tra_number t /\ tra_top t' = tra_top t /\ tra_oldest t' = tra_oldest t /\ tra_oldest_active t' = tra_oldest_active t /\
  tra_transactions t' = tra_transactions t /\ tra_lock t' = tra_lock t /\ tra_commit_sub_trans t' = tra_commit_sub_trans t /\
  reads_committed t' = reads_committed t /\ is_precommitted t' = is_precommitted t /\ flag t' TRA_system = flag t TRA_system.

Lemma live_ok_same d n t t' : same_core t t' -> live_ok d n t -> live_ok d n t'.
Proof.
  intros (E1 & E2 & E3 & E4 & E5 & E6 & E7 & E8 & E9 & E10) [H1 H2 H3 H4 H5 H6].
  split; rewrite ?E1, ?E2, ?E3, ?E6, ?E8, ?E9, ?E10; try done.
  - unfold clear, snap in *. by rewrite ?E2, ?E3, ?E5.
  - intros Hr. destruct (H6 Hr) as [S1 S2 S3 S4]. split; unfold snap in *; rewrite ?E2, ?E3, ?E5, ?E7; done.
Qed.

(** A transaction may change as long as its snapshot stays as clear. *)
Lemma inv_update d live n t t' : sys_inv d live -> live !! n = Some t -> live_ok d n t' -> reads_committed t' = reads_committed t ->
  tra_oldest_active t' = tra_oldest_active t -> (forall g, clear t g -> clear t' g) -> sys_inv d (<[n := t']> live).
Proof.
  intros H Ht Hok Hr Ha Hcl. assert (Hlk : forall m s, <[n := t']> live !! m = Some s -> m = n /\ s = t' \/ m <> n /\ live !! m = Some s).
  { intros m s. destruct (decide (m = n)) as [->|Hne]; [rewrite lookup_insert_eq; intros [= <-]; auto|rewrite lookup_insert_ne by done; auto]. }
  assert (Hsafe : forall g, safe_point d live g -> safe_point d (<[n := t']> live) g).
  { intros g [Hg1 Hg2]. split; [done|]. intros m s [[-> ->]|[_ Hm]]%Hlk Hrs; [|by apply (Hg2 m)]. apply Hcl, (Hg2 n); congruence. }
  assert (Hdom : forall m, is_Some (<[n := t']> live !! m) <-> is_Some (live !! m)).
  { intros m. destruct (decide (m = n)) as [->|Hne]; [rewrite lookup_insert_eq, Ht; split; eauto|by rewrite lookup_insert_ne]. }
  destruct H as [I1 I2 I3 I4 I5 I6 I7 I8 I9 I10]. split; try done.
  - intros m Hm. apply (I3 m). by apply Hdom.
  - intros m Hm Hact. apply Hdom. auto.
  - intros m s [[-> ->]|[_ Hm]]%Hlk; [done|auto].
  - intros m Hm. apply Hdom. auto.
  - by apply Hsafe.
  - intros m s [[-> ->]|[_ Hm]]%Hlk; apply Hsafe; [|by eapply I10]. rewrite Ha. by eapply I10.
Qed.

Lemma inv_same d live n t t' : sys_inv d live -> live !! n = Some t -> same_core t t' -> sys_inv d (<[n := t']> live).
Proof.
  intros H Ht Hs. pose proof Hs as (E1 & E2 & E3 & E4 & E5 & E6 & E7 & E8 & E9 & E10). apply (inv_update d live n t); try done.
  - apply (live_ok_same _ _ t); [done|]. by apply (si_live _ _ H).
  - intros g. unfold clear, snap. by rewrite E2, E3, E5.
Qed.

(** ** A transaction goes *)

(** The transaction [n] has ended with the state [s]: what has changed in the database *)
Record ended d (n s : Z) d' : Prop := {
  en_counters : counters_ok tpt d';
  en_cached : cached tpt d';
  en_number : next_number d' = next_number d;
  en_memory : dbb_oldest_active d' = dbb_oldest_active d /\ dbb_oldest_snapshot d' = dbb_oldest_snapshot d;
  en_states m : 0 <= m <= next_number d -> state_of tpt (tip_pages d') m = if decide (m = n) then s else state_of tpt (tip_pages d) m;
  en_locks : tra_locks d' = delete n (tra_locks d);
  en_pc m : m ∈ precommits d' -> m = 0 \/ m ∈ precommits d
}.

Lemma inv_ended d d' live n s t : sys_inv d live -> live !! n = Some t -> ended d n s d' ->
  (s = tra_committed \/ s = tra_dead /\ is_precommitted t = false) -> sys_inv d' (delete n live).
Proof.
  intros H Ht [E1 E2 E3 [E4 E5] E6 E7 E8] Hs. pose proof (si_live _ _ H _ _ Ht) as HL. pose proof (lo_number _ _ _ HL) as [_ Hn].
  assert (Hstate : state_of tpt (tip_pages d) n = tra_active \/ state_of tpt (tip_pages d) n = s).
  { pose proof (lo_kind _ _ _ HL) as Hk. destruct (is_precommitted t); [|by left; destruct Hk].
    right. destruct Hk as (_ & -> & _). by destruct Hs as [->|[_ ?]]. }
  assert (Hsafe : forall g, safe_point d live g -> safe_point d' (delete n live) g).
  { intros g [Hg1 Hg2]. split; [lia|]. intros m r [_ Hm]%lookup_delete_Some. by apply (Hg2 m). }
  split.
  - done.
  - by right.
  - done.
  - rewrite E3. intros m Hm. rewrite E6 by lia. case_decide; [destruct Hs as [->|[-> _]]; done|by apply (si_limbo _ _ H)].
  - rewrite E3. intros m Hm. rewrite E6 by lia. case_decide as Hd; [destruct Hs as [->|[-> _]]; done|].
    intros Ha. rewrite lookup_delete_ne by done. by apply (si_active _ _ H).
  - intros m r [Hne Hm]%lookup_delete_Some. apply (live_frame d); [by apply (si_live _ _ H)|lia|by rewrite E7, lookup_delete_ne|].
    intros k Hk. rewrite E6 by lia. case_decide as Hd; [|by left]. subst k. destruct Hstate as [->|<-]; [right; auto|by left].
  - intros m. rewrite E7. intros [v [Hne Hm]%lookup_delete_Some]. rewrite lookup_delete_ne by done. apply (si_locks _ _ H). eauto.
  - intros m Hm. rewrite E3. destruct (E8 m Hm) as [?|Hm']; [by left|]. destruct (si_pc _ _ H m Hm') as [?|[Hm1 Hm2]]; [by left|].
    right. split; [done|]. rewrite E6 by lia. case_decide as Hd; [|done]. subst m. destruct Hstate as [Ha|<-]; [by rewrite Ha in Hm2|done].
  - rewrite E5. apply Hsafe, (si_snapshot _ _ H).
  - intros m r [_ Hm]%lookup_delete_Some. apply Hsafe. by apply (si_oldest _ _ H m).
Qed.

(** ** A transaction goes on with a new number *)

Record renumbered d (t : jrd_tra) d' : Prop := {
  rn_counters : counters_ok tpt d';
  rn_cached : cached tpt d';
  rn_number : next_number d' = next_number d + 1;
  rn_memory : dbb_oldest_active d' = dbb_oldest_active d /\ dbb_oldest_snapshot d' = dbb_oldest_snapshot d;
  rn_states m : 0 <= m <= next_number d -> state_of tpt (tip_pages d') m = state_of tpt (tip_pages d) m;
  rn_locks : exists v, tra_locks d' = <[next_number d + 1 := v]> (tra_locks d);
  rn_pc m : m ∈ precommits d' -> m = 0 \/ m ∈ precommits d \/ m = next_number d + 1 /\ state_of tpt (tip_pages d') m = tra_committed;
  rn_live : live_ok d' (next_number d + 1) t
}.

Lemma inv_renumbered d d' live t : sys_inv d live -> renumbered d t d' ->
  (forall g, safe_point d live g -> reads_committed t = false -> clear t g) -> safe_point d live (tra_oldest_active t) ->
  sys_inv d' (<[next_number d + 1 := t]> live).
Proof.
  intros H [R1 R2 R3 [R4 R5] R6 [v R7] R8 R9] Hcl Htoa.
  assert (Hnl : forall n s, live !! n = Some s -> n <> next_number d + 1).
  { intros n s Hs. destruct (lo_number _ _ _ (si_live _ _ H _ _ Hs)). lia. }
  assert (Hlk : forall m s, <[next_number d + 1 := t]> live !! m = Some s -> m = next_number d + 1 /\ s = t \/ m <> next_number d + 1 /\ live !! m = Some s).
  { intros m s. destruct (decide (m = next_number d + 1)) as [->|Hne]; [rewrite lookup_insert_eq; intros [= <-]; auto|rewrite lookup_insert_ne by done; auto]. }
  assert (Hsafe : forall g, safe_point d live g -> safe_point d' (<[next_number d + 1 := t]> live) g).
  { intros g Hg. pose proof Hg as [Hg1 Hg2]. split; [lia|]. intros m s [[-> ->]|[_ Hm]]%Hlk Hr; [by apply Hcl|by apply (Hg2 m)]. }
  pose proof (co_number tpt _ (si_counters _ _ H)).
  split.
  - done.
  - by right.
  - done.
  - rewrite R3. intros m Hm. destruct (decide (m = next_number d + 1)) as [->|Hne]; [|rewrite R6 by lia; apply (si_limbo _ _ H); lia].
    pose proof (lo_kind _ _ _ R9) as Hk. destruct (is_precommitted t); [by destruct Hk as (_ & -> & _)|by destruct Hk as (-> & _)].
  - rewrite R3. intros m Hm Ha. destruct (decide (m = next_number d + 1)) as [->|Hne]; [rewrite lookup_insert_eq; eauto|].
    rewrite lookup_insert_ne by done. rewrite R6 in Ha by lia. apply (si_active _ _ H); [lia|done].
  - intros m s [[-> ->]|[Hne Hm]]%Hlk; [done|]. apply (live_frame d); [by apply (si_live _ _ H)|lia|by rewrite R7, lookup_insert_ne by done|].
    intros k Hk. left. apply R6. lia.
  - intros m. rewrite R7. destruct (decide (m = next_number d + 1)) as [->|Hne]; [rewrite !lookup_insert_eq; eauto|].
    rewrite !lookup_insert_ne by done. apply (si_locks _ _ H).
  - intros m Hm. rewrite R3. destruct (R8 m Hm) as [?|[Hm'|[-> Hc]]]; [by left| |right; split; [lia|done]].
    destruct (si_pc _ _ H m Hm') as [?|[Hm1 Hm2]]; [by left|]. right. split; [lia|]. by rewrite R6 by lia.
  - rewrite R5. apply Hsafe, (si_snapshot _ _ H).
  - intros m s [[-> ->]|[_ Hm]]%Hlk; apply Hsafe; [done|]. by apply (si_oldest _ _ H m).
Qed.

(** A transaction that runs unless it is precommitted is active, above the counters. *)
Lemma live_active d live n t : sys_inv d live -> live !! n = Some t -> is_precommitted t = false ->
  state_of tpt (tip_pages d) n = tra_active /\ dbb_oldest_transaction d <= n /\ dbb_oldest_active d <= n.
Proof.
  intros H Ht Hp. pose proof (si_live _ _ H _ _ Ht) as HL. pose proof (lo_kind _ _ _ HL) as Hk. rewrite Hp in Hk. destruct Hk as [Ha _].
  pose proof (lo_number _ _ _ HL) as [_ Hn]. split; [done|]. split.
  - destruct (Z.le_gt_cases (dbb_oldest_transaction d) n); [done|]. rewrite (co_committed _ _ (si_counters _ _ H)) in Ha by lia. done.
  - destruct (Z.le_gt_cases (dbb_oldest_active d) n); [done|]. by destruct (co_no_active _ _ (si_counters _ _ H) n ltac:(lia)).
Qed.

Lemma snapshot_not_precommitted d n t : live_ok d n t -> reads_committed t = false -> is_precommitted t = false.
Proof. intros H Hr. pose proof (lo_kind _ _ _ H) as Hk. destruct (is_precommitted t); [|done]. destruct Hk as [? _]. congruence. Qed.

End Inv.
