(* ===== verification/TraStart.v ===== *)
(** * The start of a transaction keeps the invariant

    The loops of [transaction_start] (the snapshot, the first active transaction with the data
    of the locks, the oldest interesting transaction), each for a transaction that reads its
    own snapshot and for one that reads what is committed; then the start as a whole: it
    always ends, with an error only if the numbers have run out, and the new transaction has
    the states of its start. *)

From S2P Require Import Prelude Memory Search Outcome StateMonad TraCache TraOps TraInventory TraState TraInv.
From stdpp Require Import gmap.
#[local] Open Scope Z_scope.

Lemma check_active s : 0 <= s <= 3 -> check_state s (Z.shiftl 1 tra_active) = bool_decide (s = tra_active).
Proof. intros Hs. assert (s = 0 \/ s = 1 \/ s = 2 \/ s = 3) as [-> | [-> | [-> | ->]]] by lia; reflexivity. Qed.

Lemma check_interesting s : 0 <= s <= 3 -> check_state s INTERESTING_MASK = bool_decide (s <> tra_committed).
Proof. intros Hs. assert (s = 0 \/ s = 1 \/ s = 2 \/ s = 3) as [-> | [-> | [-> | ->]]] by lia; vm_compute; reflexivity. Qed.

Lemma counters_ok_locks tpt v d : counters_ok tpt d -> counters_ok tpt (set_tra_locks v d).
Proof. intros []. by split. Qed.
Lemma counters_ok_pc tpt v d : counters_ok tpt d -> counters_ok tpt (set_pc_transactions v d).
Proof. intros []. by split. Qed.

Section Start.
Context (tpt : Z) (Htpt : 0 < tpt < 2 ^ 18) (Halign : tpt mod 4 = 0).
Implicit Types (d : database) (t : jrd_tra).

Lemma state_of_range P n : 0 <= state_of tpt P n <= 3.
Proof. apply state_at_range. Qed.

(** The file has room for a page, and the snapshot for the bytes of a block. *)
Definition room_to_start d : Prop := has_room tpt d /\ next_number d + 8 - dbb_oldest_transaction d < 2 ^ 32.

(** ** The transaction that starts, when its snapshot is taken *)

Record starting d t : Prop := {
  sg_counters : counters_ok tpt d;
  sg_cached : cached tpt d;
  sg_top : tra_top t = next_number d /\ tra_number t = next_number d;
  sg_oldest : tra_oldest t = dbb_oldest_transaction d /\ dbb_oldest_transaction d <= next_number d;
  sg_bytes : reads_committed t = false -> bytes (tra_transactions t);
  sg_room : reads_committed t = false -> tra_top t - (tra_oldest t - tra_oldest t mod 4) < room (tra_transactions t) < 2 ^ 32;
  sg_snap n : reads_committed t = false -> tra_oldest t <= n <= tra_top t -> snap t n = state_of tpt (tip_pages d) n
}.

Lemma starting_recached d hi d' t : starting d t -> recached tpt d hi d' -> next_number d / tpt <= hi -> starting d' t.
Proof.
  intros [] [[v ->] Hl] Hh. split; try done; [by apply counters_ok_cache|]. exists hi. by split.
Qed.

(** The snapshot is the state of the pages. *)
Lemma start_inventory_ok d t : counters_ok tpt d -> cache_fresh d \/ cached tpt d -> 1 <= next_number d ->
  tra_top t = next_number d -> tra_number t = next_number d -> tra_oldest t = dbb_oldest_transaction d ->
  dbb_oldest_transaction d < next_number d \/ dbb_oldest_transaction d = 1 ->
  getOIT (header d) = dbb_oldest_transaction d -> next_number d + 7 - dbb_oldest_transaction d < 2 ^ 32 ->
  (reads_committed t = false ->
     tra_transactions t = replicate (Z.to_nat (wrapU 32 ((tra_top t + 1 - Z.land (tra_oldest t) (Z.lnot TRA_MASK) + TRA_MASK) / 4))) 0) ->
  exists v d', start_inventory tpt t d = Ok (set_transactions v t, d') /\ starting d' (set_transactions v t) /\
    recached tpt d (next_number d / tpt + 1) d'.
Proof.
  intros H Hc Hn Htop Hnum Hold Hlt Hhdr Hwin Hbits. pose proof (co_oldest _ _ H) as Ho.
  assert (Hole : dbb_oldest_transaction d <= next_number d) by lia. unfold start_inventory. change (flag t TRA_read_committed) with (reads_committed t).
  destruct (reads_committed t) eqn:Hrc.
  - rewrite Htop. destruct (initializeTpc_ok tpt Htpt Halign d H Hn Hc) as (d' & He & Hr). rewrite (bind_ok _ _ _ _ _ He).
    exists (tra_transactions t), d'. assert (set_transactions (tra_transactions t) t = t) as -> by (by destruct t).
    split; [done|]. split; [|done]. pose proof Hr as [[v ->] Hl]. split; try done; try (rewrite Hrc; done).
    + by apply counters_ok_cache.
    + exists (next_number d / tpt + 1). split; [done|]. unfold next_number. cbn. lia.
  - specialize (Hbits eq_refl). rewrite align_4 in *. set (oit := tra_oldest t) in *. set (base := oit - oit mod 4) in *.
    assert (Hbase : base <= oit < base + 4) by (unfold base; pose proof (Z.mod_pos_bound oit 4 ltac:(lia)); lia).
    assert (Hb4 : base mod 4 = 0).
    { unfold base. pose proof (Z.div_mod oit 4 ltac:(lia)). replace (oit - oit mod 4) with (oit / 4 * 4) by lia. apply Z.mod_mul. lia. }
    assert (0 <= base) by (unfold base; pose proof (Z.mod_le oit 4 ltac:(lia) ltac:(lia)); lia).
    assert (Hpage : base / tpt = oit / tpt).
    { pose proof (number_split tpt Htpt oit ltac:(lia)) as (Hsp & Hm & _). pose proof (mod_align tpt Htpt Halign oit) as Hma.
      unfold base. replace (oit - oit mod 4) with (oit mod tpt - oit mod 4 + oit / tpt * tpt) by lia. rewrite Z.div_add by lia.
      rewrite <- Hma. pose proof (Z.mod_le (oit mod tpt) 4 ltac:(lia) ltac:(lia)). pose proof (Z.mod_pos_bound (oit mod tpt) 4 ltac:(lia)).
      rewrite Z.div_small by lia. done. }
    assert (Hlen : Z.of_nat (length (tra_transactions t)) = vector_len base (tra_top t)).
    { rewrite Hbits, length_replicate, wrapU_id; unfold vector_len, TRA_MASK.
      - rewrite Z2Nat.id; [f_equal; lia|apply Z.div_pos; lia].
      - split; [apply Z.div_pos; lia|apply Z.div_lt_upper_bound; lia]. }
    assert (base < tra_top t).
    { destruct Hlt as [?|Hlt]; [lia|]. unfold base. rewrite Hold, Hlt. change (1 mod 4) with 1. lia. }
    rewrite decide_True by lia. pose proof (number_page tpt Htpt d (next_number d) H ltac:(lia)) as Hpg.
    assert (exists hi, cache_ok tpt d hi /\ dbb_oldest_transaction d / tpt <= hi /\ hi <= next_number d / tpt + 1) as (hi & Hhi & Hohi & Hhi2).
    { destruct Hc as [Hf|(hi & Hl & Hh)].
      - exists (dbb_oldest_transaction d / tpt). split_and!; [by apply fresh_cache|done|]. pose proof (Z.div_le_mono (dbb_oldest_transaction d) (next_number d) tpt ltac:(lia) Hole). lia.
      - exists hi. split_and!; [by apply cache_live_ok| |].
        + etrans; [|exact Hh]. by apply Z.div_le_mono; [lia|].
        + destruct Hl as (lo & (_ & _ & _ & Hlen') & _). rewrite (co_length _ _ H) in Hlen'. done. }
    destruct (TRA_get_inventory_Some tpt Htpt Halign base (tra_top t) ltac:(lia) Hb4 d hi (tra_transactions t) Hhi (co_pages _ _ H)) as (v & d' & He & Hr & Hvlen & Hby & Hst);
      [rewrite Htop; lia|lia|rewrite Hpage, Hold; lia|done|rewrite Hbits; apply Forall_replicate; lia|].
    rewrite (bind_ok _ _ _ _ _ He). cbn [default]. rewrite Htop in Hr, He. rewrite Z.max_r in Hr by lia. exists v, d'. split; [done|]. split; [|done].
    pose proof Hr as [[c ->] Hl]. pose proof (vector_len_bound base (tra_top t)) as Hvb.
    split; try done; cbn [tra_transactions tra_oldest tra_top set_transactions].
    + by apply counters_ok_cache.
    + exists (next_number d / tpt + 1). split; [done|]. unfold next_number. cbn. lia.
    + intros _. fold oit. fold base. unfold room. rewrite Hvlen. lia.
    + intros n _ Hn'. unfold snap. cbn. fold oit. fold base. apply Hst. lia.
Qed.

(** ** One step of a loop *)

Lemma start_state_own d t from mask n : starting d t -> reads_committed t = false -> tra_oldest t <= n <= tra_top t ->
  start_state tpt t from mask n d = Ok (Some (n, state_of tpt (tip_pages d) n), d).
Proof.
  intros H Hrc Hn. unfold start_state. change (flag t TRA_read_committed) with (reads_committed t). rewrite Hrc.
  pose proof (sg_room _ _ H Hrc) as Hr. pose proof (sg_snap _ _ H n Hrc Hn) as Hs. unfold snap in Hs.
  rewrite align_4. set (base := tra_oldest t - tra_oldest t mod 4) in *.
  assert (Hbase : base <= tra_oldest t) by (unfold base; pose proof (Z.mod_pos_bound (tra_oldest t) 4 ltac:(lia)); lia).
  rewrite wrapU_id. 2:{ rewrite trans_offset. split; [apply Z.div_pos; lia|apply Z.div_lt_upper_bound; lia]. }
  rewrite get_state_at; [|lia|].
  - run. by rewrite Hs.
  - unfold base. pose proof (Z.div_mod (tra_oldest t) 4 ltac:(lia)).
    replace (n - (tra_oldest t - tra_oldest t mod 4)) with (n + (- (tra_oldest t / 4)) * 4) by lia. by rewrite Z.mod_add.
Qed.

Lemma start_state_latest d t from mask n : starting d t -> reads_committed t = true -> 1 <= from <= tra_top t ->
  check_state tra_committed mask = false -> check_state tra_precommitted mask = false ->
  exists r d', start_state tpt t from mask n d = Ok ((fun m => (m, state_of tpt (tip_pages d) m)) <$> r, d') /\
    is_first (state_test tpt d mask) from (tra_top t) r /\ recached tpt d (next_number d / tpt + 1) d'.
Proof.
  intros H Hrc Hf Hc1 Hc2. unfold start_state. change (flag t TRA_read_committed) with (reads_committed t). rewrite Hrc.
  destruct (sg_top _ _ H) as [Htop _]. rewrite Htop in *.
  destruct (findStates_ok tpt Htpt Halign d from mask (sg_counters _ _ H) (or_intror (sg_cached _ _ H)) Hf Hc1 Hc2) as (r & d' & He & Hfi & Hr).
  rewrite (bind_ok _ _ _ _ _ He). cbv beta iota. exists r, d'. split; [|done]. destruct r as [m|]; cbn.
  - rewrite decide_False by (destruct Hfi as [? _]; lia). done.
  - by rewrite decide_True.
Qed.

(** ** The first active transaction *)

Lemma oldest_active_found_ok d t data ost : 0 < data -> 0 < tra_oldest_active t -> 0 <= ost ->
  (forall n w, tra_locks d !! n = Some w -> 0 <= w) ->
  exists g, oldest_active_found t data ost d = Ok (set_tra_oldest_active g t, d) /\ 0 <= g <= data /\ g <= tra_oldest_active t /\
    (g = ost \/ forall n w, tra_locks d !! n = Some w -> w <> 0 -> g <= w).
Proof.
  intros Hd Ht Hos Hl. unfold oldest_active_found.
  set (t1 := if decide (data < tra_oldest_active t) then set_tra_oldest_active data t else t).
  assert (exists g, t1 = set_tra_oldest_active g t /\ tra_oldest_active t1 = g /\ 0 < g <= data /\ g <= tra_oldest_active t) as (g & Hg1 & Hg2 & Hg3 & Hg4).
  { unfold t1. case_decide; [exists data|exists (tra_oldest_active t)]; (split; [by destruct t|cbn; lia]). }
  rewrite Hg2. case_decide as He; [exists g; rewrite Hg1; split_and!; try lia; auto|]. unfold LCK_query_data. run.
  case_decide as Hq.
  - exists (lock_min (tra_locks d)). assert (0 < lock_min (tra_locks d)).
    { destruct Hq as [Hq0 _]. unfold lock_min in *. destruct (filter _ _) as [|v l] eqn:E; [done|].
      assert (forall w, w ∈ v :: l -> 0 < w).
      { intros w Hw. rewrite <- E in Hw. apply list_elem_of_filter in Hw as [Hw0 Hw]. apply list_elem_of_fmap in Hw as ([n w'] & -> & Hw).
        apply elem_of_map_to_list in Hw. specialize (Hl _ _ Hw). cbn in *. lia. }
      destruct (foldr_min_in v l) as [->|Hi]; apply H; [by left|by right]. }
    split_and!; [rewrite Hg1; by destruct t|lia|lia|lia|]. right. intros n w Hn Hw. by destruct (lock_min_spec _ n w Hn Hw).
  - exists g. split_and!; [by rewrite Hg1|lia|lia|lia|]. right. intros n w Hn Hw. destruct (lock_min_spec _ n w Hn Hw) as [H1 H2]. lia.
Qed.

(** The transactions that are active hold locks with a datum. *)
Definition data_ok d (from : Z) : Prop :=
  (forall n, from <= n < next_number d -> state_of tpt (tip_pages d) n = tra_active -> exists v, tra_locks d !! n = Some v /\ 0 < v <= n) /\
  (forall n w, tra_locks d !! n = Some w -> 0 <= w).

Definition active_test d (n : Z) : bool := bool_decide (state_of tpt (tip_pages d) n = tra_active).

Lemma active_loop_ok fuel d t cleanup ost a oa : starting d t -> tra_oldest t <= a -> 1 <= a -> data_ok d a ->
  tra_top t - a <= Z.of_nat fuel -> 0 < tra_oldest_active t -> 0 <= ost ->
  exists r g d', active_loop tpt fuel t cleanup ost a oa d = Ok (set_tra_oldest_active g t, match r with Some m => Z.min oa m | None => oa end, d') /\
    is_first (active_test d) a (tra_top t) r /\ (d' = d \/ recached tpt d (next_number d / tpt + 1) d') /\
    match r with
    | None => g = tra_oldest_active t
    | Some m => 0 <= g <= m /\ (g = ost \/ forall n w, tra_locks d !! n = Some w -> w <> 0 -> g <= w)
    end.
Proof.
  intros H. destruct (sg_top _ _ H) as [Htop _]. revert a. induction fuel as [|fuel IH]; intros a Hoa Ha Hdata Hf Ht Hos; cbn [active_loop];
    (case_decide as Hd; [|exists None, (tra_oldest_active t), d; split; [by destruct t|]; split; [intros n Hn; lia|auto]]); [lia|].
  assert (Htest : forall n, state_test tpt d (Z.shiftl 1 tra_active) n = active_test d n).
  { intros n. apply check_active, state_of_range. }
  assert (Hfound : forall m d', a <= m < tra_top t -> state_of tpt (tip_pages d) m = tra_active -> tra_locks d' = tra_locks d ->
    exists g, (data ← LCK_read_data m;
      if bool_decide (data = 0) && cleanup then
        '(t, state) ← TRA_wait tpt t m tra_no_wait;
        active_loop tpt fuel t (cleanup && bool_decide (state <> tra_committed)) ost (m + 1) oa
      else t ← oldest_active_found t (if decide (data = 0) then m else data) ost; ret (t, Z.min oa m)) d'
      = Ok (set_tra_oldest_active g t, Z.min oa m, d') /\ 0 <= g <= m /\ (g = ost \/ forall n w, tra_locks d !! n = Some w -> w <> 0 -> g <= w)).
  { intros m d' Hm Hst Hlk. destruct Hdata as [Hdat Hpos]. destruct (Hdat m ltac:(lia) Hst) as (v & Hv & Hv0).
    unfold LCK_read_data. run. rewrite Hlk, Hv. change (default 0 (Some v)) with v. rewrite bool_decide_eq_false_2 by lia. cbn [andb]. rewrite decide_False by lia.
    destruct (oldest_active_found_ok d' t v ost) as (g & He & Hg1 & Hg2 & Hg3); [lia|done|done|by rewrite Hlk|].
    rewrite (bind_ok _ _ _ _ _ He). exists g. split; [done|]. split; [lia|]. by rewrite Hlk in Hg3. }
  destruct (reads_committed t) eqn:Hrc.
  - destruct (start_state_latest d t a (Z.shiftl 1 tra_active) a H Hrc ltac:(lia) eq_refl eq_refl) as (r & d' & He & Hfi & Hr).
    rewrite (bind_ok _ _ _ _ _ He). assert (Hfi' : is_first (active_test d) a (tra_top t) r).
    { destruct r as [m|]; cbn in *; [destruct Hfi as (? & Hp & Hb); rewrite <- Htest; split_and!; [lia|lia|done|]|]; intros n Hn; rewrite <- Htest; auto. }
    pose proof Hr as [[v Hd'] _]. destruct r as [m|]; cbn [fmap option_fmap option_map].
    + destruct Hfi' as (Hm & Hp & Hb). apply bool_decide_eq_true in Hp. rewrite decide_True by done.
      destruct (Hfound m d' Hm Hp) as (g & Hg & Hg1 & Hg2); [by subst d'|]. exists (Some m), g, d'. split; [exact Hg|].
      split; [split_and!; [lia|lia|by apply bool_decide_eq_true|done]|]. auto.
    + exists None, (tra_oldest_active t), d'. split; [by destruct t|]. auto.
  - rewrite (bind_ok _ _ _ _ _ (start_state_own d t a _ a H Hrc ltac:(lia))). case_decide as Hst.
    + destruct (Hfound a d ltac:(lia) Hst eq_refl) as (g & Hg & Hg1 & Hg2). exists (Some a), g, d. split; [exact Hg|].
      split; [split_and!; [lia|lia|by apply bool_decide_eq_true|intros; lia]|]. auto.
    + destruct (IH (a + 1)) as (r & g & d' & He & Hfi & Hr & Hg); [lia|lia| |lia|done|done|].
      { destruct Hdata as [Hd1 Hd2]. split; [|done]. intros n Hn. apply Hd1. lia. }
      exists r, g, d'. split; [exact He|]. split; [|done]. apply (is_first_skip _ _ (a + 1)); [lia| |done].
      intros n Hn. replace n with a by lia. by apply bool_decide_eq_false.
Qed.

(** ** The oldest interesting transaction *)

Definition interesting_test d (n : Z) : bool := bool_decide (state_of tpt (tip_pages d) n <> tra_committed).

Lemma oldest_loop_ok fuel d t o : starting d t -> tra_oldest t <= o <= tra_top t -> 1 <= tra_oldest t -> tra_top t - o <= Z.of_nat fuel ->
  (forall n, tra_oldest t <= n < o -> interesting_test d n = false) ->
  exists r d', oldest_loop tpt fuel t o d = Ok (default (tra_top t) r, d') /\ is_first (interesting_test d) (tra_oldest t) (tra_top t) r /\
    (d' = d \/ recached tpt d (next_number d / tpt + 1) d').
Proof.
  intros H. destruct (sg_top _ _ H) as [Htop _]. revert o. induction fuel as [|fuel IH]; intros o Ho H1 Hf Hb; cbn [oldest_loop];
    (case_decide as Hd; [|exists None, d; split; [unfold ret; cbn; do 2 f_equal; lia|]; split; [|auto]; intros n Hn; apply Hb; lia]); [lia|].
  assert (Htest : forall n, state_test tpt d INTERESTING_MASK n = interesting_test d n).
  { intros n. apply check_interesting, state_of_range. }
  destruct (reads_committed t) eqn:Hrc.
  - destruct (start_state_latest d t (tra_oldest t) INTERESTING_MASK o H Hrc ltac:(lia) eq_refl eq_refl) as (r & d' & He & Hfi & Hr).
    rewrite (bind_ok _ _ _ _ _ He). assert (Hfi' : is_first (interesting_test d) (tra_oldest t) (tra_top t) r).
    { destruct r as [m|]; cbn in *; [destruct Hfi as (? & Hp & Hb'); rewrite <- Htest; split_and!; [lia|lia|done|]|]; intros n Hn; rewrite <- Htest; auto. }
    exists r, d'. split; [|auto]. destruct r as [m|]; cbn [fmap option_fmap option_map default]; [|done].
    destruct Hfi' as (_ & Hp & _). apply bool_decide_eq_true in Hp. pose proof (state_of_range (tip_pages d) m).
    rewrite decide_True by (unfold tra_precommitted; split; [done|lia]). done.
  - rewrite (bind_ok _ _ _ _ _ (start_state_own d t _ _ o H Hrc ltac:(lia))). pose proof (state_of_range (tip_pages d) o). case_decide as Hst.
    + exists (Some o), d. split; [done|]. split; [|auto]. split_and!; [lia|lia|apply bool_decide_eq_true; tauto|done].
    + destruct (IH (o + 1)) as (r & d' & He & Hfi & Hr); [lia|lia|lia| |].
      { intros n Hn. destruct (decide (n < o)); [apply Hb; lia|]. replace n with o by lia. apply bool_decide_eq_false.
        intros Hne. apply Hst. split; [done|]. unfold tra_precommitted. lia. }
      by exists r, d'.
Qed.

End Start.

(** ** The vector of precommitted transactions *)

Lemma pc_loop_slot n v i zp : match pc_loop n i v zp with
  | inl j => exists k, j = i + Z.of_nat k /\ v !! k = Some n
  | inr None => zp = None
  | inr (Some j) => zp = Some j \/ exists k, j = i + Z.of_nat k /\ v !! k = Some 0
  end.
Proof.
  revert i zp. induction v as [|p v IH]; intros i zp; cbn; [destruct zp; auto|]. case_decide as Hp.
  - exists 0%nat. split; [lia|]. cbn. congruence.
  - match goal with |- context [pc_loop n (i + 1) v ?z] => specialize (IH (i + 1) z); destruct (pc_loop n (i + 1) v z) as [j|[j|]] end.
    + destruct IH as (k & -> & Hk). exists (S k). split; [lia|done].
    + destruct IH as [IH|(k & -> & Hk)].
      * destruct zp as [z|]; [by left|]. case_decide as H0; [|done]. injection IH as <-. right. exists 0%nat. split; [lia|]. cbn. congruence.
      * right. exists (S k). split; [lia|done].
    + destruct zp as [z|]; [done|]. done.
Qed.

Lemma list_insert_inv {A} (l : list A) i x y : y ∈ <[i := x]> l -> y = x \/ y ∈ l.
Proof.
  intros [j Hj]%list_elem_of_lookup. destruct (decide (j = i)) as [->|Hne].
  - apply list_lookup_insert_Some in Hj. left. destruct Hj as [(_ & <- & _)|(? & _)]; congruence.
  - rewrite list_lookup_insert_ne in Hj by done. right. by eapply list_elem_of_lookup_2.
Qed.

(** Numbers leave the vector or become the new one, which is then in it. *)
Definition vector_renewed (new : Z) (old v : list Z) : Prop :=
  (forall m, m ∈ v -> m = new \/ m = 0 \/ m ∈ old) /\ (new <> 0 -> new ∈ v).

Lemma renewed_insert new v k x : v !! k = Some x -> vector_renewed new v (<[k := new]> v).
Proof.
  intros Hk%lookup_lt_Some. split; [intros m Hm%list_insert_inv; tauto|]. intros _. by apply (list_elem_of_lookup_2 _ k), list_lookup_insert_eq.
Qed.

Lemma renewed_single new old : vector_renewed new old [new].
Proof. split; [intros m Hm%list_elem_of_singleton; auto|]. intros _. by apply list_elem_of_singleton. Qed.

Lemma renewed_app new v : vector_renewed new v (v ++ [new]).
Proof. split; [intros m [?|?%list_elem_of_singleton]%elem_of_app; auto|]. intros _. apply elem_of_app. right. by apply list_elem_of_singleton. Qed.

Lemma TRA_precommited_ok old new d : old <> new ->
  exists b v, TRA_precommited old new d = Ok (b, set_pc_transactions v d) /\ vector_renewed new (precommits d) (default [] v).
Proof.
  intros Hne. unfold TRA_precommited, precommits. run. destruct (dbb_pc_transactions d) as [v|] eqn:Hv.
  - pose proof (pc_loop_slot old v 0 None) as Hs. destruct (pc_loop old 0 v None) as [j|zp].
    + destruct Hs as (k & -> & Hk). run. eexists _, _. split; [reflexivity|].
      rewrite aset_in by (apply lookup_lt_Some in Hk; lia). cbn. rewrite ?Z.add_0_l, ?Nat2Z.id. by eapply renewed_insert.
    + case_decide as Hd.
      * eexists _, (Some v). split; [unfold ret; rewrite <- Hv; by destruct d|]. split; [auto|]. intros ?. by destruct Hd.
      * run. eexists _, _. split; [reflexivity|]. destruct zp as [j|]; [|apply renewed_app].
        destruct Hs as [?|(k & -> & Hk)]; [done|]. rewrite aset_in by (apply lookup_lt_Some in Hk; lia). cbn.
        rewrite ?Z.add_0_l, ?Nat2Z.id. by eapply renewed_insert.
  - rewrite decide_False by done. destruct (pc_loop old 0 [0] None) as [j|zp].
    + run. eexists _, _. split; [reflexivity|]. apply renewed_single.
    + case_decide as H0; run; (eexists _, _; split; [reflexivity|]); [rewrite H0|]; apply renewed_single.
Qed.

Section Begin.
Context (tpt : Z) (Htpt : 0 < tpt < 2 ^ 18) (Halign : tpt mod 4 = 0).
Implicit Types (d : database) (live : gmap Z jrd_tra) (t : jrd_tra).

(** ** The number and the lock *)

Lemma next_unlocked d live : sys_inv tpt d live -> tra_locks d !! (next_number d + 1) = None /\ live !! (next_number d + 1) = None.
Proof.
  intros H. assert (live !! (next_number d + 1) = None) as Hn.
  { destruct (live !! _) as [t|] eqn:Ht; [|done]. destruct (lo_number _ _ _ _ (si_live _ _ _ H _ _ Ht)). lia. }
  split; [|done]. destruct (tra_locks d !! _) eqn:Hl; [|done]. destruct (si_locks _ _ _ H (next_number d + 1)) as [t Ht]; [eauto|]. congruence.
Qed.

Lemma inv_bump d live : sys_inv tpt d live -> has_room tpt d ->
  if decide (next_number d >= MAX_TRA_NUMBER - 1) then bump_transaction_id tpt d = Ok (inl isc_tra_num_exc, d)
  else exists d', bump_transaction_id tpt d = Ok (inr (header d'), d') /\ bumped tpt d d'.
Proof. intros H Hr. apply bump_ok; [done|done|apply (si_counters _ _ _ H)|apply (si_cache _ _ _ H)|done]. Qed.

Definition start_flags (flags : Z) : Prop := Z.land flags TRA_system = 0 /\ Z.land flags TRA_precommitted_flag = 0.

Lemma start_begin_ok flags d live : sys_inv tpt d live -> room_to_start tpt d ->
  if decide (next_number d >= MAX_TRA_NUMBER - 1) then start_begin tpt flags d = Ok (inl isc_tra_num_exc, d)
  else exists d1 bits, let number := next_number d + 1 in let active := Z.max (dbb_oldest_active d) (dbb_oldest_transaction d) in
    let rc := bool_decide (Z.land flags TRA_read_committed <> 0) in let v := if rc then number else active in
    start_begin tpt flags d = Ok (inr (Tra flags number number (dbb_oldest_transaction d) active bits (Some (MkLock LCK_tra number v)) ∅ [] false,
      dbb_oldest_snapshot d), set_tra_locks (<[number := v]> (tra_locks d1)) d1) /\
    bumped tpt d d1 /\
    (rc = false -> bits = replicate (Z.to_nat (wrapU 32 ((number + 1 - Z.land (dbb_oldest_transaction d) (Z.lnot TRA_MASK) + TRA_MASK) / 4))) 0).
Proof.
  intros H [Hroom Hwin]. pose proof (si_counters _ _ _ H) as Hc. unfold start_begin, allocate_number. pose proof (inv_bump d live H Hroom) as Hb.
  case_decide as Hmax.
  - erewrite bind_ok; [|run; change (id d) with d; rewrite (co_write _ _ Hc), (bind_ok _ _ _ _ _ Hb); reflexivity]. done.
  - destruct Hb as (d1 & He & Hbu). destruct Hbu as [B1 B2 (B3 & B4 & B5) B6 B7 B8 B9 B10]. exists d1. eexists. cbv zeta.
    erewrite bind_ok.
    2:{ run. change (id d) with d. rewrite (co_write _ _ Hc). rewrite (bind_ok _ _ _ _ _ He). reflexivity. }
    cbv beta iota. change (getNT (header d1)) with (next_number d1). rewrite B2, B3, B4, B5. run. change (id d1) with d1.
    rewrite (co_write _ _ B1). destruct (next_unlocked d live H) as [Hl _].
    erewrite bind_ok.
    2:{ unfold LCK_lock. cbn [lck_type lck_key lck_data]. unfold transaction_locked. run. rewrite B8, Hl. rewrite bool_decide_eq_false_2 by (by intros [? ?]). run. rewrite B8. reflexivity. }
    cbv beta iota. rewrite B8. split; [reflexivity|]. split; [by split|].
    intros Hrc. rewrite Hrc. cbn [negb andb]. rewrite bool_decide_eq_true_2; [done|]. pose proof (co_oldest _ _ Hc). pose proof (co_number _ _ Hc). lia.
Qed.

(** ** The lock, the counters *)

Lemma start_lock_data_ok d t n v oa : tra_lock t = Some (MkLock LCK_tra n v) -> tra_locks d !! n = Some v ->
  let data := if reads_committed t then tra_number t else oa in
  exists w, (w = v \/ w = data) /\
    start_lock_data t oa d = Ok (set_lock (Some (MkLock LCK_tra n w)) t, set_tra_locks (<[n := w]> (tra_locks d)) d).
Proof.
  intros Hl Hd data. unfold start_lock_data. change (flag t TRA_read_committed) with (reads_committed t). fold data. rewrite Hl. cbn [lck_data lck_key lck_type].
  case_decide.
  - exists data. split; [by right|]. by run.
  - exists v. split; [by left|]. rewrite insert_id by done. rewrite <- Hl. by destruct t, d.
Qed.

Lemma start_counters_ok d t o oa : 1 <= o < 2 ^ 64 ->
  exists d', start_counters t o oa d = Ok (tt, d') /\
    d' = set_oldest_snapshot (Z.max (dbb_oldest_snapshot d) (tra_oldest_active t))
          (set_oldest_active (Z.max (dbb_oldest_active d) oa) (set_oldest_transaction (Z.max (dbb_oldest_transaction d) (o - 1)) d)).
Proof.
  intros Ho. unfold start_counters. rewrite wrapU_id by (unfold inU; lia). eexists. split; [|reflexivity]. run.
  unfold modify. do 2 f_equal.
  destruct (decide (o - 1 > dbb_oldest_transaction d)); cbn;
  destruct (decide (oa > dbb_oldest_active d)); cbn;
  (destruct (decide (tra_oldest_active t > dbb_oldest_snapshot d)); cbn); unfold set_oldest_snapshot, set_oldest_active, set_oldest_transaction; cbn;
  rewrite ?(Z.max_r (dbb_oldest_transaction d)), ?(Z.max_l (dbb_oldest_transaction d)), ?(Z.max_r (dbb_oldest_active d)), ?(Z.max_l (dbb_oldest_active d)),
    ?(Z.max_r (dbb_oldest_snapshot d)), ?(Z.max_l (dbb_oldest_snapshot d)) by lia; by destruct d.
Qed.

(** ** The invariant with the new transaction *)

(** The database once the number, the lock and the counters are there *)
Record started d d1 live t (v : Z) d' : Prop := {
  sd_bumped : bumped tpt d d1;
  sd_pages : tip_pages d' = tip_pages d1 /\ header d' = header d1 /\ dbb_next_transaction d' = dbb_next_transaction d1 /\
    dbb_read_only d' = dbb_read_only d1 /\ dbb_pc_transactions d' = dbb_pc_transactions d1;
  sd_cached : cached tpt d';
  sd_locks : tra_locks d' = <[next_number d + 1 := v]> (tra_locks d);
  sd_oldest : dbb_oldest_transaction d <= dbb_oldest_transaction d' <= Z.max 1 (next_number d + 1);
  sd_committed n : 1 <= n < dbb_oldest_transaction d' -> state_of tpt (tip_pages d1) n = tra_committed;
  sd_active : dbb_oldest_active d <= dbb_oldest_active d' <= next_number d + 1;
  sd_no_active n : 1 <= n < dbb_oldest_active d' -> state_of tpt (tip_pages d1) n <> tra_active;
  sd_snapshot : dbb_oldest_snapshot d' = Z.max (dbb_oldest_snapshot d) (tra_oldest_active t);
  sd_safe : 0 <= tra_oldest_active t <= dbb_oldest_active d';
  sd_clear n s : live !! n = Some s -> reads_committed s = false -> clear s (tra_oldest_active t);
  sd_number : tra_number t = next_number d + 1 /\ tra_top t = next_number d + 1 /\ tra_oldest t = dbb_oldest_transaction d;
  sd_flags : flag t TRA_system = false /\ is_precommitted t = false;
  sd_lock : tra_lock t = Some (MkLock LCK_tra (next_number d + 1) v) /\ 1 <= v <= next_number d + 1;
  sd_snap : reads_committed t = false -> snapshot_ok tpt d' t /\ clear t v /\ clear t (tra_oldest_active t) /\
    forall n, tra_oldest t <= n <= tra_top t -> snap t n = state_of tpt (tip_pages d') n
}.

Lemma started_counters d d1 t v d' live : sys_inv tpt d live -> started d d1 live t v d' -> counters_ok tpt d'.
Proof.
  intros H []. destruct sd_bumped0 as [B1 B2 (B3 & B4 & B5) (B6 & B7 & B8) _ _ _ _]. destruct sd_pages0 as (E1 & E2 & E3 & E4 & E5).
  pose proof (si_counters _ _ _ H) as Hc. pose proof (co_oldest _ _ Hc). pose proof (co_active _ _ Hc). pose proof (co_snapshot _ _ Hc).
  assert (HN : next_number d' = next_number d + 1) by (unfold next_number in *; rewrite E2; exact B2).
  destruct B1. split; rewrite ?E1, ?E2, ?E3, ?E4, ?HN, <- ?B2; try done; try lia.
Qed.

Lemma inv_started d d1 live t v d' : sys_inv tpt d live -> started d d1 live t v d' -> sys_inv tpt d' (<[next_number d + 1 := t]> live).
Proof.
  intros H S. pose proof (started_counters _ _ _ _ _ _ H S) as Hc'. destruct S. destruct sd_bumped0 as [B1 B2 (B3 & B4 & B5) (B6 & B7 & B8) B9 B10 _ B12].
  destruct sd_pages0 as (E1 & E2 & E3 & E4 & E5). destruct sd_number0 as (N1 & N2 & N3). destruct sd_flags0 as [F1 F2]. destruct sd_lock0 as [L1 L2].
  assert (HN : next_number d' = next_number d + 1) by (unfold next_number in *; rewrite E2; exact B2).
  pose proof (co_number _ _ (si_counters _ _ _ H)) as Hnum. pose proof (co_oldest _ _ (si_counters _ _ _ H)) as Ho. pose proof (co_active _ _ (si_counters _ _ _ H)) as Ha.
  assert (Hst : forall n, 0 <= n <= next_number d + 1 -> state_of tpt (tip_pages d') n = if decide (n <= next_number d) then state_of tpt (tip_pages d) n else tra_active).
  { intros n Hn. rewrite E1. by apply B12. }
  destruct (next_unlocked d live H) as [Hul Hnl].
  assert (Hothers : forall n s, live !! n = Some s -> n <> next_number d + 1) by congruence.
  assert (Hsafe : forall g, g <= dbb_oldest_active d' -> (forall n s, live !! n = Some s -> reads_committed s = false -> clear s g) ->
    (reads_committed t = false -> clear t g) -> safe_point d' (<[next_number d + 1 := t]> live) g).
  { intros g Hg Hcl Ht. split; [done|]. intros n s. destruct (decide (n = next_number d + 1)) as [->|Hne].
    - rewrite lookup_insert_eq. by intros [= <-].
    - rewrite lookup_insert_ne by done. apply Hcl. }
  assert (Hnew : forall g, g <= dbb_oldest_active d -> reads_committed t = false -> clear t g).
  { intros g Hg Hr. split; [lia|]. intros n Hn Hlt. destruct (sd_snap0 Hr) as (_ & _ & _ & ->); [|done]. rewrite Hst by lia. rewrite decide_True by lia.
    apply (co_no_active _ _ (si_counters _ _ _ H)). lia. }
  assert (Hold : forall g, safe_point d live g -> safe_point d' (<[next_number d + 1 := t]> live) g).
  { intros g [Hg1 Hg2]. apply Hsafe; [lia|exact Hg2|by apply Hnew]. }
  assert (Htoa : safe_point d' (<[next_number d + 1 := t]> live) (tra_oldest_active t)).
  { apply Hsafe; [lia|exact sd_clear0|intros Hr; by destruct (sd_snap0 Hr) as (_ & _ & ? & _)]. }
  split.
  - done.
  - by right.
  - done.
  - intros n Hn. rewrite Hst by lia. case_decide; [apply (si_limbo _ _ _ H); lia|done].
  - intros n Hn. rewrite Hst by lia. destruct (decide (n = next_number d + 1)) as [->|Hne]; [rewrite lookup_insert_eq; eauto|].
    rewrite lookup_insert_ne, decide_True by lia. apply (si_active _ _ _ H). lia.
  - intros n s. destruct (decide (n = next_number d + 1)) as [->|Hne].
    + rewrite lookup_insert_eq. intros [= <-]. split.
      * split; [done|lia].
      * lia.
      * intros m Hm. rewrite Hst by lia. rewrite decide_True by lia. apply (co_committed _ _ (si_counters _ _ _ H)). lia.
      * done.
      * rewrite F2. rewrite Hst, decide_False by lia. split; [done|]. exists v. rewrite sd_locks0, lookup_insert_eq.
        split_and!; [done|done|lia|lia|]. intros Hr. by destruct (sd_snap0 Hr) as (_ & ? & _).
      * intros Hr. by destruct (sd_snap0 Hr) as (? & _).
    + rewrite lookup_insert_ne by done. intros Hs. apply (live_frame tpt d); [by apply (si_live _ _ _ H)|lia|by rewrite sd_locks0, lookup_insert_ne by done|].
      intros m Hm. left. rewrite Hst by lia. by rewrite decide_True by lia.
  - intros n. rewrite sd_locks0. destruct (decide (n = next_number d + 1)) as [->|Hne]; [rewrite !lookup_insert_eq; eauto|].
    rewrite !lookup_insert_ne by done. apply (si_locks _ _ _ H).
  - intros n. unfold precommits. rewrite E5, B9. intros Hn. destruct (si_pc _ _ _ H n Hn) as [?|[Hn1 Hn2]]; [by left|right].
    split; [lia|]. rewrite Hst by lia. by rewrite decide_True by lia.
  - rewrite sd_snapshot0. destruct (Z.max_spec (dbb_oldest_snapshot d) (tra_oldest_active t)) as [[_ ->]|[_ ->]]; [exact Htoa|].
    apply Hold, (si_snapshot _ _ _ H).
  - intros n s. destruct (decide (n = next_number d + 1)) as [->|Hne].
    + rewrite lookup_insert_eq. by intros [= <-].
    + rewrite lookup_insert_ne by done. intros Hs. apply Hold. by apply (si_oldest _ _ _ H n).
Qed.

(** ** The whole start *)

Lemma starting_fields d t t' : starting tpt d t -> tra_top t' = tra_top t -> tra_number t' = tra_number t -> tra_oldest t' = tra_oldest t ->
  tra_transactions t' = tra_transactions t -> reads_committed t' = reads_committed t -> starting tpt d t'.
Proof. intros [] E1 E2 E3 E4 E5. split; unfold snap in *; rewrite ?E1, ?E2, ?E3, ?E4, ?E5; done. Qed.

Lemma starting_maybe d t d' : starting tpt d t -> d' = d \/ recached tpt d (next_number d / tpt + 1) d' ->
  starting tpt d' t /\ exists c, d' = set_cache c d.
Proof.
  intros H [->|Hr].
  - split; [done|]. exists (m_cache d). by destruct d.
  - split; [by apply (starting_recached tpt d (next_number d / tpt + 1)); [..|lia]|]. by destruct Hr as [? _].
Qed.

Lemma starting_locks d t v : starting tpt d t -> starting tpt (set_tra_locks v d) t.
Proof. intros []. split; try done. by apply counters_ok_locks. Qed.

(** Everything up to the last step. *)
Lemma start_end_ok flags d d1 live bits : sys_inv tpt d live -> room_to_start tpt d -> start_flags flags -> bumped tpt d d1 ->
  next_number d + 1 <= MAX_TRA_NUMBER ->
  let number := next_number d + 1 in let active := Z.max (dbb_oldest_active d) (dbb_oldest_transaction d) in
  let rc := bool_decide (Z.land flags TRA_read_committed <> 0) in let v := if rc then number else active in
  (rc = false -> bits = replicate (Z.to_nat (wrapU 32 ((number + 1 - Z.land (dbb_oldest_transaction d) (Z.lnot TRA_MASK) + TRA_MASK) / 4))) 0) ->
  exists t w d', start_end tpt (Tra flags number number (dbb_oldest_transaction d) active bits (Some (MkLock LCK_tra number v)) ∅ [] false)
      (dbb_oldest_snapshot d) (set_tra_locks (<[number := v]> (tra_locks d1)) d1) = start_precommit tpt t d' /\
    started d d1 live t w d' /\ tra_flags t = flags /\ tra_commit_sub_trans t = ∅.
Proof.
  intros H [Hroom Hwin] [Hf1 Hf2] Hbu Hmax number active rc v Hbits. pose proof (si_counters _ _ _ H) as Hc.
  pose proof Hbu as [B1 B2 (B3 & B4 & B5) (B6 & B7 & B8) B9 B10 [B11 _] B12].
  pose proof (co_oldest _ _ Hc) as Ho. pose proof (co_active _ _ Hc) as Ha. pose proof (co_number _ _ Hc) as Hnum. pose proof (co_snapshot _ _ Hc) as Hsn.
  set (t0 := Tra flags number number (dbb_oldest_transaction d) active bits (Some (MkLock LCK_tra number v)) ∅ [] false).
  set (d2 := set_tra_locks (<[number := v]> (tra_locks d1)) d1).
  assert (Hrc0 : reads_committed t0 = rc) by done.
  destruct (start_inventory_ok tpt Htpt Halign d2 t0) as (bv & d3 & Hinv & Hs3 & Hr3); try done.
  { by apply counters_ok_locks. }
  { change (1 <= next_number d1). lia. }
  { change (dbb_oldest_transaction d1 < next_number d1 \/ dbb_oldest_transaction d1 = 1). lia. }
  { change (getOIT (header d1) = dbb_oldest_transaction d1). lia. }
  { change (next_number d1 + 7 - dbb_oldest_transaction d1 < 2 ^ 32). lia. }
  destruct Hr3 as [[c3 Hd3] _].
  set (t4 := set_tra_oldest_active number (set_transactions bv t0)).
  assert (Hs4 : starting tpt d3 t4) by (by apply (starting_fields _ _ _ Hs3)).
  assert (HN3 : next_number d3 = number) by (subst d3; exact B2).
  assert (Hlk3 : tra_locks d3 = <[number := v]> (tra_locks d)) by (subst d3; cbn; by rewrite B10).
  assert (Hst3 : forall n, 0 <= n <= number -> state_of tpt (tip_pages d3) n = if decide (n <= next_number d) then state_of tpt (tip_pages d) n else tra_active).
  { intros n Hn. subst d3. apply B12. done. }
  assert (Hdata : data_ok tpt d3 active).
  { split.
    - intros n Hn. rewrite HN3 in Hn. rewrite Hst3, decide_True by lia. intros Hac. destruct (si_active _ _ _ H n ltac:(lia) Hac) as [s Hs].
      pose proof (lo_kind _ _ _ _ (si_live _ _ _ H _ _ Hs)) as Hk. destruct (is_precommitted s); [destruct Hk as (_ & Hco & _); by rewrite Hco in Hac|].
      destruct Hk as (_ & x & _ & Hx & Hx1 & _). exists x. rewrite Hlk3, lookup_insert_ne by lia. split; [done|lia].
    - intros n x. rewrite Hlk3. destruct (decide (n = number)) as [->|Hne].
      + rewrite lookup_insert_eq. intros [= <-]. unfold v. destruct rc; lia.
      + rewrite lookup_insert_ne by done. by apply (inv_lock_nonneg tpt d live). }
  destruct (active_loop_ok tpt Htpt Halign (Z.to_nat (number - active)) d3 t4 (bool_decide (number mod TRA_ACTIVE_CLEANUP = 0)) (dbb_oldest_snapshot d) active number Hs4)
    as (r & g & d4 & He4 & Hfi4 & Hd4 & Hg4); [cbn; lia|lia|done|cbn; lia|cbn; lia|lia|].
  destruct (starting_maybe _ _ _ Hs4 Hd4) as [Hs4' [c4 Hd4']].
  set (oa := match r with Some m => Z.min number m | None => number end) in *.
  set (t5 := set_tra_oldest_active g t4) in *.
  assert (Hlk4 : tra_locks d4 = <[number := v]> (tra_locks d)) by (subst d4; exact Hlk3).
  destruct (start_lock_data_ok d4 t5 number v oa) as (w & Hw & He5); [done|by rewrite Hlk4, lookup_insert_eq|].
  set (t6 := set_lock (Some (MkLock LCK_tra number w)) t5) in *. set (d5 := set_tra_locks (<[number := w]> (tra_locks d4)) d4) in *.
  assert (Hs6 : starting tpt d5 t6).
  { apply starting_locks. by apply (starting_fields _ _ _ Hs4'). }
  destruct (oldest_loop_ok tpt Htpt Halign (Z.to_nat (number - dbb_oldest_transaction d)) d5 t6 (dbb_oldest_transaction d) Hs6) as (r2 & d6 & He6 & Hfi6 & Hd6);
    [cbn; lia|cbn; lia|cbn; lia|cbn; intros; lia|].
  destruct (starting_maybe _ _ _ Hs6 Hd6) as [Hs6' [c6 Hd6']].
  set (o := default (tra_top t6) r2) in *.
  assert (Ho6 : dbb_oldest_transaction d <= o <= number).
  { unfold o. destruct r2 as [m|]; cbn; [destruct Hfi6 as [Hm _]; cbn in Hm; lia|lia]. }
  destruct (start_counters_ok d6 t6 o oa) as (d7 & He7 & Hd7); [unfold MAX_TRA_NUMBER in *; lia|].
  exists (if negb (flag t6 TRA_system) && negb (flag t6 TRA_no_auto_undo) then startSavepoint t6 else t6), w, d7.
  split.
  { unfold start_end. run. change (id d2) with d2. change (dbb_read_only d2) with (dbb_read_only d1). rewrite (co_write _ _ B1).
    rewrite (bind_ok _ _ _ _ _ Hinv). unfold start_oldest_active.
    change (tra_number (set_transactions bv t0)) with number. change (tra_oldest_active (set_transactions bv t0)) with active.
    change (tra_top (set_transactions bv t0)) with number. fold t4.
    rewrite (bind_ok _ _ _ _ _ He4). cbv beta iota. rewrite (bind_ok _ _ _ _ _ He5).
    change (tra_top t6) with number in *. change (tra_oldest t6) with (dbb_oldest_transaction d).
    rewrite (bind_ok _ _ _ _ _ He6). cbn [andb]. rewrite (bind_ok _ _ _ _ _ He7). reflexivity. }
  split; [|by destruct (negb _ && _)].
  set (t7 := if negb (flag t6 TRA_system) && negb (flag t6 TRA_no_auto_undo) then startSavepoint t6 else t6).
  assert (E7 : tra_number t7 = number /\ tra_top t7 = number /\ tra_oldest t7 = dbb_oldest_transaction d /\ tra_oldest_active t7 = g /\
    tra_transactions t7 = bv /\ tra_lock t7 = Some (MkLock LCK_tra number w) /\ tra_flags t7 = flags /\ tra_commit_sub_trans t7 = ∅).
  { unfold t7. by destruct (negb _ && _). }
  clearbody t7. destruct E7 as (E1 & E2 & E3 & E4 & E5 & E6 & E7 & E8).
  assert (Hrc7 : reads_committed t7 = rc) by (unfold reads_committed, flag; by rewrite E7).
  assert (Hrc4 : reads_committed t4 = rc) by done.
  assert (Hoa : active <= oa <= number).
  { unfold oa. destruct r as [m|]; [destruct Hfi4 as [Hm _]; cbn in Hm; lia|lia]. }
  assert (Hnone : forall n, 1 <= n < oa -> state_of tpt (tip_pages d1) n <> tra_active).
  { intros n Hn. destruct (decide (n < active)) as [Hlt|Hge].
    - rewrite B12, decide_True by lia. destruct (decide (n < dbb_oldest_active d)); [by apply (co_no_active _ _ Hc); lia|].
      rewrite (co_committed _ _ Hc) by lia. done.
    - assert (active_test tpt d3 n = false) as Ht.
      { unfold oa in Hn. destruct r as [m|]; [destruct Hfi4 as (_ & _ & Hb); apply Hb|apply Hfi4]; change (tra_top t4) with number; lia. }
      apply bool_decide_eq_false in Ht. by rewrite Hd3 in Ht. }
  assert (Hgoa : 0 <= g <= oa).
  { unfold oa. destruct r as [m|]; [destruct Hfi4 as (Hm & _), Hg4 as [Hg4 _]; cbn in Hm; lia|]. subst g. cbn. lia. }
  assert (Hd61 : tip_pages d6 = tip_pages d1 /\ header d6 = header d1 /\ dbb_next_transaction d6 = dbb_next_transaction d1 /\
    dbb_read_only d6 = dbb_read_only d1 /\ dbb_pc_transactions d6 = dbb_pc_transactions d1 /\ tra_locks d6 = <[number := w]> (tra_locks d) /\
    dbb_oldest_transaction d6 = dbb_oldest_transaction d /\ dbb_oldest_active d6 = dbb_oldest_active d /\ dbb_oldest_snapshot d6 = dbb_oldest_snapshot d).
  { subst d6 d5 d4 d3. cbn. rewrite B10, insert_insert_eq. auto 10. }
  destruct Hd61 as (P1 & P2 & P3 & P4 & P5 & P6 & P7 & P8 & P9).
  assert (Hwr : 1 <= w <= number /\ (rc = false -> w <= oa)).
  { change (reads_committed t5) with rc in Hw. change (tra_number t5) with number in Hw. unfold v in Hw. destruct rc; lia. }
  assert (Hsnap : rc = false -> forall n, dbb_oldest_transaction d <= n <= number -> snap t7 n = state_of tpt (tip_pages d1) n).
  { intros Hr n Hn. pose proof (sg_snap _ _ _ Hs4 n Hr ltac:(cbn; lia)) as Hsn'. unfold snap in *. rewrite E3, E5. rewrite Hd3 in Hsn'. exact Hsn'. }
  split; rewrite ?Hd7; cbn [tip_pages header dbb_next_transaction dbb_read_only dbb_pc_transactions tra_locks dbb_oldest_transaction dbb_oldest_active
    dbb_oldest_snapshot set_oldest_snapshot set_oldest_active set_oldest_transaction]; rewrite ?P1, ?P2, ?P3, ?P4, ?P5, ?P6, ?P7, ?P8, ?P9, ?E1, ?E2, ?E3, ?E4, ?E6; try done; try lia.
  - destruct (sg_cached _ _ _ Hs6') as (hi & (lo & Hcv & Hl) & Hhi).
    exists hi. split; [|exact Hhi]. exists lo. split; [|done]. destruct Hcv as (V1 & V2 & V3 & V4). split; [exact V1|]. split; [done|].
    cbn [dbb_oldest_transaction set_oldest_snapshot set_oldest_active set_oldest_transaction]. split; [|exact V4].
    etrans; [exact V3|]. apply Z.div_le_mono; lia.
  - intros n Hn. destruct (decide (n < dbb_oldest_transaction d)) as [Hlt|Hge].
    + rewrite B12, decide_True by lia. apply (co_committed _ _ Hc). lia.
    + assert (interesting_test tpt d5 n = false) as Ht.
      { unfold o in Hn. destruct r2 as [m|]; cbn in Hn; [destruct Hfi6 as (_ & _ & Hb); apply Hb|apply Hfi6]; cbn; lia. }
      apply bool_decide_eq_false in Ht. subst d5 d4 d3. cbn in Ht. destruct (decide (state_of tpt (tip_pages d1) n = tra_committed)); [done|tauto].
  - intros n Hn. destruct (decide (n < oa)); [apply Hnone; lia|]. rewrite B12, decide_True by lia. apply (co_no_active _ _ Hc). lia.
  - intros n s Hs Hr. pose proof (si_live _ _ _ H _ _ Hs) as HL. pose proof (snapshot_not_precommitted _ _ _ _ HL Hr) as Hnp.
    destruct (live_active _ _ _ _ _ H Hs Hnp) as (Hact & Hn1 & Hn2). pose proof (lo_number _ _ _ _ HL) as [_ HnN].
    pose proof (lo_kind _ _ _ _ HL) as Hk. rewrite Hnp in Hk. destruct Hk as (_ & x & _ & Hx & Hx1 & Hcl). specialize (Hcl Hr).
    unfold oa in Hnone. destruct r as [m|].
    + destruct Hg4 as [_ [->|Hmin]]; [by apply (si_snapshot _ _ _ H) with (n := n)|]. apply (clear_le s g x Hcl). apply (Hmin n); [|lia].
      rewrite Hlk3, lookup_insert_ne by lia. done.
    + destruct (Hnone n ltac:(lia)). rewrite B12, decide_True by lia. done.
  - split; [unfold flag; rewrite E7; by apply bool_decide_eq_false_2; intros ?|].
    unfold is_precommitted, flag. rewrite E7. apply bool_decide_eq_false_2. by intros ?.
  - split; [done|lia].
  - intros Hr. rewrite Hrc7 in Hr. pose proof (proj2 Hwr Hr) as Hwoa. split_and!.
    + split; unfold snap; rewrite ?E2, ?E3, ?E5, ?E8.
      * apply (sg_bytes _ _ _ Hs4). done.
      * apply (sg_room _ _ _ Hs4). done.
      * intros n Hn. right. specialize (Hsnap Hr n Hn). unfold snap in Hsnap. rewrite E3, E5 in Hsnap. rewrite Hsnap. cbn. by rewrite P1.
      * intros n Hn. by apply not_elem_of_empty in Hn.
    + split; [rewrite E2; lia|]. intros n Hn Hlt. rewrite E2, E3 in Hn. rewrite Hsnap by done. apply Hnone. lia.
    + split; [rewrite E2; lia|]. intros n Hn Hlt. rewrite E2, E3 in Hn. rewrite Hsnap by done. apply Hnone. lia.
    + intros n Hn. by apply Hsnap.
Qed.

End Begin.
