(* ===== verification/TraEnd.v ===== *)
(** * The end of a transaction keeps the invariant

    Setting the state and releasing the lock, for a commit, a rollback and the commit of a
    transaction that is committed from its start. With retaining, the transaction goes on with
    a new number and its old snapshot; what it has done so far is committed or dead. *)

From S2P Require Import Prelude Memory Search Outcome StateMonad TraCache TraOps TraInventory TraState TraInv TraStart.
From stdpp Require Import gmap.
#[local] Open Scope Z_scope.

Section End.
Context (tpt : Z) (Htpt : 0 < tpt < 2 ^ 18) (Halign : tpt mod 4 = 0).
Implicit Types (d : database) (live : gmap Z jrd_tra) (t : jrd_tra).

(** ** Setting a state *)

(** One state has changed, and what is cached. *)
Record restated d (n s : Z) d' : Prop := {
  re_counters : counters_ok tpt d';
  re_cached : cached tpt d';
  re_number : next_number d' = next_number d;
  re_memory : dbb_oldest_active d' = dbb_oldest_active d /\ dbb_oldest_snapshot d' = dbb_oldest_snapshot d;
  re_states m : 0 <= m -> state_of tpt (tip_pages d') m = if decide (m = n) then s else state_of tpt (tip_pages d) m;
  re_locks : tra_locks d' = tra_locks d;
  re_pc : dbb_pc_transactions d' = dbb_pc_transactions d;
  re_fields : dbb_oldest_transaction d' = dbb_oldest_transaction d /\ header d' = header d
}.

Lemma set_state_restated d (ot : option jrd_tra) n s : counters_ok tpt d -> cached tpt d -> 1 <= n <= next_number d -> dbb_oldest_transaction d <= n ->
  s = tra_committed \/ s = tra_dead ->
  match ot with Some t => tra_number t = n -> is_precommitted t = false | None => True end ->
  exists d', TRA_set_state tpt ot n s d = Ok (tt, d') /\ restated d n s d'.
Proof.
  intros H (hi & Hl & Hhi) Hn Ho Hs Ht.
  assert (Hhi2 : hi <= next_number d / tpt + 1) by (destruct Hl as (lo & (_ & _ & _ & Hlen) & _); rewrite (co_length _ _ H) in Hlen; done).
  pose proof (number_page tpt Htpt d n H ltac:(lia)) as Hpg. pose proof (Z.div_le_mono n (next_number d) tpt ltac:(lia) ltac:(lia)).
  pose proof (Z.div_le_mono (dbb_oldest_transaction d) n tpt ltac:(lia) Ho).
  destruct (TRA_set_state_ok tpt Htpt Halign d hi ot n s H (cache_live_ok _ _ _ Hl)) as (d' & He & (v & P' & -> & Hlen & HP & Hst) & Hl');
    [lia|destruct Hs as [-> | ->]; unfold tra_committed, tra_dead; lia|lia|lia|done|].
  exists (set_cache v (set_tip_pages P' d)). split; [done|].
  assert (Hs0 : s <> tra_active) by (destruct Hs as [-> | ->]; done).
  split; try done.
  - destruct H. split; try done.
    + unfold next_number in *. cbn. rewrite Hlen. done.
    + intros m Hm. cbn in *. rewrite Hst by lia. rewrite decide_False by lia. auto.
    + intros m Hm. cbn in *. rewrite Hst by lia. case_decide; [done|auto].
    + unfold next_number in *. intros m Hm. cbn in *. rewrite Hst by lia. rewrite decide_False by lia. apply co_free. lia.
  - eexists. split; [exact Hl'|]. unfold next_number in *. cbn. lia.
Qed.

Lemma restated_ended d d' n s d'' : restated d n s d' -> d'' = set_tra_locks (delete n (tra_locks d')) d' -> ended tpt d n s d''.
Proof.
  intros [R1 R2 R3 R4 R5 R6 R7 R8] ->. split; try done.
  - by apply counters_ok_locks.
  - intros m Hm. cbn. apply R5. lia.
  - cbn. by rewrite R6.
  - intros m. unfold precommits. cbn. rewrite R7. auto.
Qed.

Lemma LCK_release_tra n v d : LCK_release (MkLock LCK_tra n v) d = Ok (tt, set_tra_locks (delete n (tra_locks d)) d).
Proof. done. Qed.

(** ** Ending *)

(** The lock and the flags are those of a transaction that runs. *)
Definition ends t t' : Prop := tra_number t' = tra_number t /\ tra_lock t' = tra_lock t /\ is_precommitted t' = is_precommitted t.

Lemma end_ok d live n t t' s : sys_inv tpt d live -> live !! n = Some t -> ends t t' -> s = tra_committed \/ s = tra_dead ->
  exists d1 d2, TRA_set_state tpt (Some t') n s d = Ok (tt, d1) /\ TRA_release_transaction t' d1 = Ok (tt, d2) /\
    ended tpt d n (if is_precommitted t then tra_committed else s) d2.
Proof.
  intros H Ht (E1 & E2 & E3) Hs. pose proof (si_live _ _ _ H _ _ Ht) as HL. pose proof (lo_number _ _ _ _ HL) as [Hn1 Hn].
  pose proof (lo_kind _ _ _ _ HL) as Hk. pose proof (si_counters _ _ _ H) as Hc. pose proof (si_cached _ _ _ H n ltac:(eauto)) as Hca.
  destruct (is_precommitted t) eqn:Hp.
  - exists d. assert (TRA_set_state tpt (Some t') n s d = Ok (tt, d)) as ->.
    { unfold TRA_set_state. rewrite E1, Hn1, bool_decide_eq_true_2 by done. change (flag t' TRA_precommitted_flag) with (is_precommitted t'). by rewrite E3. }
    destruct Hk as (_ & Hst & Hlk).
    assert (exists l, tra_lock t' = Some l /\ LCK_release l d = Ok (tt, set_tra_locks (delete n (tra_locks d)) d)) as (l & Hl & Hrel).
    { rewrite E2. destruct Hlk as [[-> _]|[[k ->] Hnone]]; (eexists; split; [reflexivity|]); [done|].
      rewrite delete_id by done. by destruct d. }
    destruct (TRA_precommited_ok n 0 (set_tra_locks (delete n (tra_locks d)) d) ltac:(lia)) as (b & v & Hpc & Hin & _).
    eexists. split; [done|]. split.
    + unfold TRA_release_transaction. rewrite Hl. rewrite (bind_ok _ _ _ _ _ Hrel). change (flag t' TRA_precommitted_flag) with (is_precommitted t').
      rewrite E3, E1, Hn1. rewrite (bind_ok _ _ _ _ _ Hpc). reflexivity.
    + split; try done.
      * apply counters_ok_pc. by apply counters_ok_locks.
      * intros m Hm. cbn. case_decide; [congruence|done].
      * intros m Hm. destruct (Hin m Hm) as [?|[?|?]]; auto.
  - destruct (live_active _ _ _ _ _ H Ht Hp) as (Ha & Ho & _). destruct Hk as (_ & v & Hlk & _).
    destruct (set_state_restated d (Some t') n s Hc Hca Hn Ho Hs) as (d1 & He & Hr); [intros _; congruence|].
    exists d1. eexists. split; [done|]. split.
    + unfold TRA_release_transaction. rewrite E2, Hlk, (bind_ok _ _ _ _ _ (LCK_release_tra n v d1)).
      change (flag t' TRA_precommitted_flag) with (is_precommitted t'). rewrite E3. reflexivity.
    + by apply (restated_ended d d1).
Qed.

(** ** Committed from the start *)

Lemma safe_ended d d' live n s g : ended tpt d n s d' -> safe_point d live g -> safe_point d' (delete n live) g.
Proof.
  intros [] [Hg1 Hg2]. split; [lia|]. intros m r [_ Hm]%lookup_delete_Some. by apply (Hg2 m).
Qed.

Lemma inv_insert d v live n t : sys_inv tpt d live -> live !! n = None -> tra_locks d !! n = None ->
  live_ok tpt (set_pc_transactions v d) n t -> cached tpt d -> reads_committed t = true -> safe_point d live (tra_oldest_active t) ->
  (forall m, m ∈ default [] v -> m = n /\ state_of tpt (tip_pages d) n = tra_committed \/ m = 0 \/ m ∈ precommits d) ->
  sys_inv tpt (set_pc_transactions v d) (<[n := t]> live).
Proof.
  intros H Hn Hln Hok Hca Hrc Htoa Hpc. pose proof (lo_number _ _ _ _ Hok) as [_ HnN].
  assert (Hlk : forall m s, <[n := t]> live !! m = Some s -> m = n /\ s = t \/ m <> n /\ live !! m = Some s).
  { intros m s. destruct (decide (m = n)) as [->|Hne]; [rewrite lookup_insert_eq; intros [= <-]; auto|rewrite lookup_insert_ne by done; auto]. }
  assert (Hsafe : forall g, safe_point d live g -> safe_point (set_pc_transactions v d) (<[n := t]> live) g).
  { intros g [Hg1 Hg2]. split; [done|]. intros m s [[-> ->]|[_ Hm]]%Hlk Hrs; [congruence|by apply (Hg2 m)]. }
  destruct H as [I1 I2 I3 I4 I5 I6 I7 I8 I9 I10]. split; try done.
  - by apply counters_ok_pc.
  - intros m Hm Hact. destruct (decide (m = n)) as [->|Hne]; [rewrite lookup_insert_eq; eauto|rewrite lookup_insert_ne by done; auto].
  - intros m s [[-> ->]|[_ Hm]]%Hlk; [done|]. apply (live_frame tpt d); [by apply I6|done|done|intros; by left].
  - intros m Hm. destruct (decide (m = n)) as [->|Hne]; [rewrite lookup_insert_eq; eauto|rewrite lookup_insert_ne by done; auto].
  - intros m Hm. destruct (Hpc m Hm) as [[-> Hst]|[?|Hm']]; [right; split; [done|done]|by left|by apply I8].
  - by apply Hsafe.
  - intros m s [[-> ->]|[_ Hm]]%Hlk; apply Hsafe; [done|]. by eapply I10.
Qed.

Lemma start_precommit_ok d live n t : sys_inv tpt d live -> live !! n = Some t -> is_precommitted t = false ->
  exists t' d', start_precommit tpt t d = Ok (inr t', d') /\ sys_inv tpt d' (<[n := t']> live) /\
    (reads_committed t = false -> t' = t /\ d' = d) /\ tra_number t' = n /\ reads_committed t' = reads_committed t /\
    tra_top t' = tra_top t /\ tra_oldest t' = tra_oldest t /\ tra_commit_sub_trans t' = tra_commit_sub_trans t /\ next_number d' = next_number d /\
    (forall m, 1 <= m <= next_number d -> m <> n -> state_of tpt (tip_pages d') m = state_of tpt (tip_pages d) m) /\
    is_precommitted t' = flag t TRA_readonly && reads_committed t /\ (is_precommitted t' = true -> tra_locks d' !! n = None /\ n ∈ precommits d').
Proof.
  intros H Ht Hp. pose proof (si_live _ _ _ H _ _ Ht) as HL. pose proof (lo_number _ _ _ _ HL) as [Hn1 Hn].
  unfold start_precommit. change (flag t TRA_read_committed) with (reads_committed t).
  destruct (flag t TRA_readonly && reads_committed t) eqn:Hro.
  2:{ exists t, d. split; [run; change (flag t TRA_precommitted_flag) with (is_precommitted t); by rewrite Hp|]. rewrite insert_id by done.
      rewrite Hp. split_and!; done. }
  apply andb_true_iff in Hro as [_ Hrc]. destruct (live_active _ _ _ _ _ H Ht Hp) as (Ha & Ho & _).
  pose proof (lo_kind _ _ _ _ HL) as Hk. rewrite Hp in Hk. destruct Hk as (_ & v & Hlk & _).
  destruct (set_state_restated d (Some t) n tra_committed (si_counters _ _ _ H) (si_cached _ _ _ H n ltac:(eauto)) Hn Ho ltac:(auto)) as (d1 & He & Hr); [auto|].
  set (t' := add_flags TRA_precommitted_flag (set_lock (Some (MkLock LCK_tra_pc n 0)) t)).
  set (d2 := set_tra_locks (delete n (tra_locks d1)) d1). pose proof (restated_ended d d1 n tra_committed d2 Hr eq_refl) as Hend.
  pose proof (inv_ended tpt d d2 live n tra_committed t H Ht Hend ltac:(auto)) as H2.
  destruct (TRA_precommited_ok 0 n d2 ltac:(lia)) as (b & w & Hpc & Hin & Hadd).
  assert (Hflag : flag t' TRA_precommitted_flag = true).
  { unfold flag. apply bool_decide_eq_true_2. unfold t', add_flags. cbn [tra_flags set_flags set_lock]. intros Hz.
    apply (f_equal (fun z => Z.testbit z 16)) in Hz. rewrite Z.land_spec, Z.lor_spec, Z.bits_0 in Hz.
    change (Z.testbit TRA_precommitted_flag 16) with true in Hz. rewrite orb_true_r in Hz. done. }
  exists t', (set_pc_transactions w d2). split.
  - rewrite Hn1. erewrite bind_ok; [|rewrite (bind_ok _ _ _ _ _ He), Hlk; run; cbn [lck_key]; rewrite (bind_ok _ _ _ _ _ (LCK_release_tra n v d1)); run; reflexivity].
    cbv beta iota. fold t'. rewrite Hflag. change (tra_number t') with (tra_number t). rewrite Hn1. fold d2. erewrite bind_ok by (rewrite (bind_ok _ _ _ _ _ Hpc); reflexivity). reflexivity.
  - assert (Hrc' : reads_committed t' = true).
    { unfold reads_committed, t'. rewrite flag_add by done. exact Hrc. }
    change (is_precommitted t') with (flag t' TRA_precommitted_flag).
    split; [|split; [congruence|split; [done|]; split; [congruence|]; do 3 (split; [done|]); split; [exact (re_number _ _ _ _ Hr)|split; [|split]]]].
    2:{ intros m Hm Hne. cbn. rewrite (re_states _ _ _ _ Hr) by lia. by rewrite decide_False. }
    2:{ by rewrite Hflag. }
    2:{ intros _. split; [cbn; by rewrite lookup_delete_eq|]. unfold precommits. cbn. apply Hadd. lia. }
    rewrite <- (insert_delete_eq live). apply inv_insert; try done.
    + by rewrite lookup_delete_eq.
    + cbn. by rewrite lookup_delete_eq.
    + assert (Hst : forall m, 1 <= m <= next_number d -> state_of tpt (tip_pages d1) m = if decide (m = n) then tra_committed else state_of tpt (tip_pages d) m).
      { intros m Hm. apply (re_states _ _ _ _ Hr). lia. }
      split.
      * change (next_number (set_pc_transactions w d2)) with (next_number d1). rewrite (re_number _ _ _ _ Hr). done.
      * apply (lo_range _ _ _ _ HL).
      * intros m Hm. cbn in *. pose proof (lo_range _ _ _ _ HL). rewrite Hst by lia. case_decide; [done|]. by apply (lo_oldest _ _ _ _ HL).
      * unfold t'. rewrite flag_add by done. apply (lo_system _ _ _ _ HL).
      * change (is_precommitted t') with (flag t' TRA_precommitted_flag). rewrite Hflag. split; [done|]. cbn. rewrite Hst, decide_True by done. split; [done|].
        right. split; [by eexists|]. by rewrite lookup_delete_eq.
      * congruence.
    + by apply (en_cached _ _ _ _ _ Hend).
    + apply (safe_ended d d2 live n tra_committed); [done|]. exact (si_oldest _ _ _ H n t Ht).
    + intros m Hm. destruct (Hin m Hm) as [->|[?|?]]; [left|by auto|by auto]. split; [done|].
      cbn. rewrite (re_states _ _ _ _ Hr) by lia. by rewrite decide_True.
Qed.

(** ** The whole start *)

(** A transaction starts, with the states of this moment, or the numbers have run out. *)
Lemma transaction_start_inv flags d live : sys_inv tpt d live -> room_to_start tpt d -> start_flags flags ->
  if decide (next_number d >= MAX_TRA_NUMBER - 1) then transaction_start tpt flags d = Ok (inl isc_tra_num_exc, d)
  else exists t d', transaction_start tpt flags d = Ok (inr t, d') /\ sys_inv tpt d' (<[next_number d + 1 := t]> live) /\
    next_number d' = next_number d + 1 /\ tra_number t = next_number d + 1 /\ tra_top t = next_number d + 1 /\
    tra_oldest t = dbb_oldest_transaction d /\ tra_commit_sub_trans t = ∅ /\
    reads_committed t = bool_decide (Z.land flags TRA_read_committed <> 0) /\
    is_precommitted t = bool_decide (Z.land flags TRA_readonly <> 0) && reads_committed t /\
    (is_precommitted t = true -> tra_locks d' !! (next_number d + 1) = None /\ next_number d + 1 ∈ precommits d') /\
    (forall n, 1 <= n <= next_number d -> state_of tpt (tip_pages d') n = state_of tpt (tip_pages d) n) /\
    (reads_committed t = false -> tra_flags t = flags /\ forall n, tra_oldest t <= n <= tra_top t -> snap t n = state_of tpt (tip_pages d') n).
Proof.
  intros H Hroom Hf. pose proof (start_begin_ok tpt Htpt Halign flags d live H Hroom) as Hb. unfold transaction_start. case_decide as Hmax.
  - by rewrite (bind_ok _ _ _ _ _ Hb).
  - destruct Hb as (d1 & bits & He & Hbu & Hbits). cbv zeta in He.
    destruct (start_end_ok tpt Htpt Halign flags d d1 live bits H Hroom Hf Hbu ltac:(lia) Hbits) as (t & w & d7 & He7 & Hst & Hfl & Hsub). cbv zeta in He7.
    rewrite (bind_ok _ _ _ _ _ He). cbv beta iota. rewrite He7.
    pose proof (inv_started tpt d d1 live t w d7 H Hst) as H7.
    destruct (start_precommit_ok d7 _ (next_number d + 1) t H7) as (t' & d8 & He8 & H8 & Hsame & Hnum & Hrc & Htop & Hold & Hsubs & HN & Hoth & Hpre & Hpc); [by rewrite lookup_insert_eq|by destruct (sd_flags _ _ _ _ _ _ _ Hst)|].
    rewrite insert_insert_eq in H8. exists t', d8. split; [done|]. split; [done|].
    destruct (sd_pages _ _ _ _ _ _ _ Hst) as (P1 & P2 & _). destruct (sd_number _ _ _ _ _ _ _ Hst) as (N1 & N2 & N3).
    assert (HN7 : next_number d7 = next_number d + 1) by (rewrite <- (bu_number _ _ _ Hbu); unfold next_number; by rewrite P2).
    split_and!; try congruence.
    + rewrite Hrc. unfold reads_committed, flag. by rewrite Hfl.
    + rewrite Hpre, Hrc. unfold flag. by rewrite Hfl.
    + exact Hpc.
    + intros n Hn. rewrite Hoth by lia. rewrite P1, (bu_states _ _ _ Hbu) by lia. by rewrite decide_True by lia.
    + intros Hr. rewrite Hrc in Hr. destruct (Hsame Hr) as [-> ->]. split; [done|]. by apply (sd_snap _ _ _ _ _ _ _ Hst).
Qed.

(** ** Going on with a new number *)

Lemma retain_live d d2 n t v t1 : live_ok tpt d n t -> is_precommitted t = false -> tra_locks d !! n = Some v ->
  next_number d2 = next_number d + 1 -> (forall m, 1 <= m <= next_number d -> state_of tpt (tip_pages d2) m = state_of tpt (tip_pages d) m) ->
  state_of tpt (tip_pages d2) (next_number d + 1) = tra_active -> tra_locks d2 !! (next_number d + 1) = Some v ->
  t1 = set_lock (Some (MkLock LCK_tra (next_number d + 1) v)) (set_number (next_number d + 1) t) -> live_ok tpt d2 (next_number d + 1) t1.
Proof.
  intros HL Hp Hv HN Hst Hact Hlk ->. pose proof (lo_number _ _ _ _ HL) as [_ Hn]. pose proof (lo_range _ _ _ _ HL) as Hrg.
  pose proof (lo_kind _ _ _ _ HL) as Hk. rewrite Hp in Hk. destruct Hk as (_ & w & Hl & Hw & Hw1 & Hcl). rewrite Hv in Hw. injection Hw as <-.
  split; cbn [tra_number tra_top tra_oldest set_lock set_number].
  - split; [done|lia].
  - lia.
  - intros m Hm. rewrite Hst by lia. by apply (lo_oldest _ _ _ _ HL).
  - apply (lo_system _ _ _ _ HL).
  - change (is_precommitted _) with (is_precommitted t). rewrite Hp. split; [done|]. exists v. split_and!; [done|done|lia|lia|exact Hcl].
  - change (reads_committed _) with (reads_committed t). intros Hr. destruct (lo_snapshot _ _ _ _ HL Hr) as [S1 S2 S3 S4]. split; [done|done| |].
    + intros m Hm. destruct (S3 m Hm) as [?|Hs]; [by left|right]. cbn in Hm. rewrite Hst by lia. exact Hs.
    + intros m Hm. destruct (S4 m Hm). rewrite Hst by lia. split; [lia|done].
Qed.

Lemma retain_number_ok d live n t : sys_inv tpt d live -> live !! n = Some t -> has_room tpt d ->
  if decide (next_number d >= MAX_TRA_NUMBER - 1) then retain_number tpt t d = Ok (inl isc_tra_num_exc, d)
  else exists d1 l, tra_lock t = Some l /\ bumped tpt d d1 /\
    retain_number tpt t d = Ok (inr (next_number d + 1, Some (MkLock LCK_tra (next_number d + 1) (lck_data l))),
      set_tra_locks (<[next_number d + 1 := lck_data l]> (tra_locks d1)) d1).
Proof.
  intros H Ht Hroom. pose proof (inv_bump tpt Htpt Halign d live H Hroom) as Hb. unfold retain_number. run. change (id d) with d.
  rewrite (co_write _ _ (si_counters _ _ _ H)). case_decide as Hmax.
  - erewrite bind_ok by (rewrite (bind_ok _ _ _ _ _ Hb); reflexivity). done.
  - destruct Hb as (d1 & He & Hbu). assert (exists l, tra_lock t = Some l) as [l Hl].
    { pose proof (lo_kind _ _ _ _ (si_live _ _ _ H _ _ Ht)) as Hk. destruct (is_precommitted t).
      - destruct Hk as (_ & _ & [[? _]|[[k ?] _]]); eauto.
      - destruct Hk as (_ & v & ? & _). eauto. }
    exists d1, l. split; [done|]. split; [done|]. erewrite bind_ok by (rewrite (bind_ok _ _ _ _ _ He); reflexivity). cbv beta iota.
    change (getNT (header d1)) with (next_number d1). rewrite (bu_number _ _ _ Hbu), Hl.
    erewrite bind_ok; [|unfold LCK_lock; cbn [lck_type lck_key lck_data]; unfold transaction_locked; run;
      rewrite (bu_locks _ _ _ Hbu), (proj1 (next_unlocked tpt d live H)), bool_decide_eq_false_2 by (by intros [? ?]); run; reflexivity].
    cbv beta iota. by rewrite (bu_locks _ _ _ Hbu).
Qed.

End End.

Section Retain.
Context (tpt : Z) (Htpt : 0 < tpt < 2 ^ 18) (Halign : tpt mod 4 = 0).
Implicit Types (d : database) (live : gmap Z jrd_tra) (t : jrd_tra).

Lemma live_ok_subs d m n t : live_ok tpt d m t -> 1 <= n <= next_number d -> state_of tpt (tip_pages d) n = tra_committed ->
  live_ok tpt d m (set_commit_sub_trans ({[n]} ∪ tra_commit_sub_trans t) t).
Proof.
  intros [H1 H2 H3 H4 H5 H6] Hn Hst. split; try done. intros Hr. destruct (H6 Hr) as [S1 S2 S3 S4]. split; try done.
  intros k [->%elem_of_singleton|Hk]%elem_of_union; [done|by apply S4].
Qed.

(** The transaction once it has its new number and lock *)
Definition moved t t' (number v : Z) (commit : bool) : Prop :=
  tra_number t' = number /\ tra_top t' = tra_top t /\ tra_oldest t' = tra_oldest t /\ tra_oldest_active t' = tra_oldest_active t /\
  tra_transactions t' = tra_transactions t /\ tra_lock t' = Some (MkLock LCK_tra number v) /\
  tra_commit_sub_trans t' = (if commit then {[tra_number t]} ∪ tra_commit_sub_trans t else tra_commit_sub_trans t) /\
  reads_committed t' = reads_committed t /\ is_precommitted t' = is_precommitted t /\ flag t' TRA_system = flag t TRA_system.

(** What is left of the work once the states and the locks are set *)
Definition retained t (number : Z) (lock : option Lock) : jrd_tra :=
  let t := clear_flags (Z.lor TRA_write TRA_prepared) (set_lock lock (set_number number t)) in
  if bool_decide (tra_save_point t = []) && negb (flag t TRA_no_auto_undo) then startSavepoint t else t.

Lemma retained_moved t number v (commit : bool) :
  moved t (retained (if commit then set_commit_sub_trans ({[tra_number t]} ∪ tra_commit_sub_trans t) t else t) number (Some (MkLock LCK_tra number v))) number v commit.
Proof.
  unfold retained. set (t0 := if commit then _ else t).
  assert (tra_flags t0 = tra_flags t) as Hf by (by destruct commit).
  assert (Hfl : forall m, Z.land (Z.lnot (Z.lor TRA_write TRA_prepared)) m = m ->
    flag (clear_flags (Z.lor TRA_write TRA_prepared) (set_lock (Some (MkLock LCK_tra number v)) (set_number number t0))) m = flag t m).
  { intros m Hm. rewrite flag_clear by done. unfold flag. cbn. by rewrite Hf. }
  unfold moved, reads_committed, is_precommitted.
  rewrite <- (Hfl TRA_read_committed), <- (Hfl TRA_precommitted_flag), <- (Hfl TRA_system) by done.
  destruct (bool_decide _ && _); destruct commit; done.
Qed.

Lemma flag_cleared m t : Z.land m (Z.lnot m) = 0 -> flag (clear_flags m t) m = false.
Proof.
  intros H. unfold flag, clear_flags. cbn. apply bool_decide_eq_false_2. intros Hn. apply Hn.
  rewrite <- Z.land_assoc, (Z.land_comm (Z.lnot m)), H. apply Z.land_0_r.
Qed.

(** A transaction that runs *)
Lemma retain_running d live n t (commit : bool) s : sys_inv tpt d live -> live !! n = Some t -> is_precommitted t = false -> has_room tpt d ->
  next_number d < MAX_TRA_NUMBER - 1 -> s = tra_committed \/ s = tra_dead -> (commit = true -> s = tra_committed) ->
  exists t' d', retain_context tpt t commit s d = Ok (inr t', d') /\ tra_number t' = next_number d + 1 /\
    next_number d' = next_number d + 1 /\ sys_inv tpt d' (<[next_number d + 1 := t']> (delete n live)).
Proof.
  intros H Ht Hp Hroom Hmax Hs Hcs. pose proof (si_live _ _ _ H _ _ Ht) as HL. pose proof (lo_number _ _ _ _ HL) as [Hn1 Hn].
  destruct (live_active _ _ _ _ _ H Ht Hp) as (Ha & Ho & _). pose proof (co_number _ _ (si_counters _ _ _ H)) as Hnum.
  pose proof (retain_number_ok tpt Htpt Halign d live n t H Ht Hroom) as Hret. rewrite decide_False in Hret by lia.
  destruct Hret as (d1 & l & Hl & Hbu & Hrn). pose proof Hbu as [B1 B2 (B3 & B4 & B5) (B6 & B7 & B8) B9 B10 [_ B11] B12].
  pose proof (lo_kind _ _ _ _ HL) as Hk. rewrite Hp in Hk. destruct Hk as (_ & v & Hlv & Hv & Hv1 & _). rewrite Hlv in Hl. injection Hl as <-. cbn [lck_data] in Hrn.
  set (d2 := set_tra_locks (<[next_number d + 1 := v]> (tra_locks d1)) d1) in *.
  set (t1 := set_lock (Some (MkLock LCK_tra (next_number d + 1) v)) (set_number (next_number d + 1) t)).
  assert (HN2 : next_number d2 = next_number d + 1) by exact B2.
  assert (Hst2 : forall m, 0 <= m <= next_number d -> state_of tpt (tip_pages d2) m = state_of tpt (tip_pages d) m).
  { intros m Hm. change (tip_pages d2) with (tip_pages d1). rewrite B12 by lia. by rewrite decide_True by lia. }
  assert (Hc2 : counters_ok tpt d2) by (by apply counters_ok_locks).
  assert (Hca2 : cached tpt d2) by (apply B11, (si_cached _ _ _ H n); eauto).
  assert (H2 : sys_inv tpt d2 (<[next_number d + 1 := t1]> live)).
  { apply (inv_renumbered tpt d d2 live t1 H).
    - split; try done.
      + exists v. change (tra_locks d2) with (<[next_number d + 1 := v]> (tra_locks d1)). by rewrite B10.
      + intros m. unfold precommits. change (dbb_pc_transactions d2) with (dbb_pc_transactions d1). rewrite B9. auto.
      + apply (retain_live tpt d d2 n t v); try done.
        * intros m Hm. apply Hst2. lia.
        * change (tip_pages d2) with (tip_pages d1). rewrite B12 by lia. by rewrite decide_False by lia.
        * cbn. by rewrite lookup_insert_eq.
    - intros g [_ Hg] Hr. exact (Hg n t Ht Hr).
    - exact (si_oldest _ _ _ H n t Ht). }
  assert (Ht2 : (<[next_number d + 1 := t1]> live) !! n = Some t) by (by rewrite lookup_insert_ne by lia).
  set (t0 := if commit then set_commit_sub_trans ({[tra_number t]} ∪ tra_commit_sub_trans t) t else t).
  assert (Hn0 : tra_number t0 = n /\ tra_lock t0 = Some (MkLock LCK_tra n v) /\ is_precommitted t0 = false) by (by destruct commit).
  destruct (set_state_restated tpt Htpt Halign d2 (Some t0) n s Hc2 Hca2) as (d3 & He3 & Hr3); [lia|change (dbb_oldest_transaction d2) with (dbb_oldest_transaction d1); lia|done|intros _; tauto|].
  set (d4 := set_tra_locks (delete n (tra_locks d3)) d3). pose proof (restated_ended tpt d2 d3 n s d4 Hr3 eq_refl) as Hend.
  assert (H4 : sys_inv tpt d4 (delete n (<[next_number d + 1 := t1]> live))).
  { apply (inv_ended tpt d2 d4 _ n s t H2 Ht2 Hend). destruct Hs as [-> | ->]; auto. }
  rewrite delete_insert_ne in H4 by lia.
  pose proof (retained_moved t (next_number d + 1) v commit) as Hm. fold t0 in Hm. set (t' := retained t0 (next_number d + 1) (Some (MkLock LCK_tra (next_number d + 1) v))) in *.
  pose proof Hm as (M1 & M2 & M3 & M4 & M5 & M6 & M7 & M8 & M9 & M10).
  exists t', d4. split; [|split; [done|]].
  - unfold retain_context. cbv zeta. fold t0. assert (Hrn0 : retain_number tpt t0 d = retain_number tpt t d) by (by destruct commit). rewrite Hrn in Hrn0.
    rewrite (bind_ok _ _ _ _ _ Hrn0). cbv beta iota. run. change (id d2) with d2. change (dbb_read_only d2) with (dbb_read_only d1). rewrite (co_write _ _ B1). cbn [negb].
    destruct Hn0 as (-> & -> & Hp0). rewrite (bind_ok _ _ _ _ _ He3). cbv zeta.
    erewrite bind_ok by (rewrite (bind_ok _ _ _ _ _ (LCK_release_tra n v d3)); reflexivity). cbv beta zeta.
    change (if bool_decide _ && _ then startSavepoint _ else _) with t'.
    change (flag t' TRA_precommitted_flag) with (is_precommitted t'). rewrite M9, Hp. done.
  - split; [exact (eq_trans (re_number _ _ _ _ _ Hr3) HN2)|].
    assert (HL4 : live_ok tpt d4 (next_number d + 1) t1) by (apply (si_live _ _ _ H4); by rewrite lookup_insert_eq).
    rewrite <- (insert_insert_eq (delete n live) (next_number d + 1) t' t1). apply (inv_update tpt d4 _ (next_number d + 1) t1 t' H4); [by rewrite lookup_insert_eq| |done|done|].
    + destruct commit.
      * assert (Hsub : live_ok tpt d4 (next_number d + 1) (set_commit_sub_trans ({[n]} ∪ tra_commit_sub_trans t1) t1)).
        { apply live_ok_subs; [done| |].
          - rewrite (en_number _ _ _ _ _ Hend). lia.
          - rewrite (en_states _ _ _ _ _ Hend) by lia. rewrite decide_True by done. auto. }
        eapply live_ok_same; [|exact Hsub]. rewrite Hn1 in M7. by repeat split.
      * eapply live_ok_same; [|exact HL4]. by repeat split.
    + intros g [Hg1 Hg]. split; [by rewrite M2|]. intros m Hm1 Hm2. unfold snap in *. rewrite M2, M3 in Hm1. rewrite M3, M5. exact (Hg m Hm1 Hm2).
Qed.

(** A transaction that is committed from its start *)
Lemma retain_precommitted d live n t (commit : bool) s : sys_inv tpt d live -> live !! n = Some t -> is_precommitted t = true -> has_room tpt d ->
  next_number d < MAX_TRA_NUMBER - 1 ->
  exists t' d', retain_context tpt t commit s d = Ok (inr t', d') /\ tra_number t' = next_number d + 1 /\
    next_number d' = next_number d + 1 /\ sys_inv tpt d' (<[next_number d + 1 := t']> (delete n live)).
Proof.
  intros H Ht Hp Hroom Hmax. pose proof (si_live _ _ _ H _ _ Ht) as HL. pose proof (lo_number _ _ _ _ HL) as [Hn1 Hn].
  pose proof (co_number _ _ (si_counters _ _ _ H)) as Hnum. pose proof (co_oldest _ _ (si_counters _ _ _ H)) as Ho. pose proof (lo_range _ _ _ _ HL) as Hrg.
  pose proof (retain_number_ok tpt Htpt Halign d live n t H Ht Hroom) as Hret. rewrite decide_False in Hret by lia.
  destruct Hret as (d1 & l & Hl & Hbu & Hrn). pose proof Hbu as [B1 B2 (B3 & B4 & B5) (B6 & B7 & B8) B9 B10 [_ B11] B12].
  pose proof (lo_kind _ _ _ _ HL) as Hk. rewrite Hp in Hk. destruct Hk as (Hrc & Hst & Hlk).
  assert (Hl0 : lck_data l = 0) by (destruct Hlk as [[Hlk _]|[[k Hlk] _]]; rewrite Hlk in Hl; by injection Hl as <-). rewrite Hl0 in Hrn.
  set (N := next_number d) in *. set (d2 := set_tra_locks (<[N + 1 := 0]> (tra_locks d1)) d1) in *.
  set (d3 := set_tra_locks (delete n (tra_locks d2)) d2).
  assert (Hrel : LCK_release l d2 = Ok (tt, d3)).
  { destruct Hlk as [[Hlk _]|[[k Hlk] Hnone]]; rewrite Hlk in Hl; injection Hl as <-; [done|]. unfold d3. rewrite delete_id; [done|].
    cbn. rewrite lookup_insert_ne by lia. by rewrite B10. }
  set (t0 := if commit then set_commit_sub_trans ({[tra_number t]} ∪ tra_commit_sub_trans t) t else t).
  assert (Hn0 : tra_number t0 = n /\ tra_lock t0 = Some l /\ is_precommitted t0 = true) by (by destruct commit).
  pose proof (retained_moved t (N + 1) 0 commit) as Hm. fold t0 in Hm. set (t' := retained t0 (N + 1) (Some (MkLock LCK_tra (N + 1) 0))) in *.
  pose proof Hm as (M1 & M2 & M3 & M4 & M5 & M6 & M7 & M8 & M9 & M10).
  assert (Hca3 : cached tpt d3) by (apply B11, (si_cached _ _ _ H n); eauto).
  destruct (set_state_restated tpt Htpt Halign d3 (Some (clear_flags TRA_precommitted_flag t')) (N + 1) tra_committed) as (d4 & He4 & Hr4);
    [do 2 apply counters_ok_locks; done|done|change (next_number d3) with (next_number d1); lia|change (dbb_oldest_transaction d3) with (dbb_oldest_transaction d1); lia|auto|intros _; by apply flag_cleared|].
  destruct (TRA_precommited_ok n (N + 1) d4 ltac:(lia)) as (b & w & Hpc & Hin & _).
  exists t', (set_pc_transactions w d4). split; [|split; [done|]].
  - unfold retain_context. cbv zeta. fold t0. assert (Hrn0 : retain_number tpt t0 d = retain_number tpt t d) by (by destruct commit). rewrite Hrn in Hrn0.
    rewrite (bind_ok _ _ _ _ _ Hrn0). cbv beta iota. run. change (id d2) with d2. change (dbb_read_only d2) with (dbb_read_only d1). rewrite (co_write _ _ B1). cbn [negb].
    destruct Hn0 as (Hn0 & Hl1 & Hp0).
    rewrite (bind_ok _ _ _ tt d2).
    2:{ unfold TRA_set_state. rewrite bool_decide_eq_true_2 by done. change (flag t0 TRA_precommitted_flag) with (is_precommitted t0). by rewrite Hp0. }
    cbv zeta. rewrite Hl1. erewrite bind_ok by (rewrite (bind_ok _ _ _ _ _ Hrel); reflexivity). cbv beta zeta.
    change (if bool_decide _ && _ then startSavepoint _ else _) with t'.
    change (flag t' TRA_precommitted_flag) with (is_precommitted t'). rewrite M9, Hp.
    rewrite (bind_ok _ _ _ _ _ He4). rewrite Hn0. rewrite (bind_ok _ _ _ _ _ Hpc). done.
  - pose proof (re_number _ _ _ _ _ Hr4) as RN. change (next_number d3) with (next_number d1) in RN. rewrite B2 in RN. split; [exact RN|].
    set (d0 := set_tra_locks (delete n (tra_locks d)) d).
    assert (Hend : ended tpt d n tra_committed d0).
    { split; try done.
      - by apply counters_ok_locks, (si_counters _ _ _ H).
      - apply (si_cached _ _ _ H n). eauto.
      - intros m Hm0. cbn. case_decide; [congruence|done].
      - intros m Hm0. by right. }
    pose proof (inv_ended tpt d d0 live n tra_committed t H Ht Hend ltac:(auto)) as H0.
    assert (Hst4 : forall m, 0 <= m <= N -> state_of tpt (tip_pages d4) m = state_of tpt (tip_pages d) m).
    { intros m Hm0. rewrite (re_states _ _ _ _ _ Hr4) by lia. rewrite decide_False by lia. change (tip_pages d3) with (tip_pages d1). rewrite B12 by lia. by rewrite decide_True by lia. }
    assert (Hstn : state_of tpt (tip_pages d4) (N + 1) = tra_committed) by (rewrite (re_states _ _ _ _ _ Hr4) by lia; by rewrite decide_True).
    destruct (re_memory _ _ _ _ _ Hr4) as [RM1 RM2].
    apply (inv_renumbered tpt d0 (set_pc_transactions w d4) (delete n live) t' H0).
    + split; try done.
      * by apply counters_ok_pc, (re_counters _ _ _ _ _ Hr4).
      * by apply (re_cached _ _ _ _ _ Hr4).
      * cbn. change (dbb_oldest_active d3) with (dbb_oldest_active d1) in RM1. change (dbb_oldest_snapshot d3) with (dbb_oldest_snapshot d1) in RM2. split; congruence.
      * exists 0. cbn. rewrite (re_locks _ _ _ _ _ Hr4). cbn. rewrite B10. by rewrite delete_insert_ne by lia.
      * intros m Hm0. destruct (Hin m Hm0) as [->|[?|Hm1]]; [right; right; done|by left|]. right. left. revert Hm1. unfold precommits.
        rewrite (re_pc _ _ _ _ _ Hr4). cbn. by rewrite B9.
      * split.
        -- split; [done|]. change (next_number (set_pc_transactions w d4)) with (next_number d4). change (next_number d0) with N. lia.
        -- rewrite M2, M3. change (next_number d0) with N. lia.
        -- intros m Hm0. rewrite M3 in Hm0. cbn. rewrite Hst4 by lia. by apply (lo_oldest _ _ _ _ HL).
        -- rewrite M10. apply (lo_system _ _ _ _ HL).
        -- rewrite M9, Hp, M8. split; [done|]. split; [done|]. left. split; [done|]. cbn. rewrite (re_locks _ _ _ _ _ Hr4). cbn.
           change (next_number d0) with N. rewrite lookup_delete_ne by lia. by rewrite lookup_insert_eq.
        -- congruence.
    + congruence.
    + rewrite M4. apply (safe_ended tpt d d0 live n tra_committed); [done|]. exact (si_oldest _ _ _ H n t Ht).
Qed.

Lemma retain_ok d live n t (commit : bool) s : sys_inv tpt d live -> live !! n = Some t -> has_room tpt d ->
  s = tra_committed \/ s = tra_dead -> (commit = true -> s = tra_committed) ->
  if decide (next_number d >= MAX_TRA_NUMBER - 1) then retain_context tpt t commit s d = Ok (inl isc_tra_num_exc, d)
  else exists t' d', retain_context tpt t commit s d = Ok (inr t', d') /\ tra_number t' = next_number d + 1 /\
    next_number d' = next_number d + 1 /\ sys_inv tpt d' (<[next_number d + 1 := t']> (delete n live)).
Proof.
  intros H Ht Hroom Hs Hcs. case_decide as Hmax.
  - pose proof (retain_number_ok tpt Htpt Halign d live n t H Ht Hroom) as Hret. rewrite decide_True in Hret by done.
    unfold retain_context. rewrite (bind_ok _ _ _ (inl isc_tra_num_exc) d); [done|]. by destruct commit.
  - destruct (is_precommitted t) eqn:Hp; [by apply retain_precommitted; try done; lia|by apply retain_running; try done; lia].
Qed.

End Retain.
