(* ===== verification/TraSystem.v ===== *)
(** * Sequences of operations on transactions

    The operations as actions on a database with its running transactions, the states that
    they reach, and that every action ends and keeps the invariant: none calls [BUGCHECK] or
    touches memory outside. What is left when the process goes, and opening it again. *)

From S2P Require Import Prelude Memory Search Outcome StateMonad TraCache TraOps TraInventory TraState TraInv TraStart TraEnd.
From stdpp Require Import gmap.
#[local] Open Scope Z_scope.

(** ** Setting a state that is already there *)

Lemma put_byte_same_all : forallb (fun b => forallb (fun i => bool_decide (put_byte b (2 * i) (byte_state b i) = b)) (seqZ 0 4)) (seqZ 0 256) = true.
Proof. vm_compute. reflexivity. Qed.

Lemma put_byte_same b i : 0 <= b < 256 -> 0 <= i < 4 -> put_byte b (2 * i) (byte_state b i) = b.
Proof.
  intros Hb Hi. pose proof put_byte_same_all as H. rewrite forallb_forall in H.
  assert (Hin : forall x n, 0 <= x < n -> In x (seqZ 0 n)) by (intros x n Hx; apply list_elem_of_In, elem_of_seqZ; lia).
  specialize (H b (Hin _ _ Hb)). rewrite forallb_forall in H. specialize (H i (Hin _ _ Hi)). by apply bool_decide_eq_true in H.
Qed.

Lemma put_state_same bits k number : bytes bits -> 0 <= k < room bits -> k mod 4 = number mod 4 ->
  put_state bits (TRANS_OFFSET k) (TRANS_SHIFT number) (state_at bits k) = Some bits.
Proof.
  intros Hby Hk Hm. unfold put_state. rewrite trans_offset, (trans_shift k) by done. destruct (room_lookup bits k Hk) as (b & Hb & Hbt). rewrite Hb.
  cbn [mbind option_bind]. pose proof Hb as [Hk0 Hbl]%aget_Some. unfold state_at. rewrite Hbt.
  rewrite put_byte_same; [|exact (Forall_lookup_1 _ _ _ _ Hby Hbl)|apply Z.mod_pos_bound; lia].
  rewrite aset_in by (apply lookup_lt_Some in Hbl; lia). by rewrite list_insert_id.
Qed.

Section System.
Context (tpt : Z).

(** ** Actions *)

Record system := System { sys_db : database; sys_live : gmap Z jrd_tra }.

(** What work does to a transaction: flags, savepoints and deferred jobs *)
Inductive work := Writes | Invalidated | Savepoint | Defers.
Definition do_work (w : work) (t : jrd_tra) : jrd_tra :=
  match w with
  | Writes => add_flags TRA_write t
  | Invalidated => add_flags TRA_invalidated t
  | Savepoint => set_save_point (false :: tra_save_point t) t
  | Defers => Tra (tra_flags t) (tra_number t) (tra_top t) (tra_oldest t) (tra_oldest_active t) (tra_transactions t) (tra_lock t)
                (tra_commit_sub_trans t) (tra_save_point t) true
  end.

(** An action of the transaction [n], if there is one *)
Inductive action :=
  | Start (flags : Z)
  | Commit (n : Z) (retaining_flag : bool)
  | Rollback (n : Z) (retaining_flag force_flag undone : bool)
  | Wait (n number : Z) (wait : wait_t)
  | Look (n number : Z)
  | Work (n : Z) (w : work)
  | UpdateCounters.

(** The transaction goes, or goes on, perhaps with another number. *)
Definition goes_on (n : Z) (live : gmap Z jrd_tra) (r : tra_error + option jrd_tra) : gmap Z jrd_tra :=
  match r with
  | inl _ => live
  | inr None => delete n live
  | inr (Some t) => <[tra_number t := t]> (delete n live)
  end.

Definition of_tra (n : Z) (s : system) (f : jrd_tra -> Outcome system) : Outcome system :=
  match sys_live s !! n with Some t => f t | None => Ok s end.

Definition perform (a : action) (s : system) : Outcome system :=
  let d := sys_db s in
  let live := sys_live s in
  match a with
  | Start flags =>
      '(r, d) ← transaction_start tpt flags d;
      Ok (System d (match r with inl _ => live | inr t => <[tra_number t := t]> live end))
  | Commit n retaining_flag => of_tra n s (fun t =>
      '(r, d) ← TRA_commit tpt t retaining_flag d; Ok (System d (goes_on n live r)))
  | Rollback n retaining_flag force_flag undone => of_tra n s (fun t =>
      '(r, d) ← TRA_rollback tpt t retaining_flag force_flag undone d; Ok (System d (goes_on n live r)))
  | Wait n number wait => of_tra n s (fun t =>
      '((t, _), d) ← TRA_wait tpt t number wait d; Ok (System d (<[n := t]> live)))
  | Look n number => of_tra n s (fun t =>
      '(_, d) ← TRA_snapshot_state tpt t number d; Ok (System d live))
  | Work n w => of_tra n s (fun t => Ok (System d (<[n := do_work w t]> live)))
  | UpdateCounters => '(_, d) ← TRA_update_counters d; Ok (System d live)
  end.

(** What an action needs: space for a page and a snapshot, options that a user can give, and
    the number of a transaction that was started. *)
Definition action_ok (a : action) (s : system) : Prop :=
  match a with
  | Start flags => room_to_start tpt (sys_db s) /\ start_flags flags
  | Commit _ retaining_flag => retaining_flag = true -> has_room tpt (sys_db s)
  | Rollback _ retaining_flag _ _ => retaining_flag = true -> has_room tpt (sys_db s)
  | Wait _ number wait => 1 <= number <= next_number (sys_db s) /\ wait <> tra_no_wait
  | Look _ number => 0 <= number <= next_number (sys_db s)
  | Work _ _ | UpdateCounters => True
  end.

(** A database that has just been opened: what was active has been cleaned up. *)
Record opened (d : database) : Prop := {
  od_counters : counters_ok tpt d;
  od_cache : cache_state tpt d;
  od_states n : 1 <= n <= next_number d -> state_of tpt (tip_pages d) n = tra_committed \/ state_of tpt (tip_pages d) n = tra_dead;
  od_pc : dbb_pc_transactions d = None;
  od_locks : tra_locks d = ∅
}.

(** The states that actions lead to *)
Inductive leads (s : system) : system -> Prop :=
  | leads_refl : leads s s
  | leads_step s1 s2 a : leads s s1 -> action_ok a s1 -> perform a s1 = Ok s2 -> leads s s2.

Definition reachable (s : system) : Prop := exists d, opened d /\ leads (System d ∅) s.

Definition inv (s : system) : Prop := sys_inv tpt (sys_db s) (sys_live s).

(** What a transaction keeps as long as it keeps its number: a wait may show that what was
    active is dead. *)
Definition view_kept (t t' : jrd_tra) : Prop :=
  tra_number t' = tra_number t /\ tra_top t' = tra_top t /\ tra_oldest t' = tra_oldest t /\ tra_commit_sub_trans t' = tra_commit_sub_trans t /\
  reads_committed t' = reads_committed t /\
  (reads_committed t = false -> forall n, tra_oldest t <= n <= tra_top t ->
     snap t' n = snap t n \/ snap t n = tra_active /\ snap t' n = tra_dead).

Lemma view_kept_refl t : view_kept t t.
Proof. split_and!; auto. Qed.

Lemma view_kept_trans t1 t2 t3 : view_kept t1 t2 -> view_kept t2 t3 -> view_kept t1 t3.
Proof.
  intros (A1 & A2 & A3 & A4 & A5 & A6) (B1 & B2 & B3 & B4 & B5 & B6). split_and!; try congruence. intros Hr n Hn.
  rewrite A2, A3, A5 in B6. specialize (A6 Hr n Hn). specialize (B6 Hr n Hn).
  destruct A6 as [A6|[A6 A7]], B6 as [B6|[B6 B7]]; rewrite ?A6, ?A7 in B6; auto.
Qed.

Lemma same_core_view t t' : same_core t t' -> view_kept t t'.
Proof. intros (E1 & E2 & E3 & E4 & E5 & E6 & E7 & E8 & E9 & E10). split_and!; try done. intros _ n _. left. unfold snap. by rewrite E3, E5. Qed.

(** Numbers are given once, and who has one keeps its view. *)
Definition follows (s s' : system) : Prop :=
  next_number (sys_db s) <= next_number (sys_db s') /\
  forall k t', sys_live s' !! k = Some t' -> next_number (sys_db s) < k \/ exists t, sys_live s !! k = Some t /\ view_kept t t'.

Lemma follows_refl s : follows s s.
Proof. split; [lia|]. intros k t Ht. right. exists t. split; [done|apply view_kept_refl]. Qed.

Lemma follows_trans s1 s2 s3 : follows s1 s2 -> follows s2 s3 -> follows s1 s3.
Proof.
  intros [H1 H2] [H3 H4]. split; [lia|]. intros k t Ht. destruct (H4 k t Ht) as [?|(t2 & Ht2 & Hv)]; [left; lia|].
  destruct (H2 k t2 Ht2) as [?|(t1 & Ht1 & Hv1)]; [by left|]. right. exists t1. split; [done|by eapply view_kept_trans].
Qed.

(** One transaction is changed, or goes, or comes back with a new number. *)
Lemma follows_one d d' live n t live' : next_number d <= next_number d' -> live !! n = Some t ->
  (forall k t', live' !! k = Some t' -> live !! k = Some t' \/ next_number d < k \/ k = n /\ view_kept t t') ->
  follows (System d live) (System d' live').
Proof.
  intros Hn Ht Hk. split; [done|]. intros k t' Ht'. destruct (Hk k t' Ht') as [?|[?|[-> ?]]]; [|by left|right; by exists t].
  right. exists t'. split; [done|apply view_kept_refl].
Qed.

Lemma inv_opened d : opened d -> inv (System d ∅).
Proof.
  intros [O1 O2 O3 O4 O5]. pose proof (co_order _ _ O1) as [_ O6]. split; cbn; try done.
  - intros n. rewrite lookup_empty. by intros [? ?].
  - intros n Hn. by destruct (O3 n Hn) as [-> | ->].
  - intros n Hn Ha. destruct (O3 n Hn) as [Hs|Hs]; by rewrite Hs in Ha.
  - intros n. rewrite O5, lookup_empty. by intros [? ?].
  - intros n. unfold precommits. rewrite O4. cbn. by intros ?%not_elem_of_nil.
Qed.

Context (Htpt : 0 < tpt < 2 ^ 18) (Halign : tpt mod 4 = 0).

(** ** What a transaction sees *)

(** [TRA_snapshot_state], for a transaction that runs in a database that may be written *)
Definition seen_state d (t : jrd_tra) (n : Z) : Z :=
  if decide (n <> 0 /\ n ∈ precommits d) then tra_precommitted
  else if decide (n = tra_number t) then tra_us
  else if decide (n < tra_oldest t \/ n = 0) then tra_committed
  else if reads_committed t then state_of tpt (tip_pages d) n
  else if decide (n ∈ tra_commit_sub_trans t) then tra_committed
  else if decide (n > tra_top t) then tra_active
  else snap t n.

Lemma TRA_snapshot_state_ok d live n t m : sys_inv tpt d live -> live !! n = Some t -> 0 <= m <= next_number d ->
  exists v, TRA_snapshot_state tpt t m d = Ok (seen_state d t m, set_cache v d) /\ cached tpt (set_cache v d).
Proof.
  intros H Ht Hm. pose proof (si_live _ _ _ H _ _ Ht) as HL. pose proof (si_cached _ _ _ H n ltac:(eauto)) as Hca.
  assert (Hid : set_cache (m_cache d) d = d) by (by destruct d).
  unfold TRA_snapshot_state, seen_state. erewrite bind_ok by exact (precommitted_eq m d). cbv beta iota.
  destruct (decide (m <> 0 /\ m ∈ precommits d)) as [Hpc|Hpc].
  { rewrite bool_decide_eq_true_2 by done. exists (m_cache d). by rewrite Hid. }
  rewrite bool_decide_eq_false_2 by done. case_decide; [exists (m_cache d); by rewrite Hid|].
  case_decide; [rewrite decide_True by auto; exists (m_cache d); by rewrite Hid|].
  case_decide; [rewrite decide_True by auto; exists (m_cache d); by rewrite Hid|].
  rewrite (decide_False (P := m < tra_oldest t \/ m = 0)) by tauto. run. rewrite (co_write _ _ (si_counters _ _ _ H)). cbn [andb].
  change (flag t TRA_read_committed) with (reads_committed t). destruct (reads_committed t) eqn:Hrc.
  { destruct (snapshotState_ok tpt Htpt Halign d m (si_counters _ _ _ H) Hca (fun Hm1 => si_limbo _ _ _ H m ltac:(lia)) Hm) as (d' & He & [v ->] & Hc').
    exists v. split; [|done]. rewrite He. unfold latest_state. rewrite decide_False by done. by rewrite decide_False by done. }
  rewrite (lo_system _ _ _ _ HL). destruct (lo_snapshot _ _ _ _ HL Hrc) as [S1 S2 S3 S4].
  case_decide; [exists (m_cache d); by rewrite Hid|]. case_decide; [exists (m_cache d); by rewrite Hid|].
  exists (m_cache d). rewrite Hid. split; [|done]. unfold lift. pose proof (lo_range _ _ _ _ HL).
  pose proof (Z.mod_pos_bound (tra_oldest t) 4 ltac:(lia)). rewrite TRA_state_at by lia. done.
Qed.

(** ** Waiting *)

Lemma setState_same d hi n : counters_ok tpt d -> cache_live tpt d hi -> 0 <= n -> setState tpt n (state_of tpt (tip_pages d) n) d = Ok (tt, d).
Proof.
  intros H (lo & Hcv & Hl) Hn. pose proof Hcv as (Hv & Hlh & Hlo & Hh). destruct (number_split tpt Htpt n Hn) as (Hsp & Hm & Hq).
  unfold setState. rewrite (page_base tpt Htpt). rewrite (bind_ok _ _ _ _ _ (cache_find_eq tpt Htpt d lo hi (n / tpt) Hcv (co_pages _ _ H))). cbv beta iota.
  case_bool_decide as Hd; [|done]. rewrite Z.max_r, Z.min_l by lia. rewrite (bind_ok _ _ _ _ _ (cache_at_eq tpt d lo hi (n / tpt) Hcv Hd)).
  cbn [tpc_transactions tpc_base]. destruct (page_page_ok tpt _ (n / tpt) (co_pages _ _ H) ltac:(lia)) as [Hpl Hby].
  rewrite (offset_32 tpt Htpt) by done. unfold state_of. rewrite put_state_same; [|done|unfold room; lia|by apply mod_align]. run. rewrite Hv.
  rewrite aset_in by (rewrite view_length by lia; lia). run. unfold modify. rewrite list_insert_id; [rewrite <- Hv; by destruct d|].
  rewrite view_lookup by lia. by replace (lo + Z.of_nat (Z.to_nat (n / tpt - lo))) with (n / tpt) by lia.
Qed.

(** The state of one transaction changes in the snapshot. *)
Lemma put_snapshot_ok d n t m s d' : live_ok tpt d n t -> reads_committed t = false -> tra_oldest t <= m <= tra_top t -> 0 <= s <= 3 ->
  exists bits, tweak_state tpt t m s d' = Ok (set_transactions bits t, d') /\ bytes bits /\ length bits = length (tra_transactions t) /\
    forall k, tra_oldest t <= k -> snap (set_transactions bits t) k = if decide (k = m) then s else snap t k.
Proof.
  intros HL Hrc Hm Hs. destruct (lo_snapshot _ _ _ _ HL Hrc) as [S1 S2 S3 S4]. pose proof (lo_range _ _ _ _ HL) as Hrg.
  unfold tweak_state. change (flag t TRA_read_committed) with (reads_committed t). rewrite Hrc, align_4. set (base := tra_oldest t - tra_oldest t mod 4) in *.
  assert (Hbase : base <= tra_oldest t < base + 4) by (unfold base; pose proof (Z.mod_pos_bound (tra_oldest t) 4 ltac:(lia)); lia).
  assert (Hmod : (m - base) mod 4 = m mod 4).
  { unfold base. pose proof (Z.div_mod (tra_oldest t) 4 ltac:(lia)). replace (m - (tra_oldest t - tra_oldest t mod 4)) with (m + (- (tra_oldest t / 4)) * 4) by lia. by rewrite Z.mod_add. }
  rewrite wrapU_id by (rewrite trans_offset; split; [apply Z.div_pos; lia|apply Z.div_lt_upper_bound; lia]).
  destruct (put_state_at (tra_transactions t) (m - base) m s S1) as (bits & Hb & Hby & Hlen & Hst); [lia|done|done|].
  exists bits. split; [erewrite bind_ok by (rewrite Hb; run; reflexivity); done|]. split; [done|]. split; [done|].
  intros k Hk. unfold snap. cbn. fold base. rewrite Hst by lia. destruct (decide (k = m)) as [->|]; [by rewrite decide_True|by rewrite decide_False by lia].
Qed.

(** The wait is refused while the lock is held; then the state is known, and the snapshot learns it. *)
Lemma TRA_wait_ok d live n t m w : sys_inv tpt d live -> live !! n = Some t -> 1 <= m <= next_number d -> w <> tra_no_wait ->
  exists t' v, let d' := set_cache v d in
    TRA_wait tpt t m w d = Ok ((t', if bool_decide (is_Some (tra_locks d !! m)) then tra_active else latest_state tpt d m), d') /\
    sys_inv tpt d' (<[n := t']> live) /\ cached tpt d' /\ view_kept t t'.
Proof.
  intros H Ht Hm Hw. pose proof (view_kept_refl t) as Hvt. pose proof (si_live _ _ _ H _ _ Ht) as HL. pose proof (si_cached _ _ _ H n ltac:(eauto)) as Hca. pose proof (si_counters _ _ _ H) as Hc.
  assert (Hid : set_cache (m_cache d) d = d) by (by destruct d).
  unfold TRA_wait. rewrite (bind_ok _ _ _ (bool_decide (is_Some (tra_locks d !! m))) d) by (by destruct w). cbv beta iota.
  case_bool_decide as Hlk. { exists t, (m_cache d). cbv zeta. rewrite Hid, insert_id by done. done. }
  destruct (snapshotState_ok tpt Htpt Halign d m Hc Hca (fun _ => si_limbo _ _ _ H m Hm) ltac:(lia)) as (d1 & He & [v ->] & Hc1).
  unfold TRA_get_state. rewrite (bind_ok _ _ _ _ _ He). cbv zeta.
  pose proof (inv_cache tpt v d live H Hc1) as H1.
  assert (Hsame : sys_inv tpt (set_cache v d) (<[n := t]> live)) by (by rewrite insert_id).
  destruct (decide (latest_state tpt d m = tra_committed)) as [Hs|Hs].
  { exists t, v. rewrite Hs. by destruct w. }
  assert (match w with tra_no_wait => false | _ => bool_decide (latest_state tpt d m = tra_committed) end = false) as ->.
  { destruct w; [done|by apply bool_decide_eq_false_2..]. }
  case_decide as Hp; [by exists t, v|].
  assert (Hdead : latest_state tpt d m = tra_dead /\ state_of tpt (tip_pages d) m = tra_dead).
  { pose proof (si_limbo _ _ _ H m Hm) as Hlimbo. pose proof (inv_locked _ _ _ m H Hm) as Hact. unfold latest_state in *. case_decide; [done|]. case_decide; [lia|].
    pose proof (state_of_range tpt (tip_pages d) m). assert (state_of tpt (tip_pages d) m <> tra_active) by tauto.
    unfold tra_limbo, tra_committed, tra_dead, tra_active in *. split; lia. }
  destruct Hdead as [Hd1 Hd2]. rewrite Hd1. rewrite decide_False by done. run. case_decide as Htop; [by exists t, v|].
  destruct (reads_committed t) eqn:Hrc.
  - unfold tweak_state. change (flag t TRA_read_committed) with (reads_committed t). rewrite Hrc. destruct Hc1 as (hi & Hl & Hh). pose proof (setState_same (set_cache v d) hi m (counters_ok_cache _ _ _ Hc) Hl ltac:(lia)) as Hset.
    change (tip_pages (set_cache v d)) with (tip_pages d) in Hset. rewrite Hd2 in Hset.
    erewrite bind_ok by (rewrite (bind_ok _ _ _ _ _ Hset); reflexivity). exists t, v. split; [done|]. split; [done|]. split; [by exists hi|done].
  - destruct (lo_snapshot _ _ _ _ HL Hrc) as [S1 S2 S3 S4]. pose proof (lo_range _ _ _ _ HL) as Hrg.
    assert (Hold : tra_oldest t <= m).
    { destruct (Z.le_gt_cases (tra_oldest t) m); [done|]. rewrite (lo_oldest _ _ _ _ HL) in Hd2 by lia. done. }
    destruct (put_snapshot_ok d n t m tra_dead (set_cache v d) HL Hrc ltac:(lia) ltac:(done)) as (bits & Hb & Hby & Hlen & Hsnap).
    rewrite (bind_ok _ _ _ _ _ Hb). exists (set_transactions bits t), v. split; [done|].
    split; [|split; [done|]].
    2:{ split_and!; try done. intros _ k Hk. rewrite Hsnap by lia. case_decide as Hkm; [|by left]. subst k.
        destruct (S3 m ltac:(lia)) as [Hs3|Hs3]; [by right|left; by rewrite Hs3]. }
    apply (inv_update tpt (set_cache v d) live n t (set_transactions bits t) H1 Ht); [|done|done|].
    + pose proof (si_live _ _ _ H1 _ _ Ht) as [L1 L2 L3 L4 L5 L6]. split; try done.
      * change (is_precommitted (set_transactions bits t)) with (is_precommitted t). destruct (is_precommitted t); [done|].
        destruct L5 as (L5 & x & X1 & X2 & X3 & X4). split; [done|]. exists x. split_and!; [done..|lia|lia|]. intros _. destruct (X4 Hrc) as [X5 X6]. split; [done|]. intros k Hk Hlt. cbn in Hk.
        rewrite Hsnap by lia. case_decide; [done|]. by apply X6.
      * intros _. split; [done| | |done].
        -- cbn. unfold room in *. rewrite Hlen. done.
        -- intros k Hk. cbn in Hk. rewrite Hsnap by lia. case_decide; [right; by subst k|]. by apply S3.
    + intros g [Hg1 Hg]. split; [done|]. intros k Hk Hlt. cbn in Hk. rewrite Hsnap by lia. case_decide; [done|]. by apply Hg.
Qed.

(** The snapshot as the code reads it *)
Lemma snapshot_read d n t bits k : live_ok tpt d n t -> reads_committed t = false -> length bits = length (tra_transactions t) ->
  tra_oldest t <= k <= tra_top t -> TRA_state bits (tra_oldest t) k = Ok (snap (set_transactions bits t) k).
Proof.
  intros HL Hrc Hlen Hk. destruct (lo_snapshot _ _ _ _ HL Hrc) as [_ S2 _ _]. pose proof (lo_range _ _ _ _ HL).
  pose proof (Z.mod_pos_bound (tra_oldest t) 4 ltac:(lia)). assert (Hr : room bits = room (tra_transactions t)) by (unfold room; by rewrite Hlen).
  by rewrite TRA_state_at by (rewrite Hr; lia).
Qed.

(** What a wait finds when it is not refused, whichever of the locks are still held: a
    transaction that is active all the same is marked dead. *)
Definition wait_state d m : Z := if decide (state_of tpt (tip_pages d) m = tra_active) then tra_dead else state_of tpt (tip_pages d) m.

Lemma mark_dead d m : counters_ok tpt d -> cached tpt d -> 1 <= m <= next_number d ->
  exists d' : database, (if decide (state_of tpt (tip_pages d) m = tra_active) then TRA_set_state tpt None m tra_dead;; ret tra_dead
      else ret (state_of tpt (tip_pages d) m) : DM Z) d = Ok (wait_state d m, d') /\
    counters_ok tpt d' /\ cached tpt d' /\ next_number d' = next_number d /\ tra_locks d' = tra_locks d /\
    forall k, 0 <= k -> state_of tpt (tip_pages d') k = if decide (k = m) then wait_state d m else state_of tpt (tip_pages d) k.
Proof.
  intros Hc Hca Hm. unfold wait_state. case_decide as Ha.
  - assert (dbb_oldest_transaction d <= m) as Ho.
    { destruct (Z.le_gt_cases (dbb_oldest_transaction d) m); [done|]. rewrite (co_committed _ _ Hc) in Ha by lia. done. }
    destruct (set_state_restated tpt Htpt Halign d None m tra_dead Hc Hca Hm Ho ltac:(by right) I) as (d' & He & [R1 R2 R3 R4 R5 R6 R7 R8]).
    exists d'. rewrite (bind_ok _ _ _ _ _ He). done.
  - exists d. split_and!; try done. intros k _. case_decide; congruence.
Qed.

Lemma TRA_wait_answers d live n t m w locks : sys_inv tpt d live -> live !! n = Some t -> 1 <= m <= next_number d -> m ∉ precommits d ->
  tra_oldest t <= m -> ~ (w <> tra_no_wait /\ is_Some (locks !! m)) ->
  exists bits d', TRA_wait tpt t m w (set_tra_locks locks d) = Ok ((set_transactions bits t, wait_state d m), d') /\ tra_locks d' = locks /\
    (forall k, 0 <= k -> state_of tpt (tip_pages d') k = if decide (k = m) then wait_state d m else state_of tpt (tip_pages d) k) /\
    length bits = length (tra_transactions t) /\
    (reads_committed t = false -> forall k, tra_oldest t <= k <= tra_top t -> snap (set_transactions bits t) k =
      if decide (k = m /\ (w = tra_no_wait \/ wait_state d m <> tra_committed)) then wait_state d m else snap t k).
Proof.
  intros H Ht Hm Hpc Hold Hw. pose proof (si_live _ _ _ H _ _ Ht) as HL. set (d0 := set_tra_locks locks d).
  pose proof (counters_ok_locks tpt locks d (si_counters _ _ _ H)) as Hc0. pose proof (si_cached _ _ _ H n ltac:(eauto)) as Hca.
  assert (Hca0 : cached tpt d0) by exact Hca. assert (Hid : set_transactions (tra_transactions t) t = t) by (by destruct t).
  pose proof (state_of_range tpt (tip_pages d) m) as Hrange.
  unfold TRA_wait. rewrite (bind_ok _ _ _ false d0).
  2:{ destruct w; [done|..]; unfold transaction_locked, gets; (rewrite bool_decide_eq_false_2; [done|]; intros ?; by apply Hw). }
  assert (HmN : 0 <= m <= next_number d0) by (change (next_number d0) with (next_number d); lia).
  destruct (snapshotState_ok tpt Htpt Halign d0 m Hc0 Hca0 (fun _ => si_limbo _ _ _ H m Hm) HmN) as (d1 & He & [v ->] & Hc1).
  unfold latest_state in He. rewrite decide_False in He by (intros [_ ?]; done). rewrite decide_False in He by lia.
  unfold TRA_get_state. rewrite (bind_ok _ _ _ _ _ He). cbv zeta. change (tip_pages d0) with (tip_pages d).
  destruct (decide (w <> tra_no_wait /\ state_of tpt (tip_pages d) m = tra_committed)) as [[Hw1 Hs]|Hs].
  { assert (wait_state d m = tra_committed) as Hws by (unfold wait_state; rewrite Hs; done). rewrite Hws.
    exists (tra_transactions t), (set_cache v d0). rewrite Hid. split; [destruct w; [done|..]; (rewrite bool_decide_eq_true_2 by done; by rewrite Hs)|].
    split_and!; try done; [intros k _; cbn; case_decide; congruence|]. intros _ k _. by rewrite decide_False by tauto. }
  assert (match w with tra_no_wait => false | _ => bool_decide (state_of tpt (tip_pages d) m = tra_committed) end = false) as ->.
  { destruct w; [done|..]; (apply bool_decide_eq_false_2; intros ?; by apply Hs). }
  rewrite decide_False by (unfold tra_precommitted; lia).
  destruct (mark_dead (set_cache v d0) m (counters_ok_cache _ _ _ Hc0) Hc1 Hm) as (d2 & Hd & Hc2 & Hca2 & HN2 & Hl2 & Hst2).
  change (tip_pages (set_cache v d0)) with (tip_pages d) in Hd, Hst2. change (wait_state (set_cache v d0) m) with (wait_state d m) in *.
  rewrite (bind_ok _ _ _ _ _ Hd).
  assert (Hcond : w = tra_no_wait \/ wait_state d m <> tra_committed).
  { destruct (decide (w = tra_no_wait)); [by left|right]. unfold wait_state. case_decide; [done|]. tauto. }
  assert (Hws : 0 <= wait_state d m <= 3) by (unfold wait_state; case_decide; [done|lia]).
  destruct (decide (m > tra_top t)) as [Htop|Htop].
  { exists (tra_transactions t), d2. rewrite Hid. split_and!; [done|exact Hl2|exact Hst2|done|]. intros _ k Hk. by rewrite decide_False by lia. }
  destruct (reads_committed t) eqn:Hrc.
  - destruct Hca2 as (hi & Hl & _). pose proof (setState_same d2 hi m Hc2 Hl ltac:(lia)) as Hset. rewrite Hst2, decide_True in Hset by lia.
    unfold tweak_state. change (flag t TRA_read_committed) with (reads_committed t). rewrite Hrc.
    erewrite bind_ok by (rewrite (bind_ok _ _ _ _ _ Hset); reflexivity). exists (tra_transactions t), d2. rewrite Hid. by split_and!; [|exact Hl2|exact Hst2|..].
  - destruct (put_snapshot_ok d n t m (wait_state d m) d2 HL Hrc ltac:(lia) Hws) as (bits & Hb & _ & Hlen & Hsnap).
    rewrite (bind_ok _ _ _ _ _ Hb). exists bits, d2. split_and!; [done|exact Hl2|exact Hst2|done|]. intros _ k Hk. rewrite Hsnap by lia.
    destruct (decide (k = m)); [by rewrite decide_True|by rewrite decide_False by tauto].
Qed.

End System.

(** ** The counters of the header page *)

(** A word is at most the number that it is part of. *)
Lemma low_word_le a b : 0 <= Z.lor a b -> b <= Z.lor a b.
Proof.
  intros [Ha Hb]%Z.lor_nonneg. assert (Z.lor a b = Z.ldiff a b + b) as ->; [|assert (0 <= Z.ldiff a b) by (apply Z.ldiff_nonneg; auto); lia].
  rewrite Z.add_nocarry_lor by apply Z.land_ldiff. apply Z.bits_inj'. intros i Hi.
  rewrite !Z.lor_spec, Z.ldiff_spec. by destruct (Z.testbit a i), (Z.testbit b i).
Qed.

(** A counter is raised to the value in memory, or stays. *)
Lemma update_header_range d h : header_ok h -> dbb_next_transaction d = getNT h ->
  0 <= getOIT h <= dbb_oldest_transaction d -> dbb_oldest_transaction d <= MAX_TRA_NUMBER ->
  0 <= getOAT h <= dbb_oldest_active d -> dbb_oldest_active d <= MAX_TRA_NUMBER ->
  0 <= getOST h <= dbb_oldest_snapshot d -> dbb_oldest_snapshot d <= MAX_TRA_NUMBER ->
  getOST h <= getOAT h -> dbb_oldest_snapshot d <= dbb_oldest_active d ->
  let h' := update_header d h in header_ok h' /\ getNT h' = getNT h /\ getOIT h <= getOIT h' <= dbb_oldest_transaction d /\
    getOAT h <= getOAT h' <= dbb_oldest_active d /\ getOST h <= getOST h' <= dbb_oldest_snapshot d /\ getOST h' <= getOAT h'.
Proof.
  intros Hh Hn Hi Hi2 Ha Ha2 Hs Hs2 Ho Ho2. unfold update_header. cbv zeta. case_decide as Hany; [|split_and!; (done || lia)].
  pose proof (low_word_le (Z.shiftl (hdr_tra_high h !!! OAT_INDEX) BITS_PER_LONG) (hdr_oldest_active h) (proj1 Ha)) as Hlow.
  change (hdr_oldest_active h <= getOAT h) in Hlow.
  set (h1 := if decide _ then writeOAT _ h else h).
  assert (header_ok h1 /\ getNT h1 = getNT h /\ getOIT h1 = getOIT h /\ getOAT h1 = dbb_oldest_active d /\ getOST h1 = getOST h) as (A1 & A2 & A3 & A4 & A5).
  { unfold h1. case_decide; [|split_and!; (done || lia)]. destruct (counters_write h (dbb_oldest_active d) Hh ltac:(lia)) as (_ & _ & (? & -> & -> & -> & ->) & _). split_and!; (done || lia). }
  clearbody h1. set (h2 := if decide _ then writeOIT _ h1 else h1).
  assert (header_ok h2 /\ getNT h2 = getNT h /\ getOIT h <= getOIT h2 <= dbb_oldest_transaction d /\ getOAT h2 = dbb_oldest_active d /\ getOST h2 = getOST h) as (B1 & B2 & B3 & B4 & B5).
  { unfold h2. case_decide; [|split_and!; (done || lia)]. destruct (counters_write h1 (dbb_oldest_transaction d) A1 ltac:(lia)) as (_ & (? & -> & -> & -> & ->) & _). split_and!; (done || lia). }
  clearbody h2. set (h3 := if decide _ then writeOST _ h2 else h2).
  assert (header_ok h3 /\ getNT h3 = getNT h /\ getOIT h <= getOIT h3 <= dbb_oldest_transaction d /\ getOAT h3 = dbb_oldest_active d /\ getOST h <= getOST h3 <= dbb_oldest_snapshot d) as (C1 & C2 & C3 & C4 & C5).
  { unfold h3. case_decide; [|split_and!; (done || lia)]. destruct (counters_write h2 (dbb_oldest_snapshot d) B1 ltac:(lia)) as (_ & _ & _ & (? & -> & -> & -> & ->)). split_and!; (done || lia). }
  rewrite decide_False by lia. split_and!; (done || lia).
Qed.

Section Safe.
Context (tpt : Z) (Htpt : 0 < tpt < 2 ^ 18) (Halign : tpt mod 4 = 0).
Implicit Types (d : database) (live : gmap Z jrd_tra) (t : jrd_tra).

Lemma update_counters_inv d live : sys_inv tpt d live ->
  exists h, TRA_update_counters d = Ok (tt, set_header h d) /\ sys_inv tpt (set_header h d) live /\ next_number (set_header h d) = next_number d.
Proof.
  intros H. pose proof (si_counters _ _ _ H) as Hc. pose proof (co_oldest _ _ Hc) as Ho. pose proof (co_active _ _ Hc) as Ha. pose proof (co_snapshot _ _ Hc) as Hs.
  pose proof (co_number _ _ Hc) as Hn. pose proof (co_order _ _ Hc) as [Hor1 Hor2]. unfold MAX_TRA_NUMBER in *.
  destruct (update_header_range d (header d) (co_header _ _ Hc) (co_next _ _ Hc)) as (U1 & U2 & U3 & U4 & U5 & U6); try (unfold MAX_TRA_NUMBER; lia).
  set (h := update_header d (header d)) in *. exists h. split.
  { unfold TRA_update_counters. run. change (id d) with d. rewrite (co_write _ _ Hc), bool_decide_eq_false_2 by lia. done. }
  assert (HN : next_number (set_header h d) = next_number d) by exact U2. split; [|done].
  destruct H as [I1 I2 I3 I4 I5 I6 I7 I8 I9 I10]. split; rewrite ?HN; try done.
  - destruct Hc. split; rewrite ?HN; try done; cbn; lia.
  - destruct I2 as [[[F1 F2] F3]|(hi & Hl & Hh)]; [left|right].
    + split; [split; [done|]|by rewrite HN]. cbn. lia.
    + exists hi. by rewrite HN.
  - intros n Hl. destruct (I3 n Hl) as (hi & Hl' & Hh). exists hi. by rewrite HN.
  - intros n t Ht. apply (live_frame tpt d); [by apply I6|lia|done|]. intros; by left.
Qed.

(** ** The end of a transaction *)

Lemma follows_update d d' live n t t' : next_number d' = next_number d -> live !! n = Some t -> view_kept t t' ->
  follows (System d live) (System d' (<[n := t']> live)).
Proof.
  intros HN Ht Hv. apply (follows_one d d' live n t); [lia|done|]. intros k s. destruct (decide (k = n)) as [->|Hne].
  - rewrite lookup_insert_eq. intros [= <-]. auto.
  - rewrite lookup_insert_ne by done. auto.
Qed.

Lemma same_core_refl t : same_core t t.
Proof. by repeat split. Qed.

(** The answer of an end: an error changes nothing, and with retaining there is a new number or
    there was nothing to do. *)
Definition went_on d t d' (r : tra_error + option jrd_tra) : Prop :=
  match r with
  | inl _ => d' = d
  | inr None => next_number d' = next_number d
  | inr (Some t') => tra_number t' = next_number d + 1 /\ next_number d' = next_number d + 1 \/ same_core t t' /\ d' = d
  end.

Lemma goes_on_follows d live n t d' r : live_ok tpt d n t -> live !! n = Some t -> went_on d t d' r ->
  follows (System d live) (System d' (goes_on n live r)).
Proof.
  intros HL Ht Hw. pose proof (lo_number _ _ _ _ HL) as [Hn Hn1].
  apply (follows_one d d' live n t); [|done|].
  - destruct r as [e|[t'|]]; cbn in Hw; [by subst d'|destruct Hw as [[_ ->]|[_ ->]]; lia|lia].
  - intros k s. destruct r as [e|[t'|]]; cbn; [by left| |intros [_ ?]%lookup_delete_Some; by left].
    destruct (decide (k = tra_number t')) as [->|Hne].
    + rewrite lookup_insert_eq. intros [= <-]. right. cbn in Hw. destruct Hw as [[-> _]|[Hs _]]; [left; lia|right].
      split; [|by apply same_core_view]. destruct Hs as (-> & _). done.
    + rewrite lookup_insert_ne by done. intros [_ ?]%lookup_delete_Some. by left.
Qed.

Lemma end_or_retain d live n t t' (retaining commit : bool) s : sys_inv tpt d live -> live !! n = Some t -> same_core t t' ->
  (retaining = true -> has_room tpt d) -> s = tra_committed \/ s = tra_dead -> (commit = true -> s = tra_committed) ->
  exists r d', (if retaining then
      retained ← retain_context tpt t' commit s; ret (match retained with inl e => inl e | inr trans => inr (Some trans) end)
    else TRA_set_state tpt (Some t') (tra_number t') s;; TRA_release_transaction t';; ret (inr None)) d = Ok (r, d') /\
    sys_inv tpt d' (goes_on n live r) /\ went_on d t d' r.
Proof.
  intros H Ht Hsame Hroom Hs Hcs. destruct retaining.
  - pose proof (inv_same tpt d live n t t' H Ht Hsame) as H'.
    pose proof (retain_ok tpt Htpt Halign d _ n t' commit s H' ltac:(by rewrite lookup_insert_eq) (Hroom eq_refl) Hs Hcs) as Hr. case_decide as Hmax.
    + rewrite (bind_ok _ _ _ _ _ Hr). by exists (inl isc_tra_num_exc), d.
    + destruct Hr as (t2 & d2 & He & Hnum & HN & Hinv). rewrite (bind_ok _ _ _ _ _ He). exists (inr (Some t2)), d2. split; [done|].
      cbn. rewrite delete_insert_eq in Hinv. rewrite Hnum. split; [done|by left].
  - destruct Hsame as (E1 & _ & _ & _ & _ & E6 & _ & _ & E9 & _). pose proof (lo_number _ _ _ _ (si_live _ _ _ H _ _ Ht)) as [Hn1 _].
    destruct (end_ok tpt Htpt Halign d live n t t' s H Ht) as (d1 & d2 & He1 & He2 & Hend); [done|done|].
    exists (inr None), d2. rewrite E1, Hn1, (bind_ok _ _ _ _ _ He1), (bind_ok _ _ _ _ _ He2). split; [done|]. cbn. split; [|exact (en_number _ _ _ _ _ Hend)].
    apply (inv_ended tpt d d2 live n _ t H Ht Hend). destruct (is_precommitted t); [by left|]. destruct Hs; auto.
Qed.

Lemma TRA_commit_ok d live n t (retaining : bool) : sys_inv tpt d live -> live !! n = Some t -> (retaining = true -> has_room tpt d) ->
  exists r d', TRA_commit tpt t retaining d = Ok (r, d') /\ sys_inv tpt d' (goes_on n live r) /\ went_on d t d' r.
Proof.
  intros H Ht Hroom. pose proof (lo_number _ _ _ _ (si_live _ _ _ H _ _ Ht)) as [Hn1 _]. unfold TRA_commit.
  destruct (retaining && _).
  - eexists _, d. split; [reflexivity|]. cbn. rewrite Hn1, insert_delete_eq.
    enough (same_core t (set_save_point (user_savepoints (tra_save_point t)) (clear_flags TRA_prepared t))) as Hs
      by (split; [by apply (inv_same tpt d live n t)|by right]).
    unfold same_core, reads_committed, is_precommitted. change (flag (set_save_point ?a ?b) ?c) with (flag b c). by rewrite !flag_clear.
  - destruct (flag t TRA_invalidated); [by exists (inl isc_trans_invalid), d|]. cbv zeta.
    apply (end_or_retain d live n t); [done|done| |done|by left|done]. by destruct (flag t TRA_write).
Qed.

Lemma TRA_rollback_ok d live n t (retaining force undone : bool) : sys_inv tpt d live -> live !! n = Some t -> (retaining = true -> has_room tpt d) ->
  exists r d', TRA_rollback tpt t retaining force undone d = Ok (r, d') /\ sys_inv tpt d' (goes_on n live r) /\ went_on d t d' r.
Proof.
  intros H Ht Hroom. unfold TRA_rollback. assert (Hs : (rollback_state t force undone).2 = tra_committed \/ (rollback_state t force undone).2 = tra_dead).
  { unfold rollback_state. destruct (if force || _ then _ else _) as [|? ?]; [destruct (flag t TRA_write); auto|]. destruct (user_savepoints _); [auto|]. destruct undone; auto. }
  destruct (rollback_state t force undone) as [sp s]. apply (end_or_retain d live n t); done.
Qed.

Lemma do_work_same w t : same_core t (do_work w t).
Proof.
  unfold same_core, reads_committed, is_precommitted. destruct w; cbn [do_work]; try done; by rewrite !flag_add.
Qed.

(** ** Any action *)

Lemma perform_ok a s : inv tpt s -> action_ok tpt a s -> exists s', perform tpt a s = Ok s' /\ inv tpt s' /\ follows s s'.
Proof.
  destruct s as [d live]. unfold inv. cbn [sys_db sys_live]. intros H Ha. destruct a as [flags|n re|n re fo un|n m w|n m|n w|]; cbn [perform sys_db sys_live] in *;
    unfold of_tra; cbn [sys_live];
    try (destruct (live !! n) as [t|] eqn:Ht; [pose proof (si_live _ _ _ H _ _ Ht) as HL|by exists (System d live); split; [|split; [|apply follows_refl]]]).
  - destruct Ha as [Hroom Hf]. pose proof (transaction_start_inv tpt Htpt Halign flags d live H Hroom Hf) as Hs. case_decide.
    + rewrite Hs. exists (System d live). split; [done|]. split; [done|apply follows_refl].
    + destruct Hs as (t & d' & -> & Hinv & HN & Hn & _). eexists. split; [reflexivity|]. cbn. rewrite Hn. split; [done|]. split; cbn; [lia|].
      intros k t'. destruct (decide (k = next_number d + 1)) as [->|Hne]; [left; lia|]. rewrite lookup_insert_ne by done.
      intros Hk. right. exists t'. split; [done|apply view_kept_refl].
  - destruct (TRA_commit_ok d live n t re H Ht Ha) as (r & d' & -> & Hinv & Hw). eexists. split; [reflexivity|]. split; [done|by apply (goes_on_follows d live n t)].
  - destruct (TRA_rollback_ok d live n t re fo un H Ht Ha) as (r & d' & -> & Hinv & Hw). eexists. split; [reflexivity|]. split; [done|by apply (goes_on_follows d live n t)].
  - destruct Ha as [Hm Hw]. destruct (TRA_wait_ok tpt Htpt Halign d live n t m w H Ht Hm Hw) as (t' & v & He & Hinv & _ & Hv). cbv zeta in He. rewrite He.
    eexists. split; [reflexivity|]. split; [done|]. by apply (follows_update d _ live n t).
  - destruct (TRA_snapshot_state_ok tpt Htpt Halign d live n t m H Ht Ha) as (v & He & Hc). rewrite He. eexists. split; [reflexivity|]. cbn.
    split; [by apply inv_cache|apply (follows_refl (System d live))].
  - eexists. split; [reflexivity|]. cbn. split; [apply (inv_same tpt d live n t); [done|done|apply do_work_same]|].
    apply (follows_update d d live n t); [done|done|apply same_core_view, do_work_same].
  - destruct (update_counters_inv d live H) as (h & -> & Hinv & HN). eexists. split; [reflexivity|]. split; [done|]. split; [cbn; lia|].
    intros k t Hk. right. exists t. split; [done|apply view_kept_refl].
Qed.

(** A sequence of actions *)
Lemma leads_ok s s' : inv tpt s -> leads tpt s s' -> inv tpt s' /\ follows s s'.
Proof.
  intros Hi Hl. induction Hl as [|s1 s2 a _ [IH1 IH2] Ha Hp]; [split; [done|apply follows_refl]|].
  destruct (perform_ok a s1 IH1 Ha) as (s' & Hp' & Hinv & Hf). assert (s' = s2) as -> by congruence. split; [done|by eapply follows_trans].
Qed.

Lemma reachable_inv s : reachable tpt s -> inv tpt s.
Proof. intros (d & Ho & Hl). by apply (leads_ok _ _ (inv_opened tpt d Ho) Hl). Qed.

End Safe.

(** ** Opening a database again *)

Lemma cleanup_page_ok count (first : bool) tip number : bytes tip -> 0 <= number -> number + Z.of_nat count <= room tip ->
  exists tip', cleanup_page count first tip number = Some tip' /\ bytes tip' /\ length tip' = length tip /\
    forall j, 0 <= j -> state_at tip' j = if decide (number <= j < number + Z.of_nat count /\ state_at tip j = tra_active)
      then (if first && bool_decide (j = 0) then tra_committed else tra_dead) else state_at tip j.
Proof.
  revert tip number. induction count as [|count IH]; intros tip number Hby Hn Hr.
  - exists tip. split; [done|]. split; [done|]. split; [done|]. intros j Hj. by rewrite decide_False by lia.
  - cbn [cleanup_page]. rewrite get_state_at by (lia || done). cbn [mbind option_bind].
    set (st := if first && bool_decide (number = 0) then tra_committed else tra_dead).
    assert (Hst : 0 <= st <= 3 /\ st <> tra_active) by (unfold st; destruct (first && _); done).
    assert (exists tip1, (if decide (state_at tip number = tra_active) then put_state tip (TRANS_OFFSET number) (TRANS_SHIFT number) st else Some tip) = Some tip1 /\
      bytes tip1 /\ length tip1 = length tip /\
      forall j, 0 <= j -> state_at tip1 j = if decide (j = number /\ state_at tip j = tra_active) then st else state_at tip j) as (tip1 & -> & Hby1 & Hl1 & Hs1).
    { case_decide as Ha.
      - destruct (put_state_at tip number number st Hby ltac:(lia) eq_refl (proj1 Hst)) as (tip1 & Hp & H1 & H2 & H3). exists tip1. split_and!; try done.
        intros j Hj. rewrite H3 by done. destruct (decide (j = number)) as [->|]; [by rewrite decide_True|by rewrite decide_False by tauto].
      - exists tip. split_and!; try done. intros j Hj. rewrite decide_False; [done|]. by intros [-> ?]. }
    cbn [mbind option_bind]. assert (Hr1 : room tip1 = room tip) by (unfold room; by rewrite Hl1).
    destruct (IH tip1 (number + 1) Hby1 ltac:(lia) ltac:(lia)) as (tip' & He & Hby' & Hl' & Hs'). exists tip'. split; [done|]. split; [done|]. split; [congruence|].
    intros j Hj. rewrite Hs', Hs1 by done. destruct (decide (j = number)) as [->|Hne].
    + rewrite (decide_False (P := number + 1 <= number < _ /\ _)) by lia. destruct (decide (state_at tip number = tra_active)) as [Ha|Ha].
      * rewrite !decide_True by (split; (done || lia)). done.
      * by rewrite !decide_False by tauto.
    + rewrite (decide_False (P := j = number /\ _)) by tauto. apply decide_ext. split; intros [? ?]; (split; [lia|done]).
Qed.

Section Recovery.
Context (tpt : Z) (Htpt : 0 < tpt < 2 ^ 18) (Halign : tpt mod 4 = 0).
Implicit Types (d : database).

(** What is active in a range is dead afterwards, the transaction 0 committed. *)
Definition cleaned P (from ceiling : Z) P' : Prop :=
  length P' = length P /\ pages_ok tpt P' /\
  forall n, 0 <= n -> state_of tpt P' n = if decide (from <= n <= ceiling /\ state_of tpt P n = tra_active)
    then (if bool_decide (n = 0) then tra_committed else tra_dead) else state_of tpt P n.

Lemma cleanup_pages_ok fuel d ceiling sequence number : pages_ok tpt (tip_pages d) -> 0 <= ceiling ->
  ceiling / tpt < Z.of_nat (length (tip_pages d)) -> 0 <= sequence -> 0 <= number < tpt -> ceiling / tpt + 1 - sequence <= Z.of_nat fuel ->
  exists P', cleanup_pages tpt fuel ceiling (ceiling / tpt) sequence number d = Ok (tt, set_tip_pages P' d) /\
    cleaned (tip_pages d) (sequence * tpt + number) ceiling P'.
Proof.
  intros HP Hc Hlast. revert d HP Hlast sequence number. induction fuel as [|fuel IH]; intros d HP Hlast sequence number Hs Hn Hf.
  - cbn. rewrite decide_False by lia. exists (tip_pages d). split; [by destruct d|]. split; [done|]. split; [done|].
    intros n Hn0. rewrite decide_False; [done|]. pose proof (Z.mul_succ_div_gt ceiling tpt ltac:(lia)). nia.
  - cbn [cleanup_pages]. case_decide as Hle.
    2:{ exists (tip_pages d). split; [by destruct d|]. split; [done|]. split; [done|].
        intros n Hn0. rewrite decide_False; [done|]. pose proof (Z.mul_succ_div_gt ceiling tpt ltac:(lia)). nia. }
    rewrite (bind_ok _ _ _ _ _ (inventory_page_eq d sequence ltac:(lia))). cbv zeta.
    set (mx := if decide (ceiling - sequence * tpt >= tpt) then tpt - 1 else ceiling - sequence * tpt).
    destruct (page_page_ok tpt (tip_pages d) sequence HP ltac:(lia)) as [Hpl Hpb].
    assert (Hmx : mx = Z.min (tpt - 1) (ceiling - sequence * tpt)) by (unfold mx; case_decide; lia).
    destruct (cleanup_page_ok (Z.to_nat (mx + 1 - number)) (bool_decide (sequence = 0)) (page (tip_pages d) sequence) number Hpb) as (tip & He & Hby & Hl & Hst);
      [lia|unfold room; lia|]. rewrite He. run.
    set (d1 := set_tip_pages (<[Z.to_nat sequence := tip]> (tip_pages d)) d).
    assert (HP1 : pages_ok tpt (tip_pages d1)).
    { destruct HP as [HP1 HP2]. cbn. split; [|by rewrite length_insert]. apply Forall_insert; [done|]. split; [by rewrite Hl|done]. }
    assert (Hlen1 : length (tip_pages d1) = length (tip_pages d)) by (cbn; by rewrite length_insert).
    destruct (IH d1 HP1 ltac:(rewrite Hlen1; lia) (sequence + 1) 0 ltac:(lia) ltac:(lia) ltac:(lia)) as (P' & He' & Hlen & HP' & Hst').
    exists P'. split; [exact He'|]. split; [congruence|]. split; [done|]. intros n Hn0. rewrite Hst' by done.
    destruct (number_split tpt Htpt n Hn0) as (Hsp & Hmod & Hq).
    assert (Hs1 : state_of tpt (tip_pages d1) n = if decide (n / tpt = sequence) then state_at tip (n mod tpt) else state_of tpt (tip_pages d) n).
    { unfold state_of. change (tip_pages d1) with (put_page (tip_pages d) sequence tip). rewrite page_put by lia. by destruct (decide (n / tpt = sequence)). }
    destruct (decide (n / tpt = sequence)) as [Hd|Hd].
    + rewrite decide_False by nia. rewrite Hs1, Hst by lia. unfold state_of. rewrite Hd.
      assert (Hr : number <= n mod tpt < number + Z.of_nat (Z.to_nat (mx + 1 - number)) <-> sequence * tpt + number <= n <= ceiling) by (rewrite Hmx; nia).
      destruct (decide (state_at (page (tip_pages d) sequence) (n mod tpt) = tra_active)) as [Ha|Ha]; [|by rewrite !decide_False by tauto].
      destruct (decide (sequence * tpt + number <= n <= ceiling)) as [Hin|Hin]; [|by rewrite !decide_False by tauto]. rewrite !decide_True by tauto.
      assert (bool_decide (sequence = 0) && bool_decide (n mod tpt = 0) = bool_decide (n = 0)) as ->; [|done].
      rewrite <- bool_decide_and. apply bool_decide_ext. nia.
    + rewrite Hs1. apply decide_ext. assert (sequence * tpt + number <= n <-> (sequence + 1) * tpt + 0 <= n); [|tauto].
      split; [|lia]. intros Hge. assert (sequence < n / tpt) by (assert (sequence <= n / tpt) by (apply Z.div_le_lower_bound; lia); lia). nia.
Qed.

(** The process has gone: what is left is what is on the pages. *)
Definition closed d : database := Database (tip_pages d) (header d) 0 0 0 0 (dbb_read_only d) 0 [] None ∅.

Definition reopen : DM unit := PAG_header false;; TRA_cleanup tpt false.

Lemma reopen_ok d live : sys_inv tpt d live ->
  exists d', reopen (closed d) = Ok (tt, d') /\ next_number d' = next_number d /\
    (forall n, 1 <= n <= next_number d ->
      state_of tpt (tip_pages d') n = if decide (state_of tpt (tip_pages d) n = tra_active) then tra_dead else state_of tpt (tip_pages d) n) /\
    ((next_number d + 1) mod tpt <> 0 -> opened tpt d').
Proof.
  intros H. pose proof (si_counters _ _ _ H) as Hc. pose proof (co_oldest _ _ Hc) as Ho. pose proof (co_active _ _ Hc) as Ha. pose proof (co_snapshot _ _ Hc) as Hs.
  pose proof (co_number _ _ Hc) as Hn. pose proof (co_order _ _ Hc) as [Hor _]. set (N := next_number d) in *.
  set (d1 := Database (tip_pages d) (header d) N (getOIT (header d)) (getOAT (header d)) (getOST (header d)) false 0 [] None ∅).
  assert (Hhead : PAG_header false (closed d) = Ok (tt, d1)).
  { unfold PAG_header. run. change (header (closed d)) with (header d). fold (next_number d). fold N.
    rewrite !decide_False by lia. run. cbn [negb orb]. run. unfold d1. by rewrite <- (co_write _ _ Hc). }
  assert (Hend : exists P, TRA_cleanup tpt false d1 = Ok (tt, set_tip_pages P d1) /\ length P = length (tip_pages d) /\ pages_ok tpt P /\
    forall n, 1 <= n -> state_of tpt P n = if decide (n <= N /\ state_of tpt (tip_pages d) n = tra_active) then tra_dead else state_of tpt (tip_pages d) n).
  { unfold TRA_cleanup. run. change (id d1) with d1. cbn [dbb_read_only d1 orb]. change (getNT (header d1)) with N. change (getOAT (header d1)) with (getOAT (header d)).
    case_decide as HN0.
    - exists (tip_pages d). split; [by destruct d|]. split; [done|]. split; [apply (co_pages _ _ Hc)|]. intros n Hn1. by rewrite decide_False by lia.
    - pose proof (number_page tpt Htpt d N Hc ltac:(lia)) as Hpg. pose proof (proj2 (co_pages _ _ Hc)) as H31.
      destruct (number_split tpt Htpt (getOAT (header d)) ltac:(lia)) as (Hsp & Hmod & Hq).
      assert (Hdiv : getOAT (header d) / tpt <= N / tpt) by (apply Z.div_le_mono; lia).
      rewrite !wrapU_id by lia32.
      destruct (cleanup_pages_ok (Z.to_nat (N / tpt + 1 - getOAT (header d) / tpt)) d1 N (getOAT (header d) / tpt) (getOAT (header d) mod tpt))
        as (P & He & Hl & HP & Hst); [apply (co_pages _ _ Hc)|lia|cbn; lia|lia|lia|lia|].
      exists P. split; [exact He|]. split; [exact Hl|]. split; [done|]. intros n Hn1. rewrite Hst by lia. rewrite <- Hsp. change (tip_pages d1) with (tip_pages d).
      rewrite (bool_decide_eq_false_2 (n = 0)) by lia. apply decide_ext. split; [tauto|]. intros [HnN Hact]. split; [|done]. split; [|done].
      destruct (Z.le_gt_cases (getOAT (header d)) n); [done|]. by destruct (co_no_active _ _ Hc n ltac:(lia)). }
  destruct Hend as (P & He & Hl & HP & Hst). exists (set_tip_pages P d1). split; [unfold reopen; by rewrite (bind_ok _ _ _ _ _ Hhead)|]. split; [done|].
  assert (Hst' : forall n, 1 <= n <= N -> state_of tpt P n = if decide (state_of tpt (tip_pages d) n = tra_active) then tra_dead else state_of tpt (tip_pages d) n).
  { intros n Hn1. rewrite Hst by lia. apply decide_ext. intuition lia. }
  split; [exact Hst'|]. intros Hroom. split; try done.
  - assert (HNT : getNT (header d) = N) by done. split; try done; unfold next_number; cbn; rewrite ?Hl, ?HNT; try lia.
    + apply (co_header _ _ Hc).
    + apply (co_length _ _ Hc).
    + intros n Hn1. rewrite Hst by lia. rewrite (co_committed _ _ Hc) by lia. rewrite decide_False; [done|]. by intros [_ ?].
    + intros n Hn1. rewrite Hst by lia. case_decide as Hd; [done|]. apply (co_no_active _ _ Hc). lia.
    + intros n Hn1. rewrite Hst by lia. rewrite decide_False by lia. apply (co_free _ _ Hc). done.
  - left. split; [split; done|exact Hroom].
  - intros n Hn1. change (next_number (set_tip_pages P d1)) with N in Hn1. change (tip_pages (set_tip_pages P d1)) with P. rewrite Hst' by lia.
    case_decide as Hd; [by right|]. pose proof (si_limbo _ _ _ H n ltac:(fold N; lia)) as Hlimbo. pose proof (state_of_range tpt (tip_pages d) n).
    unfold tra_limbo, tra_committed, tra_dead, tra_active in *. lia.
Qed.

End Recovery.
