(* ===== verification/Transactions.v ===== *)
(** * What the engine promises of transactions

    The properties of the states that starts, ends and waits lead to: which transactions a
    snapshot sees, which versions garbage collection may remove, what the inventory says of
    those that run; the loops that look for a state; the counters; and what goes wrong when the
    steps of two starts mix, or when the counters pass 32 bits. *)

From S2P Require Import Prelude Memory Search Outcome StateMonad TraCache TraOps TraInventory TraState TraInv TraStart TraEnd TraSystem.
From stdpp Require Import gmap.
#[local] Open Scope Z_scope.

(** ** An example: pages of 16 transactions *)

Definition demo_database : database :=
  Database [replicate 4 0] (Header 0 1 0 0 [0; 0; 0; 0]) 0 1 0 0 false 0 [] None ∅.

Lemma demo_opened : opened 16 demo_database.
Proof.
  assert (HN : next_number demo_database = 0) by done.
  split; [|left; split; [done|done]| |done|done].
  - split; rewrite ?HN; try done.
    + split; [|done]. constructor; [|constructor]. split; [done|]. repeat constructor; lia.
    + intros n Hn. change (1 <= n < 1) in Hn. lia.
    + intros n Hn. change (1 <= n < 0) in Hn. lia.
    + intros n Hn. change (0 < n < 16) in Hn. unfold state_of. rewrite Z.div_small by lia. rewrite Z.mod_small by lia. apply (state_at_zero 4 n). lia.
  - rewrite HN. lia.
Qed.

(** Does an action find what it needs? *)
Definition action_okb (tpt : Z) (a : action) (s : system) : bool :=
  let d := sys_db s in
  let room := bool_decide (next_number d / tpt + 2 < 2 ^ 31) in
  match a with
  | Start flags => room && bool_decide (next_number d + 8 - dbb_oldest_transaction d < 2 ^ 32) &&
      bool_decide (Z.land flags TRA_system = 0) && bool_decide (Z.land flags TRA_precommitted_flag = 0)
  | Commit _ _ | Rollback _ _ _ _ => room
  | Wait _ number wait => bool_decide (1 <= number <= next_number d) && match wait with tra_no_wait => false | _ => true end
  | Look _ number => bool_decide (0 <= number <= next_number d)
  | Work _ _ | UpdateCounters => true
  end.

Lemma action_okb_sound tpt a s : action_okb tpt a s = true -> action_ok tpt a s.
Proof.
  destruct a as [flags| | |n m w| | |]; cbn; rewrite ?andb_true_iff, ?bool_decide_eq_true; try done.
  - intros [[[? ?] ?] ?]. done.
  - intros [? Hw]. split; [done|]. by destruct w.
Qed.

Fixpoint performs (tpt : Z) (l : list action) (s : system) : option system :=
  match l with
  | [] => Some s
  | a :: l => if action_okb tpt a s then match perform tpt a s with Ok s => performs tpt l s | _ => None end else None
  end.

Lemma performs_leads tpt l s s1 s2 : leads tpt s s1 -> performs tpt l s1 = Some s2 -> leads tpt s s2.
Proof.
  revert s1. induction l as [|a l IH]; intros s1 Hl; cbn; [by intros [= <-]|]. destruct (action_okb tpt a s1) eqn:Ha; [|done].
  destruct (perform tpt a s1) as [s'| |] eqn:Hp; [|done|done]. apply IH. apply (leads_step tpt s s1 s' a); [done|by apply action_okb_sound|done].
Qed.

(** The state after actions that find what they need *)
Definition after (l : list action) (s : system) : system := default s (performs 16 l s).

Lemma after_leads l s : leads 16 s (after l s).
Proof.
  unfold after. destruct (performs 16 l s) as [s'|] eqn:H; [|apply leads_refl]. by apply (performs_leads 16 l s s s' (leads_refl 16 s)).
Qed.

Lemma after_reachable l : reachable 16 (after l (System demo_database ∅)).
Proof. exists demo_database. split; [apply demo_opened|apply after_leads]. Qed.

(** Seven transactions that commit, the eighth is rolled back; two snapshots, of which one retains
    its context, and one that reads what is committed. *)
Definition demo_actions : list action :=
  concat ((fun n => [Start 0; Work n Writes; Commit n false]) <$> seqZ 1 7) ++
  [Start 0; Work 8 Writes; Rollback 8 false false false; Start 0; Start 0; Work 9 Writes; Start TRA_read_committed;
   Work 10 Writes; Commit 10 true; Work 9 Writes; Look 11 9; Look 12 9].
Definition demo : system := after demo_actions (System demo_database ∅).

Lemma demo_is_reachable : reachable 16 demo.
Proof. apply after_reachable. Qed.

(** A transaction of a state *)
Definition tra_of (n : Z) (s : system) : jrd_tra := default (new_tra 0) (sys_live s !! n).

Section Promises.
Context (tpt : Z) (Htpt : 0 < tpt < 2 ^ 18) (Halign : tpt mod 4 = 0).

(** The state of a transaction on the inventory pages *)
Abbreviation tip_state s n := (state_of tpt (tip_pages (sys_db s)) n).

(** ** Safety *)

(** C8. Whatever transactions have been started, committed, rolled back, made to wait or retained, in
    any order: the next start, end, wait, look at a state, or update of the counters ends, does
    not call [BUGCHECK] and stays inside the inventory pages, the vectors of states and the
    cache, and leads to a state for which the same holds. *)
Theorem transactions_safe s a : reachable tpt s -> action_ok tpt a s ->
  exists s', perform tpt a s = Ok s' /\ reachable tpt s'.
Proof.
  intros Hr Ha. destruct (perform_ok tpt Htpt Halign a s (reachable_inv tpt Htpt Halign s Hr) Ha) as (s' & Hp & _).
  exists s'. split; [done|]. destruct Hr as (d & Ho & Hl). exists d. split; [done|]. by apply (leads_step tpt _ s s' a).
Qed.

(** C1. A version is garbage collected when a newer one is of a committed transaction below the
    [tra_oldest_active] of some transaction or below [dbb_oldest_snapshot]. Every transaction
    that runs then sees the newer version as committed, or as its own: nobody needs what was
    removed. This holds too for transactions that have retained their context and so have
    an older snapshot than their number tells. *)
Theorem garbage_collection_safe s u tu n t m g : reachable tpt s -> sys_live s !! u = Some tu -> sys_live s !! n = Some t ->
  g = tra_oldest_active tu \/ g = dbb_oldest_snapshot (sys_db s) -> 1 <= m < g -> tip_state s m = tra_committed ->
  exists a d', TRA_snapshot_state tpt t m (sys_db s) = Ok (a, d') /\ (a = tra_committed \/ a = tra_precommitted \/ a = tra_us).
Proof.
  destruct s as [d live]. intros Hr Hu Ht Hg Hm Hst. pose proof (reachable_inv tpt Htpt Halign _ Hr) as H. unfold inv in H. cbn [sys_db sys_live] in *.
  assert (Hsafe : safe_point d live g) by (destruct Hg as [-> | ->]; [by apply (si_oldest _ _ _ H u)|apply (si_snapshot _ _ _ H)]).
  destruct Hsafe as [Hg1 Hg2]. pose proof (co_active _ _ (si_counters _ _ _ H)) as Ha.
  destruct (TRA_snapshot_state_ok tpt Htpt Halign d live n t m H Ht ltac:(lia)) as (v & He & _). eexists _, _. split; [exact He|].
  unfold seen_state. do 3 (case_decide; [auto|]). destruct (reads_committed t) eqn:Hrc; [by left|]. case_decide; [by left|].
  destruct (Hg2 n t Ht Hrc) as [Hc1 Hc2]. case_decide; [lia|]. destruct (lo_snapshot _ _ _ _ (si_live _ _ _ H _ _ Ht) Hrc) as [S1 S2 S3 S4].
  destruct (S3 m ltac:(lia)) as [Hs|Hs]; [by destruct (Hc2 m ltac:(lia) ltac:(lia))|left; by rewrite Hs].
Qed.

(** C3. The process goes, at any moment, and what is left is what is on the pages; the database is
    opened again. The counters are read and [TRA_cleanup] makes dead what was active, and
    nothing else: what was committed stays so. If the last inventory page has room for the next
    number, what results is a state as after any opening, from which operations go on; a last
    page that is full is the case of [dead_passes_for_committed]. *)
Theorem reopen_outcome s : reachable tpt s ->
  exists d', reopen tpt (closed (sys_db s)) = Ok (tt, d') /\ next_number d' = next_number (sys_db s) /\
    (forall n, 1 <= n <= next_number (sys_db s) ->
      state_of tpt (tip_pages d') n = if decide (tip_state s n = tra_active) then tra_dead else tip_state s n) /\
    ((next_number (sys_db s) + 1) mod tpt <> 0 -> reachable tpt (System d' ∅)).
Proof.
  intros Hr. destruct (reopen_ok tpt Htpt (sys_db s) (sys_live s) (reachable_inv tpt Htpt Halign s Hr)) as (d' & He & HN & Hst & Ho).
  exists d'. split; [done|]. split; [done|]. split; [done|]. intros Hm. exists d'. split; [by apply Ho|apply leads_refl].
Qed.

(** ** What a transaction sees *)

(** C2. After a start that does not ask for read committed, whatever other transactions do then: as
    long as the transaction has its number, it sees an older transaction in the state in which
    it was at the start, but that a wait may have told it that an active one is dead, and a
    newer one as active. *)
Theorem snapshot_isolation s s1 s2 flags t m : reachable tpt s -> action_ok tpt (Start flags) s -> Z.land flags TRA_read_committed = 0 ->
  let n := next_number (sys_db s) + 1 in n < MAX_TRA_NUMBER ->
  perform tpt (Start flags) s = Ok s1 -> leads tpt s1 s2 -> sys_live s2 !! n = Some t ->
  1 <= m <= next_number (sys_db s2) -> m ∉ precommits (sys_db s2) ->
  exists a d', TRA_snapshot_state tpt t m (sys_db s2) = Ok (a, d') /\
    (m < n -> a = tip_state s m \/ tip_state s m = tra_active /\ a = tra_dead) /\ (m = n -> a = tra_us) /\ (n < m -> a = tra_active).
Proof.
  intros Hr [Hroom Hf] Hfl n Hmax Hp Hl Ht Hm Hpc. pose proof (reachable_inv tpt Htpt Halign s Hr) as H. destruct s as [d live], s2 as [d2 live2]. unfold inv in H.
  cbn [sys_db sys_live perform] in *. pose proof (transaction_start_inv tpt Htpt Halign flags d live H Hroom Hf) as Hst.
  rewrite decide_False in Hst by (unfold n in Hmax; lia). destruct Hst as (t1 & d1 & He & Hi1 & HN & Hn1 & Htop & Hold & Hsub & Hrc & _ & _ & Hstates & Hsnap).
  rewrite He in Hp. cbn in Hp. injection Hp as <-. rewrite Hn1 in Hl. fold n in Hi1, HN, Hn1, Htop, Hl.
  assert (En : n = next_number d + 1) by done. clearbody n.
  destruct (leads_ok tpt Htpt Halign (System d1 _) _ Hi1 Hl) as [Hi2 [HN2 Hv]]. unfold inv in Hi2. cbn [sys_db sys_live] in *.
  rewrite Hfl in Hrc. specialize (Hsnap Hrc) as (_ & Hsn). rewrite Htop, Hold in Hsn.
  destruct (Hv n t Ht) as [?|(t0 & Ht0 & V1 & V2 & V3 & V4 & V5 & V6)]; [lia|]. rewrite lookup_insert_eq in Ht0. injection Ht0 as <-.
  destruct (TRA_snapshot_state_ok tpt Htpt Halign d2 live2 n t m Hi2 Ht ltac:(lia)) as (v & He2 & _). eexists _, _. split; [exact He2|].
  pose proof (co_oldest _ _ (si_counters _ _ _ H)) as Ho. pose proof (co_number _ _ (si_counters _ _ _ H)) as Hnum.
  unfold seen_state. rewrite decide_False by tauto. rewrite V1, V2, V3, V4, V5, Hn1, Htop, Hold, Hsub, Hrc.
  destruct (decide (m = n)) as [->|Hne]; [split_and!; [lia|done|lia]|].
  change (bool_decide (0 <> 0)) with false. cbv iota. destruct (decide (m < dbb_oldest_transaction d \/ m = 0)) as [Hb|Hb].
  { split_and!; [|done|intros; exfalso; lia]. intros _. left. rewrite (co_committed _ _ (si_counters _ _ _ H)) by lia. done. }
  rewrite decide_False by set_solver. destruct (decide (m > n)) as [Hgt|Hgt]; [split_and!; (done || lia)|]. split_and!; [|done|lia]. intros Hlt.
  specialize (V6 Hrc m ltac:(lia)). rewrite (Hsn m ltac:(lia)), (Hstates m ltac:(lia)) in V6. exact V6.
Qed.

(** C26. A transaction that reads what is committed sees every other one in the state that the
    inventory pages have at that moment, although it looks at a copy of them. *)
Theorem read_committed_sees_latest s n t m : reachable tpt s -> sys_live s !! n = Some t -> reads_committed t = true ->
  1 <= m <= next_number (sys_db s) -> m <> n -> m ∉ precommits (sys_db s) ->
  exists d', TRA_snapshot_state tpt t m (sys_db s) = Ok (tip_state s m, d').
Proof.
  destruct s as [d live]. intros Hr Ht Hrc Hm Hne Hpc. pose proof (reachable_inv tpt Htpt Halign _ Hr) as H. unfold inv in H. cbn [sys_db sys_live] in *.
  destruct (TRA_snapshot_state_ok tpt Htpt Halign d live n t m H Ht ltac:(lia)) as (v & He & _). eexists. rewrite He. do 2 f_equal.
  pose proof (si_live _ _ _ H _ _ Ht) as HL. pose proof (lo_number _ _ _ _ HL) as [Hn _].
  unfold seen_state. rewrite decide_False by tauto. rewrite decide_False by congruence. rewrite Hrc. case_decide; [|done].
  symmetry. apply (lo_oldest _ _ _ _ HL). lia.
Qed.

(** ** Starts, ends and waits *)

(** C18. A start, with any options that a user can give and with room for a page and a snapshot,
    fails only if the numbers have run out, and then changes nothing.
    Otherwise the new transaction has the next number and the states of all others stay as they
    are; below its oldest interesting one all are committed. It is active and holds the lock on
    its number, unless it only reads what is committed: such a one is committed from the
    start, holds no lock and is in the vector of precommitted ones. If it does not read what is
    committed, its snapshot holds the states of all transactions from the oldest interesting one
    on, itself as active. *)
Theorem start_outcome s flags : reachable tpt s -> action_ok tpt (Start flags) s ->
  let n := next_number (sys_db s) + 1 in
  if decide (n >= MAX_TRA_NUMBER) then transaction_start tpt flags (sys_db s) = Ok (inl isc_tra_num_exc, sys_db s)
  else exists t d', transaction_start tpt flags (sys_db s) = Ok (inr t, d') /\ tra_number t = n /\ tra_top t = n /\
    tra_oldest t = dbb_oldest_transaction (sys_db s) /\
    (forall m, 1 <= m < n -> state_of tpt (tip_pages d') m = tip_state s m) /\
    (forall m, 1 <= m < tra_oldest t -> tip_state s m = tra_committed) /\
    (if decide (Z.land flags TRA_readonly <> 0 /\ Z.land flags TRA_read_committed <> 0)
     then state_of tpt (tip_pages d') n = tra_committed /\ tra_locks d' !! n = None /\ n ∈ precommits d'
     else state_of tpt (tip_pages d') n = tra_active /\ is_Some (tra_locks d' !! n)) /\
    (Z.land flags TRA_read_committed = 0 -> forall m, tra_oldest t <= m <= n ->
      TRA_state (tra_transactions t) (tra_oldest t) m = Ok (if decide (m = n) then tra_active else tip_state s m)).
Proof.
  intros Hr [Hroom Hf] n. pose proof (reachable_inv tpt Htpt Halign s Hr) as H. destruct s as [d live]. unfold inv in H. cbn [sys_db sys_live] in *.
  pose proof (transaction_start_inv tpt Htpt Halign flags d live H Hroom Hf) as Hst. unfold n.
  destruct (decide (next_number d >= MAX_TRA_NUMBER - 1)); [by rewrite decide_True by lia|]. rewrite decide_False by lia.
  destruct Hst as (t & d' & He & Hi & HN & Hn & Htop & Hold & _ & Hrc & Hpre & Hpc & Hstates & Hsn).
  exists t, d'. pose proof (si_live _ _ _ Hi _ _ (lookup_insert_eq live (next_number d + 1) t)) as HL.
  pose proof (lo_kind _ _ _ _ HL) as Hk. rewrite Hrc in Hpre. split_and!; try done.
  - intros m Hm. apply Hstates. lia.
  - rewrite Hold. intros m Hm. apply (co_committed _ _ (si_counters _ _ _ H)). lia.
  - rewrite <- bool_decide_and in Hpre. destruct (decide (Z.land flags TRA_readonly <> 0 /\ Z.land flags TRA_read_committed <> 0)) as [Hro|Hro].
    + rewrite bool_decide_eq_true_2 in Hpre by done. rewrite Hpre in Hk. split; [by destruct Hk as (_ & ? & _)|by apply Hpc].
    + rewrite bool_decide_eq_false_2 in Hpre by done. rewrite Hpre in Hk. destruct Hk as (Hact & x & _ & Hx & _). split; [done|eauto].
  - intros Hfl m Hm. rewrite Hfl in Hrc. change (reads_committed t = false) in Hrc. destruct (Hsn Hrc) as [_ Hsnap].
    rewrite (snapshot_read tpt d' _ t (tra_transactions t) m HL Hrc) by (done || lia).
    change (snap (set_transactions (tra_transactions t) t) m) with (snap t m). f_equal. rewrite Hsnap by lia.
    destruct (decide (m = next_number d + 1)) as [Hmn|Hmn]; [|apply Hstates; pose proof (lo_range _ _ _ _ HL); lia]. subst m. rewrite (snapshot_not_precommitted _ _ _ _ HL Hrc) in Hk. by destruct Hk.
Qed.

(** C19. The end of a transaction sets its state and no other, and releases its lock: committed after a
    commit, which only an invalidated transaction is refused; after a rollback what
    [rollback_state] says, dead if it has written and its work was not undone. One that was
    precommitted from its start stays committed. *)
Theorem end_outcome s n t (force undone : bool) : reachable tpt s -> sys_live s !! n = Some t ->
  let ends_with state r := exists d', r = Ok (inr None, d') /\ tra_locks d' !! n = None /\
    state_of tpt (tip_pages d') n = (if is_precommitted t then tra_committed else state) /\
    forall m, 1 <= m <= next_number (sys_db s) -> m <> n ->
      state_of tpt (tip_pages d') m = tip_state s m /\ tra_locks d' !! m = tra_locks (sys_db s) !! m in
  (if flag t TRA_invalidated then TRA_commit tpt t false (sys_db s) = Ok (inl isc_trans_invalid, sys_db s)
   else ends_with tra_committed (TRA_commit tpt t false (sys_db s))) /\
  ends_with (rollback_state t force undone).2 (TRA_rollback tpt t false force undone (sys_db s)).
Proof.
  intros Hr Ht ends_with. pose proof (reachable_inv tpt Htpt Halign s Hr) as H. destruct s as [d live]. unfold inv in H. cbn [sys_db sys_live] in *.
  pose proof (lo_number _ _ _ _ (si_live _ _ _ H _ _ Ht)) as [Hn1 Hn].
  assert (Hend : forall t' st, ends t t' -> st = tra_committed \/ st = tra_dead ->
    ends_with st ((TRA_set_state tpt (Some t') (tra_number t') st;; TRA_release_transaction t';; ret (inr None)) d)).
  { intros t' st Hs Hst. destruct (end_ok tpt Htpt Halign d live n t t' st H Ht Hs Hst) as (d1 & d2 & He1 & He2 & [E1 E2 E3 E4 E5 E6 E7]).
    exists d2. destruct Hs as (E & _). rewrite E, Hn1, (bind_ok _ _ _ _ _ He1), (bind_ok _ _ _ _ _ He2). rewrite E6. split; [done|].
    split; [by rewrite lookup_delete_eq|]. split; [by rewrite E5, decide_True by lia|]. intros m Hm Hne.
    rewrite E5, decide_False by lia. by rewrite lookup_delete_ne. }
  split.
  - unfold TRA_commit. cbn [andb]. destruct (flag t TRA_invalidated); [done|]. cbv zeta. destruct (flag t TRA_write); (apply Hend; [done|by left]).
  - unfold TRA_rollback. destruct (rollback_state t force undone) as [sp st] eqn:Hrs. cbn [snd]. apply Hend; [done|].
    revert Hrs. unfold rollback_state. destruct (if force || _ then _ else _); [destruct (flag t TRA_write); intros [= _ <-]; auto|].
    destruct (user_savepoints _); [intros [= _ <-]; auto|]. destruct undone; intros [= _ <-]; auto.
Qed.

(** C29. [TRA_wait], whichever of the locks on numbers are still held (the process that ran an active
    transaction may have gone, and its lock with it). A wait is refused as long as the lock on
    the number is held, and then nothing changes; with [tra_no_wait] it is never refused.
    A precommitted transaction is answered as that. Otherwise, for a number that is not below the
    oldest interesting one of who waits, it answers how the transaction has ended. One that is active all the same is
    marked dead on the inventory pages, where no other state changes, and the answer is dead.
    The snapshot of the one that waited has the answer from then on, but for a committed one that
    was waited for, and is the same for all others. *)
Theorem wait_outcome s n t m w locks : reachable tpt s -> sys_live s !! n = Some t -> 1 <= m <= next_number (sys_db s) -> tra_oldest t <= m ->
  let d := set_tra_locks locks (sys_db s) in
  let state := if decide (tip_state s m = tra_active) then tra_dead else tip_state s m in
  if decide (w <> tra_no_wait /\ is_Some (locks !! m)) then TRA_wait tpt t m w d = Ok ((t, tra_active), d)
  else if decide (m ∈ precommits d) then TRA_wait tpt t m w d = Ok ((t, tra_precommitted), d)
  else exists bits d', TRA_wait tpt t m w d = Ok ((set_transactions bits t, state), d') /\ tra_locks d' = locks /\
    (state = tra_committed \/ state = tra_dead) /\
    (forall k, 1 <= k <= next_number d -> state_of tpt (tip_pages d') k = if decide (k = m) then state else tip_state s k) /\
    (reads_committed t = false -> forall k, tra_oldest t <= k <= tra_top t -> TRA_state bits (tra_oldest t) k =
      if decide (k = m /\ (w = tra_no_wait \/ state <> tra_committed)) then Ok state else TRA_state (tra_transactions t) (tra_oldest t) k).
Proof.
  intros Hr Ht Hm Hold d0 state. pose proof (reachable_inv tpt Htpt Halign s Hr) as H. destruct s as [d live]. unfold inv in H. cbn [sys_db sys_live] in *.
  pose proof (si_live _ _ _ H _ _ Ht) as HL. destruct (decide (w <> tra_no_wait /\ is_Some (locks !! m))) as [[Hw Hl]|Hw].
  - unfold TRA_wait. rewrite (bind_ok _ _ _ true d0); [done|]. destruct w; [done|..]; unfold transaction_locked, gets; by rewrite bool_decide_eq_true_2.
  - case_decide as Hpc.
    + unfold TRA_wait, TRA_get_state, snapshotState. rewrite (bind_ok _ _ _ false d0).
      2:{ destruct w; [done|..]; unfold transaction_locked, gets; (rewrite bool_decide_eq_false_2; [done|]; intros ?; by apply Hw). }
      cbv beta iota. rewrite (bind_ok _ _ _ tra_precommitted d0); [by destruct w|].
      rewrite (bind_ok _ _ _ _ _ (precommitted_eq m d0)). by rewrite bool_decide_eq_true_2 by (split; [lia|done]).
    + destruct (TRA_wait_answers tpt Htpt Halign d live n t m w locks H Ht Hm Hpc Hold Hw) as (bits & d' & He & Hlk & Hst & Hlen & Hsn).
      fold d0 in He. change (wait_state tpt d m) with state in *. exists bits, d'. split_and!; [done|done| |intros k Hk; apply Hst; lia|].
      * unfold state. pose proof (si_limbo _ _ _ H m Hm). pose proof (state_of_range tpt (tip_pages d) m).
        destruct (decide (state_of tpt (tip_pages d) m = tra_active)); [by right|]. unfold tra_limbo, tra_committed, tra_dead, tra_active in *. lia.
      * intros Hrc k Hk. rewrite !(snapshot_read tpt d n t _ k HL Hrc) by done. rewrite (Hsn Hrc k Hk). by destruct (decide (k = m /\ (w = tra_no_wait \/ state <> tra_committed))).
Qed.

(** C11. The inventory pages show as active exactly the transactions that run and have not been
    precommitted, and each of these holds the lock on its number, with a datum not above its
    number: after a crash of the process, when the locks are gone, what is active is dead.
    One that runs and is precommitted reads what is committed, is shown as committed, and has no
    lock on its number or one with the datum 0, which counts for nobody. *)
Theorem active_iff_running s m : reachable tpt s -> 1 <= m <= next_number (sys_db s) ->
  (tip_state s m = tra_active <-> exists t, sys_live s !! m = Some t /\ is_precommitted t = false) /\
  (tip_state s m = tra_active -> exists v, tra_locks (sys_db s) !! m = Some v /\ 1 <= v <= m) /\
  (forall t, sys_live s !! m = Some t -> is_precommitted t = true ->
    reads_committed t = true /\ tip_state s m = tra_committed /\ (tra_locks (sys_db s) !! m = None \/ tra_locks (sys_db s) !! m = Some 0)).
Proof.
  destruct s as [d live]. intros Hr Hm. pose proof (reachable_inv tpt Htpt Halign _ Hr) as H. unfold inv in H. cbn [sys_db sys_live] in *.
  assert (Hfwd : state_of tpt (tip_pages d) m = tra_active -> exists t, live !! m = Some t /\ is_precommitted t = false /\
    exists v, tra_locks d !! m = Some v /\ 1 <= v <= m).
  { intros Ha. destruct (si_active _ _ _ H m Hm Ha) as [t Ht]. exists t. pose proof (lo_kind _ _ _ _ (si_live _ _ _ H _ _ Ht)) as Hk.
    destruct (is_precommitted t); [destruct Hk as (_ & Hc & _); by rewrite Hc in Ha|].
    destruct Hk as (_ & v & _ & Hv & Hv1 & _). eauto. }
  split; [split|split].
  - intros (t & ? & ? & _)%Hfwd. eauto.
  - intros (t & Ht & Hp). by destruct (live_active _ _ _ _ _ H Ht Hp).
  - by intros (t & _ & _ & ?)%Hfwd.
  - intros t Ht Hp. pose proof (lo_kind _ _ _ _ (si_live _ _ _ H _ _ Ht)) as Hk. rewrite Hp in Hk. destruct Hk as (? & ? & Hlk).
    split; [done|]. split; [done|]. destruct Hlk as [[_ ?]|[_ ?]]; auto.
Qed.

(** ** The inventory and its cache *)

(** While transactions run, [TRA_set_state] of a transaction that is not committed changes its
    state and no other, and [TRA_fetch_state] then reads any state as it was set. *)
Theorem set_then_fetch s n st m : reachable tpt s -> is_Some (sys_live s !! next_number (sys_db s)) ->
  1 <= n <= next_number (sys_db s) -> tip_state s n <> tra_committed -> 0 <= st <= 3 ->
  dbb_oldest_transaction (sys_db s) <= m <= next_number (sys_db s) ->
  exists d' d'', TRA_set_state tpt None n st (sys_db s) = Ok (tt, d') /\
    TRA_fetch_state tpt m d' = Ok (if decide (m = n) then st else tip_state s m, d'').
Proof.
  destruct s as [d live]. intros Hr Hl Hn Hnc Hst Hm. pose proof (reachable_inv tpt Htpt Halign _ Hr) as H. unfold inv in H. cbn [sys_db sys_live] in *.
  pose proof (si_counters _ _ _ H) as Hc. pose proof (co_oldest _ _ Hc) as Ho. destruct (si_cached _ _ _ H _ Hl) as (hi & Hlv & Hhi).
  assert (Hold : dbb_oldest_transaction d <= n).
  { destruct (Z.le_gt_cases (dbb_oldest_transaction d) n); [done|]. by destruct Hnc; apply (co_committed _ _ Hc); lia. }
  assert (Hpg : forall k, 0 <= k <= next_number d -> 0 <= k / tpt < Z.of_nat (length (tip_pages d))) by (intros; by apply number_page).
  assert (Hdiv : forall a b, a <= b -> a / tpt <= b / tpt) by (intros; apply Z.div_le_mono; lia).
  destruct (TRA_set_state_ok tpt Htpt Halign d hi None n st Hc (cache_live_ok _ _ _ Hlv)) as (d1 & He1 & (v & P & -> & Hlen & HP & HS) & Hlv1);
    [lia|done|pose proof (Hdiv n (next_number d)); pose proof (Hdiv _ _ Hold); lia|by apply Hpg; lia|done|].
  destruct (fetch_inventory_page_ok tpt Htpt Halign (set_cache v (set_tip_pages P d)) _ (m / tpt) (cache_live_ok _ _ _ Hlv1) HP) as (d2 & He2 & _);
    [cbn; pose proof (Hdiv (dbb_oldest_transaction d) m); pose proof (Hdiv m (next_number d)); lia|cbn; rewrite Hlen; apply Hpg; lia|].
  exists (set_cache v (set_tip_pages P d)), d2. split; [done|]. unfold TRA_fetch_state. pose proof (Hpg m ltac:(lia)) as Hpm. pose proof (proj2 (co_pages _ _ Hc)) as H31.
  rewrite (wrapU_id 32 (m / tpt)) by lia32. rewrite (bind_ok _ _ _ _ _ He2). cbn [tip_pages set_cache set_tip_pages].
  destruct (number_split tpt Htpt m ltac:(lia)) as (_ & Hmod & _). rewrite (offset_32 tpt Htpt) by lia.
  rewrite (get_state_at _ (m mod tpt) m); [|rewrite (page_room tpt P (m / tpt) HP) by (rewrite Hlen; lia); done|by apply mod_align].
  pose proof (HS m ltac:(lia)) as Hs. change (state_of tpt P m) with (state_at (page P (m / tpt)) (m mod tpt)) in Hs. by rewrite Hs.
Qed.

(** C31. The vector that [TRA_get_inventory] fills holds the states of the inventory pages from one
    transaction to another, whatever pages they lie on. *)
Theorem inventory_exact d hi base top (v : list Z) : cache_ok tpt d hi -> pages_ok tpt (tip_pages d) -> 0 <= base <= top ->
  base mod 4 = 0 -> top / tpt < Z.of_nat (length (tip_pages d)) -> top + 4 - base < 2 ^ 32 ->
  dbb_oldest_transaction d / tpt <= base / tpt <= hi -> Z.of_nat (length v) = (top + 4 - base) / 4 -> Forall (fun b => 0 <= b < 256) v ->
  exists v' d', TRA_get_inventory tpt (Some v) base top d = Ok (Some v', d') /\ length v' = length v /\
    forall n, base <= n <= top -> TRA_state v' base n = Ok (state_of tpt (tip_pages d) n).
Proof.
  intros Hc HP Hb H4 Ht H32 Hbt Hv Hby.
  destruct (TRA_get_inventory_Some tpt Htpt Halign base top ltac:(lia) H4 d hi v Hc HP Ht ltac:(lia) Hbt Hv Hby) as (v' & d' & He & _ & Hl & _ & Hs).
  exists v', d'. split; [done|]. split; [done|]. intros n Hn. pose proof (vector_len_bound base top) as Hvl. unfold vector_len in Hvl.
  rewrite TRA_state_at; rewrite ?H4, ?Z.sub_0_r; [by rewrite Hs| |]; unfold room; rewrite Hl; lia.
Qed.

(** [findStates] finds the first transaction of a range in one of the states that are asked for,
    and which it is in, also if the cache has to be filled first. *)
Theorem first_state_found d minNumber mask : counters_ok tpt d -> cache_fresh d \/ cached tpt d ->
  1 <= minNumber <= next_number d -> check_state tra_committed mask = false -> check_state tra_precommitted mask = false ->
  exists n state d', findStates tpt minNumber (next_number d) mask d = Ok ((n, state), d') /\ tip_pages d' = tip_pages d /\
    let found m := check_state (state_of tpt (tip_pages d) m) mask in
    if decide (n = 0) then state = None /\ forall m, minNumber <= m < next_number d -> found m = false
    else minNumber <= n < next_number d /\ state = Some (state_of tpt (tip_pages d) n) /\ found n = true /\
      forall m, minNumber <= m < n -> found m = false.
Proof.
  intros Hc Hca Hm H1 H2. destruct (findStates_ok tpt Htpt Halign d minNumber mask Hc Hca Hm H1 H2) as (r & d' & He & Hf & [[v ->] _]).
  exists (default 0 r), (state_of tpt (tip_pages d) <$> r), (set_cache v d). split; [done|]. split; [done|]. destruct r as [n|]; cbn in *.
  - rewrite decide_False by lia. destruct Hf as (Hn & Hp & Hb). done.
  - by rewrite decide_True.
Qed.

End Promises.

(** ** The counters *)

(** C32. The header page keeps numbers of 48 bits: what is written to one counter is read again, and
    the others do not change. *)
Theorem counters_of_48_bits h number : length (hdr_tra_high h) = 4%nat -> 0 <= number <= MAX_TRA_NUMBER ->
  counters (writeNT number h) = (number, getOIT h, getOAT h, getOST h) /\
  counters (writeOIT number h) = (getNT h, number, getOAT h, getOST h) /\
  counters (writeOAT number h) = (getNT h, getOIT h, number, getOST h) /\
  counters (writeOST number h) = (getNT h, getOIT h, getOAT h, number).
Proof.
  intros Hh Hn. destruct (counters_write h number Hh Hn) as ((_ & A1 & A2 & A3 & A4) & (_ & B1 & B2 & B3 & B4) & (_ & C1 & C2 & C3 & C4) & (_ & D1 & D2 & D3 & D4)).
  unfold counters. by rewrite A1, A2, A3, A4, B1, B2, B3, B4, C1, C2, C3, C4, D1, D2, D3, D4.
Qed.

(** What goes wrong. A transaction (1) is active; a second one takes its number and has not read
    the inventory yet when a third one starts, for which 1 is active, and 1 commits. The second
    one then finds no active transaction, does not ask for the data of the locks, and takes 2
    as the number below which versions may be removed, which the third one still needs. *)
Definition interleaved_starts : DM (Z * Z * Z) :=
  one ← transaction_start 16 0;
  begun ← start_begin 16 0;
  three ← transaction_start 16 0;
  match one, begun, three with
  | inr one, inr (two, oldest_snapshot), inr three =>
      _ ← TRA_commit 16 one false;
      two ← start_end 16 two oldest_snapshot;
      match two with
      | inr two =>
          seen ← TRA_snapshot_state 16 three 1;
          least ← LCK_query_data;
          ret (tra_oldest_active two, seen, least)
      | inl _ => lift Undefined
      end
  | _, _, _ => lift Undefined
  end.

Theorem interleaved_starts_unsafe : exists d, interleaved_starts demo_database = Ok (2, tra_active, 1, d).
Proof. eexists. vm_compute. reflexivity. Qed.

(** What goes wrong. Beyond 32 bits, [TRA_update_counters] may set a counter of the header page
    back: it compares with the lower word alone. *)
Theorem update_counters_goes_back :
  let h := Header 20 1 5 5 [1; 1; 1; 1] in
  let d := Database [] h (2 ^ 32 + 20) (2 ^ 32 + 2) (2 ^ 32 + 3) (2 ^ 32 + 5) false 0 [] None ∅ in
  counters (update_header d h) = (2 ^ 32 + 20, 2 ^ 32 + 2, 2 ^ 32 + 3, 2 ^ 32 + 5) /\ getOAT h = 2 ^ 32 + 5.
Proof. vm_compute. done. Qed.

(** What goes wrong. Pages of 16; 31 transactions, of which 5 is dead and 4 and up are interesting;
    nothing is cached. The start of a transaction that reads what is committed adds a page and
    so caches the last one alone; the dead one then passes for committed. *)
Definition uncached_database : database :=
  Database [replicate 1 255 ++ [251; 255; 255]; replicate 4 255] (Header 31 4 31 31 [0; 0; 0; 0]) 31 4 31 31 false 0 [] None ∅.

Theorem dead_passes_for_committed :
  state_of 16 (tip_pages uncached_database) 5 = tra_dead /\
  match transaction_start 16 TRA_read_committed uncached_database with
  | Ok (inr t, d) => match TRA_snapshot_state 16 t 5 d with Ok (a, _) => a = tra_committed | _ => False end
  | _ => False
  end.
Proof. vm_compute. done. Qed.

(** ** Examples *)

Lemma transactions_safe_witness : exists s', perform 16 (Rollback 12 true false false) demo = Ok s' /\ reachable 16 s'.
Proof.
  apply (transactions_safe 16 ltac:(lia) eq_refl demo (Rollback 12 true false false) demo_is_reachable).
  apply action_okb_sound. vm_compute. reflexivity.
Defined.

Lemma garbage_collection_safe_witness : exists a d', TRA_snapshot_state 16 (tra_of 12 demo) 7 (sys_db demo) = Ok (a, d') /\
  (a = tra_committed \/ a = tra_precommitted \/ a = tra_us).
Proof.
  apply (garbage_collection_safe 16 ltac:(lia) eq_refl demo 11 (tra_of 11 demo) 12 (tra_of 12 demo) 7 9 demo_is_reachable);
    [vm_compute; reflexivity|vm_compute; reflexivity|left; vm_compute; reflexivity|lia|vm_compute; reflexivity].
Defined.

Lemma none_precommitted d m : bool_decide (precommits d = []) = true -> m ∉ precommits d.
Proof. intros ->%bool_decide_eq_true. apply not_elem_of_nil. Qed.

Lemma reopen_outcome_witness : exists d', reopen 16 (closed (sys_db demo)) = Ok (tt, d') /\
  (forall n, 1 <= n <= next_number (sys_db demo) ->
    state_of 16 (tip_pages d') n = if decide (state_of 16 (tip_pages (sys_db demo)) n = tra_active) then tra_dead else state_of 16 (tip_pages (sys_db demo)) n) /\
  reachable 16 (System d' ∅).
Proof.
  destruct (reopen_outcome 16 ltac:(lia) eq_refl demo demo_is_reachable) as (d' & He & _ & Hs & Hr).
  exists d'. split; [exact He|split; [exact Hs|apply Hr; vm_compute; discriminate]].
Defined.

(** A transaction that starts while 1 is active and reads after 1 has committed *)
Definition one_active : system := after [Start 0] (System demo_database ∅).
Definition two_started : system := after [Start 0] one_active.
Definition one_committed : system := after [Commit 1 false; Start 0; Wait 3 1 tra_wait] two_started.

Lemma snapshot_isolation_witness : exists a d', TRA_snapshot_state 16 (tra_of 2 one_committed) 1 (sys_db one_committed) = Ok (a, d') /\
  (1 < 2 -> a = state_of 16 (tip_pages (sys_db one_active)) 1 \/ state_of 16 (tip_pages (sys_db one_active)) 1 = tra_active /\ a = tra_dead) /\
  (1 = 2 -> a = tra_us) /\ (2 < 1 -> a = tra_active).
Proof.
  apply (snapshot_isolation 16 ltac:(lia) eq_refl one_active two_started one_committed 0 (tra_of 2 one_committed) 1).
  - apply after_reachable.
  - apply action_okb_sound. vm_compute. reflexivity.
  - reflexivity.
  - vm_compute. reflexivity.
  - vm_compute. reflexivity.
  - apply after_leads.
  - vm_compute. reflexivity.
  - vm_compute. by split.
  - apply none_precommitted. vm_compute. reflexivity.
Defined.

Lemma read_committed_sees_latest_witness : exists d', TRA_snapshot_state 16 (tra_of 11 demo) 8 (sys_db demo) = Ok (tra_dead, d').
Proof.
  apply (read_committed_sees_latest 16 ltac:(lia) eq_refl demo 11 (tra_of 11 demo) 8 demo_is_reachable);
    [vm_compute; reflexivity|vm_compute; reflexivity|vm_compute; by split|done|apply none_precommitted; vm_compute; reflexivity].
Defined.

(** One that does not read what is committed, and one that does and is precommitted *)
Lemma start_outcome_witness : (exists t d', transaction_start 16 0 (sys_db demo) = Ok (inr t, d') /\ tra_number t = 13 /\
    TRA_state (tra_transactions t) (tra_oldest t) 8 = Ok tra_dead) /\
  exists t d', transaction_start 16 (Z.lor TRA_read_committed TRA_readonly) (sys_db demo) = Ok (inr t, d') /\
    state_of 16 (tip_pages d') 13 = tra_committed /\ 13 ∈ precommits d'.
Proof.
  split.
  - pose proof (start_outcome 16 ltac:(lia) eq_refl demo 0 demo_is_reachable ltac:(apply action_okb_sound; vm_compute; reflexivity)) as H.
    cbv zeta in H. rewrite decide_False in H by (vm_compute; intros Hd; by apply Hd). destruct H as (t & d' & He & Hn & _ & Ho & _ & _ & _ & Hs).
    exists t, d'. split; [exact He|]. split; [rewrite Hn; vm_compute; reflexivity|].
    rewrite (Hs eq_refl) by (rewrite Ho; vm_compute; by split). vm_compute. reflexivity.
  - pose proof (start_outcome 16 ltac:(lia) eq_refl demo (Z.lor TRA_read_committed TRA_readonly) demo_is_reachable
      ltac:(apply action_okb_sound; vm_compute; reflexivity)) as H.
    cbv zeta in H. rewrite decide_False in H by (vm_compute; intros Hd; by apply Hd). destruct H as (t & d' & He & _ & _ & _ & _ & _ & Hp & _).
    rewrite decide_True in Hp by (vm_compute; by split). destruct Hp as (Hp1 & _ & Hp2). exists t, d'. split; [exact He|split; [exact Hp1|exact Hp2]].
Defined.

Lemma end_outcome_witness : exists d', TRA_commit 16 (tra_of 9 demo) false (sys_db demo) = Ok (inr None, d') /\ tra_locks d' !! 9 = None /\
  state_of 16 (tip_pages d') 9 = tra_committed.
Proof.
  destruct (end_outcome 16 ltac:(lia) eq_refl demo 9 (tra_of 9 demo) false false demo_is_reachable ltac:(vm_compute; reflexivity)) as [H _].
  assert (flag (tra_of 9 demo) TRA_invalidated = false) as E by (vm_compute; reflexivity). rewrite E in H.
  assert (is_precommitted (tra_of 9 demo) = false) as Ep by (vm_compute; reflexivity). rewrite Ep in H.
  destruct H as (d' & He & Hl & Hs & _). exists d'. split; [exact He|split; [exact Hl|exact Hs]].
Defined.

(** 3 waits for 2, which is active; then the lock of 2 is lost. *)
Definition two_active : system := after [Start 0; Start 0; Start 0] (System demo_database ∅).

Lemma wait_outcome_witness : TRA_wait 16 (tra_of 3 two_active) 2 tra_wait (sys_db two_active) = Ok ((tra_of 3 two_active, tra_active), sys_db two_active) /\
  exists bits d', TRA_wait 16 (tra_of 3 two_active) 2 tra_wait (set_tra_locks ∅ (sys_db two_active)) =
      Ok ((set_transactions bits (tra_of 3 two_active), tra_dead), d') /\
    state_of 16 (tip_pages d') 2 = tra_dead /\ TRA_state bits (tra_oldest (tra_of 3 two_active)) 2 = Ok tra_dead.
Proof.
  assert (Hpc : forall locks, 2 ∉ precommits (set_tra_locks locks (sys_db two_active))) by (intros locks; apply none_precommitted; vm_compute; reflexivity).
  assert (Hst : state_of 16 (tip_pages (sys_db two_active)) 2 = tra_active) by (vm_compute; reflexivity).
  split.
  - pose proof (wait_outcome 16 ltac:(lia) eq_refl two_active 3 (tra_of 3 two_active) 2 tra_wait (tra_locks (sys_db two_active))
      ltac:(apply after_reachable) ltac:(vm_compute; reflexivity) ltac:(vm_compute; by split) ltac:(vm_compute; done)) as H.
    cbv zeta in H. rewrite decide_True in H by (split; [done|exists 1; vm_compute; reflexivity]). exact H.
  - pose proof (wait_outcome 16 ltac:(lia) eq_refl two_active 3 (tra_of 3 two_active) 2 tra_wait ∅
      ltac:(apply after_reachable) ltac:(vm_compute; reflexivity) ltac:(vm_compute; by split) ltac:(vm_compute; done)) as H.
    cbv zeta in H. rewrite decide_False in H by (rewrite lookup_empty; by intros [_ [? ?]]). rewrite decide_False in H by apply Hpc.
    rewrite Hst, (decide_True (P := tra_active = tra_active)) in H by done. destruct H as (bits & d' & He & _ & _ & Hp & Hs).
    exists bits, d'. split; [exact He|]. split; [rewrite Hp by (vm_compute; by split); by rewrite decide_True|].
    rewrite Hs by (vm_compute; by repeat split). rewrite decide_True; [done|]. split; [done|]. by right.
Defined.

Lemma active_iff_running_witness : state_of 16 (tip_pages (sys_db demo)) 12 = tra_active /\
  exists v, tra_locks (sys_db demo) !! 12 = Some v /\ 1 <= v <= 12.
Proof.
  assert (Hs : state_of 16 (tip_pages (sys_db demo)) 12 = tra_active) by (vm_compute; reflexivity). split; [exact Hs|].
  destruct (active_iff_running 16 ltac:(lia) eq_refl demo 12 demo_is_reachable ltac:(vm_compute; by split)) as [_ [H _]]. exact (H Hs).
Defined.

Lemma set_then_fetch_witness : exists d' d'', TRA_set_state 16 None 9 tra_limbo (sys_db demo) = Ok (tt, d') /\
  TRA_fetch_state 16 9 d' = Ok (tra_limbo, d'').
Proof.
  apply (set_then_fetch 16 ltac:(lia) eq_refl demo 9 tra_limbo 9 demo_is_reachable);
    [exists (tra_of 12 demo); vm_compute; reflexivity|vm_compute; by split|vm_compute; discriminate|vm_compute; by split|vm_compute; by split].
Defined.

Lemma demo_cached : counters_ok 16 (sys_db demo) /\ cached 16 (sys_db demo).
Proof.
  pose proof (reachable_inv 16 ltac:(lia) eq_refl demo demo_is_reachable) as H. split; [apply (si_counters _ _ _ H)|].
  apply (si_cached _ _ _ H 9). exists (tra_of 9 demo). vm_compute. reflexivity.
Qed.

Lemma inventory_exact_witness : exists v' d', TRA_get_inventory 16 (Some [0; 0; 0]) 4 12 (sys_db demo) = Ok (Some v', d') /\ length v' = 3%nat /\
  forall n, 4 <= n <= 12 -> TRA_state v' 4 n = Ok (state_of 16 (tip_pages (sys_db demo)) n).
Proof.
  destruct demo_cached as [Hc (hi & Hl & Hhi)].
  apply (inventory_exact 16 ltac:(lia) eq_refl (sys_db demo) hi 4 12 [0; 0; 0] (cache_live_ok _ _ _ Hl) (co_pages _ _ Hc)).
  all: try (vm_compute; (reflexivity || by split)).
  repeat constructor; done.
Defined.

Lemma first_state_found_witness : exists n state d', findStates 16 7 12 (Z.shiftl 1 tra_dead) (sys_db demo) = Ok ((n, state), d') /\
  tip_pages d' = tip_pages (sys_db demo).
Proof.
  destruct (first_state_found 16 ltac:(lia) eq_refl (sys_db demo) 7 (Z.shiftl 1 tra_dead) (proj1 demo_cached) (or_intror (proj2 demo_cached))
    ltac:(vm_compute; by split) eq_refl eq_refl) as (n & state & d' & He & Hp & _).
  exists n, state, d'. split; [exact He|exact Hp].
Defined.

Lemma counters_of_48_bits_witness : counters (writeOAT (2 ^ 40 + 7) (Header 20 1 5 5 [1; 1; 1; 1])) = (2 ^ 32 + 20, 2 ^ 32 + 1, 2 ^ 40 + 7, 2 ^ 32 + 5).
Proof.
  assert (0 <= 2 ^ 40 + 7 <= MAX_TRA_NUMBER) as Hn by (vm_compute; by split).
  destruct (counters_of_48_bits (Header 20 1 5 5 [1; 1; 1; 1]) (2 ^ 40 + 7) eq_refl Hn) as (_ & _ & H & _). exact H.
Defined.
